(* ===== verification/_CoqProject ===== *)
-Q . S2P
Prelude.v
BTreeMap.v
EraHistory.v
UplcSyntax.v
ConstantList.v
SortedAssoc.v
SortedPairs.v
LedgerValue.v
FlatBits.v
FlatEncoder.v
FlatDecoder.v
Flat.v
ParamName.v
Costing.v
CostProps.v
CekSyntax.v
CostArgument.v
Integer.v
Builtins.v
BuiltinBits.v
BuiltinProps.v
CekTyping.v
Cek.v
CekBudget.v
CekProps.v
BuiltinSafety.v
ProtocolParameters.v
PhaseTwo.v
Headers.v
Mempool.v
Governance.v
Summary.v
PoolsUpdates.v
StakeSummary.v
StakeProps.v
Rewards.v
RewardsProps.v
ProposalsTree.v
ProposalsForest.v
ForestProps.v
Ratification.v
RatificationProps.v
EpochTransition.v
EpochGovernance.v
EpochProps.v
EpochBoundary.v
BoundaryProps.v
ChainStore.v
ChainView.v
ChainStoreProps.v
SelectChain.v
SelectChainProps.v
FetchBlocks.v
Pipeline.v
Fragments.v
FragmentsProps.v
Volatile.v
VolatileReads.v
BlockStore.v
BlockContext.v
LayeredView.v
ContextProps.v
LedgerState.v
LedgerProps.v
LedgerClaims.v
ValidateBlock.v
AdoptChain.v
AdoptChainProps.v
ConsensusClaims.v
Transaction.v
RulesContext.v
PhaseOne.v
PhaseOneGov.v
PhaseOneScripts.v
TransactionRules.v
ValueProps.v
RulesProps.v
PhaseOneProps.v
TransactionProps.v
RulesClaims.v
