(* ===== verification/Prelude.v ===== *)
(** * Amaru: a verification library for the ledger, the evaluator and the chain

    Amaru is a node for the Cardano network.  This library models the parts of it that
    decide what the chain is, and proves what makes them right.  Definitions keep the names
    of the source; "[dir/file.rs]" below is a file of [src/crates/].

    ** The program and its parts

    - _Time_: slots, epochs and wall-clock times are converted through the history of eras.
    - _Scripts_: transactions carry Plutus programs.  They are decoded from the flat
      format, evaluated by a CEK machine that charges a budget for every step and builtin, and
      phase two of validation reports those that fail.
    - _Epoch boundaries_: from snapshots of the store, the node computes the stake
      distribution and the rewards of an epoch, ratifies governance proposals, updates pools, and
      writes the outcome in three transactions.
    - _The rules_: a transaction is checked rule by rule, each of which moves value between
      the context of its block and a balance, and asks for signatures and scripts; then its scripts are run,
      and its inputs, or its collateral, are spent.
    - _The ledger_: the last blocks are kept in memory, as differences that can be rolled
      back, on top of a store on disk, with the pending epoch boundary in between.  A block is
      validated against a context filled from these layers; it collects the changes of
      the block, which become the newest difference, while the oldest one is saved.
    - _The chain_: stages exchange messages and share a store of headers and blocks.  Chain
      selection picks the tip to follow, block fetching downloads what is missing, block
      validation has the ledger apply it or switch to a fork, chain adoption moves the best chain.
    - _The mempool_ holds transactions until they are in a block.

    ** The files

    _Shared_.  This file has the outcomes of Rust code ([exec]: a value, an error, a panic, or lack
    of fuel) with their monad, machine integers, saturation and byte arithmetic, loops, the
    hint database [amaru], the tactics [exec_inv], [case_bool] and [bool_to_prop], and the lemmas on
    lists that several components use.
    [BTreeMap], [SortedAssoc], [SortedPairs] and [ConstantList] model ordered maps, sorted vectors
    ([amaru-kernel/src/data_structures/sorted_pairs.rs]) and the lists of
    [amaru-uplc/src/constant/list.rs]; [FlatBits] has the bits of byte strings.

    _Time_.  [EraHistory]: [amaru-kernel/src/cardano/era_history.rs] and what it uses.

    _Scripts_.  [UplcSyntax] and [CekSyntax] have the data of [amaru-uplc]; [FlatEncoder],
    [FlatDecoder] and [Flat] the codec ([flat/]); [ParamName], [Costing] and [CostArgument] the
    cost models ([machine/cost_model/]), with [CostProps]; [Integer], [LedgerValue] and
    [Builtins] the builtins ([integer.rs], [ledger_value.rs], [machine/runtime.rs]), with
    [BuiltinBits], [BuiltinProps] and [BuiltinSafety]; [Cek] the machine ([machine/cek.rs]), with
    [CekTyping], [CekBudget] and [CekProps]; [PhaseTwo] the rules of
    [amaru-ledger/src/rules/transaction/phase_two/mod.rs].

    _Epoch boundaries_.  [ProtocolParameters], [Governance] and [Summary] have the data;
    [StakeSummary] and [Rewards] the summaries ([amaru-ledger/src/summary/]), with [StakeProps]
    and [RewardsProps]; [ProposalsTree], [ProposalsForest] and [Ratification] the
    ratification ([amaru-ledger/src/governance/]), with [ForestProps] and [RatificationProps];
    [PoolsUpdates] and [EpochTransition] what is done at a boundary
    ([amaru-ledger/src/epoch_transition/], [state/volatile/overlay.rs],
    [store/epoch_transition.rs]), with [EpochGovernance], [EpochProps], [EpochBoundary] and
    [BoundaryProps].

    _The ledger_.  [Fragments] has the differences and their aggregate, [Volatile] the series
    and the volatile database, [VolatileReads] its lookups
    ([amaru-ledger/src/state/volatile/]); [BlockStore] saves a block to the columns of
    the store ([amaru-stores/src/rocksdb/mod.rs], [ledger/columns/]); [BlockContext] is the context
    of a block ([amaru-ledger/src/context/default/]); [LedgerState] the state
    ([amaru-ledger/src/state.rs]).  [FragmentsProps], [LayeredView], [ContextProps] and
    [LedgerProps] have the lemmas, [LedgerClaims] the theorems and a small ledger on which they apply.

    _The rules_.  [Transaction] has what the rules read of transactions, with balances, native scripts and
    fees ([amaru-kernel/src/cardano/]); [RulesContext] the rest of the context of a block, its balance
    and the witnesses asked for; [PhaseOne], [PhaseOneGov] and [PhaseOneScripts] have a module for each file of
    [amaru-ledger/src/rules/transaction/phase_one/]; [TransactionRules] puts them together
    ([rules.rs], [rules/block.rs], [rules/transaction/mod.rs]) and gives the ledger state the rules it asks for
    ([rules_parts]).  [ValueProps] accounts for what a context holds, [RulesProps] and [PhaseOneProps] have what
    each rule does, [TransactionProps] what transactions and blocks do, [RulesClaims] the theorems and a block on which
    they apply.

    _The chain_.  [Headers] has points, headers and the order of tips; [ChainStore] the interface
    of the store, the algorithms written against it and both implementations
    ([amaru-ouroboros-traits/src/stores/chain_store/], [amaru-stores/src/rocksdb/consensus/]);
    [ChainView] what a store promises, as a class with both stores as instances, and
    [ChainStoreProps] what the algorithms find.  [SelectChain], [FetchBlocks], [ValidateBlock]
    and [AdoptChain] are the stages of [amaru-consensus/src/stages/]; [SelectChainProps],
    [Pipeline] (selection and fetching with their mailboxes and timers) and [AdoptChainProps] have
    their properties, [ConsensusClaims] further theorems and a small chain on which they apply.

    _The mempool_.  [Mempool]: [amaru-mempool/src/strategies/in_memory_mempool.rs].

    ** What is shown

    - Scripts: decoding ends on every byte string, undoes encoding, and only gives
      programs that the bytes spell, with constants of the types they announce; evaluation never panics, ends when steps are priced, accounts for every step, and
      does not depend on the size of the batches it charges; every builtin is safe on well-typed
      arguments; phase two gives a verdict for every transaction that is translated, no failure exactly when
      all scripts evaluate as they should.
    - Epoch boundaries: the stake distribution adds up; rewards are computed and stay within
      what is available; ratification ends, within the treasury; pools follow
      their certificates, but for a registration that two retirements of its epoch follow; crossing a boundary conserves money, an interrupted one is
      resumed, and the overlay announces what flushing writes.
    - The rules: an accepted block conserves lovelace and every asset, but for what it mints and burns; no
      output is spent twice; who owns what is spent or withdrawn has agreed to it, by a signature, a provided native script that holds or a provided
      Plutus script with its redeemer; reference scripts are paid for by the byte.
    - The ledger: the layers answer as the store would with the volatile blocks replayed on it, so
      that a block that becomes stable changes no answer, and the next block sees what
      the context of the one before said (but for accounts registered under a pending credit); an accepted block can be saved; rolling forward keeps blocks in
      order; a fork switch completes, keeps a prefix, or gives the volatile state back, and the store
      unless it wrote an epoch boundary.
    - The chain: the two stores agree, block contents included, on writes that fit; chain selection follows the highest candidate whatever
      the other stages do to the store; the request to fetch is unique, and not lost
      unless the ledger is at the origin or a tip has no boundary to fetch from; adoption keeps the best chain and its anchor.
    - The mempool behaves as a bounded queue.
    - Theorems whose name is that of a mishap state when the code does not do what it
      means to, most of them for any state, with a witness that meets their conditions: [discharge_skips_constr], [update_exchanges_rates], [reserves_underflow],
      [late_proposal_survives], [no_confidence_is_permanent], [registration_lost],
      [treasury_delta_misses_forfeits], [preview_first_epochs_broken],
      [dormant_epochs_flushed_twice], [failed_switch_keeps_boundary], [straddle_refund_visible] and
      [fresh_node_never_fetches].

    ** Conventions

    A machine integer is a [Z] in its range; operations that can leave it are written out, and
    overflow is a [Panic], as in builds with overflow checks.  Maps and sets are finite
    maps and sets of the library; where the order of iteration shows, they are lists.  An error of
    the code is a value; [unwrap], failed assertions and indices out of range are panics.
    Code that changes shared state passes it explicitly, also along errors where the change
    stays.  References are values, and arenas are not modelled.

    Loops that are not structural have fuel.  It is the number of bits left for decoders, the
    number of nodes for data, the value itself or its size for [extended_gcd] and
    [mod_pow], the slot of a header for walks along parents, the difference in height for walks to an
    anchor, the number of headers for walks along children, the number of proposals plus one for
    ratification, the length of the series for binary search, the size of the scripts for the tiers of their fee.  The theorems show that no run
    ends for lack of it; for the CEK machine this is [evaluation_terminates], where the fuel is
    computed from the budget.

    Parameters stand for code of other libraries, or of parts that are not modelled, as
    classes with the laws that are relied on: [Crypto] and [Hashing] (cryptography), [DataCodec]
    (CBOR), [UnstableSort] (a sort of the standard library that may permute equals), [NetworkBlocks]
    (decoding of blocks), [Outputs] (transaction outputs), [LedgerParts] (rules of blocks, which [rules_parts] implements, and the
    background computation of rewards), [Codecs] (sizes of encoded values, language views), the translation of transactions to script contexts.  Witnesses
    instantiate them with concrete functions.

    ** Not modelled

    The translation of transactions to script contexts, which needs the whole of a decoded transaction; the
    CBOR codecs, thin layers over a library; cryptography, VRF and KES; the multiplexer and the mini-protocols, which live on
    sockets and on the asynchronous stage framework; the framework and its simulator; the textual
    syntax of programs; bootstrapping, the command line, terminal interface, metrics, tracing and tests. *)

From stdpp Require Export base tactics list numbers option strings sets gmap.
From Stdlib Require Export ZArith Lia Bool Sorted.

#[global] Open Scope Z_scope.
#[global] Set Default Proof Using "Type".

(** ** Results of executable Rust code

    [exec E A] is what running a Rust function of return type
    [Result<A, E>] can do: return [Ok a], return [Err e], panic (an index out
    of range, an arithmetic overflow under overflow checks, an [unwrap] on the
    wrong variant), or, for the fuelled loops of the model only, run out of
    fuel. *)
Inductive exec (E A : Type) : Type :=
| Ok (a : A)
| Err (e : E)
| Panic
| OutOfFuel.
Arguments Ok {E A} a.
Arguments Err {E A} e.
Arguments Panic {E A}.
Arguments OutOfFuel {E A}.

#[global] Instance exec_ret {E} : MRet (exec E) := λ A a, Ok a.
#[global] Instance exec_bind {E} : MBind (exec E) := λ A B f m,
  match m with
  | Ok a => f a
  | Err e => Err e
  | Panic => Panic
  | OutOfFuel => OutOfFuel
  end.
#[global] Instance exec_fmap {E} : FMap (exec E) := λ A B f m,
  match m with
  | Ok a => Ok (f a)
  | Err e => Err e
  | Panic => Panic
  | OutOfFuel => OutOfFuel
  end.

(** [m.map_err(f)]. *)
Definition map_err {E F A} (f : E → F) (m : exec E A) : exec F A :=
  match m with
  | Ok a => Ok a
  | Err e => Err (f e)
  | Panic => Panic
  | OutOfFuel => OutOfFuel
  end.

Definition is_some {A} (o : option A) : bool := match o with Some _ => true | None => false end.

(** [o.ok_or(e)]. *)
Definition ok_or {E A} (e : E) (o : option A) : exec E A :=
  match o with Some a => Ok a | None => Err e end.

(** A run that neither panics nor runs out of fuel. *)
Definition terminates {E A} (m : exec E A) : bool :=
  match m with Ok _ | Err _ => true | Panic | OutOfFuel => false end.

(** The result of a run that returned [Ok]. *)
Definition is_ok {E A} (m : exec E A) : bool :=
  match m with Ok _ => true | _ => false end.

Lemma bind_Ok {E A B} (m : exec E A) (f : A → exec E B) b :
  (m ≫= f) = Ok b ↔ ∃ a, m = Ok a ∧ f a = Ok b.
Proof. destruct m; cbn; naive_solver. Qed.

Lemma bind_Err {E A B} (m : exec E A) (f : A → exec E B) e :
  (m ≫= f) = Err e ↔ m = Err e ∨ ∃ a, m = Ok a ∧ f a = Err e.
Proof. destruct m; cbn; naive_solver. Qed.

Lemma fmap_Ok {E A B} (m : exec E A) (f : A → B) b :
  (f <$> m) = Ok b ↔ ∃ a, m = Ok a ∧ f a = b.
Proof. destruct m; cbn; naive_solver. Qed.

Lemma map_err_Ok {E F A} (f : E → F) (m : exec E A) a :
  map_err f m = Ok a ↔ m = Ok a.
Proof. destruct m; cbn; naive_solver. Qed.

Lemma ok_or_Ok {E A} (e : E) (o : option A) a : ok_or e o = Ok a ↔ o = Some a.
Proof. destruct o; cbn; naive_solver. Qed.

Lemma bind_assoc {E A B C} (m : exec E A) (f : A → exec E B) (g : B → exec E C) :
  ((m ≫= f) ≫= g) = (m ≫= λ a, f a ≫= g).
Proof. by destruct m. Qed.

Lemma terminates_bind {E A B} (m : exec E A) (f : A → exec E B) :
  terminates m = true → (∀ a, m = Ok a → terminates (f a) = true) →
  terminates (m ≫= f) = true.
Proof. destruct m; cbn; naive_solver. Qed.

(** The run returns, and what it returns on success has property [P]. *)
Definition returns {E A} (P : A → Prop) (m : exec E A) : Prop :=
  match m with Ok a => P a | Err _ => True | Panic | OutOfFuel => False end.

Lemma returns_bind {E A B} (P : A → Prop) (Q : B → Prop) (m : exec E A) (f : A → exec E B) :
  returns P m → (∀ a, P a → returns Q (f a)) → returns Q (m ≫= f).
Proof. destruct m; cbn; auto. Qed.
Lemma returns_impl {E A} (P Q : A → Prop) (m : exec E A) :
  returns P m → (∀ a, P a → Q a) → returns Q m.
Proof. destruct m; cbn; auto. Qed.
Lemma returns_map_err {E F A} (P : A → Prop) (f : E → F) (m : exec E A) :
  returns P m → returns P (map_err f m).
Proof. by destruct m. Qed.
Lemma returns_ok_or {E A} (e : E) (o : option A) : returns (λ a, o = Some a) (ok_or e o).
Proof. by destruct o. Qed.
Lemma returns_terminates {E A} (m : exec E A) : terminates m = true → returns (λ a, m = Ok a) m.
Proof. by destruct m. Qed.

(** [exec_inv] turns a hypothesis [m ≫= f = Ok b] into the successful steps. *)
Ltac exec_inv :=
  repeat match goal with
  | H : (_ ≫= _) = Ok _ |- _ =>
      let a := fresh "a" in let E := fresh "Hr" in
      apply bind_Ok in H as (a & E & H); cbn beta in H
  | H : (_ <$> _) = Ok _ |- _ =>
      let a := fresh "a" in let E := fresh "Hr" in
      apply fmap_Ok in H as (a & E & H)
  | H : map_err _ _ = Ok _ |- _ => apply map_err_Ok in H
  | H : ok_or _ _ = Ok _ |- _ => apply ok_or_Ok in H
  | H : mret _ = Ok _ |- _ => injection H as H
  | H : Ok _ = Ok _ |- _ => injection H as H
  | H : Err _ = Ok _ |- _ => discriminate H
  | H : Panic = Ok _ |- _ => discriminate H
  | H : OutOfFuel = Ok _ |- _ => discriminate H
  end.

(** Case analysis on a boolean test, with its arithmetic meaning. *)
Ltac case_bool :=
  match goal with
  | |- context [Z.eqb ?a ?b] => destruct (Z.eqb_spec a b)
  | |- context [Z.ltb ?a ?b] => destruct (Z.ltb_spec a b)
  | |- context [Z.leb ?a ?b] => destruct (Z.leb_spec a b)
  | |- context [Nat.eqb ?a ?b] => destruct (Nat.eqb_spec a b)
  | |- context [Nat.ltb ?a ?b] => destruct (Nat.ltb_spec a b)
  | |- context [Nat.leb ?a ?b] => destruct (Nat.leb_spec a b)
  end.
Tactic Notation "case_bool_in" hyp(H) :=
  match type of H with
  | context [Z.eqb ?a ?b] => destruct (Z.eqb_spec a b)
  | context [Z.ltb ?a ?b] => destruct (Z.ltb_spec a b)
  | context [Z.leb ?a ?b] => destruct (Z.leb_spec a b)
  | context [Nat.eqb ?a ?b] => destruct (Nat.eqb_spec a b)
  | context [Nat.ltb ?a ?b] => destruct (Nat.ltb_spec a b)
  | context [Nat.leb ?a ?b] => destruct (Nat.leb_spec a b)
  end.

(** Propositional reading of boolean hypotheses. *)
Ltac bool_to_prop :=
  repeat match goal with
  | H : (_ && _)%bool = true |- _ => apply andb_true_iff in H as [? ?]
  | H : (_ && _)%bool = false |- _ => apply andb_false_iff in H
  | H : (_ || _)%bool = false |- _ => apply orb_false_iff in H as [? ?]
  | H : (_ || _)%bool = true |- _ => apply orb_true_iff in H
  | H : negb _ = true |- _ => apply negb_true_iff in H
  | H : negb _ = false |- _ => apply negb_false_iff in H
  | H : Z.eqb _ _ = true |- _ => apply Z.eqb_eq in H
  | H : Z.eqb _ _ = false |- _ => apply Z.eqb_neq in H
  | H : Z.ltb _ _ = true |- _ => apply Z.ltb_lt in H
  | H : Z.ltb _ _ = false |- _ => apply Z.ltb_ge in H
  | H : Z.leb _ _ = true |- _ => apply Z.leb_le in H
  | H : Z.leb _ _ = false |- _ => apply Z.leb_gt in H
  end.

(** ** Machine integers

    A [u8], [u32], [u64] or [usize] is a [Z] in its range.  Checked arithmetic
    (the default operators, under overflow checks) panics outside of the range;
    the saturating and wrapping variants are written out. *)
Definition u8_max : Z := 2 ^ 8 - 1.
Definition u32_max : Z := 2 ^ 32 - 1.
Definition u64_max : Z := 2 ^ 64 - 1.
Definition u128_max : Z := 2 ^ 128 - 1.
Definition usize_max : Z := u64_max.
Definition usize_BITS : Z := 64.
Definition i64_min : Z := - 2 ^ 63.
Definition i64_max : Z := 2 ^ 63 - 1.

Definition u64_add {E} (a b : Z) : exec E Z := if a + b <=? u64_max then Ok (a + b) else Panic.
Definition u64_sub {E} (a b : Z) : exec E Z := if b <=? a then Ok (a - b) else Panic.
Definition u64_mul {E} (a b : Z) : exec E Z := if a * b <=? u64_max then Ok (a * b) else Panic.
Definition u64_div {E} (a b : Z) : exec E Z := if b =? 0 then Panic else Ok (a / b).
Definition u64_rem {E} (a b : Z) : exec E Z := if b =? 0 then Panic else Ok (a mod b).

Definition u64_saturating_add (a b : Z) : Z := Z.min u64_max (a + b).
Definition u64_saturating_sub (a b : Z) : Z := Z.max 0 (a - b).
Definition i64_clamp (z : Z) : Z := Z.max i64_min (Z.min i64_max z).
Definition i64_saturating_add (a b : Z) : Z := i64_clamp (a + b).
Definition i64_saturating_abs (a : Z) : Z := i64_clamp (Z.abs a).
Definition i64_saturating_sub (a b : Z) : Z := i64_clamp (a - b).
Definition i64_saturating_mul (a b : Z) : Z := i64_clamp (a * b).

(** Saturating [i64] arithmetic, in a scope of its own. *)
Declare Scope sat_scope.
Infix "⊞" := i64_saturating_add (at level 50, left associativity) : sat_scope.
Infix "⊠" := i64_saturating_mul (at level 40, left associativity) : sat_scope.

Lemma u64_add_Ok {E} a b c : u64_add (E:=E) a b = Ok c ↔ c = a + b ∧ a + b <= u64_max.
Proof. unfold u64_add; case_bool; naive_solver lia. Qed.
Lemma u64_sub_Ok {E} a b c : u64_sub (E:=E) a b = Ok c ↔ c = a - b ∧ b <= a.
Proof. unfold u64_sub; case_bool; naive_solver lia. Qed.
Lemma u64_mul_Ok {E} a b c : u64_mul (E:=E) a b = Ok c ↔ c = a * b ∧ a * b <= u64_max.
Proof. unfold u64_mul; case_bool; naive_solver lia. Qed.
Lemma u64_div_Ok {E} a b c : u64_div (E:=E) a b = Ok c ↔ c = a / b ∧ b ≠ 0.
Proof. unfold u64_div; case_bool; naive_solver. Qed.

Lemma div_bounds a b : 0 < b → 0 <= a → 0 <= a / b ∧ a / b * b <= a < a / b * b + b.
Proof.
  intros. pose proof (Z.mul_div_le a b). pose proof (Z.mul_succ_div_gt a b).
  split; [apply Z.div_pos; lia|lia].
Qed.

Create HintDb amaru.

(** ** Slices and loops

    Indexing a slice out of range panics, for reads and for writes. *)
Definition index {E A} (l : list A) (i : nat) : exec E A :=
  match l !! i with Some a => Ok a | None => Panic end.
Definition index_set {E A} (l : list A) (i : nat) (a : A) : exec E (list A) :=
  if (i <? length l)%nat then Ok (<[i := a]> l) else Panic.

(** [for x in l { body }], threading the variables the body assigns. *)
Fixpoint for_in {E A S} (l : list A) (body : S → A → exec E S) (s : S) : exec E S :=
  match l with
  | [] => Ok s
  | x :: l => s ← body s x; for_in l body s
  end.

Lemma index_Ok {E A} (l : list A) i a : index (E := E) l i = Ok a ↔ l !! i = Some a.
Proof. unfold index. destruct (l !! i); naive_solver. Qed.
Lemma index_lt {E} (l : list Z) i : (i < length l)%nat → index (E := E) l i = Ok (nth i l 0).
Proof. intros Hi. apply index_Ok. rewrite nth_lookup. by destruct (lookup_lt_is_Some_2 l i Hi) as [? ->]. Qed.
Lemma index_set_lt {E A} (l : list A) i a : (i < length l)%nat → index_set (E := E) l i a = Ok (<[i := a]> l).
Proof. intros Hi. unfold index_set. by case_bool; [|lia]. Qed.

Lemma for_in_app {E A S} (l1 l2 : list A) (body : S → A → exec E S) s :
  for_in (l1 ++ l2) body s = (s ← for_in l1 body s; for_in l2 body s).
Proof. revert s. induction l1 as [|x l1 IH]; intros s; [done|]. cbn. by destruct (body s x); cbn. Qed.

(** A loop keeps an invariant its body keeps. *)
Lemma returns_for_in {E A S} (P : S → Prop) (l : list A) (body : S → A → exec E S) s :
  P s → (∀ s a, a ∈ l → P s → returns P (body s a)) → returns P (for_in l body s).
Proof.
  revert s. induction l as [|x l IH]; intros s Hs Hbody; cbn [for_in]; [done|].
  eapply returns_bind; [apply Hbody; [left|done]|]. intros s' Hs'. apply IH; [done|].
  intros. apply Hbody; [by right|done].
Qed.

(** A loop that fills a range of a slice, one position after the other. *)
Lemma for_in_fill {E A} (off n : nat) (f : nat → A) (body : list A → nat → exec E (list A)) (l : list A) :
  (off + n <= length l)%nat →
  (∀ l' i, length l' = length l → (i < n)%nat → body l' i = Ok (<[(off + i)%nat := f i]> l')) →
  for_in (seq 0 n) body l = Ok (take off l ++ map f (seq 0 n) ++ drop (off + n) l).
Proof.
  intros Hl Hbody. revert Hl Hbody. induction n as [|n IH]; intros Hl Hbody.
  { cbn. by rewrite Nat.add_0_r, take_drop. }
  rewrite seq_S, for_in_app, IH; [|lia|intros; apply Hbody; lia]. cbn [mbind exec_bind for_in Nat.add].
  rewrite Hbody; [|rewrite !length_app, length_take, length_map, length_seq, length_drop; lia|lia].
  cbn [mbind exec_bind]. f_equal. rewrite map_app, <- app_assoc.
  rewrite insert_app_r_alt by (rewrite length_take; lia). f_equal.
  rewrite insert_app_r_alt by (rewrite length_take, length_map, length_seq; lia). f_equal.
  rewrite length_take, length_map, length_seq.
  replace (off + n - off `min` length l - n)%nat with 0%nat by lia.
  destruct (drop (off + n) l) as [|x r] eqn:Hd.
  { apply (f_equal length) in Hd. rewrite length_drop in Hd. cbn in Hd. lia. }
  cbn. f_equal. replace (off + S n)%nat with (off + n + 1)%nat by lia.
  by rewrite <- drop_drop, Hd.
Qed.

(** ** Saturating arithmetic on non-negative machine integers *)

Definition i64_nonneg (z : Z) : Prop := 0 <= z <= i64_max.

Lemma i64_clamp_range z : i64_min <= i64_clamp z <= i64_max.
Proof. unfold i64_clamp, i64_min, i64_max. lia. Qed.
Lemma i64_clamp_nonneg z : 0 <= z → i64_nonneg (i64_clamp z).
Proof. unfold i64_nonneg, i64_clamp, i64_min, i64_max. lia. Qed.
Lemma sat_add_nonneg a b : 0 <= a → 0 <= b → i64_nonneg (i64_saturating_add a b).
Proof. intros. apply i64_clamp_nonneg. lia. Qed.
Lemma sat_mul_nonneg a b : 0 <= a → 0 <= b → i64_nonneg (i64_saturating_mul a b).
Proof. intros. apply i64_clamp_nonneg. by apply Z.mul_nonneg_nonneg. Qed.
Lemma i64_nonneg_pos z : i64_nonneg z → 0 <= z.
Proof. by intros []. Qed.
Lemma i64_nonneg_add a b : i64_nonneg a → i64_nonneg b → i64_nonneg (i64_saturating_add a b).
Proof. intros [] []. by apply sat_add_nonneg. Qed.
Lemma i64_nonneg_mul_l a b : i64_nonneg a → 0 <= b → i64_nonneg (i64_saturating_mul a b).
Proof. intros [] ?. by apply sat_mul_nonneg. Qed.
Lemma i64_nonneg_mul_r a b : 0 <= a → i64_nonneg b → i64_nonneg (i64_saturating_mul a b).
Proof. intros ? []. by apply sat_mul_nonneg. Qed.
Lemma sat_add_pos a b : 0 <= a → 0 <= b → 0 <= i64_saturating_add a b.
Proof. intros. by apply sat_add_nonneg. Qed.
Lemma sat_mul_pos a b : 0 <= a → 0 <= b → 0 <= i64_saturating_mul a b.
Proof. intros. by apply sat_mul_nonneg. Qed.
#[export] Hint Resolve i64_nonneg_add i64_nonneg_mul_l i64_nonneg_mul_r sat_add_pos sat_mul_pos : amaru.
#[export] Hint Extern 1 (0 <= Z.max _ _) => lia : amaru.
#[export] Hint Extern 1 (0 <= Z.min _ _) => lia : amaru.
