(* ===== verification/BTreeMap.v ===== *)
(** * Ordered maps on integer keys

    [std::collections::BTreeMap] with [u64] keys, as the code uses it: the
    association list of its entries in ascending order of the keys, which is what
    iteration yields.  [get], [insert], [remove] and [range(from..)], with the
    lemmas that let clients reason on the set of entries. *)

From S2P Require Import Prelude.

Lemma filter_all {A} (P : A → Prop) `{∀ x, Decision (P x)} (l : list A) : Forall P l → filter P l = l.
Proof. induction 1 as [|x l Hx _ IH]; [done|]. rewrite filter_cons_True by done. by rewrite IH. Qed.

Lemma Forall_filter {A} (Q P : A → Prop) `{∀ x, Decision (P x)} (l : list A) : Forall Q l → Forall Q (filter P l).
Proof. rewrite !Forall_forall. intros Hl x [_ Hx]%list_elem_of_filter. by apply Hl. Qed.

Module BTreeMap.
Section Ops.
Context {V : Type}.
Implicit Types (m : list (Z * V)) (k : Z) (v : V).

Fixpoint get (k : Z) (m : list (Z * V)) : option V :=
  match m with
  | [] => None
  | (k', v) :: m => if k' =? k then Some v else get k m
  end.

Fixpoint insert (k : Z) (v : V) (m : list (Z * V)) : list (Z * V) :=
  match m with
  | [] => [(k, v)]
  | (k', v') :: m =>
      if k <? k' then (k, v) :: (k', v') :: m
      else if k =? k' then (k, v) :: m
      else (k', v') :: insert k v m
  end.

Definition remove (k : Z) (m : list (Z * V)) : list (Z * V) := filter (λ kv, kv.1 ≠ k) m.

(** The entries of [range(from..)]. *)
Definition range (from : Z) (m : list (Z * V)) : list (Z * V) := filter (λ kv, from <= kv.1) m.

Definition values (m : list (Z * V)) : list V := map snd m.

(** Strictly ascending keys: what iterating a [BTreeMap] yields. *)
Definition ascending : list (Z * V) → Prop := StronglySorted (λ x y, x.1 < y.1).

Lemma ascending_nil : ascending [].
Proof. constructor. Qed.

Lemma get_elem m k v : ascending m → get k m = Some v ↔ (k, v) ∈ m.
Proof.
  induction 1 as [|[k' v'] m Hm IH Hall]; cbn [get]; [set_solver|]. rewrite elem_of_cons.
  rewrite Forall_forall in Hall. case_bool; [|naive_solver].
  subst. split; [naive_solver|]. intros [?|Hin]; [naive_solver|]. specialize (Hall _ Hin). cbn in Hall. lia.
Qed.

Lemma get_None m k : get k m = None ↔ Forall (λ kv, kv.1 ≠ k) m.
Proof.
  induction m as [|[k' v'] m IH]; cbn [get]; [done|]. rewrite Forall_cons. cbn. case_bool; naive_solver.
Qed.

Lemma ascending_filter P `{∀ x, Decision (P x)} m : ascending m → ascending (filter P m).
Proof.
  induction 1 as [|kv m Hm IH Hall]; [constructor|]. rewrite filter_cons. case_decide; [|done].
  constructor; [done|]. rewrite Forall_forall in *. intros x [_ Hx]%list_elem_of_filter. by apply Hall.
Qed.
Lemma ascending_remove k m : ascending m → ascending (remove k m).
Proof. apply ascending_filter. Qed.

(** A key above all others goes at the end. *)
Lemma insert_last k v m : Forall (λ kv, kv.1 < k) m → insert k v m = m ++ [(k, v)].
Proof.
  induction 1 as [|[k' v'] m Hk _ IH]; cbn [insert app]; [done|]. cbn in Hk.
  rewrite (proj2 (Z.ltb_ge _ _)), (proj2 (Z.eqb_neq _ _)) by lia. by rewrite IH.
Qed.
Lemma ascending_snoc k v m : ascending m → Forall (λ kv, kv.1 < k) m → ascending (m ++ [(k, v)]).
Proof.
  intros Hm Hk. induction Hm as [|kv m Hm IH Hall]; cbn [app]; [repeat constructor|].
  apply Forall_cons in Hk as [Hkv Hk]. constructor; [by apply IH|].
  apply Forall_app. split; [done|]. by repeat constructor.
Qed.
End Ops.
End BTreeMap.
#[export] Hint Resolve BTreeMap.ascending_nil BTreeMap.ascending_remove : amaru.
