(* ===== verification/EraHistory.v ===== *)
(** * Eras, slots, epochs and wall-clock time

    Models [amaru-kernel/src/cardano/{era_history,era_summary,era_params,
    era_bound,era_name,slot,epoch,global_parameters}.rs]: the conversions
    between slots, epochs and time that the ledger and the consensus rely on.
    A [Slot] and an [Epoch] are [u64]s; a [Duration] and a [SystemTime] are a
    number of nanoseconds. *)

From S2P Require Import Prelude.

(** ** Data *)

(** [EraName], with its [repr(u8)] discriminants. *)
Inductive EraName :=
| Byron | Shelley | Allegra | Mary | Alonzo | Babbage | Conway | Dijkstra.

#[global] Instance EraName_eq_dec : EqDecision EraName.
Proof. solve_decision. Defined.

Definition EraName_as_u8 (n : EraName) : Z :=
  match n with
  | Byron => 1 | Shelley => 2 | Allegra => 3 | Mary => 4
  | Alonzo => 5 | Babbage => 6 | Conway => 7 | Dijkstra => 8
  end.

Definition ERA_NAMES : list EraName :=
  [Byron; Shelley; Allegra; Mary; Alonzo; Babbage; Conway; Dijkstra].

Definition ERA_STRINGS : list string :=
  ["Byron"; "Shelley"; "Allegra"; "Mary"; "Alonzo"; "Babbage"; "Conway"; "Dijkstra"]%string.

Inductive EraNameError :=
| InvalidEraName (s : string)
| InvalidEraTag (tag : Z).

Definition is_tagged_on_network (n : EraName) : bool :=
  match n with Byron => false | _ => true end.

(** [ERA_STRINGS[self as usize - 1]]; the index is always in range. *)
Definition as_str (n : EraName) : exec EraNameError string :=
  match ERA_STRINGS !! Z.to_nat (EraName_as_u8 n - 1) with
  | Some s => Ok s
  | None => Panic
  end.

Definition header_variant (n : EraName) : Z := EraName_as_u8 n - 1.

Definition from_header_variant (variant : Z) : exec EraNameError EraName :=
  match variant with
  | 0 => Ok Byron | 1 => Ok Shelley | 2 => Ok Allegra | 3 => Ok Mary
  | 4 => Ok Alonzo | 5 => Ok Babbage | 6 => Ok Conway | 7 => Ok Dijkstra
  | _ => Err (InvalidEraTag variant)
  end.

(** [FromStr]: first matching string of the zipped tables. *)
Definition EraName_from_str (s : string) : exec EraNameError EraName :=
  ok_or (InvalidEraName s)
    (snd <$> list_find (λ p : string * EraName, p.1 = s) (zip ERA_STRINGS ERA_NAMES) ≫= λ p, Some p.2).

(** [TryFrom<u8>]. *)
Definition EraName_try_from (value : Z) : exec EraNameError EraName :=
  let ix := value in
  if (ix =? 0) || (Z.of_nat (length ERA_NAMES) <? ix) then Err (InvalidEraTag value)
  else match ERA_NAMES !! Z.to_nat (ix - 1) with Some n => Ok n | None => Panic end.

(** A point where an era starts or ends. *)
Record EraBound := mkEraBound { bound_time : Z; bound_slot : Z; bound_epoch : Z }.
Record EraParams := mkEraParams { epoch_size_slots : Z; slot_length : Z; era_name : EraName }.
Record EraSummary := mkEraSummary { start : EraBound; end_ : option EraBound; params : EraParams }.
Record EraHistory := mkEraHistory { stability_window : Z; eras : list EraSummary }.

#[global] Instance EraBound_eq_dec : EqDecision EraBound.
Proof. solve_decision. Defined.

Inductive SlotArithmeticError := Underflow (a b : Z).

Inductive EraHistoryError :=
| PastTimeHorizon
| InvalidEraHistory
| SlotTooFar
| SlotArithmetic (e : SlotArithmeticError).

Record EpochEraBounds := mkEpochEraBounds { bounds_start : Z; bounds_end : option Z }.

(** ** [std::time] *)
Definition nanos_per_sec : Z := 1000000000.
Definition nanos_per_milli : Z := 1000000.
Definition duration_max : Z := (u64_max + 1) * nanos_per_sec - 1.
Definition from_secs (s : Z) : Z := s * nanos_per_sec.
Definition as_secs (d : Z) : Z := d / nanos_per_sec.
Definition as_millis (d : Z) : Z := d / nanos_per_milli.
Definition duration_add {E} (a b : Z) : exec E Z := if a + b <=? duration_max then Ok (a + b) else Panic.
Definition duration_mul {E} (a n : Z) : exec E Z := if a * n <=? duration_max then Ok (a * n) else Panic.
Definition duration_checked_sub (a b : Z) : option Z := if b <=? a then Some (a - b) else None.
(** [SystemTime + Duration] on Unix: a signed 64-bit number of seconds. *)
Definition systemtime_add {E} (t d : Z) : exec E Z :=
  if t + d <=? (i64_max + 1) * nanos_per_sec - 1 then Ok (t + d) else Panic.
Definition duration_since (t earlier : Z) : option Z := if earlier <=? t then Some (t - earlier) else None.

(** ** Slots and epochs *)
Definition elapsed_from (self slot : Z) : exec SlotArithmeticError Z :=
  if self <? slot then Err (Underflow self slot) else Ok (self - slot).
Definition offset_by {E} (self slots_elapsed : Z) : exec E Z := u64_add self slots_elapsed.
Definition Epoch_add {E} (self rhs : Z) : exec E Z := u64_add self rhs.
Definition Epoch_sub {E} (self rhs : Z) : exec E Z := u64_sub self rhs.

(** ** Era parameters *)
Definition EraParams_new (size len : Z) (name : EraName) : option EraParams :=
  if size =? 0 then None
  else if len =? 0 then None
  else Some (mkEraParams size len name).

Definition EraParams_from_bounds (s e : EraBound) (name : EraName) : option EraParams :=
  if (bound_slot e <=? bound_slot s) || (bound_epoch e <=? bound_epoch s) then
    if (bound_slot e =? bound_slot s) && (bound_epoch e =? bound_epoch s)
    then Some (mkEraParams 0 (from_secs 1) name)
    else None
  else
    let slots_elapsed := bound_slot e - bound_slot s in
    let epochs_elapsed := bound_epoch e - bound_epoch s in
    let time_elapsed := Z.max 0 (bound_time e - bound_time s) in
    let size := slots_elapsed / epochs_elapsed in
    let len := (as_millis time_elapsed mod (u64_max + 1)) / slots_elapsed * nanos_per_milli in
    Some (mkEraParams size len name).

(** ** Era summaries *)
Definition is_empty (self : EraSummary) : bool :=
  match end_ self with
  | Some e => bool_decide (start self = e)
  | None => false
  end.

(** The virtual end of an era with no upper bound. *)
Definition calculate_end_bound {E} (self : EraSummary) (tip window : Z) : exec E EraBound :=
  let st := start self in
  tip1 ← u64_add tip 1;
  end_of_stable_window ← u64_add (Z.max (bound_slot st) tip1) window;
  delta_slots ← u64_sub end_of_stable_window (bound_slot st);
  q ← u64_div delta_slots (epoch_size_slots (params self));
  let multiple :=
    if epoch_size_slots (params self) =? 0 then delta_slots =? 0
    else delta_slots mod epoch_size_slots (params self) =? 0 in
  delta_epochs ← u64_add q (if multiple then 0 else 1);
  max_foreseeable_epoch ← u64_add (bound_epoch st) delta_epochs;
  foreseeable_slots ← u64_mul delta_epochs (epoch_size_slots (params self));
  len ← u64_mul (as_secs (slot_length (params self))) foreseeable_slots;
  secs ← u64_add (as_secs (bound_time st)) len;
  slot ← u64_add (bound_slot st) foreseeable_slots;
  mret (mkEraBound (from_secs secs) slot max_foreseeable_epoch).

Definition contains_slot {E} (self : EraSummary) (slot tip window : Z) : exec E bool :=
  if is_empty self then Ok false
  else
    bound ← match end_ self with
            | Some e => Ok (bound_slot e)
            | None => bound_slot <$> calculate_end_bound self tip window
            end;
    mret (slot <=? bound).

Definition contains_slot_unchecked_horizon (self : EraSummary) (slot : Z) : bool :=
  if is_empty self then false
  else match end_ self with Some e => slot <=? bound_slot e | None => true end.

Definition contains_epoch {E} (self : EraSummary) (epoch tip window : Z) : exec E bool :=
  bound ← match end_ self with
          | Some e => Ok (bound_epoch e)
          | None => bound_epoch <$> calculate_end_bound self tip window
          end;
  mret (epoch <? bound).

Definition contains_epoch_unchecked_horizon (self : EraSummary) (epoch : Z) : bool :=
  match end_ self with Some e => epoch <? bound_epoch e | None => true end.

(** ** Conversions within one era *)
Definition era_slot_to_relative_time (slot : Z) (era : EraSummary) : exec EraHistoryError Z :=
  elapsed ← map_err (λ _, InvalidEraHistory) (elapsed_from slot (bound_slot (start era)));
  slots_elapsed ← (if elapsed <=? u32_max then Ok elapsed else Err SlotTooFar);
  time_elapsed ← duration_mul (slot_length (params era)) slots_elapsed;
  duration_add (bound_time (start era)) time_elapsed.

Definition era_relative_time_to_slot (relative_time : Z) (era : EraSummary) : exec EraHistoryError Z :=
  time_elapsed ← ok_or InvalidEraHistory (duration_checked_sub relative_time (bound_time (start era)));
  let len := as_millis (slot_length (params era)) in
  if len =? 0 then Err InvalidEraHistory
  else
    slots_elapsed ← (if as_millis time_elapsed / len <=? u64_max
                     then Ok (as_millis time_elapsed / len) else Err SlotTooFar);
    offset_by (bound_slot (start era)) slots_elapsed.

Definition era_slot_to_epoch (slot : Z) (era : EraSummary) : exec EraHistoryError Z :=
  slots_elapsed ← map_err (λ _, InvalidEraHistory) (elapsed_from slot (bound_slot (start era)));
  epochs_elapsed ← u64_div slots_elapsed (epoch_size_slots (params era));
  Epoch_add (bound_epoch (start era)) epochs_elapsed.

(** ** The loops over the eras

    Every method of [EraHistory] walks the eras in order: it fails when the era
    starts after what is looked for ([too_late]), stops at the first era that
    contains it, and fails with [exhausted] at the end. *)
Fixpoint for_eras {A} (too_late : EraSummary → bool)
    (contains : EraSummary → exec EraHistoryError bool)
    (found : EraSummary → exec EraHistoryError A)
    (exhausted : EraHistoryError) (l : list EraSummary) : exec EraHistoryError A :=
  match l with
  | [] => Err exhausted
  | era :: l =>
      if too_late era then Err InvalidEraHistory
      else
        b ← contains era;
        if (b : bool) then found era else for_eras too_late contains found exhausted l
  end.

Definition EraHistory_new (l : list EraSummary) (window : Z) : exec EraHistoryError EraHistory :=
  match l with [] => Panic | _ => Ok (mkEraHistory window l) end.

Definition relative_time_to_slot (h : EraHistory) (relative_time : Z) : exec EraHistoryError Z :=
  for_eras
    (λ era, relative_time <? bound_time (start era))
    (λ era, Ok match end_ era with None => true | Some e => relative_time <? bound_time e end)
    (era_relative_time_to_slot relative_time)
    InvalidEraHistory (eras h).

Definition posix_time_to_slot (h : EraHistory) (time system_start : Z) : exec EraHistoryError Z :=
  relative_time ← ok_or InvalidEraHistory (duration_since time system_start);
  relative_time_to_slot h relative_time.

Definition slot_to_relative_time (h : EraHistory) (slot tip : Z) : exec EraHistoryError Z :=
  for_eras (λ era, slot <? bound_slot (start era))
    (λ era, contains_slot era slot tip (stability_window h))
    (era_slot_to_relative_time slot) PastTimeHorizon (eras h).

Definition slot_to_posix_time (h : EraHistory) (slot tip system_start : Z) : exec EraHistoryError Z :=
  relative_time ← slot_to_relative_time h slot tip;
  systemtime_add system_start relative_time.

Definition slot_to_relative_time_unchecked_horizon (h : EraHistory) (slot : Z) : exec EraHistoryError Z :=
  for_eras (λ era, slot <? bound_slot (start era))
    (λ era, Ok (contains_slot_unchecked_horizon era slot))
    (era_slot_to_relative_time slot) InvalidEraHistory (eras h).

Definition slot_to_epoch (h : EraHistory) (slot tip : Z) : exec EraHistoryError Z :=
  for_eras (λ era, slot <? bound_slot (start era))
    (λ era, contains_slot era slot tip (stability_window h))
    (era_slot_to_epoch slot) PastTimeHorizon (eras h).

Definition slot_to_epoch_unchecked_horizon (h : EraHistory) (slot : Z) : exec EraHistoryError Z :=
  for_eras (λ era, slot <? bound_slot (start era))
    (λ era, Ok (contains_slot_unchecked_horizon era slot))
    (era_slot_to_epoch slot) InvalidEraHistory (eras h).

Definition next_epoch_first_slot (h : EraHistory) (epoch tip : Z) : exec EraHistoryError Z :=
  for_eras (λ era, epoch <? bound_epoch (start era))
    (λ era, contains_epoch era epoch tip (stability_window h))
    (λ era,
      n ← u64_sub epoch (bound_epoch (start era));
      n1 ← u64_add n 1;
      s ← u64_mul n1 (epoch_size_slots (params era));
      u64_add s (bound_slot (start era)))
    PastTimeHorizon (eras h).

Definition era_first_epoch (h : EraHistory) (epoch : Z) : exec EraHistoryError Z :=
  for_eras (λ _, false)
    (λ era, Ok (contains_epoch_unchecked_horizon era epoch))
    (λ era, Ok (bound_epoch (start era))) InvalidEraHistory (eras h).

Definition epoch_bounds (h : EraHistory) (epoch : Z) : exec EraHistoryError EpochEraBounds :=
  for_eras (λ era, epoch <? bound_epoch (start era))
    (λ era, Ok (contains_epoch_unchecked_horizon era epoch))
    (λ era,
      epochs_elapsed ← Epoch_sub epoch (bound_epoch (start era));
      let offset := bound_slot (start era) in
      slots_elapsed ← u64_mul epochs_elapsed (epoch_size_slots (params era));
      s ← offset_by offset slots_elapsed;
      d ← u64_add (epoch_size_slots (params era)) slots_elapsed;
      e ← offset_by offset d;
      mret (mkEpochEraBounds s (match end_ era with Some _ => Some e | None => None end)))
    InvalidEraHistory (eras h).

Definition slot_in_epoch (h : EraHistory) (slot tip : Z) : exec EraHistoryError Z :=
  epoch ← slot_to_epoch h slot tip;
  bounds ← epoch_bounds h epoch;
  map_err SlotArithmetic (elapsed_from slot (bounds_start bounds)).

(** [enumerate]d walk; the end of an era is exclusive here. *)
Fixpoint slot_to_era_index_from (index : nat) (slot : Z) (l : list EraSummary) : exec EraHistoryError nat :=
  match l with
  | [] => Err InvalidEraHistory
  | era :: l =>
      if slot <? bound_slot (start era) then Err InvalidEraHistory
      else if match end_ era with Some e => slot <? bound_slot e | None => true end
      then Ok index
      else slot_to_era_index_from (S index) slot l
  end.
Definition slot_to_era_index (h : EraHistory) (slot : Z) : exec EraHistoryError nat :=
  slot_to_era_index_from 0 slot (eras h).

Definition slot_to_era_tag (h : EraHistory) (slot : Z) : exec EraHistoryError EraName :=
  i ← slot_to_era_index h slot;
  match eras h !! i with Some era => Ok (era_name (params era)) | None => Panic end.

Definition current_era_summary (h : EraHistory) : exec EraHistoryError EraSummary :=
  match last (eras h) with Some era => Ok era | None => Panic end.
Definition current_era_tag (h : EraHistory) : exec EraHistoryError EraName :=
  era ← current_era_summary h; mret (era_name (params era)).

(** ** Global parameters and the known networks *)
Record GlobalParameters := mkGlobalParameters {
  system_start : Z;
  consensus_security_param : Z;
  epoch_length_scale_factor : Z;
  active_slot_coeff_inverse : Z;
  max_lovelace_supply : Z;
  slots_per_kes_period : Z;
  max_kes_evolution : Z }.

(** Products of small protocol constants, far from the [u64] bound. *)
Definition gp_stability_window (g : GlobalParameters) : Z :=
  3 * consensus_security_param g * active_slot_coeff_inverse g.
Definition randomness_stabilization_window (g : GlobalParameters) : Z :=
  4 * consensus_security_param g * active_slot_coeff_inverse g.
Definition epoch_length (g : GlobalParameters) : Z :=
  active_slot_coeff_inverse g * epoch_length_scale_factor g * consensus_security_param g.

Definition MAINNET_GLOBAL_PARAMETERS : GlobalParameters :=
  {| system_start := 1506203091000; consensus_security_param := 2160;
     epoch_length_scale_factor := 10; active_slot_coeff_inverse := 20;
     max_lovelace_supply := 45000000000000000; slots_per_kes_period := 129600;
     max_kes_evolution := 62 |}.
Definition PREPROD_GLOBAL_PARAMETERS : GlobalParameters :=
  {| system_start := 1654041600000; consensus_security_param := 2160;
     epoch_length_scale_factor := 10; active_slot_coeff_inverse := 20;
     max_lovelace_supply := 45000000000000000; slots_per_kes_period := 129600;
     max_kes_evolution := 62 |}.
Definition PREVIEW_GLOBAL_PARAMETERS : GlobalParameters :=
  {| system_start := 1666656000000; consensus_security_param := 432;
     epoch_length_scale_factor := 10; active_slot_coeff_inverse := 20;
     max_lovelace_supply := 45000000000000000; slots_per_kes_period := 129600;
     max_kes_evolution := 62 |}.

(** [EraBound { time: Duration::from_secs(t), slot, epoch }]. *)
Definition bound (t slot epoch : Z) : EraBound := mkEraBound (from_secs t) slot epoch.
Definition era (s : EraBound) (e : option EraBound) (size len : Z) (n : EraName) : EraSummary :=
  mkEraSummary s e (mkEraParams size (from_secs len) n).

Definition EraHistory_default : EraHistory :=
  mkEraHistory 25920 [era (bound 0 0 0) None 86400 1 Conway].

Definition MAINNET_ERA_HISTORY : EraHistory :=
  mkEraHistory (gp_stability_window MAINNET_GLOBAL_PARAMETERS) [
    era (bound 0 0 0) (Some (bound 89856000 4492800 208)) 21600 20 Byron;
    era (bound 89856000 4492800 208) (Some (bound 101952000 16588800 236)) 432000 1 Shelley;
    era (bound 101952000 16588800 236) (Some (bound 108432000 23068800 251)) 432000 1 Allegra;
    era (bound 108432000 23068800 251) (Some (bound 125280000 39916800 290)) 432000 1 Mary;
    era (bound 125280000 39916800 290) (Some (bound 157680000 72316800 365)) 432000 1 Alonzo;
    era (bound 157680000 72316800 365) (Some (bound 219024000 133660800 507)) 432000 1 Babbage;
    era (bound 219024000 133660800 507) None 432000 1 Conway].

Definition PREPROD_ERA_HISTORY : EraHistory :=
  mkEraHistory (gp_stability_window PREPROD_GLOBAL_PARAMETERS) [
    era (bound 0 0 0) (Some (bound 1728000 86400 4)) 21600 20 Byron;
    era (bound 1728000 86400 4) (Some (bound 2160000 518400 5)) 432000 1 Shelley;
    era (bound 2160000 518400 5) (Some (bound 2592000 950400 6)) 432000 1 Allegra;
    era (bound 2592000 950400 6) (Some (bound 3024000 1382400 7)) 432000 1 Mary;
    era (bound 3024000 1382400 7) (Some (bound 5184000 3542400 12)) 432000 1 Alonzo;
    era (bound 5184000 3542400 12) (Some (bound 70416000 68774400 163)) 432000 1 Babbage;
    era (bound 70416000 68774400 163) None 432000 1 Conway].

Definition PREVIEW_ERA_HISTORY : EraHistory :=
  mkEraHistory (gp_stability_window PREVIEW_GLOBAL_PARAMETERS) [
    era (bound 0 0 0) (Some (bound 0 0 0)) 4320 20 Byron;
    era (bound 0 0 0) (Some (bound 0 0 0)) 86400 1 Shelley;
    era (bound 0 0 5) (Some (bound 0 0 0)) 86400 1 Allegra;
    era (bound 0 0 0) (Some (bound 0 0 0)) 86400 1 Mary;
    era (bound 0 0 0) (Some (bound 259200 259200 3)) 86400 1 Alonzo;
    era (bound 259200 259200 3) (Some (bound 55814400 55814400 646)) 86400 1 Babbage;
    era (bound 55814400 55814400 646) None 86400 1 Conway].

(** ** Valid histories

    The documented shape of an era history: every era but the last ends where
    the next one starts, the last one is open, an era spans whole epochs of
    whole slots, and slots last a positive whole number of milliseconds.  Only
    an empty era may have epochs of size zero. *)
Definition era_ok (e : EraSummary) : bool :=
  (0 <=? bound_slot (start e)) && (0 <=? bound_epoch (start e)) && (0 <=? bound_time (start e))
  && (0 <? slot_length (params e)) && (slot_length (params e) mod nanos_per_milli =? 0)
  && (is_empty e || (0 <? epoch_size_slots (params e))) && (0 <=? epoch_size_slots (params e))
  && match end_ e with
     | None => true
     | Some b =>
         (bound_epoch (start e) <=? bound_epoch b)
         && (bound_slot b =? bound_slot (start e)
               + (bound_epoch b - bound_epoch (start e)) * epoch_size_slots (params e))
         && (bound_time b =? bound_time (start e)
               + (bound_slot b - bound_slot (start e)) * slot_length (params e))
     end.

Fixpoint valid_eras (l : list EraSummary) : bool :=
  match l with
  | [] => false
  | [e] => era_ok e && match end_ e with None => true | Some _ => false end
  | e :: (e' :: _) as l' =>
      era_ok e && bool_decide (end_ e = Some (start e')) && valid_eras l'
  end.

Definition valid_history (h : EraHistory) : bool := valid_eras (eras h).

(** Reading of [era_ok] as arithmetic facts. *)
Lemma era_ok_facts e : era_ok e = true →
  0 <= bound_slot (start e) ∧ 0 <= bound_epoch (start e) ∧ 0 <= bound_time (start e) ∧
  0 < slot_length (params e) ∧ slot_length (params e) mod nanos_per_milli = 0 ∧
  (is_empty e = true ∨ 0 < epoch_size_slots (params e)) ∧ 0 <= epoch_size_slots (params e) ∧
  ∀ b, end_ e = Some b →
    bound_epoch (start e) <= bound_epoch b ∧
    bound_slot b = bound_slot (start e)
      + (bound_epoch b - bound_epoch (start e)) * epoch_size_slots (params e) ∧
    bound_time b = bound_time (start e) + (bound_slot b - bound_slot (start e)) * slot_length (params e).
Proof.
  unfold era_ok; intros H; bool_to_prop.
  repeat split; try (lia || intuition (bool_to_prop; auto; lia)).
  all: destruct (end_ e) as [b'|]; simplify_eq; bool_to_prop; lia.
Qed.

(** Bounds only move forward, and time stands still only with the slots. *)
Lemma era_ok_end e b : era_ok e = true → end_ e = Some b →
  bound_slot (start e) <= bound_slot b ∧ bound_time (start e) <= bound_time b ∧
  (bound_time b <= bound_time (start e) → bound_slot b = bound_slot (start e)).
Proof.
  intros (? & ? & ? & ? & ? & ? & ? & Hend)%era_ok_facts He.
  destruct (Hend _ He) as (? & ? & ?).
  assert (bound_slot (start e) <= bound_slot b) by nia.
  split; [done|]. split; nia.
Qed.

(** The head of a valid list: an open last era, or an era that ends where the
    rest, itself valid, starts. *)
Lemma valid_eras_cons e l : valid_eras (e :: l) = true →
  era_ok e = true ∧
  ((end_ e = None ∧ l = []) ∨
   ∃ e' l', l = e' :: l' ∧ end_ e = Some (start e') ∧ valid_eras l = true).
Proof.
  destruct l as [|e' l']; cbn [valid_eras]; intros H; bool_to_prop.
  - destruct (end_ e); [discriminate|]. auto.
  - split; [done|right]. exists e', l'. split; [done|]. split; [|done].
    by apply bool_decide_eq_true in H2 || by apply bool_decide_eq_true in H1.
Qed.

(** ** Slots and time *)

Lemma era_slot_to_relative_time_Ok s e t :
  era_slot_to_relative_time s e = Ok t →
  bound_slot (start e) <= s ∧
  t = bound_time (start e) + slot_length (params e) * (s - bound_slot (start e)).
Proof.
  unfold era_slot_to_relative_time, elapsed_from, duration_mul, duration_add.
  intros H; exec_inv.
  case_bool_in Hr; simplify_eq. repeat case_match; simplify_eq; lia.
Qed.

(** Whole slots of a whole number of milliseconds divide back exactly. *)
Lemma as_millis_slots len n :
  0 < len → len mod nanos_per_milli = 0 → 0 <= n →
  as_millis (len * n) / as_millis len = n ∧ as_millis len ≠ 0.
Proof.
  unfold as_millis, nanos_per_milli. intros Hpos Hmod Hn.
  apply Z.div_exact in Hmod; [|lia].
  set (m := len / 1000000) in *. rewrite Hmod.
  replace (1000000 * m * n) with (m * n * 1000000) by lia.
  rewrite Z.div_mul by lia. replace (m * n) with (n * m) by lia.
  rewrite Z.div_mul by lia. lia.
Qed.

Lemma era_relative_time_to_slot_inv e s :
  era_ok e = true → bound_slot (start e) <= s <= u64_max →
  era_relative_time_to_slot
    (bound_time (start e) + slot_length (params e) * (s - bound_slot (start e))) e = Ok s.
Proof.
  intros (? & ? & ? & ? & ? & ? & ? & ?)%era_ok_facts Hs.
  destruct (as_millis_slots (slot_length (params e)) (s - bound_slot (start e)))
    as [Hdiv Hnz]; [lia..|].
  unfold era_relative_time_to_slot, duration_checked_sub, offset_by, u64_add.
  rewrite (proj2 (Z.leb_le (bound_time _) _)) by nia. cbn [ok_or mbind exec_bind].
  case_bool; [lia|].
  replace (bound_time (start e) + slot_length (params e) * (s - bound_slot (start e))
           - bound_time (start e))
    with (slot_length (params e) * (s - bound_slot (start e))) by lia.
  rewrite Hdiv. case_bool; [|lia]. cbn. case_bool; [|lia]. f_equal; lia.
Qed.

Lemma for_eras_cons {A} tl c (f : EraSummary → exec EraHistoryError A) x e l :
  for_eras tl c f x (e :: l)
  = if tl e then Err InvalidEraHistory
    else b ← c e; if (b : bool) then f e else for_eras tl c f x l.
Proof. done. Qed.

(** The walks of [slot_to_relative_time_unchecked_horizon] and
    [relative_time_to_slot], on a list of eras. *)
#[local] Abbreviation to_time s := (for_eras (λ era, s <? bound_slot (start era))
  (λ era, Ok (contains_slot_unchecked_horizon era s))
  (era_slot_to_relative_time s) InvalidEraHistory) (only parsing).
#[local] Abbreviation to_slot t := (for_eras (λ era, t <? bound_time (start era))
  (λ era, Ok match end_ era with None => true | Some e => t <? bound_time e end)
  (era_relative_time_to_slot t) InvalidEraHistory) (only parsing).

Section SlotTime.
Variable s : Z.
Hypothesis Hs : s <= u64_max.

(** Looking up the very start of a valid list of eras: empty eras are
    skipped and the first slot is found. *)
Lemma to_slot_at_start e l :
  valid_eras (e :: l) = true → bound_slot (start e) = s →
  to_slot (bound_time (start e)) (e :: l) = Ok s.
Proof using Hs.
  revert e. induction l as [|e' l IH]; intros e Hv Heq.
  all: rewrite for_eras_cons, Z.ltb_irrefl; cbn [mbind exec_bind].
  all: pose proof (era_relative_time_to_slot_inv e s) as Hinv;
    rewrite Heq, Z.sub_diag, Z.mul_0_r, Z.add_0_r in Hinv.
  all: pose proof Hv as Hv'; apply valid_eras_cons in Hv' as [Hok Hcase].
  all: destruct Hcase as [[-> ?]|(e'' & l' & Hl & He & Hrest)]; try discriminate.
  - apply Hinv; [done|lia].
  - rewrite He. injection Hl as -> ->.
    case_bool; [apply Hinv; [done|lia]|].
    destruct (era_ok_end _ _ Hok He) as (? & ? & Heqs).
    replace (bound_time (start e)) with (bound_time (start e'')) by lia.
    apply IH; [done|]. rewrite <- Heq. by apply Heqs.
Qed.

Lemma to_time_ge e l t :
  valid_eras (e :: l) = true → to_time s (e :: l) = Ok t → bound_time (start e) <= t.
Proof using.
  revert e. induction l as [|e' l IH]; intros e Hv; rewrite for_eras_cons.
  all: case_bool; [discriminate|]; cbn [mbind exec_bind].
  all: pose proof Hv as Hv'; apply valid_eras_cons in Hv' as [Hok Hcase];
    pose proof (era_ok_facts _ Hok) as (? & ? & ? & ? & ?).
  all: destruct (contains_slot_unchecked_horizon e s).
  1, 3: intros [? ->]%era_slot_to_relative_time_Ok; nia.
  - discriminate.
  - intros Ht. destruct Hcase as [[? ?]|(e'' & l' & [= <- <-] & He & Hrest)]; [discriminate|].
    specialize (IH _ Hrest Ht). destruct (era_ok_end _ _ Hok He) as (? & ? & ?). lia.
Qed.

Lemma to_slot_to_time l t : valid_eras l = true → to_time s l = Ok t → to_slot t l = Ok s.
Proof using Hs.
  induction l as [|e l IH]; intros Hv Ht; [discriminate|].
  pose proof (to_time_ge _ _ _ Hv Ht) as Hge.
  rewrite for_eras_cons in Ht |- *.
  case_bool_in Ht; [discriminate|]. cbn [mbind exec_bind] in Ht.
  destruct (Z.ltb_spec t (bound_time (start e))); [lia|]. cbn [mbind exec_bind].
  pose proof Hv as Hv'. apply valid_eras_cons in Hv' as [Hok Hcase].
  pose proof (era_ok_facts _ Hok) as (? & ? & ? & ? & ? & ? & ? & Hend).
  destruct (contains_slot_unchecked_horizon e s) eqn:Hc.
  - apply era_slot_to_relative_time_Ok in Ht as [? ->].
    destruct Hcase as [[He ->]|(e' & l' & -> & He & Hrest)]; rewrite He in *.
    { apply era_relative_time_to_slot_inv; [done|lia]. }
    unfold contains_slot_unchecked_horizon in Hc. rewrite He in Hc.
    destruct (is_empty e); [discriminate|]. bool_to_prop.
    destruct (Hend _ eq_refl) as (? & Hsl & Htm).
    case_bool; [apply era_relative_time_to_slot_inv; [done|lia]|].
    assert (bound_slot (start e') = s) as Heq by nia.
    replace (bound_time (start e) + slot_length (params e) * (s - bound_slot (start e)))
      with (bound_time (start e')) by (rewrite <- Heq; lia).
    by apply to_slot_at_start.
  - destruct Hcase as [[He ->]|(e' & l' & -> & He & Hrest)].
    { discriminate. }
    rewrite He. pose proof (to_time_ge _ _ _ Hrest Ht).
    case_bool; [lia|]. by apply IH.
Qed.
End SlotTime.

(** C33: slot-to-time followed by time-to-slot gives the slot back, on every
    valid era history, including at era boundaries and across empty eras. *)
Theorem slot_time_roundtrip (h : EraHistory) (s t : Z) :
  valid_history h = true → s <= u64_max →
  slot_to_relative_time_unchecked_horizon h s = Ok t →
  relative_time_to_slot h t = Ok s.
Proof. intros Hv Hs Ht. by apply (to_slot_to_time s Hs (eras h) t). Qed.

Example MAINNET_valid : valid_history MAINNET_ERA_HISTORY = true.
Proof. reflexivity. Qed.
Example PREPROD_valid : valid_history PREPROD_ERA_HISTORY = true.
Proof. reflexivity. Qed.

(** The round trip at the Byron/Shelley boundary of mainnet. *)
Lemma slot_time_roundtrip_witness :
  relative_time_to_slot MAINNET_ERA_HISTORY (from_secs 89856000) = Ok 4492800.
Proof.
  apply slot_time_roundtrip; [reflexivity | unfold u64_max; lia | reflexivity].
Defined.

(** ** Slots and epochs *)

#[local] Abbreviation to_epoch s := (for_eras (λ era, s <? bound_slot (start era))
  (λ era, Ok (contains_slot_unchecked_horizon era s))
  (era_slot_to_epoch s) InvalidEraHistory) (only parsing).

(** The arithmetic at slot [s] stays within [u64] in the given era. *)
Definition fits (s : Z) (era : EraSummary) : Prop :=
  bound_epoch (start era) + s + epoch_size_slots (params era) <= u64_max.

(** The bounds of an epoch of [era] that starts at slot [st]. *)
Definition bounds_in (era : EraSummary) (st : Z) : EpochEraBounds :=
  mkEpochEraBounds st
    (match end_ era with Some _ => Some (st + epoch_size_slots (params era)) | None => None end).

Lemma is_empty_spec e : is_empty e = true ↔ end_ e = Some (start e).
Proof.
  unfold is_empty. destruct (end_ e) as [b|]; [|done].
  rewrite bool_decide_eq_true. naive_solver.
Qed.

(** An era that contains a slot or an epoch has epochs of positive size. *)
Lemma era_ok_size e : era_ok e = true → is_empty e = false → 0 < epoch_size_slots (params e).
Proof. intros (? & ? & ? & ? & ? & [Hc|Hc] & ?)%era_ok_facts; congruence. Qed.

Lemma era_slot_to_epoch_eq s e :
  era_ok e = true → is_empty e = false → bound_slot (start e) <= s → fits s e →
  era_slot_to_epoch s e
  = Ok (bound_epoch (start e) + (s - bound_slot (start e)) / epoch_size_slots (params e)).
Proof.
  unfold fits. intros Hok Hne Hs Hf. pose proof (era_ok_size _ Hok Hne).
  apply era_ok_facts in Hok as (? & ? & ? & ?).
  unfold era_slot_to_epoch, elapsed_from, u64_div, Epoch_add, u64_add.
  case_bool; [lia|]. case_bool; [lia|]. cbn.
  assert ((s - bound_slot (start e)) / epoch_size_slots (params e) <= s - bound_slot (start e))
    by (apply Z.div_le_upper_bound; nia).
  case_bool; [done|lia].
Qed.

(** [epoch_bounds] for the [n]-th epoch of the era at the head of the list. *)
Lemma epoch_bounds_head e l w n s :
  bound_slot (start e) + n * epoch_size_slots (params e) <= s → 0 <= n →
  0 <= epoch_size_slots (params e) → 0 <= bound_epoch (start e) → 0 <= bound_slot (start e) →
  n + bound_epoch (start e) <= u64_max → fits s e →
  contains_epoch_unchecked_horizon e (bound_epoch (start e) + n) = true →
  epoch_bounds (mkEraHistory w (e :: l)) (bound_epoch (start e) + n)
  = Ok (bounds_in e (bound_slot (start e) + n * epoch_size_slots (params e))).
Proof.
  unfold fits, epoch_bounds, bounds_in. intros. cbn [eras]. rewrite for_eras_cons.
  case_bool; [lia|]. cbn [mbind exec_bind].
  replace (contains_epoch_unchecked_horizon e (bound_epoch (start e) + n)) with true.
  unfold Epoch_sub, u64_sub, u64_mul, offset_by, u64_add.
  rewrite (proj2 (Z.leb_le (bound_epoch (start e)) _)) by lia. cbn [mbind exec_bind].
  replace (bound_epoch (start e) + n - bound_epoch (start e)) with n by lia.
  repeat (rewrite (proj2 (Z.leb_le _ u64_max)) by nia; cbn [mbind exec_bind]).
  cbn. do 2 f_equal. destruct (end_ e); [f_equal; lia|done].
Qed.

Lemma epoch_bounds_first e l w :
  era_ok e = true → fits (bound_slot (start e)) e →
  contains_epoch_unchecked_horizon e (bound_epoch (start e)) = true →
  epoch_bounds (mkEraHistory w (e :: l)) (bound_epoch (start e))
  = Ok (bounds_in e (bound_slot (start e))).
Proof.
  intros (? & ? & ? & ? & ? & ? & ? & ?)%era_ok_facts Hf Hc.
  pose proof (epoch_bounds_head e l w 0 (bound_slot (start e))) as Hhd.
  rewrite Z.mul_0_l, !Z.add_0_r, Z.add_0_l in Hhd.
  apply Hhd; try lia; [unfold fits in *; lia|done..].
Qed.

Lemma epoch_bounds_skip e l w ep b :
  bound_epoch (start e) <= ep → end_ e = Some b → bound_epoch b <= ep →
  epoch_bounds (mkEraHistory w (e :: l)) ep = epoch_bounds (mkEraHistory w l) ep.
Proof.
  unfold epoch_bounds. intros ? Hb ?. cbn [eras]. rewrite for_eras_cons.
  case_bool; [lia|]. unfold contains_epoch_unchecked_horizon. cbn [mbind exec_bind].
  rewrite Hb. case_bool; [lia|done].
Qed.

(** The first epoch of a valid list of eras starts with its first slot. *)
Lemma epoch_bounds_at_start e l w :
  valid_eras (e :: l) = true → Forall (fits (bound_slot (start e))) (e :: l) →
  ∃ era, era ∈ e :: l ∧ 0 < epoch_size_slots (params era) ∧
    epoch_bounds (mkEraHistory w (e :: l)) (bound_epoch (start e))
    = Ok (bounds_in era (bound_slot (start e))).
Proof.
  revert e. induction l as [|e' l IH]; intros e Hv [Hfit Hfits]%Forall_cons.
  all: pose proof Hv as Hv'; apply valid_eras_cons in Hv' as [Hok Hcase].
  all: pose proof (era_ok_facts _ Hok) as (? & ? & ? & ? & ? & ? & ? & Hend).
  - destruct Hcase as [[He _]|(?&?&?&?)]; [|discriminate].
    exists e. split; [set_solver|]. split.
    { apply era_ok_size; [done|]. unfold is_empty. by rewrite He. }
    apply epoch_bounds_first; [done..|].
    unfold contains_epoch_unchecked_horizon. by rewrite He.
  - destruct Hcase as [[? ?]|(e'' & l' & [= <- <-] & He & Hrest)]; [discriminate|].
    destruct (Hend _ He) as (Hep & Hsl & Htm).
    destruct (decide (bound_epoch (start e) < bound_epoch (start e'))) as [Hlt|Hge].
    + exists e. split; [set_solver|]. split.
      { apply era_ok_size; [done|]. destruct (is_empty e) eqn:Hem; [|done].
        apply is_empty_spec in Hem. rewrite He in Hem. simplify_eq. rewrite Hem in Hlt. lia. }
      apply epoch_bounds_first; [done..|].
      unfold contains_epoch_unchecked_horizon. rewrite He. by apply Z.ltb_lt.
    + rewrite (epoch_bounds_skip _ _ _ _ _ ltac:(reflexivity) He) by lia.
      assert (bound_epoch (start e') = bound_epoch (start e)) as Heq by lia.
      assert (bound_slot (start e') = bound_slot (start e)) as Heqs by (rewrite Hsl, Heq; lia).
      destruct (IH e' Hrest) as (era & Hin & Hpos & Hb); [by rewrite Heqs|].
      exists era. split; [set_solver|]. split; [done|]. by rewrite <- Heq, <- Heqs.
Qed.

(** Every slot belongs to an epoch whose bounds contain it. *)
Lemma to_epoch_spec s e l w :
  valid_eras (e :: l) = true → bound_slot (start e) <= s → Forall (fits s) (e :: l) →
  ∃ ep era st, to_epoch s (e :: l) = Ok ep ∧ era ∈ e :: l ∧ bound_epoch (start e) <= ep ∧
    epoch_bounds (mkEraHistory w (e :: l)) ep = Ok (bounds_in era st) ∧
    st <= s < st + epoch_size_slots (params era).
Proof.
  revert e. induction l as [|e' l IH]; intros e Hv Hs [Hfit Hfits]%Forall_cons.
  all: pose proof Hv as Hv'; apply valid_eras_cons in Hv' as [Hok Hcase].
  all: pose proof (era_ok_facts _ Hok) as (? & ? & ? & ? & ? & ? & ? & Hend).
  all: rewrite for_eras_cons; rewrite (proj2 (Z.ltb_ge s _)) by lia; cbn [mbind exec_bind];
    unfold contains_slot_unchecked_horizon at 1.
  - destruct Hcase as [[He _]|(?&?&?&?)]; [|discriminate].
    assert (Hem : is_empty e = false) by (unfold is_empty; by rewrite He).
    pose proof (era_ok_size _ Hok Hem).
    rewrite Hem, He, era_slot_to_epoch_eq by done.
    pose proof (div_bounds (s - bound_slot (start e)) (epoch_size_slots (params e))) as Hdiv.
    revert Hdiv. generalize ((s - bound_slot (start e)) / epoch_size_slots (params e)).
    intros n Hdiv. exists (bound_epoch (start e) + n), e.
    exists (bound_slot (start e) + n * epoch_size_slots (params e)).
    repeat split; try lia; [set_solver|].
    apply (epoch_bounds_head _ _ _ _ s); try lia; [|done|].
    + unfold fits in *. nia.
    + unfold contains_epoch_unchecked_horizon. by rewrite He.
  - destruct Hcase as [[? ?]|(e'' & l' & [= <- <-] & He & Hrest)]; [discriminate|].
    destruct (Hend _ He) as (Hep & Hsl & Htm).
    destruct (is_empty e) eqn:Hem; [|rewrite He; case_bool].
    + apply is_empty_spec in Hem. rewrite He in Hem. injection Hem as Hem.
      destruct (IH e' Hrest) as (ep & era & st & Hto & Hin & Hge & Hb & Hr); [by rewrite Hem|done|].
      exists ep, era, st. rewrite Hem in Hge. split; [done|]. split; [set_solver|].
      split; [lia|]. split; [|done].
      rewrite (epoch_bounds_skip _ _ _ _ _ Hge He); [done|by rewrite Hem].
    + pose proof (era_ok_size _ Hok Hem).
      rewrite era_slot_to_epoch_eq by done.
      pose proof (div_bounds (s - bound_slot (start e)) (epoch_size_slots (params e))) as Hdiv.
      revert Hdiv. generalize ((s - bound_slot (start e)) / epoch_size_slots (params e)).
      intros n Hdiv. exists (bound_epoch (start e) + n).
      destruct (decide (s = bound_slot (start e'))) as [->|Hneq].
      * assert (bound_epoch (start e) + n = bound_epoch (start e')) as -> by nia.
        destruct (epoch_bounds_at_start e' l w Hrest Hfits) as (era & Hin & Hpos & Hb).
        exists era, (bound_slot (start e')). repeat split; try lia; [set_solver|].
        rewrite (epoch_bounds_skip _ _ _ _ _ Hep He); [done|lia].
      * exists e, (bound_slot (start e) + n * epoch_size_slots (params e)).
        repeat split; try lia; [set_solver|].
        apply (epoch_bounds_head _ _ _ _ s); try lia; [|done|].
        -- unfold fits in *. nia.
        -- unfold contains_epoch_unchecked_horizon. rewrite He. apply Z.ltb_lt. nia.
    + destruct (IH e' Hrest) as (ep & era & st & Hto & Hin & Hge & Hb & Hr); [lia|done|].
      exists ep, era, st. split; [done|]. split; [set_solver|].
      split; [lia|]. split; [|done].
      rewrite (epoch_bounds_skip e (e' :: l) w ep (start e')); [done|lia|done|lia].
Qed.

(** The first slot of a history. *)
Definition first_slot (h : EraHistory) : Z :=
  match eras h with e :: _ => bound_slot (start e) | [] => 0 end.

(** On a valid era history every slot from the first one on, as long as the
    arithmetic fits in 64 bits, is in an epoch, and [epoch_bounds] of that epoch
    are the first slot of the epoch and, in a closed era, the first slot of the
    next one; the slot is within them. *)
Theorem slot_to_epoch_total (h : EraHistory) (s : Z) :
  valid_history h = true → first_slot h <= s → Forall (fits s) (eras h) →
  ∃ ep era st, slot_to_epoch_unchecked_horizon h s = Ok ep ∧ era ∈ eras h ∧
    epoch_bounds h ep = Ok (bounds_in era st) ∧
    st <= s < st + epoch_size_slots (params era).
Proof.
  destruct h as [w [|e l]]; [discriminate|]. cbn. intros Hv Hs Hf.
  destruct (to_epoch_spec s e l w Hv Hs Hf) as (ep & era & st & ? & ? & ? & ? & ?).
  by exists ep, era, st.
Qed.

Lemma slot_to_epoch_total_witness :
  ∃ ep era st, slot_to_epoch_unchecked_horizon MAINNET_ERA_HISTORY 4492800 = Ok ep ∧
    era ∈ eras MAINNET_ERA_HISTORY ∧
    epoch_bounds MAINNET_ERA_HISTORY ep = Ok (bounds_in era st) ∧
    st <= 4492800 < st + epoch_size_slots (params era).
Proof.
  apply slot_to_epoch_total; [reflexivity | cbn; lia |].
  repeat constructor; unfold fits, u64_max; cbn; lia.
Defined.

(** *** The time horizon *)

Lemma calculate_end_bound_spec {E} e tip w b :
  calculate_end_bound (E:=E) e tip w = Ok b → 0 <= epoch_size_slots (params e) → 0 <= w →
  Z.max (bound_slot (start e)) (tip + 1) + w <= bound_slot b.
Proof.
  unfold calculate_end_bound. intros H Hsz Hw; exec_inv.
  repeat match goal with
  | H : u64_add _ _ = Ok _ |- _ => apply u64_add_Ok in H as [-> ?]
  | H : u64_sub _ _ = Ok _ |- _ => apply u64_sub_Ok in H as [-> ?]
  | H : u64_mul _ _ = Ok _ |- _ => apply u64_mul_Ok in H as [-> ?]
  | H : u64_div _ _ = Ok _ |- _ => apply u64_div_Ok in H as [-> ?]
  end.
  simplify_eq. cbn [bound_slot].
  case_bool; [lia|].
  match goal with |- context [?d / ?sz] => pose proof (div_bounds d sz ltac:(lia) ltac:(lia)) end.
  case_bool; [|nia].
  match goal with H : ?d mod ?sz = 0 |- _ => apply Z.div_exact in H; [|lia] end. nia.
Qed.

Section Horizon.
Variables (s tip w : Z).
Hypothesis Hw : 0 <= w.

#[local] Abbreviation to_epoch_checked := (for_eras (λ era, s <? bound_slot (start era))
  (λ era, contains_slot era s tip w) (era_slot_to_epoch s) PastTimeHorizon) (only parsing).

Lemma contains_slot_Ok e b : contains_slot (E:=EraHistoryError) e s tip w = Ok b →
  (b = contains_slot_unchecked_horizon e s) ∨
  (b = false ∧ end_ e = None ∧
   (0 <= epoch_size_slots (params e) → tip + w < s)).
Proof using Hw.
  unfold contains_slot, contains_slot_unchecked_horizon.
  destruct (is_empty e); [intros [= <-]; by left|].
  destruct (end_ e) as [b'|]; [intros [= <-]; by left|]. intros H; exec_inv.
  subst. case_bool; [by left|]. right. split; [done|]. split; [done|].
  intros Hsz. apply calculate_end_bound_spec in Hr0; [|done..]. lia.
Qed.

Lemma to_epoch_checked_Ok l ep :
  valid_eras l = true → to_epoch_checked l = Ok ep → to_epoch s l = Ok ep.
Proof using Hw.
  induction l as [|e l IH]; intros Hv; [done|]. rewrite !for_eras_cons.
  case_bool; [done|]. cbn [mbind exec_bind].
  destruct (contains_slot e s tip w) as [b| | |] eqn:Hc; try discriminate.
  apply valid_eras_cons in Hv as [Hok Hcase].
  apply contains_slot_Ok in Hc as [-> | (-> & Hnone & _)].
  - destruct (contains_slot_unchecked_horizon e s); [done|].
    destruct Hcase as [[? ->]|(e' & l' & -> & He & Hrest)]; [discriminate|auto].
  - destruct Hcase as [[? ->]|(e' & l' & -> & He & Hrest)]; [discriminate|congruence].
Qed.

Lemma to_epoch_checked_horizon l :
  valid_eras l = true → to_epoch_checked l = Err PastTimeHorizon → tip + w < s.
Proof using Hw.
  induction l as [|e l IH]; intros Hv; [done|]. rewrite !for_eras_cons.
  case_bool; [done|]. cbn [mbind exec_bind].
  destruct (contains_slot e s tip w) as [b| | |] eqn:Hc; try discriminate.
  - apply valid_eras_cons in Hv as [Hok Hcase].
    pose proof (era_ok_facts _ Hok) as (? & ? & ? & ? & ? & ? & ? & Hend).
    apply contains_slot_Ok in Hc as [-> | (-> & Hnone & Hlt)]; [|by intros; apply Hlt].
    destruct (contains_slot_unchecked_horizon e s) eqn:Hu.
    + unfold era_slot_to_epoch, elapsed_from, u64_div, Epoch_add, u64_add.
      intros Herr. repeat (case_match; cbn in *; try discriminate).
    + destruct Hcase as [[He ->]|(e' & l' & -> & He & Hrest)]; [|auto].
      unfold contains_slot_unchecked_horizon, is_empty in Hu. by rewrite He in Hu.
  - unfold contains_slot, calculate_end_bound in Hc.
    destruct (is_empty e); [done|]. destruct (end_ e); [done|].
    unfold u64_add, u64_sub, u64_mul, u64_div in Hc.
    repeat (case_match; cbn in *; try discriminate).
Qed.
End Horizon.

(** The horizon-checked conversion only restricts the unchecked one: what it
    answers is the unchecked answer, and it refuses a slot as past the horizon
    only when the slot is beyond the stability window of the tip. *)
Theorem slot_to_epoch_horizon (h : EraHistory) (s tip : Z) :
  valid_history h = true → 0 <= stability_window h →
  (∀ ep, slot_to_epoch h s tip = Ok ep → slot_to_epoch_unchecked_horizon h s = Ok ep) ∧
  (slot_to_epoch h s tip = Err PastTimeHorizon → tip + stability_window h < s).
Proof.
  intros Hv Hw. split.
  - intros ep. by apply (to_epoch_checked_Ok s tip _ Hw).
  - by apply (to_epoch_checked_horizon s tip _ Hw).
Qed.

Lemma slot_to_epoch_horizon_witness :
  slot_to_epoch_unchecked_horizon PREPROD_ERA_HISTORY 68774400 = Ok 163 ∧
  68774400 + stability_window PREPROD_ERA_HISTORY < 70000000.
Proof.
  assert (0 <= stability_window PREPROD_ERA_HISTORY) as Hw by (vm_compute; discriminate).
  split.
  - apply (proj1 (slot_to_epoch_horizon PREPROD_ERA_HISTORY 68774400 68774400 eq_refl Hw)).
    reflexivity.
  - apply (proj2 (slot_to_epoch_horizon PREPROD_ERA_HISTORY 70000000 68774400 eq_refl Hw)).
    reflexivity.
Defined.

(** [slot_in_epoch] is the offset of the slot from the first slot of its
    epoch, and it is smaller than the length of that epoch; it succeeds whenever
    the epoch of the slot is known. *)
Theorem slot_in_epoch_spec (h : EraHistory) (s tip ep : Z) :
  valid_history h = true → 0 <= stability_window h → first_slot h <= s →
  Forall (fits s) (eras h) → slot_to_epoch h s tip = Ok ep →
  ∃ era st, era ∈ eras h ∧ epoch_bounds h ep = Ok (bounds_in era st) ∧
    slot_in_epoch h s tip = Ok (s - st) ∧ 0 <= s - st < epoch_size_slots (params era).
Proof.
  intros Hv Hw Hs Hf Hep. destruct h as [w [|e l]]; [discriminate|].
  pose proof (to_epoch_checked_Ok s tip w Hw (e :: l) ep Hv Hep) as Hep'.
  destruct (to_epoch_spec s e l w Hv Hs Hf) as (ep' & era & st & Hto & Hin & _ & Hb & Hr).
  assert (ep' = ep) as -> by congruence. exists era, st. split; [done|]. split; [done|]. split; [|lia].
  unfold slot_in_epoch. rewrite Hep. cbn [mbind exec_bind]. rewrite Hb. cbn.
  unfold elapsed_from. case_bool; [lia|done].
Qed.

Lemma slot_in_epoch_spec_witness :
  ∃ era st, era ∈ eras MAINNET_ERA_HISTORY ∧
    epoch_bounds MAINNET_ERA_HISTORY 507 = Ok (bounds_in era st) ∧
    slot_in_epoch MAINNET_ERA_HISTORY 133660900 133660900 = Ok (133660900 - st) ∧
    0 <= 133660900 - st < epoch_size_slots (params era).
Proof.
  apply slot_in_epoch_spec;
    [reflexivity | vm_compute; discriminate | cbn; lia | | reflexivity].
  repeat constructor; unfold fits, u64_max; cbn; lia.
Defined.

(** The built-in history of the preview network is not a valid one: its
    empty Allegra era starts at epoch 5.  As a consequence the very first slot
    is reported in epoch 5, the bounds of epochs 0 to 4 cannot be computed, and
    the position of a slot in those epochs is an error, whatever the tip. *)
Theorem preview_first_epochs_broken :
  valid_history PREVIEW_ERA_HISTORY = false ∧
  slot_to_epoch_unchecked_horizon PREVIEW_ERA_HISTORY 0 = Ok 5 ∧
  Forall (λ ep, epoch_bounds PREVIEW_ERA_HISTORY ep = Err InvalidEraHistory) [0; 1; 2; 3; 4] ∧
  ∀ tip, slot_in_epoch PREVIEW_ERA_HISTORY 86400 tip = Err InvalidEraHistory ∧
         slot_in_epoch PREVIEW_ERA_HISTORY 345600 tip = Err InvalidEraHistory.
Proof. repeat constructor. Qed.

(** ** Era names *)

(** The wire encodings of an era name are inverse of their decodings, for
    the [repr(u8)] tag, the header variant and the textual name, and every tag
    or variant outside of the table is refused. *)
Theorem era_name_roundtrip :
  (∀ n, EraName_try_from (EraName_as_u8 n) = Ok n ∧
        from_header_variant (header_variant n) = Ok n ∧
        (s ← as_str n; EraName_from_str s) = Ok n) ∧
  (∀ v n, 0 <= v <= u8_max → EraName_try_from v = Ok n → EraName_as_u8 n = v) ∧
  (∀ v n, from_header_variant v = Ok n → header_variant n = v).
Proof.
  split; [by intros []|]. split.
  - intros v n Hv. unfold EraName_try_from.
    destruct (Z.eqb_spec v 0); [done|]. case_bool; [done|]. cbn in *.
    assert (v ∈ seqZ 1 8) as Hin by (apply elem_of_seqZ; lia). cbn in Hin.
    by repeat (apply elem_of_cons in Hin as [->|Hin]; [by intros [= <-]|]);
      apply elem_of_nil in Hin.
  - intros v n. unfold from_header_variant.
    repeat case_match; intros; simplify_eq; done.
Qed.

(** The tag 7 read from the wire is Conway's. *)
Lemma era_name_roundtrip_witness : EraName_as_u8 Conway = 7.
Proof. apply era_name_roundtrip; [unfold u8_max; lia | reflexivity]. Defined.
