(* ===== verification/UplcSyntax.v ===== *)
(** * The syntax of Untyped Plutus Core

    Models the data types of [amaru-uplc]: [builtin/default_function.rs],
    [typ.rs], [data.rs], [constant.rs], [ledger_value.rs] (the records),
    [term.rs], [program.rs], [binder/debruijn.rs], [machine/version.rs] and the
    protocol and Plutus versions of [amaru-kernel].  References into the arena
    are values.  A [u8] is a [Z] in [0..255], a [usize] a [Z] in
    [0..2^64-1], a [str] its UTF-8 bytes, an [Integer] a [Z]; the opaque
    [blst] points are their machine words. *)

From S2P Require Import Prelude.

(** ** Versions *)

(** [amaru-kernel] [ProtocolVersion], ordered by major then minor. *)
Record ProtocolVersion := mkProtocolVersion { pv_major : Z; pv_minor : Z }.
Definition pv_leb (a b : ProtocolVersion) : bool :=
  (pv_major a <? pv_major b) || ((pv_major a =? pv_major b) && (pv_minor a <=? pv_minor b)).
Definition pv_ltb (a b : ProtocolVersion) : bool := negb (pv_leb b a).

Definition PROTOCOL_VERSION_5 : ProtocolVersion := mkProtocolVersion 5 0.
Definition PROTOCOL_VERSION_7 : ProtocolVersion := mkProtocolVersion 7 0.
Definition PROTOCOL_VERSION_9 : ProtocolVersion := mkProtocolVersion 9 0.
Definition PROTOCOL_VERSION_10 : ProtocolVersion := mkProtocolVersion 10 0.
Definition PROTOCOL_VERSION_11 : ProtocolVersion := mkProtocolVersion 11 0.

Definition can_follow (self other : ProtocolVersion) : bool :=
  ((pv_major self =? pv_major other + 1) && (pv_minor self =? 0))
  || ((pv_major self =? pv_major other) && (pv_minor self =? pv_minor other + 1)).

Inductive PlutusVersion := V1 | V2 | V3.

(** [reify_plutus_version::<V>]. *)
Definition reify_plutus_version (v : Z) : option PlutusVersion :=
  match v with 1 => Some V1 | 2 => Some V2 | 3 => Some V3 | _ => None end.

#[global] Instance PlutusVersion_eq_dec : EqDecision PlutusVersion.
Proof. solve_decision. Defined.

Definition introduced_in (v : PlutusVersion) : ProtocolVersion :=
  match v with V1 => PROTOCOL_VERSION_5 | V2 => PROTOCOL_VERSION_7 | V3 => PROTOCOL_VERSION_9 end.

(** ** Builtin functions *)
Inductive DefaultFunction :=
  | AddInteger | SubtractInteger | MultiplyInteger | DivideInteger | QuotientInteger
  | RemainderInteger | ModInteger | EqualsInteger | LessThanInteger | LessThanEqualsInteger
  | AppendByteString | ConsByteString | SliceByteString | LengthOfByteString | IndexByteString
  | EqualsByteString | LessThanByteString | LessThanEqualsByteString | Sha2_256 | Sha3_256
  | Blake2b_256 | Keccak_256 | Blake2b_224 | VerifyEd25519Signature
  | VerifyEcdsaSecp256k1Signature | VerifySchnorrSecp256k1Signature | AppendString
  | EqualsString | EncodeUtf8 | DecodeUtf8 | IfThenElse | ChooseUnit | Trace | FstPair
  | SndPair | ChooseList | MkCons | HeadList | TailList | NullList | ChooseData | ConstrData
  | MapData | ListData | IData | BData | UnConstrData | UnMapData | UnListData | UnIData
  | UnBData | EqualsData | SerialiseData | MkPairData | MkNilData | MkNilPairData
  | Bls12_381_G1_Add | Bls12_381_G1_Neg | Bls12_381_G1_ScalarMul | Bls12_381_G1_Equal
  | Bls12_381_G1_Compress | Bls12_381_G1_Uncompress | Bls12_381_G1_HashToGroup
  | Bls12_381_G2_Add | Bls12_381_G2_Neg | Bls12_381_G2_ScalarMul | Bls12_381_G2_Equal
  | Bls12_381_G2_Compress | Bls12_381_G2_Uncompress | Bls12_381_G2_HashToGroup
  | Bls12_381_MillerLoop | Bls12_381_MulMlResult | Bls12_381_FinalVerify | IntegerToByteString
  | ByteStringToInteger | AndByteString | OrByteString | XorByteString | ComplementByteString
  | ReadBit | WriteBits | ReplicateByte | ShiftByteString | RotateByteString | CountSetBits
  | FindFirstSetBit | Ripemd_160 | ExpModInteger | DropList | LengthOfArray | ListToArray
  | IndexArray | Bls12_381_G1_MultiScalarMul | Bls12_381_G2_MultiScalarMul | InsertCoin
  | LookupCoin | UnionValue | ValueContains | ValueData | UnValueData | ScaleValue.

#[global] Instance DefaultFunction_eq_dec : EqDecision DefaultFunction.
Proof. solve_decision. Defined.

(** The [repr(u8)] discriminant, [*b as u8]. *)
Definition DefaultFunction_as_u8 (f : DefaultFunction) : Z :=
  match f with
  | AddInteger => 0 | SubtractInteger => 1 | MultiplyInteger => 2 | DivideInteger => 3
  | QuotientInteger => 4 | RemainderInteger => 5 | ModInteger => 6 | EqualsInteger => 7
  | LessThanInteger => 8 | LessThanEqualsInteger => 9 | AppendByteString => 10
  | ConsByteString => 11 | SliceByteString => 12 | LengthOfByteString => 13
  | IndexByteString => 14 | EqualsByteString => 15 | LessThanByteString => 16
  | LessThanEqualsByteString => 17 | Sha2_256 => 18 | Sha3_256 => 19 | Blake2b_256 => 20
  | Keccak_256 => 71 | Blake2b_224 => 72 | VerifyEd25519Signature => 21
  | VerifyEcdsaSecp256k1Signature => 52 | VerifySchnorrSecp256k1Signature => 53
  | AppendString => 22 | EqualsString => 23 | EncodeUtf8 => 24 | DecodeUtf8 => 25
  | IfThenElse => 26 | ChooseUnit => 27 | Trace => 28 | FstPair => 29 | SndPair => 30
  | ChooseList => 31 | MkCons => 32 | HeadList => 33 | TailList => 34 | NullList => 35
  | ChooseData => 36 | ConstrData => 37 | MapData => 38 | ListData => 39 | IData => 40
  | BData => 41 | UnConstrData => 42 | UnMapData => 43 | UnListData => 44 | UnIData => 45
  | UnBData => 46 | EqualsData => 47 | SerialiseData => 51 | MkPairData => 48 | MkNilData => 49
  | MkNilPairData => 50 | Bls12_381_G1_Add => 54 | Bls12_381_G1_Neg => 55
  | Bls12_381_G1_ScalarMul => 56 | Bls12_381_G1_Equal => 57 | Bls12_381_G1_Compress => 58
  | Bls12_381_G1_Uncompress => 59 | Bls12_381_G1_HashToGroup => 60 | Bls12_381_G2_Add => 61
  | Bls12_381_G2_Neg => 62 | Bls12_381_G2_ScalarMul => 63 | Bls12_381_G2_Equal => 64
  | Bls12_381_G2_Compress => 65 | Bls12_381_G2_Uncompress => 66
  | Bls12_381_G2_HashToGroup => 67 | Bls12_381_MillerLoop => 68 | Bls12_381_MulMlResult => 69
  | Bls12_381_FinalVerify => 70 | IntegerToByteString => 73 | ByteStringToInteger => 74
  | AndByteString => 75 | OrByteString => 76 | XorByteString => 77 | ComplementByteString => 78
  | ReadBit => 79 | WriteBits => 80 | ReplicateByte => 81 | ShiftByteString => 82
  | RotateByteString => 83 | CountSetBits => 84 | FindFirstSetBit => 85 | Ripemd_160 => 86
  | ExpModInteger => 87 | DropList => 88 | LengthOfArray => 89 | ListToArray => 90
  | IndexArray => 91 | Bls12_381_G1_MultiScalarMul => 92 | Bls12_381_G2_MultiScalarMul => 93
  | InsertCoin => 94 | LookupCoin => 95 | UnionValue => 96 | ValueContains => 97
  | ValueData => 98 | UnValueData => 99 | ScaleValue => 100
  end.

(** [TryFrom<u8>]. *)
Definition DefaultFunction_try_from (tag : Z) : option DefaultFunction :=
  match tag with
  | 0 => Some AddInteger | 1 => Some SubtractInteger | 2 => Some MultiplyInteger
  | 3 => Some DivideInteger | 4 => Some QuotientInteger | 5 => Some RemainderInteger
  | 6 => Some ModInteger | 7 => Some EqualsInteger | 8 => Some LessThanInteger
  | 9 => Some LessThanEqualsInteger | 10 => Some AppendByteString | 11 => Some ConsByteString
  | 12 => Some SliceByteString | 13 => Some LengthOfByteString | 14 => Some IndexByteString
  | 15 => Some EqualsByteString | 16 => Some LessThanByteString
  | 17 => Some LessThanEqualsByteString | 18 => Some Sha2_256 | 19 => Some Sha3_256
  | 20 => Some Blake2b_256 | 21 => Some VerifyEd25519Signature | 22 => Some AppendString
  | 23 => Some EqualsString | 24 => Some EncodeUtf8 | 25 => Some DecodeUtf8
  | 26 => Some IfThenElse | 27 => Some ChooseUnit | 28 => Some Trace | 29 => Some FstPair
  | 30 => Some SndPair | 31 => Some ChooseList | 32 => Some MkCons | 33 => Some HeadList
  | 34 => Some TailList | 35 => Some NullList | 36 => Some ChooseData | 37 => Some ConstrData
  | 38 => Some MapData | 39 => Some ListData | 40 => Some IData | 41 => Some BData
  | 42 => Some UnConstrData | 43 => Some UnMapData | 44 => Some UnListData | 45 => Some UnIData
  | 46 => Some UnBData | 47 => Some EqualsData | 48 => Some MkPairData | 49 => Some MkNilData
  | 50 => Some MkNilPairData | 51 => Some SerialiseData
  | 52 => Some VerifyEcdsaSecp256k1Signature | 53 => Some VerifySchnorrSecp256k1Signature
  | 54 => Some Bls12_381_G1_Add | 55 => Some Bls12_381_G1_Neg
  | 56 => Some Bls12_381_G1_ScalarMul | 57 => Some Bls12_381_G1_Equal
  | 58 => Some Bls12_381_G1_Compress | 59 => Some Bls12_381_G1_Uncompress
  | 60 => Some Bls12_381_G1_HashToGroup | 61 => Some Bls12_381_G2_Add
  | 62 => Some Bls12_381_G2_Neg | 63 => Some Bls12_381_G2_ScalarMul
  | 64 => Some Bls12_381_G2_Equal | 65 => Some Bls12_381_G2_Compress
  | 66 => Some Bls12_381_G2_Uncompress | 67 => Some Bls12_381_G2_HashToGroup
  | 68 => Some Bls12_381_MillerLoop | 69 => Some Bls12_381_MulMlResult
  | 70 => Some Bls12_381_FinalVerify | 71 => Some Keccak_256 | 72 => Some Blake2b_224
  | 73 => Some IntegerToByteString | 74 => Some ByteStringToInteger | 75 => Some AndByteString
  | 76 => Some OrByteString | 77 => Some XorByteString | 78 => Some ComplementByteString
  | 79 => Some ReadBit | 80 => Some WriteBits | 81 => Some ReplicateByte
  | 82 => Some ShiftByteString | 83 => Some RotateByteString | 84 => Some CountSetBits
  | 85 => Some FindFirstSetBit | 86 => Some Ripemd_160 | 87 => Some ExpModInteger
  | 88 => Some DropList | 89 => Some LengthOfArray | 90 => Some ListToArray
  | 91 => Some IndexArray | 92 => Some Bls12_381_G1_MultiScalarMul
  | 93 => Some Bls12_381_G2_MultiScalarMul | 94 => Some InsertCoin | 95 => Some LookupCoin
  | 96 => Some UnionValue | 97 => Some ValueContains | 98 => Some ValueData
  | 99 => Some UnValueData | 100 => Some ScaleValue
  | _ => None
  end.

(** Number of type instantiations a builtin expects. *)
Definition force_count (f : DefaultFunction) : Z :=
  match f with
  | AddInteger => 0 | SubtractInteger => 0 | MultiplyInteger => 0 | DivideInteger => 0
  | QuotientInteger => 0 | RemainderInteger => 0 | ModInteger => 0 | EqualsInteger => 0
  | LessThanInteger => 0 | LessThanEqualsInteger => 0 | AppendByteString => 0
  | ConsByteString => 0 | SliceByteString => 0 | LengthOfByteString => 0 | IndexByteString => 0
  | EqualsByteString => 0 | LessThanByteString => 0 | LessThanEqualsByteString => 0
  | Sha2_256 => 0 | Sha3_256 => 0 | Blake2b_224 => 0 | Blake2b_256 => 0 | Keccak_256 => 0
  | VerifyEd25519Signature => 0 | VerifyEcdsaSecp256k1Signature => 0
  | VerifySchnorrSecp256k1Signature => 0 | AppendString => 0 | EqualsString => 0
  | EncodeUtf8 => 0 | DecodeUtf8 => 0 | IfThenElse => 1 | ChooseUnit => 1 | Trace => 1
  | FstPair => 2 | SndPair => 2 | ChooseList => 2 | MkCons => 1 | HeadList => 1 | TailList => 1
  | NullList => 1 | ChooseData => 1 | ConstrData => 0 | MapData => 0 | ListData => 0
  | IData => 0 | BData => 0 | UnConstrData => 0 | UnMapData => 0 | UnListData => 0
  | UnIData => 0 | UnBData => 0 | EqualsData => 0 | SerialiseData => 0 | MkPairData => 0
  | MkNilData => 0 | MkNilPairData => 0 | Bls12_381_G1_Add => 0 | Bls12_381_G1_Neg => 0
  | Bls12_381_G1_ScalarMul => 0 | Bls12_381_G1_Equal => 0 | Bls12_381_G1_Compress => 0
  | Bls12_381_G1_Uncompress => 0 | Bls12_381_G1_HashToGroup => 0 | Bls12_381_G2_Add => 0
  | Bls12_381_G2_Neg => 0 | Bls12_381_G2_ScalarMul => 0 | Bls12_381_G2_Equal => 0
  | Bls12_381_G2_Compress => 0 | Bls12_381_G2_Uncompress => 0 | Bls12_381_G2_HashToGroup => 0
  | Bls12_381_MillerLoop => 0 | Bls12_381_MulMlResult => 0 | Bls12_381_FinalVerify => 0
  | IntegerToByteString => 0 | ByteStringToInteger => 0 | AndByteString => 0
  | OrByteString => 0 | XorByteString => 0 | ComplementByteString => 0 | ReadBit => 0
  | WriteBits => 0 | ReplicateByte => 0 | ShiftByteString => 0 | RotateByteString => 0
  | CountSetBits => 0 | FindFirstSetBit => 0 | Ripemd_160 => 0 | ExpModInteger => 0
  | DropList => 1 | LengthOfArray => 1 | ListToArray => 1 | IndexArray => 1
  | Bls12_381_G1_MultiScalarMul => 0 | Bls12_381_G2_MultiScalarMul => 0 | InsertCoin => 0
  | LookupCoin => 0 | UnionValue => 0 | ValueContains => 0 | ValueData => 0 | UnValueData => 0
  | ScaleValue => 0
  end.

(** Number of term arguments a builtin expects. *)
Definition arity (f : DefaultFunction) : Z :=
  match f with
  | AddInteger => 2 | SubtractInteger => 2 | MultiplyInteger => 2 | DivideInteger => 2
  | QuotientInteger => 2 | RemainderInteger => 2 | ModInteger => 2 | EqualsInteger => 2
  | LessThanInteger => 2 | LessThanEqualsInteger => 2 | AppendByteString => 2
  | ConsByteString => 2 | SliceByteString => 3 | LengthOfByteString => 1 | IndexByteString => 2
  | EqualsByteString => 2 | LessThanByteString => 2 | LessThanEqualsByteString => 2
  | Sha2_256 => 1 | Sha3_256 => 1 | Blake2b_224 => 1 | Blake2b_256 => 1 | Keccak_256 => 1
  | VerifyEd25519Signature => 3 | VerifyEcdsaSecp256k1Signature => 3
  | VerifySchnorrSecp256k1Signature => 3 | AppendString => 2 | EqualsString => 2
  | EncodeUtf8 => 1 | DecodeUtf8 => 1 | IfThenElse => 3 | ChooseUnit => 2 | Trace => 2
  | FstPair => 1 | SndPair => 1 | ChooseList => 3 | MkCons => 2 | HeadList => 1 | TailList => 1
  | NullList => 1 | ChooseData => 6 | ConstrData => 2 | MapData => 1 | ListData => 1
  | IData => 1 | BData => 1 | UnConstrData => 1 | UnMapData => 1 | UnListData => 1
  | UnIData => 1 | UnBData => 1 | EqualsData => 2 | SerialiseData => 1 | MkPairData => 2
  | MkNilData => 1 | MkNilPairData => 1 | Bls12_381_G1_Add => 2 | Bls12_381_G1_Neg => 1
  | Bls12_381_G1_ScalarMul => 2 | Bls12_381_G1_Equal => 2 | Bls12_381_G1_Compress => 1
  | Bls12_381_G1_Uncompress => 1 | Bls12_381_G1_HashToGroup => 2 | Bls12_381_G2_Add => 2
  | Bls12_381_G2_Neg => 1 | Bls12_381_G2_ScalarMul => 2 | Bls12_381_G2_Equal => 2
  | Bls12_381_G2_Compress => 1 | Bls12_381_G2_Uncompress => 1 | Bls12_381_G2_HashToGroup => 2
  | Bls12_381_MillerLoop => 2 | Bls12_381_MulMlResult => 2 | Bls12_381_FinalVerify => 2
  | IntegerToByteString => 3 | ByteStringToInteger => 2 | AndByteString => 3
  | OrByteString => 3 | XorByteString => 3 | ComplementByteString => 1 | ReadBit => 2
  | WriteBits => 3 | ReplicateByte => 2 | ShiftByteString => 2 | RotateByteString => 2
  | CountSetBits => 1 | FindFirstSetBit => 1 | Ripemd_160 => 1 | ExpModInteger => 3
  | DropList => 2 | LengthOfArray => 1 | ListToArray => 1 | IndexArray => 2
  | Bls12_381_G1_MultiScalarMul => 2 | Bls12_381_G2_MultiScalarMul => 2 | InsertCoin => 4
  | LookupCoin => 3 | UnionValue => 2 | ValueContains => 2 | ValueData => 1 | UnValueData => 1
  | ScaleValue => 2
  end.

(** The batches in which Plutus released its builtins. *)
Inductive Batch := One | Two | Three | FourA | FourB | Five | Six.
#[global] Instance Batch_eq_dec : EqDecision Batch.
Proof. solve_decision. Defined.

Definition batch (f : DefaultFunction) : Batch :=
  match f with
  | AddInteger | SubtractInteger | MultiplyInteger | DivideInteger | QuotientInteger
  | RemainderInteger | ModInteger | EqualsInteger | LessThanInteger | LessThanEqualsInteger
  | AppendByteString | ConsByteString | SliceByteString | LengthOfByteString | IndexByteString
  | EqualsByteString | LessThanByteString | LessThanEqualsByteString | Sha2_256 | Sha3_256
  | Blake2b_256 | VerifyEd25519Signature | AppendString | EqualsString | EncodeUtf8
  | DecodeUtf8 | IfThenElse | ChooseUnit | Trace | FstPair | SndPair | ChooseList | MkCons
  | HeadList | TailList | NullList | ChooseData | ConstrData | MapData | ListData | IData
  | BData | UnConstrData | UnMapData | UnListData | UnIData | UnBData | EqualsData | MkPairData
  | MkNilData | MkNilPairData => One
  | SerialiseData => Two
  | VerifyEcdsaSecp256k1Signature | VerifySchnorrSecp256k1Signature => Three
  | Bls12_381_G1_Add | Bls12_381_G1_Neg | Bls12_381_G1_ScalarMul | Bls12_381_G1_Equal
  | Bls12_381_G1_HashToGroup | Bls12_381_G1_Compress | Bls12_381_G1_Uncompress
  | Bls12_381_G2_Add | Bls12_381_G2_Neg | Bls12_381_G2_ScalarMul | Bls12_381_G2_Equal
  | Bls12_381_G2_HashToGroup | Bls12_381_G2_Compress | Bls12_381_G2_Uncompress
  | Bls12_381_MillerLoop | Bls12_381_MulMlResult | Bls12_381_FinalVerify | Keccak_256
  | Blake2b_224 => FourA
  | IntegerToByteString | ByteStringToInteger => FourB
  | AndByteString | OrByteString | XorByteString | ComplementByteString | ReadBit | WriteBits
  | ReplicateByte | ShiftByteString | RotateByteString | CountSetBits | FindFirstSetBit
  | Ripemd_160 => Five
  | ExpModInteger | DropList | LengthOfArray | ListToArray | IndexArray
  | Bls12_381_G1_MultiScalarMul | Bls12_381_G2_MultiScalarMul | InsertCoin | LookupCoin
  | UnionValue | ValueContains | ValueData | UnValueData | ScaleValue => Six
  end.

Definition is_available_in (f : DefaultFunction) (language : PlutusVersion) (pv : ProtocolVersion) : bool :=
  if bool_decide (batch f = One) then true
  else
    let from_van_rossem := pv_leb PROTOCOL_VERSION_11 pv in
    match language with
    | V1 => from_van_rossem
    | V2 => match batch f with
            | Two | Three | FourB => true
            | One | FourA | Five | Six => from_van_rossem
            end
    | V3 => match batch f with
            | Six => from_van_rossem
            | One | Two | Three | FourA | FourB | Five => true
            end
    end.
(** ** Types, data, values and constants *)

(** [typ.rs]. *)
Inductive Typ :=
| TyBool | TyInteger | TyString | TyByteString | TyUnit
| TyList (t : Typ) | TyArray (t : Typ) | TyPair (t1 t2 : Typ)
| TyData | TyBls12_381G1Element | TyBls12_381G2Element | TyBls12_381MlResult | TyValue.
#[global] Instance Typ_eq_dec : EqDecision Typ.
Proof. solve_decision. Defined.

(** [data.rs]. *)
Inductive PlutusData :=
| DConstr (tag : Z) (fields : list PlutusData)
| DMap (entries : list (PlutusData * PlutusData))
| DInteger (i : Z)
| DByteString (bs : list Z)
| DList (items : list PlutusData).

(** [ledger_value.rs]: a multi-asset value, sorted by currency then token. *)
Record TokenEntry := mkTokenEntry { token_name : list Z; quantity : Z }.
Record CurrencyEntry := mkCurrencyEntry { currency : list Z; tokens : list TokenEntry }.
Record LedgerValue := mkLedgerValue {
  entries : list CurrencyEntry; value_size : Z; negative_count : Z }.
#[global] Instance TokenEntry_eq_dec : EqDecision TokenEntry.
Proof. solve_decision. Defined.
#[global] Instance CurrencyEntry_eq_dec : EqDecision CurrencyEntry.
Proof. solve_decision. Defined.
#[global] Instance LedgerValue_eq_dec : EqDecision LedgerValue.
Proof. solve_decision. Defined.

(** [constant.rs].  The [List] of a [ProtoList] is the sequence it iterates
    over; its two representations are modelled in [ConstantList]. *)
Inductive Constant :=
| ConInteger (i : Z)
| ConByteString (bs : list Z)
| ConString (s : list Z)
| ConBoolean (b : bool)
| ConData (d : PlutusData)
| ConProtoList (t : Typ) (items : list Constant)
| ConProtoArray (t : Typ) (items : list Constant)
| ConProtoPair (t1 t2 : Typ) (fst snd : Constant)
| ConUnit
| ConBls12_381G1Element (p : list Z)
| ConBls12_381G2Element (p : list Z)
| ConBls12_381MlResult (p : list Z)
| ConValue (v : LedgerValue).

Definition type_of (c : Constant) : Typ :=
  match c with
  | ConInteger _ => TyInteger
  | ConByteString _ => TyByteString
  | ConString _ => TyString
  | ConBoolean _ => TyBool
  | ConData _ => TyData
  | ConProtoList t _ => TyList t
  | ConProtoArray t _ => TyArray t
  | ConProtoPair t1 t2 _ _ => TyPair t1 t2
  | ConUnit => TyUnit
  | ConBls12_381G1Element _ => TyBls12_381G1Element
  | ConBls12_381G2Element _ => TyBls12_381G2Element
  | ConBls12_381MlResult _ => TyBls12_381MlResult
  | ConValue _ => TyValue
  end.

(** ** Terms and programs *)

(** [binder/debruijn.rs]: a 1-based De Bruijn index. *)
Definition DeBruijn := Z.

(** [term.rs], at [V = DeBruijn]. *)
Inductive Term :=
| Var (name : DeBruijn)
| Lambda (parameter : DeBruijn) (body : Term)
| Apply (function argument : Term)
| Delay (body : Term)
| Force (body : Term)
| Case (constr : Term) (branches : list Term)
| Constr (tag : Z) (fields : list Term)
| Constant_ (c : Constant)
| Builtin (f : DefaultFunction)
| Error.

(** [machine/version.rs]. *)
Record MachineVersion := mkMachineVersion { major : Z; minor : Z; patch : Z }.
#[global] Instance MachineVersion_eq_dec : EqDecision MachineVersion.
Proof. solve_decision. Defined.
Definition V1_0_0 : MachineVersion := mkMachineVersion 1 0 0.
Definition V1_1_0 : MachineVersion := mkMachineVersion 1 1 0.

(** [(self.major, self.minor) >= (1, 1)]. *)
Definition is_constr_case_available (v : MachineVersion) : bool :=
  (1 <? major v) || ((major v =? 1) && (1 <=? minor v)).

Record Program := mkProgram { version : MachineVersion; term : Term }.

Definition Program_apply (p : Program) (t : Term) : Program :=
  mkProgram (version p) (Apply (term p) t).

(** ** Ledger semantics variants, [machine/semantics.rs] *)
Inductive Semantics := SemA | SemB | SemC | SemD | SemE.

Definition Semantics_new (v : PlutusVersion) (pv : ProtocolVersion) : Semantics :=
  match v with
  | V1 | V2 =>
      if pv_leb PROTOCOL_VERSION_11 pv then SemD
      else if pv_ltb pv PROTOCOL_VERSION_9 then SemA
      else SemB
  | V3 => if pv_leb PROTOCOL_VERSION_11 pv then SemE else SemC
  end.

Definition supports_program_version (s : Semantics) (v : MachineVersion) : bool :=
  match s with
  | SemA | SemB => bool_decide (v = V1_0_0)
  | SemC | SemD | SemE => bool_decide (v = V1_0_0) || bool_decide (v = V1_1_0)
  end.

Definition costs_strings_by_utf8_bytes (s : Semantics) : bool :=
  match s with SemD | SemE => true | _ => false end.
Definition cons_byte_string_range_checks (s : Semantics) : bool :=
  match s with SemC | SemE => true | _ => false end.
Definition enforces_integer_bounds (s : Semantics) : bool :=
  match s with SemD | SemE => true | _ => false end.
Definition bounds_shift_amount_to_int64 (s : Semantics) : bool :=
  match s with SemD | SemE => true | _ => false end.
Definition bounds_write_bits_input_length (s : Semantics) : bool :=
  match s with SemD | SemE => true | _ => false end.

(** [machine/case_on_constants.rs]. *)
Inductive CaseOnConstants := Unavailable | NoData.
#[global] Instance CaseOnConstants_eq_dec : EqDecision CaseOnConstants.
Proof. solve_decision. Defined.
Definition CaseOnConstants_new (pv : ProtocolVersion) : CaseOnConstants :=
  if pv_leb PROTOCOL_VERSION_11 pv then NoData else Unavailable.

(** ** Induction on nested data *)

(** Structural induction principles that see through the nested lists. *)
Section NestedInduction.
Lemma Constant_ind' (P : Constant → Prop) :
  (∀ i, P (ConInteger i)) → (∀ bs, P (ConByteString bs)) → (∀ s, P (ConString s)) →
  (∀ b, P (ConBoolean b)) → (∀ d, P (ConData d)) →
  (∀ t l, Forall P l → P (ConProtoList t l)) →
  (∀ t l, Forall P l → P (ConProtoArray t l)) →
  (∀ t1 t2 a b, P a → P b → P (ConProtoPair t1 t2 a b)) →
  P ConUnit →
  (∀ p, P (ConBls12_381G1Element p)) → (∀ p, P (ConBls12_381G2Element p)) →
  (∀ p, P (ConBls12_381MlResult p)) → (∀ v, P (ConValue v)) →
  ∀ c, P c.
Proof.
  intros ? ? ? ? ? HL HA HP ? ? ? ? ?. fix IH 1. intros []; try (clear IH; by auto).
  - apply HL. induction items; constructor; auto.
  - apply HA. induction items; constructor; auto.
  - apply HP; apply IH.
Qed.

Lemma Term_ind' (P : Term → Prop) :
  (∀ n, P (Var n)) → (∀ n t, P t → P (Lambda n t)) →
  (∀ f a, P f → P a → P (Apply f a)) → (∀ t, P t → P (Delay t)) → (∀ t, P t → P (Force t)) →
  (∀ t bs, P t → Forall P bs → P (Case t bs)) → (∀ tag fs, Forall P fs → P (Constr tag fs)) →
  (∀ c, P (Constant_ c)) → (∀ f, P (Builtin f)) → P Error →
  ∀ t, P t.
Proof.
  intros ? HLam HApp HD HF HCase HConstr ? ? ?. fix IH 1. intros []; try (clear IH; by auto).
  - apply HLam, IH.
  - apply HApp; apply IH.
  - apply HD, IH.
  - apply HF, IH.
  - apply HCase; [apply IH|]. induction branches; constructor; auto.
  - apply HConstr. induction fields; constructor; auto.
Qed.
End NestedInduction.

(** ** Facts about the builtin table *)

Lemma DefaultFunction_tag_range f : 0 <= DefaultFunction_as_u8 f < 2 ^ 7.
Proof. destruct f; cbn; lia. Qed.

Lemma DefaultFunction_try_from_as_u8 f :
  DefaultFunction_try_from (DefaultFunction_as_u8 f) = Some f.
Proof. by destruct f. Qed.

Lemma DefaultFunction_as_u8_try_from tag f :
  DefaultFunction_try_from tag = Some f → DefaultFunction_as_u8 f = tag.
Proof.
  unfold DefaultFunction_try_from. intros H.
  repeat case_match; simplify_eq; reflexivity.
Qed.

Lemma pv_leb_trans a b c : pv_leb a b = true → pv_leb b c = true → pv_leb a c = true.
Proof.
  unfold pv_leb. intros H1 H2. bool_to_prop.
  destruct H1, H2; bool_to_prop; apply orb_true_iff; rewrite ?andb_true_iff, ?Z.ltb_lt, ?Z.leb_le, ?Z.eqb_eq; lia.
Qed.
