(* ===== verification/ConstantList.v ===== *)
(** * Lists of constants

    Models [amaru-uplc/src/constant/list.rs]: a list is a slice, or a head in front
    of another list, with its length cached, so that [mkCons] is constant time.
    The rest of the development uses plain lists; the operations are shown here to
    refine them.  References are values; the arena is not modelled. *)

From S2P Require Import Prelude UplcSyntax.

(** ** Data *)
Inductive List :=
| mkList (representation : ListRepresentation) (len : Z)
with ListRepresentation :=
| Flat (values : list Constant)
| Cons (head : Constant) (tail : List).

Definition List_len (self : List) : Z := let 'mkList _ len := self in len.
Definition List_representation (self : List) : ListRepresentation := let 'mkList r _ := self in r.

(** ** Operations *)

Definition List_flat (values : list Constant) : List := mkList (Flat values) (Z.of_nat (length values)).
Definition List_cons (head : Constant) (tail : List) : List := mkList (Cons head tail) (List_len tail + 1).
Definition List_is_empty (self : List) : bool := List_len self =? 0.

Definition List_first (self : List) : option Constant :=
  match List_representation self with
  | Flat values => values !! 0%nat
  | Cons head _ => Some head
  end.

Fixpoint List_get_loop (current : List) (index : Z) : option Constant :=
  match current with
  | mkList (Flat values) _ => values !! Z.to_nat index
  | mkList (Cons head tail) _ => if index =? 0 then Some head else List_get_loop tail (index - 1)
  end.
Definition List_get (self : List) (index : Z) : option Constant :=
  if List_len self <=? index then None else List_get_loop self index.

Definition List_tail (self : List) : option List :=
  match List_representation self with
  | Flat values => match values with [] => None | _ :: tail => Some (List_flat tail) end
  | Cons _ tail => Some tail
  end.

Fixpoint List_drop (current : List) (count : Z) : List :=
  if 0 <? count then
    match current with
    | mkList (Flat values) _ =>
        let offset := Z.min count (Z.of_nat (length values)) in
        List_flat (drop (Z.to_nat offset) values)
    | mkList (Cons _ tail) _ => List_drop tail (count - 1)
    end
  else current.

(** *** Iteration *)

Record ListIter := mkListIter { current : option List; flat : option (list Constant); iter_remaining : Z }.

Definition List_iter (self : List) : ListIter := mkListIter (Some self) None (List_len self).

(** [next]; the loop turns at most three times: an exhausted slice, a new slice,
    the end.  [remaining -= 1] underflows below zero. *)
Fixpoint next_loop {E} (fuel : nat) (self : ListIter) : exec E (option Constant * ListIter) :=
  match fuel with
  | O => OutOfFuel
  | S fuel =>
      match flat self with
      | Some (value :: values) =>
          if iter_remaining self <? 1 then Panic
          else Ok (Some value, mkListIter (current self) (Some values) (iter_remaining self - 1))
      | _ =>
          match current self with
          | None => Ok (None, mkListIter None None (iter_remaining self))
          | Some (mkList (Flat values) _) => next_loop fuel (mkListIter None (Some values) (iter_remaining self))
          | Some (mkList (Cons head tail) _) =>
              if iter_remaining self <? 1 then Panic
              else Ok (Some head, mkListIter (Some tail) None (iter_remaining self - 1))
          end
      end
  end.
Definition ListIter_next {E} (self : ListIter) : exec E (option Constant * ListIter) := next_loop 3 self.

(** All the items, as a [for] loop sees them. *)
Fixpoint iter_collect {E} (fuel : nat) (it : ListIter) : exec E (list Constant) :=
  match fuel with
  | O => OutOfFuel
  | S fuel =>
      '(item, it) ← ListIter_next it;
      match item with
      | None => Ok []
      | Some c => rest ← iter_collect fuel it; Ok (c :: rest)
      end
  end.

(** [PartialEq]: equal cached lengths, then item by item. *)
Definition List_eq {E} (a b : List) (eqb : Constant → Constant → bool) : exec E bool :=
  if List_len a =? List_len b then
    xs ← iter_collect (S (Z.to_nat (List_len a))) (List_iter a);
    ys ← iter_collect (S (Z.to_nat (List_len b))) (List_iter b);
    Ok (forallb (λ '(x, y), eqb x y) (zip xs ys) && (length xs =? length ys)%nat)
  else Ok false.

(** ** Refinement *)

Fixpoint to_list (l : List) : list Constant :=
  match l with
  | mkList (Flat values) _ => values
  | mkList (Cons head tail) _ => head :: to_list tail
  end.

(** The cached lengths are right, all along. *)
Fixpoint list_wf (l : List) : Prop :=
  match l with
  | mkList (Flat values) len => len = Z.of_nat (length values)
  | mkList (Cons _ tail) len => len = List_len tail + 1 ∧ list_wf tail
  end.

Lemma list_wf_len : ∀ l, list_wf l → List_len l = Z.of_nat (length (to_list l)).
Proof.
  fix IH 1. intros [[values|head tail] len]; cbn; [done|]. intros [-> Ht]. rewrite (IH tail Ht). lia.
Qed.

Lemma list_wf_flat values : list_wf (List_flat values).
Proof. done. Qed.

Lemma List_get_loop_spec : ∀ l i, list_wf l → 0 <= i → List_get_loop l i = to_list l !! Z.to_nat i.
Proof.
  fix IH 1. intros [[values|head tail] len] i Hw Hi; cbn; [done|]. destruct Hw as [_ Hw].
  case_bool; [by subst|]. rewrite (IH tail) by (done || lia). by replace (Z.to_nat i) with (S (Z.to_nat (i - 1))) by lia.
Qed.

Lemma List_drop_spec : ∀ l n, list_wf l → list_wf (List_drop l n) ∧ to_list (List_drop l n) = drop (Z.to_nat n) (to_list l).
Proof.
  fix IH 1. intros [[values|head tail] len] n Hw; cbn [List_drop]; destruct (Z.ltb_spec 0 n) as [Hn|Hn].
  - split; [done|]. cbn. destruct (decide (n <= Z.of_nat (length values))); [f_equal; lia|].
    rewrite !drop_ge by lia. done.
  - split; [done|]. by replace (Z.to_nat n) with 0%nat by lia.
  - destruct Hw as [_ Hw]. destruct (IH tail (n - 1) Hw) as [Hw' ->]. split; [done|].
    by replace (Z.to_nat n) with (S (Z.to_nat (n - 1))) by lia.
  - split; [done|]. by replace (Z.to_nat n) with 0%nat by lia.
Qed.

(** What an iterator still has to give. *)
Definition iter_items (it : ListIter) : list Constant :=
  default [] (flat it) ++ match current it with Some l => to_list l | None => [] end.
Definition iter_wf (it : ListIter) : Prop :=
  iter_remaining it = Z.of_nat (length (iter_items it)) ∧ match current it with Some l => list_wf l | None => True end.

Lemma yields {E} (c : Constant) rem (cur : option List) (fl : option (list Constant)) :
  let it' := mkListIter cur fl (rem - 1) in
  rem = Z.of_nat (S (length (iter_items it'))) → match cur with Some l => list_wf l | None => True end →
  (if rem <? 1 then Panic else Ok (E := E) (Some c, it')) = Ok (Some c, it') ∧ iter_wf it'.
Proof. intros it' Hr Hw. destruct (Z.ltb_spec rem 1); [lia|]. split; [done|]. split; [change (iter_remaining it') with (rem - 1); lia|done]. Qed.

(** What [next] returns on an iterator with items [items]. *)
Definition next_gives {E} (it : ListIter) (items : list Constant) : Prop :=
  match items with
  | [] => ∃ it', ListIter_next (E := E) it = Ok (None, it')
  | c :: rest => ∃ it', ListIter_next (E := E) it = Ok (Some c, it') ∧ iter_wf it' ∧ iter_items it' = rest
  end.

Lemma next_spec {E} it : iter_wf it → next_gives (E := E) it (iter_items it).
Proof.
  intros [Hr Hw]. destruct it as [cur fl rem]. unfold iter_items in *. cbn [current flat iter_remaining] in *.
  assert ((∃ c values, fl = Some (c :: values)) ∨ default [] fl = []) as [(c & values & ->)|Hfl]
    by (destruct fl as [[|c values]|]; eauto).
  { destruct (yields (E := E) c rem cur (Some values) Hr Hw) as [Hy Hw']. by exists (mkListIter cur (Some values) (rem - 1)). }
  assert (∀ n, next_loop (E := E) (S n) (mkListIter cur fl rem) =
    match cur with
    | None => Ok (None, mkListIter None None rem)
    | Some (mkList (Flat values) _) => next_loop n (mkListIter None (Some values) rem)
    | Some (mkList (Cons head tail) _) =>
        if rem <? 1 then Panic else Ok (Some head, mkListIter (Some tail) None (rem - 1))
    end) as Hnext by (destruct fl as [[|? ?]|]; [done|discriminate Hfl|done]).
  rewrite Hfl in Hr |- *. cbn [app] in *. unfold next_gives, ListIter_next. rewrite Hnext.
  destruct cur as [[[values|head tail] len]|]; cbn [to_list] in *.
  - destruct values as [|c values]; [by eexists|]. rewrite <- (app_nil_r values) in Hr.
    destruct (yields (E := E) c rem None (Some values) Hr I) as [Hy Hw']. exists (mkListIter None (Some values) (rem - 1)).
    split; [exact Hy|]. split; [exact Hw'|apply app_nil_r].
  - destruct (yields (E := E) head rem (Some tail) None Hr (proj2 Hw)) as [Hy Hw'].
    by exists (mkListIter (Some tail) None (rem - 1)).
  - by eexists.
Qed.

Lemma iter_collect_spec {E} fuel it : iter_wf it → (length (iter_items it) < fuel)%nat →
  iter_collect (E := E) fuel it = Ok (iter_items it).
Proof.
  revert it. induction fuel as [|fuel IH]; intros it Hw Hf; [lia|]. cbn [iter_collect].
  pose proof (next_spec (E := E) it Hw) as Hn. unfold next_gives in Hn. destruct (iter_items it) as [|c rest].
  - destruct Hn as [it' ->]. done.
  - destruct Hn as (it' & -> & Hw' & Hi). cbn [mbind exec_bind]. rewrite IH; [by rewrite Hi|done|rewrite Hi; cbn in Hf; lia].
Qed.

Lemma List_iter_wf l : list_wf l → iter_wf (List_iter l).
Proof. intros Hw. split; [cbn; by apply list_wf_len|done]. Qed.

(** The two-part lists of constants are lists: under the invariant that the
    cached lengths are right, which the constructors establish and [tail] and
    [drop] keep, [len], [is_empty], [first], [get], [tail], [drop] and iteration
    answer as on the sequence of items, whatever mixture of cells and slices
    represents it; the counter of the iterator never underflows. *)
Theorem constant_list_refines (E : Type) (l : List) (c : Constant) (values : list Constant) (i : Z) :
  list_wf l → 0 <= i →
  (list_wf (List_flat values) ∧ to_list (List_flat values) = values) ∧
  (list_wf (List_cons c l) ∧ to_list (List_cons c l) = c :: to_list l) ∧
  List_len l = Z.of_nat (length (to_list l)) ∧
  (List_is_empty l = true ↔ to_list l = []) ∧
  List_first l = head (to_list l) ∧
  List_get l i = to_list l !! Z.to_nat i ∧
  match List_tail l with
  | None => to_list l = []
  | Some t => list_wf t ∧ ∃ h, to_list l = h :: to_list t
  end ∧
  (list_wf (List_drop l i) ∧ to_list (List_drop l i) = drop (Z.to_nat i) (to_list l)) ∧
  iter_collect (E := E) (S (Z.to_nat (List_len l))) (List_iter l) = Ok (to_list l).
Proof.
  intros Hw Hi. pose proof (list_wf_len l Hw) as Hlen.
  split; [done|]. split; [done|]. split; [done|]. split.
  { unfold List_is_empty. rewrite Hlen, Z.eqb_eq. destruct (to_list l); cbn; [done|]. split; [lia|done]. }
  split; [by destruct l as [[[]|] ?]|]. split.
  { unfold List_get. rewrite Hlen. case_bool; [|by apply List_get_loop_spec]. symmetry. apply lookup_ge_None. lia. }
  split; [destruct l as [[[|v vs]|h t] ?]; cbn in *; naive_solver|].
  split; [by apply List_drop_spec|]. rewrite iter_collect_spec; [done|by apply List_iter_wf|].
  unfold iter_items. cbn. rewrite Hlen. lia.
Qed.

(** A cell in front of a slice. *)
Definition sample_list : List := List_cons (ConInteger 1) (List_flat [ConInteger 2; ConInteger 3]).

Lemma constant_list_refines_witness :
  List_get sample_list 2 = Some (ConInteger 3) ∧
  iter_collect (E := Empty_set) 4 (List_iter sample_list) = Ok [ConInteger 1; ConInteger 2; ConInteger 3].
Proof.
  destruct (constant_list_refines Empty_set sample_list ConUnit [] 2) as (_ & _ & _ & _ & _ & Hget & _ & _ & Hiter);
    [by repeat split|lia|].
  split; [exact Hget|exact Hiter].
Defined.
