(* ===== verification/SortedAssoc.v ===== *)
(** * Association lists sorted by byte-string keys

    The loops of [amaru-uplc/src/ledger_value.rs] walk slices of entries kept
    strictly ascending by a byte-string key, once for currencies and once for
    tokens.  This file gives the order on byte slices, the loop skeletons and
    their specification against an order-blind lookup. *)

From S2P Require Import Prelude.

(** [<[u8] as Ord>::cmp]: lexicographic order on bytes. *)
Fixpoint bytes_compare (a b : list Z) : comparison :=
  match a, b with
  | [], [] => Eq
  | [], _ :: _ => Lt
  | _ :: _, [] => Gt
  | x :: a, y :: b =>
      match Z.compare x y with Eq => bytes_compare a b | c => c end
  end.

Lemma bytes_compare_refl a : bytes_compare a a = Eq.
Proof. induction a as [|x a IH]; cbn; [done|]. by rewrite Z.compare_refl. Qed.

Lemma bytes_compare_eq a b : bytes_compare a b = Eq ↔ a = b.
Proof.
  split; [|intros ->; apply bytes_compare_refl].
  revert b. induction a as [|x a IH]; intros [|y b]; cbn; try done.
  destruct (Z.compare_spec x y); try done. intros ?. f_equal; auto.
Qed.

Lemma bytes_compare_antisym a b : bytes_compare b a = CompOpp (bytes_compare a b).
Proof.
  revert b. induction a as [|x a IH]; intros [|y b]; cbn; try done.
  rewrite (Z.compare_antisym x y). destruct (Z.compare x y); cbn; auto.
Qed.

Lemma bytes_compare_gt_lt a b : bytes_compare a b = Gt ↔ bytes_compare b a = Lt.
Proof. rewrite (bytes_compare_antisym a b). destruct (bytes_compare a b); done. Qed.

Lemma bytes_compare_trans a b c :
  bytes_compare a b = Lt → bytes_compare b c = Lt → bytes_compare a c = Lt.
Proof.
  revert b c. induction a as [|x a IH]; intros [|y b] [|z c]; cbn; try done.
  destruct (Z.compare_spec x y), (Z.compare_spec y z); try done; subst; intros H1 H2.
  - rewrite Z.compare_refl. eauto.
  - by rewrite (proj2 (Z.compare_lt_iff _ _)).
  - by rewrite (proj2 (Z.compare_lt_iff _ _)).
  - rewrite (proj2 (Z.compare_lt_iff _ _)); [done|lia].
Qed.

Lemma bytes_compare_lt_neq a b : bytes_compare a b = Lt → a ≠ b.
Proof. intros H ->. by rewrite bytes_compare_refl in H. Qed.

Section SortedAssoc.
Context {A : Type} (key : A → list Z).

(** Strictly ascending keys. *)
Definition asc : list A → Prop := StronglySorted (λ a b, bytes_compare (key a) (key b) = Lt).

(** Order-blind lookup: the specification of every operation below. *)
Fixpoint find_by (k : list Z) (l : list A) : option A :=
  match l with
  | [] => None
  | a :: l => if decide (key a = k) then Some a else find_by k l
  end.

(** [for entry in entries { match entry.key.cmp(k) { Equal => return entry,
    Greater => break, _ => {} } }]. *)
Fixpoint lookup_by (k : list Z) (l : list A) : option A :=
  match l with
  | [] => None
  | a :: l =>
      match bytes_compare (key a) k with
      | Eq => Some a
      | Gt => None
      | Lt => lookup_by k l
      end
  end.

(** The insertion loop: entries below [k] are kept, an equal entry is
    replaced by [update], a missing one is put in place by [fresh]. *)
Fixpoint insert_by (k : list Z) (fresh : option A) (update : A → option A)
    (found : bool) (l : list A) : list A :=
  match l with
  | [] => if found then [] else option_list fresh
  | a :: l =>
      match bytes_compare (key a) k with
      | Lt => a :: insert_by k fresh update found l
      | Eq => option_list (update a) ++ insert_by k fresh update true l
      | Gt => (if found then [] else option_list fresh) ++ a :: insert_by k fresh update true l
      end
  end.

(** The merge loop over two slices; [combine] merges two entries with the
    same key, fails, or drops them. *)
Fixpoint merge_by {E} (combine : A → A → exec E (option A)) (l1 : list A) : list A → exec E (list A) :=
  fix go (l2 : list A) : exec E (list A) :=
    match l1, l2 with
    | [], _ => Ok l2
    | _, [] => Ok l1
    | a :: l1', b :: l2' =>
        match bytes_compare (key a) (key b) with
        | Lt => rest ← merge_by combine l1' l2; mret (a :: rest)
        | Gt => rest ← go l2'; mret (b :: rest)
        | Eq =>
            c ← combine a b;
            rest ← merge_by combine l1' l2';
            mret (option_list c ++ rest)
        end
    end.

(** ** Specifications *)

Lemma asc_cons a l : asc (a :: l) ↔ asc l ∧ Forall (λ b, bytes_compare (key a) (key b) = Lt) l.
Proof.
  split; [intros H; by inversion H | intros [? ?]; by constructor].
Qed.

Lemma find_by_Some k l a : find_by k l = Some a → a ∈ l ∧ key a = k.
Proof.
  induction l as [|b l IH]; cbn; [done|]. case_decide.
  - intros [= ->]. split; [left|done].
  - intros [? ?]%IH. split; [by right|done].
Qed.

Lemma find_by_lt k l :
  Forall (λ b, bytes_compare k (key b) = Lt) l → find_by k l = None.
Proof.
  induction 1 as [|b l Hb Hl IH]; cbn; [done|]. case_decide; [|done].
  subst. by rewrite bytes_compare_refl in Hb.
Qed.

(** An element of a sorted list is what its key finds. *)
Lemma find_by_elem a l : asc l → a ∈ l → find_by (key a) l = Some a.
Proof.
  induction l as [|b l IH]; [by intros ? ?%elem_of_nil|].
  intros [Hl Hb]%asc_cons [->|Hin]%elem_of_cons; cbn; case_decide; try done.
  - rewrite Forall_forall in Hb. specialize (Hb _ Hin).
    by apply bytes_compare_lt_neq in Hb.
  - auto.
Qed.

Lemma lookup_by_find k l : asc l → lookup_by k l = find_by k l.
Proof.
  induction l as [|a l IH]; cbn; [done|]. intros [Hl Ha]%asc_cons.
  destruct (bytes_compare (key a) k) eqn:Hc; case_decide as Hk; try done.
  - by apply bytes_compare_eq in Hc.
  - subst. by rewrite bytes_compare_refl in Hc.
  - auto.
  - subst. by rewrite bytes_compare_refl in Hc.
  - symmetry. apply find_by_lt. apply bytes_compare_gt_lt in Hc.
    eapply Forall_impl; [exact Ha|]. intros b. by apply bytes_compare_trans.
Qed.

(** Two sorted lists with the same lookups are equal. *)
Lemma asc_ext l1 l2 : asc l1 → asc l2 → (∀ k, find_by k l1 = find_by k l2) → l1 = l2.
Proof.
  revert l2. induction l1 as [|a l1 IH]; intros [|b l2] H1 H2 Hf; [done|..].
  - specialize (Hf (key b)). cbn in Hf. by rewrite decide_True in Hf.
  - specialize (Hf (key a)). cbn in Hf. by rewrite decide_True in Hf.
  - apply asc_cons in H1 as [H1 Ha]. apply asc_cons in H2 as [H2 Hb].
    assert (a = b) as <-.
    { pose proof (Hf (key a)) as Hfa. pose proof (Hf (key b)) as Hfb. cbn in Hfa, Hfb.
      rewrite decide_True in Hfa by done. rewrite (decide_True _ _ (eq_refl (key b))) in Hfb.
      repeat case_decide; try congruence.
      symmetry in Hfa. apply find_by_Some in Hfa as [Hina _]. apply find_by_Some in Hfb as [Hinb _].
      rewrite Forall_forall in Ha, Hb. specialize (Ha _ Hinb). specialize (Hb _ Hina).
      apply bytes_compare_gt_lt in Hb. congruence. }
    f_equal. apply IH; [done..|]. intros k. specialize (Hf k). cbn in Hf.
    case_decide as Hk; [|done]. subst. by rewrite !find_by_lt.
Qed.

Lemma insert_by_found k fresh update l :
  Forall (λ b, bytes_compare k (key b) = Lt) l → insert_by k fresh update true l = l.
Proof.
  induction 1 as [|b l Hb Hl IH]; cbn; [done|].
  apply bytes_compare_gt_lt in Hb. by rewrite Hb, IH.
Qed.

Section InsertBy.
Context (k : list Z) (fresh : option A) (update : A → option A).

Lemma insert_by_Forall (Q : A → Prop) found l :
  (∀ a, fresh = Some a → Q a) → (∀ a b, a ∈ l → key a = k → update a = Some b → Q b) →
  Forall Q l → Forall Q (insert_by k fresh update found l).
Proof.
  intros Hf Hu Hl. revert found. induction Hl as [|a l Ha Hl IH]; intros found; cbn.
  - destruct found, fresh; cbn; auto.
  - assert (∀ fd, Forall Q (insert_by k fresh update fd l)) as IH'.
    { apply IH. intros x y Hx. apply Hu. by right. }
    destruct (bytes_compare (key a) k) eqn:Hc.
    + apply bytes_compare_eq in Hc. apply Forall_app. split; [|done].
      destruct (update a) eqn:Hua; cbn; [|done]. constructor; [|done].
      eapply Hu; [left|done..].
    + by constructor.
    + apply Forall_app. split; [destruct found, fresh; cbn; auto|by constructor].
Qed.

Hypothesis fresh_key : ∀ a, fresh = Some a → key a = k.
Hypothesis update_key : ∀ a b, key a = k → update a = Some b → key b = k.

Lemma insert_by_asc l : asc l → asc (insert_by k fresh update false l).
Proof using fresh_key update_key.
  induction l as [|a l IH]; cbn.
  - intros _. destruct fresh; cbn; repeat constructor.
  - intros [Hl Ha]%asc_cons. destruct (bytes_compare (key a) k) eqn:Hc.
    + apply bytes_compare_eq in Hc. rewrite insert_by_found by (by rewrite <- Hc).
      destruct (update a) as [b|] eqn:Hu; cbn; [|done]. apply asc_cons. split; [done|].
      by rewrite (update_key _ _ Hc Hu), <- Hc.
    + apply asc_cons. split; [auto|]. apply insert_by_Forall; [..|done].
      * intros b Hb. by rewrite (fresh_key _ Hb).
      * intros b c _ Hb Hu. by rewrite (update_key _ _ Hb Hu).
    + apply bytes_compare_gt_lt in Hc. rewrite insert_by_found.
      * destruct fresh as [b|] eqn:Hf; cbn; repeat (apply asc_cons; split); try done.
        rewrite (fresh_key _ eq_refl). constructor; [done|].
        eapply Forall_impl; [exact Ha|]. intros c. by apply bytes_compare_trans.
      * eapply Forall_impl; [exact Ha|]. intros c. by apply bytes_compare_trans.
Qed.

Lemma find_by_insert l k' : asc l →
  find_by k' (insert_by k fresh update false l)
  = if decide (k' = k) then match find_by k l with Some a => update a | None => fresh end
    else find_by k' l.
Proof using fresh_key update_key.
  induction l as [|a l IH]; cbn.
  - intros _. destruct fresh as [b|] eqn:Hf; cbn.
    + rewrite (fresh_key _ eq_refl). repeat case_decide; congruence.
    + by case_decide.
  - intros [Hl Ha]%asc_cons. specialize (IH Hl).
    destruct (bytes_compare (key a) k) eqn:Hc.
    + apply bytes_compare_eq in Hc. rewrite insert_by_found by (by rewrite <- Hc).
      rewrite (decide_True _ _ Hc).
      destruct (update a) as [b|] eqn:Hu; cbn.
      * rewrite (update_key _ _ Hc Hu). repeat case_decide; congruence.
      * case_decide as Hk; [|by rewrite decide_False by congruence].
        subst k'. apply find_by_lt. by rewrite <- Hc.
    + cbn. apply bytes_compare_lt_neq in Hc. rewrite IH. repeat case_decide; congruence.
    + apply bytes_compare_gt_lt in Hc.
      assert (Forall (λ c, bytes_compare k (key c) = Lt) l) as Hlt.
      { eapply Forall_impl; [exact Ha|]. intros c. by apply bytes_compare_trans. }
      rewrite (insert_by_found _ _ _ _ Hlt), (find_by_lt _ _ Hlt).
      apply bytes_compare_lt_neq in Hc.
      destruct fresh as [b|] eqn:Hf; cbn.
      * rewrite (fresh_key _ eq_refl). repeat case_decide; congruence.
      * repeat case_decide; try congruence. subst k'. by apply find_by_lt.
Qed.
End InsertBy.

(** What merging finds at a key, from what the two lists find there. *)
Definition merged {E} (combine : A → A → exec E (option A)) (o1 o2 o : option A) : Prop :=
  match o1, o2 with
  | Some a, Some b => combine a b = Ok o
  | Some a, None | None, Some a => o = Some a
  | None, None => o = None
  end.

Section MergeBy.
Context {E : Type} (combine : A → A → exec E (option A)).

Lemma merge_by_nil_l l2 : merge_by combine [] l2 = Ok l2.
Proof. by destruct l2. Qed.
Lemma merge_by_nil_r l1 : merge_by combine l1 [] = Ok l1.
Proof. by destruct l1. Qed.
Lemma merge_by_cons a l1 b l2 :
  merge_by combine (a :: l1) (b :: l2)
  = match bytes_compare (key a) (key b) with
    | Lt => rest ← merge_by combine l1 (b :: l2); mret (a :: rest)
    | Gt => rest ← merge_by combine (a :: l1) l2; mret (b :: rest)
    | Eq => c ← combine a b; rest ← merge_by combine l1 l2; mret (option_list c ++ rest)
    end.
Proof. done. Qed.

(** Induction along the merge. *)
Lemma merge_ind (P : list A → list A → Prop) :
  (∀ l2, P [] l2) → (∀ l1, P l1 []) →
  (∀ a l1 b l2,
     (bytes_compare (key a) (key b) = Lt → P l1 (b :: l2)) →
     (bytes_compare (key a) (key b) = Gt → P (a :: l1) l2) →
     (bytes_compare (key a) (key b) = Eq → P l1 l2) → P (a :: l1) (b :: l2)) →
  ∀ l1 l2, P l1 l2.
Proof.
  intros Hl Hr Hc. induction l1 as [|a l1 IH1]; [done|].
  induction l2 as [|b l2 IH2]; [done|]. apply Hc; auto.
Qed.

(** Induction on two lists along the comparison of their heads. *)
Ltac merge_induction l1 l2 :=
  pattern l1, l2; apply merge_ind; clear l1 l2;
  [intros l2|intros l1|intros a l1 b l2 IHlt IHgt IHeq].

Lemma merge_by_Err l1 l2 e :
  merge_by combine l1 l2 = Err e →
  ∃ a b, a ∈ l1 ∧ b ∈ l2 ∧ key a = key b ∧ combine a b = Err e.
Proof.
  merge_induction l1 l2;
    [by rewrite merge_by_nil_l|by rewrite merge_by_nil_r|].
  rewrite merge_by_cons. destruct (bytes_compare (key a) (key b)) eqn:Hc.
  - rewrite bind_Err. intros [He|(c & _ & [He|(rest & _ & He)]%bind_Err)]; [..|done].
    + apply bytes_compare_eq in Hc. exists a, b. set_solver.
    + destruct (IHeq eq_refl He) as (x & y & ? & ? & ?). exists x, y. set_solver.
  - rewrite bind_Err. intros [He|(rest & _ & He)]; [|done].
    destruct (IHlt eq_refl He) as (x & y & ? & ? & ?). exists x, y. set_solver.
  - rewrite bind_Err. intros [He|(rest & _ & He)]; [|done].
    destruct (IHgt eq_refl He) as (x & y & ? & ? & ?). exists x, y. set_solver.
Qed.

Lemma merge_by_terminates l1 l2 :
  (∀ a b, terminates (combine a b) = true) → terminates (merge_by combine l1 l2) = true.
Proof.
  intros Hc. merge_induction l1 l2;
    [by rewrite merge_by_nil_l|by rewrite merge_by_nil_r|].
  rewrite merge_by_cons. destruct (bytes_compare (key a) (key b)).
  all: repeat (apply terminates_bind; [by auto|intros ? _]); done.
Qed.

Lemma merge_by_Forall (Q : A → Prop) l1 l2 l :
  (∀ a b c, a ∈ l1 → b ∈ l2 → key a = key b → combine a b = Ok (Some c) → Q c) →
  Forall Q l1 → Forall Q l2 → merge_by combine l1 l2 = Ok l → Forall Q l.
Proof.
  revert l. merge_induction l1 l2;
    intros l HQ H1 H2; rewrite ?merge_by_nil_l, ?merge_by_nil_r; [congruence..|].
  rewrite merge_by_cons. inversion_clear H1; inversion_clear H2.
  destruct (bytes_compare (key a) (key b)) eqn:Hc; intros Hm; exec_inv; subst l.
  - apply bytes_compare_eq in Hc. apply Forall_app. split.
    + destruct a0 as [c|]; cbn; [|done]. constructor; [|done]. eapply HQ; [| |done|done]; set_solver.
    + eapply IHeq; [done| |done..]. intros. eapply HQ; [| |done|done]; set_solver.
  - constructor; [done|]. eapply IHlt; [done| |done| |done].
    + intros. eapply HQ; [| |done|done]; set_solver.
    + by constructor.
  - constructor; [done|]. eapply IHgt; [done| | |done|done].
    + intros. eapply HQ; [| |done|done]; set_solver.
    + by constructor.
Qed.

Hypothesis combine_key : ∀ a b c, key a = key b → combine a b = Ok (Some c) → key c = key a.

Lemma merge_by_lt k l1 l2 l :
  Forall (λ b, bytes_compare k (key b) = Lt) l1 → Forall (λ b, bytes_compare k (key b) = Lt) l2 →
  merge_by combine l1 l2 = Ok l → Forall (λ b, bytes_compare k (key b) = Lt) l.
Proof using combine_key.
  intros H1 H2. apply merge_by_Forall; [|done..].
  intros a b c Ha _ Hk Hc. rewrite (combine_key _ _ _ Hk Hc).
  rewrite Forall_forall in H1. auto.
Qed.

Lemma merge_by_spec l1 l2 l :
  asc l1 → asc l2 → merge_by combine l1 l2 = Ok l →
  asc l ∧ ∀ k, merged combine (find_by k l1) (find_by k l2) (find_by k l).
Proof using combine_key.
  revert l. merge_induction l1 l2;
    intros l H1 H2.
  { rewrite merge_by_nil_l. intros [= <-]. split; [done|]. intros k. cbn. by destruct (find_by k l2). }
  { rewrite merge_by_nil_r. intros [= <-]. split; [done|]. intros k. cbn. by destruct (find_by k l1). }
  rewrite merge_by_cons. pose proof H1 as [H1' Ha]%asc_cons. pose proof H2 as [H2' Hb]%asc_cons.
  destruct (bytes_compare (key a) (key b)) eqn:Hc; intros Hm; exec_inv; subst l.
  - pose proof (proj1 (bytes_compare_eq _ _) Hc) as Hk.
    destruct (IHeq eq_refl _ H1' H2' Hr0) as [Hasc Hf].
    assert (Forall (λ x, bytes_compare (key a) (key x) = Lt) a1) as Hlt
      by (eapply (merge_by_lt _ l1 l2); [done|by rewrite Hk|done]).
    destruct a0 as [c|]; cbn.
    + pose proof (combine_key _ _ _ Hk Hr) as Hkc. split.
      * apply asc_cons. split; [done|]. by rewrite Hkc.
      * intros k. rewrite Hkc, <- Hk. case_decide; cbn; [done|apply Hf].
    + split; [done|]. intros k. rewrite <- Hk. case_decide; cbn; [|apply Hf].
      subst k. rewrite Hr. f_equal. symmetry. by apply find_by_lt.
  - assert (Forall (λ x, bytes_compare (key a) (key x) = Lt) (b :: l2)) as Hab.
    { constructor; [done|]. eapply Forall_impl; [exact Hb|]. intros x. by apply bytes_compare_trans. }
    destruct (IHlt eq_refl _ H1' H2 Hr) as [Hasc Hf]. split.
    + apply asc_cons. split; [done|]. by eapply (merge_by_lt _ l1 (b :: l2)).
    + intros k. cbn [find_by]. case_decide as Hk; [|apply Hf]. subst k.
      change (merged combine (Some a) (find_by (key a) (b :: l2)) (Some a)).
      by rewrite find_by_lt.
  - apply bytes_compare_gt_lt in Hc.
    assert (Forall (λ x, bytes_compare (key b) (key x) = Lt) (a :: l1)) as Hba.
    { constructor; [done|]. eapply Forall_impl; [exact Ha|]. intros x. by apply bytes_compare_trans. }
    destruct (IHgt eq_refl _ H1 H2' Hr) as [Hasc Hf]. split.
    + apply asc_cons. split; [done|]. by eapply (merge_by_lt _ (a :: l1) l2).
    + intros k. cbn [find_by]. destruct (decide (key b = k)) as [Hk|Hk].
      * subst k. change (merged combine (find_by (key b) (a :: l1)) (Some b) (Some b)).
        by rewrite find_by_lt.
      * apply Hf.
Qed.
End MergeBy.
End SortedAssoc.
