(* ===== verification/SortedPairs.v ===== *)
(** * Sorted pairs

    [SortedPairs] of [amaru-kernel/src/data_structures/sorted_pairs.rs]: a vector of
    pairs kept ascending by key, searched by bisection.  On an ascending vector
    bisection finds the one pair of a key, or the place where it belongs; the scans
    below stop at that place.  The theorems say that, from a vector of distinct keys
    on, the structure behaves as the finite map of its pairs. *)

From S2P Require Import Prelude SortedAssoc.

(** [Ord]: a total order, by its comparison. *)
Class TotalOrder (K : Type) := {
  cmp : K → K → comparison;
  cmp_eq : ∀ a b, cmp a b = Eq ↔ a = b;
  cmp_antisym : ∀ a b, cmp b a = CompOpp (cmp a b);
  cmp_trans : ∀ a b c, cmp a b = Lt → cmp b c = Lt → cmp a c = Lt }.

#[export] Instance bytes_order : TotalOrder (list Z) := {|
  cmp := bytes_compare;
  cmp_eq := bytes_compare_eq;
  cmp_antisym := bytes_compare_antisym;
  cmp_trans := bytes_compare_trans |}.

Module SortedPairs.
Section Ops.
Context {K : Type} `{TotalOrder K} {V : Type}.

Fixpoint get (k : K) (self : list (K * V)) : option V :=
  match self with
  | [] => None
  | (k', v) :: l => match cmp k k' with Eq => Some v | Lt => None | Gt => get k l end
  end.
Definition contains_key (k : K) (self : list (K * V)) : bool := bool_decide (is_Some (get k self)).

(** A write through [get_mut]. *)
Fixpoint modify (f : V → V) (k : K) (self : list (K * V)) : list (K * V) :=
  match self with
  | [] => []
  | (k', v) :: l => match cmp k k' with Eq => (k', f v) :: l | Lt => self | Gt => (k', v) :: modify f k l end
  end.

Fixpoint insert (k : K) (v : V) (self : list (K * V)) : list (K * V) :=
  match self with
  | [] => [(k, v)]
  | (k', v') :: l =>
      match cmp k k' with Eq => (k', v) :: l | Lt => (k, v) :: self | Gt => (k', v') :: insert k v l end
  end.

Definition push {E : Type} (k : K) (v : V) (self : list (K * V)) : exec E (list (K * V)) :=
  match last self with
  | Some (last, _) => match cmp k last with Gt => Ok (self ++ [(k, v)]) | _ => Panic end
  | None => Ok [(k, v)]
  end.

(** [sort_unstable_by] on the keys. *)
Fixpoint sort_in (p : K * V) (l : list (K * V)) : list (K * V) :=
  match l with
  | [] => [p]
  | q :: l => match cmp p.1 q.1 with Gt => q :: sort_in p l | _ => p :: q :: l end
  end.
Definition from_vec (vec : list (K * V)) : list (K * V) := foldr sort_in [] vec.

(** ** The invariant *)

Definition ascending : list (K * V) → Prop := StronglySorted (λ p q, cmp p.1 q.1 = Lt).

Lemma cmp_refl (k : K) : cmp k k = Eq.
Proof. by apply cmp_eq. Qed.
Lemma cmp_gt_lt (a b : K) : cmp a b = Gt ↔ cmp b a = Lt.
Proof. rewrite (cmp_antisym a b). by destruct (cmp a b). Qed.
Lemma cmp_lt_ne (a b : K) : cmp a b = Lt → a ≠ b.
Proof. intros Hlt ->. by rewrite cmp_refl in Hlt. Qed.

Lemma below_all_trans (k : K) (q : K * V) l : cmp k q.1 = Lt → Forall (λ p : K * V, cmp q.1 p.1 = Lt) l →
  Forall (λ p : K * V, cmp k p.1 = Lt) l.
Proof. intros Hk Hl. eapply Forall_impl; [exact Hl|]. intros p Hp. by eapply cmp_trans. Qed.

Lemma ascending_NoDup l : ascending l → NoDup (map fst l).
Proof.
  induction 1 as [|p l Hl IH Hp]; cbn; constructor; [|done]. intros ([k v] & Hk & Hin)%list_elem_of_fmap.
  rewrite Forall_forall in Hp. apply Hp in Hin. cbn in *. rewrite Hk in Hin. by rewrite cmp_refl in Hin.
Qed.

Lemma insert_keys k v l : ∀ (P : K → Prop), P k → Forall (λ p, P p.1) l → Forall (λ p, P p.1) (insert k v l).
Proof.
  intros P Hk. induction 1 as [|[k' v'] l Hp Hl IH]; cbn [insert]; [by repeat constructor|].
  destruct (cmp k k'); by repeat constructor.
Qed.
Lemma modify_keys f k l : map fst (modify f k l) = map fst l.
Proof. induction l as [|[k' v] l IH]; cbn; [done|]. destruct (cmp k k'); cbn; by rewrite ?IH. Qed.

Lemma ascending_insert k v l : ascending l → ascending (insert k v l).
Proof.
  induction 1 as [|[k' v'] l Hl IH Hp]; cbn [insert]; [by repeat constructor|].
  destruct (cmp k k') eqn:Hc.
  - by constructor.
  - constructor; [by constructor|]. constructor; [done|]. by apply (below_all_trans k (k', v')).
  - constructor; [done|]. apply (insert_keys k v l (λ x, cmp k' x = Lt)); [by apply cmp_gt_lt|done].
Qed.

Lemma ascending_keys l1 l2 : map fst l1 = map fst l2 → ascending l1 → ascending l2.
Proof.
  revert l2. induction l1 as [|[k v] l1 IH]; intros [|[k' v'] l2]; try done. cbn. intros [= -> Hk] Hs.
  apply StronglySorted_inv in Hs as [Hs Hp]. constructor; [by apply IH|]. cbn in *.
  rewrite <- (Forall_map fst (λ x, cmp k' x = Lt)) in Hp. change (λ p : K * V, cmp k' p.1 = Lt) with (λ p : K * V, (λ x, cmp k' x = Lt) (fst p)).
  rewrite <- (Forall_map fst (λ x, cmp k' x = Lt)). by rewrite <- Hk.
Qed.
Lemma ascending_modify f k l : ascending l → ascending (modify f k l).
Proof. apply ascending_keys. by rewrite modify_keys. Qed.

Lemma sort_in_perm p l : sort_in p l ≡ₚ p :: l.
Proof. induction l as [|q l IH]; cbn; [done|]. destruct (cmp p.1 q.1); [done..|]. rewrite IH. apply Permutation_swap. Qed.
Lemma from_vec_perm vec : from_vec vec ≡ₚ vec.
Proof. induction vec as [|p vec IH]; cbn; [done|]. by rewrite sort_in_perm, IH. Qed.

Lemma ascending_sort_in p l : ascending l → p.1 ∉ map fst l → ascending (sort_in p l).
Proof.
  induction 1 as [|q l Hl IH Hq]; cbn [sort_in map]; [by repeat constructor|]. intros [Hne Hin]%not_elem_of_cons.
  destruct (cmp p.1 q.1) eqn:Hc.
  - by apply cmp_eq in Hc.
  - constructor; [by constructor|]. constructor; [done|]. by apply (below_all_trans p.1 q).
  - constructor; [by apply IH|]. rewrite sort_in_perm. constructor; [by apply cmp_gt_lt|done].
Qed.
Lemma ascending_from_vec vec : NoDup (map fst vec) → ascending (from_vec vec).
Proof.
  induction vec as [|p vec IH]; cbn; [constructor|]. intros [Hp Hnd]%NoDup_cons.
  apply ascending_sort_in; [by apply IH|]. by rewrite from_vec_perm.
Qed.

(** ** The map of the pairs *)
Context `{!EqDecision K, !Countable K}.
Implicit Types (l : list (K * V)).

Definition to_map l : gmap K V := list_to_map l.

Lemma to_map_cons k v l : to_map ((k, v) :: l) = <[k := v]> (to_map l).
Proof. done. Qed.
Lemma to_map_below k l : Forall (λ p : K * V, cmp k p.1 = Lt) l → to_map l !! k = None.
Proof.
  intros Hl. apply not_elem_of_list_to_map. intros ([k' v] & Hk & Hin)%list_elem_of_fmap.
  rewrite Forall_forall in Hl. apply Hl in Hin. cbn in *. subst k'. by rewrite cmp_refl in Hin.
Qed.

Lemma get_to_map k l : ascending l → get k l = to_map l !! k.
Proof.
  induction 1 as [|[k' v] l Hl IH Hp]; cbn [get]; [done|]. rewrite to_map_cons.
  destruct (cmp k k') eqn:Hc.
  - apply cmp_eq in Hc as ->. by rewrite lookup_insert_eq.
  - pose proof (cmp_lt_ne _ _ Hc). rewrite lookup_insert_ne by done. symmetry. apply to_map_below.
    by apply (below_all_trans k (k', v)).
  - pose proof (cmp_lt_ne _ _ (proj1 (cmp_gt_lt _ _) Hc)). by rewrite lookup_insert_ne.
Qed.

Lemma to_map_insert k v l : ascending l → to_map (insert k v l) = <[k := v]> (to_map l).
Proof.
  induction 1 as [|[k' v'] l Hl IH Hp]; cbn [insert]; [done|]. destruct (cmp k k') eqn:Hc; rewrite !to_map_cons.
  - apply cmp_eq in Hc as ->. by rewrite insert_insert_eq.
  - done.
  - rewrite IH.
    apply insert_insert_ne. by apply cmp_lt_ne, cmp_gt_lt.
Qed.

Lemma to_map_modify f k l : ascending l → to_map (modify f k l) = alter f k (to_map l).
Proof.
  induction 1 as [|[k' v] l Hl IH Hp]; cbn [modify]; [cbn; by rewrite alter_empty|].
  destruct (cmp k k') eqn:Hc; rewrite !to_map_cons.
  - apply cmp_eq in Hc as ->. by rewrite alter_insert_eq.
  - pose proof (cmp_lt_ne _ _ Hc). rewrite alter_insert_ne by done. f_equal. symmetry. apply alter_id.
    intros x Hx. rewrite (to_map_below k l) in Hx; [done|]. by apply (below_all_trans k (k', v)).
  - rewrite IH,  alter_insert_ne by (intros <-; by rewrite cmp_refl in Hc). done.
Qed.

Lemma to_map_perm l : ascending l → map_to_list (to_map l) ≡ₚ l.
Proof. intros Hl. apply map_to_list_to_map. by apply ascending_NoDup. Qed.

Lemma to_map_from_vec vec : NoDup (map fst vec) → to_map (from_vec vec) = list_to_map vec.
Proof. intros Hnd. apply list_to_map_proper; [by rewrite from_vec_perm|apply from_vec_perm]. Qed.
End Ops.
End SortedPairs.
