(* ===== verification/LedgerValue.v ===== *)
(** * Multi-asset values of the Plutus [Value] builtins

    Models [amaru-uplc/src/ledger_value.rs].  A value is a slice of currencies,
    each with a slice of tokens, both strictly ascending by name and free of
    zero quantities; the operations below keep that canonical form.  Their
    meaning is given by [amount], the quantity of a token of a currency. *)

From S2P Require Import Prelude SortedAssoc UplcSyntax.

(** ** Errors *)
Inductive UnValueDataError :=
| NonMapConstructor | NonByteStringConstructor | NonIntegerConstructor | InvalidKey
| EmptyInnerMap | CurrencyNotAscending | TokenNotAscending | InvalidQuantity.

Inductive ValueError :=
| InsertCoinInvalidCurrency | InsertCoinInvalidToken | UnionValueQuantityOutOfBounds
| ValueContainsFirstNegative | ValueContainsSecondNegative | ScaleValueQuantityOutOfBounds
| ValueDataMaxSizeExceeded (max : Z) | UnValueData (e : UnValueDataError) | QuantityOutOfBounds.

(** ** Operations *)

(** [Integer::bits]: length of the magnitude in bits. *)
Definition integer_bits (i : Z) : Z := if i =? 0 then 0 else Z.log2 (Z.abs i) + 1.

Definition check_quantity_range (int : Z) : exec ValueError () :=
  let bits := integer_bits int in
  if bits <=? 127 then Ok ()
  else if 128 <? bits then Err QuantityOutOfBounds
  else if negb (int <? 0) then Err QuantityOutOfBounds
  else
    let magnitude := Z.abs int in
    let two_pow_127 := Z.shiftl 1 127 in
    if magnitude =? two_pow_127 then Ok () else Err QuantityOutOfBounds.

(** Number of tokens, and number of negative quantities. *)
Definition count_stats (es : list CurrencyEntry) : Z * Z :=
  foldl (λ acc e,
    foldl (λ '(total_size, neg) t,
        (total_size + 1, if quantity t <? 0 then neg + 1 else neg))
      acc (tokens e))
    (0, 0) es.

Definition with_stats (es : list CurrencyEntry) : LedgerValue :=
  mkLedgerValue es (count_stats es).1 (count_stats es).2.

Definition LedgerValue_empty : LedgerValue := mkLedgerValue [] 0 0.

Definition lookup_coin (v : LedgerValue) (ccy tok : list Z) : Z :=
  match lookup_by currency ccy (entries v) with
  | Some entry =>
      match lookup_by token_name tok (tokens entry) with
      | Some token => quantity token
      | None => 0
      end
  | None => 0
  end.

(** The entry written for a token of quantity [qty]: none when it is zero. *)
Definition nonzero_token (tok : list Z) (qty : Z) : option TokenEntry :=
  if qty =? 0 then None else Some (mkTokenEntry tok qty).

Definition insert_coin (ccy tok : list Z) (qty : Z) (v : LedgerValue) : LedgerValue :=
  let insert_token :=
    insert_by token_name tok (nonzero_token tok qty) (λ _, nonzero_token tok qty) false in
  let es :=
    insert_by currency ccy
      (if qty =? 0 then None else Some (mkCurrencyEntry ccy [mkTokenEntry tok qty]))
      (λ entry,
        let ts := insert_token (tokens entry) in
        match ts with [] => None | _ => Some (mkCurrencyEntry (currency entry) ts) end)
      false (entries v) in
  with_stats es.

Definition merge_tokens : list TokenEntry → list TokenEntry → exec ValueError (list TokenEntry) :=
  merge_by token_name (λ a b,
    let sum := quantity a + quantity b in
    _ ← map_err (λ _, UnionValueQuantityOutOfBounds) (check_quantity_range sum);
    mret (nonzero_token (token_name a) sum)).

Definition union_value (v1 v2 : LedgerValue) : exec ValueError LedgerValue :=
  es ← merge_by currency (λ a b,
         merged ← merge_tokens (tokens a) (tokens b);
         mret (match merged with [] => None | _ => Some (mkCurrencyEntry (currency a) merged) end))
       (entries v1) (entries v2);
  mret (with_stats es).

(** The flattened iteration over [(currency, token, quantity)]. *)
Definition flat_tokens (es : list CurrencyEntry) : list (list Z * list Z * Z) :=
  es ≫= λ e, (λ t, (currency e, token_name t, quantity t)) <$> tokens e.

(** [(c1, n1).cmp(&(c2, n2))]. *)
Definition asset_compare (x y : list Z * list Z * Z) : comparison :=
  match bytes_compare x.1.1 y.1.1 with Eq => bytes_compare x.1.2 y.1.2 | c => c end.

(** The sorted lockstep check of [value_contains]. *)
Fixpoint lockstep (l1 l2 : list (list Z * list Z * Z)) : bool :=
  match l2 with
  | [] => true
  | x2 :: l2' =>
      match l1 with
      | [] => false
      | x1 :: l1' =>
          match asset_compare x1 x2 with
          | Lt => lockstep l1' l2
          | Eq => if x1.2 <? x2.2 then false else lockstep l1' l2'
          | Gt => false
          end
      end
  end.

Definition value_contains (v1 v2 : LedgerValue) : exec ValueError bool :=
  if 0 <? negative_count v1 then Err ValueContainsFirstNegative
  else if 0 <? negative_count v2 then Err ValueContainsSecondNegative
  else if value_size v1 <? value_size v2 then Ok false
  else Ok (lockstep (flat_tokens (entries v1)) (flat_tokens (entries v2))).

Fixpoint scale_tokens (scalar : Z) (ts : list TokenEntry) : exec ValueError (list TokenEntry) :=
  match ts with
  | [] => Ok []
  | t :: ts =>
      let result := quantity t * scalar in
      _ ← map_err (λ _, ScaleValueQuantityOutOfBounds) (check_quantity_range result);
      rest ← scale_tokens scalar ts;
      mret (option_list (nonzero_token (token_name t) result) ++ rest)
  end.

Fixpoint scale_entries (scalar : Z) (es : list CurrencyEntry) : exec ValueError (list CurrencyEntry) :=
  match es with
  | [] => Ok []
  | e :: es =>
      ts ← scale_tokens scalar (tokens e);
      rest ← scale_entries scalar es;
      mret (match ts with [] => rest | _ => mkCurrencyEntry (currency e) ts :: rest end)
  end.

Definition scale_value (scalar : Z) (v : LedgerValue) : exec ValueError LedgerValue :=
  if scalar =? 0 then Ok LedgerValue_empty
  else es ← scale_entries scalar (entries v); mret (with_stats es).

Definition VALUE_DATA_MAX_SIZE : Z := 40000.

Definition value_data (v : LedgerValue) : exec ValueError PlutusData :=
  if VALUE_DATA_MAX_SIZE <? value_size v then Err (ValueDataMaxSizeExceeded VALUE_DATA_MAX_SIZE)
  else Ok (DMap ((λ e,
    (DByteString (currency e),
     DMap ((λ t, (DByteString (token_name t), DInteger (quantity t))) <$> tokens e)))
    <$> entries v)).

(** [prev.cmp(key) != Less]. *)
Definition not_ascending (prev : option (list Z)) (k : list Z) : bool :=
  match prev with
  | Some p => match bytes_compare p k with Lt => false | _ => true end
  | None => false
  end.

Fixpoint un_tokens (prev : option (list Z)) (m : list (PlutusData * PlutusData)) : exec ValueError (list TokenEntry) :=
  match m with
  | [] => Ok []
  | (inner_key, inner_value) :: m =>
      tok ← match inner_key with
            | DByteString bs => Ok bs
            | _ => Err (UnValueData NonByteStringConstructor)
            end;
      if 32 <? Z.of_nat (length tok) then Err (UnValueData InvalidKey)
      else if not_ascending prev tok then Err (UnValueData TokenNotAscending)
      else
        qty ← match inner_value with
              | DInteger i => Ok i
              | _ => Err (UnValueData NonIntegerConstructor)
              end;
        if qty =? 0 then Err (UnValueData InvalidQuantity)
        else
          _ ← map_err (λ _, UnValueData InvalidQuantity) (check_quantity_range qty);
          rest ← un_tokens (Some tok) m;
          mret (mkTokenEntry tok qty :: rest)
  end.

Fixpoint un_entries (prev : option (list Z)) (m : list (PlutusData * PlutusData)) : exec ValueError (list CurrencyEntry) :=
  match m with
  | [] => Ok []
  | (k, value) :: m =>
      ccy ← match k with
            | DByteString bs => Ok bs
            | _ => Err (UnValueData NonByteStringConstructor)
            end;
      if 32 <? Z.of_nat (length ccy) then Err (UnValueData InvalidKey)
      else if not_ascending prev ccy then Err (UnValueData CurrencyNotAscending)
      else
        inner_map ← match value with
                    | DMap m => Ok m
                    | _ => Err (UnValueData NonMapConstructor)
                    end;
        match inner_map with
        | [] => Err (UnValueData EmptyInnerMap)
        | _ =>
            ts ← un_tokens None inner_map;
            rest ← un_entries (Some ccy) m;
            mret (mkCurrencyEntry ccy ts :: rest)
        end
  end.

Definition un_value_data (d : PlutusData) : exec ValueError LedgerValue :=
  match d with
  | DMap outer_map => es ← un_entries None outer_map; mret (with_stats es)
  | _ => Err (UnValueData NonMapConstructor)
  end.

(** ** Meaning and canonical form *)

Definition tok_amount (ts : list TokenEntry) (tok : list Z) : Z :=
  match find_by token_name tok ts with Some t => quantity t | None => 0 end.

(** The quantity of token [tok] of currency [ccy] in a value. *)
Definition amount (v : LedgerValue) (ccy tok : list Z) : Z :=
  match find_by currency ccy (entries v) with Some e => tok_amount (tokens e) tok | None => 0 end.

(** The signed 128-bit range. *)
Definition in_range (q : Z) : Prop := - 2 ^ 127 <= q <= 2 ^ 127 - 1.

Definition token_ok (t : TokenEntry) : Prop := quantity t ≠ 0 ∧ in_range (quantity t).
Definition entry_ok (e : CurrencyEntry) : Prop :=
  asc token_name (tokens e) ∧ tokens e ≠ [] ∧ Forall token_ok (tokens e).
Record value_wf (v : LedgerValue) : Prop := {
  wf_asc : asc currency (entries v);
  wf_entries : Forall entry_ok (entries v);
  wf_stats : v = with_stats (entries v) }.

Lemma check_quantity_range_Ok q u : check_quantity_range q = Ok u ↔ in_range q.
Proof.
  unfold check_quantity_range, integer_bits, in_range. rewrite Z.shiftl_1_l. destruct u.
  destruct (Z.eqb_spec q 0) as [->|Hq]; [cbn; split; [lia|done]|].
  pose proof (Z.log2_spec (Z.abs q) ltac:(lia)) as [Hlo Hhi].
  set (n := Z.log2 (Z.abs q)) in *.
  assert (0 <= n) by apply Z.log2_nonneg.
  destruct (Z.leb_spec (n + 1) 127) as [Hle|Hgt].
  { split; [intros _|done]. assert (2 ^ Z.succ n <= 2 ^ 127) by (apply Z.pow_le_mono_r; lia). lia. }
  assert (2 ^ 127 <= 2 ^ n) by (apply Z.pow_le_mono_r; lia).
  destruct (Z.ltb_spec 128 (n + 1)).
  { assert (2 ^ 128 <= 2 ^ n) by (apply Z.pow_le_mono_r; lia). split; [done|lia]. }
  destruct (Z.ltb_spec q 0); cbn [negb]; [|split; [done|lia]].
  case_bool; split; done || lia.
Qed.

Lemma check_quantity_range_Err q e : check_quantity_range q = Err e → ¬ in_range q.
Proof. intros H Hr. apply (check_quantity_range_Ok q ()) in Hr. congruence. Qed.

Lemma check_quantity_range_terminates q : terminates (check_quantity_range q) = true.
Proof. unfold check_quantity_range. by repeat case_match. Qed.

Lemma nonzero_token_Some tok q t : nonzero_token tok q = Some t ↔ q ≠ 0 ∧ t = mkTokenEntry tok q.
Proof. unfold nonzero_token. case_bool; naive_solver. Qed.

(** ** Lookup *)

Lemma lookup_coin_amount v c t : value_wf v → lookup_coin v c t = amount v c t.
Proof.
  intros [Hasc Hes _]. unfold lookup_coin, amount, tok_amount.
  rewrite lookup_by_find by done.
  destruct (find_by currency c (entries v)) as [e|] eqn:He; [|done].
  apply find_by_Some in He as [Hin _]. rewrite Forall_forall in Hes.
  destruct (Hes _ Hin) as [Htok _]. by rewrite lookup_by_find.
Qed.

(** ** Canonicity *)

Lemma tok_amount_find ts tok : Forall token_ok ts →
  find_by token_name tok ts = nonzero_token tok (tok_amount ts tok).
Proof.
  intros Hok. unfold tok_amount.
  destruct (find_by token_name tok ts) as [t|] eqn:Ht; [|done].
  apply find_by_Some in Ht as [Hin Hk]. rewrite Forall_forall in Hok.
  destruct (Hok _ Hin) as [Hnz _]. symmetry. apply nonzero_token_Some.
  split; [done|]. subst. by destruct t.
Qed.

Lemma tokens_ext ts1 ts2 :
  asc token_name ts1 → asc token_name ts2 → Forall token_ok ts1 → Forall token_ok ts2 →
  (∀ t, tok_amount ts1 t = tok_amount ts2 t) → ts1 = ts2.
Proof.
  intros ? ? ? ? Heq. apply (asc_ext token_name); [done..|].
  intros k. by rewrite !tok_amount_find, Heq.
Qed.

(** A currency entry of a canonical value has some non-zero token. *)
Lemma entry_ok_nonzero e : entry_ok e → ∃ t, tok_amount (tokens e) t ≠ 0.
Proof.
  intros (Hasc & Hne & Hok). destruct (tokens e) as [|x l] eqn:He; [done|].
  exists (token_name x). unfold tok_amount. cbn. rewrite decide_True by done.
  inversion_clear Hok. by destruct H.
Qed.

Lemma value_ext v1 v2 :
  value_wf v1 → value_wf v2 → (∀ c t, amount v1 c t = amount v2 c t) → v1 = v2.
Proof.
  intros [Ha1 He1 Hs1] [Ha2 He2 Hs2] Heq. rewrite Hs1, Hs2. f_equal.
  apply (asc_ext currency); [done..|]. intros c. specialize (Heq c). unfold amount in Heq.
  destruct (find_by currency c (entries v1)) as [e1|] eqn:H1,
           (find_by currency c (entries v2)) as [e2|] eqn:H2; [..|done].
  - apply find_by_Some in H1 as [Hin1 Hk1]. apply find_by_Some in H2 as [Hin2 Hk2].
    rewrite Forall_forall in He1, He2.
    destruct (He1 _ Hin1) as (? & ? & ?), (He2 _ Hin2) as (? & ? & ?).
    f_equal. destruct e1 as [c1 ts1], e2 as [c2 ts2]; cbn in *. subst. f_equal.
    by apply tokens_ext.
  - apply find_by_Some in H1 as [Hin1 _]. rewrite Forall_forall in He1.
    destruct (entry_ok_nonzero _ (He1 _ Hin1)) as [t Ht]. by specialize (Heq t).
  - apply find_by_Some in H2 as [Hin2 _]. rewrite Forall_forall in He2.
    destruct (entry_ok_nonzero _ (He2 _ Hin2)) as [t Ht]. by specialize (Heq t).
Qed.

(** ** Insertion *)

Section Insert.
Variables (ccy tok : list Z) (qty : Z).
Hypothesis Hqty : in_range qty.

Let insert_token :=
  insert_by token_name tok (nonzero_token tok qty) (λ _, nonzero_token tok qty) false.

Lemma insert_token_amount ts t : asc token_name ts →
  tok_amount (insert_token ts) t = if decide (t = tok) then qty else tok_amount ts t.
Proof using.
  intros Hasc. unfold tok_amount, insert_token. rewrite find_by_insert; [| | |done].
  - unfold nonzero_token. case_decide; [|done].
    destruct (find_by token_name tok ts); case_bool; done.
  - intros a Ha. apply nonzero_token_Some in Ha as [_ ->]. done.
  - intros a b _ Hb. apply nonzero_token_Some in Hb as [_ ->]. done.
Qed.

Lemma insert_token_asc ts : asc token_name ts → asc token_name (insert_token ts).
Proof using.
  apply insert_by_asc.
  - intros a Ha. by apply nonzero_token_Some in Ha as [_ ->].
  - intros a b _ Hb. by apply nonzero_token_Some in Hb as [_ ->].
Qed.

Lemma insert_token_ok ts : Forall token_ok ts → Forall token_ok (insert_token ts).
Proof using Hqty.
  apply insert_by_Forall.
  - intros a Ha. by apply nonzero_token_Some in Ha as [? ->].
  - intros a b _ _ Hb. by apply nonzero_token_Some in Hb as [? ->].
Qed.
End Insert.

(** A currency entry for possibly no tokens: what [insert_coin], [union_value]
    and [scale_value] push, or drop when there are none. *)
Definition nonempty_entry (c : list Z) (ts : list TokenEntry) : option CurrencyEntry :=
  match ts with [] => None | _ => Some (mkCurrencyEntry c ts) end.

Lemma nonempty_entry_Some c ts e :
  nonempty_entry c ts = Some e ↔ ts ≠ [] ∧ e = mkCurrencyEntry c ts.
Proof. destruct ts; cbn; naive_solver. Qed.

Lemma nonempty_entry_amount c ts t :
  match nonempty_entry c ts with Some e => tok_amount (tokens e) t | None => 0 end = tok_amount ts t.
Proof. by destruct ts. Qed.

Lemma with_stats_wf es : asc currency es → Forall entry_ok es → value_wf (with_stats es).
Proof. by split. Qed.

Lemma insert_coin_correct (ccy tok : list Z) (qty : Z) (v : LedgerValue) :
  value_wf v → in_range qty →
  value_wf (insert_coin ccy tok qty v) ∧
  ∀ c t, lookup_coin (insert_coin ccy tok qty v) c t
         = if decide (c = ccy ∧ t = tok) then qty else lookup_coin v c t.
Proof.
  intros Hv Hq. destruct (Hv) as [Hasc Hes _].
  set (fresh := if qty =? 0 then None else Some (mkCurrencyEntry ccy [mkTokenEntry tok qty])).
  set (upd := λ entry, nonempty_entry (currency entry) (insert_by token_name tok
    (nonzero_token tok qty) (λ _, nonzero_token tok qty) false (tokens entry))).
  assert (insert_coin ccy tok qty v
    = with_stats (insert_by currency ccy fresh upd false (entries v))) as -> by done.
  assert (Hf : ∀ a, fresh = Some a → currency a = ccy ∧ entry_ok a).
  { unfold fresh. case_bool; intros ? [= <-]. split; [done|].
    repeat constructor; cbn; try done. apply Hq. apply Hq. }
  assert (Hu : ∀ a b, upd a = Some b → currency b = currency a ∧ (entry_ok a → entry_ok b)).
  { intros a b [? ->]%nonempty_entry_Some. split; [done|]. intros (? & ? & ?).
    split; [by apply insert_token_asc|]. split; [done|]. by apply insert_token_ok. }
  assert (value_wf (with_stats (insert_by currency ccy fresh upd false (entries v)))) as Hwf.
  { apply with_stats_wf.
    - apply insert_by_asc; [..|done].
      + intros a Ha. by apply Hf.
      + intros a b Ha Hb. apply Hu in Hb as [-> _]. done.
    - apply insert_by_Forall; [..|done].
      + intros a Ha. by apply Hf.
      + intros a b Hin _ Hb. apply Hu in Hb as [_ Hb]. rewrite Forall_forall in Hes. auto. }
  split; [done|]. intros c t. rewrite !lookup_coin_amount by done.
  unfold amount. cbn [entries with_stats]. rewrite find_by_insert; [| | |done].
  - destruct (decide (c = ccy)) as [->|Hc]; [|by rewrite decide_False by naive_solver].
    destruct (find_by currency ccy (entries v)) as [e|] eqn:He.
    + unfold upd. rewrite nonempty_entry_amount. apply find_by_Some in He as [Hin _].
      rewrite Forall_forall in Hes. rewrite insert_token_amount by apply (Hes _ Hin).
      repeat case_decide; naive_solver.
    + unfold fresh. destruct (Z.eqb_spec qty 0) as [->|]; [by case_decide|].
      unfold tok_amount. cbn. repeat case_decide; naive_solver.
  - intros a Ha. by apply Hf.
  - intros a b Ha Hb. apply Hu in Hb as [-> _]. done.
Qed.

(** [insert_coin] keeps values canonical and sets the quantity of exactly
    one token: looking it up afterwards gives the inserted quantity, and every
    other token has the quantity it had. *)
Theorem insert_coin_spec (ccy tok : list Z) (qty : Z) (v : LedgerValue) :
  value_wf v → in_range qty →
  value_wf (insert_coin ccy tok qty v) ∧
  ∀ c t, lookup_coin (insert_coin ccy tok qty v) c t
         = if decide (c = ccy ∧ t = tok) then qty else lookup_coin v c t.
Proof. apply insert_coin_correct. Qed.

(** A value with two tokens, used by the witnesses. *)
Definition sample_value : LedgerValue :=
  with_stats [mkCurrencyEntry [1] [mkTokenEntry [7] 5; mkTokenEntry [9] 3]].

Lemma sample_value_wf : value_wf sample_value.
Proof. repeat constructor; cbn; unfold in_range; lia || done. Qed.

Lemma insert_coin_spec_witness :
  lookup_coin (insert_coin [1] [8] 4 sample_value) [1] [8] = 4 ∧
  lookup_coin (insert_coin [1] [8] 4 sample_value) [1] [7] = 5.
Proof.
  pose proof (insert_coin_spec [1] [8] 4 sample_value sample_value_wf
    ltac:(unfold in_range; lia)) as [_ H].
  split; rewrite H; reflexivity.
Defined.

(** ** Union *)

Lemma merge_tokens_spec ts1 ts2 ts :
  asc token_name ts1 → asc token_name ts2 → Forall token_ok ts1 → Forall token_ok ts2 →
  merge_tokens ts1 ts2 = Ok ts →
  asc token_name ts ∧ Forall token_ok ts ∧
  ∀ t, tok_amount ts t = tok_amount ts1 t + tok_amount ts2 t.
Proof.
  intros Ha1 Ha2 Ho1 Ho2 Hm. pose proof Hm as Hm'. unfold merge_tokens in Hm.
  apply merge_by_spec in Hm as [Hasc Hf]; [..|done|done].
  - split; [done|]. split.
    + eapply merge_by_Forall; [|exact Ho1|exact Ho2|exact Hm'].
      intros a b c _ _ _ Hc. cbn beta zeta in Hc. exec_inv. apply check_quantity_range_Ok in Hr.
      apply nonzero_token_Some in Hc as [? ->]. done.
    + intros t. specialize (Hf t). unfold merged, tok_amount in *.
      destruct (find_by token_name t ts1), (find_by token_name t ts2); cbn beta zeta in Hf;
        rewrite ?Hf; try lia.
      exec_inv. rewrite <- Hf. unfold nonzero_token. case_bool; cbn; lia.
  - intros a b c _ Hc. cbn beta zeta in Hc. exec_inv. by apply nonzero_token_Some in Hc as [_ ->].
Qed.

Lemma merge_tokens_Err ts1 ts2 e :
  asc token_name ts1 → asc token_name ts2 → merge_tokens ts1 ts2 = Err e →
  e = UnionValueQuantityOutOfBounds ∧ ∃ t, ¬ in_range (tok_amount ts1 t + tok_amount ts2 t).
Proof.
  intros Ha1 Ha2 Hm. apply merge_by_Err in Hm as (a & b & Hina & Hinb & Hk & Hc).
  apply bind_Err in Hc as [Hc|(? & _ & ?)]; [|done].
  destruct (check_quantity_range _) eqn:Hr; cbn in Hc; try done. simplify_eq.
  split; [done|]. exists (token_name a). unfold tok_amount.
  rewrite (find_by_elem _ a ts1 Ha1 Hina). rewrite Hk, (find_by_elem _ b ts2 Ha2 Hinb).
  by eapply check_quantity_range_Err.
Qed.

Lemma merge_tokens_terminates ts1 ts2 : terminates (merge_tokens ts1 ts2) = true.
Proof.
  apply merge_by_terminates. intros a b. apply terminates_bind; [|done].
  pose proof (check_quantity_range_terminates (quantity a + quantity b)).
  by destruct (check_quantity_range _).
Qed.

Lemma union_value_spec_Ok v1 v2 v :
  value_wf v1 → value_wf v2 → union_value v1 v2 = Ok v →
  value_wf v ∧ ∀ c t, amount v c t = amount v1 c t + amount v2 c t.
Proof.
  intros [Ha1 He1 _] [Ha2 He2 _] Hu. unfold union_value in Hu. exec_inv. subst v.
  rewrite Forall_forall in He1, He2.
  pose proof Hr as Hr'. apply merge_by_spec in Hr' as [Hasc Hf]; [..|done|done].
  - split.
    + apply with_stats_wf; [done|]. eapply merge_by_Forall; [| | |exact Hr]; [|by apply Forall_forall..].
      intros x y c Hx Hy _ Hc. cbn beta zeta in Hc. exec_inv. apply nonempty_entry_Some in Hc as [Hne ->].
      destruct (He1 _ Hx) as (? & ? & ?), (He2 _ Hy) as (? & ? & ?).
      apply merge_tokens_spec in Hr0 as (? & ? & _); [|done..]. done.
    + intros c t. specialize (Hf c). unfold merged, amount in *. cbn [entries with_stats].
      destruct (find_by currency c (entries v1)) as [x|] eqn:Hx,
               (find_by currency c (entries v2)) as [y|] eqn:Hy; rewrite ?Hf; try lia.
      apply find_by_Some in Hx as [Hx _]. apply find_by_Some in Hy as [Hy _].
      destruct (He1 _ Hx) as (? & ? & ?), (He2 _ Hy) as (? & ? & ?).
      cbn beta zeta in Hf. exec_inv. apply merge_tokens_spec in Hr0 as (? & ? & Hamt); [|done..].
      rewrite <- Hf, <- Hamt. apply (nonempty_entry_amount (currency x)).
  - intros x y c _ Hc. cbn beta zeta in Hc. exec_inv. by apply nonempty_entry_Some in Hc as [_ ->].
Qed.

Lemma union_value_spec_Err v1 v2 e :
  value_wf v1 → value_wf v2 → union_value v1 v2 = Err e →
  e = UnionValueQuantityOutOfBounds ∧ ∃ c t, ¬ in_range (amount v1 c t + amount v2 c t).
Proof.
  intros [Ha1 He1 _] [Ha2 He2 _] Hu. rewrite Forall_forall in He1, He2.
  apply bind_Err in Hu as [Hu|(? & _ & ?)]; [|done].
  apply merge_by_Err in Hu as (x & y & Hx & Hy & Hk & Hc).
  apply bind_Err in Hc as [Hc|(? & _ & ?)]; [|done].
  destruct (He1 _ Hx) as (? & ? & ?), (He2 _ Hy) as (? & ? & ?).
  apply merge_tokens_Err in Hc as [-> [t Ht]]; [|done..].
  split; [done|]. exists (currency x), t. unfold amount.
  rewrite (find_by_elem _ x (entries v1) Ha1 Hx).
  by rewrite Hk, (find_by_elem _ y (entries v2) Ha2 Hy).
Qed.

Lemma union_value_terminates v1 v2 : terminates (union_value v1 v2) = true.
Proof.
  apply terminates_bind; [|done]. apply merge_by_terminates. intros a b.
  apply terminates_bind; [apply merge_tokens_terminates|done].
Qed.

(** Every amount of a canonical value is in range. *)
Lemma amount_in_range v c t : value_wf v → in_range (amount v c t).
Proof.
  intros [_ He _]. unfold amount, tok_amount. rewrite Forall_forall in He.
  destruct (find_by currency c (entries v)) as [e|] eqn:Hx; [|unfold in_range; lia].
  destruct (find_by token_name t (tokens e)) as [x|] eqn:Hy; [|unfold in_range; lia].
  apply find_by_Some in Hx as [Hx _]. apply find_by_Some in Hy as [Hy _].
  destruct (He _ Hx) as (_ & _ & Hok). rewrite Forall_forall in Hok. apply (Hok _ Hy).
Qed.

(** C31: [union_value] of two canonical values is their pointwise sum, again in
    canonical form, exactly when every sum fits in 128 bits, and is the
    documented error otherwise; it never panics. *)
Theorem union_value_spec (v1 v2 : LedgerValue) :
  value_wf v1 → value_wf v2 →
  ((∃ v, union_value v1 v2 = Ok v ∧ value_wf v ∧
         ∀ c t, amount v c t = amount v1 c t + amount v2 c t) ∨
   union_value v1 v2 = Err UnionValueQuantityOutOfBounds) ∧
  (is_ok (union_value v1 v2) = true ↔ ∀ c t, in_range (amount v1 c t + amount v2 c t)).
Proof.
  intros H1 H2. pose proof (union_value_terminates v1 v2) as Ht.
  destruct (union_value v1 v2) as [v|e| |] eqn:Hu; try discriminate.
  - destruct (union_value_spec_Ok _ _ _ H1 H2 Hu) as [Hwf Hamt]. split; [left; eauto|].
    split; [|done]. intros _ c t. rewrite <- Hamt. by apply amount_in_range.
  - destruct (union_value_spec_Err _ _ _ H1 H2 Hu) as [-> (c & t & Hr)].
    split; [by right|]. split; [done|]. intros Hall. by destruct Hr.
Qed.

Lemma union_value_spec_witness :
  is_ok (union_value sample_value sample_value) = true ↔
  ∀ c t, in_range (amount sample_value c t + amount sample_value c t).
Proof. exact (proj2 (union_value_spec _ _ sample_value_wf sample_value_wf)). Defined.

(** Values are canonical: two well-formed values with the same amounts are
    the same value, so that [union_value] is commutative and associative
    whenever the results exist. *)
Theorem union_value_comm_assoc (v1 v2 v3 a b l r : LedgerValue) :
  value_wf v1 → value_wf v2 → value_wf v3 →
  (∀ x y, union_value v1 v2 = Ok x → union_value v2 v1 = Ok y → x = y) ∧
  (union_value v1 v2 = Ok a → union_value a v3 = Ok l →
   union_value v2 v3 = Ok b → union_value v1 b = Ok r → l = r).
Proof.
  intros H1 H2 H3. split.
  - intros x y [? Hx]%union_value_spec_Ok [? Hy]%union_value_spec_Ok; [|done..].
    apply value_ext; [done..|]. intros c t. rewrite Hx, Hy. lia.
  - intros [? Ha]%union_value_spec_Ok [? Hl]%union_value_spec_Ok
      [? Hb]%union_value_spec_Ok [? Hr]%union_value_spec_Ok; [|done..].
    apply value_ext; [done..|]. intros c t. rewrite Hl, Hr, Ha, Hb. lia.
Qed.

Lemma union_value_comm_assoc_witness :
  let w := with_stats [mkCurrencyEntry [1] [mkTokenEntry [7] (-5)]] in
  ∃ x y, union_value sample_value w = Ok x ∧ union_value w sample_value = Ok y ∧ x = y.
Proof.
  intros w. assert (value_wf w) as H by (repeat constructor; cbn; unfold in_range; lia || done).
  eexists _, _. split; [vm_compute; reflexivity|]. split; [vm_compute; reflexivity|].
  apply (proj1 (union_value_comm_assoc sample_value w sample_value
    sample_value sample_value sample_value sample_value sample_value_wf H sample_value_wf));
    vm_compute; reflexivity.
Defined.

(** ** Containment *)

Lemma asset_compare_eq x y : asset_compare x y = Eq ↔ x.1 = y.1.
Proof.
  destruct x as [[c1 n1] q1], y as [[c2 n2] q2]. unfold asset_compare; cbn.
  destruct (bytes_compare c1 c2) eqn:Hc.
  - apply bytes_compare_eq in Hc as ->. rewrite bytes_compare_eq. naive_solver.
  - apply bytes_compare_lt_neq in Hc. naive_solver.
  - apply bytes_compare_gt_lt, bytes_compare_lt_neq in Hc. naive_solver.
Qed.

Lemma asset_compare_antisym x y : asset_compare y x = CompOpp (asset_compare x y).
Proof.
  unfold asset_compare. rewrite (bytes_compare_antisym x.1.1).
  destruct (bytes_compare x.1.1 y.1.1); cbn; auto using bytes_compare_antisym.
Qed.

Lemma asset_compare_trans x y z :
  asset_compare x y = Lt → asset_compare y z = Lt → asset_compare x z = Lt.
Proof.
  unfold asset_compare.
  destruct (bytes_compare x.1.1 y.1.1) eqn:H1, (bytes_compare y.1.1 z.1.1) eqn:H2; try done; intros Hx Hy.
  - apply bytes_compare_eq in H1 as ->. rewrite H2. by eapply bytes_compare_trans.
  - apply bytes_compare_eq in H1 as ->. by rewrite H2.
  - apply bytes_compare_eq in H2 as <-. by rewrite H1.
  - by rewrite (bytes_compare_trans _ _ _ H1 H2).
Qed.

(** Strictly ascending assets. *)
Definition asset_asc := StronglySorted (λ x y, asset_compare x y = Lt).

Lemma asset_asc_cons x l : asset_asc (x :: l) ↔ asset_asc l ∧ Forall (λ y, asset_compare x y = Lt) l.
Proof. split; [intros H; by inversion H | intros [? ?]; by constructor]. Qed.

Lemma asset_asc_app l1 l2 : asset_asc l1 → asset_asc l2 →
  (∀ x y, x ∈ l1 → y ∈ l2 → asset_compare x y = Lt) → asset_asc (l1 ++ l2).
Proof.
  induction l1 as [|x l1 IH]; cbn; [done|].
  intros [H1 Hx]%asset_asc_cons H2 Hc. apply asset_asc_cons. split.
  - apply IH; [done..|]. intros. apply Hc; [by right|done].
  - apply Forall_app. split; [done|]. apply Forall_forall. intros y Hy. apply Hc; [by left|done].
Qed.

Lemma flat_tokens_cons e es :
  flat_tokens (e :: es) = ((λ t, (currency e, token_name t, quantity t)) <$> tokens e) ++ flat_tokens es.
Proof. done. Qed.

Lemma elem_of_flat_tokens es c n q :
  (c, n, q) ∈ flat_tokens es ↔ ∃ e t, e ∈ es ∧ t ∈ tokens e ∧ c = currency e ∧ n = token_name t ∧ q = quantity t.
Proof.
  unfold flat_tokens. rewrite list_elem_of_bind. split.
  - intros (e & He & Hin). apply list_elem_of_fmap in He as (t & [= -> -> ->] & Ht). eauto 10.
  - intros (e & t & He & Ht & -> & -> & ->). exists e. split; [|done].
    apply list_elem_of_fmap. eauto.
Qed.

Lemma flat_tokens_asc es : asc currency es → Forall entry_ok es → asset_asc (flat_tokens es).
Proof.
  induction es as [|e es IH]; [constructor|].
  intros [Hasc He]%asc_cons Hok. inversion_clear Hok as [|? ? (Htok & _ & _) Hes].
  rewrite flat_tokens_cons. apply asset_asc_app; [|auto|].
  - induction (tokens e) as [|t ts IHt]; [constructor|].
    apply asc_cons in Htok as [Hts Ht]. cbn. apply asset_asc_cons. split; [auto|].
    apply Forall_fmap. eapply Forall_impl; [exact Ht|]. intros t' Ht'.
    unfold asset_compare; cbn. by rewrite bytes_compare_refl.
  - intros [[c1 n1] q1] [[c2 n2] q2] H1 H2. apply list_elem_of_fmap in H1 as (t & [= -> -> ->] & _).
    apply elem_of_flat_tokens in H2 as (e' & t' & He' & _ & -> & _ & _).
    unfold asset_compare; cbn. rewrite Forall_forall in He. by rewrite (He _ He').
Qed.

(** The flattened list of a canonical value is its non-zero amounts. *)
Lemma elem_of_flat_amount v c n q : value_wf v →
  (c, n, q) ∈ flat_tokens (entries v) ↔ amount v c n = q ∧ q ≠ 0.
Proof.
  intros [Hasc Hes _]. rewrite elem_of_flat_tokens. rewrite Forall_forall in Hes. split.
  - intros (e & t & He & Ht & -> & -> & ->). destruct (Hes _ He) as (Ha & _ & Hok).
    unfold amount, tok_amount. rewrite (find_by_elem _ e _ Hasc He), (find_by_elem _ t _ Ha Ht).
    rewrite Forall_forall in Hok. split; [done|]. apply (Hok _ Ht).
  - unfold amount, tok_amount. intros [Hamt Hnz].
    destruct (find_by currency c (entries v)) as [e|] eqn:He; [|lia].
    destruct (find_by token_name n (tokens e)) as [t|] eqn:Ht; [|lia].
    apply find_by_Some in He as [? ?]. apply find_by_Some in Ht as [? ?]. naive_solver.
Qed.

Lemma lockstep_spec l1 l2 : asset_asc l1 → asset_asc l2 →
  lockstep l1 l2 = true ↔ ∀ x, x ∈ l2 → ∃ y, y ∈ l1 ∧ y.1 = x.1 ∧ x.2 <= y.2.
Proof.
  revert l2. induction l1 as [|y l1 IH]; intros [|x l2] H1 H2; cbn [lockstep].
  - split; [intros _ z Hz%elem_of_nil|]; done.
  - split; [done|]. intros H. destruct (H x) as (y & Hy%elem_of_nil & _); [left|done].
  - split; [intros _ z Hz%elem_of_nil|]; done.
  - pose proof H1 as [H1' Hy]%asset_asc_cons. pose proof H2 as [H2' Hx]%asset_asc_cons.
    rewrite Forall_forall in Hy, Hx.
    destruct (asset_compare y x) eqn:Hc.
    + apply asset_compare_eq in Hc. case_bool.
      * split; [done|]. intros H'. destruct (H' x) as (z & Hz & Hk & Hle); [left|].
        apply elem_of_cons in Hz as [->|Hz]; [lia|].
        specialize (Hy _ Hz). assert (asset_compare y z = Eq) by (apply asset_compare_eq; congruence).
        congruence.
      * rewrite (IH _ H1' H2'). split.
        -- intros H' z [->|Hz]%elem_of_cons; [exists y; split; [left|done]|].
           destruct (H' z Hz) as (w & Hw & ?). exists w. split; [by right|done].
        -- intros H' z Hz. destruct (H' z) as (w & Hw & Hk & Hle); [by right|].
           apply elem_of_cons in Hw as [->|Hw]; [|eauto].
           specialize (Hx _ Hz). assert (asset_compare x z = Eq) by (apply asset_compare_eq; congruence).
           congruence.
    + rewrite (IH _ H1' H2). split.
      * intros H' z Hz. destruct (H' z Hz) as (w & Hw & ?). exists w. split; [by right|done].
      * intros H' z Hz. destruct (H' z Hz) as (w & Hw & Hk & Hle).
        apply elem_of_cons in Hw as [->|Hw]; [|eauto]. exfalso.
        assert (asset_compare y z = Eq) as He by (apply asset_compare_eq; done).
        apply elem_of_cons in Hz as [->|Hz]; [congruence|].
        rewrite (asset_compare_trans _ _ _ Hc (Hx _ Hz)) in He. done.
    + split; [done|]. intros H'. destruct (H' x) as (w & Hw & Hk & _); [left|].
      assert (asset_compare w x = Eq) as He by (apply asset_compare_eq; done).
      apply elem_of_cons in Hw as [->|Hw]; [congruence|].
      assert (asset_compare x y = Lt) as Hxy by (rewrite asset_compare_antisym, Hc; done).
      pose proof (asset_compare_trans _ _ _ Hxy (Hy _ Hw)) as Hlt.
      rewrite asset_compare_antisym, He in Hlt. done.
Qed.

(** The counters of a value count its flattened tokens. *)
Lemma count_stats_flat es :
  count_stats es = (Z.of_nat (length (flat_tokens es)),
                    Z.of_nat (length (filter (λ x, x.2 < 0) (flat_tokens es)))).
Proof.
  unfold count_stats.
  assert (∀ ts (c : list Z) a b, foldl (λ '(total_size, neg) t,
      (total_size + 1, if quantity t <? 0 then neg + 1 else neg)) (a, b) ts
    = (a + Z.of_nat (length ts),
       b + Z.of_nat (length (filter (λ x, x.2 < 0)
             ((λ t, (c, token_name t, quantity t)) <$> ts))))) as Hin.
  { induction ts as [|t ts IH]; intros c a b; [cbn; f_equal; lia|].
    cbn [foldl]. rewrite (IH c), fmap_cons, filter_cons. cbn [snd].
    destruct (Z.ltb_spec (quantity t) 0); [rewrite decide_True by done|rewrite decide_False by (cbn; lia)];
      cbn [length]; f_equal; lia. }
  assert (∀ es a b, foldl (λ acc e, foldl (λ '(total_size, neg) t,
      (total_size + 1, if quantity t <? 0 then neg + 1 else neg)) acc (tokens e)) (a, b) es
    = (a + Z.of_nat (length (flat_tokens es)),
       b + Z.of_nat (length (filter (λ x, x.2 < 0) (flat_tokens es))))) as Hout.
  { induction es0 as [|e es0 IH]; intros a b; [cbn; f_equal; lia|].
    cbn [foldl]. rewrite (Hin _ (currency e)), IH, flat_tokens_cons, filter_app, !length_app, length_fmap.
    f_equal; lia. }
  rewrite Hout. f_equal; lia.
Qed.

Lemma negative_count_spec v : value_wf v →
  0 < negative_count v ↔ ∃ c t, amount v c t < 0.
Proof.
  intros Hwf. destruct (Hwf) as [_ _ Hs]. rewrite Hs at 1. cbn. rewrite count_stats_flat. cbn. split.
  - intros Hpos. destruct (filter _ _) as [|[[c t] q] l] eqn:Hf; [cbn in Hpos; lia|].
    assert ((c, t, q) ∈ filter (λ x : list Z * list Z * Z, x.2 < 0) (flat_tokens (entries v))) as Hin
      by (rewrite Hf; left).
    apply list_elem_of_filter in Hin as [Hq Hin]. cbn in Hq.
    apply elem_of_flat_amount in Hin as [<- _]; [|done]. eauto.
  - intros (c & t & Hlt).
    assert ((c, t, amount v c t) ∈ filter (λ x : list Z * list Z * Z, x.2 < 0) (flat_tokens (entries v))) as Hin.
    { apply list_elem_of_filter. split; [done|]. apply elem_of_flat_amount; [done|]. lia. }
    destruct (filter _ _); [by apply elem_of_nil in Hin|cbn; lia].
Qed.

Lemma asset_asc_NoDup l : asset_asc l → NoDup l.*1.
Proof.
  induction l as [|x l IH]; cbn; [constructor|]. intros [Hl Hx]%asset_asc_cons.
  constructor; [|auto]. intros (y & Hk & Hy)%list_elem_of_fmap.
  rewrite Forall_forall in Hx. specialize (Hx _ Hy).
  assert (asset_compare x y = Eq) by by apply asset_compare_eq. congruence.
Qed.

(** [value_contains] on canonical values: a negative amount in the first
    value, else in the second, is the documented error; otherwise the answer is
    whether the second value is below the first one, token by token.  The size
    shortcut and the sorted lockstep walk never change the answer. *)
Theorem value_contains_spec (v1 v2 : LedgerValue) :
  value_wf v1 → value_wf v2 →
  ((∃ c t, amount v1 c t < 0) → value_contains v1 v2 = Err ValueContainsFirstNegative) ∧
  ((∀ c t, 0 <= amount v1 c t) → (∃ c t, amount v2 c t < 0) →
     value_contains v1 v2 = Err ValueContainsSecondNegative) ∧
  ((∀ c t, 0 <= amount v1 c t) → (∀ c t, 0 <= amount v2 c t) →
     ∃ b, value_contains v1 v2 = Ok b ∧
          (b = true ↔ ∀ c t, amount v2 c t <= amount v1 c t)).
Proof.
  intros H1 H2. unfold value_contains.
  assert (∀ v, value_wf v → (∀ c t, 0 <= amount v c t) → (0 <? negative_count v) = false) as Hnn.
  { intros v Hv Hall. destruct (Z.ltb_spec 0 (negative_count v)) as [Hlt|]; [|done].
    apply negative_count_spec in Hlt as (c & t & Hlt); [|done]. specialize (Hall c t). lia. }
  split; [|split].
  - intros Hneg%negative_count_spec; [|done]. case_bool; [done|lia].
  - intros Hpos Hneg%negative_count_spec; [|done]. rewrite (Hnn _ H1 Hpos). case_bool; [done|lia].
  - intros Hp1 Hp2. rewrite (Hnn _ H1 Hp1), (Hnn _ H2 Hp2).
    destruct (H1) as [Ha1 He1 Hs1], (H2) as [Ha2 He2 Hs2].
    pose proof (flat_tokens_asc _ Ha1 He1) as Hf1. pose proof (flat_tokens_asc _ Ha2 He2) as Hf2.
    assert ((∀ x, x ∈ flat_tokens (entries v2) →
              ∃ y, y ∈ flat_tokens (entries v1) ∧ y.1 = x.1 ∧ x.2 <= y.2) ↔
            ∀ c t, amount v2 c t <= amount v1 c t) as Hiff.
    { split.
      - intros H c t. destruct (decide (amount v2 c t = 0)) as [->|Hnz]; [apply Hp1|].
        destruct (H (c, t, amount v2 c t)) as ([[c' t'] q] & Hin & [= -> ->] & Hle).
        + by apply elem_of_flat_amount.
        + apply elem_of_flat_amount in Hin as [<- _]; done.
      - intros H [[c t] q] [<- Hnz]%elem_of_flat_amount; [|done].
        exists (c, t, amount v1 c t). split; [|split; [done|apply H]].
        apply elem_of_flat_amount; [done|]. split; [done|]. specialize (H c t). specialize (Hp2 c t). lia. }
    destruct (Z.ltb_spec (value_size v1) (value_size v2)) as [Hlt|Hge].
    + exists false. split; [done|]. split; [done|]. intros Hall. exfalso.
      rewrite Hs1, Hs2 in Hlt. cbn in Hlt. rewrite !count_stats_flat in Hlt. cbn in Hlt.
      assert (length (flat_tokens (entries v2)).*1 <= length (flat_tokens (entries v1)).*1)%nat as Hle.
      { apply submseteq_length, NoDup_submseteq; [by apply asset_asc_NoDup|].
        intros k (x & -> & Hx)%list_elem_of_fmap.
        destruct (proj2 Hiff Hall x Hx) as (y & Hy & Hk & _).
        apply list_elem_of_fmap. eauto. }
      rewrite !length_fmap in Hle. lia.
    + eexists. split; [done|]. by rewrite lockstep_spec.
Qed.

Lemma value_contains_spec_witness : value_contains sample_value sample_value = Ok true.
Proof.
  pose proof (value_contains_spec _ _ sample_value_wf sample_value_wf) as (_ & _ & H).
  assert (∀ c t, 0 <= amount sample_value c t) as Hnn.
  { intros c t. unfold amount, tok_amount. cbn. repeat case_decide; cbn; repeat case_decide; cbn; lia. }
  destruct (H Hnn Hnn) as (b & Hb & Hiff). rewrite Hb. f_equal. apply Hiff. done.
Defined.

(** ** Conversion to and from data *)

(** Names of at most 32 bytes, the ones [un_value_data] accepts. *)
Definition short_key {A} (key : A → list Z) (a : A) : Prop := Z.of_nat (length (key a)) <= 32.

(** Every name is after the one read before. *)
Definition after {A} (key : A → list Z) (prev : option (list Z)) (l : list A) : Prop :=
  match prev with Some p => Forall (λ a, bytes_compare p (key a) = Lt) l | None => True end.

Definition tokens_data (ts : list TokenEntry) : list (PlutusData * PlutusData) :=
  (λ t, (DByteString (token_name t), DInteger (quantity t))) <$> ts.

Definition entries_data (es : list CurrencyEntry) : list (PlutusData * PlutusData) :=
  (λ e, (DByteString (currency e), DMap (tokens_data (tokens e)))) <$> es.

Lemma after_cons {A} (key : A → list Z) prev a l : asc key (a :: l) →
  not_ascending prev (key a) = false ↔ after key prev (a :: l).
Proof.
  intros [_ Ha]%asc_cons. destruct prev as [p|]; cbn; [|done].
  rewrite Forall_cons. destruct (bytes_compare p (key a)) eqn:Hc; split; try naive_solver.
  intros _. split; [done|]. eapply Forall_impl; [exact Ha|]. intros b. by apply bytes_compare_trans.
Qed.

Lemma after_Some_asc {A} (key : A → list Z) a l : asc key (a :: l) ↔ asc key l ∧ after key (Some (key a)) l.
Proof. apply asc_cons. Qed.

Lemma un_tokens_Ok prev m ts :
  un_tokens prev m = Ok ts ↔
  m = tokens_data ts ∧ asc token_name ts ∧ Forall token_ok ts ∧ Forall (short_key token_name) ts ∧
  after token_name prev ts.
Proof.
  split.
  - revert prev ts. induction m as [|[k x] m IH]; intros prev ts H; cbn [un_tokens] in H.
    { simplify_eq. split; [done|]. repeat split; try constructor. destruct prev; constructor. }
    destruct k as [| | |b|]; try done. cbn [mbind exec_bind] in H. case_bool_in H; [done|].
    destruct (not_ascending prev _) eqn:Hasc; [done|].
    destruct x as [| |z| |]; try done. cbn [mbind exec_bind] in H. case_bool_in H; [done|].
    exec_inv. apply check_quantity_range_Ok in Hr.
    apply IH in Hr0 as (-> & Ha & Hok & Hs & Haft). subst ts.
    assert (asc token_name (mkTokenEntry b z :: a0)) by (by apply after_Some_asc).
    split; [done|]. split; [done|]. split; [by constructor; [split|]|].
    split; [by constructor|]. by apply after_cons.
  - intros (-> & Ha & Hok & Hs & Haft). revert prev Ha Hok Hs Haft.
    induction ts as [|[tok q] ts IH]; intros prev Ha Hok Hs Haft; [done|].
    apply after_cons in Haft; [|done]. cbn in Haft.
    apply after_Some_asc in Ha as [Ha Haft'].
    inversion_clear Hok as [|? ? [Hnz Hr] Hok']. inversion_clear Hs as [|? ? Hsh Hs'].
    cbn in Hnz, Hr. unfold short_key in Hsh. cbn in Hsh.
    cbn [un_tokens tokens_data fmap list_fmap token_name quantity mbind exec_bind].
    rewrite (proj2 (Z.ltb_ge _ _) Hsh), Haft, (proj2 (Z.eqb_neq _ _) Hnz).
    rewrite (proj2 (check_quantity_range_Ok q ()) Hr). cbn [map_err mbind exec_bind].
    fold (tokens_data ts). by rewrite IH.
Qed.

Lemma un_entries_Ok prev m es :
  un_entries prev m = Ok es ↔
  m = entries_data es ∧ asc currency es ∧ Forall entry_ok es ∧
  Forall (λ e, short_key currency e ∧ Forall (short_key token_name) (tokens e)) es ∧
  after currency prev es.
Proof.
  split.
  - revert prev es. induction m as [|[k x] m IH]; intros prev es H; cbn [un_entries] in H.
    { simplify_eq. split; [done|]. repeat split; try constructor. destruct prev; constructor. }
    destruct k as [| | |b|]; try done. cbn [mbind exec_bind] in H. case_bool_in H; [done|].
    destruct (not_ascending prev _) eqn:Hasc; [done|].
    destruct x as [|inner| | |]; try done. cbn [mbind exec_bind] in H.
    destruct (decide (inner = [])) as [->|Hne]; [done|].
    assert ((ts ← un_tokens None inner; rest ← un_entries (Some b) m;
             mret (mkCurrencyEntry b ts :: rest)) = Ok es) as H' by (by destruct inner).
    clear H. exec_inv. apply un_tokens_Ok in Hr as (-> & Hta & Htok & Hts & _).
    apply IH in Hr0 as (-> & Ha & Hok & Hs & Haft). subst es.
    assert (asc currency (mkCurrencyEntry b a :: a0)) by (by apply after_Some_asc).
    split; [done|]. split; [done|]. split; [|split; [by constructor|by apply after_cons]].
    constructor; [|done]. split; [done|]. split; [|done]. cbn. by intros ->.
  - intros (-> & Ha & Hok & Hs & Haft). revert prev Ha Hok Hs Haft.
    induction es as [|[c ts] es IH]; intros prev Ha Hok Hs Haft; [done|].
    apply after_cons in Haft; [|done]. cbn in Haft.
    apply after_Some_asc in Ha as [Ha Haft'].
    inversion_clear Hok as [|? ? (Hta & Hne & Htok) Hok']. inversion_clear Hs as [|? ? [Hsh Hts] Hs'].
    cbn [tokens] in *. unfold short_key in Hsh. cbn in Hsh.
    cbn [un_entries entries_data fmap list_fmap currency tokens mbind exec_bind].
    rewrite (proj2 (Z.ltb_ge _ _) Hsh), Haft.
    assert (un_tokens None (tokens_data ts) = Ok ts) as Ht by (by apply un_tokens_Ok).
    fold (entries_data es). rewrite Ht. destruct ts; [done|]. cbn [mbind exec_bind tokens_data fmap list_fmap].
    by rewrite IH.
Qed.

(** Values whose names are at most 32 bytes long. *)
Definition short_names (v : LedgerValue) : Prop :=
  Forall (λ e, short_key currency e ∧ Forall (short_key token_name) (tokens e)) (entries v).

Lemma un_value_data_wf d v : un_value_data d = Ok v → value_wf v.
Proof.
  destruct d as [|m| | |]; try done. cbn [un_value_data]. intros H. exec_inv. subst v.
  apply un_entries_Ok in Hr as (_ & Ha & He & _). by apply with_stats_wf.
Qed.

(** [un_value_data] accepts exactly the data [value_data] writes for
    canonical values with short names: converting such a value of at most
    [VALUE_DATA_MAX_SIZE] tokens and reading it back gives the value, and
    whatever data is read gives a canonical value that is written back as the
    same data. *)
Theorem value_data_roundtrip (v : LedgerValue) (d : PlutusData) :
  (value_wf v → short_names v → value_size v <= VALUE_DATA_MAX_SIZE →
     (d ← value_data v; un_value_data d) = Ok v) ∧
  (un_value_data d = Ok v →
     value_wf v ∧ short_names v ∧ (value_size v <= VALUE_DATA_MAX_SIZE → value_data v = Ok d)).
Proof.
  unfold value_data. split.
  - intros [Ha He Hs] Hn Hsize. rewrite (proj2 (Z.ltb_ge _ _) Hsize). cbn [mbind exec_bind].
    fold (entries_data (entries v)). cbn [un_value_data].
    rewrite (proj2 (un_entries_Ok None _ (entries v))) by done. cbn. by rewrite Hs at 2.
  - destruct d as [|m| | |]; try done. cbn [un_value_data]. intros H. exec_inv. subst v.
    apply un_entries_Ok in Hr as (-> & Ha & He & Hs & _).
    split; [by apply with_stats_wf|]. split; [done|]. intros Hsize.
    rewrite (proj2 (Z.ltb_ge _ _) Hsize). done.
Qed.

Lemma value_data_roundtrip_witness :
  (d ← value_data sample_value; un_value_data d) = Ok sample_value.
Proof.
  apply (proj1 (value_data_roundtrip sample_value (DInteger 0))).
  - apply sample_value_wf.
  - repeat constructor; cbn; unfold short_key; cbn; lia.
  - vm_compute; discriminate.
Defined.

(** ** Scaling *)

Definition scaled_tokens (s : Z) (ts : list TokenEntry) : list TokenEntry :=
  (λ t, mkTokenEntry (token_name t) (quantity t * s)) <$> ts.
Definition scaled_entries (s : Z) (es : list CurrencyEntry) : list CurrencyEntry :=
  (λ e, mkCurrencyEntry (currency e) (scaled_tokens s (tokens e))) <$> es.

(** A fallible traversal either maps the whole list or meets an element that is
    out of range. *)
Definition scales {A B} (bad : A → Prop) (l : list A) (r : B) (m : exec ValueError B) : Prop :=
  (m = Ok r ∧ Forall (λ a, ¬ bad a) l) ∨ (m = Err ScaleValueQuantityOutOfBounds ∧ Exists bad l).

Lemma scale_tokens_spec s ts : s ≠ 0 → Forall token_ok ts →
  scales (λ t, ¬ in_range (quantity t * s)) ts (scaled_tokens s ts) (scale_tokens s ts).
Proof.
  intros Hs. induction ts as [|t ts IH]; [by left|]. intros Hok.
  inversion_clear Hok as [|? ? [Hnz _] Hok']. cbn [scale_tokens]. cbn zeta.
  destruct (check_quantity_range (quantity t * s)) as [[]|e| |] eqn:Hr.
  2: { right. split; [done|]. left. by eapply check_quantity_range_Err. }
  2-3: pose proof (check_quantity_range_terminates (quantity t * s)) as Ht; by rewrite Hr in Ht.
  apply check_quantity_range_Ok in Hr. cbn [map_err mbind exec_bind].
  unfold nonzero_token. rewrite (proj2 (Z.eqb_neq _ _)) by nia.
  destruct (IH Hok') as [[-> Hall]|[-> Hex]]; [left|right]; (split; [done|]).
  - constructor; [naive_solver|done].
  - by right.
Qed.

Lemma scale_entries_spec s es : s ≠ 0 → Forall entry_ok es →
  scales (λ e, Exists (λ t, ¬ in_range (quantity t * s)) (tokens e)) es
    (scaled_entries s es) (scale_entries s es).
Proof.
  intros Hs. induction es as [|e es IH]; [by left|]. intros Hok.
  inversion_clear Hok as [|? ? (_ & Hne & Htok) Hok']. cbn [scale_entries].
  destruct (scale_tokens_spec s (tokens e) Hs Htok) as [[-> Hall]|[-> Hex]];
    [|right; split; [done|by left]].
  cbn [mbind exec_bind]. destruct (IH Hok') as [[-> Hes]|[-> Hes]]; [left|right]; cbn [mbind exec_bind].
  - split; [|constructor; [|done]].
    + destruct e as [c [|t ts]]; done.
    + intros Hex. apply Exists_exists in Hex as (t & Ht & Hb). rewrite Forall_forall in Hall. by apply (Hall t).
  - split; [done|]. by right.
Qed.

Lemma find_by_fmap {A B} (key : A → list Z) (key' : B → list Z) (f : A → B) k l :
  (∀ a, key' (f a) = key a) → find_by key' k (f <$> l) = f <$> find_by key k l.
Proof. intros Hf. induction l as [|a l IH]; cbn; [done|]. rewrite Hf. by case_decide. Qed.

Lemma asc_fmap {A B} (key : A → list Z) (key' : B → list Z) (f : A → B) l :
  (∀ a, key' (f a) = key a) → asc key l → asc key' (f <$> l).
Proof.
  intros Hf. induction l as [|a l IH]; cbn; [constructor|]. intros [Hl Ha]%asc_cons.
  apply asc_cons. split; [auto|]. apply Forall_fmap. eapply Forall_impl; [exact Ha|].
  intros b Hb. cbn. by rewrite !Hf.
Qed.

Lemma scaled_amount s v c t :
  amount (with_stats (scaled_entries s (entries v))) c t = amount v c t * s.
Proof.
  unfold amount, scaled_entries. cbn [entries with_stats]. rewrite (find_by_fmap currency) by done.
  destruct (find_by currency c (entries v)) as [e|]; [|done]. cbn.
  unfold tok_amount, scaled_tokens. rewrite (find_by_fmap token_name) by done.
  by destruct (find_by token_name t (tokens e)).
Qed.

Lemma scaled_wf s v : s ≠ 0 → value_wf v →
  Forall (λ e, ¬ Exists (λ t, ¬ in_range (quantity t * s)) (tokens e)) (entries v) →
  value_wf (with_stats (scaled_entries s (entries v))).
Proof.
  intros Hs [Ha He _] Hall. apply with_stats_wf; [by eapply (asc_fmap currency)|].
  apply Forall_fmap. rewrite Forall_forall in He, Hall |- *. intros e Hin. cbn.
  destruct (He e Hin) as (Hta & Hne & Htok). split; [by eapply (asc_fmap token_name)|].
  split; [by destruct (tokens e)|]. apply Forall_fmap. rewrite Forall_forall in Htok |- *.
  intros t Ht. destruct (Htok t Ht) as [Hnz Hr]. split; cbn; [nia|].
  destruct (decide (- 2 ^ 127 <= quantity t * s)), (decide (quantity t * s <= 2 ^ 127 - 1)); [done|..];
    exfalso; apply (Hall e Hin), Exists_exists; exists t; (split; [done|]); unfold in_range; lia.
Qed.

Lemma scale_value_correct (s : Z) (v : LedgerValue) :
  value_wf v →
  (∃ v', scale_value s v = Ok v' ∧ value_wf v' ∧ (∀ c t, amount v' c t = amount v c t * s)) ∨
  (scale_value s v = Err ScaleValueQuantityOutOfBounds ∧ ∃ c t, ¬ in_range (amount v c t * s)).
Proof.
  intros Hwf. unfold scale_value. destruct (Z.eqb_spec s 0) as [->|Hs].
  { left. eexists. split; [done|]. split; [repeat constructor|]. intros. by rewrite Z.mul_0_r. }
  destruct (Hwf) as [Ha He Hst].
  destruct (scale_entries_spec s (entries v) Hs He) as [[-> Hall]|[-> Hex]].
  - left. eexists. split; [done|]. split; [by apply scaled_wf|]. apply scaled_amount.
  - right. split; [done|]. apply Exists_exists in Hex as (e & Hin & Hex).
    apply Exists_exists in Hex as (t & Ht & Hb). exists (currency e), (token_name t).
    rewrite Forall_forall in He. destruct (He e Hin) as (Hta & _).
    unfold amount, tok_amount. by rewrite (find_by_elem _ e _ Ha Hin), (find_by_elem _ t _ Hta Ht).
Qed.

(** [scale_value] multiplies every quantity of a canonical value by the
    scalar and stays canonical when every product fits in 128 bits; otherwise it
    is the documented error.  It never panics. *)
Theorem scale_value_spec (s : Z) (v : LedgerValue) :
  value_wf v →
  (∃ v', scale_value s v = Ok v' ∧ value_wf v' ∧ (∀ c t, amount v' c t = amount v c t * s)) ∨
  (scale_value s v = Err ScaleValueQuantityOutOfBounds ∧ ∃ c t, ¬ in_range (amount v c t * s)).
Proof. apply scale_value_correct. Qed.

Lemma scale_value_spec_witness :
  scale_value (2 ^ 127) sample_value = Err ScaleValueQuantityOutOfBounds.
Proof.
  destruct (scale_value_spec (2 ^ 127) sample_value sample_value_wf) as [(v' & H & _)|[H _]];
    [vm_compute in H; discriminate|exact H].
Defined.
