(* ===== verification/FlatBits.v ===== *)
(** * Bits and bytes

    The most-significant-bit-first view of bytes shared by the proofs about the
    flat encoder and decoder.  Nothing here models code: it is the reference
    semantics (a sequence of bits) that both sides are related to. *)

From S2P Require Import Prelude.

(** A [u8]. *)
Definition is_byte (b : Z) : Prop := 0 <= b < 256.

(** Shifts of a [u8]: the bits shifted out are lost, and a shift by the width or
    more is an overflow. *)
Definition u8_shl {E} (a n : Z) : exec E Z :=
  if (0 <=? n) && (n <? 8) then Ok (Z.land (Z.shiftl a n) 255) else Panic.
Definition u8_shr {E} (a n : Z) : exec E Z :=
  if (0 <=? n) && (n <? 8) then Ok (Z.shiftr a n) else Panic.

(** The [n] low bits of [v], most significant first. *)
Fixpoint val_bits (n : nat) (v : Z) : list bool :=
  match n with
  | O => []
  | S n => Z.testbit v (Z.of_nat n) :: val_bits n v
  end.

Definition byte_bits (b : Z) : list bool := val_bits 8 b.
Definition bytes_bits (bs : list Z) : list bool := bs ≫= byte_bits.

Lemma length_val_bits n v : length (val_bits n v) = n.
Proof. induction n; cbn; congruence. Qed.

Lemma length_bytes_bits bs : length (bytes_bits bs) = (8 * length bs)%nat.
Proof. induction bs as [|b bs IH]; [done|]. unfold bytes_bits in *. cbn. rewrite IH. lia. Qed.

Lemma bytes_bits_app l1 l2 : bytes_bits (l1 ++ l2) = bytes_bits l1 ++ bytes_bits l2.
Proof. apply bind_app. Qed.

Lemma bytes_bits_cons b l : bytes_bits (b :: l) = byte_bits b ++ bytes_bits l.
Proof. done. Qed.

(** Bits at or above the width of a bounded number are clear. *)
Lemma testbit_high a n k : 0 <= a < 2 ^ n → 0 <= n <= k → Z.testbit a k = false.
Proof.
  intros [H1 H2] [Hn Hk]. destruct (decide (a = 0)) as [->|]; [apply Z.testbit_0_l|].
  apply Z.bits_above_log2; [done|]. eapply Z.lt_le_trans; [|exact Hk]. apply Z.log2_lt_pow2; lia.
Qed.

Lemma val_bits_testbit n v k : (k < n)%nat →
  val_bits n v !! k = Some (Z.testbit v (Z.of_nat (n - 1 - k))).
Proof.
  revert k. induction n as [|n IH]; intros k Hk; [lia|]. destruct k as [|k]; cbn.
  - do 2 f_equal. lia.
  - rewrite IH by lia. do 3 f_equal. lia.
Qed.

(** [n]-bit numbers are determined by their bits. *)
Lemma val_bits_inj n a b :
  0 <= a < 2 ^ Z.of_nat n → 0 <= b < 2 ^ Z.of_nat n → val_bits n a = val_bits n b → a = b.
Proof.
  intros Ha Hb Heq. apply Z.bits_inj'. intros k Hk.
  destruct (decide (k < Z.of_nat n)) as [Hlt|].
  - pose proof (val_bits_testbit n a (n - 1 - Z.to_nat k) ltac:(lia)) as H1.
    pose proof (val_bits_testbit n b (n - 1 - Z.to_nat k) ltac:(lia)) as H2.
    rewrite Heq, H2 in H1. injection H1 as H1.
    by replace (Z.of_nat (n - 1 - (n - 1 - Z.to_nat k))) with k in H1 by lia.
  - by rewrite !(testbit_high _ (Z.of_nat n)) by lia.
Qed.

(** The value of a sequence of bits: the inverse of [val_bits]. *)
Definition bits_val (bs : list bool) : Z := foldl (λ acc b, 2 * acc + Z.b2z b) 0 bs.

Lemma bits_val_snoc bs b : bits_val (bs ++ [b]) = 2 * bits_val bs + Z.b2z b.
Proof. unfold bits_val. by rewrite foldl_app. Qed.

Lemma bits_val_bound bs : 0 <= bits_val bs < 2 ^ Z.of_nat (length bs).
Proof.
  induction bs as [|b bs IH] using rev_ind; [cbn; lia|].
  rewrite bits_val_snoc, length_app, Nat2Z.inj_add, Z.pow_add_r by (cbn; lia).
  change (2 ^ Z.of_nat (length [b])) with 2. destruct b; cbn [Z.b2z]; lia.
Qed.

(** Halving drops the last bit. *)
Lemma val_bits_snoc n a b : val_bits (S n) (2 * a + Z.b2z b) = val_bits n a ++ [b].
Proof.
  induction n as [|n IH].
  - cbn [val_bits app]. change (Z.of_nat 0) with 0. by rewrite Z.testbit_0_r.
  - change (val_bits (S (S n)) (2 * a + Z.b2z b)) with
      (Z.testbit (2 * a + Z.b2z b) (Z.of_nat (S n)) :: val_bits (S n) (2 * a + Z.b2z b)).
    rewrite IH, Nat2Z.inj_succ, Z.testbit_succ_r by lia. done.
Qed.

Lemma val_bits_bits_val bs : val_bits (length bs) (bits_val bs) = bs.
Proof.
  induction bs as [|b bs IH] using rev_ind; [done|].
  rewrite length_app, Nat.add_1_r, bits_val_snoc, val_bits_snoc. by rewrite IH.
Qed.

(** ** Positions in a buffer *)

Lemma drop_bytes_bits buf k b :
  buf !! k = Some b → drop (8 * k) (bytes_bits buf) = byte_bits b ++ drop (8 * S k) (bytes_bits buf).
Proof.
  intros Hb. rewrite <- (take_drop_middle buf k b Hb).
  assert (length (take k buf) = k) as Hk by (rewrite length_take; apply lookup_lt_Some in Hb; lia).
  rewrite bytes_bits_app, bytes_bits_cons.
  assert (length (bytes_bits (take k buf)) = (8 * k)%nat) as Hl by (rewrite length_bytes_bits; lia).
  rewrite drop_app_length' by lia. f_equal.
  rewrite app_assoc, drop_app_length'; [done|]. rewrite length_app, Hl. cbn [length byte_bits val_bits]. lia.
Qed.

(** ** Arithmetic on bits *)

Lemma val_bits_split m n a :
  val_bits (m + n) a = val_bits m (a / 2 ^ Z.of_nat n) ++ val_bits n a.
Proof.
  induction m as [|m IH]; [done|]. cbn. rewrite IH, Z.div_pow2_bits by lia.
  do 2 f_equal. lia.
Qed.

Lemma val_bits_mod n a : val_bits n (a mod 2 ^ Z.of_nat n) = val_bits n a.
Proof.
  assert (∀ k, (k <= n)%nat → val_bits k (a mod 2 ^ Z.of_nat n) = val_bits k a) as H.
  { induction k as [|k IH]; [done|]. intros Hk. cbn.
    rewrite IH, Z.mod_pow2_bits_low by lia. done. }
  by apply H.
Qed.

Lemma val_bits_app m n a v : 0 <= v < 2 ^ Z.of_nat n →
  val_bits (m + n) (a * 2 ^ Z.of_nat n + v) = val_bits m a ++ val_bits n v.
Proof.
  intros Hv. rewrite val_bits_split. rewrite <- (val_bits_mod n (_ + v)).
  assert (0 < 2 ^ Z.of_nat n) by lia.
  rewrite Z.add_comm, Z.div_add, Z.mod_add, Z.div_small, Z.mod_small by lia. done.
Qed.

(** An [or] of numbers with disjoint bits is their sum. *)
Lemma lor_add a b k : 0 <= k → 0 <= b < 2 ^ k → Z.lor (a * 2 ^ k) b = a * 2 ^ k + b.
Proof.
  intros Hk Hb. rewrite Z.add_nocarry_lxor, Z.lxor_lor; [done|..];
    (apply Z.bits_inj'; intros i Hi; rewrite Z.land_spec, Z.bits_0;
     destruct (decide (i < k)) as [Hlt|];
     [by rewrite Z.mul_pow2_bits_low by lia|by rewrite (testbit_high b k), andb_false_r by lia]).
Qed.

Lemma land_ones_mod a n m : 0 <= n → m = Z.ones n → Z.land a m = a mod 2 ^ n.
Proof. intros Hn ->. by apply Z.land_ones. Qed.

Lemma land_255 a : Z.land a 255 = a mod 256.
Proof. by apply (land_ones_mod a 8). Qed.

Lemma land_127 a : Z.land a 127 = a mod 128.
Proof. by apply (land_ones_mod a 7). Qed.

Lemma land_128 b : is_byte b → Z.land b 128 = if 128 <=? b then 128 else 0.
Proof.
  intros [H1 H2]. assert (b = b / 128 * 2 ^ 7 + b mod 128) as Hb.
  { change (2 ^ 7) with 128. pose proof (Z.div_mod b 128). lia. }
  pose proof (Z.mod_pos_bound b 128 ltac:(lia)).
  assert (b / 128 = if 128 <=? b then 1 else 0) as Hd.
  { case_bool; [|by apply Z.div_small]. symmetry. apply Z.div_unique with (b - 128); lia. }
  rewrite Hb at 1. rewrite <- lor_add by (cbn; lia). rewrite Z.land_lor_distr_l.
  assert (Z.land (b mod 128) 128 = 0) as ->.
  { apply Z.bits_inj'. intros k Hk. rewrite Z.land_spec, Z.bits_0.
    destruct (decide (k < 7)); [|by rewrite (testbit_high (b mod 128) 7) by (cbn; lia)].
    change 128 with (2 ^ 7) at 2. rewrite Z.pow2_bits_false by lia. apply andb_false_r. }
  rewrite Hd, Z.lor_0_r. by case_bool.
Qed.

(** Shifting a byte left keeps its low bits only. *)
Lemma u8_shl_Ok {E} a n : 0 <= n < 8 →
  u8_shl (E:=E) a n = Ok (a mod 2 ^ (8 - n) * 2 ^ n).
Proof.
  intros Hn. unfold u8_shl. rewrite (proj2 (Z.leb_le _ _)), (proj2 (Z.ltb_lt _ _)) by lia. cbn [andb].
  f_equal. rewrite land_255, Z.shiftl_mul_pow2 by lia.
  replace 256 with (2 ^ (8 - n) * 2 ^ n) by (rewrite <- Z.pow_add_r by lia; by replace (8 - n + n) with 8 by lia).
  apply Z.mul_mod_distr_r; apply Z.pow_nonzero; lia.
Qed.

Lemma u8_shr_Ok {E} a n : 0 <= n < 8 → u8_shr (E:=E) a n = Ok (a / 2 ^ n).
Proof.
  intros Hn. unfold u8_shr. rewrite (proj2 (Z.leb_le _ _)), (proj2 (Z.ltb_lt _ _)) by lia. cbn [andb].
  by rewrite Z.shiftr_div_pow2 by lia.
Qed.

Lemma bits_val_val_bits n a : 0 <= a < 2 ^ Z.of_nat n → bits_val (val_bits n a) = a.
Proof.
  intros Ha. pose proof (bits_val_bound (val_bits n a)) as Hb. rewrite length_val_bits in Hb.
  apply (val_bits_inj n); [done..|].
  pose proof (val_bits_bits_val (val_bits n a)) as H. by rewrite length_val_bits in H.
Qed.

Lemma bits_val_unique n a bs : 0 <= a < 2 ^ Z.of_nat n → val_bits n a = bs → a = bits_val bs.
Proof. intros Ha <-. by rewrite bits_val_val_bits. Qed.
