(* ===== verification/FlatEncoder.v ===== *)
(** * The flat bit encoder

    Models [amaru-uplc/src/flat/encode/encoder.rs], [flat/encode/error.rs],
    [flat/tag.rs] and [flat/zigzag.rs]: the growing byte buffer with a partially
    filled current byte, and the writers of bits, words, integers and byte
    arrays.  Every writer returns the encoder after the call. *)

From S2P Require Import Prelude FlatBits UplcSyntax.

Inductive FlatEncodeError :=
| Overflow (byte num_bits : Z)
| BufferNotByteAligned
| BlsElementNotSupported
| EncodeCbor.

(** ** Tags *)
Definition TERM_TAG_WIDTH : Z := 4.
Definition CONST_TAG_WIDTH : Z := 4.
Definition BUILTIN_TAG_WIDTH : Z := 7.

Definition VAR : Z := 0.
Definition DELAY : Z := 1.
Definition LAMBDA : Z := 2.
Definition APPLY : Z := 3.
Definition CONSTANT : Z := 4.
Definition FORCE : Z := 5.
Definition ERROR : Z := 6.
Definition BUILTIN : Z := 7.
Definition CONSTR : Z := 8.
Definition CASE : Z := 9.

Definition INTEGER : Z := 0.
Definition BYTE_STRING : Z := 1.
Definition STRING : Z := 2.
Definition UNIT : Z := 3.
Definition BOOL : Z := 4.
Definition DATA : Z := 8.
Definition BLS12_381_G1_ELEMENT : Z := 9.
Definition BLS12_381_G2_ELEMENT : Z := 10.
Definition BLS12_381_ML_RESULT : Z := 11.
Definition VALUE : Z := 13.
Definition PROTO_LIST_ONE : Z := 7.
Definition PROTO_LIST_TWO : Z := 5.
Definition PROTO_ARRAY_ONE : Z := 7.
Definition PROTO_ARRAY_TWO : Z := 12.
Definition PROTO_PAIR_ONE : Z := 7.
Definition PROTO_PAIR_TWO : Z := 7.
Definition PROTO_PAIR_THREE : Z := 6.

(** ** Zig-zag *)
Definition zigzag (i : Z) : Z :=
  if 0 <=? i then Z.shiftl i 1
  else let double := Z.shiftl i 1 in - double - 1.

Definition unzigzag (i : Z) : Z :=
  let temp := Z.land i 1 in Z.lxor (Z.shiftr i 1) (- temp).

(** ** The encoder *)
Record Encoder := mkEncoder { buffer : list Z; used_bits : Z; current_byte : Z }.

Definition Encoder_default : Encoder := mkEncoder [] 0 0.

(** A writer. *)
Abbreviation EncM := (Encoder → exec FlatEncodeError Encoder).

Definition next_word (e : Encoder) : Encoder :=
  mkEncoder (buffer e ++ [current_byte e]) 0 0.

Definition zero (e : Encoder) : Encoder :=
  if used_bits e =? 7 then next_word e
  else mkEncoder (buffer e) (used_bits e + 1) (current_byte e).

Definition one (e : Encoder) : Encoder :=
  if used_bits e =? 7 then
    next_word (mkEncoder (buffer e) (used_bits e) (Z.lor (current_byte e) 1))
  else
    mkEncoder (buffer e) (used_bits e + 1) (Z.lor (current_byte e) (Z.shiftr 128 (used_bits e))).

Definition enc_bool (e : Encoder) (x : bool) : Encoder := if x then one e else zero e.

(** The general case of [bits]. *)
Definition bits_general (num_bits val : Z) (e : Encoder) : exec FlatEncodeError Encoder :=
  let used := used_bits e + num_bits in
  let unused_bits := 8 - used in
  if unused_bits =? 0 then
    Ok (next_word (mkEncoder (buffer e) used (Z.lor (current_byte e) val)))
  else if 0 <? unused_bits then
    v ← u8_shl val unused_bits;
    Ok (mkEncoder (buffer e) used (Z.lor (current_byte e) v))
  else
    let used := - unused_bits in
    hi ← u8_shr val used;
    lo ← u8_shl val (8 - used);
    let e' := next_word (mkEncoder (buffer e) used (Z.lor (current_byte e) hi)) in
    Ok (mkEncoder (buffer e') used lo).

Definition bits (num_bits val : Z) (e : Encoder) : exec FlatEncodeError Encoder :=
  if (num_bits =? 1) && (val =? 0) then Ok (zero e)
  else if (num_bits =? 1) && (val =? 1) then Ok (one e)
  else if (num_bits =? 2) && (val =? 0) then Ok (zero (zero e))
  else if (num_bits =? 2) && (val =? 1) then Ok (one (zero e))
  else if (num_bits =? 2) && (val =? 2) then Ok (zero (one e))
  else if (num_bits =? 2) && (val =? 3) then Ok (one (one e))
  else bits_general num_bits val e.

(** The loop of [word]; each turn drops seven bits of [d]. *)
Fixpoint word_loop (fuel : nat) (d : Z) (e : Encoder) : exec FlatEncodeError Encoder :=
  match fuel with
  | O => OutOfFuel
  | S fuel =>
      let w := Z.land d 127 in
      let d := Z.shiftr d 7 in
      let w := if d =? 0 then w else Z.lor w 128 in
      e ← bits 8 w e;
      if d =? 0 then Ok e else word_loop fuel d e
  end.

(** Turns of the loop that are always enough for [c]. *)
Definition word_fuel (c : Z) : nat := S (Z.to_nat (Z.log2 c)).

Definition word (c : Z) (e : Encoder) : exec FlatEncodeError Encoder := word_loop (word_fuel c) c e.

(** The loop of [big_word], on arbitrary integers: the remainder of a negative
    one does not fit a [u8], on which [unwrap] panics. *)
Fixpoint big_word_loop (fuel : nat) (d : Z) (e : Encoder) : exec FlatEncodeError Encoder :=
  match fuel with
  | O => OutOfFuel
  | S fuel =>
      let temp := Z.rem d 128 in
      if (temp <? 0) || (255 <? temp) then Panic
      else
        let d := Z.shiftr d 7 in
        let w := if d =? 0 then temp else Z.lor temp 128 in
        e ← bits 8 w e;
        if d =? 0 then Ok e else big_word_loop fuel d e
  end.

Definition big_word (c : Z) (e : Encoder) : exec FlatEncodeError Encoder :=
  big_word_loop (word_fuel c) c e.

Definition integer (i : Z) (e : Encoder) : exec FlatEncodeError Encoder := big_word (zigzag i) e.

Definition filler (e : Encoder) : Encoder :=
  next_word (mkEncoder (buffer e) (used_bits e) (Z.lor (current_byte e) 1)).

(** [arr.chunks(n)]: consecutive slices of [n] elements, the last one shorter. *)
Fixpoint chunks_loop (fuel : nat) (n : nat) (l : list Z) : list (list Z) :=
  match fuel with
  | O => []
  | S fuel => match l with [] => [] | _ => take n l :: chunks_loop fuel n (drop n l) end
  end.
Definition chunks (n : nat) (l : list Z) : list (list Z) := chunks_loop (length l) n l.

Definition write_blk (arr : list Z) (e : Encoder) : Encoder :=
  let buf := foldl (λ buf chunk, buf ++ [Z.of_nat (length chunk)] ++ chunk) (buffer e) (chunks 255 arr) in
  mkEncoder (buf ++ [0]) (used_bits e) (current_byte e).

Definition byte_array (arr : list Z) (e : Encoder) : exec FlatEncodeError Encoder :=
  if negb (used_bits e =? 0) then Err BufferNotByteAligned else Ok (write_blk arr e).

Definition bytes (x : list Z) (e : Encoder) : exec FlatEncodeError Encoder := byte_array x (filler e).

Definition utf8 (s : list Z) (e : Encoder) : exec FlatEncodeError Encoder := bytes s e.

Definition list_with {T} (encoder_func : Encoder → T → exec FlatEncodeError Encoder) :=
  fix go (l : list T) (e : Encoder) : exec FlatEncodeError Encoder :=
    match l with
    | [] => Ok (zero e)
    | item :: l => e ← encoder_func (one e) item; go l e
    end.

(** [2_u8.pow(num_bits)] overflows from 8 bits on. *)
Definition safe_encode_bits (num_bits byte : Z) (e : Encoder) : exec FlatEncodeError Encoder :=
  if 255 <? 2 ^ num_bits then Panic
  else if 2 ^ num_bits <=? byte then Err (Overflow byte num_bits)
  else bits num_bits byte e.

(** ** Bits written *)

(** The bits of the current byte that are not used yet are clear. *)
Record enc_ok (e : Encoder) : Prop := {
  ok_used : 0 <= used_bits e < 8;
  ok_buffer : Forall is_byte (buffer e);
  ok_current : is_byte (current_byte e);
  ok_clear : current_byte e mod 2 ^ (8 - used_bits e) = 0 }.

(** The bits written so far. *)
Definition enc_bits (e : Encoder) : list bool :=
  bytes_bits (buffer e) ++
  val_bits (Z.to_nat (used_bits e)) (current_byte e / 2 ^ (8 - used_bits e)).

(** [Writes e e' bs]: going from [e] to [e'] appends the bits [bs]. *)
Record Writes (e e' : Encoder) (bs : list bool) : Prop := {
  writes_ok : enc_ok e';
  writes_bits : enc_bits e' = enc_bits e ++ bs }.

Lemma Writes_trans e e1 e2 b1 b2 : Writes e e1 b1 → Writes e1 e2 b2 → Writes e e2 (b1 ++ b2).
Proof. intros [_ H1] [H2 H3]. split; [done|]. by rewrite H3, H1, app_assoc. Qed.

Lemma enc_ok_default : enc_ok Encoder_default.
Proof. by split; cbn. Qed.

(** The alignment is determined by the number of bits written. *)
Lemma length_enc_bits e : enc_ok e →
  Z.of_nat (length (enc_bits e)) = 8 * Z.of_nat (length (buffer e)) + used_bits e.
Proof.
  intros [Hu _ _ _]. unfold enc_bits. rewrite length_app, length_bytes_bits, length_val_bits. lia.
Qed.

Lemma used_bits_mod e : enc_ok e → used_bits e = Z.of_nat (length (enc_bits e)) mod 8.
Proof.
  intros H. rewrite length_enc_bits by done. destruct H as [Hu _ _ _].
  rewrite Z.add_comm, Z.mul_comm, Z.mod_add, Z.mod_small by lia. done.
Qed.

(** The current byte as a number of [used_bits] bits. *)
Lemma enc_ok_current e : enc_ok e →
  ∃ c, current_byte e = c * 2 ^ (8 - used_bits e) ∧ 0 <= c < 2 ^ used_bits e ∧
       enc_bits e = bytes_bits (buffer e) ++ val_bits (Z.to_nat (used_bits e)) c.
Proof.
  intros [Hu _ Hc Hz]. exists (current_byte e / 2 ^ (8 - used_bits e)).
  assert (0 < 2 ^ (8 - used_bits e)) by (apply Z.pow_pos_nonneg; lia).
  pose proof (Z.div_mod (current_byte e) (2 ^ (8 - used_bits e)) ltac:(lia)) as Hd.
  split; [lia|]. split; [|done]. unfold is_byte in Hc. split; [apply Z.div_pos; lia|].
  apply Z.div_lt_upper_bound; [lia|]. rewrite <- Z.pow_add_r by lia.
  replace (8 - used_bits e + used_bits e) with 8 by lia. lia.
Qed.

(** An encoder that holds [u] bits of value [c] in its current byte. *)
Lemma mkEncoder_ok buf u c : 0 <= u < 8 → Forall is_byte buf → 0 <= c < 2 ^ u →
  enc_ok (mkEncoder buf u (c * 2 ^ (8 - u))) ∧
  enc_bits (mkEncoder buf u (c * 2 ^ (8 - u))) = bytes_bits buf ++ val_bits (Z.to_nat u) c.
Proof.
  intros Hu Hbuf Hc. assert (0 < 2 ^ (8 - u)) by (apply Z.pow_pos_nonneg; lia).
  assert (2 ^ u * 2 ^ (8 - u) = 256) as Hp
    by (rewrite <- Z.pow_add_r by lia; by replace (u + (8 - u)) with 8 by lia).
  split; [split; cbn; [done..| |]|].
  - unfold is_byte. nia.
  - apply Z.mod_mul. lia.
  - unfold enc_bits. cbn. by rewrite Z.div_mul by lia.
Qed.

(** Completing the current byte. *)
Lemma full_byte_ok buf b : Forall is_byte buf → is_byte b →
  enc_ok (mkEncoder (buf ++ [b]) 0 0) ∧
  enc_bits (mkEncoder (buf ++ [b]) 0 0) = bytes_bits buf ++ val_bits 8 b.
Proof.
  intros Hbuf Hb. split; [split; cbn; try done|].
  - apply Forall_app. split; [done|]. by constructor.
  - unfold enc_bits. cbn [buffer used_bits]. change (val_bits (Z.to_nat 0) _) with (@nil bool).
    by rewrite app_nil_r, bytes_bits_app, bytes_bits_cons, app_nil_r.
Qed.

(** Appending [n] bits of value [v] to the current byte: the three cases of
    the general writer, on the arithmetic form of the current byte. *)
Section Append.
Variables (e : Encoder) (n : nat) (v : Z).
Hypothesis He : enc_ok e.
Hypothesis Hv : 0 <= v < 2 ^ Z.of_nat n.
Let u := used_bits e.

Lemma append_fits : u + Z.of_nat n < 8 →
  Writes e (mkEncoder (buffer e) (u + Z.of_nat n)
              (Z.lor (current_byte e) (v * 2 ^ (8 - (u + Z.of_nat n))))) (val_bits n v).
Proof using He Hv.
  intros Hfit. subst u. set (u := used_bits e) in *.
  destruct (enc_ok_current e He) as (c & Hc & Hcb & Hbits). destruct He as [Hu Hbuf _ _].
  assert (Z.lor (current_byte e) (v * 2 ^ (8 - (u + Z.of_nat n)))
          = (c * 2 ^ Z.of_nat n + v) * 2 ^ (8 - (u + Z.of_nat n))) as ->.
  { rewrite Hc. fold u in Hu |- *. rewrite lor_add; [|lia|].
    - rewrite Z.mul_add_distr_r, <- Z.mul_assoc, <- Z.pow_add_r by lia. do 3 f_equal. lia.
    - assert (0 < 2 ^ (8 - (u + Z.of_nat n))) by (apply Z.pow_pos_nonneg; lia).
      replace (8 - u) with (Z.of_nat n + (8 - (u + Z.of_nat n))) by lia.
      rewrite Z.pow_add_r by lia. nia. }
  fold u in Hu, Hcb, Hbits.
  destruct (mkEncoder_ok (buffer e) (u + Z.of_nat n) (c * 2 ^ Z.of_nat n + v)) as [Hok Hb]; [lia|done| |].
  { rewrite Z.pow_add_r by lia. nia. }
  split; [done|]. rewrite Hb, Hbits, <- app_assoc. f_equal.
  replace (Z.to_nat (u + Z.of_nat n)) with (Z.to_nat u + n)%nat by lia. by apply val_bits_app.
Qed.

Lemma append_full w : u + Z.of_nat n = 8 →
  Writes e (next_word (mkEncoder (buffer e) w (Z.lor (current_byte e) v))) (val_bits n v).
Proof using He Hv.
  intros Hfull. subst u. set (u := used_bits e) in *.
  destruct (enc_ok_current e He) as (c & Hc & Hcb & Hbits). destruct He as [Hu Hbuf _ _].
  fold u in Hu, Hc, Hcb, Hbits.
  assert (8 - u = Z.of_nat n) as Hn by lia. rewrite Hn in Hc.
  unfold next_word; cbn [buffer current_byte]. rewrite Hc, lor_add by lia.
  destruct (full_byte_ok (buffer e) (c * 2 ^ Z.of_nat n + v)) as [Hok Hb]; [done| |].
  { assert (2 ^ u * 2 ^ Z.of_nat n = 256) by (rewrite <- Z.pow_add_r, Hfull by lia; done).
    unfold is_byte. nia. }
  split; [done|]. rewrite Hb, Hbits, <- app_assoc. f_equal.
  replace 8%nat with (Z.to_nat u + n)%nat by lia. by apply val_bits_app.
Qed.

(** The high part completes the byte, the low part starts the next one. *)
Lemma append_split w k : 0 < k < 8 → u + Z.of_nat n = 8 + k →
  Writes e (mkEncoder (buffer (next_word (mkEncoder (buffer e) w (Z.lor (current_byte e) (v / 2 ^ k)))))
              k (v mod 2 ^ k * 2 ^ (8 - k))) (val_bits n v).
Proof using He Hv.
  intros Hk Hsum. subst u. set (u := used_bits e) in *.
  destruct (enc_ok_current e He) as (c & Hc & Hcb & Hbits). destruct He as [Hu Hbuf _ _].
  fold u in Hu, Hc, Hcb, Hbits.
  assert (0 < 2 ^ k) by (apply Z.pow_pos_nonneg; lia).
  assert (0 <= v / 2 ^ k < 2 ^ (8 - u)) as Hhi.
  { split; [apply Z.div_pos; lia|]. apply Z.div_lt_upper_bound; [lia|].
    rewrite <- Z.pow_add_r by lia. replace (k + (8 - u)) with (Z.of_nat n) by lia. apply Hv. }
  pose proof (Z.mod_pos_bound v (2 ^ k) ltac:(lia)) as Hlo.
  unfold next_word; cbn [buffer current_byte]. rewrite Hc, lor_add by lia.
  assert (is_byte (c * 2 ^ (8 - u) + v / 2 ^ k)) as Hbyte.
  { assert (2 ^ u * 2 ^ (8 - u) = 256)
      by (rewrite <- Z.pow_add_r by lia; by replace (u + (8 - u)) with 8 by lia).
    unfold is_byte. nia. }
  destruct (mkEncoder_ok (buffer e ++ [c * 2 ^ (8 - u) + v / 2 ^ k]) k (v mod 2 ^ k)) as [Hok Hb];
    [lia|by apply Forall_app; split; [|constructor]|lia|].
  split; [done|]. rewrite Hb, Hbits, bytes_bits_app, bytes_bits_cons, app_nil_r, <- !app_assoc. f_equal.
  replace (byte_bits (c * 2 ^ (8 - u) + v / 2 ^ k))
    with (val_bits (Z.to_nat u) c ++ val_bits (Z.to_nat (8 - u)) (v / 2 ^ k)).
  - rewrite <- app_assoc. f_equal.
    replace n with (Z.to_nat (8 - u) + Z.to_nat k)%nat at 1 by lia.
    rewrite val_bits_split, Z2Nat.id by lia. f_equal.
    rewrite <- (val_bits_mod (Z.to_nat k) v), Z2Nat.id by lia. done.
  - rewrite <- val_bits_app by (rewrite Z2Nat.id by lia; done). rewrite Z2Nat.id by lia.
    unfold byte_bits. f_equal. lia.
Qed.
End Append.

Lemma zero_Writes e : enc_ok e → Writes e (zero e) [false].
Proof.
  intros He. pose proof (ok_used e He) as Hu. unfold zero. case_bool.
  - pose proof (append_full e 1 0 He ltac:(cbn; lia) (used_bits e) ltac:(lia)) as H.
    rewrite Z.lor_0_r in H. exact H.
  - pose proof (append_fits e 1 0 He ltac:(cbn; lia) ltac:(lia)) as H.
    rewrite Z.mul_0_l, Z.lor_0_r in H. exact H.
Qed.

Lemma one_Writes e : enc_ok e → Writes e (one e) [true].
Proof.
  intros He. pose proof (ok_used e He) as Hu. unfold one. case_bool.
  - exact (append_full e 1 1 He ltac:(cbn; lia) (used_bits e) ltac:(lia)).
  - pose proof (append_fits e 1 1 He ltac:(cbn; lia) ltac:(lia)) as H.
    replace (Z.shiftr 128 (used_bits e)) with (1 * 2 ^ (8 - (used_bits e + Z.of_nat 1))); [exact H|].
    rewrite Z.shiftr_div_pow2 by lia. change 128 with (2 ^ 7). rewrite <- Z.pow_sub_r by lia.
    rewrite Z.mul_1_l. f_equal. lia.
Qed.

(** Writing 3 to 8 bits. *)
Lemma bits_Writes e N n v : enc_ok e → N = Z.of_nat n → (3 <= n <= 8)%nat → 0 <= v < 2 ^ Z.of_nat n →
  ∃ e', bits N v e = Ok e' ∧ Writes e e' (val_bits n v).
Proof.
  intros He -> Hn Hv. pose proof (ok_used e He) as Hu. unfold bits.
  rewrite !(proj2 (Z.eqb_neq (Z.of_nat n) _)) by lia. cbn [andb].
  unfold bits_general. cbv zeta.
  destruct (Z.eqb_spec (8 - (used_bits e + Z.of_nat n)) 0).
  { eexists. split; [done|]. apply append_full; [done..|lia]. }
  destruct (Z.ltb_spec 0 (8 - (used_bits e + Z.of_nat n))).
  - rewrite u8_shl_Ok by lia. eexists. split; [done|].
    rewrite (Z.mod_small v); [apply append_fits; [done..|lia]|].
    split; [lia|]. eapply Z.lt_le_trans; [apply Hv|]. apply Z.pow_le_mono_r; lia.
  - rewrite u8_shr_Ok, u8_shl_Ok by lia. eexists. split; [done|].
    set (k := - (8 - (used_bits e + Z.of_nat n))).
    replace (8 - (8 - k)) with k by lia. apply append_split; [done..|lia|lia].
Qed.

Lemma filler_Writes e : enc_ok e →
  Writes e (filler e) (val_bits (Z.to_nat (8 - used_bits e)) 1) ∧ used_bits (filler e) = 0.
Proof.
  intros He. pose proof (ok_used e He) as Hu. split; [|done].
  apply (append_full e (Z.to_nat (8 - used_bits e)) 1 He); [|lia].
  rewrite Z2Nat.id by lia. split; [lia|]. apply Z.pow_gt_1; lia.
Qed.

(** ** Words *)

(** The bytes of a variable-length word: seven bits each, least significant
    first, the top bit set on all but the last. *)
Fixpoint leb (fuel : nat) (d : Z) : list Z :=
  match fuel with
  | O => []
  | S fuel => if d / 128 =? 0 then [d mod 128] else (d mod 128 + 128) :: leb fuel (d / 128)
  end.

Lemma lor_128 w : 0 <= w < 128 → Z.lor w 128 = w + 128.
Proof. intros Hw. rewrite Z.lor_comm. change 128 with (1 * 2 ^ 7) at 1. rewrite lor_add by (cbn; lia). lia. Qed.

Lemma word_loop_Writes fuel d e : enc_ok e → 0 <= d < 2 ^ (7 * Z.of_nat fuel) → (0 < fuel)%nat →
  ∃ e', word_loop fuel d e = Ok e' ∧ Writes e e' (bytes_bits (leb fuel d)).
Proof.
  revert d e. induction fuel as [|fuel IH]; intros d e He Hd Hf; [lia|].
  cbn [word_loop leb]. cbv zeta. rewrite land_127, Z.shiftr_div_pow2 by lia. change (2 ^ 7) with 128.
  pose proof (Z.mod_pos_bound d 128 ltac:(lia)) as Hm. rewrite lor_128 by done.
  destruct (Z.eqb_spec (d / 128) 0) as [Hz|Hnz].
  - destruct (bits_Writes e 8 8 (d mod 128) He eq_refl ltac:(lia) ltac:(cbn; lia)) as (e' & -> & Hw).
    exists e'. split; [done|]. by rewrite bytes_bits_cons, app_nil_r.
  - destruct (bits_Writes e 8 8 (d mod 128 + 128) He eq_refl ltac:(lia) ltac:(cbn; lia)) as (e1 & -> & Hw).
    cbn [mbind exec_bind].
    assert (0 <= d / 128 < 2 ^ (7 * Z.of_nat fuel)) as Hd'.
    { split; [apply Z.div_pos; lia|]. apply Z.div_lt_upper_bound; [lia|].
      change 128 with (2 ^ 7). rewrite <- Z.pow_add_r by lia.
      replace (7 + 7 * Z.of_nat fuel) with (7 * Z.of_nat (S fuel)) by lia. apply Hd. }
    assert (0 < fuel)%nat by (destruct fuel; [cbn in Hd'; lia|lia]).
    destruct (IH (d / 128) e1) as (e' & -> & Hw'); [apply Hw|done..|].
    exists e'. split; [done|]. rewrite bytes_bits_cons. by eapply Writes_trans.
Qed.

Lemma word_fuel_enough c : 0 <= c → c < 2 ^ (7 * Z.of_nat (word_fuel c)).
Proof.
  intros Hc. unfold word_fuel. destruct (decide (c = 0)) as [->|]; [done|].
  pose proof (Z.log2_spec c ltac:(lia)) as [_ H]. pose proof (Z.log2_nonneg c).
  eapply Z.lt_le_trans; [exact H|]. apply Z.pow_le_mono_r; lia.
Qed.

Lemma word_Writes c e : enc_ok e → 0 <= c →
  ∃ e', word c e = Ok e' ∧ Writes e e' (bytes_bits (leb (word_fuel c) c)).
Proof.
  intros He Hc. apply word_loop_Writes; [done| |unfold word_fuel; lia].
  split; [done|]. by apply word_fuel_enough.
Qed.

(** On non-negative numbers [big_word] writes what [word] does. *)
Lemma big_word_loop_word fuel d e : 0 <= d → big_word_loop fuel d e = word_loop fuel d e.
Proof.
  revert d e. induction fuel as [|fuel IH]; intros d e Hd; [done|].
  cbn [big_word_loop word_loop]. cbv zeta.
  rewrite Z.rem_mod_nonneg, land_127 by lia. pose proof (Z.mod_pos_bound d 128 ltac:(lia)).
  rewrite (proj2 (Z.ltb_ge (d mod 128) 0)), (proj2 (Z.ltb_ge 255 (d mod 128))) by lia. cbn [orb].
  destruct (bits 8 _ e); [|done..]. cbn [mbind exec_bind].
  case_bool; [done|]. apply IH. rewrite Z.shiftr_div_pow2 by lia. apply Z.div_pos; lia.
Qed.

Lemma zigzag_nonneg i : 0 <= zigzag i.
Proof. unfold zigzag. rewrite Z.shiftl_mul_pow2 by lia. case_bool; lia. Qed.

Lemma unzigzag_zigzag i : unzigzag (zigzag i) = i.
Proof.
  unfold zigzag, unzigzag. cbv zeta. rewrite Z.shiftl_mul_pow2 by lia.
  rewrite (land_ones_mod _ 1) by done. rewrite Z.shiftr_div_pow2 by lia. change (2 ^ 1) with 2.
  case_bool.
  - rewrite Z.mod_mul, Z.div_mul by lia. apply Z.lxor_0_r.
  - replace (- (i * 2) - 1) with (1 + (- i - 1) * 2) by lia.
    rewrite Z.mod_add, Z.div_add by lia. change (1 mod 2) with 1. change (1 / 2) with 0.
    rewrite Z.lxor_m1_r. unfold Z.lnot. lia.
Qed.

(** ** Byte arrays *)

(** The blocks written for a byte array: each chunk after its length, then 0. *)
Definition blocks (arr : list Z) : list Z :=
  (chunks 255 arr ≫= λ chunk, Z.of_nat (length chunk) :: chunk) ++ [0].

Lemma chunks_loop_Forall (P : Z → Prop) fuel n l : (0 < n)%nat → Forall P l →
  Forall (λ c, (0 < length c <= n)%nat ∧ Forall P c) (chunks_loop fuel n l).
Proof.
  intros Hn. revert l. induction fuel as [|fuel IH]; intros l Hl; cbn; [constructor|].
  destruct l as [|b l]; [constructor|]. constructor; [|by apply IH, Forall_drop].
  split; [rewrite length_take; cbn; lia|]. by apply Forall_take.
Qed.

Lemma chunks_loop_join fuel n l : (0 < n)%nat → (length l <= fuel)%nat → mjoin (chunks_loop fuel n l) = l.
Proof.
  intros Hn. revert l. induction fuel as [|fuel IH]; intros l Hl; [destruct l; [done|cbn in Hl; lia]|].
  cbn [chunks_loop]. destruct l as [|b l]; [done|]. cbn [mjoin list_join].
  rewrite IH by (rewrite length_drop; cbn in *; lia). apply take_drop.
Qed.

Lemma chunks_spec arr : Forall is_byte arr →
  Forall (λ c, (0 < length c <= 255)%nat ∧ Forall is_byte c) (chunks 255 arr) ∧
  mjoin (chunks 255 arr) = arr.
Proof.
  intros H. split; [by apply chunks_loop_Forall; [lia|]|]. apply chunks_loop_join; lia.
Qed.

Lemma write_blk_buffer arr e : buffer (write_blk arr e) = buffer e ++ blocks arr.
Proof.
  unfold write_blk, blocks. cbn. rewrite app_assoc. f_equal. generalize (buffer e).
  induction (chunks 255 arr) as [|c cs IH]; intros buf; cbn; [by rewrite app_nil_r|].
  rewrite IH. by rewrite <- app_assoc.
Qed.

Lemma blocks_bytes arr : Forall is_byte arr → Forall is_byte (blocks arr).
Proof.
  intros [H _]%chunks_spec. apply Forall_app. split; [|repeat constructor; lia].
  induction H as [|c cs [Hl Hc] _ IH]; cbn; [constructor|].
  constructor; [unfold is_byte; lia|]. apply Forall_app. by split.
Qed.

Lemma bytes_Writes arr e : enc_ok e → Forall is_byte arr →
  ∃ e', bytes arr e = Ok e' ∧
    Writes e e' (val_bits (Z.to_nat (8 - used_bits e)) 1 ++ bytes_bits (blocks arr)) ∧ used_bits e' = 0.
Proof.
  intros He Ha. destruct (filler_Writes e He) as [Hf Hu]. unfold bytes, byte_array.
  rewrite Hu. cbn [negb Z.eqb]. eexists. split; [done|]. split; [|done].
  apply Writes_trans with (filler e); [done|].
  assert (current_byte (filler e) = 0) as Hcur by done.
  split.
  - split; rewrite ?write_blk_buffer; cbn [used_bits current_byte write_blk]; rewrite ?Hu, ?Hcur; try done.
    + apply Forall_app. split; [apply Hf|by apply blocks_bytes].
  - unfold enc_bits. rewrite write_blk_buffer. cbn [used_bits current_byte write_blk]. rewrite Hu.
    change (val_bits (Z.to_nat 0) _) with (@nil bool). by rewrite !app_nil_r, bytes_bits_app.
Qed.
