(* ===== verification/FlatDecoder.v ===== *)
(** * The flat bit decoder

    Models [amaru-uplc/src/flat/decode/decoder.rs] and [flat/decode/error.rs]:
    the cursor over an input buffer and the readers of bits, words, integers,
    byte arrays and strings.  A reader is a state-passing function; an index out
    of the buffer, an underflow or a shift by the width of the type or more is a
    [Panic]. *)

From S2P Require Import Prelude FlatBits UplcSyntax.
From S2P Require FlatEncoder.

Inductive FlatDecodeError :=
| EndOfBuffer
| BufferNotByteAligned
| IncorrectNumBits
| NotEnoughBytes (n : Z)
| NotEnoughBits (n : Z)
| DecodeUtf8
| DecodeCbor
| Message (m : string)
| DefaultFunctionNotFound (tag : Z)
| UnknownTermConstructor (tag : Z)
| UnknownTypeTags (tags : list Z)
| MissingTypeTag
| BlsValueNotSupported
| TrailingBytes (n : Z)
| BuiltinNotAvailable (tag : Z) (f : DefaultFunction)
| TermNotAvailable (tag : Z) (name : string)
| ConstructorTooWide (n max : Z)
| TypeHeaderTooLong (n max : Z)
| WordOverflow.

Record Decoder := mkDecoder { buffer : list Z; used_bits : Z; pos : Z }.

(** ** Readers *)

Definition DecM (A : Type) : Type := Decoder → exec FlatDecodeError (A * Decoder).

#[global] Instance DecM_ret : MRet DecM := λ A a d, Ok (a, d).
#[global] Instance DecM_bind : MBind DecM := λ A B f m d,
  match m d with
  | Ok (a, d') => f a d'
  | Err e => Err e
  | Panic => Panic
  | OutOfFuel => OutOfFuel
  end.

Definition fail {A} (e : FlatDecodeError) : DecM A := λ _, Err e.
Definition panic {A} : DecM A := λ _, Panic.
Definition out_of_fuel {A} : DecM A := λ _, OutOfFuel.
(** A computation that does not touch the cursor. *)
Definition lift {A} (m : exec FlatDecodeError A) : DecM A := λ d, a ← m; Ok (a, d).
Definition get : DecM Decoder := λ d, Ok (d, d).

(** [self.buffer[i]]. *)
Definition index (buf : list Z) (i : Z) : exec FlatDecodeError Z :=
  if i <? 0 then Panic
  else match buf !! Z.to_nat i with Some b => Ok b | None => Panic end.

(** [&self.buffer[from..to]]. *)
Definition slice (buf : list Z) (from to : Z) : exec FlatDecodeError (list Z) :=
  if (from <=? to) && (to <=? Z.of_nat (length buf)) then
    Ok (take (Z.to_nat (to - from)) (drop (Z.to_nat from) buf))
  else Panic.

(** A [u128] shift. *)
Definition u128_shl (a n : Z) : exec FlatDecodeError Z :=
  if (0 <=? n) && (n <? 128) then Ok (Z.shiftl a n mod 2 ^ 128) else Panic.
(** A [usize] shift. *)
Definition usize_shl (a n : Z) : exec FlatDecodeError Z :=
  if (0 <=? n) && (n <? usize_BITS) then Ok (Z.shiftl a n mod 2 ^ usize_BITS) else Panic.

Definition Decoder_new (bytes : list Z) : Decoder := mkDecoder bytes 0 0.

Definition ensure_bits (required_bits : Z) : DecM () := λ d,
  if Z.of_nat (length (buffer d)) <? pos d then Panic
  else
    let available := (Z.of_nat (length (buffer d)) - pos d) * 8 in
    if available <? used_bits d then Panic
    else if available - used_bits d <? required_bits then Err (NotEnoughBits required_bits)
    else Ok ((), d).

Definition drop_bits (num_bits : Z) : DecM () := λ d,
  let all_used_bits := num_bits + used_bits d in
  Ok ((), mkDecoder (buffer d) (all_used_bits mod 8) (pos d + all_used_bits / 8)).

(** [8 - self.used_bits] and the two shifts are checked operations. *)
Definition bits8 (num_bits : Z) : DecM Z :=
  if 8 <? num_bits then fail IncorrectNumBits
  else
    _ ← ensure_bits num_bits;
    d ← get;
    if 8 <? used_bits d then panic
    else
      let unused_bits := 8 - used_bits d in
      let leading_zeroes := 8 - num_bits in
      b0 ← lift (index (buffer d) (pos d));
      s ← lift (u8_shl b0 (used_bits d));
      r ← lift (u8_shr s leading_zeroes);
      x ← (if unused_bits <? num_bits then
             b1 ← lift (index (buffer d) (pos d + 1));
             t ← lift (u8_shr b1 (unused_bits + leading_zeroes));
             mret (Z.lor r t)
           else mret r);
      _ ← drop_bits num_bits;
      mret x.

Definition increment_buffer_by_bit : DecM () := λ d,
  Ok ((), if used_bits d =? 7 then mkDecoder (buffer d) 0 (pos d + 1)
          else mkDecoder (buffer d) (used_bits d + 1) (pos d)).

Definition bit : DecM bool :=
  d ← get;
  if Z.of_nat (length (buffer d)) <=? pos d then fail EndOfBuffer
  else
    b0 ← lift (index (buffer d) (pos d));
    mask ← lift (u8_shr 128 (used_bits d));
    let b := 0 <? Z.land b0 mask in
    _ ← increment_buffer_by_bit;
    mret b.

Definition zero : DecM bool := current_bit ← bit; mret (negb current_bit).

Fixpoint filler (fuel : nat) : DecM () :=
  match fuel with
  | O => out_of_fuel
  | S fuel => z ← zero; if z : bool then filler fuel else mret ()
  end.

Fixpoint word_loop (fuel : nat) (final_word shl : Z) : DecM Z :=
  match fuel with
  | O => out_of_fuel
  | S fuel =>
      word8 ← bits8 8;
      let word7 := Z.land word8 127 in
      if usize_BITS <=? shl then fail WordOverflow
      else
        part ← lift (usize_shl word7 shl);
        if negb (Z.shiftr part shl =? word7) then fail WordOverflow
        else
          let final_word := Z.lor final_word part in
          let leading_bit := Z.land word8 128 in
          if 0 <? leading_bit then word_loop fuel final_word (shl + 7) else mret final_word
  end.

(** The loop ends by the eleventh turn: the shift then exceeds the width. *)
Definition word : DecM Z := word_loop 11 0 0.

(** [list_with]: [fuel] bounds the number of items. *)
Fixpoint list_with {T} (fuel : nat) (decoder_func : DecM T) : DecM (list T) :=
  match fuel with
  | O => out_of_fuel
  | S fuel =>
      b ← bit;
      if b : bool then
        item ← decoder_func;
        rest ← list_with fuel decoder_func;
        mret (item :: rest)
      else mret []
  end.

Fixpoint big_word_loop (fuel : nat) (small : Z) (large : option Z) (shift : Z) : DecM Z :=
  match fuel with
  | O => out_of_fuel
  | S fuel =>
      byte ← bits8 8;
      let chunk := Z.land byte 127 in
      st ← (match large with
            | Some word => mret (small, Some (Z.lor word (Z.shiftl chunk shift)))
            | None =>
                if (shift <? 128) && (chunk <=? Z.shiftr u128_max shift) then
                  part ← lift (u128_shl chunk shift);
                  mret (Z.lor small part, None)
                else
                  mret (small, Some (Z.lor small (Z.shiftl chunk shift)))
            end);
      let '(small, large) := (st : Z * option Z) in
      if Z.land byte 128 =? 0 then mret (default small large)
      else big_word_loop fuel small large (shift + 7)
  end.

(** Number of turns any loop of the decoder can take: every turn reads at least
    one bit. *)
Definition bits_fuel (d : Decoder) : nat := S (8 * length (buffer d)).

Definition big_word : DecM Z := λ d, big_word_loop (bits_fuel d) 0 None 0 d.

Definition integer : DecM Z := w ← big_word; mret (FlatEncoder.unzigzag w).

Definition ensure_bytes (required_bytes : Z) : DecM () := λ d,
  if Z.of_nat (length (buffer d)) <? pos d then Panic
  else if Z.of_nat (length (buffer d)) - pos d <? required_bytes then Err (NotEnoughBytes required_bytes)
  else Ok ((), d).

Definition advance (n : Z) : DecM () := λ d, Ok ((), mkDecoder (buffer d) (used_bits d) (pos d + n)).

(** Read one byte at the cursor of an aligned buffer. *)
Definition next_byte : DecM Z :=
  d ← get; b ← lift (index (buffer d) (pos d)); _ ← advance 1; mret b.

Fixpoint byte_array_loop (fuel : nat) (blk_len : Z) (blk_array : list Z) : DecM (list Z) :=
  match fuel with
  | O => out_of_fuel
  | S fuel =>
      if blk_len =? 0 then mret blk_array
      else
        _ ← ensure_bytes (blk_len + 1);
        d ← get;
        decoded_array ← lift (slice (buffer d) (pos d) (pos d + blk_len));
        _ ← advance blk_len;
        blk_len ← next_byte;
        byte_array_loop fuel blk_len (blk_array ++ decoded_array)
  end.

Definition byte_array : DecM (list Z) :=
  d ← get;
  if negb (used_bits d =? 0) then fail BufferNotByteAligned
  else
    _ ← ensure_bytes 1;
    blk_len ← next_byte;
    byte_array_loop (bits_fuel d) blk_len [].

Definition bytes : DecM (list Z) := λ d, (_ ← filler (bits_fuel d); byte_array) d.

(** Rust strings are the well-formed UTF-8 byte sequences (RFC 3629: no
    overlong forms, no surrogates, nothing above U+10FFFF). *)
Definition in_rng (lo hi b : Z) : bool := (lo <=? b) && (b <=? hi).
Definition cont (b : Z) : bool := in_rng 128 191 b.
Fixpoint utf8_valid (bs : list Z) : bool :=
  match bs with
  | [] => true
  | b :: r =>
      if in_rng 0 127 b then utf8_valid r
      else if in_rng 194 223 b then
        match r with c1 :: r => cont c1 && utf8_valid r | _ => false end
      else if in_rng 224 239 b then
        match r with
        | c1 :: c2 :: r =>
            (if b =? 224 then in_rng 160 191 c1 else if b =? 237 then in_rng 128 159 c1 else cont c1)
            && cont c2 && utf8_valid r
        | _ => false
        end
      else if in_rng 240 244 b then
        match r with
        | c1 :: c2 :: c3 :: r =>
            (if b =? 240 then in_rng 144 191 c1 else if b =? 244 then in_rng 128 143 c1 else cont c1)
            && cont c2 && cont c3 && utf8_valid r
        | _ => false
        end
      else false
  end.

Definition utf8 : DecM (list Z) :=
  b ← bytes;
  if utf8_valid b then mret b else fail DecodeUtf8.

(** ** Cursor invariant *)

Record dec_ok (d : Decoder) : Prop := {
  ok_used : 0 <= used_bits d < 8;
  ok_pos : 0 <= pos d;
  ok_len : pos d * 8 + used_bits d <= 8 * Z.of_nat (length (buffer d));
  ok_bytes : Forall is_byte (buffer d) }.

(** The bits not read yet. *)
Definition dec_rest (d : Decoder) : list bool :=
  drop (Z.to_nat (8 * pos d + used_bits d)) (bytes_bits (buffer d)).

(** Moving the cursor by [n] bits. *)
Definition adv (d : Decoder) (n : nat) : Decoder :=
  let p := 8 * pos d + used_bits d + Z.of_nat n in mkDecoder (buffer d) (p mod 8) (p / 8).

Lemma length_dec_rest d : dec_ok d →
  Z.of_nat (length (dec_rest d)) = 8 * Z.of_nat (length (buffer d)) - (8 * pos d + used_bits d).
Proof. intros [Hu Hp Hl _]. unfold dec_rest. rewrite length_drop, length_bytes_bits. lia. Qed.

Lemma div_mod_8 p : 0 <= p → 0 <= p mod 8 < 8 ∧ 0 <= p / 8 ∧ 8 * (p / 8) + p mod 8 = p.
Proof. intros Hp. pose proof (Z.div_mod p 8). pose proof (Z.mod_pos_bound p 8). pose proof (Z.div_pos p 8). lia. Qed.

Lemma adv_spec d n : dec_ok d → (n <= length (dec_rest d))%nat →
  dec_ok (adv d n) ∧ dec_rest (adv d n) = drop n (dec_rest d) ∧ buffer (adv d n) = buffer d.
Proof.
  intros Hok Hn. pose proof (length_dec_rest d Hok). destruct Hok as [Hu Hp Hl Hb].
  destruct (div_mod_8 (8 * pos d + used_bits d + Z.of_nat n) ltac:(lia)) as (? & ? & Hdm).
  split; [split; cbn; [lia|lia|lia|done]|]. split; [|done].
  unfold dec_rest, adv; cbn [buffer pos used_bits]. rewrite drop_drop. f_equal. lia.
Qed.

Lemma adv_adv d m n : dec_ok d → adv (adv d m) n = adv d (m + n).
Proof.
  intros [Hu Hp _ _]. unfold adv; cbn [buffer pos used_bits].
  destruct (div_mod_8 (8 * pos d + used_bits d + Z.of_nat m) ltac:(lia)) as (_ & _ & ->).
  by replace (8 * pos d + used_bits d + Z.of_nat m + Z.of_nat n)
    with (8 * pos d + used_bits d + Z.of_nat (m + n)) by lia.
Qed.

Lemma adv_unique d d' n : dec_ok d → 0 <= used_bits d' < 8 → buffer d' = buffer d →
  8 * pos d' + used_bits d' = 8 * pos d + used_bits d + Z.of_nat n → d' = adv d n.
Proof.
  intros Hok Hu Hb Hp. unfold adv. rewrite <- Hp. destruct d' as [buf u p]; cbn in *. subst buf. f_equal.
  - rewrite Z.mul_comm, Z.add_comm, Z.mod_add, Z.mod_small by lia. done.
  - rewrite Z.mul_comm, Z.add_comm, Z.div_add, Z.div_small by lia. done.
Qed.

Lemma adv_0 d : dec_ok d → adv d 0 = d.
Proof. intros H. symmetry. apply adv_unique; [done|apply H|done|lia]. Qed.

(** The current byte of a buffer that has unread bits. *)
Lemma dec_rest_byte d : dec_ok d → dec_rest d ≠ [] →
  ∃ b, buffer d !! Z.to_nat (pos d) = Some b ∧ is_byte b ∧ index (buffer d) (pos d) = Ok b ∧
    dec_rest d = val_bits (Z.to_nat (8 - used_bits d)) b
                 ++ drop (8 * S (Z.to_nat (pos d))) (bytes_bits (buffer d)).
Proof.
  intros Hok Hne. pose proof (length_dec_rest d Hok) as Hlen. destruct Hok as [Hu Hp Hl Hb].
  assert (0 < length (dec_rest d))%nat by (destruct (dec_rest d); [done|cbn; lia]).
  destruct (lookup_lt_is_Some_2 (buffer d) (Z.to_nat (pos d)) ltac:(lia)) as [b Hbyte].
  exists b. split; [done|]. split; [by eapply Forall_lookup_1|]. split.
  { unfold index. rewrite (proj2 (Z.ltb_ge _ _)) by lia. by rewrite Hbyte. }
  unfold dec_rest. replace (Z.to_nat (8 * pos d + used_bits d))
    with (8 * Z.to_nat (pos d) + Z.to_nat (used_bits d))%nat by lia.
  rewrite <- drop_drop, (drop_bytes_bits _ _ _ Hbyte). unfold byte_bits.
  replace 8%nat with (Z.to_nat (used_bits d) + Z.to_nat (8 - used_bits d))%nat at 1 by lia.
  rewrite val_bits_split, <- app_assoc, drop_app_length'; [done|]. by rewrite length_val_bits.
Qed.

Lemma dec_rest_nil d : dec_ok d → dec_rest d = [] ↔ Z.of_nat (length (buffer d)) <= pos d.
Proof.
  intros Hok. pose proof (length_dec_rest d Hok) as Hlen. destruct Hok as [Hu Hp Hl Hb]. split.
  - intros H. rewrite H in Hlen. cbn in Hlen. lia.
  - intros H. apply nil_length_inv. lia.
Qed.

(** Unfold one level of the reader monad. *)
Ltac dec_unfold := unfold get, lift, fail, mret, DecM_ret, mbind, DecM_bind, exec_bind.

Lemma land_pow2_testbit b k : 0 <= k → (0 <? Z.land b (2 ^ k)) = Z.testbit b k.
Proof.
  intros Hk. assert (Z.land b (2 ^ k) = if Z.testbit b k then 2 ^ k else 0) as ->.
  { apply Z.bits_inj'. intros i Hi. rewrite Z.land_spec, Z.pow2_bits_eqb by lia.
    destruct (Z.eqb_spec k i) as [<-|Hne].
    - destruct (Z.testbit b k); [by rewrite Z.pow2_bits_true|by rewrite Z.bits_0].
    - rewrite andb_false_r. destruct (Z.testbit b k); [by rewrite Z.pow2_bits_false|by rewrite Z.bits_0]. }
  pose proof (Z.pow_pos_nonneg 2 k). destruct (Z.testbit b k); case_bool; lia || done.
Qed.

(** [bit] reads the first unread bit. *)
Lemma bit_eq d : dec_ok d →
  bit d = match dec_rest d with [] => Err EndOfBuffer | b :: _ => Ok (b, adv d 1) end.
Proof.
  intros Hok. unfold bit. dec_unfold.
  destruct (decide (dec_rest d = [])) as [Hnil|Hne].
  { rewrite Hnil, (proj2 (Z.leb_le _ _)) by (by apply dec_rest_nil). done. }
  rewrite (proj2 (Z.leb_gt _ _)) by (apply Z.nle_gt; by rewrite <- dec_rest_nil).
  destruct (dec_rest_byte d Hok Hne) as (b & _ & Hb & Hi & Hr).
  rewrite Hi. pose proof (ok_used d Hok) as Hu.
  cbv beta iota zeta. rewrite u8_shr_Ok by lia. unfold increment_buffer_by_bit. cbv beta iota zeta.
  change 128 with (2 ^ 7). rewrite <- Z.pow_sub_r, land_pow2_testbit by lia.
  replace (Z.to_nat (8 - used_bits d)) with (S (Z.to_nat (7 - used_bits d))) in Hr by lia.
  cbn [val_bits app] in Hr. rewrite Z2Nat.id in Hr by lia. rewrite Hr. do 2 f_equal.
  apply adv_unique; [done|..]; case_bool; cbn; lia || done.
Qed.

(** Cutting [n] bits out of one byte. *)
Lemma cut_one b u n : 0 <= u → 0 <= n → u + n <= 8 →
  b mod 2 ^ (8 - u) * 2 ^ u / 2 ^ (8 - n) = b mod 2 ^ (8 - u) / 2 ^ (8 - u - n).
Proof.
  intros. replace (8 - n) with (8 - u - n + u) by lia.
  rewrite Z.pow_add_r by lia. apply Z.div_mul_cancel_r; apply Z.pow_nonzero; lia.
Qed.

Lemma cut_two b u n : 0 <= u <= 8 → n <= 8 → 8 < u + n →
  b mod 2 ^ (8 - u) * 2 ^ u / 2 ^ (8 - n) = b mod 2 ^ (8 - u) * 2 ^ (u + n - 8).
Proof.
  intros. replace u with (u + n - 8 + (8 - n)) at 2 by lia.
  rewrite Z.pow_add_r, Z.mul_assoc by lia. apply Z.div_mul. apply Z.pow_nonzero; lia.
Qed.

Lemma take_val_bits n k a post : take n (val_bits (n + k) a ++ post) = val_bits n (a / 2 ^ Z.of_nat k).
Proof. rewrite val_bits_split, <- app_assoc, take_app_length'; [done|]. by rewrite length_val_bits. Qed.

(** The bits of [n] read from the current byte. *)
Lemma read_one b u n post : is_byte b → 0 <= u → u + Z.of_nat n <= 8 →
  b mod 2 ^ (8 - u) * 2 ^ u / 2 ^ (8 - Z.of_nat n)
  = bits_val (take n (val_bits (Z.to_nat (8 - u)) b ++ post)).
Proof.
  intros Hb Hu Hn. pose proof (Z.mod_pos_bound b (2 ^ (8 - u)) ltac:(apply Z.pow_pos_nonneg; lia)).
  rewrite cut_one by lia. apply (bits_val_unique n).
  { split; [apply Z.div_pos; lia|]. apply Z.div_lt_upper_bound; [apply Z.pow_pos_nonneg; lia|].
    rewrite <- Z.pow_add_r by lia. replace (8 - u - Z.of_nat n + Z.of_nat n) with (8 - u) by lia. lia. }
  rewrite <- (val_bits_mod (Z.to_nat (8 - u))), Z2Nat.id by lia.
  replace (Z.to_nat (8 - u)) with (n + Z.to_nat (8 - u - Z.of_nat n))%nat by lia.
  rewrite take_val_bits, Z2Nat.id by lia. done.
Qed.

(** The bits of [n] read from the current and the next byte. *)
Lemma read_two b0 b1 u n post : is_byte b1 → 0 <= u < 8 → (n <= 8)%nat → 8 < u + Z.of_nat n →
  Z.lor (b0 mod 2 ^ (8 - u) * 2 ^ u / 2 ^ (8 - Z.of_nat n)) (b1 / 2 ^ (8 - u + (8 - Z.of_nat n)))
  = bits_val (take n (val_bits (Z.to_nat (8 - u)) b0 ++ byte_bits b1 ++ post)).
Proof.
  intros Hb1 Hu Hn Hsum. pose proof (Z.mod_pos_bound b0 (2 ^ (8 - u)) ltac:(apply Z.pow_pos_nonneg; lia)).
  rewrite cut_two by lia. set (k := Z.to_nat (u + Z.of_nat n - 8)).
  replace (u + Z.of_nat n - 8) with (Z.of_nat k) by lia.
  replace (8 - u + (8 - Z.of_nat n)) with (Z.of_nat (8 - k)) by lia.
  set (m := Z.to_nat (8 - u)) in *. replace (8 - u) with (Z.of_nat m) in * by lia.
  assert (0 <= b1 / 2 ^ Z.of_nat (8 - k) < 2 ^ Z.of_nat k) as Hlow.
  { unfold is_byte in Hb1. split; [apply Z.div_pos; lia|]. apply Z.div_lt_upper_bound; [lia|].
    rewrite <- Z.pow_add_r by lia. replace (Z.of_nat (8 - k) + Z.of_nat k) with 8 by lia. lia. }
  rewrite lor_add by lia. apply (bits_val_unique n).
  { replace (Z.of_nat n) with (Z.of_nat m + Z.of_nat k) by lia. rewrite Z.pow_add_r by lia. nia. }
  replace n with (m + k)%nat by lia. rewrite val_bits_app, val_bits_mod by done.
  rewrite take_app_add' by (by rewrite length_val_bits). f_equal.
  unfold byte_bits. replace 8%nat with (k + (8 - k))%nat at 2 by lia. by rewrite take_val_bits.
Qed.

Lemma next_index d : dec_ok d → 8 - used_bits d < Z.of_nat (length (dec_rest d)) →
  ∃ b1, buffer d !! S (Z.to_nat (pos d)) = Some b1 ∧ is_byte b1 ∧ index (buffer d) (pos d + 1) = Ok b1.
Proof.
  intros Hok Hlt. rewrite length_dec_rest in Hlt by done. destruct (Hok) as [Hu Hp Hl Hb].
  destruct (lookup_lt_is_Some_2 (buffer d) (S (Z.to_nat (pos d))) ltac:(lia)) as [b1 Hb1].
  exists b1. split; [done|]. split; [by eapply Forall_lookup_1|].
  unfold index. rewrite (proj2 (Z.ltb_ge _ _)) by lia.
  replace (Z.to_nat (pos d + 1)) with (S (Z.to_nat (pos d))) by lia. by rewrite Hb1.
Qed.

(** [bits8] reads a number of 1 to 8 bits. *)
Lemma bits8_eq d N n : dec_ok d → N = Z.of_nat n → (1 <= n <= 8)%nat →
  bits8 N d = if decide (length (dec_rest d) < n)%nat then Err (NotEnoughBits N)
              else Ok (bits_val (take n (dec_rest d)), adv d n).
Proof.
  intros Hok -> Hn. pose proof (length_dec_rest d Hok) as Hlen.
  destruct (Hok) as [Hu Hp Hl _].
  unfold bits8, ensure_bits. rewrite (proj2 (Z.ltb_ge 8 _)) by lia. dec_unfold.
  rewrite (proj2 (Z.ltb_ge (Z.of_nat (length (buffer d))) _)) by lia.
  rewrite (proj2 (Z.ltb_ge ((Z.of_nat (length (buffer d)) - pos d) * 8) _)) by lia.
  case_decide as Hd; [rewrite (proj2 (Z.ltb_lt _ _)) by lia; done|].
  rewrite (proj2 (Z.ltb_ge _ (Z.of_nat n))) by lia.
  cbv beta iota zeta. rewrite (proj2 (Z.ltb_ge 8 _)) by lia.
  destruct (dec_rest_byte d Hok) as (b0 & Hb0 & Hby0 & Hi0 & Hr0); [by intros H; rewrite H in *; cbn in *; lia|].
  rewrite Hi0. cbv beta iota zeta. rewrite u8_shl_Ok by lia. cbv beta iota zeta.
  rewrite u8_shr_Ok by lia. unfold drop_bits. cbv beta iota zeta.
  assert (mkDecoder (buffer d) ((Z.of_nat n + used_bits d) mod 8) (pos d + (Z.of_nat n + used_bits d) / 8)
          = adv d n) as Hadv.
  { apply adv_unique; [done|..]; cbn; [by apply Z.mod_pos_bound|done|].
    destruct (div_mod_8 (Z.of_nat n + used_bits d) ltac:(lia)) as (_ & _ & ?). lia. }
  destruct (Z.ltb_spec (8 - used_bits d) (Z.of_nat n)) as [Htwo|Hone].
  - destruct (next_index d Hok ltac:(lia)) as (b1 & Hb1 & Hby1 & Hi1).
    rewrite Hi1. cbv beta iota zeta. rewrite u8_shr_Ok by lia. cbv beta iota zeta.
    rewrite Hadv, Hr0, (drop_bytes_bits _ _ _ Hb1). do 2 f_equal. apply read_two; lia || done.
  - rewrite Hadv, Hr0. do 2 f_equal. apply read_one; lia || done.
Qed.

(** ** Safety of readers

    [safe N k m]: from any valid cursor with fewer than [N] unread bits, [m]
    neither panics nor runs out of fuel, and when it succeeds it leaves a valid
    cursor on the same buffer, at least [k] bits further. *)
Definition safe {A} (N k : nat) (m : DecM A) : Prop :=
  ∀ d, dec_ok d → (length (dec_rest d) < N)%nat →
    match m d with
    | Ok (_, d') => dec_ok d' ∧ buffer d' = buffer d ∧ (length (dec_rest d') + k <= length (dec_rest d))%nat
    | Err _ => True
    | Panic | OutOfFuel => False
    end.

Section Safe.
Context {A B : Type}.

Lemma safe_ret N (a : A) : safe N 0 (mret a).
Proof. intros d Hd _. cbn. split; [done|]. split; [done|lia]. Qed.

Lemma safe_fail N k e : safe N k (fail (A:=A) e).
Proof. by intros d _ _. Qed.

Lemma safe_weaken N N' k k' (m : DecM A) : safe N k m → (N' <= N)%nat → (k' <= k)%nat → safe N' k' m.
Proof.
  intros H HN Hk d Hd Hl. specialize (H d Hd ltac:(lia)).
  destruct (m d) as [[a d']| | |]; try done. destruct H as (? & ? & ?). split; [done|]. split; [done|lia].
Qed.

Lemma safe_less N k (m : DecM A) : safe N k m → safe N 0 m.
Proof. intros H. eapply safe_weaken; [exact H|lia..]. Qed.

Lemma safe_bind N k1 k2 (m : DecM A) (f : A → DecM B) :
  safe N k1 m → (∀ a, safe (N - k1) k2 (f a)) → safe N (k1 + k2) (m ≫= f).
Proof.
  intros Hm Hf d Hd Hl. unfold mbind, DecM_bind. specialize (Hm d Hd Hl).
  destruct (m d) as [[a d']| | |]; try done. destruct Hm as (Hd' & Hb & Hr).
  specialize (Hf a d' Hd' ltac:(lia)). destruct (f a d') as [[b d'']| | |]; try done.
  destruct Hf as (? & ? & ?). split; [done|]. split; [congruence|lia].
Qed.

Lemma safe_seq N (m : DecM A) (f : A → DecM B) :
  safe N 0 m → (∀ a, safe N 0 (f a)) → safe N 0 (m ≫= f).
Proof. intros Hm Hf. apply (safe_bind N 0 0); [done|]. intros a. by rewrite Nat.sub_0_r. Qed.

Lemma safe_lift N (m : exec FlatDecodeError A) : terminates m = true → safe N 0 (lift m).
Proof. intros H d Hd _. unfold lift. destruct m; try done. cbn. split; [done|]. split; [done|lia]. Qed.
End Safe.

Lemma safe_adv d n : dec_ok d → (n <= length (dec_rest d))%nat →
  dec_ok (adv d n) ∧ buffer (adv d n) = buffer d ∧ (length (dec_rest (adv d n)) + n <= length (dec_rest d))%nat.
Proof.
  intros Hd Hn. destruct (adv_spec d n Hd Hn) as (? & -> & ?). split; [done|]. split; [done|].
  rewrite length_drop. lia.
Qed.

Lemma safe_bit N : safe N 1 bit.
Proof.
  intros d Hd _. rewrite bit_eq by done. pose proof (safe_adv d 1 Hd) as H.
  destruct (dec_rest d); [done|]. apply H. cbn. lia.
Qed.

Lemma safe_bits8 N n k : n = Z.of_nat k → (1 <= k <= 8)%nat → safe N k (bits8 n).
Proof.
  intros -> Hk d Hd _. rewrite (bits8_eq d _ k) by done. case_decide; [done|]. apply safe_adv; [done|lia].
Qed.

Lemma bits_fuel_enough d : dec_ok d → (length (dec_rest d) < bits_fuel d)%nat.
Proof. intros Hd. pose proof (length_dec_rest d Hd). destruct Hd. unfold bits_fuel. lia. Qed.

(** A reader whose fuel is computed from the buffer is safe whenever the
    fuelled reader is. *)
Lemma safe_bits_fuel {A} N k (m : nat → DecM A) :
  (∀ fuel, safe fuel k (m fuel)) → safe N k (λ d, m (bits_fuel d) d).
Proof. intros H d Hd _. apply H; [done|by apply bits_fuel_enough]. Qed.

Lemma safe_filler fuel : safe fuel 1 (filler fuel).
Proof.
  induction fuel as [|fuel IH]; [intros d ? ?; lia|]. cbn [filler].
  apply (safe_bind _ 1 0).
  - unfold zero. apply (safe_bind _ 1 0); [apply safe_bit|]. intros. apply safe_ret.
  - intros []; [|apply safe_ret]. eapply safe_weaken; [exact IH|lia|lia].
Qed.

Lemma safe_word_loop N fuel fw shl : 0 <= shl → 70 <= shl + 7 * Z.of_nat fuel - 7 → (0 < fuel)%nat →
  safe N 8 (word_loop fuel fw shl).
Proof.
  revert N fw shl. induction fuel as [|fuel IH]; intros N fw shl H0 Hs Hf; [lia|]. cbn [word_loop].
  apply (safe_bind _ 8 0); [by apply safe_bits8; [|lia]|]. intros w. cbv zeta.
  destruct (Z.leb_spec usize_BITS shl); [apply safe_fail|].
  apply safe_seq; [apply safe_lift|].
  { unfold usize_shl. rewrite (proj2 (Z.leb_le _ _)), (proj2 (Z.ltb_lt _ _)) by lia. done. }
  intros part. destruct (negb _); [apply safe_fail|].
  destruct (0 <? _); [|apply safe_ret]. unfold usize_BITS in *.
  eapply safe_weaken; [apply (IH (N - 8)%nat); lia|lia|lia].
Qed.

Lemma safe_word N : safe N 8 word.
Proof. apply safe_word_loop; lia. Qed.

Lemma safe_list_with {T} N (f : DecM T) fuel : safe N 0 f → (N <= fuel)%nat → safe N 1 (list_with fuel f).
Proof.
  revert N. induction fuel as [|fuel IH]; intros N Hf HN; [intros d ? ?; lia|]. cbn [list_with].
  apply (safe_bind _ 1 0); [apply safe_bit|]. intros []; [|apply safe_ret].
  assert (safe (N - 1) 0 f) by (eapply safe_weaken; [exact Hf|lia..]).
  apply safe_seq; [done|]. intros item. apply safe_seq; [|intros; apply safe_ret].
  eapply safe_weaken; [apply IH; [done|lia]|lia|lia].
Qed.

Lemma safe_big_word_loop fuel small large shift : 0 <= shift → safe fuel 8 (big_word_loop fuel small large shift).
Proof.
  revert small large shift. induction fuel as [|fuel IH]; intros small large shift Hs; [intros d ? ?; lia|].
  cbn [big_word_loop]. apply (safe_bind _ 8 0); [by apply safe_bits8; [|lia]|]. intros byte. cbv zeta.
  apply safe_seq.
  - destruct large; [apply safe_ret|]. destruct (_ && _) eqn:Hc; [|apply safe_ret]. bool_to_prop.
    apply safe_seq; [apply safe_lift|intros; apply safe_ret].
    unfold u128_shl. rewrite (proj2 (Z.leb_le _ _)), (proj2 (Z.ltb_lt _ _)) by lia. done.
  - intros [small' large']. case_bool; [apply safe_ret|].
    eapply safe_weaken; [apply IH; lia|lia|lia].
Qed.

Lemma safe_integer N : safe N 8 integer.
Proof.
  unfold integer. apply (safe_bind _ 8 0); [|intros; apply safe_ret].
  apply (safe_bits_fuel N 8 (λ fuel, big_word_loop fuel 0 None 0)).
  intros. by apply safe_big_word_loop.
Qed.

(** ** Byte-aligned reading *)

(** The bytes not read yet, when the cursor is aligned. *)
Definition dec_bytes (d : Decoder) : list Z := drop (Z.to_nat (pos d)) (buffer d).

Record aligned (d : Decoder) : Prop := {
  aligned_ok : dec_ok d;
  aligned_used : used_bits d = 0 }.

(** Moving an aligned cursor by whole bytes. *)
Definition adv_bytes (d : Decoder) (n : Z) : Decoder := mkDecoder (buffer d) (used_bits d) (pos d + n).

Lemma length_dec_bytes d : aligned d → Z.of_nat (length (dec_bytes d)) = Z.of_nat (length (buffer d)) - pos d.
Proof. intros [[Hu Hp Hl _] Hz]. unfold dec_bytes. rewrite length_drop. lia. Qed.

Lemma adv_bytes_spec d n : aligned d → 0 <= n <= Z.of_nat (length (dec_bytes d)) →
  aligned (adv_bytes d n) ∧ dec_bytes (adv_bytes d n) = drop (Z.to_nat n) (dec_bytes d) ∧
  adv_bytes d n = adv d (8 * Z.to_nat n).
Proof.
  intros Ha Hn. rewrite length_dec_bytes in Hn by done. destruct Ha as [[Hu Hp Hl Hb] Hz].
  split; [split; [split; cbn; [lia..|done]|done]|]. split.
  - unfold dec_bytes, adv_bytes; cbn. rewrite drop_drop. f_equal. lia.
  - apply adv_unique; [by split| |done|]; cbn; lia.
Qed.

Lemma aligned_rest d : aligned d → dec_rest d = bytes_bits (dec_bytes d).
Proof.
  intros [[Hu Hp Hl _] Hz]. unfold dec_rest, dec_bytes. rewrite Hz, Z.add_0_r.
  rewrite <- (take_drop (Z.to_nat (pos d)) (buffer d)) at 1. rewrite bytes_bits_app.
  apply drop_app_length'. rewrite length_bytes_bits, length_take. lia.
Qed.

Lemma next_byte_eq d b l : aligned d → dec_bytes d = b :: l → next_byte d = Ok (b, adv_bytes d 1).
Proof.
  intros Ha Hd. unfold next_byte, advance. dec_unfold.
  assert (index (buffer d) (pos d) = Ok b) as ->; [|done].
  unfold index. destruct Ha as [[_ Hp _ _] _]. rewrite (proj2 (Z.ltb_ge _ _)) by lia.
  assert (dec_bytes d !! 0%nat = Some b) as Hb by (by rewrite Hd).
  unfold dec_bytes in Hb. rewrite lookup_drop, Nat.add_0_r in Hb. by rewrite Hb.
Qed.

Lemma ensure_bytes_eq d n : aligned d →
  ensure_bytes n d = if Z.of_nat (length (dec_bytes d)) <? n then Err (NotEnoughBytes n) else Ok ((), d).
Proof.
  intros Ha. unfold ensure_bytes. rewrite length_dec_bytes by done. destruct Ha as [[Hu Hp Hl _] Hz].
  by rewrite (proj2 (Z.ltb_ge _ (pos d))) by lia.
Qed.

Lemma slice_eq d n : aligned d → 0 <= n <= Z.of_nat (length (dec_bytes d)) →
  slice (buffer d) (pos d) (pos d + n) = Ok (take (Z.to_nat n) (dec_bytes d)).
Proof.
  intros Ha Hn. rewrite length_dec_bytes in Hn by done. unfold slice.
  rewrite (proj2 (Z.leb_le _ _)), (proj2 (Z.leb_le _ _)) by lia. cbn [andb].
  unfold dec_bytes. do 2 f_equal. lia.
Qed.

(** One turn of the block loop. *)
Lemma byte_array_loop_step fuel n acc d : aligned d → 0 < n →
  byte_array_loop (S fuel) n acc d =
  if Z.of_nat (length (dec_bytes d)) <? n + 1 then Err (NotEnoughBytes (n + 1))
  else (blk_len ← next_byte; byte_array_loop fuel blk_len (acc ++ take (Z.to_nat n) (dec_bytes d)))
         (adv_bytes d n).
Proof.
  intros Ha Hn. cbn [byte_array_loop]. rewrite (proj2 (Z.eqb_neq n 0)) by lia.
  unfold mbind at 1, DecM_bind at 1. rewrite ensure_bytes_eq by done.
  destruct (Z.ltb_spec (Z.of_nat (length (dec_bytes d))) (n + 1)); [done|].
  unfold mbind at 1, DecM_bind at 1. unfold get.
  unfold mbind at 1, DecM_bind at 1. unfold lift. rewrite slice_eq by (done || lia). done.
Qed.

Lemma dec_bytes_cons d : aligned d → 0 < Z.of_nat (length (dec_bytes d)) →
  ∃ b l, dec_bytes d = b :: l ∧ is_byte b.
Proof.
  intros [Hok _] Hl. destruct (dec_bytes d) as [|b l] eqn:Hd; [cbn in Hl; lia|]. exists b, l. split; [done|].
  assert (Forall is_byte (dec_bytes d)) as Hf by (apply Forall_drop, Hok). rewrite Hd in Hf. by inversion Hf.
Qed.

Lemma safe_byte_array_loop fuel n acc d : aligned d → 0 <= n → (length (dec_bytes d) < fuel)%nat →
  match byte_array_loop fuel n acc d with
  | Ok (_, d') => dec_ok d' ∧ buffer d' = buffer d ∧ (length (dec_rest d') <= length (dec_rest d))%nat
  | Err _ => True
  | Panic | OutOfFuel => False
  end.
Proof.
  revert n acc d. induction fuel as [|fuel IH]; intros n acc d Ha Hn Hf; [lia|].
  destruct (decide (n = 0)) as [->|]; [cbn; split; [apply Ha|by split]|].
  rewrite byte_array_loop_step by (done || lia).
  destruct (Z.ltb_spec (Z.of_nat (length (dec_bytes d))) (n + 1)); [done|].
  destruct (adv_bytes_spec d n Ha ltac:(lia)) as (Ha1 & Hb1 & _).
  assert (length (dec_bytes (adv_bytes d n)) = (length (dec_bytes d) - Z.to_nat n)%nat) as Hl1
    by (by rewrite Hb1, length_drop).
  destruct (dec_bytes_cons _ Ha1 ltac:(lia)) as (b & l & Hd1 & Hb).
  unfold mbind, DecM_bind. rewrite (next_byte_eq _ b l) by done.
  destruct (adv_bytes_spec (adv_bytes d n) 1 Ha1 ltac:(lia)) as (Ha2 & Hb2 & _).
  assert (length (dec_bytes (adv_bytes (adv_bytes d n) 1)) = (length (dec_bytes d) - Z.to_nat n - 1)%nat) as Hl2
    by (by rewrite Hb2, length_drop, Hl1).
  unfold is_byte in Hb. specialize (IH b (acc ++ take (Z.to_nat n) (dec_bytes d)) _ Ha2 ltac:(lia) ltac:(lia)).
  destruct (byte_array_loop fuel b _ _) as [[r d']| | |]; try done.
  destruct IH as (? & ? & Hle). split; [done|]. split; [done|].
  etransitivity; [exact Hle|]. rewrite !aligned_rest, !length_bytes_bits by done. lia.
Qed.

Lemma safe_byte_array N : safe N 0 byte_array.
Proof.
  intros d Hd _. unfold byte_array. unfold mbind at 1, DecM_bind at 1. unfold get.
  destruct (Z.eqb_spec (used_bits d) 0) as [Hz|]; cbn [negb]; [|done].
  assert (aligned d) as Ha by (by split).
  unfold mbind, DecM_bind. rewrite ensure_bytes_eq by done.
  destruct (Z.ltb_spec (Z.of_nat (length (dec_bytes d))) 1); [done|].
  destruct (dec_bytes_cons _ Ha ltac:(lia)) as (b & l & Hd1 & Hb). rewrite (next_byte_eq _ b l) by done.
  destruct (adv_bytes_spec d 1 Ha ltac:(lia)) as (Ha1 & Hb1 & _).
  assert (length (dec_bytes (adv_bytes d 1)) = (length (dec_bytes d) - 1)%nat) as Hl1
    by (by rewrite Hb1, length_drop).
  assert (length (dec_bytes d) < bits_fuel d)%nat.
  { pose proof (length_dec_bytes d Ha). destruct Hd. unfold bits_fuel. lia. }
  pose proof (safe_byte_array_loop (bits_fuel d) b [] _ Ha1 ltac:(unfold is_byte in Hb; lia) ltac:(lia)) as H'.
  destruct (byte_array_loop _ b _ _) as [[r d']| | |]; try done.
  destruct H' as (? & ? & Hle). split; [done|]. split; [done|].
  rewrite (aligned_rest (adv_bytes d 1)), length_bytes_bits in Hle by done.
  rewrite (aligned_rest d), length_bytes_bits by done. lia.
Qed.

Lemma safe_bytes N : safe N 1 bytes.
Proof.
  apply (safe_bits_fuel N 1 (λ fuel, _ ← filler fuel; byte_array)). intros fuel.
  apply (safe_bind _ 1 0); [apply safe_filler|]. intros. apply safe_byte_array.
Qed.

Lemma safe_utf8 N : safe N 1 utf8.
Proof.
  apply (safe_bind _ 1 0); [apply safe_bytes|]. intros b. destruct (utf8_valid b); [apply safe_ret|apply safe_fail].
Qed.

(** ** What readers read

    [Reads N u bs m v]: from a cursor of alignment [u] whose unread bits start
    with [bs] (and are fewer than [N]), [m] returns [v] and consumes exactly
    [bs]. *)
Definition Reads {A} (N : nat) (u : Z) (bs : list bool) (m : DecM A) (v : A) : Prop :=
  ∀ d post, dec_ok d → used_bits d = u → dec_rest d = bs ++ post → (length (dec_rest d) < N)%nat →
    m d = Ok (v, adv d (length bs)).

Lemma Reads_weaken {A} N N' u bs (m : DecM A) v : Reads N u bs m v → (N' <= N)%nat → Reads N' u bs m v.
Proof. intros H HN d post Hd Hu Hr Hl. eapply H; [done..|lia]. Qed.

Lemma adv_after d bs post : dec_ok d → dec_rest d = bs ++ post →
  dec_ok (adv d (length bs)) ∧ dec_rest (adv d (length bs)) = post ∧
  used_bits (adv d (length bs)) = (used_bits d + Z.of_nat (length bs)) mod 8.
Proof.
  intros Hd Hr. destruct (adv_spec d (length bs) Hd) as (Hd' & Hr' & _).
  { rewrite Hr, length_app. lia. }
  split; [done|]. split; [by rewrite Hr', Hr, drop_app_length|].
  cbn. rewrite Z.mul_comm, <- Z.add_assoc, Z.add_comm, Z.mod_add by lia. done.
Qed.

Lemma Reads_ret {A} N u (v : A) : Reads N u [] (mret v) v.
Proof. intros d post Hd Hu Hr Hl. cbn. by rewrite adv_0. Qed.

Lemma Reads_bind {A B} N u b1 b2 (m : DecM A) (f : A → DecM B) v w :
  Reads N u b1 m v → Reads (N - length b1) ((u + Z.of_nat (length b1)) mod 8) b2 (f v) w →
  Reads N u (b1 ++ b2) (m ≫= f) w.
Proof.
  intros Hm Hf d post Hd Hu Hr Hl. rewrite <- app_assoc in Hr.
  unfold mbind, DecM_bind. rewrite (Hm d (b2 ++ post)) by done.
  destruct (adv_after d b1 (b2 ++ post) Hd Hr) as (Hd1 & Hr1 & Hu1).
  rewrite (Hf (adv d (length b1)) post); [|done|by rewrite Hu1, Hu|done|].
  - by rewrite adv_adv, length_app by done.
  - rewrite Hr1. rewrite Hr in Hl. rewrite !length_app in *. lia.
Qed.

Lemma Reads_bits_fuel {A} N u bs (m : nat → DecM A) v :
  (∀ fuel, Reads fuel u bs (m fuel) v) → Reads N u bs (λ d, m (bits_fuel d) d) v.
Proof. intros H d post Hd Hu Hr _. eapply H; [done..|]. by apply bits_fuel_enough. Qed.

Lemma Reads_bit N u b : Reads N u [b] bit b.
Proof. intros d post Hd Hu Hr _. rewrite bit_eq, Hr by done. done. Qed.

Lemma Reads_bits8 N u K k v : K = Z.of_nat k → (1 <= k <= 8)%nat → 0 <= v < 2 ^ Z.of_nat k →
  Reads N u (val_bits k v) (bits8 K) v.
Proof.
  intros -> Hk Hv d post Hd Hu Hr _. rewrite (bits8_eq d _ k) by done. rewrite Hr, length_val_bits.
  rewrite decide_False by (rewrite length_app, length_val_bits; lia).
  rewrite take_app_length' by (by rewrite length_val_bits). by rewrite bits_val_val_bits.
Qed.

Lemma val_bits_1 k : val_bits (S k) 1 = replicate k false ++ [true].
Proof.
  induction k as [|k IH]; [done|].
  change (val_bits (S (S k)) 1) with (Z.testbit 1 (Z.of_nat (S k)) :: val_bits (S k) 1).
  rewrite IH. cbn [replicate app]. done.
Qed.

Lemma Reads_zero N u b : Reads N u [b] zero (negb b).
Proof. apply (Reads_bind N u [b] [] bit _ b); [apply Reads_bit|apply Reads_ret]. Qed.

Lemma Reads_filler N fuel u : 0 <= u < 8 → (N <= fuel)%nat →
  Reads N u (val_bits (Z.to_nat (8 - u)) 1) (filler fuel) ().
Proof.
  intros Hu. replace (Z.to_nat (8 - u)) with (S (Z.to_nat (7 - u))) by lia. rewrite val_bits_1.
  generalize (Z.to_nat (7 - u)); intros k. clear Hu. revert N fuel u.
  induction k as [|k IH]; intros N fuel u HN; (destruct fuel as [|fuel]; [intros d post ? ? ? ?; lia|]);
    cbn [filler].
  - apply (Reads_bind N u [true] [] zero _ false); [apply (Reads_zero N u true)|apply Reads_ret].
  - apply (Reads_bind N u [false] (replicate k false ++ [true]) zero _ true); [apply (Reads_zero N u false)|].
    apply IH. cbn. lia.
Qed.

(** ** Words *)

Lemma leb_bytes fuel d : 0 <= d → Forall is_byte (FlatEncoder.leb fuel d).
Proof.
  revert d. induction fuel as [|fuel IH]; intros d Hd; cbn; [constructor|].
  pose proof (Z.mod_pos_bound d 128 ltac:(lia)).
  case_bool; repeat constructor; try lia. apply IH, Z.div_pos; lia.
Qed.

(** Seven payload bits and the continuation bit of a byte of a word. *)
Lemma word_byte_parts w c : 0 <= w < 128 →
  Z.land (w + (if c : bool then 128 else 0)) 127 = w ∧
  Z.land (w + (if c then 128 else 0)) 128 = if c then 128 else 0.
Proof.
  intros Hw. rewrite land_127, land_128 by (unfold is_byte; destruct c; lia). split.
  - destruct c; [|rewrite Z.add_0_r, Z.mod_small; lia].
    replace (w + 128) with (w + 1 * 128) by lia. rewrite Z.mod_add, Z.mod_small; lia.
  - destruct c; case_bool; lia.
Qed.

Lemma leb_cons fuel d : FlatEncoder.leb (S fuel) d =
  if d / 128 =? 0 then [d mod 128 + (if false then 128 else 0)]
  else (d mod 128 + (if true then 128 else 0)) :: FlatEncoder.leb fuel (d / 128).
Proof. cbn [FlatEncoder.leb]. by rewrite Z.add_0_r. Qed.

(** Accumulating seven more bits. *)
Lemma word_acc fw d shl : 0 <= shl → 0 <= fw < 2 ^ shl → 0 <= d →
  Z.lor fw (d mod 128 * 2 ^ shl) = fw + d mod 128 * 2 ^ shl ∧
  0 <= fw + d mod 128 * 2 ^ shl < 2 ^ (shl + 7) ∧
  (fw + d mod 128 * 2 ^ shl) + d / 128 * 2 ^ (shl + 7) = fw + d * 2 ^ shl ∧
  d mod 128 * 2 ^ shl <= d * 2 ^ shl.
Proof.
  intros Hs Hf Hd. pose proof (Z.mod_pos_bound d 128 ltac:(lia)).
  pose proof (Z.div_mod d 128 ltac:(lia)). pose proof (Z.div_pos d 128 Hd ltac:(lia)).
  rewrite Z.lor_comm, lor_add by lia. rewrite Z.pow_add_r by lia. change (2 ^ 7) with 128. nia.
Qed.

Lemma Reads_word_loop N u f d fw shl fuel :
  0 <= d < 2 ^ (7 * Z.of_nat f) → (0 < f)%nat → 0 <= shl < 64 → 0 <= fw < 2 ^ shl →
  d * 2 ^ shl < 2 ^ 64 → 77 <= shl + 7 * Z.of_nat fuel →
  Reads N u (bytes_bits (FlatEncoder.leb f d)) (word_loop fuel fw shl) (fw + d * 2 ^ shl).
Proof.
  revert N u d fw shl fuel. induction f as [|f IH]; intros N u d fw shl fuel Hd Hf Hs Hfw Hmax Hfuel; [lia|].
  destruct fuel as [|fuel]; [lia|]. rewrite leb_cons. cbn [word_loop].
  pose proof (Z.mod_pos_bound d 128 ltac:(lia)) as Hm.
  destruct (word_acc fw d shl ltac:(lia) Hfw ltac:(lia)) as (Hlor & Hb & Hsum & Hle).
  assert (0 < 2 ^ shl) by (apply Z.pow_pos_nonneg; lia).
  assert (usize_shl (d mod 128) shl = Ok (d mod 128 * 2 ^ shl)) as Hshl.
  { unfold usize_shl, usize_BITS. rewrite (proj2 (Z.leb_le _ _)), (proj2 (Z.ltb_lt _ _)) by lia.
    cbn [andb]. rewrite Z.shiftl_mul_pow2, Z.mod_small by nia. done. }
  assert (∀ c : bool, let w := d mod 128 + (if c then 128 else 0) in
    ∀ N u b2 r, (if c then Reads (N - 8) ((u + 8) mod 8) b2 (word_loop fuel (fw + d mod 128 * 2 ^ shl) (shl + 7)) r
                 else b2 = [] ∧ r = fw + d mod 128 * 2 ^ shl) →
      Reads N u (byte_bits w ++ b2) (word_loop (S fuel) fw shl) r) as Hstep.
  { clear N u. intros c w N u b2 r Hr. cbn [word_loop].
    destruct (word_byte_parts (d mod 128) c Hm) as [H7 H128].
    apply Reads_bind with w; [by apply Reads_bits8; [|lia|cbn; destruct c; lia]|].
    unfold w. cbv zeta. rewrite H7, H128. unfold byte_bits. rewrite length_val_bits.
    rewrite (proj2 (Z.leb_gt usize_BITS shl)) by (unfold usize_BITS; lia).
    intros d' post Hd' Hu' Hr' Hl'. unfold mbind, DecM_bind, lift. rewrite Hshl. cbn [mbind exec_bind].
    rewrite Z.shiftr_div_pow2, Z.div_mul, Z.eqb_refl, Hlor by lia. cbn [negb].
    destruct c; [by eapply Hr|]. destruct Hr as [-> ->]. cbn. by rewrite adv_0. }
  destruct (Z.eqb_spec (d / 128) 0) as [Hz|Hnz].
  - apply (Hstep false). split; [done|]. rewrite Hz in Hsum. lia.
  - apply (Hstep true). rewrite <- Hsum. pose proof (Z.div_pos d 128 ltac:(lia) ltac:(lia)).
    assert (d / 128 * 2 ^ (shl + 7) < 2 ^ 64) as Hlt.
    { assert (0 <= d mod 128 * 2 ^ shl) by nia. lia. }
    assert (d / 128 < 2 ^ (7 * Z.of_nat f)) as Hdf.
    { apply Z.div_lt_upper_bound; [lia|]. change 128 with (2 ^ 7). rewrite <- Z.pow_add_r by lia.
      replace (7 + 7 * Z.of_nat f) with (7 * Z.of_nat (S f)) by lia. lia. }
    assert (shl + 7 < 64).
    { apply (Z.pow_lt_mono_r_iff 2); [lia..|]. assert (0 < 2 ^ (shl + 7)) by (apply Z.pow_pos_nonneg; lia). nia. }
    apply IH; [lia| |lia|lia|done|lia]. destruct f; [cbn in Hdf; lia|lia].
Qed.

Lemma Reads_word N u c : 0 <= c <= usize_max →
  Reads N u (bytes_bits (FlatEncoder.leb (FlatEncoder.word_fuel c) c)) word c.
Proof.
  intros Hc. unfold usize_max, u64_max in Hc. unfold word.
  enough (Reads N u (bytes_bits (FlatEncoder.leb (FlatEncoder.word_fuel c) c)) (word_loop 11 0 0) (0 + c * 2 ^ 0)) as H
    by (by replace (0 + c * 2 ^ 0) with c in H by lia).
  apply Reads_word_loop; try lia; [|unfold FlatEncoder.word_fuel; lia].
  split; [lia|]. apply FlatEncoder.word_fuel_enough. lia.
Qed.

(** The accumulator of [big_word]: [small] until a chunk does not fit [u128]. *)
Lemma Reads_big_word_loop N u f d small large shift fuel :
  0 <= d < 2 ^ (7 * Z.of_nat f) → (0 < f)%nat → 0 <= shift → 0 <= default small large < 2 ^ shift →
  (N <= fuel)%nat →
  Reads N u (bytes_bits (FlatEncoder.leb f d)) (big_word_loop fuel small large shift)
    (default small large + d * 2 ^ shift).
Proof.
  revert N u d small large shift fuel.
  induction f as [|f IH]; intros N u d small large shift fuel Hd Hf Hs Hacc HN; [lia|].
  destruct fuel as [|fuel]; [intros d' post ? ? ? ?; lia|]. rewrite leb_cons.
  pose proof (Z.mod_pos_bound d 128 ltac:(lia)) as Hm.
  set (acc := default small large) in *.
  destruct (word_acc acc d shift Hs Hacc ltac:(lia)) as (Hlor & Hb & Hsum & Hle).
  assert (0 < 2 ^ shift) by (apply Z.pow_pos_nonneg; lia).
  assert (∀ c : bool, let w := d mod 128 + (if c then 128 else 0) in
    ∀ N u b2 r,
      (∀ small' large', default small' large' = acc + d mod 128 * 2 ^ shift →
        if c then Reads (N - 8) ((u + 8) mod 8) b2 (big_word_loop fuel small' large' (shift + 7)) r
        else b2 = [] ∧ r = acc + d mod 128 * 2 ^ shift) →
      Reads N u (byte_bits w ++ b2) (big_word_loop (S fuel) small large shift) r) as Hstep.
  { clear N u HN. intros c w N u b2 r Hr. cbn [big_word_loop].
    destruct (word_byte_parts (d mod 128) c Hm) as [H7 H128].
    apply Reads_bind with w; [by apply Reads_bits8; [|lia|cbn; destruct c; lia]|].
    unfold w. cbv zeta. rewrite H7, H128. unfold byte_bits. rewrite length_val_bits.
    intros d' post Hd' Hu' Hr' Hl'. unfold mbind at 1, DecM_bind at 1.
    match goal with |- match ?st d' with _ => _ end = _ =>
      assert (∃ small' large', st d' = Ok ((small', large'), d') ∧
              default small' large' = acc + d mod 128 * 2 ^ shift) as (small' & large' & -> & Hacc')
    end.
    { destruct large as [word|].
      - eexists _, _. split; [done|]. cbn. rewrite Z.shiftl_mul_pow2 by lia. apply Hlor.
      - destruct (_ && _) eqn:Hc.
        + bool_to_prop. rewrite Z.shiftr_div_pow2 in * by lia.
          assert (d mod 128 * 2 ^ shift < 2 ^ 128).
          { assert (u128_max / 2 ^ shift * 2 ^ shift <= u128_max) by (apply div_bounds; [lia|done]).
            unfold u128_max in *. nia. }
          unfold mbind, DecM_bind, lift, u128_shl.
          rewrite (proj2 (Z.leb_le _ _)), (proj2 (Z.ltb_lt _ _)) by lia. cbn [andb mbind exec_bind].
          eexists _, _. split; [done|]. cbn. rewrite Z.shiftl_mul_pow2, Z.mod_small by nia. apply Hlor.
        + eexists _, _. split; [done|]. cbn. rewrite Z.shiftl_mul_pow2 by lia. apply Hlor. }
    specialize (Hr small' large' Hacc'). destruct c; cbn [Z.eqb].
    - by eapply Hr.
    - destruct Hr as [-> ->]. cbn. by rewrite Hacc', adv_0. }
  destruct (Z.eqb_spec (d / 128) 0) as [Hz|Hnz].
  - apply (Hstep false). intros _ _ _. split; [done|]. rewrite Hz in Hsum. lia.
  - apply (Hstep true). intros small' large' Hacc'. rewrite <- Hsum, <- Hacc'.
    pose proof (Z.div_pos d 128 ltac:(lia) ltac:(lia)).
    assert (d / 128 < 2 ^ (7 * Z.of_nat f)) as Hdf.
    { apply Z.div_lt_upper_bound; [lia|]. change 128 with (2 ^ 7). rewrite <- Z.pow_add_r by lia.
      replace (7 + 7 * Z.of_nat f) with (7 * Z.of_nat (S f)) by lia. lia. }
    apply IH; [lia| |lia|by rewrite Hacc'|lia]. destruct f; [cbn in Hdf; lia|lia].
Qed.

Lemma Reads_big_word N u c : 0 <= c →
  Reads N u (bytes_bits (FlatEncoder.leb (FlatEncoder.word_fuel c) c)) big_word c.
Proof.
  intros Hc. apply (Reads_bits_fuel N u _ (λ fuel, big_word_loop fuel 0 None 0)). intros fuel.
  enough (Reads fuel u (bytes_bits (FlatEncoder.leb (FlatEncoder.word_fuel c) c))
            (big_word_loop fuel 0 None 0) (default 0 (@None Z) + c * 2 ^ 0)) as H
    by (by replace (default 0 (@None Z) + c * 2 ^ 0) with c in H by (cbn; lia)).
  apply Reads_big_word_loop; try lia; [|unfold FlatEncoder.word_fuel; lia|done].
  split; [lia|]. apply FlatEncoder.word_fuel_enough. lia.
Qed.

(** ** Byte arrays *)

Lemma byte_bits_inj a b : is_byte a → is_byte b → byte_bits a = byte_bits b → a = b.
Proof. apply (val_bits_inj 8). Qed.

(** A byte buffer whose bits start with the bits of some bytes starts with them. *)
Lemma bytes_bits_prefix l l1 post : Forall is_byte l → Forall is_byte l1 →
  bytes_bits l = bytes_bits l1 ++ post → ∃ l2, l = l1 ++ l2.
Proof.
  intros Hl Hl1. revert l Hl. induction Hl1 as [|b l1 Hb _ IH]; intros l Hl Heq; [by exists l|].
  rewrite bytes_bits_cons, <- app_assoc in Heq. destruct Hl as [|a l Ha Hl].
  - apply (f_equal length) in Heq. rewrite !length_app in Heq. cbn in Heq. lia.
  - rewrite bytes_bits_cons in Heq. apply app_inj_1 in Heq as [Hab Heq]; [|done].
    apply byte_bits_inj in Hab as ->; [|done..]. apply IH in Heq as [l2 ->]; [|done]. by exists l2.
Qed.

Lemma read_blocks fuel cs acc d rest : aligned d →
  Forall (λ c, (0 < length c <= 255)%nat) cs →
  dec_bytes d = ((cs ≫= λ c, Z.of_nat (length c) :: c) ++ [0]) ++ rest →
  (length cs < fuel)%nat →
  (blk_len ← next_byte; byte_array_loop fuel blk_len acc) d
  = Ok (acc ++ mjoin cs, adv d (8 * length ((cs ≫= λ c, Z.of_nat (length c) :: c) ++ [0]))).
Proof.
  intros Ha Hcs. revert fuel acc d Ha. induction Hcs as [|c cs [Hc1 Hc2] Hcs IH]; intros fuel acc d Ha Hd Hf.
  - destruct fuel as [|fuel]; [cbn in Hf; lia|]. unfold mbind at 1, DecM_bind at 1.
    rewrite (next_byte_eq d 0 rest) by done. cbn. rewrite app_nil_r.
    destruct (adv_bytes_spec d 1 Ha) as (_ & _ & ->); [rewrite Hd; cbn; lia|]. done.
  - destruct fuel as [|fuel]; [lia|]. cbn in Hd. rewrite <- !app_assoc in Hd. cbn in Hf.
    set (tail := cs ≫= λ c, Z.of_nat (length c) :: c) in *.
    unfold mbind at 1, DecM_bind at 1. rewrite (next_byte_eq d _ _ Ha Hd).
    destruct (adv_bytes_spec d 1 Ha) as (Ha1 & Hd1 & He1); [rewrite Hd; cbn; lia|].
    rewrite Hd in Hd1. change (Z.to_nat 1) with 1%nat in Hd1. rewrite skipn_cons, drop_0 in Hd1.
    rewrite byte_array_loop_step by (done || lia). rewrite Hd1.
    rewrite (proj2 (Z.ltb_ge _ _)) by (rewrite !length_app; cbn [length]; lia).
    rewrite Nat2Z.id, take_app_length.
    destruct (adv_bytes_spec (adv_bytes d 1) (Z.of_nat (length c)) Ha1) as (Ha2 & Hd2 & He2).
    { rewrite Hd1, length_app. lia. }
    rewrite Hd1, Nat2Z.id, drop_app_length in Hd2.
    rewrite (IH fuel (acc ++ c) (adv_bytes (adv_bytes d 1) (Z.of_nat (length c)))); [|done| |lia].
    + cbn [mjoin list_join]. rewrite app_assoc. do 2 f_equal.
      rewrite He2, adv_adv by apply Ha1. rewrite He1, adv_adv by apply Ha. f_equal.
      rewrite bind_cons, <- app_assoc. fold tail. rewrite !length_app. cbn [length]. lia.
    + rewrite Hd2. by rewrite <- app_assoc.
Qed.

Lemma length_framed (cs : list (list Z)) :
  (length cs <= length (cs ≫= λ c, Z.of_nat (length c) :: c))%nat.
Proof. induction cs as [|c cs IH]; [done|]. rewrite bind_cons, length_app. cbn. lia. Qed.

Lemma Reads_byte_array N arr : Forall is_byte arr →
  Reads N 0 (bytes_bits (FlatEncoder.blocks arr)) byte_array arr.
Proof.
  intros Harr d post Hd Hu Hr _. assert (aligned d) as Ha by (by split).
  destruct (FlatEncoder.chunks_spec arr Harr) as [Hcs Hjoin].
  rewrite aligned_rest in Hr by done.
  apply bytes_bits_prefix in Hr as [rest Hrest];
    [|apply Forall_drop, Hd|by apply FlatEncoder.blocks_bytes].
  unfold byte_array. unfold mbind at 1, DecM_bind at 1. unfold get. rewrite Hu. cbn [Z.eqb negb].
  unfold mbind at 1, DecM_bind at 1. rewrite ensure_bytes_eq by done.
  rewrite (proj2 (Z.ltb_ge _ _)).
  2: { rewrite Hrest. unfold FlatEncoder.blocks. rewrite !length_app. cbn [length]. lia. }
  rewrite (read_blocks _ (FlatEncoder.chunks 255 arr) [] d rest Ha).
  - by rewrite Hjoin, length_bytes_bits.
  - eapply Forall_impl; [exact Hcs|]. by intros c [? _].
  - done.
  - apply (f_equal length) in Hrest. unfold FlatEncoder.blocks in Hrest.
    rewrite !length_app in Hrest. cbn [length] in Hrest.
    pose proof (length_framed (FlatEncoder.chunks 255 arr)).
    pose proof (length_dec_bytes d Ha). destruct Hd. unfold bits_fuel. lia.
Qed.

Lemma Reads_bytes N u arr : 0 <= u < 8 → Forall is_byte arr →
  Reads N u (val_bits (Z.to_nat (8 - u)) 1 ++ bytes_bits (FlatEncoder.blocks arr)) bytes arr.
Proof.
  intros Hu Harr. apply (Reads_bits_fuel N u _ (λ fuel, _ ← filler fuel; byte_array)). intros fuel.
  apply Reads_bind with (); [by apply Reads_filler|].
  rewrite length_val_bits, Z2Nat.id by lia.
  replace ((u + (8 - u)) mod 8) with 0 by (by replace (u + (8 - u)) with 8 by lia).
  by apply Reads_byte_array.
Qed.
