(* ===== verification/Flat.v ===== *)
(** * The flat codec of programs

    Models [amaru-uplc/src/flat/encode/mod.rs], [flat/decode/mod.rs], the
    [Ctx] of [flat/decode/decoder.rs] and the codec of [binder/debruijn.rs]:
    terms, constants with their type headers, ledger values and whole programs,
    on top of the bit-level encoder and decoder.

    The CBOR payload of a [Data] constant is written and read by the minicbor
    codec; it is an interface here ([DataCodec]), with its round trip as a law. *)

From S2P Require Import Prelude FlatBits UplcSyntax SortedAssoc LedgerValue.
From S2P Require FlatEncoder FlatDecoder.
Import FlatEncoder(FlatEncodeError, Encoder, enc_ok, Writes, VAR, DELAY, LAMBDA, APPLY, CONSTANT,
  FORCE, ERROR, BUILTIN, CONSTR, CASE, INTEGER, BYTE_STRING, STRING, UNIT, BOOL, DATA, VALUE,
  BLS12_381_G1_ELEMENT, BLS12_381_G2_ELEMENT, BLS12_381_ML_RESULT,
  PROTO_LIST_ONE, PROTO_LIST_TWO, PROTO_ARRAY_ONE, PROTO_ARRAY_TWO,
  PROTO_PAIR_ONE, PROTO_PAIR_TWO, PROTO_PAIR_THREE,
  TERM_TAG_WIDTH, CONST_TAG_WIDTH, BUILTIN_TAG_WIDTH).
Import FlatDecoder(FlatDecodeError, Decoder, DecM, DecM_ret, DecM_bind, dec_ok, safe, Reads).

(** ** Codec of data *)
Class DataCodec := {
  encode_data : PlutusData → exec FlatEncodeError (list Z);
  decode_data : list Z → exec FlatDecodeError PlutusData }.

(** What the codec of data promises: it returns on every input, writes bytes,
    and reads back what it wrote. *)
Class DataCodecLaws (C : DataCodec) : Prop := {
  encode_data_terminates d : terminates (encode_data d) = true;
  decode_data_terminates bs : terminates (decode_data bs) = true;
  encode_data_bytes d bs : encode_data d = Ok bs → Forall is_byte bs;
  decode_encode_data d bs : encode_data d = Ok bs → decode_data bs = Ok d }.

(** ** Encoding *)

Section Encode.
Context `{DataCodec}.

Definition encode_term_tag (tag : Z) (e : Encoder) : exec FlatEncodeError Encoder :=
  FlatEncoder.safe_encode_bits TERM_TAG_WIDTH tag e.

Definition encode_constant_tag (e : Encoder) (tag : Z) : exec FlatEncodeError Encoder :=
  FlatEncoder.safe_encode_bits CONST_TAG_WIDTH tag e.

(** The tags pushed on [bytes]. *)
Fixpoint encode_type (typ : Typ) (bytes : list Z) : exec FlatEncodeError (list Z) :=
  match typ with
  | TyInteger => Ok (bytes ++ [INTEGER])
  | TyByteString => Ok (bytes ++ [BYTE_STRING])
  | TyString => Ok (bytes ++ [STRING])
  | TyUnit => Ok (bytes ++ [UNIT])
  | TyBool => Ok (bytes ++ [BOOL])
  | TyList sub_typ => encode_type sub_typ (bytes ++ [PROTO_LIST_ONE; PROTO_LIST_TWO])
  | TyArray sub_typ => encode_type sub_typ (bytes ++ [PROTO_ARRAY_ONE; PROTO_ARRAY_TWO])
  | TyPair type1 type2 =>
      bytes ← encode_type type1 (bytes ++ [PROTO_PAIR_ONE; PROTO_PAIR_TWO; PROTO_PAIR_THREE]);
      encode_type type2 bytes
  | TyData => Ok (bytes ++ [DATA])
  | TyValue => Ok (bytes ++ [VALUE])
  | TyBls12_381G1Element | TyBls12_381G2Element | TyBls12_381MlResult =>
      Err FlatEncoder.BlsElementNotSupported
  end.

Definition encode_data_constant (data : PlutusData) (e : Encoder) : exec FlatEncodeError Encoder :=
  cbor ← encode_data data;
  FlatEncoder.bytes cbor e.

(** [encode_value]: a list of currencies, each with a list of tokens. *)
Definition encode_token (e : Encoder) (t : TokenEntry) : exec FlatEncodeError Encoder :=
  e ← FlatEncoder.bytes (token_name t) e;
  FlatEncoder.integer (quantity t) e.
Definition encode_currency (e : Encoder) (entry : CurrencyEntry) : exec FlatEncodeError Encoder :=
  e ← FlatEncoder.bytes (currency entry) e;
  FlatEncoder.list_with encode_token (tokens entry) e.
Definition encode_value (v : LedgerValue) (e : Encoder) : exec FlatEncodeError Encoder :=
  FlatEncoder.list_with encode_currency (entries v) e.

Fixpoint encode_constant_value (x : Constant) (e : Encoder) : exec FlatEncodeError Encoder :=
  match x with
  | ConInteger x => FlatEncoder.integer x e
  | ConByteString b => FlatEncoder.bytes b e
  | ConString s => FlatEncoder.utf8 s e
  | ConUnit => Ok e
  | ConBoolean b => Ok (FlatEncoder.enc_bool e b)
  | ConProtoList _ list => FlatEncoder.list_with (λ e x, encode_constant_value x e) list e
  | ConProtoArray _ array => FlatEncoder.list_with (λ e x, encode_constant_value x e) array e
  | ConProtoPair _ _ a b => e ← encode_constant_value a e; encode_constant_value b e
  | ConData data => encode_data_constant data e
  | ConValue v => encode_value v e
  | ConBls12_381G1Element _ | ConBls12_381G2Element _ | ConBls12_381MlResult _ =>
      Err FlatEncoder.BlsElementNotSupported
  end.

Definition encode_constant_list (l : list Constant) (e : Encoder) : exec FlatEncodeError Encoder :=
  FlatEncoder.list_with (λ e x, encode_constant_value x e) l e.

(** [e.list_with(tags, encode_constant_tag)]. *)
Definition encode_tags (tags : list Z) (e : Encoder) : exec FlatEncodeError Encoder :=
  FlatEncoder.list_with encode_constant_tag tags e.

Definition encode_constant (constant : Constant) (e : Encoder) : exec FlatEncodeError Encoder :=
  match constant with
  | ConInteger i => e ← encode_tags [INTEGER] e; FlatEncoder.integer i e
  | ConByteString b => e ← encode_tags [BYTE_STRING] e; FlatEncoder.bytes b e
  | ConString s => e ← encode_tags [STRING] e; FlatEncoder.utf8 s e
  | ConUnit => encode_tags [UNIT] e
  | ConBoolean b => e ← encode_tags [BOOL] e; Ok (FlatEncoder.enc_bool e b)
  | ConData data => e ← encode_tags [DATA] e; encode_data_constant data e
  | ConProtoList typ list =>
      type_encodings ← encode_type typ [PROTO_LIST_ONE; PROTO_LIST_TWO];
      e ← encode_tags type_encodings e;
      encode_constant_list list e
  | ConProtoArray typ array =>
      type_encodings ← encode_type typ [PROTO_ARRAY_ONE; PROTO_ARRAY_TWO];
      e ← encode_tags type_encodings e;
      FlatEncoder.list_with (λ e x, encode_constant_value x e) array e
  | ConProtoPair fst_type snd_type fst snd =>
      type_encodings ← encode_type fst_type [PROTO_PAIR_ONE; PROTO_PAIR_TWO; PROTO_PAIR_THREE];
      type_encodings ← encode_type snd_type type_encodings;
      e ← encode_tags type_encodings e;
      e ← encode_constant_value fst e;
      encode_constant_value snd e
  | ConValue v => e ← encode_tags [VALUE] e; encode_value v e
  | ConBls12_381G1Element _ | ConBls12_381G2Element _ | ConBls12_381MlResult _ =>
      Err FlatEncoder.BlsElementNotSupported
  end.

(** [DeBruijn::var_encode] writes the index; [parameter_encode] writes nothing. *)
Definition var_encode (name : DeBruijn) (e : Encoder) : exec FlatEncodeError Encoder :=
  FlatEncoder.word name e.
Definition parameter_encode (parameter : DeBruijn) (e : Encoder) : exec FlatEncodeError Encoder := Ok e.

Fixpoint encode_term (term : Term) (e : Encoder) : exec FlatEncodeError Encoder :=
  match term with
  | Var name => e ← encode_term_tag VAR e; var_encode name e
  | Lambda parameter body =>
      e ← encode_term_tag LAMBDA e; e ← parameter_encode parameter e; encode_term body e
  | Apply function argument =>
      e ← encode_term_tag APPLY e; e ← encode_term function e; encode_term argument e
  | Delay body => e ← encode_term_tag DELAY e; encode_term body e
  | Force body => e ← encode_term_tag FORCE e; encode_term body e
  | Case constr branches =>
      e ← encode_term_tag CASE e;
      e ← encode_term constr e;
      FlatEncoder.list_with (λ e t, encode_term t e) branches e
  | Constr tag fields =>
      e ← encode_term_tag CONSTR e;
      e ← FlatEncoder.word tag e;
      FlatEncoder.list_with (λ e t, encode_term t e) fields e
  | Constant_ c => e ← encode_term_tag CONSTANT e; encode_constant c e
  | Builtin b =>
      e ← encode_term_tag BUILTIN e; FlatEncoder.bits BUILTIN_TAG_WIDTH (DefaultFunction_as_u8 b) e
  | Error => encode_term_tag ERROR e
  end.

Definition encode (program : Program) : exec FlatEncodeError (list Z) :=
  let e := FlatEncoder.Encoder_default in
  e ← FlatEncoder.word (major (version program)) e;
  e ← FlatEncoder.word (minor (version program)) e;
  e ← FlatEncoder.word (patch (version program)) e;
  e ← encode_term (term program) e;
  Ok (FlatEncoder.buffer (FlatEncoder.filler e)).
End Encode.

(** ** Decoding *)

(** [Ctx], without the arena. *)
Record Ctx := mkCtx {
  machine_version : MachineVersion;
  protocol_version : ProtocolVersion;
  plutus_version : PlutusVersion }.

Definition Ctx_is_constr_case_available (ctx : Ctx) : bool :=
  is_constr_case_available (machine_version ctx).
Definition is_builtin_available (ctx : Ctx) (func : DefaultFunction) : bool :=
  is_available_in func (plutus_version ctx) (protocol_version ctx).
Definition max_constr_fields (ctx : Ctx) : Z :=
  if pv_leb PROTOCOL_VERSION_11 (protocol_version ctx) then 1024 else usize_max.
Definition max_type_header_tags (ctx : Ctx) : Z :=
  if pv_leb PROTOCOL_VERSION_11 (protocol_version ctx) then 32 else usize_max.

(** The type spelled by the tags, and how many tags it spans.  The recursion is
    on suffixes; [fuel] bounds their length. *)
Fixpoint type_from_tags (fuel : nat) (tags : list Z) : exec FlatDecodeError (Typ * Z) :=
  match fuel with
  | O => OutOfFuel
  | S fuel =>
      match tags with
      | [] => Err FlatDecoder.MissingTypeTag
      | t :: rest =>
          if t =? INTEGER then Ok (TyInteger, 1)
          else if t =? BYTE_STRING then Ok (TyByteString, 1)
          else if t =? STRING then Ok (TyString, 1)
          else if t =? UNIT then Ok (TyUnit, 1)
          else if t =? BOOL then Ok (TyBool, 1)
          else if t =? DATA then Ok (TyData, 1)
          else if (t =? PROTO_LIST_ONE) && bool_decide (head rest = Some PROTO_LIST_TWO) then
            '(sub_typ, consumed) ← type_from_tags fuel (drop 1 rest);
            Ok (TyList sub_typ, 2 + consumed)
          else if (t =? PROTO_ARRAY_ONE) && bool_decide (head rest = Some PROTO_ARRAY_TWO) then
            '(sub_typ, consumed) ← type_from_tags fuel (drop 1 rest);
            Ok (TyArray sub_typ, 2 + consumed)
          else if (t =? PROTO_PAIR_ONE) && bool_decide (head rest = Some PROTO_PAIR_TWO)
                  && bool_decide (head (drop 1 rest) = Some PROTO_PAIR_THREE) then
            let rest := drop 2 rest in
            '(sub_typ1, consumed1) ← type_from_tags fuel rest;
            if Z.of_nat (length rest) <? consumed1 then Panic
            else
              let rest2 := drop (Z.to_nat consumed1) rest in
              '(sub_typ2, consumed2) ← type_from_tags fuel rest2;
              Ok (TyPair sub_typ1 sub_typ2, 3 + consumed1 + consumed2)
          else if t =? BLS12_381_G1_ELEMENT then Ok (TyBls12_381G1Element, 1)
          else if t =? BLS12_381_G2_ELEMENT then Ok (TyBls12_381G2Element, 1)
          else if t =? BLS12_381_ML_RESULT then Ok (TyBls12_381MlResult, 1)
          else if t =? VALUE then Ok (TyValue, 1)
          else Err (FlatDecoder.UnknownTypeTags tags)
      end
  end.

(** [prev >= key]. *)
Definition not_after (prev : option (list Z)) (k : list Z) : bool := not_ascending prev k.

(** A turn of the inner loop of [decode_value]; [again] is the rest of the loop. *)
Definition decode_token (prev_tok : option (list Z)) (again : option (list Z) → DecM (list TokenEntry))
  : DecM (list TokenEntry) :=
  tok ← FlatDecoder.bytes;
  if 32 <? Z.of_nat (length tok) then
    FlatDecoder.fail (FlatDecoder.Message "Value token name exceeds 32 bytes")
  else if not_after prev_tok tok then
    FlatDecoder.fail (FlatDecoder.Message "Value token names not strictly ascending")
  else
    qty ← FlatDecoder.integer;
    if negb (is_ok (check_quantity_range qty)) then
      FlatDecoder.fail (FlatDecoder.Message "Value quantity out of range")
    else if qty =? 0 then
      FlatDecoder.fail (FlatDecoder.Message "Value contains zero quantity")
    else
      rest ← again (Some tok);
      mret (mkTokenEntry tok qty :: rest).

Fixpoint decode_tokens (fuel : nat) (prev_tok : option (list Z)) : DecM (list TokenEntry) :=
  match fuel with
  | O => FlatDecoder.out_of_fuel
  | S fuel =>
      b ← FlatDecoder.bit;
      if b : bool then decode_token prev_tok (decode_tokens fuel) else mret []
  end.

(** A turn of the outer loop of [decode_value]. *)
Definition decode_currency (fuel : nat) (prev_ccy : option (list Z))
    (again : option (list Z) → DecM (list CurrencyEntry)) : DecM (list CurrencyEntry) :=
  ccy ← FlatDecoder.bytes;
  if 32 <? Z.of_nat (length ccy) then
    FlatDecoder.fail (FlatDecoder.Message "Value key exceeds 32 bytes")
  else if not_after prev_ccy ccy then
    FlatDecoder.fail (FlatDecoder.Message "Value currency symbols not strictly ascending")
  else
    tokens ← decode_tokens fuel None;
    match tokens with
    | [] => FlatDecoder.fail (FlatDecoder.Message "Value contains empty inner map")
    | _ =>
        rest ← again (Some ccy);
        mret (mkCurrencyEntry ccy tokens :: rest)
    end.

Fixpoint decode_currencies (fuel : nat) (prev_ccy : option (list Z)) : DecM (list CurrencyEntry) :=
  match fuel with
  | O => FlatDecoder.out_of_fuel
  | S fuel =>
      b ← FlatDecoder.bit;
      if b : bool then decode_currency fuel prev_ccy (decode_currencies fuel) else mret []
  end.

Definition decode_value (fuel : nat) : DecM Constant :=
  entries ← decode_currencies fuel None;
  mret (ConValue (with_stats entries)).

Definition decode_constant_tag : DecM Z := FlatDecoder.bits8 CONST_TAG_WIDTH.
Definition decode_constant_tags (fuel : nat) : DecM (list Z) :=
  FlatDecoder.list_with fuel decode_constant_tag.

(** [DeBruijn::var_decode]; [parameter_decode] reads nothing. *)
Definition var_decode : DecM DeBruijn := FlatDecoder.word.
Definition parameter_decode : DecM DeBruijn := mret 0.

Section Decode.
Context `{DataCodec}.

Fixpoint decode_constant_with_type (fuel : nat) (ty : Typ) : DecM Constant :=
  match ty with
  | TyInteger => v ← FlatDecoder.integer; mret (ConInteger v)
  | TyByteString => b ← FlatDecoder.bytes; mret (ConByteString b)
  | TyBool => v ← FlatDecoder.bit; mret (ConBoolean v)
  | TyString => s ← FlatDecoder.utf8; mret (ConString s)
  | TyUnit => mret ConUnit
  | TyList sub_typ =>
      fields ← FlatDecoder.list_with fuel (decode_constant_with_type fuel sub_typ);
      mret (ConProtoList sub_typ fields)
  | TyArray sub_typ =>
      fields ← FlatDecoder.list_with fuel (decode_constant_with_type fuel sub_typ);
      mret (ConProtoArray sub_typ fields)
  | TyPair sub_typ1 sub_typ2 =>
      fst ← decode_constant_with_type fuel sub_typ1;
      snd ← decode_constant_with_type fuel sub_typ2;
      mret (ConProtoPair sub_typ1 sub_typ2 fst snd)
  | TyData =>
      cbor ← FlatDecoder.bytes;
      data ← FlatDecoder.lift (decode_data cbor);
      mret (ConData data)
  | TyBls12_381G1Element | TyBls12_381G2Element | TyBls12_381MlResult =>
      FlatDecoder.fail FlatDecoder.BlsValueNotSupported
  | TyValue => decode_value fuel
  end.

Definition decode_constant (fuel : nat) (ctx : Ctx) : DecM Constant :=
  tags ← decode_constant_tags fuel;
  let max_tags := max_type_header_tags ctx in
  if max_tags <? Z.of_nat (length tags) then
    FlatDecoder.fail (FlatDecoder.TypeHeaderTooLong (Z.of_nat (length tags)) max_tags)
  else
    '(ty, consumed) ← FlatDecoder.lift (type_from_tags (S (length tags)) tags);
    if negb (consumed =? Z.of_nat (length tags)) then
      FlatDecoder.fail (FlatDecoder.UnknownTypeTags tags)
    else decode_constant_with_type fuel ty.

Fixpoint decode_term (fuel : nat) (ctx : Ctx) : DecM Term :=
  match fuel with
  | O => FlatDecoder.out_of_fuel
  | S fuel =>
      tag ← FlatDecoder.bits8 TERM_TAG_WIDTH;
      if tag =? VAR then name ← var_decode; mret (Var name)
      else if tag =? DELAY then term ← decode_term fuel ctx; mret (Delay term)
      else if tag =? LAMBDA then
        param ← parameter_decode; term ← decode_term fuel ctx; mret (Lambda param term)
      else if tag =? APPLY then
        function ← decode_term fuel ctx; argument ← decode_term fuel ctx; mret (Apply function argument)
      else if tag =? CONSTANT then constant ← decode_constant fuel ctx; mret (Constant_ constant)
      else if tag =? FORCE then term ← decode_term fuel ctx; mret (Force term)
      else if tag =? ERROR then mret Error
      else if tag =? BUILTIN then
        builtin_tag ← FlatDecoder.bits8 BUILTIN_TAG_WIDTH;
        function ← FlatDecoder.lift
          (ok_or (FlatDecoder.DefaultFunctionNotFound builtin_tag) (DefaultFunction_try_from builtin_tag));
        if negb (is_builtin_available ctx function) then
          FlatDecoder.fail (FlatDecoder.BuiltinNotAvailable builtin_tag function)
        else mret (Builtin function)
      else if tag =? CONSTR then
        if negb (Ctx_is_constr_case_available ctx) then
          FlatDecoder.fail (FlatDecoder.TermNotAvailable CONSTR "constr")
        else
          tag ← FlatDecoder.word;
          fields ← FlatDecoder.list_with fuel (decode_term fuel ctx);
          let max_fields := max_constr_fields ctx in
          if max_fields <? Z.of_nat (length fields) then
            FlatDecoder.fail (FlatDecoder.ConstructorTooWide (Z.of_nat (length fields)) max_fields)
          else mret (Constr tag fields)
      else if tag =? CASE then
        if negb (Ctx_is_constr_case_available ctx) then
          FlatDecoder.fail (FlatDecoder.TermNotAvailable CASE "case")
        else
          constr ← decode_term fuel ctx;
          branches ← FlatDecoder.list_with fuel (decode_term fuel ctx);
          mret (Case constr branches)
      else FlatDecoder.fail (FlatDecoder.UnknownTermConstructor tag)
  end.

(** The program and the number of bytes left after it. *)
Definition decode (bytes : list Z) (plutus_version : PlutusVersion) (protocol_version : ProtocolVersion)
  : exec FlatDecodeError (Program * Z) :=
  let decoder := FlatDecoder.Decoder_new bytes in
  let fuel := FlatDecoder.bits_fuel decoder in
  '(major, decoder) ← FlatDecoder.word decoder;
  '(minor, decoder) ← FlatDecoder.word decoder;
  '(patch, decoder) ← FlatDecoder.word decoder;
  let machine_version := mkMachineVersion major minor patch in
  let ctx := mkCtx machine_version protocol_version plutus_version in
  '(term, decoder) ← decode_term fuel ctx decoder;
  '(_, decoder) ← FlatDecoder.filler fuel decoder;
  if Z.of_nat (length (FlatDecoder.buffer decoder)) <? FlatDecoder.pos decoder then Panic
  else
    let remainder := Z.of_nat (length (FlatDecoder.buffer decoder)) - FlatDecoder.pos decoder in
    Ok (mkProgram machine_version term, remainder).

(** [decode_plutus_script]: [to_bytes] is the result of unwrapping the script
    to raw flat bytes, [v] its type-level Plutus version. *)
Definition decode_plutus_script (to_bytes : option (list Z)) (v : Z) (protocol_version : ProtocolVersion)
  : exec FlatDecodeError (Program * PlutusVersion) :=
  bytes ← ok_or (FlatDecoder.Message "unable to get raw flat bytes") to_bytes;
  plutus_version ← ok_or (FlatDecoder.Message "unable to reify type-level Plutus version")
                     (reify_plutus_version v);
  if pv_ltb protocol_version (introduced_in plutus_version) then
    Err (FlatDecoder.Message "non-available Plutus version for protocol version")
  else
    '(program, remainder) ← decode bytes plutus_version protocol_version;
    if bool_decide (plutus_version = V3) && (0 <? remainder) then
      Err (FlatDecoder.TrailingBytes remainder)
    else Ok (program, plutus_version).
End Decode.

(** ** The decoder is total

    On arbitrary input the decoder returns a program or an error: it never reads
    outside of the buffer, never overflows, and the fuel of the model is never
    exhausted. *)

Lemma type_from_tags_total fuel tags : (length tags < fuel)%nat →
  match type_from_tags fuel tags with
  | Ok (_, consumed) => 1 <= consumed <= Z.of_nat (length tags)
  | Err _ => True
  | Panic | OutOfFuel => False
  end.
Proof.
  revert tags. induction fuel as [|fuel IH]; intros tags Hl; [lia|].
  destruct tags as [|t rest]; [done|]. cbn [length] in Hl. cbn [type_from_tags].
  assert (∀ n, (length (drop n rest) < fuel)%nat) as Hd by (intros n; rewrite length_drop; lia).
  assert (∀ n x, head (drop n rest) = Some x → (n < length rest)%nat) as Hh.
  { intros n x Hx. destruct (decide (n < length rest)%nat); [done|]. by rewrite drop_ge in Hx by lia. }
  repeat match goal with
  | |- match (if _ =? _ then Ok _ else _) with _ => _ end => case_bool; [cbn; lia|]
  end.
  destruct (_ && _) eqn:H1; [|clear H1; destruct (_ && _) eqn:H1; [|clear H1; destruct (_ && _) eqn:H1]].
  - apply andb_true_iff in H1 as [_ H1%bool_decide_eq_true]. specialize (IH (drop 1 rest) (Hd _)).
    pose proof (Hh 0%nat _ H1). rewrite length_drop in IH.
    destruct (type_from_tags fuel _) as [[ty c]| | |]; try done. cbn. lia.
  - apply andb_true_iff in H1 as [_ H1%bool_decide_eq_true]. specialize (IH (drop 1 rest) (Hd _)).
    pose proof (Hh 0%nat _ H1). rewrite length_drop in IH.
    destruct (type_from_tags fuel _) as [[ty c]| | |]; try done. cbn. lia.
  - apply andb_true_iff in H1 as [_ H1%bool_decide_eq_true]. pose proof (Hh 1%nat _ H1) as Hlen.
    cbv zeta. pose proof (IH (drop 2 rest) (Hd _)) as H2. rewrite length_drop in *.
    destruct (type_from_tags fuel (drop 2 rest)) as [[ty c]| | |]; try done. cbn [mbind exec_bind].
    rewrite (proj2 (Z.ltb_ge _ _)) by lia. rewrite drop_drop.
    pose proof (IH (drop (2 + Z.to_nat c) rest) (Hd _)) as H3. rewrite length_drop in H3.
    destruct (type_from_tags fuel _) as [[ty2 c2]| | |]; try done. cbn [mbind exec_bind]. cbn [length]. lia.
  - repeat match goal with
    | |- match (if _ =? _ then Ok _ else _) with _ => _ end => case_bool; [cbn; lia|]
    end. done.
Qed.

(** Safety of composite readers is by structure: [safe_tac] follows the shape
    of the reader and uses the safety lemmas of its parts. *)
#[local] Hint Resolve FlatDecoder.safe_ret FlatDecoder.safe_fail : amaru.
Ltac safe_part := eapply FlatDecoder.safe_less;
  first [apply FlatDecoder.safe_bytes | apply FlatDecoder.safe_integer | apply FlatDecoder.safe_word
         | apply FlatDecoder.safe_bit | apply FlatDecoder.safe_utf8 | eassumption
         | apply FlatDecoder.safe_list_with; [eassumption|reflexivity]].
Ltac safe_tac := repeat first
  [ solve [eauto with amaru]
  | match goal with |- safe _ _ (if ?b then _ else _) => destruct b end
  | match goal with |- safe _ _ (let '(_, _) := ?p in _) => destruct p end
  | apply FlatDecoder.safe_seq; [safe_part|intros ?; cbv zeta] ].

Lemma safe_decode_tokens fuel prev : safe fuel 0 (decode_tokens fuel prev).
Proof.
  revert prev. induction fuel as [|fuel IH]; intros prev; [intros d ? ?; lia|]. cbn [decode_tokens]. unfold decode_token.
  eapply FlatDecoder.safe_weaken; [apply (FlatDecoder.safe_bind (S fuel) 1 0)|lia|lia].
  - apply FlatDecoder.safe_bit.
  - intros b. replace (S fuel - 1)%nat with fuel by lia. safe_tac.
    apply FlatDecoder.safe_seq; [apply IH|]. intros. safe_tac.
Qed.

Lemma safe_decode_currencies fuel prev : safe fuel 0 (decode_currencies fuel prev).
Proof.
  revert prev. induction fuel as [|fuel IH]; intros prev; [intros d ? ?; lia|]. cbn [decode_currencies]. unfold decode_currency.
  eapply FlatDecoder.safe_weaken; [apply (FlatDecoder.safe_bind (S fuel) 1 0)|lia|lia].
  - apply FlatDecoder.safe_bit.
  - intros b. replace (S fuel - 1)%nat with fuel by lia. safe_tac.
    apply FlatDecoder.safe_seq; [apply safe_decode_tokens|]. intros [|t ts]; [safe_tac|].
    apply FlatDecoder.safe_seq; [apply IH|]. intros. safe_tac.
Qed.

Section Total.
Context `{C : DataCodec} `{!DataCodecLaws C}.

Lemma safe_decode_constant_with_type fuel ty : safe fuel 0 (decode_constant_with_type fuel ty).
Proof using Type*.
  induction ty; cbn [decode_constant_with_type]; safe_tac.
  - apply FlatDecoder.safe_seq; [apply FlatDecoder.safe_lift, decode_data_terminates|]. intros; safe_tac.
  - apply FlatDecoder.safe_seq; [apply safe_decode_currencies|]. intros; safe_tac.
Qed.

Lemma safe_decode_constant fuel ctx : safe fuel 0 (decode_constant fuel ctx).
Proof using Type*.
  unfold decode_constant. apply FlatDecoder.safe_seq.
  { eapply FlatDecoder.safe_weaken; [apply FlatDecoder.safe_list_with|reflexivity|lia]; [|reflexivity].
    eapply FlatDecoder.safe_weaken; [by apply (FlatDecoder.safe_bits8 fuel _ 4); [|lia]|lia|lia]. }
  intros tags. cbv zeta. case_bool; [apply FlatDecoder.safe_fail|].
  pose proof (type_from_tags_total (S (length tags)) tags ltac:(lia)) as Ht.
  apply FlatDecoder.safe_seq; [apply FlatDecoder.safe_lift; by destruct (type_from_tags _ _)|].
  intros [ty consumed]. safe_tac. apply safe_decode_constant_with_type.
Qed.

Lemma safe_decode_term fuel ctx : safe fuel 0 (decode_term fuel ctx).
Proof using Type*.
  induction fuel as [|fuel IH]; [intros d ? ?; lia|]. cbn [decode_term].
  eapply FlatDecoder.safe_weaken; [apply (FlatDecoder.safe_bind (S fuel) 4 0)|lia|lia].
  { by apply FlatDecoder.safe_bits8; [|lia]. }
  intros tag. eapply FlatDecoder.safe_weaken with (N := fuel) (k := 0%nat); [|lia|lia].
  safe_tac.
  - unfold parameter_decode. apply FlatDecoder.safe_seq; [apply FlatDecoder.safe_ret|]. intros. safe_tac.
  - apply FlatDecoder.safe_seq; [apply safe_decode_constant|]. intros; safe_tac.
  - apply FlatDecoder.safe_seq.
    { eapply FlatDecoder.safe_weaken; [by apply (FlatDecoder.safe_bits8 fuel _ 7); [|lia]|lia|lia]. }
    intros b. apply FlatDecoder.safe_seq; [apply FlatDecoder.safe_lift; by destruct (DefaultFunction_try_from b)|].
    intros f. safe_tac.
Qed.
End Total.

(** A step of a run that returns. *)
Lemma terminates_step {A B} N k (m : DecM A) (f : A * Decoder → exec FlatDecodeError B) d :
  safe N k m → dec_ok d → (length (FlatDecoder.dec_rest d) < N)%nat →
  (∀ a d', dec_ok d' → FlatDecoder.buffer d' = FlatDecoder.buffer d →
           (length (FlatDecoder.dec_rest d') < N)%nat → terminates (f (a, d')) = true) →
  terminates (m d ≫= f) = true.
Proof.
  intros Hm Hd Hl Hf. specialize (Hm d Hd Hl).
  destruct (m d) as [[a d']| | |]; try done. destruct Hm as (? & ? & ?). apply Hf; [done..|lia].
Qed.

Lemma Decoder_new_ok bytes : Forall is_byte bytes → dec_ok (FlatDecoder.Decoder_new bytes).
Proof. intros H. split; cbn; lia || done. Qed.

Lemma decode_terminates `{C : DataCodec} `{!DataCodecLaws C}
    (bytes : list Z) (v : PlutusVersion) (pv : ProtocolVersion) :
  Forall is_byte bytes → terminates (decode bytes v pv) = true.
Proof.
  intros Hb. unfold decode. cbv zeta. set (fuel := FlatDecoder.bits_fuel _).
  pose proof (Decoder_new_ok bytes Hb) as Hok. pose proof (FlatDecoder.bits_fuel_enough _ Hok) as Hf.
  fold fuel in Hf.
  eapply terminates_step; [apply FlatDecoder.safe_word|done|exact Hf|intros major d1 H1 _ L1].
  eapply terminates_step; [apply FlatDecoder.safe_word|done|exact L1|intros minor d2 H2 _ L2].
  eapply terminates_step; [apply FlatDecoder.safe_word|done|exact L2|intros patch d3 H3 _ L3].
  eapply terminates_step; [apply safe_decode_term|done|exact L3|intros t d4 H4 _ L4].
  eapply terminates_step; [apply FlatDecoder.safe_filler|done|exact L4|intros [] d5 [] _ _].
  by rewrite (proj2 (Z.ltb_ge _ _)) by lia.
Qed.

(** C29: the flat decoder is total: on every byte string, whatever the ledger
    language and protocol version, [decode] returns a program or a decoding
    error; it never panics (no index out of the buffer, no underflow, no
    overflowing shift), and the bound on the loops of the model is never the
    reason it stops. *)
Theorem decode_total `{C : DataCodec} `{!DataCodecLaws C}
    (bytes : list Z) (v : PlutusVersion) (pv : ProtocolVersion) :
  Forall is_byte bytes → terminates (decode bytes v pv) = true.
Proof. apply decode_terminates. Qed.

(** ** Round trips

    [Codec N k enc m v]: from every valid encoder, the writer [enc] succeeds,
    appends at least [k] bits, and the reader [m], placed before those bits with
    fewer than [N] bits to read, returns [v] and consumes exactly them. *)
Definition Codec {A} (N k : nat) (enc : Encoder → exec FlatEncodeError Encoder) (m : DecM A) (v : A) : Prop :=
  ∀ e, enc_ok e → ∃ e' bs, enc e = Ok e' ∧ Writes e e' bs ∧ (k <= length bs)%nat ∧
    Reads N (FlatEncoder.used_bits e) bs m v.

Lemma Writes_used e e' bs : enc_ok e → Writes e e' bs →
  FlatEncoder.used_bits e' = (FlatEncoder.used_bits e + Z.of_nat (length bs)) mod 8.
Proof.
  intros He [He' Hb]. rewrite !FlatEncoder.used_bits_mod, Hb, length_app, Nat2Z.inj_add by done.
  by rewrite Zplus_mod_idemp_l.
Qed.

Section Codec.
Context {A B : Type}.

Lemma codec_weaken N N' k k' enc (m : DecM A) v :
  Codec N k enc m v → (N' <= N)%nat → (k' <= k)%nat → Codec N' k' enc m v.
Proof.
  intros H HN Hk e He. destruct (H e He) as (e' & bs & ? & ? & ? & ?).
  exists e', bs. split; [done|]. split; [done|]. split; [lia|]. by eapply FlatDecoder.Reads_weaken.
Qed.

Lemma codec_less N k enc (m : DecM A) v : Codec N k enc m v → Codec N 0 enc m v.
Proof. intros H. eapply codec_weaken; [exact H|lia..]. Qed.

Lemma codec_ext N k enc enc' (m : DecM A) v :
  (∀ e, enc e = enc' e) → Codec N k enc m v → Codec N k enc' m v.
Proof. intros Heq H e He. rewrite <- Heq. by apply H. Qed.

Lemma codec_bind N k1 k2 enc1 enc2 (m : DecM A) (f : A → DecM B) v w :
  Codec N k1 enc1 m v → Codec (N - k1) k2 enc2 (f v) w →
  Codec N (k1 + k2) (λ e, enc1 e ≫= enc2) (m ≫= f) w.
Proof.
  intros H1 H2 e He. destruct (H1 e He) as (e1 & b1 & -> & Hw1 & Hk1 & Hr1).
  destruct (H2 e1) as (e2 & b2 & He2 & Hw2 & Hk2 & Hr2); [apply Hw1|].
  exists e2, (b1 ++ b2). split; [done|]. split; [by eapply FlatEncoder.Writes_trans|].
  split; [rewrite length_app; lia|]. eapply FlatDecoder.Reads_bind; [done|].
  rewrite <- (Writes_used e e1 b1) by done. eapply FlatDecoder.Reads_weaken; [done|lia].
Qed.

Lemma codec_seq N enc1 enc2 (m : DecM A) (f : A → DecM B) v w :
  Codec N 0 enc1 m v → Codec N 0 enc2 (f v) w → Codec N 0 (λ e, enc1 e ≫= enc2) (m ≫= f) w.
Proof. intros H1 H2. apply (codec_bind N 0 0 enc1 enc2 m f v w H1). by rewrite Nat.sub_0_r. Qed.

(** Wrapping the value that was read. *)
Lemma codec_map N k enc (m : DecM A) (g : A → B) v :
  Codec N k enc m v → Codec N k enc (m ≫= λ a, mret (g a)) (g v).
Proof.
  intros H e He. destruct (H e He) as (e' & bs & ? & ? & ? & Hr). exists e', bs.
  split; [done|]. split; [done|]. split; [done|]. rewrite <- (app_nil_r bs).
  eapply FlatDecoder.Reads_bind; [done|]. apply FlatDecoder.Reads_ret.
Qed.

Lemma codec_ret N (v : A) : Codec N 0 (λ e, Ok e) (mret v) v.
Proof.
  intros e He. exists e, []. split; [done|]. split; [by split; [|rewrite app_nil_r]|].
  split; [done|]. apply FlatDecoder.Reads_ret.
Qed.

(** A check between two reads that the value passes. *)
Lemma codec_lift N k enc (x : exec FlatDecodeError A) (f : A → DecM B) v w :
  x = Ok v → Codec N k enc (f v) w → Codec N k enc (FlatDecoder.lift x ≫= f) w.
Proof.
  intros -> H e He. destruct (H e He) as (e' & bs & ? & ? & ? & Hr). by exists e', bs.
Qed.
End Codec.

Lemma codec_bit N b : Codec N 1 (λ e, Ok (FlatEncoder.enc_bool e b)) FlatDecoder.bit b.
Proof.
  intros e He. eexists _, [b]. split; [done|]. split; [|split; [done|apply FlatDecoder.Reads_bit]].
  destruct b; cbn; [by apply FlatEncoder.one_Writes|by apply FlatEncoder.zero_Writes].
Qed.

Lemma codec_word N c : 0 <= c <= usize_max → Codec N 0 (FlatEncoder.word c) FlatDecoder.word c.
Proof.
  intros Hc e He. destruct (FlatEncoder.word_Writes c e He ltac:(lia)) as (e' & ? & Hw).
  eexists e', _. split; [done|]. split; [exact Hw|]. split; [lia|]. by apply FlatDecoder.Reads_word.
Qed.

Lemma codec_integer N i : Codec N 0 (FlatEncoder.integer i) FlatDecoder.integer i.
Proof.
  unfold FlatDecoder.integer. rewrite <- (FlatEncoder.unzigzag_zigzag i) at 2. apply codec_map.
  intros e He. pose proof (FlatEncoder.zigzag_nonneg i) as Hz.
  destruct (FlatEncoder.word_Writes (FlatEncoder.zigzag i) e He Hz) as (e' & He' & Hw).
  eexists e', _. split; [|split; [exact Hw|split; [lia|by apply FlatDecoder.Reads_big_word]]].
  unfold FlatEncoder.integer, FlatEncoder.big_word. by rewrite FlatEncoder.big_word_loop_word.
Qed.

Lemma codec_bytes N arr : Forall is_byte arr → Codec N 0 (FlatEncoder.bytes arr) FlatDecoder.bytes arr.
Proof.
  intros Ha e He. destruct (FlatEncoder.bytes_Writes arr e He Ha) as (e' & He' & Hw & _).
  eexists e', _. split; [done|]. split; [exact Hw|]. split; [lia|].
  apply FlatDecoder.Reads_bytes; [apply He|done].
Qed.

Lemma codec_utf8 N s : Forall is_byte s → FlatDecoder.utf8_valid s = true →
  Codec N 0 (FlatEncoder.utf8 s) FlatDecoder.utf8 s.
Proof.
  intros Hs Hv e He. destruct (codec_bytes N s Hs e He) as (e' & bs & ? & ? & ? & Hr).
  exists e', bs. split; [done|]. split; [done|]. split; [done|]. rewrite <- (app_nil_r bs).
  eapply FlatDecoder.Reads_bind; [done|]. rewrite Hv. apply FlatDecoder.Reads_ret.
Qed.

(** A tag of [k] bits. *)
Lemma codec_bits N K k v : K = Z.of_nat k → (3 <= k <= 8)%nat → 0 <= v < 2 ^ Z.of_nat k →
  Codec N k (FlatEncoder.bits K v) (FlatDecoder.bits8 K) v.
Proof.
  intros HK Hk Hv e He. destruct (FlatEncoder.bits_Writes e K k v He HK Hk Hv) as (e' & He' & Hw).
  eexists e', _. split; [done|]. split; [exact Hw|]. rewrite length_val_bits. split; [done|].
  apply FlatDecoder.Reads_bits8; [done|lia|done].
Qed.

Lemma codec_tag N t : 0 <= t < 16 →
  Codec N 4 (λ e, encode_term_tag t e) (FlatDecoder.bits8 TERM_TAG_WIDTH) t.
Proof.
  intros Ht e He. unfold encode_term_tag, FlatEncoder.safe_encode_bits.
  change (2 ^ TERM_TAG_WIDTH) with 16. rewrite (proj2 (Z.leb_gt _ _)) by lia.
  by apply (codec_bits N _ 4); [|lia|cbn; lia|].
Qed.

(** A writer that succeeds from every valid encoder. *)
Definition Writable (enc : Encoder → exec FlatEncodeError Encoder) : Prop :=
  ∀ e, enc_ok e → ∃ e' bs, enc e = Ok e' ∧ Writes e e' bs.

Lemma codec_writable {A} N k enc (m : DecM A) v : Codec N k enc m v → Writable enc.
Proof. intros H e He. destruct (H e He) as (e' & bs & ? & ? & _). by exists e', bs. Qed.

(** With no bit allowed to be read, only the writer matters. *)
Lemma codec_no_read {A} enc (m : DecM A) v : Writable enc → Codec 0 0 enc m v.
Proof.
  intros H e He. destruct (H e He) as (e' & bs & ? & ?). exists e', bs.
  split; [done|]. split; [done|]. split; [lia|]. intros d post ? ? ? ?. lia.
Qed.

Lemma writable_bind enc1 enc2 : Writable enc1 → Writable enc2 → Writable (λ e, enc1 e ≫= enc2).
Proof.
  intros H1 H2 e He. destruct (H1 e He) as (e1 & b1 & -> & Hw1).
  destruct (H2 e1) as (e2 & b2 & He2 & Hw2); [apply Hw1|].
  exists e2, (b1 ++ b2). split; [done|]. by eapply FlatEncoder.Writes_trans.
Qed.

(** A list is written as its items, each after a set bit, and a clear bit. *)
Lemma list_with_cons {T} (enc : Encoder → T → exec FlatEncodeError Encoder) x l :
  FlatEncoder.list_with enc (x :: l) =
  (λ e, Ok (FlatEncoder.enc_bool e true) ≫= (λ e, enc e x ≫= FlatEncoder.list_with enc l)).
Proof. reflexivity. Qed.

Lemma writable_list {T} (enc : Encoder → T → exec FlatEncodeError Encoder) l :
  Forall (λ x, Writable (λ e, enc e x)) l → Writable (FlatEncoder.list_with enc l).
Proof.
  induction 1 as [|x l Hx _ IH]; [exact (codec_writable _ _ _ _ _ (codec_bit 0 false))|].
  rewrite list_with_cons. apply writable_bind; [exact (codec_writable _ _ _ _ _ (codec_bit 0 true))|].
  by apply writable_bind.
Qed.

(** Reading the bit in front of an item, or the final one. *)
Lemma codec_list_cons {T} N (enc : Encoder → T → exec FlatEncodeError Encoder) x l (f : bool → DecM (list T)) :
  Codec (N - 1) 0 (λ e, enc e x ≫= FlatEncoder.list_with enc l) (f true) (x :: l) →
  Codec N 0 (FlatEncoder.list_with enc (x :: l)) (FlatDecoder.bit ≫= f) (x :: l).
Proof.
  intros H. rewrite list_with_cons. eapply codec_weaken; [|done|apply Nat.le_0_l].
  apply (codec_bind N 1 0) with true; [apply codec_bit|exact H].
Qed.

Lemma codec_list_nil {T} N (enc : Encoder → T → exec FlatEncodeError Encoder) (f : bool → DecM (list T)) :
  f false = mret [] → Codec N 0 (FlatEncoder.list_with enc []) (FlatDecoder.bit ≫= f) [].
Proof.
  intros Hf. eapply codec_weaken; [|done|apply Nat.le_0_l].
  apply (codec_bind N 1 0 (λ e, Ok (FlatEncoder.enc_bool e false)) (λ e, Ok e) _ _ false []);
    [apply codec_bit|]. rewrite Hf. apply codec_ret.
Qed.

Lemma codec_list {T} N fuel enc (m : DecM T) l : (N <= fuel)%nat →
  Forall (λ x, Codec N 0 (λ e, enc e x) m x) l →
  Codec N 0 (FlatEncoder.list_with enc l) (FlatDecoder.list_with fuel m) l.
Proof.
  intros HN Hl. revert N fuel HN Hl. induction l as [|x l IH]; intros N fuel HN Hl;
    (destruct fuel as [|fuel];
      [replace N with 0%nat in * by lia; apply codec_no_read, writable_list; eapply Forall_impl;
        [exact Hl|intros y; apply codec_writable]|cbn [FlatDecoder.list_with]]).
  - by apply codec_list_nil.
  - inversion_clear Hl as [|? ? Hx Hl']. apply codec_list_cons.
    apply codec_seq with x; [eapply codec_weaken; [done|lia|lia]|].
    apply (codec_map (N - 1) 0 _ _ (cons x)). apply IH; [lia|].
    eapply Forall_impl; [exact Hl'|]. intros y Hy. eapply codec_weaken; [exact Hy|lia|lia].
Qed.

(** *** Type headers *)

(** The tags that spell a type. *)
Fixpoint type_tags (t : Typ) : list Z :=
  match t with
  | TyInteger => [INTEGER] | TyByteString => [BYTE_STRING] | TyString => [STRING]
  | TyUnit => [UNIT] | TyBool => [BOOL] | TyData => [DATA] | TyValue => [VALUE]
  | TyList t => PROTO_LIST_ONE :: PROTO_LIST_TWO :: type_tags t
  | TyArray t => PROTO_ARRAY_ONE :: PROTO_ARRAY_TWO :: type_tags t
  | TyPair t1 t2 => PROTO_PAIR_ONE :: PROTO_PAIR_TWO :: PROTO_PAIR_THREE :: type_tags t1 ++ type_tags t2
  | TyBls12_381G1Element => [BLS12_381_G1_ELEMENT]
  | TyBls12_381G2Element => [BLS12_381_G2_ELEMENT]
  | TyBls12_381MlResult => [BLS12_381_ML_RESULT]
  end.

(** Types the encoder accepts. *)
Fixpoint bls_free (t : Typ) : bool :=
  match t with
  | TyList t | TyArray t => bls_free t
  | TyPair t1 t2 => bls_free t1 && bls_free t2
  | TyBls12_381G1Element | TyBls12_381G2Element | TyBls12_381MlResult => false
  | _ => true
  end.

Lemma encode_type_tags t acc : bls_free t = true → encode_type t acc = Ok (acc ++ type_tags t).
Proof.
  revert acc. induction t as [| | | | |t IH|t IH|t1 IH1 t2 IH2| | | | |]; intros acc Hf; cbn in *; try done.
  - rewrite IH by done. by rewrite <- app_assoc.
  - rewrite IH by done. by rewrite <- app_assoc.
  - bool_to_prop. rewrite IH1 by done. cbn. rewrite IH2 by done. by rewrite <- !app_assoc.
Qed.

Lemma type_from_tags_spec t fuel rest : (length (type_tags t) <= fuel)%nat →
  type_from_tags fuel (type_tags t ++ rest) = Ok (t, Z.of_nat (length (type_tags t))).
Proof.
  revert fuel rest. induction t as [| | | | |t IH|t IH|t1 IH1 t2 IH2| | | | |]; intros fuel rest Hf;
    (destruct fuel as [|fuel]; [cbn in Hf; lia|]); try done; cbn [length type_tags] in Hf.
  - assert (type_from_tags (S fuel) (type_tags (TyList t) ++ rest)
      = ('(s, c) ← type_from_tags fuel (type_tags t ++ rest); Ok (TyList s, 2 + c))) as -> by reflexivity.
    rewrite IH by lia. cbn [mbind exec_bind type_tags length]. do 2 f_equal. lia.
  - assert (type_from_tags (S fuel) (type_tags (TyArray t) ++ rest)
      = ('(s, c) ← type_from_tags fuel (type_tags t ++ rest); Ok (TyArray s, 2 + c))) as -> by reflexivity.
    rewrite IH by lia. cbn [mbind exec_bind type_tags length]. do 2 f_equal. lia.
  - set (l := (type_tags t1 ++ type_tags t2) ++ rest).
    assert (type_from_tags (S fuel) (type_tags (TyPair t1 t2) ++ rest)
      = ('(s1, c1) ← type_from_tags fuel l;
         if Z.of_nat (length l) <? c1 then Panic
         else '(s2, c2) ← type_from_tags fuel (drop (Z.to_nat c1) l);
              Ok (TyPair s1 s2, 3 + c1 + c2))) as -> by reflexivity.
    unfold l. rewrite length_app in Hf. rewrite <- app_assoc, IH1 by lia. cbn [mbind exec_bind].
    rewrite (proj2 (Z.ltb_ge _ _)) by (rewrite length_app; lia).
    rewrite Nat2Z.id, drop_app_length, IH2 by lia. cbn [mbind exec_bind type_tags length].
    rewrite length_app. do 2 f_equal. lia.
Qed.

Lemma type_tags_range t : Forall (λ x, 0 <= x < 16) (type_tags t).
Proof.
  induction t; cbn; repeat (constructor; [unfold is_byte; cbv; split; congruence|]); try done.
  apply Forall_app. by split.
Qed.

(** *** Values *)

(** Loops over an ascending list that remember the previous key. *)
Section Loop.
Context {T : Type} (loop : nat → option (list Z) → DecM (list T)).
Context (enc : Encoder → T → exec FlatEncodeError Encoder) (key : T → list Z) (ok : T → Prop).
Context (turn : nat → option (list Z) → bool → DecM (list T)).
Hypothesis Hloop : ∀ fuel prev, loop (S fuel) prev = (FlatDecoder.bit ≫= turn fuel prev).
Hypothesis Hstop : ∀ fuel prev, turn fuel prev false = mret [].
Hypothesis Hitem : ∀ x, ok x → Writable (λ e, enc e x).
Hypothesis Hturn : ∀ N fuel prev x l, (N <= fuel)%nat → ok x → not_ascending prev (key x) = false →
  Codec N 0 (FlatEncoder.list_with enc l) (loop fuel (Some (key x))) l →
  Codec N 0 (λ e, enc e x ≫= FlatEncoder.list_with enc l) (turn fuel prev true) (x :: l).

Lemma codec_loop l N fuel prev : (N <= fuel)%nat → Forall ok l → asc key l → after key prev l →
  Codec N 0 (FlatEncoder.list_with enc l) (loop fuel prev) l.
Proof using Hloop Hstop Hitem Hturn.
  revert N fuel prev. induction l as [|x l IH]; intros N fuel prev HN Hok Hasc Hafter;
    (destruct fuel as [|fuel];
      [replace N with 0%nat by lia; apply codec_no_read, writable_list; by eapply Forall_impl
      |rewrite Hloop]).
  - by apply codec_list_nil.
  - inversion_clear Hok as [|? ? Hx Hl]. apply after_cons in Hafter; [|done].
    apply after_Some_asc in Hasc as [Hasc Hafter'].
    apply codec_list_cons, Hturn; [lia|done..|]. apply IH; [lia|done..].
Qed.
End Loop.

Definition token_wire (t : TokenEntry) : Prop :=
  token_ok t ∧ short_key token_name t ∧ Forall is_byte (token_name t).

Lemma codec_decode_tokens ts N fuel prev : (N <= fuel)%nat → Forall token_wire ts →
  asc token_name ts → after token_name prev ts →
  Codec N 0 (FlatEncoder.list_with encode_token ts) (decode_tokens fuel prev) ts.
Proof.
  apply (codec_loop decode_tokens encode_token token_name token_wire (λ fuel prev b,
    if b : bool then decode_token prev (decode_tokens fuel) else mret [])); [done|done| |].
  - intros t (_ & _ & Hb). unfold encode_token.
    apply writable_bind; eapply codec_writable; [by apply (codec_bytes 0)|apply (codec_integer 0)].
  - clear. intros N fuel prev [tok q] l HN ([Hnz Hr] & Hsh & Hb) Hasc Hrest.
    unfold short_key in Hsh. cbn [token_name quantity] in *.
    apply codec_ext with (enc := λ e, FlatEncoder.bytes tok e ≫= λ e,
      FlatEncoder.integer q e ≫= FlatEncoder.list_with encode_token l);
      [intros e; symmetry; apply (bind_assoc (FlatEncoder.bytes tok e))|].
    apply codec_seq with tok; [by apply codec_bytes|].
    rewrite (proj2 (Z.ltb_ge _ _) Hsh). unfold not_after. rewrite Hasc.
    apply (codec_seq N (FlatEncoder.integer q)) with q; [apply codec_integer|].
    rewrite (proj2 (check_quantity_range_Ok q ()) Hr), (proj2 (Z.eqb_neq _ _) Hnz).
    by apply (codec_map N 0 _ _ (cons (mkTokenEntry tok q))).
Qed.

Definition currency_wire (e : CurrencyEntry) : Prop :=
  entry_ok e ∧ short_key currency e ∧ Forall is_byte (currency e) ∧ Forall token_wire (tokens e).

Lemma codec_decode_currencies es N fuel prev : (N <= fuel)%nat → Forall currency_wire es →
  asc currency es → after currency prev es →
  Codec N 0 (FlatEncoder.list_with encode_currency es) (decode_currencies fuel prev) es.
Proof.
  apply (codec_loop decode_currencies encode_currency currency currency_wire (λ fuel prev b,
    if b : bool then decode_currency fuel prev (decode_currencies fuel) else mret [])); [done|done| |].
  - intros e ((Ha & _) & _ & Hb & Ht). unfold encode_currency.
    apply writable_bind; eapply codec_writable; [by apply (codec_bytes 0)|].
    by apply (codec_decode_tokens _ 0 0 None).
  - clear. intros N fuel prev [ccy ts] l HN ((Ha & Hne & _) & Hsh & Hb & Ht) Hasc Hrest.
    unfold short_key in Hsh. cbn [currency tokens] in *.
    apply codec_ext with (enc := λ e, FlatEncoder.bytes ccy e ≫= λ e,
      FlatEncoder.list_with encode_token ts e ≫= FlatEncoder.list_with encode_currency l);
      [intros e; symmetry; apply (bind_assoc (FlatEncoder.bytes ccy e))|].
    apply codec_seq with ccy; [by apply codec_bytes|].
    rewrite (proj2 (Z.ltb_ge _ _) Hsh). unfold not_after. rewrite Hasc.
    apply codec_seq with ts; [by apply codec_decode_tokens|].
    destruct ts as [|t ts]; [done|].
    by apply (codec_map N 0 _ _ (cons (mkCurrencyEntry ccy (t :: ts)))).
Qed.

(** Values the wire format carries. *)
Definition value_wire (v : LedgerValue) : Prop :=
  value_wf v ∧ Forall currency_wire (entries v).

Lemma codec_decode_value v N fuel : (N <= fuel)%nat → value_wire v →
  Codec N 0 (encode_value v) (decode_value fuel) (ConValue v).
Proof.
  intros HN [[Ha He Hs] Hw]. unfold decode_value. rewrite Hs at 2.
  apply (codec_map N 0 _ _ (λ es, ConValue (with_stats es))). by apply codec_decode_currencies.
Qed.

(** *** Constants and terms *)

Section Roundtrip.
Context `{C : DataCodec} `{!DataCodecLaws C}.

(** Constants of a type the wire format carries: of the type their header
    announces, strings well formed, values canonical, no curve points. *)
Fixpoint const_ok (t : Typ) (c : Constant) : Prop :=
  match t with
  | TyInteger => ∃ i, c = ConInteger i
  | TyByteString => ∃ b, c = ConByteString b ∧ Forall is_byte b
  | TyString => ∃ s, c = ConString s ∧ Forall is_byte s ∧ FlatDecoder.utf8_valid s = true
  | TyUnit => c = ConUnit
  | TyBool => ∃ b, c = ConBoolean b
  | TyData => ∃ d bs, c = ConData d ∧ encode_data d = Ok bs
  | TyValue => ∃ v, c = ConValue v ∧ value_wire v
  | TyList s => ∃ l, c = ConProtoList s l ∧ Forall (const_ok s) l
  | TyArray s => ∃ l, c = ConProtoArray s l ∧ Forall (const_ok s) l
  | TyPair t1 t2 => ∃ a b, c = ConProtoPair t1 t2 a b ∧ const_ok t1 a ∧ const_ok t2 b
  | TyBls12_381G1Element | TyBls12_381G2Element | TyBls12_381MlResult => False
  end.

Lemma codec_data N d bs : encode_data d = Ok bs →
  Codec N 0 (encode_data_constant d)
    (cbor ← FlatDecoder.bytes; data ← FlatDecoder.lift (decode_data cbor); mret (ConData data)) (ConData d).
Proof using Type*.
  intros Hd. apply codec_ext with (enc := λ e, FlatEncoder.bytes bs e ≫= (λ e, Ok e)).
  { intros e. unfold encode_data_constant. rewrite Hd. cbn. by destruct (FlatEncoder.bytes bs e). }
  apply codec_seq with bs; [apply codec_bytes; by eapply encode_data_bytes|].
  eapply codec_lift; [by apply decode_encode_data|]. apply codec_ret.
Qed.

Lemma codec_constant_value t c N fuel : (N <= fuel)%nat → const_ok t c →
  Codec N 0 (encode_constant_value c) (decode_constant_with_type fuel t) c.
Proof using Type*.
  intros HN. revert c. induction t as [| | | | |t IH|t IH|t1 IH1 t2 IH2| | | | |]; intros c Hc; cbn in Hc;
    cbn [decode_constant_with_type]; try done.
  - destruct Hc as [b ->]. eapply (codec_map N 0 _ _ ConBoolean), codec_weaken; [apply codec_bit|done|lia].
  - destruct Hc as [i ->]. apply (codec_map N 0 _ _ ConInteger), codec_integer.
  - destruct Hc as (s & -> & Hs & Hv). by apply (codec_map N 0 _ _ ConString), codec_utf8.
  - destruct Hc as (b & -> & Hb). by apply (codec_map N 0 _ _ ConByteString), codec_bytes.
  - subst c. apply codec_ret.
  - destruct Hc as (l & -> & Hl). apply (codec_map N 0 _ _ (ConProtoList t)), codec_list; [done|].
    eapply Forall_impl; [exact Hl|]. apply IH.
  - destruct Hc as (l & -> & Hl). apply (codec_map N 0 _ _ (ConProtoArray t)), codec_list; [done|].
    eapply Forall_impl; [exact Hl|]. apply IH.
  - destruct Hc as (a & b & -> & Ha & Hb). cbn [encode_constant_value].
    apply codec_seq with a; [by apply IH1|]. by apply (codec_map N 0 _ _ (ConProtoPair t1 t2 a)), IH2.
  - destruct Hc as (d & bs & -> & Hd). by eapply codec_data.
  - destruct Hc as (v & -> & Hv). by apply codec_decode_value.
Qed.

(** Header and payload. *)
Lemma encode_constant_split t c e : const_ok t c → bls_free t = true →
  encode_constant c e = (e ← encode_tags (type_tags t) e; encode_constant_value c e).
Proof using Type.
  intros Hc Hf. destruct t; cbn in Hc; try done;
    repeat match type of Hc with
    | ∃ _, _ => let x := fresh in destruct Hc as [x Hc]
    | _ ∧ _ => let x := fresh in destruct Hc as [x Hc]
    end; subst; cbn [encode_constant encode_constant_value]; try done.
  - change (type_tags TyUnit) with [UNIT]. by destruct (encode_tags [UNIT] e).
  - rewrite encode_type_tags by done. done.
  - rewrite encode_type_tags by done. done.
  - cbn in Hf. bool_to_prop. rewrite encode_type_tags by done. cbn [mbind exec_bind].
    by rewrite encode_type_tags, <- app_assoc by done.
Qed.

Lemma codec_tags N fuel tags : (N <= fuel)%nat → Forall (λ x, 0 <= x < 16) tags →
  Codec N 0 (encode_tags tags) (decode_constant_tags fuel) tags.
Proof using Type.
  intros HN Ht. apply codec_list; [done|]. eapply Forall_impl; [exact Ht|].
  intros t Hr. eapply codec_weaken; [by apply (codec_tag N t)|done|lia].
Qed.

Lemma codec_constant ctx t c N fuel : (N <= fuel)%nat → const_ok t c → bls_free t = true →
  Z.of_nat (length (type_tags t)) <= max_type_header_tags ctx →
  Codec N 0 (encode_constant c) (decode_constant fuel ctx) c.
Proof using Type*.
  intros HN Hc Hf Hmax.
  apply codec_ext with (enc := λ e, encode_tags (type_tags t) e ≫= encode_constant_value c).
  { intros e. symmetry. by apply encode_constant_split. }
  unfold decode_constant. apply codec_seq with (type_tags t).
  { apply codec_tags; [done|apply type_tags_range]. }
  cbv zeta. rewrite (proj2 (Z.ltb_ge _ _) Hmax).
  eapply codec_lift; [rewrite <- (app_nil_r (type_tags t)) at 2; by apply type_from_tags_spec, Nat.le_succ_diag_r|].
  cbn beta iota. rewrite Z.eqb_refl. cbn [negb]. by apply codec_constant_value.
Qed.

(** Terms that can be written and are accepted under [ctx]: machine-word
    indices and tags, available builtins, constructors within bounds, and
    binders carrying no name. *)
Inductive term_ok (ctx : Ctx) : Term → Prop :=
| var_ok n : 0 <= n <= usize_max → term_ok ctx (Var n)
| lambda_ok t : term_ok ctx t → term_ok ctx (Lambda 0 t)
| apply_ok f a : term_ok ctx f → term_ok ctx a → term_ok ctx (Apply f a)
| delay_ok t : term_ok ctx t → term_ok ctx (Delay t)
| force_ok t : term_ok ctx t → term_ok ctx (Force t)
| case_ok t bs : Ctx_is_constr_case_available ctx = true →
    term_ok ctx t → Forall (term_ok ctx) bs → term_ok ctx (Case t bs)
| constr_ok tag fs : Ctx_is_constr_case_available ctx = true → 0 <= tag <= usize_max →
    Forall (term_ok ctx) fs → Z.of_nat (length fs) <= max_constr_fields ctx → term_ok ctx (Constr tag fs)
| constant_ok t c : const_ok t c → bls_free t = true →
    Z.of_nat (length (type_tags t)) <= max_type_header_tags ctx → term_ok ctx (Constant_ c)
| builtin_ok f : is_builtin_available ctx f = true → term_ok ctx (Builtin f)
| error_ok : term_ok ctx Error.

(** Reading the tag of a term, then the rest of it. *)
Ltac tagged tag :=
  apply (codec_less _ 4);
  apply (codec_bind _ 4 0) with tag; [apply codec_tag; unfold tag; lia|];
  cbn [Z.eqb Pos.eqb VAR DELAY LAMBDA APPLY CONSTANT FORCE ERROR BUILTIN CONSTR CASE].

Definition term_codec (ctx : Ctx) (t : Term) : Prop :=
  ∀ N fuel, (N <= fuel)%nat → Codec N 0 (encode_term t) (decode_term fuel ctx) t.

(** With no fuel nothing is read, so that only the other case matters. *)
Lemma term_codec_S ctx t :
  (∀ N fuel, (N <= S fuel)%nat → Codec N 0 (encode_term t) (decode_term (S fuel) ctx) t) → term_codec ctx t.
Proof using Type.
  intros H N [|fuel] HN; [|by apply H]. replace N with 0%nat by lia.
  apply codec_no_read. eapply codec_writable. apply (H 0%nat 0%nat). lia.
Qed.

Lemma codec_term ctx t : term_ok ctx t → term_codec ctx t.
Proof using Type*.
  induction t as [n|n t IH|f a IHf IHa|t IH|t IH|t bs IH IHbs|tag fs IHfs|c|f|] using Term_ind';
    intros Ht; inversion_clear Ht; apply term_codec_S; intros N fuel HN; cbn [encode_term decode_term].
  - tagged VAR. by apply (codec_map (N - 4) 0 _ _ Var), codec_word.
  - tagged LAMBDA. eapply (codec_seq _ (parameter_encode 0)); [apply codec_ret|].
    apply (codec_map (N - 4) 0 _ _ (Lambda 0)), IH; [done|lia].
  - tagged APPLY. eapply codec_seq; [apply IHf; [done|lia]|].
    apply (codec_map (N - 4) 0 _ _ (Apply f)), IHa; [done|lia].
  - tagged DELAY. apply (codec_map (N - 4) 0 _ _ Delay), IH; [done|lia].
  - tagged FORCE. apply (codec_map (N - 4) 0 _ _ Force), IH; [done|lia].
  - tagged CASE. rewrite H. cbn [negb]. eapply codec_seq; [apply IH; [done|lia]|].
    apply (codec_map (N - 4) 0 _ _ (Case t)), codec_list; [lia|].
    rewrite Forall_forall in *. intros x Hx. apply IHbs; [done|auto|lia].
  - tagged CONSTR. rewrite H. cbn [negb].
    eapply codec_seq; [by apply codec_word|].
    apply codec_ext with (enc := λ e, FlatEncoder.list_with (λ e t, encode_term t e) fs e ≫= (λ e, Ok e)).
    { intros e. by destruct (FlatEncoder.list_with _ fs e). }
    apply codec_seq with fs.
    { apply codec_list; [lia|]. rewrite Forall_forall in *. intros x Hx. apply IHfs; [done|auto|lia]. }
    cbv zeta. rewrite (proj2 (Z.ltb_ge _ _)) by done. apply codec_ret.
  - tagged CONSTANT. eapply (codec_map (N - 4) 0 _ _ Constant_), codec_constant; [lia|done..].
  - tagged BUILTIN. pose proof (DefaultFunction_tag_range f).
    apply codec_ext with (enc := λ e, FlatEncoder.bits BUILTIN_TAG_WIDTH (DefaultFunction_as_u8 f) e ≫= (λ e, Ok e)).
    { intros e. by destruct (FlatEncoder.bits _ _ e). }
    apply codec_seq with (DefaultFunction_as_u8 f).
    { eapply codec_weaken; [apply (codec_bits (N - 4) _ 7); [done|lia|done]|done|lia]. }
    eapply codec_lift; [by rewrite DefaultFunction_try_from_as_u8|]. rewrite H. apply codec_ret.
  - apply codec_ext with (enc := λ e, encode_term_tag ERROR e ≫= (λ e, Ok e)).
    { intros e. by destruct (encode_term_tag ERROR e). }
    tagged ERROR. apply codec_ret.
Qed.

(** *** Programs *)

(** [decode] as one reader of the whole program. *)
Definition program_reader (fuel : nat) (v : PlutusVersion) (pv : ProtocolVersion) : DecM Program :=
  major ← FlatDecoder.word;
  minor ← FlatDecoder.word;
  patch ← FlatDecoder.word;
  term ← decode_term fuel (mkCtx (mkMachineVersion major minor patch) pv v);
  _ ← FlatDecoder.filler fuel;
  mret (mkProgram (mkMachineVersion major minor patch) term).

Lemma decode_reader bytes v pv p d :
  program_reader (FlatDecoder.bits_fuel (FlatDecoder.Decoder_new bytes)) v pv (FlatDecoder.Decoder_new bytes)
    = Ok (p, d) →
  FlatDecoder.pos d <= Z.of_nat (length (FlatDecoder.buffer d)) →
  decode bytes v pv = Ok (p, Z.of_nat (length (FlatDecoder.buffer d)) - FlatDecoder.pos d).
Proof using Type.
  unfold program_reader, decode. cbv zeta. unfold mbind, DecM_bind, mret, DecM_ret, exec_bind.
  intros H Hpos. repeat case_match; simplify_eq; try done.
  by rewrite (proj2 (Z.ltb_ge _ _)) in * by lia.
Qed.

Lemma codec_filler N fuel : (N <= fuel)%nat →
  Codec N 0 (λ e, Ok (FlatEncoder.filler e)) (FlatDecoder.filler fuel) ().
Proof using Type.
  intros HN e He. destruct (FlatEncoder.filler_Writes e He) as [Hw _].
  eexists _, _. split; [done|]. split; [exact Hw|]. split; [lia|].
  apply FlatDecoder.Reads_filler; [apply He|done].
Qed.

(** Programs that can be written and are accepted by [decode]. *)
Record program_ok (v : PlutusVersion) (pv : ProtocolVersion) (p : Program) : Prop := {
  major_ok : 0 <= major (version p) <= usize_max;
  minor_ok : 0 <= minor (version p) <= usize_max;
  patch_ok : 0 <= patch (version p) <= usize_max;
  body_ok : term_ok (mkCtx (version p) pv v) (term p) }.

(** The writer of the whole program. *)
Definition program_writer (p : Program) (e : Encoder) : exec FlatEncodeError Encoder :=
  FlatEncoder.word (major (version p)) e ≫= λ e,
  FlatEncoder.word (minor (version p)) e ≫= λ e,
  FlatEncoder.word (patch (version p)) e ≫= λ e,
  encode_term (term p) e ≫= λ e, Ok (FlatEncoder.filler e).

Lemma codec_program v pv p N fuel : (N <= fuel)%nat → program_ok v pv p →
  Codec N 0 (program_writer p) (program_reader fuel v pv) p.
Proof using Type*.
  intros HN [H1 H2 H3 H4]. destruct p as [[ma mi pa] t]; cbn [version term major minor patch] in *.
  unfold program_writer, program_reader; cbn [version term major minor patch].
  eapply codec_seq; [by apply codec_word|]. eapply codec_seq; [by apply codec_word|].
  eapply codec_seq; [by apply codec_word|]. eapply codec_seq; [by apply codec_term|].
  apply (codec_map N 0 _ _ (λ _ : (), mkProgram (mkMachineVersion ma mi pa) t) ()). by apply codec_filler.
Qed.

(** What is written starts at the first bit and ends on a byte. *)
Lemma program_writer_aligned p e : program_writer p FlatEncoder.Encoder_default = Ok e →
  encode p = Ok (FlatEncoder.buffer e) ∧ FlatEncoder.used_bits e = 0.
Proof using Type.
  unfold program_writer, encode. cbv zeta. unfold mbind, exec_bind.
  intros H. repeat case_match; simplify_eq; done.
Qed.
End Roundtrip.

Lemma dec_rest_new bytes : FlatDecoder.dec_rest (FlatDecoder.Decoder_new bytes) = bytes_bits bytes.
Proof. reflexivity. Qed.

(** C28: programs survive the flat codec: encoding a program that is
    well formed for a ledger language and protocol version succeeds, and decoding
    the bytes for the same language and version gives back the program, with no
    byte left over. *)
Theorem program_roundtrip `{C : DataCodec} `{!DataCodecLaws C}
    (p : Program) (v : PlutusVersion) (pv : ProtocolVersion) :
  program_ok v pv p →
  ∃ bytes, encode p = Ok bytes ∧ Forall is_byte bytes ∧ decode bytes v pv = Ok (p, 0).
Proof.
  intros Hp.
  assert (∀ N, Codec N 0 (program_writer p) (program_reader N v pv) p) as Hc by (intros; by apply codec_program).
  destruct (Hc 0%nat FlatEncoder.Encoder_default FlatEncoder.enc_ok_default) as (e & _ & He & _).
  destruct (program_writer_aligned p e He) as [Henc Hu]. exists (FlatEncoder.buffer e).
  set (d := FlatDecoder.Decoder_new (FlatEncoder.buffer e)).
  destruct (Hc (FlatDecoder.bits_fuel d) FlatEncoder.Encoder_default FlatEncoder.enc_ok_default)
    as (e' & bs & He' & Hw & _ & Hr). rewrite He in He'. simplify_eq.
  destruct Hw as [Hok Hbits]. split; [done|]. split; [apply Hok|].
  unfold FlatEncoder.enc_bits in Hbits at 1. rewrite Hu in Hbits.
  change (val_bits (Z.to_nat 0) _) with (@nil bool) in Hbits. rewrite app_nil_r in Hbits.
  assert (dec_ok d) as Hd by (apply Decoder_new_ok, Hok).
  specialize (Hr d [] Hd eq_refl). rewrite app_nil_r in Hr. unfold d in Hr at 1. rewrite dec_rest_new in Hr.
  specialize (Hr Hbits (FlatDecoder.bits_fuel_enough d Hd)).
  assert (FlatDecoder.pos (FlatDecoder.adv d (length bs)) = Z.of_nat (length (FlatEncoder.buffer e'))) as Hpos.
  { change (length bs) with (length ([] ++ bs)). change ([] ++ bs) with (FlatEncoder.enc_bits FlatEncoder.Encoder_default ++ bs).
    rewrite <- Hbits, length_bytes_bits. cbn.
    replace (Z.of_nat _) with (Z.of_nat (length (FlatEncoder.buffer e')) * 8) at 1 by lia. apply Z.div_mul. lia. }
  rewrite (decode_reader _ v pv p _ Hr); [rewrite Hpos; cbn; do 2 f_equal; lia|rewrite Hpos; cbn; lia].
Qed.

(** The smallest data items of CBOR, as a codec that meets the laws: used by
    the witnesses below. *)
#[local] Instance small_data_codec : DataCodec := {|
  encode_data d := match d with
    | DInteger i => if (0 <=? i) && (i <=? 23) then Ok [i] else Err FlatEncoder.EncodeCbor
    | _ => Err FlatEncoder.EncodeCbor
    end;
  decode_data bs := match bs with
    | [i] => if (0 <=? i) && (i <=? 23) then Ok (DInteger i) else Err FlatDecoder.DecodeCbor
    | _ => Err FlatDecoder.DecodeCbor
    end |}.

#[local] Instance small_data_codec_laws : DataCodecLaws small_data_codec.
Proof.
  split.
  - intros [| |i| |]; cbn; try done. by destruct (_ && _).
  - intros [|i [|? ?]]; cbn; try done. by destruct (_ && _).
  - intros [| |i| |] out; cbn; try done. destruct (_ && _) eqn:Hi; [|done]. bool_to_prop.
    intros [= <-]. repeat constructor; lia.
  - intros [| |i| |] out; cbn; try done. destruct (_ && _) eqn:Hi; [|done].
    intros [= <-]. by rewrite Hi.
Qed.

Lemma decode_total_witness :
  terminates (decode [1; 1; 0; 72; 2; 129] V3 PROTOCOL_VERSION_11) = true.
Proof. apply decode_total. repeat constructor; lia. Defined.

(** [(program 1.1.0 (constr 1 (con (list data) [I 5]) (lam x (x addInteger))))]. *)
Definition sample_program : Program :=
  mkProgram V1_1_0 (Constr 1 [Constant_ (ConProtoList TyData [ConData (DInteger 5)]);
                              Lambda 0 (Apply (Var 1) (Builtin AddInteger))]).

Lemma sample_program_ok : program_ok V3 PROTOCOL_VERSION_11 sample_program.
Proof.
  split; [cbn; unfold usize_max, u64_max; lia..|].
  constructor; [done|unfold usize_max, u64_max; lia| |vm_compute; discriminate].
  constructor; [|constructor; [|constructor]].
  - apply (constant_ok _ (TyList TyData)); [|done|vm_compute; discriminate].
    cbn. eexists. split; [done|]. constructor; [|constructor]. by eexists _, _.
  - constructor. constructor; [|by constructor]. constructor. unfold usize_max, u64_max. lia.
Qed.

Lemma program_roundtrip_witness : ∃ bytes,
  encode sample_program = Ok bytes ∧ Forall is_byte bytes ∧
  decode bytes V3 PROTOCOL_VERSION_11 = Ok (sample_program, 0).
Proof. apply program_roundtrip, sample_program_ok. Defined.

(** ** What a decoded program satisfies *)

Lemma bind_DecM_Ok {A B} (m : DecM A) (f : A → DecM B) d b d'' :
  (m ≫= f) d = Ok (b, d'') → ∃ a d', m d = Ok (a, d') ∧ f a d' = Ok (b, d'').
Proof. unfold mbind, DecM_bind. destruct (m d) as [[a d']| | |]; naive_solver. Qed.

Ltac dec_inv :=
  repeat match goal with
  | H : (_ ≫= _) _ = Ok (_, _) |- _ =>
      let a := fresh "a" in let d := fresh "d" in let E := fresh "Hr" in
      apply bind_DecM_Ok in H as (a & d & E & H)
  | H : mret _ _ = Ok _ |- _ => unfold mret, DecM_ret in H; simplify_eq
  | H : FlatDecoder.fail _ _ = Ok _ |- _ => discriminate H
  | H : FlatDecoder.out_of_fuel _ = Ok _ |- _ => discriminate H
  | H : (if ?b then _ else _) _ = Ok _ |- _ => destruct b eqn:?
  end.

(** The items of a decoded list were each read by the item reader. *)
Lemma list_with_items {T} (P : T → Prop) fuel (m : DecM T) d l d' :
  (∀ d x d', m d = Ok (x, d') → P x) →
  FlatDecoder.list_with fuel m d = Ok (l, d') → Forall P l.
Proof.
  intros HP. revert d l d'. induction fuel as [|fuel IH]; intros d l d' H; [done|].
  cbn [FlatDecoder.list_with] in H. dec_inv; [|constructor].
  constructor; [by eapply HP|by eapply IH].
Qed.

(** Constants of the type announced by their header, with well-formed strings
    and canonical values. *)
Fixpoint const_typed (t : Typ) (c : Constant) : Prop :=
  match t with
  | TyInteger => ∃ i, c = ConInteger i
  | TyByteString => ∃ b, c = ConByteString b
  | TyString => ∃ s, c = ConString s ∧ FlatDecoder.utf8_valid s = true
  | TyUnit => c = ConUnit
  | TyBool => ∃ b, c = ConBoolean b
  | TyData => ∃ d, c = ConData d
  | TyValue => ∃ v, c = ConValue v ∧ value_wf v ∧ short_names v
  | TyList s => ∃ l, c = ConProtoList s l ∧ Forall (const_typed s) l
  | TyArray s => ∃ l, c = ConProtoArray s l ∧ Forall (const_typed s) l
  | TyPair t1 t2 => ∃ a b, c = ConProtoPair t1 t2 a b ∧ const_typed t1 a ∧ const_typed t2 b
  | TyBls12_381G1Element | TyBls12_381G2Element | TyBls12_381MlResult => False
  end.

Lemma decode_tokens_sound fuel prev d ts d' : decode_tokens fuel prev d = Ok (ts, d') →
  asc token_name ts ∧ Forall token_ok ts ∧ Forall (short_key token_name) ts ∧ after token_name prev ts.
Proof.
  revert prev d ts d'. induction fuel as [|fuel IH]; intros prev d ts d' H; [done|].
  cbn [decode_tokens] in H. unfold decode_token in H. dec_inv.
  2: { repeat split; try constructor. destruct prev; constructor. }
  match goal with H : decode_tokens _ _ _ = Ok _ |- _ => apply IH in H as (Ha & Hok & Hs & Haft) end.
  bool_to_prop. destruct (check_quantity_range _) as [[]| | |] eqn:Hq; try done. apply check_quantity_range_Ok in Hq.
  match goal with |- asc token_name ?l ∧ _ => assert (asc token_name l) as Hasc by (by apply after_Some_asc) end.
  split; [done|]. split; [by constructor; [split|]|]. split; [by constructor|]. by apply after_cons.
Qed.

Lemma decode_currencies_sound fuel prev d es d' : decode_currencies fuel prev d = Ok (es, d') →
  asc currency es ∧ Forall entry_ok es ∧
  Forall (λ e, short_key currency e ∧ Forall (short_key token_name) (tokens e)) es ∧ after currency prev es.
Proof.
  revert prev d es d'. induction fuel as [|fuel IH]; intros prev d es d' H; [done|].
  cbn [decode_currencies] in H. unfold decode_currency in H. dec_inv.
  2: { repeat split; try constructor. destruct prev; constructor. }
  match goal with H : decode_tokens _ _ _ = Ok _ |- _ =>
    apply decode_tokens_sound in H as (Hta & Htok & Hts & _) end.
  match goal with H : decode_currencies _ _ _ = Ok _ |- _ => apply IH in H as (Ha & Hok & Hs & Haft) end.
  bool_to_prop.
  match goal with |- asc currency ?l ∧ _ => assert (asc currency l) as Hasc by (by apply after_Some_asc) end.
  split; [done|]. split; [by constructor|]. split; [by constructor|]. by apply after_cons.
Qed.

Section Sound.
Context `{C : DataCodec}.

Lemma decode_constant_with_type_typed fuel t d c d' :
  decode_constant_with_type fuel t d = Ok (c, d') → const_typed t c.
Proof using Type.
  revert d c d'. induction t as [| | | | |t IH|t IH|t1 IH1 t2 IH2| | | | |]; intros d c d' H;
    cbn [decode_constant_with_type] in H; unfold FlatDecoder.utf8, decode_value in *; dec_inv; cbn; eauto 10.
  - eexists. split; [done|]. by eapply list_with_items.
  - eexists. split; [done|]. by eapply list_with_items.
  - eexists. split; [done|].
    match goal with H : decode_currencies _ _ _ = Ok _ |- _ =>
      apply decode_currencies_sound in H as (Ha & Hok & Hs & _) end.
    split; [by apply with_stats_wf|done].
Qed.

(** Terms whose builtins, [constr] and [case] are available under [ctx], and
    whose constants have some type. *)
Inductive term_available (ctx : Ctx) : Term → Prop :=
| var_av n : term_available ctx (Var n)
| lambda_av n t : term_available ctx t → term_available ctx (Lambda n t)
| apply_av f a : term_available ctx f → term_available ctx a → term_available ctx (Apply f a)
| delay_av t : term_available ctx t → term_available ctx (Delay t)
| force_av t : term_available ctx t → term_available ctx (Force t)
| case_av t bs : Ctx_is_constr_case_available ctx = true →
    term_available ctx t → Forall (term_available ctx) bs → term_available ctx (Case t bs)
| constr_av tag fs : Ctx_is_constr_case_available ctx = true →
    Forall (term_available ctx) fs → Z.of_nat (length fs) <= max_constr_fields ctx →
    term_available ctx (Constr tag fs)
| constant_av t c : const_typed t c → term_available ctx (Constant_ c)
| builtin_av f : is_builtin_available ctx f = true → term_available ctx (Builtin f)
| error_av : term_available ctx Error.

Lemma decode_term_available fuel ctx d t d' :
  decode_term fuel ctx d = Ok (t, d') → term_available ctx t.
Proof using Type.
  revert d t d'. induction fuel as [|fuel IH]; intros d t d' H; [done|].
  cbn [decode_term] in H. unfold decode_constant in H. dec_inv; bool_to_prop; try by (econstructor; eauto).
  - match goal with p : Typ * Z |- _ => destruct p as [ty consumed] end. dec_inv.
    eapply constant_av, decode_constant_with_type_typed. eassumption.
  - constructor; [done| |done]. by eapply list_with_items.
  - constructor; [done|by eapply IH|]. by eapply list_with_items.
Qed.
End Sound.

Lemma decode_available `{C : DataCodec} (bytes : list Z) (v : PlutusVersion) (pv : ProtocolVersion)
    (p : Program) (remainder : Z) :
  decode bytes v pv = Ok (p, remainder) →
  term_available (mkCtx (version p) pv v) (term p) ∧ 0 <= remainder.
Proof.
  intros H. unfold decode in H. cbv zeta in H. exec_inv.
  repeat match goal with H : (let '(_, _) := ?p in _) = Ok _ |- _ => destruct p; exec_inv end.
  case_bool_in H; [done|]. simplify_eq. split; [by eapply decode_term_available|lia].
Qed.

(** *** The grammar of the format

    [items R d l d']: from [d] to [d'] the input holds the items [l], each announced
    by a set bit and read by [R], and a clear bit after the last one. *)
Inductive items {T} (R : FlatDecoder.Decoder → T → FlatDecoder.Decoder → Prop)
  : FlatDecoder.Decoder → list T → FlatDecoder.Decoder → Prop :=
| items_end d d' : FlatDecoder.bit d = Ok (false, d') → items R d [] d'
| items_next d d1 d2 d' x l :
    FlatDecoder.bit d = Ok (true, d1) → R d1 x d2 → items R d2 l d' → items R d (x :: l) d'.

Lemma list_with_read {T} (R : FlatDecoder.Decoder → T → FlatDecoder.Decoder → Prop) fuel (m : DecM T) d l d' :
  (∀ d x d', m d = Ok (x, d') → R d x d') →
  FlatDecoder.list_with fuel m d = Ok (l, d') → items R d l d'.
Proof.
  intros HR. revert d l d'. induction fuel as [|fuel IH]; intros d l d' H; [done|].
  cbn [FlatDecoder.list_with] in H. dec_inv; [|by constructor]. econstructor; [eassumption|by apply HR|by apply IH].
Qed.

(** A type parsed from tags is the one the tags spell. *)
Lemma type_from_tags_inv fuel tags t n : type_from_tags fuel tags = Ok (t, n) →
  n = Z.of_nat (length (type_tags t)) ∧ ∃ rest, tags = type_tags t ++ rest.
Proof.
  revert tags t n. induction fuel as [|fuel IH]; intros tags t n H; [done|].
  destruct tags as [|x rest]; [done|]. cbn [type_from_tags] in H.
  repeat match type of H with (if _ =? _ then Ok _ else _) = _ => case_bool_in H; [simplify_eq; split; [done|by eexists]|] end.
  destruct (_ && _) eqn:Hb in H; [|clear Hb; destruct (_ && _) eqn:Hb in H; [|clear Hb; destruct (_ && _) eqn:Hb in H]].
  all: bool_to_prop; repeat match goal with H : bool_decide _ = true |- _ => apply bool_decide_eq_true in H end.
  1,2: apply bind_Ok in H as ([s c] & Hs & H); simplify_eq; destruct rest as [|y rest]; [done|];
    change (drop 1 (y :: rest)) with rest in *; simplify_eq/=; apply IH in Hs as (-> & r & ->); split; [lia|by exists r].
  - cbv zeta in H. apply bind_Ok in H as ([s c] & Hs & H). destruct rest as [|y [|z rest]]; [done..|].
    change (drop 1 (y :: z :: rest)) with (z :: rest) in *. change (drop 2 (y :: z :: rest)) with rest in *. simplify_eq/=.
    apply IH in Hs as (-> & r & ->). case_bool_in H; [done|]. apply bind_Ok in H as ([s2 c2] & Hs2 & H). simplify_eq.
    rewrite Nat2Z.id, drop_app_length in Hs2. apply IH in Hs2 as (-> & r2 & ->).
    cbn [type_tags length]. split; [rewrite length_app; lia|]. exists r2. cbn. by rewrite <- app_assoc.
  - repeat match type of H with (if _ =? _ then Ok _ else _) = _ => case_bool_in H; [simplify_eq; split; [done|by eexists]|] end. done.
Qed.

Section Grammar.
Context `{C : DataCodec}.
Implicit Types d : FlatDecoder.Decoder.

(** [reads ctx d t d']: from [d] to [d'] the input spells the term [t].  A constant is
    announced by the tags that spell its type, [type_tags]; it is read at that type and has it.
    A builtin is written as its number; it is available, and so are [constr] and [case]. *)
Inductive reads (ctx : Ctx) : FlatDecoder.Decoder → Term → FlatDecoder.Decoder → Prop :=
| reads_var d d1 d2 n :
    FlatDecoder.bits8 TERM_TAG_WIDTH d = Ok (VAR, d1) → FlatDecoder.word d1 = Ok (n, d2) → reads ctx d (Var n) d2
| reads_lambda d d1 d2 t :
    FlatDecoder.bits8 TERM_TAG_WIDTH d = Ok (LAMBDA, d1) → reads ctx d1 t d2 → reads ctx d (Lambda 0 t) d2
| reads_apply d d1 d2 d3 f a :
    FlatDecoder.bits8 TERM_TAG_WIDTH d = Ok (APPLY, d1) → reads ctx d1 f d2 → reads ctx d2 a d3 → reads ctx d (Apply f a) d3
| reads_delay d d1 d2 t :
    FlatDecoder.bits8 TERM_TAG_WIDTH d = Ok (DELAY, d1) → reads ctx d1 t d2 → reads ctx d (Delay t) d2
| reads_force d d1 d2 t :
    FlatDecoder.bits8 TERM_TAG_WIDTH d = Ok (FORCE, d1) → reads ctx d1 t d2 → reads ctx d (Force t) d2
| reads_error d d1 : FlatDecoder.bits8 TERM_TAG_WIDTH d = Ok (ERROR, d1) → reads ctx d Error d1
| reads_constant fuel d d1 d2 d3 ty c :
    FlatDecoder.bits8 TERM_TAG_WIDTH d = Ok (CONSTANT, d1) →
    items (λ d x d', FlatDecoder.bits8 CONST_TAG_WIDTH d = Ok (x, d')) d1 (type_tags ty) d2 →
    Z.of_nat (length (type_tags ty)) <= max_type_header_tags ctx →
    decode_constant_with_type fuel ty d2 = Ok (c, d3) → const_typed ty c → reads ctx d (Constant_ c) d3
| reads_builtin d d1 d2 f :
    FlatDecoder.bits8 TERM_TAG_WIDTH d = Ok (BUILTIN, d1) →
    FlatDecoder.bits8 BUILTIN_TAG_WIDTH d1 = Ok (DefaultFunction_as_u8 f, d2) →
    is_builtin_available ctx f = true → reads ctx d (Builtin f) d2
| reads_constr d d1 d2 d3 tag fs :
    FlatDecoder.bits8 TERM_TAG_WIDTH d = Ok (CONSTR, d1) → Ctx_is_constr_case_available ctx = true →
    FlatDecoder.word d1 = Ok (tag, d2) → items (reads ctx) d2 fs d3 →
    Z.of_nat (length fs) <= max_constr_fields ctx → reads ctx d (Constr tag fs) d3
| reads_case d d1 d2 d3 t bs :
    FlatDecoder.bits8 TERM_TAG_WIDTH d = Ok (CASE, d1) → Ctx_is_constr_case_available ctx = true →
    reads ctx d1 t d2 → items (reads ctx) d2 bs d3 → reads ctx d (Case t bs) d3.

Lemma decode_constant_reads fuel ctx d d1 c d' : FlatDecoder.bits8 TERM_TAG_WIDTH d = Ok (CONSTANT, d1) →
  decode_constant fuel ctx d1 = Ok (c, d') → reads ctx d (Constant_ c) d'.
Proof using Type.
  intros Ht H. unfold decode_constant, decode_constant_tags, decode_constant_tag in H. dec_inv.
  match goal with p : Typ * Z |- _ => destruct p as [ty consumed] end. dec_inv. bool_to_prop.
  unfold FlatDecoder.lift in *. exec_inv. simplify_eq.
  match goal with H : type_from_tags _ _ = _ |- _ => apply type_from_tags_inv in H as (Hn & rest & ->) end.
  rewrite length_app in *. assert (rest = []) as -> by (apply nil_length_inv; lia). rewrite app_nil_r in *. cbn [length] in *.
  eapply reads_constant; [exact Ht|by eapply list_with_read|lia|eassumption|].
  by eapply decode_constant_with_type_typed.
Qed.

Lemma decode_term_reads fuel ctx d t d' : decode_term fuel ctx d = Ok (t, d') → reads ctx d t d'.
Proof using Type.
  revert d t d'. induction fuel as [|fuel IH]; intros d t d' H; [done|].
  cbn [decode_term] in H. unfold var_decode, parameter_decode in H. dec_inv; bool_to_prop; subst; try by (econstructor; eauto).
  - by eapply decode_constant_reads.
  - unfold FlatDecoder.lift in *. exec_inv. simplify_eq.
    match goal with H : DefaultFunction_try_from _ = _ |- _ => apply DefaultFunction_as_u8_try_from in H as <- end.
    by econstructor.
  - econstructor; [eassumption|done|eassumption|by eapply list_with_read|lia].
  - econstructor; [eassumption|done|by eapply IH|by eapply list_with_read].
Qed.
End Grammar.

(** C30: whatever bytes [decode] accepts spell the program it returns, in the grammar of the
    format: three words are its version; every constant comes right after the tags of a type, at most
    [max_type_header_tags] of them, and has that type, with well-formed strings and canonical
    values; every builtin is written as its number and available under the ledger language and the
    protocol version; [constr] and [case] occur from version 1.1.0 on and within the width bound;
    the padding follows, and the reported number of trailing bytes is what is left, never negative. *)
Theorem decode_sound `{C : DataCodec} (bytes : list Z) (v : PlutusVersion) (pv : ProtocolVersion)
    (p : Program) (remainder : Z) :
  decode bytes v pv = Ok (p, remainder) →
  ∃ d1 d2 d3 d4 d5,
    FlatDecoder.word (FlatDecoder.Decoder_new bytes) = Ok (major (version p), d1) ∧
    FlatDecoder.word d1 = Ok (minor (version p), d2) ∧ FlatDecoder.word d2 = Ok (patch (version p), d3) ∧
    reads (mkCtx (version p) pv v) d3 (term p) d4 ∧
    FlatDecoder.filler (FlatDecoder.bits_fuel (FlatDecoder.Decoder_new bytes)) d4 = Ok ((), d5) ∧
    remainder = Z.of_nat (length (FlatDecoder.buffer d5)) - FlatDecoder.pos d5 ∧ 0 <= remainder.
Proof.
  intros H. unfold decode in H. cbv zeta in H. exec_inv.
  repeat match goal with H : (let '(_, _) := ?p in _) = Ok _ |- _ => destruct p; exec_inv end.
  case_bool_in H; [done|]. simplify_eq. destruct u. cbn [version term major minor patch].
  eexists _, _, _, _, _. split_and!; [done..| |done|done|lia]. by eapply decode_term_reads.
Qed.

Lemma decode_sound_witness : ∃ d3 d4,
  reads (mkCtx V1_1_0 PROTOCOL_VERSION_11 V3) d3 (Constant_ (ConInteger 5)) d4 ∧
  FlatDecoder.buffer d3 = [1; 1; 0; 72; 2; 129].
Proof.
  destruct (decode_sound [1; 1; 0; 72; 2; 129] V3 PROTOCOL_VERSION_11 (mkProgram V1_1_0 (Constant_ (ConInteger 5))) 0)
    as (d1 & d2 & d3 & d4 & d5 & H1 & H2 & H3 & Hr & _); [vm_compute; reflexivity|].
  exists d3, d4. split; [exact Hr|]. vm_compute in H1. injection H1 as <-. vm_compute in H2. injection H2 as <-.
  vm_compute in H3. injection H3 as <-. reflexivity.
Defined.
