(* ===== verification/ParamName.v ===== *)
(** * Cost parameters

    Models [amaru-uplc/src/machine/cost_model/param_name.rs]: the names of the
    cost parameters, their order in the arrays of each ledger language, and the
    map built from such an array; and the arrays of
    [amaru-kernel/src/cardano/cost_model.rs] used when no protocol parameters are
    at hand. *)

From S2P Require Import Prelude UplcSyntax.

(** [ParamName]: every cost parameter of every ledger language. *)
Inductive ParamName :=
  | AddIntegerCpuIntercept | AddIntegerCpuSlope | AddIntegerMemIntercept | AddIntegerMemSlope
  | AndByteStringCpuIntercept | AndByteStringCpuSlope1 | AndByteStringCpuSlope2 | AndByteStringMemIntercept
  | AndByteStringMemSlope | AppendByteStringCpuIntercept | AppendByteStringCpuSlope
  | AppendByteStringMemIntercept | AppendByteStringMemSlope | AppendStringCpuIntercept | AppendStringCpuSlope
  | AppendStringMemIntercept | AppendStringMemSlope | BDataCpu | BDataMem | Blake2b224CpuIntercept
  | Blake2b224CpuSlope | Blake2b224Mem | Blake2b256CpuIntercept | Blake2b256CpuSlope | Blake2b256Mem
  | BlsG1AddCpu | BlsG1AddMem | BlsG1CompressCpu | BlsG1CompressMem | BlsG1EqualCpu | BlsG1EqualMem
  | BlsG1HashToGroupCpuIntercept | BlsG1HashToGroupCpuSlope | BlsG1HashToGroupMem
  | BlsG1MultiScalarMulCpuIntercept | BlsG1MultiScalarMulCpuSlope | BlsG1MultiScalarMulMem | BlsG1NegCpu
  | BlsG1NegMem | BlsG1ScalarMulCpuIntercept | BlsG1ScalarMulCpuSlope | BlsG1ScalarMulMem
  | BlsG1UncompressCpu | BlsG1UncompressMem | BlsG2AddCpu | BlsG2AddMem | BlsG2CompressCpu | BlsG2CompressMem
  | BlsG2EqualCpu | BlsG2EqualMem | BlsG2HashToGroupCpuIntercept | BlsG2HashToGroupCpuSlope
  | BlsG2HashToGroupMem | BlsG2MultiScalarMulCpuIntercept | BlsG2MultiScalarMulCpuSlope
  | BlsG2MultiScalarMulMem | BlsG2NegCpu | BlsG2NegMem | BlsG2ScalarMulCpuIntercept | BlsG2ScalarMulCpuSlope
  | BlsG2ScalarMulMem | BlsG2UncompressCpu | BlsG2UncompressMem | BlsFinalVerifyCpu | BlsFinalVerifyMem
  | BlsMillerLoopCpu | BlsMillerLoopMem | BlsMulMlResultCpu | BlsMulMlResultMem | ByteStringToIntegerCpuC0
  | ByteStringToIntegerCpuC1 | ByteStringToIntegerCpuC2 | ByteStringToIntegerMemIntercept
  | ByteStringToIntegerMemSlope | CekApplyCpu | CekApplyMem | CekBuiltinCpu | CekBuiltinMem | CekCaseCpu
  | CekCaseMem | CekConstCpu | CekConstMem | CekConstrCpu | CekConstrMem | CekDelayCpu | CekDelayMem
  | CekForceCpu | CekForceMem | CekLamCpu | CekLamMem | CekStartupCpu | CekStartupMem | CekVarCpu | CekVarMem
  | ChooseDataCpu | ChooseDataMem | ChooseListCpu | ChooseListMem | ChooseUnitCpu | ChooseUnitMem
  | ComplementByteStringCpuIntercept | ComplementByteStringCpuSlope | ComplementByteStringMemIntercept
  | ComplementByteStringMemSlope | ConsByteStringCpuIntercept | ConsByteStringCpuSlope
  | ConsByteStringMemIntercept | ConsByteStringMemSlope | ConstrDataCpu | ConstrDataMem
  | CountSetBitsCpuIntercept | CountSetBitsCpuSlope | CountSetBitsMem | DecodeUtf8CpuIntercept
  | DecodeUtf8CpuSlope | DecodeUtf8MemIntercept | DecodeUtf8MemSlope | DivideIntegerCpuConstant
  | DivideIntegerCpuC00 | DivideIntegerCpuC01 | DivideIntegerCpuC02 | DivideIntegerCpuC10
  | DivideIntegerCpuC11 | DivideIntegerCpuC20 | DivideIntegerCpuIntercept | DivideIntegerCpuMinimum
  | DivideIntegerCpuSlope | DivideIntegerMemIntercept | DivideIntegerMemMinimum | DivideIntegerMemSlope
  | DropListCpuIntercept | DropListCpuSlope | DropListMem | EncodeUtf8CpuIntercept | EncodeUtf8CpuSlope
  | EncodeUtf8MemIntercept | EncodeUtf8MemSlope | EqualsByteStringCpuConstant | EqualsByteStringCpuIntercept
  | EqualsByteStringCpuSlope | EqualsByteStringMem | EqualsDataCpuIntercept | EqualsDataCpuSlope
  | EqualsDataMem | EqualsIntegerCpuIntercept | EqualsIntegerCpuSlope | EqualsIntegerMem
  | EqualsStringCpuConstant | EqualsStringCpuIntercept | EqualsStringCpuSlope | EqualsStringMem
  | ExpModIntegerCpuC00 | ExpModIntegerCpuC11 | ExpModIntegerCpuC12 | ExpModIntegerMemIntercept
  | ExpModIntegerMemSlope | FindFirstSetBitCpuIntercept | FindFirstSetBitCpuSlope | FindFirstSetBitMem
  | FstPairCpu | FstPairMem | HeadListCpu | HeadListMem | IDataCpu | IDataMem | IfThenElseCpu | IfThenElseMem
  | IndexArrayCpu | IndexArrayMem | IndexByteStringCpu | IndexByteStringMem | InsertCoinCpuIntercept
  | InsertCoinCpuSlope | InsertCoinMemIntercept | InsertCoinMemSlope | IntegerToByteStringCpuC0
  | IntegerToByteStringCpuC1 | IntegerToByteStringCpuC2 | IntegerToByteStringMemIntercept
  | IntegerToByteStringMemSlope | Keccak256CpuIntercept | Keccak256CpuSlope | Keccak256Mem | LengthOfArrayCpu
  | LengthOfArrayMem | LengthOfByteStringCpu | LengthOfByteStringMem | LessThanByteStringCpuIntercept
  | LessThanByteStringCpuSlope | LessThanByteStringMem | LessThanEqualsByteStringCpuIntercept
  | LessThanEqualsByteStringCpuSlope | LessThanEqualsByteStringMem | LessThanEqualsIntegerCpuIntercept
  | LessThanEqualsIntegerCpuSlope | LessThanEqualsIntegerMem | LessThanIntegerCpuIntercept
  | LessThanIntegerCpuSlope | LessThanIntegerMem | ListDataCpu | ListDataMem | ListToArrayCpuIntercept
  | ListToArrayCpuSlope | ListToArrayMemIntercept | ListToArrayMemSlope | LookupCoinCpuIntercept
  | LookupCoinCpuSlope | LookupCoinMem | MapDataCpu | MapDataMem | MkConsCpu | MkConsMem | MkNilDataCpu
  | MkNilDataMem | MkNilPairDataCpu | MkNilPairDataMem | MkPairDataCpu | MkPairDataMem
  | ModIntegerCpuConstant | ModIntegerCpuC00 | ModIntegerCpuC01 | ModIntegerCpuC02 | ModIntegerCpuC10
  | ModIntegerCpuC11 | ModIntegerCpuC20 | ModIntegerCpuIntercept | ModIntegerCpuMinimum | ModIntegerCpuSlope
  | ModIntegerMemIntercept | ModIntegerMemMinimum | ModIntegerMemSlope | MultiplyIntegerCpuIntercept
  | MultiplyIntegerCpuSlope | MultiplyIntegerMemIntercept | MultiplyIntegerMemSlope | NullListCpu
  | NullListMem | OrByteStringCpuIntercept | OrByteStringCpuSlope1 | OrByteStringCpuSlope2
  | OrByteStringMemIntercept | OrByteStringMemSlope | QuotientIntegerCpuConstant | QuotientIntegerCpuC00
  | QuotientIntegerCpuC01 | QuotientIntegerCpuC02 | QuotientIntegerCpuC10 | QuotientIntegerCpuC11
  | QuotientIntegerCpuC20 | QuotientIntegerCpuIntercept | QuotientIntegerCpuMinimum | QuotientIntegerCpuSlope
  | QuotientIntegerMemIntercept | QuotientIntegerMemMinimum | QuotientIntegerMemSlope | ReadBitCpu
  | ReadBitMem | RemainderIntegerCpuConstant | RemainderIntegerCpuC00 | RemainderIntegerCpuC01
  | RemainderIntegerCpuC02 | RemainderIntegerCpuC10 | RemainderIntegerCpuC11 | RemainderIntegerCpuC20
  | RemainderIntegerCpuIntercept | RemainderIntegerCpuMinimum | RemainderIntegerCpuSlope
  | RemainderIntegerMemIntercept | RemainderIntegerMemMinimum | RemainderIntegerMemSlope
  | ReplicateByteCpuIntercept | ReplicateByteCpuSlope | ReplicateByteMemIntercept | ReplicateByteMemSlope
  | Ripemd160CpuIntercept | Ripemd160CpuSlope | Ripemd160Mem | RotateByteStringCpuIntercept
  | RotateByteStringCpuSlope | RotateByteStringMemIntercept | RotateByteStringMemSlope
  | ScaleValueCpuIntercept | ScaleValueCpuSlope | ScaleValueMemIntercept | ScaleValueMemSlope
  | SerialiseDataCpuIntercept | SerialiseDataCpuSlope | SerialiseDataMemIntercept | SerialiseDataMemSlope
  | Sha2256CpuIntercept | Sha2256CpuSlope | Sha2256Mem | Sha3256CpuIntercept | Sha3256CpuSlope | Sha3256Mem
  | ShiftByteStringCpuIntercept | ShiftByteStringCpuSlope | ShiftByteStringMemIntercept
  | ShiftByteStringMemSlope | SliceByteStringCpuIntercept | SliceByteStringCpuSlope
  | SliceByteStringMemIntercept | SliceByteStringMemSlope | SndPairCpu | SndPairMem
  | SubtractIntegerCpuIntercept | SubtractIntegerCpuSlope | SubtractIntegerMemIntercept
  | SubtractIntegerMemSlope | TailListCpu | TailListMem | TraceCpu | TraceMem | UnBDataCpu | UnBDataMem
  | UnConstrDataCpu | UnConstrDataMem | UnIDataCpu | UnIDataMem | UnListDataCpu | UnListDataMem
  | UnMapDataCpu | UnMapDataMem | UnValueDataCpuC0 | UnValueDataCpuC1 | UnValueDataCpuC2
  | UnValueDataMemIntercept | UnValueDataMemSlope | UnionValueCpuC00 | UnionValueCpuC01 | UnionValueCpuC10
  | UnionValueCpuC11 | UnionValueMemIntercept | UnionValueMemSlope | ValueContainsCpuConstant
  | ValueContainsCpuIntercept | ValueContainsCpuSlope1 | ValueContainsCpuSlope2 | ValueContainsMem
  | ValueDataCpuIntercept | ValueDataCpuSlope | ValueDataMemIntercept | ValueDataMemSlope
  | VerifyEcdsaSecp256k1SignatureCpu | VerifyEcdsaSecp256k1SignatureMem | VerifyEd25519SignatureCpuIntercept
  | VerifyEd25519SignatureCpuSlope | VerifyEd25519SignatureMem | VerifySchnorrSecp256k1SignatureCpuIntercept
  | VerifySchnorrSecp256k1SignatureCpuSlope | VerifySchnorrSecp256k1SignatureMem | WriteBitsCpuIntercept
  | WriteBitsCpuSlope | WriteBitsMemIntercept | WriteBitsMemSlope | XorByteStringCpuIntercept
  | XorByteStringCpuSlope1 | XorByteStringCpuSlope2 | XorByteStringMemIntercept | XorByteStringMemSlope.

(** Position of a parameter in its declaration. *)
Definition ParamName_index (p : ParamName) : nat :=
  match p with
  | AddIntegerCpuIntercept => 0 | AddIntegerCpuSlope => 1 | AddIntegerMemIntercept => 2
  | AddIntegerMemSlope => 3 | AndByteStringCpuIntercept => 4 | AndByteStringCpuSlope1 => 5
  | AndByteStringCpuSlope2 => 6 | AndByteStringMemIntercept => 7 | AndByteStringMemSlope => 8
  | AppendByteStringCpuIntercept => 9 | AppendByteStringCpuSlope => 10 | AppendByteStringMemIntercept => 11
  | AppendByteStringMemSlope => 12 | AppendStringCpuIntercept => 13 | AppendStringCpuSlope => 14
  | AppendStringMemIntercept => 15 | AppendStringMemSlope => 16 | BDataCpu => 17 | BDataMem => 18
  | Blake2b224CpuIntercept => 19 | Blake2b224CpuSlope => 20 | Blake2b224Mem => 21
  | Blake2b256CpuIntercept => 22 | Blake2b256CpuSlope => 23 | Blake2b256Mem => 24 | BlsG1AddCpu => 25
  | BlsG1AddMem => 26 | BlsG1CompressCpu => 27 | BlsG1CompressMem => 28 | BlsG1EqualCpu => 29
  | BlsG1EqualMem => 30 | BlsG1HashToGroupCpuIntercept => 31 | BlsG1HashToGroupCpuSlope => 32
  | BlsG1HashToGroupMem => 33 | BlsG1MultiScalarMulCpuIntercept => 34 | BlsG1MultiScalarMulCpuSlope => 35
  | BlsG1MultiScalarMulMem => 36 | BlsG1NegCpu => 37 | BlsG1NegMem => 38 | BlsG1ScalarMulCpuIntercept => 39
  | BlsG1ScalarMulCpuSlope => 40 | BlsG1ScalarMulMem => 41 | BlsG1UncompressCpu => 42
  | BlsG1UncompressMem => 43 | BlsG2AddCpu => 44 | BlsG2AddMem => 45 | BlsG2CompressCpu => 46
  | BlsG2CompressMem => 47 | BlsG2EqualCpu => 48 | BlsG2EqualMem => 49 | BlsG2HashToGroupCpuIntercept => 50
  | BlsG2HashToGroupCpuSlope => 51 | BlsG2HashToGroupMem => 52 | BlsG2MultiScalarMulCpuIntercept => 53
  | BlsG2MultiScalarMulCpuSlope => 54 | BlsG2MultiScalarMulMem => 55 | BlsG2NegCpu => 56 | BlsG2NegMem => 57
  | BlsG2ScalarMulCpuIntercept => 58 | BlsG2ScalarMulCpuSlope => 59 | BlsG2ScalarMulMem => 60
  | BlsG2UncompressCpu => 61 | BlsG2UncompressMem => 62 | BlsFinalVerifyCpu => 63 | BlsFinalVerifyMem => 64
  | BlsMillerLoopCpu => 65 | BlsMillerLoopMem => 66 | BlsMulMlResultCpu => 67 | BlsMulMlResultMem => 68
  | ByteStringToIntegerCpuC0 => 69 | ByteStringToIntegerCpuC1 => 70 | ByteStringToIntegerCpuC2 => 71
  | ByteStringToIntegerMemIntercept => 72 | ByteStringToIntegerMemSlope => 73 | CekApplyCpu => 74
  | CekApplyMem => 75 | CekBuiltinCpu => 76 | CekBuiltinMem => 77 | CekCaseCpu => 78 | CekCaseMem => 79
  | CekConstCpu => 80 | CekConstMem => 81 | CekConstrCpu => 82 | CekConstrMem => 83 | CekDelayCpu => 84
  | CekDelayMem => 85 | CekForceCpu => 86 | CekForceMem => 87 | CekLamCpu => 88 | CekLamMem => 89
  | CekStartupCpu => 90 | CekStartupMem => 91 | CekVarCpu => 92 | CekVarMem => 93 | ChooseDataCpu => 94
  | ChooseDataMem => 95 | ChooseListCpu => 96 | ChooseListMem => 97 | ChooseUnitCpu => 98
  | ChooseUnitMem => 99 | ComplementByteStringCpuIntercept => 100 | ComplementByteStringCpuSlope => 101
  | ComplementByteStringMemIntercept => 102 | ComplementByteStringMemSlope => 103
  | ConsByteStringCpuIntercept => 104 | ConsByteStringCpuSlope => 105 | ConsByteStringMemIntercept => 106
  | ConsByteStringMemSlope => 107 | ConstrDataCpu => 108 | ConstrDataMem => 109
  | CountSetBitsCpuIntercept => 110 | CountSetBitsCpuSlope => 111 | CountSetBitsMem => 112
  | DecodeUtf8CpuIntercept => 113 | DecodeUtf8CpuSlope => 114 | DecodeUtf8MemIntercept => 115
  | DecodeUtf8MemSlope => 116 | DivideIntegerCpuConstant => 117 | DivideIntegerCpuC00 => 118
  | DivideIntegerCpuC01 => 119 | DivideIntegerCpuC02 => 120 | DivideIntegerCpuC10 => 121
  | DivideIntegerCpuC11 => 122 | DivideIntegerCpuC20 => 123 | DivideIntegerCpuIntercept => 124
  | DivideIntegerCpuMinimum => 125 | DivideIntegerCpuSlope => 126 | DivideIntegerMemIntercept => 127
  | DivideIntegerMemMinimum => 128 | DivideIntegerMemSlope => 129 | DropListCpuIntercept => 130
  | DropListCpuSlope => 131 | DropListMem => 132 | EncodeUtf8CpuIntercept => 133 | EncodeUtf8CpuSlope => 134
  | EncodeUtf8MemIntercept => 135 | EncodeUtf8MemSlope => 136 | EqualsByteStringCpuConstant => 137
  | EqualsByteStringCpuIntercept => 138 | EqualsByteStringCpuSlope => 139 | EqualsByteStringMem => 140
  | EqualsDataCpuIntercept => 141 | EqualsDataCpuSlope => 142 | EqualsDataMem => 143
  | EqualsIntegerCpuIntercept => 144 | EqualsIntegerCpuSlope => 145 | EqualsIntegerMem => 146
  | EqualsStringCpuConstant => 147 | EqualsStringCpuIntercept => 148 | EqualsStringCpuSlope => 149
  | EqualsStringMem => 150 | ExpModIntegerCpuC00 => 151 | ExpModIntegerCpuC11 => 152
  | ExpModIntegerCpuC12 => 153 | ExpModIntegerMemIntercept => 154 | ExpModIntegerMemSlope => 155
  | FindFirstSetBitCpuIntercept => 156 | FindFirstSetBitCpuSlope => 157 | FindFirstSetBitMem => 158
  | FstPairCpu => 159 | FstPairMem => 160 | HeadListCpu => 161 | HeadListMem => 162 | IDataCpu => 163
  | IDataMem => 164 | IfThenElseCpu => 165 | IfThenElseMem => 166 | IndexArrayCpu => 167
  | IndexArrayMem => 168 | IndexByteStringCpu => 169 | IndexByteStringMem => 170
  | InsertCoinCpuIntercept => 171 | InsertCoinCpuSlope => 172 | InsertCoinMemIntercept => 173
  | InsertCoinMemSlope => 174 | IntegerToByteStringCpuC0 => 175 | IntegerToByteStringCpuC1 => 176
  | IntegerToByteStringCpuC2 => 177 | IntegerToByteStringMemIntercept => 178
  | IntegerToByteStringMemSlope => 179 | Keccak256CpuIntercept => 180 | Keccak256CpuSlope => 181
  | Keccak256Mem => 182 | LengthOfArrayCpu => 183 | LengthOfArrayMem => 184 | LengthOfByteStringCpu => 185
  | LengthOfByteStringMem => 186 | LessThanByteStringCpuIntercept => 187 | LessThanByteStringCpuSlope => 188
  | LessThanByteStringMem => 189 | LessThanEqualsByteStringCpuIntercept => 190
  | LessThanEqualsByteStringCpuSlope => 191 | LessThanEqualsByteStringMem => 192
  | LessThanEqualsIntegerCpuIntercept => 193 | LessThanEqualsIntegerCpuSlope => 194
  | LessThanEqualsIntegerMem => 195 | LessThanIntegerCpuIntercept => 196 | LessThanIntegerCpuSlope => 197
  | LessThanIntegerMem => 198 | ListDataCpu => 199 | ListDataMem => 200 | ListToArrayCpuIntercept => 201
  | ListToArrayCpuSlope => 202 | ListToArrayMemIntercept => 203 | ListToArrayMemSlope => 204
  | LookupCoinCpuIntercept => 205 | LookupCoinCpuSlope => 206 | LookupCoinMem => 207 | MapDataCpu => 208
  | MapDataMem => 209 | MkConsCpu => 210 | MkConsMem => 211 | MkNilDataCpu => 212 | MkNilDataMem => 213
  | MkNilPairDataCpu => 214 | MkNilPairDataMem => 215 | MkPairDataCpu => 216 | MkPairDataMem => 217
  | ModIntegerCpuConstant => 218 | ModIntegerCpuC00 => 219 | ModIntegerCpuC01 => 220
  | ModIntegerCpuC02 => 221 | ModIntegerCpuC10 => 222 | ModIntegerCpuC11 => 223 | ModIntegerCpuC20 => 224
  | ModIntegerCpuIntercept => 225 | ModIntegerCpuMinimum => 226 | ModIntegerCpuSlope => 227
  | ModIntegerMemIntercept => 228 | ModIntegerMemMinimum => 229 | ModIntegerMemSlope => 230
  | MultiplyIntegerCpuIntercept => 231 | MultiplyIntegerCpuSlope => 232 | MultiplyIntegerMemIntercept => 233
  | MultiplyIntegerMemSlope => 234 | NullListCpu => 235 | NullListMem => 236
  | OrByteStringCpuIntercept => 237 | OrByteStringCpuSlope1 => 238 | OrByteStringCpuSlope2 => 239
  | OrByteStringMemIntercept => 240 | OrByteStringMemSlope => 241 | QuotientIntegerCpuConstant => 242
  | QuotientIntegerCpuC00 => 243 | QuotientIntegerCpuC01 => 244 | QuotientIntegerCpuC02 => 245
  | QuotientIntegerCpuC10 => 246 | QuotientIntegerCpuC11 => 247 | QuotientIntegerCpuC20 => 248
  | QuotientIntegerCpuIntercept => 249 | QuotientIntegerCpuMinimum => 250 | QuotientIntegerCpuSlope => 251
  | QuotientIntegerMemIntercept => 252 | QuotientIntegerMemMinimum => 253 | QuotientIntegerMemSlope => 254
  | ReadBitCpu => 255 | ReadBitMem => 256 | RemainderIntegerCpuConstant => 257
  | RemainderIntegerCpuC00 => 258 | RemainderIntegerCpuC01 => 259 | RemainderIntegerCpuC02 => 260
  | RemainderIntegerCpuC10 => 261 | RemainderIntegerCpuC11 => 262 | RemainderIntegerCpuC20 => 263
  | RemainderIntegerCpuIntercept => 264 | RemainderIntegerCpuMinimum => 265 | RemainderIntegerCpuSlope => 266
  | RemainderIntegerMemIntercept => 267 | RemainderIntegerMemMinimum => 268 | RemainderIntegerMemSlope => 269
  | ReplicateByteCpuIntercept => 270 | ReplicateByteCpuSlope => 271 | ReplicateByteMemIntercept => 272
  | ReplicateByteMemSlope => 273 | Ripemd160CpuIntercept => 274 | Ripemd160CpuSlope => 275
  | Ripemd160Mem => 276 | RotateByteStringCpuIntercept => 277 | RotateByteStringCpuSlope => 278
  | RotateByteStringMemIntercept => 279 | RotateByteStringMemSlope => 280 | ScaleValueCpuIntercept => 281
  | ScaleValueCpuSlope => 282 | ScaleValueMemIntercept => 283 | ScaleValueMemSlope => 284
  | SerialiseDataCpuIntercept => 285 | SerialiseDataCpuSlope => 286 | SerialiseDataMemIntercept => 287
  | SerialiseDataMemSlope => 288 | Sha2256CpuIntercept => 289 | Sha2256CpuSlope => 290 | Sha2256Mem => 291
  | Sha3256CpuIntercept => 292 | Sha3256CpuSlope => 293 | Sha3256Mem => 294
  | ShiftByteStringCpuIntercept => 295 | ShiftByteStringCpuSlope => 296 | ShiftByteStringMemIntercept => 297
  | ShiftByteStringMemSlope => 298 | SliceByteStringCpuIntercept => 299 | SliceByteStringCpuSlope => 300
  | SliceByteStringMemIntercept => 301 | SliceByteStringMemSlope => 302 | SndPairCpu => 303
  | SndPairMem => 304 | SubtractIntegerCpuIntercept => 305 | SubtractIntegerCpuSlope => 306
  | SubtractIntegerMemIntercept => 307 | SubtractIntegerMemSlope => 308 | TailListCpu => 309
  | TailListMem => 310 | TraceCpu => 311 | TraceMem => 312 | UnBDataCpu => 313 | UnBDataMem => 314
  | UnConstrDataCpu => 315 | UnConstrDataMem => 316 | UnIDataCpu => 317 | UnIDataMem => 318
  | UnListDataCpu => 319 | UnListDataMem => 320 | UnMapDataCpu => 321 | UnMapDataMem => 322
  | UnValueDataCpuC0 => 323 | UnValueDataCpuC1 => 324 | UnValueDataCpuC2 => 325
  | UnValueDataMemIntercept => 326 | UnValueDataMemSlope => 327 | UnionValueCpuC00 => 328
  | UnionValueCpuC01 => 329 | UnionValueCpuC10 => 330 | UnionValueCpuC11 => 331
  | UnionValueMemIntercept => 332 | UnionValueMemSlope => 333 | ValueContainsCpuConstant => 334
  | ValueContainsCpuIntercept => 335 | ValueContainsCpuSlope1 => 336 | ValueContainsCpuSlope2 => 337
  | ValueContainsMem => 338 | ValueDataCpuIntercept => 339 | ValueDataCpuSlope => 340
  | ValueDataMemIntercept => 341 | ValueDataMemSlope => 342 | VerifyEcdsaSecp256k1SignatureCpu => 343
  | VerifyEcdsaSecp256k1SignatureMem => 344 | VerifyEd25519SignatureCpuIntercept => 345
  | VerifyEd25519SignatureCpuSlope => 346 | VerifyEd25519SignatureMem => 347
  | VerifySchnorrSecp256k1SignatureCpuIntercept => 348 | VerifySchnorrSecp256k1SignatureCpuSlope => 349
  | VerifySchnorrSecp256k1SignatureMem => 350 | WriteBitsCpuIntercept => 351 | WriteBitsCpuSlope => 352
  | WriteBitsMemIntercept => 353 | WriteBitsMemSlope => 354 | XorByteStringCpuIntercept => 355
  | XorByteStringCpuSlope1 => 356 | XorByteStringCpuSlope2 => 357 | XorByteStringMemIntercept => 358
  | XorByteStringMemSlope => 359
  end.

Definition ParamName_all : list ParamName :=
  [AddIntegerCpuIntercept; AddIntegerCpuSlope; AddIntegerMemIntercept; AddIntegerMemSlope;
  AndByteStringCpuIntercept; AndByteStringCpuSlope1; AndByteStringCpuSlope2; AndByteStringMemIntercept;
  AndByteStringMemSlope; AppendByteStringCpuIntercept; AppendByteStringCpuSlope;
  AppendByteStringMemIntercept; AppendByteStringMemSlope; AppendStringCpuIntercept; AppendStringCpuSlope;
  AppendStringMemIntercept; AppendStringMemSlope; BDataCpu; BDataMem; Blake2b224CpuIntercept;
  Blake2b224CpuSlope; Blake2b224Mem; Blake2b256CpuIntercept; Blake2b256CpuSlope; Blake2b256Mem; BlsG1AddCpu;
  BlsG1AddMem; BlsG1CompressCpu; BlsG1CompressMem; BlsG1EqualCpu; BlsG1EqualMem;
  BlsG1HashToGroupCpuIntercept; BlsG1HashToGroupCpuSlope; BlsG1HashToGroupMem;
  BlsG1MultiScalarMulCpuIntercept; BlsG1MultiScalarMulCpuSlope; BlsG1MultiScalarMulMem; BlsG1NegCpu;
  BlsG1NegMem; BlsG1ScalarMulCpuIntercept; BlsG1ScalarMulCpuSlope; BlsG1ScalarMulMem; BlsG1UncompressCpu;
  BlsG1UncompressMem; BlsG2AddCpu; BlsG2AddMem; BlsG2CompressCpu; BlsG2CompressMem; BlsG2EqualCpu;
  BlsG2EqualMem; BlsG2HashToGroupCpuIntercept; BlsG2HashToGroupCpuSlope; BlsG2HashToGroupMem;
  BlsG2MultiScalarMulCpuIntercept; BlsG2MultiScalarMulCpuSlope; BlsG2MultiScalarMulMem; BlsG2NegCpu;
  BlsG2NegMem; BlsG2ScalarMulCpuIntercept; BlsG2ScalarMulCpuSlope; BlsG2ScalarMulMem; BlsG2UncompressCpu;
  BlsG2UncompressMem; BlsFinalVerifyCpu; BlsFinalVerifyMem; BlsMillerLoopCpu; BlsMillerLoopMem;
  BlsMulMlResultCpu; BlsMulMlResultMem; ByteStringToIntegerCpuC0; ByteStringToIntegerCpuC1;
  ByteStringToIntegerCpuC2; ByteStringToIntegerMemIntercept; ByteStringToIntegerMemSlope; CekApplyCpu;
  CekApplyMem; CekBuiltinCpu; CekBuiltinMem; CekCaseCpu; CekCaseMem; CekConstCpu; CekConstMem; CekConstrCpu;
  CekConstrMem; CekDelayCpu; CekDelayMem; CekForceCpu; CekForceMem; CekLamCpu; CekLamMem; CekStartupCpu;
  CekStartupMem; CekVarCpu; CekVarMem; ChooseDataCpu; ChooseDataMem; ChooseListCpu; ChooseListMem;
  ChooseUnitCpu; ChooseUnitMem; ComplementByteStringCpuIntercept; ComplementByteStringCpuSlope;
  ComplementByteStringMemIntercept; ComplementByteStringMemSlope; ConsByteStringCpuIntercept;
  ConsByteStringCpuSlope; ConsByteStringMemIntercept; ConsByteStringMemSlope; ConstrDataCpu; ConstrDataMem;
  CountSetBitsCpuIntercept; CountSetBitsCpuSlope; CountSetBitsMem; DecodeUtf8CpuIntercept;
  DecodeUtf8CpuSlope; DecodeUtf8MemIntercept; DecodeUtf8MemSlope; DivideIntegerCpuConstant;
  DivideIntegerCpuC00; DivideIntegerCpuC01; DivideIntegerCpuC02; DivideIntegerCpuC10; DivideIntegerCpuC11;
  DivideIntegerCpuC20; DivideIntegerCpuIntercept; DivideIntegerCpuMinimum; DivideIntegerCpuSlope;
  DivideIntegerMemIntercept; DivideIntegerMemMinimum; DivideIntegerMemSlope; DropListCpuIntercept;
  DropListCpuSlope; DropListMem; EncodeUtf8CpuIntercept; EncodeUtf8CpuSlope; EncodeUtf8MemIntercept;
  EncodeUtf8MemSlope; EqualsByteStringCpuConstant; EqualsByteStringCpuIntercept; EqualsByteStringCpuSlope;
  EqualsByteStringMem; EqualsDataCpuIntercept; EqualsDataCpuSlope; EqualsDataMem; EqualsIntegerCpuIntercept;
  EqualsIntegerCpuSlope; EqualsIntegerMem; EqualsStringCpuConstant; EqualsStringCpuIntercept;
  EqualsStringCpuSlope; EqualsStringMem; ExpModIntegerCpuC00; ExpModIntegerCpuC11; ExpModIntegerCpuC12;
  ExpModIntegerMemIntercept; ExpModIntegerMemSlope; FindFirstSetBitCpuIntercept; FindFirstSetBitCpuSlope;
  FindFirstSetBitMem; FstPairCpu; FstPairMem; HeadListCpu; HeadListMem; IDataCpu; IDataMem; IfThenElseCpu;
  IfThenElseMem; IndexArrayCpu; IndexArrayMem; IndexByteStringCpu; IndexByteStringMem;
  InsertCoinCpuIntercept; InsertCoinCpuSlope; InsertCoinMemIntercept; InsertCoinMemSlope;
  IntegerToByteStringCpuC0; IntegerToByteStringCpuC1; IntegerToByteStringCpuC2;
  IntegerToByteStringMemIntercept; IntegerToByteStringMemSlope; Keccak256CpuIntercept; Keccak256CpuSlope;
  Keccak256Mem; LengthOfArrayCpu; LengthOfArrayMem; LengthOfByteStringCpu; LengthOfByteStringMem;
  LessThanByteStringCpuIntercept; LessThanByteStringCpuSlope; LessThanByteStringMem;
  LessThanEqualsByteStringCpuIntercept; LessThanEqualsByteStringCpuSlope; LessThanEqualsByteStringMem;
  LessThanEqualsIntegerCpuIntercept; LessThanEqualsIntegerCpuSlope; LessThanEqualsIntegerMem;
  LessThanIntegerCpuIntercept; LessThanIntegerCpuSlope; LessThanIntegerMem; ListDataCpu; ListDataMem;
  ListToArrayCpuIntercept; ListToArrayCpuSlope; ListToArrayMemIntercept; ListToArrayMemSlope;
  LookupCoinCpuIntercept; LookupCoinCpuSlope; LookupCoinMem; MapDataCpu; MapDataMem; MkConsCpu; MkConsMem;
  MkNilDataCpu; MkNilDataMem; MkNilPairDataCpu; MkNilPairDataMem; MkPairDataCpu; MkPairDataMem;
  ModIntegerCpuConstant; ModIntegerCpuC00; ModIntegerCpuC01; ModIntegerCpuC02; ModIntegerCpuC10;
  ModIntegerCpuC11; ModIntegerCpuC20; ModIntegerCpuIntercept; ModIntegerCpuMinimum; ModIntegerCpuSlope;
  ModIntegerMemIntercept; ModIntegerMemMinimum; ModIntegerMemSlope; MultiplyIntegerCpuIntercept;
  MultiplyIntegerCpuSlope; MultiplyIntegerMemIntercept; MultiplyIntegerMemSlope; NullListCpu; NullListMem;
  OrByteStringCpuIntercept; OrByteStringCpuSlope1; OrByteStringCpuSlope2; OrByteStringMemIntercept;
  OrByteStringMemSlope; QuotientIntegerCpuConstant; QuotientIntegerCpuC00; QuotientIntegerCpuC01;
  QuotientIntegerCpuC02; QuotientIntegerCpuC10; QuotientIntegerCpuC11; QuotientIntegerCpuC20;
  QuotientIntegerCpuIntercept; QuotientIntegerCpuMinimum; QuotientIntegerCpuSlope;
  QuotientIntegerMemIntercept; QuotientIntegerMemMinimum; QuotientIntegerMemSlope; ReadBitCpu; ReadBitMem;
  RemainderIntegerCpuConstant; RemainderIntegerCpuC00; RemainderIntegerCpuC01; RemainderIntegerCpuC02;
  RemainderIntegerCpuC10; RemainderIntegerCpuC11; RemainderIntegerCpuC20; RemainderIntegerCpuIntercept;
  RemainderIntegerCpuMinimum; RemainderIntegerCpuSlope; RemainderIntegerMemIntercept;
  RemainderIntegerMemMinimum; RemainderIntegerMemSlope; ReplicateByteCpuIntercept; ReplicateByteCpuSlope;
  ReplicateByteMemIntercept; ReplicateByteMemSlope; Ripemd160CpuIntercept; Ripemd160CpuSlope; Ripemd160Mem;
  RotateByteStringCpuIntercept; RotateByteStringCpuSlope; RotateByteStringMemIntercept;
  RotateByteStringMemSlope; ScaleValueCpuIntercept; ScaleValueCpuSlope; ScaleValueMemIntercept;
  ScaleValueMemSlope; SerialiseDataCpuIntercept; SerialiseDataCpuSlope; SerialiseDataMemIntercept;
  SerialiseDataMemSlope; Sha2256CpuIntercept; Sha2256CpuSlope; Sha2256Mem; Sha3256CpuIntercept;
  Sha3256CpuSlope; Sha3256Mem; ShiftByteStringCpuIntercept; ShiftByteStringCpuSlope;
  ShiftByteStringMemIntercept; ShiftByteStringMemSlope; SliceByteStringCpuIntercept; SliceByteStringCpuSlope;
  SliceByteStringMemIntercept; SliceByteStringMemSlope; SndPairCpu; SndPairMem; SubtractIntegerCpuIntercept;
  SubtractIntegerCpuSlope; SubtractIntegerMemIntercept; SubtractIntegerMemSlope; TailListCpu; TailListMem;
  TraceCpu; TraceMem; UnBDataCpu; UnBDataMem; UnConstrDataCpu; UnConstrDataMem; UnIDataCpu; UnIDataMem;
  UnListDataCpu; UnListDataMem; UnMapDataCpu; UnMapDataMem; UnValueDataCpuC0; UnValueDataCpuC1;
  UnValueDataCpuC2; UnValueDataMemIntercept; UnValueDataMemSlope; UnionValueCpuC00; UnionValueCpuC01;
  UnionValueCpuC10; UnionValueCpuC11; UnionValueMemIntercept; UnionValueMemSlope; ValueContainsCpuConstant;
  ValueContainsCpuIntercept; ValueContainsCpuSlope1; ValueContainsCpuSlope2; ValueContainsMem;
  ValueDataCpuIntercept; ValueDataCpuSlope; ValueDataMemIntercept; ValueDataMemSlope;
  VerifyEcdsaSecp256k1SignatureCpu; VerifyEcdsaSecp256k1SignatureMem; VerifyEd25519SignatureCpuIntercept;
  VerifyEd25519SignatureCpuSlope; VerifyEd25519SignatureMem; VerifySchnorrSecp256k1SignatureCpuIntercept;
  VerifySchnorrSecp256k1SignatureCpuSlope; VerifySchnorrSecp256k1SignatureMem; WriteBitsCpuIntercept;
  WriteBitsCpuSlope; WriteBitsMemIntercept; WriteBitsMemSlope; XorByteStringCpuIntercept;
  XorByteStringCpuSlope1; XorByteStringCpuSlope2; XorByteStringMemIntercept; XorByteStringMemSlope].

(** The parameters of Plutus V1, in the order of the ledger's arrays. *)
Definition ParamName_V1 : list ParamName :=
  [AddIntegerCpuIntercept; AddIntegerCpuSlope; AddIntegerMemIntercept; AddIntegerMemSlope;
  AppendByteStringCpuIntercept; AppendByteStringCpuSlope; AppendByteStringMemIntercept;
  AppendByteStringMemSlope; AppendStringCpuIntercept; AppendStringCpuSlope; AppendStringMemIntercept;
  AppendStringMemSlope; BDataCpu; BDataMem; Blake2b256CpuIntercept; Blake2b256CpuSlope; Blake2b256Mem;
  CekApplyCpu; CekApplyMem; CekBuiltinCpu; CekBuiltinMem; CekConstCpu; CekConstMem; CekDelayCpu; CekDelayMem;
  CekForceCpu; CekForceMem; CekLamCpu; CekLamMem; CekStartupCpu; CekStartupMem; CekVarCpu; CekVarMem;
  ChooseDataCpu; ChooseDataMem; ChooseListCpu; ChooseListMem; ChooseUnitCpu; ChooseUnitMem;
  ConsByteStringCpuIntercept; ConsByteStringCpuSlope; ConsByteStringMemIntercept; ConsByteStringMemSlope;
  ConstrDataCpu; ConstrDataMem; DecodeUtf8CpuIntercept; DecodeUtf8CpuSlope; DecodeUtf8MemIntercept;
  DecodeUtf8MemSlope; DivideIntegerCpuConstant; DivideIntegerCpuIntercept; DivideIntegerCpuSlope;
  DivideIntegerMemIntercept; DivideIntegerMemMinimum; DivideIntegerMemSlope; EncodeUtf8CpuIntercept;
  EncodeUtf8CpuSlope; EncodeUtf8MemIntercept; EncodeUtf8MemSlope; EqualsByteStringCpuConstant;
  EqualsByteStringCpuIntercept; EqualsByteStringCpuSlope; EqualsByteStringMem; EqualsDataCpuIntercept;
  EqualsDataCpuSlope; EqualsDataMem; EqualsIntegerCpuIntercept; EqualsIntegerCpuSlope; EqualsIntegerMem;
  EqualsStringCpuConstant; EqualsStringCpuIntercept; EqualsStringCpuSlope; EqualsStringMem; FstPairCpu;
  FstPairMem; HeadListCpu; HeadListMem; IDataCpu; IDataMem; IfThenElseCpu; IfThenElseMem; IndexByteStringCpu;
  IndexByteStringMem; LengthOfByteStringCpu; LengthOfByteStringMem; LessThanByteStringCpuIntercept;
  LessThanByteStringCpuSlope; LessThanByteStringMem; LessThanEqualsByteStringCpuIntercept;
  LessThanEqualsByteStringCpuSlope; LessThanEqualsByteStringMem; LessThanEqualsIntegerCpuIntercept;
  LessThanEqualsIntegerCpuSlope; LessThanEqualsIntegerMem; LessThanIntegerCpuIntercept;
  LessThanIntegerCpuSlope; LessThanIntegerMem; ListDataCpu; ListDataMem; MapDataCpu; MapDataMem; MkConsCpu;
  MkConsMem; MkNilDataCpu; MkNilDataMem; MkNilPairDataCpu; MkNilPairDataMem; MkPairDataCpu; MkPairDataMem;
  ModIntegerCpuConstant; ModIntegerCpuIntercept; ModIntegerCpuSlope; ModIntegerMemIntercept;
  ModIntegerMemMinimum; ModIntegerMemSlope; MultiplyIntegerCpuIntercept; MultiplyIntegerCpuSlope;
  MultiplyIntegerMemIntercept; MultiplyIntegerMemSlope; NullListCpu; NullListMem; QuotientIntegerCpuConstant;
  QuotientIntegerCpuIntercept; QuotientIntegerCpuSlope; QuotientIntegerMemIntercept;
  QuotientIntegerMemMinimum; QuotientIntegerMemSlope; RemainderIntegerCpuConstant;
  RemainderIntegerCpuIntercept; RemainderIntegerCpuSlope; RemainderIntegerMemIntercept;
  RemainderIntegerMemMinimum; RemainderIntegerMemSlope; Sha2256CpuIntercept; Sha2256CpuSlope; Sha2256Mem;
  Sha3256CpuIntercept; Sha3256CpuSlope; Sha3256Mem; SliceByteStringCpuIntercept; SliceByteStringCpuSlope;
  SliceByteStringMemIntercept; SliceByteStringMemSlope; SndPairCpu; SndPairMem; SubtractIntegerCpuIntercept;
  SubtractIntegerCpuSlope; SubtractIntegerMemIntercept; SubtractIntegerMemSlope; TailListCpu; TailListMem;
  TraceCpu; TraceMem; UnBDataCpu; UnBDataMem; UnConstrDataCpu; UnConstrDataMem; UnIDataCpu; UnIDataMem;
  UnListDataCpu; UnListDataMem; UnMapDataCpu; UnMapDataMem; VerifyEd25519SignatureCpuIntercept;
  VerifyEd25519SignatureCpuSlope; VerifyEd25519SignatureMem; SerialiseDataCpuIntercept;
  SerialiseDataCpuSlope; SerialiseDataMemIntercept; SerialiseDataMemSlope; VerifyEcdsaSecp256k1SignatureCpu;
  VerifyEcdsaSecp256k1SignatureMem; VerifySchnorrSecp256k1SignatureCpuIntercept;
  VerifySchnorrSecp256k1SignatureCpuSlope; VerifySchnorrSecp256k1SignatureMem; CekConstrCpu; CekConstrMem;
  CekCaseCpu; CekCaseMem; BlsG1AddCpu; BlsG1AddMem; BlsG1CompressCpu; BlsG1CompressMem; BlsG1EqualCpu;
  BlsG1EqualMem; BlsG1HashToGroupCpuIntercept; BlsG1HashToGroupCpuSlope; BlsG1HashToGroupMem; BlsG1NegCpu;
  BlsG1NegMem; BlsG1ScalarMulCpuIntercept; BlsG1ScalarMulCpuSlope; BlsG1ScalarMulMem; BlsG1UncompressCpu;
  BlsG1UncompressMem; BlsG2AddCpu; BlsG2AddMem; BlsG2CompressCpu; BlsG2CompressMem; BlsG2EqualCpu;
  BlsG2EqualMem; BlsG2HashToGroupCpuIntercept; BlsG2HashToGroupCpuSlope; BlsG2HashToGroupMem; BlsG2NegCpu;
  BlsG2NegMem; BlsG2ScalarMulCpuIntercept; BlsG2ScalarMulCpuSlope; BlsG2ScalarMulMem; BlsG2UncompressCpu;
  BlsG2UncompressMem; BlsFinalVerifyCpu; BlsFinalVerifyMem; BlsMillerLoopCpu; BlsMillerLoopMem;
  BlsMulMlResultCpu; BlsMulMlResultMem; Keccak256CpuIntercept; Keccak256CpuSlope; Keccak256Mem;
  Blake2b224CpuIntercept; Blake2b224CpuSlope; Blake2b224Mem; IntegerToByteStringCpuC0;
  IntegerToByteStringCpuC1; IntegerToByteStringCpuC2; IntegerToByteStringMemIntercept;
  IntegerToByteStringMemSlope; ByteStringToIntegerCpuC0; ByteStringToIntegerCpuC1; ByteStringToIntegerCpuC2;
  ByteStringToIntegerMemIntercept; ByteStringToIntegerMemSlope; AndByteStringCpuIntercept;
  AndByteStringCpuSlope1; AndByteStringCpuSlope2; AndByteStringMemIntercept; AndByteStringMemSlope;
  OrByteStringCpuIntercept; OrByteStringCpuSlope1; OrByteStringCpuSlope2; OrByteStringMemIntercept;
  OrByteStringMemSlope; XorByteStringCpuIntercept; XorByteStringCpuSlope1; XorByteStringCpuSlope2;
  XorByteStringMemIntercept; XorByteStringMemSlope; ComplementByteStringCpuIntercept;
  ComplementByteStringCpuSlope; ComplementByteStringMemIntercept; ComplementByteStringMemSlope; ReadBitCpu;
  ReadBitMem; WriteBitsCpuIntercept; WriteBitsCpuSlope; WriteBitsMemIntercept; WriteBitsMemSlope;
  ReplicateByteCpuIntercept; ReplicateByteCpuSlope; ReplicateByteMemIntercept; ReplicateByteMemSlope;
  ShiftByteStringCpuIntercept; ShiftByteStringCpuSlope; ShiftByteStringMemIntercept; ShiftByteStringMemSlope;
  RotateByteStringCpuIntercept; RotateByteStringCpuSlope; RotateByteStringMemIntercept;
  RotateByteStringMemSlope; CountSetBitsCpuIntercept; CountSetBitsCpuSlope; CountSetBitsMem;
  FindFirstSetBitCpuIntercept; FindFirstSetBitCpuSlope; FindFirstSetBitMem; Ripemd160CpuIntercept;
  Ripemd160CpuSlope; Ripemd160Mem; ExpModIntegerCpuC00; ExpModIntegerCpuC11; ExpModIntegerCpuC12;
  ExpModIntegerMemIntercept; ExpModIntegerMemSlope; DropListCpuIntercept; DropListCpuSlope; DropListMem;
  LengthOfArrayCpu; LengthOfArrayMem; ListToArrayCpuIntercept; ListToArrayCpuSlope; ListToArrayMemIntercept;
  ListToArrayMemSlope; IndexArrayCpu; IndexArrayMem; BlsG1MultiScalarMulCpuIntercept;
  BlsG1MultiScalarMulCpuSlope; BlsG1MultiScalarMulMem; BlsG2MultiScalarMulCpuIntercept;
  BlsG2MultiScalarMulCpuSlope; BlsG2MultiScalarMulMem; InsertCoinCpuIntercept; InsertCoinCpuSlope;
  InsertCoinMemIntercept; InsertCoinMemSlope; LookupCoinCpuIntercept; LookupCoinCpuSlope; LookupCoinMem;
  UnionValueCpuC00; UnionValueCpuC10; UnionValueCpuC01; UnionValueCpuC11; UnionValueMemIntercept;
  UnionValueMemSlope; ValueContainsCpuConstant; ValueContainsCpuIntercept; ValueContainsCpuSlope1;
  ValueContainsCpuSlope2; ValueContainsMem; ValueDataCpuIntercept; ValueDataCpuSlope; ValueDataMemIntercept;
  ValueDataMemSlope; UnValueDataCpuC0; UnValueDataCpuC1; UnValueDataCpuC2; UnValueDataMemIntercept;
  UnValueDataMemSlope; ScaleValueCpuIntercept; ScaleValueCpuSlope; ScaleValueMemIntercept; ScaleValueMemSlope].

(** The parameters of Plutus V2, in the order of the ledger's arrays. *)
Definition ParamName_V2 : list ParamName :=
  [AddIntegerCpuIntercept; AddIntegerCpuSlope; AddIntegerMemIntercept; AddIntegerMemSlope;
  AppendByteStringCpuIntercept; AppendByteStringCpuSlope; AppendByteStringMemIntercept;
  AppendByteStringMemSlope; AppendStringCpuIntercept; AppendStringCpuSlope; AppendStringMemIntercept;
  AppendStringMemSlope; BDataCpu; BDataMem; Blake2b256CpuIntercept; Blake2b256CpuSlope; Blake2b256Mem;
  CekApplyCpu; CekApplyMem; CekBuiltinCpu; CekBuiltinMem; CekConstCpu; CekConstMem; CekDelayCpu; CekDelayMem;
  CekForceCpu; CekForceMem; CekLamCpu; CekLamMem; CekStartupCpu; CekStartupMem; CekVarCpu; CekVarMem;
  ChooseDataCpu; ChooseDataMem; ChooseListCpu; ChooseListMem; ChooseUnitCpu; ChooseUnitMem;
  ConsByteStringCpuIntercept; ConsByteStringCpuSlope; ConsByteStringMemIntercept; ConsByteStringMemSlope;
  ConstrDataCpu; ConstrDataMem; DecodeUtf8CpuIntercept; DecodeUtf8CpuSlope; DecodeUtf8MemIntercept;
  DecodeUtf8MemSlope; DivideIntegerCpuConstant; DivideIntegerCpuIntercept; DivideIntegerCpuSlope;
  DivideIntegerMemIntercept; DivideIntegerMemMinimum; DivideIntegerMemSlope; EncodeUtf8CpuIntercept;
  EncodeUtf8CpuSlope; EncodeUtf8MemIntercept; EncodeUtf8MemSlope; EqualsByteStringCpuConstant;
  EqualsByteStringCpuIntercept; EqualsByteStringCpuSlope; EqualsByteStringMem; EqualsDataCpuIntercept;
  EqualsDataCpuSlope; EqualsDataMem; EqualsIntegerCpuIntercept; EqualsIntegerCpuSlope; EqualsIntegerMem;
  EqualsStringCpuConstant; EqualsStringCpuIntercept; EqualsStringCpuSlope; EqualsStringMem; FstPairCpu;
  FstPairMem; HeadListCpu; HeadListMem; IDataCpu; IDataMem; IfThenElseCpu; IfThenElseMem; IndexByteStringCpu;
  IndexByteStringMem; LengthOfByteStringCpu; LengthOfByteStringMem; LessThanByteStringCpuIntercept;
  LessThanByteStringCpuSlope; LessThanByteStringMem; LessThanEqualsByteStringCpuIntercept;
  LessThanEqualsByteStringCpuSlope; LessThanEqualsByteStringMem; LessThanEqualsIntegerCpuIntercept;
  LessThanEqualsIntegerCpuSlope; LessThanEqualsIntegerMem; LessThanIntegerCpuIntercept;
  LessThanIntegerCpuSlope; LessThanIntegerMem; ListDataCpu; ListDataMem; MapDataCpu; MapDataMem; MkConsCpu;
  MkConsMem; MkNilDataCpu; MkNilDataMem; MkNilPairDataCpu; MkNilPairDataMem; MkPairDataCpu; MkPairDataMem;
  ModIntegerCpuConstant; ModIntegerCpuIntercept; ModIntegerCpuSlope; ModIntegerMemIntercept;
  ModIntegerMemMinimum; ModIntegerMemSlope; MultiplyIntegerCpuIntercept; MultiplyIntegerCpuSlope;
  MultiplyIntegerMemIntercept; MultiplyIntegerMemSlope; NullListCpu; NullListMem; QuotientIntegerCpuConstant;
  QuotientIntegerCpuIntercept; QuotientIntegerCpuSlope; QuotientIntegerMemIntercept;
  QuotientIntegerMemMinimum; QuotientIntegerMemSlope; RemainderIntegerCpuConstant;
  RemainderIntegerCpuIntercept; RemainderIntegerCpuSlope; RemainderIntegerMemIntercept;
  RemainderIntegerMemMinimum; RemainderIntegerMemSlope; SerialiseDataCpuIntercept; SerialiseDataCpuSlope;
  SerialiseDataMemIntercept; SerialiseDataMemSlope; Sha2256CpuIntercept; Sha2256CpuSlope; Sha2256Mem;
  Sha3256CpuIntercept; Sha3256CpuSlope; Sha3256Mem; SliceByteStringCpuIntercept; SliceByteStringCpuSlope;
  SliceByteStringMemIntercept; SliceByteStringMemSlope; SndPairCpu; SndPairMem; SubtractIntegerCpuIntercept;
  SubtractIntegerCpuSlope; SubtractIntegerMemIntercept; SubtractIntegerMemSlope; TailListCpu; TailListMem;
  TraceCpu; TraceMem; UnBDataCpu; UnBDataMem; UnConstrDataCpu; UnConstrDataMem; UnIDataCpu; UnIDataMem;
  UnListDataCpu; UnListDataMem; UnMapDataCpu; UnMapDataMem; VerifyEcdsaSecp256k1SignatureCpu;
  VerifyEcdsaSecp256k1SignatureMem; VerifyEd25519SignatureCpuIntercept; VerifyEd25519SignatureCpuSlope;
  VerifyEd25519SignatureMem; VerifySchnorrSecp256k1SignatureCpuIntercept;
  VerifySchnorrSecp256k1SignatureCpuSlope; VerifySchnorrSecp256k1SignatureMem; IntegerToByteStringCpuC0;
  IntegerToByteStringCpuC1; IntegerToByteStringCpuC2; IntegerToByteStringMemIntercept;
  IntegerToByteStringMemSlope; ByteStringToIntegerCpuC0; ByteStringToIntegerCpuC1; ByteStringToIntegerCpuC2;
  ByteStringToIntegerMemIntercept; ByteStringToIntegerMemSlope; CekConstrCpu; CekConstrMem; CekCaseCpu;
  CekCaseMem; BlsG1AddCpu; BlsG1AddMem; BlsG1CompressCpu; BlsG1CompressMem; BlsG1EqualCpu; BlsG1EqualMem;
  BlsG1HashToGroupCpuIntercept; BlsG1HashToGroupCpuSlope; BlsG1HashToGroupMem; BlsG1NegCpu; BlsG1NegMem;
  BlsG1ScalarMulCpuIntercept; BlsG1ScalarMulCpuSlope; BlsG1ScalarMulMem; BlsG1UncompressCpu;
  BlsG1UncompressMem; BlsG2AddCpu; BlsG2AddMem; BlsG2CompressCpu; BlsG2CompressMem; BlsG2EqualCpu;
  BlsG2EqualMem; BlsG2HashToGroupCpuIntercept; BlsG2HashToGroupCpuSlope; BlsG2HashToGroupMem; BlsG2NegCpu;
  BlsG2NegMem; BlsG2ScalarMulCpuIntercept; BlsG2ScalarMulCpuSlope; BlsG2ScalarMulMem; BlsG2UncompressCpu;
  BlsG2UncompressMem; BlsFinalVerifyCpu; BlsFinalVerifyMem; BlsMillerLoopCpu; BlsMillerLoopMem;
  BlsMulMlResultCpu; BlsMulMlResultMem; Keccak256CpuIntercept; Keccak256CpuSlope; Keccak256Mem;
  Blake2b224CpuIntercept; Blake2b224CpuSlope; Blake2b224Mem; AndByteStringCpuIntercept;
  AndByteStringCpuSlope1; AndByteStringCpuSlope2; AndByteStringMemIntercept; AndByteStringMemSlope;
  OrByteStringCpuIntercept; OrByteStringCpuSlope1; OrByteStringCpuSlope2; OrByteStringMemIntercept;
  OrByteStringMemSlope; XorByteStringCpuIntercept; XorByteStringCpuSlope1; XorByteStringCpuSlope2;
  XorByteStringMemIntercept; XorByteStringMemSlope; ComplementByteStringCpuIntercept;
  ComplementByteStringCpuSlope; ComplementByteStringMemIntercept; ComplementByteStringMemSlope; ReadBitCpu;
  ReadBitMem; WriteBitsCpuIntercept; WriteBitsCpuSlope; WriteBitsMemIntercept; WriteBitsMemSlope;
  ReplicateByteCpuIntercept; ReplicateByteCpuSlope; ReplicateByteMemIntercept; ReplicateByteMemSlope;
  ShiftByteStringCpuIntercept; ShiftByteStringCpuSlope; ShiftByteStringMemIntercept; ShiftByteStringMemSlope;
  RotateByteStringCpuIntercept; RotateByteStringCpuSlope; RotateByteStringMemIntercept;
  RotateByteStringMemSlope; CountSetBitsCpuIntercept; CountSetBitsCpuSlope; CountSetBitsMem;
  FindFirstSetBitCpuIntercept; FindFirstSetBitCpuSlope; FindFirstSetBitMem; Ripemd160CpuIntercept;
  Ripemd160CpuSlope; Ripemd160Mem; ExpModIntegerCpuC00; ExpModIntegerCpuC11; ExpModIntegerCpuC12;
  ExpModIntegerMemIntercept; ExpModIntegerMemSlope; DropListCpuIntercept; DropListCpuSlope; DropListMem;
  LengthOfArrayCpu; LengthOfArrayMem; ListToArrayCpuIntercept; ListToArrayCpuSlope; ListToArrayMemIntercept;
  ListToArrayMemSlope; IndexArrayCpu; IndexArrayMem; BlsG1MultiScalarMulCpuIntercept;
  BlsG1MultiScalarMulCpuSlope; BlsG1MultiScalarMulMem; BlsG2MultiScalarMulCpuIntercept;
  BlsG2MultiScalarMulCpuSlope; BlsG2MultiScalarMulMem; InsertCoinCpuIntercept; InsertCoinCpuSlope;
  InsertCoinMemIntercept; InsertCoinMemSlope; LookupCoinCpuIntercept; LookupCoinCpuSlope; LookupCoinMem;
  UnionValueCpuC00; UnionValueCpuC10; UnionValueCpuC01; UnionValueCpuC11; UnionValueMemIntercept;
  UnionValueMemSlope; ValueContainsCpuConstant; ValueContainsCpuIntercept; ValueContainsCpuSlope1;
  ValueContainsCpuSlope2; ValueContainsMem; ValueDataCpuIntercept; ValueDataCpuSlope; ValueDataMemIntercept;
  ValueDataMemSlope; UnValueDataCpuC0; UnValueDataCpuC1; UnValueDataCpuC2; UnValueDataMemIntercept;
  UnValueDataMemSlope; ScaleValueCpuIntercept; ScaleValueCpuSlope; ScaleValueMemIntercept; ScaleValueMemSlope].

(** The parameters of Plutus V3, in the order of the ledger's arrays. *)
Definition ParamName_V3 : list ParamName :=
  [AddIntegerCpuIntercept; AddIntegerCpuSlope; AddIntegerMemIntercept; AddIntegerMemSlope;
  AppendByteStringCpuIntercept; AppendByteStringCpuSlope; AppendByteStringMemIntercept;
  AppendByteStringMemSlope; AppendStringCpuIntercept; AppendStringCpuSlope; AppendStringMemIntercept;
  AppendStringMemSlope; BDataCpu; BDataMem; Blake2b256CpuIntercept; Blake2b256CpuSlope; Blake2b256Mem;
  CekApplyCpu; CekApplyMem; CekBuiltinCpu; CekBuiltinMem; CekConstCpu; CekConstMem; CekDelayCpu; CekDelayMem;
  CekForceCpu; CekForceMem; CekLamCpu; CekLamMem; CekStartupCpu; CekStartupMem; CekVarCpu; CekVarMem;
  ChooseDataCpu; ChooseDataMem; ChooseListCpu; ChooseListMem; ChooseUnitCpu; ChooseUnitMem;
  ConsByteStringCpuIntercept; ConsByteStringCpuSlope; ConsByteStringMemIntercept; ConsByteStringMemSlope;
  ConstrDataCpu; ConstrDataMem; DecodeUtf8CpuIntercept; DecodeUtf8CpuSlope; DecodeUtf8MemIntercept;
  DecodeUtf8MemSlope; DivideIntegerCpuConstant; DivideIntegerCpuC00; DivideIntegerCpuC01;
  DivideIntegerCpuC02; DivideIntegerCpuC10; DivideIntegerCpuC11; DivideIntegerCpuC20;
  DivideIntegerCpuMinimum; DivideIntegerMemIntercept; DivideIntegerMemMinimum; DivideIntegerMemSlope;
  EncodeUtf8CpuIntercept; EncodeUtf8CpuSlope; EncodeUtf8MemIntercept; EncodeUtf8MemSlope;
  EqualsByteStringCpuConstant; EqualsByteStringCpuIntercept; EqualsByteStringCpuSlope; EqualsByteStringMem;
  EqualsDataCpuIntercept; EqualsDataCpuSlope; EqualsDataMem; EqualsIntegerCpuIntercept;
  EqualsIntegerCpuSlope; EqualsIntegerMem; EqualsStringCpuConstant; EqualsStringCpuIntercept;
  EqualsStringCpuSlope; EqualsStringMem; FstPairCpu; FstPairMem; HeadListCpu; HeadListMem; IDataCpu;
  IDataMem; IfThenElseCpu; IfThenElseMem; IndexByteStringCpu; IndexByteStringMem; LengthOfByteStringCpu;
  LengthOfByteStringMem; LessThanByteStringCpuIntercept; LessThanByteStringCpuSlope; LessThanByteStringMem;
  LessThanEqualsByteStringCpuIntercept; LessThanEqualsByteStringCpuSlope; LessThanEqualsByteStringMem;
  LessThanEqualsIntegerCpuIntercept; LessThanEqualsIntegerCpuSlope; LessThanEqualsIntegerMem;
  LessThanIntegerCpuIntercept; LessThanIntegerCpuSlope; LessThanIntegerMem; ListDataCpu; ListDataMem;
  MapDataCpu; MapDataMem; MkConsCpu; MkConsMem; MkNilDataCpu; MkNilDataMem; MkNilPairDataCpu;
  MkNilPairDataMem; MkPairDataCpu; MkPairDataMem; ModIntegerCpuConstant; ModIntegerCpuC00; ModIntegerCpuC01;
  ModIntegerCpuC02; ModIntegerCpuC10; ModIntegerCpuC11; ModIntegerCpuC20; ModIntegerCpuMinimum;
  ModIntegerMemIntercept; ModIntegerMemSlope; MultiplyIntegerCpuIntercept; MultiplyIntegerCpuSlope;
  MultiplyIntegerMemIntercept; MultiplyIntegerMemSlope; NullListCpu; NullListMem; QuotientIntegerCpuConstant;
  QuotientIntegerCpuC00; QuotientIntegerCpuC01; QuotientIntegerCpuC02; QuotientIntegerCpuC10;
  QuotientIntegerCpuC11; QuotientIntegerCpuC20; QuotientIntegerCpuMinimum; QuotientIntegerMemIntercept;
  QuotientIntegerMemMinimum; QuotientIntegerMemSlope; RemainderIntegerCpuConstant; RemainderIntegerCpuC00;
  RemainderIntegerCpuC01; RemainderIntegerCpuC02; RemainderIntegerCpuC10; RemainderIntegerCpuC11;
  RemainderIntegerCpuC20; RemainderIntegerCpuMinimum; RemainderIntegerMemIntercept; RemainderIntegerMemSlope;
  SerialiseDataCpuIntercept; SerialiseDataCpuSlope; SerialiseDataMemIntercept; SerialiseDataMemSlope;
  Sha2256CpuIntercept; Sha2256CpuSlope; Sha2256Mem; Sha3256CpuIntercept; Sha3256CpuSlope; Sha3256Mem;
  SliceByteStringCpuIntercept; SliceByteStringCpuSlope; SliceByteStringMemIntercept; SliceByteStringMemSlope;
  SndPairCpu; SndPairMem; SubtractIntegerCpuIntercept; SubtractIntegerCpuSlope; SubtractIntegerMemIntercept;
  SubtractIntegerMemSlope; TailListCpu; TailListMem; TraceCpu; TraceMem; UnBDataCpu; UnBDataMem;
  UnConstrDataCpu; UnConstrDataMem; UnIDataCpu; UnIDataMem; UnListDataCpu; UnListDataMem; UnMapDataCpu;
  UnMapDataMem; VerifyEcdsaSecp256k1SignatureCpu; VerifyEcdsaSecp256k1SignatureMem;
  VerifyEd25519SignatureCpuIntercept; VerifyEd25519SignatureCpuSlope; VerifyEd25519SignatureMem;
  VerifySchnorrSecp256k1SignatureCpuIntercept; VerifySchnorrSecp256k1SignatureCpuSlope;
  VerifySchnorrSecp256k1SignatureMem; CekConstrCpu; CekConstrMem; CekCaseCpu; CekCaseMem; BlsG1AddCpu;
  BlsG1AddMem; BlsG1CompressCpu; BlsG1CompressMem; BlsG1EqualCpu; BlsG1EqualMem;
  BlsG1HashToGroupCpuIntercept; BlsG1HashToGroupCpuSlope; BlsG1HashToGroupMem; BlsG1NegCpu; BlsG1NegMem;
  BlsG1ScalarMulCpuIntercept; BlsG1ScalarMulCpuSlope; BlsG1ScalarMulMem; BlsG1UncompressCpu;
  BlsG1UncompressMem; BlsG2AddCpu; BlsG2AddMem; BlsG2CompressCpu; BlsG2CompressMem; BlsG2EqualCpu;
  BlsG2EqualMem; BlsG2HashToGroupCpuIntercept; BlsG2HashToGroupCpuSlope; BlsG2HashToGroupMem; BlsG2NegCpu;
  BlsG2NegMem; BlsG2ScalarMulCpuIntercept; BlsG2ScalarMulCpuSlope; BlsG2ScalarMulMem; BlsG2UncompressCpu;
  BlsG2UncompressMem; BlsFinalVerifyCpu; BlsFinalVerifyMem; BlsMillerLoopCpu; BlsMillerLoopMem;
  BlsMulMlResultCpu; BlsMulMlResultMem; Keccak256CpuIntercept; Keccak256CpuSlope; Keccak256Mem;
  Blake2b224CpuIntercept; Blake2b224CpuSlope; Blake2b224Mem; IntegerToByteStringCpuC0;
  IntegerToByteStringCpuC1; IntegerToByteStringCpuC2; IntegerToByteStringMemIntercept;
  IntegerToByteStringMemSlope; ByteStringToIntegerCpuC0; ByteStringToIntegerCpuC1; ByteStringToIntegerCpuC2;
  ByteStringToIntegerMemIntercept; ByteStringToIntegerMemSlope; AndByteStringCpuIntercept;
  AndByteStringCpuSlope1; AndByteStringCpuSlope2; AndByteStringMemIntercept; AndByteStringMemSlope;
  OrByteStringCpuIntercept; OrByteStringCpuSlope1; OrByteStringCpuSlope2; OrByteStringMemIntercept;
  OrByteStringMemSlope; XorByteStringCpuIntercept; XorByteStringCpuSlope1; XorByteStringCpuSlope2;
  XorByteStringMemIntercept; XorByteStringMemSlope; ComplementByteStringCpuIntercept;
  ComplementByteStringCpuSlope; ComplementByteStringMemIntercept; ComplementByteStringMemSlope; ReadBitCpu;
  ReadBitMem; WriteBitsCpuIntercept; WriteBitsCpuSlope; WriteBitsMemIntercept; WriteBitsMemSlope;
  ReplicateByteCpuIntercept; ReplicateByteCpuSlope; ReplicateByteMemIntercept; ReplicateByteMemSlope;
  ShiftByteStringCpuIntercept; ShiftByteStringCpuSlope; ShiftByteStringMemIntercept; ShiftByteStringMemSlope;
  RotateByteStringCpuIntercept; RotateByteStringCpuSlope; RotateByteStringMemIntercept;
  RotateByteStringMemSlope; CountSetBitsCpuIntercept; CountSetBitsCpuSlope; CountSetBitsMem;
  FindFirstSetBitCpuIntercept; FindFirstSetBitCpuSlope; FindFirstSetBitMem; Ripemd160CpuIntercept;
  Ripemd160CpuSlope; Ripemd160Mem; ExpModIntegerCpuC00; ExpModIntegerCpuC11; ExpModIntegerCpuC12;
  ExpModIntegerMemIntercept; ExpModIntegerMemSlope; DropListCpuIntercept; DropListCpuSlope; DropListMem;
  LengthOfArrayCpu; LengthOfArrayMem; ListToArrayCpuIntercept; ListToArrayCpuSlope; ListToArrayMemIntercept;
  ListToArrayMemSlope; IndexArrayCpu; IndexArrayMem; BlsG1MultiScalarMulCpuIntercept;
  BlsG1MultiScalarMulCpuSlope; BlsG1MultiScalarMulMem; BlsG2MultiScalarMulCpuIntercept;
  BlsG2MultiScalarMulCpuSlope; BlsG2MultiScalarMulMem; InsertCoinCpuIntercept; InsertCoinCpuSlope;
  InsertCoinMemIntercept; InsertCoinMemSlope; LookupCoinCpuIntercept; LookupCoinCpuSlope; LookupCoinMem;
  UnionValueCpuC00; UnionValueCpuC10; UnionValueCpuC01; UnionValueCpuC11; UnionValueMemIntercept;
  UnionValueMemSlope; ValueContainsCpuConstant; ValueContainsCpuIntercept; ValueContainsCpuSlope1;
  ValueContainsCpuSlope2; ValueContainsMem; ValueDataCpuIntercept; ValueDataCpuSlope; ValueDataMemIntercept;
  ValueDataMemSlope; UnValueDataCpuC0; UnValueDataCpuC1; UnValueDataCpuC2; UnValueDataMemIntercept;
  UnValueDataMemSlope; ScaleValueCpuIntercept; ScaleValueCpuSlope; ScaleValueMemIntercept; ScaleValueMemSlope].

Lemma ParamName_all_index p : ParamName_all !! ParamName_index p = Some p.
Proof. by destruct p. Qed.

#[global] Instance ParamName_eq_dec : EqDecision ParamName.
Proof.
  refine (λ a b, cast_if (decide (ParamName_index a = ParamName_index b))); [|congruence].
  apply (inj Some). rewrite <- !ParamName_all_index. congruence.
Defined.
#[global] Instance ParamName_countable : Countable ParamName :=
  inj_countable ParamName_index (λ i, ParamName_all !! i) ParamName_all_index.

Definition ParamName_of (v : PlutusVersion) : list ParamName :=
  match v with V1 => ParamName_V1 | V2 => ParamName_V2 | V3 => ParamName_V3 end.

(** [new_cost_map]: pair the names with the costs, in order; names without a
    cost are absent. *)
Definition new_cost_map (plutus_version : PlutusVersion) (costs : list Z) : gmap ParamName Z :=
  foldl (λ m '(p, c), <[p := c]> m) ∅ (zip (ParamName_of plutus_version) costs).

(** ** The default arrays *)

Definition DEFAULT_COST_MODEL_A_V1 : list Z :=
  [205665; 812; 1; 1; 1000; 571; 0; 1; 1000; 24177; 4; 1; 1000; 32; 117366; 10475; 4; 23000; 100; 23000; 100;
  23000; 100; 23000; 100; 23000; 100; 23000; 100; 100; 100; 23000; 100; 19537; 32; 175354; 32; 46417; 4;
  221973; 511; 0; 1; 89141; 32; 497525; 14068; 4; 2; 196500; 453240; 220; 0; 1; 1; 1000; 28662; 4; 2; 245000;
  216773; 62; 1; 1060367; 12586; 1; 208512; 421; 1; 187000; 1000; 52998; 1; 80436; 32; 43249; 32; 1000; 32;
  80556; 1; 57667; 4; 1000; 10; 197145; 156; 1; 197145; 156; 1; 204924; 473; 1; 208896; 511; 1; 52467; 32;
  64832; 32; 65493; 32; 22558; 32; 16563; 32; 76511; 32; 196500; 453240; 220; 0; 1; 1; 69522; 11687; 0; 1;
  60091; 32; 196500; 453240; 220; 0; 1; 1; 196500; 453240; 220; 0; 1; 1; 806990; 30482; 4; 1927926; 82523; 4;
  265318; 0; 4; 0; 85931; 32; 205665; 812; 1; 1; 41182; 32; 212342; 32; 31220; 32; 32696; 32; 43357; 32;
  32247; 32; 38314; 32; 57996947; 18975; 10; 1159724; 392670; 0; 2; 35190005; 10; 39121781; 32260; 10; 23000;
  100; 23000; 100; 962335; 18; 2780678; 6; 442008; 1; 52538055; 3756; 18; 267929; 18; 76433006; 8868; 18;
  52948122; 18; 1995836; 36; 3227919; 12; 901022; 1; 166917843; 4307; 36; 284546; 36; 158221314; 26549; 36;
  74698472; 36; 333849714; 1; 254006273; 72; 2174038; 72; 2261318; 64571; 4; 207616; 8310; 4; 1293828; 28716;
  63; 0; 1; 1006041; 43623; 251; 0; 1; 100181; 726; 719; 0; 1; 100181; 726; 719; 0; 1; 100181; 726; 719; 0;
  1; 107878; 680; 0; 1; 95336; 1; 281145; 18848; 0; 1; 180194; 159; 1; 1; 158519; 8942; 0; 1; 159378; 8813;
  0; 1; 107490; 3298; 1; 106057; 655; 1; 1964219; 24520; 3; 607153; 231697; 53144; 0; 1; 116711; 1957; 4;
  231883; 10; 1000; 24838; 7; 1; 232010; 32; 321837444; 25087669; 18; 617887431; 67302824; 36; 390841; 30257;
  47; 27; 219951; 9444; 1; 1000; 284948; 143815; 4; 26; 29; 213283; 618401; 1998; 28258; 1; 1000; 38159; 2;
  22; 1000; 128595; 1; 14; 18; 1000; 383231; 14; 29].

Definition DEFAULT_COST_MODEL_A_V2 : list Z :=
  [205665; 812; 1; 1; 1000; 571; 0; 1; 1000; 24177; 4; 1; 1000; 32; 117366; 10475; 4; 23000; 100; 23000; 100;
  23000; 100; 23000; 100; 23000; 100; 23000; 100; 100; 100; 23000; 100; 19537; 32; 175354; 32; 46417; 4;
  221973; 511; 0; 1; 89141; 32; 497525; 14068; 4; 2; 196500; 453240; 220; 0; 1; 1; 1000; 28662; 4; 2; 245000;
  216773; 62; 1; 1060367; 12586; 1; 208512; 421; 1; 187000; 1000; 52998; 1; 80436; 32; 43249; 32; 1000; 32;
  80556; 1; 57667; 4; 1000; 10; 197145; 156; 1; 197145; 156; 1; 204924; 473; 1; 208896; 511; 1; 52467; 32;
  64832; 32; 65493; 32; 22558; 32; 16563; 32; 76511; 32; 196500; 453240; 220; 0; 1; 1; 69522; 11687; 0; 1;
  60091; 32; 196500; 453240; 220; 0; 1; 1; 196500; 453240; 220; 0; 1; 1; 1159724; 392670; 0; 2; 806990;
  30482; 4; 1927926; 82523; 4; 265318; 0; 4; 0; 85931; 32; 205665; 812; 1; 1; 41182; 32; 212342; 32; 31220;
  32; 32696; 32; 43357; 32; 32247; 32; 38314; 32; 35190005; 10; 57996947; 18975; 10; 39121781; 32260; 10;
  1293828; 28716; 63; 0; 1; 1006041; 43623; 251; 0; 1; 23000; 100; 23000; 100; 962335; 18; 2780678; 6;
  442008; 1; 52538055; 3756; 18; 267929; 18; 76433006; 8868; 18; 52948122; 18; 1995836; 36; 3227919; 12;
  901022; 1; 166917843; 4307; 36; 284546; 36; 158221314; 26549; 36; 74698472; 36; 333849714; 1; 254006273;
  72; 2174038; 72; 2261318; 64571; 4; 207616; 8310; 4; 100181; 726; 719; 0; 1; 100181; 726; 719; 0; 1;
  100181; 726; 719; 0; 1; 107878; 680; 0; 1; 95336; 1; 281145; 18848; 0; 1; 180194; 159; 1; 1; 158519; 8942;
  0; 1; 159378; 8813; 0; 1; 107490; 3298; 1; 106057; 655; 1; 1964219; 24520; 3; 607153; 231697; 53144; 0; 1;
  116711; 1957; 4; 231883; 10; 1000; 24838; 7; 1; 232010; 32; 321837444; 25087669; 18; 617887431; 67302824;
  36; 390841; 30257; 47; 27; 219951; 9444; 1; 1000; 284948; 143815; 4; 26; 29; 213283; 618401; 1998; 28258;
  1; 1000; 38159; 2; 22; 1000; 128595; 1; 14; 18; 1000; 383231; 14; 29].

Definition DEFAULT_COST_MODEL_B_V1 : list Z :=
  [100788; 420; 1; 1; 1000; 173; 0; 1; 1000; 59957; 4; 1; 11183; 32; 201305; 8356; 4; 16000; 100; 16000; 100;
  16000; 100; 16000; 100; 16000; 100; 16000; 100; 100; 100; 16000; 100; 94375; 32; 132994; 32; 61462; 4;
  72010; 178; 0; 1; 22151; 32; 91189; 769; 4; 2; 85848; 228465; 122; 0; 1; 1; 1000; 42921; 4; 2; 24548;
  29498; 38; 1; 898148; 27279; 1; 51775; 558; 1; 39184; 1000; 60594; 1; 141895; 32; 83150; 32; 15299; 32;
  76049; 1; 13169; 4; 22100; 10; 28999; 74; 1; 28999; 74; 1; 43285; 552; 1; 44749; 541; 1; 33852; 32; 68246;
  32; 72362; 32; 7243; 32; 7391; 32; 11546; 32; 85848; 228465; 122; 0; 1; 1; 90434; 519; 0; 1; 74433; 32;
  85848; 228465; 122; 0; 1; 1; 85848; 228465; 122; 0; 1; 1; 270652; 22588; 4; 1457325; 64566; 4; 20467; 1; 4;
  0; 141992; 32; 100788; 420; 1; 1; 81663; 32; 59498; 32; 20142; 32; 24588; 32; 20744; 32; 25933; 32; 24623;
  32; 53384111; 14333; 10; 955506; 213312; 0; 2; 43053543; 10; 43574283; 26308; 10; 16000; 100; 16000; 100;
  962335; 18; 2780678; 6; 442008; 1; 52538055; 3756; 18; 267929; 18; 76433006; 8868; 18; 52948122; 18;
  1995836; 36; 3227919; 12; 901022; 1; 166917843; 4307; 36; 284546; 36; 158221314; 26549; 36; 74698472; 36;
  333849714; 1; 254006273; 72; 2174038; 72; 2261318; 64571; 4; 207616; 8310; 4; 1293828; 28716; 63; 0; 1;
  1006041; 43623; 251; 0; 1; 100181; 726; 719; 0; 1; 100181; 726; 719; 0; 1; 100181; 726; 719; 0; 1; 107878;
  680; 0; 1; 95336; 1; 281145; 18848; 0; 1; 180194; 159; 1; 1; 158519; 8942; 0; 1; 159378; 8813; 0; 1;
  107490; 3298; 1; 106057; 655; 1; 1964219; 24520; 3; 607153; 231697; 53144; 0; 1; 116711; 1957; 4; 231883;
  10; 1000; 24838; 7; 1; 232010; 32; 321837444; 25087669; 18; 617887431; 67302824; 36; 390841; 30257; 47; 27;
  219951; 9444; 1; 1000; 284948; 143815; 4; 26; 29; 213283; 618401; 1998; 28258; 1; 1000; 38159; 2; 22; 1000;
  128595; 1; 14; 18; 1000; 383231; 14; 29].

Definition DEFAULT_COST_MODEL_B_V2 : list Z :=
  [100788; 420; 1; 1; 1000; 173; 0; 1; 1000; 59957; 4; 1; 11183; 32; 201305; 8356; 4; 16000; 100; 16000; 100;
  16000; 100; 16000; 100; 16000; 100; 16000; 100; 100; 100; 16000; 100; 94375; 32; 132994; 32; 61462; 4;
  72010; 178; 0; 1; 22151; 32; 91189; 769; 4; 2; 85848; 228465; 122; 0; 1; 1; 1000; 42921; 4; 2; 24548;
  29498; 38; 1; 898148; 27279; 1; 51775; 558; 1; 39184; 1000; 60594; 1; 141895; 32; 83150; 32; 15299; 32;
  76049; 1; 13169; 4; 22100; 10; 28999; 74; 1; 28999; 74; 1; 43285; 552; 1; 44749; 541; 1; 33852; 32; 68246;
  32; 72362; 32; 7243; 32; 7391; 32; 11546; 32; 85848; 228465; 122; 0; 1; 1; 90434; 519; 0; 1; 74433; 32;
  85848; 228465; 122; 0; 1; 1; 85848; 228465; 122; 0; 1; 1; 955506; 213312; 0; 2; 270652; 22588; 4; 1457325;
  64566; 4; 20467; 1; 4; 0; 141992; 32; 100788; 420; 1; 1; 81663; 32; 59498; 32; 20142; 32; 24588; 32; 20744;
  32; 25933; 32; 24623; 32; 43053543; 10; 53384111; 14333; 10; 43574283; 26308; 10; 1293828; 28716; 63; 0; 1;
  1006041; 43623; 251; 0; 1; 16000; 100; 16000; 100; 962335; 18; 2780678; 6; 442008; 1; 52538055; 3756; 18;
  267929; 18; 76433006; 8868; 18; 52948122; 18; 1995836; 36; 3227919; 12; 901022; 1; 166917843; 4307; 36;
  284546; 36; 158221314; 26549; 36; 74698472; 36; 333849714; 1; 254006273; 72; 2174038; 72; 2261318; 64571;
  4; 207616; 8310; 4; 100181; 726; 719; 0; 1; 100181; 726; 719; 0; 1; 100181; 726; 719; 0; 1; 107878; 680; 0;
  1; 95336; 1; 281145; 18848; 0; 1; 180194; 159; 1; 1; 158519; 8942; 0; 1; 159378; 8813; 0; 1; 107490; 3298;
  1; 106057; 655; 1; 1964219; 24520; 3; 607153; 231697; 53144; 0; 1; 116711; 1957; 4; 231883; 10; 1000;
  24838; 7; 1; 232010; 32; 321837444; 25087669; 18; 617887431; 67302824; 36; 390841; 30257; 47; 27; 219951;
  9444; 1; 1000; 284948; 143815; 4; 26; 29; 213283; 618401; 1998; 28258; 1; 1000; 38159; 2; 22; 1000; 128595;
  1; 14; 18; 1000; 383231; 14; 29].

Definition DEFAULT_COST_MODEL_C_V3 : list Z :=
  [100788; 420; 1; 1; 1000; 173; 0; 1; 1000; 59957; 4; 1; 11183; 32; 201305; 8356; 4; 16000; 100; 16000; 100;
  16000; 100; 16000; 100; 16000; 100; 16000; 100; 100; 100; 16000; 100; 94375; 32; 132994; 32; 61462; 4;
  72010; 178; 0; 1; 22151; 32; 91189; 769; 4; 2; 85848; 123203; 7305; (-900); 1716; 549; 57; 85848; 0; 1; 1;
  1000; 42921; 4; 2; 24548; 29498; 38; 1; 898148; 27279; 1; 51775; 558; 1; 39184; 1000; 60594; 1; 141895; 32;
  83150; 32; 15299; 32; 76049; 1; 13169; 4; 22100; 10; 28999; 74; 1; 28999; 74; 1; 43285; 552; 1; 44749; 541;
  1; 33852; 32; 68246; 32; 72362; 32; 7243; 32; 7391; 32; 11546; 32; 85848; 123203; 7305; (-900); 1716; 549;
  57; 85848; 0; 1; 90434; 519; 0; 1; 74433; 32; 85848; 123203; 7305; (-900); 1716; 549; 57; 85848; 0; 1; 1;
  85848; 123203; 7305; (-900); 1716; 549; 57; 85848; 0; 1; 955506; 213312; 0; 2; 270652; 22588; 4; 1457325;
  64566; 4; 20467; 1; 4; 0; 141992; 32; 100788; 420; 1; 1; 81663; 32; 59498; 32; 20142; 32; 24588; 32; 20744;
  32; 25933; 32; 24623; 32; 43053543; 10; 53384111; 14333; 10; 43574283; 26308; 10; 16000; 100; 16000; 100;
  962335; 18; 2780678; 6; 442008; 1; 52538055; 3756; 18; 267929; 18; 76433006; 8868; 18; 52948122; 18;
  1995836; 36; 3227919; 12; 901022; 1; 166917843; 4307; 36; 284546; 36; 158221314; 26549; 36; 74698472; 36;
  333849714; 1; 254006273; 72; 2174038; 72; 2261318; 64571; 4; 207616; 8310; 4; 1293828; 28716; 63; 0; 1;
  1006041; 43623; 251; 0; 1; 100181; 726; 719; 0; 1; 100181; 726; 719; 0; 1; 100181; 726; 719; 0; 1; 107878;
  680; 0; 1; 95336; 1; 281145; 18848; 0; 1; 180194; 159; 1; 1; 158519; 8942; 0; 1; 159378; 8813; 0; 1;
  107490; 3298; 1; 106057; 655; 1; 1964219; 24520; 3; 607153; 231697; 53144; 0; 1; 116711; 1957; 4; 231883;
  10; 1000; 24838; 7; 1; 232010; 32; 321837444; 25087669; 18; 617887431; 67302824; 36; 390841; 30257; 47; 27;
  219951; 9444; 1; 1000; 284948; 143815; 4; 26; 29; 213283; 618401; 1998; 28258; 1; 1000; 38159; 2; 22; 1000;
  128595; 1; 14; 18; 1000; 383231; 14; 29].

Definition DEFAULT_COST_MODEL_D_V1 : list Z :=
  [100788; 420; 1; 1; 1000; 173; 0; 1; 1000; 59957; 4; 1; 11183; 32; 201305; 8356; 4; 16000; 100; 16000; 100;
  16000; 100; 16000; 100; 16000; 100; 16000; 100; 100; 100; 16000; 100; 94375; 32; 132994; 32; 61462; 4;
  72010; 178; 0; 1; 22151; 32; 91189; 769; 4; 2; 85848; 228465; 122; 0; 1; 1; 1000; 42921; 4; 2; 30623;
  28755; 75; 1; 898148; 27279; 1; 51775; 558; 1; 39184; 1000; 60594; 1; 141895; 32; 83150; 32; 15299; 32;
  76049; 1; 13169; 4; 22100; 10; 28999; 74; 1; 28999; 74; 1; 43285; 552; 1; 44749; 541; 1; 33852; 32; 68246;
  32; 72362; 32; 7243; 32; 7391; 32; 11546; 32; 85848; 228465; 122; 0; 1; 1; 90434; 519; 0; 1; 74433; 32;
  85848; 228465; 122; 0; 1; 1; 85848; 228465; 122; 0; 1; 1; 270652; 22588; 4; 1457325; 64566; 4; 20467; 1; 4;
  0; 141992; 32; 100788; 420; 1; 1; 81663; 32; 59498; 32; 20142; 32; 24588; 32; 20744; 32; 25933; 32; 24623;
  32; 53384111; 14333; 10; 955506; 213312; 0; 2; 43053543; 10; 43574283; 26308; 10; 16000; 100; 16000; 100;
  962335; 18; 2780678; 6; 442008; 1; 52538055; 3756; 18; 267929; 18; 76433006; 8868; 18; 52948122; 18;
  1995836; 36; 3227919; 12; 901022; 1; 166917843; 4307; 36; 284546; 36; 158221314; 26549; 36; 74698472; 36;
  333849714; 1; 254006273; 72; 2174038; 72; 2261318; 64571; 4; 207616; 8310; 4; 1293828; 28716; 63; 0; 1;
  1006041; 43623; 251; 0; 1; 100181; 726; 719; 0; 1; 100181; 726; 719; 0; 1; 100181; 726; 719; 0; 1; 107878;
  680; 0; 1; 95336; 1; 281145; 18848; 0; 1; 180194; 159; 1; 1; 158519; 8942; 0; 1; 159378; 8813; 0; 1;
  107490; 3298; 1; 106057; 655; 1; 1964219; 24520; 3; 607153; 231697; 53144; 0; 1; 116711; 1957; 4; 231883;
  10; 1000; 24838; 7; 1; 232010; 32; 321837444; 25087669; 18; 617887431; 67302824; 36; 390841; 30257; 47; 27;
  219951; 9444; 1; 1000; 284948; 143815; 4; 26; 29; 213283; 618401; 1998; 28258; 1; 1000; 38159; 2; 22; 1000;
  128595; 1; 14; 18; 1000; 383231; 14; 29].

Definition DEFAULT_COST_MODEL_D_V2 : list Z :=
  [100788; 420; 1; 1; 1000; 173; 0; 1; 1000; 59957; 4; 1; 11183; 32; 201305; 8356; 4; 16000; 100; 16000; 100;
  16000; 100; 16000; 100; 16000; 100; 16000; 100; 100; 100; 16000; 100; 94375; 32; 132994; 32; 61462; 4;
  72010; 178; 0; 1; 22151; 32; 91189; 769; 4; 2; 85848; 228465; 122; 0; 1; 1; 1000; 42921; 4; 2; 30623;
  28755; 75; 1; 898148; 27279; 1; 51775; 558; 1; 39184; 1000; 60594; 1; 141895; 32; 83150; 32; 15299; 32;
  76049; 1; 13169; 4; 22100; 10; 28999; 74; 1; 28999; 74; 1; 43285; 552; 1; 44749; 541; 1; 33852; 32; 68246;
  32; 72362; 32; 7243; 32; 7391; 32; 11546; 32; 85848; 228465; 122; 0; 1; 1; 90434; 519; 0; 1; 74433; 32;
  85848; 228465; 122; 0; 1; 1; 85848; 228465; 122; 0; 1; 1; 955506; 213312; 0; 2; 270652; 22588; 4; 1457325;
  64566; 4; 20467; 1; 4; 0; 141992; 32; 100788; 420; 1; 1; 81663; 32; 59498; 32; 20142; 32; 24588; 32; 20744;
  32; 25933; 32; 24623; 32; 43053543; 10; 53384111; 14333; 10; 43574283; 26308; 10; 1293828; 28716; 63; 0; 1;
  1006041; 43623; 251; 0; 1; 16000; 100; 16000; 100; 962335; 18; 2780678; 6; 442008; 1; 52538055; 3756; 18;
  267929; 18; 76433006; 8868; 18; 52948122; 18; 1995836; 36; 3227919; 12; 901022; 1; 166917843; 4307; 36;
  284546; 36; 158221314; 26549; 36; 74698472; 36; 333849714; 1; 254006273; 72; 2174038; 72; 2261318; 64571;
  4; 207616; 8310; 4; 100181; 726; 719; 0; 1; 100181; 726; 719; 0; 1; 100181; 726; 719; 0; 1; 107878; 680; 0;
  1; 95336; 1; 281145; 18848; 0; 1; 180194; 159; 1; 1; 158519; 8942; 0; 1; 159378; 8813; 0; 1; 107490; 3298;
  1; 106057; 655; 1; 1964219; 24520; 3; 607153; 231697; 53144; 0; 1; 116711; 1957; 4; 231883; 10; 1000;
  24838; 7; 1; 232010; 32; 321837444; 25087669; 18; 617887431; 67302824; 36; 390841; 30257; 47; 27; 219951;
  9444; 1; 1000; 284948; 143815; 4; 26; 29; 213283; 618401; 1998; 28258; 1; 1000; 38159; 2; 22; 1000; 128595;
  1; 14; 18; 1000; 383231; 14; 29].

Definition DEFAULT_COST_MODEL_E_V3 : list Z :=
  [100788; 420; 1; 1; 1000; 173; 0; 1; 1000; 59957; 4; 1; 11183; 32; 201305; 8356; 4; 16000; 100; 16000; 100;
  16000; 100; 16000; 100; 16000; 100; 16000; 100; 100; 100; 16000; 100; 94375; 32; 132994; 32; 61462; 4;
  72010; 178; 0; 1; 22151; 32; 91189; 769; 4; 2; 85848; 123203; 7305; (-900); 1716; 960; 57; 85848; 0; 1; 1;
  1000; 42921; 4; 2; 30623; 28755; 75; 1; 898148; 27279; 1; 51775; 558; 1; 39184; 1000; 60594; 1; 141895; 32;
  83150; 32; 15299; 32; 76049; 1; 13169; 4; 22100; 10; 28999; 74; 1; 28999; 74; 1; 43285; 552; 1; 44749; 541;
  1; 33852; 32; 68246; 32; 72362; 32; 7243; 32; 7391; 32; 11546; 32; 85848; 123203; 7305; (-900); 1716; 960;
  57; 85848; 0; 1; 90434; 519; 0; 1; 74433; 32; 85848; 123203; 7305; (-900); 1716; 960; 57; 85848; 0; 1; 1;
  85848; 123203; 7305; (-900); 1716; 960; 57; 85848; 0; 1; 955506; 213312; 0; 2; 270652; 22588; 4; 1457325;
  64566; 4; 20467; 1; 4; 0; 141992; 32; 100788; 420; 1; 1; 81663; 32; 59498; 32; 20142; 32; 24588; 32; 20744;
  32; 25933; 32; 24623; 32; 43053543; 10; 53384111; 14333; 10; 43574283; 26308; 10; 16000; 100; 16000; 100;
  962335; 18; 2780678; 6; 442008; 1; 52538055; 3756; 18; 267929; 18; 76433006; 8868; 18; 52948122; 18;
  1995836; 36; 3227919; 12; 901022; 1; 166917843; 4307; 36; 284546; 36; 158221314; 26549; 36; 74698472; 36;
  333849714; 1; 254006273; 72; 2174038; 72; 2261318; 64571; 4; 207616; 8310; 4; 1293828; 28716; 63; 0; 1;
  1006041; 43623; 251; 0; 1; 100181; 726; 719; 0; 1; 100181; 726; 719; 0; 1; 100181; 726; 719; 0; 1; 107878;
  680; 0; 1; 95336; 1; 281145; 18848; 0; 1; 180194; 159; 1; 1; 158519; 8942; 0; 1; 159378; 8813; 0; 1;
  107490; 3298; 1; 106057; 655; 1; 1964219; 24520; 3; 607153; 231697; 53144; 0; 1; 116711; 1957; 4; 231883;
  10; 1000; 24838; 7; 1; 232010; 32; 321837444; 25087669; 18; 617887431; 67302824; 36; 390841; 30257; 47; 27;
  219951; 9444; 1; 1000; 284948; 143815; 4; 26; 29; 213283; 618401; 1998; 28258; 1; 1000; 38159; 2; 22; 1000;
  128595; 1; 14; 18; 1000; 383231; 14; 29].

