(* ===== verification/Costing.v ===== *)
(** * Costs

    Models [amaru-uplc/src/machine/cost_model]: budgets ([ex_budget.rs]), step
    kinds and their prices ([step_kind.rs], [machine_costs.rs]), the costing
    functions ([costing.rs]), the table of builtin costs ([builtin_costs.rs]) and
    the cost model built from an array of parameters ([mod.rs]).

    A costing function receives the sizes of the arguments; the source computes
    each size on first use and caches it, which is not observable.  Sizes are
    unbounded here: the source adds them in [i64], which would need a structure
    of 2^63 nodes to overflow. *)

From S2P Require Import Prelude UplcSyntax ParamName.

#[local] Open Scope sat_scope.

(** ** Budgets and step costs *)

(** Components are [i64]. *)
Record ExBudget := mkExBudget { mem : Z; cpu : Z }.
#[global] Instance ExBudget_eq_dec : EqDecision ExBudget.
Proof. solve_decision. Defined.

Definition ExBudget_scale (b : ExBudget) (n : Z) : ExBudget :=
  mkExBudget (i64_saturating_mul (mem b) n) (i64_saturating_mul (cpu b) n).
Definition ExBudget_sub (a b : ExBudget) : ExBudget :=
  mkExBudget (i64_saturating_sub (mem a) (mem b)) (i64_saturating_sub (cpu a) (cpu b)).
Definition ExBudget_machine : ExBudget := mkExBudget 14000000 10000000000.
Definition ExBudget_machine_max : ExBudget := mkExBudget 14000000000000 10000000000000000.

Inductive StepKind :=
| StepConstant | StepVar | StepLambda | StepApply | StepDelay | StepForce | StepBuiltin | StepConstr | StepCase.

#[global] Instance StepKind_eq_dec : EqDecision StepKind.
Proof. solve_decision. Defined.

(** [step as usize]. *)
Definition StepKind_index (s : StepKind) : nat :=
  match s with
  | StepConstant => 0 | StepVar => 1 | StepLambda => 2 | StepApply => 3 | StepDelay => 4
  | StepForce => 5 | StepBuiltin => 6 | StepConstr => 7 | StepCase => 8
  end.
Definition StepKind_LEN : nat := 9.
Definition StepKind_enumerate : list StepKind :=
  [StepConstant; StepVar; StepLambda; StepApply; StepDelay; StepForce; StepBuiltin; StepConstr; StepCase].

Record MachineCosts := mkMachineCosts {
  startup : ExBudget; c_constant : ExBudget; c_var : ExBudget; c_lambda : ExBudget; c_delay : ExBudget;
  c_force : ExBudget; c_apply : ExBudget; c_constr : ExBudget; c_case : ExBudget; c_builtin : ExBudget }.

Definition MachineCosts_step (m : MachineCosts) (step_kind : StepKind) : ExBudget :=
  match step_kind with
  | StepConstant => c_constant m
  | StepVar => c_var m
  | StepLambda => c_lambda m
  | StepApply => c_apply m
  | StepDelay => c_delay m
  | StepForce => c_force m
  | StepBuiltin => c_builtin m
  | StepConstr => c_constr m
  | StepCase => c_case m
  end.

Definition default_startup_cost : ExBudget := mkExBudget 100 100.
Definition default_machine_cost : ExBudget := mkExBudget 100 16000.
Definition MachineCosts_default : MachineCosts :=
  mkMachineCosts default_startup_cost default_machine_cost default_machine_cost default_machine_cost
    default_machine_cost default_machine_cost default_machine_cost default_machine_cost default_machine_cost
    default_machine_cost.

(** A parameter missing from the map is priced at [i64::MAX]. *)
Definition param (cost_map : gmap ParamName Z) (name : ParamName) : Z := default i64_max (cost_map !! name).

Definition MachineCosts_new (cost_map : gmap ParamName Z) : MachineCosts :=
  let param := param cost_map in {|
    startup := mkExBudget (param CekStartupMem) (param CekStartupCpu);
    c_constant := mkExBudget (param CekConstMem) (param CekConstCpu);
    c_var := mkExBudget (param CekVarMem) (param CekVarCpu);
    c_lambda := mkExBudget (param CekLamMem) (param CekLamCpu);
    c_apply := mkExBudget (param CekApplyMem) (param CekApplyCpu);
    c_delay := mkExBudget (param CekDelayMem) (param CekDelayCpu);
    c_force := mkExBudget (param CekForceMem) (param CekForceCpu);
    c_builtin := mkExBudget (param CekBuiltinMem) (param CekBuiltinCpu);
    c_constr := mkExBudget (param CekConstrMem) (param CekConstrCpu);
    c_case := mkExBudget (param CekCaseMem) (param CekCaseCpu) |}.

(** ** Costing functions *)

Record LinearSize := mkLinearSize { l_intercept : Z; l_slope : Z }.
Record TwoVariableLinearSize := mkTwoVariableLinearSize { tv_intercept : Z; tv_slope1 : Z; tv_slope2 : Z }.
Record AddedSizes := mkAddedSizes { as_intercept : Z; as_slope : Z }.
Record SubtractedSizes := mkSubtractedSizes { ss_intercept : Z; ss_slope : Z; ss_minimum : Z }.
Record MultipliedSizes := mkMultipliedSizes { ms_intercept : Z; ms_slope : Z }.
Record MinSize := mkMinSize { min_intercept : Z; min_slope : Z }.
Record MaxSize := mkMaxSize { max_intercept : Z; max_slope : Z }.
Record ConstantOrLinear := mkConstantOrLinear { cl_constant : Z; cl_intercept : Z; cl_slope : Z }.
Record QuadraticFunction := mkQuadraticFunction { q_coeff_0 : Z; q_coeff_1 : Z; q_coeff_2 : Z }.
Record TwoArgumentsQuadraticFunction := mkTwoArgumentsQuadraticFunction {
  tq_minimum : Z; tq_coeff_00 : Z; tq_coeff_01 : Z; tq_coeff_02 : Z; tq_coeff_10 : Z; tq_coeff_11 : Z;
  tq_coeff_20 : Z }.
Record WithInteraction := mkWithInteraction { w_coeff_00 : Z; w_coeff_10 : Z; w_coeff_01 : Z; w_coeff_11 : Z }.
Record ExpModCost := mkExpModCost { em_coeff_00 : Z; em_coeff_11 : Z; em_coeff_12 : Z }.

Inductive OneArgument :=
| One_Constant (c : Z) | One_LinearInX (m : LinearSize) | One_Quadratic (q : QuadraticFunction).
Inductive TwoArguments :=
| Two_Constant (c : Z) | Two_LinearInX (l : LinearSize) | Two_LinearInY (l : LinearSize)
| Two_LinearInXAndY (l : TwoVariableLinearSize) | Two_AddedSizes (s : AddedSizes)
| Two_SubtractedSizes (s : SubtractedSizes) | Two_MultipliedSizes (s : MultipliedSizes)
| Two_MinSize (s : MinSize) | Two_MaxSize (s : MaxSize) | Two_LinearOnDiagonal (l : ConstantOrLinear)
| Two_ConstAboveDiagonal (constant : Z) (q : TwoArguments) | Two_AboveAndBelowDiagonal (q : TwoArguments)
| Two_QuadraticInY (q : QuadraticFunction) | Two_QuadraticInXAndY (q : TwoArgumentsQuadraticFunction)
| Two_WithInteraction (w : WithInteraction).
Inductive ThreeArguments :=
| Three_Constant (c : Z) | Three_LinearInX (l : LinearSize) | Three_LinearInY (l : LinearSize)
| Three_LinearInZ (l : LinearSize) | Three_QuadraticInZ (q : QuadraticFunction)
| Three_LiteralInYorLinearInZ (l : LinearSize) | Three_LinearInYAndZ (l : TwoVariableLinearSize)
| Three_LinearInMaxYZ (l : LinearSize) | Three_ExpModCost (c : ExpModCost).
Inductive FourArguments := Four_LinearInU (l : LinearSize).
Inductive SixArguments := Six_Constant (c : Z).

(** [args[i].size()]. *)
Definition size_at {E} (args : list Z) (i : nat) : exec E Z :=
  match args !! i with Some s => Ok s | None => Panic end.

(** The trait [Cost]. *)
Class Cost (T : Type) := cost_of : ∀ {E}, T → list Z → exec E Z.

#[global] Instance OneArgument_cost : Cost OneArgument := λ E self args,
  match self with
  | One_Constant c => Ok c
  | One_LinearInX m => x ← size_at args 0; Ok (l_slope m ⊠ x ⊞ l_intercept m)
  | One_Quadratic q =>
      x ← size_at args 0;
      Ok (q_coeff_0 q ⊞ q_coeff_1 q ⊠ x ⊞ q_coeff_2 q ⊠ x ⊠ x)
  end.

Fixpoint two_cost {E} (self : TwoArguments) (args : list Z) : exec E Z :=
  match self with
  | Two_Constant c => Ok c
  | Two_LinearInX l => x ← size_at args 0; Ok (l_slope l ⊠ x ⊞ l_intercept l)
  | Two_LinearInY l => y ← size_at args 1; Ok (l_slope l ⊠ y ⊞ l_intercept l)
  | Two_LinearInXAndY l =>
      x ← size_at args 0; y ← size_at args 1;
      Ok (tv_slope1 l ⊠ x ⊞ tv_slope2 l ⊠ y ⊞ tv_intercept l)
  | Two_AddedSizes s =>
      x ← size_at args 0; y ← size_at args 1; Ok (as_slope s ⊠ (x ⊞ y) ⊞ as_intercept s)
  | Two_SubtractedSizes s =>
      x ← size_at args 0; y ← size_at args 1;
      Ok (ss_slope s ⊠ Z.max (ss_minimum s) (i64_saturating_sub x y) ⊞ ss_intercept s)
  | Two_MultipliedSizes s =>
      x ← size_at args 0; y ← size_at args 1; Ok (ms_slope s ⊠ (x ⊠ y) ⊞ ms_intercept s)
  | Two_MinSize s =>
      x ← size_at args 0; y ← size_at args 1; Ok (min_slope s ⊠ Z.min x y ⊞ min_intercept s)
  | Two_MaxSize s =>
      x ← size_at args 0; y ← size_at args 1; Ok (max_slope s ⊠ Z.max x y ⊞ max_intercept s)
  | Two_LinearOnDiagonal l =>
      x ← size_at args 0; y ← size_at args 1;
      Ok (if x =? y then x ⊠ cl_slope l ⊞ cl_intercept l else cl_constant l)
  | Two_QuadraticInY q =>
      y ← size_at args 1; Ok (q_coeff_0 q ⊞ q_coeff_1 q ⊠ y ⊞ q_coeff_2 q ⊠ y ⊠ y)
  | Two_QuadraticInXAndY q =>
      x ← size_at args 0; y ← size_at args 1;
      Ok (Z.max (tq_minimum q)
        (tq_coeff_00 q ⊞ tq_coeff_10 q ⊠ x ⊞ tq_coeff_01 q ⊠ y ⊞ tq_coeff_20 q ⊠ x ⊠ x
          ⊞ tq_coeff_11 q ⊠ x ⊠ y ⊞ tq_coeff_02 q ⊠ y ⊠ y))
  | Two_ConstAboveDiagonal constant q =>
      x ← size_at args 0; y ← size_at args 1; if x <? y then Ok constant else two_cost q args
  | Two_AboveAndBelowDiagonal q =>
      x ← size_at args 0; y ← size_at args 1; two_cost q [Z.max x y; Z.min x y]
  | Two_WithInteraction w =>
      x ← size_at args 0; y ← size_at args 1;
      Ok (w_coeff_00 w ⊞ w_coeff_10 w ⊠ x ⊞ w_coeff_01 w ⊠ y ⊞ w_coeff_11 w ⊠ x ⊠ y)
  end.
#[global] Instance TwoArguments_cost : Cost TwoArguments := λ E, two_cost.

#[global] Instance ThreeArguments_cost : Cost ThreeArguments := λ E self args,
  match self with
  | Three_Constant c => Ok c
  | Three_LinearInX l => x ← size_at args 0; Ok (x ⊠ l_slope l ⊞ l_intercept l)
  | Three_LinearInY l => y ← size_at args 1; Ok (y ⊠ l_slope l ⊞ l_intercept l)
  | Three_LinearInZ l => z ← size_at args 2; Ok (z ⊠ l_slope l ⊞ l_intercept l)
  | Three_QuadraticInZ q => z ← size_at args 2; Ok (q_coeff_0 q ⊞ q_coeff_1 q ⊠ z ⊞ q_coeff_2 q ⊠ z ⊠ z)
  | Three_LiteralInYorLinearInZ l =>
      y ← size_at args 1;
      if y =? 0 then z ← size_at args 2; Ok (l_slope l ⊠ z ⊞ l_intercept l) else Ok y
  | Three_LinearInYAndZ l =>
      y ← size_at args 1; z ← size_at args 2; Ok (y ⊠ tv_slope1 l ⊞ z ⊠ tv_slope2 l ⊞ tv_intercept l)
  | Three_LinearInMaxYZ l =>
      y ← size_at args 1; z ← size_at args 2; Ok (Z.max y z ⊠ l_slope l ⊞ l_intercept l)
  | Three_ExpModCost c =>
      x ← size_at args 0; y ← size_at args 1; z ← size_at args 2;
      let cost := em_coeff_00 c ⊞ em_coeff_11 c ⊠ y ⊠ z ⊞ em_coeff_12 c ⊠ y ⊠ z ⊠ z in
      Ok (if x <=? z then cost else cost ⊞ Z.quot cost 2)
  end.

#[global] Instance FourArguments_cost : Cost FourArguments := λ E self args,
  match self with Four_LinearInU l => u ← size_at args 3; Ok (u ⊠ l_slope l ⊞ l_intercept l) end.
#[global] Instance SixArguments_cost : Cost SixArguments := λ E self args,
  match self with Six_Constant c => Ok c end.

Record Costing (T : Type) := mkCosting { costing_mem : T; costing_cpu : T }.
Arguments mkCosting {T}.
Arguments costing_mem {T}.
Arguments costing_cpu {T}.

Definition cost {E T} `{Cost T} (costing : Costing T) (args : list Z) : exec E ExBudget :=
  mem ← cost_of (costing_mem costing) args;
  cpu ← cost_of (costing_cpu costing) args;
  Ok (mkExBudget mem cpu).

(** ** The table of builtin costs *)

Definition cost_trace (param : ParamName → Z) : Costing TwoArguments :=
  mkCosting (Two_Constant (param TraceMem))
    (Two_Constant (param TraceCpu)).
Definition cost_choose_unit (param : ParamName → Z) : Costing TwoArguments :=
  mkCosting (Two_Constant (param ChooseUnitMem))
    (Two_Constant (param ChooseUnitCpu)).
Definition cost_add_integer (param : ParamName → Z) : Costing TwoArguments :=
  mkCosting (Two_MaxSize (mkMaxSize (param AddIntegerMemIntercept) (param AddIntegerMemSlope)))
    (Two_MaxSize (mkMaxSize (param AddIntegerCpuIntercept) (param AddIntegerCpuSlope))).
Definition cost_divide_integer (param : ParamName → Z) (semantics : Semantics) : Costing TwoArguments :=
  mkCosting (Two_SubtractedSizes (mkSubtractedSizes (param DivideIntegerMemIntercept) (param
      DivideIntegerMemSlope) (param DivideIntegerMemMinimum)))
    match semantics with
    | SemA | SemB => (Two_ConstAboveDiagonal (param DivideIntegerCpuConstant) (Two_MultipliedSizes
      (mkMultipliedSizes (param DivideIntegerCpuIntercept) (param DivideIntegerCpuSlope))))
    | SemD => (Two_AboveAndBelowDiagonal (Two_MultipliedSizes (mkMultipliedSizes (param
      DivideIntegerCpuIntercept) (param DivideIntegerCpuSlope))))
    | SemC => (Two_ConstAboveDiagonal (param DivideIntegerCpuConstant) (Two_QuadraticInXAndY
      (mkTwoArgumentsQuadraticFunction (param DivideIntegerCpuMinimum) (param DivideIntegerCpuC00) (param
      DivideIntegerCpuC01) (param DivideIntegerCpuC02) (param DivideIntegerCpuC10) (param DivideIntegerCpuC11)
      (param DivideIntegerCpuC20))))
    | SemE => (Two_AboveAndBelowDiagonal (Two_QuadraticInXAndY (mkTwoArgumentsQuadraticFunction (param
      DivideIntegerCpuMinimum) (param DivideIntegerCpuC00) (param DivideIntegerCpuC01) (param
      DivideIntegerCpuC02) (param DivideIntegerCpuC10) (param DivideIntegerCpuC11) (param
      DivideIntegerCpuC20))))
    end.
Definition cost_equals_integer (param : ParamName → Z) : Costing TwoArguments :=
  mkCosting (Two_Constant (param EqualsIntegerMem))
    (Two_MinSize (mkMinSize (param EqualsIntegerCpuIntercept) (param EqualsIntegerCpuSlope))).
Definition cost_integer_to_byte_string (param : ParamName → Z) : Costing ThreeArguments :=
  mkCosting (Three_LiteralInYorLinearInZ (mkLinearSize (param IntegerToByteStringMemIntercept) (param
      IntegerToByteStringMemSlope)))
    (Three_QuadraticInZ (mkQuadraticFunction (param IntegerToByteStringCpuC0) (param IntegerToByteStringCpuC1)
      (param IntegerToByteStringCpuC2))).
Definition cost_less_than_equals_integer (param : ParamName → Z) : Costing TwoArguments :=
  mkCosting (Two_Constant (param LessThanEqualsIntegerMem))
    (Two_MinSize (mkMinSize (param LessThanEqualsIntegerCpuIntercept) (param LessThanEqualsIntegerCpuSlope))).
Definition cost_less_than_integer (param : ParamName → Z) : Costing TwoArguments :=
  mkCosting (Two_Constant (param LessThanIntegerMem))
    (Two_MinSize (mkMinSize (param LessThanIntegerCpuIntercept) (param LessThanIntegerCpuSlope))).
Definition cost_mod_integer (param : ParamName → Z) (semantics : Semantics) : Costing TwoArguments :=
  mkCosting match semantics with
    | SemA | SemB => (Two_SubtractedSizes (mkSubtractedSizes (param ModIntegerMemIntercept) (param
      ModIntegerMemSlope) (param ModIntegerMemMinimum)))
    | SemC | SemD | SemE => (Two_LinearInY (mkLinearSize (param ModIntegerMemIntercept) (param
      ModIntegerMemSlope)))
    end
    match semantics with
    | SemA | SemB => (Two_ConstAboveDiagonal (param ModIntegerCpuConstant) (Two_MultipliedSizes
      (mkMultipliedSizes (param ModIntegerCpuIntercept) (param ModIntegerCpuSlope))))
    | SemD => (Two_AboveAndBelowDiagonal (Two_MultipliedSizes (mkMultipliedSizes (param ModIntegerCpuIntercept)
      (param ModIntegerCpuSlope))))
    | SemC => (Two_ConstAboveDiagonal (param ModIntegerCpuConstant) (Two_QuadraticInXAndY
      (mkTwoArgumentsQuadraticFunction (param ModIntegerCpuMinimum) (param ModIntegerCpuC00) (param
      ModIntegerCpuC01) (param ModIntegerCpuC02) (param ModIntegerCpuC10) (param ModIntegerCpuC11) (param
      ModIntegerCpuC20))))
    | SemE => (Two_AboveAndBelowDiagonal (Two_QuadraticInXAndY (mkTwoArgumentsQuadraticFunction (param
      ModIntegerCpuMinimum) (param ModIntegerCpuC00) (param ModIntegerCpuC01) (param ModIntegerCpuC02) (param
      ModIntegerCpuC10) (param ModIntegerCpuC11) (param ModIntegerCpuC20))))
    end.
Definition cost_multiply_integer (param : ParamName → Z) (semantics : Semantics) : Costing TwoArguments :=
  mkCosting (Two_AddedSizes (mkAddedSizes (param MultiplyIntegerMemIntercept) (param MultiplyIntegerMemSlope)))
    match semantics with
    | SemA => (Two_AddedSizes (mkAddedSizes (param MultiplyIntegerCpuIntercept) (param
      MultiplyIntegerCpuSlope)))
    | SemB | SemC | SemD | SemE => (Two_MultipliedSizes (mkMultipliedSizes (param MultiplyIntegerCpuIntercept)
      (param MultiplyIntegerCpuSlope)))
    end.
Definition cost_quotient_integer (param : ParamName → Z) (semantics : Semantics) : Costing TwoArguments :=
  mkCosting (Two_SubtractedSizes (mkSubtractedSizes (param QuotientIntegerMemIntercept) (param
      QuotientIntegerMemSlope) (param QuotientIntegerMemMinimum)))
    match semantics with
    | SemA | SemB | SemD => (Two_ConstAboveDiagonal (param QuotientIntegerCpuConstant) (Two_MultipliedSizes
      (mkMultipliedSizes (param QuotientIntegerCpuIntercept) (param QuotientIntegerCpuSlope))))
    | SemC | SemE => (Two_ConstAboveDiagonal (param QuotientIntegerCpuConstant) (Two_QuadraticInXAndY
      (mkTwoArgumentsQuadraticFunction (param QuotientIntegerCpuMinimum) (param QuotientIntegerCpuC00) (param
      QuotientIntegerCpuC01) (param QuotientIntegerCpuC02) (param QuotientIntegerCpuC10) (param
      QuotientIntegerCpuC11) (param QuotientIntegerCpuC20))))
    end.
Definition cost_remainder_integer (param : ParamName → Z) (semantics : Semantics) : Costing TwoArguments :=
  mkCosting match semantics with
    | SemA | SemB => (Two_SubtractedSizes (mkSubtractedSizes (param RemainderIntegerMemIntercept) (param
      RemainderIntegerMemSlope) (param RemainderIntegerMemMinimum)))
    | SemC | SemD | SemE => (Two_LinearInY (mkLinearSize (param RemainderIntegerMemIntercept) (param
      RemainderIntegerMemSlope)))
    end
    match semantics with
    | SemA | SemB | SemD => (Two_ConstAboveDiagonal (param RemainderIntegerCpuConstant) (Two_MultipliedSizes
      (mkMultipliedSizes (param RemainderIntegerCpuIntercept) (param RemainderIntegerCpuSlope))))
    | SemC | SemE => (Two_ConstAboveDiagonal (param RemainderIntegerCpuConstant) (Two_QuadraticInXAndY
      (mkTwoArgumentsQuadraticFunction (param RemainderIntegerCpuMinimum) (param RemainderIntegerCpuC00) (param
      RemainderIntegerCpuC01) (param RemainderIntegerCpuC02) (param RemainderIntegerCpuC10) (param
      RemainderIntegerCpuC11) (param RemainderIntegerCpuC20))))
    end.
Definition cost_subtract_integer (param : ParamName → Z) : Costing TwoArguments :=
  mkCosting (Two_MaxSize (mkMaxSize (param SubtractIntegerMemIntercept) (param SubtractIntegerMemSlope)))
    (Two_MaxSize (mkMaxSize (param SubtractIntegerCpuIntercept) (param SubtractIntegerCpuSlope))).
Definition cost_and_byte_string (param : ParamName → Z) : Costing ThreeArguments :=
  mkCosting (Three_LinearInMaxYZ (mkLinearSize (param AndByteStringMemIntercept) (param AndByteStringMemSlope)))
    (Three_LinearInYAndZ (mkTwoVariableLinearSize (param AndByteStringCpuIntercept) (param
      AndByteStringCpuSlope1) (param AndByteStringCpuSlope2))).
Definition cost_append_byte_string (param : ParamName → Z) : Costing TwoArguments :=
  mkCosting (Two_AddedSizes (mkAddedSizes (param AppendByteStringMemIntercept) (param
      AppendByteStringMemSlope)))
    (Two_AddedSizes (mkAddedSizes (param AppendByteStringCpuIntercept) (param AppendByteStringCpuSlope))).
Definition cost_byte_string_to_integer (param : ParamName → Z) : Costing TwoArguments :=
  mkCosting (Two_LinearInY (mkLinearSize (param ByteStringToIntegerMemIntercept) (param
      ByteStringToIntegerMemSlope)))
    (Two_QuadraticInY (mkQuadraticFunction (param ByteStringToIntegerCpuC0) (param ByteStringToIntegerCpuC1)
      (param ByteStringToIntegerCpuC2))).
Definition cost_complement_byte_string (param : ParamName → Z) : Costing OneArgument :=
  mkCosting (One_LinearInX (mkLinearSize (param ComplementByteStringMemIntercept) (param
      ComplementByteStringMemSlope)))
    (One_LinearInX (mkLinearSize (param ComplementByteStringCpuIntercept) (param
      ComplementByteStringCpuSlope))).
Definition cost_cons_byte_string (param : ParamName → Z) : Costing TwoArguments :=
  mkCosting (Two_AddedSizes (mkAddedSizes (param ConsByteStringMemIntercept) (param ConsByteStringMemSlope)))
    (Two_LinearInY (mkLinearSize (param ConsByteStringCpuIntercept) (param ConsByteStringCpuSlope))).
Definition cost_equals_byte_string (param : ParamName → Z) : Costing TwoArguments :=
  mkCosting (Two_Constant (param EqualsByteStringMem))
    (Two_LinearOnDiagonal (mkConstantOrLinear (param EqualsByteStringCpuConstant) (param
      EqualsByteStringCpuIntercept) (param EqualsByteStringCpuSlope))).
Definition cost_index_byte_string (param : ParamName → Z) : Costing TwoArguments :=
  mkCosting (Two_Constant (param IndexByteStringMem))
    (Two_Constant (param IndexByteStringCpu)).
Definition cost_length_of_byte_string (param : ParamName → Z) : Costing OneArgument :=
  mkCosting (One_Constant (param LengthOfByteStringMem))
    (One_Constant (param LengthOfByteStringCpu)).
Definition cost_less_than_byte_string (param : ParamName → Z) : Costing TwoArguments :=
  mkCosting (Two_Constant (param LessThanByteStringMem))
    (Two_MinSize (mkMinSize (param LessThanByteStringCpuIntercept) (param LessThanByteStringCpuSlope))).
Definition cost_less_than_equals_byte_string (param : ParamName → Z) : Costing TwoArguments :=
  mkCosting (Two_Constant (param LessThanEqualsByteStringMem))
    (Two_MinSize (mkMinSize (param LessThanEqualsByteStringCpuIntercept) (param
      LessThanEqualsByteStringCpuSlope))).
Definition cost_or_byte_string (param : ParamName → Z) : Costing ThreeArguments :=
  mkCosting (Three_LinearInMaxYZ (mkLinearSize (param OrByteStringMemIntercept) (param OrByteStringMemSlope)))
    (Three_LinearInYAndZ (mkTwoVariableLinearSize (param OrByteStringCpuIntercept) (param
      OrByteStringCpuSlope1) (param OrByteStringCpuSlope2))).
Definition cost_rotate_byte_string (param : ParamName → Z) : Costing TwoArguments :=
  mkCosting (Two_LinearInX (mkLinearSize (param RotateByteStringMemIntercept) (param RotateByteStringMemSlope)))
    (Two_LinearInX (mkLinearSize (param RotateByteStringCpuIntercept) (param RotateByteStringCpuSlope))).
Definition cost_shift_byte_string (param : ParamName → Z) : Costing TwoArguments :=
  mkCosting (Two_LinearInX (mkLinearSize (param ShiftByteStringMemIntercept) (param ShiftByteStringMemSlope)))
    (Two_LinearInX (mkLinearSize (param ShiftByteStringCpuIntercept) (param ShiftByteStringCpuSlope))).
Definition cost_slice_byte_string (param : ParamName → Z) : Costing ThreeArguments :=
  mkCosting (Three_LinearInZ (mkLinearSize (param SliceByteStringMemIntercept) (param SliceByteStringMemSlope)))
    (Three_LinearInZ (mkLinearSize (param SliceByteStringCpuIntercept) (param SliceByteStringCpuSlope))).
Definition cost_xor_byte_string (param : ParamName → Z) : Costing ThreeArguments :=
  mkCosting (Three_LinearInMaxYZ (mkLinearSize (param XorByteStringMemIntercept) (param XorByteStringMemSlope)))
    (Three_LinearInYAndZ (mkTwoVariableLinearSize (param XorByteStringCpuIntercept) (param
      XorByteStringCpuSlope1) (param XorByteStringCpuSlope2))).
Definition cost_read_bit (param : ParamName → Z) : Costing TwoArguments :=
  mkCosting (Two_Constant (param ReadBitMem))
    (Two_Constant (param ReadBitCpu)).
Definition cost_write_bits (param : ParamName → Z) : Costing ThreeArguments :=
  mkCosting (Three_LinearInX (mkLinearSize (param WriteBitsMemIntercept) (param WriteBitsMemSlope)))
    (Three_LinearInY (mkLinearSize (param WriteBitsCpuIntercept) (param WriteBitsCpuSlope))).
Definition cost_replicate_byte (param : ParamName → Z) : Costing TwoArguments :=
  mkCosting (Two_LinearInX (mkLinearSize (param ReplicateByteMemIntercept) (param ReplicateByteMemSlope)))
    (Two_LinearInX (mkLinearSize (param ReplicateByteCpuIntercept) (param ReplicateByteCpuSlope))).
Definition cost_count_set_bits (param : ParamName → Z) : Costing OneArgument :=
  mkCosting (One_Constant (param CountSetBitsMem))
    (One_LinearInX (mkLinearSize (param CountSetBitsCpuIntercept) (param CountSetBitsCpuSlope))).
Definition cost_find_first_set_bit (param : ParamName → Z) : Costing OneArgument :=
  mkCosting (One_Constant (param FindFirstSetBitMem))
    (One_LinearInX (mkLinearSize (param FindFirstSetBitCpuIntercept) (param FindFirstSetBitCpuSlope))).
Definition cost_append_string (param : ParamName → Z) : Costing TwoArguments :=
  mkCosting (Two_AddedSizes (mkAddedSizes (param AppendStringMemIntercept) (param AppendStringMemSlope)))
    (Two_AddedSizes (mkAddedSizes (param AppendStringCpuIntercept) (param AppendStringCpuSlope))).
Definition cost_equals_string (param : ParamName → Z) : Costing TwoArguments :=
  mkCosting (Two_Constant (param EqualsStringMem))
    (Two_LinearOnDiagonal (mkConstantOrLinear (param EqualsStringCpuConstant) (param EqualsStringCpuIntercept)
      (param EqualsStringCpuSlope))).
Definition cost_encode_utf8 (param : ParamName → Z) : Costing OneArgument :=
  mkCosting (One_LinearInX (mkLinearSize (param EncodeUtf8MemIntercept) (param EncodeUtf8MemSlope)))
    (One_LinearInX (mkLinearSize (param EncodeUtf8CpuIntercept) (param EncodeUtf8CpuSlope))).
Definition cost_decode_utf8 (param : ParamName → Z) : Costing OneArgument :=
  mkCosting (One_LinearInX (mkLinearSize (param DecodeUtf8MemIntercept) (param DecodeUtf8MemSlope)))
    (One_LinearInX (mkLinearSize (param DecodeUtf8CpuIntercept) (param DecodeUtf8CpuSlope))).
Definition cost_if_then_else (param : ParamName → Z) : Costing ThreeArguments :=
  mkCosting (Three_Constant (param IfThenElseMem))
    (Three_Constant (param IfThenElseCpu)).
Definition cost_insert_coin (param : ParamName → Z) : Costing FourArguments :=
  mkCosting (Four_LinearInU (mkLinearSize (param InsertCoinMemIntercept) (param InsertCoinMemSlope)))
    (Four_LinearInU (mkLinearSize (param InsertCoinCpuIntercept) (param InsertCoinCpuSlope))).
Definition cost_lookup_coin (param : ParamName → Z) : Costing ThreeArguments :=
  mkCosting (Three_Constant (param LookupCoinMem))
    (Three_LinearInZ (mkLinearSize (param LookupCoinCpuIntercept) (param LookupCoinCpuSlope))).
Definition cost_scale_value (param : ParamName → Z) : Costing TwoArguments :=
  mkCosting (Two_LinearInY (mkLinearSize (param ScaleValueMemIntercept) (param ScaleValueMemSlope)))
    (Two_LinearInY (mkLinearSize (param ScaleValueCpuIntercept) (param ScaleValueCpuSlope))).
Definition cost_un_value_data (param : ParamName → Z) : Costing OneArgument :=
  mkCosting (One_LinearInX (mkLinearSize (param UnValueDataMemIntercept) (param UnValueDataMemSlope)))
    (One_Quadratic (mkQuadraticFunction (param UnValueDataCpuC0) (param UnValueDataCpuC1) (param
      UnValueDataCpuC2))).
Definition cost_union_value (param : ParamName → Z) : Costing TwoArguments :=
  mkCosting (Two_AddedSizes (mkAddedSizes (param UnionValueMemIntercept) (param UnionValueMemSlope)))
    (Two_WithInteraction (mkWithInteraction (param UnionValueCpuC00) (param UnionValueCpuC10) (param
      UnionValueCpuC01) (param UnionValueCpuC11))).
Definition cost_value_contains (param : ParamName → Z) : Costing TwoArguments :=
  mkCosting (Two_Constant (param ValueContainsMem))
    (Two_ConstAboveDiagonal (param ValueContainsCpuConstant) (Two_LinearInXAndY (mkTwoVariableLinearSize (param
      ValueContainsCpuIntercept) (param ValueContainsCpuSlope1) (param ValueContainsCpuSlope2)))).
Definition cost_value_data (param : ParamName → Z) : Costing OneArgument :=
  mkCosting (One_LinearInX (mkLinearSize (param ValueDataMemIntercept) (param ValueDataMemSlope)))
    (One_LinearInX (mkLinearSize (param ValueDataCpuIntercept) (param ValueDataCpuSlope))).
Definition cost_choose_list (param : ParamName → Z) : Costing ThreeArguments :=
  mkCosting (Three_Constant (param ChooseListMem))
    (Three_Constant (param ChooseListCpu)).
Definition cost_drop_list (param : ParamName → Z) : Costing TwoArguments :=
  mkCosting (Two_Constant (param DropListMem))
    (Two_LinearInX (mkLinearSize (param DropListCpuIntercept) (param DropListCpuSlope))).
Definition cost_head_list (param : ParamName → Z) : Costing OneArgument :=
  mkCosting (One_Constant (param HeadListMem))
    (One_Constant (param HeadListCpu)).
Definition cost_mk_cons (param : ParamName → Z) : Costing TwoArguments :=
  mkCosting (Two_Constant (param MkConsMem))
    (Two_Constant (param MkConsCpu)).
Definition cost_null_list (param : ParamName → Z) : Costing OneArgument :=
  mkCosting (One_Constant (param NullListMem))
    (One_Constant (param NullListCpu)).
Definition cost_tail_list (param : ParamName → Z) : Costing OneArgument :=
  mkCosting (One_Constant (param TailListMem))
    (One_Constant (param TailListCpu)).
Definition cost_index_array (param : ParamName → Z) : Costing TwoArguments :=
  mkCosting (Two_Constant (param IndexArrayMem))
    (Two_Constant (param IndexArrayCpu)).
Definition cost_length_of_array (param : ParamName → Z) : Costing OneArgument :=
  mkCosting (One_Constant (param LengthOfArrayMem))
    (One_Constant (param LengthOfArrayCpu)).
Definition cost_list_to_array (param : ParamName → Z) : Costing OneArgument :=
  mkCosting (One_LinearInX (mkLinearSize (param ListToArrayMemIntercept) (param ListToArrayMemSlope)))
    (One_LinearInX (mkLinearSize (param ListToArrayCpuIntercept) (param ListToArrayCpuSlope))).
Definition cost_fst_pair (param : ParamName → Z) : Costing OneArgument :=
  mkCosting (One_Constant (param FstPairMem))
    (One_Constant (param FstPairCpu)).
Definition cost_snd_pair (param : ParamName → Z) : Costing OneArgument :=
  mkCosting (One_Constant (param SndPairMem))
    (One_Constant (param SndPairCpu)).
Definition cost_b_data (param : ParamName → Z) : Costing OneArgument :=
  mkCosting (One_Constant (param BDataMem))
    (One_Constant (param BDataCpu)).
Definition cost_choose_data (param : ParamName → Z) : Costing SixArguments :=
  mkCosting (Six_Constant (param ChooseDataMem))
    (Six_Constant (param ChooseDataCpu)).
Definition cost_constr_data (param : ParamName → Z) : Costing TwoArguments :=
  mkCosting (Two_Constant (param ConstrDataMem))
    (Two_Constant (param ConstrDataCpu)).
Definition cost_equals_data (param : ParamName → Z) : Costing TwoArguments :=
  mkCosting (Two_Constant (param EqualsDataMem))
    (Two_MinSize (mkMinSize (param EqualsDataCpuIntercept) (param EqualsDataCpuSlope))).
Definition cost_i_data (param : ParamName → Z) : Costing OneArgument :=
  mkCosting (One_Constant (param IDataMem))
    (One_Constant (param IDataCpu)).
Definition cost_list_data (param : ParamName → Z) : Costing OneArgument :=
  mkCosting (One_Constant (param ListDataMem))
    (One_Constant (param ListDataCpu)).
Definition cost_map_data (param : ParamName → Z) : Costing OneArgument :=
  mkCosting (One_Constant (param MapDataMem))
    (One_Constant (param MapDataCpu)).
Definition cost_mk_nil_data (param : ParamName → Z) : Costing OneArgument :=
  mkCosting (One_Constant (param MkNilDataMem))
    (One_Constant (param MkNilDataCpu)).
Definition cost_mk_nil_pair_data (param : ParamName → Z) : Costing OneArgument :=
  mkCosting (One_Constant (param MkNilPairDataMem))
    (One_Constant (param MkNilPairDataCpu)).
Definition cost_mk_pair_data (param : ParamName → Z) : Costing TwoArguments :=
  mkCosting (Two_Constant (param MkPairDataMem))
    (Two_Constant (param MkPairDataCpu)).
Definition cost_serialise_data (param : ParamName → Z) : Costing OneArgument :=
  mkCosting (One_LinearInX (mkLinearSize (param SerialiseDataMemIntercept) (param SerialiseDataMemSlope)))
    (One_LinearInX (mkLinearSize (param SerialiseDataCpuIntercept) (param SerialiseDataCpuSlope))).
Definition cost_un_b_data (param : ParamName → Z) : Costing OneArgument :=
  mkCosting (One_Constant (param UnBDataMem))
    (One_Constant (param UnBDataCpu)).
Definition cost_un_constr_data (param : ParamName → Z) : Costing OneArgument :=
  mkCosting (One_Constant (param UnConstrDataMem))
    (One_Constant (param UnConstrDataCpu)).
Definition cost_un_i_data (param : ParamName → Z) : Costing OneArgument :=
  mkCosting (One_Constant (param UnIDataMem))
    (One_Constant (param UnIDataCpu)).
Definition cost_un_list_data (param : ParamName → Z) : Costing OneArgument :=
  mkCosting (One_Constant (param UnListDataMem))
    (One_Constant (param UnListDataCpu)).
Definition cost_un_map_data (param : ParamName → Z) : Costing OneArgument :=
  mkCosting (One_Constant (param UnMapDataMem))
    (One_Constant (param UnMapDataCpu)).
Definition cost_bls12_381_final_verify (param : ParamName → Z) : Costing TwoArguments :=
  mkCosting (Two_Constant (param BlsFinalVerifyMem))
    (Two_Constant (param BlsFinalVerifyCpu)).
Definition cost_bls12_381_g1_add (param : ParamName → Z) : Costing TwoArguments :=
  mkCosting (Two_Constant (param BlsG1AddMem))
    (Two_Constant (param BlsG1AddCpu)).
Definition cost_bls12_381_g1_compress (param : ParamName → Z) : Costing OneArgument :=
  mkCosting (One_Constant (param BlsG1CompressMem))
    (One_Constant (param BlsG1CompressCpu)).
Definition cost_bls12_381_g1_equal (param : ParamName → Z) : Costing TwoArguments :=
  mkCosting (Two_Constant (param BlsG1EqualMem))
    (Two_Constant (param BlsG1EqualCpu)).
Definition cost_bls12_381_g1_hash_to_group (param : ParamName → Z) : Costing TwoArguments :=
  mkCosting (Two_Constant (param BlsG1HashToGroupMem))
    (Two_LinearInX (mkLinearSize (param BlsG1HashToGroupCpuIntercept) (param BlsG1HashToGroupCpuSlope))).
Definition cost_bls12_381_g1_multi_scalar_mul (param : ParamName → Z) : Costing TwoArguments :=
  mkCosting (Two_Constant (param BlsG1MultiScalarMulMem))
    (Two_LinearInX (mkLinearSize (param BlsG1MultiScalarMulCpuIntercept) (param BlsG1MultiScalarMulCpuSlope))).
Definition cost_bls12_381_g1_neg (param : ParamName → Z) : Costing OneArgument :=
  mkCosting (One_Constant (param BlsG1NegMem))
    (One_Constant (param BlsG1NegCpu)).
Definition cost_bls12_381_g1_scalar_mul (param : ParamName → Z) : Costing TwoArguments :=
  mkCosting (Two_Constant (param BlsG1ScalarMulMem))
    (Two_LinearInX (mkLinearSize (param BlsG1ScalarMulCpuIntercept) (param BlsG1ScalarMulCpuSlope))).
Definition cost_bls12_381_g1_uncompress (param : ParamName → Z) : Costing OneArgument :=
  mkCosting (One_Constant (param BlsG1UncompressMem))
    (One_Constant (param BlsG1UncompressCpu)).
Definition cost_bls12_381_g2_add (param : ParamName → Z) : Costing TwoArguments :=
  mkCosting (Two_Constant (param BlsG2AddMem))
    (Two_Constant (param BlsG2AddCpu)).
Definition cost_bls12_381_g2_compress (param : ParamName → Z) : Costing OneArgument :=
  mkCosting (One_Constant (param BlsG2CompressMem))
    (One_Constant (param BlsG2CompressCpu)).
Definition cost_bls12_381_g2_equal (param : ParamName → Z) : Costing TwoArguments :=
  mkCosting (Two_Constant (param BlsG2EqualMem))
    (Two_Constant (param BlsG2EqualCpu)).
Definition cost_bls12_381_g2_hash_to_group (param : ParamName → Z) : Costing TwoArguments :=
  mkCosting (Two_Constant (param BlsG2HashToGroupMem))
    (Two_LinearInX (mkLinearSize (param BlsG2HashToGroupCpuIntercept) (param BlsG2HashToGroupCpuSlope))).
Definition cost_bls12_381_g2_multi_scalar_mul (param : ParamName → Z) : Costing TwoArguments :=
  mkCosting (Two_Constant (param BlsG2MultiScalarMulMem))
    (Two_LinearInX (mkLinearSize (param BlsG2MultiScalarMulCpuIntercept) (param BlsG2MultiScalarMulCpuSlope))).
Definition cost_bls12_381_g2_neg (param : ParamName → Z) : Costing OneArgument :=
  mkCosting (One_Constant (param BlsG2NegMem))
    (One_Constant (param BlsG2NegCpu)).
Definition cost_bls12_381_g2_scalar_mul (param : ParamName → Z) : Costing TwoArguments :=
  mkCosting (Two_Constant (param BlsG2ScalarMulMem))
    (Two_LinearInX (mkLinearSize (param BlsG2ScalarMulCpuIntercept) (param BlsG2ScalarMulCpuSlope))).
Definition cost_bls12_381_g2_uncompress (param : ParamName → Z) : Costing OneArgument :=
  mkCosting (One_Constant (param BlsG2UncompressMem))
    (One_Constant (param BlsG2UncompressCpu)).
Definition cost_bls12_381_miller_loop (param : ParamName → Z) : Costing TwoArguments :=
  mkCosting (Two_Constant (param BlsMillerLoopMem))
    (Two_Constant (param BlsMillerLoopCpu)).
Definition cost_bls12_381_mul_ml_result (param : ParamName → Z) : Costing TwoArguments :=
  mkCosting (Two_Constant (param BlsMulMlResultMem))
    (Two_Constant (param BlsMulMlResultCpu)).
Definition cost_blake2b_224 (param : ParamName → Z) : Costing OneArgument :=
  mkCosting (One_Constant (param Blake2b224Mem))
    (One_LinearInX (mkLinearSize (param Blake2b224CpuIntercept) (param Blake2b224CpuSlope))).
Definition cost_blake2b_256 (param : ParamName → Z) : Costing OneArgument :=
  mkCosting (One_Constant (param Blake2b256Mem))
    (One_LinearInX (mkLinearSize (param Blake2b256CpuIntercept) (param Blake2b256CpuSlope))).
Definition cost_exp_mod_integer (param : ParamName → Z) : Costing ThreeArguments :=
  mkCosting (Three_LinearInZ (mkLinearSize (param ExpModIntegerMemIntercept) (param ExpModIntegerMemSlope)))
    (Three_ExpModCost (mkExpModCost (param ExpModIntegerCpuC00) (param ExpModIntegerCpuC11) (param
      ExpModIntegerCpuC12))).
Definition cost_keccak_256 (param : ParamName → Z) : Costing OneArgument :=
  mkCosting (One_Constant (param Keccak256Mem))
    (One_LinearInX (mkLinearSize (param Keccak256CpuIntercept) (param Keccak256CpuSlope))).
Definition cost_ripemd_160 (param : ParamName → Z) : Costing OneArgument :=
  mkCosting (One_Constant (param Ripemd160Mem))
    (One_LinearInX (mkLinearSize (param Ripemd160CpuIntercept) (param Ripemd160CpuSlope))).
Definition cost_sha2_256 (param : ParamName → Z) : Costing OneArgument :=
  mkCosting (One_Constant (param Sha2256Mem))
    (One_LinearInX (mkLinearSize (param Sha2256CpuIntercept) (param Sha2256CpuSlope))).
Definition cost_sha3_256 (param : ParamName → Z) : Costing OneArgument :=
  mkCosting (One_Constant (param Sha3256Mem))
    (One_LinearInX (mkLinearSize (param Sha3256CpuIntercept) (param Sha3256CpuSlope))).
Definition cost_verify_ecdsa_secp256k1_signature (param : ParamName → Z) : Costing ThreeArguments :=
  mkCosting (Three_Constant (param VerifyEcdsaSecp256k1SignatureMem))
    (Three_Constant (param VerifyEcdsaSecp256k1SignatureCpu)).
Definition cost_verify_ed25519_signature (param : ParamName → Z) (semantics : Semantics) : Costing
      ThreeArguments :=
  mkCosting (Three_Constant (param VerifyEd25519SignatureMem))
    match semantics with
    | SemA => (Three_LinearInZ (mkLinearSize (param VerifyEd25519SignatureCpuIntercept) (param
      VerifyEd25519SignatureCpuSlope)))
    | SemB | SemC | SemD | SemE => (Three_LinearInY (mkLinearSize (param VerifyEd25519SignatureCpuIntercept)
      (param VerifyEd25519SignatureCpuSlope)))
    end.
Definition cost_verify_schnorr_secp256k1_signature (param : ParamName → Z) : Costing ThreeArguments :=
  mkCosting (Three_Constant (param VerifySchnorrSecp256k1SignatureMem))
    (Three_LinearInY (mkLinearSize (param VerifySchnorrSecp256k1SignatureCpuIntercept) (param
      VerifySchnorrSecp256k1SignatureCpuSlope))).

Record BuiltinCosts := mkBuiltinCosts {
  bc_trace : Costing TwoArguments; bc_choose_unit : Costing TwoArguments;
  bc_add_integer : Costing TwoArguments; bc_divide_integer : Costing TwoArguments;
  bc_equals_integer : Costing TwoArguments; bc_integer_to_byte_string : Costing ThreeArguments;
  bc_less_than_equals_integer : Costing TwoArguments; bc_less_than_integer : Costing TwoArguments;
  bc_mod_integer : Costing TwoArguments; bc_multiply_integer : Costing TwoArguments;
  bc_quotient_integer : Costing TwoArguments; bc_remainder_integer : Costing TwoArguments;
  bc_subtract_integer : Costing TwoArguments; bc_and_byte_string : Costing ThreeArguments;
  bc_append_byte_string : Costing TwoArguments; bc_byte_string_to_integer : Costing TwoArguments;
  bc_complement_byte_string : Costing OneArgument; bc_cons_byte_string : Costing TwoArguments;
  bc_equals_byte_string : Costing TwoArguments; bc_index_byte_string : Costing TwoArguments;
  bc_length_of_byte_string : Costing OneArgument; bc_less_than_byte_string : Costing TwoArguments;
  bc_less_than_equals_byte_string : Costing TwoArguments; bc_or_byte_string : Costing ThreeArguments;
  bc_rotate_byte_string : Costing TwoArguments; bc_shift_byte_string : Costing TwoArguments;
  bc_slice_byte_string : Costing ThreeArguments; bc_xor_byte_string : Costing ThreeArguments;
  bc_read_bit : Costing TwoArguments; bc_write_bits : Costing ThreeArguments;
  bc_replicate_byte : Costing TwoArguments; bc_count_set_bits : Costing OneArgument;
  bc_find_first_set_bit : Costing OneArgument; bc_append_string : Costing TwoArguments;
  bc_equals_string : Costing TwoArguments; bc_encode_utf8 : Costing OneArgument;
  bc_decode_utf8 : Costing OneArgument; bc_if_then_else : Costing ThreeArguments;
  bc_insert_coin : Costing FourArguments; bc_lookup_coin : Costing ThreeArguments;
  bc_scale_value : Costing TwoArguments; bc_un_value_data : Costing OneArgument;
  bc_union_value : Costing TwoArguments; bc_value_contains : Costing TwoArguments;
  bc_value_data : Costing OneArgument; bc_choose_list : Costing ThreeArguments;
  bc_drop_list : Costing TwoArguments; bc_head_list : Costing OneArgument; bc_mk_cons : Costing TwoArguments;
  bc_null_list : Costing OneArgument; bc_tail_list : Costing OneArgument;
  bc_index_array : Costing TwoArguments; bc_length_of_array : Costing OneArgument;
  bc_list_to_array : Costing OneArgument; bc_fst_pair : Costing OneArgument;
  bc_snd_pair : Costing OneArgument; bc_b_data : Costing OneArgument; bc_choose_data : Costing SixArguments;
  bc_constr_data : Costing TwoArguments; bc_equals_data : Costing TwoArguments;
  bc_i_data : Costing OneArgument; bc_list_data : Costing OneArgument; bc_map_data : Costing OneArgument;
  bc_mk_nil_data : Costing OneArgument; bc_mk_nil_pair_data : Costing OneArgument;
  bc_mk_pair_data : Costing TwoArguments; bc_serialise_data : Costing OneArgument;
  bc_un_b_data : Costing OneArgument; bc_un_constr_data : Costing OneArgument;
  bc_un_i_data : Costing OneArgument; bc_un_list_data : Costing OneArgument;
  bc_un_map_data : Costing OneArgument; bc_bls12_381_final_verify : Costing TwoArguments;
  bc_bls12_381_g1_add : Costing TwoArguments; bc_bls12_381_g1_compress : Costing OneArgument;
  bc_bls12_381_g1_equal : Costing TwoArguments; bc_bls12_381_g1_hash_to_group : Costing TwoArguments;
  bc_bls12_381_g1_multi_scalar_mul : Costing TwoArguments; bc_bls12_381_g1_neg : Costing OneArgument;
  bc_bls12_381_g1_scalar_mul : Costing TwoArguments; bc_bls12_381_g1_uncompress : Costing OneArgument;
  bc_bls12_381_g2_add : Costing TwoArguments; bc_bls12_381_g2_compress : Costing OneArgument;
  bc_bls12_381_g2_equal : Costing TwoArguments; bc_bls12_381_g2_hash_to_group : Costing TwoArguments;
  bc_bls12_381_g2_multi_scalar_mul : Costing TwoArguments; bc_bls12_381_g2_neg : Costing OneArgument;
  bc_bls12_381_g2_scalar_mul : Costing TwoArguments; bc_bls12_381_g2_uncompress : Costing OneArgument;
  bc_bls12_381_miller_loop : Costing TwoArguments; bc_bls12_381_mul_ml_result : Costing TwoArguments;
  bc_blake2b_224 : Costing OneArgument; bc_blake2b_256 : Costing OneArgument;
  bc_exp_mod_integer : Costing ThreeArguments; bc_keccak_256 : Costing OneArgument;
  bc_ripemd_160 : Costing OneArgument; bc_sha2_256 : Costing OneArgument; bc_sha3_256 : Costing OneArgument;
  bc_verify_ecdsa_secp256k1_signature : Costing ThreeArguments;
  bc_verify_ed25519_signature : Costing ThreeArguments;
  bc_verify_schnorr_secp256k1_signature : Costing ThreeArguments }.

Definition BuiltinCosts_new (cost_map : gmap ParamName Z) (semantics : Semantics) : BuiltinCosts :=
  let param := param cost_map in {|
    bc_trace := cost_trace param; bc_choose_unit := cost_choose_unit param;
    bc_add_integer := cost_add_integer param; bc_divide_integer := cost_divide_integer param semantics;
    bc_equals_integer := cost_equals_integer param;
    bc_integer_to_byte_string := cost_integer_to_byte_string param;
    bc_less_than_equals_integer := cost_less_than_equals_integer param;
    bc_less_than_integer := cost_less_than_integer param; bc_mod_integer := cost_mod_integer param semantics;
    bc_multiply_integer := cost_multiply_integer param semantics;
    bc_quotient_integer := cost_quotient_integer param semantics;
    bc_remainder_integer := cost_remainder_integer param semantics;
    bc_subtract_integer := cost_subtract_integer param; bc_and_byte_string := cost_and_byte_string param;
    bc_append_byte_string := cost_append_byte_string param;
    bc_byte_string_to_integer := cost_byte_string_to_integer param;
    bc_complement_byte_string := cost_complement_byte_string param;
    bc_cons_byte_string := cost_cons_byte_string param;
    bc_equals_byte_string := cost_equals_byte_string param;
    bc_index_byte_string := cost_index_byte_string param;
    bc_length_of_byte_string := cost_length_of_byte_string param;
    bc_less_than_byte_string := cost_less_than_byte_string param;
    bc_less_than_equals_byte_string := cost_less_than_equals_byte_string param;
    bc_or_byte_string := cost_or_byte_string param; bc_rotate_byte_string := cost_rotate_byte_string param;
    bc_shift_byte_string := cost_shift_byte_string param;
    bc_slice_byte_string := cost_slice_byte_string param; bc_xor_byte_string := cost_xor_byte_string param;
    bc_read_bit := cost_read_bit param; bc_write_bits := cost_write_bits param;
    bc_replicate_byte := cost_replicate_byte param; bc_count_set_bits := cost_count_set_bits param;
    bc_find_first_set_bit := cost_find_first_set_bit param; bc_append_string := cost_append_string param;
    bc_equals_string := cost_equals_string param; bc_encode_utf8 := cost_encode_utf8 param;
    bc_decode_utf8 := cost_decode_utf8 param; bc_if_then_else := cost_if_then_else param;
    bc_insert_coin := cost_insert_coin param; bc_lookup_coin := cost_lookup_coin param;
    bc_scale_value := cost_scale_value param; bc_un_value_data := cost_un_value_data param;
    bc_union_value := cost_union_value param; bc_value_contains := cost_value_contains param;
    bc_value_data := cost_value_data param; bc_choose_list := cost_choose_list param;
    bc_drop_list := cost_drop_list param; bc_head_list := cost_head_list param;
    bc_mk_cons := cost_mk_cons param; bc_null_list := cost_null_list param;
    bc_tail_list := cost_tail_list param; bc_index_array := cost_index_array param;
    bc_length_of_array := cost_length_of_array param; bc_list_to_array := cost_list_to_array param;
    bc_fst_pair := cost_fst_pair param; bc_snd_pair := cost_snd_pair param; bc_b_data := cost_b_data param;
    bc_choose_data := cost_choose_data param; bc_constr_data := cost_constr_data param;
    bc_equals_data := cost_equals_data param; bc_i_data := cost_i_data param;
    bc_list_data := cost_list_data param; bc_map_data := cost_map_data param;
    bc_mk_nil_data := cost_mk_nil_data param; bc_mk_nil_pair_data := cost_mk_nil_pair_data param;
    bc_mk_pair_data := cost_mk_pair_data param; bc_serialise_data := cost_serialise_data param;
    bc_un_b_data := cost_un_b_data param; bc_un_constr_data := cost_un_constr_data param;
    bc_un_i_data := cost_un_i_data param; bc_un_list_data := cost_un_list_data param;
    bc_un_map_data := cost_un_map_data param; bc_bls12_381_final_verify := cost_bls12_381_final_verify param;
    bc_bls12_381_g1_add := cost_bls12_381_g1_add param;
    bc_bls12_381_g1_compress := cost_bls12_381_g1_compress param;
    bc_bls12_381_g1_equal := cost_bls12_381_g1_equal param;
    bc_bls12_381_g1_hash_to_group := cost_bls12_381_g1_hash_to_group param;
    bc_bls12_381_g1_multi_scalar_mul := cost_bls12_381_g1_multi_scalar_mul param;
    bc_bls12_381_g1_neg := cost_bls12_381_g1_neg param;
    bc_bls12_381_g1_scalar_mul := cost_bls12_381_g1_scalar_mul param;
    bc_bls12_381_g1_uncompress := cost_bls12_381_g1_uncompress param;
    bc_bls12_381_g2_add := cost_bls12_381_g2_add param;
    bc_bls12_381_g2_compress := cost_bls12_381_g2_compress param;
    bc_bls12_381_g2_equal := cost_bls12_381_g2_equal param;
    bc_bls12_381_g2_hash_to_group := cost_bls12_381_g2_hash_to_group param;
    bc_bls12_381_g2_multi_scalar_mul := cost_bls12_381_g2_multi_scalar_mul param;
    bc_bls12_381_g2_neg := cost_bls12_381_g2_neg param;
    bc_bls12_381_g2_scalar_mul := cost_bls12_381_g2_scalar_mul param;
    bc_bls12_381_g2_uncompress := cost_bls12_381_g2_uncompress param;
    bc_bls12_381_miller_loop := cost_bls12_381_miller_loop param;
    bc_bls12_381_mul_ml_result := cost_bls12_381_mul_ml_result param;
    bc_blake2b_224 := cost_blake2b_224 param; bc_blake2b_256 := cost_blake2b_256 param;
    bc_exp_mod_integer := cost_exp_mod_integer param; bc_keccak_256 := cost_keccak_256 param;
    bc_ripemd_160 := cost_ripemd_160 param; bc_sha2_256 := cost_sha2_256 param;
    bc_sha3_256 := cost_sha3_256 param;
    bc_verify_ecdsa_secp256k1_signature := cost_verify_ecdsa_secp256k1_signature param;
    bc_verify_ed25519_signature := cost_verify_ed25519_signature param semantics;
    bc_verify_schnorr_secp256k1_signature := cost_verify_schnorr_secp256k1_signature param |}.

Definition get_cost {E} (self : BuiltinCosts) (builtin : DefaultFunction) (args : list Z) : exec E ExBudget :=
  match builtin with
  | AddInteger => cost (bc_add_integer self) args
  | SubtractInteger => cost (bc_subtract_integer self) args
  | MultiplyInteger => cost (bc_multiply_integer self) args
  | DivideInteger => cost (bc_divide_integer self) args
  | QuotientInteger => cost (bc_quotient_integer self) args
  | RemainderInteger => cost (bc_remainder_integer self) args
  | ModInteger => cost (bc_mod_integer self) args
  | EqualsInteger => cost (bc_equals_integer self) args
  | LessThanInteger => cost (bc_less_than_integer self) args
  | LessThanEqualsInteger => cost (bc_less_than_equals_integer self) args
  | AppendByteString => cost (bc_append_byte_string self) args
  | ConsByteString => cost (bc_cons_byte_string self) args
  | SliceByteString => cost (bc_slice_byte_string self) args
  | LengthOfByteString => cost (bc_length_of_byte_string self) args
  | IndexByteString => cost (bc_index_byte_string self) args
  | EqualsByteString => cost (bc_equals_byte_string self) args
  | LessThanByteString => cost (bc_less_than_byte_string self) args
  | LessThanEqualsByteString => cost (bc_less_than_equals_byte_string self) args
  | Sha2_256 => cost (bc_sha2_256 self) args
  | Sha3_256 => cost (bc_sha3_256 self) args
  | Blake2b_224 => cost (bc_blake2b_224 self) args
  | Blake2b_256 => cost (bc_blake2b_256 self) args
  | Keccak_256 => cost (bc_keccak_256 self) args
  | VerifyEd25519Signature => cost (bc_verify_ed25519_signature self) args
  | VerifyEcdsaSecp256k1Signature => cost (bc_verify_ecdsa_secp256k1_signature self) args
  | VerifySchnorrSecp256k1Signature => cost (bc_verify_schnorr_secp256k1_signature self) args
  | AppendString => cost (bc_append_string self) args
  | EqualsString => cost (bc_equals_string self) args
  | EncodeUtf8 => cost (bc_encode_utf8 self) args
  | DecodeUtf8 => cost (bc_decode_utf8 self) args
  | IfThenElse => cost (bc_if_then_else self) args
  | ChooseUnit => cost (bc_choose_unit self) args
  | Trace => cost (bc_trace self) args
  | FstPair => cost (bc_fst_pair self) args
  | SndPair => cost (bc_snd_pair self) args
  | ChooseList => cost (bc_choose_list self) args
  | MkCons => cost (bc_mk_cons self) args
  | HeadList => cost (bc_head_list self) args
  | TailList => cost (bc_tail_list self) args
  | NullList => cost (bc_null_list self) args
  | ChooseData => cost (bc_choose_data self) args
  | ConstrData => cost (bc_constr_data self) args
  | MapData => cost (bc_map_data self) args
  | ListData => cost (bc_list_data self) args
  | IData => cost (bc_i_data self) args
  | BData => cost (bc_b_data self) args
  | UnConstrData => cost (bc_un_constr_data self) args
  | UnMapData => cost (bc_un_map_data self) args
  | UnListData => cost (bc_un_list_data self) args
  | UnIData => cost (bc_un_i_data self) args
  | UnBData => cost (bc_un_b_data self) args
  | EqualsData => cost (bc_equals_data self) args
  | MkPairData => cost (bc_mk_pair_data self) args
  | MkNilData => cost (bc_mk_nil_data self) args
  | MkNilPairData => cost (bc_mk_nil_pair_data self) args
  | SerialiseData => cost (bc_serialise_data self) args
  | Bls12_381_G1_Add => cost (bc_bls12_381_g1_add self) args
  | Bls12_381_G1_Neg => cost (bc_bls12_381_g1_neg self) args
  | Bls12_381_G1_ScalarMul => cost (bc_bls12_381_g1_scalar_mul self) args
  | Bls12_381_G1_Equal => cost (bc_bls12_381_g1_equal self) args
  | Bls12_381_G1_Compress => cost (bc_bls12_381_g1_compress self) args
  | Bls12_381_G1_Uncompress => cost (bc_bls12_381_g1_uncompress self) args
  | Bls12_381_G1_HashToGroup => cost (bc_bls12_381_g1_hash_to_group self) args
  | Bls12_381_G2_Add => cost (bc_bls12_381_g2_add self) args
  | Bls12_381_G2_Neg => cost (bc_bls12_381_g2_neg self) args
  | Bls12_381_G2_ScalarMul => cost (bc_bls12_381_g2_scalar_mul self) args
  | Bls12_381_G2_Equal => cost (bc_bls12_381_g2_equal self) args
  | Bls12_381_G2_Compress => cost (bc_bls12_381_g2_compress self) args
  | Bls12_381_G2_Uncompress => cost (bc_bls12_381_g2_uncompress self) args
  | Bls12_381_G2_HashToGroup => cost (bc_bls12_381_g2_hash_to_group self) args
  | Bls12_381_MillerLoop => cost (bc_bls12_381_miller_loop self) args
  | Bls12_381_MulMlResult => cost (bc_bls12_381_mul_ml_result self) args
  | Bls12_381_FinalVerify => cost (bc_bls12_381_final_verify self) args
  | IntegerToByteString => cost (bc_integer_to_byte_string self) args
  | ByteStringToInteger => cost (bc_byte_string_to_integer self) args
  | AndByteString => cost (bc_and_byte_string self) args
  | OrByteString => cost (bc_or_byte_string self) args
  | XorByteString => cost (bc_xor_byte_string self) args
  | ComplementByteString => cost (bc_complement_byte_string self) args
  | ReadBit => cost (bc_read_bit self) args
  | WriteBits => cost (bc_write_bits self) args
  | ReplicateByte => cost (bc_replicate_byte self) args
  | ShiftByteString => cost (bc_shift_byte_string self) args
  | RotateByteString => cost (bc_rotate_byte_string self) args
  | CountSetBits => cost (bc_count_set_bits self) args
  | FindFirstSetBit => cost (bc_find_first_set_bit self) args
  | Ripemd_160 => cost (bc_ripemd_160 self) args
  | ExpModInteger => cost (bc_exp_mod_integer self) args
  | DropList => cost (bc_drop_list self) args
  | LengthOfArray => cost (bc_length_of_array self) args
  | ListToArray => cost (bc_list_to_array self) args
  | IndexArray => cost (bc_index_array self) args
  | Bls12_381_G1_MultiScalarMul => cost (bc_bls12_381_g1_multi_scalar_mul self) args
  | Bls12_381_G2_MultiScalarMul => cost (bc_bls12_381_g2_multi_scalar_mul self) args
  | InsertCoin => cost (bc_insert_coin self) args
  | LookupCoin => cost (bc_lookup_coin self) args
  | UnionValue => cost (bc_union_value self) args
  | ValueContains => cost (bc_value_contains self) args
  | ValueData => cost (bc_value_data self) args
  | UnValueData => cost (bc_un_value_data self) args
  | ScaleValue => cost (bc_scale_value self) args
  end.

(** ** Cost models *)

Record CostModel := mkCostModel {
  semantics : Semantics; case_on_constants : CaseOnConstants;
  machine_costs : MachineCosts; builtin_costs : BuiltinCosts }.

Definition CostModel_new (plutus_version : PlutusVersion) (protocol_version : ProtocolVersion) (costs : list Z)
  : CostModel :=
  let semantics := Semantics_new plutus_version protocol_version in
  let cost_map := new_cost_map plutus_version costs in
  mkCostModel semantics (CaseOnConstants_new protocol_version)
    (MachineCosts_new cost_map) (BuiltinCosts_new cost_map semantics).

Definition CostModel_default_for {E} (plutus_version : PlutusVersion) (protocol_version : ProtocolVersion)
  : exec E CostModel :=
  costs ← match Semantics_new plutus_version protocol_version, plutus_version with
          | SemA, V1 => Ok DEFAULT_COST_MODEL_A_V1
          | SemA, V2 => Ok DEFAULT_COST_MODEL_A_V2
          | SemB, V1 => Ok DEFAULT_COST_MODEL_B_V1
          | SemB, V2 => Ok DEFAULT_COST_MODEL_B_V2
          | SemC, V3 => Ok DEFAULT_COST_MODEL_C_V3
          | SemD, V1 => Ok DEFAULT_COST_MODEL_D_V1
          | SemD, V2 => Ok DEFAULT_COST_MODEL_D_V2
          | SemE, V3 => Ok DEFAULT_COST_MODEL_E_V3
          | _, _ => Panic
          end;
  Ok (CostModel_new plutus_version protocol_version costs).
