(* ===== verification/CostProps.v ===== *)
(** * Correctness of the cost tables

    Prices are non-negative machine integers whatever the sizes of the arguments;
    the arrays of each ledger language name every parameter the tables consult;
    and the built-in arrays satisfy what the evaluator relies on. *)

From S2P Require Import Prelude UplcSyntax ParamName Costing.

#[local] Open Scope sat_scope.

(** ** Parameters *)

(** The coefficients of the two-variable quadratic functions may be negative:
    those functions are bounded below by their [minimum]. *)
Definition signed_coefficient (p : ParamName) : bool :=
  match p with
  | DivideIntegerCpuC00 | DivideIntegerCpuC01 | DivideIntegerCpuC02
  | DivideIntegerCpuC10 | DivideIntegerCpuC11 | DivideIntegerCpuC20
  | ModIntegerCpuC00 | ModIntegerCpuC01 | ModIntegerCpuC02
  | ModIntegerCpuC10 | ModIntegerCpuC11 | ModIntegerCpuC20
  | QuotientIntegerCpuC00 | QuotientIntegerCpuC01 | QuotientIntegerCpuC02
  | QuotientIntegerCpuC10 | QuotientIntegerCpuC11 | QuotientIntegerCpuC20
  | RemainderIntegerCpuC00 | RemainderIntegerCpuC01 | RemainderIntegerCpuC02
  | RemainderIntegerCpuC10 | RemainderIntegerCpuC11 | RemainderIntegerCpuC20 => true
  | _ => false
  end.

(** An array of machine integers, non-negative where it must be. *)
Definition costs_array_ok (v : PlutusVersion) (costs : list Z) : bool :=
  forallb (λ '(p, c), (c <=? i64_max) && (signed_coefficient p || (0 <=? c))) (zip (ParamName_of v) costs).

Lemma new_cost_map_values v costs p c : new_cost_map v costs !! p = Some c →
  (p, c) ∈ zip (ParamName_of v) costs.
Proof.
  unfold new_cost_map. generalize (zip (ParamName_of v) costs). intros l.
  assert (∀ m : gmap ParamName Z,
    foldl (λ m '(p, c), <[p := c]> m) m l !! p = Some c → (p, c) ∈ l ∨ m !! p = Some c) as H.
  { induction l as [|[q d] l IH]; intros m Hm; [by right|]. cbn in Hm.
    apply IH in Hm as [Hm|Hm]; [left; by right|].
    destruct (decide (p = q)) as [->|Hne].
    - rewrite lookup_insert_eq in Hm. simplify_eq. left. left.
    - rewrite lookup_insert_ne in Hm by done. by right. }
  intros Hp. apply H in Hp as [Hp|Hp]; [done|]. by rewrite lookup_empty in Hp.
Qed.

Lemma param_max v costs p : costs_array_ok v costs = true → param (new_cost_map v costs) p <= i64_max.
Proof.
  intros Hok. unfold param. destruct (new_cost_map v costs !! p) as [c|] eqn:Hp; cbn; [|unfold i64_max; lia].
  apply new_cost_map_values in Hp. unfold costs_array_ok in Hok. rewrite forallb_forall in Hok.
  apply list_elem_of_In in Hp. apply Hok in Hp. cbn in Hp. bool_to_prop. lia.
Qed.

Lemma param_nonneg v costs p : costs_array_ok v costs = true → signed_coefficient p = false →
  i64_nonneg (param (new_cost_map v costs) p).
Proof.
  intros Hok Hs. split; [|by apply param_max]. unfold param.
  destruct (new_cost_map v costs !! p) as [c|] eqn:Hp; cbn; [|unfold i64_max; lia].
  apply new_cost_map_values in Hp. unfold costs_array_ok in Hok. rewrite forallb_forall in Hok.
  apply list_elem_of_In in Hp. apply Hok in Hp. cbn in Hp. rewrite Hs in Hp. bool_to_prop. lia.
Qed.

(** ** Costing functions *)

(** On [n] non-negative sizes, the function returns a non-negative [i64]. *)
Definition in_range {T} `{Cost T} (n : nat) (t : T) : Prop :=
  ∀ E args, length args = n → Forall (λ s, 0 <= s) args →
    ∃ c, cost_of (E := E) t args = Ok c ∧ i64_nonneg c.

Lemma size_at_Ok {E} args i (P : Z → Prop) : (i < length args)%nat → Forall P args →
  ∃ s, size_at (E := E) args i = Ok s ∧ P s.
Proof.
  intros Hi HP. unfold size_at. destruct (lookup_lt_is_Some_2 args i Hi) as [s Hs]. rewrite Hs.
  exists s. split; [done|]. by eapply Forall_lookup_1.
Qed.

(** Read the sizes a costing function uses, then bound its result. *)
Ltac read_sizes :=
  repeat match goal with
  | Hlen : length ?args = _, Hs : Forall (λ s, 0 <= s) ?args |- context [size_at (E := ?E) ?args ?i] =>
      let s := fresh "s" in let Es := fresh "Es" in let H := fresh "H" in
      destruct (size_at_Ok (E := E) args i (λ s, 0 <= s) ltac:(rewrite Hlen; lia) Hs) as (s & Es & H);
      rewrite Es; clear Es; cbn [mbind exec_bind]
  end.
Ltac costing_range :=
  intros; intros E args Hlen Hs; unfold cost_of, OneArgument_cost, ThreeArguments_cost, FourArguments_cost,
    SixArguments_cost, TwoArguments_cost; cbn [two_cost]; read_sizes;
  eexists; split; [reflexivity|]; cbn; eauto 20 with amaru.

Lemma One_Constant_range c : i64_nonneg c → in_range 1 (One_Constant c).
Proof. costing_range. Qed.
Lemma One_LinearInX_range i s : i64_nonneg i → i64_nonneg s → in_range 1 (One_LinearInX (mkLinearSize i s)).
Proof. costing_range. Qed.
Lemma One_Quadratic_range a b c : i64_nonneg a → i64_nonneg b → i64_nonneg c →
  in_range 1 (One_Quadratic (mkQuadraticFunction a b c)).
Proof. costing_range. Qed.
Lemma Two_Constant_range c : i64_nonneg c → in_range 2 (Two_Constant c).
Proof. costing_range. Qed.
Lemma Two_LinearInX_range i s : i64_nonneg i → i64_nonneg s → in_range 2 (Two_LinearInX (mkLinearSize i s)).
Proof. costing_range. Qed.
Lemma Two_LinearInY_range i s : i64_nonneg i → i64_nonneg s → in_range 2 (Two_LinearInY (mkLinearSize i s)).
Proof. costing_range. Qed.
Lemma Two_LinearInXAndY_range i s1 s2 : i64_nonneg i → i64_nonneg s1 → i64_nonneg s2 →
  in_range 2 (Two_LinearInXAndY (mkTwoVariableLinearSize i s1 s2)).
Proof. costing_range. Qed.
Lemma Two_AddedSizes_range i s : i64_nonneg i → i64_nonneg s → in_range 2 (Two_AddedSizes (mkAddedSizes i s)).
Proof. costing_range. Qed.
Lemma Two_SubtractedSizes_range i s m : i64_nonneg i → i64_nonneg s → i64_nonneg m →
  in_range 2 (Two_SubtractedSizes (mkSubtractedSizes i s m)).
Proof. intros Hi Hsl [Hm0 Hm]. costing_range. Qed.
Lemma Two_MultipliedSizes_range i s : i64_nonneg i → i64_nonneg s →
  in_range 2 (Two_MultipliedSizes (mkMultipliedSizes i s)).
Proof. costing_range. Qed.
Lemma Two_MinSize_range i s : i64_nonneg i → i64_nonneg s → in_range 2 (Two_MinSize (mkMinSize i s)).
Proof. costing_range. Qed.
Lemma Two_MaxSize_range i s : i64_nonneg i → i64_nonneg s → in_range 2 (Two_MaxSize (mkMaxSize i s)).
Proof. costing_range. Qed.
Lemma Two_LinearOnDiagonal_range c i s : i64_nonneg c → i64_nonneg i → i64_nonneg s →
  in_range 2 (Two_LinearOnDiagonal (mkConstantOrLinear c i s)).
Proof. costing_range. case_match; eauto 10 with amaru. Qed.
Lemma Two_QuadraticInY_range a b c : i64_nonneg a → i64_nonneg b → i64_nonneg c →
  in_range 2 (Two_QuadraticInY (mkQuadraticFunction a b c)).
Proof. costing_range. Qed.
Lemma Two_QuadraticInXAndY_range m a b c d e f : i64_nonneg m →
  in_range 2 (Two_QuadraticInXAndY (mkTwoArgumentsQuadraticFunction m a b c d e f)).
Proof.
  intros [Hm0 Hm]. costing_range. unfold i64_nonneg.
  match goal with |- context [Z.max m (?x ⊞ ?y)] => pose proof (i64_clamp_range (x + y)) as Hr end.
  change (i64_clamp (?x + ?y)) with (x ⊞ y) in Hr. lia.
Qed.
Lemma Two_ConstAboveDiagonal_range c q : i64_nonneg c → in_range 2 q → in_range 2 (Two_ConstAboveDiagonal c q).
Proof.
  intros Hc Hq E args Hlen Hs. destruct (Hq E args Hlen Hs) as (r & Hr & Hrn).
  unfold cost_of, TwoArguments_cost in *. cbn [two_cost]. read_sizes. case_match; eauto.
Qed.
Lemma Two_AboveAndBelowDiagonal_range q : in_range 2 q → in_range 2 (Two_AboveAndBelowDiagonal q).
Proof.
  intros Hq E args Hlen Hs. unfold cost_of, TwoArguments_cost in *. cbn [two_cost]. read_sizes.
  apply Hq; [done|]. repeat constructor; lia.
Qed.
Lemma Two_WithInteraction_range a b c d : i64_nonneg a → i64_nonneg b → i64_nonneg c → i64_nonneg d →
  in_range 2 (Two_WithInteraction (mkWithInteraction a b c d)).
Proof. costing_range. Qed.
Lemma Three_Constant_range c : i64_nonneg c → in_range 3 (Three_Constant c).
Proof. costing_range. Qed.
Lemma Three_LinearInX_range i s : i64_nonneg i → i64_nonneg s → in_range 3 (Three_LinearInX (mkLinearSize i s)).
Proof. costing_range. Qed.
Lemma Three_LinearInY_range i s : i64_nonneg i → i64_nonneg s → in_range 3 (Three_LinearInY (mkLinearSize i s)).
Proof. costing_range. Qed.
Lemma Three_LinearInZ_range i s : i64_nonneg i → i64_nonneg s → in_range 3 (Three_LinearInZ (mkLinearSize i s)).
Proof. costing_range. Qed.
Lemma Three_QuadraticInZ_range a b c : i64_nonneg a → i64_nonneg b → i64_nonneg c →
  in_range 3 (Three_QuadraticInZ (mkQuadraticFunction a b c)).
Proof. costing_range. Qed.
Lemma Three_LinearInYAndZ_range i s1 s2 : i64_nonneg i → i64_nonneg s1 → i64_nonneg s2 →
  in_range 3 (Three_LinearInYAndZ (mkTwoVariableLinearSize i s1 s2)).
Proof. costing_range. Qed.
Lemma Three_LinearInMaxYZ_range i s : i64_nonneg i → i64_nonneg s →
  in_range 3 (Three_LinearInMaxYZ (mkLinearSize i s)).
Proof. costing_range. Qed.
Lemma Three_ExpModCost_range a b c : i64_nonneg a → i64_nonneg b → i64_nonneg c →
  in_range 3 (Three_ExpModCost (mkExpModCost a b c)).
Proof.
  costing_range. cbn.
  match goal with |- i64_nonneg (if _ then ?t else _) => assert (i64_nonneg t) as [H0' Hm] by eauto 20 with amaru end.
  case_match; [done|]. apply i64_nonneg_add; [done|]. split; [by apply Z.quot_pos|].
  etransitivity; [|exact Hm]. apply Z.quot_le_upper_bound; lia.
Qed.
Lemma Four_LinearInU_range i s : i64_nonneg i → i64_nonneg s → in_range 4 (Four_LinearInU (mkLinearSize i s)).
Proof. costing_range. Qed.
Lemma Six_Constant_range c : i64_nonneg c → in_range 6 (Six_Constant c).
Proof. costing_range. Qed.
#[export] Hint Resolve One_Constant_range One_LinearInX_range One_Quadratic_range Two_Constant_range
  Two_LinearInX_range Two_LinearInY_range Two_LinearInXAndY_range Two_AddedSizes_range Two_SubtractedSizes_range
  Two_MultipliedSizes_range Two_MinSize_range Two_MaxSize_range Two_LinearOnDiagonal_range Two_QuadraticInY_range
  Two_QuadraticInXAndY_range Two_ConstAboveDiagonal_range Two_AboveAndBelowDiagonal_range Two_WithInteraction_range
  Three_Constant_range Three_LinearInX_range Three_LinearInY_range Three_LinearInZ_range Three_QuadraticInZ_range
  Three_LinearInYAndZ_range Three_LinearInMaxYZ_range Three_ExpModCost_range Four_LinearInU_range
  Six_Constant_range : amaru.

(** ** The tables *)

(** The sizes a builtin is priced on: one per argument, non-negative; the
    requested width of [integerToByteString] is charged as it is. *)
Record sizes_ok (f : DefaultFunction) (sizes : list Z) : Prop := {
  sizes_len : length sizes = Z.to_nat (arity f);
  sizes_nonneg : Forall (λ s, 0 <= s) sizes;
  sizes_width : f = IntegerToByteString → ∀ y, sizes !! 1%nat = Some y → y <= i64_max }.

(** Every builtin has a price on such sizes. *)
Definition builtin_costs_ok (c : BuiltinCosts) : Prop :=
  ∀ E f sizes, sizes_ok f sizes →
    ∃ b, get_cost (E := E) c f sizes = Ok b ∧ i64_nonneg (mem b) ∧ i64_nonneg (cpu b).

Lemma cost_range {T} `{Cost T} E n (c : Costing T) sizes :
  length sizes = n → Forall (λ s, 0 <= s) sizes → in_range n (costing_mem c) → in_range n (costing_cpu c) →
  ∃ b, cost (E := E) c sizes = Ok b ∧ i64_nonneg (mem b) ∧ i64_nonneg (cpu b).
Proof.
  intros Hlen Hs Hm Hc. unfold cost.
  destruct (Hm E sizes Hlen Hs) as (m & -> & ?). cbn [mbind exec_bind].
  destruct (Hc E sizes Hlen Hs) as (k & -> & ?). cbn [mbind exec_bind]. eauto.
Qed.

Lemma integer_to_byte_string_range E (param : ParamName → Z) sizes :
  (∀ p, signed_coefficient p = false → i64_nonneg (param p)) → sizes_ok IntegerToByteString sizes →
  ∃ b, cost (E := E) (cost_integer_to_byte_string param) sizes = Ok b ∧ i64_nonneg (mem b) ∧ i64_nonneg (cpu b).
Proof.
  intros Hp [Hlen Hs Hw]. unfold cost, cost_integer_to_byte_string. cbn [costing_mem costing_cpu].
  destruct sizes as [|x [|y [|z [|]]]]; try done. unfold cost_of, ThreeArguments_cost.
  specialize (Hw eq_refl y eq_refl). inversion_clear Hs as [|? ? ? Hs']. inversion_clear Hs' as [|? ? Hy Hs''].
  inversion_clear Hs'' as [|? ? Hz _]. cbn [size_at lookup list_lookup mbind exec_bind].
  case_bool; cbn [mbind exec_bind]; (eexists; split; [reflexivity|]); cbn; split; eauto 10 with amaru; by split.
Qed.

Lemma BuiltinCosts_new_ok v costs s : costs_array_ok v costs = true →
  builtin_costs_ok (BuiltinCosts_new (new_cost_map v costs) s).
Proof.
  intros Hok E f sizes Hsz.
  pose proof (λ p, param_nonneg v costs p Hok) as Hp.
  unfold BuiltinCosts_new. set (param := param (new_cost_map v costs)) in *.
  destruct (decide (f = IntegerToByteString)) as [->|Hne].
  { by apply (integer_to_byte_string_range E param). }
  destruct Hsz as [Hlen Hs _].
  destruct f; try done; cbn [get_cost]; (eapply cost_range; [exact Hlen|exact Hs|..]); clear Hlen Hs Hne;
    match goal with |- in_range ?n _ => let n' := eval compute in n in change n with n' end;
    (match goal with |- in_range _ (_ ?c) => let c' := eval hnf in c in change c with c' end); cbn [costing_mem costing_cpu]; try (match goal with |- context [match s with _ => _ end] => destruct s end); eauto 10 with amaru.
Qed.

(** ** Step costs *)

Definition budget_nonneg (b : ExBudget) : Prop := i64_nonneg (mem b) ∧ i64_nonneg (cpu b).

Lemma MachineCosts_new_ok v costs : costs_array_ok v costs = true →
  (∀ k, budget_nonneg (MachineCosts_step (MachineCosts_new (new_cost_map v costs)) k)) ∧
  budget_nonneg (startup (MachineCosts_new (new_cost_map v costs))).
Proof.
  intros Hok. pose proof (λ p, param_nonneg v costs p Hok) as Hp.
  split; [intros []|]; split; cbn; by apply Hp.
Qed.

(** A cost model built from an array of machine integers that is
    non-negative outside of the quadratic coefficients prices every builtin and
    every step at a non-negative [i64]: costing never panics on as many sizes as
    the builtin has arguments, never overflows and never refunds budget, for any
    ledger language, any protocol version, arrays of any length. *)
Theorem cost_model_prices (v : PlutusVersion) (pv : ProtocolVersion) (costs : list Z) :
  costs_array_ok v costs = true →
  let c := CostModel_new v pv costs in
  builtin_costs_ok (builtin_costs c) ∧
  (∀ k, budget_nonneg (MachineCosts_step (machine_costs c) k)) ∧ budget_nonneg (startup (machine_costs c)).
Proof.
  intros Hok c. split; [by apply BuiltinCosts_new_ok|]. by apply MachineCosts_new_ok.
Qed.

Lemma cost_model_prices_witness :
  builtin_costs_ok (builtin_costs (CostModel_new V3 PROTOCOL_VERSION_11 DEFAULT_COST_MODEL_E_V3)).
Proof. apply (cost_model_prices V3 PROTOCOL_VERSION_11). vm_compute. reflexivity. Defined.

(** ** Completeness of the arrays *)

Lemma params_in_array (v : PlutusVersion) (p : ParamName) :
  bool_decide (p ∈ ParamName_of v) = true → p ∈ ParamName_of v.
Proof. apply bool_decide_eq_true. Qed.

Ltac same_params H :=
  repeat match goal with
  | |- ?f ?p = ?g ?p => apply H, params_in_array; vm_compute; reflexivity
  | |- @eq (Costing _) ?a ?b =>
      let a' := eval hnf in a in let b' := eval hnf in b in change (a' = b'); cbv beta iota; f_equal
  | |- _ => f_equal
  end.

(** The arrays of a ledger language name every parameter its cost model
    consults: two parameter maps that agree on the names of the array give the
    same cost model, for the semantics variants the language can have, so a
    complete array leaves no price at its [i64::MAX] default. *)
Theorem arrays_are_complete (v : PlutusVersion) (pv : ProtocolVersion) (m1 m2 : gmap ParamName Z) :
  (∀ p, p ∈ ParamName_of v → param m1 p = param m2 p) →
  BuiltinCosts_new m1 (Semantics_new v pv) = BuiltinCosts_new m2 (Semantics_new v pv) ∧
  MachineCosts_new m1 = MachineCosts_new m2.
Proof.
  intros H. split.
  - unfold BuiltinCosts_new. generalize (param m1) (param m2) H. intros f1 f2 Hf.
    destruct v; cbn [Semantics_new]; repeat case_match; same_params Hf.
  - unfold MachineCosts_new. generalize (param m1) (param m2) H. intros f1 f2 Hf.
    destruct v; same_params Hf.
Qed.

Lemma arrays_are_complete_witness :
  let m := new_cost_map V1 DEFAULT_COST_MODEL_B_V1 in
  BuiltinCosts_new m SemB = BuiltinCosts_new (<[DivideIntegerCpuC00 := 7]> m) SemB.
Proof.
  apply (arrays_are_complete V1 PROTOCOL_VERSION_9 _ (<[DivideIntegerCpuC00 := 7]> (new_cost_map V1 DEFAULT_COST_MODEL_B_V1))).
  intros p Hp. unfold param. rewrite lookup_insert_ne; [done|]. intros <-. revert Hp.
  apply (bool_decide_eq_false (DivideIntegerCpuC00 ∈ ParamName_of V1)). vm_compute. reflexivity.
Defined.

(** ** The built-in arrays *)

(** An array that fits a language: one cost per parameter, machine integers,
    non-negative where they must be, and every step at a positive CPU price. *)
Definition array_fits (v : PlutusVersion) (costs : list Z) : bool :=
  (length costs =? length (ParamName_of v))%nat && costs_array_ok v costs &&
  forallb (λ k, 1 <=? cpu (MachineCosts_step (MachineCosts_new (new_cost_map v costs)) k)) StepKind_enumerate.

Lemma default_arrays_fit :
  array_fits V1 DEFAULT_COST_MODEL_A_V1 && array_fits V2 DEFAULT_COST_MODEL_A_V2 &&
  array_fits V1 DEFAULT_COST_MODEL_B_V1 && array_fits V2 DEFAULT_COST_MODEL_B_V2 &&
  array_fits V3 DEFAULT_COST_MODEL_C_V3 && array_fits V1 DEFAULT_COST_MODEL_D_V1 &&
  array_fits V2 DEFAULT_COST_MODEL_D_V2 && array_fits V3 DEFAULT_COST_MODEL_E_V3 = true.
Proof. vm_compute. reflexivity. Qed.

Lemma array_fits_spec v pv costs : array_fits v costs = true →
  length costs = length (ParamName_of v) ∧ costs_array_ok v costs = true ∧
  ∀ k, 1 <= cpu (MachineCosts_step (machine_costs (CostModel_new v pv costs)) k).
Proof.
  unfold array_fits. intros Hc. bool_to_prop.
  match goal with H : (_ =? _)%nat = true |- _ => apply Nat.eqb_eq in H end.
  split; [done|]. split; [done|]. intros k.
  match goal with H : forallb _ StepKind_enumerate = true |- _ => rewrite forallb_forall in H; apply Z.leb_le, H end.
  destruct k; cbn; tauto.
Qed.

(** Choose an array, its fitness being the named hypothesis. *)
Tactic Notation "by_array" constr(l) "," hyp(H) := exists l; split; [reflexivity|exact H].

(** The default cost model exists for every ledger language and protocol
    version (its [unreachable!] is unreachable), is built from an array with one
    cost per parameter of the language, prices everything at non-negative machine
    integers and every step at a positive CPU cost. *)
Theorem default_models_fit (E : Type) (v : PlutusVersion) (pv : ProtocolVersion) :
  ∃ costs, CostModel_default_for (E := E) v pv = Ok (CostModel_new v pv costs) ∧
    length costs = length (ParamName_of v) ∧ costs_array_ok v costs = true ∧
    ∀ k, 1 <= cpu (MachineCosts_step (machine_costs (CostModel_new v pv costs)) k).
Proof.
  assert (∃ costs, CostModel_default_for (E := E) v pv = Ok (CostModel_new v pv costs) ∧ array_fits v costs = true)
    as (costs & Heq & Hfit).
  { unfold CostModel_default_for. pose proof default_arrays_fit as H. rewrite !andb_true_iff in H.
    destruct H as [[[[[[[HA1 HA2] HB1] HB2] HC3] HD1] HD2] HE3].
    destruct v; cbn [Semantics_new].
    - destruct (pv_leb _ _); [by_array DEFAULT_COST_MODEL_D_V1, HD1|].
      destruct (pv_ltb _ _); [by_array DEFAULT_COST_MODEL_A_V1, HA1|by_array DEFAULT_COST_MODEL_B_V1, HB1].
    - destruct (pv_leb _ _); [by_array DEFAULT_COST_MODEL_D_V2, HD2|].
      destruct (pv_ltb _ _); [by_array DEFAULT_COST_MODEL_A_V2, HA2|by_array DEFAULT_COST_MODEL_B_V2, HB2].
    - destruct (pv_leb _ _); [by_array DEFAULT_COST_MODEL_E_V3, HE3|by_array DEFAULT_COST_MODEL_C_V3, HC3]. }
  exists costs. split; [done|]. by apply array_fits_spec.
Qed.
