(* ===== verification/CekSyntax.v ===== *)
(** * Data of the evaluator

    Models the data of [amaru-uplc/src/machine]: [value.rs], [env.rs],
    [context.rs] (frames), [state.rs], [error.rs], [runtime.rs] ([Runtime]),
    [runtime/arguments.rs] and [discharge.rs]. *)

From S2P Require Import Prelude UplcSyntax LedgerValue ParamName Costing.

(** ** Builtin arguments

    [Arguments]: a chain of pointers, newest first, with its length. *)
Section Arguments.
Context {A : Type}.

Record Arguments := mkArguments { args_head : list A; args_len : Z }.

Definition Arguments_empty : Arguments := mkArguments [] 0.
Definition Arguments_push (a : Arguments) (value : A) : Arguments :=
  mkArguments (value :: args_head a) (args_len a + 1).

(** Following [n] links from a node. *)
Fixpoint follow (n : nat) (head : list A) : list A :=
  match n with O => head | S n => follow n (tail head) end.

Definition Arguments_node (a : Arguments) (index : Z) : option A :=
  if args_len a <=? index then None
  else head (follow (Z.to_nat (args_len a - index - 1)) (args_head a)).

(** The iterator: [get(0)], [get(1)], ... until [None]. *)
Fixpoint Arguments_iter_from (fuel : nat) (a : Arguments) (index : Z) : list A :=
  match fuel with
  | O => []
  | S fuel =>
      match Arguments_node a index with
      | Some v => v :: Arguments_iter_from fuel a (index + 1)
      | None => []
      end
  end.
Definition Arguments_iter (a : Arguments) : list A :=
Arguments_iter_from (S (length (args_head a))) a 0.

(** A chain built by pushes knows its length. *)
Definition args_ok (a : Arguments) : Prop := args_len a = Z.of_nat (length (args_head a)).

Lemma follow_drop n l : follow n l = drop n l.
Proof.
  revert l. induction n as [|n IH]; intros l; [done|]. cbn [follow]. rewrite IH.
  destruct l; cbn; [apply drop_nil|done].
Qed.

Lemma Arguments_node_spec a i : args_ok a → 0 <= i →
Arguments_node a i = reverse (args_head a) !! Z.to_nat i.
Proof.
  unfold args_ok, Arguments_node. intros Hl Hi. rewrite follow_drop. case_bool.
  - symmetry. apply lookup_ge_None. rewrite length_reverse. lia.
  - rewrite head_lookup, lookup_drop, Nat.add_0_r, reverse_lookup by lia. f_equal. lia.
Qed.

Lemma Arguments_iter_from_spec fuel a i : args_ok a → 0 <= i →
  args_len a - i < Z.of_nat fuel →
Arguments_iter_from fuel a i = drop (Z.to_nat i) (reverse (args_head a)).
Proof.
  intros Ha. revert i. induction fuel as [|fuel IH]; intros i Hi Hf; unfold args_ok in Ha.
  - rewrite drop_ge; [done|]. rewrite length_reverse. lia.
  - cbn. rewrite Arguments_node_spec by done.
    destruct (reverse (args_head a) !! Z.to_nat i) as [v|] eqn:Hv.
    + rewrite (drop_S _ _ _ Hv), IH by lia. do 2 f_equal. lia.
    + apply lookup_ge_None in Hv. by rewrite drop_ge.
Qed.
End Arguments.
Arguments Arguments : clear implicits.

(** The pointer chain of builtin arguments behaves as the list of the
    arguments in application order: pushing appends to the sequence the iterator
    yields, indexing gives the argument applied at that position, and the length
    is the number of arguments, for every chain built from the empty one by
    pushes. *)
Theorem arguments_are_a_list {A} (l : list A) (v : A) (i : Z) :
  let a := foldl Arguments_push Arguments_empty l in
Arguments_iter a = l ∧
Arguments_iter (Arguments_push a v) = l ++ [v] ∧
args_len a = Z.of_nat (length l) ∧
(0 <= i → Arguments_node a i = l !! Z.to_nat i).
Proof.
  intros a.
  assert (∀ l : list A, let a := foldl Arguments_push Arguments_empty l in
    args_ok a ∧ args_head a = reverse l ∧ Arguments_iter a = l) as H.
  { clear. induction l as [|x l IH] using rev_ind; [done|].
    rewrite foldl_snoc. destruct IH as (Hok & Hh & _).
    assert (args_ok (Arguments_push (foldl Arguments_push Arguments_empty l) x)) as Hok'.
    { unfold args_ok in *. cbn. rewrite Hok. lia. }
    assert (args_head (Arguments_push (foldl Arguments_push Arguments_empty l) x) = reverse (l ++ [x])) as Hh'
      by (cbn; by rewrite Hh, reverse_snoc).
    split; [done|]. split; [done|]. unfold Arguments_iter.
    rewrite Arguments_iter_from_spec, Hh', reverse_involutive; [done|done|lia|].
    rewrite Hok', Hh'. lia. }
  destruct (H l) as (Hok & Hh & Hi). split; [done|]. split; [|split].
  - pose proof (H (l ++ [v])) as (_ & _ & H'). by rewrite foldl_snoc in H'.
  - unfold a. by rewrite Hok, Hh, length_reverse.
  - intros H0. unfold a. by rewrite Arguments_node_spec, Hh, reverse_involutive.
Qed.

Lemma arguments_are_a_list_witness :
Arguments_node (foldl Arguments_push Arguments_empty [10; 20; 30]) 1 = Some 20.
Proof. apply (arguments_are_a_list [10; 20; 30] 0 1). lia. Defined.

(** ** Values, environments and frames *)

(** [Value], [Env] and [Runtime].  The arguments of a [Runtime] are the
    sequence its chain stands for, in application order. *)
Inductive Value :=
| VCon (c : Constant)
| VLambda (parameter : DeBruijn) (body : Term) (env : Env)
| VBuiltin (args : list Value) (fun_ : DefaultFunction) (forces : Z)
| VDelay (body : Term) (env : Env)
| VConstr (tag : Z) (fields : list Value)
with Env :=
| EnvEmpty
| EnvCons (data : Value) (next : Env).

Record Runtime := mkRuntime { r_args : list Value; r_fun : DefaultFunction; r_forces : Z }.
Definition Value_builtin (r : Runtime) : Value := VBuiltin (r_args r) (r_fun r) (r_forces r).

Definition Runtime_new (f : DefaultFunction) : Runtime := mkRuntime [] f 0.
Definition Runtime_force (r : Runtime) : Runtime := mkRuntime (r_args r) (r_fun r) (r_forces r + 1).
Definition Runtime_push (r : Runtime) (arg : Value) : Runtime :=
  mkRuntime (r_args r ++ [arg]) (r_fun r) (r_forces r).
Definition needs_force (r : Runtime) : bool := r_forces r <? force_count (r_fun r).
Definition is_arrow (r : Runtime) : bool := Z.of_nat (length (r_args r)) <? arity (r_fun r).
Definition is_ready (r : Runtime) : bool := Z.of_nat (length (r_args r)) =? arity (r_fun r).

Definition Env_push (env : Env) (arg : Value) : Env := EnvCons arg env.

(** The loop of [Env::lookup]; De Bruijn indices start at 1. *)
Fixpoint Env_lookup_loop (env : Env) (index : Z) : option Value :=
  match env with
  | EnvEmpty => None
  | EnvCons data next => if index =? 1 then Some data else Env_lookup_loop next (index - 1)
  end.
Definition Env_lookup (env : Env) (index : Z) : option Value :=
  if index =? 0 then None else Env_lookup_loop env index.

Inductive Frame :=
| AwaitArg (f : Value)
| AwaitFunTerm (env : Env) (argument : Term)
| AwaitFunValue (argument : Value)
| FrameForce
| FrameConstr (env : Env) (tag : Z) (terms : list Term) (values : list Value)
| FrameCases (env : Env) (branches : list Term).

Inductive MachineState :=
| Compute (context : Z) (env : Env) (term : Term)
| Return (context : Z) (value : Value)
| Done (value : Value).

(** ** Errors *)

Inductive RuntimeError :=
| ByteStringOutOfBounds (bs : list Z) (i : Z)
| TypeMismatch (t : Typ) (c : Constant)
| ExpectedPair (c : Constant) | ExpectedList (c : Constant) | ExpectedArray (c : Constant)
| NotData (c : Constant) | MalFormedData (d : PlutusData) | EmptyList (l : list Constant)
| UnexpectedEd25519PublicKeyLength | UnexpectedEd25519SignatureLength
| DivisionByZero (n d : Z) | IntegerOutOfBounds (i : Z) | MkConsTypeMismatch (c : Constant)
| ByteStringConsNotAByte (i : Z) | ConstrTagOutOfBounds (i : Z)
| Secp256k1 | RuntimeDecodeUtf8 | Bls | HashToCurveDstTooBig
| IntegerToByteStringSizeTooBig (i max : Z) | IntegerToByteStringSizeTooSmall (i min : Z)
| IntegerToByteStringNegativeInput (i : Z) | IntegerToByteStringNegativeSize (i : Z)
| EmptyByteArray | ReadBitOutOfBounds (i size : Z) | WriteBitsOutOfBounds (i size : Z)
| WriteBitsInputTooLong (len max : Z) | OutsideByteBounds (i : Z) | OutsideUsizeBounds (i : Z)
| ReplicateByteSizeTooBig (i max : Z) | ReplicateByteNegativeInput (i : Z) | ReplicateByteNegativeSize (i : Z)
| IndexArrayOutOfBounds (i size : Z) | SerializationError (d : PlutusData)
| MultiScalarMulScalarOutOfBounds | RuntimeValue (e : ValueError).

Inductive MachineError :=
| UnavailableProgramVersion (v : MachineVersion)
| ExplicitErrorTerm
| NonFunctionApplication (argument function : Value)
| NotAConstant (v : Value)
| OpenTermEvaluated (t : Term)
| OutOfExError (b : ExBudget)
| UnexpectedBuiltinTermArgument (t : Term)
| NonPolymorphicInstantiation (v : Value)
| BuiltinTermArgumentExpected (t : Term)
| NonConstrScrutinized (v : Value)
| MissingCaseBranch (branches : list Term) (v : Value)
| RuntimeErr (e : RuntimeError).

(** ** Calls of builtins *)

(** What a call computes once it is paid: a value, and the lines it logs. *)
Definition Result := exec MachineError (Value * list (list Z)).
(** A call: its price, and then its result. *)
Definition Call := exec MachineError (ExBudget * Result).

(** ** Discharging values to terms *)

(** [with_env]: replace the free variables of a term by the terms of an
    environment ([discharged], innermost first).  The branches not listed are
    returned unchanged, as in the source. *)
Fixpoint with_env (lam_cnt : Z) (discharged : list Term) (t : Term) : Term :=
  match t with
  | Var name =>
      let index := name in
      if index <=? lam_cnt then Var name
      else match discharged !! Z.to_nat (index - lam_cnt - 1) with
           | Some term => term
           | None => Var name
           end
  | Lambda parameter body => Lambda parameter (with_env (lam_cnt + 1) discharged body)
  | Apply function argument => Apply (with_env lam_cnt discharged function) (with_env lam_cnt discharged argument)
  | Delay x => Delay (with_env lam_cnt discharged x)
  | Force x => Force (with_env lam_cnt discharged x)
  | rest => rest
  end.

(** [value_as_term].  A variable is looked up in the environment and then
    discharged in the source; here the environment is discharged once. *)
Fixpoint value_as_term (value : Value) : Term :=
  match value with
  | VCon x => Constant_ x
  | VBuiltin args fun_ forces =>
      let term := Nat.iter (Z.to_nat forces) Force (Builtin fun_) in
      foldl (λ term arg, Apply term arg) term (map value_as_term args)
  | VDelay body env => with_env 0 (env_as_terms env) (Delay body)
  | VLambda parameter body env => with_env 0 (env_as_terms env) (Lambda parameter body)
  | VConstr tag fields => Constr tag (map value_as_term fields)
  end
with env_as_terms (env : Env) : list Term :=
  match env with
  | EnvEmpty => []
  | EnvCons data next => value_as_term data :: env_as_terms next
  end.
