(* ===== verification/CostArgument.v ===== *)
(** * Sizes of arguments

    Models [amaru-uplc/src/machine/cost_model/cost_argument.rs]: the
    execution-memory size of every value a builtin is priced on.  A cached
    [CostArgument] is its size. *)

From S2P Require Import Prelude UplcSyntax LedgerValue ParamName Costing CekSyntax.

(** [size_of::<blst_p1>() / 8] and so on: three coordinates of one, two base
    field elements of 48 bytes; twelve of them. *)
Definition g1_size : Z := 144 / 8.
Definition g2_size : Z := 288 / 8.
Definition ml_result_size : Z := 576 / 8.

Definition bytes_size (bs : list Z) : Z :=
  match bs with [] => 1 | _ => (Z.of_nat (length bs) - 1) / 8 + 1 end.

(** [chars().count()]: the bytes of a UTF-8 string that do not continue a
    character. *)
Definition is_continuation (b : Z) : bool := (128 <=? b) && (b <? 192).
Definition str_size (s : list Z) : Z := Z.of_nat (length (filter (λ b, is_continuation b = false) s)).

Definition integer_size (i : Z) : Z := if i =? 0 then 1 else 1 + (integer_bits i - 1) / 64.

Definition list_size {A} (l : list A) : Z := Z.of_nat (length l).

(** [(n as f64).log2() as i64 + 1], exact for the lengths a slice can have. *)
Definition log_size (n : nat) : Z := if (0 <? n)%nat then Z.log2 (Z.of_nat n) + 1 else 0.
Definition ledger_value_size (v : LedgerValue) : Z :=
  let outer_size := length (entries v) in
  let max_inner := foldr Nat.max 0%nat (map (λ entry, length (tokens entry)) (entries v)) in
  log_size outer_size + log_size max_inner.

Definition sum_list (l : list Z) : Z := foldr Z.add 0 l.

Fixpoint data_size (d : PlutusData) : Z :=
  4 + match d with
      | DConstr _ fields | DList fields => sum_list (map data_size fields)
      | DMap items => sum_list (map (λ '(key, value), data_size key + data_size value) items)
      | DInteger i => integer_size i
      | DByteString bs => bytes_size bs
      end.

Fixpoint constant_size (c : Constant) : Z :=
  match c with
  | ConInteger i => integer_size i
  | ConByteString bs => bytes_size bs
  | ConString s => str_size s
  | ConUnit | ConBoolean _ => 1
  | ConProtoList _ items | ConProtoArray _ items => list_size items
  | ConProtoPair _ _ l r => constant_size l + constant_size r
  | ConData data => data_size data
  | ConBls12_381G1Element _ => g1_size
  | ConBls12_381G2Element _ => g2_size
  | ConBls12_381MlResult _ => ml_result_size
  | ConValue v => ledger_value_size v
  end.

Definition machine_value_size (v : Value) : Z :=
  match v with VCon constant => constant_size constant | _ => 1 end.

(** [StringSize], chosen by [Machine::string_size]. *)
Definition string_size (s : Semantics) (string : list Z) : Z :=
  if costs_strings_by_utf8_bytes s then Z.of_nat (length string) / 4 else str_size string.

(** [DataNodeCount]: the loop over an explicit stack, whose top is the head. *)
Definition data_children (d : PlutusData) : list PlutusData :=
  match d with
  | DConstr _ fields | DList fields => fields
  | DMap pairs => pairs ≫= (λ '(key, value), [key; value])
  | DInteger _ | DByteString _ => []
  end.
Fixpoint data_node_count_loop {E} (fuel : nat) (stack : list PlutusData) (total : Z) : exec E Z :=
  match stack with
  | [] => Ok total
  | current :: stack =>
      match fuel with
      | O => OutOfFuel
      | S fuel => data_node_count_loop fuel (reverse (data_children current) ++ stack) (total + 1)
      end
  end.

(** The nodes of a tree of data. *)
Fixpoint data_nodes (d : PlutusData) : nat :=
  match d with
  | DConstr _ fields | DList fields => S (list_sum (map data_nodes fields))
  | DMap pairs => S (list_sum (map (λ '(key, value), data_nodes key + data_nodes value)%nat pairs))
  | DInteger _ | DByteString _ => 1%nat
  end.

Definition data_node_count {E} (d : PlutusData) : exec E Z := data_node_count_loop (data_nodes d) [d] 0.

Definition integer_log2 (i : Z) : Z := if i =? 0 then 0 else integer_bits i - 1.

(** ** Facts *)

Lemma PlutusData_ind' (P : PlutusData → Prop) :
  (∀ tag fields, Forall P fields → P (DConstr tag fields)) →
  (∀ entries, Forall (λ kv, P kv.1 ∧ P kv.2) entries → P (DMap entries)) →
  (∀ i, P (DInteger i)) → (∀ bs, P (DByteString bs)) →
  (∀ items, Forall P items → P (DList items)) →
  ∀ d, P d.
Proof.
  intros HC HM ? ? HL. fix IH 1. intros []; try (clear IH; by auto).
  - apply HC. induction fields; constructor; auto.
  - apply HM. induction entries as [|[k v] l IHl]; constructor; [|exact IHl]. split; apply IH.
  - apply HL. induction items; constructor; auto.
Qed.

Lemma data_nodes_children d : data_nodes d = S (list_sum (map data_nodes (data_children d))).
Proof.
  destruct d as [| entries | | |]; try done. cbn [data_nodes data_children]. f_equal.
  induction entries as [|[k v] l IH]; [done|]. rewrite bind_cons, map_app, list_sum_app, <- IH. cbn. unfold list_sum. lia.
Qed.

Lemma list_sum_reverse_nodes l : list_sum (map data_nodes (reverse l)) = list_sum (map data_nodes l).
Proof.
  induction l as [|d l IH]; [done|]. rewrite reverse_cons, map_app, list_sum_app, IH. cbn. unfold list_sum. lia.
Qed.

(** The loop visits every node once. *)
Lemma data_node_count_loop_spec {E} fuel stack total : (list_sum (map data_nodes stack) <= fuel)%nat →
  data_node_count_loop (E := E) fuel stack total = Ok (total + Z.of_nat (list_sum (map data_nodes stack))).
Proof.
  revert stack total. induction fuel as [|fuel IH]; intros [|d stack] total Hf; cbn [data_node_count_loop].
  1, 3: f_equal; cbn; lia.
  all: change (list_sum (map data_nodes (d :: stack))) with (data_nodes d + list_sum (map data_nodes stack))%nat in *.
  all: rewrite data_nodes_children in *.
  - lia.
  - rewrite IH; rewrite map_app, list_sum_app, list_sum_reverse_nodes; [f_equal|]; lia.
Qed.

Lemma data_node_count_spec {E} d : data_node_count (E := E) d = Ok (Z.of_nat (data_nodes d)).
Proof. unfold data_node_count. rewrite data_node_count_loop_spec; cbn; [f_equal; lia|lia]. Qed.

Lemma bytes_size_pos bs : 1 <= bytes_size bs.
Proof.
  destruct bs as [|b bs]; [done|]. cbn [bytes_size length].
  assert (0 <= (Z.of_nat (S (length bs)) - 1) / 8) by (apply Z.div_pos; lia). lia.
Qed.

Lemma integer_size_pos i : 1 <= integer_size i.
Proof.
  unfold integer_size, integer_bits. destruct (Z.eqb_spec i 0); [done|].
  pose proof (Z.log2_nonneg (Z.abs i)). assert (0 <= (Z.log2 (Z.abs i) + 1 - 1) / 64) by (apply Z.div_pos; lia). lia.
Qed.

Lemma sum_list_nonneg l : Forall (λ z, 0 <= z) l → 0 <= sum_list l.
Proof. induction 1; cbn in *; unfold sum_list in *; lia. Qed.

Lemma data_size_pos d : 4 <= data_size d.
Proof.
  induction d as [tag fields IH|entries IH|i|bs|items IH] using PlutusData_ind'; cbn.
  - assert (0 <= sum_list (map data_size fields)); [|lia]. apply sum_list_nonneg, Forall_map.
    eapply Forall_impl; [exact IH|]. cbn. lia.
  - assert (0 <= sum_list (map (λ '(key, value), data_size key + data_size value) entries)); [|lia].
    apply sum_list_nonneg, Forall_map. eapply Forall_impl; [exact IH|]. intros [k v]. cbn. lia.
  - pose proof (integer_size_pos i). lia.
  - pose proof (bytes_size_pos bs). lia.
  - assert (0 <= sum_list (map data_size items)); [|lia]. apply sum_list_nonneg, Forall_map.
    eapply Forall_impl; [exact IH|]. cbn. lia.
Qed.

Lemma log_size_nonneg n : 0 <= log_size n.
Proof. unfold log_size. case_match; [|done]. pose proof (Z.log2_nonneg (Z.of_nat n)). lia. Qed.

Lemma ledger_value_size_nonneg v : 0 <= ledger_value_size v.
Proof. unfold ledger_value_size. cbv zeta. apply Z.add_nonneg_nonneg; apply log_size_nonneg. Qed.

Lemma constant_size_nonneg c : 0 <= constant_size c.
Proof.
  induction c as [i|bs|s|b|d|t l _|t l _|t1 t2 a b IHa IHb| | | | |v] using Constant_ind'; cbn; try done;
    unfold str_size, list_size; try lia.
  - pose proof (integer_size_pos i). lia.
  - pose proof (bytes_size_pos bs). lia.
  - pose proof (data_size_pos d). lia.
  - apply ledger_value_size_nonneg.
Qed.

Lemma machine_value_size_nonneg v : 0 <= machine_value_size v.
Proof. destruct v; cbn; try lia. apply constant_size_nonneg. Qed.

Lemma string_size_nonneg s string : 0 <= string_size s string.
Proof. unfold string_size, str_size. case_match; [apply Z.div_pos; lia|lia]. Qed.

Lemma bytes_size_nonneg bs : 0 <= bytes_size bs.
Proof. pose proof (bytes_size_pos bs). lia. Qed.
Lemma integer_size_nonneg i : 0 <= integer_size i.
Proof. pose proof (integer_size_pos i). lia. Qed.
Lemma data_size_nonneg d : 0 <= data_size d.
Proof. pose proof (data_size_pos d). lia. Qed.
Lemma list_size_nonneg {A} (l : list A) : 0 <= list_size l.
Proof. unfold list_size. lia. Qed.
Lemma str_size_nonneg s : 0 <= str_size s.
Proof. unfold str_size. lia. Qed.
#[export] Hint Resolve bytes_size_nonneg integer_size_nonneg data_size_nonneg list_size_nonneg str_size_nonneg
  ledger_value_size_nonneg constant_size_nonneg machine_value_size_nonneg string_size_nonneg : amaru.
