(* ===== verification/Integer.v ===== *)
(** * Arbitrary-precision integers

    Models [amaru-uplc/src/integer.rs]: the operations the evaluator builds on
    the big-integer backend.  A backend integer is a [Z], a backend natural a
    non-negative [Z]; the loops written in [integer.rs] are modelled as they are. *)

From Stdlib Require Import Zpow_facts.
From S2P Require Import Prelude LedgerValue.

Definition MAX_BYTE_STRING_OUTPUT_LENGTH : Z := 8192.
Definition CARDANO_MAXIMUM_BITS : Z := 262143.

Definition is_negative (i : Z) : bool := i <? 0.
Definition is_zero (i : Z) : bool := i =? 0.
Definition is_greater_than (i bound : Z) : bool := bound <? i.
Definition unsigned_abs (i : Z) : Z := Z.abs i.

Definition fits_signed_range (i maximum_bits : Z) : bool :=
  let bits := integer_bits i in
  if bits <=? maximum_bits then true
  else if negb (bits =? maximum_bits + 1) || negb (is_negative i) then false
  else unsigned_abs i =? Z.shiftl 1 maximum_bits.

Definition fits_cardano_range (i : Z) : bool := fits_signed_range i CARDANO_MAXIMUM_BITS.

(** Backend division: truncated, and Euclidean. *)
Definition div_rem (a b : Z) : Z * Z := (Z.quot a b, Z.rem a b).
Definition rem_euclid (a b : Z) : Z := a mod Z.abs b.

Definition floor_div_mod (a divisor : Z) : Z * Z :=
  let '(quotient, remainder) := div_rem a divisor in
  if negb (is_zero remainder) && negb (Bool.eqb (is_negative a) (is_negative divisor))
  then (quotient - 1, remainder + divisor)
  else (quotient, remainder).

(** ** Bytes *)

(** The [n] low bytes of [v], least significant first ([to_le_bytes]). *)
Fixpoint le_bytes (n : nat) (v : Z) : list Z :=
  match n with O => [] | S n => v mod 256 :: le_bytes n (v / 256) end.

(** The machine words of a natural, least significant first ([as_words]). *)
Fixpoint as_words_from (fuel : nat) (v : Z) : list Z :=
  match fuel with
  | O => []
  | S fuel => if v =? 0 then [] else v mod 2 ^ 64 :: as_words_from fuel (v / 2 ^ 64)
  end.
Definition as_words (v : Z) : list Z := as_words_from (S (Z.to_nat (Z.log2 v))) v.

(** The loop of [to_unsigned_bytes_in]: copy words into the buffer, cutting the
    last one. *)
Fixpoint copy_words (words : list Z) (bytes : list Z) (offset byte_len : nat) : list Z :=
  match words with
  | [] => bytes
  | word :: words =>
      let written := ((offset + 8) `min` byte_len)%nat in
      let bytes :=
        if (offset <? written)%nat
        then take offset bytes ++ take (written - offset) (le_bytes 8 word) ++ drop written bytes
        else bytes in
      if (written =? byte_len)%nat then bytes else copy_words words bytes written byte_len
  end.

Definition to_unsigned_bytes_in (i : Z) (big_endian : bool) : list Z :=
  let byte_len := Z.to_nat ((integer_bits i + 7) / 8) in
  let bytes := copy_words (as_words (unsigned_abs i)) (replicate byte_len 0) 0 byte_len in
  if big_endian then reverse bytes else bytes.

Definition to_bytes_in (i : Z) (big_endian : bool) : option (list Z) :=
  if is_negative i then None else Some (to_unsigned_bytes_in i big_endian).

Definition rem_euclid_bytes (i divisor : Z) : list Z := to_unsigned_bytes_in (rem_euclid i divisor) true.

Definition from_be_bytes (bytes : list Z) : Z := foldl (λ acc b, 256 * acc + b) 0 bytes.
Definition from_le_bytes (bytes : list Z) : Z := foldr (λ b acc, b + 256 * acc) 0 bytes.

(** ** Number theory *)

(** The loop of [extended_gcd]. *)
Fixpoint extended_gcd_loop {E} (fuel : nat) (old_r r old_s s old_t t : Z) : exec E (Z * Z * Z) :=
  if is_zero r then Ok (unsigned_abs old_r, old_s, old_t)
  else
    match fuel with
    | O => OutOfFuel
    | S fuel =>
        let quotient := fst (div_rem old_r r) in
        extended_gcd_loop fuel r (old_r - quotient * r) s (old_s - quotient * s) t (old_t - quotient * t)
    end.
Definition extended_gcd {E} (self second : Z) : exec E (Z * Z * Z) :=
  extended_gcd_loop (3 + Z.to_nat (Z.log2 (Z.abs (self * second)))) self second 1 0 0 1.

(** The loop of [Natural::mod_pow]. *)
Fixpoint mod_pow_loop {E} (fuel : nat) (result self exponent modulus : Z) : exec E Z :=
  if exponent =? 0 then Ok result
  else
    match fuel with
    | O => OutOfFuel
    | S fuel =>
        let result := if Z.testbit exponent 0 then (result * self) mod modulus else result in
        mod_pow_loop fuel result ((self * self) mod modulus) (Z.shiftr exponent 1) modulus
    end.
Definition mod_pow {E} (self exponent modulus : Z) : exec E Z :=
  mod_pow_loop (S (Z.to_nat (Z.log2 exponent))) (1 mod modulus) self exponent modulus.

(** ** Correctness *)

Lemma integer_bits_spec i n : 0 <= n → integer_bits i <= n ↔ Z.abs i < 2 ^ n.
Proof.
  intros Hn. unfold integer_bits. case_bool.
  - subst. cbn. split; [|lia]. intros _. by apply Z.pow_pos_nonneg.
  - split; intros H; [apply Z.log2_lt_pow2; lia|]. apply Z.log2_lt_pow2 in H; lia.
Qed.

Lemma fits_signed_range_spec i n : 0 <= n → fits_signed_range i n = true ↔ - 2 ^ n <= i <= 2 ^ n - 1.
Proof.
  intros Hn. unfold fits_signed_range, is_negative, unsigned_abs. rewrite Z.shiftl_mul_pow2, Z.mul_1_l by done.
  pose proof (integer_bits_spec i n Hn). pose proof (integer_bits_spec i (n + 1) ltac:(lia)).
  rewrite Z.pow_add_r, Z.pow_1_r in * by lia.
  destruct (Z.leb_spec (integer_bits i) n); cbn; [split; [intros _; lia|done]|].
  destruct (Z.eqb_spec (integer_bits i) (n + 1)); cbn; [|split; [done|intros; exfalso; lia]].
  destruct (Z.ltb_spec i 0); cbn; [rewrite Z.eqb_eq; lia|]. split; [done|intros; exfalso; lia].
Qed.

Lemma floor_div_mod_spec a b : b ≠ 0 → floor_div_mod a b = (a / b, a mod b).
Proof.
  intros Hb. unfold floor_div_mod, div_rem, is_zero, is_negative.
  pose proof (Z.quot_rem a b Hb) as Hqr. pose proof (Z.rem_bound_abs a b Hb) as Hr.
  pose proof (Z.rem_sign_mul a b Hb) as Hs.
  set (q := Z.quot a b) in *. set (r := Z.rem a b) in *.
  destruct (Z.eqb_spec r 0) as [E|E]; cbn.
  - rewrite E in *. f_equal; [apply Z.div_unique_exact|apply Z.mod_unique with q]; lia.
  - assert ((a < 0 → r < 0) ∧ (0 <= a → 0 < r)) as [Hneg Hpos].
    { split; intros; [nia|]. destruct (Z.eq_dec a 0) as [->|]; [|nia]. exfalso. apply E. by apply Z.rem_0_l. }
    destruct (Z.ltb_spec a 0), (Z.ltb_spec b 0); cbn; f_equal;
      first [apply Z.div_unique with r; lia|apply Z.mod_unique with q; lia|
             apply Z.div_unique with (r + b); lia|apply Z.mod_unique with (q - 1); lia].
Qed.

(** *** Bytes *)

Definition is_byte_list (bs : list Z) : Prop := Forall (λ b, 0 <= b < 256) bs.

Lemma length_le_bytes n v : length (le_bytes n v) = n.
Proof. revert v. induction n; intros; cbn; auto. Qed.

Lemma le_bytes_bytes n v : is_byte_list (le_bytes n v).
Proof.
  revert v. induction n; intros; constructor; [|apply IHn]. apply Z.mod_pos_bound. lia.
Qed.

Lemma le_bytes_app n m v : le_bytes (n + m) v = le_bytes n v ++ le_bytes m (v / 256 ^ Z.of_nat n).
Proof.
  revert v. induction n as [|n IH]; intros v; [cbn; by rewrite Z.div_1_r|].
  cbn [le_bytes Nat.add app]. rewrite IH, Z.div_div by lia. do 3 f_equal.
  rewrite Nat2Z.inj_succ, Z.pow_succ_r by lia. done.
Qed.

Lemma le_bytes_0 n : le_bytes n 0 = replicate n 0.
Proof. induction n; [done|]. cbn [le_bytes replicate]. by rewrite Zmod_0_l, Zdiv_0_l, IHn. Qed.

Lemma take_le_bytes n m v : (n <= m)%nat → take n (le_bytes m v) = le_bytes n v.
Proof.
  intros H. replace m with (n + (m - n))%nat by lia. rewrite le_bytes_app.
  by rewrite take_app_length' by (by rewrite length_le_bytes).
Qed.

Lemma le_bytes_mod n k v : (n <= k)%nat → le_bytes n (v mod 256 ^ Z.of_nat k) = le_bytes n v.
Proof.
  revert k v. induction n as [|n IH]; intros k v Hk; [done|]. destruct k as [|k]; [lia|].
  rewrite Nat2Z.inj_succ, Z.pow_succ_r by lia. cbn [le_bytes].
  pose proof (Z.pow_pos_nonneg 256 (Z.of_nat k)).
  rewrite Z.rem_mul_r, Z.mul_comm, Z.mod_add, Z.div_add, Z.mod_mod by lia.
  rewrite (Z.div_small (v mod 256)) by (apply Z.mod_pos_bound; lia). rewrite Z.add_0_l.
  by rewrite IH by lia.
Qed.

Lemma as_words_cons v : 0 < v → as_words v = v mod 2 ^ 64 :: as_words_from (Z.to_nat (Z.log2 v)) (v / 2 ^ 64).
Proof. intros Hv. unfold as_words. cbn [as_words_from]. case_bool; [lia|done]. Qed.

(** Enough fuel to list all the words. *)
Lemma copy_words_from fuel v pre k :
  0 <= v → v < 2 ^ Z.of_nat fuel →
  copy_words (as_words_from fuel v) (pre ++ replicate k 0) (length pre) (length pre + k) = pre ++ le_bytes k v.
Proof.
  revert v pre k. induction fuel as [|fuel IH]; intros v pre k H0 Hf.
  { cbn in *. assert (v = 0) as -> by lia. by rewrite le_bytes_0. }
  cbn [as_words_from]. destruct (Z.eqb_spec v 0) as [->|Hv]; [cbn; by rewrite le_bytes_0|]. cbn [copy_words].
  set (n := (8 `min` k)%nat).
  replace ((length pre + 8) `min` (length pre + k))%nat with (length pre + n)%nat by lia.
  assert ((if (length pre <? length pre + n)%nat
    then take (length pre) (pre ++ replicate k 0) ++ take (length pre + n - length pre) (le_bytes 8 (v mod 2 ^ 64)) ++
         drop (length pre + n) (pre ++ replicate k 0)
    else pre ++ replicate k 0) = (pre ++ le_bytes n v) ++ replicate (k - n) 0) as ->.
  { destruct (Nat.ltb_spec (length pre) (length pre + n)).
    - rewrite take_app_length, <- app_assoc. f_equal. replace (length pre + n - length pre)%nat with n by lia.
      rewrite take_le_bytes by lia. change (2 ^ 64) with (256 ^ Z.of_nat 8). rewrite le_bytes_mod by lia. f_equal.
      rewrite drop_app_add, drop_replicate. done.
    - assert (n = 0%nat) as -> by lia. cbn. by rewrite app_nil_r, Nat.sub_0_r. }
  destruct (Nat.eqb_spec (length pre + n) (length pre + k)).
  - assert (n = k) as Hn by lia. rewrite Hn, Nat.sub_diag. by rewrite app_nil_r.
  - assert (8 <= k)%nat by lia. assert (n = 8%nat) as -> by lia.
    pose proof (IH (v / 2 ^ 64) (pre ++ le_bytes 8 v) (k - 8)%nat) as Hrec.
    rewrite length_app, length_le_bytes in Hrec. replace (length pre + 8 + (k - 8))%nat with (length pre + k)%nat in Hrec by lia.
    rewrite Hrec.
    + rewrite <- app_assoc. f_equal. replace k with (8 + (k - 8))%nat at 2 by lia. by rewrite le_bytes_app.
    + apply Z.div_pos; lia.
    + apply Z.div_lt_upper_bound; [lia|]. rewrite Nat2Z.inj_succ, Z.pow_succ_r in Hf by lia.
      pose proof (Z.pow_pos_nonneg 2 (Z.of_nat fuel)). lia.
Qed.

Lemma as_words_fuel v : 0 <= v → v < 2 ^ Z.of_nat (S (Z.to_nat (Z.log2 v))).
Proof.
  intros Hv. rewrite Nat2Z.inj_succ, Z2Nat.id by apply Z.log2_nonneg.
  destruct (Z.eq_dec v 0) as [->|]; [done|]. by apply Z.log2_spec; lia.
Qed.

(** The number of bytes of an integer. *)
Definition byte_len (i : Z) : nat := Z.to_nat ((integer_bits i + 7) / 8).

Lemma to_unsigned_bytes_le i : 0 <= i → to_unsigned_bytes_in i false = le_bytes (byte_len i) i.
Proof.
  intros Hi. unfold to_unsigned_bytes_in, unsigned_abs. rewrite Z.abs_eq by done.
  by apply (copy_words_from _ i [] (byte_len i)), as_words_fuel.
Qed.

Lemma to_unsigned_bytes_be i : to_unsigned_bytes_in i true = reverse (to_unsigned_bytes_in i false).
Proof. done. Qed.

Lemma integer_bits_nonneg i : 0 <= integer_bits i.
Proof. unfold integer_bits. case_bool; [done|]. pose proof (Z.log2_nonneg (Z.abs i)). lia. Qed.

Lemma byte_len_bound i : Z.abs i < 256 ^ Z.of_nat (byte_len i).
Proof.
  unfold byte_len. pose proof (integer_bits_nonneg i).
  assert (0 <= (integer_bits i + 7) / 8) by (apply Z.div_pos; lia). rewrite Z2Nat.id by done.
  change 256 with (2 ^ 8). rewrite <- Z.pow_mul_r by lia.
  apply integer_bits_spec; [lia|]. pose proof (Z.mod_pos_bound (integer_bits i + 7) 8).
  pose proof (Z.div_mod (integer_bits i + 7) 8). lia.
Qed.

Lemma from_le_bytes_le n v : 0 <= v < 256 ^ Z.of_nat n → from_le_bytes (le_bytes n v) = v.
Proof.
  revert v. induction n as [|n IH]; intros v Hv; [cbn in *; lia|].
  rewrite Nat2Z.inj_succ, Z.pow_succ_r in Hv by lia. cbn. unfold from_le_bytes in IH. rewrite IH.
  - pose proof (Z.div_mod v 256). lia.
  - split; [apply Z.div_pos; lia|]. apply Z.div_lt_upper_bound; lia.
Qed.

Lemma from_be_bytes_reverse bs : from_be_bytes (reverse bs) = from_le_bytes bs.
Proof.
  unfold from_be_bytes, from_le_bytes. induction bs as [|b bs IH]; [done|].
  rewrite reverse_cons, foldl_snoc, IH. cbn. lia.
Qed.

Lemma from_le_bytes_app a b : from_le_bytes (a ++ b) = from_le_bytes a + 256 ^ Z.of_nat (length a) * from_le_bytes b.
Proof.
  unfold from_le_bytes. induction a as [|x a IH]; [cbn; destruct (foldr _ _ b); done|].
  cbn [app foldr length]. rewrite IH, Nat2Z.inj_succ, Z.pow_succ_r by lia. lia.
Qed.

Lemma from_le_bytes_zeros n : from_le_bytes (replicate n 0) = 0.
Proof. induction n; cbn; [done|]. unfold from_le_bytes in IHn. by rewrite IHn. Qed.

Lemma from_le_bytes_nonneg bs : is_byte_list bs → 0 <= from_le_bytes bs < 256 ^ Z.of_nat (length bs).
Proof.
  unfold from_le_bytes. induction 1 as [|b bs Hb _ IH]; [cbn; lia|].
  cbn [foldr length]. rewrite Nat2Z.inj_succ, Z.pow_succ_r by lia. lia.
Qed.

(** *** Number theory *)

(** Each step keeps the Bezout identities and the gcd, and halves the product of
    the two remainders. *)
Lemma extended_gcd_loop_spec {E} fuel a b old_r r old_s s old_t t :
  0 <= r <= old_r → old_r * r < 2 ^ Z.of_nat fuel →
  old_r = a * old_s + b * old_t → r = a * s + b * t → Z.gcd old_r r = Z.gcd a b →
  ∃ x y, extended_gcd_loop (E := E) fuel old_r r old_s s old_t t = Ok (Z.gcd a b, x, y) ∧ a * x + b * y = Z.gcd a b.
Proof.
  revert old_r r old_s s old_t t.
  induction fuel as [|fuel IH]; intros old_r r old_s s old_t t Hr Hf Ho Hs Hg; cbn [extended_gcd_loop]; unfold is_zero.
  all: destruct (Z.eqb_spec r 0) as [->|Hr0].
  1, 3: rewrite Z.gcd_0_r in Hg; unfold unsigned_abs; rewrite Hg; exists old_s, old_t; split; [done|];
    rewrite <- Hg, Z.abs_eq by lia; lia.
  - exfalso. cbn in Hf. nia.
  - unfold div_rem. cbn [fst]. rewrite Z.quot_div_nonneg by lia.
    replace (old_r - old_r / r * r) with (old_r mod r) by (rewrite Z.mod_eq; lia).
    pose proof (Z.mod_pos_bound old_r r ltac:(lia)) as Hm.
    apply IH.
    + lia.
    + assert (r + old_r mod r <= old_r).
      { pose proof (Z.div_mod old_r r Hr0). assert (1 <= old_r / r) by (apply Z.div_le_lower_bound; lia). nia. }
      rewrite Nat2Z.inj_succ, Z.pow_succ_r in Hf by lia. nia.
    + lia.
    + rewrite Z.mod_eq by done. generalize (old_r / r). intros q. rewrite Ho, Hs. ring.
    + by rewrite <- Hg, Z.gcd_comm, Z.gcd_mod, Z.gcd_comm by done.
Qed.

Lemma extended_gcd_spec {E} a b : 0 <= a → 0 < b →
  ∃ x y, extended_gcd (E := E) a b = Ok (Z.gcd a b, x, y) ∧ a * x + b * y = Z.gcd a b.
Proof.
  intros Ha Hb. unfold extended_gcd. rewrite Z.abs_eq by nia.
  pose proof (as_words_fuel (a * b) ltac:(nia)) as Hf.
  change (3 + ?n)%nat with (S (S (S n))). remember (S (S (Z.to_nat (Z.log2 (a * b))))) as fuel eqn:Hfuel.
  cbn [extended_gcd_loop]. unfold is_zero, div_rem. cbn [fst].
  destruct (Z.eqb_spec b 0); [lia|]. rewrite Z.quot_div_nonneg by lia.
  replace (a - a / b * b) with (a mod b) by (rewrite Z.mod_eq; lia).
  pose proof (Z.mod_pos_bound a b Hb).
  apply extended_gcd_loop_spec; [lia| |lia| |].
  - rewrite Hfuel, Nat2Z.inj_succ, Z.pow_succ_r by lia.
    assert (b * (a mod b) <= a * b) by (pose proof (Z.mod_le a b Ha Hb); nia). lia.
  - rewrite Z.mod_eq by lia. ring.
  - by rewrite Z.gcd_comm, Z.gcd_mod, Z.gcd_comm by lia.
Qed.

Lemma mod_pow_loop_spec {E} fuel result b e m : 0 < m → 0 <= e < 2 ^ Z.of_nat fuel → result = result mod m →
  mod_pow_loop (E := E) fuel result b e m = Ok ((result * b ^ e) mod m).
Proof.
  intros Hm. revert result b e. induction fuel as [|fuel IH]; intros result b e He Hres; cbn [mod_pow_loop].
  all: destruct (Z.eqb_spec e 0) as [->|He0]; [by rewrite Z.pow_0_r, Z.mul_1_r, <- Hres|].
  { cbn in He. lia. }
  rewrite Nat2Z.inj_succ, Z.pow_succ_r in He by lia.
  rewrite Z.shiftr_div_pow2, Z.pow_1_r by lia. rewrite IH.
  - f_equal. rewrite Z.mul_mod, <- Zpower_mod, <- Z.mul_mod by lia. rewrite Z.bit0_odd. pose proof (Z.div_mod e 2 ltac:(lia)) as Hd. rewrite Zmod_odd in Hd.
    assert ((b * b) ^ (e / 2) = b ^ (2 * (e / 2))) as ->.
    { rewrite Z.pow_mul_r, Z.pow_2_r by (try apply Z.div_pos; lia). done. }
    assert (0 <= e / 2) by (apply Z.div_pos; lia).
    destruct (Z.odd e).
    + rewrite Z.mul_mod_idemp_l by lia. f_equal. rewrite Hd at 2. rewrite Z.pow_add_r, Z.pow_1_r by lia. ring.
    + f_equal. f_equal. f_equal. lia.
  - split; [apply Z.div_pos; lia|apply Z.div_lt_upper_bound; lia].
  - destruct (Z.testbit e 0); [|done]. by rewrite Z.mod_mod by lia.
Qed.

Lemma mod_pow_spec {E} b e m : 0 < m → 0 <= e → mod_pow (E := E) b e m = Ok (b ^ e mod m).
Proof.
  intros Hm He. unfold mod_pow. rewrite mod_pow_loop_spec; [|done| |by rewrite Z.mod_mod by lia].
  - by rewrite Z.mul_mod_idemp_l, Z.mul_1_l by lia.
  - split; [done|]. by apply as_words_fuel.
Qed.
