(* ===== verification/Builtins.v ===== *)
(** * Builtin functions

    Models [Machine::call] of [amaru-uplc/src/machine/runtime.rs], one definition
    per builtin, with the accessors of [value.rs], [constant.rs] and [data.rs] it
    uses, and [bls.rs].

    An arm of [call] unwraps its arguments, prices the call, spends the budget,
    and computes the result; a [Call] is the first part, returning the price and
    the second part.  Cryptography is third-party code: an interface ([Crypto]). *)

From S2P Require Import Prelude FlatBits UplcSyntax SortedAssoc LedgerValue ParamName Costing CekSyntax CostArgument Integer.
From S2P Require FlatDecoder Flat.
Import Flat(DataCodec, DataCodecLaws, encode_data).

(** ** Third-party cryptography *)

(** Curve points and pairing results are opaque; [None] is an error of the
    library. *)
Class Crypto := {
  hash_sha2_256 : list Z → list Z;
  hash_sha3_256 : list Z → list Z;
  hash_blake2b_256 : list Z → list Z;
  hash_blake2b_224 : list Z → list Z;
  hash_keccak_256 : list Z → list Z;
  hash_ripemd_160 : list Z → list Z;
  hamming_weight : list Z → Z;
  ed25519_verify_strict : list Z → list Z → list Z → bool;
  secp256k1_public_key : list Z → option (list Z);
  secp256k1_signature_compact : list Z → option (list Z);
  secp256k1_message : list Z → option (list Z);
  secp256k1_verify_ecdsa : list Z → list Z → list Z → bool;
  secp256k1_xonly_public_key : list Z → option (list Z);
  secp256k1_schnorr_signature : list Z → option (list Z);
  secp256k1_verify_schnorr : list Z → list Z → list Z → bool;
  scalar_from_bendian : list Z → list Z;
  p1_uncompress : list Z → option (list Z); p2_uncompress : list Z → option (list Z);
  p1_in_g1 : list Z → bool; p2_in_g2 : list Z → bool;
  p1_compress : list Z → list Z; p2_compress : list Z → list Z;
  p1_add_or_double : list Z → list Z → list Z; p2_add_or_double : list Z → list Z → list Z;
  p1_is_equal : list Z → list Z → bool; p2_is_equal : list Z → list Z → bool;
  p1_is_inf : list Z → bool; p2_is_inf : list Z → bool;
  p1_cneg : list Z → list Z; p2_cneg : list Z → list Z;
  p1_mult : list Z → list Z → Z → list Z; p2_mult : list Z → list Z → Z → list Z;
  p1_affines_mult : list (list Z) → list Z → Z → list Z;
  p2_affines_mult : list (list Z) → list Z → Z → list Z;
  hash_to_g1 : list Z → list Z → list Z; hash_to_g2 : list Z → list Z → list Z;
  miller_loop : list Z → list Z → list Z;
  fp12_mul : list Z → list Z → list Z;
  fp12_finalverify : list Z → list Z → bool }.

(** ** Unwrapping arguments *)

Abbreviation M := (exec MachineError).
Definition err {A} (e : RuntimeError) : M A := Err (RuntimeErr e).

(** [runtime.args[i]]. *)
Definition arg (args : list Value) (i : nat) : M Value := index args i.

Definition unwrap_constant (v : Value) : M Constant :=
  match v with VCon item => Ok item | _ => Err (NotAConstant v) end.
Definition unwrap_integer (v : Value) : M Z :=
  inner ← unwrap_constant v;
  match inner with ConInteger integer => Ok integer | _ => err (TypeMismatch TyInteger inner) end.
Definition unwrap_byte_string (v : Value) : M (list Z) :=
  inner ← unwrap_constant v;
  match inner with ConByteString bs => Ok bs | _ => err (TypeMismatch TyByteString inner) end.
Definition unwrap_string (v : Value) : M (list Z) :=
  inner ← unwrap_constant v;
  match inner with ConString s => Ok s | _ => err (TypeMismatch TyString inner) end.
Definition unwrap_bool (v : Value) : M bool :=
  inner ← unwrap_constant v;
  match inner with ConBoolean b => Ok b | _ => err (TypeMismatch TyBool inner) end.
Definition unwrap_pair (v : Value) : M (Typ * Typ * Constant * Constant) :=
  inner ← unwrap_constant v;
  match inner with ConProtoPair t1 t2 first second => Ok (t1, t2, first, second) | _ => err (ExpectedPair inner) end.
Definition unwrap_list (v : Value) : M (Typ * list Constant) :=
  inner ← unwrap_constant v;
  match inner with ConProtoList t1 list => Ok (t1, list) | _ => err (ExpectedList inner) end.
Definition unwrap_array (v : Value) : M (Typ * list Constant) :=
  inner ← unwrap_constant v;
  match inner with ConProtoArray t1 array => Ok (t1, array) | _ => err (ExpectedArray inner) end.
Definition unwrap_unit (v : Value) : M () :=
  inner ← unwrap_constant v;
  match inner with ConUnit => Ok () | _ => err (TypeMismatch TyUnit inner) end.
Definition unwrap_int_list (v : Value) : M (list Constant) :=
  inner ← unwrap_constant v;
  match inner with ConProtoList TyInteger list => Ok list | _ => err (TypeMismatch (TyList TyInteger) inner) end.
Definition unwrap_bls12_381_g1_element (v : Value) : M (list Z) :=
  inner ← unwrap_constant v;
  match inner with ConBls12_381G1Element g1 => Ok g1 | _ => err (TypeMismatch TyBls12_381G1Element inner) end.
Definition unwrap_bls12_381_g2_element (v : Value) : M (list Z) :=
  inner ← unwrap_constant v;
  match inner with ConBls12_381G2Element g2 => Ok g2 | _ => err (TypeMismatch TyBls12_381G2Element inner) end.
Definition unwrap_bls12_381_ml_result (v : Value) : M (list Z) :=
  inner ← unwrap_constant v;
  match inner with ConBls12_381MlResult ml_res => Ok ml_res | _ => err (TypeMismatch TyBls12_381MlResult inner) end.
Definition unwrap_ledger_value (v : Value) : M LedgerValue :=
  inner ← unwrap_constant v;
  match inner with ConValue v => Ok v | _ => err (TypeMismatch TyValue inner) end.

(** [Constant::unwrap_data], and the accessors of [PlutusData]. *)
Definition constant_unwrap_data (c : Constant) : M PlutusData :=
  match c with ConData data => Ok data | _ => err (NotData c) end.
Definition unwrap_data (v : Value) : M PlutusData := c ← unwrap_constant v; constant_unwrap_data c.

Definition data_unwrap_constr (d : PlutusData) : M (Z * list PlutusData) :=
  match d with DConstr tag fields => Ok (tag, fields) | _ => err (MalFormedData d) end.
Definition data_unwrap_map (d : PlutusData) : M (list (PlutusData * PlutusData)) :=
  match d with DMap fields => Ok fields | _ => err (MalFormedData d) end.
Definition data_unwrap_integer (d : PlutusData) : M Z :=
  match d with DInteger i => Ok i | _ => err (MalFormedData d) end.
Definition data_unwrap_byte_string (d : PlutusData) : M (list Z) :=
  match d with DByteString bytes => Ok bytes | _ => err (MalFormedData d) end.
Definition data_unwrap_list (d : PlutusData) : M (list PlutusData) :=
  match d with DList items => Ok items | _ => err (MalFormedData d) end.

(** The derived equality of [PlutusData]. *)
Fixpoint data_eqb (a b : PlutusData) : bool :=
  match a, b with
  | DConstr t fs, DConstr t' fs' =>
      (t =? t') && (fix go l l' := match l, l' with
        | [], [] => true | x :: l, y :: l' => data_eqb x y && go l l' | _, _ => false end) fs fs'
  | DMap m, DMap m' =>
      (fix go l l' := match l, l' with
        | [], [] => true
        | (k, v) :: l, (k', v') :: l' => data_eqb k k' && data_eqb v v' && go l l'
        | _, _ => false end) m m'
  | DInteger i, DInteger i' => i =? i'
  | DByteString bs, DByteString bs' => bool_decide (bs = bs')
  | DList fs, DList fs' =>
      (fix go l l' := match l, l' with
        | [], [] => true | x :: l, y :: l' => data_eqb x y && go l l' | _, _ => false end) fs fs'
  | _, _ => false
  end.

(** [slice.get(usize::try_from(i).ok()?)]. *)
Definition slice_get {A} (l : list A) (i : Z) : option A :=
  if (0 <=? i) && (i <? Z.of_nat (length l)) then l !! Z.to_nat i else None.

(** The items of a list of data; anything else is [unreachable!]. *)
Fixpoint expect_data (l : list Constant) : M (list PlutusData) :=
  match l with
  | [] => Ok []
  | ConData d :: l => ds ← expect_data l; Ok (d :: ds)
  | _ :: _ => Panic
  end.
Fixpoint expect_data_pairs (l : list Constant) : M (list (PlutusData * PlutusData)) :=
  match l with
  | [] => Ok []
  | ConProtoPair TyData TyData (ConData key) (ConData value) :: l =>
      map ← expect_data_pairs l; Ok ((key, value) :: map)
  | _ :: _ => Panic
  end.

(** ** Calls *)

Definition con (c : Constant) : Result := Ok (VCon c, []).
Definition pair_data_type : Typ := TyPair TyData TyData.

Section Call.
Context `{Crypto} `{DataCodec} (costs : CostModel).

(** [self.costs.builtin_costs.get_cost(fun, sizes)], then the rest of the arm. *)
Definition priced (fun_ : DefaultFunction) (sizes : list Z) (result : Result) : Call :=
  budget ← get_cost (builtin_costs costs) fun_ sizes;
  Ok (budget, result).

Definition unwrap_bounded_integer (value : Value) : M Z :=
  integer ← unwrap_integer value;
  if enforces_integer_bounds (semantics costs) && negb (fits_cardano_range integer)
  then err (IntegerOutOfBounds integer)
  else Ok integer.

(** [Machine::string_size]. *)
Definition measure (string : list Z) : Z := string_size (semantics costs) string.

Definition shift_amount_cost (shift : Z) : M Z :=
  if (i64_min <=? shift) && (shift <=? i64_max) then Ok (i64_saturating_abs shift)
  else if bounds_shift_amount_to_int64 (semantics costs) then err (OutsideUsizeBounds shift)
  else Ok i64_max.

(** *** Integers *)

Definition call_AddInteger (args : list Value) : Call :=
  arg1 ← arg args 0 ≫= unwrap_bounded_integer;
  arg2 ← arg args 1 ≫= unwrap_bounded_integer;
  priced AddInteger [integer_size arg1; integer_size arg2] (con (ConInteger (arg1 + arg2))).

Definition call_SubtractInteger (args : list Value) : Call :=
  arg1 ← arg args 0 ≫= unwrap_bounded_integer;
  arg2 ← arg args 1 ≫= unwrap_bounded_integer;
  priced SubtractInteger [integer_size arg1; integer_size arg2] (con (ConInteger (arg1 - arg2))).

Definition call_MultiplyInteger (args : list Value) : Call :=
  arg1 ← arg args 0 ≫= unwrap_bounded_integer;
  arg2 ← arg args 1 ≫= unwrap_bounded_integer;
  priced MultiplyInteger [integer_size arg1; integer_size arg2] (con (ConInteger (arg1 * arg2))).

Definition call_DivideInteger (args : list Value) : Call :=
  arg1 ← arg args 0 ≫= unwrap_bounded_integer;
  arg2 ← arg args 1 ≫= unwrap_bounded_integer;
  priced DivideInteger [integer_size arg1; integer_size arg2]
    (if negb (is_zero arg2) then con (ConInteger (fst (floor_div_mod arg1 arg2)))
     else err (DivisionByZero arg1 arg2)).

Definition call_ModInteger (args : list Value) : Call :=
  arg1 ← arg args 0 ≫= unwrap_bounded_integer;
  arg2 ← arg args 1 ≫= unwrap_bounded_integer;
  priced ModInteger [integer_size arg1; integer_size arg2]
    (if negb (is_zero arg2) then con (ConInteger (snd (floor_div_mod arg1 arg2)))
     else err (DivisionByZero arg1 arg2)).

Definition call_QuotientInteger (args : list Value) : Call :=
  arg1 ← arg args 0 ≫= unwrap_bounded_integer;
  arg2 ← arg args 1 ≫= unwrap_bounded_integer;
  priced QuotientInteger [integer_size arg1; integer_size arg2]
    (if negb (is_zero arg2) then con (ConInteger (fst (div_rem arg1 arg2)))
     else err (DivisionByZero arg1 arg2)).

Definition call_RemainderInteger (args : list Value) : Call :=
  arg1 ← arg args 0 ≫= unwrap_bounded_integer;
  arg2 ← arg args 1 ≫= unwrap_bounded_integer;
  priced RemainderInteger [integer_size arg1; integer_size arg2]
    (if negb (is_zero arg2) then con (ConInteger (snd (div_rem arg1 arg2)))
     else err (DivisionByZero arg1 arg2)).

Definition call_EqualsInteger (args : list Value) : Call :=
  arg1 ← arg args 0 ≫= unwrap_integer;
  arg2 ← arg args 1 ≫= unwrap_integer;
  priced EqualsInteger [integer_size arg1; integer_size arg2] (con (ConBoolean (arg1 =? arg2))).

Definition call_LessThanInteger (args : list Value) : Call :=
  arg1 ← arg args 0 ≫= unwrap_bounded_integer;
  arg2 ← arg args 1 ≫= unwrap_bounded_integer;
  priced LessThanInteger [integer_size arg1; integer_size arg2] (con (ConBoolean (arg1 <? arg2))).

Definition call_LessThanEqualsInteger (args : list Value) : Call :=
  arg1 ← arg args 0 ≫= unwrap_bounded_integer;
  arg2 ← arg args 1 ≫= unwrap_bounded_integer;
  priced LessThanEqualsInteger [integer_size arg1; integer_size arg2] (con (ConBoolean (arg1 <=? arg2))).

Definition exp_mod (base exponent modulus : Z) : M Z :=
  let normalized_base := rem_euclid base modulus in
  if is_negative exponent then
    '(gcd, inverse, _) ← extended_gcd normalized_base modulus;
    if negb (gcd =? 1) then Err ExplicitErrorTerm
    else mod_pow (unsigned_abs (rem_euclid inverse modulus)) (unsigned_abs exponent) (unsigned_abs modulus)
  else mod_pow (unsigned_abs normalized_base) (unsigned_abs exponent) (unsigned_abs modulus).

Definition call_ExpModInteger (args : list Value) : Call :=
  base ← arg args 0 ≫= unwrap_integer;
  exponent ← arg args 1 ≫= unwrap_integer;
  modulus_integer ← arg args 2 ≫= unwrap_integer;
  priced ExpModInteger [integer_size base; integer_size exponent; integer_size modulus_integer]
    (if is_negative modulus_integer || is_zero modulus_integer then err (DivisionByZero base modulus_integer)
     else result ← exp_mod base exponent modulus_integer; con (ConInteger result)).

(** *** Byte strings *)

Definition call_AppendByteString (args : list Value) : Call :=
  arg1 ← arg args 0 ≫= unwrap_byte_string;
  arg2 ← arg args 1 ≫= unwrap_byte_string;
  priced AppendByteString [bytes_size arg1; bytes_size arg2] (con (ConByteString (arg1 ++ arg2))).

Definition call_ConsByteString (args : list Value) : Call :=
  arg1 ← arg args 0 ≫= unwrap_bounded_integer;
  arg2 ← arg args 1 ≫= unwrap_byte_string;
  priced ConsByteString [integer_size arg1; bytes_size arg2]
    (byte ← (if cons_byte_string_range_checks (semantics costs) then
               if is_greater_than arg1 255 || is_negative arg1 then err (ByteStringConsNotAByte arg1)
               else Ok arg1
             else Ok (rem_euclid arg1 256));
     con (ConByteString (byte :: arg2))).

Definition call_SliceByteString (args : list Value) : Call :=
  arg1 ← arg args 0 ≫= unwrap_integer;
  arg2 ← arg args 1 ≫= unwrap_integer;
  arg3 ← arg args 2 ≫= unwrap_byte_string;
  priced SliceByteString [integer_size arg1; integer_size arg2; bytes_size arg3]
    (let len := Z.of_nat (length arg3) in
     let skip := if is_negative arg1 then 0 else if is_greater_than arg1 len then len else arg1 in
     let take_ := if is_negative arg2 then 0 else if is_greater_than arg2 len then len else arg2 in
     let skip_take := if len <? skip + take_ then len else skip + take_ in
     if (skip <=? skip_take) && (skip_take <=? len)
     then con (ConByteString (take (Z.to_nat (skip_take - skip)) (drop (Z.to_nat skip) arg3)))
     else Panic).

Definition call_LengthOfByteString (args : list Value) : Call :=
  arg1 ← arg args 0 ≫= unwrap_byte_string;
  priced LengthOfByteString [bytes_size arg1] (con (ConInteger (Z.of_nat (length arg1)))).

Definition call_IndexByteString (args : list Value) : Call :=
  arg1 ← arg args 0 ≫= unwrap_byte_string;
  arg2 ← arg args 1 ≫= unwrap_integer;
  priced IndexByteString [bytes_size arg1; integer_size arg2]
    (match slice_get arg1 arg2 with
     | Some byte => con (ConInteger byte)
     | None => err (ByteStringOutOfBounds arg1 arg2)
     end).

Definition call_EqualsByteString (args : list Value) : Call :=
  arg1 ← arg args 0 ≫= unwrap_byte_string;
  arg2 ← arg args 1 ≫= unwrap_byte_string;
  priced EqualsByteString [bytes_size arg1; bytes_size arg2] (con (ConBoolean (bool_decide (arg1 = arg2)))).

Definition call_LessThanByteString (args : list Value) : Call :=
  arg1 ← arg args 0 ≫= unwrap_byte_string;
  arg2 ← arg args 1 ≫= unwrap_byte_string;
  priced LessThanByteString [bytes_size arg1; bytes_size arg2]
    (con (ConBoolean (match bytes_compare arg1 arg2 with Lt => true | _ => false end))).

Definition call_LessThanEqualsByteString (args : list Value) : Call :=
  arg1 ← arg args 0 ≫= unwrap_byte_string;
  arg2 ← arg args 1 ≫= unwrap_byte_string;
  priced LessThanEqualsByteString [bytes_size arg1; bytes_size arg2]
    (con (ConBoolean (match bytes_compare arg1 arg2 with Gt => false | _ => true end))).

(** *** Strings *)

Definition call_AppendString (args : list Value) : Call :=
  arg1 ← arg args 0 ≫= unwrap_string;
  arg2 ← arg args 1 ≫= unwrap_string;
  priced AppendString [measure arg1; measure arg2] (con (ConString (arg1 ++ arg2))).

Definition call_EqualsString (args : list Value) : Call :=
  arg1 ← arg args 0 ≫= unwrap_string;
  arg2 ← arg args 1 ≫= unwrap_string;
  priced EqualsString [measure arg1; measure arg2] (con (ConBoolean (bool_decide (arg1 = arg2)))).

Definition call_EncodeUtf8 (args : list Value) : Call :=
  arg1 ← arg args 0 ≫= unwrap_string;
  priced EncodeUtf8 [measure arg1] (con (ConByteString arg1)).

Definition call_DecodeUtf8 (args : list Value) : Call :=
  arg1 ← arg args 0 ≫= unwrap_byte_string;
  priced DecodeUtf8 [bytes_size arg1]
    (if FlatDecoder.utf8_valid arg1 then con (ConString arg1) else err RuntimeDecodeUtf8).

(** *** Hashes and signatures *)

Definition call_Sha2_256 (args : list Value) : Call :=
  arg1 ← arg args 0 ≫= unwrap_byte_string;
  priced Sha2_256 [bytes_size arg1] (con (ConByteString (hash_sha2_256 arg1))).
Definition call_Sha3_256 (args : list Value) : Call :=
  arg1 ← arg args 0 ≫= unwrap_byte_string;
  priced Sha3_256 [bytes_size arg1] (con (ConByteString (hash_sha3_256 arg1))).
Definition call_Blake2b_256 (args : list Value) : Call :=
  arg1 ← arg args 0 ≫= unwrap_byte_string;
  priced Blake2b_256 [bytes_size arg1] (con (ConByteString (hash_blake2b_256 arg1))).
Definition call_Blake2b_224 (args : list Value) : Call :=
  arg1 ← arg args 0 ≫= unwrap_byte_string;
  priced Blake2b_224 [bytes_size arg1] (con (ConByteString (hash_blake2b_224 arg1))).
Definition call_Keccak_256 (args : list Value) : Call :=
  arg1 ← arg args 0 ≫= unwrap_byte_string;
  priced Keccak_256 [bytes_size arg1] (con (ConByteString (hash_keccak_256 arg1))).
Definition call_Ripemd_160 (args : list Value) : Call :=
  input ← arg args 0 ≫= unwrap_byte_string;
  priced Ripemd_160 [bytes_size input] (con (ConByteString (hash_ripemd_160 input))).

Definition call_VerifyEd25519Signature (args : list Value) : Call :=
  public_key ← arg args 0 ≫= unwrap_byte_string;
  message ← arg args 1 ≫= unwrap_byte_string;
  signature ← arg args 2 ≫= unwrap_byte_string;
  priced VerifyEd25519Signature [bytes_size public_key; bytes_size message; bytes_size signature]
    (if negb (length public_key =? 32)%nat then err UnexpectedEd25519PublicKeyLength
     else if negb (length signature =? 64)%nat then err UnexpectedEd25519SignatureLength
     else con (ConBoolean (ed25519_verify_strict public_key message signature))).

Definition call_VerifyEcdsaSecp256k1Signature (args : list Value) : Call :=
  public_key ← arg args 0 ≫= unwrap_byte_string;
  message ← arg args 1 ≫= unwrap_byte_string;
  signature ← arg args 2 ≫= unwrap_byte_string;
  priced VerifyEcdsaSecp256k1Signature [bytes_size public_key; bytes_size message; bytes_size signature]
    (if negb (length public_key =? 33)%nat then err Secp256k1
     else
       public_key ← ok_or (RuntimeErr Secp256k1) (secp256k1_public_key public_key);
       signature ← ok_or (RuntimeErr Secp256k1) (secp256k1_signature_compact signature);
       message ← ok_or (RuntimeErr Secp256k1) (secp256k1_message message);
       con (ConBoolean (secp256k1_verify_ecdsa message signature public_key))).

Definition call_VerifySchnorrSecp256k1Signature (args : list Value) : Call :=
  public_key ← arg args 0 ≫= unwrap_byte_string;
  message ← arg args 1 ≫= unwrap_byte_string;
  signature ← arg args 2 ≫= unwrap_byte_string;
  priced VerifySchnorrSecp256k1Signature [bytes_size public_key; bytes_size message; bytes_size signature]
    (public_key ← ok_or (RuntimeErr Secp256k1) (secp256k1_xonly_public_key public_key);
     signature ← ok_or (RuntimeErr Secp256k1) (secp256k1_schnorr_signature signature);
     con (ConBoolean (secp256k1_verify_schnorr signature message public_key))).

(** *** Control *)

Definition call_IfThenElse (args : list Value) : Call :=
  arg1 ← arg args 0 ≫= unwrap_bool;
  arg2 ← arg args 1;
  arg3 ← arg args 2;
  priced IfThenElse [1; machine_value_size arg2; machine_value_size arg3]
    (if (arg1 : bool) then Ok (arg2, []) else Ok (arg3, [])).

Definition call_ChooseUnit (args : list Value) : Call :=
  _ ← arg args 0 ≫= unwrap_unit;
  arg2 ← arg args 1;
  priced ChooseUnit [1; machine_value_size arg2] (Ok (arg2, [])).

Definition call_Trace (args : list Value) : Call :=
  arg1 ← arg args 0 ≫= unwrap_string;
  arg2 ← arg args 1;
  priced Trace [str_size arg1; machine_value_size arg2] (Ok (arg2, [arg1])).

(** *** Pairs, lists and arrays *)

Definition call_FstPair (args : list Value) : Call :=
  '(_, _, first, second) ← arg args 0 ≫= unwrap_pair;
  priced FstPair [constant_size first + constant_size second] (con first).

Definition call_SndPair (args : list Value) : Call :=
  '(_, _, first, second) ← arg args 0 ≫= unwrap_pair;
  priced SndPair [constant_size first + constant_size second] (con second).

Definition call_ChooseList (args : list Value) : Call :=
  '(_, list) ← arg args 0 ≫= unwrap_list;
  arg2 ← arg args 1;
  arg3 ← arg args 2;
  priced ChooseList [list_size list; machine_value_size arg2; machine_value_size arg3]
    (match list with [] => Ok (arg2, []) | _ => Ok (arg3, []) end).

Definition call_MkCons (args : list Value) : Call :=
  item ← arg args 0 ≫= unwrap_constant;
  '(typ, list) ← arg args 1 ≫= unwrap_list;
  priced MkCons [constant_size item; list_size list]
    (if negb (bool_decide (type_of item = typ)) then err (MkConsTypeMismatch item)
     else con (ConProtoList typ (item :: list))).

Definition call_HeadList (args : list Value) : Call :=
  '(_, list) ← arg args 0 ≫= unwrap_list;
  priced HeadList [list_size list]
    (match list with [] => err (EmptyList list) | first :: _ => con first end).

Definition call_TailList (args : list Value) : Call :=
  '(t1, list) ← arg args 0 ≫= unwrap_list;
  priced TailList [list_size list]
    (match list with [] => err (EmptyList list) | _ :: tail => con (ConProtoList t1 tail) end).

Definition call_NullList (args : list Value) : Call :=
  '(_, list) ← arg args 0 ≫= unwrap_list;
  priced NullList [list_size list] (con (ConBoolean (match list with [] => true | _ => false end))).

Definition call_DropList (args : list Value) : Call :=
  elements_to_drop ← arg args 0 ≫= unwrap_integer;
  '(list_type, list) ← arg args 1 ≫= unwrap_list;
  let arg0 := if unsigned_abs elements_to_drop <=? i64_max then unsigned_abs elements_to_drop else i64_max in
  priced DropList [arg0; list_size list]
    (if is_negative elements_to_drop then con (ConProtoList list_type list)
     else
       let len := Z.of_nat (length list) in
       let elements_to_drop_usize := if is_greater_than elements_to_drop usize_max then len else elements_to_drop in
       con (ConProtoList list_type (drop (Z.to_nat (Z.min elements_to_drop_usize len)) list))).

Definition call_LengthOfArray (args : list Value) : Call :=
  '(_, array) ← arg args 0 ≫= unwrap_array;
  priced LengthOfArray [list_size array] (con (ConInteger (Z.of_nat (length array)))).

Definition call_ListToArray (args : list Value) : Call :=
  '(list_type, list) ← arg args 0 ≫= unwrap_list;
  priced ListToArray [list_size list] (con (ConProtoArray list_type list)).

Definition call_IndexArray (args : list Value) : Call :=
  '(_, array) ← arg args 0 ≫= unwrap_array;
  arg1 ← arg args 1 ≫= unwrap_integer;
  priced IndexArray [list_size array; integer_size arg1]
    (match slice_get array arg1 with
     | Some element => con element
     | None => err (IndexArrayOutOfBounds arg1 (Z.of_nat (length array)))
     end).

(** *** Data *)

Definition call_ChooseData (args : list Value) : Call :=
  arg1 ← arg args 0 ≫= unwrap_data;
  arg2 ← arg args 1; arg3 ← arg args 2; arg4 ← arg args 3; arg5 ← arg args 4; arg6 ← arg args 5;
  priced ChooseData [data_size arg1; machine_value_size arg2; machine_value_size arg3;
                     machine_value_size arg4; machine_value_size arg5; machine_value_size arg6]
    (match arg1 with
     | DConstr _ _ => Ok (arg2, [])
     | DMap _ => Ok (arg3, [])
     | DList _ => Ok (arg4, [])
     | DInteger _ => Ok (arg5, [])
     | DByteString _ => Ok (arg6, [])
     end).

Definition call_ConstrData (args : list Value) : Call :=
  tag ← arg args 0 ≫= unwrap_integer;
  arg2 ← arg args 1;
  '(typ, fields) ← unwrap_list arg2;
  priced ConstrData [integer_size tag; list_size fields]
    (if negb (bool_decide (typ = TyData)) then c ← unwrap_constant arg2; err (TypeMismatch TyData c)
     else if negb ((0 <=? tag) && (tag <=? u64_max)) then err (ConstrTagOutOfBounds tag)
     else fields ← expect_data fields; con (ConData (DConstr tag fields))).

Definition call_MapData (args : list Value) : Call :=
  arg1 ← arg args 0;
  '(type, list) ← unwrap_list arg1;
  if negb (bool_decide (type = pair_data_type))
  then c ← unwrap_constant arg1; err (TypeMismatch (TyList pair_data_type) c)
  else priced MapData [list_size list] (map ← expect_data_pairs list; con (ConData (DMap map))).

Definition call_ListData (args : list Value) : Call :=
  arg1 ← arg args 0;
  '(typ, fields) ← unwrap_list arg1;
  priced ListData [list_size fields]
    (if negb (bool_decide (typ = TyData)) then c ← unwrap_constant arg1; err (TypeMismatch TyData c)
     else fields ← expect_data fields; con (ConData (DList fields))).

Definition call_IData (args : list Value) : Call :=
  i ← arg args 0 ≫= unwrap_integer;
  priced IData [integer_size i] (con (ConData (DInteger i))).
Definition call_BData (args : list Value) : Call :=
  b ← arg args 0 ≫= unwrap_byte_string;
  priced BData [bytes_size b] (con (ConData (DByteString b))).

Definition call_UnConstrData (args : list Value) : Call :=
  data ← arg args 0 ≫= unwrap_data;
  '(tag, fields) ← data_unwrap_constr data;
  priced UnConstrData [data_size data]
    (con (ConProtoPair TyInteger (TyList TyData) (ConInteger tag) (ConProtoList TyData (map ConData fields)))).

Definition call_UnMapData (args : list Value) : Call :=
  data ← arg args 0 ≫= unwrap_data;
  map_ ← data_unwrap_map data;
  priced UnMapData [data_size data]
    (con (ConProtoList pair_data_type
      (map (λ '(k, v), ConProtoPair TyData TyData (ConData k) (ConData v)) map_))).

Definition call_UnListData (args : list Value) : Call :=
  data ← arg args 0 ≫= unwrap_data;
  list ← data_unwrap_list data;
  priced UnListData [data_size data] (con (ConProtoList TyData (map ConData list))).

Definition call_UnIData (args : list Value) : Call :=
  data ← arg args 0 ≫= unwrap_data;
  i ← data_unwrap_integer data;
  priced UnIData [data_size data] (con (ConInteger i)).

Definition call_UnBData (args : list Value) : Call :=
  data ← arg args 0 ≫= unwrap_data;
  bs ← data_unwrap_byte_string data;
  priced UnBData [data_size data] (con (ConByteString bs)).

Definition call_EqualsData (args : list Value) : Call :=
  d1 ← arg args 0 ≫= unwrap_data;
  d2 ← arg args 1 ≫= unwrap_data;
  priced EqualsData [data_size d1; data_size d2] (con (ConBoolean (data_eqb d1 d2))).

Definition call_SerialiseData (args : list Value) : Call :=
  arg1 ← arg args 0 ≫= unwrap_data;
  priced SerialiseData [data_size arg1]
    (bytes ← map_err (λ _, RuntimeErr (SerializationError arg1)) (encode_data arg1); con (ConByteString bytes)).

Definition call_MkPairData (args : list Value) : Call :=
  d1 ← arg args 0 ≫= unwrap_data;
  d2 ← arg args 1 ≫= unwrap_data;
  priced MkPairData [data_size d1; data_size d2]
    (con (ConProtoPair TyData TyData (ConData d1) (ConData d2))).

Definition call_MkNilData (args : list Value) : Call :=
  _ ← arg args 0 ≫= unwrap_unit;
  priced MkNilData [1] (con (ConProtoList TyData [])).
Definition call_MkNilPairData (args : list Value) : Call :=
  _ ← arg args 0 ≫= unwrap_unit;
  priced MkNilPairData [1] (con (ConProtoList pair_data_type [])).

(** *** Conversions between integers and byte strings *)

Definition exmem (size : Z) : Z := if size =? 0 then 0 else (size - 1) / 8 + 1.

Definition integer_to_byte_string (endianness : bool) (size input : Z) : M (list Z) :=
  if is_zero size && (8 * MAX_BYTE_STRING_OUTPUT_LENGTH <=? integer_log2 input)
  then err (IntegerToByteStringSizeTooBig (integer_log2 input / 8 + 1) MAX_BYTE_STRING_OUTPUT_LENGTH)
  else
    match to_bytes_in input endianness with
    | None => err (IntegerToByteStringNegativeInput input)
    | Some bytes =>
        if is_zero input then Ok (replicate (Z.to_nat size) 0)
        else if negb (is_zero size) && (size <? Z.of_nat (length bytes))
        then err (IntegerToByteStringSizeTooSmall size (Z.of_nat (length bytes)))
        else if 0 <? size then
          if size <? Z.of_nat (length bytes) then Panic
          else
            let padding := replicate (Z.to_nat size - length bytes) 0 in
            Ok (if endianness then padding ++ bytes else bytes ++ padding)
        else Ok bytes
    end.

Definition call_IntegerToByteString (args : list Value) : Call :=
  endianness ← arg args 0 ≫= unwrap_bool;
  size ← arg args 1 ≫= unwrap_integer;
  input ← arg args 2 ≫= unwrap_integer;
  if is_negative size then err (IntegerToByteStringNegativeSize size)
  else if is_greater_than size MAX_BYTE_STRING_OUTPUT_LENGTH
  then err (IntegerToByteStringSizeTooBig size MAX_BYTE_STRING_OUTPUT_LENGTH)
  else
    priced IntegerToByteString [1; exmem size; integer_size input]
      (bytes ← integer_to_byte_string endianness size input; con (ConByteString bytes)).

Definition call_ByteStringToInteger (args : list Value) : Call :=
  endianness ← arg args 0 ≫= unwrap_bool;
  bytes ← arg args 1 ≫= unwrap_byte_string;
  priced ByteStringToInteger [1; bytes_size bytes]
    (con (ConInteger (if (endianness : bool) then from_be_bytes bytes else from_le_bytes bytes))).

(** *** Bitwise operations *)

(** The loop of the padded variants: missing bytes are [fill]. *)
Definition bitwise (op : Z → Z → Z) (fill : Z) (should_pad : bool) (left_bytes right_bytes : list Z) : list Z :=
  if should_pad then
    map (λ i, op (default fill (left_bytes !! i)) (default fill (right_bytes !! i)))
      (seq 0 (Nat.max (length left_bytes) (length right_bytes)))
  else zip_with op left_bytes right_bytes.

Definition call_AndByteString (args : list Value) : Call :=
  should_pad ← arg args 0 ≫= unwrap_bool;
  left_bytes ← arg args 1 ≫= unwrap_byte_string;
  right_bytes ← arg args 2 ≫= unwrap_byte_string;
  priced AndByteString [1; bytes_size left_bytes; bytes_size right_bytes]
    (con (ConByteString (bitwise Z.land 255 should_pad left_bytes right_bytes))).
Definition call_OrByteString (args : list Value) : Call :=
  should_pad ← arg args 0 ≫= unwrap_bool;
  left_bytes ← arg args 1 ≫= unwrap_byte_string;
  right_bytes ← arg args 2 ≫= unwrap_byte_string;
  priced OrByteString [1; bytes_size left_bytes; bytes_size right_bytes]
    (con (ConByteString (bitwise Z.lor 0 should_pad left_bytes right_bytes))).
Definition call_XorByteString (args : list Value) : Call :=
  should_pad ← arg args 0 ≫= unwrap_bool;
  left_bytes ← arg args 1 ≫= unwrap_byte_string;
  right_bytes ← arg args 2 ≫= unwrap_byte_string;
  priced XorByteString [1; bytes_size left_bytes; bytes_size right_bytes]
    (con (ConByteString (bitwise Z.lxor 0 should_pad left_bytes right_bytes))).
Definition call_ComplementByteString (args : list Value) : Call :=
  bytes ← arg args 0 ≫= unwrap_byte_string;
  priced ComplementByteString [bytes_size bytes] (con (ConByteString (map (λ b, Z.lxor b 255) bytes))).

(** Bit [bit_index] counts from the last byte, least significant bit first. *)
Definition flipped_index (bytes : list Z) (byte_index : Z) : M nat :=
  let flipped := Z.of_nat (length bytes) - 1 - byte_index in
  if flipped <? 0 then Panic else Ok (Z.to_nat flipped).

Definition read_bit (bytes : list Z) (bit_index : Z) : M bool :=
  let bits := 8 * Z.of_nat (length bytes) in
  if (length bytes =? 0)%nat then err EmptyByteArray
  else if is_negative bit_index || (bits <=? bit_index) then err (ReadBitOutOfBounds bit_index bits)
  else
    let '(byte_index, bit_offset) := div_rem bit_index 8 in
    flipped ← flipped_index bytes byte_index;
    byte ← index bytes flipped;
    shifted ← u8_shr byte bit_offset;
    Ok (Z.land shifted 1 =? 1).

Definition call_ReadBit (args : list Value) : Call :=
  bytes ← arg args 0 ≫= unwrap_byte_string;
  bit_index ← arg args 1 ≫= unwrap_integer;
  priced ReadBit [bytes_size bytes; integer_size bit_index]
    (b ← read_bit bytes bit_index; con (ConBoolean b)).

Definition WRITE_BITS_MAXIMUM_INPUT_LENGTH : Z := 4096.

Definition write_bit (set_bit : bool) (bytes : list Z) (index_ : Constant) : M (list Z) :=
  match index_ with
  | ConInteger bit_index =>
      let bits := 8 * Z.of_nat (length bytes) in
      if is_negative bit_index || (bits <=? bit_index) then err (WriteBitsOutOfBounds bit_index bits)
      else
        let '(byte_index, bit_offset) := div_rem bit_index 8 in
        flipped ← flipped_index bytes byte_index;
        bit_mask ← u8_shl 1 bit_offset;
        byte ← index bytes flipped;
        index_set bytes flipped
          (if set_bit then Z.lor byte bit_mask else Z.land byte (Z.lxor bit_mask 255))
  | _ => Panic
  end.

Definition call_WriteBits (args : list Value) : Call :=
  original_bytes ← arg args 0 ≫= unwrap_byte_string;
  indices ← arg args 1 ≫= unwrap_int_list;
  set_bit ← arg args 2 ≫= unwrap_bool;
  priced WriteBits [bytes_size original_bytes; list_size indices; 1]
    (let len := Z.of_nat (length original_bytes) in
     if bounds_write_bits_input_length (semantics costs) && (WRITE_BITS_MAXIMUM_INPUT_LENGTH <? len)
     then err (WriteBitsInputTooLong len WRITE_BITS_MAXIMUM_INPUT_LENGTH)
     else bytes ← for_in indices (write_bit set_bit) original_bytes; con (ConByteString bytes)).

Definition call_ReplicateByte (args : list Value) : Call :=
  size ← arg args 0 ≫= unwrap_integer;
  byte ← arg args 1 ≫= unwrap_integer;
  if is_negative size then err (ReplicateByteNegativeSize size)
  else if is_greater_than size MAX_BYTE_STRING_OUTPUT_LENGTH
  then err (ReplicateByteSizeTooBig size MAX_BYTE_STRING_OUTPUT_LENGTH)
  else
    priced ReplicateByte [exmem size; integer_size byte]
      (if is_zero size && (8 * MAX_BYTE_STRING_OUTPUT_LENGTH <=? integer_log2 byte)
       then err (ReplicateByteSizeTooBig (integer_log2 byte / 8 + 1) MAX_BYTE_STRING_OUTPUT_LENGTH)
       else if is_negative byte then err (ReplicateByteNegativeInput byte)
       else if negb (byte <=? u8_max) then err (OutsideByteBounds byte)
       else con (ConByteString (replicate (Z.to_nat size) byte))).

(** [dst[at..at + src.len()].copy_from_slice(src)]. *)
Definition copy_at (dst : list Z) (at_ : nat) (src : list Z) : M (list Z) :=
  if (at_ + length src <=? length dst)%nat
  then Ok (take at_ dst ++ src ++ drop (at_ + length src) dst) else Panic.

Definition shift_left (bytes : list Z) (byte_shift : nat) (bit_shift : Z) : M (list Z) :=
  let len := length bytes in
  let result := replicate len 0 in
  if bit_shift =? 0 then copy_at result 0 (drop byte_shift bytes)
  else
    let complement_shift := 8 - bit_shift in
    for_in (seq 0 (len - byte_shift)) (λ result i,
      let src_idx := (i + byte_shift)%nat in
      src ← index bytes src_idx;
      high ← u8_shl src bit_shift;
      byte ← (if (src_idx + 1 <? len)%nat
              then next ← index bytes (src_idx + 1); low ← u8_shr next complement_shift; Ok (Z.lor high low)
              else Ok high);
      index_set result i byte) result.

Definition shift_right (bytes : list Z) (byte_shift : nat) (bit_shift : Z) : M (list Z) :=
  let len := length bytes in
  let result := replicate len 0 in
  if bit_shift =? 0 then copy_at result byte_shift (take (len - byte_shift) bytes)
  else
    let complement_shift := 8 - bit_shift in
    for_in (seq 0 (len - byte_shift)) (λ result i,
      let dst_idx := (byte_shift + i)%nat in
      src ← index bytes i;
      low ← u8_shr src bit_shift;
      byte ← (if (0 <? i)%nat
              then prev ← index bytes (i - 1); high ← u8_shl prev complement_shift; Ok (Z.lor low high)
              else Ok low);
      index_set result dst_idx byte) result.

Definition shift_byte_string (bytes : list Z) (shift : Z) : M (list Z) :=
  let len := Z.of_nat (length bytes) in
  let shift_abs := unsigned_abs shift in
  if len * 8 <=? shift_abs then Ok (replicate (length bytes) 0)
  else
    let byte_shift := Z.to_nat (shift_abs / 8) in
    let bit_shift := shift_abs mod 8 in
    if negb (is_negative shift) then shift_left bytes byte_shift bit_shift
    else shift_right bytes byte_shift bit_shift.

Definition call_ShiftByteString (args : list Value) : Call :=
  bytes ← arg args 0 ≫= unwrap_byte_string;
  shift ← arg args 1 ≫= unwrap_integer;
  arg1 ← shift_amount_cost shift;
  priced ShiftByteString [bytes_size bytes; arg1]
    (result ← shift_byte_string bytes shift; con (ConByteString result)).

Definition rotate_byte_string (bytes : list Z) (shift : Z) : M (list Z) :=
  let len := length bytes in
  if (len =? 0)%nat then Ok bytes
  else
    let shift := unsigned_abs (rem_euclid shift (Z.of_nat len * 8)) in
    if shift =? 0 then Ok bytes
    else
      let byte_shift := Z.to_nat (shift / 8) in
      let bit_shift := shift mod 8 in
      if bit_shift =? 0 then
        result ← copy_at bytes 0 (drop byte_shift bytes);
        copy_at result (len - byte_shift) (take byte_shift bytes)
      else
        let complement_shift := 8 - bit_shift in
        first ← index bytes 0;
        wraparound_bits ← u8_shr first complement_shift;
        result ← for_in (seq 0 (len - byte_shift)) (λ result i,
          let src_idx := (i + byte_shift)%nat in
          src ← index bytes src_idx;
          high ← u8_shl src bit_shift;
          low ← (if (src_idx + 1 <? len)%nat
                 then next ← index bytes (src_idx + 1); u8_shr next complement_shift
                 else if (0 <? byte_shift)%nat then first ← index bytes 0; u8_shr first complement_shift
                 else Ok wraparound_bits);
          index_set result i (Z.lor high low)) bytes;
        for_in (seq 0 byte_shift) (λ result i,
          let dst_idx := (len - byte_shift + i)%nat in
          src ← index bytes i;
          high ← u8_shl src bit_shift;
          low ← (if (i + 1 <? byte_shift)%nat then next ← index bytes (i + 1); u8_shr next complement_shift
                 else next ← index bytes byte_shift; u8_shr next complement_shift);
          index_set result dst_idx (Z.lor high low)) result.

Definition call_RotateByteString (args : list Value) : Call :=
  bytes ← arg args 0 ≫= unwrap_byte_string;
  shift ← arg args 1 ≫= unwrap_integer;
  arg1 ← shift_amount_cost shift;
  priced RotateByteString [bytes_size bytes; arg1]
    (result ← rotate_byte_string bytes shift; con (ConByteString result)).

Definition call_CountSetBits (args : list Value) : Call :=
  bytes ← arg args 0 ≫= unwrap_byte_string;
  priced CountSetBits [bytes_size bytes] (con (ConInteger (hamming_weight bytes))).

(** [u8::reverse_bits] and [u8::leading_zeros]. *)
Definition reverse_bits (byte : Z) : Z := bits_val (reverse (byte_bits byte)).
Definition leading_zeros (byte : Z) : Z := if byte =? 0 then 8 else 7 - Z.log2 byte.

Fixpoint find_first_set_bit_from (byte_index : Z) (rev_bytes : list Z) : option Z :=
  match rev_bytes with
  | [] => None
  | byte :: rev_bytes =>
      let reversed_byte := reverse_bits byte in
      if reversed_byte =? 0 then find_first_set_bit_from (byte_index + 1) rev_bytes
      else Some (leading_zeros reversed_byte + byte_index * 8)
  end.
Definition find_first_set_bit (bytes : list Z) : Z := default (-1) (find_first_set_bit_from 0 (reverse bytes)).

Definition call_FindFirstSetBit (args : list Value) : Call :=
  bytes ← arg args 0 ≫= unwrap_byte_string;
  priced FindFirstSetBit [bytes_size bytes] (con (ConInteger (find_first_set_bit bytes))).

(** *** BLS12-381 *)

Definition SCALAR_PERIOD : Z := 0x73eda753299d7d483339d80809a1d80553bda402fffe5bfeffffffff00000001.
Definition BLST_P1_COMPRESSED_SIZE : nat := 48.
Definition BLST_P2_COMPRESSED_SIZE : nat := 96.
Definition size_scalar : nat := 32.

(** [Compressable::uncompress]. *)
Definition g1_uncompress (bytes : list Z) : M (list Z) :=
  if negb (length bytes =? BLST_P1_COMPRESSED_SIZE)%nat then err Bls
  else
    out ← ok_or (RuntimeErr Bls) (p1_uncompress bytes);
    if negb (p1_in_g1 out) then err Bls else Ok out.
Definition g2_uncompress (bytes : list Z) : M (list Z) :=
  if negb (length bytes =? BLST_P2_COMPRESSED_SIZE)%nat then err Bls
  else
    out ← ok_or (RuntimeErr Bls) (p2_uncompress bytes);
    if negb (p2_in_g2 out) then err Bls else Ok out.

(** A scalar reduced modulo the period, big-endian, left-padded; the copy panics
    when the scalar is wider than the buffer. *)
Definition padded_scalar (i : Z) : M (list Z) :=
  let be_bytes := rem_euclid_bytes i SCALAR_PERIOD in
  if (size_scalar <? length be_bytes)%nat then Panic
  else Ok (replicate (size_scalar - length be_bytes) 0 ++ be_bytes).

Definition call_Bls12_381_G1_Add (args : list Value) : Call :=
  arg1 ← arg args 0 ≫= unwrap_bls12_381_g1_element;
  arg2 ← arg args 1 ≫= unwrap_bls12_381_g1_element;
  priced Bls12_381_G1_Add [g1_size; g1_size] (con (ConBls12_381G1Element (p1_add_or_double arg1 arg2))).
Definition call_Bls12_381_G1_Neg (args : list Value) : Call :=
  arg1 ← arg args 0 ≫= unwrap_bls12_381_g1_element;
  priced Bls12_381_G1_Neg [g1_size] (con (ConBls12_381G1Element (p1_cneg arg1))).
Definition call_Bls12_381_G1_ScalarMul (args : list Value) : Call :=
  arg1 ← arg args 0 ≫= unwrap_integer;
  arg2 ← arg args 1 ≫= unwrap_bls12_381_g1_element;
  priced Bls12_381_G1_ScalarMul [integer_size arg1; g1_size]
    (padded ← padded_scalar arg1;
     con (ConBls12_381G1Element (p1_mult arg2 (scalar_from_bendian padded) (Z.of_nat size_scalar * 8)))).
Definition call_Bls12_381_G1_Equal (args : list Value) : Call :=
  arg1 ← arg args 0 ≫= unwrap_bls12_381_g1_element;
  arg2 ← arg args 1 ≫= unwrap_bls12_381_g1_element;
  priced Bls12_381_G1_Equal [g1_size; g1_size] (con (ConBoolean (p1_is_equal arg1 arg2))).
Definition call_Bls12_381_G1_Compress (args : list Value) : Call :=
  arg1 ← arg args 0 ≫= unwrap_bls12_381_g1_element;
  priced Bls12_381_G1_Compress [g1_size] (con (ConByteString (p1_compress arg1))).
Definition call_Bls12_381_G1_Uncompress (args : list Value) : Call :=
  arg1 ← arg args 0 ≫= unwrap_byte_string;
  priced Bls12_381_G1_Uncompress [bytes_size arg1] (out ← g1_uncompress arg1; con (ConBls12_381G1Element out)).
Definition call_Bls12_381_G1_HashToGroup (args : list Value) : Call :=
  arg1 ← arg args 0 ≫= unwrap_byte_string;
  arg2 ← arg args 1 ≫= unwrap_byte_string;
  priced Bls12_381_G1_HashToGroup [bytes_size arg1; bytes_size arg2]
    (if (255 <? length arg2)%nat then err HashToCurveDstTooBig
     else con (ConBls12_381G1Element (hash_to_g1 arg1 arg2))).

Definition call_Bls12_381_G2_Add (args : list Value) : Call :=
  arg1 ← arg args 0 ≫= unwrap_bls12_381_g2_element;
  arg2 ← arg args 1 ≫= unwrap_bls12_381_g2_element;
  priced Bls12_381_G2_Add [g2_size; g2_size] (con (ConBls12_381G2Element (p2_add_or_double arg1 arg2))).
Definition call_Bls12_381_G2_Neg (args : list Value) : Call :=
  arg1 ← arg args 0 ≫= unwrap_bls12_381_g2_element;
  priced Bls12_381_G2_Neg [g2_size] (con (ConBls12_381G2Element (p2_cneg arg1))).
Definition call_Bls12_381_G2_ScalarMul (args : list Value) : Call :=
  arg1 ← arg args 0 ≫= unwrap_integer;
  arg2 ← arg args 1 ≫= unwrap_bls12_381_g2_element;
  priced Bls12_381_G2_ScalarMul [integer_size arg1; g2_size]
    (padded ← padded_scalar arg1;
     con (ConBls12_381G2Element (p2_mult arg2 (scalar_from_bendian padded) (Z.of_nat size_scalar * 8)))).
Definition call_Bls12_381_G2_Equal (args : list Value) : Call :=
  arg1 ← arg args 0 ≫= unwrap_bls12_381_g2_element;
  arg2 ← arg args 1 ≫= unwrap_bls12_381_g2_element;
  priced Bls12_381_G2_Equal [g2_size; g2_size] (con (ConBoolean (p2_is_equal arg1 arg2))).
Definition call_Bls12_381_G2_Compress (args : list Value) : Call :=
  arg1 ← arg args 0 ≫= unwrap_bls12_381_g2_element;
  priced Bls12_381_G2_Compress [g2_size] (con (ConByteString (p2_compress arg1))).
Definition call_Bls12_381_G2_Uncompress (args : list Value) : Call :=
  arg1 ← arg args 0 ≫= unwrap_byte_string;
  priced Bls12_381_G2_Uncompress [bytes_size arg1] (out ← g2_uncompress arg1; con (ConBls12_381G2Element out)).
Definition call_Bls12_381_G2_HashToGroup (args : list Value) : Call :=
  arg1 ← arg args 0 ≫= unwrap_byte_string;
  arg2 ← arg args 1 ≫= unwrap_byte_string;
  priced Bls12_381_G2_HashToGroup [bytes_size arg1; bytes_size arg2]
    (if (255 <? length arg2)%nat then err HashToCurveDstTooBig
     else con (ConBls12_381G2Element (hash_to_g2 arg1 arg2))).

Definition call_Bls12_381_MillerLoop (args : list Value) : Call :=
  arg1 ← arg args 0 ≫= unwrap_bls12_381_g1_element;
  arg2 ← arg args 1 ≫= unwrap_bls12_381_g2_element;
  priced Bls12_381_MillerLoop [g1_size; g2_size] (con (ConBls12_381MlResult (miller_loop arg2 arg1))).
Definition call_Bls12_381_MulMlResult (args : list Value) : Call :=
  arg1 ← arg args 0 ≫= unwrap_bls12_381_ml_result;
  arg2 ← arg args 1 ≫= unwrap_bls12_381_ml_result;
  priced Bls12_381_MulMlResult [ml_result_size; ml_result_size] (con (ConBls12_381MlResult (fp12_mul arg1 arg2))).
Definition call_Bls12_381_FinalVerify (args : list Value) : Call :=
  arg1 ← arg args 0 ≫= unwrap_bls12_381_ml_result;
  arg2 ← arg args 1 ≫= unwrap_bls12_381_ml_result;
  priced Bls12_381_FinalVerify [ml_result_size; ml_result_size] (con (ConBoolean (fp12_finalverify arg1 arg2))).

Definition check_multi_scalar_range (int : Z) : M () :=
  if fits_signed_range int 4095 then Ok () else err MultiScalarMulScalarOutOfBounds.

(** [prepare_msm_scalar]. *)
Definition prepare_msm_scalar (si : Z) (scalar_bytes : list Z) : M (list Z) :=
  padded ← padded_scalar si;
  Ok (scalar_bytes ++ scalar_from_bendian padded).

(** The body of the multi-scalar loops: the scalars and points collected so far,
    extended by one pair unless its point is the point at infinity. *)
Definition msm_step (point_type : Typ) (unwrap_point : Constant → option (list Z)) (is_inf : list Z → bool)
    (acc : list Z * list (list Z)) (pair : Constant * Constant) : M (list Z * list (list Z)) :=
  let '(scalar_bytes, proj_points) := acc in
  let '(scalar, point) := pair in
  match scalar with
  | ConInteger si =>
      match unwrap_point point with
      | Some pi =>
          _ ← check_multi_scalar_range si;
          if is_inf pi then Ok (scalar_bytes, proj_points)
          else scalar_bytes ← prepare_msm_scalar si scalar_bytes; Ok (scalar_bytes, proj_points ++ [pi])
      | None => err (TypeMismatch point_type point)
      end
  | _ => err (TypeMismatch TyInteger scalar)
  end.
Definition g1_point (c : Constant) : option (list Z) :=
  match c with ConBls12_381G1Element p => Some p | _ => None end.
Definition g2_point (c : Constant) : option (list Z) :=
  match c with ConBls12_381G2Element p => Some p | _ => None end.

Definition call_Bls12_381_G1_MultiScalarMul (args : list Value) : Call :=
  '(_, scalars) ← arg args 0 ≫= unwrap_list;
  '(_, points) ← arg args 1 ≫= unwrap_list;
  priced Bls12_381_G1_MultiScalarMul [list_size scalars; list_size points]
    ('(scalar_bytes, proj_points) ←
       for_in (zip scalars points) (msm_step TyBls12_381G1Element g1_point p1_is_inf) ([], []);
     out ← (match proj_points with
            | [] => g1_uncompress (0xc0 :: replicate 47 0)
            | _ => Ok (p1_affines_mult proj_points scalar_bytes (Z.of_nat size_scalar * 8))
            end);
     con (ConBls12_381G1Element out)).

(** The second group walks both lists by index. *)
Definition call_Bls12_381_G2_MultiScalarMul (args : list Value) : Call :=
  '(_, scalars) ← arg args 0 ≫= unwrap_list;
  '(_, points) ← arg args 1 ≫= unwrap_list;
  priced Bls12_381_G2_MultiScalarMul [list_size scalars; list_size points]
    ('(scalar_bytes, proj_points) ←
       for_in (seq 0 (Nat.min (length scalars) (length points))) (λ acc i,
         scalar ← index scalars i;
         match scalar with
         | ConInteger _ =>
             point ← index points i;
             msm_step TyBls12_381G2Element g2_point p2_is_inf acc (scalar, point)
         | _ => err (TypeMismatch TyInteger scalar)
         end) ([], []);
     out ← (match proj_points with
            | [] => g2_uncompress (0xc0 :: replicate 95 0)
            | _ => Ok (p2_affines_mult proj_points scalar_bytes (Z.of_nat size_scalar * 8))
            end);
     con (ConBls12_381G2Element out)).

(** *** Ledger values *)

Definition value_result {A} (m : exec ValueError A) : M A := map_err (λ e, RuntimeErr (RuntimeValue e)) m.

Definition call_InsertCoin (args : list Value) : Call :=
  ccy ← arg args 0 ≫= unwrap_byte_string;
  tok ← arg args 1 ≫= unwrap_byte_string;
  qty ← arg args 2 ≫= unwrap_integer;
  v ← arg args 3 ≫= unwrap_ledger_value;
  priced InsertCoin [bytes_size ccy; bytes_size tok; integer_size qty; ledger_value_size v]
    (_ ← (if negb (is_zero qty) then value_result (check_quantity_range qty) else Ok ());
     if (32 <? length ccy)%nat || (32 <? length tok)%nat then
       if is_zero qty then con (ConValue v)
       else err (RuntimeValue (if (32 <? length ccy)%nat then InsertCoinInvalidCurrency else InsertCoinInvalidToken))
     else con (ConValue (insert_coin ccy tok qty v))).

Definition call_LookupCoin (args : list Value) : Call :=
  ccy ← arg args 0 ≫= unwrap_byte_string;
  tok ← arg args 1 ≫= unwrap_byte_string;
  v ← arg args 2 ≫= unwrap_ledger_value;
  priced LookupCoin [bytes_size ccy; bytes_size tok; ledger_value_size v] (con (ConInteger (lookup_coin v ccy tok))).

Definition call_UnionValue (args : list Value) : Call :=
  v1 ← arg args 0 ≫= unwrap_ledger_value;
  v2 ← arg args 1 ≫= unwrap_ledger_value;
  priced UnionValue [value_size v1; value_size v2]
    (result ← value_result (union_value v1 v2); con (ConValue result)).

Definition call_ValueContains (args : list Value) : Call :=
  v1 ← arg args 0 ≫= unwrap_ledger_value;
  v2 ← arg args 1 ≫= unwrap_ledger_value;
  priced ValueContains [value_size v1; value_size v2]
    (result ← value_result (value_contains v1 v2); con (ConBoolean result)).

Definition call_ValueData (args : list Value) : Call :=
  v ← arg args 0 ≫= unwrap_ledger_value;
  priced ValueData [value_size v] (data ← value_result (value_data v); con (ConData data)).

Definition call_UnValueData (args : list Value) : Call :=
  data ← arg args 0 ≫= unwrap_data;
  nodes ← data_node_count data;
  priced UplcSyntax.UnValueData [nodes] (result ← value_result (un_value_data data); con (ConValue result)).

Definition call_ScaleValue (args : list Value) : Call :=
  scalar ← arg args 0 ≫= unwrap_integer;
  v ← arg args 1 ≫= unwrap_ledger_value;
  priced ScaleValue [integer_size scalar; value_size v]
    (result ← value_result (scale_value scalar v); con (ConValue result)).

(** [Machine::call]. *)
Definition builtin_call (fun_ : DefaultFunction) (args : list Value) : Call :=
  match fun_ with
  | AddInteger => call_AddInteger args
  | SubtractInteger => call_SubtractInteger args
  | MultiplyInteger => call_MultiplyInteger args
  | DivideInteger => call_DivideInteger args
  | QuotientInteger => call_QuotientInteger args
  | RemainderInteger => call_RemainderInteger args
  | ModInteger => call_ModInteger args
  | EqualsInteger => call_EqualsInteger args
  | LessThanInteger => call_LessThanInteger args
  | LessThanEqualsInteger => call_LessThanEqualsInteger args
  | AppendByteString => call_AppendByteString args
  | ConsByteString => call_ConsByteString args
  | SliceByteString => call_SliceByteString args
  | LengthOfByteString => call_LengthOfByteString args
  | IndexByteString => call_IndexByteString args
  | EqualsByteString => call_EqualsByteString args
  | LessThanByteString => call_LessThanByteString args
  | LessThanEqualsByteString => call_LessThanEqualsByteString args
  | Sha2_256 => call_Sha2_256 args
  | Sha3_256 => call_Sha3_256 args
  | Blake2b_256 => call_Blake2b_256 args
  | Keccak_256 => call_Keccak_256 args
  | Blake2b_224 => call_Blake2b_224 args
  | VerifyEd25519Signature => call_VerifyEd25519Signature args
  | VerifyEcdsaSecp256k1Signature => call_VerifyEcdsaSecp256k1Signature args
  | VerifySchnorrSecp256k1Signature => call_VerifySchnorrSecp256k1Signature args
  | AppendString => call_AppendString args
  | EqualsString => call_EqualsString args
  | EncodeUtf8 => call_EncodeUtf8 args
  | DecodeUtf8 => call_DecodeUtf8 args
  | IfThenElse => call_IfThenElse args
  | ChooseUnit => call_ChooseUnit args
  | Trace => call_Trace args
  | FstPair => call_FstPair args
  | SndPair => call_SndPair args
  | ChooseList => call_ChooseList args
  | MkCons => call_MkCons args
  | HeadList => call_HeadList args
  | TailList => call_TailList args
  | NullList => call_NullList args
  | ChooseData => call_ChooseData args
  | ConstrData => call_ConstrData args
  | MapData => call_MapData args
  | ListData => call_ListData args
  | IData => call_IData args
  | BData => call_BData args
  | UnConstrData => call_UnConstrData args
  | UnMapData => call_UnMapData args
  | UnListData => call_UnListData args
  | UnIData => call_UnIData args
  | UnBData => call_UnBData args
  | EqualsData => call_EqualsData args
  | SerialiseData => call_SerialiseData args
  | MkPairData => call_MkPairData args
  | MkNilData => call_MkNilData args
  | MkNilPairData => call_MkNilPairData args
  | Bls12_381_G1_Add => call_Bls12_381_G1_Add args
  | Bls12_381_G1_Neg => call_Bls12_381_G1_Neg args
  | Bls12_381_G1_ScalarMul => call_Bls12_381_G1_ScalarMul args
  | Bls12_381_G1_Equal => call_Bls12_381_G1_Equal args
  | Bls12_381_G1_Compress => call_Bls12_381_G1_Compress args
  | Bls12_381_G1_Uncompress => call_Bls12_381_G1_Uncompress args
  | Bls12_381_G1_HashToGroup => call_Bls12_381_G1_HashToGroup args
  | Bls12_381_G2_Add => call_Bls12_381_G2_Add args
  | Bls12_381_G2_Neg => call_Bls12_381_G2_Neg args
  | Bls12_381_G2_ScalarMul => call_Bls12_381_G2_ScalarMul args
  | Bls12_381_G2_Equal => call_Bls12_381_G2_Equal args
  | Bls12_381_G2_Compress => call_Bls12_381_G2_Compress args
  | Bls12_381_G2_Uncompress => call_Bls12_381_G2_Uncompress args
  | Bls12_381_G2_HashToGroup => call_Bls12_381_G2_HashToGroup args
  | Bls12_381_MillerLoop => call_Bls12_381_MillerLoop args
  | Bls12_381_MulMlResult => call_Bls12_381_MulMlResult args
  | Bls12_381_FinalVerify => call_Bls12_381_FinalVerify args
  | IntegerToByteString => call_IntegerToByteString args
  | ByteStringToInteger => call_ByteStringToInteger args
  | AndByteString => call_AndByteString args
  | OrByteString => call_OrByteString args
  | XorByteString => call_XorByteString args
  | ComplementByteString => call_ComplementByteString args
  | ReadBit => call_ReadBit args
  | WriteBits => call_WriteBits args
  | ReplicateByte => call_ReplicateByte args
  | ShiftByteString => call_ShiftByteString args
  | RotateByteString => call_RotateByteString args
  | CountSetBits => call_CountSetBits args
  | FindFirstSetBit => call_FindFirstSetBit args
  | Ripemd_160 => call_Ripemd_160 args
  | ExpModInteger => call_ExpModInteger args
  | DropList => call_DropList args
  | LengthOfArray => call_LengthOfArray args
  | ListToArray => call_ListToArray args
  | IndexArray => call_IndexArray args
  | Bls12_381_G1_MultiScalarMul => call_Bls12_381_G1_MultiScalarMul args
  | Bls12_381_G2_MultiScalarMul => call_Bls12_381_G2_MultiScalarMul args
  | InsertCoin => call_InsertCoin args
  | LookupCoin => call_LookupCoin args
  | UnionValue => call_UnionValue args
  | ValueContains => call_ValueContains args
  | ValueData => call_ValueData args
  | UplcSyntax.UnValueData => call_UnValueData args
  | ScaleValue => call_ScaleValue args
  end.
End Call.
