(* ===== verification/BuiltinBits.v ===== *)
(** * Bitwise builtins

    The byte-by-byte loops of [runtime.rs] (shifts, rotations, bit access) refine
    operations on the sequence of bits of a byte string, the most significant bit
    of the first byte first. *)

From S2P Require Import Prelude FlatBits UplcSyntax LedgerValue CekSyntax Integer Builtins.

(** Bit [i] of a byte string, clear outside of it. *)
Definition bit (bytes : list Z) (i : Z) : bool :=
  if 0 <=? i then Z.testbit (nth (Z.to_nat (i / 8)) bytes 0) (7 - i mod 8) else false.

Definition bit_len (bytes : list Z) : Z := 8 * Z.of_nat (length bytes).

Lemma bit_outside bytes i : ¬ (0 <= i < bit_len bytes) → bit bytes i = false.
Proof.
  unfold bit, bit_len. intros Hi. case_bool; [|done]. rewrite nth_overflow, Z.testbit_0_l; [done|].
  assert (Z.of_nat (length bytes) <= i / 8) by (apply Z.div_le_lower_bound; lia). lia.
Qed.

Lemma bit_split bytes i : 0 <= i → ∃ q p, i = 8 * Z.of_nat q + p ∧ 0 <= p < 8 ∧
  bit bytes i = Z.testbit (nth q bytes 0) (7 - p).
Proof.
  intros Hi. exists (Z.to_nat (i / 8)), (i mod 8). pose proof (Z.div_mod i 8 ltac:(lia)).
  pose proof (Z.mod_pos_bound i 8 ltac:(lia)). assert (0 <= i / 8) by (apply Z.div_pos; lia).
  split; [lia|]. split; [done|]. unfold bit. case_bool; [done|lia].
Qed.

Lemma bit_at bytes q p : 0 <= p < 8 → bit bytes (8 * Z.of_nat q + p) = Z.testbit (nth q bytes 0) (7 - p).
Proof.
  intros Hp. unfold bit. case_bool; [|lia].
  assert ((8 * Z.of_nat q + p) / 8 = Z.of_nat q) as -> by (symmetry; apply Z.div_unique with p; lia).
  assert ((8 * Z.of_nat q + p) mod 8 = p) as -> by (symmetry; apply Z.mod_unique with (Z.of_nat q); lia).
  by rewrite Nat2Z.id.
Qed.

(** These are the bits of the reference semantics of the flat codec. *)
Lemma bit_bytes_bits bytes (i : nat) : (i < 8 * length bytes)%nat → bytes_bits bytes !! i = Some (bit bytes (Z.of_nat i)).
Proof.
  revert i. induction bytes as [|b bytes IH]; intros i Hi; cbn [length] in Hi; [lia|]. rewrite bytes_bits_cons.
  assert (length (byte_bits b) = 8%nat) as Hb by apply length_val_bits.
  destruct (decide (i < 8)%nat) as [Hlt|Hge].
  - rewrite lookup_app_l by lia. unfold byte_bits. rewrite val_bits_testbit by done. f_equal.
    replace (Z.of_nat i) with (8 * Z.of_nat 0 + Z.of_nat i) by lia. rewrite bit_at by lia. cbn [nth]. f_equal. lia.
  - rewrite lookup_app_r, Hb, IH by lia. f_equal.
    destruct (bit_split bytes (Z.of_nat (i - 8))) as (q & p & Hq & Hp & ->); [lia|].
    replace (Z.of_nat i) with (8 * Z.of_nat (S q) + p) by lia. by rewrite bit_at.
Qed.

(** ** Bytes that straddle two bytes *)

Definition mix (x y b : Z) : Z := Z.lor (Z.land (Z.shiftl x b) 255) (Z.shiftr y (8 - b)).

Lemma testbit_255 t : 0 <= t < 8 → Z.testbit 255 t = true.
Proof. intros H. change 255 with (Z.ones 8). by apply Z.ones_spec_low. Qed.

Lemma mix_bit x y b p : 0 <= b <= 8 → 0 <= p < 8 → is_byte y →
  Z.testbit (mix x y b) (7 - p) = if p + b <? 8 then Z.testbit x (7 - (p + b)) else Z.testbit y (15 - (p + b)).
Proof.
  intros Hb Hp Hy. unfold mix. rewrite Z.lor_spec, Z.land_spec, testbit_255, andb_true_r, Z.shiftr_spec by lia.
  rewrite Z.shiftl_spec by lia. case_bool.
  - rewrite (testbit_high y 8) by (unfold is_byte in Hy; lia). rewrite orb_false_r. f_equal. lia.
  - rewrite Z.testbit_neg_r by lia. cbn. f_equal. lia.
Qed.

Lemma byte_ones a : is_byte (Z.land a 255).
Proof. unfold is_byte. change 255 with (Z.ones 8). rewrite Z.land_ones by lia. apply Z.mod_pos_bound. lia. Qed.

Lemma byte_iff a : is_byte a ↔ Z.land a 255 = a.
Proof.
  split; [|intros <-; apply byte_ones]. unfold is_byte. intros H.
  change 255 with (Z.ones 8). rewrite Z.land_ones by lia. apply Z.mod_small. lia.
Qed.

Lemma byte_lor a b : is_byte a → is_byte b → is_byte (Z.lor a b).
Proof. rewrite !byte_iff. intros Ha Hb. by rewrite Z.land_lor_distr_l, Ha, Hb. Qed.

Lemma byte_land a b : is_byte a → is_byte (Z.land a b).
Proof. rewrite !byte_iff. intros Ha. rewrite (Z.land_comm a), <- Z.land_assoc, Ha. done. Qed.

Lemma byte_shiftr y n : 0 <= n → is_byte y → is_byte (Z.shiftr y n).
Proof.
  intros Hn [Hy1 Hy2]. unfold is_byte. rewrite Z.shiftr_div_pow2 by done. pose proof (Z.pow_pos_nonneg 2 n).
  split; [apply Z.div_pos; lia|]. apply Z.div_lt_upper_bound; nia.
Qed.

Lemma mix_byte x y b : 0 <= b <= 8 → is_byte y → is_byte (mix x y b).
Proof. intros Hb Hy. apply byte_lor; [apply byte_ones|apply byte_shiftr; [lia|done]]. Qed.

Lemma nth_byte bytes i : Forall is_byte bytes → is_byte (nth i bytes 0).
Proof.
  intros Hb. destruct (decide (i < length bytes)%nat); [|rewrite nth_overflow by lia; done].
  rewrite nth_lookup. destruct (lookup_lt_is_Some_2 bytes i) as [x Hx]; [done|]. rewrite Hx. by eapply Forall_lookup_1.
Qed.

(** A byte string made of bytes that straddle consecutive bytes of another has
    its bits, moved. *)
Lemma bit_mix bytes (k : nat) b p : 0 <= b <= 8 → 0 <= p < 8 → Forall is_byte bytes →
  Z.testbit (mix (nth k bytes 0) (nth (S k) bytes 0) b) (7 - p) = bit bytes (8 * Z.of_nat k + b + p).
Proof.
  intros Hb Hp Hbytes. rewrite mix_bit by (done || by apply nth_byte). case_bool.
  - replace (8 * Z.of_nat k + b + p) with (8 * Z.of_nat k + (p + b)) by lia. by rewrite bit_at by lia.
  - replace (8 * Z.of_nat k + b + p) with (8 * Z.of_nat (S k) + (p + b - 8)) by lia. rewrite bit_at by lia. f_equal. lia.
Qed.

(** ** Shifts *)

Lemma u8_shr_bits {E} a n : 0 <= n < 8 → u8_shr (E := E) a n = Ok (Z.shiftr a n).
Proof. intros H. unfold u8_shr. by rewrite (proj2 (Z.leb_le 0 n)), (proj2 (Z.ltb_lt n 8)) by lia. Qed.
Lemma u8_shl_bits {E} a n : 0 <= n < 8 → u8_shl (E := E) a n = Ok (Z.land (Z.shiftl a n) 255).
Proof. intros H. unfold u8_shl. by rewrite (proj2 (Z.leb_le 0 n)), (proj2 (Z.ltb_lt n 8)) by lia. Qed.
Lemma copy_at_Ok dst at_ src : (at_ + length src <= length dst)%nat →
  copy_at dst at_ src = Ok (take at_ dst ++ src ++ drop (at_ + length src) dst).
Proof. intros. unfold copy_at. case_bool; [done|lia]. Qed.

Lemma mix_0_r x b : mix x 0 b = Z.land (Z.shiftl x b) 255.
Proof. unfold mix. by rewrite Z.shiftr_0_l, Z.lor_0_r. Qed.
Lemma mix_8 x y : is_byte y → mix x y 8 = Z.lor (Z.land (Z.shiftl x 8) 255) y.
Proof. intros. unfold mix. by rewrite Z.sub_diag, Z.shiftr_0_r. Qed.

(** The byte loop of a left shift by [k] bytes and [b] bits. *)
Definition left_bytes (bytes : list Z) (k : nat) (b : Z) (n : nat) : list Z :=
  map (λ i, mix (nth (i + k) bytes 0) (nth (S (i + k)) bytes 0) b) (seq 0 n).

Lemma shift_left_loop bytes k b : 0 < b < 8 → (k <= length bytes)%nat →
  shift_left bytes k b = Ok (left_bytes bytes k b (length bytes - k) ++ replicate k 0).
Proof.
  intros Hb Hk. unfold shift_left. cbv zeta. case_bool; [lia|].
  rewrite (for_in_fill 0 _ (λ i, mix (nth (i + k) bytes 0) (nth (S (i + k)) bytes 0) b)).
  - cbn [take app Nat.add]. rewrite drop_replicate. replace (length bytes - (length bytes - k))%nat with k by lia. done.
  - rewrite length_replicate. lia.
  - intros l i Hl Hi. rewrite length_replicate in Hl. cbv beta zeta.
    rewrite (index_lt bytes (i + k)) by lia. cbn [mbind exec_bind].
    rewrite u8_shl_bits by lia. cbn [mbind exec_bind]. case_bool.
    + rewrite index_lt by lia. cbn [mbind exec_bind]. rewrite u8_shr_bits by lia. cbn [mbind exec_bind].
      rewrite index_set_lt by lia. replace (i + k + 1)%nat with (S (i + k)) by lia. done.
    + cbn [mbind exec_bind]. rewrite index_set_lt by lia. rewrite (nth_overflow bytes 0 (n := S (i + k))) by lia. by rewrite mix_0_r.
Qed.

(** ... and of a right shift. *)
Definition right_bytes (bytes : list Z) (b : Z) (n : nat) : list Z :=
  map (λ i, mix (nth i (0 :: bytes) 0) (nth i bytes 0) (8 - b)) (seq 0 n).

Lemma shift_right_loop bytes k b : 0 < b < 8 → (k <= length bytes)%nat →
  shift_right bytes k b = Ok (replicate k 0 ++ right_bytes bytes b (length bytes - k)).
Proof.
  intros Hb Hk. unfold shift_right. cbv zeta. case_bool; [lia|].
  rewrite (for_in_fill k _ (λ i, mix (nth i (0 :: bytes) 0) (nth i bytes 0) (8 - b))).
  - rewrite take_replicate, drop_replicate. replace (k `min` length bytes)%nat with k by lia.
    replace (length bytes - (k + (length bytes - k)))%nat with 0%nat by lia. by rewrite app_nil_r.
  - rewrite length_replicate. lia.
  - intros l i Hl Hi. rewrite length_replicate in Hl. cbv beta zeta. rewrite (index_lt bytes i) by lia. cbn [mbind exec_bind].
    rewrite u8_shr_bits by lia. cbn [mbind exec_bind]. unfold mix. replace (8 - (8 - b)) with b by lia.
    destruct i as [|i]; cbn [Nat.ltb Nat.leb].
    + cbn [mbind exec_bind]. rewrite index_set_lt by lia. cbn [nth]. by rewrite Z.shiftl_0_l, Z.land_0_l, Z.lor_0_l.
    + replace (S i - 1)%nat with i by lia. rewrite index_lt by lia. cbn [mbind exec_bind].
      rewrite u8_shl_bits by lia. cbn [mbind exec_bind]. rewrite index_set_lt by lia. by rewrite Z.lor_comm.
Qed.

(** *** Bits of the pieces *)

Lemma bit_app a b i : 0 <= i → bit (a ++ b) i = if i <? bit_len a then bit a i else bit b (i - bit_len a).
Proof.
  intros Hi. destruct (bit_split (a ++ b) i Hi) as (q & p & -> & Hp & ->). unfold bit_len. case_bool.
  - rewrite bit_at by done. by rewrite app_nth1 by lia.
  - replace (8 * Z.of_nat q + p - 8 * Z.of_nat (length a)) with (8 * Z.of_nat (q - length a) + p) by lia.
    rewrite bit_at by done. by rewrite app_nth2 by lia.
Qed.

Lemma bit_zeros n i : bit (replicate n 0) i = false.
Proof.
  unfold bit. case_bool; [|done]. rewrite nth_lookup. destruct (replicate n 0 !! _) eqn:Hx; [|apply Z.testbit_0_l].
  apply lookup_replicate in Hx as [-> _]. apply Z.testbit_0_l.
Qed.

Lemma bit_drop bytes k i : 0 <= i → bit (drop k bytes) i = bit bytes (i + 8 * Z.of_nat k).
Proof.
  intros Hi. destruct (bit_split (drop k bytes) i Hi) as (q & p & -> & Hp & ->).
  replace (8 * Z.of_nat q + p + 8 * Z.of_nat k) with (8 * Z.of_nat (k + q) + p) by lia.
  rewrite bit_at by done. by rewrite !nth_lookup, lookup_drop.
Qed.

Lemma bit_take bytes k i : i < 8 * Z.of_nat k → bit (take k bytes) i = bit bytes i.
Proof.
  intros Hi. destruct (decide (0 <= i)) as [H0|]; [|by rewrite !bit_outside by (unfold bit_len; lia)].
  destruct (bit_split (take k bytes) i H0) as (q & p & -> & Hp & ->).
  rewrite bit_at by done. by rewrite !nth_lookup, lookup_take_lt by lia.
Qed.

Lemma nth_map_seq (f : nat → Z) n q : (q < n)%nat → nth q (map f (seq 0 n)) 0 = f q.
Proof. intros Hq. by rewrite nth_lookup, list_lookup_fmap, lookup_seq_lt. Qed.

Lemma bit_left_bytes bytes k b n i : 0 <= b < 8 → Forall is_byte bytes → 0 <= i < 8 * Z.of_nat n →
  bit (left_bytes bytes k b n) i = bit bytes (i + (8 * Z.of_nat k + b)).
Proof.
  intros Hb Hbytes Hi. destruct (bit_split (left_bytes bytes k b n) i) as (q & p & -> & Hp & ->); [lia|].
  unfold left_bytes. rewrite nth_map_seq, bit_mix by (done || lia). f_equal. lia.
Qed.

Lemma bit_right_bytes bytes b n i : 0 < b < 8 → Forall is_byte bytes → 0 <= i < 8 * Z.of_nat n →
  bit (right_bytes bytes b n) i = bit bytes (i - b).
Proof.
  intros Hb Hbytes Hi. destruct (bit_split (right_bytes bytes b n) i) as (q & p & -> & Hp & ->); [lia|].
  unfold right_bytes. rewrite nth_map_seq by lia.
  change (nth q bytes 0) with (nth (S q) (0 :: bytes) 0). rewrite bit_mix by (lia || by constructor).
  set (j := 8 * Z.of_nat q + (8 - b) + p). replace (8 * Z.of_nat q + p - b) with (j - 8) by lia.
  change (0 :: bytes) with ([0] ++ bytes). rewrite bit_app by lia. change (bit_len [0]) with 8. case_bool; [|done].
  rewrite (bit_outside _ (j - 8)) by (unfold bit_len; lia). apply (bit_zeros 1).
Qed.

Lemma left_bytes_ok bytes k b n : 0 <= b < 8 → Forall is_byte bytes →
  length (left_bytes bytes k b n) = n ∧ Forall is_byte (left_bytes bytes k b n).
Proof.
  intros Hb Hbytes. unfold left_bytes. rewrite length_map, length_seq. split; [done|].
  apply Forall_map, Forall_forall. intros i _. apply mix_byte; [lia|by apply nth_byte].
Qed.
Lemma right_bytes_ok bytes b n : 0 < b < 8 → Forall is_byte bytes →
  length (right_bytes bytes b n) = n ∧ Forall is_byte (right_bytes bytes b n).
Proof.
  intros Hb Hbytes. unfold right_bytes. rewrite length_map, length_seq. split; [done|].
  apply Forall_map, Forall_forall. intros i _. apply mix_byte; [lia|by apply nth_byte].
Qed.
Lemma zeros_bytes n : Forall is_byte (replicate n 0).
Proof. apply Forall_replicate. done. Qed.

(** [r] has the bits of [bytes] moved by [s] positions towards the first byte. *)
Definition shifted (bytes : list Z) (s : Z) (r : list Z) : Prop :=
  length r = length bytes ∧ Forall is_byte r ∧ ∀ i, 0 <= i < bit_len bytes → bit r i = bit bytes (i + s).

Lemma shift_left_spec bytes k b : 0 <= b < 8 → (k <= length bytes)%nat → Forall is_byte bytes →
  ∃ r, shift_left bytes k b = Ok r ∧ shifted bytes (8 * Z.of_nat k + b) r.
Proof.
  intros Hb Hk Hbytes. destruct (decide (b = 0)) as [->|Hb0].
  - unfold shift_left. cbv zeta. cbn [Z.eqb].
    rewrite copy_at_Ok by (rewrite length_drop, length_replicate; lia). eexists. split; [done|].
    rewrite take_0, app_nil_l, length_drop, drop_replicate, Nat.add_0_l.
    split; [rewrite length_app, length_drop, length_replicate; lia|].
    split; [apply Forall_app; split; [by apply Forall_drop|apply zeros_bytes]|].
    intros i Hi. rewrite bit_app by lia. unfold bit_len in *. rewrite length_drop. case_bool.
    + rewrite bit_drop by lia. f_equal. lia.
    + rewrite bit_zeros, bit_outside; [done|]. unfold bit_len. lia.
  - rewrite shift_left_loop by lia. eexists. split; [done|].
    destruct (left_bytes_ok bytes k b (length bytes - k) ltac:(lia) Hbytes) as [Hlen Hok].
    split; [rewrite length_app, Hlen, length_replicate; lia|].
    split; [apply Forall_app; split; [done|apply zeros_bytes]|].
    intros i Hi. rewrite bit_app by lia. unfold bit_len in *. rewrite Hlen. case_bool.
    + by apply bit_left_bytes; [lia|done|lia].
    + rewrite bit_zeros, bit_outside; [done|]. unfold bit_len. lia.
Qed.

Lemma shift_right_spec bytes k b : 0 <= b < 8 → (k <= length bytes)%nat → Forall is_byte bytes →
  ∃ r, shift_right bytes k b = Ok r ∧ shifted bytes (- (8 * Z.of_nat k + b)) r.
Proof.
  intros Hb Hk Hbytes. destruct (decide (b = 0)) as [->|Hb0].
  - unfold shift_right. cbv zeta. cbn [Z.eqb].
    rewrite copy_at_Ok by (rewrite length_take, length_replicate; lia). eexists. split; [done|].
    rewrite take_replicate, length_take, drop_replicate.
    replace (length bytes - (k + (length bytes - k) `min` length bytes))%nat with 0%nat by lia. cbn [replicate]. rewrite app_nil_r.
    split; [rewrite length_app, length_take, length_replicate; lia|].
    split; [apply Forall_app; split; [apply zeros_bytes|by apply Forall_take]|].
    intros i Hi. rewrite bit_app by lia. unfold bit_len in *. rewrite length_replicate. case_bool.
    + rewrite bit_zeros, bit_outside; [done|]. unfold bit_len. lia.
    + rewrite bit_take by lia. f_equal. lia.
  - rewrite shift_right_loop by lia. eexists. split; [done|].
    destruct (right_bytes_ok bytes b (length bytes - k) ltac:(lia) Hbytes) as [Hlen Hok].
    split; [rewrite length_app, Hlen, length_replicate; lia|].
    split; [apply Forall_app; split; [apply zeros_bytes|done]|].
    intros i Hi. rewrite bit_app by lia. unfold bit_len in *. rewrite length_replicate. case_bool.
    + rewrite bit_zeros, bit_outside; [done|]. unfold bit_len. lia.
    + rewrite bit_right_bytes by (done || lia). f_equal. lia.
Qed.

(** [shiftByteString] is a shift of the sequence of bits: a positive amount
    moves every bit towards the front, a negative one towards the back, zeros
    come in, the length stays, for every amount, larger than the string or not;
    it never panics. *)
Theorem shift_byte_string_spec (bytes : list Z) (shift : Z) :
  Forall is_byte bytes → ∃ r, shift_byte_string bytes shift = Ok r ∧ shifted bytes shift r.
Proof.
  intros Hb. unfold shift_byte_string, unsigned_abs, is_negative. cbv zeta.
  pose proof (Z.div_mod (Z.abs shift) 8 ltac:(lia)). pose proof (Z.mod_pos_bound (Z.abs shift) 8 ltac:(lia)).
  assert (0 <= Z.abs shift / 8) by (apply Z.div_pos; lia).
  destruct (Z.leb_spec (Z.of_nat (length bytes) * 8) (Z.abs shift)).
  - eexists. split; [done|]. split; [apply length_replicate|]. split; [apply zeros_bytes|].
    intros i Hi. rewrite bit_zeros, bit_outside; [done|]. unfold bit_len in *. lia.
  - case_bool; cbn [negb].
    + destruct (shift_right_spec bytes (Z.to_nat (Z.abs shift / 8)) (Z.abs shift mod 8)) as (r & -> & Hr); [lia|lia|done|].
      exists r. split; [done|]. by replace shift with (- (8 * Z.of_nat (Z.to_nat (Z.abs shift / 8)) + Z.abs shift mod 8)) by lia.
    + destruct (shift_left_spec bytes (Z.to_nat (Z.abs shift / 8)) (Z.abs shift mod 8)) as (r & -> & Hr); [lia|lia|done|].
      exists r. split; [done|]. by replace shift with (8 * Z.of_nat (Z.to_nat (Z.abs shift / 8)) + Z.abs shift mod 8) by lia.
Qed.

Lemma shift_byte_string_spec_witness : ∃ r, shift_byte_string [129; 3] (-9) = Ok r ∧ shifted [129; 3] (-9) r.
Proof. apply (shift_byte_string_spec [129; 3] (-9)). repeat constructor; lia. Defined.

(** ** Rotations *)

Definition rotated_bytes (bytes : list Z) (k : nat) (b : Z) : list Z :=
  map (λ i, mix (nth ((i + k) mod length bytes) bytes 0) (nth (S (i + k) mod length bytes) bytes 0) b)
    (seq 0 (length bytes)).

Lemma seq_map_split (f : nat → Z) n m :
  map f (seq 0 (n + m)) = map f (seq 0 n) ++ map (λ i, f (n + i)%nat) (seq 0 m).
Proof.
  rewrite seq_app, map_app, Nat.add_0_l. f_equal. rewrite <- (Nat.add_0_r n) at 1. rewrite <- fmap_add_seq.
  symmetry. apply (list_fmap_compose (Nat.add n) f).
Qed.

(** What the two loops of a rotation that is not by whole bytes compute. *)
Definition rotate_loops (bytes : list Z) (byte_shift : nat) (bit_shift wraparound_bits : Z) : M (list Z) :=
  let len := length bytes in
  let complement_shift := 8 - bit_shift in
  result ← for_in (seq 0 (len - byte_shift)) (λ result i,
    let src_idx := (i + byte_shift)%nat in
    src ← index bytes src_idx;
    high ← u8_shl src bit_shift;
    low ← (if (src_idx + 1 <? len)%nat
           then next ← index bytes (src_idx + 1); u8_shr next complement_shift
           else if (0 <? byte_shift)%nat then first ← index bytes 0; u8_shr first complement_shift
           else Ok wraparound_bits);
    index_set result i (Z.lor high low)) bytes;
  for_in (seq 0 byte_shift) (λ result i,
    let dst_idx := (len - byte_shift + i)%nat in
    src ← index bytes i;
    high ← u8_shl src bit_shift;
    low ← (if (i + 1 <? byte_shift)%nat then next ← index bytes (i + 1); u8_shr next complement_shift
           else next ← index bytes byte_shift; u8_shr next complement_shift);
    index_set result dst_idx (Z.lor high low)) result.

Lemma rotate_loops_eq bytes k b : 0 < b < 8 → (k < length bytes)%nat →
  rotate_loops bytes k b (Z.shiftr (nth 0 bytes 0) (8 - b)) = Ok (rotated_bytes bytes k b).
Proof.
  intros Hb Hk. unfold rotate_loops. cbv zeta.
  set (f := λ i, mix (nth ((i + k) mod length bytes) bytes 0) (nth (S (i + k) mod length bytes) bytes 0) b).
  rewrite (for_in_fill 0 _ f); [|lia|].
  - cbn [mbind exec_bind Nat.add]. rewrite take_0, app_nil_l. rewrite (for_in_fill (length bytes - k) _ (λ i, f (length bytes - k + i)%nat)).
    + rewrite take_app_length' by (by rewrite length_map, length_seq).
      rewrite drop_ge by (rewrite length_app, length_map, length_seq, length_drop; lia). rewrite app_nil_r.
      rewrite <- seq_map_split. unfold rotated_bytes. do 3 f_equal. lia.
    + rewrite length_app, length_map, length_seq, length_drop. lia.
    + intros l i Hl Hi. rewrite length_app, length_map, length_seq, length_drop in Hl. cbv beta.
      rewrite (index_lt bytes i) by lia. cbn [mbind exec_bind]. rewrite u8_shl_bits by lia. cbn [mbind exec_bind].
      assert (f (length bytes - k + i)%nat = mix (nth i bytes 0) (nth (S i) bytes 0) b) as ->.
      { unfold f. replace (length bytes - k + i + k)%nat with (i + 1 * length bytes)%nat by lia.
        replace (S (i + 1 * length bytes)) with (S i + 1 * length bytes)%nat by lia.
        rewrite !Nat.Div0.mod_add, !Nat.mod_small by lia. done. }
      case_bool.
      * rewrite (index_lt bytes (i + 1)) by lia. cbn [mbind exec_bind]. rewrite u8_shr_bits by lia. cbn [mbind exec_bind].
        rewrite index_set_lt by lia. replace (i + 1)%nat with (S i) by lia. done.
      * rewrite (index_lt bytes k) by lia. cbn [mbind exec_bind]. rewrite u8_shr_bits by lia. cbn [mbind exec_bind].
        rewrite index_set_lt by lia. replace (S i) with k by lia. done.
  - intros l i Hl Hi. cbv beta. rewrite (index_lt bytes (i + k)) by lia. cbn [mbind exec_bind].
    rewrite u8_shl_bits by lia. cbn [mbind exec_bind]. unfold f. rewrite (Nat.mod_small (i + k)) by lia. case_bool.
    + rewrite (index_lt bytes (i + k + 1)) by lia. cbn [mbind exec_bind]. rewrite u8_shr_bits by lia. cbn [mbind exec_bind].
      rewrite index_set_lt, (Nat.mod_small (S (i + k))) by lia. replace (i + k + 1)%nat with (S (i + k)) by lia. done.
    + replace (S (i + k)) with (length bytes) by lia. rewrite Nat.Div0.mod_same. case_bool.
      * rewrite (index_lt bytes 0) by lia. cbn [mbind exec_bind]. rewrite u8_shr_bits by lia. cbn [mbind exec_bind].
        by rewrite index_set_lt by lia.
      * cbn [mbind exec_bind]. by rewrite index_set_lt by lia.
Qed.

Lemma rotate_byte_string_unfold bytes shift : bytes ≠ [] →
  let s := shift mod bit_len bytes in
  let k := Z.to_nat (s / 8) in
  rotate_byte_string bytes shift =
    if s =? 0 then Ok bytes
    else if s mod 8 =? 0 then Ok (drop k bytes ++ take k bytes)
    else Ok (rotated_bytes bytes k (s mod 8)).
Proof.
  intros Hne s k. assert (length bytes ≠ 0)%nat as Hl by (by destruct bytes).
  pose proof (Z.mod_pos_bound shift (bit_len bytes) ltac:(unfold bit_len; lia)) as Hs. fold s in Hs.
  assert (unsigned_abs (rem_euclid shift (Z.of_nat (length bytes) * 8)) = s) as Habs.
  { unfold unsigned_abs, rem_euclid. rewrite (Z.abs_eq (Z.of_nat _ * 8)) by lia. unfold s, bit_len.
    rewrite Z.mul_comm. rewrite Z.abs_eq; [done|]. apply Z.mod_pos_bound. lia. }
  unfold rotate_byte_string. cbv zeta. rewrite Habs. fold k.
  destruct (Nat.eqb_spec (length bytes) 0); [lia|]. destruct (Z.eqb_spec s 0); [done|].
  pose proof (Z.mod_pos_bound s 8 ltac:(lia)).
  assert ((k < length bytes)%nat) as Hk.
  { unfold k, bit_len in *. assert (s / 8 < Z.of_nat (length bytes)) by (apply Z.div_lt_upper_bound; lia).
    assert (0 <= s / 8) by (apply Z.div_pos; lia). lia. }
  destruct (Z.eqb_spec (s mod 8) 0).
  - rewrite copy_at_Ok by (rewrite length_drop; lia). cbn [mbind exec_bind]. rewrite take_0, app_nil_l, length_drop, Nat.add_0_l.
    rewrite copy_at_Ok by (rewrite !length_app, !length_drop, length_take; lia).
    rewrite take_app_length' by (by rewrite length_drop). rewrite (drop_ge (_ ++ _)); [by rewrite app_nil_r|].
    rewrite length_app, !length_drop, length_take. lia.
  - change ((first ← index bytes 0; w ← u8_shr first (8 - s mod 8); rotate_loops bytes k (s mod 8) w)
      = Ok (rotated_bytes bytes k (s mod 8))).
    rewrite (index_lt bytes 0) by lia. cbn [mbind exec_bind]. rewrite u8_shr_bits by lia. cbn [mbind exec_bind].
    apply rotate_loops_eq; lia.
Qed.

(** [r] has the bits of [bytes], [s] positions further round. *)
Definition rotated (bytes : list Z) (s : Z) (r : list Z) : Prop :=
  length r = length bytes ∧ Forall is_byte r ∧
  ∀ i, 0 <= i < bit_len bytes → bit r i = bit bytes ((i + s) mod bit_len bytes).

Lemma mod_8 (q n : nat) p : (n ≠ 0)%nat → 0 <= p < 8 →
  (8 * Z.of_nat q + p) mod (8 * Z.of_nat n) = 8 * Z.of_nat (q mod n) + p.
Proof.
  intros Hn Hp. symmetry. apply Z.mod_unique with (Z.of_nat (q / n)).
  - left. pose proof (Nat.mod_upper_bound q n Hn). lia.
  - pose proof (Nat.div_mod_eq q n). nia.
Qed.

Lemma rotated_bytes_spec bytes k b : 0 < b < 8 → bytes ≠ [] → Forall is_byte bytes →
  rotated bytes (8 * Z.of_nat k + b) (rotated_bytes bytes k b).
Proof.
  intros Hb Hne Hbytes. assert (length bytes ≠ 0)%nat as Hl by (by destruct bytes). unfold rotated_bytes.
  split; [by rewrite length_map, length_seq|].
  split; [apply Forall_map, Forall_forall; intros i _; apply mix_byte; [lia|by apply nth_byte]|].
  intros i Hi. unfold bit_len in *. set (r := map _ _).
  destruct (bit_split r i) as (q & p & -> & Hp & ->); [lia|]. unfold r. rewrite nth_map_seq by lia.
  rewrite mix_bit by (lia || done || by apply nth_byte). case_bool.
  - replace (8 * Z.of_nat q + p + (8 * Z.of_nat k + b)) with (8 * Z.of_nat (q + k) + (p + b)) by lia.
    by rewrite mod_8, bit_at by lia.
  - replace (8 * Z.of_nat q + p + (8 * Z.of_nat k + b)) with (8 * Z.of_nat (S (q + k)) + (p + b - 8)) by lia.
    rewrite mod_8, bit_at by lia. f_equal. lia.
Qed.

Lemma rotated_whole_spec bytes k : (k <= length bytes)%nat → Forall is_byte bytes →
  rotated bytes (8 * Z.of_nat k) (drop k bytes ++ take k bytes).
Proof.
  intros Hk Hbytes. split; [rewrite length_app, length_drop, length_take; lia|].
  split; [apply Forall_app; split; [by apply Forall_drop|by apply Forall_take]|].
  intros i Hi. rewrite bit_app by lia. unfold bit_len in *. rewrite length_drop. case_bool.
  - rewrite bit_drop, Z.mod_small by lia. done.
  - rewrite bit_take by lia. f_equal. apply Z.mod_unique with 1; lia.
Qed.

Lemma rotated_mod bytes s r : bytes ≠ [] → rotated bytes (s mod bit_len bytes) r → rotated bytes s r.
Proof.
  intros Hne (Hl & Hr & Hbits). split; [done|]. split; [done|]. intros i Hi. rewrite Hbits by done.
  f_equal. apply Zplus_mod_idemp_r.
Qed.

(** [rotateByteString] is a rotation of the sequence of bits by any signed
    amount, modulo the number of bits: no bit is lost, whichever of the three
    branches (nothing to do, whole bytes, bytes that straddle) runs, and it never
    panics, the empty string included. *)
Theorem rotate_byte_string_spec (bytes : list Z) (shift : Z) :
  Forall is_byte bytes → ∃ r, rotate_byte_string bytes shift = Ok r ∧ rotated bytes shift r.
Proof.
  intros Hb. destruct (decide (bytes = [])) as [->|Hne].
  { exists []. split; [done|]. split; [done|]. split; [done|]. unfold bit_len. cbn. lia. }
  assert (length bytes ≠ 0)%nat by (by destruct bytes).
  pose proof (Z.mod_pos_bound shift (bit_len bytes) ltac:(unfold bit_len; lia)) as Hs.
  rewrite rotate_byte_string_unfold by done. cbv zeta. set (s := shift mod bit_len bytes) in *.
  pose proof (Z.div_mod s 8 ltac:(lia)). pose proof (Z.mod_pos_bound s 8 ltac:(lia)).
  assert (0 <= s / 8) by (apply Z.div_pos; lia). unfold bit_len in Hs.
  repeat case_bool; eexists; (split; [done|]); apply rotated_mod; try done; fold s.
  - rewrite e. pose proof (rotated_whole_spec bytes 0 ltac:(lia) Hb) as Hr.
    by rewrite drop_0, take_0, app_nil_r in Hr.
  - replace s with (8 * Z.of_nat (Z.to_nat (s / 8))) at 1 by lia. apply rotated_whole_spec; [lia|done].
  - replace s with (8 * Z.of_nat (Z.to_nat (s / 8)) + s mod 8) at 1 by lia. apply rotated_bytes_spec; [lia|done|done].
Qed.

Lemma rotate_byte_string_spec_witness : ∃ r, rotate_byte_string [129; 3] (-3) = Ok r ∧ rotated [129; 3] (-3) r.
Proof. apply (rotate_byte_string_spec [129; 3] (-3)). repeat constructor; lia. Defined.

(** ** Reading and writing bits

    Bit indices count from the least significant bit of the last byte. *)

(** The byte and the bit of a bit index in range. *)
Lemma bit_position (bytes : list Z) i : 0 <= i < bit_len bytes →
  ∃ k, flipped_index bytes (Z.quot i 8) = Ok k ∧ (k < length bytes)%nat ∧
    0 <= Z.rem i 8 < 8 ∧ bit_len bytes - 1 - i = 8 * Z.of_nat k + (7 - Z.rem i 8).
Proof.
  unfold bit_len. intros Hi. rewrite Z.quot_div_nonneg, Z.rem_mod_nonneg by lia.
  pose proof (Z.mod_pos_bound i 8 ltac:(lia)). pose proof (Z.div_mod i 8 ltac:(lia)).
  exists (Z.to_nat (Z.of_nat (length bytes) - 1 - i / 8)). unfold flipped_index. cbv zeta.
  case_bool; [lia|]. split; [done|]. lia.
Qed.

Definition in_bits (bytes : list Z) (i : Z) : bool := (0 <=? i) && (i <? bit_len bytes).

Lemma read_bit_eq bytes i : read_bit bytes i =
  if decide (bytes = []) then err EmptyByteArray
  else if in_bits bytes i then Ok (bit bytes (bit_len bytes - 1 - i))
  else err (ReadBitOutOfBounds i (bit_len bytes)).
Proof.
  unfold read_bit, in_bits, is_negative. cbv zeta. fold (bit_len bytes).
  destruct (Nat.eqb_spec (length bytes) 0) as [H0|H0].
  { rewrite decide_True; [done|]. by apply nil_length_inv. }
  rewrite decide_False by (by intros ->). rewrite (Z.leb_antisym i (bit_len bytes)), (Z.leb_antisym i 0).
  destruct (Z.ltb_spec i 0), (Z.ltb_spec i (bit_len bytes)); cbn [orb andb negb]; try done.
  destruct (bit_position bytes i) as (k & Hk & Hlt & Ho & Hpos); [lia|]. unfold div_rem. rewrite Hk.
  cbn [mbind exec_bind]. rewrite index_lt by done. cbn [mbind exec_bind]. rewrite u8_shr_bits by done.
  cbn [mbind exec_bind]. f_equal. rewrite Hpos, bit_at by lia.
  replace (7 - (7 - Z.rem i 8)) with (Z.rem i 8) by lia.
  rewrite <- (Z.add_0_l (Z.rem i 8)) at 2. rewrite <- Z.shiftr_spec, Z.bit0_odd by lia.
  change 1 with (Z.ones 1) at 1. rewrite Z.land_ones, Z.pow_1_r, Zmod_odd by lia. by destruct (Z.odd _).
Qed.

(** Writing one bit. *)
Lemma write_bit_eq set_bit bytes i : write_bit set_bit bytes (ConInteger i) =
  if in_bits bytes i then
    let k := Z.to_nat (Z.of_nat (length bytes) - 1 - i / 8) in
    let mask := Z.shiftl 1 (i mod 8) in
    Ok (<[k := if set_bit then Z.lor (nth k bytes 0) mask else Z.land (nth k bytes 0) (Z.lxor mask 255)]> bytes)
  else err (WriteBitsOutOfBounds i (bit_len bytes)).
Proof.
  unfold write_bit, in_bits, is_negative. cbv zeta. fold (bit_len bytes).
  rewrite (Z.leb_antisym i (bit_len bytes)), (Z.leb_antisym i 0).
  destruct (Z.ltb_spec i 0), (Z.ltb_spec i (bit_len bytes)); cbn [orb andb negb]; try done.
  destruct (bit_position bytes i) as (k & Hk & Hlt & Ho & Hpos); [lia|]. unfold div_rem. rewrite Hk.
  cbn [mbind exec_bind]. rewrite u8_shl_bits by done. cbn [mbind exec_bind]. rewrite index_lt by done. cbn [mbind exec_bind].
  rewrite index_set_lt by done. rewrite Z.rem_mod_nonneg in * by lia. unfold bit_len in *.
  pose proof (Z.div_mod i 8 ltac:(lia)). replace (Z.to_nat (Z.of_nat (length bytes) - 1 - i / 8)) with k by lia.
  assert (Z.land (Z.shiftl 1 (i mod 8)) 255 = Z.shiftl 1 (i mod 8)) as ->; [|done]. apply byte_iff. unfold is_byte.
  rewrite Z.shiftl_1_l. split; [apply Z.pow_nonneg; lia|]. change 256 with (2 ^ 8). apply Z.pow_lt_mono_r; lia.
Qed.

Lemma testbit_mask m t : 0 <= m → 0 <= t → Z.testbit (Z.shiftl 1 m) t = (m =? t).
Proof.
  intros Hm Ht. rewrite Z.shiftl_1_l. case_bool; [subst; by apply Z.pow2_bits_true|by apply Z.pow2_bits_false].
Qed.

Lemma nth_insert (l : list Z) k x q : (k < length l)%nat → nth q (<[k := x]> l) 0 = if decide (q = k) then x else nth q l 0.
Proof.
  intros Hk. rewrite !nth_lookup. case_decide as Hq; [subst; by rewrite list_lookup_insert_eq|].
  by rewrite list_lookup_insert_ne by done.
Qed.

(** [r] is [bytes] with bit [i] set to [b]. *)
Lemma write_bit_spec set_bit bytes i : in_bits bytes i = true →
  ∃ r, write_bit set_bit bytes (ConInteger i) = Ok r ∧ length r = length bytes ∧
    (Forall is_byte bytes → Forall is_byte r) ∧
    ∀ j, read_bit r j = if decide (j = i) then Ok set_bit else read_bit bytes j.
Proof.
  intros Hi. rewrite write_bit_eq, Hi. cbv zeta. set (k := Z.to_nat _). set (x := if set_bit then _ else _).
  assert (in_bits bytes i = true) as Hin by done. unfold in_bits, bit_len in Hi. bool_to_prop.
  pose proof (Z.mod_pos_bound i 8 ltac:(lia)). pose proof (Z.div_mod i 8 ltac:(lia)).
  assert ((k < length bytes)%nat) as Hk by lia.
  eexists. split; [done|]. split; [by rewrite length_insert|]. split.
  - intros Hb. apply Forall_insert; [done|]. pose proof (nth_byte bytes k Hb) as Hx. unfold x.
    destruct set_bit; [|by apply byte_land]. apply byte_lor; [done|]. unfold is_byte. rewrite Z.shiftl_1_l.
    split; [apply Z.pow_nonneg; lia|]. change 256 with (2 ^ 8). apply Z.pow_lt_mono_r; lia.
  - intros j. rewrite !read_bit_eq.
    assert (bytes ≠ []) as Hne by (intros ->; cbn in Hk; lia).
    rewrite !(decide_False (P := _ = [])) by (done || by intros Hnil%(f_equal length); rewrite length_insert in Hnil; destruct bytes).
    unfold in_bits, bit_len. rewrite length_insert. fold (bit_len bytes). fold (in_bits bytes j).
    destruct (in_bits bytes j) eqn:Hj; [|by case_decide; [subst; congruence|]].
    unfold in_bits in Hj. bool_to_prop.
    assert (∃ q, bit_len bytes - 1 - j = 8 * Z.of_nat q + (7 - j mod 8) ∧ Z.of_nat q = Z.of_nat (length bytes) - 1 - j / 8)
      as (q & -> & Hq).
    { exists (Z.to_nat (Z.of_nat (length bytes) - 1 - j / 8)). pose proof (Z.div_mod j 8 ltac:(lia)). unfold bit_len in *.
      pose proof (Z.mod_pos_bound j 8 ltac:(lia)). lia. }
    pose proof (Z.mod_pos_bound j 8 ltac:(lia)). pose proof (Z.div_mod j 8 ltac:(lia)).
    rewrite !bit_at, nth_insert by (done || lia). replace (7 - (7 - j mod 8)) with (j mod 8) by lia.
    destruct (decide (q = k)) as [->|Hne'].
    + unfold x. destruct set_bit.
      * rewrite Z.lor_spec, testbit_mask by lia. case_bool.
        -- rewrite decide_True by lia. by rewrite orb_true_r.
        -- rewrite decide_False by (intros ->; done). by rewrite orb_false_r.
      * rewrite Z.land_spec, Z.lxor_spec, testbit_mask, testbit_255 by lia. case_bool; cbn [xorb].
        -- rewrite decide_True by lia. by rewrite andb_false_r.
        -- rewrite decide_False by (intros ->; done). by rewrite andb_true_r.
    + rewrite decide_False; [done|]. intros ->. lia.
Qed.

Lemma write_bit_out set_bit bytes i : in_bits bytes i = false →
  write_bit set_bit bytes (ConInteger i) = err (WriteBitsOutOfBounds i (bit_len bytes)).
Proof. intros Hi. by rewrite write_bit_eq, Hi. Qed.

(** [writeBits] writes exactly the listed bits: when all indices are within
    the string it keeps the length, every listed bit reads as the bit written and
    every other one as before; otherwise the first index out of bounds is
    reported.  It never panics. *)
Theorem write_bits_spec (set_bit : bool) (indices : list Z) (bytes : list Z) :
  match for_in (map ConInteger indices) (write_bit set_bit) bytes with
  | Ok r => Forall (λ i, in_bits bytes i = true) indices ∧ length r = length bytes ∧
      (Forall is_byte bytes → Forall is_byte r) ∧
      ∀ j, read_bit r j = if decide (j ∈ indices) then Ok set_bit else read_bit bytes j
  | Err e => ∃ before i after, indices = before ++ i :: after ∧
      Forall (λ i, in_bits bytes i = true) before ∧ in_bits bytes i = false ∧
      e = RuntimeErr (WriteBitsOutOfBounds i (bit_len bytes))
  | _ => False
  end.
Proof.
  revert bytes. induction indices as [|i indices IH]; intros bytes; cbn [map for_in].
  { split; [done|]. split; [done|]. split; [done|]. intros j. by rewrite decide_False by set_solver. }
  destruct (in_bits bytes i) eqn:Hi.
  - destruct (write_bit_spec set_bit bytes i Hi) as (r & -> & Hlen & Hbytes & Hread). cbn [mbind exec_bind].
    assert (∀ j, in_bits r j = in_bits bytes j) as Hin by (intros j; unfold in_bits, bit_len; by rewrite Hlen).
    assert (bit_len r = bit_len bytes) as Hbl by (unfold bit_len; by rewrite Hlen).
    specialize (IH r). destruct (for_in _ _ r) as [r'|e| |]; [| |done|done].
    + destruct IH as (Hall & Hlen' & Hbytes' & Hread'). split.
      { constructor; [done|]. eapply Forall_impl; [exact Hall|]. intros j. cbn. by rewrite Hin. }
      split; [congruence|]. split; [auto|]. intros j. rewrite Hread', Hread.
      destruct (decide (j ∈ indices)), (decide (j = i)), (decide (j ∈ i :: indices)); try done; set_solver.
    + destruct IH as (before & i' & after & -> & Hall & Hout & ->). exists (i :: before), i', after.
      split; [done|]. rewrite Hin in Hout. rewrite Hbl. split; [|done]. constructor; [done|].
      eapply Forall_impl; [exact Hall|]. intros j. cbn. by rewrite Hin.
  - rewrite write_bit_out by done. cbn [mbind exec_bind]. exists [], i, indices. by split_and!.
Qed.

(** ** The first set bit *)

(** The lowest set bit of every byte, checked on all of them. *)
Definition lowest_bit_ok (b : Z) : bool :=
  let t := leading_zeros (reverse_bits b) in
  if reverse_bits b =? 0 then b =? 0
  else (0 <=? t) && (t <? 8) && Z.testbit b t && forallb (λ j, negb (Z.testbit b (Z.of_nat j))) (seq 0 (Z.to_nat t)).

Lemma lowest_bit b : is_byte b →
  (reverse_bits b = 0 ∧ b = 0) ∨
  ∃ t, reverse_bits b ≠ 0 ∧ leading_zeros (reverse_bits b) = t ∧ 0 <= t < 8 ∧ Z.testbit b t = true ∧
    ∀ j, 0 <= j < t → Z.testbit b j = false.
Proof.
  intros [Hb1 Hb2].
  assert (forallb (λ n, lowest_bit_ok (Z.of_nat n)) (seq 0 256) = true) as Hall by (vm_compute; reflexivity).
  rewrite forallb_forall in Hall. specialize (Hall (Z.to_nat b)).
  rewrite Z2Nat.id in Hall by done. specialize (Hall ltac:(apply in_seq; lia)).
  unfold lowest_bit_ok in Hall. cbv zeta in Hall. destruct (Z.eqb_spec (reverse_bits b) 0).
  - left. split; [done|]. by apply Z.eqb_eq in Hall.
  - right. exists (leading_zeros (reverse_bits b)). bool_to_prop. split; [done|]. split; [done|]. split; [lia|].
    split; [done|]. intros j Hj. rewrite forallb_forall in H0. specialize (H0 (Z.to_nat j)).
    rewrite Z2Nat.id in H0 by lia. apply negb_true_iff, H0, in_seq. lia.
Qed.

Lemma find_first_set_bit_from_spec n rev : Forall is_byte rev →
  match find_first_set_bit_from n rev with
  | None => ∀ q, nth q rev 0 = 0
  | Some r => ∃ (q : nat) t, r = t + (n + Z.of_nat q) * 8 ∧ 0 <= t < 8 ∧ (q < length rev)%nat ∧
      Z.testbit (nth q rev 0) t = true ∧ (∀ j, 0 <= j < t → Z.testbit (nth q rev 0) j = false) ∧
      ∀ q', (q' < q)%nat → nth q' rev 0 = 0
  end.
Proof.
  intros Hb. revert n. induction Hb as [|b rev Hb _ IH]; intros n; cbn [find_first_set_bit_from].
  { intros []; done. }
  cbv zeta. destruct (lowest_bit b Hb) as [[-> ->]|(t & Hnz & Ht & Hr & Hset & Hclear)].
  - cbn [Z.eqb]. specialize (IH (n + 1)). destruct (find_first_set_bit_from (n + 1) rev) as [r|].
    + destruct IH as (q & t & -> & Ht & Hq & Hset & Hclear & Hlow). exists (S q), t. cbn [nth length].
      split; [lia|]. split; [done|]. split; [lia|]. split; [done|]. split; [done|]. intros [|q'] Hq'; [done|]. apply Hlow. lia.
    + intros []; [done|]. apply IH.
  - rewrite (proj2 (Z.eqb_neq _ _) Hnz). exists 0%nat, t. cbn [nth length].
    split; [rewrite Ht; lia|]. split; [done|]. split; [lia|]. split; [done|]. split; [done|]. lia.
Qed.

(** Reading a bit, from the reversed bytes. *)
Lemma read_bit_reverse bytes (q : nat) t : (q < length bytes)%nat → 0 <= t < 8 →
  read_bit bytes (8 * Z.of_nat q + t) = Ok (Z.testbit (nth q (reverse bytes) 0) t).
Proof.
  intros Hq Ht. rewrite read_bit_eq, decide_False by (intros ->; cbn in Hq; lia).
  unfold in_bits, bit_len. rewrite (proj2 (Z.leb_le _ _)), (proj2 (Z.ltb_lt _ _)) by lia. cbn [andb]. f_equal.
  replace (8 * Z.of_nat (length bytes) - 1 - (8 * Z.of_nat q + t))
    with (8 * Z.of_nat (length bytes - S q) + (7 - t)) by lia.
  rewrite bit_at by lia. rewrite !nth_lookup, reverse_lookup by lia. f_equal. lia.
Qed.

Lemma read_bit_Ok bytes i b : read_bit bytes i = Ok b →
  ∃ (q : nat) t, i = 8 * Z.of_nat q + t ∧ (q < length bytes)%nat ∧ 0 <= t < 8.
Proof.
  rewrite read_bit_eq. case_decide; [done|]. destruct (in_bits bytes i) eqn:Hi; [|done]. intros _.
  unfold in_bits, bit_len in Hi. bool_to_prop. exists (Z.to_nat (i / 8)), (i mod 8).
  pose proof (Z.div_mod i 8 ltac:(lia)). pose proof (Z.mod_pos_bound i 8 ltac:(lia)). lia.
Qed.

(** [findFirstSetBit] is the least index whose bit reads as set, and -1 when
    no bit is set. *)
Theorem find_first_set_bit_spec (bytes : list Z) :
  Forall is_byte bytes →
  let r := find_first_set_bit bytes in
  (r = -1 ∧ ∀ i, read_bit bytes i ≠ Ok true) ∨
  (read_bit bytes r = Ok true ∧ ∀ i, read_bit bytes i = Ok true → r <= i).
Proof.
  intros Hb r. unfold r, find_first_set_bit.
  pose proof (find_first_set_bit_from_spec 0 (reverse bytes) ltac:(by apply Forall_reverse)) as H.
  destruct (find_first_set_bit_from 0 (reverse bytes)) as [x|]; cbn [from_option id].
  - right. destruct H as (q & t & -> & Ht & Hq & Hset & Hclear & Hlow). rewrite length_reverse in Hq.
    replace (t + (0 + Z.of_nat q) * 8) with (8 * Z.of_nat q + t) by lia.
    split; [rewrite read_bit_reverse by done; by rewrite Hset|]. intros i Hi.
    destruct (read_bit_Ok _ _ _ Hi) as (q' & t' & -> & Hq' & Ht'). rewrite read_bit_reverse in Hi by done.
    injection Hi as Hi. destruct (decide (q' < q)%nat) as [Hlt|].
    { rewrite Hlow, Z.testbit_0_l in Hi by done. done. }
    destruct (decide (q' = q)) as [->|]; [|lia]. destruct (decide (t' < t)); [|lia].
    rewrite Hclear in Hi by lia. done.
  - left. split; [done|]. intros i Hi. destruct (read_bit_Ok _ _ _ Hi) as (q' & t' & -> & Hq' & Ht').
    rewrite read_bit_reverse, H, Z.testbit_0_l in Hi by done. done.
Qed.

Lemma find_first_set_bit_spec_witness : read_bit [4; 0] (find_first_set_bit [4; 0]) = Ok true.
Proof.
  destruct (find_first_set_bit_spec [4; 0]) as [[H _]|[H _]]; [repeat constructor; lia| |exact H].
  vm_compute in H. discriminate.
Defined.
