(* ===== verification/BuiltinProps.v ===== *)
(** * Functional correctness of arithmetic builtins

    Modular exponentiation, and the conversions between integers and byte
    strings, against their mathematical definitions; and the reification of
    values as terms. *)

From Stdlib Require Import Zpow_facts.
From S2P Require Import Prelude FlatBits UplcSyntax LedgerValue CekSyntax CostArgument Integer Builtins.

(** ** Modular exponentiation *)

(** [expModInteger] with a positive modulus: a non-negative exponent gives the
    modular power; a negative one gives the power of the modular inverse, the
    number between 0 and the modulus whose product with the power of the base is
    one, when base and modulus are coprime, and an error otherwise.  The loops
    for the gcd and for the power always end. *)
Theorem exp_mod_spec (base exponent modulus : Z) :
  0 < modulus →
  (0 <= exponent → exp_mod base exponent modulus = Ok (base ^ exponent mod modulus)) ∧
  (exponent < 0 → Z.gcd base modulus = 1 →
    ∃ r, exp_mod base exponent modulus = Ok r ∧ 0 <= r < modulus ∧
      (r * base ^ (- exponent)) mod modulus = 1 mod modulus) ∧
  (exponent < 0 → Z.gcd base modulus ≠ 1 → exp_mod base exponent modulus = Err ExplicitErrorTerm).
Proof.
  intros Hm. unfold exp_mod, is_negative, unsigned_abs, rem_euclid. rewrite !(Z.abs_eq modulus) by lia.
  pose proof (Z.mod_pos_bound base modulus Hm) as Hb.
  assert (Z.gcd (base mod modulus) modulus = Z.gcd base modulus) as Hgcd.
  { rewrite Z.gcd_mod, Z.gcd_comm by lia. done. }
  destruct (extended_gcd_spec (E := MachineError) (base mod modulus) modulus) as (x & y & Hx & Hbez); [lia..|].
  rewrite Hgcd in *. split; [|split].
  - intros He. case_bool; [lia|]. rewrite mod_pow_spec by lia. f_equal.
    rewrite (Z.abs_eq (_ mod _)), (Z.abs_eq exponent) by lia. symmetry. apply Zpower_mod. lia.
  - intros He Hg. case_bool; [|lia]. rewrite Hx, Hg. cbn [mbind exec_bind Z.eqb Pos.eqb negb].
    pose proof (Z.mod_pos_bound x modulus Hm). rewrite mod_pow_spec by lia. eexists. split; [done|].
    rewrite (Z.abs_eq (_ mod _)) by lia. replace (Z.abs exponent) with (- exponent) by lia.
    split; [by apply Z.mod_pos_bound|]. rewrite Z.mul_mod_idemp_l, <- Z.mul_mod_idemp_r by lia.
    rewrite (Zpower_mod base), Z.mul_mod_idemp_r by lia. rewrite <- Z.pow_mul_l.
    rewrite Zpower_mod by lia. rewrite Z.mul_mod_idemp_l by lia.
    replace (x * (base mod modulus)) with (1 + (- y) * modulus) by lia. rewrite Z.mod_add by lia.
    rewrite <- Zpower_mod, Z.pow_1_l by lia. done.
  - intros He Hg. case_bool; [|lia]. rewrite Hx. cbn [mbind exec_bind].
    by rewrite (proj2 (Z.eqb_neq _ _) Hg).
Qed.

Lemma exp_mod_spec_witness : ∃ r, exp_mod 3 (-2) 10 = Ok r ∧ 0 <= r < 10 ∧ (r * 3 ^ (- -2)) mod 10 = 1 mod 10.
Proof. apply (exp_mod_spec 3 (-2) 10); [lia|lia|reflexivity]. Defined.

(** ** Integers and byte strings *)

(** [byteStringToInteger]. *)
Definition bytes_to_integer (endianness : bool) (bytes : list Z) : Z :=
  if endianness then from_be_bytes bytes else from_le_bytes bytes.

Lemma bytes_to_integer_reverse e bytes : bytes_to_integer e (if e then reverse bytes else bytes) = from_le_bytes bytes.
Proof. destruct e; [apply from_be_bytes_reverse|done]. Qed.

Lemma to_unsigned_bytes_eq i e : 0 <= i →
  to_unsigned_bytes_in i e = if e then reverse (le_bytes (byte_len i) i) else le_bytes (byte_len i) i.
Proof. intros Hi. destruct e; [rewrite to_unsigned_bytes_be|]; by rewrite to_unsigned_bytes_le. Qed.

Lemma reverse_replicate_0 n : reverse (replicate n 0) = replicate n 0.
Proof. apply reverse_replicate. Qed.

(** Padding at the most significant end. *)
Lemma padded_bytes (e : bool) (l : list Z) (k : nat) :
  (if e then replicate k 0 ++ (if e then reverse l else l) else (if e then reverse l else l) ++ replicate k 0)
  = if e then reverse (l ++ replicate k 0) else l ++ replicate k 0.
Proof. destruct e; [|done]. by rewrite reverse_app, reverse_replicate_0. Qed.

Lemma from_le_bytes_padded l k : from_le_bytes (l ++ replicate k 0) = from_le_bytes l.
Proof. by rewrite from_le_bytes_app, from_le_bytes_zeros, Z.mul_0_r, Z.add_0_r. Qed.

Lemma le_bytes_from_le bs : Forall is_byte bs → le_bytes (length bs) (from_le_bytes bs) = bs.
Proof.
  unfold from_le_bytes. induction 1 as [|b bs Hb _ IH]; [done|]. cbn [length le_bytes foldr]. unfold is_byte in Hb.
  rewrite Z.mul_comm, Z.mod_add, Z.mod_small, Z.div_add, Z.div_small by lia. by rewrite Z.add_0_l, IH.
Qed.

Lemma le_bytes_extend n i : 0 <= i → (byte_len i <= n)%nat →
  le_bytes n i = le_bytes (byte_len i) i ++ replicate (n - byte_len i) 0.
Proof.
  intros Hi Hn. replace n with (byte_len i + (n - byte_len i))%nat at 1 by lia. rewrite le_bytes_app. f_equal.
  rewrite Z.div_small; [apply le_bytes_0|]. pose proof (byte_len_bound i). lia.
Qed.

Lemma byte_len_le i n : 0 <= i < 256 ^ Z.of_nat n → (byte_len i <= n)%nat.
Proof.
  intros Hi. unfold byte_len. change 256 with (2 ^ 8) in Hi. rewrite <- Z.pow_mul_r in Hi by lia.
  assert (integer_bits i <= 8 * Z.of_nat n) by (apply integer_bits_spec; lia).
  assert ((integer_bits i + 7) / 8 < Z.of_nat n + 1) by (apply Z.div_lt_upper_bound; lia). lia.
Qed.

Lemma byte_len_pos i : 0 < i → (0 < byte_len i)%nat.
Proof.
  intros Hi. pose proof (byte_len_bound i) as Hb. destruct (byte_len i); [|lia].
  cbn in Hb. lia.
Qed.

(** The bytes of [integer_to_byte_string], least significant first: as many as
    asked for, or as few as needed. *)
Definition width (size input : Z) : nat := if size =? 0 then byte_len input else Z.to_nat size.

Lemma integer_to_byte_string_eq (e : bool) size input : 0 <= size → 0 <= input →
  (size = 0 → integer_log2 input < 8 * MAX_BYTE_STRING_OUTPUT_LENGTH) → (size ≠ 0 → (byte_len input <= Z.to_nat size)%nat) →
  integer_to_byte_string e size input =
    Ok (if e then reverse (le_bytes (width size input) input) else le_bytes (width size input) input).
Proof.
  intros Hs Hi H0 Hw. unfold integer_to_byte_string, is_zero, to_bytes_in, is_negative.
  destruct (_ && _) eqn:Hbig; [bool_to_prop; lia|]. destruct (Z.ltb_spec input 0); [lia|].
  rewrite to_unsigned_bytes_eq by done.
  assert (length (if e then reverse (le_bytes (byte_len input) input) else le_bytes (byte_len input) input) = byte_len input) as Hlen.
  { destruct e; by rewrite ?length_reverse, length_le_bytes. }
  rewrite !Hlen. unfold width. destruct (Z.eqb_spec input 0) as [->|Hne].
  { rewrite !le_bytes_0. assert ((if size =? 0 then byte_len 0 else Z.to_nat size) = Z.to_nat size) as ->.
    { case_bool; [subst|]; done. }
    destruct e; [by rewrite reverse_replicate_0|done]. }
  destruct (Z.eqb_spec size 0) as [->|Hne'].
  - cbn [negb andb]. destruct (Z.ltb_spec 0 0); [lia|done].
  - cbn [negb andb]. destruct (Z.ltb_spec size (Z.of_nat (byte_len input))); [lia|].
    destruct (Z.ltb_spec 0 size); [|lia]. rewrite padded_bytes. by rewrite (le_bytes_extend (Z.to_nat size)) by (done || lia).
Qed.

Lemma integer_to_byte_string_err (e : bool) size input : 0 <= size →
  input < 0 ∨ (size = 0 ∧ 8 * MAX_BYTE_STRING_OUTPUT_LENGTH <= integer_log2 input) ∨ (size ≠ 0 ∧ (Z.to_nat size < byte_len input)%nat) →
  ∃ err, integer_to_byte_string e size input = Err err.
Proof.
  intros Hs Hcase. unfold integer_to_byte_string, is_zero, to_bytes_in, is_negative.
  destruct (_ && _) eqn:Hbig; [by eexists|]. destruct (Z.ltb_spec input 0); [by eexists|].
  rewrite to_unsigned_bytes_eq by done.
  assert (length (if e then reverse (le_bytes (byte_len input) input) else le_bytes (byte_len input) input) = byte_len input) as Hlen.
  { destruct e; by rewrite ?length_reverse, length_le_bytes. }
  rewrite !Hlen. destruct Hcase as [|[[-> Hbits]|[Hne Hlt]]]; [lia| |].
  - rewrite Z.eqb_refl in Hbig. cbn [andb] in Hbig. bool_to_prop. lia.
  - destruct (Z.eqb_spec input 0) as [->|]; [change (byte_len 0) with 0%nat in Hlt; lia|]. destruct (Z.eqb_spec size 0); [lia|]. cbn [negb andb].
    destruct (Z.ltb_spec size (Z.of_nat (byte_len input))); [by eexists|lia].
Qed.

(** [integerToByteString] and [byteStringToInteger] are inverse: a conversion
    that succeeds yields bytes, as many as asked for (or as needed, for width 0),
    that read back as the integer, in either byte order; it fails exactly on
    negative integers, on widths too small, and on results above the maximum; and
    every byte string is the conversion of the integer it reads as. *)
Theorem integer_bytes_roundtrip (endianness : bool) (size input : Z) (bytes : list Z) :
  0 <= size → Forall is_byte bytes →
  match integer_to_byte_string endianness size input with
  | Ok bs => 0 <= input ∧ Forall is_byte bs ∧ bytes_to_integer endianness bs = input ∧ length bs = width size input
  | Err _ => input < 0 ∨ (size = 0 ∧ 8 * MAX_BYTE_STRING_OUTPUT_LENGTH <= integer_log2 input) ∨
             (size ≠ 0 ∧ (Z.to_nat size < byte_len input)%nat)
  | _ => False
  end ∧
  integer_to_byte_string endianness (Z.of_nat (length bytes)) (bytes_to_integer endianness bytes) = Ok bytes.
Proof.
  intros Hs Hbytes. split.
  - destruct (decide (input < 0 ∨ (size = 0 ∧ 8 * MAX_BYTE_STRING_OUTPUT_LENGTH <= integer_log2 input) ∨
      (size ≠ 0 ∧ (Z.to_nat size < byte_len input)%nat))) as [Hbad|Hgood].
    { destruct (integer_to_byte_string_err endianness size input Hs Hbad) as [err ->]. exact Hbad. }
    assert (0 <= input) as Hi by (destruct (decide (input < 0)); [tauto|lia]).
    rewrite integer_to_byte_string_eq; [|done|done| |].
    2: { intros H0. destruct (decide (8 * MAX_BYTE_STRING_OUTPUT_LENGTH <= integer_log2 input)); [tauto|lia]. }
    2: { intros H0. destruct (decide (Z.to_nat size < byte_len input)%nat); [tauto|lia]. }
    split; [done|]. rewrite bytes_to_integer_reverse.
    assert (0 <= input < 256 ^ Z.of_nat (width size input)) as Hw.
    { split; [done|]. pose proof (byte_len_bound input). rewrite Z.abs_eq in * by done. unfold width. case_bool; [done|].
      eapply Z.lt_le_trans; [eassumption|]. apply Z.pow_le_mono_r; [lia|]. assert (¬ (Z.to_nat size < byte_len input)%nat) by tauto. lia. }
    rewrite from_le_bytes_le by done. split; [|split; [done|]].
    + destruct endianness; [apply Forall_reverse|]; apply le_bytes_bytes.
    + destruct endianness; by rewrite ?length_reverse, length_le_bytes.
  - set (l := if endianness then reverse bytes else bytes).
    assert (Forall is_byte l) as Hl by (unfold l; destruct endianness; [by apply Forall_reverse|done]).
    assert (length l = length bytes) as Hlen by (unfold l; destruct endianness; [apply length_reverse|done]).
    assert (bytes = if endianness then reverse l else l) as Hb
      by (unfold l; destruct endianness; [by rewrite reverse_involutive|done]).
    pose proof (from_le_bytes_nonneg l Hl) as Hr. rewrite Hb at 1 2. rewrite bytes_to_integer_reverse.
    assert ((byte_len (from_le_bytes l) <= length l)%nat) as Hw by (by apply byte_len_le).
    rewrite <- Hb, <- Hlen. rewrite integer_to_byte_string_eq; [|lia|lia| |intros; lia].
    2: { intros H0. assert (l = []) as -> by (apply nil_length_inv; lia). vm_compute. reflexivity. }
    f_equal. assert (width (Z.of_nat (length l)) (from_le_bytes l) = length l) as ->.
    { unfold width. case_bool; lia. }
    by rewrite le_bytes_from_le.
Qed.

Lemma integer_bytes_roundtrip_witness :
  integer_to_byte_string true (Z.of_nat (length [1; 2])) (bytes_to_integer true [1; 2]) = Ok [1; 2].
Proof. apply (integer_bytes_roundtrip true 4 258 [1; 2]); [lia|repeat constructor; lia]. Defined.

(** ** Reification of values *)

(** Terms whose free variables are among the [n] innermost binders. *)
Fixpoint closed_at (n : Z) (t : Term) : Prop :=
  match t with
  | Var i => 1 <= i <= n
  | Lambda _ body => closed_at (n + 1) body
  | Delay body | Force body => closed_at n body
  | Apply f a => closed_at n f ∧ closed_at n a
  | Case t branches => closed_at n t ∧ foldr (λ t P, closed_at n t ∧ P) True branches
  | Constr _ fields => foldr (λ t P, closed_at n t ∧ P) True fields
  | Constant_ _ | Builtin _ | Error => True
  end.

(** Terms without [constr] and [case]. *)
Fixpoint plain (t : Term) : Prop :=
  match t with
  | Lambda _ body | Delay body | Force body => plain body
  | Apply f a => plain f ∧ plain a
  | Case _ _ | Constr _ _ => False
  | Var _ | Constant_ _ | Builtin _ | Error => True
  end.

Fixpoint env_len (env : Env) : Z := match env with EnvEmpty => 0 | EnvCons _ next => 1 + env_len next end.

(** Values whose closures bind all the variables of their bodies, and have plain
    bodies when [only_plain]. *)
Fixpoint value_closed (only_plain : bool) (v : Value) : Prop :=
  match v with
  | VCon _ => True
  | VLambda _ body env => closed_at (env_len env + 1) body ∧ (only_plain = true → plain body) ∧ env_closed only_plain env
  | VDelay body env => closed_at (env_len env) body ∧ (only_plain = true → plain body) ∧ env_closed only_plain env
  | VBuiltin args _ _ | VConstr _ args => foldr (λ v P, value_closed only_plain v ∧ P) True args
  end
with env_closed (only_plain : bool) (env : Env) : Prop :=
  match env with
  | EnvEmpty => True
  | EnvCons data next => value_closed only_plain data ∧ env_closed only_plain next
  end.

Lemma closed_at_mono t : ∀ n m, n <= m → closed_at n t → closed_at m t.
Proof.
  induction t as [i|p t IH|f a IHf IHa|t IH|t IH|t bs IHt IHbs|tag fs IHfs|c|f|] using Term_ind';
    intros n m Hnm; cbn; eauto; try lia.
  - apply IH. lia.
  - intros [? ?]. eauto.
  - intros [Ht Hbs]. split; [eauto|]. clear Ht IHt. induction IHbs; cbn in *; [done|]. destruct Hbs. eauto.
  - intros Hfs. induction IHfs; cbn in *; [done|]. destruct Hfs. eauto.
Qed.

Lemma with_env_closed t : ∀ n ds, 0 <= n → plain t → Forall (closed_at 0) ds → closed_at (n + Z.of_nat (length ds)) t →
  closed_at n (with_env n ds t).
Proof.
  induction t as [i|p t IH|f a IHf IHa|t IH|t IH| | | | |] using Term_ind'; intros n ds Hn Hp Hds Ht; cbn in *; try done; auto.
  - case_bool; [cbn; lia|]. destruct (lookup_lt_is_Some_2 ds (Z.to_nat (i - n - 1)) ltac:(lia)) as [d Hd]. rewrite Hd.
    apply (closed_at_mono d 0); [lia|]. rewrite Forall_lookup in Hds. eauto.
  - apply IH; auto; [lia|]. by replace (n + 1 + Z.of_nat (length ds)) with (n + Z.of_nat (length ds) + 1) by lia.
  - destruct Hp, Ht. auto.
Qed.

Lemma env_as_terms_len env : Z.of_nat (length (env_as_terms env)) = env_len env.
Proof. induction env as [|v env IH]; cbn; [done|]. lia. Qed.

Lemma foldl_apply_closed ts t : closed_at 0 t → Forall (closed_at 0) ts → closed_at 0 (foldl (λ term arg, Apply term arg) t ts).
Proof. intros Ht Hts. revert t Ht. induction Hts; intros t Ht; cbn; [done|]. apply IHHts. by split. Qed.

Lemma iter_force_closed n t : closed_at 0 t → closed_at 0 (Nat.iter n Force t).
Proof. intros Ht. by induction n. Qed.

Lemma value_as_term_closed : ∀ v, value_closed true v → closed_at 0 (value_as_term v).
Proof.
  fix IH 1. assert (∀ env, env_closed true env → Forall (closed_at 0) (env_as_terms env)) as Henv.
  { fix IHe 1. intros [|v env]; cbn; [constructor|]. intros [Hv He]. constructor; [by apply IH|by apply IHe]. }
  intros [c|p body env|args f n|body env|tag args]; cbn [value_closed value_as_term].
  - done.
  - intros (Hb & Hp & He). apply with_env_closed; [lia|by apply Hp|by apply Henv|]. cbn. rewrite env_as_terms_len.
    by replace (0 + env_len env + 1) with (env_len env + 1) by lia.
  - intros Ha. apply foldl_apply_closed; [by apply iter_force_closed|]. clear Henv. revert Ha.
    induction args as [|a args IHargs]; cbn; [constructor|]. intros [Ha Hargs]. constructor; [by apply IH|by apply IHargs].
  - intros (Hb & Hp & He). apply with_env_closed; [lia|by apply Hp|by apply Henv|]. cbn. by rewrite env_as_terms_len.
  - intros Ha. cbn. clear Henv. revert Ha. induction args as [|a args IHargs]; cbn; [done|].
    intros [Ha Hargs]. split; [by apply IH|by apply IHargs].
Qed.

(** Reifying a closed value gives a closed term as long as the bodies of its
    closures have no [constr] or [case]; with one, it may not: [with_env] returns
    such bodies as they are, so the variables below keep pointing to an
    environment that is gone. *)
Theorem discharge_skips_constr :
  (∀ v, value_closed true v → closed_at 0 (value_as_term v)) ∧
  ∃ v, value_closed false v ∧ ¬ closed_at 0 (value_as_term v).
Proof.
  split; [apply value_as_term_closed|].
  exists (VDelay (Constr 0 [Var 1]) (EnvCons (VCon ConUnit) EnvEmpty)). cbn. lia.
Qed.
