(* ===== verification/CekTyping.v ===== *)
(** * Well-typed values of the CEK machine

    Plutus terms are untyped, but their constants are not: a list of type [t]
    holds constants of type [t].  Builtins rely on it (their other branches are
    [unreachable!]), decoding establishes it, evaluation preserves it.  Ledger
    values are canonical in the same way. *)

From S2P Require Import Prelude UplcSyntax LedgerValue ParamName Costing CekSyntax.

Fixpoint const_wt (c : Constant) : Prop :=
  match c with
  | ConProtoList t items | ConProtoArray t items =>
      foldr (λ x P, type_of x = t ∧ const_wt x ∧ P) True items
  | ConProtoPair t1 t2 first second =>
      type_of first = t1 ∧ type_of second = t2 ∧ const_wt first ∧ const_wt second
  | ConValue v => value_wf v
  | _ => True
  end.

Fixpoint term_wt (t : Term) : Prop :=
  match t with
  | Constant_ c => const_wt c
  | Lambda _ body | Delay body | Force body => term_wt body
  | Apply f a => term_wt f ∧ term_wt a
  | Case t branches => term_wt t ∧ foldr (λ t P, term_wt t ∧ P) True branches
  | Constr _ fields => foldr (λ t P, term_wt t ∧ P) True fields
  | Var _ | Builtin _ | Error => True
  end.

Fixpoint value_wt (v : Value) : Prop :=
  match v with
  | VCon c => const_wt c
  | VLambda _ body env | VDelay body env => term_wt body ∧ env_wt env
  | VBuiltin args _ _ => foldr (λ v P, value_wt v ∧ P) True args
  | VConstr _ fields => foldr (λ v P, value_wt v ∧ P) True fields
  end
with env_wt (env : Env) : Prop :=
  match env with
  | EnvEmpty => True
  | EnvCons data next => value_wt data ∧ env_wt next
  end.

Definition frame_wt (f : Frame) : Prop :=
  match f with
  | AwaitArg v | AwaitFunValue v => value_wt v
  | AwaitFunTerm env t => env_wt env ∧ term_wt t
  | FrameForce => True
  | FrameConstr env _ terms values => env_wt env ∧ Forall term_wt terms ∧ Forall value_wt values
  | FrameCases env branches => env_wt env ∧ Forall term_wt branches
  end.

(** ** The lists inside are lists of well-typed items *)

Lemma foldr_Forall {A} (P : A → Prop) (l : list A) : foldr (λ x Q, P x ∧ Q) True l ↔ Forall P l.
Proof. induction l as [|x l IH]; cbn; [done|]. rewrite Forall_cons. tauto. Qed.

Definition item_wt (t : Typ) (c : Constant) : Prop := type_of c = t ∧ const_wt c.

Lemma const_wt_list t l : const_wt (ConProtoList t l) ↔ Forall (item_wt t) l.
Proof. cbn. induction l as [|x l IH]; cbn; [done|]. rewrite Forall_cons, IH. unfold item_wt. tauto. Qed.
Lemma const_wt_array t l : const_wt (ConProtoArray t l) ↔ Forall (item_wt t) l.
Proof. apply const_wt_list. Qed.
Lemma term_wt_case t bs : term_wt (Case t bs) ↔ term_wt t ∧ Forall term_wt bs.
Proof. cbn. by rewrite foldr_Forall. Qed.
Lemma term_wt_constr tag fs : term_wt (Constr tag fs) ↔ Forall term_wt fs.
Proof. cbn. by rewrite foldr_Forall. Qed.
Lemma value_wt_builtin args f n : value_wt (VBuiltin args f n) ↔ Forall value_wt args.
Proof. cbn. by rewrite foldr_Forall. Qed.
Lemma value_wt_constr tag fs : value_wt (VConstr tag fs) ↔ Forall value_wt fs.
Proof. cbn. by rewrite foldr_Forall. Qed.

Lemma Env_lookup_wt env name v : env_wt env → Env_lookup env name = Some v → value_wt v.
Proof.
  unfold Env_lookup. case_bool; [done|]. intros Hw H. clear n. revert name Hw H.
  induction env as [|data next IH]; intros name Hw H; cbn in *; [done|].
  destruct Hw as [Hd Hn]. case_bool_in H; [by simplify_eq|by eapply IH].
Qed.
