(* ===== verification/Cek.v ===== *)
(** * The CEK machine

    Models [amaru-uplc/src/machine/cek.rs] and [Program::eval] of [program.rs]:
    the machine's mutable state, the batched accounting of steps, the
    transitions on terms and on frames, and the evaluation loop.

    Builtin application ([Machine::call] of [runtime.rs], modelled in [Builtins])
    is reached through the interface [BuiltinRuntime].
    Errors keep the state the machine reached, as [&mut self] does. *)

From S2P Require Import Prelude UplcSyntax LedgerValue ParamName Costing CekSyntax.

(** ** State *)

(** [frames] is the stack with its top first; [unbudgeted_steps] has one counter
    per step kind and their total at the end, all [u8]. *)
Record Machine := mkMachine {
  initial_budget : ExBudget;
  ex_budget : ExBudget;
  unbudgeted_steps : list Z;
  costs : CostModel;
  slippage : Z;
  logs : list (list Z);
  frames : list Frame }.

Definition Machine_new (initial_budget : ExBudget) (costs : CostModel) : Machine :=
  mkMachine initial_budget initial_budget (replicate (StepKind_LEN + 1) 0) costs 200 [] [].

Definition set_budget (b : ExBudget) (m : Machine) : Machine :=
  mkMachine (initial_budget m) b (unbudgeted_steps m) (costs m) (slippage m) (logs m) (frames m).
Definition set_steps (s : list Z) (m : Machine) : Machine :=
  mkMachine (initial_budget m) (ex_budget m) s (costs m) (slippage m) (logs m) (frames m).
Definition set_logs (l : list (list Z)) (m : Machine) : Machine :=
  mkMachine (initial_budget m) (ex_budget m) (unbudgeted_steps m) (costs m) (slippage m) l (frames m).
Definition set_frames (f : list Frame) (m : Machine) : Machine :=
  mkMachine (initial_budget m) (ex_budget m) (unbudgeted_steps m) (costs m) (slippage m) (logs m) f.

Record MachineInfo := mkMachineInfo {
  remaining_budget : ExBudget; consumed_budget : ExBudget; info_logs : list (list Z) }.
Definition info (m : Machine) : MachineInfo :=
  mkMachineInfo (ex_budget m) (ExBudget_sub (initial_budget m) (ex_budget m)) (logs m).

(** ** The machine monad: results with the state reached *)
Definition MM (A : Type) : Type := Machine → exec MachineError A * Machine.
#[global] Instance MM_ret : MRet MM := λ A a m, (Ok a, m).
#[global] Instance MM_bind : MBind MM := λ A B f x m,
  match x m with
  | (Ok a, m') => f a m'
  | (Err e, m') => (Err e, m')
  | (Panic, m') => (Panic, m')
  | (OutOfFuel, m') => (OutOfFuel, m')
  end.
Definition raise {A} (e : MachineError) : MM A := λ m, (Err e, m).
Definition panic {A} : MM A := λ m, (Panic, m).
Definition gets {A} (f : Machine → A) : MM A := λ m, (Ok (f m), m).
Definition modify (f : Machine → Machine) : MM () := λ m, (Ok (), f m).
Definition lift {A} (x : exec MachineError A) : MM A := λ m, (x, m).

(** ** Budget *)

Definition spend_budget (spend : ExBudget) : MM () :=
  _ ← modify (λ m, set_budget (ExBudget_sub (ex_budget m) spend) m);
  b ← gets ex_budget;
  if (mem b <? 0) || (cpu b <? 0) then raise (OutOfExError b) else mret ().

(** [self.unbudgeted_steps[i] += 1], on [u8] counters. *)
Definition incr_steps (i : nat) : MM () := λ m,
  match unbudgeted_steps m !! i with
  | Some n => if n + 1 <=? u8_max then (Ok (), set_steps (<[i := n + 1]> (unbudgeted_steps m)) m) else (Panic, m)
  | None => (Panic, m)
  end.

Definition get_steps (i : nat) : MM Z := λ m,
  match unbudgeted_steps m !! i with Some n => (Ok n, m) | None => (Panic, m) end.

Definition clear_steps (i : nat) : MM () := modify (λ m, set_steps (<[i := 0]> (unbudgeted_steps m)) m).

(** The body of the loop of [spend_unbudgeted_steps]. *)
Definition spend_kind (step_kind : StepKind) : MM () :=
  n ← get_steps (StepKind_index step_kind);
  mc ← gets (λ m, machine_costs (costs m));
  _ ← spend_budget (ExBudget_scale (MachineCosts_step mc step_kind) n);
  clear_steps (StepKind_index step_kind).

Fixpoint spend_steps (kinds : list StepKind) : MM () :=
  match kinds with
  | [] => mret ()
  | step_kind :: kinds => _ ← spend_kind step_kind; spend_steps kinds
  end.

Definition spend_unbudgeted_steps : MM () :=
  _ ← spend_steps StepKind_enumerate;
  clear_steps StepKind_LEN.

Definition step_and_maybe_spend (step : StepKind) : MM () :=
  _ ← incr_steps (StepKind_index step);
  _ ← incr_steps StepKind_LEN;
  total ← get_steps StepKind_LEN;
  slippage ← gets slippage;
  if slippage <=? total then spend_unbudgeted_steps else mret ().

(** ** Frames *)

Definition push_frame (f : Frame) : MM Z :=
  _ ← modify (λ m, set_frames (f :: frames m) m);
  gets (λ m, Z.of_nat (length (frames m))).

Definition pop_frame : MM (option Frame) := λ m,
  match frames m with
  | [] => (Ok None, m)
  | f :: fs => (Ok (Some f), set_frames fs m)
  end.

(** Push the fields so that the first one is on top. *)
Definition transfer_arg_stack (fields : list Value) : MM Z :=
  _ ← modify (λ m, set_frames (foldl (λ fs field, AwaitFunValue field :: fs) (frames m) (reverse fields)) m);
  gets (λ m, Z.of_nat (length (frames m))).

(** ** Builtin application *)

(** What the machine asks of the builtins: the call of a function on its
    arguments, under a cost model. *)
Class BuiltinRuntime := builtin_runtime : CostModel → DefaultFunction → list Value → Call.

Section Machine.
Context `{BuiltinRuntime}.

Definition call (runtime : Runtime) : MM Value :=
  c ← gets costs;
  '(budget, result) ← lift (builtin_runtime c (r_fun runtime) (r_args runtime));
  _ ← spend_budget budget;
  '(value, lines) ← lift result;
  _ ← modify (λ m, set_logs (logs m ++ lines) m);
  mret value.

(** ** Case on constants *)
Definition constant_as_tag_fields (constant : Constant) : exec MachineError (Z * Z * list Value) :=
  match constant with
  | ConUnit => Ok (0, 1, [])
  | ConBoolean false => Ok (0, 2, [])
  | ConBoolean true => Ok (1, 2, [])
  | ConInteger i =>
      if (0 <=? i) && (i <=? usize_max) then Ok (i, usize_max, [])
      else Err (RuntimeErr (OutsideUsizeBounds i))
  | ConProtoList ty items =>
      match items with
      | [] => Ok (1, 2, [])
      | head :: tail => Ok (0, 2, [VCon head; VCon (ConProtoList ty tail)])
      end
  | ConProtoPair _ _ first second => Ok (0, 1, [VCon first; VCon second])
  | _ => Err (NonConstrScrutinized (VCon constant))
  end.

(** [branches.get(tag)]. *)
Definition get_branch (branches : list Term) (tag : Z) : option Term :=
  if tag <? 0 then None else branches !! Z.to_nat tag.

(** ** Transitions *)

Definition compute (context : Z) (env : Env) (term : Term) : MM MachineState :=
  match term with
  | Var name =>
      _ ← step_and_maybe_spend StepVar;
      value ← lift (ok_or (OpenTermEvaluated term) (Env_lookup env name));
      mret (Return context value)
  | Lambda parameter body =>
      _ ← step_and_maybe_spend StepLambda;
      mret (Return context (VLambda parameter body env))
  | Apply function argument =>
      _ ← step_and_maybe_spend StepApply;
      frame ← push_frame (AwaitFunTerm env argument);
      mret (Compute frame env function)
  | Delay body =>
      _ ← step_and_maybe_spend StepDelay;
      mret (Return context (VDelay body env))
  | Force body =>
      _ ← step_and_maybe_spend StepForce;
      frame ← push_frame FrameForce;
      mret (Compute frame env body)
  | Constr tag fields =>
      _ ← step_and_maybe_spend StepConstr;
      match fields with
      | first :: terms =>
          frame ← push_frame (FrameConstr env tag terms []);
          mret (Compute frame env first)
      | [] => mret (Return context (VConstr tag []))
      end
  | Case constr branches =>
      _ ← step_and_maybe_spend StepCase;
      frame ← push_frame (FrameCases env branches);
      mret (Compute frame env constr)
  | Constant_ constant =>
      _ ← step_and_maybe_spend StepConstant;
      mret (Return context (VCon constant))
  | Builtin f =>
      _ ← step_and_maybe_spend StepBuiltin;
      mret (Return context (Value_builtin (Runtime_new f)))
  | Error => raise ExplicitErrorTerm
  end.

Definition force_evaluate (context : Z) (value : Value) : MM MachineState :=
  match value with
  | VDelay term env => mret (Compute context env term)
  | VBuiltin args fun_ forces =>
      let runtime := mkRuntime args fun_ forces in
      if needs_force runtime then
        value ← (if is_ready runtime then call runtime
                 else mret (Value_builtin (Runtime_force runtime)));
        mret (Return context value)
      else raise (BuiltinTermArgumentExpected (value_as_term value))
  | rest => raise (NonPolymorphicInstantiation rest)
  end.

Definition apply_evaluate (context : Z) (function argument : Value) : MM MachineState :=
  match function with
  | VLambda _ body env => mret (Compute context (Env_push env argument) body)
  | VBuiltin args fun_ forces =>
      let runtime := mkRuntime args fun_ forces in
      if negb (needs_force runtime) && is_arrow runtime then
        let runtime := Runtime_push runtime argument in
        value ← (if is_ready runtime then call runtime else mret (Value_builtin runtime));
        mret (Return context value)
      else raise (UnexpectedBuiltinTermArgument (value_as_term function))
  | rest => raise (NonFunctionApplication argument rest)
  end.

(** The [debug_assert_eq!] and the subtraction [context - 1] panic when the
    context is not the height of the stack. *)
Definition return_compute (context : Z) (value : Value) : MM MachineState :=
  height ← gets (λ m, Z.of_nat (length (frames m)));
  if negb (context =? height) then panic
  else
    frame ← pop_frame;
    match frame with
    | None =>
        total ← get_steps StepKind_LEN;
        _ ← (if 0 <? total then spend_unbudgeted_steps else mret ());
        mret (Done value)
    | Some frame =>
        let context := context - 1 in
        match frame with
        | AwaitFunTerm arg_env argument =>
            context ← push_frame (AwaitArg value);
            mret (Compute context arg_env argument)
        | AwaitArg function => apply_evaluate context function value
        | AwaitFunValue argument => apply_evaluate context value argument
        | FrameForce => force_evaluate context value
        | FrameConstr env tag terms values =>
            let values := values ++ [value] in
            match terms with
            | first :: terms =>
                frame ← push_frame (FrameConstr env tag terms values);
                mret (Compute frame env first)
            | [] => mret (Return context (VConstr tag values))
            end
        | FrameCases env branches =>
            match value with
            | VConstr tag fields =>
                match get_branch branches tag with
                | Some branch =>
                    frame ← transfer_arg_stack fields;
                    mret (Compute frame env branch)
                | None => raise (MissingCaseBranch branches value)
                end
            | VCon constant =>
                c ← gets costs;
                if bool_decide (case_on_constants c = NoData) then
                  '(tag, max_branches, fields) ← lift (constant_as_tag_fields constant);
                  if max_branches <? Z.of_nat (length branches) then raise (MissingCaseBranch branches value)
                  else match get_branch branches tag with
                       | Some branch =>
                           frame ← transfer_arg_stack fields;
                           mret (Compute frame env branch)
                       | None => raise (MissingCaseBranch branches value)
                       end
                else raise (NonConstrScrutinized value)
            | v => raise (NonConstrScrutinized v)
            end
        end
    end.

(** One turn of the loop of [run]. *)
Definition step (state : MachineState) : MM MachineState :=
  match state with
  | Compute context env term => compute context env term
  | Return context value => return_compute context value
  | Done value => mret (Done value)
  end.

Fixpoint run_loop (fuel : nat) (state : MachineState) : MM Value :=
  match state with
  | Done value => mret value
  | _ =>
      match fuel with
      | O => λ m, (OutOfFuel, m)
      | S fuel => state ← step state; run_loop fuel state
      end
  end.

Definition run (fuel : nat) (term : Term) : MM Value :=
  c ← gets (λ m, startup (machine_costs (costs m)));
  _ ← spend_budget c;
  run_loop fuel (Compute 0 EnvEmpty term).

(** [Program::eval]: unavailable versions are rejected before anything runs. *)
Definition eval (fuel : nat) (p : Program) (cost_model : CostModel) (budget : ExBudget)
  : exec MachineError Value * MachineInfo :=
  let machine := Machine_new budget cost_model in
  let '(value, machine) :=
    if supports_program_version (semantics cost_model) (version p) then run fuel (term p) machine
    else (Err (UnavailableProgramVersion (version p)), machine) in
  (value, info machine).
End Machine.
