(* ===== verification/CekBudget.v ===== *)
(** * Accounting of the CEK machine

    The machine counts steps and charges them in batches.  This file relates the
    counters to what remains to be charged ([remaining]), and proves that every
    operation of the machine keeps its invariant, never panics, and only ever
    lowers what remains, whatever the batch size. *)

From S2P Require Import Prelude UplcSyntax ParamName Costing CekSyntax Cek.

(** ** Invariant *)

(** The two components of a budget, treated alike. *)
Inductive component := Mem | Cpu.
Definition get (p : component) (b : ExBudget) : Z := match p with Mem => mem b | Cpu => cpu b end.

(** Price of a step of a kind, and steps of a kind not charged yet. *)
Definition price (m : Machine) (k : StepKind) : ExBudget := MachineCosts_step (machine_costs (costs m)) k.
Definition count (m : Machine) (k : StepKind) : Z := default 0 (unbudgeted_steps m !! StepKind_index k).
Definition total (m : Machine) : Z := default 0 (unbudgeted_steps m !! StepKind_LEN).

Fixpoint sum_kinds (f : StepKind → Z) (ks : list StepKind) : Z :=
  match ks with [] => 0 | k :: ks => f k + sum_kinds f ks end.

(** What the uncharged steps will cost, and what remains once they are charged. *)
Definition pending (p : component) (m : Machine) : Z :=
  sum_kinds (λ k, get p (price m k) * count m k) StepKind_enumerate.
Definition remaining (p : component) (m : Machine) : Z := get p (ex_budget m) - pending p m.

Definition costs_ok (c : CostModel) : Prop :=
  ∀ p k, 0 <= get p (MachineCosts_step (machine_costs c) k) <= i64_max.
Definition budget_ok (b : ExBudget) : Prop := ∀ p, 0 <= get p b < i64_max.

(** The counters are those of a machine between two steps, or in the middle of
    one: the total counts the steps of every kind. *)
Record counters_ok (m : Machine) : Prop := {
  ok_len : length (unbudgeted_steps m) = S StepKind_LEN;
  ok_count : ∀ k, 0 <= count m k;
  ok_total : total m = sum_kinds (count m) StepKind_enumerate;
  ok_costs : costs_ok (costs m);
  ok_budget : budget_ok (ex_budget m) }.

Record inv (m : Machine) : Prop := {
  inv_counters : counters_ok m;
  inv_slippage : total m < slippage m <= u8_max }.

(** Every step costs at least one unit of CPU. *)
Definition costs_positive (c : CostModel) : Prop :=
  ∀ k, 1 <= cpu (MachineCosts_step (machine_costs c) k).

(** A quantity that every charged step decreases. *)
Definition fuel_left (m : Machine) : Z := cpu (ex_budget m) - total m.

(** ** Sums over the step kinds *)

Lemma sum_kinds_mono f g ks : (∀ k, f k <= g k) → sum_kinds f ks <= sum_kinds g ks.
Proof. intros H. induction ks as [|k ks IH]; cbn; [lia|]. specialize (H k). lia. Qed.

Lemma sum_kinds_nonneg f ks : (∀ k, 0 <= f k) → 0 <= sum_kinds f ks.
Proof. intros H. induction ks as [|k ks IH]; cbn; [lia|]. specialize (H k). lia. Qed.

Lemma sum_kinds_ext f g ks : (∀ k, k ∈ ks → f k = g k) → sum_kinds f ks = sum_kinds g ks.
Proof.
  induction ks as [|k ks IH]; [done|]. intros H. cbn. rewrite IH by (intros; apply H; by right).
  rewrite (H k); [done|left].
Qed.

Lemma sum_kinds_zero f ks : (∀ k, f k = 0) → sum_kinds f ks = 0.
Proof. intros H. induction ks as [|k ks IH]; cbn; [done|]. rewrite H, IH. done. Qed.

Lemma count_le_sum f k : (∀ k, 0 <= f k) → f k <= sum_kinds f StepKind_enumerate.
Proof.
  intros H. pose proof (λ k, H k) as Hk.
  pose proof (H StepConstant). pose proof (H StepVar). pose proof (H StepLambda). pose proof (H StepApply).
  pose proof (H StepDelay). pose proof (H StepForce). pose proof (H StepBuiltin). pose proof (H StepConstr).
  pose proof (H StepCase). destruct k; cbn; lia.
Qed.

Lemma StepKind_index_inj k k' : StepKind_index k = StepKind_index k' → k = k'.
Proof. by destruct k, k'. Qed.
Lemma StepKind_index_lt k : (StepKind_index k < StepKind_LEN)%nat.
Proof. destruct k; cbn; unfold StepKind_LEN; lia. Qed.

Lemma pending_nonneg p m : counters_ok m → 0 <= pending p m.
Proof.
  intros Hm. apply sum_kinds_nonneg. intros k. apply Z.mul_nonneg_nonneg; [apply Hm|by apply ok_count].
Qed.

(** ** Charging *)

Lemma ExBudget_sub_exact b c p : budget_ok b → (∀ p, 0 <= get p c <= i64_max) →
  get p (ExBudget_sub b c) = get p b - get p c.
Proof.
  intros Hb Hc. specialize (Hb p). specialize (Hc p).
  destruct p; cbn in *; unfold i64_saturating_sub, i64_clamp, i64_min, i64_max in *; lia.
Qed.

Lemma ExBudget_scale_get p b n : 0 <= get p b → 0 <= n →
  get p (ExBudget_scale b n) = Z.min i64_max (get p b * n).
Proof.
  intros Hb Hn. assert (0 <= get p b * n) by (by apply Z.mul_nonneg_nonneg).
  destruct p; cbn in *; unfold i64_saturating_mul, i64_clamp, i64_min, i64_max in *; lia.
Qed.

(** [spend_budget] succeeds exactly when both components can be paid. *)
Lemma spend_budget_spec c m : budget_ok (ex_budget m) → (∀ p, 0 <= get p c <= i64_max) →
  match spend_budget c m with
  | (Ok _, m') => ∃ b, m' = set_budget b m ∧ ∀ p, get p b = get p (ex_budget m) - get p c ∧ 0 <= get p b
  | (Err _, m') => ∃ p, get p (ex_budget m) < get p c
  | _ => False
  end.
Proof.
  intros Hb Hc. unfold spend_budget, mbind, MM_bind, modify, gets, raise. cbn [ex_budget set_budget].
  pose proof (λ p, ExBudget_sub_exact _ _ p Hb Hc) as Hsub.
  destruct (_ || _) eqn:Hneg.
  - apply orb_true_iff in Hneg as [H%Z.ltb_lt|H%Z.ltb_lt]; [exists Mem|exists Cpu].
    + specialize (Hsub Mem). cbn in *. lia.
    + specialize (Hsub Cpu). cbn in *. lia.
  - apply orb_false_iff in Hneg as [H1%Z.ltb_ge H2%Z.ltb_ge]. cbn.
    eexists. split; [done|]. intros p. rewrite Hsub. split; [done|]. rewrite <- Hsub. by destruct p.
Qed.

(** The machine after charging the steps of one kind. *)
Definition cleared (k : StepKind) (b : ExBudget) (m : Machine) : Machine :=
  set_steps (<[StepKind_index k := 0]> (unbudgeted_steps m)) (set_budget b m).

Lemma count_cleared k b m k' : length (unbudgeted_steps m) = S StepKind_LEN →
  count (cleared k b m) k' = if decide (k' = k) then 0 else count m k'.
Proof.
  intros Hlen. unfold count. cbn. case_decide as Hk.
  - subst. rewrite list_lookup_insert_eq; [done|]. rewrite Hlen. pose proof (StepKind_index_lt k). lia.
  - rewrite list_lookup_insert_ne; [done|]. by intros Heq%StepKind_index_inj.
Qed.

Lemma spend_kind_spec k m : length (unbudgeted_steps m) = S StepKind_LEN → 0 <= count m k →
  costs_ok (costs m) → budget_ok (ex_budget m) →
  match spend_kind k m with
  | (Ok _, m') => ∃ b, m' = cleared k b m ∧
      ∀ p, get p b = get p (ex_budget m) - get p (price m k) * count m k ∧ 0 <= get p b < i64_max
  | (Err _, m') => ∃ p, get p (ex_budget m) < get p (price m k) * count m k
  | _ => False
  end.
Proof.
  intros Hlen Hcount Hcosts Hb.
  assert (get_steps (StepKind_index k) m = (Ok (count m k), m)) as Hget.
  { destruct (lookup_lt_is_Some_2 (unbudgeted_steps m) (StepKind_index k)) as [n Hn].
    - rewrite Hlen. pose proof (StepKind_index_lt k). lia.
    - unfold get_steps, count. by rewrite Hn. }
  unfold spend_kind, mbind, MM_bind, gets. rewrite Hget. cbn iota.
  change (MachineCosts_step (machine_costs (costs m)) k) with (price m k).
  assert (∀ p, 0 <= get p (price m k) * count m k) as Hpos
    by (intros p; apply Z.mul_nonneg_nonneg; [apply Hcosts|done]).
  assert (∀ p, get p (ExBudget_scale (price m k) (count m k)) = Z.min i64_max (get p (price m k) * count m k)) as Hsc.
  { intros p. apply ExBudget_scale_get; [apply Hcosts|done]. }
  pose proof (spend_budget_spec (ExBudget_scale (price m k) (count m k)) m Hb) as Hspend.
  assert (∀ p, 0 <= get p (ExBudget_scale (price m k) (count m k)) <= i64_max) as Hrange.
  { intros p. rewrite Hsc. specialize (Hpos p). unfold i64_max. lia. }
  specialize (Hspend Hrange).
  destruct (spend_budget _ m) as [[[]|e| |] m1]; try done.
  - destruct Hspend as (b & -> & Hb1). exists b. split; [done|]. intros p.
    specialize (Hb1 p) as [H1 H2]. rewrite Hsc in H1. specialize (Hb p). specialize (Hpos p). lia.
  - destruct Hspend as [p Hp]. exists p. rewrite Hsc in Hp. specialize (Hb p). lia.
Qed.

Definition clear_kinds (ks : list StepKind) (steps : list Z) : list Z :=
  foldl (λ s k, <[StepKind_index k := 0]> s) steps ks.

(** Charging the steps of some kinds: all or nothing. *)
Lemma spend_steps_spec ks m : NoDup ks →
  length (unbudgeted_steps m) = S StepKind_LEN → (∀ k, 0 <= count m k) →
  costs_ok (costs m) → budget_ok (ex_budget m) →
  match spend_steps ks m with
  | (Ok _, m') =>
      ∃ b, m' = set_steps (clear_kinds ks (unbudgeted_steps m)) (set_budget b m) ∧
      ∀ p, get p b = get p (ex_budget m) - sum_kinds (λ k, get p (price m k) * count m k) ks ∧ 0 <= get p b < i64_max
  | (Err _, m') => ∃ p, get p (ex_budget m) < sum_kinds (λ k, get p (price m k) * count m k) ks
  | _ => False
  end.
Proof.
  revert m. induction ks as [|k ks IH]; intros m Hnd Hlen Hcount Hcosts Hb.
  { cbn. exists (ex_budget m). split; [by destruct m|]. intros p. specialize (Hb p). lia. }
  apply NoDup_cons in Hnd as [Hk Hnd]. cbn [spend_steps sum_kinds]. unfold mbind, MM_bind.
  pose proof (spend_kind_spec k m Hlen (Hcount k) Hcosts Hb) as H1.
  destruct (spend_kind k m) as [[[]|e| |] m1]; try done.
  - destruct H1 as (b & -> & Hb1).
    assert (∀ p, sum_kinds (λ k', get p (price (cleared k b m) k') * count (cleared k b m) k') ks
                 = sum_kinds (λ k, get p (price m k) * count m k) ks) as Hsum.
    { intros p. apply sum_kinds_ext. intros k' Hk'. rewrite count_cleared by done.
      rewrite decide_False by (by intros ->). done. }
    specialize (IH (cleared k b m) Hnd ltac:(cbn; by rewrite length_insert)).
    destruct (spend_steps ks (cleared k b m)) as [[[]|e| |] m2];
      [destruct IH as (b' & -> & Hb')|destruct IH as [p Hp]|apply IH|apply IH];
      try (intros k'; rewrite count_cleared by done; case_decide; [done|apply Hcount]); try done;
      try (intros p'; apply Hb1).
    + exists b'. split; [by destruct m|]. intros p. specialize (Hb' p) as [H2 H3]. split; [|done].
      rewrite H2, Hsum. cbn [cleared set_steps set_budget ex_budget]. specialize (Hb1 p). lia.
    + exists p. rewrite Hsum in Hp. cbn [cleared set_steps set_budget ex_budget] in Hp. specialize (Hb1 p). lia.
  - destruct H1 as [p Hp]. exists p.
    assert (0 <= sum_kinds (λ k, get p (price m k) * count m k) ks).
    { apply sum_kinds_nonneg. intros k'. apply Z.mul_nonneg_nonneg; [apply Hcosts|done]. }
    lia.
Qed.

(** The machine with no step left to charge. *)
Definition flushed (b : ExBudget) (m : Machine) : Machine :=
  set_steps (replicate (StepKind_LEN + 1) 0) (set_budget b m).

Lemma length_10 (l : list Z) : length l = S StepKind_LEN →
  ∃ a0 a1 a2 a3 a4 a5 a6 a7 a8 a9, l = [a0; a1; a2; a3; a4; a5; a6; a7; a8; a9].
Proof. intros H. do 10 (destruct l as [|? l]; [done|]). destruct l; [|done]. by repeat eexists. Qed.

Lemma NoDup_StepKind_enumerate : NoDup StepKind_enumerate.
Proof. apply (bool_decide_unpack (NoDup StepKind_enumerate)). vm_compute. done. Qed.

(** [spend_unbudgeted_steps] charges exactly the pending steps, when they can be
    paid, and fails otherwise. *)
Lemma spend_unbudgeted_steps_spec m : counters_ok m →
  match spend_unbudgeted_steps m with
  | (Ok _, m') => ∃ b, m' = flushed b m ∧ ∀ p, get p b = remaining p m ∧ 0 <= get p b < i64_max
  | (Err _, m') => ∃ p, remaining p m < 0
  | _ => False
  end.
Proof.
  intros [Hlen Hcount Htotal Hcosts Hb]. unfold spend_unbudgeted_steps, mbind, MM_bind.
  pose proof (spend_steps_spec StepKind_enumerate m NoDup_StepKind_enumerate Hlen Hcount Hcosts Hb) as H.
  destruct (spend_steps StepKind_enumerate m) as [[[]|e| |] m1]; try done.
  - destruct H as (b & -> & Hb1). cbn [clear_steps modify]. exists b. split; [|done].
    unfold flushed. cbn [unbudgeted_steps set_steps set_budget].
    destruct (length_10 _ Hlen) as (a0 & a1 & a2 & a3 & a4 & a5 & a6 & a7 & a8 & a9 & ->). done.
  - destruct H as [p Hp]. exists p. unfold remaining, pending. lia.
Qed.

Lemma count_flushed b m k : count (flushed b m) k = 0.
Proof. by destruct k. Qed.

Lemma remaining_flushed p b m : remaining p (flushed b m) = get p b.
Proof.
  unfold remaining, pending. rewrite sum_kinds_zero; [cbn; lia|]. intros k. rewrite count_flushed. lia.
Qed.

Lemma flushed_inv b m : counters_ok m → (∀ p, 0 <= get p b < i64_max) → 1 <= slippage m <= u8_max →
  inv (flushed b m).
Proof.
  intros [Hlen Hcount Htotal Hcosts Hb] Hb' Hs. split; [split|]; try done.
  - intros k. by rewrite count_flushed.
  - change (total (flushed b m)) with 0. cbn in *. lia.
Qed.

(** Charging a step: the counters go up, and the batch is charged when full. *)
Definition counted (k : StepKind) (m : Machine) : Machine :=
  set_steps (<[StepKind_LEN := total m + 1]> (<[StepKind_index k := count m k + 1]> (unbudgeted_steps m))) m.

Lemma count_counted k m k' : length (unbudgeted_steps m) = S StepKind_LEN →
  count (counted k m) k' = count m k' + (if decide (k' = k) then 1 else 0).
Proof.
  intros Hlen. unfold count. cbn [unbudgeted_steps counted set_steps].
  pose proof (StepKind_index_lt k'). pose proof (StepKind_index_lt k).
  rewrite list_lookup_insert_ne by lia. case_decide as Hk.
  - subst. rewrite list_lookup_insert_eq by lia. done.
  - rewrite list_lookup_insert_ne by (by intros Heq%StepKind_index_inj; subst). lia.
Qed.

Lemma total_counted k m : length (unbudgeted_steps m) = S StepKind_LEN → total (counted k m) = total m + 1.
Proof.
  intros Hlen. unfold total at 1. cbn [unbudgeted_steps counted set_steps].
  rewrite list_lookup_insert_eq; [done|]. rewrite length_insert, Hlen. lia.
Qed.

Lemma sum_kinds_indicator k (x : Z) :
  sum_kinds (λ k', if decide (k' = k) then x else 0) StepKind_enumerate = x.
Proof. destruct k; unfold StepKind_enumerate; cbn [sum_kinds]; repeat (case_decide; try done); lia. Qed.

Lemma sum_kinds_add f g ks : sum_kinds (λ k, f k + g k) ks = sum_kinds f ks + sum_kinds g ks.
Proof. induction ks as [|k ks IH]; cbn; [done|]. rewrite IH. lia. Qed.

Lemma counted_ok k m : counters_ok m → counters_ok (counted k m).
Proof.
  intros [Hlen Hcount Htotal Hcosts Hb]. split; try done.
  - cbn. by rewrite !length_insert.
  - intros k'. rewrite count_counted by done. specialize (Hcount k'). case_decide; lia.
  - rewrite total_counted, Htotal by done.
    rewrite (sum_kinds_ext (count (counted k m)) (λ k', count m k' + (if decide (k' = k) then 1 else 0)))
      by (intros; by apply count_counted).
    by rewrite sum_kinds_add, sum_kinds_indicator.
Qed.

Lemma remaining_counted p k m : length (unbudgeted_steps m) = S StepKind_LEN →
  remaining p (counted k m) = remaining p m - get p (price m k).
Proof.
  intros Hlen. unfold remaining, pending.
  rewrite (sum_kinds_ext (λ k', get p (price (counted k m) k') * count (counted k m) k')
    (λ k', get p (price m k') * count m k' + (if decide (k' = k) then get p (price m k) else 0))).
  - rewrite sum_kinds_add, sum_kinds_indicator. cbn. lia.
  - intros k' _. rewrite count_counted by done. change (price (counted k m) k') with (price m k').
    case_decide; [subst|]; lia.
Qed.

Lemma step_and_maybe_spend_eq k m : counters_ok m → total m < u8_max →
  step_and_maybe_spend k m =
  if slippage m <=? total m + 1 then spend_unbudgeted_steps (counted k m) else (Ok (), counted k m).
Proof.
  intros [Hlen Hcount Htotal Hcosts Hb] Hmax.
  pose proof (count_le_sum (count m) k Hcount) as Hle. rewrite <- Htotal in Hle.
  unfold step_and_maybe_spend, mbind, MM_bind.
  assert (unbudgeted_steps m !! StepKind_index k = Some (count m k)) as Hk.
  { destruct (lookup_lt_is_Some_2 (unbudgeted_steps m) (StepKind_index k)) as [n Hn].
    - rewrite Hlen. pose proof (StepKind_index_lt k). lia.
    - unfold count. by rewrite Hn. }
  assert (unbudgeted_steps m !! StepKind_LEN = Some (total m)) as Ht.
  { destruct (lookup_lt_is_Some_2 (unbudgeted_steps m) StepKind_LEN) as [n Hn]; [rewrite Hlen; lia|].
    unfold total. by rewrite Hn. }
  unfold incr_steps at 1. rewrite Hk, (proj2 (Z.leb_le _ _)) by lia.
  pose proof (StepKind_index_lt k).
  unfold incr_steps. cbn [unbudgeted_steps set_steps]. rewrite list_lookup_insert_ne, Ht by lia.
  rewrite (proj2 (Z.leb_le _ _)) by lia.
  unfold get_steps. cbn [unbudgeted_steps set_steps].
  rewrite list_lookup_insert_eq by (rewrite length_insert, Hlen; lia).
  cbn [gets slippage set_steps]. by destruct (slippage m <=? total m + 1).
Qed.

(** A step lowers what remains by its price, or fails when it cannot be paid. *)
Lemma step_and_maybe_spend_spec k m : inv m →
  match step_and_maybe_spend k m with
  | (Ok _, m') => inv m' ∧ (∀ p, remaining p m' = remaining p m - get p (price m k)) ∧
      frames m' = frames m ∧ logs m' = logs m ∧ costs m' = costs m ∧ slippage m' = slippage m ∧
      initial_budget m' = initial_budget m ∧
      (costs_positive (costs m) → fuel_left m' < fuel_left m)
  | (Err _, m') => ∃ p, remaining p m - get p (price m k) < 0
  | _ => False
  end.
Proof.
  intros [Hc Hs]. rewrite step_and_maybe_spend_eq by (done || lia).
  pose proof (counted_ok k m Hc) as Hc'. destruct (Hc) as [Hlen Hcount Htotal Hcosts Hb].
  assert (0 <= total m) by (rewrite Htotal; by apply sum_kinds_nonneg).
  case_bool.
  - pose proof (spend_unbudgeted_steps_spec _ Hc') as H'.
    destruct (spend_unbudgeted_steps (counted k m)) as [[[]|e| |] m']; try done.
    + destruct H' as (b & -> & Hb'). split; [apply flushed_inv; [done|apply Hb'|cbn; lia]|].
      split; [intros p; rewrite remaining_flushed; destruct (Hb' p) as [-> _]; by apply remaining_counted|].
      repeat split; try done. intros Hpos. unfold fuel_left.
      change (total (flushed b (counted k m))) with 0.
      change (cpu (ex_budget (flushed b (counted k m)))) with (get Cpu b).
      destruct (Hb' Cpu) as [-> _]. rewrite remaining_counted by done. unfold remaining, pending. cbn [get].
      specialize (Hpos k) as Hk. change (cpu (MachineCosts_step _ k)) with (cpu (price m k)) in Hk.
      assert (total m <= sum_kinds (λ k, cpu (price m k) * count m k) StepKind_enumerate).
      { rewrite Htotal. apply sum_kinds_mono. intros k'. specialize (Hcount k'). specialize (Hpos k').
        unfold price. nia. }
      lia.
    + destruct H' as [p Hp]. exists p. by rewrite remaining_counted in Hp.
  - split; [split; [done|rewrite total_counted by done; cbn; lia]|].
    split; [intros p; by apply remaining_counted|]. repeat split; try done.
    intros _. unfold fuel_left. rewrite total_counted by done. cbn. lia.
Qed.
