(* ===== verification/CekProps.v ===== *)
(** * Correctness of the CEK machine

    Programs of the machine monad are specified by [spec]: from a machine that
    satisfies the invariant they do not panic, they keep the invariant and never
    raise what remains of the budget; and run on two machines that agree on
    everything but the batch size, they agree on the outcome unless one of them
    has already overspent.  Every transition meets such a specification, which
    gives the safety, batching and termination theorems at the end. *)

From S2P Require Import Prelude UplcSyntax ParamName Costing CostProps CekSyntax CekTyping Cek CekBudget.

(** ** Specifications *)

(** What may change in a machine. *)
Record below (m' m : Machine) : Prop := {
  below_costs : costs m' = costs m;
  below_slippage : slippage m' = slippage m;
  below_initial : initial_budget m' = initial_budget m;
  below_remaining : ∀ p, remaining p m' <= remaining p m;
  below_fuel : costs_positive (costs m) → fuel_left m' <= fuel_left m }.

Lemma below_refl m : below m m.
Proof. by split. Qed.
Lemma below_trans m1 m2 m3 : below m1 m2 → below m2 m3 → below m1 m3.
Proof.
  intros [] []. split; try congruence.
  - intros p. etransitivity; eauto.
  - intros Hp. etransitivity; [apply below_fuel0; congruence|auto].
Qed.

(** Machines that agree up to the batch size and the batches charged. *)
Record agree (m1 m2 : Machine) : Prop := {
  agree_frames : frames m1 = frames m2;
  agree_logs : logs m1 = logs m2;
  agree_costs : costs m1 = costs m2;
  agree_initial : initial_budget m1 = initial_budget m2;
  agree_remaining : ∀ p, remaining p m1 = remaining p m2 }.

Lemma agree_sym m1 m2 : agree m1 m2 → agree m2 m1.
Proof. by intros []; split. Qed.

(** Some component of the budget is already overspent. *)
Definition overspent (m : Machine) : Prop := ∃ p, remaining p m < 0.

Lemma overspent_below m m' : overspent m → below m' m → overspent m'.
Proof. intros [p Hp] Hb. exists p. pose proof (below_remaining _ _ Hb p). lia. Qed.

Definition good {A} (P : Machine → Prop) (x : MM A) (Q : A → Machine → Prop) : Prop :=
  ∀ m, inv m → P m →
    match x m with
    | (Ok a, m') => inv m' ∧ below m' m ∧ Q a m'
    | (Err _, _) => True
    | _ => False
    end.

Definition agrees {A} (P : Machine → Prop) (x : MM A) : Prop :=
  ∀ m1 m2, inv m1 → inv m2 → P m1 → P m2 → agree m1 m2 →
    match x m1, x m2 with
    | (Ok a1, m1'), (Ok a2, m2') => a1 = a2 ∧ agree m1' m2'
    | (Ok _, m1'), (Err _, _) => overspent m1'
    | (Err _, _), (Ok _, m2') => overspent m2'
    | _, _ => True
    end.

Record spec {A} (P : Machine → Prop) (x : MM A) (Q : A → Machine → Prop) : Prop := {
  spec_good : good P x Q;
  spec_agrees : agrees P x }.

Lemma spec_bind {A B} P (x : MM A) Q (f : A → MM B) T :
  spec P x Q → (∀ a, spec (Q a) (f a) T) → spec P (x ≫= f) T.
Proof.
  intros [Hg Ha] Hf. split.
  - intros m Hm HP. unfold mbind, MM_bind. specialize (Hg m Hm HP).
    destruct (x m) as [[a|e| |] m1]; try done. destruct Hg as (Hm1 & Hb & HQ).
    pose proof (spec_good _ _ _ (Hf a) m1 Hm1 HQ) as H.
    destruct (f a m1) as [[b|e| |] m2]; try done. destruct H as (? & ? & ?).
    split; [done|]. split; [by eapply below_trans|done].
  - intros m1 m2 Hm1 Hm2 HP1 HP2 Hag. unfold mbind, MM_bind.
    pose proof (Hg m1 Hm1 HP1) as H1. pose proof (Hg m2 Hm2 HP2) as H2. specialize (Ha m1 m2 Hm1 Hm2 HP1 HP2 Hag).
    destruct (x m1) as [[a1|e1| |] m1'], (x m2) as [[a2|e2| |] m2']; try done.
    + destruct Ha as [-> Hag'], H1 as (? & ? & ?), H2 as (? & ? & ?). by apply Hf.
    + destruct H1 as (? & ? & ?). pose proof (spec_good _ _ _ (Hf a1) m1' ltac:(done) ltac:(done)) as H'.
      destruct (f a1 m1') as [[b|e| |] m3]; try done. destruct H' as (? & ? & ?). by eapply overspent_below.
    + destruct H2 as (? & ? & ?). pose proof (spec_good _ _ _ (Hf a2) m2' ltac:(done) ltac:(done)) as H'.
      destruct (f a2 m2') as [[b|e| |] m3]; try done. destruct H' as (? & ? & ?). by eapply overspent_below.
Qed.

Lemma spec_weaken {A} P P' (x : MM A) Q Q' :
  spec P x Q → (∀ m, P' m → P m) → (∀ a m, Q a m → Q' a m) → spec P' x Q'.
Proof.
  intros [Hg Ha] HP HQ. split.
  - intros m Hm HP'. specialize (Hg m Hm (HP m HP')).
    destruct (x m) as [[a|e| |] m']; try done. destruct Hg as (? & ? & ?). eauto.
  - intros m1 m2 ? ? ? ? ?. apply Ha; auto.
Qed.

Lemma spec_ret {A} (a : A) (Q : A → Machine → Prop) : spec (Q a) (mret a) Q.
Proof.
  split; [intros m ? ?; cbn; split; [done|]; split; [apply below_refl|done]|].
  intros m1 m2 ? ? ? ? ?. by cbn.
Qed.

Lemma spec_done {A} P (a : A) (Q : A → Machine → Prop) : (∀ m, P m → Q a m) → spec P (mret a) Q.
Proof. intros H. eapply spec_weaken; [apply spec_ret|exact H|done]. Qed.

Lemma spec_raise {A} P e (Q : A → Machine → Prop) : spec P (raise e) Q.
Proof. by split. Qed.

Lemma spec_lift {A} P (x : exec MachineError A) Q :
  terminates x = true → (∀ a m, x = Ok a → P m → Q a m) → spec P (lift x) Q.
Proof.
  intros Ht HQ. split.
  - intros m Hm HP. unfold lift. destruct x; try done. split; [done|]. split; [apply below_refl|eauto].
  - intros m1 m2 ? ? ? ? ?. unfold lift. by destruct x.
Qed.

(** Reading a part of the machine on which agreeing machines agree. *)
Lemma spec_gets {A} P (f : Machine → A) :
  (∀ m1 m2, agree m1 m2 → f m1 = f m2) → spec P (gets f) (λ a m, a = f m ∧ P m).
Proof.
  intros Hf. split.
  - intros m Hm HP. cbn. split; [done|]. split; [apply below_refl|done].
  - intros m1 m2 ? ? ? ? ?. cbn. split; [by apply Hf|done].
Qed.

(** Changing the frames or the logs. *)
Lemma spec_set_frames P (f : list Frame → list Frame) (Q : () → Machine → Prop) :
  (∀ m, P m → Q () (set_frames (f (frames m)) m)) →
  spec P (modify (λ m, set_frames (f (frames m)) m)) Q.
Proof.
  intros HQ. split.
  - intros m [[] ?] HP. cbn. split; [by split|]. split; [by split|auto].
  - intros m1 m2 ? ? ? ? [? ? ? ? ?]. cbn. split; [done|]. split; cbn; congruence || done.
Qed.

Lemma spec_set_logs P (f : list (list Z) → list (list Z)) (Q : () → Machine → Prop) :
  (∀ m, P m → Q () (set_logs (f (logs m)) m)) →
  spec P (modify (λ m, set_logs (f (logs m)) m)) Q.
Proof.
  intros HQ. split.
  - intros m [[] ?] HP. cbn. split; [by split|]. split; [by split|auto].
  - intros m1 m2 ? ? ? ? [? ? ? ? ?]. cbn. split; [done|]. split; cbn; congruence || done.
Qed.

(** ** Operations of the machine *)

(** The stack has [n] frames. *)
Definition height (n : Z) (m : Machine) : Prop := Z.of_nat (length (frames m)) = n.

(** The stack has [n] frames, of well-typed terms and values, and builtins have
    prices. *)
Record ready (n : Z) (m : Machine) : Prop := {
  ready_height : height n m;
  ready_frames : Forall frame_wt (frames m);
  ready_prices : builtin_costs_ok (builtin_costs (costs m)) }.

Lemma ready_same n m m' : ready n m → frames m' = frames m → costs m' = costs m → ready n m'.
Proof. intros [Hh Hf Hp] Ef Ec. split; [unfold height|..]; by rewrite ?Ef, ?Ec. Qed.

Lemma agree_after m1 m2 m1' m2' (c : component → Z) :
  agree m1 m2 → frames m1' = frames m1 → logs m1' = logs m1 → costs m1' = costs m1 →
  initial_budget m1' = initial_budget m1 →
  frames m2' = frames m2 → logs m2' = logs m2 → costs m2' = costs m2 → initial_budget m2' = initial_budget m2 →
  (∀ p, remaining p m1' = remaining p m1 - c p) → (∀ p, remaining p m2' = remaining p m2 - c p) →
  agree m1' m2'.
Proof.
  intros [? ? ? ? Hr] ? ? ? ? ? ? ? ? Hr1 Hr2. split; [congruence..|].
  intros p. by rewrite Hr1, Hr2, Hr.
Qed.

Lemma price_agree m1 m2 k : agree m1 m2 → price m1 k = price m2 k.
Proof. intros []. unfold price. congruence. Qed.

Lemma spec_charge k n : spec (ready n) (step_and_maybe_spend k) (λ _, ready n).
Proof.
  split.
  - intros m Hm Hh. pose proof (step_and_maybe_spend_spec k m Hm) as H.
    destruct (step_and_maybe_spend k m) as [[[]|e| |] m']; try done.
    destruct H as (Hm' & Hr & Hf & Hl & Hc & Hs & Hi & Hfuel).
    split; [done|]. split; [|by eapply ready_same]. split; try done.
    + intros p. rewrite Hr. pose proof (ok_costs _ (inv_counters _ Hm) p k). unfold price. lia.
    + intros Hp. specialize (Hfuel Hp). lia.
  - intros m1 m2 Hm1 Hm2 _ _ Hag.
    pose proof (step_and_maybe_spend_spec k m1 Hm1) as H1. pose proof (step_and_maybe_spend_spec k m2 Hm2) as H2.
    destruct (step_and_maybe_spend k m1) as [[[]|e1| |] m1'], (step_and_maybe_spend k m2) as [[[]|e2| |] m2']; try done.
    + destruct H1 as (? & Hr1 & ? & ? & ? & ? & ? & _), H2 as (? & Hr2 & ? & ? & ? & ? & ? & _).
      split; [done|]. rewrite <- (price_agree m1 m2 k Hag) in Hr2.
      by apply (agree_after m1 m2 m1' m2' (λ p, get p (price m1 k))).
    + destruct H1 as (? & Hr1 & _), H2 as [p Hp]. exists p.
      rewrite Hr1, (price_agree m1 m2 k Hag), (agree_remaining _ _ Hag). lia.
    + destruct H2 as (? & Hr2 & _), H1 as [p Hp]. exists p.
      rewrite Hr2, <- (price_agree m1 m2 k Hag), <- (agree_remaining _ _ Hag). lia.
Qed.

Lemma spend_budget_outcome c m : inv m → (∀ p, 0 <= get p c <= i64_max) →
  match spend_budget c m with
  | (Ok _, m') => inv m' ∧ below m' m ∧ (∀ p, remaining p m' = remaining p m - get p c) ∧
      frames m' = frames m ∧ logs m' = logs m
  | (Err _, m') => ∃ p, remaining p m - get p c < 0
  | _ => False
  end.
Proof.
  intros [Hc Hs] Hr. destruct (Hc) as [Hlen Hcount Htotal Hcosts Hb].
  pose proof (spend_budget_spec c m Hb Hr) as H.
  destruct (spend_budget c m) as [[[]|e| |] m']; try done.
  - destruct H as (b & -> & Hb').
    assert (∀ p, remaining p (set_budget b m) = remaining p m - get p c) as Hrem.
    { intros p. unfold remaining. change (pending p (set_budget b m)) with (pending p m).
      cbn [ex_budget set_budget]. specialize (Hb' p). lia. }
    split; [|split; [|done]].
    + split; [split|]; try done. intros p. cbn. specialize (Hb' p). specialize (Hb p). specialize (Hr p). lia.
    + split; try done.
      * intros p. rewrite Hrem. specialize (Hr p). lia.
      * intros _. unfold fuel_left. change (total (set_budget b m)) with (total m). cbn.
        specialize (Hb' Cpu). specialize (Hr Cpu). cbn in *. lia.
  - destruct H as [p Hp]. exists p. unfold remaining. pose proof (pending_nonneg p m Hc). lia.
Qed.

Lemma spec_spend c n : (∀ p, 0 <= get p c <= i64_max) → spec (ready n) (spend_budget c) (λ _, ready n).
Proof.
  intros Hr. split.
  - intros m Hm Hh. pose proof (spend_budget_outcome c m Hm Hr) as H.
    destruct (spend_budget c m) as [[[]|e| |] m']; try done.
    destruct H as (? & Hb & _ & Hf & _). split; [done|]. split; [done|].
    eapply ready_same; [done..|apply Hb].
  - intros m1 m2 Hm1 Hm2 _ _ Hag.
    pose proof (spend_budget_outcome c m1 Hm1 Hr) as H1. pose proof (spend_budget_outcome c m2 Hm2 Hr) as H2.
    destruct (spend_budget c m1) as [[[]|e1| |] m1'], (spend_budget c m2) as [[[]|e2| |] m2']; try done.
    + destruct H1 as (? & [] & Hr1 & ? & ?), H2 as (? & [] & Hr2 & ? & ?). split; [done|].
      by apply (agree_after m1 m2 m1' m2' (λ p, get p c)).
    + destruct H1 as (? & ? & Hr1 & _), H2 as [p Hp]. exists p. rewrite Hr1, (agree_remaining _ _ Hag). lia.
    + destruct H2 as (? & ? & Hr2 & _), H1 as [p Hp]. exists p. rewrite Hr2, <- (agree_remaining _ _ Hag). lia.
Qed.

Lemma spec_push_frame f n : frame_wt f →
  spec (ready n) (push_frame f) (λ a m, a = n + 1 ∧ ready (n + 1) m).
Proof.
  intros Hwt. eapply spec_bind with (Q := λ _, ready (n + 1)).
  - apply (spec_set_frames _ (cons f)). intros m [Hh Hf Hp]. unfold height in *. split; cbn; [unfold height; cbn; lia| |done].
    by constructor.
  - intros _. eapply spec_weaken; [apply (spec_gets (ready (n + 1)))|done|].
    + intros m1 m2 []. congruence.
    + cbn. intros a m [-> [Hh Hf Hp]]. by split.
Qed.

(** The frames pushed for the fields of a constructor. *)
Definition field_frames (fields : list Value) (fs : list Frame) : list Frame :=
  foldl (λ fs field, AwaitFunValue field :: fs) fs (reverse fields).

Lemma field_frames_spec fields fs : field_frames fields fs = map AwaitFunValue fields ++ fs.
Proof.
  unfold field_frames. induction fields as [|v l IH] using rev_ind; [done|].
  rewrite reverse_snoc. cbn [foldl]. rewrite map_app, <- app_assoc. cbn [map app].
  rewrite <- (reverse_involutive l) at 2. revert IH. generalize (reverse l). intros r _.
  revert fs v. induction r as [|x r IHr]; intros fs v; [done|]. cbn [foldl]. rewrite IHr, reverse_cons, map_app, <- app_assoc. done.
Qed.

Lemma spec_transfer fields n : Forall value_wt fields →
  spec (ready n) (transfer_arg_stack fields) (λ a m, ready a m).
Proof.
  intros Hwt. eapply spec_bind with (Q := λ _, ready (n + Z.of_nat (length fields))).
  - apply (spec_set_frames _ (field_frames fields)). intros m [Hh Hf Hp]. unfold height in *.
    split; [unfold height|..]; cbn; try done; rewrite field_frames_spec.
    + rewrite length_app, length_map. lia.
    + apply Forall_app. split; [|done]. by apply Forall_map.
  - intros _. eapply spec_weaken; [apply (spec_gets (ready (n + Z.of_nat (length fields))))|done|].
    + intros m1 m2 []. congruence.
    + cbn. intros a m [-> [Hh Hf Hp]]. unfold height in *. by rewrite Hh.
Qed.

(** Charging what is left before returning the result. *)
Definition settled (m : Machine) : Prop := ∀ p, 0 <= get p (ex_budget m) ∧ remaining p m = get p (ex_budget m).

Definition flush (value : Value) : MM MachineState :=
  total ← get_steps StepKind_LEN;
  _ ← (if 0 <? total then spend_unbudgeted_steps else mret ());
  mret (Done value).

Lemma sum_counts_zero m : counters_ok m → total m <= 0 → ∀ k, count m k = 0.
Proof.
  intros [Hlen Hcount Htotal Hcosts Hb] Ht k. pose proof (count_le_sum (count m) k Hcount). specialize (Hcount k). lia.
Qed.

Lemma flush_outcome value m : inv m →
  match flush value m with
  | (Ok st, m') => st = Done value ∧ inv m' ∧ below m' m ∧ (∀ p, remaining p m' = remaining p m) ∧ settled m' ∧
      frames m' = frames m ∧ logs m' = logs m
  | (Err _, m') => ∃ p, remaining p m < 0
  | _ => False
  end.
Proof.
  intros Hm. destruct (Hm) as [Hc Hs]. destruct (Hc) as [Hlen Hcount Htotal Hcosts Hb].
  assert (get_steps StepKind_LEN m = (Ok (total m), m)) as Hget.
  { destruct (lookup_lt_is_Some_2 (unbudgeted_steps m) StepKind_LEN) as [n Hn]; [rewrite Hlen; lia|].
    unfold get_steps, total. by rewrite Hn. }
  unfold flush, mbind, MM_bind. rewrite Hget.
  destruct (Z.ltb_spec 0 (total m)) as [Hpos|Hz].
  - pose proof (spend_unbudgeted_steps_spec m Hc) as H.
    destruct (spend_unbudgeted_steps m) as [[[]|e| |] m']; try done.
    destruct H as (b & -> & Hb'). cbn [mret MM_ret].
    assert (∀ p, remaining p (flushed b m) = remaining p m) as Hr.
    { intros p. rewrite remaining_flushed. apply Hb'. }
    split; [done|]. split; [apply flushed_inv; [done|apply Hb'|lia]|]. split; [split; try done|].
    + intros p. by rewrite Hr.
    + intros Hp. unfold fuel_left. change (total (flushed b m)) with 0.
      change (cpu (ex_budget (flushed b m))) with (get Cpu b). destruct (Hb' Cpu) as [-> _].
      unfold remaining, pending. cbn [get].
      assert (total m <= sum_kinds (λ k, cpu (price m k) * count m k) StepKind_enumerate); [|lia].
      rewrite Htotal. apply sum_kinds_mono. intros k. specialize (Hcount k). specialize (Hp k). unfold price. nia.
    + split; [done|]. split; [|done]. intros p. split; [apply Hb'|]. by rewrite remaining_flushed.
  - cbn [mret MM_ret]. pose proof (sum_counts_zero m Hc Hz) as H0.
    split; [done|]. split; [done|]. split; [apply below_refl|]. split; [done|]. split; [|done].
    intros p. split; [apply Hb|]. unfold remaining, pending. rewrite sum_kinds_zero; [lia|].
    intros k. rewrite H0. lia.
Qed.

Lemma spec_flush value P : spec P (flush value) (λ st m, st = Done value ∧ settled m).
Proof.
  split.
  - intros m Hm _. pose proof (flush_outcome value m Hm) as H.
    destruct (flush value m) as [[st|e| |] m']; try done. by destruct H as (-> & ? & ? & _ & ? & _).
  - intros m1 m2 Hm1 Hm2 _ _ Hag.
    pose proof (flush_outcome value m1 Hm1) as H1. pose proof (flush_outcome value m2 Hm2) as H2.
    destruct (flush value m1) as [[st1|e1| |] m1'], (flush value m2) as [[st2|e2| |] m2']; try done.
    + destruct H1 as (-> & ? & [] & Hr1 & _ & ? & ?), H2 as (-> & ? & [] & Hr2 & _ & ? & ?).
      split; [done|]. apply (agree_after m1 m2 m1' m2' (λ _, 0)); try done; intros p; [rewrite Hr1|rewrite Hr2]; lia.
    + destruct H1 as (_ & ? & ? & Hr1 & _), H2 as [p Hp]. exists p. rewrite Hr1, (agree_remaining _ _ Hag). lia.
    + destruct H2 as (_ & ? & ? & Hr2 & _), H1 as [p Hp]. exists p. rewrite Hr2, <- (agree_remaining _ _ Hag). lia.
Qed.

(** ** Builtins: what the machine relies on *)

(** A saturated call on well-typed arguments has a price that is a non-negative
    machine integer; once paid it returns a well-typed value or an error. *)
Definition call_ok (x : Call) : Prop :=
  match x with
  | Ok (b, result) =>
      (∀ p, 0 <= get p b <= i64_max) ∧
      match result with Ok (v, _) => value_wt v | Err _ => True | _ => False end
  | Err _ => True
  | _ => False
  end.

Class BuiltinLaws (R : BuiltinRuntime) : Prop :=
  builtin_runtime_ok c f args : builtin_costs_ok (builtin_costs c) → Z.of_nat (length args) = arity f →
    Forall value_wt args → call_ok (builtin_runtime c f args).

(** ** Transitions *)

Section Transitions.
Context `{R : BuiltinRuntime} `{!BuiltinLaws R}.

Lemma spec_by_pre {A} (F : Prop) P (x : MM A) Q : (F → spec P x Q) → spec (λ m, P m ∧ F) x Q.
Proof using Type.
  intros H. split.
  - intros m Hm [HP HF]. by apply (H HF).
  - intros m1 m2 ? ? [? HF] [? _] ?. by apply (H HF).
Qed.

Lemma spec_call rt n : is_ready rt = true → Forall value_wt (r_args rt) →
  spec (ready n) (call rt) (λ v m, ready n m ∧ value_wt v).
Proof using Type*.
  unfold is_ready. intros Hr%Z.eqb_eq Hwt. unfold call.
  eapply spec_bind with (Q := λ c m, ready n m ∧ builtin_costs_ok (builtin_costs c)).
  { eapply spec_weaken; [apply (spec_gets (ready n)); intros m1 m2 []; congruence|done|].
    intros c m [-> Hm]. split; [done|apply Hm]. }
  intros c. apply spec_by_pre. intros Hc.
  pose proof (builtin_runtime_ok c (r_fun rt) (r_args rt) Hc Hr Hwt) as Hok.
  destruct (builtin_runtime c (r_fun rt) (r_args rt)) as [[b result]|e| |]; try done.
  destruct Hok as [Hb Hres]. eapply spec_bind with (Q := λ x m, ready n m ∧ x = (b, result)).
  { apply spec_lift; [done|]. intros x m Hx Hm. by injection Hx as <-. }
  intros [b' result']. apply spec_by_pre. intros [= -> ->].
  eapply spec_bind; [by apply spec_spend|]. intros [].
  eapply spec_bind with (Q := λ x m, ready n m ∧ value_wt x.1).
  { apply spec_lift; [by destruct result as [[]| | |]|]. intros x m -> Hm. by destruct x. }
  intros [v lines]. apply spec_by_pre. intros Hv. eapply spec_bind with (Q := λ _, ready n).
  - apply (spec_set_logs _ (λ l, l ++ lines)). intros m Hm. by eapply ready_same.
  - intros _. by apply spec_done.
Qed.

(** The context of a state is the height of the stack, and what it holds is
    well-typed. *)
Definition state_ok (st : MachineState) (m : Machine) : Prop :=
  match st with
  | Compute context env t => ready context m ∧ env_wt env ∧ term_wt t
  | Return context v => ready context m ∧ value_wt v
  | Done v => settled m ∧ value_wt v
  end.

(** The kind of step a term is charged as; [Error] is not charged. *)
Definition step_kind (t : Term) : option StepKind :=
  match t with
  | Var _ => Some StepVar | Lambda _ _ => Some StepLambda | Apply _ _ => Some StepApply
  | Delay _ => Some StepDelay | Force _ => Some StepForce | Constr _ _ => Some StepConstr
  | Case _ _ => Some StepCase | Constant_ _ => Some StepConstant | Builtin _ => Some StepBuiltin
  | Error => None
  end.

(** What [compute] does once the step is charged. *)
Definition compute_rest (context : Z) (env : Env) (t : Term) : MM MachineState :=
  match t with
  | Var name =>
      value ← lift (ok_or (OpenTermEvaluated t) (Env_lookup env name));
      mret (Return context value)
  | Lambda parameter body => mret (Return context (VLambda parameter body env))
  | Apply function argument =>
      frame ← push_frame (AwaitFunTerm env argument); mret (Compute frame env function)
  | Delay body => mret (Return context (VDelay body env))
  | Force body => frame ← push_frame FrameForce; mret (Compute frame env body)
  | Constr tag fields =>
      match fields with
      | first :: terms => frame ← push_frame (FrameConstr env tag terms []); mret (Compute frame env first)
      | [] => mret (Return context (VConstr tag []))
      end
  | Case constr branches => frame ← push_frame (FrameCases env branches); mret (Compute frame env constr)
  | Constant_ constant => mret (Return context (VCon constant))
  | Builtin f => mret (Return context (Value_builtin (Runtime_new f)))
  | Error => raise ExplicitErrorTerm
  end.

Lemma compute_eq context env t : compute context env t =
  match step_kind t with
  | Some k => _ ← step_and_maybe_spend k; compute_rest context env t
  | None => raise ExplicitErrorTerm
  end.
Proof using Type. by destruct t. Qed.

(** Push a frame and compute a term. *)
Lemma spec_push_compute context f env t : frame_wt f → env_wt env → term_wt t →
  spec (ready context) (frame ← push_frame f; mret (Compute frame env t)) (λ st m, state_ok st m ∧ ∃ c, st = Compute c env t).
Proof using Type.
  intros Hf He Ht. eapply spec_bind; [by apply spec_push_frame|]. intros a. apply spec_done.
  intros m [-> H]. split; [done|eauto].
Qed.

Lemma spec_push_state context f env t : frame_wt f → env_wt env → term_wt t →
  spec (ready context) (frame ← push_frame f; mret (Compute frame env t)) state_ok.
Proof using Type.
  intros. eapply spec_weaken; [by apply spec_push_compute|done|by intros st m [? _]].
Qed.

Lemma spec_compute_rest context env t : env_wt env → term_wt t →
  spec (ready context) (compute_rest context env t) state_ok.
Proof using Type.
  intros He Ht.
  destruct t as [name|param body|f a|body|body|t branches|tag fields|c|f|]; cbn [compute_rest];
    try apply spec_raise; try (by apply spec_done).
  - eapply spec_bind with (Q := λ v m, ready context m ∧ value_wt v).
    + apply spec_lift; [by destruct (Env_lookup env name)|]. intros v m Hv%ok_or_Ok Hm.
      split; [done|]. by eapply Env_lookup_wt.
    + intros v. by apply spec_done.
  - destruct Ht. by apply spec_push_state.
  - by apply spec_push_state.
  - apply term_wt_case in Ht as [Ht Hbs]. by apply spec_push_state.
  - apply term_wt_constr in Ht. destruct fields as [|t ts]; [by apply spec_done|].
    apply Forall_cons in Ht as [Ht Hts]. by apply spec_push_state.
Qed.

Lemma spec_compute context env t : env_wt env → term_wt t →
  spec (ready context) (compute context env t) state_ok.
Proof using Type.
  intros He Ht. rewrite compute_eq. destruct (step_kind t); [|apply spec_raise].
  eapply spec_bind; [apply spec_charge|]. intros []. by apply spec_compute_rest.
Qed.

(** Computing a term uses up budget. *)
Lemma compute_fuel context env t m st m' : inv m → ready context m → env_wt env → term_wt t →
  costs_positive (costs m) →
  compute context env t m = (Ok st, m') → fuel_left m' < fuel_left m.
Proof using Type.
  intros Hm Hh He Ht Hpos. rewrite compute_eq. destruct (step_kind t) as [k|]; [|done].
  unfold mbind, MM_bind. intros Hrun.
  pose proof (step_and_maybe_spend_spec k m Hm) as H.
  pose proof (spec_good _ _ _ (spec_charge k context) m Hm Hh) as Hg.
  destruct (step_and_maybe_spend k m) as [[[]|e| |] m1]; try done.
  destruct H as (Hm1 & _ & _ & _ & Hc & _ & _ & Hfuel), Hg as (_ & _ & Hh1).
  pose proof (spec_good _ _ _ (spec_compute_rest context env t He Ht) m1 Hm1 Hh1) as Hr. rewrite Hrun in Hr.
  destruct Hr as (_ & Hb & _). pose proof (below_fuel _ _ Hb). rewrite Hc in *. specialize (Hfuel Hpos). 
  specialize (H Hpos). lia.
Qed.

(** Evaluating an application or a forcing goes on with the popped stack, or
    returns with it. *)
Definition resumes (context : Z) (st : MachineState) (m : Machine) : Prop :=
  match st with
  | Compute c env t => c = context ∧ ready context m ∧ env_wt env ∧ term_wt t
  | Return c v => c = context ∧ ready context m ∧ value_wt v
  | Done _ => False
  end.

Lemma spec_builtin_value context rt (v : Value) : Forall value_wt (r_args rt) → value_wt v →
  spec (ready context)
    (value ← (if is_ready rt then call rt else mret v); mret (Return context value)) (resumes context).
Proof using Type*.
  intros Hwt Hv. eapply spec_bind with (Q := λ v m, ready context m ∧ value_wt v).
  - destruct (is_ready _) eqn:Hr; [by apply spec_call|by apply spec_done].
  - intros v'. apply spec_done. by intros m [? ?].
Qed.

Lemma spec_force_evaluate context v : value_wt v →
  spec (ready context) (force_evaluate context v) (resumes context).
Proof using Type*.
  intros Hv. destruct v as [c|n b e|args f forces|b e|tag fs]; cbn [force_evaluate]; try apply spec_raise.
  - cbv zeta. destruct (needs_force _); [|apply spec_raise].
    apply value_wt_builtin in Hv. apply spec_builtin_value; [done|]. by apply value_wt_builtin.
  - apply spec_done. destruct Hv. intros m Hm. by split.
Qed.

Lemma spec_apply_evaluate context f a : value_wt f → value_wt a →
  spec (ready context) (apply_evaluate context f a) (resumes context).
Proof using Type*.
  intros Hf Ha. destruct f as [c|n b e|args f forces|b e|tag fs]; cbn [apply_evaluate]; try apply spec_raise.
  - apply spec_done. destruct Hf. intros m Hm. split; [done|]. by split.
  - cbv zeta. destruct (_ && _); [|apply spec_raise]. apply value_wt_builtin in Hf.
    assert (Forall value_wt (args ++ [a])) by (apply Forall_app; by split; [|constructor]).
    apply spec_builtin_value; [done|]. by apply value_wt_builtin.
Qed.

Lemma constant_as_tag_fields_total c : terminates (constant_as_tag_fields c) = true.
Proof using Type. destruct c as [| | |[]| |? []| | | | | | |]; cbn; try done. by destruct (_ && _). Qed.

Lemma constant_as_tag_fields_wt c tag max fields : const_wt c → constant_as_tag_fields c = Ok (tag, max, fields) →
  Forall value_wt fields.
Proof using Type.
  intros Hc H. destruct c as [i| | |[]| |t l| |t1 t2 a b| | | | |]; cbn [constant_as_tag_fields] in H;
    try (by simplify_eq); try (by destruct (_ && _); simplify_eq).
  - apply const_wt_list in Hc. destruct l as [|x l]; simplify_eq; [done|].
    apply Forall_cons in Hc as [[_ Hx] Hl]. repeat constructor; [done|]. by apply const_wt_list.
  - simplify_eq. destruct Hc as (_ & _ & ? & ?). by repeat constructor.
Qed.

Lemma get_branch_wt branches tag t : Forall term_wt branches → get_branch branches tag = Some t → term_wt t.
Proof using Type. unfold get_branch. intros Hb H. case_bool_in H; [done|]. by eapply Forall_lookup_1. Qed.

(** After returning to a stack of [context] frames: either the run is over, or
    a value goes to a shorter stack, or a term is computed next. *)
Definition returned (context : Z) (st : MachineState) (m : Machine) : Prop :=
  state_ok st m ∧ match st with Return c _ => c < context | _ => True end.

Lemma spec_resumes context (x : MM MachineState) :
  spec (ready (context - 1)) x (resumes (context - 1)) → spec (ready (context - 1)) x (returned context).
Proof using Type.
  intros H. eapply spec_weaken; [exact H|done|].
  intros [c e t|c v|v] m; cbn; [intros (-> & ? & ?)|intros (-> & ? & ?)|done]; (split; [done|]); [done|lia].
Qed.

(** Selecting a branch. *)
Lemma spec_branch n context env branch fields : env_wt env → term_wt branch → Forall value_wt fields →
  spec (ready n) (frame ← transfer_arg_stack fields; mret (Compute frame env branch)) (returned context).
Proof using Type.
  intros He Hb Hf. eapply spec_bind; [by apply spec_transfer|]. intros a. apply spec_done. intros m Hm. by split.
Qed.

Lemma spec_cases n context env branches v : env_wt env → Forall term_wt branches → value_wt v →
  spec (ready n)
    (match v with
     | VConstr tag fields =>
         match get_branch branches tag with
         | Some branch => frame ← transfer_arg_stack fields; mret (Compute frame env branch)
         | None => raise (MissingCaseBranch branches v)
         end
     | VCon constant =>
         c ← gets costs;
         if bool_decide (case_on_constants c = NoData) then
           '(tag, max_branches, fields) ← lift (constant_as_tag_fields constant);
           if max_branches <? Z.of_nat (length branches) then raise (MissingCaseBranch branches v)
           else match get_branch branches tag with
                | Some branch => frame ← transfer_arg_stack fields; mret (Compute frame env branch)
                | None => raise (MissingCaseBranch branches v)
                end
         else raise (NonConstrScrutinized v)
     | v => raise (NonConstrScrutinized v)
     end) (returned context).
Proof using Type.
  intros He Hb Hv. destruct v as [c|? ? ?|? ? ?|? ?|tag fields]; try apply spec_raise.
  - eapply spec_bind with (Q := λ _, ready n).
    { eapply spec_weaken; [apply (spec_gets (ready n)); intros m1 m2 []; congruence|done|by intros a m [_ H]]. }
    intros cm. destruct (bool_decide _); [|apply spec_raise].
    eapply spec_bind with (Q := λ x m, ready n m ∧ Forall value_wt x.2).
    { apply spec_lift; [apply constant_as_tag_fields_total|]. intros [[tag max] fields] m Hx Hm.
      split; [done|]. by eapply constant_as_tag_fields_wt. }
    intros [[tag max] fields]. apply spec_by_pre. intros Hf. destruct (_ <? _); [apply spec_raise|].
    destruct (get_branch branches tag) eqn:Hg; [|apply spec_raise].
    apply spec_branch; [done|by eapply get_branch_wt|done].
  - apply value_wt_constr in Hv. destruct (get_branch branches tag) eqn:Hg; [|apply spec_raise].
    apply spec_branch; [done|by eapply get_branch_wt|done].
Qed.

(** What [return_compute] does with the popped frame. *)
Definition resume_frame (context : Z) (value : Value) (frame : Frame) : MM MachineState :=
  match frame with
  | AwaitFunTerm arg_env argument =>
      context ← push_frame (AwaitArg value);
      mret (Compute context arg_env argument)
  | AwaitArg function => apply_evaluate context function value
  | AwaitFunValue argument => apply_evaluate context value argument
  | FrameForce => force_evaluate context value
  | FrameConstr env tag terms values =>
      match terms with
      | first :: terms =>
          frame ← push_frame (FrameConstr env tag terms (values ++ [value]));
          mret (Compute frame env first)
      | [] => mret (Return context (VConstr tag (values ++ [value])))
      end
  | FrameCases env branches =>
      match value with
      | VConstr tag fields =>
          match get_branch branches tag with
          | Some branch => frame ← transfer_arg_stack fields; mret (Compute frame env branch)
          | None => raise (MissingCaseBranch branches value)
          end
      | VCon constant =>
          c ← gets costs;
          if bool_decide (case_on_constants c = NoData) then
            '(tag, max_branches, fields) ← lift (constant_as_tag_fields constant);
            if max_branches <? Z.of_nat (length branches) then raise (MissingCaseBranch branches value)
            else match get_branch branches tag with
                 | Some branch => frame ← transfer_arg_stack fields; mret (Compute frame env branch)
                 | None => raise (MissingCaseBranch branches value)
                 end
          else raise (NonConstrScrutinized value)
      | v => raise (NonConstrScrutinized v)
      end
  end.

Lemma return_compute_eq context v m : height context m →
  return_compute context v m =
  match frames m with
  | [] => flush v m
  | f :: fs => resume_frame (context - 1) v f (set_frames fs m)
  end.
Proof using Type.
  unfold height. intros Hh. unfold return_compute, mbind at 1, MM_bind at 1, gets. rewrite Hh, Z.eqb_refl.
  cbn [negb]. unfold mbind at 1, MM_bind at 1, pop_frame. by destruct (frames m) as [|[] fs].
Qed.

Lemma spec_push_returned n context f env t : frame_wt f → env_wt env → term_wt t →
  spec (ready n) (frame ← push_frame f; mret (Compute frame env t)) (returned context).
Proof using Type.
  intros. eapply spec_weaken; [by apply spec_push_compute|done|]. intros st m [? [c ->]]. by split.
Qed.

Lemma spec_resume_frame context v f : value_wt v → frame_wt f →
  spec (ready (context - 1)) (resume_frame (context - 1) v f) (returned context).
Proof using Type*.
  intros Hv Hf. destruct f as [fv|env a|a| |env tag terms values|env branches]; cbn [resume_frame].
  - by apply spec_resumes, spec_apply_evaluate.
  - destruct Hf. by apply spec_push_returned.
  - by apply spec_resumes, spec_apply_evaluate.
  - by apply spec_resumes, spec_force_evaluate.
  - destruct Hf as (He & Ht & Hvs).
    assert (Forall value_wt (values ++ [v])) by (apply Forall_app; by split; [|constructor]).
    destruct terms as [|t ts].
    + apply spec_done. intros m Hm. split; [|lia]. split; [done|]. by apply value_wt_constr.
    + apply Forall_cons in Ht as [Ht Hts]. by apply spec_push_returned.
  - destruct Hf. by apply spec_cases.
Qed.

Lemma set_frames_inv fs m : inv m → inv (set_frames fs m) ∧ below (set_frames fs m) m.
Proof using Type. intros [[] ?]. split; by split. Qed.

(** Popping the top frame. *)
Lemma ready_pop context f fs m : ready context m → frames m = f :: fs →
  frame_wt f ∧ ready (context - 1) (set_frames fs m).
Proof using Type.
  intros [Hh Hf Hp] E. unfold height in *. rewrite E in *. apply Forall_cons in Hf as [Hf Hfs].
  split; [done|]. split; [unfold height; cbn in *; lia|done..].
Qed.

Lemma spec_return context v : value_wt v →
  spec (ready context) (return_compute context v) (returned context).
Proof using Type*.
  intros Hv. split.
  - intros m Hm Hh. rewrite return_compute_eq by apply Hh.
    destruct (frames m) as [|f fs] eqn:Hf.
    + pose proof (spec_good _ _ _ (spec_flush v (λ _, True)) m Hm I) as H.
      destruct (flush v m) as [[st|e| |] m']; try done. by destruct H as (? & ? & -> & ?).
    + destruct (set_frames_inv fs m Hm) as [Hm' Hb], (ready_pop _ _ _ _ Hh Hf) as [Hft Hr].
      pose proof (spec_good _ _ _ (spec_resume_frame context v f Hv Hft) _ Hm' Hr) as H.
      destruct (resume_frame _ v f _) as [[st|e| |] m']; try done.
      destruct H as (? & ? & ?). split; [done|]. split; [by eapply below_trans|done].
  - intros m1 m2 Hm1 Hm2 Hh1 Hh2 Hag. rewrite !return_compute_eq by (apply Hh1 || apply Hh2).
    destruct (frames m1) as [|f fs] eqn:Hf; rewrite (agree_frames _ _ Hag) in Hf; rewrite Hf.
    + by apply (spec_agrees _ _ _ (spec_flush v (λ _, True))).
    + pose proof Hf as Hf1. rewrite <- (agree_frames _ _ Hag) in Hf1.
      destruct (ready_pop _ _ _ _ Hh1 Hf1) as [Hft Hr1], (ready_pop _ _ _ _ Hh2 Hf) as [_ Hr2].
      apply (spec_agrees _ _ _ (spec_resume_frame context v f Hv Hft)); try done; try by apply set_frames_inv.
      destruct Hag. by split.
Qed.

Lemma spec_assume {A} (F : Prop) P (x : MM A) Q : (∀ m, P m → F) → (F → spec P x Q) → spec P x Q.
Proof using Type.
  intros HF H. eapply spec_weaken; [exact (spec_by_pre F P x Q H)|intros m Hm; split; eauto|done].
Qed.

Lemma spec_step st : spec (state_ok st) (step st) state_ok.
Proof using Type*.
  destruct st as [c e t|c v|v]; cbn [step].
  - apply (spec_assume (env_wt e ∧ term_wt t)); [by intros m (_ & ?)|]. intros [He Ht].
    eapply spec_weaken; [by apply spec_compute|by intros m [? _]|done].
  - apply (spec_assume (value_wt v)); [by intros m (_ & ?)|]. intros Hv.
    eapply spec_weaken; [by apply spec_return|by intros m [? _]|by intros st m [? _]].
  - by apply spec_done.
Qed.
End Transitions.

(** ** Runs *)

(** A machine about to run: a sane budget and cost model, and some batch size. *)
Definition with_slippage (s : Z) (m : Machine) : Machine :=
  mkMachine (initial_budget m) (ex_budget m) (unbudgeted_steps m) (costs m) s (logs m) (frames m).

Record start_ok (b : ExBudget) (c : CostModel) : Prop := {
  start_budget : budget_ok b;
  start_costs : costs_ok c;
  start_startup : ∀ p, 0 <= get p (startup (machine_costs c)) <= i64_max;
  start_builtins : builtin_costs_ok (builtin_costs c) }.

Lemma Machine_new_inv b c s : start_ok b c → 1 <= s <= u8_max → inv (with_slippage s (Machine_new b c)).
Proof.
  intros [Hb Hc _ _] Hs. split; [split|]; try done.
  - intros k. by destruct k.
  - change (total _) with 0. cbn. lia.
Qed.

Section Runs.
Context `{R : BuiltinRuntime} `{!BuiltinLaws R}.

Lemma run_loop_Done fuel v m : run_loop fuel (Done v) m = (Ok v, m).
Proof using Type. by destruct fuel. Qed.

Lemma run_loop_S fuel st m : run_loop (S fuel) st m = (st' ← step st; run_loop fuel st') m.
Proof using Type. destruct st; try done. cbn [run_loop step]. unfold mbind, MM_bind. cbn. by rewrite run_loop_Done. Qed.

(** A machine that has overspent never returns a value. *)
Lemma overspent_never fuel st m v m' : inv m → state_ok st m → overspent m →
  run_loop fuel st m = (Ok v, m') → False.
Proof using Type*.
  revert st m. induction fuel as [|fuel IH]; intros st m Hm Hst Ho Hrun.
  - destruct st as [c e t|c v'|v']; try done. destruct Ho as [p Hp], Hst as [Hst _]. specialize (Hst p) as [? Hr]. lia.
  - rewrite run_loop_S in Hrun. unfold mbind, MM_bind in Hrun.
    pose proof (spec_good _ _ _ (spec_step st) m Hm Hst) as H.
    destruct (step st m) as [[st'|e| |] m1]; try done. destruct H as (? & ? & ?).
    eapply IH; [done|done| |done]. by eapply overspent_below.
Qed.

(** A run that returns ends settled, and below where it started. *)
Lemma run_loop_Ok fuel st m v m' : inv m → state_ok st m → run_loop fuel st m = (Ok v, m') →
  inv m' ∧ below m' m ∧ settled m' ∧ value_wt v.
Proof using Type*.
  revert st m. induction fuel as [|fuel IH]; intros st m Hm Hst Hrun.
  - destruct st as [c e t|c v'|v']; try done. cbn in Hrun. unfold mret, MM_ret in Hrun. simplify_eq.
    destruct Hst. split; [done|]. split; [apply below_refl|done].
  - rewrite run_loop_S in Hrun. unfold mbind, MM_bind in Hrun.
    pose proof (spec_good _ _ _ (spec_step st) m Hm Hst) as H.
    destruct (step st m) as [[st'|e| |] m1]; try done. destruct H as (? & ? & ?).
    destruct (IH st' m1) as (? & ? & ?); [done..|]. split; [done|]. split; [by eapply below_trans|done].
Qed.

Lemma run_loop_no_panic fuel st m : inv m → state_ok st m → fst (run_loop fuel st m) ≠ Panic.
Proof using Type*.
  revert st m. induction fuel as [|fuel IH]; intros st m Hm Hst.
  { destruct st; [done|done|by rewrite run_loop_Done]. }
  rewrite run_loop_S. unfold mbind, MM_bind.
  pose proof (spec_good _ _ _ (spec_step st) m Hm Hst) as H.
  destruct (step st m) as [[st'|e| |] m1]; try done. destruct H as (? & ? & ?). by apply IH.
Qed.

Lemma run_loop_agrees fuel st m1 m2 v m1' : inv m1 → inv m2 → state_ok st m1 → state_ok st m2 → agree m1 m2 →
  run_loop fuel st m1 = (Ok v, m1') → ∃ m2', run_loop fuel st m2 = (Ok v, m2') ∧ agree m1' m2'.
Proof using Type*.
  revert st m1 m2. induction fuel as [|fuel IH]; intros st m1 m2 Hm1 Hm2 Hs1 Hs2 Hag Hrun.
  - destruct st as [c e t|c v'|v']; try done. cbn in *. unfold mret, MM_ret in *. simplify_eq. eauto.
  - rewrite run_loop_S in *. unfold mbind, MM_bind in *.
    pose proof (spec_good _ _ _ (spec_step st) m1 Hm1 Hs1) as H1.
    pose proof (spec_good _ _ _ (spec_step st) m2 Hm2 Hs2) as H2.
    pose proof (spec_agrees _ _ _ (spec_step st) m1 m2 Hm1 Hm2 Hs1 Hs2 Hag) as H.
    destruct (step st m1) as [[st1|e1| |] m1a]; try done. destruct H1 as (? & ? & ?).
    destruct (step st m2) as [[st2|e2| |] m2a]; try done.
    + destruct H as [<- Hag'], H2 as (? & ? & ?). by apply (IH st1 m1a m2a).
    + exfalso. by eapply (overspent_never fuel st1 m1a).
Qed.

(** *** Termination *)

Definition halts (st : MachineState) (m : Machine) : Prop :=
  ∃ fuel, terminates (fst (run_loop fuel st m)) = true.

Lemma halts_step st m st' m' : step st m = (Ok st', m') → halts st' m' → halts st m.
Proof using Type. intros Hs [fuel H]. exists (S fuel). rewrite run_loop_S. unfold mbind, MM_bind. by rewrite Hs. Qed.

Lemma halts_err st m e m' : step st m = (Err e, m') → halts st m.
Proof using Type. intros Hs. exists 1%nat. rewrite run_loop_S. unfold mbind, MM_bind. by rewrite Hs. Qed.

Lemma fuel_left_bound m : inv m → - u8_max <= fuel_left m.
Proof using Type.
  intros [[Hlen Hcount Htotal Hcosts Hb] Hs]. unfold fuel_left. specialize (Hb Cpu). cbn in Hb. lia.
Qed.

(** Runs halt: every computed term lowers the budget that is left, and between
    two of them each return pops a frame. *)
Lemma run_halts n : ∀ st m, inv m → state_ok st m → costs_positive (costs m) →
  fuel_left m + u8_max < Z.of_nat n → halts st m.
Proof using Type*.
  induction n as [|n IH]; intros st m Hm Hst Hpos Hn; [pose proof (fuel_left_bound m Hm); lia|].
  assert (∀ c e t m, inv m → state_ok (Compute c e t) m → costs_positive (costs m) →
    fuel_left m + u8_max < Z.of_nat (S n) → halts (Compute c e t) m) as Hcompute.
  { clear st m Hm Hst Hpos Hn. intros c e t m Hm Hst Hpos Hn.
    pose proof (spec_good _ _ _ (spec_step (Compute c e t)) m Hm Hst) as H.
    destruct (step (Compute c e t) m) as [[st'|err| |] m1] eqn:Hstep; try done; [|by eapply halts_err].
    destruct H as (? & Hb & ?). eapply halts_step; [done|]. apply IH; [done..|by rewrite (below_costs _ _ Hb)|].
    destruct Hst as (Hready & He & Ht).
    pose proof (compute_fuel c e t m st' m1 Hm Hready He Ht Hpos Hstep). lia. }
  destruct st as [c e t|c v|v]; [by apply Hcompute| |by exists 0%nat].
  remember (Z.to_nat c) as h eqn:Hh. revert c v m Hm Hst Hpos Hn Hh.
  induction h as [h IHh] using lt_wf_ind. intros c v m Hm Hst Hpos Hn Hh.
  destruct Hst as [Hst Hv]. assert (0 <= c) by (pose proof (ready_height _ _ Hst) as Hht; unfold height in Hht; lia).
  pose proof (spec_good _ _ _ (spec_return c v Hv) m Hm Hst) as H'.
  destruct (step (Return c v) m) as [[st'|err| |] m1] eqn:Hstep; cbn [step] in Hstep; rewrite Hstep in H'; try done;
    [|by eapply halts_err].
  destruct H' as (Hm1 & Hb & Hst' & Hlt). eapply halts_step; [done|].
  pose proof (below_fuel _ _ Hb Hpos). pose proof (below_costs _ _ Hb) as Hc.
  destruct st' as [c' e' t'|c' v'|v'].
  - apply Hcompute; [done..|by rewrite Hc|lia].
  - assert (0 <= c') by (pose proof (ready_height _ _ (proj1 Hst')) as Hht; unfold height in Hht; lia).
    eapply (IHh (Z.to_nat c')); [lia|done..|by rewrite Hc|lia|done].
  - exists 0%nat. done.
Qed.

(** What a run does first. *)
Lemma Machine_new_ready b c s : start_ok b c → ready 0 (with_slippage s (Machine_new b c)).
Proof using Type. intros Hs. split; [done|constructor|apply Hs]. Qed.

Lemma run_start fuel t b c s : start_ok b c → term_wt t → 1 <= s <= u8_max →
  let m := with_slippage s (Machine_new b c) in
  match run fuel t m with
  | (Ok v, m') => ∃ m1, spend_budget (startup (machine_costs c)) m = (Ok (), m1) ∧ inv m1 ∧ below m1 m ∧
      ready 0 m1 ∧ run_loop fuel (Compute 0 EnvEmpty t) m1 = (Ok v, m')
  | (Panic, _) => False
  | _ => True
  end.
Proof using Type*.
  intros Hs Ht Hsl m. pose proof (Machine_new_inv b c s Hs Hsl) as Hm. fold m in Hm.
  unfold run, mbind, MM_bind, gets.
  change (startup (machine_costs (costs m))) with (startup (machine_costs c)).
  pose proof (spec_good _ _ _ (spec_spend (startup (machine_costs c)) 0 (start_startup _ _ Hs)) m Hm (Machine_new_ready b c s Hs)) as H.
  destruct (spend_budget _ m) as [[[]|e| |] m1]; try done. destruct H as (Hm1 & Hb & Hh).
  pose proof (run_loop_no_panic fuel (Compute 0 EnvEmpty t) m1 Hm1 (conj Hh (conj I Ht))) as Hnp.
  destruct (run_loop fuel _ m1) as [[v|e| |] m'] eqn:Hrun; try done. by exists m1.
Qed.

Lemma run_outcome fuel t b c : start_ok b c → term_wt t →
  match run fuel t (Machine_new b c) with
  | (Ok v, m) => value_wt v ∧ settled m ∧ (∀ p, 0 <= get p (remaining_budget (info m)) <= get p b) ∧
      (∀ p, get p (consumed_budget (info m)) = get p b - get p (remaining_budget (info m)))
  | (Panic, _) => False
  | _ => True
  end.
Proof using Type*.
  intros Hs Ht. pose proof (run_start fuel t b c 200 Hs Ht ltac:(unfold u8_max; lia)) as H. cbv zeta in H.
  change (with_slippage 200 (Machine_new b c)) with (Machine_new b c) in H.
  destruct (run fuel t (Machine_new b c)) as [[v|e| |] m']; try done.
  destruct H as (m1 & _ & Hm1 & Hb1 & Hh & Hrun).
  destruct (run_loop_Ok fuel (Compute 0 EnvEmpty t) m1 v m') as (Hm' & Hb' & Hset & Hv); try done.
  assert (∀ p, 0 <= get p (ex_budget m') <= get p b) as Hrem.
  { intros p. destruct (Hset p) as [H0 Hr]. split; [done|]. rewrite <- Hr.
    etransitivity; [apply (below_remaining _ _ Hb')|]. etransitivity; [apply (below_remaining _ _ Hb1)|].
    unfold remaining. pose proof (pending_nonneg p (Machine_new b c)
      (inv_counters _ (Machine_new_inv b c 200 Hs ltac:(unfold u8_max; lia)))). cbn [ex_budget Machine_new] in *. lia. }
  split; [done|]. split; [done|]. split; [done|]. intros p.
  assert (initial_budget m' = b) as Hi by (by rewrite (below_initial _ _ Hb'), (below_initial _ _ Hb1)).
  unfold info. cbn [consumed_budget remaining_budget]. rewrite Hi. apply ExBudget_sub_exact; [apply Hs|].
  intros p'. specialize (Hrem p'). pose proof (start_budget _ _ Hs p'). lia.
Qed.

Lemma run_terminates t b c : start_ok b c → costs_positive c → term_wt t →
  ∃ fuel, terminates (fst (run fuel t (Machine_new b c))) = true.
Proof using Type*.
  intros Hs Hpos Ht. set (m := Machine_new b c).
  pose proof (Machine_new_inv b c 200 Hs ltac:(unfold u8_max; lia)) as Hm.
  change (with_slippage 200 (Machine_new b c)) with m in Hm.
  pose proof (spec_good _ _ _ (spec_spend (startup (machine_costs c)) 0 (start_startup _ _ Hs)) m Hm
    (Machine_new_ready b c 200 Hs)) as H.
  assert (∀ fuel, run fuel t m =
    (_ ← spend_budget (startup (machine_costs c)); run_loop fuel (Compute 0 EnvEmpty t)) m) as Hrun by done.
  destruct (spend_budget _ m) as [[[]|e| |] m1] eqn:Hsp; try done.
  - destruct H as (Hm1 & Hb & Hh).
    destruct (run_halts (Z.to_nat (fuel_left m1 + u8_max + 1)) (Compute 0 EnvEmpty t) m1) as [fuel Hf]; try done.
    + by rewrite (below_costs _ _ Hb).
    + pose proof (fuel_left_bound m1 Hm1). lia.
    + exists fuel. rewrite Hrun. unfold mbind, MM_bind. by rewrite Hsp.
  - exists 0%nat. rewrite Hrun. unfold mbind, MM_bind. by rewrite Hsp.
Qed.
End Runs.

(** C6: evaluation is safe: on a well-typed term, under any cost model with
    non-negative prices, the machine never panics (its stack assertion holds, its
    step counters never overflow, builtins are called with all their arguments);
    and when it returns a value, that value is well-typed, every step has been
    charged and what it reports as remaining is non-negative and at most the
    initial budget. *)
Theorem machine_safe `{R : BuiltinRuntime} `{!BuiltinLaws R} (fuel : nat) (t : Term) (b : ExBudget) (c : CostModel) :
  start_ok b c → term_wt t →
  match run fuel t (Machine_new b c) with
  | (Ok v, m) => value_wt v ∧ settled m ∧ (∀ p, 0 <= get p (remaining_budget (info m)) <= get p b) ∧
      (∀ p, get p (consumed_budget (info m)) = get p b - get p (remaining_budget (info m)))
  | (Panic, _) => False
  | _ => True
  end.
Proof. intros Hs Ht. by apply run_outcome. Qed.

(** C7: charging steps in batches changes nothing that can be observed of a
    successful run: if a run with some batch size returns a value, the run with
    any other batch size, one (every step charged at once) included, returns the
    same value, with the same remaining budget and the same logs. *)
Theorem batching_equivalent `{R : BuiltinRuntime} `{!BuiltinLaws R} (fuel : nat) (t : Term)
    (b : ExBudget) (c : CostModel) (s1 s2 : Z) (v : Value) (m1 : Machine) :
  start_ok b c → term_wt t → 1 <= s1 <= u8_max → 1 <= s2 <= u8_max →
  run fuel t (with_slippage s1 (Machine_new b c)) = (Ok v, m1) →
  ∃ m2, run fuel t (with_slippage s2 (Machine_new b c)) = (Ok v, m2) ∧
    (∀ p, get p (ex_budget m2) = get p (ex_budget m1)) ∧ logs m2 = logs m1.
Proof.
  intros Hs Ht H1 H2 Hrun. set (n1 := with_slippage s1 _) in *. set (n2 := with_slippage s2 (Machine_new b c)).
  pose proof (run_start fuel t b c s1 Hs Ht H1) as Hst. cbv zeta in Hst. fold n1 in Hst. rewrite Hrun in Hst.
  destruct Hst as (m1a & Hsp1 & Hm1a & Hb1 & Hh1 & Hloop).
  pose proof (Machine_new_inv b c s1 Hs H1) as Hn1. pose proof (Machine_new_inv b c s2 Hs H2) as Hn2.
  pose proof (Machine_new_ready b c s1 Hs) as Hr1. pose proof (Machine_new_ready b c s2 Hs) as Hr2.
  fold n1 in Hn1, Hr1. fold n2 in Hn2, Hr2.
  assert (agree n1 n2) as Hag by by split.
  pose proof (spec_spend (startup (machine_costs c)) 0 (start_startup _ _ Hs)) as [Hg Ha].
  specialize (Hg n2 Hn2 Hr2). specialize (Ha n1 n2 Hn1 Hn2 Hr1 Hr2 Hag). rewrite Hsp1 in Ha.
  assert (run fuel t n2 = (_ ← spend_budget (startup (machine_costs c)); run_loop fuel (Compute 0 EnvEmpty t)) n2)
    as -> by done.
  unfold mbind, MM_bind. destruct (spend_budget _ n2) as [[[]|e| |] m2a]; try done.
  - destruct Ha as [_ Hag'], Hg as (Hm2a & _ & Hh2).
    destruct (run_loop_agrees fuel (Compute 0 EnvEmpty t) m1a m2a v m1) as (m2 & Hrun2 & Hag2); try done.
    exists m2. split; [done|].
    destruct (run_loop_Ok fuel (Compute 0 EnvEmpty t) m1a v m1) as (_ & _ & Hset1 & _); try done.
    destruct (run_loop_Ok fuel (Compute 0 EnvEmpty t) m2a v m2) as (_ & _ & Hset2 & _); try done.
    split; [|symmetry; apply Hag2]. intros p. destruct (Hset1 p) as [_ <-], (Hset2 p) as [_ <-].
    symmetry. apply Hag2.
  - exfalso. by eapply (overspent_never fuel (Compute 0 EnvEmpty t) m1a).
Qed.

(** C8: evaluation terminates: when every kind of step has a positive CPU price
    (as in every default cost model), there is a number of transitions after which
    the machine has returned a value or an error, whatever the well-typed term; no
    term diverges, because each computed term is paid for. *)
Theorem evaluation_terminates `{R : BuiltinRuntime} `{!BuiltinLaws R} (t : Term) (b : ExBudget) (c : CostModel) :
  start_ok b c → costs_positive c → term_wt t →
  ∃ fuel, terminates (fst (run fuel t (Machine_new b c))) = true.
Proof. intros. by apply run_terminates. Qed.

(** ** A runtime with one builtin, for the witnesses

    [addInteger] at a fixed price; every other builtin is refused.  The builtins
    themselves are shown to satisfy the interface in [BuiltinSafety]. *)
Module SmallRuntime.
Definition call_add (c : CostModel) (f : DefaultFunction) (args : list Value) : Call :=
  match f, args with
  | AddInteger, [VCon (ConInteger a); VCon (ConInteger b)] =>
      Ok (mkExBudget 2 100000, Ok (VCon (ConInteger (a + b)), []))
  | _, v :: _ => Err (NotAConstant v)
  | _, [] => Err ExplicitErrorTerm
  end.
#[export] Instance runtime : BuiltinRuntime := call_add.

#[export] Instance laws : BuiltinLaws runtime.
Proof.
  intros c f args _ _ _. unfold builtin_runtime, runtime, call_add.
  repeat case_match; cbn; try done. split; [|done]. intros []; cbn; unfold i64_max; lia.
Qed.

Definition model : CostModel :=
  mkCostModel SemE NoData MachineCosts_default (BuiltinCosts_new (new_cost_map V3 DEFAULT_COST_MODEL_E_V3) SemE).
(** (λx. x + 40) 2 *)
Definition sum : Term :=
  Apply (Lambda 0 (Apply (Apply (Builtin AddInteger) (Var 1)) (Constant_ (ConInteger 40))))
    (Constant_ (ConInteger 2)).

Lemma model_ok : start_ok ExBudget_machine model.
Proof.
  split; [intros []; done|intros [] []; done|intros []; done|].
  apply BuiltinCosts_new_ok. vm_compute. reflexivity.
Qed.
Lemma model_positive : costs_positive model.
Proof. intros []; done. Qed.
Lemma sum_wt : term_wt sum.
Proof. cbn. tauto. Qed.
End SmallRuntime.

Section Witnesses.
Import SmallRuntime.

Lemma machine_safe_witness : ∃ m,
  run 20 SmallRuntime.sum (Machine_new ExBudget_machine SmallRuntime.model) = (Ok (VCon (ConInteger 42)), m) ∧
  settled m.
Proof.
  pose proof (machine_safe 20 SmallRuntime.sum _ _ SmallRuntime.model_ok SmallRuntime.sum_wt) as H.
  destruct (run 20 SmallRuntime.sum (Machine_new ExBudget_machine SmallRuntime.model)) as [o m] eqn:Hrun.
  assert (o = Ok (VCon (ConInteger 42))) as -> by (change o with (fst (o, m)); rewrite <- Hrun; vm_compute; reflexivity).
  exists m. split; [reflexivity|apply H].
Defined.

Lemma batching_equivalent_witness : ∃ m1 m2,
  run 20 SmallRuntime.sum (with_slippage 200 (Machine_new ExBudget_machine SmallRuntime.model)) = (Ok (VCon (ConInteger 42)), m1) ∧
  run 20 SmallRuntime.sum (with_slippage 1 (Machine_new ExBudget_machine SmallRuntime.model)) = (Ok (VCon (ConInteger 42)), m2) ∧
  get Cpu (ex_budget m2) = get Cpu (ex_budget m1).
Proof.
  destruct (run 20 SmallRuntime.sum (with_slippage 200 (Machine_new ExBudget_machine SmallRuntime.model))) as [o m1] eqn:Hrun.
  assert (o = Ok (VCon (ConInteger 42))) as -> by (change o with (fst (o, m1)); rewrite <- Hrun; vm_compute; reflexivity).
  assert (1 <= 200 <= u8_max) as H1 by (unfold u8_max; lia).
  assert (1 <= 1 <= u8_max) as H2 by (unfold u8_max; lia).
  destruct (batching_equivalent 20 SmallRuntime.sum ExBudget_machine SmallRuntime.model 200 1 (VCon (ConInteger 42)) m1
    SmallRuntime.model_ok SmallRuntime.sum_wt H1 H2 Hrun) as (m2 & Hrun2 & Hb & _).
  exists m1, m2. split; [reflexivity|]. split; [exact Hrun2|apply Hb].
Defined.

Lemma evaluation_terminates_witness :
  ∃ fuel, terminates (fst (run fuel SmallRuntime.sum (Machine_new ExBudget_machine SmallRuntime.model))) = true.
Proof.
  exact (evaluation_terminates _ _ _ SmallRuntime.model_ok SmallRuntime.model_positive SmallRuntime.sum_wt).
Defined.
End Witnesses.
