(* ===== verification/BuiltinSafety.v ===== *)
(** * Builtins keep their promise to the machine

    Every builtin call on well-typed arguments is priced by a non-negative
    machine integer, and once paid returns a well-typed value or an error: the
    [unreachable!] branches of [Machine::call] are unreachable, no index is out
    of range, and every loop ends.  This discharges the interface
    [BuiltinLaws] the machine's theorems rely on. *)

From S2P Require Import Prelude FlatBits UplcSyntax SortedAssoc LedgerValue ParamName Costing CostProps CekSyntax CostArgument Integer Builtins BuiltinBits CekTyping Cek CekBudget CekProps.
From S2P Require FlatDecoder Flat.
Import Flat(DataCodec, DataCodecLaws, encode_data, encode_data_terminates).

(** ** Calls, as runs that return *)

Definition typed_result (r : Value * list (list Z)) : Prop := value_wt r.1.
Definition typed_call (x : ExBudget * Result) : Prop :=
  (∀ p, 0 <= get p x.1 <= i64_max) ∧ returns typed_result x.2.

Lemma call_ok_returns (x : Call) : returns typed_call x → call_ok x.
Proof.
  destruct x as [[b r]|e| |]; try done. intros [Hb Hr]. split; [exact Hb|].
  by destruct r as [[v l]|e| |].
Qed.

Create HintDb returns.

(** Unwrapping a well-typed value gives what its type says. *)
Section Unwrap.
Variable v : Value.
Hypothesis Hv : value_wt v.

Lemma unwrap_constant_returns : returns const_wt (unwrap_constant v).
Proof using Hv. by destruct v. Qed.
Lemma unwrap_integer_returns : returns (λ _, True) (unwrap_integer v).
Proof using Type. clear Hv. destruct v as [[]| | | |]; done. Qed.
Lemma unwrap_bounded_integer_returns c : returns (λ _, True) (unwrap_bounded_integer c v).
Proof using Type.
  unfold unwrap_bounded_integer. eapply returns_bind; [apply unwrap_integer_returns|].
  intros i _. by destruct (_ && _).
Qed.
Lemma unwrap_byte_string_returns : returns (λ _, True) (unwrap_byte_string v).
Proof using Type. clear Hv. destruct v as [[]| | | |]; done. Qed.
Lemma unwrap_string_returns : returns (λ _, True) (unwrap_string v).
Proof using Type. clear Hv. destruct v as [[]| | | |]; done. Qed.
Lemma unwrap_bool_returns : returns (λ _, True) (unwrap_bool v).
Proof using Type. clear Hv. destruct v as [[]| | | |]; done. Qed.
Lemma unwrap_unit_returns : returns (λ _, True) (unwrap_unit v).
Proof using Type. clear Hv. destruct v as [[]| | | |]; done. Qed.
Lemma unwrap_data_returns : returns (λ _, True) (unwrap_data v).
Proof using Type. clear Hv. destruct v as [[]| | | |]; done. Qed.
Lemma unwrap_pair_returns :
  returns (λ x, const_wt x.1.2 ∧ const_wt x.2) (unwrap_pair v).
Proof using Hv. destruct v as [[]| | | |]; try done. cbn in *. tauto. Qed.
Lemma unwrap_list_returns : returns (λ x, Forall (item_wt x.1) x.2) (unwrap_list v).
Proof using Hv. destruct v as [[]| | | |]; try done. by apply const_wt_list. Qed.
Lemma unwrap_array_returns : returns (λ x, Forall (item_wt x.1) x.2) (unwrap_array v).
Proof using Hv. destruct v as [[]| | | |]; try done. by apply const_wt_array. Qed.
Lemma unwrap_int_list_returns : returns (Forall (item_wt TyInteger)) (unwrap_int_list v).
Proof using Hv.
  destruct v as [[| | | | |t l| | | | | | |]| | | |]; try done. destruct t; try done. by apply const_wt_list.
Qed.
Lemma unwrap_g1_returns : returns (λ _, True) (unwrap_bls12_381_g1_element v).
Proof using Type. clear Hv. destruct v as [[]| | | |]; done. Qed.
Lemma unwrap_g2_returns : returns (λ _, True) (unwrap_bls12_381_g2_element v).
Proof using Type. clear Hv. destruct v as [[]| | | |]; done. Qed.
Lemma unwrap_ml_result_returns : returns (λ _, True) (unwrap_bls12_381_ml_result v).
Proof using Type. clear Hv. destruct v as [[]| | | |]; done. Qed.
Lemma unwrap_ledger_value_returns : returns value_wf (unwrap_ledger_value v).
Proof using Hv. destruct v as [[]| | | |]; done. Qed.
End Unwrap.

Lemma data_unwrap_constr_returns d : returns (λ _, True) (data_unwrap_constr d).
Proof. by destruct d. Qed.
Lemma data_unwrap_map_returns d : returns (λ _, True) (data_unwrap_map d).
Proof. by destruct d. Qed.
Lemma data_unwrap_integer_returns d : returns (λ _, True) (data_unwrap_integer d).
Proof. by destruct d. Qed.
Lemma data_unwrap_byte_string_returns d : returns (λ _, True) (data_unwrap_byte_string d).
Proof. by destruct d. Qed.
Lemma data_unwrap_list_returns d : returns (λ _, True) (data_unwrap_list d).
Proof. by destruct d. Qed.

#[export] Hint Resolve unwrap_constant_returns unwrap_integer_returns unwrap_bounded_integer_returns
  unwrap_byte_string_returns unwrap_string_returns unwrap_bool_returns unwrap_unit_returns unwrap_data_returns
  unwrap_pair_returns unwrap_list_returns unwrap_array_returns unwrap_int_list_returns unwrap_g1_returns
  unwrap_g2_returns unwrap_ml_result_returns unwrap_ledger_value_returns data_unwrap_constr_returns
  data_unwrap_map_returns data_unwrap_integer_returns data_unwrap_byte_string_returns data_unwrap_list_returns
  returns_ok_or : returns.

(** ** The parts of the arms that could panic *)

Lemma expect_data_returns l : Forall (item_wt TyData) l → returns (λ _, True) (expect_data l).
Proof.
  induction 1 as [|c l [Ht Hc] _ IH]; [done|]. destruct c; try done. cbn [expect_data].
  eapply returns_bind; [exact IH|done].
Qed.

Lemma expect_data_pairs_returns l : Forall (item_wt pair_data_type) l → returns (λ _, True) (expect_data_pairs l).
Proof.
  induction 1 as [|c l [Ht Hc] _ IH]; [done|]. destruct c as [| | | | | | |t1 t2 a b| | | | |]; try done.
  cbn in Ht. injection Ht as -> ->. destruct Hc as (Ha & Hb & _). destruct a; try done. destruct b; try done.
  cbn [expect_data_pairs]. eapply returns_bind; [exact IH|done].
Qed.

(** [exp_mod] computes the modular power for a positive modulus; a negative
    exponent needs an invertible base. *)
Lemma exp_mod_returns b e m : 0 < m → returns (λ _, True) (exp_mod b e m).
Proof.
  intros Hm. unfold exp_mod, is_negative, unsigned_abs, rem_euclid. rewrite !(Z.abs_eq m) by lia.
  pose proof (Z.mod_pos_bound b m Hm). case_bool.
  - destruct (extended_gcd_spec (E := MachineError) (b mod m) m) as (x & y & -> & _); [lia..|].
    cbn [mbind exec_bind]. destruct (negb _); [done|]. by rewrite mod_pow_spec by lia.
  - by rewrite mod_pow_spec by lia.
Qed.

Lemma integer_to_byte_string_returns endianness size input :
  returns (λ _, True) (integer_to_byte_string endianness size input).
Proof.
  unfold integer_to_byte_string. destruct (_ && _); [done|]. destruct (to_bytes_in input endianness) as [bytes|]; [|done].
  destruct (is_zero input); [done|]. destruct (Z.ltb_spec size (Z.of_nat (length bytes))).
  - unfold is_zero. destruct (Z.eqb_spec size 0) as [->|]; [done|]. cbn [negb andb]. done.
  - rewrite andb_false_r. case_bool; done.
Qed.

Lemma read_bit_returns bytes i : returns (λ _, True) (read_bit bytes i).
Proof. rewrite read_bit_eq. case_decide; [done|]. by destruct (in_bits bytes i). Qed.

Lemma write_bits_returns set_bit indices bytes : Forall (item_wt TyInteger) indices →
  returns (λ _, True) (for_in indices (write_bit set_bit) bytes).
Proof.
  intros Hi. rewrite Forall_forall in Hi. apply returns_for_in; [done|]. intros bs c Hc _.
  destruct (Hi c Hc) as [Ht _]. destruct c; try done. rewrite write_bit_eq. by destruct (in_bits bs _).
Qed.

Lemma shift_byte_string_returns bytes s : returns (λ _, True) (shift_byte_string bytes s).
Proof.
  unfold shift_byte_string, unsigned_abs. cbv zeta. destruct (Z.leb_spec (Z.of_nat (length bytes) * 8) (Z.abs s)); [done|].
  pose proof (Z.mod_pos_bound (Z.abs s) 8 ltac:(lia)). assert (0 <= Z.abs s / 8) by (apply Z.div_pos; lia).
  assert (Z.abs s / 8 < Z.of_nat (length bytes)) by (apply Z.div_lt_upper_bound; lia).
  destruct (Z.eq_dec (Z.abs s mod 8) 0) as [->|]; destruct (negb _).
  - unfold shift_left. cbn [Z.eqb]. by rewrite copy_at_Ok by (rewrite length_drop, length_replicate; lia).
  - unfold shift_right. cbn [Z.eqb]. by rewrite copy_at_Ok by (rewrite length_take, length_replicate; lia).
  - by rewrite shift_left_loop by lia.
  - by rewrite shift_right_loop by lia.
Qed.

Lemma rotate_byte_string_returns bytes s : returns (λ _, True) (rotate_byte_string bytes s).
Proof.
  destruct (decide (bytes = [])) as [->|Hne]; [done|]. rewrite rotate_byte_string_unfold by done.
  cbv zeta. by repeat case_bool.
Qed.

Lemma padded_scalar_returns i : returns (λ _, True) (padded_scalar i).
Proof.
  unfold padded_scalar, rem_euclid_bytes. cbv zeta.
  pose proof (Z.mod_pos_bound i (Z.abs SCALAR_PERIOD) ltac:(unfold SCALAR_PERIOD; lia)) as Hr.
  rewrite to_unsigned_bytes_be, length_reverse, to_unsigned_bytes_le, length_le_bytes by apply Hr.
  unfold rem_euclid. set (r := i mod Z.abs SCALAR_PERIOD) in *. unfold byte_len.
  assert (integer_bits r <= 256) by (apply integer_bits_spec; [lia|]; unfold SCALAR_PERIOD in Hr; lia).
  assert ((integer_bits r + 7) / 8 < 33) by (apply Z.div_lt_upper_bound; lia).
  case_bool; [|done]. unfold size_scalar in *. lia.
Qed.

Section Group.
Context `{Crypto}.

Lemma g1_uncompress_returns bytes : returns (λ _, True) (g1_uncompress bytes).
Proof using Type.
  unfold g1_uncompress. destruct (negb _); [done|]. eapply returns_bind; [apply returns_ok_or|].
  intros out _. by destruct (negb _).
Qed.
Lemma g2_uncompress_returns bytes : returns (λ _, True) (g2_uncompress bytes).
Proof using Type.
  unfold g2_uncompress. destruct (negb _); [done|]. eapply returns_bind; [apply returns_ok_or|].
  intros out _. by destruct (negb _).
Qed.

Lemma msm_step_returns ty point inf acc pair : returns (λ _, True) (msm_step ty point inf acc pair).
Proof using Type.
  destruct acc as [bs ps], pair as [scalar p]. destruct scalar; try done. cbn [msm_step].
  destruct (point p) as [pi|]; [|done]. unfold check_multi_scalar_range.
  destruct (fits_signed_range _ _); [|done]. cbn [mbind exec_bind]. destruct (inf pi); [done|].
  eapply (returns_bind (λ _, True)); [|done]. unfold prepare_msm_scalar. eapply returns_bind; [apply padded_scalar_returns|done].
Qed.
End Group.

(** ** Ledger values *)

Lemma value_result_returns {A} (P : A → Prop) (m : exec ValueError A) : returns P m → returns P (value_result m).
Proof. apply returns_map_err. Qed.

Lemma value_size_nonneg v : value_wf v → 0 <= value_size v.
Proof. intros [_ _ ->]. cbn [value_size with_stats]. rewrite count_stats_flat. cbn. lia. Qed.

Lemma check_quantity_range_returns q : returns (λ _, LedgerValue.in_range q) (check_quantity_range q).
Proof.
  pose proof (check_quantity_range_terminates q). destruct (check_quantity_range q) as [u| | |] eqn:Hq; try done.
  by apply check_quantity_range_Ok in Hq.
Qed.
Lemma union_value_returns v1 v2 : value_wf v1 → value_wf v2 → returns value_wf (union_value v1 v2).
Proof.
  intros H1 H2. pose proof (union_value_terminates v1 v2). destruct (union_value v1 v2) as [v| | |] eqn:Hu; try done.
  by apply (union_value_spec_Ok v1 v2 v H1 H2).
Qed.
Lemma scale_value_returns s v : value_wf v → returns value_wf (scale_value s v).
Proof. intros Hv. by destruct (scale_value_correct s v Hv) as [(v' & -> & ? & _)|[-> _]]. Qed.
Lemma value_contains_returns v1 v2 : returns (λ _, True) (value_contains v1 v2).
Proof. unfold value_contains. by repeat case_match. Qed.
Lemma value_data_returns v : returns (λ _, True) (value_data v).
Proof. unfold value_data. by case_bool. Qed.
Lemma un_tokens_returns prev m : returns (λ _, True) (un_tokens prev m).
Proof.
  revert prev. induction m as [|[k x] m IH]; intros prev; cbn [un_tokens]; [done|].
  destruct k; try done. cbn [mbind exec_bind]. case_bool; [done|]. case_match; [done|].
  destruct x; try done. cbn [mbind exec_bind]. case_bool; [done|].
  eapply returns_bind; [apply returns_map_err, check_quantity_range_returns|]. intros _ _.
  eapply returns_bind; [apply IH|done].
Qed.
Lemma un_entries_returns prev m : returns (λ _, True) (un_entries prev m).
Proof.
  revert prev. induction m as [|[k x] m IH]; intros prev; cbn [un_entries]; [done|].
  destruct k; try done. cbn [mbind exec_bind]. case_bool; [done|]. case_match; [done|].
  destruct x as [|inner| | |]; try done. cbn [mbind exec_bind]. destruct inner; [done|].
  eapply returns_bind; [apply un_tokens_returns|]. intros ? _. eapply returns_bind; [apply IH|done].
Qed.
Lemma un_value_data_returns d : returns value_wf (un_value_data d).
Proof.
  assert (returns (λ _, True) (un_value_data d)) as H.
  { destruct d; try done. cbn [un_value_data]. eapply returns_bind; [apply un_entries_returns|done]. }
  destruct (un_value_data d) as [v| | |] eqn:Hd; try done. by apply un_value_data_wf in Hd.
Qed.

(** ** Every arm *)

#[export] Hint Resolve expect_data_returns expect_data_pairs_returns exp_mod_returns integer_to_byte_string_returns
  read_bit_returns write_bits_returns shift_byte_string_returns rotate_byte_string_returns padded_scalar_returns
  g1_uncompress_returns g2_uncompress_returns value_result_returns check_quantity_range_returns union_value_returns
  scale_value_returns value_contains_returns value_data_returns un_value_data_returns : returns.

Section Arms.
Context `{Crypto} `{C : DataCodec} `{!DataCodecLaws C} (costs : CostModel).
Hypothesis Hcosts : builtin_costs_ok (builtin_costs costs).

Lemma priced_returns f sizes r : sizes_ok f sizes → returns typed_result r → returns typed_call (priced costs f sizes r).
Proof using Hcosts.
  intros Hs Hr. unfold priced. destruct (Hcosts MachineError f sizes Hs) as (b & -> & Hm & Hc).
  split; [|done]. by intros [].
Qed.

Lemma sizes_ok_intro f sizes : f ≠ IntegerToByteString → length sizes = Z.to_nat (arity f) →
  Forall (λ s, 0 <= s) sizes → sizes_ok f sizes.
Proof using Type. intros. by split. Qed.

Lemma shift_amount_cost_returns s : returns (λ a, 0 <= a) (shift_amount_cost costs s).
Proof using Type.
  unfold shift_amount_cost. repeat case_match; try done; cbn; unfold i64_saturating_abs, i64_clamp, i64_min, i64_max; lia.
Qed.

Lemma data_node_count_returns d : returns (λ n, 0 <= n) (data_node_count (E := MachineError) d).
Proof using Type. rewrite data_node_count_spec. cbn. lia. Qed.

Lemma con_returns c : const_wt c → returns typed_result (con c).
Proof using Type. done. Qed.
Lemma err_returns {A} P e : returns P (err (A := A) e).
Proof using Type. done. Qed.
End Arms.

(** Arguments in range. *)
Lemma arg_returns args i : Forall value_wt args → (i < length args)%nat → returns value_wt (arg args i).
Proof.
  intros Hwt Hi. unfold arg, index. destruct (lookup_lt_is_Some_2 args i Hi) as [v Hv]. rewrite Hv.
  rewrite Forall_lookup in Hwt. by eapply (Hwt i).
Qed.
Lemma arg_bind_returns {A} (P : A → Prop) args i (f : Value → M A) : Forall value_wt args → (i < length args)%nat →
  (∀ v, value_wt v → returns P (f v)) → returns P (arg args i ≫= f).
Proof. intros. eapply returns_bind; [by apply arg_returns|done]. Qed.

#[export] Hint Resolve shift_amount_cost_returns data_node_count_returns : returns.
#[export] Hint Extern 1 (0 <= measure _ _) => (apply string_size_nonneg) : amaru.
#[export] Hint Resolve value_size_nonneg Z.add_nonneg_nonneg : amaru.
#[export] Hint Extern 1 (0 <= g1_size) => (unfold g1_size; done) : amaru.
#[export] Hint Extern 1 (0 <= g2_size) => (unfold g2_size; done) : amaru.
#[export] Hint Extern 1 (0 <= ml_result_size) => (unfold ml_result_size; done) : amaru.

(** The sizes of an arm: as many as it has arguments, all non-negative. *)
Ltac solve_sizes :=
  apply sizes_ok_intro; [discriminate|reflexivity|];
  repeat (apply Forall_cons_2); try apply Forall_nil_2;
  cbn [fst snd] in *; eauto 3 with amaru; try (cbn; lia).

(** One step through an arm: a bind whose first part returns, then the price. *)
Ltac arm_step :=
  match goal with
  | |- returns _ ((arg _ _ ≫= _) ≫= _) =>
      eapply returns_bind;
        [eapply arg_bind_returns; [eassumption|lia|intros; solve [eauto 2 with returns]]|]; intros ? ?; cbn beta
  | |- returns _ (arg _ _ ≫= _) => eapply arg_bind_returns; [eassumption|lia|]; intros ? ?; cbn beta
  | |- returns _ (_ ≫= _) => eapply returns_bind; [solve [eauto 4 with returns]|]; intros ? ?; cbn beta
  | |- returns _ (let '(_, _) := ?p in _) => destruct p; cbn [fst snd] in *
  | |- returns _ (priced _ _ _ _) => apply priced_returns; [assumption|solve [solve_sizes]|]
  | |- returns typed_result (con _) => apply con_returns; cbn; try tauto
  | |- returns _ (err _) => apply err_returns
  | |- returns _ (Err _) => exact I
  | |- returns typed_result (Ok _) => assumption
  | |- returns _ (if ?b then _ else _) => destruct b eqn:?
  | |- returns _ (match ?x with _ => _ end) => destruct x eqn:?
  end.

(** *** Typed lists *)

Lemma wt_list t l : Forall (item_wt t) l → const_wt (ConProtoList t l).
Proof. apply const_wt_list. Qed.
Lemma wt_array t l : Forall (item_wt t) l → const_wt (ConProtoArray t l).
Proof. apply const_wt_array. Qed.
Lemma wt_item t l i c : Forall (item_wt t) l → l !! i = Some c → const_wt c.
Proof. rewrite Forall_lookup. intros Hl Hi. apply (Hl _ _ Hi). Qed.
Lemma wt_data_list ds : const_wt (ConProtoList TyData (map ConData ds)).
Proof. apply wt_list, Forall_map, Forall_true. by intros. Qed.
Lemma wt_pair_list kvs :
  const_wt (ConProtoList pair_data_type (map (λ '(k, v), ConProtoPair TyData TyData (ConData k) (ConData v)) kvs)).
Proof. apply wt_list, Forall_map, Forall_true. intros [k v]. by repeat split. Qed.

Lemma exmem_range z : 0 <= z <= MAX_BYTE_STRING_OUTPUT_LENGTH → 0 <= exmem z <= i64_max.
Proof.
  unfold exmem, MAX_BYTE_STRING_OUTPUT_LENGTH, i64_max. intros Hz. case_bool; [lia|].
  assert (0 <= (z - 1) / 8) by (apply Z.div_pos; lia).
  assert ((z - 1) / 8 <= 8192) by (apply Z.div_le_upper_bound; lia). lia.
Qed.

Lemma slice_get_lookup {A} (l : list A) i a : slice_get l i = Some a → l !! Z.to_nat i = Some a.
Proof. unfold slice_get. by destruct (_ && _). Qed.

Ltac head c := match c with ?f _ => head f | _ => c end.
Ltac arm := intros Hlen Hwt; cbn in Hlen; match goal with |- returns _ ?c => let h := head c in unfold h end; repeat arm_step.

Section Calls.
Context `{Crypto} `{C : DataCodec} `{!DataCodecLaws C} (costs : CostModel).
Hypothesis Hcosts : builtin_costs_ok (builtin_costs costs).
Variable args : list Value.
Abbreviation arm_ok f := (Z.of_nat (length args) = arity f → Forall value_wt args →
  returns typed_call (builtin_call costs f args)).

Lemma ConsByteString_ok : arm_ok ConsByteString.
Proof using Hcosts.
  cbn [builtin_call]. arm. eapply (returns_bind (λ _, True)); [by repeat case_match|]. intros b _. by apply con_returns.
Qed.

Lemma SliceByteString_ok : arm_ok SliceByteString.
Proof using Hcosts.
  cbn [builtin_call]. arm. exfalso. unfold is_negative, is_greater_than in *.
  apply andb_false_iff in Heqb. repeat case_bool_in Heqb; destruct Heqb; bool_to_prop; lia.
Qed.

Lemma MkCons_ok : arm_ok MkCons.
Proof using Hcosts.
  cbn [builtin_call]. arm. apply (wt_list t (a :: l)). constructor; [|done]. split; [|done].
  apply negb_false_iff, bool_decide_eq_true in Heqb. done.
Qed.

Lemma HeadList_ok : arm_ok HeadList.
Proof using Hcosts. cbn [builtin_call]. arm. by eapply (wt_item t (c :: l0) 0). Qed.
Lemma TailList_ok : arm_ok TailList.
Proof using Hcosts. cbn [builtin_call]. arm. apply (wt_list t l0). by eapply Forall_inv_tail. Qed.

Lemma typ_is (t t' : Typ) : negb (bool_decide (t = t')) = false → t = t'.
Proof using Type. by intros ?%negb_false_iff%bool_decide_eq_true. Qed.

Lemma ConstrData_ok : arm_ok ConstrData.
Proof using Hcosts.
  cbn [builtin_call]. arm. apply typ_is in Heqb as ->.
  eapply returns_bind; [by apply expect_data_returns|]. intros. by apply con_returns.
Qed.
Lemma MapData_ok : arm_ok MapData.
Proof using Hcosts.
  cbn [builtin_call]. arm. apply typ_is in Heqb as ->.
  eapply returns_bind; [by apply expect_data_pairs_returns|]. intros. by apply con_returns.
Qed.
Lemma ListData_ok : arm_ok ListData.
Proof using Hcosts.
  cbn [builtin_call]. arm. apply typ_is in Heqb as ->.
  eapply returns_bind; [by apply expect_data_returns|]. intros. by apply con_returns.
Qed.
Lemma UnConstrData_ok : arm_ok UnConstrData.
Proof using Hcosts. cbn [builtin_call]. arm. split; [done|]. split; [done|]. split; [done|]. apply wt_data_list. Qed.
Lemma UnMapData_ok : arm_ok UnMapData.
Proof using Hcosts. cbn [builtin_call]. arm. apply wt_pair_list. Qed.
Lemma UnListData_ok : arm_ok UnListData.
Proof using Hcosts. cbn [builtin_call]. arm. apply wt_data_list. Qed.
Lemma SerialiseData_ok : arm_ok SerialiseData.
Proof using Hcosts DataCodecLaws0.
  cbn [builtin_call]. arm. eapply returns_bind; [apply returns_map_err, returns_terminates, encode_data_terminates|].
  intros. by apply con_returns.
Qed.

Lemma IntegerToByteString_ok : arm_ok IntegerToByteString.
Proof using Hcosts.
  cbn [builtin_call]. arm. unfold is_negative, is_greater_than in *. bool_to_prop.
  pose proof (exmem_range a0 ltac:(lia)). apply priced_returns; [done| |].
  - split; [done| |]; [repeat constructor; [done|lia|apply integer_size_nonneg]|]. intros _ y [= <-]. lia.
  - eapply returns_bind; [apply integer_to_byte_string_returns|]. intros. by apply con_returns.
Qed.
Lemma ReplicateByte_ok : arm_ok ReplicateByte.
Proof using Hcosts.
  cbn [builtin_call]. arm. unfold is_negative, is_greater_than in *. bool_to_prop.
  pose proof (exmem_range a ltac:(lia)). apply priced_returns; [done|solve_sizes|]. repeat arm_step.
Qed.
Lemma ExpModInteger_ok : arm_ok ExpModInteger.
Proof using Hcosts.
  cbn [builtin_call]. arm. unfold is_negative, is_zero in *. bool_to_prop.
  eapply returns_bind; [apply exp_mod_returns; lia|]. intros. by apply con_returns.
Qed.

Lemma DropList_ok : arm_ok DropList.
Proof using Hcosts.
  cbn [builtin_call]. arm. cbv zeta. apply priced_returns; [done| |].
  - apply sizes_ok_intro; [done|done|]. repeat constructor; [|apply list_size_nonneg].
    unfold unsigned_abs, i64_max. case_bool; lia.
  - destruct (is_negative a); apply con_returns, wt_list; [done|]. by apply Forall_drop.
Qed.
Lemma ListToArray_ok : arm_ok ListToArray.
Proof using Hcosts. cbn [builtin_call]. arm. by apply (wt_array t l). Qed.
Lemma IndexArray_ok : arm_ok IndexArray.
Proof using Hcosts. cbn [builtin_call]. arm. eapply wt_item; [done|by apply slice_get_lookup]. Qed.

Lemma G1_MultiScalarMul_ok : arm_ok Bls12_381_G1_MultiScalarMul.
Proof using Hcosts.
  cbn [builtin_call]. arm. eapply (returns_bind (λ _, True)).
  { apply returns_for_in; [done|]. intros. apply msm_step_returns. }
  intros [bs ps] _. eapply (returns_bind (λ _, True)); [|intros; by apply con_returns].
  destruct ps; [apply g1_uncompress_returns|done].
Qed.
Lemma G2_MultiScalarMul_ok : arm_ok Bls12_381_G2_MultiScalarMul.
Proof using Hcosts.
  cbn [builtin_call]. arm. eapply (returns_bind (λ _, True)).
  { apply returns_for_in; [done|]. intros acc i Hi _. apply elem_of_seq in Hi. unfold index.
    destruct (lookup_lt_is_Some_2 l i ltac:(lia)) as [x Hx]. rewrite Hx. cbn [mbind exec_bind].
    destruct x; try done. destruct (lookup_lt_is_Some_2 l0 i ltac:(lia)) as [y Hy]. rewrite Hy. apply msm_step_returns. }
  intros [bs ps] _. eapply (returns_bind (λ _, True)); [|intros; by apply con_returns].
  destruct ps; [apply g2_uncompress_returns|done].
Qed.

Lemma InsertCoin_ok : arm_ok InsertCoin.
Proof using Hcosts.
  cbn [builtin_call]. arm. eapply (returns_bind (λ _, LedgerValue.in_range a1)).
  - unfold is_zero. case_bool; cbn [negb].
    + subst. cbn. unfold LedgerValue.in_range. lia.
    + apply value_result_returns, check_quantity_range_returns.
  - intros _ Hq. repeat arm_step. by apply insert_coin_correct.
Qed.

Lemma builtin_call_returns f : arm_ok f.
Proof using Hcosts DataCodecLaws0.
  destruct f; first
    [apply ConsByteString_ok|apply SliceByteString_ok|apply MkCons_ok|apply HeadList_ok|apply TailList_ok
    |apply ConstrData_ok|apply MapData_ok|apply ListData_ok|apply UnConstrData_ok|apply UnMapData_ok
    |apply UnListData_ok|apply SerialiseData_ok|apply IntegerToByteString_ok|apply ReplicateByte_ok
    |apply ExpModInteger_ok|apply DropList_ok|apply ListToArray_ok|apply IndexArray_ok|apply G1_MultiScalarMul_ok
    |apply G2_MultiScalarMul_ok|apply InsertCoin_ok|cbn [builtin_call]; arm].
Qed.
End Calls.

(** C9: every builtin is safe on well-typed arguments: for any function and as
    many arguments as its arity, under any cost model that prices builtins, the
    call has a price that is a non-negative machine integer, and its result is an
    error or a well-typed value; no arm panics or loops. *)
Theorem builtins_safe `{Crypto} `{C : DataCodec} `{!DataCodecLaws C} (costs : CostModel) (f : DefaultFunction)
    (args : list Value) :
  builtin_costs_ok (builtin_costs costs) → Z.of_nat (length args) = arity f → Forall value_wt args →
  call_ok (builtin_call costs f args).
Proof. intros. by apply call_ok_returns, builtin_call_returns. Qed.

(** The builtins implement the interface of the machine. *)
#[global] Instance builtins `{Crypto} `{DataCodec} : BuiltinRuntime := builtin_call.
#[global] Instance builtins_laws `{Crypto} `{C : DataCodec} `{!DataCodecLaws C} : BuiltinLaws builtins.
Proof. intros c f args Hc Hlen Hwt. by apply call_ok_returns, builtin_call_returns. Qed.

(** ** Instances for the witnesses: trivial cryptography *)
Module SmallCrypto.
Definition crypto : Crypto := {|
  hash_sha2_256 := id; hash_sha3_256 := id; hash_blake2b_256 := id; hash_blake2b_224 := id; hash_keccak_256 := id;
  hash_ripemd_160 := id; hamming_weight := λ bs, Z.of_nat (length (filter (λ b, b = true) (bytes_bits bs)));
  ed25519_verify_strict := λ _ _ _, true;
  secp256k1_public_key := Some; secp256k1_signature_compact := Some; secp256k1_message := Some;
  secp256k1_verify_ecdsa := λ _ _ _, true; secp256k1_xonly_public_key := Some; secp256k1_schnorr_signature := Some;
  secp256k1_verify_schnorr := λ _ _ _, true; scalar_from_bendian := reverse;
  p1_uncompress := Some; p2_uncompress := Some; p1_in_g1 := λ _, true; p2_in_g2 := λ _, true;
  p1_compress := id; p2_compress := id; p1_add_or_double := λ a _, a; p2_add_or_double := λ a _, a;
  p1_is_equal := λ a b, bool_decide (a = b); p2_is_equal := λ a b, bool_decide (a = b);
  p1_is_inf := λ _, false; p2_is_inf := λ _, false; p1_cneg := id; p2_cneg := id;
  p1_mult := λ p _ _, p; p2_mult := λ p _ _, p; p1_affines_mult := λ _ s _, s; p2_affines_mult := λ _ s _, s;
  hash_to_g1 := λ m _, m; hash_to_g2 := λ m _, m; miller_loop := λ a _, a; fp12_mul := λ a _, a;
  fp12_finalverify := λ a b, bool_decide (a = b) |}.
End SmallCrypto.

Lemma builtins_safe_witness :
  call_ok (@builtin_call SmallCrypto.crypto Flat.small_data_codec SmallRuntime.model DivideInteger
    [VCon (ConInteger (-7)); VCon (ConInteger 2)]).
Proof.
  apply (@builtins_safe SmallCrypto.crypto Flat.small_data_codec Flat.small_data_codec_laws).
  - apply SmallRuntime.model_ok.
  - reflexivity.
  - repeat constructor.
Defined.
