(* ===== verification/ProtocolParameters.v ===== *)
(** * Protocol parameters

    [amaru-kernel/src/cardano/protocol_parameters.rs] and what it is made of:
    [rational_number.rs], [unit_rational_number.rs], [ex_units.rs],
    [ex_units_prices.rs], [cost_models.rs], [pool_voting_thresholds.rs],
    [drep_voting_thresholds.rs] and [protocol_parameters_update.rs].  Every field of
    the parameters is kept, with the update a governance action applies to them.
    [UnitRationalNumber] and [RationalNumber] share one representation.  Rationals
    of arbitrary precision ([SafeRatio]) are the rationals of the library, kept
    in lowest terms as [num::rational::Ratio::new] does. *)

From Stdlib Require Import QArith Qreduction.
From S2P Require Import Prelude UplcSyntax ParamName.
#[local] Open Scope Z_scope.

(** ** Rational numbers *)

Record RationalNumber := mkRationalNumber { numerator : Z; denominator : Z }.
#[global] Instance RationalNumber_eq_dec : EqDecision RationalNumber.
Proof. solve_decision. Defined.
Definition RationalNumber_zero : RationalNumber := mkRationalNumber 0 1.
Definition RationalNumber_one : RationalNumber := mkRationalNumber 1 1.

(** On [u128] products, which do not overflow. *)
Definition RationalNumber_cmp (a b : RationalNumber) : comparison :=
  Z.compare (numerator a * denominator b) (numerator b * denominator a).

Inductive RationalError := DenominatorZero | DoesNotFit | NotInUnitInterval.

Definition RationalNumber_new (n d : Z) : exec RationalError RationalNumber :=
  if d =? 0 then Err DenominatorZero
  else
    let negative := negb (Bool.eqb (n <? 0) (d <? 0)) in
    let n := Z.abs n in
    let d := Z.abs d in
    let divisor := Z.gcd n d in
    if (n / divisor <=? u64_max) && (d / divisor <=? u64_max) && (negb negative || (n / divisor =? 0))
    then Ok (mkRationalNumber (n / divisor) (d / divisor))
    else Err DoesNotFit.

Definition UnitRationalNumber_new (n d : Z) : exec RationalError RationalNumber :=
  rational ← RationalNumber_new n d;
  if d <? n then Err NotInUnitInterval else Ok rational.

(** [Ratio<BigUint>]. *)
Abbreviation SafeRatio := Q.
Definition SafeRatio_zero : SafeRatio := 0%Q.
Definition SafeRatio_one : SafeRatio := 1%Q.

(** [Ratio::new] refuses a null denominator, and reduces. *)
Definition safe_ratio {E} (n d : Z) : exec E SafeRatio :=
  if d =? 0 then Panic else Ok (Qred (Qmake n (Z.to_pos d))).
Definition into_safe_ratio {E} (r : RationalNumber) : exec E SafeRatio := safe_ratio (numerator r) (denominator r).
Definition ratio_leb (a b : SafeRatio) : bool := Qle_bool a b.
Definition ratio_eqb (a b : SafeRatio) : bool := Qeq_bool a b.

(** ** Execution units and cost models *)

Record ExUnits := mkExUnits { units_mem : Z; units_steps : Z }.
Record ExUnitPrices := mkExUnitPrices { mem_price : RationalNumber; step_price : RationalNumber }.

Record CostModels := mkCostModels {
  plutus_v1 : option (list Z);
  plutus_v2 : option (list Z);
  plutus_v3 : option (list Z);
  unknown : gmap Z (list Z) }.

Definition CostModels_default_for (v : ProtocolVersion) : CostModels :=
  let '(v1, v2) :=
    if pv_ltb v PROTOCOL_VERSION_9 then (DEFAULT_COST_MODEL_A_V1, DEFAULT_COST_MODEL_A_V2)
    else if pv_ltb v PROTOCOL_VERSION_11 then (DEFAULT_COST_MODEL_B_V1, DEFAULT_COST_MODEL_B_V2)
    else (DEFAULT_COST_MODEL_D_V1, DEFAULT_COST_MODEL_D_V2) in
  let v3 := if pv_ltb v PROTOCOL_VERSION_11 then DEFAULT_COST_MODEL_C_V3 else DEFAULT_COST_MODEL_E_V3 in
  mkCostModels (Some v1) (Some v2) (Some v3) ∅.

(** [if let Some(val) = opt { *field = val }]. *)
Definition set_field {T} (field : T) (opt : option T) : T := match opt with Some val => val | None => field end.

Definition CostModels_update (self update : CostModels) : CostModels :=
  let v1 := match plutus_v1 update with Some m => Some m | None => plutus_v1 self end in
  let v2 := match plutus_v2 update with Some m => Some m | None => plutus_v2 self end in
  let v3 := match plutus_v3 update with Some m => Some m | None => plutus_v3 self end in
  let extended := unknown update ∪ unknown self in
  let drop_known := λ (u : gmap Z (list Z)) '((language, cost_model) : Z * option (list Z)),
    match cost_model with Some _ => delete language u | None => u end in
  mkCostModels v1 v2 v3 (foldl drop_known extended [(0, v1); (1, v2); (2, v3)]).

(** ** Voting thresholds *)

Record PoolVotingThresholds := mkPoolVotingThresholds {
  pvt_motion_no_confidence : RationalNumber;
  pvt_committee_normal : RationalNumber;
  pvt_committee_no_confidence : RationalNumber;
  pvt_hard_fork_initiation : RationalNumber;
  pvt_security_voting_threshold : RationalNumber }.

Record DRepVotingThresholds := mkDRepVotingThresholds {
  dvt_motion_no_confidence : RationalNumber;
  dvt_committee_normal : RationalNumber;
  dvt_committee_no_confidence : RationalNumber;
  dvt_update_constitution : RationalNumber;
  dvt_hard_fork_initiation : RationalNumber;
  dvt_pp_network_group : RationalNumber;
  dvt_pp_economic_group : RationalNumber;
  dvt_pp_technical_group : RationalNumber;
  dvt_pp_governance_group : RationalNumber;
  dvt_treasury_withdrawal : RationalNumber }.

(** ** The parameters and their updates *)

Record ProtocolParameters := mkProtocolParameters {
  protocol_version : ProtocolVersion;
  max_block_body_size : Z;
  max_transaction_size : Z;
  max_block_header_size : Z;
  max_tx_ex_units : ExUnits;
  max_block_ex_units : ExUnits;
  max_value_size : Z;
  max_collateral_inputs : Z;
  min_fee_a : Z;
  min_fee_b : Z;
  stake_credential_deposit : Z;
  stake_pool_deposit : Z;
  monetary_expansion_rate : RationalNumber;
  treasury_expansion_rate : RationalNumber;
  min_pool_cost : Z;
  lovelace_per_utxo_byte : Z;
  prices : ExUnitPrices;
  min_fee_ref_script_lovelace_per_byte : RationalNumber;
  max_ref_script_size_per_tx : Z;
  max_ref_script_size_per_block : Z;
  ref_script_cost_stride : Z;
  ref_script_cost_multiplier : RationalNumber;
  stake_pool_max_retirement_epoch : Z;
  optimal_stake_pools_count : Z;
  pledge_influence : RationalNumber;
  collateral_percentage : Z;
  cost_models : CostModels;
  pool_voting_thresholds : PoolVotingThresholds;
  drep_voting_thresholds : DRepVotingThresholds;
  min_committee_size : Z;
  max_committee_term_length : Z;
  gov_action_lifetime : Z;
  gov_action_deposit : Z;
  drep_deposit : Z;
  drep_expiry : Z }.

Record ProtocolParamUpdate := mkProtocolParamUpdate {
  u_minfee_a : option Z;
  u_minfee_b : option Z;
  u_max_block_body_size : option Z;
  u_max_transaction_size : option Z;
  u_max_block_header_size : option Z;
  u_key_deposit : option Z;
  u_pool_deposit : option Z;
  u_maximum_epoch : option Z;
  u_desired_number_of_stake_pools : option Z;
  u_pool_pledge_influence : option RationalNumber;
  u_expansion_rate : option RationalNumber;
  u_treasury_growth_rate : option RationalNumber;
  u_min_pool_cost : option Z;
  u_ada_per_utxo_byte : option Z;
  u_cost_models_for_script_languages : option CostModels;
  u_execution_costs : option ExUnitPrices;
  u_max_tx_ex_units : option ExUnits;
  u_max_block_ex_units : option ExUnits;
  u_max_value_size : option Z;
  u_collateral_percentage : option Z;
  u_max_collateral_inputs : option Z;
  u_pool_voting_thresholds : option PoolVotingThresholds;
  u_drep_voting_thresholds : option DRepVotingThresholds;
  u_min_committee_size : option Z;
  u_committee_term_limit : option Z;
  u_governance_action_validity_period : option Z;
  u_governance_action_deposit : option Z;
  u_drep_deposit : option Z;
  u_drep_inactivity_period : option Z;
  u_minfee_refscript_cost_per_byte : option RationalNumber }.

Definition ProtocolParamUpdate_default : ProtocolParamUpdate :=
  mkProtocolParamUpdate None None None None None None None None None None None None None None None None None None None None None None None None None None None None None None.

Definition ProtocolParameters_update (self : ProtocolParameters) (u : ProtocolParamUpdate) : ProtocolParameters := {|
  protocol_version := protocol_version self;
  max_block_body_size := set_field (max_block_body_size self) (u_max_block_body_size u);
  max_transaction_size := set_field (max_transaction_size self) (u_max_transaction_size u);
  max_block_header_size := set_field (max_block_header_size self) (u_max_block_header_size u);
  max_tx_ex_units := set_field (max_tx_ex_units self) (u_max_tx_ex_units u);
  max_block_ex_units := set_field (max_block_ex_units self) (u_max_block_ex_units u);
  max_value_size := set_field (max_value_size self) (u_max_value_size u);
  max_collateral_inputs := set_field (max_collateral_inputs self) (u_max_collateral_inputs u);
  min_fee_a := set_field (min_fee_a self) (u_minfee_a u);
  min_fee_b := set_field (min_fee_b self) (u_minfee_b u);
  stake_credential_deposit := set_field (stake_credential_deposit self) (u_key_deposit u);
  stake_pool_deposit := set_field (stake_pool_deposit self) (u_pool_deposit u);
  monetary_expansion_rate := set_field (monetary_expansion_rate self) (u_treasury_growth_rate u);
  treasury_expansion_rate := set_field (treasury_expansion_rate self) (u_expansion_rate u);
  min_pool_cost := set_field (min_pool_cost self) (u_min_pool_cost u);
  lovelace_per_utxo_byte := set_field (lovelace_per_utxo_byte self) (u_ada_per_utxo_byte u);
  prices := set_field (prices self) (u_execution_costs u);
  min_fee_ref_script_lovelace_per_byte := set_field (min_fee_ref_script_lovelace_per_byte self) (u_minfee_refscript_cost_per_byte u);
  max_ref_script_size_per_tx := max_ref_script_size_per_tx self;
  max_ref_script_size_per_block := max_ref_script_size_per_block self;
  ref_script_cost_stride := ref_script_cost_stride self;
  ref_script_cost_multiplier := ref_script_cost_multiplier self;
  stake_pool_max_retirement_epoch := set_field (stake_pool_max_retirement_epoch self) (u_maximum_epoch u);
  optimal_stake_pools_count := set_field (optimal_stake_pools_count self) (u_desired_number_of_stake_pools u);
  pledge_influence := set_field (pledge_influence self) (u_pool_pledge_influence u);
  collateral_percentage := set_field (collateral_percentage self) (u_collateral_percentage u);
  cost_models := match u_cost_models_for_script_languages u with Some m => CostModels_update (cost_models self) m | None => cost_models self end;
  pool_voting_thresholds := set_field (pool_voting_thresholds self) (u_pool_voting_thresholds u);
  drep_voting_thresholds := set_field (drep_voting_thresholds self) (u_drep_voting_thresholds u);
  min_committee_size := set_field (min_committee_size self) (u_min_committee_size u);
  max_committee_term_length := set_field (max_committee_term_length self) (u_committee_term_limit u);
  gov_action_lifetime := set_field (gov_action_lifetime self) (u_governance_action_validity_period u);
  gov_action_deposit := set_field (gov_action_deposit self) (u_governance_action_deposit u);
  drep_deposit := set_field (drep_deposit self) (u_drep_deposit u);
  drep_expiry := set_field (drep_expiry self) (u_drep_inactivity_period u) |}.

Definition any_in_security_group (u : ProtocolParamUpdate) : bool :=
  is_some (u_minfee_a u)
  || is_some (u_minfee_b u)
  || is_some (u_max_block_body_size u)
  || is_some (u_max_block_header_size u)
  || is_some (u_max_transaction_size u)
  || is_some (u_ada_per_utxo_byte u)
  || is_some (u_max_block_ex_units u)
  || is_some (u_max_value_size u)
  || is_some (u_governance_action_deposit u)
  || is_some (u_minfee_refscript_cost_per_byte u).

(** ** Defaults

    The constants of [protocol_parameters/default.rs]; every [expect] there
    succeeds. *)
Definition expect_ratio (r : exec RationalError RationalNumber) : RationalNumber :=
  match r with Ok r => r | _ => RationalNumber_zero end.
Definition MAINNET_DEFAULT_PROTOCOL_PARAMETERS : ProtocolParameters := {|
  protocol_version := PROTOCOL_VERSION_10;
  max_block_body_size := 90112;
  max_transaction_size := 16384;
  max_block_header_size := 1100;
  max_tx_ex_units := mkExUnits 16500000 10000000000;
  max_block_ex_units := mkExUnits 72000000 20000000000;
  max_value_size := 5000;
  max_collateral_inputs := 3;
  min_fee_a := 44;
  min_fee_b := 155381;
  stake_credential_deposit := 2000000;
  stake_pool_deposit := 500000000;
  monetary_expansion_rate := expect_ratio (UnitRationalNumber_new 3 1000);
  treasury_expansion_rate := expect_ratio (UnitRationalNumber_new 2 10);
  min_pool_cost := 170000000;
  lovelace_per_utxo_byte := 4310;
  prices := mkExUnitPrices
    (expect_ratio (RationalNumber_new 577 10000))
    (expect_ratio (RationalNumber_new 721 10000000));
  min_fee_ref_script_lovelace_per_byte := expect_ratio (RationalNumber_new 15 1);
  max_ref_script_size_per_tx := 200 * 1024;
  max_ref_script_size_per_block := 1024 * 1024;
  ref_script_cost_stride := 25600;
  ref_script_cost_multiplier := expect_ratio (RationalNumber_new 12 10);
  stake_pool_max_retirement_epoch := 18;
  optimal_stake_pools_count := 500;
  pledge_influence := expect_ratio (RationalNumber_new 3 10);
  collateral_percentage := 150;
  cost_models := CostModels_default_for PROTOCOL_VERSION_10;
  pool_voting_thresholds := mkPoolVotingThresholds
    (expect_ratio (UnitRationalNumber_new 51 100))
    (expect_ratio (UnitRationalNumber_new 51 100))
    (expect_ratio (UnitRationalNumber_new 51 100))
    (expect_ratio (UnitRationalNumber_new 51 100))
    (expect_ratio (UnitRationalNumber_new 51 100));
  drep_voting_thresholds := mkDRepVotingThresholds
    (expect_ratio (UnitRationalNumber_new 67 100))
    (expect_ratio (UnitRationalNumber_new 67 100))
    (expect_ratio (UnitRationalNumber_new 60 100))
    (expect_ratio (UnitRationalNumber_new 75 100))
    (expect_ratio (UnitRationalNumber_new 60 100))
    (expect_ratio (UnitRationalNumber_new 67 100))
    (expect_ratio (UnitRationalNumber_new 67 100))
    (expect_ratio (UnitRationalNumber_new 67 100))
    (expect_ratio (UnitRationalNumber_new 75 100))
    (expect_ratio (UnitRationalNumber_new 67 100));
  min_committee_size := 7;
  max_committee_term_length := 146;
  gov_action_lifetime := 6;
  gov_action_deposit := 100000000000;
  drep_deposit := 500000000;
  drep_expiry := 20 |}.

(** ** Properties *)

(** A rational that was accepted is the one asked for, in lowest terms, on
    machine words. *)
Definition ratio_wf (r : RationalNumber) : Prop :=
  0 <= numerator r <= u64_max ∧ 0 < denominator r <= u64_max ∧ Z.gcd (numerator r) (denominator r) = 1.

Lemma RationalNumber_new_spec n d r : RationalNumber_new n d = Ok r →
  ratio_wf r ∧ numerator r * d = n * denominator r.
Proof.
  unfold RationalNumber_new. case_bool; [done|]. set (g := Z.gcd (Z.abs n) (Z.abs d)).
  assert (0 < g) as Hg.
  { assert (g ≠ 0); [|pose proof (Z.gcd_nonneg (Z.abs n) (Z.abs d)); subst g; lia].
    intros H0. apply Z.gcd_eq_0_r in H0. lia. }
  destruct (Z.gcd_divide_l (Z.abs n) (Z.abs d)) as [a Ha], (Z.gcd_divide_r (Z.abs n) (Z.abs d)) as [b Hb].
  fold g in Ha, Hb. assert (Z.gcd a b = 1) as Hco.
  { apply (Z.mul_reg_r _ _ g); [lia|]. rewrite <- Z.gcd_mul_mono_r_nonneg, <- Ha, <- Hb by lia. unfold g. lia. }
  rewrite Ha, Hb, !Z.div_mul by lia. intros Hr. destruct (_ && _) eqn:Hc; [|done]. injection Hr as <-.
  bool_to_prop. cbn [numerator denominator].
  assert (0 <= a ∧ 0 < b) as [? ?] by nia.
  split; [repeat split; cbn; lia|].
  destruct (Z.ltb_spec n 0), (Z.ltb_spec d 0); cbn in *; try nia;
    destruct H2 as [|H2]; try done; bool_to_prop; nia.
Qed.

Lemma into_safe_ratio_Ok {E} r : ratio_wf r → ∃ q, into_safe_ratio (E := E) r = Ok q ∧
  (q == Qmake (numerator r) (Z.to_pos (denominator r)))%Q.
Proof.
  intros (_ & Hd & _). unfold into_safe_ratio, safe_ratio. rewrite (proj2 (Z.eqb_neq _ _)) by lia.
  eexists. split; [done|]. apply Qred_correct.
Qed.

(** No language is held both as a known and as an unknown one after an update. *)
Lemma CostModels_update_known self update :
  let m := CostModels_update self update in
  (is_Some (plutus_v1 m) → unknown m !! 0 = None) ∧
  (is_Some (plutus_v2 m) → unknown m !! 1 = None) ∧
  (is_Some (plutus_v3 m) → unknown m !! 2 = None).
Proof.
  unfold CostModels_update. cbv zeta. cbn [plutus_v1 plutus_v2 plutus_v3 unknown foldl].
  repeat split; intros [? Heq]; rewrite Heq; repeat case_match; simplify_map_eq; done.
Qed.
