(* ===== verification/PhaseTwo.v ===== *)
(** * Phase-two validation: running the scripts of a transaction

    Models [execute] of [amaru-ledger/src/rules/transaction/phase_two/mod.rs] and
    the part of [EvalResult] it reads: inputs are resolved, every script the
    redeemers point to is decoded, applied to its arguments and evaluated within
    its budget, and the failures are collected.

    Inputs of the model, from parts of the ledger that are not modelled: the
    lookup of unspent outputs, the translation of the transaction to the scripts
    to execute with their contexts ([TxInfo::new], [to_script_contexts]), the
    arguments of a context ([to_script_args]) and their conversion through CBOR to
    the data of the evaluator ([from_cbor]), which panics when it fails. *)

From S2P Require Import Prelude FlatBits UplcSyntax LedgerValue ParamName ProtocolParameters Costing CostProps CekSyntax Builtins CekTyping Cek CekBudget CekProps BuiltinSafety.
From S2P Require FlatEncoder FlatDecoder Flat.
Import Flat(DataCodec, DataCodecLaws).

(** ** Data *)

Record TransactionInput := mkTransactionInput { transaction_id : list Z; input_index : Z }.
#[global] Instance TransactionInput_eq_dec : EqDecision TransactionInput.
Proof. solve_decision. Defined.
#[global] Instance TransactionInput_countable : Countable TransactionInput.
Proof.
  refine (inj_countable' (λ i, (transaction_id i, input_index i)) (λ '(t, n), mkTransactionInput t n) _).
  by intros [].
Defined.

Inductive RedeemerTag := Spend | Mint | Cert | Reward | Vote | Propose.
Record RedeemerKey := mkRedeemerKey { redeemer_tag : RedeemerTag; redeemer_index : Z }.

(** A script: the flat bytes inside of its CBOR, if they are well formed, and its
    hash. *)
Record PlutusScript := mkPlutusScript { to_bytes : option (list Z); script_hash : list Z }.
Inductive BorrowedScript :=
| Native
| PlutusV1 (s : PlutusScript)
| PlutusV2 (s : PlutusScript)
| PlutusV3 (s : PlutusScript).

Inductive PreparationError :=
| MissingInput (input : TransactionInput)
| TransactionTranslation
| ScriptContextState
| ScriptDeserialization
| MissingCostModel (v : PlutusVersion)
| MalformedScriptWitness (hash : list Z)
| NonDisjointRefInputs (intersection : list TransactionInput).

(** The rendered error of a failed script. *)
Inductive ScriptError := MachineFailed (e : MachineError) | NonUnitTerm.
Record UplcMachineError := mkUplcMachineError {
  plutus_version : PlutusVersion; machine_info : MachineInfo; redeemer : RedeemerKey;
  script_error : ScriptError; program_bytes : list Z }.
Inductive ScriptOutcome := Passed | Failed (e : UplcMachineError).

(** [u64 as i64]. *)
Definition as_i64 (z : Z) : Z := if z <=? i64_max then z else z - 2 ^ 64.

(** [EvalResult::is_unit]. *)
Definition is_unit (value : exec MachineError Value) : bool :=
  match value with Ok (VCon ConUnit) => true | _ => false end.

Fixpoint collect_failures (script_results : list (exec PreparationError ScriptOutcome))
  : exec PreparationError (list UplcMachineError) :=
  match script_results with
  | [] => Ok []
  | result :: script_results =>
      outcome ← result;
      failures ← collect_failures script_results;
      match outcome with Passed => Ok failures | Failed e => Ok (e :: failures) end
  end.

(** The scripts all run, in parallel, before any result is looked at: a panic in
    one of them is a panic of the whole. *)
Fixpoint run_all {E A} (results : list (exec E A)) : exec E (list (exec E A)) :=
  match results with
  | [] => Ok []
  | Panic :: _ => Panic
  | OutOfFuel :: _ => OutOfFuel
  | result :: results => rest ← run_all results; Ok (result :: rest)
  end.

Section PhaseTwo.
Context `{Crypto} `{DataCodec}.
Context {Arg Output : Type} (from_cbor : Arg → option PlutusData).

(** What is read of a script context. *)
Record ScriptContext := mkScriptContext {
  to_script_args : PlutusVersion → exec PreparationError (list Arg);
  context_budget : ExUnits }.

Definition encode_program (p : Program) : list Z := match Flat.encode p with Ok bytes => bytes | _ => [] end.

(** The three arms on the version of the script. *)
Definition prepare (pp : ProtocolParameters) (ctx : ScriptContext) (s : PlutusScript) (n : Z)
    (cost_model : option (list Z)) : exec PreparationError (Program * PlutusVersion * list Arg * list Z) :=
  '(program, v) ← map_err (λ _, MalformedScriptWitness (script_hash s))
                    (Flat.decode_plutus_script (to_bytes s) n (protocol_version pp));
  args ← to_script_args ctx v;
  cost_model ← ok_or (MissingCostModel v) cost_model;
  Ok (program, v, args, cost_model).

(** [PlutusData::from_cbor(to_cbor(arg)).expect(..)], for every argument. *)
Fixpoint convert_args (args : list Arg) : exec PreparationError (list Term) :=
  match args with
  | [] => Ok []
  | arg :: args =>
      data ← match from_cbor arg with Some data => Ok data | None => Panic end;
      terms ← convert_args args;
      Ok (Constant_ (ConData data) :: terms)
  end.

Definition verdict (v : PlutusVersion) (key : RedeemerKey) (program : Program)
    (result : exec MachineError Value * MachineInfo) : exec PreparationError ScriptOutcome :=
  let '(value, info) := result in
  let uplc_machine_error err := Ok (Failed (mkUplcMachineError v info key err (encode_program program))) in
  match value with
  | Panic => Panic
  | OutOfFuel => OutOfFuel
  | Err error => uplc_machine_error (MachineFailed error)
  | Ok _ =>
      match v with
      | V1 | V2 => Ok Passed
      | V3 => if is_unit value then Ok Passed else uplc_machine_error NonUnitTerm
      end
  end.

Definition execute_script (fuel : nat) (pp : ProtocolParameters)
    (to_execute : RedeemerKey * ScriptContext * BorrowedScript) : exec PreparationError ScriptOutcome :=
  let '(key, ctx, script) := to_execute in
  '(program, v, args, cost_model) ←
    match script with
    | Native => Panic
    | PlutusV1 s => prepare pp ctx s 1 (plutus_v1 (cost_models pp))
    | PlutusV2 s => prepare pp ctx s 2 (plutus_v2 (cost_models pp))
    | PlutusV3 s => prepare pp ctx s 3 (plutus_v3 (cost_models pp))
    end;
  arguments ← convert_args args;
  let program := foldl Program_apply program arguments in
  let budget := context_budget ctx in
  let uplc_budget := mkExBudget (as_i64 (units_mem budget)) (as_i64 (units_steps budget)) in
  verdict v key program (eval fuel program (CostModel_new v (protocol_version pp) cost_model) uplc_budget).

Definition is_plutus_v3 (x : RedeemerKey * ScriptContext * BorrowedScript) : bool :=
  match x.2 with PlutusV3 _ => true | _ => false end.

Variable lookup : TransactionInput → option Output.

Fixpoint resolve (inputs : list TransactionInput) : exec PreparationError (gmap TransactionInput Output) :=
  match inputs with
  | [] => Ok ∅
  | input :: inputs =>
      output ← ok_or (MissingInput input) (lookup input);
      resolved ← resolve inputs;
      Ok (<[input := output]> resolved)
  end.

(** [execute]; [scripts_of] is the translation of the transaction. *)
Definition execute (fuel : nat) (pp : ProtocolParameters) (has_redeemer : bool)
    (inputs : list TransactionInput) (reference_inputs : option (list TransactionInput))
    (scripts_of : gmap TransactionInput Output → exec PreparationError (list (RedeemerKey * ScriptContext * BorrowedScript)))
  : exec PreparationError (list UplcMachineError) :=
  if negb has_redeemer then Ok []
  else
    resolved_inputs ← resolve inputs;
    resolved_reference_inputs ← match reference_inputs with Some l => resolve l | None => Ok ∅ end;
    let utxos := resolved_reference_inputs ∪ resolved_inputs in
    scripts_to_execute ← scripts_of utxos;
    let non_disjoint_inputs := filter (λ input, input ∈ inputs) (default [] reference_inputs) in
    if existsb is_plutus_v3 scripts_to_execute && negb (bool_decide (non_disjoint_inputs = []))
    then Err (NonDisjointRefInputs non_disjoint_inputs)
    else
      script_results ← run_all (map (execute_script fuel pp) scripts_to_execute);
      collect_failures script_results.
End PhaseTwo.

(** ** Decoded programs are well typed *)

Lemma const_typed_wt t c : Flat.const_typed t c → item_wt t c.
Proof.
  revert c. induction t as [| | | | |t IH|t IH|t1 IH1 t2 IH2| | | | |]; intros c Hc; cbn [Flat.const_typed] in Hc; try done;
    repeat match goal with
    | H : ∃ _, _ |- _ => destruct H as [? H]
    | H : _ ∧ _ |- _ => destruct H as [? H]
    end; subst; try by split.
  - split; [done|]. apply const_wt_list. eapply Forall_impl; [eassumption|]. intros ? ?. by apply IH.
  - split; [done|]. apply const_wt_array. eapply Forall_impl; [eassumption|]. intros ? ?. by apply IH.
  - match goal with H1 : Flat.const_typed t1 _, H2 : Flat.const_typed t2 _ |- _ =>
      apply IH1 in H1 as [? ?]; apply IH2 in H2 as [? ?] end. by repeat split.
Qed.

Lemma Forall_apply {A} (P Q : A → Prop) l : Forall (λ a, P a → Q a) l → Forall P l → Forall Q l.
Proof. intros HPQ. induction HPQ; inversion_clear 1; constructor; auto. Qed.

Lemma term_available_wt ctx t : Flat.term_available ctx t → term_wt t.
Proof.
  induction t as [n|n t IH|f a IHf IHa|t IH|t IH|t bs IHt IHbs|tag fs IHfs|c|f|] using Term_ind';
    inversion_clear 1; cbn [term_wt]; try done; auto.
  - apply term_wt_case. split; [auto|]. by eapply Forall_apply.
  - apply (term_wt_constr tag). by eapply Forall_apply.
  - by eapply const_typed_wt.
Qed.

(** ** Fuel *)

Section Fuel.
Context `{R : BuiltinRuntime}.

Lemma run_loop_more fuel k st m : fst (run_loop fuel st m) ≠ OutOfFuel →
  run_loop (fuel + k) st m = run_loop fuel st m.
Proof using Type.
  revert st m. induction fuel as [|fuel IH]; intros st m Hne.
  { destruct st; try done. by rewrite !run_loop_Done. }
  cbn [Nat.add]. rewrite !run_loop_S in *. unfold mbind, MM_bind in *.
  destruct (step st m) as [[st'|e| |] m1]; try done. by apply IH.
Qed.

Lemma run_more fuel k t m : fst (run fuel t m) ≠ OutOfFuel → run (fuel + k) t m = run fuel t m.
Proof using Type.
  unfold run, mbind, MM_bind. intros Hne. cbn [gets] in *.
  destruct (spend_budget _ m) as [[[]|e| |] m1]; try done. by apply run_loop_more.
Qed.

Lemma eval_more fuel k p c b : fst (eval fuel p c b) ≠ OutOfFuel → eval (fuel + k) p c b = eval fuel p c b.
Proof using Type.
  unfold eval. destruct (supports_program_version _ _); [|done]. cbv zeta. intros Hne.
  rewrite run_more; [done|]. by destruct (run fuel _ _).
Qed.

Lemma eval_terminates `{!BuiltinLaws R} p c b : start_ok b c → costs_positive c → term_wt (term p) →
  ∃ fuel, terminates (fst (eval fuel p c b)) = true.
Proof using Type*.
  intros Hs Hp Ht. unfold eval. destruct (supports_program_version _ _); [|by exists 0%nat].
  destruct (run_terminates (term p) b c Hs Hp Ht) as [fuel Hf]. exists fuel.
  by destruct (run fuel (term p) (Machine_new b c)).
Qed.
End Fuel.

(** ** Every transaction gets a verdict *)

(** A cost model the ledger accepted: machine integers, non-negative where they
    must be, and a positive CPU price for every step. *)
Definition cost_model_ok (v : PlutusVersion) (pv : ProtocolVersion) (costs : list Z) : Prop :=
  costs_array_ok v costs = true ∧ costs_positive (CostModel_new v pv costs).

Record parameters_ok (pp : ProtocolParameters) : Prop := {
  v1_ok : ∀ c, plutus_v1 (cost_models pp) = Some c → cost_model_ok V1 (protocol_version pp) c;
  v2_ok : ∀ c, plutus_v2 (cost_models pp) = Some c → cost_model_ok V2 (protocol_version pp) c;
  v3_ok : ∀ c, plutus_v3 (cost_models pp) = Some c → cost_model_ok V3 (protocol_version pp) c }.

Definition units_ok (u : ExUnits) : Prop := 0 <= units_mem u < i64_max ∧ 0 <= units_steps u < i64_max.
Definition script_ok (s : PlutusScript) : Prop := ∀ bytes, to_bytes s = Some bytes → Forall is_byte bytes.

Lemma as_i64_small z : z < i64_max → as_i64 z = z.
Proof. intros Hz. unfold as_i64. case_bool; [done|lia]. Qed.

Lemma cost_model_start v pv costs b : cost_model_ok v pv costs → budget_ok b → start_ok b (CostModel_new v pv costs).
Proof.
  intros [Hok _] Hb. destruct (MachineCosts_new_ok v costs Hok) as [Hsteps Hstart].
  split; [done| | |by apply BuiltinCosts_new_ok].
  - intros [] k; apply (Hsteps k).
  - intros []; apply Hstart.
Qed.

Lemma units_budget u : units_ok u → budget_ok (mkExBudget (as_i64 (units_mem u)) (as_i64 (units_steps u))).
Proof. intros [Hm Hs]. rewrite !as_i64_small by lia. by intros []. Qed.

Lemma apply_wt p ts : term_wt (term p) → Forall term_wt ts → term_wt (term (foldl Program_apply p ts)).
Proof. intros Hp Hts. revert p Hp. induction Hts; intros p Hp; cbn; [done|]. by apply IHHts. Qed.

Lemma collect_failures_terminates l : Forall (λ r, terminates r = true) l → terminates (collect_failures l) = true.
Proof.
  induction 1 as [|r l Hr _ IH]; cbn [collect_failures]; [done|].
  apply terminates_bind; [done|]. intros o _. apply terminates_bind; [done|]. by destruct o.
Qed.

Section Total.
Context `{Crypto} `{C : DataCodec} `{!DataCodecLaws C}.
Context {Arg Output : Type} (from_cbor : Arg → option PlutusData).
Hypothesis from_cbor_total : ∀ a, is_Some (from_cbor a).
Variable pp : ProtocolParameters.
Hypothesis Hpp : parameters_ok pp.

(** The language of a script. *)
Definition language (script : BorrowedScript) : option PlutusVersion :=
  match script with Native => None | PlutusV1 _ => Some V1 | PlutusV2 _ => Some V2 | PlutusV3 _ => Some V3 end.

(** What the translation of a transaction promises of a script to execute. *)
Definition to_execute_ok (x : RedeemerKey * ScriptContext (Arg := Arg) * BorrowedScript) : Prop :=
  let '(_, ctx, script) := x in
  units_ok (context_budget ctx) ∧ (∀ v, language script = Some v → terminates (to_script_args ctx v) = true) ∧
  match script with Native => False | PlutusV1 s | PlutusV2 s | PlutusV3 s => script_ok s end.

Lemma convert_args_ok args : ∃ ts, convert_args from_cbor args = Ok ts ∧ Forall term_wt ts.
Proof using from_cbor_total.
  induction args as [|a args (ts & IH & Hts)]; cbn [convert_args]; [by exists []|].
  destruct (from_cbor_total a) as [d ->]. cbn [mbind exec_bind]. rewrite IH. cbn [mbind exec_bind].
  eexists. split; [done|]. by constructor.
Qed.

Lemma decode_plutus_script_returns s n : script_ok s →
  returns (λ '(p, v), reify_plutus_version n = Some v ∧ term_wt (term p))
    (Flat.decode_plutus_script (to_bytes s) n (protocol_version pp)).
Proof using Type*.
  intros Hs. unfold Flat.decode_plutus_script.
  eapply returns_bind; [apply returns_ok_or|]. intros bytes Hb.
  eapply returns_bind; [apply returns_ok_or|]. intros v Hv.
  destruct (pv_ltb _ _); [done|].
  eapply returns_bind; [apply returns_terminates, Flat.decode_terminates, (Hs _ Hb)|]. intros [p rem] Hd.
  destruct (_ && _); [done|]. split; [done|].
  eapply term_available_wt. by eapply Flat.decode_available.
Qed.

Lemma prepare_returns ctx s n cm : script_ok s →
  (∀ v, reify_plutus_version n = Some v → terminates (to_script_args ctx v) = true) →
  (∀ v c, reify_plutus_version n = Some v → cm = Some c → cost_model_ok v (protocol_version pp) c) →
  returns (λ '(p, v, _, c), term_wt (term p) ∧ cost_model_ok v (protocol_version pp) c)
    (prepare (Arg := Arg) pp ctx s n cm).
Proof using Type*.
  intros Hs Hargs Hcm. unfold prepare.
  eapply returns_bind; [apply returns_map_err, decode_plutus_script_returns, Hs|]. intros [p v] [Hv Hp].
  eapply returns_bind; [apply returns_terminates, Hargs, Hv|]. intros args _.
  eapply returns_bind; [apply returns_ok_or|]. intros c Hc. split; [done|]. by apply Hcm.
Qed.

(** The version of a script, its number and its cost model. *)
Definition preparation (ctx : ScriptContext (Arg := Arg)) (script : BorrowedScript) :=
  match script with
  | Native => Panic
  | PlutusV1 s => prepare pp ctx s 1 (plutus_v1 (cost_models pp))
  | PlutusV2 s => prepare pp ctx s 2 (plutus_v2 (cost_models pp))
  | PlutusV3 s => prepare pp ctx s 3 (plutus_v3 (cost_models pp))
  end.

Lemma preparation_returns key ctx script : to_execute_ok (key, ctx, script) →
  returns (λ '(p, v, _, c), term_wt (term p) ∧ cost_model_ok v (protocol_version pp) c) (preparation ctx script).
Proof using Type*.
  intros (Hu & Hargs & Hscript).
  destruct script as [|s|s|s]; [done|..]; (apply prepare_returns; [exact Hscript|exact Hargs|]);
    intros v c Hv Hc; injection Hv as <-; [exact (v1_ok _ Hpp _ Hc)|exact (v2_ok _ Hpp _ Hc)|exact (v3_ok _ Hpp _ Hc)].
Qed.

(** Some fuel decides a script, and more fuel does not change its outcome. *)
Lemma execute_script_decided x : to_execute_ok x →
  ∃ fuel, ∀ k, terminates (execute_script from_cbor (fuel + k) pp x) = true.
Proof using Type*.
  destruct x as [[key ctx] script]. intros Hok. pose proof (preparation_returns _ _ _ Hok) as Hprep.
  destruct Hok as (Hu & _ & _). cbn [execute_script]. fold (preparation ctx script).
  destruct (preparation ctx script) as [[[[p v] args] c]|e| |]; [|by exists 0%nat|done|done]. destruct Hprep as [Hp Hc]. cbn [mbind exec_bind].
  destruct (convert_args_ok args) as (ts & -> & Hts). cbn [mbind exec_bind].
  pose proof (apply_wt p ts Hp Hts) as Hp'. set (p' := foldl Program_apply p ts) in *. cbv zeta.
  set (b := mkExBudget _ _). set (cm := CostModel_new _ _ _).
  destruct (eval_terminates p' cm b) as [fuel Hf]; [|apply Hc|exact Hp'|].
  { apply cost_model_start; [exact Hc|exact (units_budget _ Hu)]. }
  exists fuel. intros k. rewrite eval_more by (intros Heq; rewrite Heq in Hf; discriminate Hf).
  destruct (eval fuel p' cm b) as [[value|e| |] i]; try discriminate Hf; [|reflexivity].
  cbn [verdict]. destruct v; [reflexivity|reflexivity|]. by destruct (is_unit _).
Qed.

Lemma execute_scripts_decided l : Forall to_execute_ok l →
  ∃ fuel, ∀ k, Forall (λ r, terminates r = true) (map (execute_script from_cbor (fuel + k) pp) l).
Proof using Type*.
  induction 1 as [|x l Hx _ (fuel & IH)]; [by exists 0%nat|].
  destruct (execute_script_decided x Hx) as [f Hf]. exists (fuel + f)%nat. intros k. constructor.
  - replace (fuel + f + k)%nat with (f + (fuel + k))%nat by lia. apply Hf.
  - replace (fuel + f + k)%nat with (fuel + (f + k))%nat by lia. apply IH.
Qed.

Lemma resolve_terminates (lookup : TransactionInput → option Output) inputs : terminates (resolve lookup inputs) = true.
Proof using Type.
  induction inputs as [|i inputs IH]; cbn [resolve]; [done|].
  apply terminates_bind; [by destruct (lookup i)|]. intros o _. by apply terminates_bind.
Qed.
(** A script passes: it decodes, has a cost model, and its program applied to the
    arguments of its context evaluates to a value (unit, from Plutus V3 on)
    without spending more than its budget. *)
Definition passes (fuel : nat) (x : RedeemerKey * ScriptContext (Arg := Arg) * BorrowedScript) : Prop :=
  let '(_, ctx, script) := x in
  let b := mkExBudget (units_mem (context_budget ctx)) (units_steps (context_budget ctx)) in
  ∃ s v n costs p args ts value i,
    (script, n, costs) ∈ [(PlutusV1 s, 1, plutus_v1 (cost_models pp)); (PlutusV2 s, 2, plutus_v2 (cost_models pp));
                          (PlutusV3 s, 3, plutus_v3 (cost_models pp))] ∧
    Flat.decode_plutus_script (to_bytes s) n (protocol_version pp) = Ok (p, v) ∧
    to_script_args ctx v = Ok args ∧ convert_args from_cbor args = Ok ts ∧
    ∃ cm, costs = Some cm ∧
    eval fuel (foldl Program_apply p ts) (CostModel_new v (protocol_version pp) cm) b = (Ok value, i) ∧
    (v = V3 → value = VCon ConUnit) ∧ ∀ c, 0 <= get c (remaining_budget i) <= get c b.

Lemma prepare_Ok ctx s n cm p v args c : prepare (Arg := Arg) pp ctx s n cm = Ok (p, v, args, c) ↔
  Flat.decode_plutus_script (to_bytes s) n (protocol_version pp) = Ok (p, v) ∧ to_script_args ctx v = Ok args ∧ cm = Some c.
Proof using Type.
  unfold prepare. split.
  - intros Hp. exec_inv. destruct a as [p' v']. exec_inv. by simplify_eq.
  - intros (Hd & Ha & ->). rewrite Hd. cbn [map_err mbind exec_bind]. by rewrite Ha.
Qed.

Lemma eval_outcome fuel p v cm b value i : cost_model_ok v (protocol_version pp) cm → term_wt (term p) → budget_ok b →
  eval fuel p (CostModel_new v (protocol_version pp) cm) b = (Ok value, i) →
  ∀ c, 0 <= get c (remaining_budget i) <= get c b.
Proof using DataCodecLaws0.
  intros Hcm Hp Hb. unfold eval. destruct (supports_program_version _ _); [|done]. cbv zeta.
  pose proof (run_outcome fuel (term p) b _ (cost_model_start v (protocol_version pp) cm b Hcm Hb) Hp) as Hrun.
  destruct (run fuel _ _) as [o m]. intros Heq. injection Heq as -> <-. apply Hrun.
Qed.

Lemma passes_iff fuel x : to_execute_ok x →
  execute_script from_cbor fuel pp x = Ok Passed ↔ passes fuel x.
Proof using Type*.
  destruct x as [[key ctx] script]. intros Hok. pose proof (preparation_returns _ _ _ Hok) as Hprep.
  destruct Hok as (Hu & _ & _). pose proof (units_budget _ Hu) as Hb.
  unfold execute_script, passes. fold (preparation ctx script).
  rewrite !as_i64_small in * by (destruct Hu; lia). set (b := mkExBudget _ _) in *.
  split.
  - intros Hrun. destruct (preparation ctx script) as [[[[p v] args] cm]|e| |] eqn:Hp; try discriminate Hrun.
    cbn [mbind exec_bind] in Hrun. destruct Hprep as [Hwt Hcm].
    destruct (convert_args_ok args) as (ts & Hts & Htwt). rewrite Hts in Hrun. cbn [mbind exec_bind] in Hrun. cbv zeta in Hrun.
    set (p' := foldl Program_apply p ts) in *.
    destruct (eval fuel p' (CostModel_new v (protocol_version pp) cm) b) as [o i] eqn:He. cbn [verdict] in Hrun.
    destruct o as [value|e| |]; try discriminate Hrun.
    assert (v = V3 → value = VCon ConUnit) as Hunit.
    { intros ->. destruct (is_unit (Ok value)) eqn:Hun; [|discriminate Hrun].
      destruct value as [c0| | | |]; try discriminate Hun. by destruct c0. }
    pose proof (eval_outcome fuel p' v cm b value i Hcm (apply_wt p ts Hwt Htwt) Hb He) as Hrem.
    unfold preparation in Hp. destruct script as [|s|s|s]; [discriminate Hp|..]; apply prepare_Ok in Hp as (Hd & Ha & Hc);
      exists s, v; [exists 1, (plutus_v1 (cost_models pp))|exists 2, (plutus_v2 (cost_models pp))|exists 3, (plutus_v3 (cost_models pp))];
      exists p, args, ts, value, i; (split; [set_solver|]); (split; [exact Hd|]); (split; [exact Ha|]); (split; [exact Hts|]);
      exists cm; by split_and!.
  - intros (s & v & n & costs & p & args & ts & value & i & Hin & Hd & Ha & Hts & cm & -> & He & Hunit & _).
    assert (preparation ctx script = Ok (p, v, args, cm)) as ->.
    { rewrite !elem_of_cons, elem_of_nil in Hin. destruct Hin as [Hin|[Hin|[Hin|[]]]]; injection Hin as -> -> Hcm; cbn [preparation];
        apply prepare_Ok; by split_and!. }
    cbn [mbind exec_bind]. rewrite Hts. cbn [mbind exec_bind]. cbv zeta. rewrite He. cbn [verdict].
    destruct v; try reflexivity. by rewrite Hunit.
Qed.
End Total.

Lemma run_all_Ok {E A} (l l' : list (exec E A)) : run_all l = Ok l' → l' = l.
Proof.
  revert l'. induction l as [|[a|e| |] l IH]; intros l' Hl; cbn [run_all] in Hl; exec_inv; subst; try done;
    by rewrite (IH _ Hr).
Qed.
Lemma run_all_terminates {E A} (l : list (exec E A)) : Forall (λ r, terminates r = true) l → run_all l = Ok l.
Proof. induction 1 as [|[a|e| |] l Hr _ IH]; cbn [run_all]; try done; by rewrite IH. Qed.

Lemma collect_failures_nil l fs : collect_failures l = Ok fs → fs = [] ↔ Forall (λ r, r = Ok Passed) l.
Proof.
  revert fs. induction l as [|r l IH]; intros fs Hc; cbn [collect_failures] in Hc; exec_inv; [by subst|].
  specialize (IH _ Hr0). rewrite Forall_cons, <- IH. destruct a; exec_inv; subst; naive_solver.
Qed.

(** *** Where the translation of a transaction fails *)
Section Translation.
Context `{Crypto} `{C : DataCodec} `{!DataCodecLaws C}.
Context {Arg : Type} (from_cbor : Arg → option PlutusData) (pp : ProtocolParameters).
Implicit Types x : RedeemerKey * ScriptContext (Arg := Arg) * BorrowedScript.

(** Scripts are byte strings, and their budgets are below the bound of the machine. *)
Definition bounded x : Prop :=
  let '(_, ctx, script) := x in
  units_ok (context_budget ctx) ∧ match script with Native => True | PlutusV1 s | PlutusV2 s | PlutusV3 s => script_ok s end.
(** A native script, arguments that are not computed, or an argument that CBOR does not give back. *)
Definition untranslated x : Prop :=
  let '(_, ctx, script) := x in
  script = Native ∨ ∃ v, language script = Some v ∧
    (terminates (to_script_args ctx v) = false ∨ ∃ args a, to_script_args ctx v = Ok args ∧ a ∈ args ∧ from_cbor a = None).
Definition translated x : Prop :=
  let '(_, ctx, script) := x in
  script ≠ Native ∧ ∀ v, language script = Some v →
    terminates (to_script_args ctx v) = true ∧ ∀ args, to_script_args ctx v = Ok args → Forall (λ a, is_Some (from_cbor a)) args.

Lemma all_or_one {A : Type} (P Q : A → Prop) l : (∀ a, P a ∨ Q a) → Forall P l ∨ ∃ a, a ∈ l ∧ Q a.
Proof using Type.
  intros Hpq. induction l as [|a l [IH|(b & Hb & Hq)]]; [by left| |right; exists b; split; [by right|done]].
  destruct (Hpq a) as [Ha|Ha]; [left; by constructor|right; exists a; split; [by left|done]].
Qed.
Lemma translated_or x : translated x ∨ untranslated x.
Proof using Type.
  destruct x as [[key ctx] script]. destruct (language script) as [v|] eqn:Hl; [|right; left; by destruct script].
  assert (script ≠ Native) as Hn by (by intros ->).
  destruct (terminates (to_script_args ctx v)) eqn:Ht; [|right; right; exists v; auto].
  assert (∀ args, to_script_args ctx v = Ok args →
    Forall (λ a, is_Some (from_cbor a)) args ∨ ∃ a, a ∈ args ∧ from_cbor a = None) as Hargs.
  { intros args _. apply all_or_one. intros a. destruct (from_cbor a); [left; by eexists|by right]. }
  destruct (to_script_args ctx v) as [args|e| |] eqn:Ha; try discriminate Ht.
  - destruct (Hargs args eq_refl) as [Hall|(a & Hin & Hc)].
    + left. split; [done|]. intros v'. rewrite Hl. intros [= <-]. rewrite Ha. split; [done|]. by intros ? [= <-].
    + right. right. exists v. split; [done|]. right. by exists args, a.
  - left. split; [done|]. intros v'. rewrite Hl. intros [= <-]. by rewrite Ha.
Qed.

Lemma decoded_version s n pv p v :
  Flat.decode_plutus_script (to_bytes s) n pv = Ok (p, v) → reify_plutus_version n = Some v.
Proof using Type.
  unfold Flat.decode_plutus_script. intros Hd. exec_inv. destruct (pv_ltb _ _); [discriminate Hd|]. exec_inv.
  destruct a1. destruct (_ && _); [discriminate Hd|]. simplify_eq. by destruct (reify_plutus_version n); simplify_eq.
Qed.
(** The conversion, made total. *)
Definition total_cbor (a : Arg) : option PlutusData := Some (default (DInteger 0) (from_cbor a)).
Lemma convert_args_total args : Forall (λ a, is_Some (from_cbor a)) args → convert_args from_cbor args = convert_args total_cbor args.
Proof using Type.
  induction 1 as [|a args [d Ha] _ IH]; [done|]. cbn [convert_args]. rewrite IH.
  replace (total_cbor a) with (Some d); [by rewrite Ha|]. unfold total_cbor. by rewrite Ha.
Qed.
Lemma execute_script_total fuel x : translated x → execute_script from_cbor fuel pp x = execute_script total_cbor fuel pp x.
Proof using Type.
  destruct x as [[key ctx] script]. intros [Hn Hv]. unfold execute_script. fold (preparation pp ctx script).
  destruct (preparation pp ctx script) as [[[[p v] args] cm]|e| |] eqn:Hp; try done. cbn [mbind exec_bind]. rewrite convert_args_total; [done|].
  unfold preparation in Hp. destruct script as [|s|s|s]; [done|..]; apply prepare_Ok in Hp as (Hd & Ha & _);
    apply decoded_version in Hd; (destruct (Hv v) as [_ Hall]; [exact Hd|by apply Hall]).
Qed.
Lemma to_execute_translated x : bounded x → translated x → to_execute_ok x.
Proof using Type.
  destruct x as [[key ctx] script]. intros [Hu Hs] [Hn Hv]. split; [exact Hu|].
  split; [intros v Hl; apply (Hv v Hl)|]. by destruct script.
Qed.
Lemma translated_decided l : parameters_ok pp → Forall bounded l → Forall translated l →
  ∃ fuel, ∀ k, Forall (λ r, terminates r = true) (map (execute_script from_cbor (fuel + k) pp) l).
Proof using DataCodecLaws0.
  intros Hpp Hb Ht. destruct (execute_scripts_decided total_cbor (λ a, ltac:(by eexists)) pp Hpp l) as [fuel Hf].
  { rewrite Forall_forall in *. intros x Hx. apply to_execute_translated; auto. }
  exists fuel. intros k. specialize (Hf k). rewrite Forall_map in *. rewrite Forall_forall in *. intros x Hx. rewrite execute_script_total by auto. by apply Hf.
Qed.
End Translation.

(** C4: phase-two validation gives a verdict, however the scripts were crafted.  Under parameters with well-formed cost models, for scripts that
    are byte strings with budgets below the bound of the machine, some fuel is enough for [execute] to return failures or a preparation error: no script
    runs for ever and none makes it panic.  The only other outcome is that the transaction was not translated: the scripts to execute or their arguments are not
    computed, a redeemer points to a native script, or an argument is not read back from its CBOR. *)
Theorem phase_two_total `{Crypto} `{C : DataCodec} `{!DataCodecLaws C} {Arg Output : Type}
    (from_cbor : Arg → option PlutusData) (lookup : TransactionInput → option Output) (pp : ProtocolParameters)
    (has_redeemer : bool) (inputs : list TransactionInput) (reference_inputs : option (list TransactionInput))
    (scripts_of : gmap TransactionInput Output → exec PreparationError (list (RedeemerKey * ScriptContext * BorrowedScript))) :
  parameters_ok pp → (∀ utxos l, scripts_of utxos = Ok l → Forall bounded l) →
  (∃ fuel, ∀ k, terminates (execute from_cbor lookup (fuel + k) pp has_redeemer inputs reference_inputs scripts_of) = true) ∨
  (∃ ri rr, resolve lookup inputs = Ok ri ∧ match reference_inputs with Some l => resolve lookup l | None => Ok ∅ end = Ok rr ∧
    (terminates (scripts_of (rr ∪ ri)) = false ∨ ∃ l x, scripts_of (rr ∪ ri) = Ok l ∧ x ∈ l ∧ untranslated from_cbor x)).
Proof.
  intros Hpp Hscripts. unfold execute. destruct has_redeemer; [|left; by exists 0%nat]. cbn [negb].
  pose proof (resolve_terminates lookup inputs) as Hi. destruct (resolve lookup inputs) as [ri|e| |]; try done; [|left; by exists 0%nat].
  cbn [mbind exec_bind].
  assert (terminates (match reference_inputs with Some l => resolve lookup l | None => Ok ∅ end) = true) as Hr.
  { destruct reference_inputs; [apply resolve_terminates|done]. }
  destruct (match reference_inputs with Some _ => _ | None => _ end) as [rr|e| |]; try done; [|left; by exists 0%nat].
  cbn [mbind exec_bind]. cbv zeta. destruct (scripts_of (rr ∪ ri)) as [l|e| |] eqn:Hs; [|left; by exists 0%nat|right; exists ri, rr; rewrite Hs; auto..].
  cbn [mbind exec_bind]. destruct (all_or_one (translated from_cbor) (untranslated from_cbor) l (translated_or from_cbor)) as [Ht|(x & Hx & Hu)].
  2: { right. exists ri, rr. rewrite Hs. split_and!; [done..|]. right. by exists l, x. }
  left. destruct (existsb _ _ && _); [by exists 0%nat|].
  destruct (translated_decided from_cbor pp l Hpp (Hscripts _ _ Hs) Ht) as [fuel Hf]. exists fuel. intros k.
  rewrite run_all_terminates by apply Hf. by apply collect_failures_terminates.
Qed.

(** C5: what no failure means: when [execute] returns, the list of failures is
    empty exactly when every script of the transaction decodes for its language,
    has a cost model, and evaluates, applied to its arguments, to a value (the
    unit constant from Plutus V3 on) with some of its budget, possibly nothing,
    left. *)
Theorem phase_two_verdict `{Crypto} `{C : DataCodec} `{!DataCodecLaws C} {Arg Output : Type}
    (from_cbor : Arg → option PlutusData) (lookup : TransactionInput → option Output) (pp : ProtocolParameters)
    (inputs : list TransactionInput) (reference_inputs : option (list TransactionInput))
    (scripts_of : gmap TransactionInput Output → exec PreparationError (list (RedeemerKey * ScriptContext * BorrowedScript)))
    (fuel : nat) (failures : list UplcMachineError) :
  (∀ a, is_Some (from_cbor a)) → parameters_ok pp →
  (∀ utxos, returns (Forall to_execute_ok) (scripts_of utxos)) →
  execute from_cbor lookup fuel pp true inputs reference_inputs scripts_of = Ok failures →
  ∃ utxos scripts, scripts_of utxos = Ok scripts ∧
    (failures = [] ↔ Forall (passes from_cbor pp fuel) scripts).
Proof.
  intros Hcbor Hpp Hscripts Hex. unfold execute in Hex. cbn [negb] in Hex. exec_inv. cbv zeta in Hex. exec_inv.
  destruct (existsb _ _ && _); [discriminate Hex|]. exec_inv. apply run_all_Ok in Hr2 as ->.
  exists (a0 ∪ a), a1. split; [done|].
  specialize (Hscripts (a0 ∪ a)). rewrite Hr1 in Hscripts. cbn in Hscripts.
  rewrite (collect_failures_nil _ _ Hex), Forall_map. rewrite !Forall_forall in *.
  split; intros Hall x Hx; specialize (Hall x Hx);
    apply (passes_iff from_cbor Hcbor pp Hpp fuel x (Hscripts x Hx)); exact Hall.
Qed.

(** A transaction that spends one output with the Plutus V3 script
    [(program 1.1.0 (lam x (con unit ())))]. *)
Module SampleTransaction.
Definition program : Program := mkProgram V1_1_0 (Lambda 0 (Constant_ ConUnit)).
Definition script : PlutusScript := mkPlutusScript
  (match Flat.encode (H := Flat.small_data_codec) program with Ok bytes => Some bytes | _ => None end) [].
Definition input : TransactionInput := mkTransactionInput [7] 0.
Definition context : ScriptContext (Arg := PlutusData) :=
  mkScriptContext (λ _, Ok [DInteger 3]) (mkExUnits 14000000 10000000000).
Definition scripts : list (RedeemerKey * ScriptContext * BorrowedScript) :=
  [(mkRedeemerKey Spend 0, context, PlutusV3 script)].
Definition run (fuel : nat) :=
  @execute SmallCrypto.crypto Flat.small_data_codec PlutusData unit Some (λ _, Some tt) fuel MAINNET_DEFAULT_PROTOCOL_PARAMETERS true [input] None
    (λ _, Ok scripts).

Lemma mainnet_fine : parameters_ok MAINNET_DEFAULT_PROTOCOL_PARAMETERS.
Proof.
  assert (∀ v pv c, array_fits v c = true → cost_model_ok v pv c) as Hfit.
  { intros v pv c Hc. destruct (array_fits_spec v pv _ Hc) as (_ & Hok & Hpos). by split. }
  split; intros c [= <-]; apply Hfit; vm_compute; reflexivity.
Qed.
Lemma scripts_fine : Forall to_execute_ok scripts.
Proof.
  constructor; [|constructor]. split; [split; cbn; unfold i64_max; lia|]. split; [done|].
  intros bytes Hb. vm_compute in Hb. injection Hb as <-. repeat constructor; lia.
Qed.
End SampleTransaction.

Lemma phase_two_total_witness : ∃ fuel, terminates (SampleTransaction.run fuel) = true.
Proof.
  destruct (@phase_two_total SmallCrypto.crypto Flat.small_data_codec Flat.small_data_codec_laws PlutusData unit Some (λ _, Some tt)
    MAINNET_DEFAULT_PROTOCOL_PARAMETERS true [SampleTransaction.input] None (λ _, Ok SampleTransaction.scripts)) as [[fuel Hf]|(ri & rr & _ & _ & [Ht|(l & x & [= <-] & Hx & Hu)])].
  - exact SampleTransaction.mainnet_fine.
  - intros utxos l [= <-]. eapply Forall_impl; [exact SampleTransaction.scripts_fine|]. intros [[key ctx] []] (Hu & _ & Hs); done.
  - exists (fuel + 0)%nat. apply (Hf 0%nat).
  - discriminate Ht.
  - apply list_elem_of_singleton in Hx as ->. destruct Hu as [Hu|(v & _ & [Ht|(args & a & _ & _ & Ha)])]; [discriminate Hu|discriminate Ht|discriminate Ha].
Defined.

Lemma phase_two_verdict_witness : ∃ utxos : gmap TransactionInput unit, ∃ scripts,
  Ok (E := PreparationError) SampleTransaction.scripts = Ok scripts ∧
  (([] : list UplcMachineError) = [] ↔ Forall (@passes SmallCrypto.crypto Flat.small_data_codec PlutusData Some MAINNET_DEFAULT_PROTOCOL_PARAMETERS 20) scripts).
Proof.
  assert (∀ a : PlutusData, is_Some (Some a)) as Hcbor by (intros a; by eexists).
  assert (SampleTransaction.run 20 = Ok []) as Hrun by (vm_compute; reflexivity).
  exact (@phase_two_verdict SmallCrypto.crypto Flat.small_data_codec Flat.small_data_codec_laws PlutusData unit Some (λ _, Some tt)
    MAINNET_DEFAULT_PROTOCOL_PARAMETERS [SampleTransaction.input] None (λ _, Ok SampleTransaction.scripts) 20 []
    Hcbor SampleTransaction.mainnet_fine (λ _, SampleTransaction.scripts_fine) Hrun).
Defined.
