(* ===== verification/Headers.v ===== *)
(** * Points and headers

    [amaru-kernel/src/cardano/point.rs], [network_point.rs], [header_body.rs],
    [operational_cert.rs], [vrf_cert.rs] and [header.rs]: what identifies a block, and
    what its header says.  The hash of a header is computed when it is read, and kept
    with it.  Also [cmp_tip] of [amaru-consensus/src/stages/select_chain/mod.rs], the
    order that chains are chosen by.

    Hashing belongs to a third-party library: it is a parameter. *)

From S2P Require Import Prelude SortedAssoc UplcSyntax.
#[local] Open Scope Z_scope.

Abbreviation HeaderHash := (list Z).
Abbreviation PoolId := (list Z).
Definition ORIGIN_HASH : HeaderHash := replicate 32 0.

(** ** Points *)

Inductive Point := Origin | Specific (slot : Z) (hash : HeaderHash) (height : Z).
#[global] Instance Point_eq_dec : EqDecision Point.
Proof. solve_decision. Defined.

Definition point_slot (p : Point) : Z := match p with Origin => 0 | Specific slot _ _ => slot end.
Definition point_hash (p : Point) : HeaderHash := match p with Origin => ORIGIN_HASH | Specific _ hash _ => hash end.
Definition point_height (p : Point) : Z := match p with Origin => 0 | Specific _ _ height => height end.

(** Without the height. *)
Inductive NetworkPoint := NetworkOrigin | NetworkSpecific (slot : Z) (hash : HeaderHash).
#[global] Instance NetworkPoint_eq_dec : EqDecision NetworkPoint.
Proof. solve_decision. Defined.
Definition to_network_point (p : Point) : NetworkPoint :=
  match p with Origin => NetworkOrigin | Specific slot hash _ => NetworkSpecific slot hash end.
Definition with_height (height : Z) (p : NetworkPoint) : Point :=
  match p with NetworkOrigin => Origin | NetworkSpecific slot hash => Specific slot hash height end.

(** The derived orders. *)
Definition then_with (a : comparison) (b : comparison) : comparison := match a with Eq => b | c => c end.
Definition Point_cmp (p q : Point) : comparison :=
  match p, q with
  | Origin, Origin => Eq
  | Origin, Specific _ _ _ => Lt
  | Specific _ _ _, Origin => Gt
  | Specific s h n, Specific s' h' n' => then_with (Z.compare s s') (then_with (bytes_compare h h') (Z.compare n n'))
  end.
Definition NetworkPoint_cmp (p q : NetworkPoint) : comparison :=
  match p, q with
  | NetworkOrigin, NetworkOrigin => Eq
  | NetworkOrigin, NetworkSpecific _ _ => Lt
  | NetworkSpecific _ _, NetworkOrigin => Gt
  | NetworkSpecific s h, NetworkSpecific s' h' => then_with (Z.compare s s') (bytes_compare h h')
  end.

(** ** Headers *)

Record VrfCert := mkVrfCert { output : list Z; proof : list Z }.
Record OperationalCert := mkOperationalCert {
  operational_cert_kes_verification_key : list Z;
  operational_cert_sequence_number : Z;
  operational_cert_kes_period : Z;
  operational_cert_sigma : list Z }.
Record HeaderBody := mkHeaderBody {
  block_number : Z;
  body_slot : Z;
  prev_hash : option HeaderHash;
  issuer_verification_key : list Z;
  vrf_verification_key : list Z;
  vrf_result : VrfCert;
  block_body_size : Z;
  block_body_hash : list Z;
  operational_cert : OperationalCert;
  protocol_version : ProtocolVersion }.
Record Header := mkHeader { header_hash : HeaderHash; header_body : HeaderBody; header_signature : list Z }.

Definition parent (h : Header) : option HeaderHash := prev_hash (header_body h).
Definition block_height (h : Header) : Z := block_number (header_body h).
Definition slot (h : Header) : Z := body_slot (header_body h).
Definition vrf_output (h : Header) : list Z := output (vrf_result (header_body h)).
Definition op_cert_seq (h : Header) : Z := operational_cert_sequence_number (operational_cert (header_body h)).
Definition header_point (h : Header) : Point := Specific (slot h) (header_hash h) (block_height h).

(** ** Hashes

    Blake2b, in the two sizes the code uses. *)
Class Hashing := { blake2b_256 : list Z → list Z; blake2b_224 : list Z → list Z }.
Definition pool_id `{Hashing} (h : Header) : PoolId := blake2b_224 (issuer_verification_key (header_body h)).
Inductive Derivation := Leader | Nonce.
Definition derive_tagged_vrf_output `{Hashing} (d : Derivation) (block_vrf_output_bytes : list Z) : list Z :=
  blake2b_256 ((match d with Leader => 76 | Nonce => 78 end) :: block_vrf_output_bytes).

(** ** The order of chains *)

(** [Slot - Slot], whose operands are cast to [i64]. *)
Definition slot_as_i64 (n : Z) : Z := if n <=? i64_max then n else n - 2 ^ 64.
Definition slot_sub {E : Type} (a b : Z) : exec E Z :=
  let d := slot_as_i64 a - slot_as_i64 b in if (i64_min <=? d) && (d <=? i64_max) then Ok d else Panic.
Definition i64_abs {E : Type} (n : Z) : exec E Z := if n =? i64_min then Panic else Ok (Z.abs n).

Definition cmp_tip {E : Type} `{Hashing} (a b : option Header) : exec E comparison :=
  match a, b with
  | None, None => Ok Eq
  | None, Some _ => Ok Lt
  | Some _, None => Ok Gt
  | Some a, Some b =>
      match Z.compare (block_height a) (block_height b) with
      | Eq =>
          let a_leader := derive_tagged_vrf_output Leader (vrf_output a) in
          let b_leader := derive_tagged_vrf_output Leader (vrf_output b) in
          if decide (a_leader = b_leader) then Ok (Z.compare (op_cert_seq a) (op_cert_seq b))
          else
            d ← slot_sub (slot a) (slot b);
            d ← i64_abs d;
            Ok (if d <=? 5 then bytes_compare b_leader a_leader else Eq)
      | c => Ok c
      end
  end.

(** ** Facts on the order *)

(** Headers whose slot is an [i64], which those of the network are. *)
Definition slot_fits (h : Header) : Prop := 0 <= slot h <= i64_max.

Section Order.
Context `{Hashing}.

Lemma slot_sub_ok {E : Type} a b : 0 <= a <= i64_max → 0 <= b <= i64_max → slot_sub (E := E) a b = Ok (a - b).
Proof.
  intros Ha Hb. unfold slot_sub, slot_as_i64. rewrite (proj2 (Z.leb_le a _)), (proj2 (Z.leb_le b _)) by lia. cbv zeta.
  by rewrite !(proj2 (Z.leb_le _ _)) by (unfold i64_min, i64_max in *; lia).
Qed.
Lemma i64_abs_ok {E : Type} n : i64_min < n → i64_abs (E := E) n = Ok (Z.abs n).
Proof. intros Hn. unfold i64_abs. by rewrite (proj2 (Z.eqb_neq _ _)) by lia. Qed.

(** The comparison, when it does not overflow. *)
Definition tip_order (a b : option Header) : comparison :=
  match a, b with
  | None, None => Eq
  | None, Some _ => Lt
  | Some _, None => Gt
  | Some a, Some b =>
      then_with (Z.compare (block_height a) (block_height b))
        (let la := derive_tagged_vrf_output Leader (vrf_output a) in
         let lb := derive_tagged_vrf_output Leader (vrf_output b) in
         if decide (la = lb) then Z.compare (op_cert_seq a) (op_cert_seq b)
         else if Z.abs (slot a - slot b) <=? 5 then bytes_compare lb la else Eq)
  end.

Lemma cmp_tip_ok {E : Type} a b : (∀ h, a = Some h → slot_fits h) → (∀ h, b = Some h → slot_fits h) →
  cmp_tip (E := E) a b = Ok (tip_order a b).
Proof.
  intros Ha Hb. destruct a as [a|], b as [b|]; try done. cbn [cmp_tip tip_order].
  destruct (Z.compare (block_height a) (block_height b)); try done. cbn [then_with].
  case_decide; [done|]. specialize (Ha a eq_refl). specialize (Hb b eq_refl). unfold slot_fits in *.
  rewrite slot_sub_ok by done. cbn [mbind exec_bind]. rewrite i64_abs_ok by (unfold i64_min, i64_max in *; lia). done.
Qed.

Lemma tip_order_antisym a b : tip_order b a = CompOpp (tip_order a b).
Proof.
  destruct a as [a|], b as [b|]; try done. cbn [tip_order]. rewrite (Z.compare_antisym (block_height a) (block_height b)).
  destruct (Z.compare (block_height a) (block_height b)); cbn [then_with CompOpp]; try done. cbv zeta.
  replace (Z.abs (slot b - slot a)) with (Z.abs (slot a - slot b)) by lia.
  case_decide as Hab; case_decide as Hba; try congruence; [by rewrite Z.compare_antisym|].
  destruct (_ <=? 5); [|done]. apply bytes_compare_antisym.
Qed.

Lemma tip_order_height a b : tip_order (Some a) (Some b) = Gt → block_height b <= block_height a.
Proof. cbn. destruct (Z.compare_spec (block_height a) (block_height b)); cbn; intros; try done; lia. Qed.
Lemma tip_order_higher a b : block_height b < block_height a → tip_order (Some a) (Some b) = Gt.
Proof. intros Hab. cbn. by rewrite (proj2 (Z.compare_gt_iff _ _)). Qed.
Lemma tip_order_not_greater a b : tip_order (Some a) (Some b) ≠ Gt → block_height a <= block_height b.
Proof. intros Hn. destruct (Z_le_gt_dec (block_height a) (block_height b)); [done|]. destruct Hn. apply tip_order_higher. lia. Qed.
End Order.
