(* ===== verification/Mempool.v ===== *)
(** * The mempool

    [amaru-mempool/src/strategies/in_memory_mempool.rs] and [config.rs], behind
    the trait of [amaru-ouroboros-traits/src/mempool/]: the store of transactions
    indexed by identifier and by the sequence number given at insertion.  The
    operations are functions on the state behind the lock, which the lock makes
    atomic; a history of calls is a list of operations.  The abstract mempool is
    the list of its entries in insertion order. *)

From stdpp Require Import sorting.
From S2P Require Import Prelude BTreeMap Headers.
#[local] Open Scope Z_scope.

Module Mempool.

(** ** Data *)

Abbreviation TransactionId := (list Z).
Abbreviation MempoolSeqNo := Z.

(** A peer is only stored. *)
Inductive TxOrigin := Local | Remote (peer : string).

Inductive TxRejectReason := MempoolFull | Duplicate | Invalid (error : string).

Inductive TxInsertResult :=
| Accepted (tx_id : TransactionId) (seq_no : MempoolSeqNo)
| Rejected (tx_id : TransactionId) (reason : TxRejectReason).

Definition TxInsertResult_tx_id (r : TxInsertResult) : TransactionId :=
  match r with Accepted tx_id _ | Rejected tx_id _ => tx_id end.

Record MempoolState := mkMempoolState { tx_count : Z; size_bytes : Z }.

Record MempoolConfig := mkMempoolConfig { max_bytes : Z }.
Definition DEFAULT_MAX_BYTES : Z := 180224.
Definition MempoolConfig_default : MempoolConfig := mkMempoolConfig DEFAULT_MAX_BYTES.
Definition with_max_bytes (max_bytes : Z) (config : MempoolConfig) : MempoolConfig := mkMempoolConfig max_bytes.

(** What the store asks of a transaction: its identifier and its CBOR bytes. *)
Class Transaction (Tx : Type) := {
  get_tx_id : Tx → TransactionId;
  to_cbor : Tx → list Z }.

Record MempoolEntry (Tx : Type) := mkMempoolEntry {
  seq_no : MempoolSeqNo; tx_id : TransactionId; tx : Tx; tx_size : Z; origin : TxOrigin }.
Arguments mkMempoolEntry {Tx}.
Arguments seq_no {Tx}.
Arguments tx_id {Tx}.
Arguments tx {Tx}.
Arguments tx_size {Tx}.
Arguments origin {Tx}.

Record InMemoryMempoolInner (Tx : Type) := mkInner {
  next_seq : Z;
  current_bytes : Z;
  tip : Point;
  entries_by_id : gmap TransactionId MempoolSeqNo;
  entries_by_seq : list (Z * MempoolEntry Tx) }.
Arguments mkInner {Tx}.
Arguments next_seq {Tx}.
Arguments current_bytes {Tx}.
Arguments tip {Tx}.
Arguments entries_by_id {Tx}.
Arguments entries_by_seq {Tx}.

Section Store.
Context {Tx : Type} `{Transaction Tx}.
Abbreviation Inner := (InMemoryMempoolInner Tx).
Abbreviation Entry := (MempoolEntry Tx).

Definition Inner_default : Inner := mkInner 1 0 Origin ∅ [].

(** ** Operations *)

(** [to_cbor(&tx).len() as u32]. *)
Definition cbor_size (t : Tx) : Z := Z.of_nat (length (to_cbor t)) mod 2 ^ 32.

Definition insert (config : MempoolConfig) (t : Tx) (tx_origin : TxOrigin) (inner : Inner)
  : exec TxRejectReason (TransactionId * MempoolSeqNo) * Inner :=
  let size := cbor_size t in
  let id := get_tx_id t in
  if bool_decide (is_Some (entries_by_id inner !! id)) then (Err Duplicate, inner)
  else if max_bytes config <? u64_saturating_add (current_bytes inner) size then (Err MempoolFull, inner)
  else
    let seq := next_seq inner in
    match u64_add (E := TxRejectReason) (next_seq inner) 1 with
    | Ok next =>
        let entry := mkMempoolEntry seq id t size tx_origin in
        (Ok (id, seq),
         mkInner next (u64_saturating_add (current_bytes inner) size) (tip inner)
           (<[id := seq]> (entries_by_id inner)) (BTreeMap.insert seq entry (entries_by_seq inner)))
    | _ => (Panic, inner)
    end.

Definition slice (from_seq limit : Z) (inner : Inner) : list (TransactionId * Z * MempoolSeqNo) :=
  map (λ '(seq, entry), (tx_id entry, tx_size entry, seq))
    (take (Z.to_nat limit) (BTreeMap.range from_seq (entries_by_seq inner))).

(** One turn of the loop of [remove]. *)
Definition remove_one (inner : Inner) (id : TransactionId) : Inner :=
  match entries_by_id inner !! id with
  | None => inner
  | Some seq =>
      let by_id := delete id (entries_by_id inner) in
      match BTreeMap.get seq (entries_by_seq inner) with
      | None => mkInner (next_seq inner) (current_bytes inner) (tip inner) by_id (entries_by_seq inner)
      | Some entry =>
          mkInner (next_seq inner) (u64_saturating_sub (current_bytes inner) (tx_size entry)) (tip inner)
            by_id (BTreeMap.remove seq (entries_by_seq inner))
      end
  end.
Definition remove (ids : list TransactionId) (inner : Inner) : Inner := foldl remove_one inner ids.

(** The entry of an identifier, through both indices. *)
Definition find_entry (inner : Inner) (id : TransactionId) : option Entry :=
  entries_by_id inner !! id ≫= λ seq, BTreeMap.get seq (entries_by_seq inner).

(** [sort_by_key(|entry| entry.seq_no)], a stable sort. *)
Fixpoint insert_sorted (entry : Entry) (l : list Entry) : list Entry :=
  match l with
  | [] => [entry]
  | e :: l => if seq_no entry <=? seq_no e then entry :: e :: l else e :: insert_sorted entry l
  end.
Definition sort_by_seq_no (l : list Entry) : list Entry := foldr insert_sorted [] l.

Definition read_get (ids : list TransactionId) (inner : Inner) : list Tx :=
  map tx (sort_by_seq_no (omap (find_entry inner) ids)).

Definition read_iter (inner : Inner) : list Tx := map tx (BTreeMap.values (entries_by_seq inner)).

Definition mempool_insert (config : MempoolConfig) (t : Tx) (tx_origin : TxOrigin) (inner : Inner)
  : exec Empty_set (TxInsertResult * Inner) :=
  let id := get_tx_id t in
  match insert config t tx_origin inner with
  | (Ok (id, seq), inner) => Ok (Accepted id seq, inner)
  | (Err reason, inner) => Ok (Rejected id reason, inner)
  | (Panic, _) => Panic
  | (OutOfFuel, _) => OutOfFuel
  end.

(** A view of the content, only at the tip it was validated against. *)
Definition read_at (t : Point) (inner : Inner) : option Inner :=
  if bool_decide (tip inner = t) then Some inner else None.

Definition contains (id : TransactionId) (inner : Inner) : bool := negb (bool_decide (read_get [id] inner = [])).

Definition last (inner : Inner) : exec Empty_set MempoolSeqNo := u64_sub (next_seq inner) 1.

Definition is_near_capacity (config : MempoolConfig) (additional_bytes : Z) (inner : Inner) : bool :=
  max_bytes config <? u64_saturating_add (current_bytes inner) additional_bytes.

Definition state (inner : Inner) : MempoolState :=
  mkMempoolState (Z.of_nat (size (entries_by_id inner))) (current_bytes inner).

Definition set_tip (t : Point) (inner : Inner) : Inner :=
  mkInner (next_seq inner) (current_bytes inner) t (entries_by_id inner) (entries_by_seq inner).

(** ** Histories of calls *)

Inductive Op :=
| OpInsert (t : Tx) (tx_origin : TxOrigin)
| OpGet (ids : list TransactionId)
| OpIter
| OpReadAt (t : Point)
| OpContains (id : TransactionId)
| OpSlice (from_seq limit : Z)
| OpRemove (ids : list TransactionId)
| OpLast
| OpIsNearCapacity (additional_bytes : Z)
| OpState
| OpSetTip (t : Point).

Inductive Output :=
| OutInsert (r : TxInsertResult)
| OutTxs (txs : list Tx)
| OutView (txs : option (list Tx))
| OutBool (b : bool)
| OutSlice (l : list (TransactionId * Z * MempoolSeqNo))
| OutSeqNo (seq : MempoolSeqNo)
| OutState (s : MempoolState)
| OutUnit.

(** One call under the lock. *)
Definition step (config : MempoolConfig) (op : Op) (inner : Inner) : exec Empty_set (Output * Inner) :=
  match op with
  | OpInsert t tx_origin => '(r, inner) ← mempool_insert config t tx_origin inner; Ok (OutInsert r, inner)
  | OpGet ids => Ok (OutTxs (read_get ids inner), inner)
  | OpIter => Ok (OutTxs (read_iter inner), inner)
  | OpReadAt t => Ok (OutView (read_iter <$> read_at t inner), inner)
  | OpContains id => Ok (OutBool (contains id inner), inner)
  | OpSlice from_seq limit => Ok (OutSlice (slice from_seq limit inner), inner)
  | OpRemove ids => Ok (OutUnit, remove ids inner)
  | OpLast => seq ← last inner; Ok (OutSeqNo seq, inner)
  | OpIsNearCapacity n => Ok (OutBool (is_near_capacity config n inner), inner)
  | OpState => Ok (OutState (state inner), inner)
  | OpSetTip t => Ok (OutUnit, set_tip t inner)
  end.

Fixpoint run (config : MempoolConfig) (ops : list Op) (inner : Inner) : exec Empty_set (list Output * Inner) :=
  match ops with
  | [] => Ok ([], inner)
  | op :: ops =>
      '(out, inner) ← step config op inner;
      '(outs, inner) ← run config ops inner;
      Ok (out :: outs, inner)
  end.

(** ** The abstract mempool: its entries in insertion order *)

Record Spec := mkSpec { s_entries : list Entry; s_next : Z; s_tip : Point }.
Definition spec_init : Spec := mkSpec [] 1 Origin.

Definition total_size (l : list Entry) : Z := foldr Z.add 0 (map tx_size l).

(** How often an identifier is asked for. *)
Definition asked (ids : list TransactionId) (e : Entry) : nat := length (filter (λ id, id = tx_id e) ids).

Definition spec_insert (config : MempoolConfig) (t : Tx) (tx_origin : TxOrigin) (s : Spec) : TxInsertResult * Spec :=
  let id := get_tx_id t in
  if decide (id ∈ map tx_id (s_entries s)) then (Rejected id Duplicate, s)
  else if max_bytes config <? total_size (s_entries s) + cbor_size t then (Rejected id MempoolFull, s)
  else (Accepted id (s_next s),
        mkSpec (s_entries s ++ [mkMempoolEntry (s_next s) id t (cbor_size t) tx_origin]) (s_next s + 1) (s_tip s)).

(** Every stored transaction, in insertion order, as often as it is asked for. *)
Definition spec_get (ids : list TransactionId) (s : Spec) : list Tx :=
  s_entries s ≫= λ e, replicate (asked ids e) (tx e).

Definition spec_step (config : MempoolConfig) (op : Op) (s : Spec) : Output * Spec :=
  match op with
  | OpInsert t tx_origin => let '(r, s) := spec_insert config t tx_origin s in (OutInsert r, s)
  | OpGet ids => (OutTxs (spec_get ids s), s)
  | OpIter => (OutTxs (map tx (s_entries s)), s)
  | OpReadAt t => (OutView (if decide (s_tip s = t) then Some (map tx (s_entries s)) else None), s)
  | OpContains id => (OutBool (bool_decide (id ∈ map tx_id (s_entries s))), s)
  | OpSlice from limit =>
      (OutSlice (map (λ e, (tx_id e, tx_size e, seq_no e))
         (take (Z.to_nat limit) (filter (λ e, from <= seq_no e) (s_entries s)))), s)
  | OpRemove ids => (OutUnit, mkSpec (filter (λ e, tx_id e ∉ ids) (s_entries s)) (s_next s) (s_tip s))
  | OpLast => (OutSeqNo (s_next s - 1), s)
  | OpIsNearCapacity n => (OutBool (max_bytes config <? total_size (s_entries s) + n), s)
  | OpState => (OutState (mkMempoolState (Z.of_nat (length (s_entries s))) (total_size (s_entries s))), s)
  | OpSetTip t => (OutUnit, mkSpec (s_entries s) (s_next s) t)
  end.

Fixpoint spec_run (config : MempoolConfig) (ops : list Op) (s : Spec) : list Output * Spec :=
  match ops with
  | [] => ([], s)
  | op :: ops =>
      let '(out, s) := spec_step config op s in
      let '(outs, s) := spec_run config ops s in (out :: outs, s)
  end.

(** ** The invariant of the store *)

Definition entry_ok (next : Z) (kv : Z * Entry) : Prop :=
  seq_no kv.2 = kv.1 ∧ 1 <= kv.1 < next ∧ tx_id kv.2 = get_tx_id (tx kv.2) ∧ tx_size kv.2 = cbor_size (tx kv.2).

(** The indices agree, sequence numbers are below the next one, and the byte
    count is the sum of the sizes and within the capacity. *)
Record inv (config : MempoolConfig) (inner : Inner) : Prop := {
  inv_next : 1 <= next_seq inner;
  inv_asc : BTreeMap.ascending (entries_by_seq inner);
  inv_entries : Forall (entry_ok (next_seq inner)) (entries_by_seq inner);
  inv_ids : ∀ id seq, entries_by_id inner !! id = Some seq ↔
    ∃ e, (seq, e) ∈ entries_by_seq inner ∧ tx_id e = id;
  inv_bytes : current_bytes inner = total_size (BTreeMap.values (entries_by_seq inner));
  inv_capacity : current_bytes inner <= max_bytes config < u64_max }.

(** The content an outside observer can tell. *)
Definition abs (inner : Inner) : Spec :=
  mkSpec (BTreeMap.values (entries_by_seq inner)) (next_seq inner) (tip inner).

Lemma cbor_size_range t : 0 <= cbor_size t <= u32_max.
Proof. unfold cbor_size, u32_max. pose proof (Z.mod_pos_bound (Z.of_nat (length (to_cbor t))) (2 ^ 32)). lia. Qed.

Lemma total_size_app l1 l2 : total_size (l1 ++ l2) = total_size l1 + total_size l2.
Proof. unfold total_size. induction l1 as [|e l1 IH]; cbn in *; lia. Qed.

Lemma total_size_nonneg next m : Forall (entry_ok next) m → 0 <= total_size (BTreeMap.values m).
Proof.
  unfold total_size, BTreeMap.values. induction 1 as [|kv m (_ & _ & _ & Hs) _ IH]; cbn [map foldr]; [done|].
  pose proof (cbor_size_range (tx kv.2)). lia.
Qed.

Lemma inv_default config : 0 <= max_bytes config < u64_max → inv config Inner_default.
Proof.
  intros. split; cbn; auto with amaru; try lia. intros id seq. rewrite lookup_empty. set_solver.
Qed.

Lemma values_filter (P : Z * Entry → Prop) (Q : Entry → Prop) `{∀ x, Decision (P x)} `{∀ x, Decision (Q x)} m :
  Forall (λ kv, P kv ↔ Q kv.2) m → BTreeMap.values (filter P m) = filter Q (BTreeMap.values m).
Proof.
  unfold BTreeMap.values. induction 1 as [|kv m Hkv _ IH]; [done|]. cbn [map].
  rewrite !filter_cons. repeat case_decide; cbn [map]; rewrite ?IH; naive_solver.
Qed.

(** ** Consequences of the invariant *)

Section Invariant.
Context (config : MempoolConfig) (inner : Inner) (Hinv : inv config inner).

Lemma elem_of_values e : e ∈ BTreeMap.values (entries_by_seq inner) ↔ (seq_no e, e) ∈ entries_by_seq inner.
Proof using Hinv.
  unfold BTreeMap.values. rewrite list_elem_of_fmap. split.
  - intros ([k e'] & -> & Hin). pose proof (proj1 (Forall_forall _ _) (inv_entries _ _ Hinv) _ Hin) as [Heq _].
    cbn in *. by rewrite Heq.
  - intros Hin. by exists (seq_no e, e).
Qed.

Lemma by_id_spec id seq : entries_by_id inner !! id = Some seq ↔
  ∃ e, e ∈ BTreeMap.values (entries_by_seq inner) ∧ tx_id e = id ∧ seq_no e = seq.
Proof using Hinv.
  rewrite (inv_ids _ _ Hinv). split; intros (e & He & Hid).
  - exists e. pose proof (proj1 (Forall_forall _ _) (inv_entries _ _ Hinv) _ He) as [Heq _]. cbn in Heq.
    rewrite elem_of_values, Heq. naive_solver.
  - exists e. destruct Hid as [<- <-]. by rewrite <- elem_of_values.
Qed.

Lemma by_id_None id : entries_by_id inner !! id = None ↔ id ∉ map tx_id (BTreeMap.values (entries_by_seq inner)).
Proof using Hinv.
  rewrite eq_None_not_Some. apply not_iff_compat. rewrite list_elem_of_fmap. unfold is_Some.
  setoid_rewrite by_id_spec. naive_solver.
Qed.

Lemma find_entry_spec id e :
  find_entry inner id = Some e ↔ e ∈ BTreeMap.values (entries_by_seq inner) ∧ tx_id e = id.
Proof using Hinv.
  unfold find_entry. rewrite bind_Some. setoid_rewrite (BTreeMap.get_elem _ _ _ (inv_asc _ _ Hinv)). split.
  - intros (seq & Hid & Hin). pose proof (proj1 (Forall_forall _ _) (inv_entries _ _ Hinv) _ Hin) as [Heq _].
    cbn in Heq. split; [by rewrite elem_of_values, Heq|]. apply (inv_ids _ _ Hinv) in Hid as (e' & He' & <-).
    apply (BTreeMap.get_elem _ _ _ (inv_asc _ _ Hinv)) in Hin, He'. naive_solver.
  - intros [He Hid]. exists (seq_no e). rewrite by_id_spec. apply elem_of_values in He as Hin. eauto.
Qed.

Lemma ids_injective e1 e2 : e1 ∈ BTreeMap.values (entries_by_seq inner) →
  e2 ∈ BTreeMap.values (entries_by_seq inner) → tx_id e1 = tx_id e2 → e1 = e2.
Proof using Hinv.
  intros H1 H2 Heq. pose proof (proj2 (find_entry_spec (tx_id e2) e1) (conj H1 Heq)).
  pose proof (proj2 (find_entry_spec (tx_id e2) e2) (conj H2 eq_refl)). congruence.
Qed.

Lemma values_sorted : StronglySorted (λ a b, seq_no a < seq_no b) (BTreeMap.values (entries_by_seq inner)).
Proof using Hinv.
  destruct Hinv as [_ Hasc Hall _ _ _]. clear Hinv. revert Hall.
  induction Hasc as [|[k e] m Hm IH Hk]; intros Hall; cbn; [constructor|].
  apply Forall_cons in Hall as [(He & _) Hall]. constructor; [by apply IH|].
  apply Forall_fmap, Forall_forall. intros kv Hin. rewrite Forall_forall in Hk, Hall.
  specialize (Hk _ Hin). destruct (Hall _ Hin) as [Heq _]. cbn in *. by rewrite He, Heq.
Qed.

Lemma ids_nodup : NoDup (map tx_id (BTreeMap.values (entries_by_seq inner))).
Proof using Hinv.
  assert (NoDup (BTreeMap.values (entries_by_seq inner))) as Hnd.
  { pose proof values_sorted as Hs. induction Hs as [|e l Hl IH Hall]; constructor; [|done].
    intros Hin. rewrite Forall_forall in Hall. specialize (Hall _ Hin). lia. }
  pose proof ids_injective as Hinj. induction Hnd as [|e l He Hl IH]; cbn; constructor.
  - intros (e' & Heq & Hin)%list_elem_of_fmap. assert (e = e'); [|by subst].
    apply Hinj; [by left|by right|done].
  - apply IH. intros. apply Hinj; [by right..|done].
Qed.

Lemma count_spec : size (entries_by_id inner) = length (BTreeMap.values (entries_by_seq inner)).
Proof using Hinv.
  rewrite <- (length_map tx_id), <- (size_list_to_set (C := gset TransactionId)) by apply ids_nodup.
  rewrite <- size_dom. f_equal. apply set_eq. intros id. rewrite elem_of_dom, elem_of_list_to_set.
  rewrite <- not_eq_None_Some. rewrite by_id_None. split; [|tauto]. apply dec_stable.
Qed.
End Invariant.

(** ** Each operation implements its specification *)

Lemma saturating_within config inner n :
  inv config inner → 0 <= n →
  (max_bytes config <? u64_saturating_add (current_bytes inner) n) =
  (max_bytes config <? total_size (BTreeMap.values (entries_by_seq inner)) + n).
Proof.
  intros [_ _ _ _ -> Hcap] Hn. unfold u64_saturating_add.
  do 2 (case_bool; try lia).
Qed.

Lemma insert_refines config t tx_origin inner : inv config inner → next_seq inner < u64_max →
  ∃ r inner', mempool_insert config t tx_origin inner = Ok (r, inner') ∧ inv config inner' ∧
    next_seq inner <= next_seq inner' <= next_seq inner + 1 ∧ spec_insert config t tx_origin (abs inner) = (r, abs inner').
Proof.
  intros Hinv Hnext. unfold mempool_insert, insert, spec_insert. cbn [s_entries s_next s_tip abs].
  pose proof (by_id_None config inner Hinv (get_tx_id t)) as Hnone.
  destruct (entries_by_id inner !! get_tx_id t) as [seq|] eqn:Hid.
  { rewrite bool_decide_eq_true_2 by eauto. rewrite decide_True by (apply dec_stable; naive_solver).
    eexists _, inner. split; [done|]. split; [done|]. split; [lia|done]. }
  rewrite bool_decide_eq_false_2 by (by intros []). rewrite decide_False by (by apply Hnone).
  pose proof (cbor_size_range t). rewrite (saturating_within config) by (done || lia).
  destruct (Z.ltb_spec (max_bytes config) (total_size (BTreeMap.values (entries_by_seq inner)) + cbor_size t)).
  { eexists _, inner. split; [done|]. split; [done|]. split; [lia|done]. }
  unfold u64_add. rewrite (proj2 (Z.leb_le _ _)) by lia.
  destruct Hinv as [Hn Hasc Hall Hids Hbytes Hcap].
  assert (Forall (λ kv, kv.1 < next_seq inner) (entries_by_seq inner)) as Hlt.
  { eapply Forall_impl; [exact Hall|]. intros kv (_ & ? & _); lia. }
  assert (u64_saturating_add (current_bytes inner) (cbor_size t) = current_bytes inner + cbor_size t) as ->.
  { unfold u64_saturating_add. lia. }
  eexists _, _. split; [done|]. rewrite (BTreeMap.insert_last _ _ _ Hlt). split; [split|split]; cbn [next_seq current_bytes tip entries_by_id entries_by_seq]; [| | | | | |lia|].
  - lia.
  - by apply BTreeMap.ascending_snoc.
  - apply Forall_app. split; [|repeat constructor; cbn; lia].
    eapply Forall_impl; [exact Hall|]. intros kv (? & ? & ? & ?). repeat split; [done|lia..|done|done].
  - intros id seq. setoid_rewrite elem_of_app. setoid_rewrite list_elem_of_singleton.
    destruct (decide (id = get_tx_id t)) as [->|Hne].
    + rewrite lookup_insert_eq. split; [intros [= <-]; eexists; split; [by right|done]|].
      intros (e & [Hin|[= -> ->]] & He); [|done]. exfalso.
      assert (entries_by_id inner !! get_tx_id t = Some seq) by (apply Hids; eauto). congruence.
    + rewrite lookup_insert_ne by done. rewrite Hids. split; [naive_solver|].
      intros (e & [Hin|[= -> ->]] & He); [eauto|]. by cbn in He.
  - unfold BTreeMap.values in *. rewrite map_app, total_size_app, <- Hbytes. cbn. lia.
  - lia.
  - unfold abs. cbn. unfold BTreeMap.values. by rewrite map_app.
Qed.

Lemma total_size_filter l e : NoDup (map tx_id l) → e ∈ l →
  total_size l = tx_size e + total_size (filter (λ e', tx_id e' ≠ tx_id e) l).
Proof.
  induction l as [|e' l IH]; cbn [map]; [by intros _ ?%elem_of_nil|]. intros [Hni Hnd]%NoDup_cons He.
  rewrite filter_cons. apply elem_of_cons in He as [->|He].
  - rewrite decide_False by naive_solver. change (total_size (e' :: l)) with (tx_size e' + total_size l).
    f_equal. f_equal. symmetry. apply filter_all, Forall_forall. intros x Hx Heq.
    apply Hni. by apply list_elem_of_fmap_2' with x.
  - change (total_size (e' :: l)) with (tx_size e' + total_size l).
    rewrite decide_True, (IH Hnd He) by (intros Heq; apply Hni; by apply list_elem_of_fmap_2' with e).
    unfold total_size. cbn. lia.
Qed.

Lemma remove_one_refines config inner id : inv config inner →
  let inner' := remove_one inner id in
  inv config inner' ∧ next_seq inner' = next_seq inner ∧ tip inner' = tip inner ∧
  BTreeMap.values (entries_by_seq inner') = filter (λ e, tx_id e ≠ id) (BTreeMap.values (entries_by_seq inner)).
Proof.
  intros Hinv. unfold remove_one. destruct (entries_by_id inner !! id) as [seq|] eqn:Hid; cbv zeta.
  2: { repeat split; try apply Hinv. symmetry. apply filter_all, Forall_forall. intros e He Heq.
    apply (by_id_None config inner Hinv) in Hid. apply Hid. by apply list_elem_of_fmap_2' with e. }
  pose proof Hid as Hseq. apply (by_id_spec config inner Hinv) in Hseq as (e & He & Heid & Heseq).
  pose proof (proj1 (elem_of_values config inner Hinv e) He) as Hin. rewrite Heseq in Hin.
  rewrite (proj2 (BTreeMap.get_elem _ _ _ (inv_asc _ _ Hinv)) Hin).
  assert (BTreeMap.values (BTreeMap.remove seq (entries_by_seq inner)) =
    filter (λ e, tx_id e ≠ id) (BTreeMap.values (entries_by_seq inner))) as Hvals.
  { apply values_filter, Forall_forall. intros [k e'] Hin'. cbn. apply not_iff_compat. split.
    - intros ->. apply (BTreeMap.get_elem _ _ _ (inv_asc _ _ Hinv)) in Hin, Hin'. naive_solver.
    - intros Heq. assert (entries_by_id inner !! id = Some k); [|naive_solver].
      apply (inv_ids _ _ Hinv). eauto. }
  pose proof (total_size_filter _ e (ids_nodup config inner Hinv) He) as Htot. rewrite Heid in Htot.
  destruct Hinv as [Hn Hasc Hall Hids Hbytes Hcap].
  assert (0 <= tx_size e) as Hpos.
  { rewrite Forall_forall in Hall. destruct (Hall _ Hin) as (_ & _ & _ & Hs). cbn in Hs. rewrite Hs. apply cbor_size_range. }
  assert (0 <= total_size (filter (λ e, tx_id e ≠ id) (BTreeMap.values (entries_by_seq inner)))) as Hrest.
  { rewrite <- Hvals. apply total_size_nonneg with (next_seq inner). by apply Forall_filter. }
  cbn [next_seq current_bytes tip entries_by_id entries_by_seq].
  split; [|done]. split; cbn [next_seq current_bytes tip entries_by_id entries_by_seq]; try done.
  - by apply BTreeMap.ascending_remove.
  - by apply Forall_filter.
  - intros id' seq'. unfold BTreeMap.remove. setoid_rewrite list_elem_of_filter. cbn.
    destruct (decide (id' = id)) as [->|Hne].
    + rewrite lookup_delete_eq. split; [done|]. intros (e' & [Hs' Hin'] & He').
      assert (entries_by_id inner !! id = Some seq') by (apply Hids; eauto). congruence.
    + rewrite lookup_delete_ne, Hids by done. split; [|naive_solver]. intros (e' & Hin' & He').
      exists e'. split; [|done]. split; [|done]. intros ->.
      apply (BTreeMap.get_elem _ _ _ Hasc) in Hin, Hin'. congruence.
  - unfold u64_saturating_sub. rewrite Hvals. lia.
  - unfold u64_saturating_sub. lia.
Qed.

Lemma remove_refines config ids inner : inv config inner →
  let inner' := remove ids inner in
  inv config inner' ∧ next_seq inner' = next_seq inner ∧ tip inner' = tip inner ∧
  BTreeMap.values (entries_by_seq inner') = filter (λ e, tx_id e ∉ ids) (BTreeMap.values (entries_by_seq inner)).
Proof.
  cbv zeta. unfold remove. revert inner. induction ids as [|id ids IH]; intros inner Hinv; cbn [foldl].
  { repeat split; try apply Hinv. symmetry. apply filter_all, Forall_forall. set_solver. }
  destruct (remove_one_refines config inner id Hinv) as (Hinv' & Hn & Ht & Hv).
  destruct (IH _ Hinv') as (Hinv'' & -> & -> & ->). split; [done|]. split; [done|]. split; [done|].
  rewrite Hv, list_filter_filter. apply list_filter_iff. set_solver.
Qed.

Lemma insert_sorted_perm e l : insert_sorted e l ≡ₚ e :: l.
Proof. induction l as [|e' l IH]; cbn; [done|]. case_bool; [done|]. rewrite IH. apply Permutation_swap. Qed.
Lemma sort_by_seq_no_perm l : sort_by_seq_no l ≡ₚ l.
Proof. induction l as [|e l IH]; cbn; [done|]. by rewrite insert_sorted_perm, IH. Qed.

Definition seq_le (a b : Entry) : Prop := seq_no a <= seq_no b.
Lemma insert_sorted_sorted e l : StronglySorted seq_le l → StronglySorted seq_le (insert_sorted e l).
Proof.
  induction 1 as [|e' l Hl IH Hall]; cbn; [repeat constructor|]. case_bool.
  - constructor; [by constructor|]. constructor; [done|]. eapply Forall_impl; [exact Hall|]. unfold seq_le. lia.
  - constructor; [done|]. rewrite insert_sorted_perm. constructor; [unfold seq_le; lia|done].
Qed.
Lemma sort_by_seq_no_sorted l : StronglySorted seq_le (sort_by_seq_no l).
Proof. induction l as [|e l IH]; cbn; [constructor|]. by apply insert_sorted_sorted. Qed.

(** Asking for one more identifier shows one more copy of its entry. *)
Lemma asked_cons id ids e : asked (id :: ids) e = ((if decide (id = tx_id e) then 1 else 0) + asked ids e)%nat.
Proof. unfold asked. rewrite filter_cons. by case_decide. Qed.

Lemma copies_other (l : list Entry) id ids : id ∉ map tx_id l →
  (l ≫= λ x, replicate (asked (id :: ids) x) x) = (l ≫= λ x, replicate (asked ids x) x).
Proof.
  intros Hni. induction l as [|e l IH]; [done|]. cbn [map] in Hni. apply not_elem_of_cons in Hni as [Hne Hni].
  by rewrite !bind_cons, asked_cons, decide_False, IH.
Qed.

Lemma copies_cons (l : list Entry) id ids e : NoDup (map tx_id l) → e ∈ l → tx_id e = id →
  (l ≫= λ x, replicate (asked (id :: ids) x) x) ≡ₚ e :: (l ≫= λ x, replicate (asked ids x) x).
Proof.
  intros Hnd He Hid. induction l as [|e' l IH]; [by apply elem_of_nil in He|].
  cbn [map] in Hnd. apply NoDup_cons in Hnd as [Hni Hnd]. rewrite !bind_cons, asked_cons.
  apply elem_of_cons in He as [->|He].
  - rewrite decide_True by done. rewrite copies_other by congruence. done.
  - rewrite decide_False; [|intros Heq; apply Hni; apply list_elem_of_fmap_2' with e; congruence].
    cbn [Nat.add]. rewrite IH by done. by rewrite Permutation_middle.
Qed.

Lemma found_perm config inner ids : inv config inner →
  omap (find_entry inner) ids ≡ₚ (BTreeMap.values (entries_by_seq inner) ≫= λ x, replicate (asked ids x) x).
Proof.
  intros Hinv. induction ids as [|id ids IH].
  { cbn. induction (BTreeMap.values (entries_by_seq inner)) as [|e l IH]; [done|]. by rewrite bind_cons. }
  cbn [omap list_omap]. destruct (find_entry inner id) as [e|] eqn:He.
  - apply (find_entry_spec config inner Hinv) in He as [He Hid].
    rewrite (copies_cons _ id ids e (ids_nodup config inner Hinv) He Hid). by constructor.
  - rewrite copies_other; [done|]. intros (e & Heq & Hin)%list_elem_of_fmap.
    pose proof (proj2 (find_entry_spec config inner Hinv id e) (conj Hin (eq_sym Heq))). congruence.
Qed.

Lemma copies_sorted (f : Entry → nat) l : StronglySorted (λ a b, seq_no a < seq_no b) l →
  StronglySorted seq_le (l ≫= λ x, replicate (f x) x).
Proof.
  induction 1 as [|e l Hl IH Hall]; [constructor|]. rewrite bind_cons.
  assert (∀ y, y ∈ (l ≫= λ x, replicate (f x) x) → seq_le e y) as Hle.
  { intros y (x & Hy & Hx)%list_elem_of_bind. apply elem_of_replicate in Hy as [-> _].
    rewrite Forall_forall in Hall. specialize (Hall _ Hx). unfold seq_le. lia. }
  induction (f e) as [|n IHn]; cbn; [done|]. constructor; [done|]. apply Forall_forall.
  intros y [Hy|Hy]%elem_of_app; [|by apply Hle]. apply elem_of_replicate in Hy as [-> _]. unfold seq_le. lia.
Qed.

Lemma get_refines config ids inner : inv config inner → read_get ids inner = spec_get ids (abs inner).
Proof.
  intros Hinv. unfold read_get, spec_get. cbn [abs s_entries].
  set (l := BTreeMap.values (entries_by_seq inner)).
  assert (sort_by_seq_no (omap (find_entry inner) ids) = (l ≫= λ x, replicate (asked ids x) x)) as ->.
  { apply (StronglySorted_unique_strong seq_le).
    - intros x y Hx Hy Hxy Hyx. rewrite sort_by_seq_no_perm, (found_perm config) in Hx by done.
      apply list_elem_of_bind in Hx as (x' & Hx & Hx'), Hy as (y' & Hy & Hy').
      apply elem_of_replicate in Hx as [-> _], Hy as [-> _].
      apply (elem_of_values config inner Hinv) in Hx', Hy'. unfold seq_le in *.
      apply (BTreeMap.get_elem _ _ _ (inv_asc _ _ Hinv)) in Hx', Hy'.
      replace (seq_no y') with (seq_no x') in Hy' by lia. congruence.
    - apply sort_by_seq_no_sorted.
    - apply copies_sorted, (values_sorted config), Hinv.
    - rewrite sort_by_seq_no_perm. by apply (found_perm config). }
  induction l as [|e l IH]; [done|]. rewrite !bind_cons. change (map tx ?x) with (tx <$> x).
  rewrite fmap_app, fmap_replicate. by f_equal.
Qed.

Lemma contains_refines config id inner : inv config inner →
  contains id inner = bool_decide (id ∈ map tx_id (BTreeMap.values (entries_by_seq inner))).
Proof.
  intros Hinv. unfold contains, read_get. cbn [omap list_omap].
  destruct (find_entry inner id) as [e|] eqn:He; symmetry.
  - apply (find_entry_spec config inner Hinv) in He as [He <-]. apply bool_decide_eq_true_2.
    by apply list_elem_of_fmap_2.
  - apply bool_decide_eq_false_2. intros (e & -> & Hin)%list_elem_of_fmap.
    pose proof (proj2 (find_entry_spec config inner Hinv _ e) (conj Hin eq_refl)). congruence.
Qed.

Lemma slice_refines config from limit inner : inv config inner →
  slice from limit inner =
  map (λ e, (tx_id e, tx_size e, seq_no e))
    (take (Z.to_nat limit) (filter (λ e, from <= seq_no e) (BTreeMap.values (entries_by_seq inner)))).
Proof.
  intros Hinv. unfold slice, BTreeMap.range.
  pose proof (inv_entries _ _ Hinv) as Hall. rewrite Forall_forall in Hall.
  rewrite <- (values_filter (λ kv, from <= kv.1) (λ e, from <= seq_no e)).
  2: { apply Forall_forall. intros kv Hkv. destruct (Hall _ Hkv) as [-> _]. done. }
  unfold BTreeMap.values. change (map snd ?x) with (snd <$> x). rewrite <- fmap_take.
  change (map ?f (snd <$> ?x)) with (f <$> (snd <$> x)). rewrite <- list_fmap_compose.
  apply list_fmap_ext. intros i [k e] Hi. cbn. f_equal.
  apply lookup_take_Some in Hi as [Hi _]. apply list_elem_of_lookup_2, list_elem_of_filter in Hi as [_ Hi].
  destruct (Hall _ Hi) as [Heq _]. done.
Qed.

(** The calls an observer makes give sensible arguments: sizes are not
    negative. *)
Definition op_ok (op : Op) : Prop := match op with OpIsNearCapacity n => 0 <= n | _ => True end.

Lemma step_refines config op inner : inv config inner → next_seq inner < u64_max → op_ok op →
  ∃ out inner', step config op inner = Ok (out, inner') ∧ inv config inner' ∧
    next_seq inner <= next_seq inner' <= next_seq inner + 1 ∧ spec_step config op (abs inner) = (out, abs inner').
Proof.
  intros Hinv Hnext Hop. destruct op as [t o|ids| |t|id|from limit|ids| |n| |t]; cbn [step spec_step abs s_entries s_next s_tip].
  - destruct (insert_refines config t o inner Hinv Hnext) as (r & inner' & -> & Hinv' & Hn & Hspec).
    cbn. fold (abs inner). rewrite Hspec. eauto 6.
  - exists (OutTxs (read_get ids inner)), inner. rewrite (get_refines config) by done. split; [done|]. split; [done|]. split; [lia|done].
  - exists (OutTxs (read_iter inner)), inner. split; [done|]. split; [done|]. split; [lia|done].
  - eexists _, inner. split; [done|]. split; [done|]. split; [lia|]. unfold read_at.
    by case_bool_decide; rewrite ?decide_True, ?decide_False by done.
  - eexists _, inner. split; [done|]. split; [done|]. split; [lia|]. by rewrite (contains_refines config).
  - eexists _, inner. split; [done|]. split; [done|]. split; [lia|]. by rewrite (slice_refines config).
  - destruct (remove_refines config ids inner Hinv) as (Hinv' & Hn & Ht & Hv).
    eexists _, _. split; [done|]. split; [done|]. split; [lia|]. unfold abs. by rewrite Hn, Ht, Hv.
  - unfold last. pose proof (inv_next _ _ Hinv). unfold u64_sub. rewrite (proj2 (Z.leb_le _ _)) by lia. cbn.
    eexists _, inner. split; [done|]. split; [done|]. split; [lia|done].
  - eexists _, inner. split; [done|]. split; [done|]. split; [lia|]. unfold is_near_capacity.
    by rewrite saturating_within.
  - eexists _, inner. split; [done|]. split; [done|]. split; [lia|]. unfold state.
    by rewrite (count_spec config inner Hinv), (inv_bytes config inner Hinv).
  - eexists _, _. split; [done|]. split; [|split; [cbn; lia|done]]. destruct Hinv. by split.
Qed.

Lemma run_refines config ops inner : inv config inner → Forall op_ok ops →
  next_seq inner + Z.of_nat (length ops) <= u64_max →
  ∃ outs inner', run config ops inner = Ok (outs, inner') ∧ inv config inner' ∧
    spec_run config ops (abs inner) = (outs, abs inner').
Proof.
  revert inner. induction ops as [|op ops IH]; intros inner Hinv Hops Hlen; cbn [run spec_run length] in *.
  { eexists _, inner. done. }
  apply Forall_cons in Hops as [Hop Hops].
  destruct (step_refines config op inner Hinv ltac:(lia) Hop) as (out & inner1 & -> & Hinv1 & Hn & ->).
  destruct (IH inner1 Hinv1 Hops ltac:(lia)) as (outs & inner2 & Hrun & Hinv2 & ->).
  cbn [mbind exec_bind]. rewrite Hrun. cbn [mbind exec_bind]. eauto.
Qed.

(** The sequence numbers handed out along a history. *)
Definition accepted (outs : list Output) : list MempoolSeqNo :=
  omap (λ out, match out with OutInsert (Accepted _ seq) => Some seq | _ => None end) outs.

Lemma spec_step_next config op s out s' : spec_step config op s = (out, s') →
  (accepted [out] = [] ∧ s_next s' = s_next s) ∨ (accepted [out] = [s_next s] ∧ s_next s' = s_next s + 1).
Proof.
  destruct op; cbn [spec_step]; intros Hs; simplify_eq; auto.
  unfold spec_insert in Hs. repeat case_match; simplify_eq; auto.
Qed.

Lemma spec_run_accepted config ops s outs s' : spec_run config ops s = (outs, s') →
  StronglySorted Z.lt (accepted outs) ∧ Forall (λ seq, s_next s <= seq < s_next s') (accepted outs) ∧ s_next s <= s_next s'.
Proof.
  revert s outs s'. induction ops as [|op ops IH]; intros s outs s' Hrun; cbn [spec_run] in Hrun.
  { simplify_eq. split; [constructor|]. split; [constructor|lia]. }
  destruct (spec_step config op s) as [out s1] eqn:Hstep, (spec_run config ops s1) as [outs1 s2] eqn:Hruns.
  simplify_eq. destruct (IH _ _ _ Hruns) as (Hsort & Hall & Hle).
  assert (accepted (out :: outs1) = accepted [out] ++ accepted outs1) as -> by apply (omap_app _ [out]).
  destruct (spec_step_next _ _ _ _ _ Hstep) as [[-> Hn]|[-> Hn]]; rewrite Hn in Hall, Hle; [done|].
  cbn [app]. split; [constructor; [done|]|split; [constructor; [lia|]|lia]];
    (eapply Forall_impl; [exact Hall|]; cbn; lia).
Qed.
End Store.

(** C26: the mempool behaves as the list of its entries in insertion order: along
    any history of calls, of any length below the range of sequence numbers, no
    call panics, every call returns what the abstract mempool returns (insertion
    refuses duplicates before it refuses for lack of space, removal forgets exactly
    the named transactions and frees their bytes, [get], [iter] and [slice] answer in
    insertion order) and the two indices, the sizes and the byte count stay
    consistent, within the capacity. *)
Theorem mempool_refines {Tx} `{Transaction Tx} (config : MempoolConfig) (ops : list Op) :
  0 <= max_bytes config < u64_max → Forall op_ok ops → Z.of_nat (length ops) < u64_max →
  ∃ outs inner, run config ops Inner_default = Ok (outs, inner) ∧ inv config inner ∧
    spec_run config ops spec_init = (outs, abs inner).
Proof. intros Hcap Hops Hlen. apply (run_refines config ops Inner_default); [by apply inv_default|done|cbn; lia]. Qed.

(** Sequence numbers are never reused: along any history, those of the
    accepted transactions are strictly increasing, whatever is removed in between,
    and the last one assigned is what [last] reports. *)
Theorem mempool_sequence_monotonic {Tx} `{Transaction Tx} (config : MempoolConfig) (ops : list Op)
    (outs : list Output) (inner : InMemoryMempoolInner Tx) :
  0 <= max_bytes config < u64_max → Forall op_ok ops → Z.of_nat (length ops) < u64_max →
  run config ops Inner_default = Ok (outs, inner) →
  StronglySorted Z.lt (accepted outs) ∧
  ∃ seq, last inner = Ok seq ∧ Forall (λ s, 1 <= s <= seq) (accepted outs).
Proof.
  intros Hcap Hops Hlen Hrun.
  destruct (run_refines config ops Inner_default) as (outs' & inner' & Hrun' & Hinv & Hspec);
    [by apply inv_default|done|cbn; lia|]. rewrite Hrun in Hrun'. simplify_eq.
  destruct (spec_run_accepted _ _ _ _ _ Hspec) as (Hs & Hall & _). split; [done|].
  unfold last, u64_sub. pose proof (inv_next _ _ Hinv). rewrite (proj2 (Z.leb_le _ _)) by lia.
  eexists. split; [done|]. eapply Forall_impl; [exact Hall|]. cbn. lia.
Qed.

(** ** A small history *)

(** Transactions that are their own bytes and identifiers. *)
#[local] Instance bytes_tx : Transaction (list Z) := {| get_tx_id := id; to_cbor := id |}.

Definition history : list (Op (Tx := list Z)) :=
  [OpInsert [1; 2] Local; OpInsert [3] Local; OpInsert [3] Local; OpInsert [4; 5] Local; OpRemove [[1; 2]];
   OpInsert [4; 5] Local; OpGet [[4; 5]; [9]; [3]]; OpSlice 2 1; OpLast; OpState].

Example history_outputs :
  fst <$> run (mkMempoolConfig 4) history Inner_default = Ok
    [OutInsert (Accepted [1; 2] 1); OutInsert (Accepted [3] 2); OutInsert (Rejected [3] Duplicate);
     OutInsert (Rejected [4; 5] MempoolFull); OutUnit; OutInsert (Accepted [4; 5] 3); OutTxs [[3]; [4; 5]];
     OutSlice [([3], 1, 2)]; OutSeqNo 3; OutState (mkMempoolState 2 3)].
Proof. vm_compute. reflexivity. Qed.

Lemma mempool_refines_witness : ∃ outs inner, run (mkMempoolConfig 4) history Inner_default = Ok (outs, inner) ∧
  inv (mkMempoolConfig 4) inner ∧ spec_run (mkMempoolConfig 4) history spec_init = (outs, abs inner).
Proof. apply (mempool_refines (mkMempoolConfig 4) history); [by vm_compute|by repeat constructor|by vm_compute]. Defined.

Lemma mempool_sequence_monotonic_witness :
  match run (mkMempoolConfig 4) history Inner_default with
  | Ok (outs, inner) => StronglySorted Z.lt (accepted outs) ∧
      ∃ seq, last inner = Ok seq ∧ Forall (λ s, 1 <= s <= seq) (accepted outs)
  | _ => False
  end.
Proof.
  destruct (run (mkMempoolConfig 4) history Inner_default) as [[outs inner]|e| |] eqn:Hrun;
    [|vm_compute in Hrun; discriminate Hrun..].
  apply (mempool_sequence_monotonic (mkMempoolConfig 4) history outs inner);
    [by vm_compute|by repeat constructor|by vm_compute|exact Hrun].
Defined.
End Mempool.
