(* ===== verification/Governance.v ===== *)
(** * Governance data

    The vocabulary of governance actions, from [amaru-kernel/src/cardano/]:
    credentials, identifiers and pointers of proposals, the actions and the shape
    in which they are ratified ([proposal_enum.rs]), votes and voters. *)

From S2P Require Import Prelude UplcSyntax SortedAssoc ProtocolParameters.

(** ** Credentials and identifiers *)

Inductive Credential := ScriptHash (hash : list Z) | KeyHash (hash : list Z).
#[global] Instance Credential_eq_dec : EqDecision Credential.
Proof. solve_decision. Defined.
#[global] Instance Credential_countable : Countable Credential.
Proof.
  refine (inj_countable' (λ c, match c with ScriptHash h => inl h | KeyHash h => inr h end)
    (λ s, match s with inl h => ScriptHash h | inr h => KeyHash h end) _).
  by intros [].
Defined.

Record ProposalId := mkProposalId { proposal_transaction_id : list Z; proposal_index : Z }.
#[global] Instance ProposalId_eq_dec : EqDecision ProposalId.
Proof. solve_decision. Defined.
#[global] Instance ProposalId_countable : Countable ProposalId.
Proof.
  refine (inj_countable' (λ i, (proposal_transaction_id i, proposal_index i)) (λ '(t, n), mkProposalId t n) _).
  by intros [].
Defined.

(** Derived orders: by the transaction, then by the index. *)
Definition then_cmp (a b : comparison) : comparison := match a with Eq => b | c => c end.
Definition ProposalId_cmp (a b : ProposalId) : comparison :=
  then_cmp (bytes_compare (proposal_transaction_id a) (proposal_transaction_id b))
    (Z.compare (proposal_index a) (proposal_index b)).

Record ProposalPointer := mkProposalPointer { ptr_slot : Z; ptr_transaction_index : Z; ptr_proposal_index : Z }.
Definition ProposalPointer_cmp (a b : ProposalPointer) : comparison :=
  then_cmp (Z.compare (ptr_slot a) (ptr_slot b))
    (then_cmp (Z.compare (ptr_transaction_index a) (ptr_transaction_index b))
       (Z.compare (ptr_proposal_index a) (ptr_proposal_index b))).

(** ** Proposals *)

Record Anchor := mkAnchor { anchor_url : string; anchor_hash : list Z }.
Record Constitution := mkConstitution { anchor : Anchor; guardrail_script : option (list Z) }.
Inductive Network := Testnet | Mainnet.
Record RewardAccount := mkRewardAccount { account_network : Network; account_credential : Credential }.

Inductive GovernanceAction :=
| ParameterChange (parent : option ProposalId) (update : ProtocolParamUpdate) (guardrails : option (list Z))
| HardForkInitiation (parent : option ProposalId) (version : ProtocolVersion)
| TreasuryWithdrawals (withdrawals : list (RewardAccount * Z)) (guardrails : option (list Z))
| NoConfidenceMotion (parent : option ProposalId)
| UpdateCommittee (parent : option ProposalId) (removed : list Credential) (added : list (Credential * Z))
    (threshold : RationalNumber)
| NewConstitution (parent : option ProposalId) (constitution : Constitution)
| Information.

Inductive ConstitutionalCommitteeUpdate :=
| NoConfidence
| ChangeMembers (removed : gset Credential) (added : gmap Credential Z) (threshold : SafeRatio).

Inductive OrphanProposal :=
| NicePoll
| TreasuryWithdrawal (withdrawals : gmap Credential Z).

Inductive ProposalEnum :=
| ProtocolParametersProposal (update : ProtocolParamUpdate) (parent : option ProposalId)
| HardFork (version : ProtocolVersion) (parent : option ProposalId)
| ConstitutionalCommitteeProposal (update : ConstitutionalCommitteeUpdate) (parent : option ProposalId)
| ConstitutionProposal (constitution : Constitution) (parent : option ProposalId)
| Orphan (orphan : OrphanProposal).

(** [into_iter().collect()] into a map: the last value of a key wins. *)
Definition collect_map {V} (l : list (Credential * V)) : gmap Credential V :=
  foldl (λ m '(k, v), <[k := v]> m) ∅ l.

Definition ProposalEnum_from {E : Type} (action : GovernanceAction) : exec E ProposalEnum :=
  match action with
  | ParameterChange parent update _ => Ok (ProtocolParametersProposal update parent)
  | HardForkInitiation parent version => Ok (HardFork version parent)
  | TreasuryWithdrawals withdrawals _ =>
      Ok (Orphan (TreasuryWithdrawal
        (foldl (λ accum '(account, amount), <[account_credential account := amount]> accum) ∅ withdrawals)))
  | UpdateCommittee parent removed added threshold =>
      threshold ← into_safe_ratio threshold;
      Ok (ConstitutionalCommitteeProposal (ChangeMembers (list_to_set removed) (collect_map added) threshold) parent)
  | NoConfidenceMotion parent => Ok (ConstitutionalCommitteeProposal NoConfidence parent)
  | NewConstitution parent constitution => Ok (ConstitutionProposal constitution parent)
  | Information => Ok (Orphan NicePoll)
  end.

Definition proposal_parent (p : ProposalEnum) : option ProposalId :=
  match p with
  | ProtocolParametersProposal _ parent | HardFork _ parent | ConstitutionalCommitteeProposal _ parent
  | ConstitutionProposal _ parent => parent
  | Orphan _ => None
  end.

Definition cmp_priority (self other : ProposalEnum) : comparison :=
  match self, other with
  | ConstitutionalCommitteeProposal NoConfidence _, ConstitutionalCommitteeProposal NoConfidence _ => Eq
  | ConstitutionalCommitteeProposal NoConfidence _, _ => Gt
  | _, ConstitutionalCommitteeProposal NoConfidence _ => Lt
  | ConstitutionalCommitteeProposal _ _, ConstitutionalCommitteeProposal _ _ => Eq
  | ConstitutionalCommitteeProposal _ _, _ => Gt
  | _, ConstitutionalCommitteeProposal _ _ => Lt
  | ConstitutionProposal _ _, ConstitutionProposal _ _ => Eq
  | ConstitutionProposal _ _, _ => Gt
  | _, ConstitutionProposal _ _ => Lt
  | HardFork _ _, HardFork _ _ => Eq
  | HardFork _ _, _ => Gt
  | _, HardFork _ _ => Lt
  | ProtocolParametersProposal _ _, ProtocolParametersProposal _ _ => Eq
  | ProtocolParametersProposal _ _, _ => Gt
  | _, ProtocolParametersProposal _ _ => Lt
  | Orphan (TreasuryWithdrawal _), Orphan (TreasuryWithdrawal _) => Eq
  | Orphan (TreasuryWithdrawal _), _ => Gt
  | _, Orphan (TreasuryWithdrawal _) => Lt
  | Orphan NicePoll, Orphan NicePoll => Eq
  end.

Definition is_hardfork (p : ProposalEnum) : bool := match p with HardFork _ _ => true | _ => false end.
Definition is_orphan (p : ProposalEnum) : bool := match p with Orphan _ => true | _ => false end.
Definition is_no_confidence (p : ProposalEnum) : bool :=
  match p with ConstitutionalCommitteeProposal NoConfidence _ => true | _ => false end.
Definition is_committee_member_update (p : ProposalEnum) : bool :=
  match p with ConstitutionalCommitteeProposal (ChangeMembers _ _ _) _ => true | _ => false end.
Definition is_nice_poll (p : ProposalEnum) : bool := match p with Orphan NicePoll => true | _ => false end.

Inductive RatificationStatus := Ratified | NotRatified.
#[global] Instance RatificationStatus_eq_dec : EqDecision RatificationStatus.
Proof. solve_decision. Defined.

(** ** Votes *)

Inductive Vote := VoteNo | VoteYes | VoteAbstain.
(** A vote with its rationale. *)
Record Ballot := mkBallot { ballot_vote : Vote; ballot_anchor : option Anchor }.
Inductive Voter :=
| ConstitutionalCommitteeScript (hash : list Z)
| ConstitutionalCommitteeKey (hash : list Z)
| DRepScript (hash : list Z)
| DRepKey (hash : list Z)
| StakePoolKey (pool : list Z).

Inductive DRep := DRep_Key (hash : list Z) | DRep_Script (hash : list Z) | DRep_Abstain | DRep_NoConfidence.
#[global] Instance DRep_eq_dec : EqDecision DRep.
Proof. solve_decision. Defined.
#[global] Instance DRep_countable : Countable DRep.
Proof.
  refine (inj_countable'
    (λ d, match d with DRep_Key h => (0, h) | DRep_Script h => (1, h) | DRep_Abstain => (2, []) | DRep_NoConfidence => (3, []) end)
    (λ '(n, h), if n =? 0 then DRep_Key h else if n =? 1 then DRep_Script h else if n =? 2 then DRep_Abstain else DRep_NoConfidence) _).
  by intros [].
Defined.

(** ** The priority of proposals is a rank *)

Definition priority (p : ProposalEnum) : Z :=
  match p with
  | ConstitutionalCommitteeProposal NoConfidence _ => 7
  | ConstitutionalCommitteeProposal _ _ => 6
  | ConstitutionProposal _ _ => 5
  | HardFork _ _ => 4
  | ProtocolParametersProposal _ _ => 3
  | Orphan (TreasuryWithdrawal _) => 2
  | Orphan NicePoll => 1
  end.

Lemma cmp_priority_rank a b : cmp_priority a b = Z.compare (priority a) (priority b).
Proof. destruct a as [| |[]| |[]], b as [| |[]| |[]]; reflexivity. Qed.

Lemma ProposalPointer_cmp_refl p : ProposalPointer_cmp p p = Eq.
Proof. unfold ProposalPointer_cmp. by rewrite !Z.compare_refl. Qed.
Lemma ProposalPointer_cmp_eq a b : ProposalPointer_cmp a b = Eq ↔ a = b.
Proof.
  split; [|intros ->; apply ProposalPointer_cmp_refl]. destruct a, b. unfold ProposalPointer_cmp. cbn.
  destruct (Z.compare_spec ptr_slot0 ptr_slot1) as [->| |]; cbn; try done.
  destruct (Z.compare_spec ptr_transaction_index0 ptr_transaction_index1) as [->| |]; cbn; try done.
  by destruct (Z.compare_spec ptr_proposal_index0 ptr_proposal_index1) as [->| |].
Qed.
Lemma ProposalPointer_cmp_antisym a b : ProposalPointer_cmp b a = CompOpp (ProposalPointer_cmp a b).
Proof.
  unfold ProposalPointer_cmp. rewrite (Z.compare_antisym (ptr_slot a)), (Z.compare_antisym (ptr_transaction_index a)),
    (Z.compare_antisym (ptr_proposal_index a)).
  destruct (Z.compare (ptr_slot a) _); cbn; [|done..]. destruct (Z.compare (ptr_transaction_index a) _); done.
Qed.
Lemma ProposalPointer_cmp_trans a b c :
  ProposalPointer_cmp a b ≠ Gt → ProposalPointer_cmp b c ≠ Gt → ProposalPointer_cmp a c ≠ Gt.
Proof.
  unfold ProposalPointer_cmp.
  destruct (Z.compare_spec (ptr_slot a) (ptr_slot b)), (Z.compare_spec (ptr_slot b) (ptr_slot c)),
    (Z.compare_spec (ptr_slot a) (ptr_slot c)); cbn; try lia; try done;
  destruct (Z.compare_spec (ptr_transaction_index a) (ptr_transaction_index b)),
    (Z.compare_spec (ptr_transaction_index b) (ptr_transaction_index c)),
    (Z.compare_spec (ptr_transaction_index a) (ptr_transaction_index c)); cbn; try lia; try done;
  destruct (Z.compare_spec (ptr_proposal_index a) (ptr_proposal_index b)),
    (Z.compare_spec (ptr_proposal_index b) (ptr_proposal_index c)),
    (Z.compare_spec (ptr_proposal_index a) (ptr_proposal_index c)); cbn; try lia; try done.
Qed.
