(* ===== verification/Summary.v ===== *)
(** * Summaries of an epoch: data

    The records of [amaru-ledger/src/summary/] (mod.rs, governance.rs,
    stake_distribution.rs) that the stake distribution, the rewards and the
    ratification of an epoch share, with the pool parameters of
    [amaru-kernel/src/cardano/]; and the sums over lists and tables their theorems
    are about.  A [BTreeMap] is a [gmap], a sorted vector of pairs an ordered list. *)

From Stdlib Require Import QArith.
From S2P Require Import Prelude UplcSyntax SortedAssoc SortedPairs ProtocolParameters Governance.
#[local] Open Scope Z_scope.

(** ** Stake pools *)

Abbreviation PoolId := (list Z).

(** A transaction pointer (slot, index in the block) and an index in the
    transaction, ordered lexicographically. *)
Record CertificatePointer := mkCertificatePointer {
  cert_slot : Z; cert_transaction_index : Z; certificate_index : Z }.
#[global] Instance CertificatePointer_eq_dec : EqDecision CertificatePointer.
Proof. solve_decision. Defined.
Definition CertificatePointer_cmp (a b : CertificatePointer) : comparison :=
  then_cmp (Z.compare (cert_slot a) (cert_slot b))
    (then_cmp (Z.compare (cert_transaction_index a) (cert_transaction_index b))
      (Z.compare (certificate_index a) (certificate_index b))).
(** [since >= registered_at]. *)
Definition CertificatePointer_geb (a b : CertificatePointer) : bool :=
  match CertificatePointer_cmp a b with Lt => false | _ => true end.

Inductive Relay :=
| SingleHostAddr (port : option Z) (ipv4 ipv6 : option (list Z))
| SingleHostName (port : option Z) (dns : string)
| MultiHostName (dns : string).
Record PoolMetadata := mkPoolMetadata { content_hash : list Z; url : string }.

Record PoolParams := mkPoolParams {
  pool_id : PoolId;
  vrf : list Z;
  pledge : Z;
  cost : Z;
  margin : RationalNumber;
  reward_account : RewardAccount;
  owners : list (list Z);
  relays : list Relay;
  metadata : option PoolMetadata }.

Record PoolState := mkPoolState {
  pool_registered_at : CertificatePointer;
  blocks_count : Z;
  pool_stake : Z;
  pool_voting_stake : Z;
  pool_margin : SafeRatio;
  parameters : PoolParams;
  fallback_drep : option DRep }.

Definition set_pool_stake (stake voting_stake : Z) (p : PoolState) : PoolState :=
  mkPoolState (pool_registered_at p) (blocks_count p) stake voting_stake (pool_margin p) (parameters p) (fallback_drep p).
Definition set_blocks_count (n : Z) (p : PoolState) : PoolState :=
  mkPoolState (pool_registered_at p) n (pool_stake p) (pool_voting_stake p) (pool_margin p) (parameters p) (fallback_drep p).
Definition set_fallback_drep (d : option DRep) (p : PoolState) : PoolState :=
  mkPoolState (pool_registered_at p) (blocks_count p) (pool_stake p) (pool_voting_stake p) (pool_margin p) (parameters p) d.

(** ** Accounts and representatives *)

Record AccountState := mkAccountState {
  balance : Z; rewards : Z; account_pool : option PoolId; account_drep : option DRep }.
Definition AccountState_default : AccountState := mkAccountState 0 0 None None.
Definition with_rewards (n : Z) (a : AccountState) : AccountState :=
  mkAccountState (balance a) n (account_pool a) (account_drep a).
Definition with_balance (n : Z) (a : AccountState) : AccountState :=
  mkAccountState n (rewards a) (account_pool a) (account_drep a).

Record DRepState := mkDRepState {
  drep_metadata : option Anchor;
  drep_valid_until : option Z;
  drep_voting_stake : Z;
  drep_registered_at : CertificatePointer }.
Definition set_drep_stake (n : Z) (d : DRepState) : DRepState :=
  mkDRepState (drep_metadata d) (drep_valid_until d) n (drep_registered_at d).

(** [self.valid_until.is_none() || self.valid_until > Some(epoch)]. *)
Definition is_active (epoch : Z) (st : DRepState) : bool :=
  match drep_valid_until st with None => true | Some v => epoch <? v end.

(** Script hashes come first, then the bytes. *)
Definition Credential_cmp (a b : Credential) : comparison :=
  match a, b with
  | ScriptHash x, ScriptHash y | KeyHash x, KeyHash y => bytes_compare x y
  | ScriptHash _, KeyHash _ => Lt
  | KeyHash _, ScriptHash _ => Gt
  end.
#[export] Program Instance Credential_order : TotalOrder Credential := {| cmp := Credential_cmp |}.
Next Obligation.
  intros [x|x] [y|y]; cbn; try (split; [discriminate|congruence]);
    rewrite bytes_compare_eq; split; [by intros ->|by intros [=]|by intros ->|by intros [=]].
Qed.
Next Obligation. intros [x|x] [y|y]; cbn; try done; apply bytes_compare_antisym. Qed.
Next Obligation. intros [x|x] [y|y] [z|z]; cbn; try done; apply bytes_compare_trans. Qed.

(** ** Distributions *)

Record StakeDistribution := mkStakeDistribution {
  sd_epoch : Z;
  sd_treasury : Z;
  sd_reserves : Z;
  active_stake : Z;
  pools_voting_stake : Z;
  dreps_voting_stake : Z;
  pools : gmap PoolId PoolState;
  dreps : gmap DRep DRepState;
  cc_update : option ConstitutionalCommitteeUpdate }.

Record Pots := mkPots { treasury : Z; reserves : Z; fees : Z; donations : Z }.

(** ** Sums *)

Definition stake_of {A} (stake : A → Z) (l : list A) : Z := foldr Z.add 0 (map stake l).

Lemma stake_nonneg {A} (stake : A → Z) l : Forall (λ x, 0 <= stake x) l → 0 <= stake_of stake l.
Proof. unfold stake_of. induction 1; cbn; lia. Qed.
Lemma stake_of_cons {A} (f : A → Z) x l : stake_of f (x :: l) = f x + stake_of f l.
Proof. done. Qed.
Lemma stake_of_app {A} (f : A → Z) l1 l2 : stake_of f (l1 ++ l2) = stake_of f l1 + stake_of f l2.
Proof. induction l1 as [|x l1 IH]; [done|]. cbn [app]. rewrite !stake_of_cons, IH. lia. Qed.
Lemma stake_of_perm {A} (f : A → Z) l1 l2 : l1 ≡ₚ l2 → stake_of f l1 = stake_of f l2.
Proof. unfold stake_of. induction 1; cbn; lia. Qed.
Lemma stake_of_ext {A} (f g : A → Z) l : (∀ x, x ∈ l → f x = g x) → stake_of f l = stake_of g l.
Proof.
  induction l as [|x l IH]; intros Hfg; [done|]. rewrite !stake_of_cons, Hfg by left. f_equal.
  apply IH. intros. apply Hfg. by right.
Qed.
Lemma stake_of_0 {A} (l : list A) : stake_of (λ _, 0) l = 0.
Proof. induction l as [|x l IH]; [done|]. by rewrite stake_of_cons, IH. Qed.
Lemma stake_of_plus {A} (f g : A → Z) l : stake_of (λ x, f x + g x) l = stake_of f l + stake_of g l.
Proof. induction l as [|x l IH]; [done|]. rewrite !stake_of_cons, IH. lia. Qed.
Lemma stake_of_le {A} (f g : A → Z) l : (∀ x, x ∈ l → f x <= g x) → stake_of f l <= stake_of g l.
Proof.
  induction l as [|x l IH]; intros Hfg; [done|]. rewrite !stake_of_cons. pose proof (Hfg x ltac:(left)).
  pose proof (IH ltac:(intros; apply Hfg; by right)). lia.
Qed.
Lemma stake_of_map {A B} (f : B → Z) (g : A → B) l : stake_of f (map g l) = stake_of (λ x, f (g x)) l.
Proof. unfold stake_of. by rewrite map_map. Qed.
Lemma stake_of_elem {A} (f : A → Z) l x : Forall (λ x, 0 <= f x) l → x ∈ l → 0 <= f x <= stake_of f l.
Proof.
  intros Hf Hx. induction Hf as [|y l Hy Hl IH]; [by apply elem_of_nil in Hx|]. rewrite stake_of_cons.
  pose proof (stake_nonneg f l Hl). apply elem_of_cons in Hx as [->|Hx]; [lia|]. specialize (IH Hx). lia.
Qed.

(** Sums over the values of a table. *)
Section SumMap.
Context {K : Type} `{Countable K} {A : Type}.
Implicit Types (f : A → Z) (m : gmap K A).

Definition total f m : Z := stake_of (λ kv, f kv.2) (map_to_list m).

Lemma Forall_values (P : A → Prop) m : map_Forall (λ _ a, P a) m → Forall (λ kv, P kv.2) (map_to_list m).
Proof. intros Hm. apply Forall_forall. intros [k a] Hka. apply elem_of_map_to_list in Hka. by apply (Hm k a). Qed.
Lemma total_empty f : total f ∅ = 0.
Proof. unfold total. by rewrite map_to_list_empty. Qed.
Lemma total_insert_new f m k a : m !! k = None → total f (<[k := a]> m) = f a + total f m.
Proof. intros Hk. unfold total. by rewrite (stake_of_perm _ _ _ (map_to_list_insert m k a Hk)). Qed.
Lemma total_delete f m k a : m !! k = Some a → total f m = f a + total f (delete k m).
Proof.
  intros Hk. rewrite <- (insert_delete_id m k a Hk) at 1. rewrite total_insert_new; [done|by rewrite lookup_delete_eq].
Qed.
Lemma total_insert_old f m k a b : m !! k = Some a → total f (<[k := b]> m) = total f m - f a + f b.
Proof.
  intros Hk. rewrite <- insert_delete_eq, total_insert_new by (by rewrite lookup_delete_eq).
  rewrite (total_delete f m k a Hk). lia.
Qed.
Lemma total_alter f (g : A → A) m k : (∀ a, f (g a) = f a) → total f (alter g k m) = total f m.
Proof.
  intros Hg. rewrite alter_alt. destruct (m !! k) as [a|] eqn:Hk; [|done]. rewrite (total_insert_old f m k a _ Hk), Hg. lia.
Qed.
Lemma total_nonneg f m : map_Forall (λ _ a, 0 <= f a) m → 0 <= total f m.
Proof. intros Hm. by apply stake_nonneg, (Forall_values (λ a, 0 <= f a)). Qed.
Lemma total_lookup f m k a : map_Forall (λ _ a, 0 <= f a) m → m !! k = Some a → 0 <= f a <= total f m.
Proof.
  intros Hm Hk. rewrite (total_delete f m k a Hk). pose proof (total_nonneg f (delete k m) (map_Forall_delete _ _ _ Hm)).
  pose proof (Hm k a Hk) as Hf. cbn beta in Hf. lia.
Qed.
Lemma total_ext f (g : A → Z) m : (∀ k a, m !! k = Some a → f a = g a) → total f m = total g m.
Proof. intros Hfg. apply stake_of_ext. intros [k a] Hka. apply elem_of_map_to_list in Hka. by apply (Hfg k a). Qed.
Lemma total_fmap f (g : A → A) m : total f (g <$> m) = total (λ a, f (g a)) m.
Proof. unfold total. rewrite map_to_list_fmap. unfold stake_of. f_equal. rewrite <- list_fmap_compose. done. Qed.
Lemma total_plus f (g : A → Z) m : total (λ a, f a + g a) m = total f m + total g m.
Proof. unfold total. by rewrite stake_of_plus. Qed.
Lemma total_le f (g : A → Z) m : (∀ k a, m !! k = Some a → f a <= g a) → total f m <= total g m.
Proof. intros Hfg. apply stake_of_le. intros [k a] Hka. apply elem_of_map_to_list in Hka. by apply (Hfg k a). Qed.
Lemma total_omap f (g : A → option A) m : total f (omap g m) = total (λ a, from_option f 0 (g a)) m.
Proof.
  induction m as [|k a m Hk IH] using map_ind; [by rewrite omap_empty, !total_empty|].
  rewrite (total_insert_new _ m k a Hk), <- IH. destruct (g a) as [b|] eqn:Hg; cbn [from_option].
  - rewrite (omap_insert_Some g m k a b Hg), total_insert_new; [done|]. by rewrite lookup_omap, Hk.
  - rewrite (omap_insert_None g m k a Hg), delete_id; [done|]. by rewrite lookup_omap, Hk.
Qed.
(** Values that do not count may come and go. *)
Lemma total_zero f m : (∀ k, from_option f 0 (m !! k) = 0) → total f m = 0.
Proof.
  intros H0. rewrite (total_ext f (λ _, 0)).
  - apply stake_of_0.
  - intros k a Hk. specialize (H0 k). by rewrite Hk in H0.
Qed.
Lemma total_view f m : ∀ m' : gmap K A, (∀ k, from_option f 0 (m !! k) = from_option f 0 (m' !! k)) → total f m = total f m'.
Proof.
  induction m as [|k a m Hk IH] using map_ind; intros m' Hv.
  { rewrite total_empty. symmetry. apply total_zero. intros k. by rewrite <- Hv, lookup_empty. }
  rewrite total_insert_new by done. pose proof (Hv k) as Ha. rewrite lookup_insert_eq in Ha. cbn [from_option] in Ha.
  assert (∀ i, from_option f 0 (m !! i) = from_option f 0 (delete k m' !! i)) as Hd.
  { intros i. destruct (decide (k = i)) as [<-|Hne]; [by rewrite Hk, lookup_delete_eq|].
    specialize (Hv i). by rewrite lookup_insert_ne in Hv by done; rewrite lookup_delete_ne. }
  rewrite (IH _ Hd). destruct (m' !! k) as [b|] eqn:Hb; cbn [from_option] in Ha.
  - rewrite (total_delete f m' k b Hb). lia.
  - rewrite delete_id by done. lia.
Qed.
End SumMap.

(** Distinct keys do not share their amounts. *)
Lemma total_distinct {K : Type} `{Countable K} {A : Type} (w : gmap K Z) (l : list (K * A)) :
  map_Forall (λ _ n, 0 <= n) w → NoDup (map fst l) →
  stake_of (λ kv, default 0 (w !! kv.1)) l <= total (λ n, n) w.
Proof.
  revert w. induction l as [|[k a] l IH]; intros w Hw Hnd.
  { change (0 <= total (λ n, n) w). by apply total_nonneg. }
  cbn [map fst] in Hnd. apply NoDup_cons in Hnd as [Hk Hnd]. rewrite stake_of_cons. cbn [fst].
  assert (stake_of (λ kv, default 0 (w !! kv.1)) l = stake_of (λ kv, default 0 (delete k w !! kv.1)) l) as ->.
  { apply stake_of_ext. intros [k' a'] Hin. cbn [fst]. rewrite lookup_delete_ne; [done|].
    intros ->. apply Hk, list_elem_of_fmap. by exists (k', a'). }
  specialize (IH (delete k w) (map_Forall_delete _ _ _ Hw) Hnd). destruct (w !! k) as [n|] eqn:Hn; cbn [default from_option id].
  - rewrite (total_delete (λ n, n) w k n Hn). lia.
  - rewrite delete_id in * by done. lia.
Qed.
Lemma total_list_to_map {K : Type} `{Countable K} {A : Type} (f : A → Z) (l : list (K * A)) : NoDup (map fst l) →
  total f (list_to_map l : gmap K A) = stake_of (λ kv, f kv.2) l.
Proof. intros Hnd. unfold total. apply stake_of_perm. by apply map_to_list_to_map. Qed.

(** A vector of pairs, as a map. *)
Lemma stake_of_to_map {A : Type} (f : A → Z) (l : list (Credential * A)) : SortedPairs.ascending l →
  stake_of (λ kv, f kv.2) l = total f (SortedPairs.to_map l).
Proof. intros Hl. unfold total. symmetry. apply stake_of_perm. by apply SortedPairs.to_map_perm. Qed.

(** ** Amounts by credential *)

(** [entry(credential).and_modify(|balance| *balance += amount).or_insert(amount)]. *)
Definition credit {E : Type} (w : gmap Credential Z) (x : Credential * Z) : exec E (gmap Credential Z) :=
  let '(credential, amount) := x in
  match w !! credential with
  | Some balance => b ← u64_add balance amount; Ok (<[credential := b]> w)
  | None => Ok (<[credential := amount]> w)
  end.

Definition nonneg (w : gmap Credential Z) : Prop := map_Forall (λ _ n, 0 <= n) w.
Definition sum_amounts (w : gmap Credential Z) : Z := total (λ n, n) w.
(** [get(credential).copied().unwrap_or_default()]. *)
Definition amount_of (w : gmap Credential Z) (k : Credential) : Z := default 0 (w !! k).
(** The part of a payment that goes to a credential. *)
Definition paid_to (k : Credential) (x : Credential * Z) : Z := if decide (x.1 = k) then x.2 else 0.

Lemma amount_of_nonneg w k : nonneg w → 0 <= amount_of w k <= sum_amounts w.
Proof.
  intros Hw. unfold amount_of. destruct (w !! k) as [n|] eqn:Hk; cbn.
  - by apply (total_lookup (λ n, n) w k).
  - pose proof (total_nonneg (λ n, n) w Hw). unfold sum_amounts. lia.
Qed.

Lemma credit_one {E : Type} w x : nonneg w → 0 <= x.2 → sum_amounts w + x.2 <= u64_max →
  ∃ w', credit (E := E) w x = Ok w' ∧ nonneg w' ∧ sum_amounts w' = sum_amounts w + x.2 ∧
    ∀ k, amount_of w' k = amount_of w k + paid_to k x.
Proof.
  intros Hw Hn Hmax. destruct x as [k n]. cbn [snd] in *. unfold credit, sum_amounts, amount_of, paid_to in *. cbn [fst snd].
  assert (∀ b, default 0 (w !! k) = b → ∀ k', default 0 (<[k := b + n]> w !! k') =
    default 0 (w !! k') + (if decide (k = k') then n else 0)) as Hk'.
  { intros b Hb k'. case_decide; [subst k'; rewrite lookup_insert_eq; cbn; lia|]. rewrite lookup_insert_ne by done. lia. }
  destruct (w !! k) as [b|] eqn:Hk.
  - pose proof (total_lookup (λ n, n) w k b Hw Hk). unfold u64_add. rewrite (proj2 (Z.leb_le _ _)) by lia. cbn [mbind exec_bind].
    eexists. split; [done|]. split; [apply map_Forall_insert_2; [lia|done]|].
    rewrite (total_insert_old _ w k b _ Hk). split; [lia|]. by apply Hk'.
  - eexists. split; [done|]. split; [apply map_Forall_insert_2; [lia|done]|].
    rewrite total_insert_new by done. split; [lia|]. by apply (Hk' 0).
Qed.

Lemma credit_all {E : Type} l w : nonneg w → Forall (λ x : Credential * Z, 0 <= x.2) l →
  sum_amounts w + stake_of snd l <= u64_max →
  ∃ w', for_in l (credit (E := E)) w = Ok w' ∧ nonneg w' ∧ sum_amounts w' = sum_amounts w + stake_of snd l ∧
    ∀ k, amount_of w' k = amount_of w k + stake_of (paid_to k) l.
Proof.
  intros Hw Hl. revert w Hw. induction Hl as [|x l Hx Hl IH]; intros w Hw Hmax; cbn [for_in].
  { exists w. unfold stake_of. cbn. repeat split; [done|lia|intros; lia]. }
  rewrite stake_of_cons in Hmax. pose proof (stake_nonneg _ _ Hl).
  destruct (credit_one (E := E) w x) as (w1 & -> & Hw1 & Hs1 & Hk1); [done|done|lia|].
  cbn [mbind exec_bind]. destruct (IH w1 Hw1) as (w2 & -> & Hw2 & Hs2 & Hk2); [lia|].
  exists w2. rewrite stake_of_cons. split; [done|]. split; [done|]. split; [lia|].
  intros k. rewrite stake_of_cons, Hk2, Hk1. lia.
Qed.

(** Distinct credentials do not share their amounts. *)
Lemma amounts_distinct {A : Type} w (l : list (Credential * A)) : nonneg w → NoDup (map fst l) →
  stake_of (λ kv, amount_of w kv.1) l <= sum_amounts w.
Proof. apply total_distinct. Qed.
