(* ===== verification/PoolsUpdates.v ===== *)
(** * Stake pools at an epoch boundary

    [amaru-ledger/src/epoch_transition/pools_updates.rs] and
    [pools_updates/pool_certificates.rs]: the certificates a pool has pending, what
    they come to at an epoch boundary, and the updates, retirements and refunds that
    follow; with [update_or_retire_pools] of [amaru-ledger/src/store/epoch_transition.rs],
    which writes them to the store.

    The theorems compare the registry, which forgets certificates as they take
    effect, with a replay of everything that was ever submitted. *)

From S2P Require Import Prelude UplcSyntax ProtocolParameters Governance Summary.

Module Pools.

(** ** Certificates *)

Inductive PoolCertificate := Registration (params : PoolParams) | Retirement (epoch : Z).

Record PendingPoolCertificates := mkPending {
  certificate : option PoolCertificate;
  next_certificates : list PoolCertificate;
  has_resolved_certificates : bool }.

(** One certificate of [pending_after], on the certificate in effect and those kept. *)
Definition pending_step (current_epoch : Z) (folded : option PoolCertificate * list PoolCertificate)
    (c : PoolCertificate) : option PoolCertificate * list PoolCertificate :=
  let '(certificate, next_certificates) := folded in
  match c with
  | Registration _ => (Some c, [])
  | Retirement effective_in =>
      if effective_in <=? current_epoch then (Some c, [])
      else (match certificate with Some (Retirement _) => None | _ => certificate end, next_certificates ++ [c])
  end.
Definition pending_after (current_epoch : Z) (self : list PoolCertificate) : PendingPoolCertificates :=
  let '(certificate, next_certificates) := foldl (pending_step current_epoch) (None, []) self in
  mkPending certificate next_certificates (length next_certificates <? length self)%nat.

Definition registration (p : PendingPoolCertificates) : option PoolParams :=
  match certificate p with Some (Registration params) => Some params | _ => None end.
Definition is_retiring (p : PendingPoolCertificates) : bool :=
  match certificate p with Some (Retirement _) => true | _ => false end.
Definition is_retiring_at (epoch : Z) (p : PendingPoolCertificates) : bool :=
  match certificate p with Some (Retirement e) => e =? epoch | _ => false end.

(** ** The registry *)

(** A row of the pools' column. *)
Record Pool := mkPool {
  registered_at : CertificatePointer;
  deposit : Z;
  current_params : PoolParams;
  pending_certificates : list PoolCertificate }.
Definition Pool_new (registered_at : CertificatePointer) (deposit : Z) (current_params : PoolParams) : Pool :=
  mkPool registered_at deposit current_params [].
Definition Pool_id (p : Pool) : PoolId := pool_id (current_params p).
Definition append (c : PoolCertificate) (p : Pool) : Pool :=
  mkPool (registered_at p) (deposit p) (current_params p) (pending_certificates p ++ [c]).

Record PoolsEpochTransitionUpdates := mkUpdates {
  retired : gset PoolId;
  updated : gmap PoolId Pool;
  refunds : gmap Credential Z }.
Definition Updates_default : PoolsEpochTransitionUpdates := mkUpdates ∅ ∅ ∅.

Definition refund (account : Credential) (u : PoolsEpochTransitionUpdates) : Z := default 0 (refunds u !! account).

Definition pool_is_retiring (epoch : Z) (pool : Pool) : bool := is_retiring (pending_after epoch (pending_certificates pool)).

Definition retire_pool {E : Type} (epoch : Z) (pool : Pool) (pending : PendingPoolCertificates)
    (self : PoolsEpochTransitionUpdates) : exec E PoolsEpochTransitionUpdates :=
  let account := account_credential (reward_account (current_params pool)) in
  refunded ← match refunds self !! account with
             | Some refunded => u64_add refunded (deposit pool)
             | None => Ok (deposit pool)
             end;
  if is_retiring_at epoch pending
  then Ok (mkUpdates ({[Pool_id pool]} ∪ retired self) (updated self) (<[account := refunded]> (refunds self)))
  else Panic.

(** Every parameter but the identifier is replaced. *)
Definition set_params (new_params current_params : PoolParams) : PoolParams :=
  mkPoolParams (pool_id current_params) (vrf new_params) (pledge new_params) (cost new_params) (margin new_params)
    (reward_account new_params) (owners new_params) (relays new_params) (metadata new_params).

Definition tick_pool {E : Type} (epoch : Z) (pool : Pool) (self : PoolsEpochTransitionUpdates)
  : exec E PoolsEpochTransitionUpdates :=
  let pending := pending_after epoch (pending_certificates pool) in
  if is_retiring pending then retire_pool epoch pool pending self
  else
    let id := Pool_id pool in
    let '(has_updated, params) :=
      match registration pending with
      | Some new_params => (true, set_params new_params (current_params pool))
      | None => (false, current_params pool)
      end in
    let pool' := mkPool (registered_at pool) (deposit pool) params (next_certificates pending) in
    if has_updated || has_resolved_certificates pending
    then Ok (mkUpdates (retired self) (<[id := pool']> (updated self)) (refunds self))
    else Ok self.

(** The pools in the order of their column. *)
Definition Updates_new {E : Type} (pools : list (PoolId * Pool)) (epoch : Z) : exec E PoolsEpochTransitionUpdates :=
  for_in pools (λ u p, tick_pool epoch p.2 u) Updates_default.

(** [update_or_retire_pools], on the pools' column. *)
Definition update_or_retire_pools (updates : gmap PoolId Pool) (retirements : gset PoolId) (pools : gmap PoolId Pool)
  : gmap PoolId Pool :=
  map_imap (λ id row, if decide (id ∈ retirements) then None
                      else match updates !! id with Some pool => Some pool | None => Some row end) pools.

(** [Row::extend]: a certificate of a registered pool is kept for the next boundary. *)
Definition extend (pools : gmap PoolId Pool) (c : PoolId * PoolCertificate) : gmap PoolId Pool :=
  alter (append c.2) c.1 pools.

(** A boundary: the updates are computed from the registry, and written to it. *)
Definition boundary {E : Type} (epoch : Z) (pools : gmap PoolId Pool)
  : exec E (PoolsEpochTransitionUpdates * gmap PoolId Pool) :=
  u ← Updates_new (map_to_list pools) epoch;
  Ok (u, update_or_retire_pools (updated u) (retired u) pools).

(** The epochs that follow [epoch], each with the certificates submitted in it. *)
Fixpoint epochs {E : Type} (epoch : Z) (pools : gmap PoolId Pool) (batches : list (list (PoolId * PoolCertificate)))
  : exec E (gmap PoolId Pool) :=
  match batches with
  | [] => Ok pools
  | batch :: rest =>
      r ← boundary (epoch + 1) (foldl extend pools batch);
      epochs (epoch + 1) r.2 rest
  end.

(** ** Specification: replay of the certificates *)

Definition latest (initial : PoolParams) (log : list PoolCertificate) : PoolParams :=
  foldl (λ p c, match c with Registration q => q | Retirement _ => p end) initial log.
(** A retirement stands unless something was submitted after it. *)
Definition retires (epoch : Z) (log : list PoolCertificate) : bool :=
  match last log with Some (Retirement at_) => at_ <=? epoch | _ => false end.

(** The parameters of a pool after the epochs, if it is still registered. *)
Fixpoint replay (epoch : Z) (initial : PoolParams) (log : list PoolCertificate) (batches : list (list PoolCertificate))
  : option PoolParams :=
  match batches with
  | [] => Some (latest initial log)
  | batch :: rest =>
      if retires (epoch + 1) (log ++ batch) then None else replay (epoch + 1) initial (log ++ batch) rest
  end.

Definition certificates_of (id : PoolId) (batch : list (PoolId * PoolCertificate)) : list PoolCertificate :=
  map snd (filter (λ c, c.1 = id) batch).

(** Pools retire at the earliest in the next epoch, and registrations are their own. *)
Definition timely (epoch : Z) (id : PoolId) (c : PoolCertificate) : Prop :=
  match c with Registration p => pool_id p = id | Retirement at_ => epoch < at_ end.

(** Within an epoch, no retirement of the next boundary comes between a registration
    and a retirement further away. *)
Definition undisturbed (epoch : Z) (batch : list PoolCertificate) : Prop :=
  ∀ l1 p l2 a l3 b l4, batch = l1 ++ Registration p :: l2 ++ Retirement a :: l3 ++ Retirement b :: l4 →
  a <= epoch → b <= epoch.

(** ** What is pending *)

Definition is_retirement (c : PoolCertificate) : Prop := match c with Retirement _ => True | _ => False end.
Definition after (epoch : Z) (c : PoolCertificate) : Prop := match c with Retirement e => epoch < e | _ => False end.

Definition last_registration (l : list PoolCertificate) : option PoolParams :=
  foldl (λ o c, match c with Registration p => Some p | _ => o end) None l.
Lemma last_registration_snoc l c : last_registration (l ++ [c]) =
  match c with Registration p => Some p | _ => last_registration l end.
Proof. unfold last_registration. by rewrite foldl_app. Qed.
Lemma last_registration_Some l p : last_registration l = Some p → ∃ l1 l2, l = l1 ++ Registration p :: l2.
Proof.
  induction l as [|c l IH] using rev_ind; [done|]. rewrite last_registration_snoc. destruct c as [q|e].
  - intros [= ->]. by exists l, [].
  - intros (l1 & l2 & ->)%IH. exists l1, (l2 ++ [Retirement e]). by rewrite <- app_assoc.
Qed.
Lemma last_registration_retirements l : Forall is_retirement l → last_registration l = None.
Proof.
  intros Hl. destruct (last_registration l) as [p|] eqn:Hp; [|done].
  apply last_registration_Some in Hp as (l1 & l2 & ->). rewrite Forall_app, Forall_cons in Hl. naive_solver.
Qed.
Lemma latest_snoc i l c : latest i (l ++ [c]) = match c with Registration p => p | _ => latest i l end.
Proof. unfold latest. by rewrite foldl_app. Qed.
Lemma latest_app i l1 l2 : latest i (l1 ++ l2) = latest (latest i l1) l2.
Proof. unfold latest. by rewrite foldl_app. Qed.
Lemma latest_last_registration i l : latest i l = default i (last_registration l).
Proof.
  induction l as [|c l IH] using rev_ind; [done|]. rewrite latest_snoc, last_registration_snoc. by destruct c.
Qed.

(** What [pending_after] leaves of certificates that start with retirements. *)
Record folded_ok (epoch : Z) (pending l : list PoolCertificate) (cert : option PoolCertificate) (next : list PoolCertificate)
  : Prop := {
  fk_cert : cert = if retires epoch (pending ++ l) then last (pending ++ l)
                   else Registration <$> last_registration l;
  fk_next : Forall (after epoch) next;
  fk_last : last next = match last (pending ++ l) with
                        | Some (Retirement a) => if a <=? epoch then None else Some (Retirement a)
                        | _ => None
                        end }.

Lemma retires_snoc epoch l c : retires epoch (l ++ [c]) = match c with Retirement a => a <=? epoch | _ => false end.
Proof. unfold retires. rewrite last_snoc. by destruct c. Qed.

(** A registration that a retirement at the boundary follows is not followed by a
    later one. *)
Lemma not_lost epoch pending l a : Forall is_retirement pending → undisturbed epoch (l ++ [Retirement a]) →
  epoch < a → retires epoch (pending ++ l) = true → last_registration l = None.
Proof.
  intros Hp Hu Ha Hr. destruct (last_registration l) as [p|] eqn:Hl; [|done]. exfalso.
  apply last_registration_Some in Hl as (l1 & l2 & ->).
  destruct l2 as [|c l2 _] using rev_ind; unfold retires in Hr.
  - rewrite app_assoc, last_snoc in Hr. done.
  - rewrite app_comm_cons, !app_assoc, last_snoc in Hr. destruct c as [|e]; [done|]. apply Z.leb_le in Hr.
    assert (a <= epoch); [|lia]. apply (Hu l1 p l2 e [] a []); [|done]. rewrite <- !app_assoc. cbn. by rewrite <- app_assoc.
Qed.

Lemma folded_step epoch pending l c cert next : Forall is_retirement pending → undisturbed epoch (l ++ [c]) →
  folded_ok epoch pending l cert next →
  folded_ok epoch pending (l ++ [c]) (pending_step epoch (cert, next) c).1 (pending_step epoch (cert, next) c).2.
Proof.
  intros Hp Hu [Hc Hn Hlast].
  destruct c as [p|a]; cbn [pending_step fst snd]; [|case_bool]; cbn [fst snd].
  - by split; rewrite ?app_assoc, ?retires_snoc, ?last_registration_snoc, ?last_snoc.
  - by split; rewrite ?app_assoc, ?retires_snoc, ?last_snoc; rewrite ?(proj2 (Z.leb_le _ _)) by done.
  - split; rewrite ?app_assoc, ?retires_snoc, ?last_registration_snoc, ?last_snoc, ?(proj2 (Z.leb_gt _ _)) by done.
    + subst cert. destruct (retires epoch (pending ++ l)) eqn:Hr.
      * rewrite (not_lost epoch pending l a) by (by try lia).
        unfold retires in Hr. destruct (last (pending ++ l)) as [[]|]; done.
      * destruct (last_registration l); done.
    + apply Forall_app. split; [done|]. constructor; [done|constructor].
    + done.
Qed.

Lemma folded_pending epoch pending : Forall is_retirement pending →
  folded_ok epoch pending [] (foldl (pending_step epoch) (None, []) pending).1 (foldl (pending_step epoch) (None, []) pending).2.
Proof.
  induction pending as [|c l IH] using rev_ind; intros Hp; [by split|].
  apply Forall_app in Hp as [Hp [Hc _]%Forall_cons]. specialize (IH Hp). rewrite foldl_app. cbn [foldl].
  destruct (foldl _ _ l) as [cert next]. cbn [fst snd] in IH.
  destruct (folded_step epoch [] l c cert next) as [H1 H2 H3].
  - constructor.
  - intros l1 p l2 a l3 b l4 Heq. exfalso. assert (Registration p ∈ l ++ [c]) as Hin by (rewrite Heq; set_solver).
    apply elem_of_app in Hin as [Hin|<-%list_elem_of_singleton]; [|done].
    rewrite Forall_forall in Hp. by apply Hp in Hin.
  - destruct IH as [H1 H2 H3]. rewrite app_nil_r in *. split; [|done..]. cbn [app]. rewrite H1.
    by rewrite (last_registration_retirements l Hp).
  - split; [|done|by rewrite app_nil_r]. rewrite app_nil_r. rewrite H1. cbn [app].
    rewrite last_registration_snoc, (last_registration_retirements l Hp). by destruct c.
Qed.

Lemma undisturbed_prefix epoch l1 l2 : undisturbed epoch (l1 ++ l2) → undisturbed epoch l1.
Proof.
  intros Hu k1 p k2 a k3 b k4 ->. apply (Hu k1 p k2 a k3 b (k4 ++ l2)). rewrite <- !app_assoc. cbn. rewrite <- !app_assoc.
  cbn. by rewrite <- !app_assoc.
Qed.

Lemma folded_all epoch pending l : Forall is_retirement pending → undisturbed epoch l →
  folded_ok epoch pending l (foldl (pending_step epoch) (None, []) (pending ++ l)).1
    (foldl (pending_step epoch) (None, []) (pending ++ l)).2.
Proof.
  intros Hp. induction l as [|c l IH] using rev_ind; intros Hu; [rewrite app_nil_r; by apply folded_pending|].
  rewrite app_assoc, foldl_app. cbn [foldl]. specialize (IH (undisturbed_prefix _ _ _ Hu)).
  destruct (foldl _ _ (pending ++ l)) as [cert next]. by apply folded_step.
Qed.
(** Nothing is resolved only when nothing takes effect. *)
Lemma pending_length epoch l :
  (length (foldl (pending_step epoch) (None, []) l).2 <= length l)%nat ∧
  (length (foldl (pending_step epoch) (None, []) l).2 = length l → foldl (pending_step epoch) (None, []) l = (None, l)).
Proof.
  induction l as [|c l [IHle IHeq]] using rev_ind; [done|]. rewrite foldl_app, length_app. cbn [foldl length].
  destruct (foldl _ _ l) as [cert next]. cbn [snd] in *.
  destruct c as [p|a]; cbn [pending_step snd length]; [lia|]. case_bool; cbn [snd length]; [lia|].
  rewrite length_app. cbn. split; [lia|]. intros Hlen.
  assert (length next = length l) as Hl by lia. apply IHeq in Hl. by simplify_eq.
Qed.

(** ** A boundary, pool by pool *)

(** What becomes of a pool. *)
Definition outcome (epoch : Z) (pool : Pool) : option Pool :=
  let pending := pending_after epoch (pending_certificates pool) in
  if is_retiring pending then None
  else Some (mkPool (registered_at pool) (deposit pool)
    (match registration pending with Some p => set_params p (current_params pool) | None => current_params pool end)
    (next_certificates pending)).
Definition released (epoch : Z) (pool : Pool) : Z := if pool_is_retiring epoch pool then deposit pool else 0.
Definition released_to (epoch : Z) (account : Credential) (pool : Pool) : Z :=
  if decide (account_credential (reward_account (current_params pool)) = account) then released epoch pool else 0.

(** Where the updates leave a pool. *)
Definition applied (u : PoolsEpochTransitionUpdates) (id : PoolId) (pool : Pool) : option Pool :=
  if decide (id ∈ retired u) then None else match updated u !! id with Some p => Some p | None => Some pool end.

Definition on_time (epoch : Z) (c : PoolCertificate) : Prop := match c with Retirement e => epoch <= e | _ => True end.
Record pool_ok (epoch : Z) (id : PoolId) (pool : Pool) : Prop := {
  po_id : Pool_id pool = id;
  po_deposit : 0 <= deposit pool;
  po_time : Forall (on_time epoch) (pending_certificates pool) }.

Lemma pending_certificate epoch l c : (foldl (pending_step epoch) (None, []) l).1 = Some c →
  c ∈ l ∧ match c with Retirement e => e <= epoch | _ => True end.
Proof.
  induction l as [|x l IH] using rev_ind; [done|]. rewrite foldl_app. cbn [foldl].
  destruct (foldl _ _ l) as [cert next]. cbn [fst] in *. intros Hc.
  assert (Some c = Some x ∧ match x with Retirement e => e <= epoch | _ => True end ∨ cert = Some c) as [[[= ->] Hx]|Hcert].
  { destruct x as [p|a]; cbn [pending_step fst] in Hc; [by left|]. case_bool_in Hc; cbn [fst] in Hc; [by left|].
    right. destruct cert as [[]|]; done. }
  - split; [set_solver|done].
  - destruct (IH Hcert). split; [set_solver|done].
Qed.

Lemma retiring_at epoch id pool : pool_ok epoch id pool →
  pool_is_retiring epoch pool = true → is_retiring_at epoch (pending_after epoch (pending_certificates pool)) = true.
Proof.
  intros [_ _ Ht]. unfold pool_is_retiring, is_retiring, is_retiring_at, pending_after.
  destruct (foldl _ _ _) as [cert next] eqn:Hf. cbn [certificate]. intros Hc. destruct cert as [[|e]|]; try done.
  destruct (pending_certificate epoch (pending_certificates pool) (Retirement e)) as [Hin He]; [by rewrite Hf|].
  rewrite Forall_forall in Ht. apply Ht in Hin. cbn in Hin. apply Z.eqb_eq. lia.
Qed.

(** The effect of ticking one pool on the updates. *)
Record ticked (epoch : Z) (id : PoolId) (pool : Pool) (u u' : PoolsEpochTransitionUpdates) : Prop := {
  tk_others : ∀ i, i ≠ id → (i ∈ retired u' ↔ i ∈ retired u) ∧ updated u' !! i = updated u !! i;
  tk_applied : id ∉ retired u → updated u !! id = None → applied u' id pool = outcome epoch pool;
  tk_refund : ∀ a, refund a u' = refund a u + released_to epoch a pool;
  tk_total : total (λ n, n) (refunds u') = total (λ n, n) (refunds u) + released epoch pool;
  tk_nonneg : map_Forall (λ _ n, 0 <= n) (refunds u') }.

Lemma tick_retiring {E : Type} epoch id pool u : pool_ok epoch id pool → pool_is_retiring epoch pool = true →
  map_Forall (λ _ n, 0 <= n) (refunds u) → total (λ n, n) (refunds u) + deposit pool <= u64_max →
  ∃ u', tick_pool (E := E) epoch pool u = Ok u' ∧ ticked epoch id pool u u'.
Proof.
  intros Hok Hr Hnn Hmax. pose proof (retiring_at _ _ _ Hok Hr) as Hat. destruct Hok as [<- Hdep _].
  unfold tick_pool, retire_pool. cbv zeta. fold (pool_is_retiring epoch pool). rewrite Hr, Hat.
  set (account := account_credential (reward_account (current_params pool))).
  assert (∃ old, (match refunds u !! account with Some r => u64_add (E := E) r (deposit pool) | None => Ok (deposit pool) end)
    = Ok (old + deposit pool) ∧ refund account u = old ∧ 0 <= old ∧
    total (λ n, n) (<[account := old + deposit pool]> (refunds u)) = total (λ n, n) (refunds u) + deposit pool)
    as (old & -> & Hold & Hpos & Htot).
  { unfold refund. destruct (refunds u !! account) as [r|] eqn:Hl.
    - pose proof (total_lookup (λ n, n) _ _ _ Hnn Hl). exists r. unfold u64_add. rewrite (proj2 (Z.leb_le _ _)) by lia.
      split; [done|]. split; [done|]. split; [lia|]. rewrite (total_insert_old _ _ _ _ _ Hl). lia.
    - exists 0. split; [done|]. split; [done|]. split; [lia|]. rewrite total_insert_new by done. lia. }
  cbn [mbind exec_bind]. eexists. split; [done|].
  split; cbn [retired updated refunds].
  - intros i Hi. split; [set_solver|done].
  - intros _ _. unfold applied, outcome. cbn [retired]. rewrite decide_True by set_solver. cbv zeta.
    fold (pool_is_retiring epoch pool). by rewrite Hr.
  - intros a. unfold released_to, released, refund at 1. fold account. cbn [refunds]. rewrite Hr.
    case_decide; [subst a; rewrite lookup_insert_eq; cbn; lia|]. rewrite lookup_insert_ne by done. unfold refund. lia.
  - unfold released. by rewrite Hr.
  - apply map_Forall_insert_2; [lia|done].
Qed.

Lemma tick_staying {E : Type} epoch id pool u : pool_ok epoch id pool → pool_is_retiring epoch pool = false →
  map_Forall (λ _ n, 0 <= n) (refunds u) → ∃ u', tick_pool (E := E) epoch pool u = Ok u' ∧ ticked epoch id pool u u'.
Proof.
  intros [<- Hdep _] Hr Hnn. unfold tick_pool. cbv zeta. fold (pool_is_retiring epoch pool). rewrite Hr.
  assert (∀ a, released_to epoch a pool = 0) as Ha by (intros a; unfold released_to, released; rewrite Hr; by case_decide).
  assert (released epoch pool = 0) as H0 by (unfold released; by rewrite Hr).
  assert (∀ u', retired u' = retired u → refunds u' = refunds u →
    (∀ i, i ≠ Pool_id pool → updated u' !! i = updated u !! i) →
    (Pool_id pool ∉ retired u → updated u !! Pool_id pool = None → applied u' (Pool_id pool) pool = outcome epoch pool) →
    ticked epoch (Pool_id pool) pool u u') as Hbuild.
  { intros u' H1 H2 H3 H4. split; [intros i Hi; by rewrite H1, H3|done| | |by rewrite H2].
    - intros a. unfold refund. rewrite H2, Ha. lia.
    - rewrite H2, H0. lia. }
  destruct (match registration _ with Some _ => _ | None => _ end) as [has params] eqn:Hp.
  assert (outcome epoch pool = Some (mkPool (registered_at pool) (deposit pool) params
    (next_certificates (pending_after epoch (pending_certificates pool))))) as Hout.
  { unfold outcome. cbv zeta. fold (pool_is_retiring epoch pool). rewrite Hr. by destruct (registration _); simplify_eq. }
  destruct (has || _) eqn:Hh.
  - eexists. split; [done|]. apply Hbuild; cbn [retired updated refunds]; [done|done|intros; by rewrite lookup_insert_ne|].
    intros Hnr _. unfold applied. cbn [retired updated]. by rewrite decide_False, lookup_insert_eq.
  - exists u. split; [done|]. apply Hbuild; [done..|]. intros Hnr Hnu. unfold applied.
    rewrite decide_False, Hnu by done. rewrite Hout. apply orb_false_iff in Hh as [-> Hres].
    unfold registration, pending_after in *. pose proof (pending_length epoch (pending_certificates pool)) as [Hle Heq].
    destruct (foldl _ _ _) as [cert next]. cbn [snd has_resolved_certificates certificate next_certificates] in *.
    apply Nat.ltb_ge in Hres. assert (length next = length (pending_certificates pool)) as Hl by lia. apply Heq in Hl as [= -> ->].
    injection Hp as <-. by destruct pool.
Qed.

Lemma released_bound epoch id pool : pool_ok epoch id pool → 0 <= released epoch pool <= deposit pool.
Proof. intros [_ ? _]. unfold released. case_match; lia. Qed.

Lemma tick_one {E : Type} epoch id pool u : pool_ok epoch id pool → map_Forall (λ _ n, 0 <= n) (refunds u) →
  total (λ n, n) (refunds u) + deposit pool <= u64_max →
  ∃ u', tick_pool (E := E) epoch pool u = Ok u' ∧ ticked epoch id pool u u'.
Proof. destruct (pool_is_retiring epoch pool) eqn:Hr; intros; [by apply tick_retiring|by apply tick_staying]. Qed.

(** The effect of ticking all pools. *)
Lemma tick_all {E : Type} epoch (l : list (PoolId * Pool)) u : NoDup (map fst l) →
  (∀ id pool, (id, pool) ∈ l → pool_ok epoch id pool) → map_Forall (λ _ n, 0 <= n) (refunds u) →
  total (λ n, n) (refunds u) + stake_of (λ p, deposit p.2) l <= u64_max →
  ∃ u', for_in (E := E) l (λ u p, tick_pool epoch p.2 u) u = Ok u' ∧
    (∀ i, i ∉ map fst l → (i ∈ retired u' ↔ i ∈ retired u) ∧ updated u' !! i = updated u !! i) ∧
    (∀ id pool, (id, pool) ∈ l → id ∉ retired u → updated u !! id = None → applied u' id pool = outcome epoch pool) ∧
    (∀ a, refund a u' = refund a u + stake_of (λ p, released_to epoch a p.2) l) ∧
    total (λ n, n) (refunds u') = total (λ n, n) (refunds u) + stake_of (λ p, released epoch p.2) l.
Proof.
  revert u. induction l as [|[id pool] l IH]; intros u Hnd Hok Hnn Hmax.
  { exists u. cbn. repeat split; try done; try (intros; unfold stake_of; cbn; lia). by intros ? ? ?%elem_of_nil. }
  apply NoDup_cons in Hnd as [Hid Hnd]. cbn [map fst] in Hid. rewrite stake_of_cons in Hmax. cbn [snd] in Hmax.
  assert (Forall (λ p : PoolId * Pool, 0 <= deposit p.2) l) as Hdep.
  { apply Forall_forall. intros [i p] Hi. apply (Hok i p). by right. }
  pose proof (stake_nonneg _ _ Hdep).
  assert (pool_ok epoch id pool) as Hpool by (apply Hok; left).
  destruct (tick_one (E := E) epoch id pool u) as (u1 & Htick & [Hothers Happlied Hrefund Htotal Hnn1]); [done|done|lia|].
  pose proof (released_bound _ _ _ Hpool).
  destruct (IH u1) as (u2 & Hfor & Hframe & Happ & Href & Htot); [done|intros; apply Hok; by right|done|lia|].
  exists u2. cbn [for_in snd]. rewrite Htick. cbn [mbind exec_bind]. split; [done|]. split; [|split; [|split]].
  - intros i Hi. apply not_elem_of_cons in Hi as [Hne Hi]. cbn [fst] in Hne.
    destruct (Hframe i Hi) as [-> ->]. by apply Hothers.
  - intros i p [[= -> ->]|Hin]%elem_of_cons Hnr Hnu.
    + rewrite <- Happlied by done. unfold applied. destruct (Hframe id Hid) as [Hr ->].
      destruct (decide (id ∈ retired u1)); [by rewrite decide_True by tauto|by rewrite decide_False by tauto].
    + assert (i ≠ id) as Hne by (intros ->; apply Hid, list_elem_of_fmap; by exists (id, p)).
      destruct (Hothers i Hne) as [Hr Hu]. apply Happ; [done|tauto|congruence].
  - intros a. rewrite Href, Hrefund, stake_of_cons. cbn [snd]. lia.
  - rewrite Htot, Htotal, stake_of_cons. cbn [snd]. lia.
Qed.

(** The registry after a boundary: each pool has its own outcome, whatever the
    others. *)
Lemma boundary_outcomes {E : Type} (epoch : Z) (pools : gmap PoolId Pool) :
  map_Forall (pool_ok epoch) pools → total deposit pools <= u64_max →
  ∃ u pools', boundary (E := E) epoch pools = Ok (u, pools') ∧ (∀ id, pools' !! id = pools !! id ≫= outcome epoch) ∧
    (∀ a, refund a u = total (released_to epoch a) pools) ∧ total (λ n, n) (refunds u) = total (released epoch) pools.
Proof.
  intros Hok Hmax. unfold boundary, Updates_new.
  destruct (tick_all (E := E) epoch (map_to_list pools) Updates_default) as (u & -> & _ & Happ & Href & Htot).
  - apply NoDup_fst_map_to_list.
  - intros id pool Hin. apply Hok. by apply elem_of_map_to_list.
  - apply map_Forall_empty.
  - cbn. rewrite total_empty. exact Hmax.
  - cbn [mbind exec_bind]. eexists _, _. split; [done|]. split; [|split].
    + intros id. unfold update_or_retire_pools. rewrite map_lookup_imap. destruct (pools !! id) as [pool|] eqn:Hp; [|done].
      cbn. apply elem_of_map_to_list in Hp. rewrite <- (Happ id pool Hp) by (by cbn; rewrite ?lookup_empty). done.
    + intros a. rewrite Href. unfold refund. cbn [refunds Updates_default]. by rewrite lookup_empty.
    + rewrite Htot. cbn [refunds Updates_default]. by rewrite total_empty.
Qed.

(** ** Epochs *)

(** A row, between two boundaries, against the certificates submitted so far. *)
Record row_ok (epoch : Z) (id : PoolId) (initial : PoolParams) (log : list PoolCertificate) (pool : Pool) : Prop := {
  rk_id : Pool_id pool = id;
  rk_deposit : 0 <= deposit pool;
  rk_params : current_params pool = latest initial log;
  rk_pending : Forall (after epoch) (pending_certificates pool);
  rk_last : last (pending_certificates pool) = match last log with Some (Retirement a) => Some (Retirement a) | _ => None end }.

Lemma foldl_append l pool : foldl (flip append) pool l =
  mkPool (registered_at pool) (deposit pool) (current_params pool) (pending_certificates pool ++ l).
Proof.
  revert pool. induction l as [|c l IH]; intros pool; cbn [foldl]; [rewrite app_nil_r; by destruct pool|].
  rewrite IH. cbn. by rewrite <- app_assoc.
Qed.

Lemma last_app_replace {A} (l1 l1' l2 : list A) : last l1 = last l1' → last (l1 ++ l2) = last (l1' ++ l2).
Proof. intros Hl. by rewrite !last_app, Hl. Qed.

Lemma row_retires epoch id initial log pool batch : row_ok epoch id initial log pool →
  retires (epoch + 1) (pending_certificates pool ++ batch) = retires (epoch + 1) (log ++ batch).
Proof.
  intros [_ _ _ _ Hlast]. unfold retires. rewrite !last_app. destruct (last batch); [done|]. rewrite Hlast.
  by destruct (last log) as [[]|].
Qed.

Lemma set_params_own p q : pool_id p = pool_id q → set_params p q = p.
Proof. destruct p, q. cbn. by intros ->. Qed.

Lemma latest_id id i l : pool_id i = id → Forall (λ c, match c with Registration p => pool_id p = id | _ => True end) l →
  pool_id (latest i l) = id.
Proof.
  intros Hi. induction l as [|c l IH] using rev_ind; [done|]. rewrite Forall_app, Forall_cons, latest_snoc.
  intros [Hl [Hc _]]. destruct c; auto.
Qed.

(** The row after the boundary that ends an epoch. *)
Lemma row_step epoch id initial log pool batch : row_ok epoch id initial log pool →
  Forall (timely epoch id) batch → undisturbed (epoch + 1) batch →
  let pool' := foldl (flip append) pool batch in
  pool_ok (epoch + 1) id pool' ∧
  if retires (epoch + 1) (log ++ batch) then outcome (epoch + 1) pool' = None
  else ∃ pool'', outcome (epoch + 1) pool' = Some pool'' ∧ row_ok (epoch + 1) id initial (log ++ batch) pool''.
Proof.
  intros Hrow Ht Hu pool'. pose proof (row_retires _ _ _ _ _ batch Hrow) as Hret.
  destruct Hrow as [Hid Hdep Hpar Hpen Hlast]. unfold pool'. rewrite foldl_append.
  assert (Forall is_retirement (pending_certificates pool)) as Hp by (eapply Forall_impl; [exact Hpen|]; by intros []).
  pose proof (folded_all (epoch + 1) (pending_certificates pool) batch Hp Hu) as Hfold.
  split.
  { split; [exact Hid|exact Hdep|]. apply Forall_app. split.
    - eapply Forall_impl; [exact Hpen|]. intros []; cbn; [done|lia].
    - eapply Forall_impl; [exact Ht|]. intros []; cbn; [done|lia]. }
  unfold outcome. cbn [pending_certificates registered_at deposit current_params]. unfold pending_after.
  destruct (foldl (pending_step (epoch + 1)) (None, []) (pending_certificates pool ++ batch)) as [cert next];
  cbn [fst snd] in Hfold; destruct Hfold as [Hc Hn Hl]; cbv zeta; unfold is_retiring, registration.
  cbn [certificate next_certificates]. rewrite Hret in Hc. destruct (retires (epoch + 1) (log ++ batch)) eqn:Hr.
  - assert (∃ a, last (pending_certificates pool ++ batch) = Some (Retirement a)) as [a Ha].
    { unfold retires in Hret. destruct (last (pending_certificates pool ++ batch)) as [[]|]; eauto; discriminate Hret. }
    by rewrite Hc, Ha.
  - subst cert.
    replace (match Registration <$> last_registration batch with Some (Retirement _) => true | _ => false end) with false
      by (by destruct (last_registration batch)).
    eexists. split; [done|]. split; cbn [Pool_id current_params deposit pending_certificates]; [|done| |done|].
    + unfold Pool_id. cbn [current_params]. by destruct (last_registration batch).
    + rewrite latest_app, <- Hpar, latest_last_registration. destruct (last_registration batch) as [q|] eqn:Hq; [|done].
      cbn. apply set_params_own. unfold Pool_id in Hid. rewrite Hid.
      apply last_registration_Some in Hq as (l1 & l2 & ->). rewrite Forall_app, Forall_cons in Ht. by destruct Ht as (_ & Hq & _).
    + rewrite Hl. unfold retires in Hr, Hret. rewrite !last_app in *. destruct (last batch) as [[q|a]|]; [done|by rewrite Hr|].
      rewrite Hlast in *. destruct (last log) as [[q|a]|]; [done|by rewrite Hr|done].
Qed.

Lemma certificates_of_cons id c batch : certificates_of id (c :: batch) =
  if decide (c.1 = id) then c.2 :: certificates_of id batch else certificates_of id batch.
Proof. unfold certificates_of. rewrite filter_cons. by case_decide. Qed.

Lemma foldl_extend (pools : gmap PoolId Pool) batch id :
  foldl extend pools batch !! id = (λ pool, foldl (flip append) pool (certificates_of id batch)) <$> pools !! id.
Proof.
  revert pools. induction batch as [|c batch IH]; intros pools; cbn [foldl].
  { by destruct (pools !! id). }
  rewrite IH, certificates_of_cons. unfold extend. case_decide as Hc.
  - subst id. rewrite lookup_alter_eq. by destruct (pools !! c.1).
  - by rewrite lookup_alter_ne.
Qed.

Lemma total_extend (pools : gmap PoolId Pool) batch : total deposit (foldl extend pools batch) = total deposit pools.
Proof.
  revert pools. induction batch as [|c batch IH]; intros pools; cbn [foldl]; [done|]. rewrite IH. by apply total_alter.
Qed.

Lemma outcome_deposit epoch pool : from_option deposit 0 (outcome epoch pool) + released epoch pool = deposit pool.
Proof.
  unfold outcome, released. cbv zeta. fold (pool_is_retiring epoch pool). destruct (pool_is_retiring epoch pool); cbn; lia.
Qed.
Lemma outcomes_deposit (epoch : Z) (pools pools' : gmap PoolId Pool) : (∀ id, pools' !! id = pools !! id ≫= outcome epoch) →
  total deposit pools' + total (released epoch) pools = total deposit pools.
Proof.
  intros Hout. replace pools' with (omap (outcome epoch) pools) by (apply map_eq; intros id; by rewrite lookup_omap, Hout).
  rewrite total_omap, <- total_plus. apply total_ext. intros id pool _. apply outcome_deposit.
Qed.

Fixpoint history_ok (epoch : Z) (batches : list (list (PoolId * PoolCertificate))) : Prop :=
  match batches with
  | [] => True
  | batch :: rest =>
      (∀ id c, (id, c) ∈ batch → timely epoch id c) ∧ (∀ id, undisturbed (epoch + 1) (certificates_of id batch)) ∧
      history_ok (epoch + 1) rest
  end.

Lemma certificates_timely epoch id batch : (∀ id c, (id, c) ∈ batch → timely epoch id c) →
  Forall (timely epoch id) (certificates_of id batch).
Proof.
  intros Ht. apply Forall_forall. intros c ([i c'] & -> & [Hi Hin]%list_elem_of_filter)%list_elem_of_fmap.
  cbn in Hi. subst i. by apply Ht.
Qed.

Lemma epochs_replay {E : Type} batches : ∀ (epoch : Z) (initial : PoolId → PoolParams) (logs : PoolId → list PoolCertificate)
    (pools : gmap PoolId Pool),
  (∀ id pool, pools !! id = Some pool → row_ok epoch id (initial id) (logs id) pool) → total deposit pools <= u64_max →
  history_ok epoch batches →
  ∃ pools', epochs (E := E) epoch pools batches = Ok pools' ∧
    ∀ id, current_params <$> pools' !! id =
      pools !! id ≫= λ _, replay epoch (initial id) (logs id) (map (certificates_of id) batches).
Proof.
  induction batches as [|batch rest IH]; intros epoch initial logs pools Hrows Hmax Hh; cbn [epochs map replay].
  { exists pools. split; [done|]. intros id. destruct (pools !! id) as [pool|] eqn:Hp; [|done]. cbn. f_equal.
    apply (rk_params _ _ _ _ _ (Hrows id pool Hp)). }
  destruct Hh as (Ht & Hu & Hh).
  pose proof (λ id pool Hp, row_step epoch id _ _ pool (certificates_of id batch) (Hrows id pool Hp)
    (certificates_timely _ _ _ Ht) (Hu id)) as Hstep. cbv zeta in Hstep.
  destruct (boundary_outcomes (E := E) (epoch + 1) (foldl extend pools batch)) as (u & pools1 & -> & Hout & _).
  { intros id pool'. rewrite foldl_extend. intros (pool & Hp & ->)%fmap_Some. by apply Hstep. }
  { by rewrite total_extend. }
  cbn [mbind exec_bind snd].
  assert (∀ id, pools1 !! id = pools !! id ≫= λ pool,
    outcome (epoch + 1) (foldl (flip append) pool (certificates_of id batch))) as Hout1.
  { intros id. rewrite Hout, foldl_extend. by destruct (pools !! id). }
  destruct (IH (epoch + 1) initial (λ id, logs id ++ certificates_of id batch) pools1) as (pools' & -> & Hres); [| |done|].
  - intros id pool1. rewrite Hout1. destruct (pools !! id) as [pool|] eqn:Hp; [|done]. cbn [mbind option_bind].
    destruct (Hstep id pool Hp) as [_ Hs]. destruct (retires _ _); [by rewrite Hs|]. destruct Hs as (p & -> & Hp').
    by intros [= <-].
  - pose proof (outcomes_deposit _ _ _ Hout) as Hd. rewrite total_extend in Hd.
    enough (0 <= total (released (epoch + 1)) (foldl extend pools batch)) by lia.
    apply total_nonneg. intros id pool'. rewrite foldl_extend. intros (pool & Hp & ->)%fmap_Some.
    by apply (released_bound _ id), Hstep.
  - exists pools'. split; [done|]. intros id. rewrite Hres, Hout1. destruct (pools !! id) as [pool|] eqn:Hp; [|done].
    cbn [mbind option_bind]. destruct (Hstep id pool Hp) as [_ Hs]. destruct (retires _ _); [by rewrite Hs|].
    by destruct Hs as (p & -> & _).
Qed.

(** C27: over any number of epochs, the registry, which forgets certificates as they
    take effect, agrees with a replay of all the certificates submitted: a pool is
    gone at the boundary its last certificate is a retirement due by then, and
    otherwise has the parameters of its last registration; provided that, within an
    epoch, no retirement of the next boundary comes between a registration and a
    retirement further away. No boundary panics. *)
Theorem pools_refine_replay {E : Type} (epoch : Z) (pools : gmap PoolId Pool) (batches : list (list (PoolId * PoolCertificate))) :
  map_Forall (λ id pool, Pool_id pool = id ∧ 0 <= deposit pool ∧ pending_certificates pool = []) pools →
  total deposit pools <= u64_max → history_ok epoch batches →
  ∃ pools', epochs (E := E) epoch pools batches = Ok pools' ∧
    ∀ id, current_params <$> pools' !! id =
      pools !! id ≫= λ pool, replay epoch (current_params pool) [] (map (certificates_of id) batches).
Proof.
  intros Hpools Hmax Hh.
  destruct (epochs_replay (E := E) batches epoch (λ id, from_option current_params (mkPoolParams [] [] 0 0 RationalNumber_zero
    (mkRewardAccount Mainnet (KeyHash [])) [] [] None) (pools !! id)) (λ _, []) pools) as (pools' & Hrun & Hres); [|done..|].
  - intros id pool Hp. destruct (Hpools id pool Hp) as (Hid & Hd & Hpen).
    split; [done|done|by rewrite Hp|by rewrite Hpen|by rewrite Hpen].
  - exists pools'. split; [done|]. intros id. rewrite Hres. destruct (pools !! id) as [pool|] eqn:Hp; [|done]. done.
Qed.

(** A boundary conserves deposits: what the retired pools had deposited is
    refunded, each to the reward account its pool has then, and the rest stays with
    the pools that remain. *)
Theorem pool_deposits_conserved {E : Type} (epoch : Z) (pools : gmap PoolId Pool) :
  map_Forall (pool_ok epoch) pools → total deposit pools <= u64_max →
  ∃ u pools', boundary (E := E) epoch pools = Ok (u, pools') ∧
    total deposit pools' + total (λ n, n) (refunds u) = total deposit pools ∧
    (∀ account, refund account u = total (released_to epoch account) pools) ∧
    ∀ id pool, pools !! id = Some pool → (pools' !! id = None ↔ pool_is_retiring epoch pool = true).
Proof.
  intros Hok Hmax. destruct (boundary_outcomes (E := E) epoch pools Hok Hmax) as (u & pools' & Hb & Hout & Href & Htot).
  exists u, pools'. split; [done|]. split; [rewrite Htot; by apply outcomes_deposit|]. split; [done|].
  intros id pool Hp. rewrite Hout, Hp. cbn. unfold outcome. cbv zeta. fold (pool_is_retiring epoch pool).
  by destruct (pool_is_retiring epoch pool).
Qed.

(** ** A pool *)
Module Sample.
Definition params (pledge : Z) : PoolParams :=
  mkPoolParams [7] [] pledge 170000000 RationalNumber_zero (mkRewardAccount Mainnet (KeyHash [1])) [[1]] [] None.
Definition pools : gmap PoolId Pool := {[ [7] := Pool_new (mkCertificatePointer 0 0 0) 500000000 (params 100) ]}.
End Sample.

(** A registration can be lost: submitted in an epoch, then followed in the same
    epoch by a retirement for the next boundary and by one for later, which takes its
    place, the pool stays but keeps its former parameters. *)
Theorem registration_lost :
  let batch := [([7], Registration (Sample.params 200)); ([7], Retirement 101); ([7], Retirement 105)] in
  match epochs (E := Empty_set) 100 Sample.pools [batch] with
  | Ok pools => (pledge ∘ current_params) <$> pools !! [7] = Some 100
  | _ => False
  end ∧ pledge <$> replay 100 (Sample.params 100) [] [certificates_of [7] batch] = Some 200.
Proof. vm_compute. done. Qed.

(** Two certificates or less cannot conflict. *)
Lemma undisturbed_short epoch l : (length l <= 2)%nat → undisturbed epoch l.
Proof.
  intros Hl l1 p l2 a l3 b l4 ->. rewrite length_app in Hl. cbn in Hl. rewrite length_app in Hl. cbn in Hl.
  rewrite length_app in Hl. cbn in Hl. lia.
Qed.
Lemma certificates_of_length id batch : (length (certificates_of id batch) <= length batch)%nat.
Proof. unfold certificates_of. rewrite length_map. apply length_filter. Qed.

(** A new registration, then a retirement two epochs later. *)
Lemma pools_refine_replay_witness : ∃ pools',
  epochs (E := Empty_set) 100 Sample.pools [[([7], Registration (Sample.params 200))]; [([7], Retirement 103)]; []; []] = Ok pools' ∧
  ∀ id, current_params <$> pools' !! id = Sample.pools !! id ≫= λ pool, replay 100 (current_params pool) []
    (map (certificates_of id) [[([7], Registration (Sample.params 200))]; [([7], Retirement 103)]; []; []]).
Proof.
  apply (pools_refine_replay 100 Sample.pools).
  - apply map_Forall_singleton. cbn. split; [done|]. split; [lia|done].
  - vm_compute. congruence.
  - cbn [history_ok]. repeat split; intros;
      try (apply undisturbed_short; etransitivity; [apply certificates_of_length|cbn; lia]);
      repeat match goal with
      | H : _ ∈ [] |- _ => by apply elem_of_nil in H
      | H : _ ∈ [_] |- _ => apply list_elem_of_singleton in H; injection H as -> ->
      end; cbn; done.
Defined.

Definition retiring_pools : gmap PoolId Pool := foldl extend Sample.pools [([7], Retirement 101)].
Lemma pool_deposits_conserved_witness : ∃ u pools', boundary (E := Empty_set) 101 retiring_pools = Ok (u, pools') ∧
  total deposit pools' + total (λ n, n) (refunds u) = 500000000 ∧
  (∀ account, refund account u = total (released_to 101 account) retiring_pools) ∧
  ∀ id pool, retiring_pools !! id = Some pool → (pools' !! id = None ↔ pool_is_retiring 101 pool = true).
Proof.
  apply (pool_deposits_conserved 101 retiring_pools).
  - intros id pool. unfold retiring_pools. rewrite foldl_extend. intros (p & Hp & ->)%fmap_Some.
    unfold Sample.pools in Hp. apply lookup_singleton_Some in Hp as [<- <-]. vm_compute. split; [done|done|]. repeat constructor. done.
  - vm_compute. congruence.
Defined.
End Pools.
