(* ===== verification/StakeProps.v ===== *)
(** * Properties of the stake distribution

    The stake distribution computed from a snapshot is complete and consistent: the
    totals are the sums over pools and over representatives, each pool has the
    balances delegated to it, and each balance is the rewards and the unspent outputs
    of its account. *)

From Stdlib Require Import QArith.
From S2P Require Import Prelude EraHistory UplcSyntax SortedPairs ProtocolParameters Governance Summary PoolsUpdates StakeSummary.
Import Stake.
#[local] Open Scope Z_scope.

Lemma u64_add_le {E : Type} a b : a + b <= u64_max → u64_add (E := E) a b = Ok (a + b).
Proof. intros. unfold u64_add. by rewrite (proj2 (Z.leb_le _ _)). Qed.
Lemma into_safe_ratio_wf {E : Type} r : ratio_wf r → ∃ q, into_safe_ratio (E := E) r = Ok q.
Proof.
  intros Hr. unfold into_safe_ratio, safe_ratio. destruct Hr as (_ & Hd & _). rewrite (proj2 (Z.eqb_neq _ _)) by lia. eauto.
Qed.

(** ** Pools *)

(** A pool of the distribution, before any stake is counted. *)
Record fresh_pool (db_pools : list (PoolId * Pools.Pool)) (id : PoolId) (p : PoolState) : Prop := {
  fp_stake : pool_stake p = 0;
  fp_voting : pool_voting_stake p = 0;
  fp_blocks : blocks_count p = 0;
  fp_row : ∃ row, (id, row) ∈ db_pools ∧ parameters p = Pools.current_params row ∧
    into_safe_ratio (E := Empty_set) (margin (Pools.current_params row)) = Ok (pool_margin p) }.

Lemma scan_pool_ok {E : Type} epoch deposit (all : list (PoolId * Pools.Pool)) pools refunds id row :
  epoch + 1 <= u64_max → 0 <= deposit → ratio_wf (margin (Pools.current_params row)) → (id, row) ∈ all →
  nonneg refunds → sum_amounts refunds + deposit <= u64_max →
  ∃ p r1, scan_pool (E := E) epoch deposit (pools, refunds) (id, row) = Ok (<[id := p]> pools, r1) ∧ fresh_pool all id p ∧
    nonneg r1 ∧ sum_amounts refunds <= sum_amounts r1 <= sum_amounts refunds + deposit.
Proof.
  intros He Hd Hm Hin Hr Hmax. unfold scan_pool. rewrite u64_add_le by lia. cbn [mbind exec_bind].
  assert (∃ r1, (if Pools.pool_is_retiring (epoch + 1) row
     then credit (E := E) refunds (account_credential (reward_account (Pools.current_params row)), deposit) else Ok refunds)
     = Ok r1 ∧ nonneg r1 ∧ sum_amounts refunds <= sum_amounts r1 <= sum_amounts refunds + deposit) as (r1 & -> & Hr1 & Hs1).
  { destruct (Pools.pool_is_retiring (epoch + 1) row); [|exists refunds; split; [done|]; split; [done|lia]].
    destruct (credit_one (E := E) refunds (account_credential (reward_account (Pools.current_params row)), deposit))
      as (r1 & -> & Hr1 & Hs1 & _); [done|done|done|]. exists r1. split; [done|]. split; [done|]. cbn in Hs1. lia. }
  cbn [mbind exec_bind]. destruct (into_safe_ratio_wf (E := Empty_set) _ Hm) as [q Hq].
  assert (into_safe_ratio (E := E) (margin (Pools.current_params row)) = Ok q) as ->.
  { unfold into_safe_ratio, safe_ratio in *. destruct (_ =? _); [done|]. by injection Hq as <-. }
  cbn [mbind exec_bind]. eexists _, r1. split; [done|]. split; [|done]. split; [done..|]. by exists row.
Qed.

Lemma scan_pools_ok {E : Type} epoch deposit all : ∀ l pools refunds,
  epoch + 1 <= u64_max → 0 <= deposit → (∀ id row, (id, row) ∈ l → ratio_wf (margin (Pools.current_params row))) → l ⊆ all →
  map_Forall (fresh_pool all) pools → nonneg refunds → sum_amounts refunds + deposit * Z.of_nat (length l) <= u64_max →
  ∃ pools' refunds', for_in (E := E) l (scan_pool epoch deposit) (pools, refunds) = Ok (pools', refunds') ∧
    map_Forall (fresh_pool all) pools' ∧ nonneg refunds' ∧
    sum_amounts refunds' <= sum_amounts refunds + deposit * Z.of_nat (length l).
Proof.
  induction l as [|[id row] l IH]; intros pools refunds He Hd Hwf Hsub Hp Hr Hmax; cbn [for_in].
  { eexists _, _. split; [done|]. split; [done|]. split; [done|]. cbn. lia. }
  cbn [length] in *.
  destruct (scan_pool_ok (E := E) epoch deposit all pools refunds id row) as (p & r1 & -> & Hp1 & Hr1 & Hs1);
    [done|done|apply (Hwf id); left|apply Hsub; left|done|nia|].
  cbn [mbind exec_bind]. destruct (IH (<[id := p]> pools) r1) as (p2 & r2 & -> & Hp2 & Hr2 & Hs2); [done|done| | | |done|lia|].
  - intros i r Hi. apply (Hwf i). by right.
  - intros x Hx. apply Hsub. by right.
  - by apply map_Forall_insert_2.
  - exists p2, r2. split; [done|]. split; [done|]. split; [done|]. lia.
Qed.

(** ** Accounts *)

Definition output_of (k : Credential) (e : StakeEntry) : Z :=
  match entry_credential e with Some c => if decide (c = k) then entry_lovelace e else 0 | None => 0 end.

Definition grown (outputs : list StakeEntry) (k : Credential) (a : AccountState) : AccountState :=
  with_balance (balance a + stake_of (output_of k) outputs) a.


Lemma grown_none outputs k a : stake_of (output_of k) outputs = 0 → grown outputs k a = a.
Proof. intros H0. destruct a as [b r p d]. unfold grown, with_balance. cbn [balance rewards account_pool account_drep]. f_equal. lia. Qed.
Lemma grown_cons e outputs k a : grown outputs k (grown [e] k a) = grown (e :: outputs) k a.
Proof.
  unfold grown, with_balance. cbn [balance rewards account_pool account_drep]. f_equal. rewrite !stake_of_cons.
  change (stake_of (output_of k) []) with 0. lia.
Qed.

Abbreviation balances l := (total balance (SortedPairs.to_map l)).
Abbreviation solvent l := (map_Forall (λ _ a, 0 <= balance a) (SortedPairs.to_map l)).

(** What adding outputs does to the accounts. *)
Definition added (outputs : list StakeEntry) (l l' : list (Credential * AccountState)) : Prop :=
  SortedPairs.ascending l' ∧ (∀ k, SortedPairs.to_map l' !! k = grown outputs k <$> SortedPairs.to_map l !! k) ∧
  balances l' <= balances l + stake_of entry_lovelace outputs.

Lemma added_same outputs l : SortedPairs.ascending l → 0 <= stake_of entry_lovelace outputs →
  (∀ k, is_Some (SortedPairs.to_map l !! k) → stake_of (output_of k) outputs = 0) → added outputs l l.
Proof.
  intros Hl Hpos H0. split; [done|]. split; [|lia]. intros k.
  destruct (SortedPairs.to_map l !! k) as [a|] eqn:Hk; [|done]. cbn [fmap option_fmap option_map].
  rewrite grown_none; [done|]. apply H0. by rewrite Hk.
Qed.

Lemma output_nonneg k outputs : Forall (λ e, 0 <= entry_lovelace e) outputs → 0 <= stake_of (output_of k) outputs.
Proof.
  intros He. apply stake_nonneg. eapply Forall_impl; [exact He|]. intros e He0. cbn in He0. unfold output_of. destruct (entry_credential e); [case_decide|]; lia.
Qed.
Lemma added_solvent outputs l l' : added outputs l l' → Forall (λ e, 0 <= entry_lovelace e) outputs → solvent l → solvent l'.
Proof.
  intros (_ & Hm & _) He Hs k a. rewrite Hm. intros (b & Hb & ->)%fmap_Some. apply Hs in Hb.
  pose proof (output_nonneg k outputs He). unfold grown. cbn [with_balance balance]. lia.
Qed.

(** One output. *)
Lemma add_output_ok {E : Type} (e : StakeEntry) (l : list (Credential * AccountState)) :
  SortedPairs.ascending l → solvent l → 0 <= entry_lovelace e → balances l + entry_lovelace e <= u64_max →
  ∃ l1, add_output (E := E) l e = Ok l1 ∧ added [e] l l1.
Proof.
  intros Hl Hb He Hmax. assert (stake_of entry_lovelace [e] = entry_lovelace e) as Hone by (unfold stake_of; cbn; lia).
  unfold add_output. destruct (entry_credential e) as [c|] eqn:Hc.
  2: { exists l. split; [done|]. apply added_same; [done|lia|]. intros k _. unfold stake_of, output_of. cbn. by rewrite Hc. }
  assert (∀ k, stake_of (output_of k) [e] = if decide (c = k) then entry_lovelace e else 0) as Hk.
  { intros k. unfold stake_of, output_of. cbn. rewrite Hc. case_decide; lia. }
  rewrite SortedPairs.get_to_map by done. destruct (SortedPairs.to_map l !! c) as [a|] eqn:Ha.
  2: { exists l. split; [done|]. apply added_same; [done|lia|]. intros k Hkl. rewrite Hk, decide_False; [done|].
       intros <-. rewrite Ha in Hkl. by destruct Hkl. }
  pose proof (total_lookup balance _ c a Hb Ha). rewrite u64_add_le by lia. cbn [mbind exec_bind].
  eexists. split; [done|]. split; [by apply SortedPairs.ascending_modify|].
  rewrite SortedPairs.to_map_modify, alter_alt, Ha by done. split.
  - intros k. destruct (decide (c = k)) as [->|Hne].
    + rewrite lookup_insert_eq, Ha. cbn [fmap option_fmap option_map]. f_equal. unfold grown.
      by rewrite Hk, decide_True.
    + rewrite lookup_insert_ne by done. destruct (SortedPairs.to_map l !! k); [|done].
      cbn [fmap option_fmap option_map]. rewrite grown_none; [done|]. by rewrite Hk, decide_False.
  - rewrite (total_insert_old _ _ _ _ _ Ha). cbn [with_balance balance]. lia.
Qed.

Lemma add_outputs_ok {E : Type} (outputs : list StakeEntry) : ∀ l : list (Credential * AccountState),
  SortedPairs.ascending l → solvent l → Forall (λ e, 0 <= entry_lovelace e) outputs →
  balances l + stake_of entry_lovelace outputs <= u64_max →
  ∃ l', for_in (E := E) outputs add_output l = Ok l' ∧ added outputs l l'.
Proof.
  induction outputs as [|e outputs IH]; intros l Hl Hb He Hmax; cbn [for_in].
  { exists l. split; [done|]. by apply added_same. }
  pose proof He as [He0 Hes]%Forall_cons. rewrite stake_of_cons in Hmax. pose proof (stake_nonneg _ _ Hes) as Hrest.
  destruct (add_output_ok (E := E) e l) as (l1 & -> & Hadd); [done..|lia|].
  assert (stake_of entry_lovelace [e] = entry_lovelace e) as Hone by (unfold stake_of; cbn; lia).
  assert (solvent l1) as Hb1 by (apply (added_solvent _ _ _ Hadd); [by repeat constructor|done]). destruct Hadd as (Hl1 & Hm1 & Hs1).
  cbn [mbind exec_bind]. destruct (IH l1) as (l2 & -> & Hl2 & Hm2 & Hs2); [done..|lia|].
  exists l2. split; [done|]. split; [done|]. split; [|rewrite stake_of_cons; lia].
  intros k. rewrite Hm2, Hm1. destruct (SortedPairs.to_map l !! k) as [a|]; [|done].
  cbn [fmap option_fmap option_map]. by rewrite grown_cons.
Qed.

(** ** The tally *)

Definition delegated (id : PoolId) (a : Credential * AccountState) : Z :=
  if decide (account_pool a.2 = Some id) then balance a.2 else 0.

Section Tally.
Context (dd pd rf : gmap Credential Z) (Hdd : nonneg dd) (Hpd : nonneg pd) (Hrf : nonneg rf).
Context (pools0 : gmap PoolId PoolState).

(** The most an account can add to the voting stake of its representative, and of its
    pool. *)
Definition drep_share (a : Credential * AccountState) : Z := balance a.2 + amount_of dd a.1 + amount_of rf a.1.
Definition pool_share (a : Credential * AccountState) : Z := balance a.2 + amount_of pd a.1.

(** The tally after the accounts [l]. *)
Record tally_ok (l : list (Credential * AccountState)) (st : Tally) : Prop := {
  ty_dreps : t_dreps_voting st = total drep_voting_stake (t_dreps st);
  ty_pools : t_pools_voting st = total pool_voting_stake (t_pools st);
  ty_active : t_active st = total pool_stake (t_pools st);
  ty_dreps_nonneg : map_Forall (λ _ d, 0 <= drep_voting_stake d) (t_dreps st);
  ty_pools_nonneg : map_Forall (λ _ p, 0 <= pool_stake p <= pool_voting_stake p) (t_pools st);
  ty_dreps_bound : t_dreps_voting st <= stake_of drep_share l;
  ty_pools_bound : t_pools_voting st <= stake_of pool_share l;
  ty_same : ∀ id, (λ p, (parameters p, pool_margin p, blocks_count p)) <$> t_pools st !! id =
    (λ p, (parameters p, pool_margin p, blocks_count p)) <$> pools0 !! id;
  ty_delegated : ∀ id p, t_pools st !! id = Some p → pool_stake p = stake_of (delegated id) l }.

Lemma amount_pos w k : nonneg w → 0 <= amount_of w k.
Proof. intros Hw. by apply amount_of_nonneg. Qed.

Lemma pools_bounds (pools : gmap PoolId PoolState) id p : map_Forall (λ _ p, 0 <= pool_stake p <= pool_voting_stake p) pools →
  pools !! id = Some p → 0 <= pool_stake p <= total pool_stake pools ∧ pool_voting_stake p <= total pool_voting_stake pools ∧
  total pool_stake pools <= total pool_voting_stake pools.
Proof.
  intros Hp Hid. split; [|split].
  - apply (total_lookup pool_stake pools id p); [|done]. intros i q Hq. apply Hp in Hq. lia.
  - apply (total_lookup pool_voting_stake pools id p); [|done]. intros i q Hq. apply Hp in Hq. lia.
  - apply total_le. intros i q Hq. apply Hp in Hq. lia.
Qed.

Lemma stake_of_snoc {A} (f : A → Z) l x : stake_of f (l ++ [x]) = stake_of f l + f x.
Proof. rewrite stake_of_app, stake_of_cons. unfold stake_of at 2. cbn. lia. Qed.

Lemma tally_drep_ok {E : Type} l st a : tally_ok l st → 0 <= balance a.2 → stake_of drep_share l + drep_share a <= u64_max →
  ∃ st', tally_drep (E := E) dd rf st a = Ok st' ∧ t_pools st' = t_pools st ∧ t_active st' = t_active st ∧
    t_pools_voting st' = t_pools_voting st ∧ t_dreps_voting st' = total drep_voting_stake (t_dreps st') ∧
    map_Forall (λ _ d, 0 <= drep_voting_stake d) (t_dreps st') ∧ t_dreps_voting st' <= stake_of drep_share l + drep_share a.
Proof using Hdd Hrf.
  intros [Hd _ _ Hdn _ Hdb _ _ _] Hb Hmax. destruct a as [k a]. unfold drep_share at 2 in Hmax. unfold drep_share at 2.
  cbn [fst snd] in *. pose proof (amount_pos dd k Hdd). pose proof (amount_pos rf k Hrf).
  unfold tally_drep. assert (t_dreps_voting st <= stake_of drep_share l + (balance a + amount_of dd k + amount_of rf k)) by lia.
  destruct (account_drep a) as [d|]; [|by exists st]. destruct (t_dreps st !! d) as [ds|] eqn:Hds; [|by exists st].
  pose proof (total_lookup drep_voting_stake _ d ds Hdn Hds).
  repeat (rewrite u64_add_le by lia; cbn [mbind exec_bind]).
  eexists. split; [done|]. cbn [t_pools t_active t_pools_voting t_dreps t_dreps_voting].
  repeat (split; [done|]). split; [|split; [|lia]].
  - rewrite (total_insert_old _ _ _ _ _ Hds). cbn [set_drep_stake drep_voting_stake]. lia.
  - apply map_Forall_insert_2; [cbn; lia|done].
Qed.

Lemma tally_pool_ok {E : Type} l st a : tally_ok l st → 0 <= balance a.2 → stake_of pool_share l + pool_share a <= u64_max →
  stake_of drep_share l + drep_share a <= u64_max →
  ∃ st', tally_account (E := E) dd pd rf st a = Ok st' ∧ tally_ok (l ++ [a]) st'.
Proof using Hdd Hpd Hrf.
  intros Hok Hb Hmax Hmaxd. destruct (tally_drep_ok (E := E) l st a Hok Hb Hmaxd) as (s1 & Hs1 & Hp1 & Ha1 & Hv1 & Hd1 & Hn1 & Hb1).
  destruct Hok as [_ Hp Ha _ Hpn _ Hpb Hsame Hdel]. unfold tally_account. rewrite Hs1. cbn [mbind exec_bind].
  destruct a as [k a]. cbn [fst snd] in *. unfold tally_pool. pose proof (amount_pos pd k Hpd) as Hpk.
  assert (∀ id p, t_pools st !! id = Some p → account_pool a ≠ Some id → pool_stake p = stake_of (delegated id) (l ++ [(k, a)])) as Hother.
  { intros id p Hid Hne. rewrite stake_of_snoc, (Hdel id p Hid).
    assert (delegated id (k, a) = 0) as -> by (unfold delegated; cbn [snd]; by rewrite decide_False). lia. }
  assert (pool_share (k, a) = balance a + amount_of pd k) as Hshare by done.
  assert ((∀ id p, account_pool a = Some id → t_pools st !! id = Some p → False) → tally_ok (l ++ [(k, a)]) s1) as Hskip.
  { intros Hnone. split; rewrite ?stake_of_snoc, ?Hp1, ?Ha1, ?Hv1; try done; [lia|]. intros id p Hid.
    apply Hother; [done|]. intros Hx. by eapply Hnone. }
  destruct (account_pool a) as [id|] eqn:Hap; [|exists s1; split; [done|]; by apply Hskip].
  rewrite Hp1. destruct (t_pools st !! id) as [p|] eqn:Hid; [|exists s1; split; [done|]; apply Hskip; naive_solver].
  pose proof (pools_bounds _ id p Hpn Hid). pose proof (Hpn id p Hid) as Hpos. cbn beta in Hpos.
  rewrite Ha1, Hv1. repeat (rewrite u64_add_le by lia; cbn [mbind exec_bind]).
  eexists. split; [done|]. split; cbn [t_pools t_active t_pools_voting t_dreps t_dreps_voting]; rewrite ?stake_of_snoc;
    rewrite ?(total_insert_old _ _ _ _ _ Hid); cbn [set_pool_stake pool_stake pool_voting_stake]; try done; try lia.
  - apply map_Forall_insert_2; [cbn [set_pool_stake pool_stake pool_voting_stake]; lia|done].
  - intros i. destruct (decide (i = id)) as [->|Hne]; [|by rewrite lookup_insert_ne].
    rewrite lookup_insert_eq, <- Hsame, Hid. done.
  - intros i q. destruct (decide (i = id)) as [->|Hne].
    + rewrite lookup_insert_eq. intros [= <-]. cbn [set_pool_stake pool_stake]. rewrite stake_of_snoc, <- (Hdel id p Hid).
      f_equal. unfold delegated. cbn [snd]. by rewrite decide_True.
    + rewrite lookup_insert_ne by done. intros Hq. apply Hother; [done|congruence].
Qed.
End Tally.

Section TallyAll.
Context (dd pd rf : gmap Credential Z) (Hdd : nonneg dd) (Hpd : nonneg pd) (Hrf : nonneg rf).

Lemma tally_all_ok {E : Type} pools0 l2 : ∀ l1 st, tally_ok dd pd rf pools0 l1 st → Forall (λ a, 0 <= balance a.2) l2 →
  stake_of (drep_share dd rf) (l1 ++ l2) <= u64_max → stake_of (pool_share pd) (l1 ++ l2) <= u64_max →
  ∃ st', for_in (E := E) l2 (tally_account dd pd rf) st = Ok st' ∧ tally_ok dd pd rf pools0 (l1 ++ l2) st'.
Proof using Hdd Hpd Hrf.
  induction l2 as [|a l2 IH]; intros l1 st Hok Hb Hd Hp; cbn [for_in]; [exists st; by rewrite app_nil_r|].
  apply Forall_cons in Hb as [Ha Hb].
  assert (0 <= stake_of (drep_share dd rf) l2 ∧ 0 <= stake_of (pool_share pd) l2) as [Hd2 Hp2].
  { split; apply stake_nonneg; (eapply Forall_impl; [exact Hb|]); intros [k x] Hx; unfold drep_share, pool_share; cbn in *;
      pose proof (amount_pos dd k Hdd); pose proof (amount_pos pd k Hpd); pose proof (amount_pos rf k Hrf); lia. }
  rewrite stake_of_app, stake_of_cons in Hd, Hp.
  destruct (tally_pool_ok (E := E) dd pd rf Hdd Hpd Hrf pools0 l1 st a Hok Ha) as (st1 & -> & Hok1); [lia..|].
  cbn [mbind exec_bind]. destruct (IH (l1 ++ [a]) st1 Hok1 Hb) as (st2 & -> & Hok2).
  1,2: rewrite <- app_assoc, stake_of_app; cbn [app]; rewrite stake_of_cons; lia.
  exists st2. split; [done|]. by rewrite <- app_assoc in Hok2.
Qed.
End TallyAll.

(** ** Blocks *)

Definition issued_by (id : PoolId) (issuers : list (Z * PoolId)) : Z := Z.of_nat (length (filter (λ i, i.2 = id) issuers)).

Lemma issued_by_cons id slot i issuers : issued_by id ((slot, i) :: issuers) = (if decide (i = id) then 1 else 0) + issued_by id issuers.
Proof. unfold issued_by. rewrite filter_cons. cbn [snd]. case_decide; cbn [length]; lia. Qed.

Lemma count_block_ok {E : Type} (pools : gmap PoolId PoolState) issuer : map_Forall (λ _ p, blocks_count p < u64_max) pools →
  count_block (E := E) pools issuer = Ok (alter (λ p, set_blocks_count (blocks_count p + 1) p) issuer.2 pools).
Proof.
  intros Hp. unfold count_block. rewrite alter_alt. destruct (pools !! issuer.2) as [p|] eqn:Hi; [|done].
  apply Hp in Hi. cbn beta in Hi. rewrite u64_add_le by lia. done.
Qed.

Lemma count_blocks_ok {E : Type} issuers : ∀ pools : gmap PoolId PoolState,
  map_Forall (λ _ p, blocks_count p + Z.of_nat (length issuers) <= u64_max) pools →
  ∃ pools', for_in (E := E) issuers count_block pools = Ok pools' ∧
    ∀ id, pools' !! id = (λ p, set_blocks_count (blocks_count p + issued_by id issuers) p) <$> pools !! id.
Proof.
  induction issuers as [|[slot i] issuers IH]; intros pools Hp; cbn [for_in].
  { exists pools. split; [done|]. intros id. destruct (pools !! id) as [[a b c d e f g]|]; [|done]. cbn. f_equal.
    unfold set_blocks_count. cbn. f_equal. unfold issued_by. cbn. lia. }
  cbn [length] in Hp. rewrite count_block_ok by (intros j q Hq; apply Hp in Hq; lia). cbn [mbind exec_bind snd].
  destruct (IH (alter (λ p, set_blocks_count (blocks_count p + 1) p) i pools)) as (pools' & -> & Hres).
  { intros j q. destruct (decide (i = j)) as [<-|Hne]; [rewrite lookup_alter_eq|rewrite lookup_alter_ne by done].
    - intros (p & Hq & ->)%fmap_Some. apply Hp in Hq. cbn. lia.
    - intros Hq. apply Hp in Hq. lia. }
  exists pools'. split; [done|]. intros id. rewrite Hres, issued_by_cons. destruct (decide (i = id)) as [<-|Hne].
  - rewrite lookup_alter_eq. destruct (pools !! i) as [p|]; [|done]. cbn. f_equal. unfold set_blocks_count. cbn. f_equal. lia.
  - by rewrite lookup_alter_ne.
Qed.

(** ** The summary of a snapshot *)

Record params_ok (p : PoolParams) : Prop := {
  pk_margin : ratio_wf (margin p) ∧ numerator (margin p) <= denominator (margin p);
  pk_pledge : 0 <= pledge p <= u64_max;
  pk_cost : 0 <= cost p <= u64_max;
  pk_owners : NoDup (owners p) }.

(** A governance summary, as the stake summary needs it. *)
Record governance_ok (g : GovernanceSummary) : Prop := {
  gk_dreps : map_Forall (λ _ d, drep_voting_stake d = 0) (gs_dreps g);
  gk_dreps_deposits : nonneg (dreps_deposits g);
  gk_pools_deposits : nonneg (pools_deposits g) }.

(** A snapshot whose amounts, taken together, fit in the supply of lovelace. *)
Record snapshot_ok (db : Snapshot) : Prop := {
  sn_epoch : 0 <= snap_epoch db ∧ snap_epoch db + 1 <= u64_max;
  sn_accounts : NoDup (map fst (snap_accounts db));
  sn_rewards : Forall (λ a, 0 <= arow_rewards a.2) (snap_accounts db);
  sn_utxo : Forall (λ e, 0 <= entry_lovelace e) (snap_utxo db);
  sn_pools : ∀ id row, (id, row) ∈ snap_pools db → Pools.Pool_id row = id ∧ params_ok (Pools.current_params row);
  sn_pool_deposit : 0 <= stake_pool_deposit (snap_protocol_parameters db);
  sn_blocks : Z.of_nat (length (snap_block_issuers db)) <= u64_max }.

(** Everything that can count as voting stake. *)
Definition circulating (db : Snapshot) (deposits : Z) : Z :=
  stake_of (λ a, arow_rewards a.2) (snap_accounts db) + stake_of entry_lovelace (snap_utxo db) + deposits +
  stake_pool_deposit (snap_protocol_parameters db) * Z.of_nat (length (snap_pools db)).

(** A stake summary whose parts add up. *)
Record summary_ok (db : Snapshot) (s : StakeSummary) : Prop := {
  so_accounts : SortedPairs.ascending (accounts s);
  so_balances : ∀ k, SortedPairs.get k (accounts s) ≫= (λ a, Some (balance a, rewards a)) =
    (list_to_map (snap_accounts db) : gmap Credential AccountRow) !! k ≫=
      (λ row, Some (arow_rewards row + stake_of (output_of k) (snap_utxo db), 0));
  so_solvent : Forall (λ a, 0 <= balance a.2) (accounts s);
  so_total : stake_of (λ a, balance a.2) (accounts s) <=
    stake_of (λ a, arow_rewards a.2) (snap_accounts db) + stake_of entry_lovelace (snap_utxo db);
  so_active : active_stake (stake_distribution s) = total pool_stake (pools (stake_distribution s));
  so_pools_voting : pools_voting_stake (stake_distribution s) = total pool_voting_stake (pools (stake_distribution s));
  so_dreps_voting : dreps_voting_stake (stake_distribution s) = total drep_voting_stake (dreps (stake_distribution s));
  so_dreps : map_Forall (λ _ d, 0 <= drep_voting_stake d) (dreps (stake_distribution s));
  so_bounds : active_stake (stake_distribution s) <= pools_voting_stake (stake_distribution s) <= u64_max ∧
    dreps_voting_stake (stake_distribution s) <= u64_max;
  so_pools : ∀ id p, pools (stake_distribution s) !! id = Some p →
    0 <= pool_stake p <= pool_voting_stake p ∧ pool_stake p = stake_of (delegated id) (accounts s) ∧
    blocks_count p = issued_by id (snap_block_issuers db) ∧ pool_id (parameters p) = id ∧ params_ok (parameters p) ∧
    into_safe_ratio (E := Empty_set) (margin (parameters p)) = Ok (pool_margin p) }.

(** The accounts, before outputs are added. *)
Lemma accounts_start (db : Snapshot) (pools : gmap PoolId PoolState) (dreps : gmap DRep DRepState) : snapshot_ok db →
  let l := SortedPairs.from_vec (map (λ a : Credential * AccountRow, (a.1, account_of pools dreps a.2)) (snap_accounts db)) in
  SortedPairs.ascending l ∧ solvent l ∧ balances l = stake_of (λ a, arow_rewards a.2) (snap_accounts db) ∧
  ∀ k, SortedPairs.to_map l !! k = account_of pools dreps <$> (list_to_map (snap_accounts db) : gmap Credential AccountRow) !! k.
Proof.
  intros Hdb. pose proof (sn_accounts _ Hdb) as Hnd. pose proof (sn_rewards _ Hdb) as Hr. cbv zeta.
  set (vec := map _ (snap_accounts db)).
  assert (map fst vec = map fst (snap_accounts db)) as Hkeys.
  { unfold vec. rewrite map_map. by apply map_ext. }
  assert (NoDup (map fst vec)) as Hnv by (by rewrite Hkeys).
  assert (SortedPairs.ascending (SortedPairs.from_vec vec)) as Hasc by (by apply SortedPairs.ascending_from_vec).
  assert (∀ k, SortedPairs.to_map (SortedPairs.from_vec vec) !! k =
    account_of pools dreps <$> (list_to_map (snap_accounts db) : gmap Credential AccountRow) !! k) as Hlk.
  { intros k. rewrite SortedPairs.to_map_from_vec by done. rewrite <- lookup_fmap. f_equal. unfold vec.
    change (map (λ a : Credential * AccountRow, (a.1, account_of pools dreps a.2)) (snap_accounts db))
      with (prod_map id (account_of pools dreps) <$> snap_accounts db). by rewrite list_to_map_fmap. }
  split; [done|]. split; [|split; [|done]].
  - intros k a. rewrite Hlk. intros (row & Hrow & ->)%fmap_Some. cbn. apply elem_of_list_to_map_2 in Hrow.
    rewrite Forall_forall in Hr. by apply Hr in Hrow.
  - rewrite <- stake_of_to_map by done. rewrite (stake_of_perm _ _ _ (SortedPairs.from_vec_perm vec)). unfold vec.
    by rewrite stake_of_map.
Qed.

Lemma fallback_lookup (f : PoolState → option DRep) (pools : gmap PoolId PoolState) g id p :
  ((λ p, set_blocks_count (g p) p) <$> ((λ p, set_fallback_drep (f p) p) <$> pools) !! id) = Some p →
  ∃ q, pools !! id = Some q ∧ pool_stake p = pool_stake q ∧ pool_voting_stake p = pool_voting_stake q ∧
    parameters p = parameters q ∧ pool_margin p = pool_margin q ∧ blocks_count p = g (set_fallback_drep (f q) q).
Proof. rewrite lookup_fmap. destruct (pools !! id) as [q|]; [|done]. intros [= <-]. by exists q. Qed.

Lemma total_same (f g : PoolState → Z) (m m' : gmap PoolId PoolState) (h : PoolId → PoolState → PoolState) :
  (∀ id, m' !! id = h id <$> m !! id) → (∀ id p, f (h id p) = g p) → total f m' = total g m.
Proof.
  revert m'. induction m as [|k a m Hk IH] using map_ind; intros m' Hm' Hf.
  - assert (m' = ∅) as -> by (apply map_eq; intros i; by rewrite Hm', lookup_empty). by rewrite !total_empty.
  - rewrite (total_insert_new g m k a Hk). rewrite (total_delete f m' k (h k a)) by (by rewrite Hm', lookup_insert_eq).
    rewrite (IH (delete k m')); [by rewrite Hf| |done]. intros id. destruct (decide (k = id)) as [<-|Hne].
    + by rewrite lookup_delete_eq, Hk.
    + rewrite lookup_delete_ne, Hm', lookup_insert_ne by done. done.
Qed.

Lemma shares_bound (dd pd rf : gmap Credential Z) (l : list (Credential * AccountState)) : nonneg dd → nonneg pd → nonneg rf →
  SortedPairs.ascending l →
  stake_of (drep_share dd rf) l <= balances l + sum_amounts dd + sum_amounts rf ∧
  stake_of (pool_share pd) l <= balances l + sum_amounts pd.
Proof.
  intros Hdd Hpd Hrf Hl. pose proof (SortedPairs.ascending_NoDup _ Hl) as Hnd. rewrite <- stake_of_to_map by done.
  unfold drep_share, pool_share. rewrite !stake_of_plus.
  pose proof (amounts_distinct dd l Hdd Hnd). pose proof (amounts_distinct pd l Hpd Hnd). pose proof (amounts_distinct rf l Hrf Hnd).
  lia.
Qed.

Lemma tally_start dd pd rf (dreps : gmap DRep DRepState) (pools db_pools : _) :
  map_Forall (λ _ d, drep_voting_stake d = 0) dreps → map_Forall (fresh_pool db_pools) pools →
  tally_ok dd pd rf pools [] (mkTally dreps pools 0 0 0).
Proof.
  intros Hd Hp. split; cbn [t_pools t_active t_pools_voting t_dreps t_dreps_voting]; try done.
  - symmetry. rewrite (total_ext _ (λ _, 0)) by (intros k d Hk; by apply Hd in Hk). apply stake_of_0.
  - symmetry. rewrite (total_ext _ (λ _, 0)) by (intros k d Hk; by apply Hp in Hk as []). apply stake_of_0.
  - symmetry. rewrite (total_ext _ (λ _, 0)) by (intros k d Hk; by apply Hp in Hk as []). apply stake_of_0.
  - intros k d Hk. apply Hd in Hk. cbn in *. lia.
  - intros k p Hk. apply Hp in Hk as []. lia.
  - intros id p Hid. apply Hp in Hid as [-> _ _ _]. done.
Qed.

(** The summary, once the accounts are tallied. *)
Lemma assemble db dd pd rf ps (l : list (Credential * AccountState)) t pools' (f : PoolState → option DRep) tr re cc :
  snapshot_ok db → map_Forall (fresh_pool (snap_pools db)) ps → SortedPairs.ascending l → Forall (λ a, 0 <= balance a.2) l →
  (∀ k, SortedPairs.get k l ≫= (λ a, Some (balance a, rewards a)) =
    (list_to_map (snap_accounts db) : gmap Credential AccountRow) !! k ≫=
      (λ row, Some (arow_rewards row + stake_of (output_of k) (snap_utxo db), 0))) →
  stake_of (λ a, balance a.2) l <= stake_of (λ a, arow_rewards a.2) (snap_accounts db) + stake_of entry_lovelace (snap_utxo db) →
  tally_ok dd pd rf ps l t → stake_of (drep_share dd rf) l <= u64_max → stake_of (pool_share pd) l <= u64_max →
  (∀ id, pools' !! id = (λ p, set_blocks_count (blocks_count p + issued_by id (snap_block_issuers db)) p) <$>
    ((λ p, set_fallback_drep (f p) p) <$> t_pools t) !! id) →
  summary_ok db (mkStakeSummary (mkStakeDistribution (snap_epoch db) tr re (t_active t) (t_pools_voting t) (t_dreps_voting t)
    pools' (t_dreps t) cc) l).
Proof.
  intros Hdb Hps Hasc Hpos Hbal Htot [Hd Hp Ha Hdn Hpn Hdb' Hpb Hsame Hdel] Hmd Hmp Hres.
  assert (∀ id, pools' !! id = (λ p, set_blocks_count (blocks_count p + issued_by id (snap_block_issuers db))
    (set_fallback_drep (f p) p)) <$> t_pools t !! id) as Hres'.
  { intros id. rewrite Hres, lookup_fmap. by destruct (t_pools t !! id). }
  split; cbn [stake_distribution accounts active_stake pools pools_voting_stake dreps dreps_voting_stake]; try done.
  - rewrite Ha. symmetry. by apply (total_same _ _ _ _ (λ id p, set_blocks_count _ (set_fallback_drep (f p) p)) Hres').
  - rewrite Hp. symmetry. by apply (total_same _ _ _ _ (λ id p, set_blocks_count _ (set_fallback_drep (f p) p)) Hres').
  - split; [|lia]. split; [|lia]. rewrite Ha, Hp. apply total_le. intros k p Hk. apply Hpn in Hk. lia.
  - intros id p. rewrite Hres'. intros (q & Hq & ->)%fmap_Some. cbn [set_blocks_count set_fallback_drep pool_stake
      pool_voting_stake blocks_count parameters pool_margin].
    split; [by apply (Hpn id)|]. split; [by apply Hdel|].
    pose proof (Hsame id) as Hs. rewrite Hq in Hs. cbn [fmap option_fmap option_map] in Hs.
    destruct (ps !! id) as [q0|] eqn:Hq0; [|done]. cbn [fmap option_fmap option_map] in Hs. injection Hs as Hs1 Hs2 Hs3.
    destruct (Hps id q0 Hq0) as [_ _ Hb0 (row & Hin & Hrow & Hm)]. destruct (sn_pools _ Hdb id row Hin) as [Hid Hok].
    rewrite Hs3, Hb0, Hs1, Hs2, Hrow. split; [lia|]. done.
Qed.

(** The stake summary of a snapshot exists, and adds up. *)
Lemma stake_summary_ok {E : Type} (db : Snapshot) (g : GovernanceSummary) : snapshot_ok db → governance_ok g →
  circulating db (sum_amounts (dreps_deposits g)) <= u64_max → circulating db (sum_amounts (pools_deposits g)) <= u64_max →
  ∃ s, StakeSummary_new (E := E) db g = Ok s ∧ summary_ok db s.
Proof.
  intros Hdb Hg Hcd Hcp. unfold circulating in *. pose proof Hdb as [[He0 He1] Hnd Hrw Hut Hpl Hpd Hbl].
  destruct Hg as [Hgd Hgdd Hgpd].
  pose proof (stake_nonneg _ _ Hrw) as Hrpos. pose proof (stake_nonneg _ _ Hut) as Hupos.
  pose proof (total_nonneg (λ n, n) _ Hgdd) as Hddpos. pose proof (total_nonneg (λ n, n) _ Hgpd) as Hpdpos.
  fold (sum_amounts (dreps_deposits g)) in Hddpos. fold (sum_amounts (pools_deposits g)) in Hpdpos.
  unfold StakeSummary_new. cbv zeta.
  destruct (scan_pools_ok (E := E) (snap_epoch db) (stake_pool_deposit (snap_protocol_parameters db)) (snap_pools db)
    (snap_pools db) ∅ ∅) as (ps & rf & -> & Hps & Hrf & Hrs); [done|done| |done|apply map_Forall_empty|apply map_Forall_empty| |].
  { intros id row Hin. apply (pk_margin _ (proj2 (Hpl id row Hin))). }
  { unfold sum_amounts at 1. rewrite total_empty. lia. }
  unfold sum_amounts at 2 in Hrs. rewrite total_empty in Hrs.
  cbn [mbind exec_bind]. destruct (accounts_start db ps (gs_dreps g) Hdb) as (Ha & Hs & Hb & Hl).
  set (l0 := SortedPairs.from_vec _) in *.
  destruct (add_outputs_ok (E := E) (snap_utxo db) l0 Ha Hs Hut) as (l & -> & Hadd); [lia|]. cbn [mbind exec_bind].
  pose proof (added_solvent _ _ _ Hadd Hut Hs) as Hsol. destruct Hadd as (Hasc & Hlook & Hbal).
  assert (Forall (λ a, 0 <= balance a.2) l) as Hlb.
  { apply Forall_forall. intros [k a] Hin. apply (Hsol k a). unfold SortedPairs.to_map.
    apply elem_of_list_to_map_1; [by apply SortedPairs.ascending_NoDup|done]. }
  destruct (shares_bound _ _ rf l Hgdd Hgpd Hrf Hasc) as [Hsd Hsp].
  destruct (tally_all_ok (E := E) (dreps_deposits g) (pools_deposits g) rf Hgdd Hgpd Hrf ps l [] (mkTally (gs_dreps g) ps 0 0 0))
    as (t & -> & Ht); [by eapply tally_start|done|cbn [app]; lia..|]. cbn [mbind exec_bind app] in *.
  destruct (count_blocks_ok (E := E) (snap_block_issuers db) ((λ pool, set_fallback_drep
    (SortedPairs.get (account_credential (reward_account (parameters pool))) l ≫= account_drep) pool) <$> t_pools t))
    as (pools' & -> & Hres).
  { intros id p. rewrite lookup_fmap. intros (q & Hq & ->)%fmap_Some. cbn [set_fallback_drep blocks_count].
    pose proof (ty_same _ _ _ _ _ _ Ht id) as Hsm. rewrite Hq in Hsm. destruct (ps !! id) as [q0|] eqn:Hq0; [|done].
    injection Hsm as _ _ ->. destruct (Hps id q0 Hq0) as [_ _ -> _]. lia. }
  cbn [mbind exec_bind]. eexists. split; [done|].
  apply (assemble db (dreps_deposits g) (pools_deposits g) rf ps l t pools' (λ pool,
    SortedPairs.get (account_credential (reward_account (parameters pool))) l ≫= account_drep)); [done..| |rewrite stake_of_to_map by done; lia|done|lia|lia|done].
  intros k. rewrite SortedPairs.get_to_map, Hlook, Hl by done.
  by destruct ((list_to_map (snap_accounts db) : gmap Credential AccountRow) !! k).
Qed.

(** ** Governance *)

(** What a proposal can add to the deposits: its own, and what it withdraws. *)
Definition withdrawn (action : GovernanceAction) : list (Credential * Z) :=
  match action with TreasuryWithdrawals w _ => map (λ w, (account_credential w.1, w.2)) w | _ => [] end.
Definition claim (p : ProposalId * ProposalRow) : Z :=
  proposal_deposit (row_proposal p.2) + stake_of snd (withdrawn (gov_action (row_proposal p.2))).

Record proposal_ok (h : EraHistory) (p : ProposalId * ProposalRow) : Prop := {
  pr_slot : is_ok (slot_to_epoch_unchecked_horizon h (ptr_slot (row_proposed_in p.2))) = true;
  pr_valid : row_valid_until p.2 + 1 <= u64_max;
  pr_deposit : 0 <= proposal_deposit (row_proposal p.2);
  pr_withdrawn : Forall (λ x, 0 <= x.2) (withdrawn (gov_action (row_proposal p.2)));
  pr_threshold : ∀ a r l t, gov_action (row_proposal p.2) = UpdateCommittee a r l t → ratio_wf t }.

Record governance_rows_ok (h : EraHistory) (db : Snapshot) : Prop := {
  gr_proposals : Forall (proposal_ok h) (snap_proposals db);
  gr_dreps : Forall (λ d, drow_valid_until d.2 + consecutive_dormant_epochs db <= u64_max) (snap_dreps db) }.

Lemma claim_nonneg h p : proposal_ok h p → 0 <= claim p.
Proof. intros [_ _ Hd Hw _]. unfold claim. pose proof (stake_nonneg _ _ Hw). lia. Qed.

Lemma scan_ratified_ok {E : Type} h p dd cc : proposal_ok h p → nonneg dd →
  sum_amounts dd + stake_of snd (withdrawn (gov_action (row_proposal p.2))) <= u64_max →
  ∃ dd' cc', scan_ratified (E := E) (gov_action (row_proposal p.2)) (dd, cc) = Ok (dd', cc') ∧ nonneg dd' ∧
    sum_amounts dd' <= sum_amounts dd + stake_of snd (withdrawn (gov_action (row_proposal p.2))).
Proof.
  intros [_ _ _ Hw Ht] Hdd Hmax. destruct (gov_action (row_proposal p.2)) as [| |w gr| |a r l t| |] eqn:Hact; cbn [scan_ratified withdrawn] in *;
    try (eexists _, _; split; [done|]; split; [done|unfold stake_of; cbn; lia]).
  - destruct (credit_all (E := E) _ dd Hdd Hw Hmax) as (dd' & -> & Hdd' & Hs & _).
    eexists _, _. split; [done|]. split; [done|]. lia.
  - destruct (into_safe_ratio_wf (E := E) t (Ht a r l t eq_refl)) as [q ->].
    eexists _, _. split; [done|]. split; [done|unfold stake_of; cbn; lia].
Qed.

Lemma scan_proposal_ok h epoch pruned p dd pd cc : proposal_ok h p → nonneg dd → nonneg pd →
  sum_amounts dd + claim p <= u64_max → sum_amounts pd + claim p <= u64_max →
  ∃ dd' pd' cc', scan_proposal h epoch pruned (dd, pd, cc) p = Ok (dd', pd', cc') ∧ nonneg dd' ∧ nonneg pd' ∧
    sum_amounts dd' <= sum_amounts dd + claim p ∧ sum_amounts pd' <= sum_amounts pd + claim p.
Proof.
  intros Hp Hdd Hpd Hmd Hmp. pose proof (claim_nonneg _ _ Hp). pose proof Hp as [Hs Hv Hd Hw _].
  pose proof (stake_nonneg _ _ Hw) as Hwn. unfold claim in *. destruct p as [id row]. cbn [snd] in *.
  unfold scan_proposal. destruct (slot_to_epoch_unchecked_horizon _ _); try done. cbn [map_err mbind exec_bind].
  rewrite u64_add_le by done. cbn [mbind exec_bind]. destruct (epoch <=? row_valid_until row + 1).
  2: { eexists _, _, _. split; [done|]. split; [done|]. split; [done|]. lia. }
  set (x := (account_credential _, proposal_deposit (row_proposal row))).
  assert (∃ pd', (if (epoch <=? row_valid_until row) && negb (is_some (pruned !! id)) then credit (E := Error) pd x else Ok pd) = Ok pd' ∧
    nonneg pd' ∧ sum_amounts pd' <= sum_amounts pd + proposal_deposit (row_proposal row)) as (pd' & -> & Hpd' & Hps).
  { destruct (_ && _); [|exists pd; split; [done|]; split; [done|lia]].
    destruct (credit_one (E := Error) pd x) as (pd' & -> & ? & Hsum & _); [done|done|cbn; lia|].
    exists pd'. split; [done|]. split; [done|]. cbn in Hsum. lia. }
  cbn [mbind exec_bind]. destruct (credit_one (E := Error) dd x) as (d1 & -> & Hd1 & Hs1 & _); [done|done|cbn; lia|].
  cbn [mbind exec_bind]. cbn [snd x] in Hs1.
  assert (∃ d2 c2, (match pruned !! id with Some Ratified => scan_ratified (E := Error) (gov_action (row_proposal row)) (d1, cc)
    | _ => Ok (d1, cc) end) = Ok (d2, c2) ∧ nonneg d2 ∧
    sum_amounts d2 <= sum_amounts d1 + stake_of snd (withdrawn (gov_action (row_proposal row)))) as (d2 & c2 & -> & Hd2 & Hs2).
  { destruct (pruned !! id) as [[]|]; [|exists d1, cc; split; [done|]; split; [done|lia]..].
    apply (scan_ratified_ok h (id, row)); [done|done|cbn [snd]; lia]. }
  cbn [mbind exec_bind fst snd]. eexists _, _, _. split; [done|]. split; [done|]. split; [done|]. lia.
Qed.

Lemma scan_proposals_ok h epoch pruned l : ∀ dd pd cc, Forall (proposal_ok h) l → nonneg dd → nonneg pd →
  sum_amounts dd + stake_of claim l <= u64_max → sum_amounts pd + stake_of claim l <= u64_max →
  ∃ dd' pd' cc', for_in l (scan_proposal h epoch pruned) (dd, pd, cc) = Ok (dd', pd', cc') ∧ nonneg dd' ∧ nonneg pd' ∧
    sum_amounts dd' <= sum_amounts dd + stake_of claim l ∧ sum_amounts pd' <= sum_amounts pd + stake_of claim l.
Proof.
  induction l as [|p l IH]; intros dd pd cc Hl Hdd Hpd Hmd Hmp; cbn [for_in].
  { eexists _, _, _. split; [done|]. split; [done|]. split; [done|]. unfold stake_of; cbn; lia. }
  apply Forall_cons in Hl as [Hp Hl]. rewrite stake_of_cons in *.
  assert (0 <= stake_of claim l) by (apply stake_nonneg; eapply Forall_impl; [exact Hl|]; intros ? ?; by eapply claim_nonneg).
  destruct (scan_proposal_ok h epoch pruned p dd pd cc) as (d1 & p1 & c1 & -> & Hd1 & Hp1 & Hs1 & Ht1); [done..|lia|lia|].
  cbn [mbind exec_bind]. destruct (IH d1 p1 c1) as (d2 & p2 & c2 & -> & Hd2 & Hp2 & Hs2 & Ht2); [done..|lia|lia|].
  eexists _, _, _. split; [done|]. split; [done|]. split; [done|]. lia.
Qed.

Lemma scan_dreps_ok {E : Type} epoch dormant l : ∀ m : gmap DRep DRepState, map_Forall (λ _ d, drep_voting_stake d = 0) m →
  Forall (λ d, drow_valid_until d.2 + dormant <= u64_max) l →
  ∃ m', for_in (E := E) l (scan_drep epoch dormant) m = Ok m' ∧ map_Forall (λ _ d, drep_voting_stake d = 0) m'.
Proof.
  induction l as [|[k row] l IH]; intros m Hm Hl; cbn [for_in]; [by exists m|]. apply Forall_cons in Hl as [Hr Hl].
  cbn [scan_drep]. rewrite u64_add_le by done. cbn [mbind exec_bind]. apply IH; [|done]. by apply map_Forall_insert_2.
Qed.

Lemma governance_summary_ok h db : governance_rows_ok h db → stake_of claim (snap_proposals db) <= u64_max →
  ∃ g, GovernanceSummary_new h db = Ok g ∧ governance_ok g ∧
    sum_amounts (dreps_deposits g) <= stake_of claim (snap_proposals db) ∧
    sum_amounts (pools_deposits g) <= stake_of claim (snap_proposals db).
Proof.
  intros [Hp Hd] Hmax. unfold GovernanceSummary_new.
  assert (sum_amounts ∅ = 0) as H0 by apply total_empty.
  destruct (scan_proposals_ok h (snap_epoch db) (recently_pruned db) (snap_proposals db) ∅ ∅ None)
    as (dd & pd & cc & -> & Hdd & Hpd & Hsd & Hsp); [done|apply map_Forall_empty..|lia|lia|].
  cbn [mbind exec_bind]. destruct (scan_dreps_ok (E := Error) (snap_epoch db) (consecutive_dormant_epochs db) (snap_dreps db) ∅)
    as (m & -> & Hm); [apply map_Forall_empty|done|]. cbn [mbind exec_bind]. eexists. split; [done|].
  cbn [dreps_deposits pools_deposits]. split; [|lia]. split; [|done..]. by repeat apply map_Forall_insert_2.
Qed.

Lemma claims_nonneg h db : governance_rows_ok h db → 0 <= stake_of claim (snap_proposals db).
Proof. intros [Hp _]. apply stake_nonneg. eapply Forall_impl; [exact Hp|]. intros p Hpo. by eapply claim_nonneg. Qed.

(** C14: from a snapshot of the end of an epoch whose amounts fit in the supply, the
    summaries of governance and of stake are computed without error or overflow, and
    add up: the active stake and the voting stakes are the sums over the pools and the
    representatives, each pool has exactly the balances delegated to it and the blocks
    it issued, and each balance is the rewards of the account plus its unspent
    outputs. *)
Theorem stake_summary_consistent (h : EraHistory) (db : Snapshot) :
  snapshot_ok db → governance_rows_ok h db → circulating db (stake_of claim (snap_proposals db)) <= u64_max →
  ∃ g s, GovernanceSummary_new h db = Ok g ∧ StakeSummary_new (E := Error) db g = Ok s ∧ summary_ok db s.
Proof.
  intros Hdb Hg Hmax. unfold circulating in Hmax. pose proof (stake_nonneg _ _ (sn_rewards _ Hdb)).
  pose proof (stake_nonneg _ _ (sn_utxo _ Hdb)). pose proof (sn_pool_deposit _ Hdb).
  destruct (governance_summary_ok h db Hg) as (g & Hnew & Hgo & Hdd & Hpd); [nia|].
  destruct (stake_summary_ok (E := Error) db g Hdb Hgo) as (s & Hs & Hok); [unfold circulating; lia..|].
  by exists g, s.
Qed.

(** ** A snapshot

    Two accounts of a pool and of a representative, one of them with an unspent
    output, and a proposal that waits. *)
Module SampleSnapshot.
Definition at_start : CertificatePointer := mkCertificatePointer 0 0 0.
Definition alice : Credential := KeyHash [1].
Definition bob : Credential := KeyHash [2].
Definition params : PoolParams :=
  mkPoolParams [7] [] 100000000 1000000 (mkRationalNumber 1 50) (mkRewardAccount Mainnet alice) [[1]] [] None.
Definition proposal : ProposalRow :=
  mkProposalRow (mkProposalPointer 133661000 0 0) 514 (mkProposal 100000000000 (mkRewardAccount Mainnet bob) Information
    (mkAnchor "" [])).
Definition row (rewards : Z) : AccountRow := mkAccountRow (Some ([7], at_start)) 2000000 (Some (DRep_Key [8], at_start)) rewards.
Definition db (issuers : list (Z * PoolId)) (fees : Z) : Snapshot :=
  mkSnapshot 513 0 ∅ [(mkProposalId [1] 0, proposal)] [(KeyHash [8], mkDRepRow 500000000 None at_start 530)]
    [([7], Pools.Pool_new at_start 500000000 params)] [(bob, row 3000000); (alice, row 200000000)]
    [mkStakeEntry (Some bob) 5000000000; mkStakeEntry None 7000000; mkStakeEntry (Some (KeyHash [3])) 9000000]
    issuers (mkPots 0 44999890000000000 fees 0) MAINNET_DEFAULT_PROTOCOL_PARAMETERS.

Ltac concrete := vm_compute; repeat split; congruence.
Lemma params_fine : params_ok params.
Proof. split; [concrete..|]. apply NoDup_singleton. Qed.
Lemma snapshot_fine issuers fees : Z.of_nat (length issuers) <= u64_max → snapshot_ok (db issuers fees).
Proof.
  intros Hlen. split; [concrete| |repeat constructor; concrete|repeat constructor; concrete| |concrete|done].
  - apply NoDup_cons. split; [|apply NoDup_singleton]. intros H%list_elem_of_singleton. discriminate H.
  - intros id row [[= -> ->]|[]%elem_of_nil]%elem_of_cons. split; [done|apply params_fine].
Qed.
Lemma governance_fine issuers fees : governance_rows_ok MAINNET_ERA_HISTORY (db issuers fees).
Proof.
  split; [|repeat constructor; concrete]. apply Forall_singleton. split; [concrete..|constructor|by intros].
Qed.
Lemma circulating_fine issuers fees :
  circulating (db issuers fees) (stake_of claim (snap_proposals (db issuers fees))) = 105719000000.
Proof. reflexivity. Qed.
End SampleSnapshot.

Lemma stake_summary_consistent_witness : let db := SampleSnapshot.db [(133661020, [7]); (133661040, [9])] 0 in
  ∃ g s, GovernanceSummary_new MAINNET_ERA_HISTORY db = Ok g ∧ StakeSummary_new (E := Error) db g = Ok s ∧ summary_ok db s.
Proof.
  apply (stake_summary_consistent MAINNET_ERA_HISTORY (SampleSnapshot.db [(133661020, [7]); (133661040, [9])] 0)).
  - apply SampleSnapshot.snapshot_fine. vm_compute. congruence.
  - apply SampleSnapshot.governance_fine.
  - rewrite SampleSnapshot.circulating_fine. vm_compute. congruence.
Defined.
