(* ===== verification/Rewards.v ===== *)
(** * Rewards

    [amaru-ledger/src/summary/rewards.rs]: how the rewards of an epoch are taken from
    the reserves and the fees, shared between the treasury, the pools, their operators
    and their delegators; and [amaru-ledger/src/epoch_transition/rewards_state.rs]:
    the rewards between their computation and their payment.

    Ratios are of natural numbers ([Ratio<BigUint>]): subtracting a larger one or
    dividing by zero panics, as does rounding to a number of lovelace that does not
    fit in 64 bits. *)

From Stdlib Require Import QArith Qround Qminmax.
From S2P Require Import Prelude EraHistory UplcSyntax SortedPairs ProtocolParameters Governance Summary StakeSummary.
#[local] Open Scope Z_scope.

Module Rewards.
Import Stake(StakeSummary, stake_distribution, accounts, Snapshot, snap_block_issuers, snap_pots).

(** ** Arithmetic of ratios *)

Definition ratio_of (n : Z) : SafeRatio := inject_Z n.
Definition ratio_add (a b : SafeRatio) : SafeRatio := Qred (a + b).
Definition ratio_mul (a b : SafeRatio) : SafeRatio := Qred (a * b).
Definition ratio_sub {E : Type} (a b : SafeRatio) : exec E SafeRatio := if Qle_bool b a then Ok (Qred (a - b)) else Panic.
Definition ratio_div {E : Type} (a b : SafeRatio) : exec E SafeRatio := if Qeq_bool b 0 then Panic else Ok (Qred (a / b)).
Definition ratio_min (a b : SafeRatio) : SafeRatio := if Qle_bool a b then a else b.
Definition floor_to_lovelace {E : Type} (n : SafeRatio) : exec E Z :=
  if Qfloor n <=? u64_max then Ok (Qfloor n) else Panic.

(** ** Pools *)

Definition relative_stake {E : Type} (total_stake : Z) (pool : PoolState) : exec E SafeRatio :=
  safe_ratio (pool_stake pool) total_stake.

Definition owner_stake {E : Type} (accounts : list (Credential * AccountState)) (pool : PoolState) : exec E Z :=
  for_in (owners (parameters pool)) (λ total owner,
    match SortedPairs.get (KeyHash owner) accounts with
    | Some account =>
        if decide (account_pool account = Some (pool_id (parameters pool))) then u64_add total (balance account) else Ok total
    | None => Ok total
    end) 0.

Definition apparent_performances {E : Type} (blocks_ratio : SafeRatio) (active_stake : Z) (pool : PoolState) : exec E SafeRatio :=
  if pool_stake pool =? 0 then Ok SafeRatio_zero
  else ratio_div (ratio_mul blocks_ratio (ratio_of active_stake)) (ratio_of (pool_stake pool)).

Definition optimal_rewards {E : Type} (available_rewards total_stake : Z) (pp : ProtocolParameters) (pool : PoolState) : exec E Z :=
  a0 ← into_safe_ratio (pledge_influence pp);
  z0 ← safe_ratio 1 (optimal_stake_pools_count pp);
  relative_pledge ← safe_ratio (pledge (parameters pool)) total_stake;
  relative_stake ← relative_stake total_stake pool;
  let r := ratio_of available_rewards in
  let p := ratio_min z0 relative_pledge in
  let s := ratio_min z0 relative_stake in
  left ← ratio_div r (ratio_add SafeRatio_one a0);
  d ← ratio_sub z0 s;
  d ← ratio_div (ratio_mul p d) z0;
  d ← ratio_sub s d;
  z0_factor ← ratio_div d z0;
  let right := ratio_add s (ratio_mul (ratio_mul p a0) z0_factor) in
  floor_to_lovelace (ratio_mul left right).

Definition pool_rewards {E : Type} (blocks_ratio : SafeRatio) (available_rewards active_stake total_stake owner_stake : Z)
    (pp : ProtocolParameters) (pool : PoolState) : exec E Z :=
  if pledge (parameters pool) <=? owner_stake then
    performances ← apparent_performances blocks_ratio active_stake pool;
    optimal ← optimal_rewards available_rewards total_stake pp pool;
    floor_to_lovelace (ratio_mul performances (ratio_of optimal))
  else Ok 0.

Definition leader_rewards {E : Type} (pool_rewards owner_stake total_stake : Z) (pool : PoolState) : exec E Z :=
  let cost := cost (parameters pool) in
  if pool_rewards <=? cost then Ok pool_rewards
  else
    relative_stake ← relative_stake total_stake pool;
    owner_stake_ratio ← (if total_stake =? 0 then Ok SafeRatio_zero else safe_ratio owner_stake total_stake);
    rest ← ratio_sub SafeRatio_one (pool_margin pool);
    share ← ratio_div (ratio_mul rest owner_stake_ratio) relative_stake;
    let margin_factor := ratio_add (pool_margin pool) share in
    n ← floor_to_lovelace (ratio_mul margin_factor (ratio_of (pool_rewards - cost)));
    u64_add cost n.

Definition is_owner (pool : PoolState) (member : Credential) : bool :=
  match member with ScriptHash _ => false | KeyHash key => bool_decide (key ∈ owners (parameters pool)) end.

Definition member_rewards {E : Type} (member : Credential) (pool_rewards member_stake total_stake : Z) (pool : PoolState) : exec E Z :=
  if is_owner pool member then Ok 0
  else
    let cost := cost (parameters pool) in
    if pool_rewards <=? cost then Ok 0
    else
      member_relative_stake ← safe_ratio member_stake total_stake;
      rest ← ratio_sub SafeRatio_one (pool_margin pool);
      relative_stake ← relative_stake total_stake pool;
      share ← ratio_div (ratio_mul (ratio_mul rest (ratio_of (pool_rewards - cost))) member_relative_stake) relative_stake;
      floor_to_lovelace share.

(** ** The summary *)

Record PoolRewards := mkPoolRewards { pot : Z; leader : Z }.

Record RewardsSummary := mkRewardsSummary {
  rs_epoch : Z;
  incentives : Z;
  treasury_tax : Z;
  available_rewards : Z;
  effective_rewards : Z;
  rs_accounts : list (Credential * AccountState);
  leader_recipients : gset Credential }.

Definition count_blocks {E : Type} (issuers : list PoolId) : exec E (Z * gmap PoolId Z) :=
  for_in issuers (λ '(total, per_pool) issuer,
    total ← u64_add total 1;
    n ← match per_pool !! issuer with Some n => u64_add n 1 | None => Ok 1 end;
    Ok (total, <[issuer := n]> per_pool)) (0, ∅).

Definition apply_member_rewards {E : Type} (credential : Credential) (account : AccountState) (pool : PoolState)
    (pool_rewards : option PoolRewards) (total_stake : Z) : exec E (Z * AccountState) :=
  match pool_rewards with
  | Some r =>
      n ← member_rewards credential (pot r) (balance account) total_stake pool;
      if 0 <? n then total ← u64_add (rewards account) n; Ok (n, with_rewards total account)
      else Ok (n, account)
  | None => Ok (0, account)
  end.

(** What crediting the operators goes through: the accounts, those who are credited,
    and the blocks of the pools not looked at yet. *)
Record Leaders := mkLeaders {
  l_accounts : list (Credential * AccountState);
  l_recipients : gset Credential;
  l_blocks : gmap PoolId Z }.

Section Apply.
Context (blocks_count available_rewards active_stake total_stake : Z) (pp : ProtocolParameters).

Definition apply_leader_rewards {E : Type} (st : Leaders) (pool : PoolState) : exec E (PoolRewards * Leaders) :=
  owner_stake ← owner_stake (l_accounts st) pool;
  let id := pool_id (parameters pool) in
  blocks_ratio ← safe_ratio (default 0 (l_blocks st !! id)) blocks_count;
  let blocks := delete id (l_blocks st) in
  rewards_pot ← pool_rewards blocks_ratio available_rewards active_stake total_stake owner_stake pp pool;
  rewards_leader ← leader_rewards rewards_pot owner_stake total_stake pool;
  if 0 <? rewards_leader then
    let credential := account_credential (reward_account (parameters pool)) in
    accounts ← match SortedPairs.get credential (l_accounts st) with
               | Some account =>
                   n ← u64_add (rewards account) rewards_leader;
                   Ok (SortedPairs.modify (with_rewards n) credential (l_accounts st))
               | None =>
                   Ok (SortedPairs.insert credential (with_rewards rewards_leader AccountState_default) (l_accounts st))
               end;
    Ok (mkPoolRewards rewards_pot rewards_leader, mkLeaders accounts ({[credential]} ∪ l_recipients st) blocks)
  else Ok (mkPoolRewards rewards_pot rewards_leader, mkLeaders (l_accounts st) (l_recipients st) blocks).

(** The loop over the pools. *)
Definition apply_leaders {E : Type} (pools : list (PoolId * PoolState)) (st : Leaders)
  : exec E (Z * gmap PoolId PoolRewards * Leaders) :=
  for_in pools (λ '(effective_rewards, rewards, st) '(pool_id, pool),
    r ← apply_leader_rewards st pool;
    effective_rewards ← u64_add effective_rewards (leader r.1);
    Ok (effective_rewards, <[pool_id := r.1]> rewards, r.2)) (0, ∅, st).

(** The loop over the accounts. *)
Fixpoint apply_members {E : Type} (pools : gmap PoolId PoolState) (rewards : gmap PoolId PoolRewards)
    (accounts : list (Credential * AccountState)) (effective_rewards : Z) : exec E (Z * list (Credential * AccountState)) :=
  match accounts with
  | [] => Ok (effective_rewards, [])
  | (credential, account) :: rest =>
      r ← match account_pool account ≫= (λ id, pools !! id) with
          | Some pool => apply_member_rewards credential account pool (rewards !! pool_id (parameters pool)) total_stake
          | None => Ok (0, account)
          end;
      effective_rewards ← u64_add effective_rewards r.1;
      rest ← apply_members pools rewards rest effective_rewards;
      Ok (rest.1, (credential, r.2) :: rest.2)
  end.
End Apply.

Definition RewardsSummary_new {E : Type} (s : StakeSummary) (gp : GlobalParameters) (pp : ProtocolParameters)
    (block_issuers : list PoolId) (pots : Pots) : exec E RewardsSummary :=
  r ← count_blocks block_issuers;
  let '(blocks_count, blocks_per_pool) := r in
  expected ← u64_mul blocks_count (active_slot_coeff_inverse gp);
  efficiency ← safe_ratio expected (epoch_length gp);
  let blocks_count := Z.max blocks_count 1 in
  monetary_expansion_rate ← into_safe_ratio (monetary_expansion_rate pp);
  incentives ← floor_to_lovelace
    (ratio_mul (ratio_mul (ratio_min SafeRatio_one efficiency) monetary_expansion_rate) (ratio_of (reserves pots)));
  total_rewards ← u64_add incentives (fees pots);
  treasury_expansion_rate ← into_safe_ratio (treasury_expansion_rate pp);
  treasury_tax ← floor_to_lovelace (ratio_mul treasury_expansion_rate (ratio_of total_rewards));
  available_rewards ← u64_sub total_rewards treasury_tax;
  total_stake ← u64_sub (max_lovelace_supply gp) (reserves pots);
  let sd := stake_distribution s in
  r ← apply_leaders blocks_count available_rewards (active_stake sd) total_stake pp (map_to_list (pools sd))
        (mkLeaders (accounts s) ∅ blocks_per_pool);
  let '(effective_rewards, pool_rewards, st) := r in
  r ← apply_members total_stake (pools sd) pool_rewards (l_accounts st) effective_rewards;
  Ok (mkRewardsSummary (sd_epoch sd) incentives treasury_tax available_rewards r.1 r.2 (l_recipients st)).

Definition delta_reserves {E : Type} (s : RewardsSummary) : exec E Z :=
  n ← u64_add (incentives s) (effective_rewards s);
  u64_sub n (available_rewards s).
Definition delta_treasury (s : RewardsSummary) : Z := treasury_tax s.

(** The computation that runs in the background during an epoch ([BackgroundTasks] of
    [amaru-ledger/src/state.rs]), when it is not cancelled: the stake is that of
    three epochs back, the blocks and the pots those of the previous epoch. *)
Definition compute_rewards (era_history : EraHistory) (rewards_snapshot previous_epoch : Snapshot)
    (gp : GlobalParameters) (pp : ProtocolParameters) : exec Stake.Error RewardsSummary :=
  governance ← Stake.GovernanceSummary_new era_history rewards_snapshot;
  stake_summary ← Stake.StakeSummary_new rewards_snapshot governance;
  RewardsSummary_new stake_summary gp pp (map snd (snap_block_issuers previous_epoch)) (snap_pots previous_epoch).
End Rewards.
