(* ===== verification/RewardsProps.v ===== *)
(** * Properties of rewards

    What is given out never exceeds what is available: the pots of the pools add up to
    at most the available rewards, since performances are relative, and what an
    operator and the members of a pool receive adds up to at most its pot.  So the
    computation goes through without overflow, and the rewards of the accounts are
    exactly the rewards it reports.  At the end, what the reserves change by, and the rates that an update of
    the parameters exchanges. *)

From Stdlib Require Import QArith Qround Lqa.
From S2P Require Import Prelude EraHistory UplcSyntax SortedPairs ProtocolParameters Governance Summary PoolsUpdates StakeSummary StakeProps Rewards.
Import Stake(StakeSummary, stake_distribution, accounts).
Import Rewards.
#[local] Open Scope Z_scope.

(** ** Ratios *)

Lemma ratio_of_le a b : a <= b → (ratio_of a <= ratio_of b)%Q.
Proof. intros. unfold ratio_of. by rewrite <- Zle_Qle. Qed.
Lemma ratio_of_nonneg a : 0 <= a → (0 <= ratio_of a)%Q.
Proof. intros. by apply (ratio_of_le 0). Qed.
Lemma ratio_of_pos a : 0 < a → (0 < ratio_of a)%Q.
Proof. intros. unfold ratio_of. change 0%Q with (inject_Z 0). by rewrite <- Zlt_Qlt. Qed.
Lemma le_ratio_of a b : (ratio_of a <= ratio_of b)%Q → a <= b.
Proof. unfold ratio_of. by rewrite <- Zle_Qle. Qed.
Lemma ratio_of_plus a b : (ratio_of (a + b) == ratio_of a + ratio_of b)%Q.
Proof. unfold ratio_of. by rewrite inject_Z_plus. Qed.
Lemma ratio_of_minus a b : (ratio_of (a - b) == ratio_of a - ratio_of b)%Q.
Proof. unfold ratio_of, Qminus. by rewrite <- inject_Z_opp, <- inject_Z_plus. Qed.
Lemma ratio_of_mult a b : (ratio_of (a * b) == ratio_of a * ratio_of b)%Q.
Proof. unfold ratio_of. by rewrite inject_Z_mult. Qed.

Lemma safe_ratio_spec {E : Type} n d : 0 < d → ∃ q, safe_ratio (E := E) n d = Ok q ∧ (q * ratio_of d == ratio_of n)%Q.
Proof.
  intros Hd. unfold safe_ratio. rewrite (proj2 (Z.eqb_neq _ _)) by lia. eexists. split; [done|].
  rewrite Qred_correct. unfold ratio_of, Qeq, Qmult, inject_Z. cbn. rewrite Pos.mul_1_r, Z2Pos.id by lia. lia.
Qed.
Lemma ratio_sub_spec {E : Type} a b : (b <= a)%Q → ∃ q, ratio_sub (E := E) a b = Ok q ∧ (q == a - b)%Q.
Proof. intros Hab. unfold ratio_sub. rewrite (proj2 (Qle_bool_iff _ _) Hab). eexists. split; [done|]. apply Qred_correct. Qed.
Lemma ratio_div_spec {E : Type} a b : (0 < b)%Q → ∃ q, ratio_div (E := E) a b = Ok q ∧ (q * b == a)%Q.
Proof.
  intros Hb. unfold ratio_div. destruct (Qeq_bool b 0) eqn:H0.
  - apply Qeq_bool_eq in H0. rewrite H0 in Hb. by apply Qlt_irrefl in Hb.
  - eexists. split; [done|]. rewrite Qred_correct. apply Qeq_bool_neq in H0. field. done.
Qed.
Lemma ratio_min_spec a b : (ratio_min a b <= a)%Q ∧ (ratio_min a b <= b)%Q ∧ (ratio_min a b = a ∨ ratio_min a b = b).
Proof.
  unfold ratio_min. destruct (Qle_bool a b) eqn:Hab; [apply Qle_bool_iff in Hab|].
  - split; [apply Qle_refl|]. split; [done|by left].
  - assert (b < a)%Q as Hlt. { apply Qnot_le_lt. intros Hle. apply Qle_bool_iff in Hle. congruence. }
    split; [by apply Qlt_le_weak|]. split; [apply Qle_refl|by right].
Qed.
Lemma floor_spec {E : Type} q : (0 <= q)%Q → (q <= ratio_of u64_max)%Q →
  ∃ n, floor_to_lovelace (E := E) q = Ok n ∧ 0 <= n ∧ (ratio_of n <= q)%Q.
Proof.
  intros H0 Hmax. unfold floor_to_lovelace. pose proof (Qfloor_le q) as Hle.
  assert (Qfloor q <= u64_max) as Hm. { apply le_ratio_of. unfold ratio_of at 1. eapply Qle_trans; [exact Hle|done]. }
  rewrite (proj2 (Z.leb_le _ _) Hm). eexists. split; [done|]. split; [|done].
  change 0 with (Qfloor 0). by apply Qfloor_resp_le.
Qed.

(** ** A pool *)

(** The rewards of a pool, were it to perform perfectly, are no more than its share of
    the stake. *)
Lemma optimal_share (z s p a0 r sigma u f left right : Q) : (0 < z → 0 <= p → p <= s → s <= z → s <= sigma → 0 <= a0 → 0 <= r →
  u * z == p * (z - s) → f * z == s - u → left * (1 + a0) == r → right == s + p * a0 * f →
  0 <= u ∧ u <= s ∧ (0 <= left * right ∧ left * right <= r * sigma))%Q.
Proof.
  intros Hz Hp Hps Hsz Hss Ha Hr Hu Hf Hl Hright.
  assert (0 <= u)%Q as Hu0 by nra.
  assert (u <= p)%Q as Hup by nra.
  assert (0 <= f)%Q as Hf0 by nra.
  assert (p * f <= s)%Q as Hpf by nra.
  assert (0 <= p * f)%Q as Hpf0 by nra.
  assert (0 <= left)%Q as Hl0 by nra.
  assert (right <= s * (1 + a0))%Q as Hrs by nra.
  assert (0 <= right)%Q as Hr0 by nra.
  split; [done|]. split; [lra|]. split; [nra|].
  assert (left * right <= left * (s * (1 + a0)))%Q as H1 by nra.
  assert (left * (s * (1 + a0)) == r * s)%Q as H2 by nra.
  nra.
Qed.

Lemma ratio_wf_spec {E : Type} r : ratio_wf r → ∃ q, into_safe_ratio (E := E) r = Ok q ∧ (0 <= q)%Q ∧
  (numerator r <= denominator r → (q <= 1)%Q).
Proof.
  intros ([Hn _] & [Hd _] & _). destruct (safe_ratio_spec (E := E) (numerator r) (denominator r) Hd) as (q & Hq & Heq).
  exists q. split; [done|]. pose proof (ratio_of_nonneg _ Hn). pose proof (ratio_of_pos _ Hd). split; [nra|].
  intros Hle%ratio_of_le. nra.
Qed.

Section Pool.
Context (R T A N : Z) (pp : ProtocolParameters).
Context (HR : 0 <= R <= u64_max) (HT : 0 < T) (HA : 0 <= A <= T) (HN : 0 < N).
Context (Ha0 : ratio_wf (pledge_influence pp)) (Hk : 0 < optimal_stake_pools_count pp).

Lemma optimal_rewards_ok {E : Type} pool : 0 <= pledge (parameters pool) <= pool_stake pool → pool_stake pool <= T →
  ∃ n, optimal_rewards (E := E) R T pp pool = Ok n ∧ 0 <= n ∧ n * T <= R * pool_stake pool.
Proof using HR HT Ha0 Hk.
  intros Hpl HS. unfold optimal_rewards, relative_stake.
  destruct (ratio_wf_spec (E := E) _ Ha0) as (a0 & -> & Ha & _). cbn [mbind exec_bind].
  destruct (safe_ratio_spec (E := E) 1 _ Hk) as (z & -> & Hz). cbn [mbind exec_bind].
  destruct (safe_ratio_spec (E := E) (pledge (parameters pool)) T HT) as (pl & -> & Hpleq). cbn [mbind exec_bind].
  destruct (safe_ratio_spec (E := E) (pool_stake pool) T HT) as (sg & -> & Hsg). cbn [mbind exec_bind].
  pose proof (ratio_of_pos _ Hk) as Hk'. pose proof (ratio_of_pos _ HT) as HT'. pose proof (ratio_of_nonneg R ltac:(lia)) as HR'.
  pose proof (ratio_of_nonneg (pledge (parameters pool)) ltac:(lia)) as Hpl0.
  pose proof (ratio_of_le (pledge (parameters pool)) (pool_stake pool) ltac:(lia)) as Hpls.
  pose proof (ratio_of_le _ _ HS) as HS'.
  assert (0 < z)%Q as Hz0. { assert (ratio_of 1 == 1)%Q as H1 by reflexivity. rewrite H1 in Hz. nra. }
  assert (0 <= pl)%Q as Hpl1 by nra. assert (pl <= sg)%Q as Hplsg by nra. assert (sg <= 1)%Q as Hsg1 by nra.
  set (p := ratio_min z pl). set (s := ratio_min z sg).
  destruct (ratio_min_spec z pl) as (Hpz & Hppl & Hpc). destruct (ratio_min_spec z sg) as (Hsz & Hssg & Hsc).
  fold p in Hpz, Hppl, Hpc. fold s in Hsz, Hssg, Hsc.
  assert (0 <= p)%Q as Hp0 by (destruct Hpc as [Hc|Hc]; rewrite Hc; lra).
  assert (p <= s)%Q as Hps by (destruct Hsc as [Hc|Hc]; rewrite Hc; lra).
  destruct (ratio_div_spec (E := E) (ratio_of R) (ratio_add SafeRatio_one a0)) as (left & -> & Hl).
  { unfold ratio_add, SafeRatio_one. rewrite Qred_correct. lra. }
  unfold ratio_add at 1, SafeRatio_one in Hl. rewrite Qred_correct in Hl. cbn [mbind exec_bind].
  destruct (ratio_sub_spec (E := E) z s Hsz) as (d & -> & Hd). cbn [mbind exec_bind].
  destruct (ratio_div_spec (E := E) (ratio_mul p d) z Hz0) as (u & -> & Hu). unfold ratio_mul at 1 in Hu. rewrite Qred_correct in Hu.
  cbn [mbind exec_bind].
  assert (u <= s)%Q as Hus by (rewrite Hd in Hu; nra).
  destruct (ratio_sub_spec (E := E) s u Hus) as (d2 & -> & Hd2). cbn [mbind exec_bind].
  destruct (ratio_div_spec (E := E) d2 z Hz0) as (f & -> & Hf). cbn [mbind exec_bind].
  set (right := ratio_add s _). assert (right == s + p * a0 * f)%Q as Hright.
  { unfold right, ratio_add, ratio_mul. rewrite !Qred_correct. reflexivity. }
  destruct (optimal_share z s p a0 (ratio_of R) sg u f left right) as (_ & _ & Hlr0 & Hlr); try done.
  { by rewrite Hu, Hd. } { by rewrite Hf, Hd2. }
  destruct (floor_spec (E := E) (ratio_mul left right)) as (n & -> & Hn0 & Hn).
  { unfold ratio_mul. rewrite Qred_correct. done. }
  { unfold ratio_mul. rewrite Qred_correct. pose proof (ratio_of_le R u64_max ltac:(lia)). nra. }
  unfold ratio_mul in Hn. rewrite Qred_correct in Hn. exists n. split; [done|]. split; [done|].
  apply le_ratio_of. rewrite !ratio_of_mult. nra.
Qed.

Lemma pool_rewards_ok {E : Type} pool b beta owner : 0 <= b <= N → (beta * ratio_of N == ratio_of b)%Q →
  0 <= pledge (parameters pool) → owner <= pool_stake pool → 0 <= pool_stake pool <= T →
  ∃ P, pool_rewards (E := E) beta R A T owner pp pool = Ok P ∧ 0 <= P ∧ P * N <= b * R ∧ (pool_stake pool = 0 → P = 0).
Proof using HR HT HA HN Ha0 Hk.
  intros Hb Hbeta Hpl Ho HS. unfold pool_rewards. destruct (Z.leb_spec (pledge (parameters pool)) owner).
  2: { exists 0. split; [done|]. split; [done|]. split; [nia|done]. }
  destruct (optimal_rewards_ok (E := E) pool) as (opt & Hopt & Hopt0 & Hoptle); [lia..|].
  unfold apparent_performances. destruct (Z.eqb_spec (pool_stake pool) 0) as [HS0|HS0].
  { cbn [mbind exec_bind]. rewrite Hopt. cbn [mbind exec_bind]. exists 0. split; [|split; [done|split; [nia|done]]].
    unfold ratio_mul, SafeRatio_zero, floor_to_lovelace. assert (Qfloor (Qred (0 * ratio_of opt)) = 0) as ->; [|done].
    rewrite (Qred_complete _ 0) by (unfold Qeq; cbn; lia). done. }
  destruct (ratio_div_spec (E := E) (ratio_mul beta (ratio_of A)) (ratio_of (pool_stake pool))) as (perf & -> & Hperf).
  { apply ratio_of_pos. lia. }
  unfold ratio_mul in Hperf. rewrite Qred_correct in Hperf. cbn [mbind exec_bind]. rewrite Hopt. cbn [mbind exec_bind].
  pose proof (ratio_of_pos _ HN) as HN'. pose proof (ratio_of_pos _ HT) as HT'. pose proof (ratio_of_pos (pool_stake pool) ltac:(lia)) as HS'.
  pose proof (ratio_of_nonneg b ltac:(lia)) as Hb'. pose proof (ratio_of_nonneg A ltac:(lia)) as HA0.
  pose proof (ratio_of_le A T ltac:(lia)) as HAT. pose proof (ratio_of_nonneg opt Hopt0) as Hopt'.
  pose proof (ratio_of_nonneg R ltac:(lia)) as HR0. pose proof (ratio_of_le b N ltac:(lia)) as HbN.
  pose proof (ratio_of_le _ _ Hoptle) as Hol. rewrite !ratio_of_mult in Hol.
  set (S := ratio_of (pool_stake pool)) in *.
  assert (0 <= beta)%Q as Hbeta0 by nra.
  assert (0 <= perf)%Q as Hperf0. { assert (0 <= beta * ratio_of A)%Q by nra. nra. }
  (* perf * opt <= beta * R *)
  assert (perf * ratio_of opt * ratio_of T <= beta * ratio_of A * ratio_of R)%Q as H1.
  { assert (perf * (ratio_of opt * ratio_of T) <= perf * (ratio_of R * S))%Q by nra. nra. }
  assert (perf * ratio_of opt <= beta * ratio_of R)%Q as H2.
  { assert (0 <= beta * ratio_of R)%Q by nra. assert (beta * ratio_of R * ratio_of A <= beta * ratio_of R * ratio_of T)%Q by nra. nra. }
  assert (beta <= 1)%Q as Hbeta1 by nra.
  destruct (floor_spec (E := E) (ratio_mul perf (ratio_of opt))) as (P & HP & HP0 & HPle).
  { unfold ratio_mul. rewrite Qred_correct. nra. }
  { unfold ratio_mul. rewrite Qred_correct. pose proof (ratio_of_le R u64_max ltac:(lia)). nra. }
  exists P. split; [done|]. split; [done|]. split; [|done]. unfold ratio_mul in HPle. rewrite Qred_correct in HPle.
  apply le_ratio_of. rewrite !ratio_of_mult, <- Hbeta. nra.
Qed.

(** What is left to the members of a pool, once its operator is served. *)
Definition members_part (pool : PoolState) (P : Z) : Q :=
  if P <=? cost (parameters pool) then 0 else (1 - pool_margin pool) * ratio_of (P - cost (parameters pool)).

Lemma leader_rewards_ok {E : Type} pool P owner : 0 <= P <= R → 0 <= owner <= pool_stake pool → pool_stake pool <= T →
  0 <= cost (parameters pool) → (pool_stake pool = 0 → P = 0) → (0 <= pool_margin pool)%Q → (pool_margin pool <= 1)%Q →
  ∃ L, leader_rewards (E := E) P owner T pool = Ok L ∧ 0 <= L <= P ∧
    (ratio_of L * ratio_of (pool_stake pool) <= ratio_of P * ratio_of (pool_stake pool) -
      members_part pool P * (ratio_of (pool_stake pool) - ratio_of owner))%Q.
Proof using HR HT.
  intros HP Ho HS Hc HS0 Hm0 Hm1. unfold leader_rewards, members_part.
  destruct (Z.leb_spec P (cost (parameters pool))) as [Hle|Hgt]; cbv iota; [exists P; split; [done|]; split; [lia|]; lra|].
  assert (0 < pool_stake pool) as HSpos by lia. unfold relative_stake. set (c := cost (parameters pool)) in *. set (m := pool_margin pool) in *.
  destruct (safe_ratio_spec (E := E) (pool_stake pool) T HT) as (rel & -> & Hrel). cbn [mbind exec_bind].
  rewrite (proj2 (Z.eqb_neq T 0)) by lia.
  destruct (safe_ratio_spec (E := E) owner T HT) as (so & -> & Hso). cbn [mbind exec_bind].
  destruct (ratio_sub_spec (E := E) SafeRatio_one m) as (rest & -> & Hrest); [unfold SafeRatio_one; lra|]. cbn [mbind exec_bind].
  unfold SafeRatio_one in Hrest.
  pose proof (ratio_of_pos _ HT) as HT'. pose proof (ratio_of_pos _ HSpos) as HS'. pose proof (ratio_of_nonneg owner ltac:(lia)) as Ho0.
  pose proof (ratio_of_le owner (pool_stake pool) ltac:(lia)) as HoS. pose proof (ratio_of_pos (P - c) ltac:(lia)) as HPc.
  set (S := ratio_of (pool_stake pool)) in *. set (w := ratio_of owner) in *.
  destruct (ratio_div_spec (E := E) (ratio_mul rest so) rel) as (share & -> & Hshare); [nra|]. cbn [mbind exec_bind].
  unfold ratio_mul in Hshare. rewrite Qred_correct in Hshare.
  assert (share * S == rest * w)%Q as Hsw.
  { rewrite <- Hrel, <- Hso. rewrite Qmult_assoc, Hshare. ring. }
  assert (0 <= share)%Q as Hsh0. { assert (0 <= rest * w)%Q by nra. nra. }
  assert (share <= rest)%Q as Hsh1. { assert (rest * w <= rest * S)%Q by nra. nra. }
  set (mf := ratio_add m share). assert (mf == m + share)%Q as Hmf by (unfold mf, ratio_add; apply Qred_correct).
  destruct (floor_spec (E := E) (ratio_mul mf (ratio_of (P - c)))) as (n & -> & Hn0 & Hn).
  { unfold ratio_mul. rewrite Qred_correct. nra. }
  { unfold ratio_mul. rewrite Qred_correct. pose proof (ratio_of_le (P - c) u64_max ltac:(lia)). nra. }
  unfold ratio_mul in Hn. rewrite Qred_correct in Hn. cbn [mbind exec_bind].
  assert (n <= P - c) as HnP by (apply le_ratio_of; nra).
  rewrite u64_add_le by lia. exists (c + n). split; [done|]. split; [lia|]. rewrite ratio_of_plus.
  assert (ratio_of P == ratio_of c + ratio_of (P - c))%Q as -> by (rewrite <- ratio_of_plus; replace (c + (P - c)) with P by lia; reflexivity).
  assert (ratio_of n * S <= mf * ratio_of (P - c) * S)%Q as H1 by nra.
  assert (mf * ratio_of (P - c) * S == ratio_of (P - c) * (m * S + rest * w))%Q as H2 by (rewrite Hmf, <- Hsw; ring).
  rewrite Hrest in H2. nra.
Qed.

Lemma member_rewards_ok {E : Type} pool P member t : 0 <= P <= R → 0 <= t <= pool_stake pool → pool_stake pool <= T →
  0 <= cost (parameters pool) → (pool_stake pool = 0 → P = 0) → (0 <= pool_margin pool)%Q → (pool_margin pool <= 1)%Q →
  ∃ n, member_rewards (E := E) member P t T pool = Ok n ∧ 0 <= n ∧ (is_owner pool member = true → n = 0) ∧
    (ratio_of n * ratio_of (pool_stake pool) <= members_part pool P * ratio_of t)%Q.
Proof using HR HT.
  intros HP Ht HS Hc HS0 Hm0 Hm1. unfold member_rewards, members_part. pose proof (ratio_of_nonneg t ltac:(lia)) as Ht0.
  destruct (is_owner pool member).
  { exists 0. split; [done|]. split; [done|]. split; [done|]. destruct (Z.leb_spec P (cost (parameters pool))); cbv iota; [change (ratio_of 0) with 0%Q; lra|].
    pose proof (ratio_of_pos (P - cost (parameters pool)) ltac:(lia)). change (ratio_of 0) with 0%Q.
    assert (0 <= (1 - pool_margin pool) * ratio_of (P - cost (parameters pool)))%Q by nra. nra. }
  destruct (Z.leb_spec P (cost (parameters pool))) as [Hle|Hgt]; cbv iota; [exists 0; split; [done|]; split; [done|]; split; [done|]; change (ratio_of 0) with 0%Q; lra|].
  assert (0 < pool_stake pool) as HSpos by lia. unfold relative_stake. set (c := cost (parameters pool)) in *. set (m := pool_margin pool) in *.
  destruct (safe_ratio_spec (E := E) t T HT) as (mr & -> & Hmr). cbn [mbind exec_bind].
  destruct (ratio_sub_spec (E := E) SafeRatio_one m) as (rest & -> & Hrest); [unfold SafeRatio_one; lra|]. cbn [mbind exec_bind].
  unfold SafeRatio_one in Hrest.
  destruct (safe_ratio_spec (E := E) (pool_stake pool) T HT) as (rel & -> & Hrel). cbn [mbind exec_bind].
  pose proof (ratio_of_pos _ HT) as HT'. pose proof (ratio_of_pos _ HSpos) as HS'.
  pose proof (ratio_of_le t (pool_stake pool) ltac:(lia)) as HtS. pose proof (ratio_of_pos (P - c) ltac:(lia)) as HPc.
  set (S := ratio_of (pool_stake pool)) in *.
  destruct (ratio_div_spec (E := E) (ratio_mul (ratio_mul rest (ratio_of (P - c))) mr) rel) as (share & -> & Hshare); [nra|].
  unfold ratio_mul in Hshare. rewrite !Qred_correct in Hshare. cbn [mbind exec_bind].
  assert (share * S == rest * ratio_of (P - c) * ratio_of t)%Q as Hsw.
  { rewrite <- Hrel, <- Hmr. rewrite Qmult_assoc, Hshare. ring. }
  set (M := (rest * ratio_of (P - c))%Q) in *. assert (0 <= M)%Q as HM by (unfold M; nra).
  assert (M <= ratio_of (P - c))%Q as HM1 by (unfold M; nra).
  destruct (floor_spec (E := E) share) as (n & -> & Hn0 & Hn).
  { assert (0 <= M * ratio_of t)%Q by nra. nra. }
  { pose proof (ratio_of_le (P - c) u64_max ltac:(lia)). assert (M * ratio_of t <= M * S)%Q by nra. nra. }
  exists n. split; [done|]. split; [done|]. split; [done|]. rewrite <- Hrest. fold M. nra.
Qed.
End Pool.

(** ** The stake of owners *)

(** What the rewards read of an account: its pool and its balance. *)
Definition stake_view (o : option AccountState) : option PoolId * Z :=
  from_option (λ a, (account_pool a, balance a)) (None, 0) o.
Definition same_stakes (l0 l : list (Credential * AccountState)) : Prop :=
  SortedPairs.ascending l ∧ ∀ k, stake_view (SortedPairs.get k l) = stake_view (SortedPairs.get k l0).

Definition owner_part (id : PoolId) (l : list (Credential * AccountState)) (owner : list Z) : Z :=
  let v := stake_view (SortedPairs.get (KeyHash owner) l) in if decide (v.1 = Some id) then v.2 else 0.

Lemma owner_part_same l0 l id o : same_stakes l0 l → owner_part id l o = owner_part id l0 o.
Proof. intros [_ Hs]. unfold owner_part. by rewrite Hs. Qed.

Lemma get_account (l : list (Credential * AccountState)) k a : SortedPairs.ascending l → SortedPairs.get k l = Some a ↔ (k, a) ∈ l.
Proof.
  intros Hl. rewrite SortedPairs.get_to_map by done. unfold SortedPairs.to_map. split; [apply elem_of_list_to_map_2|].
  apply elem_of_list_to_map_1, SortedPairs.ascending_NoDup, Hl.
Qed.

Lemma owner_part_nonneg id l o : SortedPairs.ascending l → Forall (λ a, 0 <= balance a.2) l → 0 <= owner_part id l o.
Proof.
  intros Hl Hb. unfold owner_part. case_decide; [|done]. destruct (SortedPairs.get (KeyHash o) l) as [a|] eqn:Ha; [|done].
  apply get_account in Ha; [|done]. rewrite Forall_forall in Hb. by apply Hb in Ha.
Qed.

Lemma owner_stake_sum {E : Type} l pool : ∀ os n, SortedPairs.ascending l → Forall (λ a, 0 <= balance a.2) l →
  n + stake_of (owner_part (pool_id (parameters pool)) l) os <= u64_max →
  for_in (E := E) os (λ total owner,
    match SortedPairs.get (KeyHash owner) l with
    | Some account =>
        if decide (account_pool account = Some (pool_id (parameters pool))) then u64_add total (balance account) else Ok total
    | None => Ok total
    end) n = Ok (n + stake_of (owner_part (pool_id (parameters pool)) l) os).
Proof.
  induction os as [|o os IH]; intros n Hl Hb Hmax; cbn [for_in].
  { f_equal. unfold stake_of. cbn. lia. }
  rewrite stake_of_cons in *. set (part := owner_part (pool_id (parameters pool)) l o) in *.
  assert (0 <= stake_of (owner_part (pool_id (parameters pool)) l) os) as Hpos.
  { apply stake_nonneg, Forall_forall. intros x _. by apply owner_part_nonneg. }
  assert ((match SortedPairs.get (KeyHash o) l with
    | Some account =>
        if decide (account_pool account = Some (pool_id (parameters pool))) then u64_add (E := E) n (balance account) else Ok n
    | None => Ok n
    end) = Ok (n + part)) as ->.
  { unfold part, owner_part in *. destruct (SortedPairs.get (KeyHash o) l) as [a|]; cbn [stake_view from_option fst snd] in *.
    - case_decide; [by rewrite u64_add_le by lia|]. f_equal. lia.
    - rewrite decide_False in * by done. f_equal. lia. }
  cbn [mbind exec_bind]. rewrite IH by (done || lia). f_equal. lia.
Qed.

Lemma list_to_map_keyed {A B : Type} (g : Credential → A → B) (l : list (Credential * A)) k :
  (list_to_map (map (λ a, (a.1, g a.1 a.2)) l) : gmap Credential B) !! k = g k <$> (list_to_map l : gmap Credential A) !! k.
Proof.
  induction l as [|[k' a] l IH]; cbn; [done|]. destruct (decide (k' = k)) as [->|Hne].
  - by rewrite !lookup_insert_eq.
  - by rewrite !lookup_insert_ne.
Qed.

Definition member_stake (pool : PoolState) (a : Credential * AccountState) : Z :=
  if is_owner pool a.1 then 0 else delegated (pool_id (parameters pool)) a.

(** The owners and the other members of a pool hold its stake. *)
Lemma owners_and_members pool l : SortedPairs.ascending l → Forall (λ a, 0 <= balance a.2) l → NoDup (owners (parameters pool)) →
  stake_of (owner_part (pool_id (parameters pool)) l) (owners (parameters pool)) + stake_of (member_stake pool) l <=
  stake_of (delegated (pool_id (parameters pool))) l.
Proof.
  intros Hl Hb Hnd. set (id := pool_id (parameters pool)).
  set (g := λ (k : Credential) (a : AccountState), if is_owner pool k then delegated id (k, a) else 0).
  set (w := list_to_map (map (λ a, (a.1, g a.1 a.2)) l) : gmap Credential Z).
  pose proof (SortedPairs.ascending_NoDup _ Hl) as Hndl.
  assert (∀ k a, (k, a) ∈ l → 0 <= delegated id (k, a)) as Hdel.
  { intros k a Hin. rewrite Forall_forall in Hb. apply Hb in Hin. unfold delegated. cbn [snd] in *. case_decide; [done|lia]. }
  assert (nonneg w) as Hw.
  { intros k n. unfold w. rewrite list_to_map_keyed. intros (a & Ha & ->)%fmap_Some. apply elem_of_list_to_map_2 in Ha.
    unfold g. case_match; [by apply Hdel|done]. }
  assert (sum_amounts w = stake_of (λ a, g a.1 a.2) l) as Hsum.
  { unfold sum_amounts, w. rewrite total_list_to_map, stake_of_map; [done|]. rewrite map_map. by rewrite (map_ext _ fst). }
  assert (stake_of (owner_part id l) (owners (parameters pool)) <= sum_amounts w) as Ho.
  { pose proof (amounts_distinct w (map (λ o, (KeyHash o, tt)) (owners (parameters pool))) Hw) as Hd.
    rewrite stake_of_map in Hd. cbn [fst] in Hd. rewrite map_map in Hd.
    rewrite (stake_of_ext _ (λ o, amount_of w (KeyHash o))); [apply Hd|].
    - cbn [fst]. apply NoDup_fmap_2; [by intros ? ? [=]|done].
    - intros o Ho. unfold owner_part, amount_of, w. rewrite list_to_map_keyed.
      rewrite SortedPairs.get_to_map by done. unfold SortedPairs.to_map.
      destruct (list_to_map l !! KeyHash o) as [a|]; cbn [stake_view from_option fst snd fmap option_fmap option_map default id].
      + unfold g. cbn [is_owner]. by rewrite bool_decide_eq_true_2.
      + by rewrite decide_False. }
  assert (stake_of (delegated id) l = stake_of (λ a, g a.1 a.2) l + stake_of (member_stake pool) l) as ->; [|lia].
  rewrite <- stake_of_plus. apply stake_of_ext. intros [k a] _. unfold g, member_stake. cbn [fst snd]. fold id.
  destruct (is_owner pool k); lia.
Qed.

(** ** Crediting an operator *)

Abbreviation granted l := (stake_of (λ a : Credential * AccountState, rewards a.2) l).
Abbreviation granted_ok l := (Forall (λ a : Credential * AccountState, 0 <= rewards a.2) l).

Lemma granted_to_map l : SortedPairs.ascending l → granted_ok l ↔ map_Forall (λ _ a, 0 <= rewards a) (SortedPairs.to_map l).
Proof.
  intros Hl. rewrite Forall_forall. split.
  - intros Hf k a Ha. apply elem_of_list_to_map_2 in Ha. by apply Hf in Ha.
  - intros Hf [k a] Hin. apply (Hf k a). apply elem_of_list_to_map_1; [by apply SortedPairs.ascending_NoDup|done].
Qed.

Lemma pay_operator {E : Type} c n (l : list (Credential * AccountState)) : SortedPairs.ascending l → granted_ok l → 0 <= n →
  granted l + n <= u64_max →
  ∃ l', (match SortedPairs.get c l with
         | Some account => m ← u64_add (E := E) (rewards account) n; Ok (SortedPairs.modify (with_rewards m) c l)
         | None => Ok (SortedPairs.insert c (with_rewards n AccountState_default) l)
         end) = Ok l' ∧ SortedPairs.ascending l' ∧ granted_ok l' ∧ granted l' = granted l + n ∧
    ∀ k, stake_view (SortedPairs.get k l') = stake_view (SortedPairs.get k l).
Proof.
  intros Hl Hg Hn Hmax. apply granted_to_map in Hg; [|done]. rewrite (stake_of_to_map rewards l Hl) in *.
  rewrite SortedPairs.get_to_map by done. destruct (SortedPairs.to_map l !! c) as [a|] eqn:Ha.
  - pose proof (total_lookup rewards _ c a Hg Ha). rewrite u64_add_le by lia. cbn [mbind exec_bind]. eexists. split; [done|].
    assert (SortedPairs.ascending (SortedPairs.modify (with_rewards (rewards a + n)) c l)) as Hl' by (by apply SortedPairs.ascending_modify).
    rewrite (granted_to_map _ Hl'), (stake_of_to_map rewards _ Hl').
    rewrite (SortedPairs.to_map_modify _ _ _ Hl), alter_alt, Ha. split; [done|]. split; [|split].
    + apply map_Forall_insert_2; [cbn; lia|done].
    + rewrite (total_insert_old _ _ _ _ _ Ha). cbn. lia.
    + intros k. rewrite !SortedPairs.get_to_map, (SortedPairs.to_map_modify _ _ _ Hl), alter_alt, Ha by done.
      destruct (decide (c = k)) as [<-|Hne]; [by rewrite lookup_insert_eq, Ha|by rewrite lookup_insert_ne].
  - eexists. split; [done|].
    assert (SortedPairs.ascending (SortedPairs.insert c (with_rewards n AccountState_default) l)) as Hl'
      by (by apply SortedPairs.ascending_insert).
    rewrite (granted_to_map _ Hl'), (stake_of_to_map rewards _ Hl').
    rewrite (SortedPairs.to_map_insert _ _ _ Hl). split; [done|]. split; [|split].
    + apply map_Forall_insert_2; [cbn; lia|done].
    + rewrite total_insert_new by done. cbn. lia.
    + intros k. rewrite !SortedPairs.get_to_map, (SortedPairs.to_map_insert _ _ _ Hl) by done.
      destruct (decide (c = k)) as [<-|Hne]; [by rewrite lookup_insert_eq, Ha|by rewrite lookup_insert_ne].
Qed.

(** ** The operators *)

Section Round.
Context (R T A N : Z) (pp : ProtocolParameters).
Context (HR : 0 <= R <= u64_max) (HT : 0 < T) (HTm : T <= u64_max) (HA : 0 <= A <= T) (HN : 0 < N).
Context (Ha0 : ratio_wf (pledge_influence pp)) (Hk : 0 < optimal_stake_pools_count pp).
Context (l0 : list (Credential * AccountState)) (pools0 : gmap PoolId PoolState) (blocks0 : gmap PoolId Z).
Context (Hl0 : SortedPairs.ascending l0) (Hb0 : Forall (λ a, 0 <= balance a.2) l0).
Context (Hblocks : map_Forall (λ _ n, 0 <= n) blocks0).

(** A pool of the stake distribution. *)
Record pool_fit (id : PoolId) (p : PoolState) : Prop := {
  pf_id : pool_id (parameters p) = id;
  pf_stake : pool_stake p = stake_of (delegated id) l0;
  pf_total : pool_stake p <= T;
  pf_params : params_ok (parameters p);
  pf_margin : (0 <= pool_margin p)%Q ∧ (pool_margin p <= 1)%Q }.
Context (Hpools : map_Forall pool_fit pools0).

Definition blocks_of (id : PoolId) : Z := default 0 (blocks0 !! id).
Definition owners_stake (p : PoolState) : Z := stake_of (owner_part (pool_id (parameters p)) l0) (owners (parameters p)).

(** What a pool and its operator are given. *)
Record pool_paid (id : PoolId) (p : PoolState) (r : PoolRewards) : Prop := {
  pd_pot : 0 <= pot r ∧ pot r * N <= blocks_of id * R;
  pd_zero : pool_stake p = 0 → pot r = 0;
  pd_leader : 0 <= leader r <= pot r;
  pd_share : (ratio_of (leader r) * ratio_of (pool_stake p) <= ratio_of (pot r) * ratio_of (pool_stake p) -
    members_part p (pot r) * (ratio_of (pool_stake p) - ratio_of (owners_stake p)))%Q }.

Lemma same_solvent l : same_stakes l0 l → Forall (λ a, 0 <= balance a.2) l.
Proof using Hl0 Hb0.
  intros [Hl Hv]. apply Forall_forall. intros [k a] Hin. specialize (Hv k). apply get_account in Hin; [|done]. rewrite Hin in Hv.
  cbn [snd]. unfold stake_view in Hv. cbn in Hv. destruct (SortedPairs.get k l0) as [a0|] eqn:H0; cbn in Hv; injection Hv as _ ->; [|done].
  apply get_account in H0; [|done]. rewrite Forall_forall in Hb0. by apply Hb0 in H0.
Qed.

Lemma blocks_of_nonneg id : 0 <= blocks_of id.
Proof using Hblocks. unfold blocks_of. destruct (blocks0 !! id) as [n|] eqn:Hn; [by apply Hblocks in Hn|done]. Qed.

Lemma delegated_nonneg id : Forall (λ a, 0 <= delegated id a) l0.
Proof using Hb0. eapply Forall_impl; [exact Hb0|]. intros a Ha. cbn in Ha. unfold delegated. case_decide; lia. Qed.

Lemma owners_bound id p : pool_fit id p → 0 <= owners_stake p ∧
  owners_stake p + stake_of (member_stake p) l0 <= pool_stake p ∧ 0 <= stake_of (member_stake p) l0.
Proof using Hl0 Hb0.
  intros [Hid HS _ Hpar _]. pose proof (owners_and_members p l0 Hl0 Hb0 (pk_owners _ Hpar)) as Hom.
  fold (owners_stake p) in Hom. rewrite Hid in Hom. split; [|split].
  - apply stake_nonneg, Forall_forall. intros o _. by apply owner_part_nonneg.
  - lia.
  - apply stake_nonneg. eapply Forall_impl; [apply (delegated_nonneg id)|]. intros a Ha. cbn in Ha. unfold member_stake.
    rewrite Hid. case_match; lia.
Qed.

Lemma owner_stake_ok {E : Type} l id p : same_stakes l0 l → pool_fit id p → owner_stake (E := E) l p = Ok (owners_stake p).
Proof using HTm Hl0 Hb0.
  intros Hs Hfit. pose proof (owners_bound id p Hfit) as (Ho0 & Hom & Hm0). pose proof (pf_total _ _ Hfit).
  assert (stake_of (owner_part (pool_id (parameters p)) l) (owners (parameters p)) = owners_stake p) as Heq
    by (apply stake_of_ext; intros; by apply owner_part_same).
  unfold owner_stake. rewrite owner_stake_sum; [f_equal; lia|by destruct Hs|by apply same_solvent|lia].
Qed.

Lemma leader_step {E : Type} st id p : pools0 !! id = Some p → same_stakes l0 (l_accounts st) → l_blocks st !! id = blocks0 !! id →
  blocks_of id <= N → granted_ok (l_accounts st) → granted (l_accounts st) * N + blocks_of id * R <= R * N →
  ∃ r st', apply_leader_rewards (E := E) N R A T pp st p = Ok (r, st') ∧ pool_paid id p r ∧ same_stakes l0 (l_accounts st') ∧
    l_blocks st' = delete id (l_blocks st) ∧ granted_ok (l_accounts st') ∧
    granted (l_accounts st') = granted (l_accounts st) + leader r.
Proof using HR HT HTm HA HN Ha0 Hk Hl0 Hb0 Hblocks Hpools.
  intros Hid Hsame Hbl HbN Hg Hmax. pose proof (Hpools id p Hid) as Hfit. pose proof (owners_bound id p Hfit) as (Ho0 & Hom & Hm0).
  pose proof (blocks_of_nonneg id) as Hb. pose proof Hfit as [Hpid HS HST Hpar [Hmg0 Hmg1]].
  assert (0 <= pool_stake p) as HS0 by (rewrite HS; apply stake_nonneg, delegated_nonneg).
  unfold apply_leader_rewards. rewrite (owner_stake_ok _ id p Hsame Hfit). cbn [mbind exec_bind]. cbv zeta.
  rewrite Hpid, Hbl. fold (blocks_of id). destruct (safe_ratio_spec (E := E) (blocks_of id) N HN) as (beta & -> & Hbeta).
  cbn [mbind exec_bind].
  destruct (pool_rewards_ok (E := E) R T A N pp HR HT HA HN Ha0 Hk p (blocks_of id) beta (owners_stake p)) as (P & -> & HP0 & HP & HPz);
    [lia|done|apply Hpar|lia|lia|]. cbn [mbind exec_bind].
  assert (P <= R) as HPR by nia. destruct Hpar as [_ _ [Hc _] _].
  destruct (leader_rewards_ok (E := E) R T HR HT p P (owners_stake p)) as (L & -> & HL & HLs); [lia..|done|done|done|].
  cbn [mbind exec_bind]. set (r := mkPoolRewards P L). assert (pool_paid id p r) as Hpaid by (by split).
  assert (granted (l_accounts st) + L <= u64_max) as HgL by nia.
  destruct Hsame as [Hasc Hview]. destruct (Z.ltb_spec 0 L).
  - destruct (pay_operator (E := E) (account_credential (reward_account (parameters p))) L (l_accounts st) Hasc Hg ltac:(lia) HgL)
      as (l' & -> & Hl' & Hg' & Hgr & Hv'). cbn [mbind exec_bind]. eexists r, _. split; [done|]. split; [done|].
    cbn [l_accounts l_blocks]. split; [split; [done|]; intros k; by rewrite Hv', Hview|]. split; [done|]. split; [done|]. done.
  - eexists r, _. split; [done|]. split; [done|]. cbn [l_accounts l_blocks leader r]. split; [done|]. split; [done|]. split; [done|]. lia.
Qed.

Definition leader_of (rw : gmap PoolId PoolRewards) (p : PoolId * PoolState) : Z := from_option leader 0 (rw !! p.1).

(** The operators of pools are all served. *)
Lemma leaders_ok {E : Type} pl : ∀ eff rw st, NoDup (map fst pl) → (∀ id p, (id, p) ∈ pl → pools0 !! id = Some p) →
  (∀ id, id ∈ map fst pl → l_blocks st !! id = blocks0 !! id) → same_stakes l0 (l_accounts st) → granted_ok (l_accounts st) →
  granted (l_accounts st) = eff → eff * N + stake_of (λ p, blocks_of p.1) pl * R <= R * N → stake_of (λ p, blocks_of p.1) pl <= N →
  ∃ rw' st', for_in (E := E) pl (λ '(effective_rewards, rewards, st) '(pool_id, pool),
      r ← apply_leader_rewards N R A T pp st pool;
      effective_rewards ← u64_add effective_rewards (leader r.1);
      Ok (effective_rewards, <[pool_id := r.1]> rewards, r.2)) (eff, rw, st) =
        Ok (eff + stake_of (leader_of rw') pl, rw', st') ∧
    same_stakes l0 (l_accounts st') ∧ granted_ok (l_accounts st') ∧ granted (l_accounts st') = eff + stake_of (leader_of rw') pl ∧
    (∀ id p, (id, p) ∈ pl → ∃ r, rw' !! id = Some r ∧ pool_paid id p r) ∧ (∀ id, id ∉ map fst pl → rw' !! id = rw !! id).
Proof using HR HT HTm HA HN Ha0 Hk Hl0 Hb0 Hblocks Hpools.
  induction pl as [|[id p] pl IH]; intros eff rw st Hnd Hin Hbl Hsame Hg Heff Hmax HbN; cbn [for_in].
  { exists rw, st. change (stake_of (leader_of rw) []) with 0. rewrite Z.add_0_r.
    repeat (split; [done|]). split; [by intros ? ? ?%elem_of_nil|done]. }
  cbn [map fst] in Hnd. apply NoDup_cons in Hnd as [Hid Hnd]. rewrite !stake_of_cons in *. cbn [fst] in *.
  assert (0 <= stake_of (λ p, blocks_of p.1) pl) as Hb0'.
  { apply stake_nonneg, Forall_forall. intros x _. apply blocks_of_nonneg. }
  pose proof (blocks_of_nonneg id) as Hbid.
  destruct (leader_step (E := E) st id p) as (r & st1 & -> & Hpaid & Hsame1 & Hbl1 & Hg1 & Hgr1);
    [apply Hin; left|done|apply Hbl; left|nia|done|nia|].
  cbn [mbind exec_bind fst snd]. pose proof Hpaid as [[Hpot0 Hpot] _ Hlead _].
  assert (leader r * N <= blocks_of id * R) as HlN by nia. rewrite u64_add_le by nia. cbn [mbind exec_bind].
  destruct (IH (eff + leader r) (<[id := r]> rw) st1) as (rw' & st' & -> & Hsame' & Hg' & Hgr' & Hpd & Hfr).
  - done.
  - intros i q Hq. apply Hin. by right.
  - intros i Hi. rewrite Hbl1, lookup_delete_ne by (intros ->; done). apply Hbl. by right.
  - done.
  - done.
  - lia.
  - nia.
  - lia.
  - assert (rw' !! id = Some r) as Hr by (by rewrite Hfr, lookup_insert_eq).
    exists rw', st'. assert (leader_of rw' (id, p) = leader r) as Hlo by (unfold leader_of; cbn [fst]; by rewrite Hr).
    rewrite stake_of_cons, Hlo. split; [by rewrite Z.add_assoc|]. split; [done|]. split; [done|]. split; [lia|]. split.
    + intros i q [[= -> ->]|Hq]%elem_of_cons; [by exists r|by apply Hpd].
    + intros i Hi. apply not_elem_of_cons in Hi as [Hne Hi]. cbn [fst] in Hne. rewrite Hfr by done. by rewrite lookup_insert_ne.
Qed.

(** ** The members *)

Lemma delegated_view id (l l' : list (Credential * AccountState)) : SortedPairs.ascending l → SortedPairs.ascending l' →
  (∀ k, stake_view (SortedPairs.get k l) = stake_view (SortedPairs.get k l')) → stake_of (delegated id) l = stake_of (delegated id) l'.
Proof.
  intros Hl Hl' Hv. set (g := λ a, if decide (account_pool a = Some id) then balance a else 0).
  change (stake_of (λ kv, g kv.2) l = stake_of (λ kv, g kv.2) l'). rewrite !stake_of_to_map by done. apply total_view.
  intros k. specialize (Hv k). rewrite !SortedPairs.get_to_map in Hv by done. unfold stake_view in Hv.
  destruct (SortedPairs.to_map l !! k) as [a|], (SortedPairs.to_map l' !! k) as [b|]; cbn [from_option] in *; unfold g;
    [by injection Hv as -> ->|injection Hv as -> ->; by rewrite decide_False| |done].
  injection Hv as <- <-. by rewrite decide_False.
Qed.

Lemma members_stake_bound l id p : same_stakes l0 l → pool_fit id p →
  0 <= stake_of (member_stake p) l ∧ owners_stake p + stake_of (member_stake p) l <= pool_stake p.
Proof using Hl0 Hb0.
  intros Hs Hfit. pose proof (same_solvent l Hs) as Hb. pose proof Hs as [Hl Hv]. destruct Hfit as [Hid HS _ Hpar _].
  pose proof (owners_and_members p l Hl Hb (pk_owners _ Hpar)) as Hom. rewrite Hid in Hom.
  rewrite (delegated_view id l l0 Hl Hl0 Hv), <- HS in Hom. unfold owners_stake. rewrite Hid.
  rewrite (stake_of_ext _ (owner_part id l0)) in Hom by (intros; by apply owner_part_same). split; [|done].
  apply stake_nonneg. eapply Forall_impl; [exact Hb|]. intros a Ha. cbn in Ha. unfold member_stake, delegated.
  case_match; [lia|]. case_decide; lia.
Qed.

Definition member_value {E : Type} (rw : gmap PoolId PoolRewards) (a : Credential * AccountState) : Z :=
  match account_pool a.2 ≫= (λ id, pools0 !! id) with
  | Some p =>
      match rw !! pool_id (parameters p) with
      | Some r => match member_rewards (E := E) a.1 (pot r) (balance a.2) T p with Ok n => n | _ => 0 end
      | None => 0
      end
  | None => 0
  end.

Definition all_paid (rw : gmap PoolId PoolRewards) : Prop :=
  ∀ id p, pools0 !! id = Some p → ∃ r, rw !! id = Some r ∧ pool_paid id p r.

Lemma pot_bound id p r : blocks_of id <= N → pool_paid id p r → 0 <= pot r <= R.
Proof using HR HN. intros Hb [[H0 H1] _ _ _]. nia. Qed.

(** The share of one member. *)
Lemma member_value_ok {E : Type} rw l k a id p r : same_stakes l0 l → (k, a) ∈ l → account_pool a = Some id →
  pools0 !! id = Some p → rw !! id = Some r → pool_paid id p r → blocks_of id <= N →
  member_rewards (E := E) k (pot r) (balance a) T p = Ok (member_value (E := E) rw (k, a)) ∧ 0 <= member_value (E := E) rw (k, a) ∧
  (pool_stake p = 0 → member_value (E := E) rw (k, a) = 0) ∧
  (ratio_of (member_value (E := E) rw (k, a)) * ratio_of (pool_stake p) <= members_part p (pot r) * ratio_of (member_stake p (k, a)))%Q.
Proof using HR HT HN Hl0 Hb0 Hpools.
  intros Hs Hin Hap Hid Hr Hpaid HbN. pose proof (Hpools id p Hid) as Hfit. pose proof (same_solvent l Hs) as Hb.
  pose proof Hfit as [Hpid HS HST Hpar [Hm0 Hm1]]. pose proof (pot_bound _ _ _ HbN Hpaid) as HP. destruct Hpaid as [_ Hz _ _].
  assert (delegated id (k, a) = balance a) as Hdel by (unfold delegated; cbn [snd]; by rewrite decide_True).
  assert (0 <= balance a <= pool_stake p) as Hbal.
  { rewrite HS, <- Hdel, <- (delegated_view id l l0) by (done || apply Hs). apply (stake_of_elem (delegated id)); [|done].
    eapply Forall_impl; [exact Hb|]. intros x Hx. cbn in Hx. unfold delegated. case_decide; lia. }
  destruct (member_rewards_ok (E := E) R T HR HT p (pot r) k (balance a) HP Hbal HST (proj1 (pk_cost _ Hpar)) Hz Hm0 Hm1)
    as (n & Hn & Hn0 & Hown & Hle).
  assert (member_value (E := E) rw (k, a) = n) as ->.
  { unfold member_value. cbn [fst snd]. rewrite Hap. cbn [mbind option_bind]. by rewrite Hid, Hpid, Hr, Hn. }
  split; [done|]. split; [done|]. split.
  - intros H0. rewrite (Hz H0) in Hn. unfold member_rewards in Hn. destruct (is_owner p k); [by injection Hn|].
    rewrite (proj2 (Z.leb_le 0 _)) in Hn by apply Hpar. by injection Hn.
  - unfold member_stake. cbn [fst]. rewrite Hpid, Hdel. destruct (is_owner p k); [|done]. rewrite (Hown eq_refl).
    change (ratio_of 0) with 0%Q. lra.
Qed.

Definition of_pool (id : PoolId) (v : Credential * AccountState → Z) (a : Credential * AccountState) : Z :=
  if decide (account_pool a.2 = Some id) then v a else 0.

Lemma one_pool {B : Type} (o : option PoolId) (n : Z) (pl : list (PoolId * B)) : NoDup (map fst pl) →
  (n ≠ 0 → ∃ id, o = Some id ∧ id ∈ map fst pl) → stake_of (λ p, if decide (o = Some p.1) then n else 0) pl = n.
Proof.
  induction pl as [|[i b] pl IH]; intros Hnd Hin; cbn [map fst] in *.
  { destruct (decide (n = 0)) as [->|Hn]; [done|]. destruct (Hin Hn) as (id & _ & Hid). by apply elem_of_nil in Hid. }
  apply NoDup_cons in Hnd as [Hi Hnd]. rewrite stake_of_cons. cbn [fst]. case_decide as Ho.
  - assert (stake_of (λ p : PoolId * B, if decide (o = Some p.1) then n else 0) pl = 0) as ->; [|lia].
    rewrite (stake_of_ext _ (λ _, 0)); [apply stake_of_0|].
    intros [j c] Hj. cbn [fst]. rewrite decide_False; [done|]. intros Hc. apply Hi. rewrite Ho in Hc. injection Hc as <-.
    apply list_elem_of_fmap. by exists (i, c).
  - rewrite Z.add_0_l. apply IH; [done|]. intros Hn. destruct (Hin Hn) as (id & -> & Hid). exists id. split; [done|].
    apply elem_of_cons in Hid as [->|Hid]; [done|done].
Qed.

Lemma by_pools {B : Type} v (l : list (Credential * AccountState)) (pl : list (PoolId * B)) : NoDup (map fst pl) →
  (∀ a, a ∈ l → v a ≠ 0 → ∃ id, account_pool a.2 = Some id ∧ id ∈ map fst pl) →
  stake_of v l = stake_of (λ p, stake_of (of_pool p.1 v) l) pl.
Proof.
  intros Hnd. induction l as [|a l IH]; intros Hin.
  { symmetry. apply stake_of_0. }
  rewrite stake_of_cons, IH by (intros; apply Hin; [by right|done]).
  rewrite (stake_of_ext (λ p : PoolId * B, stake_of (of_pool p.1 v) (a :: l)) (λ p, of_pool p.1 v a + stake_of (of_pool p.1 v) l)) by (intros; by rewrite stake_of_cons).
  rewrite stake_of_plus. f_equal. symmetry. apply (one_pool (account_pool a.2) (v a) pl Hnd). apply Hin. left.
Qed.

(** What an operator and the members of a pool receive, together, is at most its pot. *)
Lemma pool_shares {E : Type} rw l id p r : same_stakes l0 l → pools0 !! id = Some p → rw !! id = Some r → pool_paid id p r →
  blocks_of id <= N → 0 <= stake_of (of_pool id (member_value (E := E) rw)) l ∧
  leader r + stake_of (of_pool id (member_value (E := E) rw)) l <= pot r.
Proof using HR HT HN Hl0 Hb0 Hpools.
  intros Hs Hid Hr Hpaid HbN. pose proof (Hpools id p Hid) as Hfit. pose proof (members_stake_bound l id p Hs Hfit) as [Hm0 Hom].
  pose proof (λ k a Hin Hap, member_value_ok (E := E) rw l k a id p r Hs Hin Hap Hid Hr Hpaid HbN) as Hval.
  set (v := member_value (E := E) rw) in *.
  assert (Forall (λ a, 0 <= of_pool id v a) l) as Hv0.
  { apply Forall_forall. intros [k a] Hin. unfold of_pool. case_decide; [by apply (Hval k a)|done]. }
  split; [by apply stake_nonneg|].
  destruct (decide (pool_stake p = 0)) as [H0|H0].
  { rewrite (stake_of_ext _ (λ _, 0)), stake_of_0; [destruct Hpaid as [_ _ ? _]; lia|]. intros [k a] Hin. unfold of_pool.
    case_decide; [by apply (Hval k a)|done]. }
  assert (0 < pool_stake p) as HS by (destruct (owners_bound id p Hfit); lia). pose proof (ratio_of_pos _ HS) as HS'.
  assert (ratio_of (stake_of (of_pool id v) l) * ratio_of (pool_stake p) <=
    members_part p (pot r) * ratio_of (stake_of (member_stake p) l))%Q as Hsum.
  { clear - Hval Hfit. induction l as [|[k a] l IH]; [change (ratio_of (stake_of _ [])) with 0%Q; lra|].
    rewrite !stake_of_cons, !ratio_of_plus. specialize (IH ltac:(intros; apply Hval; [by right|done])).
    assert (ratio_of (of_pool id v (k, a)) * ratio_of (pool_stake p) <= members_part p (pot r) * ratio_of (member_stake p (k, a)))%Q; [|lra].
    unfold of_pool. cbn [snd]. case_decide as Hap; [apply (Hval k a); [left|done]|].
    assert (member_stake p (k, a) = 0) as ->; [|change (ratio_of 0) with 0%Q; lra].
    unfold member_stake, delegated. cbn [fst snd]. rewrite (pf_id _ _ Hfit), decide_False by done. by destruct (is_owner p k). }
  destruct Hpaid as [_ _ _ Hshare]. assert (0 <= members_part p (pot r))%Q as HM.
  { unfold members_part. destruct (Z.leb_spec (pot r) (cost (parameters p))); [lra|].
    destruct Hfit as [_ _ _ _ [_ ?]]. pose proof (ratio_of_pos (pot r - cost (parameters p)) ltac:(lia)). nra. }
  pose proof (ratio_of_le _ _ Hom) as Hom'. rewrite ratio_of_plus in Hom'.
  apply le_ratio_of. rewrite ratio_of_plus.
  apply (Qmult_le_r _ _ (ratio_of (pool_stake p)) HS'). nra.
Qed.

(** The loop over the accounts. *)
Lemma members_loop {E : Type} rw v l : ∀ eff,
  (∀ k a, (k, a) ∈ l → 0 <= v (k, a) ∧ match account_pool a ≫= (λ id, pools0 !! id) with
    | Some p => match rw !! pool_id (parameters p) with
                | Some r => member_rewards (E := E) k (pot r) (balance a) T p = Ok (v (k, a))
                | None => v (k, a) = 0
                end
    | None => v (k, a) = 0
    end) → granted_ok l → granted l + stake_of v l <= u64_max → eff + stake_of v l <= u64_max →
  apply_members (E := E) T pools0 rw l eff =
    Ok (eff + stake_of v l, map (λ a, (a.1, with_rewards (rewards a.2 + v a) a.2)) l).
Proof.
  induction l as [|[k a] l IH]; intros eff Hv Hg Hmg Hme; cbn [apply_members map].
  { change (stake_of v []) with 0. by rewrite Z.add_0_r. }
  apply Forall_cons in Hg as [Ha Hg]. rewrite !stake_of_cons in *. cbn [fst snd] in *.
  assert (0 <= stake_of v l) as Hvl by (apply stake_nonneg, Forall_forall; intros [i x] Hx; apply (Hv i x); by right).
  pose proof (stake_nonneg _ _ Hg) as Hgl. destruct (Hv k a ltac:(left)) as [Hv0 Hvk].
  assert ((match account_pool a ≫= (λ id, pools0 !! id) with
     | Some pool => apply_member_rewards (E := E) k a pool (rw !! pool_id (parameters pool)) T
     | None => Ok (0, a) end) = Ok (v (k, a), with_rewards (rewards a + v (k, a)) a)) as ->.
  { assert (v (k, a) = 0 → with_rewards (rewards a + v (k, a)) a = a) as Hz
      by (intros ->; destruct a; unfold with_rewards; cbn; f_equal; lia).
    destruct (account_pool a ≫= _) as [p|]; [|by rewrite Hz, Hvk]. unfold apply_member_rewards.
    destruct (rw !! pool_id (parameters p)) as [r|]; [|by rewrite Hz, Hvk]. rewrite Hvk. cbn [mbind exec_bind].
    destruct (Z.ltb_spec 0 (v (k, a))); [by rewrite u64_add_le by lia|]. by rewrite Hz by lia. }
  cbn [mbind exec_bind fst snd]. rewrite u64_add_le by lia. cbn [mbind exec_bind].
  rewrite IH; [|intros; apply Hv; by right|done|lia|lia]. cbn [mbind exec_bind fst snd]. by rewrite Z.add_assoc.
Qed.

Context (HblocksN : total (λ n, n) blocks0 <= N).

Lemma all_blocks : stake_of (λ p, blocks_of p.1) (map_to_list pools0) <= N.
Proof using Hblocks HblocksN.
  etransitivity; [|exact HblocksN]. apply total_distinct; [done|apply NoDup_fst_map_to_list].
Qed.
Lemma blocks_of_le id p : pools0 !! id = Some p → blocks_of id <= N.
Proof using Hblocks HblocksN.
  intros Hid. pose proof all_blocks. apply elem_of_map_to_list in Hid.
  pose proof (stake_of_elem (λ p, blocks_of p.1) (map_to_list pools0) (id, p)
    ltac:(apply Forall_forall; intros ? _; apply blocks_of_nonneg) Hid) as Hle. cbn [fst] in Hle. lia.
Qed.

(** All that is given out, against what is available. *)
Lemma shares_bound_all {E : Type} rw l : same_stakes l0 l → all_paid rw →
  0 <= stake_of (leader_of rw) (map_to_list pools0) ∧ Forall (λ a, 0 <= member_value (E := E) rw a) l ∧
  stake_of (leader_of rw) (map_to_list pools0) + stake_of (member_value (E := E) rw) l <= R.
Proof using HR HT HN Hl0 Hb0 Hblocks Hpools HblocksN.
  intros Hs Hpaid. set (v := member_value (E := E) rw). set (pl := map_to_list pools0).
  assert (∀ p, p ∈ pl → ∃ r, rw !! p.1 = Some r ∧ pool_paid p.1 p.2 r ∧ 0 <= stake_of (of_pool p.1 v) l ∧
    leader r + stake_of (of_pool p.1 v) l <= pot r) as Hp.
  { intros [id p] Hin%elem_of_map_to_list. destruct (Hpaid id p Hin) as (r & Hr & Hpd). exists r. split; [done|]. split; [done|].
    apply (pool_shares (E := E) rw l id p r); [done..|by eapply blocks_of_le]. }
  assert (∀ a, a ∈ l → 0 <= v a ∧ (v a ≠ 0 → ∃ id, account_pool a.2 = Some id ∧ id ∈ map fst pl)) as Hv.
  { intros [k a] Hin. destruct (account_pool a) as [id|] eqn:Hap.
    2: { unfold v, member_value. cbn [snd]. rewrite Hap. done. }
    destruct (pools0 !! id) as [p|] eqn:Hid.
    2: { unfold v, member_value. cbn [snd]. rewrite Hap. cbn [mbind option_bind]. rewrite Hid. done. }
    destruct (Hpaid id p Hid) as (r & Hr & Hpd). split.
    - by apply (member_value_ok (E := E) rw l k a id p r); [..|by eapply blocks_of_le].
    - intros _. exists id. split; [done|]. apply list_elem_of_fmap. exists (id, p). split; [done|]. by apply elem_of_map_to_list. }
  split; [|split].
  - apply stake_nonneg, Forall_forall. intros p Hin. destruct (Hp p Hin) as (r & Hr & [_ _ ? _] & _). unfold leader_of.
    rewrite Hr. cbn. lia.
  - apply Forall_forall. intros a Ha. by apply Hv.
  - rewrite (by_pools v l pl), <- stake_of_plus; [|apply NoDup_fst_map_to_list|intros a Ha; by apply Hv].
    assert (stake_of (λ p, leader_of rw p + stake_of (of_pool p.1 v) l) pl * N <= stake_of (λ p, blocks_of p.1) pl * R) as Hle.
    { clear - Hp HN. induction pl as [|p pl IH]; [done|]. rewrite !stake_of_cons.
      specialize (IH ltac:(intros; apply Hp; by right)). destruct (Hp p ltac:(left)) as (r & Hr & [[_ Hpot] _ _ _] & _ & Hl).
      assert (leader_of rw p = leader r) as -> by (unfold leader_of; by rewrite Hr). nia. }
    pose proof all_blocks as Hall. fold pl in Hall. nia.
Qed.

Lemma same_stakes_map l (g : Credential * AccountState → Z) : same_stakes l0 l →
  same_stakes l0 (map (λ a, (a.1, with_rewards (g a) a.2)) l).
Proof.
  intros [Hl Hv]. split.
  - eapply SortedPairs.ascending_keys; [|exact Hl]. rewrite map_map. by apply map_ext.
  - intros k. rewrite <- Hv. clear. induction l as [|[k' a] l IH]; [done|]. cbn [map SortedPairs.get fst snd].
    by destruct (cmp k k').
Qed.

(** The operators, then the members. *)
Lemma round_ok {E : Type} : Forall (λ a, rewards a.2 = 0) l0 →
  ∃ effL rw st eff l', apply_leaders (E := E) N R A T pp (map_to_list pools0) (mkLeaders l0 ∅ blocks0) = Ok (effL, rw, st) ∧
    apply_members (E := E) T pools0 rw (l_accounts st) effL = Ok (eff, l') ∧ 0 <= eff <= R ∧ granted l' = eff ∧ granted_ok l' ∧
    same_stakes l0 l'.
Proof using HR HT HTm HA HN Ha0 Hk Hl0 Hb0 Hblocks Hpools HblocksN.
  intros H0. assert (granted l0 = 0) as Hg0.
  { rewrite (stake_of_ext _ (λ _, 0)); [apply stake_of_0|]. intros a Ha. rewrite Forall_forall in H0. by apply H0. }
  destruct (leaders_ok (E := E) (map_to_list pools0) 0 ∅ (mkLeaders l0 ∅ blocks0)) as (rw & st & Hrun & Hsame & Hg & Hgr & Hpaid & _).
  - apply NoDup_fst_map_to_list.
  - intros id p. apply elem_of_map_to_list.
  - done.
  - done.
  - eapply Forall_impl; [exact H0|]. intros a Ha. cbn in *. lia.
  - done.
  - pose proof all_blocks. nia.
  - apply all_blocks.
  - assert (all_paid rw) as Hall by (intros id p Hid%elem_of_map_to_list; by apply Hpaid).
    destruct (shares_bound_all (E := E) rw (l_accounts st) Hsame Hall) as (Hl & Hm & Hle).
    pose proof (stake_nonneg _ _ Hm) as Hm'. rewrite Z.add_0_l in *.
    pose proof (members_loop (E := E) rw (member_value (E := E) rw) (l_accounts st) (stake_of (leader_of rw) (map_to_list pools0))) as Hloop.
    eexists _, rw, st, _, _. split; [exact Hrun|]. rewrite Hloop; [split; [done|]| |done|lia|lia].
    + split; [lia|]. rewrite stake_of_map. cbn [snd with_rewards rewards]. rewrite stake_of_plus, Hgr.
      split; [f_equal; by apply stake_of_ext; intros []|]. split.
      * apply Forall_map. rewrite Forall_forall in Hg, Hm. apply Forall_forall. intros a Ha. cbn.
        specialize (Hg a Ha). specialize (Hm a Ha). cbn in *. lia.
      * by apply same_stakes_map.
    + intros k a Hin. rewrite Forall_forall in Hm. split; [by apply Hm|]. destruct (account_pool a ≫= _) as [p|] eqn:Hp.
      * apply bind_Some in Hp as (id & Hap & Hid). destruct (Hall id p Hid) as (r & Hr & Hpd).
        rewrite (pf_id _ _ (Hpools id p Hid)), Hr.
        by apply (member_value_ok (E := E) rw (l_accounts st) k a id p r); [..|by eapply blocks_of_le].
      * unfold member_value. cbn [snd]. by rewrite Hp.
Qed.
End Round.

(** ** Blocks *)

Lemma count_blocks_spec {E : Type} (issuers : list PoolId) : ∀ n m, map_Forall (λ _ k, 0 <= k) m → total (λ k, k) m = n →
  n + Z.of_nat (length issuers) <= u64_max →
  ∃ m', for_in (E := E) issuers (λ '(total, per_pool) issuer,
      total ← u64_add total 1;
      k ← match per_pool !! issuer with Some k => u64_add k 1 | None => Ok 1 end;
      Ok (total, <[issuer := k]> per_pool)) (n, m) = Ok (n + Z.of_nat (length issuers), m') ∧
    map_Forall (λ _ k, 0 <= k) m' ∧ total (λ k, k) m' = n + Z.of_nat (length issuers).
Proof.
  induction issuers as [|i issuers IH]; intros n m Hm Hn Hmax; cbn [for_in length] in *.
  { exists m. rewrite Z.add_0_r. done. }
  rewrite u64_add_le by lia. cbn [mbind exec_bind].
  assert (∃ k, (match m !! i with Some k => u64_add (E := E) k 1 | None => Ok 1 end) = Ok k ∧ 0 <= k ∧
    total (λ k, k) (<[i := k]> m) = n + 1) as (k & -> & Hk & Ht).
  { destruct (m !! i) as [k|] eqn:Hi.
    - pose proof (total_lookup (λ k, k) m i k Hm Hi). pose proof (Hm i k Hi) as Hk. cbn in Hk. rewrite u64_add_le by lia.
      exists (k + 1). split; [done|]. split; [lia|]. rewrite (total_insert_old _ _ _ _ _ Hi). lia.
    - exists 1. split; [done|]. split; [done|]. rewrite total_insert_new by done. lia. }
  cbn [mbind exec_bind]. destruct (IH (n + 1) (<[i := k]> m)) as (m' & -> & Hm' & Ht'); [by apply map_Forall_insert_2|done|lia|].
  exists m'. replace (n + Z.of_nat (S (length issuers))) with (n + 1 + Z.of_nat (length issuers)) by lia. done.
Qed.

(** ** The summary *)

Definition unit_rational (r : RationalNumber) : Prop := ratio_wf r ∧ numerator r <= denominator r.

(** What the computation of rewards takes from the chain: the pots of the previous
    epoch, the blocks it had and the parameters in force. *)
Record economy_ok (gp : GlobalParameters) (pp : ProtocolParameters) (blocks : Z) (pots : Pots) : Prop := {
  ec_reserves : 0 <= reserves pots < max_lovelace_supply gp;
  ec_fees : 0 <= fees pots;
  ec_supply : reserves pots + fees pots <= u64_max ∧ max_lovelace_supply gp <= u64_max;
  ec_epoch : 0 < epoch_length gp;
  ec_blocks : 0 <= active_slot_coeff_inverse gp ∧ blocks * active_slot_coeff_inverse gp <= u64_max ∧ blocks <= u64_max;
  ec_expansion : unit_rational (monetary_expansion_rate pp);
  ec_treasury : unit_rational (treasury_expansion_rate pp);
  ec_influence : ratio_wf (pledge_influence pp);
  ec_pools : 0 < optimal_stake_pools_count pp }.

Lemma unit_rational_spec {E : Type} r : unit_rational r → ∃ q, into_safe_ratio (E := E) r = Ok q ∧ (0 <= q)%Q ∧ (q <= 1)%Q.
Proof. intros [Hr Hle]. destruct (ratio_wf_spec (E := E) r Hr) as (q & Hq & H0 & H1). exists q. auto. Qed.

(** A share of an amount. *)
Lemma floor_share {E : Type} q n : (0 <= q)%Q → (q <= 1)%Q → 0 <= n <= u64_max →
  ∃ m, floor_to_lovelace (E := E) (ratio_mul q (ratio_of n)) = Ok m ∧ 0 <= m <= n.
Proof.
  intros H0 H1 Hn. pose proof (ratio_of_nonneg n ltac:(lia)) as Hn0. pose proof (ratio_of_le n u64_max ltac:(lia)) as Hnm.
  destruct (floor_spec (E := E) (ratio_mul q (ratio_of n))) as (m & Hm & Hm0 & Hle);
    [unfold ratio_mul; rewrite Qred_correct; nra..|].
  exists m. split; [done|]. split; [done|]. unfold ratio_mul in Hle. rewrite Qred_correct in Hle. apply le_ratio_of. nra.
Qed.

(** The delegated stake is held by accounts. *)
Lemma active_bound db s : summary_ok db s → 0 <= active_stake (stake_distribution s) <= stake_of (λ a, balance a.2) (accounts s).
Proof.
  intros Hs. set (ps := pools (stake_distribution s)).
  set (v := λ a : Credential * AccountState, if decide (is_Some (account_pool a.2 ≫= (λ id, ps !! id))) then balance a.2 else 0).
  pose proof (so_solvent _ _ Hs) as Hb. rewrite (so_active _ _ Hs). fold ps.
  assert (total pool_stake ps = stake_of v (accounts s)) as ->.
  { rewrite (by_pools v (accounts s) (map_to_list ps)); [|apply NoDup_fst_map_to_list|].
    - unfold total. apply stake_of_ext. intros [id p] Hp%elem_of_map_to_list. cbn [fst snd].
      destruct (so_pools _ _ Hs id p Hp) as (_ & -> & _). apply stake_of_ext. intros [k a] _. unfold of_pool, delegated, v. cbn [snd].
      case_decide as Ha; [|done]. rewrite Ha. cbn [mbind option_bind]. rewrite Hp. by rewrite decide_True.
    - intros [k a] _. unfold v. cbn [snd]. case_decide as Ha; [|done]. intros _. destruct Ha as [p Hp].
      apply bind_Some in Hp as (id & Hid & Hp). exists id. split; [done|]. apply list_elem_of_fmap. exists (id, p).
      split; [done|]. by apply elem_of_map_to_list. }
  split.
  - apply stake_nonneg. eapply Forall_impl; [exact Hb|]. intros a Ha. cbn in Ha. unfold v. case_decide; lia.
  - apply stake_of_le. rewrite Forall_forall in Hb. intros a Ha. apply Hb in Ha. unfold v. case_decide; lia.
Qed.

Lemma margin_of_unit (r : RationalNumber) (q : SafeRatio) : unit_rational r → into_safe_ratio (E := Empty_set) r = Ok q → (0 <= q)%Q ∧ (q <= 1)%Q.
Proof. intros Hr Hq. destruct (unit_rational_spec (E := Empty_set) r Hr) as (q' & Hq' & H0 & H1). rewrite Hq in Hq'. by injection Hq' as ->. Qed.

Lemma unrewarded db s : summary_ok db s → Forall (λ a, rewards a.2 = 0) (accounts s).
Proof.
  intros Hs. apply Forall_forall. intros [k a] Hin. apply get_account in Hin; [|by apply Hs]. pose proof (so_balances _ _ Hs k) as Hk.
  rewrite Hin in Hk. cbn [mbind option_bind] in Hk. destruct (_ !! k); [|done]. by injection Hk.
Qed.

(** What a summary of rewards promises of the pots it was computed from. *)
Record rewards_ok (pots : Pots) (s : StakeSummary) (rs : RewardsSummary) : Prop := {
  rk_incentives : 0 <= incentives rs <= reserves pots;
  rk_tax : 0 <= treasury_tax rs;
  rk_available : available_rewards rs = incentives rs + fees pots - treasury_tax rs;
  rk_effective : 0 <= effective_rewards rs <= available_rewards rs;
  rk_granted : granted (rs_accounts rs) = effective_rewards rs ∧ granted_ok (rs_accounts rs);
  rk_stakes : same_stakes (accounts s) (rs_accounts rs) }.

Lemma rewards_summary_ok {E : Type} db s gp pp issuers pots : summary_ok db s → economy_ok gp pp (Z.of_nat (length issuers)) pots →
  stake_of (λ a, balance a.2) (accounts s) <= max_lovelace_supply gp - reserves pots →
  ∃ rs, RewardsSummary_new (E := E) s gp pp issuers pots = Ok rs ∧ rewards_ok pots s rs.
Proof.
  intros Hs [Hre Hfe [Hsu Hsm] Hel (Hai & Hbc & Hbm) Hex Htr Hin Hk] Hsup. unfold RewardsSummary_new, count_blocks.
  destruct (count_blocks_spec (E := E) issuers 0 ∅) as (m & -> & Hm & Ht); [apply map_Forall_empty|apply total_empty|done|].
  cbn [mbind exec_bind]. rewrite Z.add_0_l in *. set (n := Z.of_nat (length issuers)) in *. unfold u64_mul at 1.
  rewrite (proj2 (Z.leb_le _ _) Hbc). cbn [mbind exec_bind].
  destruct (safe_ratio_spec (E := E) (n * active_slot_coeff_inverse gp) (epoch_length gp) Hel) as (eff & -> & Heff). cbn [mbind exec_bind].
  destruct (unit_rational_spec (E := E) _ Hex) as (rho & -> & Hr0 & Hr1). cbn [mbind exec_bind].
  destruct (ratio_min_spec SafeRatio_one eff) as (Hm1 & Hm2 & Hmc). set (e := ratio_min SafeRatio_one eff) in *.
  assert (0 <= e)%Q as He0.
  { pose proof (ratio_of_nonneg (n * active_slot_coeff_inverse gp) ltac:(unfold n; nia)). pose proof (ratio_of_pos _ Hel).
    destruct Hmc as [->| ->]; [unfold SafeRatio_one; lra|nra]. }
  unfold SafeRatio_one in Hm1.
  destruct (floor_share (E := E) (ratio_mul e rho) (reserves pots)) as (inc & -> & Hi); [unfold ratio_mul; rewrite Qred_correct; nra..|lia|].
  cbn [mbind exec_bind]. rewrite u64_add_le by lia. cbn [mbind exec_bind].
  destruct (unit_rational_spec (E := E) _ Htr) as (tau & -> & Ht0 & Ht1). cbn [mbind exec_bind].
  destruct (floor_share (E := E) tau (inc + fees pots) Ht0 Ht1) as (tax & -> & Htax); [lia|]. cbn [mbind exec_bind].
  unfold u64_sub. rewrite !(proj2 (Z.leb_le _ _)) by lia. cbn [mbind exec_bind].
  pose proof (active_bound db s Hs) as HA. set (R := inc + fees pots - tax). set (T := max_lovelace_supply gp - reserves pots) in *.
  destruct (round_ok R T (active_stake (stake_distribution s)) (Z.max n 1) pp ltac:(lia) ltac:(lia) ltac:(lia) ltac:(lia) ltac:(lia)
    Hin Hk (accounts s) (pools (stake_distribution s)) m (so_accounts _ _ Hs) (so_solvent _ _ Hs) Hm) with (E := E)
    as (effL & rw & st & ef & l & -> & Hmem & Heff2 & Hgr & Hgo & Hss).
  - intros id p Hp. destruct (so_pools _ _ Hs id p Hp) as ([H0 _] & Hst & _ & Hid & Hok & Hmg). split; [done|done| |done|].
    + assert (pool_stake p <= total pool_stake (pools (stake_distribution s))).
      { apply (total_lookup pool_stake _ id p); [|done]. intros i q Hq. by destruct (so_pools _ _ Hs i q Hq) as ([? _] & _). }
      rewrite <- (so_active _ _ Hs) in *. lia.
    + by apply (margin_of_unit _ _ (pk_margin _ Hok)).
  - rewrite Ht. lia.
  - by apply (unrewarded db).
  - cbn [mbind exec_bind]. rewrite Hmem. cbn [mbind exec_bind fst snd]. eexists. split; [done|]. split; cbn; (done || lia).
Qed.

Lemma compute_rewards_ok (h : EraHistory) (old prev : Stake.Snapshot) (gp : GlobalParameters) (pp : ProtocolParameters) :
  snapshot_ok old → governance_rows_ok h old →
  economy_ok gp pp (Z.of_nat (length (Stake.snap_block_issuers prev))) (Stake.snap_pots prev) →
  circulating old (stake_of claim (Stake.snap_proposals old)) <= max_lovelace_supply gp - reserves (Stake.snap_pots prev) →
  ∃ s rs, compute_rewards h old prev gp pp = Ok rs ∧ summary_ok old s ∧ rewards_ok (Stake.snap_pots prev) s rs.
Proof.
  intros Hdb Hg Hec Hmax. pose proof (ec_supply _ _ _ _ Hec) as [_ Hsm]. pose proof (ec_reserves _ _ _ _ Hec) as [Hr0 _].
  unfold circulating in Hmax. pose proof (stake_nonneg _ _ (sn_rewards _ Hdb)). pose proof (stake_nonneg _ _ (sn_utxo _ Hdb)).
  pose proof (sn_pool_deposit _ Hdb). unfold compute_rewards.
  destruct (governance_summary_ok h old Hg) as (g & -> & Hgo & Hdd & Hpd); [nia|]. cbn [mbind exec_bind].
  destruct (stake_summary_ok (E := Stake.Error) old g Hdb Hgo) as (s & -> & Hok); [unfold circulating; lia..|]. cbn [mbind exec_bind].
  pose proof (so_total _ _ Hok). pose proof (claims_nonneg h old Hg).
  destruct (rewards_summary_ok (E := Stake.Error) old s gp pp (map snd (Stake.snap_block_issuers prev)) (Stake.snap_pots prev))
    as (rs & Hrs & Hrk); [done|by rewrite length_map|nia|]. by exists s, rs.
Qed.

(** C10: the rewards of an epoch, from the snapshot three epochs back and the pots of
    the previous epoch, are always computed (no overflow, division by zero or
    underflow), and spend what they may: the incentives are taken from the reserves,
    the treasury and the stake pools share the incentives and the fees exactly, and
    what accounts are granted adds up to the effective rewards, which do not exceed
    the available ones. *)
Theorem rewards_within_available (h : EraHistory) (old prev : Stake.Snapshot) (gp : GlobalParameters) (pp : ProtocolParameters) :
  snapshot_ok old → governance_rows_ok h old →
  economy_ok gp pp (Z.of_nat (length (Stake.snap_block_issuers prev))) (Stake.snap_pots prev) →
  circulating old (stake_of claim (Stake.snap_proposals old)) <= max_lovelace_supply gp - reserves (Stake.snap_pots prev) →
  ∃ s rs, compute_rewards h old prev gp pp = Ok rs ∧ summary_ok old s ∧ rewards_ok (Stake.snap_pots prev) s rs.
Proof. apply compute_rewards_ok. Qed.

Lemma rewards_within_available_witness : let old := SampleSnapshot.db [] 0 in let prev := SampleSnapshot.db [(133661020, [7])] 170000 in
  ∃ s rs, compute_rewards MAINNET_ERA_HISTORY old prev MAINNET_GLOBAL_PARAMETERS MAINNET_DEFAULT_PROTOCOL_PARAMETERS = Ok rs ∧
    summary_ok old s ∧ rewards_ok (Stake.snap_pots prev) s rs.
Proof.
  apply (rewards_within_available MAINNET_ERA_HISTORY (SampleSnapshot.db [] 0) (SampleSnapshot.db [(133661020, [7])] 170000)
    MAINNET_GLOBAL_PARAMETERS MAINNET_DEFAULT_PROTOCOL_PARAMETERS).
  - apply SampleSnapshot.snapshot_fine. vm_compute. congruence.
  - apply SampleSnapshot.governance_fine.
  - split; SampleSnapshot.concrete.
  - rewrite SampleSnapshot.circulating_fine. vm_compute. congruence.
Defined.

(** An operator and a member are paid from one block. *)
Example sample_rewards : (λ rs, (incentives rs, treasury_tax rs, available_rewards rs, effective_rewards rs,
    map (λ a, (a.1, rewards a.2)) (rs_accounts rs))) <$>
  (compute_rewards MAINNET_ERA_HISTORY (SampleSnapshot.db [] 0) (SampleSnapshot.db [(133661020, [7])] 170000)
    MAINNET_GLOBAL_PARAMETERS MAINNET_DEFAULT_PROTOCOL_PARAMETERS) =
  Ok (6249984722, 1250030944, 5000123778, 8741474, [(KeyHash [1], 1446455); (KeyHash [2], 7295019)]).
Proof. vm_compute. reflexivity. Qed.

(** What is taken from the reserves: the rewards and the tax, less the fees. *)
Lemma delta_reserves_spec {E : Type} pots s rs : rewards_ok pots s rs → 2 * reserves pots + fees pots <= u64_max →
  delta_reserves (E := E) rs =
    if fees pots <=? effective_rewards rs + treasury_tax rs then Ok (effective_rewards rs + treasury_tax rs - fees pots) else Panic.
Proof.
  intros [Hi Ht Ha He _ _] Hm. unfold delta_reserves. unfold u64_add, u64_sub.
  rewrite (proj2 (Z.leb_le _ _)) by lia. cbn [mbind exec_bind].
  destruct (Z.leb_spec (fees pots) (effective_rewards rs + treasury_tax rs)).
  - rewrite (proj2 (Z.leb_le _ _)) by lia. f_equal. lia.
  - by rewrite (proj2 (Z.leb_gt _ _)) by lia.
Qed.

(** C40: when the fees of an epoch exceed the rewards given out and the tax, what the
    reserves change by is negative, and computing it underflows, although the rewards
    themselves are always computed; otherwise it is the rewards and the tax, less the fees. *)
Theorem reserves_underflow (h : EraHistory) (old prev : Stake.Snapshot) (gp : GlobalParameters) (pp : ProtocolParameters) :
  let pots := Stake.snap_pots prev in
  snapshot_ok old → governance_rows_ok h old →
  economy_ok gp pp (Z.of_nat (length (Stake.snap_block_issuers prev))) pots →
  circulating old (stake_of claim (Stake.snap_proposals old)) <= max_lovelace_supply gp - reserves pots →
  2 * reserves pots + fees pots <= u64_max →
  ∃ rs, compute_rewards h old prev gp pp = Ok rs ∧
    (effective_rewards rs + treasury_tax rs < fees pots → delta_reserves (E := Stake.Error) rs = Panic) ∧
    (fees pots <= effective_rewards rs + treasury_tax rs →
      delta_reserves (E := Stake.Error) rs = Ok (effective_rewards rs + treasury_tax rs - fees pots)).
Proof.
  cbv zeta. intros Hdb Hg Hec Hmax Hm. destruct (compute_rewards_ok h old prev gp pp Hdb Hg Hec Hmax) as (s & rs & Hrs & _ & Hok).
  exists rs. rewrite (delta_reserves_spec _ _ _ Hok Hm). split; [done|].
  split; intros Hf; [by rewrite (proj2 (Z.leb_gt _ _)) by lia|by rewrite (proj2 (Z.leb_le _ _)) by lia].
Qed.

(** An epoch with ten thousand ada of fees and a single block. *)
Lemma reserves_underflow_witness : ∃ rs,
  compute_rewards MAINNET_ERA_HISTORY (SampleSnapshot.db [] 0) (SampleSnapshot.db [(133661020, [7])] 10000000000)
    MAINNET_GLOBAL_PARAMETERS MAINNET_DEFAULT_PROTOCOL_PARAMETERS = Ok rs ∧ delta_reserves (E := Stake.Error) rs = Panic.
Proof.
  destruct (reserves_underflow MAINNET_ERA_HISTORY (SampleSnapshot.db [] 0) (SampleSnapshot.db [(133661020, [7])] 10000000000)
    MAINNET_GLOBAL_PARAMETERS MAINNET_DEFAULT_PROTOCOL_PARAMETERS) as (rs & Hrs & Hp & _).
  - apply SampleSnapshot.snapshot_fine. vm_compute. congruence.
  - apply SampleSnapshot.governance_fine.
  - split; SampleSnapshot.concrete.
  - rewrite SampleSnapshot.circulating_fine. vm_compute. congruence.
  - vm_compute. congruence.
  - exists rs. split; [exact Hrs|]. apply Hp. vm_compute in Hrs. injection Hrs as <-. vm_compute. reflexivity.
Defined.

(** ** The monetary rates *)

Lemma Qfloor_div (q : Q) n d : 0 < d → (q * ratio_of d == ratio_of n)%Q → Qfloor q = n / d.
Proof.
  intros Hd Hq. rewrite (Qfloor_comp q (Qmake n (Z.to_pos d))); [unfold Qfloor; by rewrite Z2Pos.id by lia|].
  unfold Qeq in *. destruct q as [a b]. cbn in *. rewrite Z2Pos.id by lia. lia.
Qed.
Lemma floor_Ok {E : Type} q n d m : 0 < d → (q * ratio_of d == ratio_of n)%Q → floor_to_lovelace (E := E) q = Ok m → m = n / d.
Proof. intros Hd Hq. unfold floor_to_lovelace. case_bool; [|done]. intros [= <-]. by apply Qfloor_div. Qed.
Lemma ratio_min_one q n d : 0 < d → (q * ratio_of d == ratio_of n)%Q →
  (ratio_min SafeRatio_one q * ratio_of d == ratio_of (Z.min n d))%Q.
Proof.
  intros Hd Hq. pose proof (ratio_of_pos d Hd) as Hp. unfold ratio_min, SafeRatio_one.
  destruct (Qle_bool 1 q) eqn:Hle; [apply Qle_bool_iff in Hle|].
  - rewrite Z.min_r; [lra|]. apply le_ratio_of. nra.
  - assert (q < 1)%Q as Hlt. { apply Qnot_le_lt. intros H. apply Qle_bool_iff in H. congruence. }
    rewrite Z.min_l; [done|]. apply le_ratio_of. nra.
Qed.

(** The incentives and the tax of a summary, in integers. *)
Definition incentives_at (gp : GlobalParameters) (blocks reserves : Z) (rate : RationalNumber) : Z :=
  Z.min (blocks * active_slot_coeff_inverse gp) (epoch_length gp) * numerator rate * reserves / (epoch_length gp * denominator rate).
Definition tax_at (total : Z) (rate : RationalNumber) : Z := numerator rate * total / denominator rate.

Lemma rewards_rates {E : Type} s gp pp issuers pots rs : economy_ok gp pp (Z.of_nat (length issuers)) pots →
  RewardsSummary_new (E := E) s gp pp issuers pots = Ok rs →
  incentives rs = incentives_at gp (Z.of_nat (length issuers)) (reserves pots) (monetary_expansion_rate pp) ∧
  treasury_tax rs = tax_at (incentives rs + fees pots) (treasury_expansion_rate pp).
Proof.
  intros [_ _ _ Hel (_ & _ & Hbm) [(_ & [Hd1 _] & _) _] [(_ & [Hd2 _] & _) _] _ _] H. unfold RewardsSummary_new, count_blocks in H.
  destruct (count_blocks_spec (E := E) issuers 0 ∅) as (m & Hc & _); [apply map_Forall_empty|apply total_empty|done|].
  rewrite Hc, Z.add_0_l in H. cbn [mbind exec_bind] in H. set (n := Z.of_nat (length issuers)) in *.
  apply bind_Ok in H as (ex & Hex%u64_mul_Ok & H). destruct Hex as [-> _].
  destruct (safe_ratio_spec (E := E) (n * active_slot_coeff_inverse gp) (epoch_length gp) Hel) as (eff & Heq & Heff).
  rewrite Heq in H. cbn [mbind exec_bind] in H. cbv zeta in H.
  destruct (safe_ratio_spec (E := E) (numerator (monetary_expansion_rate pp)) _ Hd1) as (rho & Hr & Hrho). unfold into_safe_ratio in H. rewrite Hr in H. cbn [mbind exec_bind] in H.
  apply bind_Ok in H as (inc & Hinc & H). apply bind_Ok in H as (tot & Htot%u64_add_Ok & H). destruct Htot as [-> _].
  destruct (safe_ratio_spec (E := E) (numerator (treasury_expansion_rate pp)) _ Hd2) as (tau & Ht & Htau). rewrite Ht in H. cbn [mbind exec_bind] in H.
  apply bind_Ok in H as (tax & Htax & H). exec_inv. repeat case_match; exec_inv; subst; cbn [incentives treasury_tax]. split.
  - eapply floor_Ok; [| |exact Hinc]; [nia|]. unfold ratio_mul. rewrite !Qred_correct, !ratio_of_mult.
    rewrite <- (ratio_min_one _ _ _ Hel Heff), <- Hrho. ring.
  - eapply floor_Ok; [| |exact Htax]; [lia|]. unfold ratio_mul. rewrite !Qred_correct, ratio_of_mult, <- Htau. ring.
Qed.

(** C39: an update of the parameters exchanges the two monetary rates, down to the rewards of an
    epoch: under the updated parameters the incentives are taken from the reserves at the rate the
    update proposes for the growth of the treasury, and the treasury is given the share the update
    proposes for the expansion of the money supply; a rate that is not proposed keeps its place. *)
Theorem update_exchanges_rates (h : EraHistory) (old prev : Stake.Snapshot) (gp : GlobalParameters) (pp : ProtocolParameters)
    (u : ProtocolParamUpdate) :
  let updated := ProtocolParameters_update pp u in let pots := Stake.snap_pots prev in
  let blocks := Z.of_nat (length (Stake.snap_block_issuers prev)) in
  snapshot_ok old → governance_rows_ok h old → economy_ok gp updated blocks pots →
  circulating old (stake_of claim (Stake.snap_proposals old)) <= max_lovelace_supply gp - reserves pots →
  ∃ rs, compute_rewards h old prev gp updated = Ok rs ∧
    incentives rs = incentives_at gp blocks (reserves pots) (default (monetary_expansion_rate pp) (u_treasury_growth_rate u)) ∧
    treasury_tax rs = tax_at (incentives rs + fees pots) (default (treasury_expansion_rate pp) (u_expansion_rate u)).
Proof.
  cbv zeta. intros Hdb Hg Hec Hmax. destruct (compute_rewards_ok h old prev gp _ Hdb Hg Hec Hmax) as (s & rs & Hrs & _).
  exists rs. split; [done|]. unfold compute_rewards in Hrs. exec_inv.
  rewrite <- (length_map snd (Stake.snap_block_issuers prev)) in *. destruct (rewards_rates _ _ _ _ _ _ Hec Hrs) as [Hi Ht].
  rewrite Ht, Hi. cbn [ProtocolParameters_update monetary_expansion_rate treasury_expansion_rate].
  unfold set_field, default. split; by destruct (u_treasury_growth_rate u), (u_expansion_rate u).
Qed.

(** An update of both rates. *)
Definition sample_rates : ProtocolParamUpdate :=
  mkProtocolParamUpdate None None None None None None None None None None
    (Some (mkRationalNumber 1 200)) (Some (mkRationalNumber 1 10)) None None None None
    None None None None None None None None None None None None None None.
Lemma update_exchanges_rates_witness : let prev := SampleSnapshot.db [(133661020, [7])] 170000 in ∃ rs,
  compute_rewards MAINNET_ERA_HISTORY (SampleSnapshot.db [] 0) prev
    MAINNET_GLOBAL_PARAMETERS (ProtocolParameters_update MAINNET_DEFAULT_PROTOCOL_PARAMETERS sample_rates) = Ok rs ∧
  incentives rs = incentives_at MAINNET_GLOBAL_PARAMETERS 1 (reserves (Stake.snap_pots prev)) (mkRationalNumber 1 10) ∧
  treasury_tax rs = tax_at (incentives rs + 170000) (mkRationalNumber 1 200).
Proof.
  apply (update_exchanges_rates MAINNET_ERA_HISTORY (SampleSnapshot.db [] 0) (SampleSnapshot.db [(133661020, [7])] 170000)
    MAINNET_GLOBAL_PARAMETERS MAINNET_DEFAULT_PROTOCOL_PARAMETERS sample_rates).
  - apply SampleSnapshot.snapshot_fine. vm_compute. congruence.
  - apply SampleSnapshot.governance_fine.
  - split; SampleSnapshot.concrete.
  - rewrite SampleSnapshot.circulating_fine. vm_compute. congruence.
Defined.
