(* ===== verification/ProposalsTree.v ===== *)
(** * Trees of governance proposals

    [amaru-ledger/src/governance/ratification/proposals_tree.rs]: the proposals of
    one kind, each below the proposal it builds upon.  The tree is described by its
    edges, pairs of a parent and a proposal: insertion adds one edge, and enacting a
    top-level proposal keeps exactly what is below it. *)

From S2P Require Import Prelude EraHistory.

Module ProposalsTree.
Section Tree.
Context {T : Type} `{Countable T}.

(** ** Data *)

Inductive Sibling := mkSibling (id : T) (children : list Sibling).

Definition sibling_id (s : Sibling) : T := let 'mkSibling id _ := s in id.
Definition sibling_children (s : Sibling) : list Sibling := let 'mkSibling _ children := s in children.

Record ProposalsTree := mkProposalsTree {
  root : option T;
  siblings : list Sibling;
  seen : gset T }.

Inductive SiblingInsertError := SiblingUnknownParent (id parent : T).
Inductive ProposalsInsertError :=
| UnknownParent (id : T) (parent : option T)
| InternalSlotToEpochError (slot : Z) (error : EraHistoryError).
Inductive ProposalsEnactError := UnknownProposal (id : T).

(** Induction on the nested tree. *)
Lemma Sibling_rect' (P : Sibling → Prop) :
  (∀ id children, Forall P children → P (mkSibling id children)) → ∀ s, P s.
Proof.
  intros Hnode. fix IH 1. intros [id children]. apply Hnode.
  induction children as [|s children IHc]; constructor; [apply IH|apply IHc].
Qed.

(** ** Operations *)

Definition Sibling_new (id : T) : Sibling := mkSibling id [].

(** The first node that takes the proposal is changed; an error leaves all nodes
    as they are. *)
Definition fold_insert (insert : Sibling → exec SiblingInsertError Sibling) (id parent : T) :=
  fix go (nodes : list Sibling) : exec SiblingInsertError (list Sibling) :=
    match nodes with
    | [] => Err (SiblingUnknownParent id parent)
    | node :: nodes =>
        match insert node with
        | Ok node => Ok (node :: nodes)
        | Err _ => nodes ← go nodes; Ok (node :: nodes)
        | Panic => Panic
        | OutOfFuel => OutOfFuel
        end
    end.

Fixpoint Sibling_insert (id parent : T) (self : Sibling) : exec SiblingInsertError Sibling :=
  let 'mkSibling self_id children := self in
  if decide (self_id = parent) then Ok (mkSibling self_id (children ++ [Sibling_new id]))
  else
    children ← fold_insert (Sibling_insert id parent) id parent children;
    Ok (mkSibling self_id children).

Definition partition_step (pivot : T) (acc : option Sibling * list Sibling) (sibling : Sibling)
  : option Sibling * list Sibling :=
  let '(new_root, now_obsolete) := acc in
  if decide (sibling_id sibling = pivot) then (Some sibling, now_obsolete)
  else (new_root, now_obsolete ++ [sibling]).
Definition partition (nodes : list Sibling) (pivot : T) : option Sibling * list Sibling :=
  foldl (partition_step pivot) (None, []) nodes.

Fixpoint collect_sibling (accum : gset T) (s : Sibling) : gset T :=
  let 'mkSibling id children := s in foldl collect_sibling ({[id]} ∪ accum) children.
Definition collect_all (accum : gset T) (nodes : list Sibling) : gset T := foldl collect_sibling accum nodes.

Definition new (root : option T) : ProposalsTree :=
  mkProposalsTree root [] (match root with Some r => {[r]} | None => ∅ end).

Definition enact (id : T) (self : ProposalsTree) : exec ProposalsEnactError (T * gset T * ProposalsTree) :=
  match partition (siblings self) id with
  | (None, _) => Err (UnknownProposal id)
  | (Some new_root, now_obsolete) =>
      Ok (id, collect_all ∅ now_obsolete,
          mkProposalsTree (Some (sibling_id new_root)) (sibling_children new_root) (seen self ∖ {[id]}))
  end.

Definition insert (id : T) (parent : option T) (self : ProposalsTree) : exec ProposalsInsertError ProposalsTree :=
  if decide (id ∈ seen self) then Panic
  else
    let seen := {[id]} ∪ seen self in
    match root self, parent with
    | Some _, None => Err (UnknownParent id None)
    | None, None => Ok (mkProposalsTree (root self) (siblings self ++ [Sibling_new id]) seen)
    | _, Some parent =>
        if decide (root self = Some parent)
        then Ok (mkProposalsTree (root self) (siblings self ++ [Sibling_new id]) seen)
        else
          nodes ← map_err (λ '(SiblingUnknownParent id parent), UnknownParent id (Some parent))
                    (fold_insert (Sibling_insert id parent) id parent (siblings self));
          Ok (mkProposalsTree (root self) nodes seen)
    end.

(** ** Edges *)

(** The edges below a parent. *)
Fixpoint edges (p : option T) (s : Sibling) : list (option T * T) :=
  let 'mkSibling id children := s in (p, id) :: mbind (edges (Some id)) children.
Definition tree_edges (t : ProposalsTree) : list (option T * T) := siblings t ≫= edges (root t).
Definition ids (s : Sibling) : list T := map snd (edges None s).
Definition tree_ids (t : ProposalsTree) : list T := map snd (tree_edges t).

(** No proposal occurs twice, and the root is not among them. *)
Record tree_ok (t : ProposalsTree) : Prop := {
  tree_nodup : NoDup (tree_ids t);
  tree_root : ∀ r, root t = Some r → r ∉ tree_ids t }.

(** While the tree is being filled, the root and all proposals were seen. *)
Definition all_seen (t : ProposalsTree) : Prop :=
  (∀ r, root t = Some r → r ∈ seen t) ∧ ∀ i, i ∈ tree_ids t → i ∈ seen t.

(** The second proposal builds upon the first, directly or not. *)
Definition below (t : ProposalsTree) : T → T → Prop := tc (λ a b, (Some a, b) ∈ tree_edges t).

(** ** Insertion *)

Lemma elem_of_ids_cons i id children : i ∈ ids (mkSibling id children) ↔ i = id ∨ ∃ c, c ∈ children ∧ i ∈ ids c.
Proof.
  unfold ids. cbn [edges map snd]. rewrite elem_of_cons, list_elem_of_fmap. apply or_iff_compat_l.
  setoid_rewrite list_elem_of_bind. setoid_rewrite list_elem_of_fmap. split.
  - intros ((p & j) & -> & c & He & Hc). exists c. split; [done|]. destruct c as [cid cc]. cbn [edges] in *.
    apply elem_of_cons in He as [[= -> ->]|He]; [exists (None, cid); set_solver|]. exists (p, j). set_solver.
  - intros (c & Hc & (p & j) & -> & He). destruct c as [cid cc]. cbn [edges] in He.
    apply elem_of_cons in He as [[= -> ->]|He]; [exists (Some id, cid)|exists (p, j)];
      (split; [done|]; eexists; split; [|exact Hc]; cbn [edges]; set_solver).
Qed.

(** Inserting in a list of nodes, given what inserting in each of them does. *)
Lemma fold_insert_spec id parent p nodes :
  Forall (λ s, (parent ∈ ids s → ∃ s', Sibling_insert id parent s = Ok s' ∧
                  ∀ p, edges p s' ≡ₚ (Some parent, id) :: edges p s) ∧
               (parent ∉ ids s → Sibling_insert id parent s = Err (SiblingUnknownParent id parent))) nodes →
  ((∃ s, s ∈ nodes ∧ parent ∈ ids s) → ∃ nodes', fold_insert (Sibling_insert id parent) id parent nodes = Ok nodes' ∧
     (nodes' ≫= edges p) ≡ₚ (Some parent, id) :: (nodes ≫= edges p)) ∧
  ((∀ s, s ∈ nodes → parent ∉ ids s) →
     fold_insert (Sibling_insert id parent) id parent nodes = Err (SiblingUnknownParent id parent)).
Proof.
  induction 1 as [|s nodes [Hin Hout] _ [IHin IHout]]; cbn [fold_insert].
  { split; [intros (s & Hs%elem_of_nil & _); done|done]. }
  destruct (decide (parent ∈ ids s)) as [Hs|Hs].
  - destruct (Hin Hs) as (s' & -> & He). split; [|intros Hno; exfalso; apply (Hno s); [left|done]].
    intros _. eexists. split; [done|]. rewrite !bind_cons, He. done.
  - rewrite (Hout Hs). split.
    + intros (s' & Hs'%elem_of_cons & Hp). destruct Hs' as [->|Hs']; [done|].
      destruct IHin as (nodes' & -> & He); [eauto|]. cbn [mbind exec_bind]. eexists. split; [done|].
      rewrite !bind_cons, He. by rewrite Permutation_middle.
    + intros Hno. rewrite IHout; [done|]. intros s' Hs'. apply Hno. by right.
Qed.

Lemma Sibling_insert_spec id parent s :
  (parent ∈ ids s → ∃ s', Sibling_insert id parent s = Ok s' ∧ ∀ p, edges p s' ≡ₚ (Some parent, id) :: edges p s) ∧
  (parent ∉ ids s → Sibling_insert id parent s = Err (SiblingUnknownParent id parent)).
Proof.
  induction s as [sid children IH] using Sibling_rect'. cbn [Sibling_insert].
  pose proof (fold_insert_spec id parent (Some sid) children IH) as [Hin Hout].
  setoid_rewrite elem_of_ids_cons. destruct (decide (sid = parent)) as [->|Hne].
  - split; [|naive_solver]. intros _. eexists. split; [done|]. intros p. cbn [edges].
    rewrite bind_app. cbn [Sibling_new edges mbind list_bind app]. rewrite <- Permutation_cons_append.
    apply Permutation_swap.
  - split.
    + intros [?|Hc]; [congruence|]. destruct (Hin Hc) as (nodes' & -> & He). cbn [mbind exec_bind].
      eexists. split; [done|]. intros p. cbn [edges]. rewrite He. apply Permutation_swap.
    + intros Hno. rewrite Hout by naive_solver. done.
Qed.

Definition known_parent (t : ProposalsTree) (parent : option T) : Prop :=
  parent = root t ∨ ∃ q, parent = Some q ∧ q ∈ tree_ids t.

Lemma elem_of_tree_ids i t : i ∈ tree_ids t ↔ ∃ s, s ∈ siblings t ∧ i ∈ ids s.
Proof.
  unfold tree_ids, tree_edges. rewrite list_elem_of_fmap. setoid_rewrite list_elem_of_bind. split.
  - intros ((p & j) & -> & s & He & Hs). exists s. split; [done|]. destruct s as [sid sc]. unfold ids. cbn [edges] in *.
    apply list_elem_of_fmap. apply elem_of_cons in He as [[= -> ->]|He]; [exists (None, sid)|exists (p, j)]; set_solver.
  - intros (s & Hs & Hi). unfold ids in Hi. apply list_elem_of_fmap in Hi as ((p & j) & -> & He).
    destruct s as [sid sc]. cbn [edges] in He.
    apply elem_of_cons in He as [[= -> ->]|He]; [exists (root t, sid)|exists (p, j)];
      (split; [done|]; eexists; split; [|exact Hs]; cbn [edges]; set_solver).
Qed.

Lemma tree_ok_new r : tree_ok (new r) ∧ all_seen (new r).
Proof.
  split; [split; [constructor|intros; apply not_elem_of_nil]|]. split; [|by intros i Hi%elem_of_nil].
  intros r' Hr. cbn in *. rewrite Hr. by apply elem_of_singleton.
Qed.

Lemma tree_ok_insert t t' parent id : tree_ok t → all_seen t → id ∉ seen t → root t' = root t →
  seen t' = {[id]} ∪ seen t → tree_edges t' ≡ₚ (parent, id) :: tree_edges t → tree_ok t' ∧ all_seen t'.
Proof.
  intros [Hnd Hroot] [Hrseen Hseen] Hid Hr Hs He.
  assert (tree_ids t' ≡ₚ id :: tree_ids t) as Hids by (unfold tree_ids; by rewrite He).
  split; split.
  - rewrite Hids. constructor; [|done]. intros Hi. by apply Hid, Hseen.
  - intros r Hr'. rewrite Hr in Hr'. specialize (Hroot r Hr'). specialize (Hrseen r Hr'). rewrite Hids. set_solver.
  - intros r Hr'. rewrite Hr in Hr'. specialize (Hrseen r Hr'). rewrite Hs. set_solver.
  - intros i. rewrite Hids, Hs. set_solver.
Qed.

Lemma insert_known id parent t : tree_ok t → all_seen t → id ∉ seen t → known_parent t parent →
  ∃ t', insert id parent t = Ok t' ∧ (tree_ok t' ∧ all_seen t') ∧ root t' = root t ∧ seen t' = {[id]} ∪ seen t ∧
    tree_edges t' ≡ₚ (parent, id) :: tree_edges t.
Proof.
  intros Hok Hseen Hid Hp. unfold insert. rewrite decide_False by done.
  assert (∀ t', root t' = root t → seen t' = {[id]} ∪ seen t → tree_edges t' ≡ₚ (parent, id) :: tree_edges t →
    (tree_ok t' ∧ all_seen t') ∧ root t' = root t ∧ seen t' = {[id]} ∪ seen t ∧ tree_edges t' ≡ₚ (parent, id) :: tree_edges t) as Hfin.
  { intros t' ? ? ?. split; [by eapply tree_ok_insert|done]. }
  assert (parent = root t → ∀ t', t' = mkProposalsTree (root t) (siblings t ++ [Sibling_new id]) ({[id]} ∪ seen t) →
    tree_edges t' ≡ₚ (parent, id) :: tree_edges t) as Htop.
  { intros -> t' ->. unfold tree_edges. cbn [siblings root]. rewrite bind_app. cbn. by rewrite <- Permutation_cons_append. }
  destruct (decide (parent = root t)) as [Heq|Hne].
  - destruct parent as [q|], (root t) as [r|] eqn:Hr; try done.
    + rewrite decide_True by done. eexists. split; [done|]. apply Hfin; [done..|]. by apply Htop.
    + eexists. split; [done|]. apply Hfin; [done..|]. by apply Htop.
  - destruct Hp as [?|(q & -> & Hq)]; [done|].
    assert (∃ nodes, fold_insert (Sibling_insert id q) id q (siblings t) = Ok nodes ∧
      mbind (edges (root t)) nodes ≡ₚ (Some q, id) :: tree_edges t) as (nodes & Hf & He).
    { apply fold_insert_spec; [apply Forall_forall; intros; apply Sibling_insert_spec|]. by apply elem_of_tree_ids. }
    destruct (root t) as [r|] eqn:Hr; (rewrite decide_False by congruence);
      rewrite Hf; cbn [map_err mbind exec_bind]; (eexists; split; [done|]; apply Hfin; [done..|exact He]).
Qed.

Lemma insert_unknown id parent t : id ∉ seen t → ¬ known_parent t parent →
  insert id parent t = Err (UnknownParent id parent).
Proof.
  intros Hid Hp. unfold insert, known_parent in *. rewrite decide_False by done.
  destruct parent as [q|]; [|destruct (root t); [done|tauto]].
  assert (fold_insert (Sibling_insert id q) id q (siblings t) = Err (SiblingUnknownParent id q)) as Hf.
  { apply (fold_insert_spec id q None); [apply Forall_forall; intros; apply Sibling_insert_spec|].
    intros s Hs Hq. apply Hp. right. exists q. rewrite elem_of_tree_ids. eauto. }
  destruct (root t) as [r|] eqn:Hr; (rewrite decide_False by naive_solver); by rewrite Hf.
Qed.

(** ** Enactment *)

Lemma partition_spec l1 s l2 pivot : sibling_id s = pivot →
  (∀ s', s' ∈ l1 ++ l2 → sibling_id s' ≠ pivot) → partition (l1 ++ s :: l2) pivot = (Some s, l1 ++ l2).
Proof.
  intros Hs Hother. unfold partition.
  assert (∀ l o acc, (∀ s', s' ∈ l → sibling_id s' ≠ pivot) → foldl (partition_step pivot) (o, acc) l = (o, acc ++ l)) as Hfold.
  { induction l as [|x l IH]; intros o acc Hl; cbn [foldl]; [by rewrite app_nil_r|].
    cbn [partition_step]. rewrite decide_False by (apply Hl; left). rewrite IH by (intros; apply Hl; by right).
    by rewrite <- app_assoc. }
  rewrite foldl_app, Hfold by set_solver. cbn [foldl partition_step app]. rewrite decide_True by done.
  by rewrite Hfold by set_solver.
Qed.

Lemma collect_sibling_spec s : ∀ accum i, i ∈ collect_sibling accum s ↔ i ∈ accum ∨ i ∈ ids s.
Proof.
  induction s as [id children IH] using Sibling_rect'. intros accum i. cbn [collect_sibling].
  rewrite elem_of_ids_cons. rewrite Forall_forall in IH.
  assert (∀ l a, (∀ c, c ∈ l → c ∈ children) →
    i ∈ foldl collect_sibling a l ↔ i ∈ a ∨ ∃ c, c ∈ l ∧ i ∈ ids c) as ->; [|set_solver|done].
  induction l as [|c l IHl]; intros a Hl; cbn [foldl]; [set_solver|].
  rewrite IHl by set_solver. rewrite IH by set_solver. set_solver.
Qed.
Lemma collect_all_spec nodes i : i ∈ collect_all ∅ nodes ↔ ∃ s, s ∈ nodes ∧ i ∈ ids s.
Proof.
  unfold collect_all. assert (∀ a, i ∈ foldl collect_sibling a nodes ↔ i ∈ a ∨ ∃ s, s ∈ nodes ∧ i ∈ ids s) as ->; [|set_solver].
  induction nodes as [|s nodes IH]; intros a; cbn [foldl]; [set_solver|]. rewrite IH, collect_sibling_spec. set_solver.
Qed.

Lemma edge_parent a b s : ∀ p, (Some a, b) ∈ edges p s → Some a = p ∨ a ∈ ids s.
Proof.
  induction s as [id children IH] using Sibling_rect'. intros p. cbn [edges]. rewrite elem_of_cons, elem_of_ids_cons.
  intros [[= -> ->]|(c & He & Hc)%list_elem_of_bind]; [by left|]. right. rewrite Forall_forall in IH.
  destruct (IH c Hc _ He) as [[= ->]|Ha]; [by left|eauto].
Qed.

Lemma edges_below (E : T → T → Prop) s : ∀ p i, (∀ a b, (Some a, b) ∈ edges (Some p) s → E a b) → i ∈ ids s → tc E p i.
Proof.
  induction s as [id children IH] using Sibling_rect'. intros p i HE. rewrite elem_of_ids_cons. cbn [edges] in HE.
  assert (E p id) as Hid by (apply HE; left). intros [->|(c & Hc & Hi)]; [by constructor|].
  eapply tc_l; [exact Hid|]. rewrite Forall_forall in IH. apply (IH c Hc); [|done].
  intros a b Hab. apply HE. right. apply list_elem_of_bind. eauto.
Qed.

(** The top-level node of a proposal whose parent is the root. *)
Lemma top_level t id : tree_ok t → (root t, id) ∈ tree_edges t → ∃ s, s ∈ siblings t ∧ sibling_id s = id.
Proof.
  intros [_ Hroot] (s & He & Hs)%list_elem_of_bind. exists s. split; [done|].
  destruct s as [sid children]. cbn [edges] in He. apply elem_of_cons in He as [[= ->]|(c & He & Hc)%list_elem_of_bind]; [done|].
  exfalso. destruct (root t) as [r|] eqn:Hr.
  - apply (Hroot r eq_refl). apply elem_of_tree_ids. exists (mkSibling sid children). split; [done|].
    apply elem_of_ids_cons. destruct (edge_parent _ _ _ _ He) as [[= ->]|Ha]; [by left|eauto].
  - clear -He. induction c as [cid cc IH] using Sibling_rect' in sid, He. cbn [edges] in He.
    apply elem_of_cons in He as [?|(c & He & Hc)%list_elem_of_bind]; [done|]. rewrite Forall_forall in IH. by eapply IH.
Qed.

(** ** Splitting the tree at a top-level proposal *)

Section Split.
Context (t : ProposalsTree) (Hok : tree_ok t) (id : T) (children l1 l2 : list Sibling).
Context (Hl : siblings t = l1 ++ mkSibling id children :: l2).

Definition kept : ProposalsTree := mkProposalsTree (Some id) children (seen t ∖ {[id]}).
Definition rest : list (option T * T) := mbind (edges (root t)) (l1 ++ l2).

Lemma split_edges : tree_edges t ≡ₚ (root t, id) :: tree_edges kept ++ rest.
Proof using Hl.
  unfold tree_edges, rest, kept. rewrite Hl, !bind_app, bind_cons. cbn [edges siblings root app].
  rewrite <- Permutation_middle. apply perm_skip. rewrite !app_assoc. apply Permutation_app_tail, Permutation_app_comm.
Qed.

Lemma split_ids : tree_ids t ≡ₚ id :: tree_ids kept ++ map snd rest.
Proof using Hl. unfold tree_ids. rewrite split_edges. cbn [map snd]. by rewrite map_app. Qed.

Lemma elem_of_split i : i ∈ tree_ids t ↔ i = id ∨ i ∈ tree_ids kept ∨ i ∈ map snd rest.
Proof using Hl. by rewrite split_ids, elem_of_cons, elem_of_app. Qed.

Lemma split_disjoint : (id ∉ tree_ids kept) ∧ (id ∉ map snd rest) ∧ NoDup (tree_ids kept) ∧
  ∀ i, i ∈ tree_ids kept → i ∉ map snd rest.
Proof using Hl Hok.
  pose proof (tree_nodup _ Hok) as Hnd. rewrite split_ids in Hnd.
  apply NoDup_cons in Hnd as [Hf (? & ? & _)%NoDup_app]. rewrite elem_of_app in Hf. tauto.
Qed.

Lemma elem_of_rest i : i ∈ map snd rest ↔ ∃ s, s ∈ l1 ++ l2 ∧ i ∈ ids s.
Proof. change (map snd rest) with (tree_ids (mkProposalsTree (root t) (l1 ++ l2) ∅)). apply elem_of_tree_ids. Qed.

Lemma kept_step a b : a = id ∨ a ∈ tree_ids kept → (Some a, b) ∈ tree_edges t → b ∈ tree_ids kept.
Proof using Hl Hok.
  intros Ha Hab. destruct split_disjoint as (_ & Hidr & _ & Hdisj).
  assert (root t ≠ Some a) as Hra.
  { intros Hra. apply (tree_root _ Hok a Hra). apply elem_of_split. tauto. }
  rewrite split_edges in Hab. apply elem_of_cons in Hab as [[= ? _]|[Hab|Hab]%elem_of_app]; [congruence| |].
  - unfold tree_ids. apply list_elem_of_fmap. by exists (Some a, b).
  - exfalso. apply list_elem_of_bind in Hab as (s & Hab & Hs).
    destruct (edge_parent _ _ _ _ Hab) as [?|Has]; [congruence|].
    assert (a ∈ map snd rest) by (apply elem_of_rest; eauto). destruct Ha as [->|Ha]; [done|]. by apply (Hdisj a).
Qed.

Lemma kept_below i : i ∈ tree_ids kept ↔ below t id i.
Proof using Hl Hok.
  split.
  - intros (c & Hc & Hi)%elem_of_tree_ids. apply (edges_below _ c); [|done]. intros a b Hab. rewrite split_edges.
    right. apply elem_of_app. left. apply list_elem_of_bind. eauto.
  - unfold below. intros Htc. assert (∀ x, tc (λ a b, (Some a, b) ∈ tree_edges t) x i →
      x = id ∨ x ∈ tree_ids kept → i ∈ tree_ids kept) as Hgo; [|by eapply Hgo; [exact Htc|left]].
    clear Htc. intros x Htc. induction Htc as [x y Hxy|x y z Hxy _ IH]; intros Hx; [by eapply kept_step|].
    apply IH. right. by eapply kept_step.
Qed.

Lemma enact_split : enact id t = Ok (id, collect_all ∅ (l1 ++ l2), kept).
Proof using Hl Hok.
  unfold enact. rewrite Hl, (partition_spec l1 (mkSibling id children) l2 id); [done|done|].
  intros [sid sc] Hs Heq. cbn in Heq. subst sid. apply split_disjoint, elem_of_rest.
  exists (mkSibling id sc). split; [done|]. apply elem_of_ids_cons. by left.
Qed.
End Split.

(** A proposal whose parent is the root can be enacted, and this is how the tree is
    split: what builds upon it stays, with its edges, and all the rest is pruned. *)
Lemma enact_known id t : tree_ok t → (root t, id) ∈ tree_edges t →
  ∃ pruned t', enact id t = Ok (id, pruned, t') ∧ tree_ok t' ∧ root t' = Some id ∧
    (∀ e, e ∈ tree_edges t' → e ∈ tree_edges t) ∧ (∀ i, i ∈ tree_ids t' ↔ below t id i) ∧
    (∀ i, i ∈ pruned ↔ i ∈ tree_ids t ∧ i ≠ id ∧ ¬ below t id i).
Proof.
  intros Hok He. destruct (top_level t id Hok He) as ([sid children] & Hs & Hid). cbn in Hid. subst sid.
  apply list_elem_of_split in Hs as (l1 & l2 & Hl).
  destruct (split_disjoint t Hok id children l1 l2 Hl) as (Hk & Hr & Hnd & Hdisj).
  exists (collect_all ∅ (l1 ++ l2)), (kept t id children). split; [by apply enact_split|].
  split; [split; [done|by intros r [= <-]]|]. split; [done|]. split; [|split].
  - intros e Het. rewrite (split_edges t id children l1 l2 Hl). right. apply elem_of_app. by left.
  - intros i. by apply (kept_below t Hok id children l1 l2).
  - intros i. rewrite collect_all_spec, <- (elem_of_rest t), (elem_of_split t id children l1 l2 Hl),
      <- (kept_below t Hok id children l1 l2 Hl). specialize (Hdisj i). split; [|tauto].
    intros Hi. split; [tauto|]. split; [by intros ->|tauto].
Qed.

(** Enacting anything else is refused. *)
Lemma enact_unknown id t : id ∉ map sibling_id (siblings t) → enact id t = Err (UnknownProposal id).
Proof.
  intros Hid. unfold enact, partition.
  assert (∀ l acc, id ∉ map sibling_id l → fst (foldl (partition_step id) (None, acc) l) = None) as Hfold.
  { induction l as [|x l IH]; intros acc Hl; cbn [foldl]; [done|]. cbn [map] in Hl. apply not_elem_of_cons in Hl as [Hx Hl].
    cbn [partition_step]. rewrite decide_False by congruence. by apply IH. }
  specialize (Hfold (siblings t) [] Hid). destruct (foldl _ _ _) as [[?|] ?]; done.
Qed.

(** ** Whole trees *)

Lemma known_parent_dec t parent : known_parent t parent ∨ ¬ known_parent t parent.
Proof.
  unfold known_parent. destruct (decide (parent = root t)); [by left; left|]. destruct parent as [q|].
  - destruct (decide (q ∈ tree_ids t)); [left; right; eauto|]. right. by intros [?|(? & [= <-] & ?)].
  - right. by intros [?|(? & ? & _)].
Qed.

Lemma insert_Ok id parent t t' : tree_ok t → all_seen t → insert id parent t = Ok t' →
  (tree_ok t' ∧ all_seen t') ∧ root t' = root t ∧ tree_edges t' ≡ₚ (parent, id) :: tree_edges t.
Proof.
  intros Hok Hseen Hins. destruct (decide (id ∈ seen t)) as [Hid|Hid].
  { unfold insert in Hins. by rewrite decide_True in Hins. }
  destruct (known_parent_dec t parent) as [Hp|Hp]; [|by rewrite insert_unknown in Hins].
  destruct (insert_known id parent t Hok Hseen Hid Hp) as (t1 & Ht1 & Ht & Hr & _ & He). rewrite Ht1 in Hins. by simplify_eq.
Qed.

Lemma insert_all_Ok l t t' : tree_ok t → all_seen t →
  for_in l (λ t '(id, parent), insert id parent t) t = Ok t' →
  tree_ok t' ∧ root t' = root t ∧ tree_edges t' ≡ₚ map (λ '(id, parent), (parent, id)) l ++ tree_edges t.
Proof.
  revert t. induction l as [|[id parent] l IH]; intros t Hok Hseen Hl; cbn [for_in] in Hl; exec_inv; [by subst|].
  destruct (insert_Ok id parent t a Hok Hseen Hr) as ([Hok1 Hseen1] & Hr1 & He1).
  destruct (IH a Hok1 Hseen1 Hl) as (Hok2 & Hr2 & He2). split; [done|]. split; [congruence|].
  rewrite He2, He1. cbn [map app]. by rewrite Permutation_middle.
Qed.
End Tree.
Arguments Sibling T : clear implicits.
Arguments ProposalsInsertError T : clear implicits.
Arguments ProposalsEnactError T : clear implicits.
Arguments ProposalsTree T {_ _} : assert.

(** A tree of proposals holds exactly what was inserted into it, each proposal
    below its parent; a proposal that builds upon the root can be enacted: it becomes
    the root, what builds upon it, directly or not, stays, and every other proposal is
    reported as pruned; any other proposal cannot be enacted. *)
Theorem tree_spec {T} `{Countable T} (r : option T) (l : list (T * option T)) (t : ProposalsTree T) (id : T) :
  for_in l (λ t '(id, parent), insert id parent t) (new r) = Ok t →
  root t = r ∧ tree_edges t ≡ₚ map (λ '(id, parent), (parent, id)) l ∧
  ((id, r) ∈ l → ∃ pruned t', enact id t = Ok (id, pruned, t') ∧ root t' = Some id ∧
    (∀ i, i ∈ tree_ids t' ↔ below t id i) ∧
    (∀ i, i ∈ pruned ↔ i ∈ tree_ids t ∧ i ≠ id ∧ ¬ below t id i)) ∧
  ((id, r) ∉ l → enact id t = Err (UnknownProposal id)).
Proof.
  intros Hl. destruct (tree_ok_new r) as [Hok Hseen]. destruct (insert_all_Ok l (new r) t Hok Hseen Hl) as (Hokt & Hr & He).
  cbn in Hr, He. rewrite app_nil_r in He.
  assert ((r, id) ∈ tree_edges t ↔ (id, r) ∈ l) as Hin.
  { rewrite He. rewrite list_elem_of_fmap. split; [intros ([i p] & [= -> ->] & ?); done|]. intros ?. by exists (id, r). }
  split; [done|]. split; [done|]. split.
  - intros Hid. rewrite <- Hin, <- Hr in Hid. destruct (enact_known id t Hokt Hid) as (pr & t' & ? & _ & ? & _ & ? & ?).
    exists pr, t'. done.
  - intros Hid. rewrite <- Hin, <- Hr in Hid. apply enact_unknown. intros (s & -> & Hs)%list_elem_of_fmap. apply Hid.
    apply list_elem_of_bind. exists s. split; [|done]. destruct s. left.
Qed.

(** Four proposals: two on the root, and a chain below the first. *)
Definition sample : list (nat * option nat) := [(1, Some 0); (2, Some 1); (3, Some 0); (4, Some 2)]%nat.
Lemma tree_spec_witness : ∃ t, for_in sample (λ t '(id, parent), insert id parent t) (new (Some 0%nat)) = Ok t ∧
  ∃ pruned t', enact 1%nat t = Ok (1%nat, pruned, t') ∧ root t' = Some 1%nat ∧
    (∀ i, i ∈ tree_ids t' ↔ below t 1%nat i) ∧ (∀ i, i ∈ pruned ↔ i ∈ tree_ids t ∧ i ≠ 1%nat ∧ ¬ below t 1%nat i).
Proof.
  eexists. split; [vm_compute; reflexivity|].
  eapply (tree_spec (Some 0%nat) sample); [vm_compute; reflexivity|left].
Defined.
End ProposalsTree.
