(* ===== verification/ProposalsForest.v ===== *)
(** * The forest of proposals

    [amaru-ledger/src/governance/ratification/proposals_forest.rs]: all the
    proposals of an epoch, in a tree per kind, with the order in which they are
    considered, what was pruned, and the treasury that is left.  The last pass over
    the proposals ([end]) orders them with an unstable sort, of which only the
    documented behaviour is used: its result is a parameter of the model. *)

From S2P Require Import Prelude EraHistory UplcSyntax ProtocolParameters Governance ProposalsTree.
Import ProposalsTree(ProposalsTree, ProposalsInsertError, ProposalsEnactError, UnknownProposal, InternalSlotToEpochError).

Module Forest.

(** ** Data *)

Record WithContext := mkWithContext {
  ctx_proposed_in : Z; ctx_valid_until : Z; ctx_pointer : ProposalPointer; ctx_proposal : ProposalEnum }.

Record CandidateProposal := mkCandidateProposal {
  cand_valid_until : Z; cand_proposed_in : ProposalPointer; cand_governance_action : GovernanceAction }.

Record ProposalsRoots := mkProposalsRoots {
  root_protocol_parameters : option ProposalId;
  root_hard_fork : option ProposalId;
  root_constitutional_committee : option ProposalId;
  root_constitution : option ProposalId }.

(** The four kinds of proposals that build upon others. *)
Inductive Kind := KProtocolParameters | KHardFork | KConstitutionalCommittee | KConstitution.
#[global] Instance Kind_eq_dec : EqDecision Kind.
Proof. solve_decision. Defined.
Definition kind_of (p : ProposalEnum) : option Kind :=
  match p with
  | ProtocolParametersProposal _ _ => Some KProtocolParameters
  | HardFork _ _ => Some KHardFork
  | ConstitutionalCommitteeProposal _ _ => Some KConstitutionalCommittee
  | ConstitutionProposal _ _ => Some KConstitution
  | Orphan _ => None
  end.
Definition root_of (k : Kind) (r : ProposalsRoots) : option ProposalId :=
  match k with
  | KProtocolParameters => root_protocol_parameters r
  | KHardFork => root_hard_fork r
  | KConstitutionalCommittee => root_constitutional_committee r
  | KConstitution => root_constitution r
  end.

(** The four trees are a field each in the code; here they are indexed by their
    kind. *)
Record ProposalsForest := mkProposalsForest {
  proposals : gmap ProposalId WithContext;
  pruned : gmap ProposalId RatificationStatus;
  sequence : list ProposalId;
  is_interrupted : bool;
  treasury : Z;
  current_epoch : Z;
  tree : Kind → ProposalsTree ProposalId }.

Definition set_tree (k : Kind) (t : ProposalsTree ProposalId) (f : ProposalsForest) : ProposalsForest :=
  mkProposalsForest (proposals f) (pruned f) (sequence f) (is_interrupted f) (treasury f) (current_epoch f)
    (λ k', if decide (k' = k) then t else tree f k').
Definition set_interrupted (f : ProposalsForest) : ProposalsForest :=
  mkProposalsForest (proposals f) (pruned f) (sequence f) true (treasury f) (current_epoch f) (tree f).
Definition set_treasury (n : Z) (f : ProposalsForest) : ProposalsForest :=
  mkProposalsForest (proposals f) (pruned f) (sequence f) (is_interrupted f) n (current_epoch f) (tree f).
Definition set_sequence (seq : list ProposalId) (f : ProposalsForest) : ProposalsForest :=
  mkProposalsForest (proposals f) (pruned f) seq (is_interrupted f) (treasury f) (current_epoch f) (tree f).

(** ** Operations *)

Definition new (current_epoch : Z) (roots : ProposalsRoots) (treasury : Z) : ProposalsForest :=
  mkProposalsForest ∅ ∅ [] false treasury current_epoch (λ k, ProposalsTree.new (root_of k roots)).

Definition roots (f : ProposalsForest) : ProposalsRoots :=
  mkProposalsRoots (ProposalsTree.root (tree f KProtocolParameters)) (ProposalsTree.root (tree f KHardFork))
    (ProposalsTree.root (tree f KConstitutionalCommittee)) (ProposalsTree.root (tree f KConstitution)).

Definition get (id : ProposalId) (f : ProposalsForest) : option ProposalEnum := ctx_proposal <$> proposals f !! id.

(** The index at which a proposal goes in the sequence. *)
Fixpoint insertion_ix {E : Type} (seq : list ProposalId) (new_pointer : ProposalPointer) (new_proposal : ProposalEnum)
    (proposals : gmap ProposalId WithContext) : exec E nat :=
  match seq with
  | [] => Ok 0%nat
  | id :: seq =>
      match proposals !! id with
      | None => Panic
      | Some ctx =>
          match cmp_priority (ctx_proposal ctx) new_proposal with
          | Lt => Ok 0%nat
          | Eq =>
              match ProposalPointer_cmp (ctx_pointer ctx) new_pointer with
              | Gt => Ok 0%nat
              | _ => ix ← insertion_ix seq new_pointer new_proposal proposals; Ok (S ix)
              end
          | Gt => ix ← insertion_ix seq new_pointer new_proposal proposals; Ok (S ix)
          end
      end
  end.

Definition priority_insert {E : Type} (seq : list ProposalId) (new_id : ProposalId) (new_pointer : ProposalPointer)
    (new_proposal : ProposalEnum) (proposals : gmap ProposalId WithContext) : exec E (list ProposalId) :=
  ix ← insertion_ix seq new_pointer new_proposal proposals;
  Ok (take ix seq ++ new_id :: drop ix seq).

Definition insert (era_history : EraHistory) (id : ProposalId) (valid_until : Z) (proposed_in : ProposalPointer)
    (action : GovernanceAction) (f : ProposalsForest) : exec (ProposalsInsertError ProposalId) ProposalsForest :=
  proposal ← ProposalEnum_from action;
  f ← match kind_of proposal with
      | Some k => t ← ProposalsTree.insert id (proposal_parent proposal) (tree f k); Ok (set_tree k t f)
      | None => Ok f
      end;
  seq ← priority_insert (sequence f) id proposed_in proposal (proposals f);
  let slot := ptr_slot proposed_in in
  epoch ← map_err (InternalSlotToEpochError slot) (slot_to_epoch era_history slot slot);
  Ok (mkProposalsForest (<[id := mkWithContext epoch valid_until proposed_in proposal]> (proposals f))
        (pruned f) seq (is_interrupted f) (treasury f) (current_epoch f) (tree f)).

(** [sort_by_key(|(_, row)| row.proposed_in)], a stable sort. *)
Fixpoint insert_by_pointer (c : ProposalId * CandidateProposal) (l : list (ProposalId * CandidateProposal)) :=
  match l with
  | [] => [c]
  | c' :: l =>
      match ProposalPointer_cmp (cand_proposed_in c.2) (cand_proposed_in c'.2) with
      | Gt => c' :: insert_by_pointer c l
      | _ => c :: c' :: l
      end
  end.
Definition sort_by_pointer (l : list (ProposalId * CandidateProposal)) : list (ProposalId * CandidateProposal) :=
  foldr insert_by_pointer [] l.

Definition drain_one (era_history : EraHistory) (f : ProposalsForest) (c : ProposalId * CandidateProposal)
  : exec (ProposalsInsertError ProposalId) ProposalsForest :=
  let '(id, row) := c in
  if cand_valid_until row <? current_epoch f then Panic
  else insert era_history id (cand_valid_until row) (cand_proposed_in row) (cand_governance_action row) f.

Definition drain (era_history : EraHistory) (l : list (ProposalId * CandidateProposal)) (f : ProposalsForest)
  : exec (ProposalsInsertError ProposalId) ProposalsForest :=
  for_in (sort_by_pointer l) (drain_one era_history) f.

(** The total of some withdrawals, and taking them from the treasury; the order of
    the map does not matter. *)
Definition total_withdrawn (w : gmap Credential Z) : Z :=
  foldl u64_saturating_add 0 (map snd (map_to_list w)).
Definition withdraw (treasury : Z) (w : gmap Credential Z) : Z :=
  foldl u64_saturating_sub treasury (map snd (map_to_list w)).

(** The promotion of a proposal, by its kind. *)
Definition promote (id : ProposalId) (proposal : ProposalEnum) (f : ProposalsForest)
  : exec (ProposalsEnactError ProposalId) (ProposalId * gset ProposalId * ProposalsForest) :=
  let in_tree k f :=
    '(id, pruned, t) ← ProposalsTree.enact id (tree f k); Ok (id, pruned, set_tree k t f) in
  match proposal with
  | HardFork _ _ => in_tree KHardFork (set_interrupted f)
  | ConstitutionalCommitteeProposal _ _ => in_tree KConstitutionalCommittee (set_interrupted f)
  | ConstitutionProposal _ _ => in_tree KConstitution (set_interrupted f)
  | ProtocolParametersProposal _ _ => in_tree KProtocolParameters f
  | Orphan orphan =>
      let f := match orphan with
               | NicePoll => f
               | TreasuryWithdrawal withdrawals => set_treasury (withdraw (treasury f) withdrawals) f
               end in
      if decide (is_Some (proposals f !! id)) then Ok (id, ∅, f) else Err (UnknownProposal id)
  end.

Definition enact (id : ProposalId) (proposal : ProposalEnum) (f : ProposalsForest)
  : exec (ProposalsEnactError ProposalId) ProposalsForest :=
  '(id, now_pruned, f) ← promote id proposal f;
  let pruned := <[id := Ratified]> (gset_to_gmap NotRatified now_pruned ∪ pruned f) in
  Ok (mkProposalsForest (filter (λ kv, pruned !! kv.1 = None) (proposals f)) pruned
        (filter (λ id, pruned !! id = None) (sequence f))
        (is_interrupted f) (treasury f) (current_epoch f) (tree f)).

Definition matching_root (proposal : ProposalEnum) (f : ProposalsForest) : bool :=
  match kind_of proposal with
  | None => true
  | Some k => bool_decide (proposal_parent proposal = ProposalsTree.root (tree f k))
  end.

Definition step {E : Type} (id : ProposalId) (ctx : WithContext) (pp : ProtocolParameters) (f : ProposalsForest)
  : exec E (option (ProposalId * ProposalEnum * ProposalPointer)) :=
  let proposal := ctx_proposal ctx in
  if current_epoch f <? ctx_proposed_in ctx then Ok None
  else if match proposal with
          | Orphan (TreasuryWithdrawal withdrawals) => treasury f <? total_withdrawn withdrawals
          | _ => false
          end then Ok None
  else
    is_now_invalid ←
      match proposal with
      | ConstitutionalCommitteeProposal (ChangeMembers _ added _) _ =>
          match map snd (map_to_list added) with
          | [] => Ok false
          | terms =>
              next_epoch ← u64_add (current_epoch f) 1;
              limit ← u64_add next_epoch (max_committee_term_length pp);
              Ok (existsb (λ valid_until, limit <? valid_until) terms)
          end
      | _ => Ok false
      end;
    if (is_now_invalid : bool) then Ok None
    else if matching_root proposal f then Ok (Some (id, proposal, ctx_pointer ctx))
    else Ok None.

Fixpoint next_loop {E : Type} (seq : list ProposalId) (pp : ProtocolParameters) (f : ProposalsForest)
  : exec E (option (ProposalId * ProposalEnum * ProposalPointer) * ProposalsForest) :=
  match seq with
  | [] => Ok (None, set_sequence [] f)
  | id :: seq =>
      match proposals f !! id with
      | None => Panic
      | Some ctx =>
          found ← step id ctx pp f;
          match found with
          | Some x => Ok (Some x, set_sequence seq f)
          | None => next_loop seq pp f
          end
      end
  end.

Definition next {E : Type} (pp : ProtocolParameters) (f : ProposalsForest)
  : exec E (option (ProposalId * ProposalEnum * ProposalPointer) * ProposalsForest) :=
  if is_interrupted f then Ok (None, f) else next_loop (sequence f) pp f.

(** One turn of the loop of [end]. *)
Definition end_one (current_epoch : Z) (pruned : gmap ProposalId RatificationStatus) (p : ProposalId * WithContext)
  : gmap ProposalId RatificationStatus :=
  let '(id, ctx) := p in
  if ctx_valid_until ctx =? current_epoch then <[id := NotRatified]> pruned
  else
    match proposal_parent (ctx_proposal ctx) with
    | Some parent => if decide (pruned !! parent = Some NotRatified) then <[id := NotRatified]> pruned else pruned
    | None => pruned
    end.

(** [sorted_unstable_by_key(|(_, ctx)| ctx.proposed_in)]: some permutation of the
    proposals in ascending order of their epoch of submission. *)
Class UnstableSort := sort_by_epoch : list (ProposalId * WithContext) → list (ProposalId * WithContext).
Class UnstableSortLaws (S : UnstableSort) : Prop := {
  sort_perm l : sort_by_epoch (UnstableSort := S) l ≡ₚ l;
  sort_sorted l : StronglySorted (λ a b, ctx_proposed_in a.2 <= ctx_proposed_in b.2) (sort_by_epoch (UnstableSort := S) l) }.

Definition end_ `{UnstableSort} (f : ProposalsForest) : gmap ProposalId RatificationStatus :=
  foldl (end_one (current_epoch f)) (pruned f) (sort_by_epoch (map_to_list (proposals f))).
End Forest.
