(* ===== verification/ForestProps.v ===== *)
(** * Properties of the forest of proposals

    The invariant of the forest: its trees, its table of proposals and its sequence
    agree, and the sequence is in order of priority.  Filling, enacting and
    iterating preserve it; none of them can fail on proposals that were submitted in
    order. *)

From stdpp Require Import sorting.
From S2P Require Import Prelude EraHistory UplcSyntax ProtocolParameters Governance ProposalsTree ProposalsForest.
Import ProposalsTree(tree_ok, all_seen, tree_edges, tree_ids, below, known_parent).
Import Forest.
#[local] Open Scope Z_scope.

(** ** Order of priority *)

(** What is considered before what: higher priority first, then by submission. *)
Definition ctx_le (a b : WithContext) : Prop :=
  priority (ctx_proposal b) < priority (ctx_proposal a) ∨
  (priority (ctx_proposal a) = priority (ctx_proposal b) ∧ ProposalPointer_cmp (ctx_pointer a) (ctx_pointer b) ≠ Gt).

Lemma ctx_le_trans a b c : ctx_le a b → ctx_le b c → ctx_le a c.
Proof.
  unfold ctx_le. intros [H1|[H1 P1]] [H2|[H2 P2]]; [left; lia..|]. right. split; [lia|].
  by eapply ProposalPointer_cmp_trans.
Qed.

Definition before (m : gmap ProposalId WithContext) (a b : ProposalId) : Prop :=
  ∀ ca cb, m !! a = Some ca → m !! b = Some cb → ctx_le ca cb.

Lemma insertion_ix_spec {E} seq m pointer proposal c :
  ctx_pointer c = pointer → ctx_proposal c = proposal →
  (∀ id, id ∈ seq → is_Some (m !! id)) → StronglySorted (before m) seq →
  ∃ ix, insertion_ix (E := E) seq pointer proposal m = Ok ix ∧
    (∀ id ctx, id ∈ take ix seq → m !! id = Some ctx → ctx_le ctx c) ∧
    (∀ id ctx, id ∈ drop ix seq → m !! id = Some ctx → ctx_le c ctx).
Proof.
  intros <- <- Hin Hsort. induction Hsort as [|id seq Hsort IH Hall]; cbn [insertion_ix].
  { exists 0%nat. split; [done|]. split; intros ?? Hx%elem_of_nil; done. }
  destruct (Hin id) as [ctx Hctx]; [left|]. rewrite Hctx, cmp_priority_rank.
  assert (∀ id' ctx', id' ∈ seq → m !! id' = Some ctx' → ctx_le ctx ctx') as Hrest.
  { intros id' ctx' Hid' Hctx'. rewrite Forall_forall in Hall. by apply (Hall id' Hid'). }
  assert (ctx_le c ctx → ∃ ix, Ok (E := E) 0%nat = Ok ix ∧
    (∀ id' ctx', id' ∈ take ix (id :: seq) → m !! id' = Some ctx' → ctx_le ctx' c) ∧
    (∀ id' ctx', id' ∈ drop ix (id :: seq) → m !! id' = Some ctx' → ctx_le c ctx')) as Hstop.
  { intros Hle. exists 0%nat. split; [done|]. split; [intros ?? Hx%elem_of_nil; done|].
    intros id' ctx' [->|Hid']%elem_of_cons Hctx'; [by simplify_eq|]. eapply ctx_le_trans; [done|by eapply Hrest]. }
  assert (ctx_le ctx c → ∃ ix, (ix ← insertion_ix (E := E) seq (ctx_pointer c) (ctx_proposal c) m; Ok (S ix)) = Ok ix ∧
    (∀ id' ctx', id' ∈ take ix (id :: seq) → m !! id' = Some ctx' → ctx_le ctx' c) ∧
    (∀ id' ctx', id' ∈ drop ix (id :: seq) → m !! id' = Some ctx' → ctx_le c ctx')) as Hgo.
  { intros Hle. destruct IH as (ix & -> & Htake & Hdrop); [intros; apply Hin; by right|].
    exists (S ix). split; [done|]. cbn [take drop]. split; [|done].
    intros id' ctx' [->|Hid']%elem_of_cons Hctx'; [by simplify_eq|by eapply Htake]. }
  destruct (Z.compare_spec (priority (ctx_proposal ctx)) (priority (ctx_proposal c))).
  - destruct (ProposalPointer_cmp (ctx_pointer ctx) (ctx_pointer c)) eqn:Hp.
    + apply Hgo. right. split; [lia|]. by rewrite Hp.
    + apply Hgo. right. split; [lia|]. by rewrite Hp.
    + apply Hstop. right. split; [lia|]. by rewrite ProposalPointer_cmp_antisym, Hp.
  - apply Hstop. left. lia.
  - apply Hgo. left. lia.
Qed.

Lemma priority_insert_spec {E} seq m id c :
  (∀ i, i ∈ seq → is_Some (m !! i)) → m !! id = None → StronglySorted (before m) seq →
  ∃ seq', priority_insert (E := E) seq id (ctx_pointer c) (ctx_proposal c) m = Ok seq' ∧ seq' ≡ₚ id :: seq ∧
    StronglySorted (before (<[id := c]> m)) seq'.
Proof.
  intros Hin Hid Hsort. unfold priority_insert.
  destruct (insertion_ix_spec (E := E) seq m _ _ c eq_refl eq_refl Hin Hsort) as (ix & -> & Htake & Hdrop).
  cbn [mbind exec_bind]. eexists. split; [done|]. split.
  { by rewrite <- Permutation_middle, take_drop. }
  assert (∀ i, i ∈ seq → i ≠ id) as Hne by (intros i Hi ->; destruct (Hin id Hi); congruence).
  assert (StronglySorted (before (<[id := c]> m)) seq) as Hsort'.
  { clear -Hsort Hne. induction Hsort as [|i seq Hsort IH Hall]; constructor; [apply IH; set_solver|].
    rewrite Forall_forall in *. intros j Hj ci cj. rewrite !lookup_insert_ne by (symmetry; apply Hne; set_solver).
    by apply Hall. }
  rewrite <- (take_drop ix seq) in Hsort'. apply StronglySorted_app in Hsort' as (Hcross & Hl & Hr).
  apply StronglySorted_app. split; [|split; [done|constructor; [done|]]].
  - intros a b Ha [->|Hb]%elem_of_cons; [|by apply Hcross]. intros ca cb. rewrite lookup_insert_eq.
    rewrite lookup_insert_ne by (symmetry; apply Hne; by eapply subseteq_take). intros Hca [= <-]. by eapply Htake.
  - apply Forall_forall. intros b Hb ca cb. rewrite lookup_insert_eq. intros [= <-].
    rewrite lookup_insert_ne by (symmetry; apply Hne; by eapply subseteq_drop). by apply Hdrop.
Qed.

(** ** The invariant *)

Record forest_ok (f : ProposalsForest) : Prop := {
  fo_trees : ∀ k, tree_ok (tree f k);
  fo_edges : ∀ id ctx k, proposals f !! id = Some ctx → kind_of (ctx_proposal ctx) = Some k →
    (proposal_parent (ctx_proposal ctx), id) ∈ tree_edges (tree f k);
  fo_nodes : ∀ k i, i ∈ tree_ids (tree f k) → ∃ ctx, proposals f !! i = Some ctx ∧ kind_of (ctx_proposal ctx) = Some k;
  fo_seq : ∀ id, id ∈ sequence f → is_Some (proposals f !! id);
  fo_nodup : NoDup (sequence f);
  fo_pruned : ∀ id, is_Some (pruned f !! id) → proposals f !! id = None;
  fo_sorted : StronglySorted (before (proposals f)) (sequence f) }.

(** While the forest is filled: nothing is pruned yet, and the trees have seen
    their roots and nodes only. *)
Record filling (r : ProposalsRoots) (f : ProposalsForest) : Prop := {
  fi_ok : forest_ok f;
  fi_roots : ∀ k, ProposalsTree.root (tree f k) = root_of k r;
  fi_all_seen : ∀ k, all_seen (tree f k);
  fi_seen : ∀ k i, i ∈ ProposalsTree.seen (tree f k) → ProposalsTree.root (tree f k) = Some i ∨ i ∈ tree_ids (tree f k);
  fi_pruned : pruned f = ∅ }.

Lemma filling_new epoch r treasury : filling r (new epoch r treasury).
Proof.
  split; cbn [new pruned tree]; [|done| | |done].
  - split; cbn [new proposals pruned sequence tree].
    + intros k. apply ProposalsTree.tree_ok_new.
    + intros id ctx k Hl. by rewrite lookup_empty in Hl.
    + intros k i Hi%elem_of_nil. done.
    + intros id Hi%elem_of_nil. done.
    + constructor.
    + intros id [x Hx]. by rewrite lookup_empty in Hx.
    + constructor.
  - intros k. apply ProposalsTree.tree_ok_new.
  - intros k i. destruct (root_of k r); cbn; [|by intros ?%elem_of_empty]. intros ->%elem_of_singleton. by left.
Qed.

(** What the ledger rules guarantee of a proposal, given the ones accepted before
    it: it is new, not expired, dated, and builds upon a known proposal of its kind. *)
Record submitted_ok (h : EraHistory) (r : ProposalsRoots) (epoch : Z) (earlier : list (ProposalId * option Kind))
    (id : ProposalId) (row : CandidateProposal) (proposal : ProposalEnum) : Prop := {
  so_valid : epoch <= cand_valid_until row;
  so_proposal : ProposalEnum_from (E := ProposalsTree.ProposalsInsertError ProposalId) (cand_governance_action row) = Ok proposal;
  so_dated : ∃ e, slot_to_epoch h (ptr_slot (cand_proposed_in row)) (ptr_slot (cand_proposed_in row)) = Ok e;
  so_fresh : id ∉ map fst earlier;
  so_parent : ∀ k, kind_of proposal = Some k → root_of k r ≠ Some id ∧
    (proposal_parent proposal = root_of k r ∨ ∃ q, proposal_parent proposal = Some q ∧ (q, Some k) ∈ earlier) }.

Inductive all_submitted (h : EraHistory) (r : ProposalsRoots) (epoch : Z) :
  list (ProposalId * option Kind) → list (ProposalId * CandidateProposal) → Prop :=
| submitted_nil earlier : all_submitted h r epoch earlier []
| submitted_cons earlier id row proposal l :
    submitted_ok h r epoch earlier id row proposal →
    all_submitted h r epoch ((id, kind_of proposal) :: earlier) l →
    all_submitted h r epoch earlier ((id, row) :: l).

(** The proposals of a forest, with their kinds. *)
Definition holds (f : ProposalsForest) (earlier : list (ProposalId * option Kind)) : Prop :=
  ∀ id k, (id, k) ∈ earlier ↔ ∃ ctx, proposals f !! id = Some ctx ∧ kind_of (ctx_proposal ctx) = k.

Lemma forest_nodes f k i : forest_ok f →
  i ∈ tree_ids (tree f k) ↔ ∃ ctx, proposals f !! i = Some ctx ∧ kind_of (ctx_proposal ctx) = Some k.
Proof.
  intros Hok. split; [apply (fo_nodes _ Hok)|]. intros (ctx & Hctx & Hk).
  unfold tree_ids. apply list_elem_of_fmap. eexists. split; [|by apply (fo_edges _ Hok)]. done.
Qed.

(** Growing the tree of a kind by the edge of a new proposal. *)
Lemma forest_ok_grow f k t id c seq :
  forest_ok f → proposals f !! id = None → pruned f !! id = None → kind_of (ctx_proposal c) = k →
  match k with
  | Some k => tree_ok (t k) ∧ tree_edges (t k) ≡ₚ (proposal_parent (ctx_proposal c), id) :: tree_edges (tree f k) ∧
      ∀ k', k' ≠ k → t k' = tree f k'
  | None => ∀ k', t k' = tree f k'
  end → seq ≡ₚ id :: sequence f → StronglySorted (before (<[id := c]> (proposals f))) seq →
  forest_ok (mkProposalsForest (<[id := c]> (proposals f)) (pruned f) seq (is_interrupted f) (treasury f) (current_epoch f) t).
Proof.
  intros Hok Hid Hpr Hk Ht Hseq Hsort.
  assert (∀ k', tree_ok (t k') ∧ ∀ e, e ∈ tree_edges (t k') ↔
    e ∈ tree_edges (tree f k') ∨ (k = Some k' ∧ e = (proposal_parent (ctx_proposal c), id))) as Htree.
  { intros k'. destruct k as [k|]; [|rewrite Ht; split; [apply Hok|naive_solver]].
    destruct Ht as (Hok' & He & Hother). destruct (decide (k' = k)) as [->|Hne].
    - split; [done|]. intros e. rewrite He, elem_of_cons. naive_solver.
    - rewrite Hother by done. split; [apply Hok|]. naive_solver. }
  split; cbn [proposals pruned sequence tree].
  - intros k'. apply Htree.
  - intros i ctx k' Hi Hk'. apply Htree. destruct (decide (i = id)) as [->|Hne].
    + rewrite lookup_insert_eq in Hi. simplify_eq. by right.
    + rewrite lookup_insert_ne in Hi by done. left. by apply (fo_edges _ Hok).
  - intros k' i Hi. unfold tree_ids in Hi. apply list_elem_of_fmap in Hi as ([p j] & -> & He). cbn.
    apply Htree in He as [He|[-> [= -> ->]]]; [|exists c; by rewrite lookup_insert_eq].
    destruct (fo_nodes _ Hok k' j) as (ctx & Hctx & Hkk); [unfold tree_ids; apply list_elem_of_fmap; by exists (p, j)|].
    exists ctx. rewrite lookup_insert_ne by congruence. done.
  - intros i. rewrite Hseq, elem_of_cons. intros [->|Hi]; [rewrite lookup_insert_eq; eauto|].
    destruct (decide (i = id)) as [->|Hne]; [rewrite lookup_insert_eq; eauto|].
    rewrite lookup_insert_ne by done. by apply (fo_seq _ Hok).
  - rewrite Hseq. constructor; [|apply Hok]. intros Hi. destruct (fo_seq _ Hok _ Hi). congruence.
  - intros i Hi. destruct (decide (i = id)) as [->|Hne]; [destruct Hi; congruence|].
    rewrite lookup_insert_ne by done. by apply (fo_pruned _ Hok).
  - done.
Qed.

(** The trees once an accepted proposal is in the one of its kind. *)
Definition grown (f : ProposalsForest) (r : ProposalsRoots) (id : ProposalId) (proposal : ProposalEnum)
    (t : Kind → ProposalsTree.ProposalsTree ProposalId) : Prop :=
  match kind_of proposal with
  | Some k => tree_ok (t k) ∧ tree_edges (t k) ≡ₚ (proposal_parent proposal, id) :: tree_edges (tree f k) ∧
      ∀ k', k' ≠ k → t k' = tree f k'
  | None => ∀ k', t k' = tree f k'
  end ∧ (∀ k, ProposalsTree.root (t k) = root_of k r) ∧ (∀ k, all_seen (t k)) ∧
  ∀ k i, i ∈ ProposalsTree.seen (t k) → ProposalsTree.root (t k) = Some i ∨ i ∈ tree_ids (t k).

Lemma grow_tree h r earlier id row proposal f :
  filling r f → holds f earlier → proposals f !! id = None →
  submitted_ok h r (current_epoch f) earlier id row proposal →
  ∃ t, match kind_of proposal with
       | Some k => t0 ← ProposalsTree.insert id (proposal_parent proposal) (tree f k); Ok (set_tree k t0 f)
       | None => Ok f
       end = Ok (mkProposalsForest (proposals f) (pruned f) (sequence f) (is_interrupted f) (treasury f) (current_epoch f) t) ∧
    grown f r id proposal t.
Proof.
  intros [Hok Hroots Hall Hseen Hpr] Hholds Hid [_ _ _ _ Hparent]. unfold grown.
  destruct (kind_of proposal) as [k|] eqn:Hk; [|exists (tree f); split; [by destruct f|done]].
  destruct (Hparent k eq_refl) as [Hnr Hp].
  assert (id ∉ ProposalsTree.seen (tree f k)) as Hns.
  { intros [Hr|Hi]%Hseen; [by rewrite Hroots in Hr|]. apply (forest_nodes _ _ _ Hok) in Hi as (ctx & ? & _). congruence. }
  destruct (ProposalsTree.insert_known id (proposal_parent proposal) (tree f k) (fo_trees _ Hok k) (Hall k) Hns)
    as (t' & Ht & [Htok Htall] & Hroot' & Hseen'' & Hedges).
  { destruct Hp as [Hp|(q & Hp & Hq)]; [left; by rewrite Hroots|]. right. exists q. split; [done|].
    apply (forest_nodes _ _ _ Hok). by apply Hholds in Hq. }
  rewrite Ht. cbn [mbind exec_bind]. exists (λ k', if decide (k' = k) then t' else tree f k').
  split; [done|]. rewrite decide_True by done. split; [split; [done|split; [done|]]; intros; by rewrite decide_False|].
  split; [|split]; intros k'; destruct (decide (k' = k)) as [->|Hne]; try done.
  - by rewrite Hroot'.
  - intros i. rewrite Hseen'', elem_of_union, elem_of_singleton, Hroot'. unfold tree_ids. rewrite Hedges. cbn [map snd].
    intros [->|Hi]; [right; left|]. apply Hseen in Hi as [Hi|Hi]; [by left|]. right. by right.
  - apply Hseen.
Qed.

(** The forest an accepted proposal is added to. *)
Lemma drain_one_ok h r earlier id row proposal f :
  filling r f → holds f earlier → submitted_ok h r (current_epoch f) earlier id row proposal →
  ∃ f', drain_one h f (id, row) = Ok f' ∧ filling r f' ∧ holds f' ((id, kind_of proposal) :: earlier) ∧
    (current_epoch f' = current_epoch f ∧ treasury f' = treasury f ∧ is_interrupted f' = is_interrupted f) ∧
    ∃ c, proposals f' = <[id := c]> (proposals f) ∧ ctx_proposal c = proposal.
Proof.
  intros Hf Hholds Hs. pose proof Hf as [Hok _ _ _ Hpr]. pose proof Hs as [Hvalid Hfrom [e He] Hfresh _].
  assert (proposals f !! id = None) as Hid.
  { apply eq_None_not_Some. intros [ctx Hctx]. apply Hfresh. apply list_elem_of_fmap.
    exists (id, kind_of (ctx_proposal ctx)). split; [done|]. apply Hholds. eauto. }
  set (c := mkWithContext e (cand_valid_until row) (cand_proposed_in row) proposal).
  destruct (priority_insert_spec (E := ProposalsTree.ProposalsInsertError ProposalId) (sequence f) (proposals f) id c
    (fo_seq _ Hok) Hid (fo_sorted _ Hok)) as (seq & Hins & Hperm & Hsort).
  destruct (grow_tree h r earlier id row proposal f Hf Hholds Hid Hs) as (t & Htree & Hgrow & Hroots' & Hall' & Hseen').
  exists (mkProposalsForest (<[id := c]> (proposals f)) (pruned f) seq (is_interrupted f) (treasury f) (current_epoch f) t).
  split; [|split; [split|split; [|split; [done|by exists c]]]]; try done.
  - unfold drain_one, insert. rewrite (proj2 (Z.ltb_ge _ _)) by done. rewrite Hfrom. cbn [mbind exec_bind].
    rewrite Htree. cbn [mbind exec_bind sequence proposals]. unfold c in Hins. cbn [ctx_pointer ctx_proposal] in Hins.
    rewrite Hins. cbn [mbind exec_bind]. rewrite He. done.
  - apply (forest_ok_grow f (kind_of proposal) t id c seq Hok Hid); try done. by rewrite Hpr, lookup_empty.
  - intros i k. cbn [proposals]. rewrite elem_of_cons, (Hholds i k). destruct (decide (i = id)) as [->|Hne].
    + rewrite lookup_insert_eq. split; [|intros (ctx & [= <-] & <-); by left].
      intros [[= ->]|(ctx & ? & _)]; [by exists c|congruence].
    + rewrite lookup_insert_ne by done. naive_solver.
Qed.

Lemma for_in_drain_ok h r earlier l f :
  filling r f → holds f earlier → all_submitted h r (current_epoch f) earlier l →
  ∃ f', for_in l (drain_one h) f = Ok f' ∧ filling r f' ∧
    (current_epoch f' = current_epoch f ∧ treasury f' = treasury f ∧ is_interrupted f' = is_interrupted f) ∧
    ∀ id ctx, proposals f' !! id = Some ctx → proposals f !! id = Some ctx ∨
      ∃ row, (id, row) ∈ l ∧
        ProposalEnum_from (E := ProposalsTree.ProposalsInsertError ProposalId) (cand_governance_action row) = Ok (ctx_proposal ctx).
Proof.
  intros Hf Hh Hl. remember (current_epoch f) as ep eqn:Hep. revert f Hf Hh Hep.
  induction Hl as [earlier|earlier id row proposal l Hs _ IH]; intros f Hf Hh ->.
  { exists f. split; [done|]. split; [done|]. split; [done|]. intros; by left. }
  destruct (drain_one_ok h r earlier id row proposal f Hf Hh Hs) as (f1 & Hd & Hf1 & Hh1 & (He & Ht & Hi) & c & Hc & Hp).
  cbn [for_in]. rewrite Hd. cbn [mbind exec_bind].
  destruct (IH f1 Hf1 Hh1 (eq_sym He)) as (f2 & -> & Hf2 & (He2 & Ht2 & Hi2) & Hfrom). exists f2. split; [done|]. split; [done|].
  split; [split; [congruence|split; congruence]|]. intros i ctx [Hc1|(row' & Hin & Hr)]%Hfrom.
  - rewrite Hc in Hc1. apply lookup_insert_Some in Hc1 as [[<- <-]|[_ Hc1]]; [|by left].
    right. exists row. split; [left|]. rewrite Hp. apply Hs.
  - right. exists row'. split; [by right|done].
Qed.

(** ** Enacting *)

Definition is_high_impact (p : ProposalEnum) : bool :=
  match p with HardFork _ _ | ConstitutionalCommitteeProposal _ _ | ConstitutionProposal _ _ => true | _ => false end.

(** What the treasury is after a proposal. *)
Definition treasury_after (n : Z) (p : ProposalEnum) : Z :=
  match p with Orphan (TreasuryWithdrawal w) => withdraw n w | _ => n end.

Lemma edge_unique {A B} `{EqDecision B} (l : list (A * B)) a b i : NoDup (map snd l) → (a, i) ∈ l → (b, i) ∈ l → a = b.
Proof.
  induction l as [|[c j] l IH]; cbn; [by intros _ ?%elem_of_nil|]. rewrite NoDup_cons, !elem_of_cons.
  intros [Hj Hnd] [Ha|Ha] [Hb|Hb]; simplify_eq; [done| | |by apply IH];
    (exfalso; apply Hj; apply list_elem_of_fmap; by eexists (_, j)).
Qed.

Lemma StronglySorted_filter {A} (R : A → A → Prop) (P : A → Prop) `{∀ x, Decision (P x)} l :
  StronglySorted R l → StronglySorted R (filter P l).
Proof.
  induction 1 as [|x l Hl IH Hall]; [constructor|]. rewrite filter_cons. case_decide; [|done].
  constructor; [done|]. rewrite Forall_forall in *. intros y [_ Hy]%list_elem_of_filter. by apply Hall.
Qed.

(** Removing what is pruned, once the trees are in line with it. *)
Lemma forest_ok_prune f pr t i n : forest_ok f → (∀ k, tree_ok (t k)) →
  (∀ id ctx k, proposals f !! id = Some ctx → pr !! id = None → kind_of (ctx_proposal ctx) = Some k →
    (proposal_parent (ctx_proposal ctx), id) ∈ tree_edges (t k)) →
  (∀ k id, id ∈ tree_ids (t k) → id ∈ tree_ids (tree f k) ∧ pr !! id = None) →
  forest_ok (mkProposalsForest (filter (λ kv, pr !! kv.1 = None) (proposals f)) pr
    (filter (λ id, pr !! id = None) (sequence f)) i n (current_epoch f) t).
Proof.
  intros Hok Ht Hedges Hnodes. split; cbn [proposals pruned sequence tree].
  - done.
  - intros id ctx k [Hl Hp]%map_lookup_filter_Some. by apply Hedges.
  - intros k id Hid. apply Hnodes in Hid as [Hid Hp]. apply (fo_nodes _ Hok) in Hid as (ctx & Hctx & Hk).
    exists ctx. split; [|done]. by apply map_lookup_filter_Some.
  - intros id [Hp Hid]%list_elem_of_filter. destruct (fo_seq _ Hok _ Hid) as [ctx Hctx]. exists ctx.
    by apply map_lookup_filter_Some.
  - apply NoDup_filter, Hok.
  - intros id Hp. apply map_lookup_filter_None. right. intros ctx _ Hn. cbn in Hn. rewrite Hn in Hp. by destruct Hp.
  - pose proof (StronglySorted_filter _ (λ id, pr !! id = None) _ (fo_sorted _ Hok)) as Hs.
    induction Hs as [|a l Hl IH Hall]; constructor; [done|]. rewrite Forall_forall in *.
    intros b Hb ca cb [Hca _]%map_lookup_filter_Some [Hcb _]%map_lookup_filter_Some. by apply (Hall b Hb).
Qed.

Definition now_pruned (f : ProposalsForest) (id : ProposalId) (gone : gset ProposalId) : gmap ProposalId RatificationStatus :=
  <[id := Ratified]> (gset_to_gmap NotRatified gone ∪ pruned f).

Lemma now_pruned_None f id gone i : now_pruned f id gone !! i = None ↔ i ≠ id ∧ (i ∉ gone) ∧ pruned f !! i = None.
Proof.
  unfold now_pruned. destruct (decide (i = id)) as [->|Hne]; [rewrite lookup_insert_eq; naive_solver|].
  rewrite lookup_insert_ne by done. rewrite lookup_union_None, lookup_gset_to_gmap_None. naive_solver.
Qed.

(** A proposal that builds upon the root of its kind is enacted, and the forest keeps
    its invariant. *)
Lemma enact_in_tree f id ctx k : forest_ok f → proposals f !! id = Some ctx → kind_of (ctx_proposal ctx) = Some k →
  proposal_parent (ctx_proposal ctx) = ProposalsTree.root (tree f k) →
  ∃ gone t, ProposalsTree.enact id (tree f k) = Ok (id, gone, t) ∧ ProposalsTree.root t = Some id ∧
    (∀ i, i ∈ gone ↔ i ∈ tree_ids (tree f k) ∧ i ≠ id ∧ ¬ below (tree f k) id i) ∧
    ∀ b n, forest_ok (mkProposalsForest (filter (λ kv, now_pruned f id gone !! kv.1 = None) (proposals f))
      (now_pruned f id gone) (filter (λ id', now_pruned f id gone !! id' = None) (sequence f)) b n (current_epoch f)
      (λ k', if decide (k' = k) then t else tree f k')).
Proof.
  intros Hok Hid Hk Hroot.
  pose proof (fo_edges _ Hok _ _ _ Hid Hk) as Hedge. rewrite Hroot in Hedge.
  destruct (ProposalsTree.enact_known id (tree f k) (fo_trees _ Hok k) Hedge)
    as (gone & t & Hen & Htok & Hr & Hsub & Hbelow & Hgone).
  exists gone, t. split; [done|]. split; [done|]. split; [done|]. intros b n. apply forest_ok_prune; [done|..].
  - intros k'. destruct (decide (k' = k)); [done|apply Hok].
  - intros i c k' Hi (Hne & Hng & _)%now_pruned_None Hk'. destruct (decide (k' = k)) as [->|Hkk]; [|by apply Hok].
    pose proof (fo_edges _ Hok _ _ _ Hi Hk') as He.
    assert (i ∈ tree_ids (tree f k)) as Hin by (apply (forest_nodes _ _ _ Hok); eauto).
    assert (i ∈ tree_ids t) as Hit.
    { destruct (decide (i ∈ tree_ids t)) as [|Hnt]; [done|]. exfalso. apply Hng, Hgone. rewrite <- Hbelow. done. }
    unfold tree_ids in Hit. apply list_elem_of_fmap in Hit as ([p j] & -> & Hpj). cbn in *.
    assert (proposal_parent (ctx_proposal c) = p) as ->; [|done].
    apply (edge_unique (tree_edges (tree f k)) _ _ j); [apply (fo_trees _ Hok k)|done|by apply Hsub].
  - intros k' i Hi. destruct (decide (k' = k)) as [->|Hkk].
    + assert (i ∈ tree_ids (tree f k)) as Hin.
      { unfold tree_ids in *. apply list_elem_of_fmap in Hi as ([p j] & -> & Hpj). apply list_elem_of_fmap. eauto. }
      split; [done|]. apply now_pruned_None. split; [intros ->; by apply (ProposalsTree.tree_root _ Htok id)|]. split.
      * rewrite Hgone, <- Hbelow. tauto.
      * apply eq_None_not_Some. intros Hp. apply (fo_pruned _ Hok) in Hp.
        apply (fo_nodes _ Hok) in Hin as (c & ? & _). congruence.
    + split; [done|]. apply (fo_nodes _ Hok) in Hi as (c & Hc & Hck). apply now_pruned_None. split; [naive_solver|]. split.
      * rewrite Hgone. intros (Hin & _). apply (fo_nodes _ Hok) in Hin as (c' & Hc' & Hck'). naive_solver.
      * apply eq_None_not_Some. intros Hp. apply (fo_pruned _ Hok) in Hp. congruence.
Qed.

(** What enacting does. *)
Record enacted (f : ProposalsForest) (id : ProposalId) (p : ProposalEnum) (f' : ProposalsForest) : Prop := {
  en_ok : forest_ok f';
  en_status : pruned f' !! id = Some Ratified;
  en_treasury : treasury f' = treasury_after (treasury f) p;
  en_interrupted : is_interrupted f' = is_interrupted f || is_high_impact p;
  en_epoch : current_epoch f' = current_epoch f;
  en_length : (length (sequence f') <= length (sequence f))%nat;
  en_root : ∀ k, ProposalsTree.root (tree f' k) =
    if decide (kind_of p = Some k) then Some id else ProposalsTree.root (tree f k);
  en_pruned : ∀ i s, i ≠ id → pruned f' !! i = Some s ↔ pruned f !! i = Some s ∨
    (s = NotRatified ∧ pruned f !! i = None ∧
      ∃ k, kind_of p = Some k ∧ i ∈ tree_ids (tree f k) ∧ ¬ below (tree f k) id i);
  en_proposals : ∀ i, proposals f' !! i = if decide (pruned f' !! i = None) then proposals f !! i else None }.

Lemma now_pruned_Some f id gone i s : i ≠ id → (∀ j, j ∈ gone → pruned f !! j = None) →
  now_pruned f id gone !! i = Some s ↔ pruned f !! i = Some s ∨ (s = NotRatified ∧ pruned f !! i = None ∧ i ∈ gone).
Proof.
  intros Hne Hg. unfold now_pruned. rewrite lookup_insert_ne by done. rewrite lookup_union_Some_raw.
  rewrite lookup_gset_to_gmap_Some, lookup_gset_to_gmap_None. specialize (Hg i). split; [naive_solver|].
  intros [Hp|(-> & Hp & Hi)]; [|naive_solver]. right. split; [|done]. intros Hi. specialize (Hg Hi). congruence.
Qed.

Lemma filter_proposals f (pr : gmap ProposalId RatificationStatus) i :
  filter (λ kv, pr !! kv.1 = None) (proposals f) !! i = if decide (pr !! i = None) then proposals f !! i else None.
Proof.
  case_decide as Hp.
  - destruct (proposals f !! i) as [c|] eqn:Hc; [by apply map_lookup_filter_Some|]. apply map_lookup_filter_None. by left.
  - apply map_lookup_filter_None. right. by intros c _.
Qed.

(** The forest after the promotion of a proposal that leaves [gone] behind. *)
Definition pruned_forest (f : ProposalsForest) (id : ProposalId) (gone : gset ProposalId) (b : bool) (n : Z)
    (t : Kind → ProposalsTree.ProposalsTree ProposalId) : ProposalsForest :=
  mkProposalsForest (filter (λ kv, now_pruned f id gone !! kv.1 = None) (proposals f)) (now_pruned f id gone)
    (filter (λ id', now_pruned f id gone !! id' = None) (sequence f)) b n (current_epoch f) t.

Lemma enacted_intro f id p gone t :
  (∀ b n, forest_ok (pruned_forest f id gone b n t)) →
  (∀ k, ProposalsTree.root (t k) = if decide (kind_of p = Some k) then Some id else ProposalsTree.root (tree f k)) →
  (∀ i, i ∈ gone ↔ ∃ k, kind_of p = Some k ∧ i ∈ tree_ids (tree f k) ∧ i ≠ id ∧ ¬ below (tree f k) id i) →
  forest_ok f →
  enacted f id p (pruned_forest f id gone (is_interrupted f || is_high_impact p) (treasury_after (treasury f) p) t).
Proof.
  intros Hok' Hroot Hgone Hok. split; cbn [pruned_forest pruned treasury is_interrupted current_epoch sequence tree proposals]; try done.
  - unfold now_pruned. by rewrite lookup_insert_eq.
  - apply length_filter.
  - intros i s Hne. rewrite now_pruned_Some; [|done|].
    + rewrite Hgone. naive_solver.
    + intros j (k & _ & Hj & _)%Hgone. apply eq_None_not_Some. intros Hp.
      apply (fo_pruned _ Hok) in Hp. apply (fo_nodes _ Hok) in Hj as (c & ? & _). congruence.
  - apply filter_proposals.
Qed.

Lemma enact_ok f id ctx : forest_ok f → proposals f !! id = Some ctx → matching_root (ctx_proposal ctx) f = true →
  ∃ f', enact id (ctx_proposal ctx) f = Ok f' ∧ enacted f id (ctx_proposal ctx) f'.
Proof.
  intros Hok Hid Hmatch. unfold matching_root in Hmatch.
  destruct (kind_of (ctx_proposal ctx)) as [k|] eqn:Hk.
  - apply bool_decide_eq_true in Hmatch.
    destruct (enact_in_tree f id ctx k Hok Hid Hk Hmatch) as (gone & t & Hen & Hroot & Hgone & Hok').
    eexists. split; [|apply (enacted_intro f id _ gone (λ k', if decide (k' = k) then t else tree f k')); [done|..|done]].
    + unfold enact, promote, pruned_forest.
      destruct (ctx_proposal ctx) as [u p|v p|u p|c p|o]; cbn in Hk; simplify_eq;
        cbn [tree set_interrupted]; rewrite Hen; cbn [mbind exec_bind]; cbn; rewrite ?orb_true_r, ?orb_false_r; reflexivity.
    + intros k'. rewrite Hk. destruct (decide (k' = k)) as [->|Hne]; [by rewrite decide_True|rewrite decide_False; naive_solver].
    + intros i. rewrite Hk, Hgone. naive_solver.
  - destruct (ctx_proposal ctx) as [u p|v p|u p|c p|o] eqn:Hp; try done.
    eexists. split; [|apply (enacted_intro f id _ ∅ (tree f)); [|..|done]].
    + unfold enact, promote. destruct o as [|w]; cbn [proposals set_treasury];
        (rewrite decide_True by eauto); cbn; rewrite orb_false_r; reflexivity.
    + intros b n. apply forest_ok_prune; [done|apply Hok|by intros; apply Hok|].
      intros k i Hi. split; [done|]. apply (fo_nodes _ Hok) in Hi as (c & Hc & Hck). apply now_pruned_None.
      split; [intros ->; rewrite Hc in Hid; simplify_eq; by rewrite Hp in Hck|]. split; [apply not_elem_of_empty|].
      apply eq_None_not_Some. intros Hpr. apply (fo_pruned _ Hok) in Hpr. congruence.
    + intros k. by rewrite decide_False.
    + intros i. split; [by intros ?%elem_of_empty|]. intros (k & ? & _). done.
Qed.

(** ** Iterating *)

(** The proposals that can be put to the vote. *)
Record eligible (f : ProposalsForest) (ctx : WithContext) : Prop := {
  el_submitted : ctx_proposed_in ctx <= current_epoch f;
  el_root : matching_root (ctx_proposal ctx) f = true;
  el_treasury : ∀ w, ctx_proposal ctx = Orphan (TreasuryWithdrawal w) → total_withdrawn w <= treasury f }.

(** The epoch, and the longest term that starts in the next one, are machine
    integers. *)
Definition terms_fit (epoch : Z) (pp : ProtocolParameters) : Prop :=
  0 <= max_committee_term_length pp ∧ epoch + 1 + max_committee_term_length pp <= u64_max.

Lemma step_spec {E} id ctx pp f : terms_fit (current_epoch f) pp →
  ∃ r, step (E := E) id ctx pp f = Ok r ∧
    match r with Some x => x = (id, ctx_proposal ctx, ctx_pointer ctx) ∧ eligible f ctx | None => True end.
Proof.
  intros [Hmax Hfit]. unfold step. destruct (Z.ltb_spec (current_epoch f) (ctx_proposed_in ctx)) as [Hlt|Hge]; [by eexists|].
  destruct (match ctx_proposal ctx with Orphan (TreasuryWithdrawal w) => treasury f <? total_withdrawn w | _ => false end)
    eqn:Hw; [by eexists|].
  assert (∀ w, ctx_proposal ctx = Orphan (TreasuryWithdrawal w) → total_withdrawn w <= treasury f) as Htr.
  { intros w Hp. rewrite Hp in Hw. by apply Z.ltb_ge in Hw. }
  match goal with |- context [is_now_invalid ← ?m; _] => assert (∃ b : bool, m = Ok b) as [b ->] end.
  { destruct (ctx_proposal ctx) as [| |[|removed added th]| |]; try by eexists.
    destruct (map snd (map_to_list added)); [by eexists|]. unfold u64_add.
    rewrite (proj2 (Z.leb_le _ _)) by lia. cbn [mbind exec_bind].
    rewrite (proj2 (Z.leb_le _ _)) by lia. cbn [mbind exec_bind]. by eexists. }
  cbn [mbind exec_bind]. destruct b; [by eexists|]. destruct (matching_root (ctx_proposal ctx) f) eqn:Hm; [|by eexists].
  eexists. split; [done|]. split; [done|]. by split.
Qed.

Lemma set_sequence_ok f skipped seq : forest_ok f → sequence f = skipped ++ seq → forest_ok (set_sequence seq f).
Proof.
  intros Hok Hseq. destruct Hok as [Ht He Hn Hs Hnd Hp Hso]. rewrite Hseq in *.
  split; cbn [proposals pruned sequence tree set_sequence]; try done.
  - intros id Hid. apply Hs. apply elem_of_app. by right.
  - by apply NoDup_app in Hnd as (_ & _ & ?).
  - by apply StronglySorted_app in Hso as (_ & _ & ?).
Qed.

(** The next proposal to put to the vote, if any, is the first of the sequence that is
    eligible; those before it are skipped for good. *)
Record next_found (f f' : ProposalsForest) (r : option (ProposalId * ProposalEnum * ProposalPointer)) : Prop := {
  nf_ok : forest_ok f';
  nf_same : f' = set_sequence (sequence f') f;
  nf_found : ∀ id p ptr, r = Some (id, p, ptr) → is_interrupted f = false ∧
    ∃ ctx skipped, proposals f !! id = Some ctx ∧ p = ctx_proposal ctx ∧ eligible f ctx ∧
      sequence f = skipped ++ id :: sequence f' }.

Lemma next_ok {E} pp f : forest_ok f → terms_fit (current_epoch f) pp →
  ∃ r f', next (E := E) pp f = Ok (r, f') ∧ next_found f f' r.
Proof.
  intros Hok Hfit. unfold next. destruct (is_interrupted f) eqn:Hi.
  { exists None, f. split; [done|]. split; [done|by destruct f|done]. }
  assert (∀ skipped seq, sequence f = skipped ++ seq →
    ∃ r f', next_loop (E := E) seq pp f = Ok (r, f') ∧ next_found f f' r) as Hgo; [|by apply (Hgo [])].
  intros skipped seq. revert skipped. induction seq as [|id seq IH]; intros skipped Hseq; cbn [next_loop].
  { exists None, (set_sequence [] f). split; [done|]. split; [by eapply set_sequence_ok|done|done]. }
  destruct (fo_seq _ Hok id) as [ctx Hctx]; [rewrite Hseq; apply elem_of_app; right; left|]. rewrite Hctx.
  destruct (step_spec (E := E) id ctx pp f Hfit) as (r & -> & Hr). cbn [mbind exec_bind]. destruct r as [x|].
  - destruct Hr as [-> Hel]. exists (Some (id, ctx_proposal ctx, ctx_pointer ctx)), (set_sequence seq f). split; [done|].
    split; [|done|].
    + apply (set_sequence_ok f (skipped ++ [id])); [done|]. by rewrite <- app_assoc.
    + intros id' p ptr [= <- <- <-]. split; [done|]. by exists ctx, skipped.
  - apply (IH (skipped ++ [id])). by rewrite <- app_assoc.
Qed.

(** ** Withdrawals *)

Definition amounts_ok (w : gmap Credential Z) : Prop := map_Forall (λ _ n, 0 <= n <= u64_max) w.
Definition sum_of (w : gmap Credential Z) : Z := foldr Z.add 0 (map snd (map_to_list w)).

Lemma amounts_list w : amounts_ok w → Forall (λ n, 0 <= n) (map snd (map_to_list w)).
Proof.
  intros Hw. apply Forall_forall. intros n (kv & -> & Hkv)%list_elem_of_fmap. destruct kv as [k n].
  apply elem_of_map_to_list in Hkv. apply Hw in Hkv. cbn in *. lia.
Qed.
Lemma sum_nonneg l : Forall (λ n, 0 <= n) l → 0 <= foldr Z.add 0 l.
Proof. induction 1; cbn; lia. Qed.

Lemma total_withdrawn_sum w : amounts_ok w → total_withdrawn w = Z.min u64_max (sum_of w).
Proof.
  intros Hw%amounts_list. unfold total_withdrawn, sum_of.
  assert (∀ a, 0 <= a <= u64_max → foldl u64_saturating_add a (map snd (map_to_list w)) =
    Z.min u64_max (a + foldr Z.add 0 (map snd (map_to_list w)))) as Hgo.
  { induction Hw as [|n l Hn Hl IH]; intros a Ha; cbn [foldl foldr]; [lia|].
    pose proof (sum_nonneg _ Hl). unfold u64_saturating_add at 2. rewrite IH by lia. lia. }
  rewrite Hgo; [lia|]. unfold u64_max. lia.
Qed.
Lemma withdraw_sum t w : amounts_ok w → 0 <= t → withdraw t w = Z.max 0 (t - sum_of w).
Proof.
  intros Hw%amounts_list Ht. unfold withdraw, sum_of. revert t Ht.
  induction Hw as [|n l Hn Hl IH]; intros t Ht; cbn [foldl foldr]; [lia|].
  pose proof (sum_nonneg _ Hl). unfold u64_saturating_sub at 2. rewrite IH by lia. lia.
Qed.

(** ** The last pass *)

(** Every proposal comes after the one it builds upon. *)
Fixpoint parents_first (l : list (ProposalId * WithContext)) : Prop :=
  match l with
  | [] => True
  | (id, ctx) :: l' =>
      (∀ p, proposal_parent (ctx_proposal ctx) = Some p → p ∉ map fst l) ∧ parents_first l'
  end.

Lemma end_fold_other e l acc i : i ∉ map fst l → foldl (end_one e) acc l !! i = acc !! i.
Proof.
  revert acc. induction l as [|[id ctx] l IH]; intros acc Hi; cbn [foldl]; [done|]. cbn [map fst] in Hi.
  apply not_elem_of_cons in Hi as [Hne Hi]. rewrite IH by done. unfold end_one.
  repeat case_match; rewrite ?lookup_insert_ne by done; done.
Qed.

(** The last pass ratifies nothing. *)
Lemma end_ratified `{UnstableSort} f i : end_ f !! i = Some Ratified → pruned f !! i = Some Ratified.
Proof.
  unfold end_. generalize (pruned f) as acc. induction (sort_by_epoch (map_to_list (proposals f))) as [|[id ctx] l IH]; intros acc; [done|].
  cbn [foldl]. intros Hi%IH. unfold end_one in Hi. repeat case_match; try done;
    (apply lookup_insert_Some in Hi as [[_ ?]|[_ ?]]; done).
Qed.

Definition dropped (e : Z) (final : gmap ProposalId RatificationStatus) (ctx : WithContext) : Prop :=
  ctx_valid_until ctx = e ∨ ∃ p, proposal_parent (ctx_proposal ctx) = Some p ∧ final !! p = Some NotRatified.

#[global] Instance dropped_dec e final ctx : Decision (dropped e final ctx).
Proof.
  unfold dropped. destruct (decide (ctx_valid_until ctx = e)); [left; by left|].
  destruct (proposal_parent (ctx_proposal ctx)) as [p|]; [|right; by intros [?|(? & ? & _)]].
  destruct (decide (final !! p = Some NotRatified)); [left; right; eauto|right; by intros [?|(? & [= <-] & ?)]].
Defined.

Lemma end_fold_spec e l acc : NoDup (map fst l) → parents_first l → (∀ i, i ∈ map fst l → acc !! i = None) →
  ∀ id ctx, (id, ctx) ∈ l → let final := foldl (end_one e) acc l in
    (dropped e final ctx → final !! id = Some NotRatified) ∧ (¬ dropped e final ctx → final !! id = None).
Proof.
  revert acc. induction l as [|[i c] l IH]; intros acc Hnd Hpf Hacc id ctx Hin; [by apply elem_of_nil in Hin|].
  cbn [map fst] in *. apply NoDup_cons in Hnd as [Hi Hnd]. destruct Hpf as [Hp Hpf]. cbv zeta. cbn [foldl].
  apply elem_of_cons in Hin as [[= -> ->]|Hin].
  2: { apply IH; [done|done| |done]. intros j Hj. assert (j ≠ i) by congruence. unfold end_one.
    repeat case_match; rewrite ?lookup_insert_ne by done; apply Hacc; by right. }
  set (final := foldl (end_one e) (end_one e acc (i, c)) l).
  assert (final !! i = end_one e acc (i, c) !! i) as -> by by apply end_fold_other.
  assert (∀ p, proposal_parent (ctx_proposal c) = Some p → final !! p = acc !! p) as Hpar.
  { intros p Hpp. specialize (Hp p Hpp). apply not_elem_of_cons in Hp as [Hne Hpl]. unfold final.
    rewrite end_fold_other by done. unfold end_one. repeat case_match; rewrite ?lookup_insert_ne by done; done. }
  unfold dropped, end_one. destruct (Z.eqb_spec (ctx_valid_until c) e).
  { rewrite lookup_insert_eq. split; [done|]. intros Hd. exfalso. apply Hd. by left. }
  destruct (proposal_parent (ctx_proposal c)) as [p|] eqn:Hpp.
  - case_decide as Hs.
    + rewrite lookup_insert_eq. split; [done|]. intros Hd. exfalso. apply Hd. right. exists p. by rewrite Hpar.
    + rewrite (Hacc i) by left. split; [|done]. intros [?|(p' & [= <-] & Hf)]; [done|]. by rewrite Hpar in Hf.
  - rewrite (Hacc i) by left. split; [|done]. intros [?|(p' & ? & _)]; done.
Qed.

Lemma sorted_parents_first (m : gmap ProposalId WithContext) l : l ≡ₚ map_to_list m →
  StronglySorted (λ a b, ctx_proposed_in a.2 <= ctx_proposed_in b.2) l →
  (∀ id ctx p pctx, m !! id = Some ctx → proposal_parent (ctx_proposal ctx) = Some p → m !! p = Some pctx →
    ctx_proposed_in pctx < ctx_proposed_in ctx) → parents_first l.
Proof.
  intros Hperm Hsort Hstrict.
  assert (∀ id ctx, (id, ctx) ∈ l → m !! id = Some ctx) as Hin.
  { intros id ctx Hl. rewrite Hperm in Hl. by apply elem_of_map_to_list in Hl. }
  clear Hperm. induction Hsort as [|[id ctx] l Hsort IH Hall]; cbn [parents_first]; [done|].
  split; [|apply IH; intros; apply Hin; by right]. intros p Hp Hpin. cbn [map fst] in Hpin.
  assert (m !! id = Some ctx) as Hid by (apply Hin; left).
  apply elem_of_cons in Hpin as [->|(kv & -> & Hkv)%list_elem_of_fmap].
  - specialize (Hstrict _ _ _ _ Hid Hp Hid). lia.
  - destruct kv as [p pctx]. assert (m !! p = Some pctx) as Hpm by (apply Hin; by right).
    specialize (Hstrict _ _ _ _ Hid Hp Hpm). rewrite Forall_forall in Hall. specialize (Hall _ Hkv). cbn in Hall. lia.
Qed.

(** When no proposal was submitted in the same epoch as the one it builds upon,
    the last pass drops exactly the proposals that expire, and those that build upon
    a dropped one, whatever the order the sort leaves equal epochs in; nothing else
    that was still in the forest is touched. *)
Theorem end_spec `{S : UnstableSort} `{!UnstableSortLaws S} (f : ProposalsForest) (id : ProposalId) (ctx : WithContext) :
  forest_ok f →
  (∀ id ctx p pctx, proposals f !! id = Some ctx → proposal_parent (ctx_proposal ctx) = Some p →
    proposals f !! p = Some pctx → ctx_proposed_in pctx < ctx_proposed_in ctx) →
  proposals f !! id = Some ctx →
  (end_ f !! id = Some NotRatified ↔ dropped (current_epoch f) (end_ f) ctx) ∧
  (end_ f !! id = None ↔ ¬ dropped (current_epoch f) (end_ f) ctx).
Proof.
  intros Hok Hstrict Hid. unfold end_. set (l := sort_by_epoch (map_to_list (proposals f))).
  assert (l ≡ₚ map_to_list (proposals f)) as Hperm by apply sort_perm.
  assert (NoDup (map fst l)) as Hnd by (rewrite Hperm; apply NoDup_fst_map_to_list).
  assert (∀ i, i ∈ map fst l → pruned f !! i = None) as Hacc.
  { intros i ([j c] & -> & Hj)%list_elem_of_fmap. rewrite Hperm in Hj. apply elem_of_map_to_list in Hj.
    apply eq_None_not_Some. intros Hp. apply (fo_pruned _ Hok) in Hp. cbn in *. congruence. }
  destruct (end_fold_spec (current_epoch f) l (pruned f) Hnd (sorted_parents_first _ l Hperm (sort_sorted _) Hstrict) Hacc id ctx)
    as [Hd Hn]; [rewrite Hperm; by apply elem_of_map_to_list|]. fold l in Hd, Hn.
  split; split; intros Hx.
  - apply dec_stable. intros Hnd'. rewrite (Hn Hnd') in Hx. done.
  - by apply Hd.
  - intros Hdr. apply Hd in Hdr. congruence.
  - by apply Hn.
Qed.

(** ** A sort, and what happens within an epoch *)

(** By the epoch and, within an epoch, by identifier: the order of the proposals in
    their table is kept, as an insertion sort does. *)
Module TableSort.
Fixpoint insert_by_epoch (x : ProposalId * WithContext) (l : list (ProposalId * WithContext)) :=
  match l with
  | [] => [x]
  | y :: l =>
      match then_cmp (Z.compare (ctx_proposed_in x.2) (ctx_proposed_in y.2)) (ProposalId_cmp x.1 y.1) with
      | Gt => y :: insert_by_epoch x l
      | _ => x :: y :: l
      end
  end.
#[export] Instance table_sort : UnstableSort := foldr insert_by_epoch [].

Lemma insert_by_epoch_perm x l : insert_by_epoch x l ≡ₚ x :: l.
Proof. induction l as [|y l IH]; cbn; [done|]. case_match; [done..|]. rewrite IH. apply Permutation_swap. Qed.

#[export] Instance table_sort_laws : UnstableSortLaws table_sort.
Proof.
  split; unfold sort_by_epoch, table_sort.
  - induction l as [|x l IH]; cbn; [done|]. by rewrite insert_by_epoch_perm, IH.
  - induction l as [|x l IH]; cbn [foldr]; [constructor|].
    induction IH as [|y l' Hl IH' Hall]; cbn [insert_by_epoch]; [repeat constructor|].
    destruct (Z.compare_spec (ctx_proposed_in x.2) (ctx_proposed_in y.2)) as [Heq|Hlt|Hgt]; cbn [then_cmp].
    1: destruct (ProposalId_cmp x.1 y.1).
    all: try (constructor; [by constructor|]; constructor; [lia|]; eapply Forall_impl; [exact Hall|]; cbn; lia).
    all: constructor; [done|]; rewrite insert_by_epoch_perm; constructor; [lia|done].
Qed.
End TableSort.

(** Three hard-fork proposals on Mainnet, each building upon the one before: one that
    expires in epoch 513, and two of epoch 510, the second of which has the smaller
    identifier. *)
Module LateProposals.
Definition first : ProposalId := mkProposalId [1] 0.
Definition second : ProposalId := mkProposalId [9] 0.
Definition third : ProposalId := mkProposalId [5] 0.
Definition candidate (slot valid_until : Z) (parent : option ProposalId) : CandidateProposal :=
  mkCandidateProposal valid_until (mkProposalPointer slot 0 0) (HardForkInitiation parent PROTOCOL_VERSION_11).
Definition candidates : list (ProposalId * CandidateProposal) :=
  [(first, candidate 133661000 513 None); (second, candidate 134957000 516 (Some first));
   (third, candidate 134957100 516 (Some second))].
Definition no_roots : ProposalsRoots := mkProposalsRoots None None None None.
Definition forest : exec (ProposalsTree.ProposalsInsertError ProposalId) ProposalsForest :=
  drain MAINNET_ERA_HISTORY candidates (new 513 no_roots 0).
Definition built : ProposalsForest := match forest with Ok f => f | _ => new 513 no_roots 0 end.
End LateProposals.

(** A proposal is decided by what was dropped before it. *)
Lemma end_fold_at e l1 id ctx l2 acc : NoDup (map fst (l1 ++ (id, ctx) :: l2)) → acc !! id = None →
  foldl (end_one e) acc (l1 ++ (id, ctx) :: l2) !! id =
    if decide (dropped e (foldl (end_one e) acc l1) ctx) then Some NotRatified else None.
Proof.
  rewrite map_app, NoDup_app. cbn [map fst]. intros (_ & Hd & [Hi _]%NoDup_cons) Hacc.
  assert (id ∉ map fst l1) as Hi1 by (intros Hin; apply (Hd id Hin); left).
  rewrite foldl_app. cbn [foldl]. rewrite end_fold_other by done. set (acc1 := foldl _ acc l1).
  assert (acc1 !! id = None) as H1 by (unfold acc1; by rewrite end_fold_other).
  unfold end_one. destruct (decide (dropped e acc1 ctx)) as [Hd'|Hd']; unfold dropped in Hd'.
  - destruct (Z.eqb_spec (ctx_valid_until ctx) e); [by rewrite lookup_insert_eq|].
    destruct Hd' as [?|(q & Hq & Hd')]; [done|]. rewrite Hq, decide_True by done. by rewrite lookup_insert_eq.
  - destruct (Z.eqb_spec (ctx_valid_until ctx) e); [exfalso; apply Hd'; by left|].
    destruct (proposal_parent (ctx_proposal ctx)) as [q|]; [|done]. rewrite decide_False; [done|]. intros Hq. apply Hd'. right. by exists q.
Qed.

(** C37: within an epoch the last pass can leave a proposal behind.  Whatever the order the sort chose, a proposal
    is dropped exactly when it expires, or when what it builds upon is dropped and was not after it in that order.
    So one that does not expire and comes before its parent, which the sort may do when both were submitted in
    one epoch, is kept even when its parent is dropped; a forest that does not hold the parent can then no
    longer take it in: the insertion fails for want of its parent. *)
Theorem late_proposal_survives `{S : UnstableSort} `{!UnstableSortLaws S} (f : ProposalsForest) (id : ProposalId) (ctx : WithContext)
    (l1 l2 : list (ProposalId * WithContext)) :
  forest_ok f → sort_by_epoch (map_to_list (proposals f)) = l1 ++ (id, ctx) :: l2 →
  (end_ f !! id = Some NotRatified ↔ ctx_valid_until ctx = current_epoch f ∨
    ∃ p, proposal_parent (ctx_proposal ctx) = Some p ∧ (p ∉ map fst l2) ∧ end_ f !! p = Some NotRatified) ∧
  (end_ f !! id ≠ Some NotRatified → end_ f !! id = None) ∧
  ∀ p, proposal_parent (ctx_proposal ctx) = Some p → p ∈ map fst l2 → ctx_valid_until ctx ≠ current_epoch f →
    end_ f !! id = None ∧
    ∀ h g k valid_until pointer action, ProposalEnum_from (E := ProposalsTree.ProposalsInsertError ProposalId) action = Ok (ctx_proposal ctx) → kind_of (ctx_proposal ctx) = Some k →
      id ∉ ProposalsTree.seen (tree g k) → ¬ ProposalsTree.known_parent (tree g k) (Some p) →
      insert h id valid_until pointer action g = Err (ProposalsTree.UnknownParent id (Some p)).
Proof.
  intros Hok Hl. assert (l1 ++ (id, ctx) :: l2 ≡ₚ map_to_list (proposals f)) as Hperm by (rewrite <- Hl; apply sort_perm).
  assert (NoDup (map fst (l1 ++ (id, ctx) :: l2))) as Hnd by (rewrite Hperm; apply NoDup_fst_map_to_list).
  assert (∀ i, i ∈ map fst (l1 ++ (id, ctx) :: l2) → pruned f !! i = None) as Hacc.
  { intros i ([j c] & -> & Hj)%list_elem_of_fmap. rewrite Hperm in Hj. apply elem_of_map_to_list in Hj.
    apply eq_None_not_Some. intros Hp. apply (fo_pruned _ Hok) in Hp. cbn in *. congruence. }
  set (e := current_epoch f). set (acc1 := foldl (end_one e) (pruned f) l1).
  assert (end_ f !! id = if decide (dropped e acc1 ctx) then Some NotRatified else None) as Hid.
  { unfold end_. rewrite Hl. apply end_fold_at; [done|]. apply Hacc. rewrite map_app. apply elem_of_app. right. left. }
  assert (∀ p, p ∈ map fst l2 → acc1 !! p = None) as Hlater.
  { intros p Hp. pose proof Hnd as Hd. rewrite map_app, NoDup_app in Hd. destruct Hd as (_ & Hd & _).
    unfold acc1. rewrite end_fold_other; [apply Hacc; rewrite map_app; apply elem_of_app; right; by right|].
    intros Hp1. apply (Hd p Hp1). by right. }
  assert (∀ p, p ∉ map fst l2 → p ≠ id → end_ f !! p = acc1 !! p) as Hbefore.
  { intros p Hp Hne. unfold end_. rewrite Hl, foldl_app. cbn [foldl]. rewrite end_fold_other by done. fold e acc1.
    unfold end_one. repeat case_match; rewrite ?lookup_insert_ne by done; done. }
  rewrite Hid. split_and!.
  - case_decide as Hd; (split; [intros Hx|]); try done.
    + destruct Hd as [Hd|(p & Hp & Hd)]; [by left|]. right. exists p. split; [done|].
      assert (p ∉ map fst l2) as Hp2 by (intros Hp2; by rewrite (Hlater p Hp2) in Hd). split; [done|].
      destruct (decide (p = id)) as [->|Hne]; [done|by rewrite Hbefore].
    + intros Hx. exfalso. apply Hd. destruct Hx as [Hx|(p & Hp & Hp2 & Hx)]; [by left|].
      destruct (decide (p = id)) as [->|Hne]; [by rewrite Hid in Hx|]. right. exists p. by rewrite <- Hbefore.
  - by case_decide.
  - intros p Hp Hp2 Hv. rewrite decide_False by (intros [?|(q & Hq & Hd)]; [done|]; rewrite Hp in Hq; injection Hq as <-; by rewrite (Hlater p Hp2) in Hd).
    split; [done|]. intros h g k vu ptr action Ha Hk Hs Hu. unfold insert. rewrite Ha. cbn [mbind exec_bind]. rewrite Hk, Hp.
    by rewrite ProposalsTree.insert_unknown.
Qed.

Module SampleForest.
Import LateProposals.
Definition context (epoch slot valid_until : Z) (parent : option ProposalId) : WithContext :=
  mkWithContext epoch valid_until (mkProposalPointer slot 0 0) (HardFork PROTOCOL_VERSION_11 parent).

Lemma three_submitted : all_submitted MAINNET_ERA_HISTORY no_roots 513 [] candidates.
Proof.
  econstructor; [split|econstructor; [split|econstructor; [split|constructor]]]; try reflexivity; try (cbn; lia);
    try (eexists; vm_compute; reflexivity).
  - apply not_elem_of_nil.
  - intros k [= <-]. split; [done|by left].
  - apply not_elem_of_cons. split; [done|apply not_elem_of_nil].
  - intros k [= <-]. split; [done|]. right. exists first. split; [done|left].
  - apply not_elem_of_cons. split; [done|]. apply not_elem_of_cons. split; [done|apply not_elem_of_nil].
  - intros k [= <-]. split; [done|]. right. exists second. split; [done|left].
Qed.

Lemma built_fine : forest_ok built.
Proof.
  destruct (for_in_drain_ok MAINNET_ERA_HISTORY no_roots [] candidates (new 513 no_roots 0)) as (f & Hf & Hfill & _).
  - apply filling_new.
  - intros id k. split; [by intros ?%elem_of_nil|]. intros (ctx & Hctx & _). cbn in Hctx. by rewrite lookup_empty in Hctx.
  - apply three_submitted.
  - unfold built. change forest with (for_in candidates (drain_one MAINNET_ERA_HISTORY) (new 513 no_roots 0)). rewrite Hf. apply Hfill.
Qed.
End SampleForest.

Lemma late_proposal_survives_witness :
  end_ (H := TableSort.table_sort) LateProposals.built !! LateProposals.second = Some NotRatified ∧
  end_ (H := TableSort.table_sort) LateProposals.built !! LateProposals.third = None ∧
  insert MAINNET_ERA_HISTORY LateProposals.third 516 (mkProposalPointer 134957100 0 0)
    (HardForkInitiation (Some LateProposals.second) PROTOCOL_VERSION_11) (new 514 LateProposals.no_roots 0) =
  Err (ProposalsTree.UnknownParent LateProposals.third (Some LateProposals.second)).
Proof.
  split; [vm_compute; reflexivity|].
  destruct (@late_proposal_survives TableSort.table_sort TableSort.table_sort_laws LateProposals.built LateProposals.third
    (SampleForest.context 510 134957100 516 (Some LateProposals.second))
    [(LateProposals.first, SampleForest.context 507 133661000 513 None)]
    [(LateProposals.second, SampleForest.context 510 134957000 516 (Some LateProposals.first))])
    as (_ & _ & Hlate); [apply SampleForest.built_fine|vm_compute; reflexivity|].
  destruct (Hlate LateProposals.second) as [He Hi]; [reflexivity|left|vm_compute; congruence|]. split; [exact He|].
  apply (Hi MAINNET_ERA_HISTORY (new 514 LateProposals.no_roots 0) KHardFork); [reflexivity|reflexivity|apply not_elem_of_empty|].
  intros [H|(q & _ & H)]; [discriminate H|]. apply elem_of_nil in H. exact H.
Defined.

(** The first two of these proposals, for the witness of [end_spec]. *)
Module TwoProposals.
Import LateProposals.
Definition forest : ProposalsForest :=
  match drain MAINNET_ERA_HISTORY (take 2 candidates) (new 513 no_roots 0) with Ok f => f | _ => new 513 no_roots 0 end.

Lemma submitted : all_submitted MAINNET_ERA_HISTORY no_roots 513 [] (take 2 candidates).
Proof.
  pose proof SampleForest.three_submitted as Hs. inversion Hs as [|? ? ? p1 ? H1 Hs2]; subst. inversion Hs2 as [|? ? ? p2 ? H2 _]; subst.
  econstructor; [exact H1|]. econstructor; [exact H2|constructor].
Qed.

Lemma forest_fine : forest_ok forest.
Proof.
  destruct (for_in_drain_ok MAINNET_ERA_HISTORY no_roots [] (take 2 candidates) (new 513 no_roots 0)) as (f & Hf & Hfill & _).
  - apply filling_new.
  - intros id k. split; [by intros ?%elem_of_nil|]. intros (ctx & Hctx & _). cbn in Hctx. by rewrite lookup_empty in Hctx.
  - apply submitted.
  - unfold forest. change (drain MAINNET_ERA_HISTORY (take 2 candidates) (new 513 no_roots 0)) with
      (for_in (take 2 candidates) (drain_one MAINNET_ERA_HISTORY) (new 513 no_roots 0)). rewrite Hf. apply Hfill.
Qed.

Lemma forest_proposals : proposals forest =
  <[second := SampleForest.context 510 134957000 516 (Some first)]> {[first := SampleForest.context 507 133661000 513 None]}.
Proof. vm_compute. reflexivity. Qed.
End TwoProposals.

Lemma end_spec_witness :
  end_ (H := TableSort.table_sort) TwoProposals.forest !! LateProposals.second = Some NotRatified ↔
  dropped 513 (end_ (H := TableSort.table_sort) TwoProposals.forest) (SampleForest.context 510 134957000 516 (Some LateProposals.first)).
Proof.
  refine (proj1 (@end_spec TableSort.table_sort TableSort.table_sort_laws TwoProposals.forest LateProposals.second
    (SampleForest.context 510 134957000 516 (Some LateProposals.first)) _ _ _)).
  - apply TwoProposals.forest_fine.
  - rewrite TwoProposals.forest_proposals. intros id ctx p pctx Hid Hp Hpid.
    apply lookup_insert_Some in Hid as [[<- <-]|[_ Hid]].
    + injection Hp as <-. rewrite lookup_insert_ne in Hpid by done. apply lookup_singleton_Some in Hpid as [_ <-]. cbn. lia.
    + apply lookup_singleton_Some in Hid as [_ <-]. discriminate Hp.
  - rewrite TwoProposals.forest_proposals. apply lookup_insert_eq.
Defined.
