(* ===== verification/Ratification.v ===== *)
(** * Ratification

    [amaru-ledger/src/governance/ratification.rs] and the three governance bodies of
    [ratification/constitutional_committee.rs], [ratification/dreps.rs] and
    [ratification/stake_pools.rs]: thresholds, tallies, and the loop that goes through
    the proposals of an epoch and enacts those all three bodies accept.  The
    committee memoizes its active members behind a shared reference: the functions
    that read it return the committee as they leave it. *)

From Stdlib Require Import QArith.
From S2P Require Import Prelude EraHistory UplcSyntax ProtocolParameters Governance Summary ProposalsTree ProposalsForest ForestProps.
Import Forest(CandidateProposal, ProposalsRoots, ProposalsForest, UnstableSort).
#[local] Open Scope Z_scope.

(** A null threshold is always met; otherwise the tally, computed only then, has to
    reach it. *)
Definition meets {E : Type} (threshold : SafeRatio) (tally : exec E SafeRatio) : exec E bool :=
  if ratio_eqb threshold SafeRatio_zero then Ok true
  else t ← tally; Ok (ratio_leb threshold t).

(** ** The constitutional committee *)
Module Committee.

Record ConstitutionalCommittee := mkConstitutionalCommittee {
  threshold : SafeRatio;
  members : gmap Credential (option Credential * Z);
  memoized : option (Z * gmap Credential Credential) }.

Definition new (threshold : SafeRatio) (members : gmap Credential (option Credential * Z)) : ConstitutionalCommittee :=
  mkConstitutionalCommittee threshold members None.

Inductive MemberStatus := DelegatedToHotCredential (hot : Credential) | Resigned.
Record Row := mkRow { row_status : option MemberStatus; row_valid_until : option Z }.
Inductive CommitteeStatus := StatusNoConfidence | Trusted (threshold : RationalNumber).

Definition hot_credential_from_row (row : Row) : option Credential :=
  match row_status row with Some (DelegatedToHotCredential hot) => Some hot | _ => None end.

(** One turn of the loops over the rows, which also consume the added members. *)
Definition resolve_member (keep : Credential → Row → option Z)
    (acc : gmap Credential (option Credential * Z) * gmap Credential Z) (r : Credential * Row)
  : gmap Credential (option Credential * Z) * gmap Credential Z :=
  let '(ms, added) := acc in
  let '(cold, row) := r in
  match added !! cold with
  | Some valid_until => (<[cold := (hot_credential_from_row row, valid_until)]> ms, delete cold added)
  | None =>
      match keep cold row with
      | Some valid_until => (<[cold := (hot_credential_from_row row, valid_until)]> ms, added)
      | None => (ms, added)
      end
  end.
Definition resolve_members (keep : Credential → Row → option Z) (rows : list (Credential * Row)) (added : gmap Credential Z)
  : gmap Credential (option Credential * Z) * gmap Credential Z := foldl (resolve_member keep) (∅, added) rows.

Definition with_added (ms : gmap Credential (option Credential * Z)) (added : gmap Credential Z) :=
  ((λ valid_until, (None, valid_until)) <$> added) ∪ ms.

Definition resolve {E : Type} (status : CommitteeStatus) (rows : list (Credential * Row)) (cc_update : option ConstitutionalCommitteeUpdate)
  : exec E (option ConstitutionalCommittee) :=
  match cc_update with
  | Some NoConfidence => Ok None
  | _ =>
      match status with
      | StatusNoConfidence =>
          match cc_update with
          | Some (ChangeMembers _ added threshold) =>
              let '(ms, added) := resolve_members (λ _ _, None) rows added in
              Ok (Some (new threshold (with_added ms added)))
          | _ => Ok None
          end
      | Trusted threshold =>
          match cc_update with
          | Some (ChangeMembers removed added threshold) =>
              let '(ms, added) := resolve_members
                (λ cold row, if decide (cold ∈ removed) then None else row_valid_until row) rows added in
              Ok (Some (new threshold (with_added ms added)))
          | _ =>
              threshold ← into_safe_ratio threshold;
              Ok (Some (new threshold (fst (resolve_members (λ _ row, row_valid_until row) rows ∅))))
          end
      end
  end.

Definition voters (self : ConstitutionalCommittee) : gset Credential :=
  list_to_set (omap (λ '(_, (hot, _)), hot) (map_to_list (members self))).

Definition update (threshold : SafeRatio) (added : gmap Credential (option Credential * Z)) (removed : gset Credential)
    (self : ConstitutionalCommittee) : ConstitutionalCommittee :=
  let retained := filter (λ kv, kv.1 ∉ removed) (members self) in
  mkConstitutionalCommittee threshold (added ∪ retained) None.

Definition compute_active_members (current_epoch : Z) (self : ConstitutionalCommittee) : gmap Credential Credential :=
  omap (λ '(hot, valid_until), if current_epoch <? valid_until then hot else None) (members self).

Definition active_members (current_epoch : Z) (self : ConstitutionalCommittee)
  : gmap Credential Credential * ConstitutionalCommittee :=
  match memoized self with
  | Some (memoized_epoch, active) =>
      if memoized_epoch =? current_epoch then (active, self)
      else
        let active := compute_active_members current_epoch self in
        (active, mkConstitutionalCommittee (threshold self) (members self) (Some (current_epoch, active)))
  | None =>
      let active := compute_active_members current_epoch self in
      (active, mkConstitutionalCommittee (threshold self) (members self) (Some (current_epoch, active)))
  end.

Definition voting_threshold (current_epoch min_committee_size : Z) (proposal : ProposalEnum) (self : ConstitutionalCommittee)
  : option SafeRatio * ConstitutionalCommittee :=
  match proposal with
  | Orphan NicePoll => (None, self)
  | ConstitutionalCommitteeProposal _ _ => (Some SafeRatio_zero, self)
  | ProtocolParametersProposal _ _ | HardFork _ _ | ConstitutionProposal _ _ | Orphan (TreasuryWithdrawal _) =>
      let '(active, self) := active_members current_epoch self in
      if Z.of_nat (size active) <? min_committee_size then (None, self) else (Some (threshold self), self)
  end.

(** The votes of the hot credentials: yes, no and abstain. *)
Definition count_vote (hot_credentials : gset Credential) (acc : Z * Z * Z) (vote : Credential * Vote) : Z * Z * Z :=
  let '(yes, no, abstain) := acc in
  if decide (vote.1 ∈ hot_credentials) then
    match vote.2 with
    | VoteYes => (yes + 1, no, abstain)
    | VoteNo => (yes, no + 1, abstain)
    | VoteAbstain => (yes, no, abstain + 1)
    end
  else (yes, no, abstain).

Definition tally {E : Type} (epoch : Z) (votes : gmap Credential Vote) (self : ConstitutionalCommittee)
  : exec E SafeRatio * ConstitutionalCommittee :=
  let '(active, self) := active_members epoch self in
  let hot_credentials : gset Credential := list_to_set (map snd (map_to_list active)) in
  let total_active_members := Z.of_nat (size active) in
  let '(yes, no, abstain) := foldl (count_vote hot_credentials) (0, 0, 0) (map_to_list votes) in
  (if total_active_members <=? abstain then Ok SafeRatio_zero else safe_ratio yes (total_active_members - abstain), self).
End Committee.

(** ** Delegate representatives *)
Module DReps.

(** The highest of the thresholds; [max] keeps the last of equal ones. *)
Definition max_ratio (l : list SafeRatio) : option SafeRatio :=
  foldl (λ acc x, Some (match acc with Some a => if ratio_leb a x then x else a | None => x end)) None l.

Definition any_update_in_network_group (thresholds : DRepVotingThresholds) (u : ProtocolParamUpdate) : option RationalNumber :=
  if is_some (u_max_block_body_size u) || is_some (u_max_transaction_size u) || is_some (u_max_block_header_size u)
     || is_some (u_max_tx_ex_units u) || is_some (u_max_block_ex_units u) || is_some (u_max_value_size u)
     || is_some (u_max_collateral_inputs u)
  then Some (dvt_pp_network_group thresholds) else None.
Definition any_update_in_economic_group (thresholds : DRepVotingThresholds) (u : ProtocolParamUpdate) : option RationalNumber :=
  if is_some (u_minfee_a u) || is_some (u_minfee_b u) || is_some (u_key_deposit u) || is_some (u_pool_deposit u)
     || is_some (u_expansion_rate u) || is_some (u_treasury_growth_rate u) || is_some (u_min_pool_cost u)
     || is_some (u_ada_per_utxo_byte u) || is_some (u_execution_costs u) || is_some (u_minfee_refscript_cost_per_byte u)
  then Some (dvt_pp_economic_group thresholds) else None.
Definition any_update_in_technical_group (thresholds : DRepVotingThresholds) (u : ProtocolParamUpdate) : option RationalNumber :=
  if is_some (u_maximum_epoch u) || is_some (u_desired_number_of_stake_pools u) || is_some (u_pool_pledge_influence u)
     || is_some (u_cost_models_for_script_languages u) || is_some (u_collateral_percentage u)
  then Some (dvt_pp_technical_group thresholds) else None.
Definition any_update_in_governance_group (thresholds : DRepVotingThresholds) (u : ProtocolParamUpdate) : option RationalNumber :=
  if is_some (u_pool_voting_thresholds u) || is_some (u_drep_voting_thresholds u) || is_some (u_min_committee_size u)
     || is_some (u_committee_term_limit u) || is_some (u_governance_action_validity_period u)
     || is_some (u_governance_action_deposit u) || is_some (u_drep_deposit u) || is_some (u_drep_inactivity_period u)
  then Some (dvt_pp_governance_group thresholds) else None.

(** The ratios of those groups an update touches. *)
Fixpoint flatten_ratios {E : Type} (l : list (option RationalNumber)) : exec E (list SafeRatio) :=
  match l with
  | [] => Ok []
  | None :: l => flatten_ratios l
  | Some r :: l => q ← into_safe_ratio r; qs ← flatten_ratios l; Ok (q :: qs)
  end.

Definition voting_threshold {E : Type} (is_state_of_no_confidence : bool) (t : DRepVotingThresholds) (proposal : ProposalEnum)
  : exec E (option SafeRatio) :=
  match proposal with
  | Orphan NicePoll => Ok None
  | ProtocolParametersProposal u _ =>
      groups ← flatten_ratios [any_update_in_network_group t u; any_update_in_economic_group t u;
                               any_update_in_technical_group t u; any_update_in_governance_group t u];
      Ok (Some (default SafeRatio_zero (max_ratio groups)))
  | HardFork _ _ => Some <$> into_safe_ratio (dvt_hard_fork_initiation t)
  | ConstitutionalCommitteeProposal NoConfidence _ => Some <$> into_safe_ratio (dvt_motion_no_confidence t)
  | ConstitutionalCommitteeProposal (ChangeMembers _ _ _) _ =>
      Some <$> into_safe_ratio (if is_state_of_no_confidence then dvt_committee_no_confidence t else dvt_committee_normal t)
  | ConstitutionProposal _ _ => Some <$> into_safe_ratio (dvt_update_constitution t)
  | Orphan (TreasuryWithdrawal _) => Some <$> into_safe_ratio (dvt_treasury_withdrawal t)
  end.

Definition tally_one {E : Type} (epoch : Z) (proposal : ProposalEnum) (votes : gmap DRep Vote) (acc : Z * Z) (d : DRep * DRepState)
  : exec E (Z * Z) :=
  let '(yes, denominator) := acc in
  let '(drep, st) := d in
  let for_ := yes ← u64_add yes (drep_voting_stake st); denominator ← u64_add denominator (drep_voting_stake st);
              Ok (yes, denominator) in
  let against := denominator ← u64_add denominator (drep_voting_stake st); Ok (yes, denominator) in
  if is_active epoch st then
    match drep with
    | DRep_Abstain => Ok (yes, denominator)
    | DRep_NoConfidence => if is_no_confidence proposal then for_ else against
    | DRep_Key _ | DRep_Script _ =>
        match votes !! drep with
        | None => against
        | Some VoteYes => for_
        | Some VoteNo => against
        | Some VoteAbstain => Ok (yes, denominator)
        end
    end
  else Ok (yes, denominator).

Definition tally {E : Type} (epoch : Z) (proposal : ProposalEnum) (votes : gmap DRep Vote) (sd : StakeDistribution)
  : exec E SafeRatio :=
  '(yes, denominator) ← for_in (map_to_list (dreps sd)) (tally_one epoch proposal votes) (0, 0);
  _ ← u64_sub denominator yes;
  _ ← u64_sub (dreps_voting_stake sd) denominator;
  if denominator =? 0 then Ok SafeRatio_zero else safe_ratio yes denominator.
End DReps.

(** ** Stake pool operators *)
Module StakePools.

Definition voting_threshold {E : Type} (is_state_of_no_confidence : bool) (t : PoolVotingThresholds) (proposal : ProposalEnum)
  : exec E (option SafeRatio) :=
  match proposal with
  | ProtocolParametersProposal u _ =>
      if any_in_security_group u then Some <$> into_safe_ratio (pvt_security_voting_threshold t) else Ok (Some SafeRatio_zero)
  | HardFork _ _ => Some <$> into_safe_ratio (pvt_hard_fork_initiation t)
  | ConstitutionalCommitteeProposal NoConfidence _ => Some <$> into_safe_ratio (pvt_motion_no_confidence t)
  | ConstitutionalCommitteeProposal (ChangeMembers _ _ _) _ =>
      Some <$> into_safe_ratio (if is_state_of_no_confidence then pvt_committee_no_confidence t else pvt_committee_normal t)
  | ConstitutionProposal _ _ | Orphan (TreasuryWithdrawal _) => Ok (Some SafeRatio_zero)
  | Orphan NicePoll => Ok None
  end.

Definition tally_one {E : Type} (proposal : ProposalEnum) (votes : gmap PoolId Vote) (acc : Z * Z) (p : PoolId * PoolState)
  : exec E (Z * Z) :=
  let '(yes, abstain) := acc in
  let '(pool_id, pool) := p in
  let for_ := yes ← u64_add yes (pool_voting_stake pool); Ok (yes, abstain) in
  let abstains := abstain ← u64_add abstain (pool_voting_stake pool); Ok (yes, abstain) in
  match votes !! pool_id with
  | Some VoteYes => for_
  | Some VoteNo => Ok (yes, abstain)
  | Some VoteAbstain => abstains
  | None =>
      if is_hardfork proposal then Ok (yes, abstain)
      else
        match fallback_drep pool with
        | Some DRep_NoConfidence => if is_no_confidence proposal then for_ else Ok (yes, abstain)
        | Some DRep_Abstain => abstains
        | Some _ | None => Ok (yes, abstain)
        end
  end.

Definition tally {E : Type} (proposal : ProposalEnum) (votes : gmap PoolId Vote) (sd : StakeDistribution) : exec E SafeRatio :=
  if pools_voting_stake sd =? 0 then Ok SafeRatio_zero
  else
    '(yes, abstain) ← for_in (map_to_list (pools sd)) (tally_one proposal votes) (0, 0);
    if pools_voting_stake sd <=? abstain then Ok SafeRatio_zero
    else
      no ← u64_sub (pools_voting_stake sd) abstain;
      safe_ratio yes no.
End StakePools.

(** ** The ratification of an epoch *)

Record RatificationContext := mkRatificationContext {
  epoch : Z;
  ctx_treasury : Z;
  stake_distribution : StakeDistribution;
  protocol_parameters : ProtocolParameters;
  withdrawals : gmap Credential Z;
  constitutional_committee : option Committee.ConstitutionalCommittee;
  constitutional_committee_update : option ConstitutionalCommitteeUpdate;
  new_constitution : option Constitution;
  votes : gmap ProposalId (list (Voter * Ballot)) }.

Inductive RatificationInternalError :=
| InternalForestCreationError (error : ProposalsTree.ProposalsInsertError ProposalId)
| InternalForestEnactmentError (error : ProposalsTree.ProposalsEnactError ProposalId).

Definition set_parameters (pp : ProtocolParameters) (c : RatificationContext) : RatificationContext :=
  mkRatificationContext (epoch c) (ctx_treasury c) (stake_distribution c) pp (withdrawals c) (constitutional_committee c)
    (constitutional_committee_update c) (new_constitution c) (votes c).
Definition set_committee (cc : option Committee.ConstitutionalCommittee) (c : RatificationContext) : RatificationContext :=
  mkRatificationContext (epoch c) (ctx_treasury c) (stake_distribution c) (protocol_parameters c) (withdrawals c) cc
    (constitutional_committee_update c) (new_constitution c) (votes c).
Definition set_committee_update (u : ConstitutionalCommitteeUpdate) (c : RatificationContext) : RatificationContext :=
  mkRatificationContext (epoch c) (ctx_treasury c) (stake_distribution c) (protocol_parameters c) (withdrawals c)
    (constitutional_committee c) (Some u) (new_constitution c) (votes c).
Definition set_constitution (k : Constitution) (c : RatificationContext) : RatificationContext :=
  mkRatificationContext (epoch c) (ctx_treasury c) (stake_distribution c) (protocol_parameters c) (withdrawals c)
    (constitutional_committee c) (constitutional_committee_update c) (Some k) (votes c).
Definition set_withdrawals (w : gmap Credential Z) (c : RatificationContext) : RatificationContext :=
  mkRatificationContext (epoch c) (ctx_treasury c) (stake_distribution c) (protocol_parameters c) w
    (constitutional_committee c) (constitutional_committee_update c) (new_constitution c) (votes c).
Definition set_protocol_version (v : ProtocolVersion) (pp : ProtocolParameters) : ProtocolParameters :=
  let 'mkProtocolParameters _ a b c d e f g h i j k l m n o p q r s t u v' w x y z aa ab ac ad ae af ag ah := pp in
  mkProtocolParameters v a b c d e f g h i j k l m n o p q r s t u v' w x y z aa ab ac ad ae af ag ah.

(** The votes of the store, by proposal, in the order of the store. *)
Definition collect_votes (rows : list (ProposalId * Voter * Ballot)) : gmap ProposalId (list (Voter * Ballot)) :=
  foldl (λ m '(proposal, voter, ballot), <[proposal := default [] (m !! proposal) ++ [(voter, ballot)]]> m) ∅ rows.

Definition RatificationContext_new {E : Type} (epoch : Z) (status : Committee.CommitteeStatus)
    (cc_members : list (Credential * Committee.Row)) (rows : list (ProposalId * Voter * Ballot))
    (sd : StakeDistribution) (pp : ProtocolParameters) (treasury : Z)
  : exec E RatificationContext :=
  committee ← Committee.resolve status cc_members (cc_update sd);
  Ok (mkRatificationContext epoch treasury sd pp ∅ committee None None (collect_votes rows)).

Definition partition_vote (acc : gmap DRep Vote * gmap Credential Vote * gmap PoolId Vote) (v : Voter * Ballot)
  : gmap DRep Vote * gmap Credential Vote * gmap PoolId Vote :=
  let '(dreps, committee, pools) := acc in
  let '(voter, ballot) := v in
  match voter with
  | ConstitutionalCommitteeKey hash => (dreps, <[KeyHash hash := ballot_vote ballot]> committee, pools)
  | ConstitutionalCommitteeScript hash => (dreps, <[ScriptHash hash := ballot_vote ballot]> committee, pools)
  | DRepKey hash => (<[DRep_Key hash := ballot_vote ballot]> dreps, committee, pools)
  | DRepScript hash => (<[DRep_Script hash := ballot_vote ballot]> dreps, committee, pools)
  | StakePoolKey pool_id => (dreps, committee, <[pool_id := ballot_vote ballot]> pools)
  end.
Definition partition_votes (l : list (Voter * Ballot)) : gmap DRep Vote * gmap Credential Vote * gmap PoolId Vote :=
  foldl partition_vote (∅, ∅, ∅) l.

Definition is_accepted_by_constitutional_committee {E : Type} (proposal : ProposalEnum) (votes : gmap Credential Vote)
    (c : RatificationContext) : exec E (bool * RatificationContext) :=
  match constitutional_committee c with
  | None => Ok (false, c)
  | Some committee =>
      let '(threshold, committee) :=
        Committee.voting_threshold (epoch c) (min_committee_size (protocol_parameters c)) proposal committee in
      match threshold with
      | None => Ok (false, set_committee (Some committee) c)
      | Some threshold =>
          if ratio_eqb threshold SafeRatio_zero then Ok (true, set_committee (Some committee) c)
          else
            let '(tally, committee) := Committee.tally (epoch c) votes committee in
            t ← tally;
            Ok (ratio_leb threshold t, set_committee (Some committee) c)
      end
  end.

Definition no_committee (c : RatificationContext) : bool := negb (is_some (constitutional_committee c)).

Definition is_accepted_by_stake_pool_operators {E : Type} (proposal : ProposalEnum) (votes : gmap PoolId Vote)
    (c : RatificationContext) : exec E bool :=
  threshold ← StakePools.voting_threshold (no_committee c) (pool_voting_thresholds (protocol_parameters c)) proposal;
  match threshold with
  | None => Ok false
  | Some threshold => meets threshold (StakePools.tally proposal votes (stake_distribution c))
  end.

Definition is_accepted_by_delegate_representatives {E : Type} (proposal : ProposalEnum) (votes : gmap DRep Vote)
    (c : RatificationContext) : exec E bool :=
  threshold ← DReps.voting_threshold (no_committee c) (drep_voting_thresholds (protocol_parameters c)) proposal;
  match threshold with
  | None => Ok false
  | Some threshold => meets threshold (DReps.tally (epoch c) proposal votes (stake_distribution c))
  end.

Definition is_accepted_by_everyone {E : Type} (id : ProposalId) (proposal : ProposalEnum) (c : RatificationContext)
  : exec E (bool * RatificationContext) :=
  let '(dreps_votes, cc_votes, pool_votes) := partition_votes (default [] (votes c !! id)) in
  '(cc_approved, c) ← is_accepted_by_constitutional_committee proposal cc_votes c;
  if cc_approved : bool then
    spos_approved ← is_accepted_by_stake_pool_operators proposal pool_votes c;
    if spos_approved : bool then
      dreps_approved ← is_accepted_by_delegate_representatives proposal dreps_votes c;
      Ok (dreps_approved, c)
    else Ok (false, c)
  else Ok (false, c).

Definition enact_proposal {E : Type} (proposal : ProposalEnum) (c : RatificationContext) : exec E RatificationContext :=
  match proposal with
  | ProtocolParametersProposal update _ =>
      Ok (set_parameters (ProtocolParameters_update (protocol_parameters c) update) c)
  | HardFork version _ => Ok (set_parameters (set_protocol_version version (protocol_parameters c)) c)
  | ConstitutionalCommitteeProposal update _ =>
      let c :=
        match update with
        | NoConfidence => set_committee None c
        | ChangeMembers removed added threshold =>
            let added_as_inactive := (λ valid_until, (None, valid_until)) <$> added in
            set_committee (Some match constitutional_committee c with
                                | Some committee => Committee.update threshold added_as_inactive removed committee
                                | None => Committee.new threshold added_as_inactive
                                end) c
        end in
      Ok (set_committee_update update c)
  | ConstitutionProposal constitution _ => Ok (set_constitution constitution c)
  | Orphan (TreasuryWithdrawal w) =>
      w ← for_in (map_to_list w) credit (withdrawals c);
      Ok (set_withdrawals w c)
  | Orphan NicePoll => Panic
  end.

(** The loop over the forest. *)
Fixpoint ratify_loop (fuel : nat) (f : ProposalsForest) (c : RatificationContext)
  : exec RatificationInternalError (ProposalsForest * RatificationContext) :=
  match fuel with
  | O => OutOfFuel
  | S fuel =>
      '(found, f) ← Forest.next (protocol_parameters c) f;
      match found with
      | None => Ok (f, c)
      | Some (id, proposal, _) =>
          '(accepted, c) ← is_accepted_by_everyone id proposal c;
          if accepted : bool then
            f ← map_err InternalForestEnactmentError (Forest.enact id proposal f);
            c ← enact_proposal proposal c;
            ratify_loop fuel f c
          else ratify_loop fuel f c
      end
  end.

(** Every turn of the loop takes a proposal from the sequence. *)
Definition ratify_proposals `{UnstableSort} (era_history : EraHistory) (proposals : list (ProposalId * CandidateProposal))
    (roots : ProposalsRoots) (c : RatificationContext)
  : exec RatificationInternalError (ProposalsRoots * gmap ProposalId RatificationStatus * RatificationContext) :=
  f ← map_err InternalForestCreationError (Forest.drain era_history proposals (Forest.new (epoch c) roots (ctx_treasury c)));
  '(f, c) ← ratify_loop (S (length (Forest.sequence f))) f c;
  Ok (Forest.roots f, Forest.end_ f, c).
