(* ===== verification/RatificationProps.v ===== *)
(** * Properties of ratification

    The tallies are ratios between zero and one, ratification always completes, it
    never spends more than the treasury, and it enacts at most one of the proposals
    that interrupt it. *)

From Stdlib Require Import QArith.
From stdpp Require Import sorting.
From S2P Require Import Prelude EraHistory UplcSyntax ProtocolParameters Governance Summary ProposalsTree ProposalsForest ForestProps Ratification.
Import Forest(CandidateProposal, ProposalsRoots, ProposalsForest, UnstableSort, UnstableSortLaws, proposals, pruned, sequence,
  is_interrupted, treasury, current_epoch, tree, WithContext, ctx_proposal, set_sequence, total_withdrawn, matching_root).
#[local] Open Scope Z_scope.

(** ** Ratios *)

Definition unit_ratio (q : SafeRatio) : Prop := (0 <= q ∧ q <= 1)%Q.

Lemma safe_ratio_unit {E : Type} n d : 0 <= n <= d → 0 < d → ∃ q, safe_ratio (E := E) n d = Ok q ∧ unit_ratio q.
Proof.
  intros Hn Hd. unfold safe_ratio. rewrite (proj2 (Z.eqb_neq _ _)) by lia. eexists. split; [done|].
  unfold unit_ratio. rewrite Qred_correct. unfold Qle. cbn. rewrite Z2Pos.id by lia. lia.
Qed.
Lemma unit_ratio_zero : unit_ratio SafeRatio_zero.
Proof. unfold unit_ratio, SafeRatio_zero, Qle. cbn. lia. Qed.

(** ** The constitutional committee *)
Section Committee.
Import Ratification.Committee.

(** What is memoized is what would be computed. *)
Definition memo_ok (c : ConstitutionalCommittee) : Prop :=
  ∀ e m, memoized c = Some (e, m) → m = compute_active_members e c.

(** The committee, up to its memoization. *)
Definition same_committee (c c' : ConstitutionalCommittee) : Prop := threshold c' = threshold c ∧ members c' = members c.

Lemma active_members_spec e c : memo_ok c →
  ∃ c', active_members e c = (compute_active_members e c, c') ∧ memo_ok c' ∧ same_committee c c'.
Proof.
  intros Hm. unfold active_members. destruct (memoized c) as [[e' m]|] eqn:Hc; [case_bool|].
  - subst. exists c. split; [by rewrite (Hm e m)|]. done.
  - eexists. split; [done|]. split; [|done]. intros e2 m2 [= <- <-]. done.
  - eexists. split; [done|]. split; [|done]. intros e2 m2 [= <- <-]. done.
Qed.

Lemma compute_same e c c' : same_committee c c' → compute_active_members e c' = compute_active_members e c.
Proof. intros [_ Hm]. unfold compute_active_members. by rewrite Hm. Qed.

Lemma voting_threshold_spec e n p c : memo_ok c →
  ∃ t c', voting_threshold e n p c = (t, c') ∧ memo_ok c' ∧ same_committee c c'.
Proof.
  intros Hm. destruct (active_members_spec e c Hm) as (c' & Ha & Hm' & Hs).
  unfold voting_threshold. destruct p as [| | | |[]]; rewrite ?Ha;
    try (by eexists _, c); (destruct (_ <? _); by eexists _, c').
Qed.

(** The number of votes of active hot credentials. *)
Lemma count_votes hot l y n a : 0 <= y → 0 <= n → 0 <= a →
  ∃ y' n' a', foldl (count_vote hot) (y, n, a) l = (y', n', a') ∧ 0 <= y' ∧ 0 <= n' ∧ 0 <= a' ∧
    y' + n' + a' = y + n + a + Z.of_nat (length (filter (λ k, k ∈ hot) (map fst l))).
Proof.
  revert y n a. induction l as [|[k v] l IH]; intros y n a Hy Hn Ha; cbn [foldl map fst]; [eexists _, _, _; cbn; split; [done|lia]|].
  cbn [count_vote fst snd]. rewrite filter_cons. case_decide; [|by apply IH].
  destruct v;
    [destruct (IH y (n + 1) a) as (y' & n' & a' & -> & Hres)|destruct (IH (y + 1) n a) as (y' & n' & a' & -> & Hres)
    |destruct (IH y n (a + 1)) as (y' & n' & a' & -> & Hres)]; try lia;
    (exists y', n', a'; split; [done|]; cbn [length]; lia).
Qed.

Lemma hot_votes_bound (hot : gset Credential) (votes : gmap Credential Vote) :
  (length (filter (λ k, k ∈ hot) (map fst (map_to_list votes))) <= size hot)%nat.
Proof.
  rewrite <- (size_list_to_set (C := gset Credential)) by apply NoDup_filter, NoDup_fst_map_to_list.
  apply subseteq_size. intros k. rewrite elem_of_list_to_set, list_elem_of_filter. tauto.
Qed.
Lemma size_list_to_set_le (l : list Credential) : (size (list_to_set (C := gset Credential) l) <= length l)%nat.
Proof.
  induction l as [|x l IH]; cbn [list_to_set length]; [by rewrite size_empty|].
  rewrite size_union_alt, size_singleton.
  assert (size (list_to_set l ∖ {[x]} : gset Credential) <= size (list_to_set l : gset Credential))%nat; [|lia].
  apply subseteq_size. set_solver.
Qed.

Lemma committee_tally {E : Type} e votes c : memo_ok c →
  ∃ q c', tally (E := E) e votes c = (Ok q, c') ∧ unit_ratio q ∧ memo_ok c' ∧ same_committee c c'.
Proof.
  intros Hm. destruct (active_members_spec e c Hm) as (c' & Ha & Hm' & Hs). unfold tally. rewrite Ha. cbv zeta.
  set (active := compute_active_members e c). set (hot := list_to_set (map snd (map_to_list active)) : gset Credential).
  destruct (count_votes hot (map_to_list votes) 0 0 0) as (y & n & a & -> & Hy & Hn & Haa & Hsum); [lia..|].
  pose proof (hot_votes_bound hot votes). pose proof (size_list_to_set_le (map snd (map_to_list active))).
  assert (length (map snd (map_to_list active)) = size active) as Hsize by (by rewrite length_map, length_map_to_list).
  fold hot in H0. destruct (Z.leb_spec (Z.of_nat (size active)) a).
  - exists SafeRatio_zero, c'. split; [done|]. split; [apply unit_ratio_zero|done].
  - destruct (safe_ratio_unit (E := E) y (Z.of_nat (size active) - a)) as (q & -> & Hq); [lia..|].
    exists q, c'. done.
Qed.
End Committee.

(** ** Voting stake *)

Record distribution_ok (sd : StakeDistribution) : Prop := {
  do_dreps : map_Forall (λ _ d, 0 <= drep_voting_stake d) (dreps sd);
  do_pools : map_Forall (λ _ p, 0 <= pool_voting_stake p) (pools sd);
  do_dreps_total : dreps_voting_stake sd = total drep_voting_stake (dreps sd) ∧
    dreps_voting_stake sd <= u64_max;
  do_pools_total : pools_voting_stake sd = total pool_voting_stake (pools sd) ∧
    pools_voting_stake sd <= u64_max }.

Lemma dreps_count {E : Type} e p votes l yes den :
  Forall (λ d : DRep * DRepState, 0 <= drep_voting_stake d.2) l → 0 <= yes <= den →
  den + stake_of (λ d, drep_voting_stake d.2) l <= u64_max →
  ∃ yes' den', for_in l (DReps.tally_one (E := E) e p votes) (yes, den) = Ok (yes', den') ∧
    0 <= yes' <= den' ∧ den' <= den + stake_of (λ d, drep_voting_stake d.2) l.
Proof.
  intros Hl. revert yes den. induction Hl as [|[d st] l Hst Hl IH]; intros yes den Hy Hmax; cbn [for_in].
  { exists yes, den. split; [done|]. unfold stake_of. cbn. lia. }
  pose proof (stake_nonneg _ _ Hl) as Hpos. unfold stake_of in *. cbn [map foldr snd] in *.
  assert (∃ y1 d1, DReps.tally_one (E := E) e p votes (yes, den) (d, st) = Ok (y1, d1) ∧
    0 <= y1 <= d1 ∧ d1 <= den + drep_voting_stake st) as (y1 & d1 & -> & H1 & H2).
  { unfold DReps.tally_one, u64_add. repeat case_match; bool_to_prop; cbn [mbind exec_bind] in *; try lia;
      simplify_eq; try (eexists _, _; split; [done|lia]);
      rewrite ?(proj2 (Z.leb_le _ _)) by lia; cbn [mbind exec_bind]; rewrite ?(proj2 (Z.leb_le _ _)) by lia;
      eexists _, _; (split; [done|lia]). }
  cbn [mbind exec_bind]. destruct (IH y1 d1) as (y2 & d2 & -> & H3 & H4); [lia..|]. exists y2, d2. split; [done|]. lia.
Qed.

Lemma pools_count {E : Type} p votes l yes ab :
  Forall (λ x : PoolId * PoolState, 0 <= pool_voting_stake x.2) l → 0 <= yes → 0 <= ab →
  yes + ab + stake_of (λ x, pool_voting_stake x.2) l <= u64_max →
  ∃ yes' ab', for_in l (StakePools.tally_one (E := E) p votes) (yes, ab) = Ok (yes', ab') ∧
    0 <= yes' ∧ 0 <= ab' ∧ yes' + ab' <= yes + ab + stake_of (λ x, pool_voting_stake x.2) l.
Proof.
  intros Hl. revert yes ab. induction Hl as [|[d st] l Hst Hl IH]; intros yes ab Hy Ha Hmax; cbn [for_in].
  { exists yes, ab. split; [done|]. unfold stake_of. cbn. lia. }
  pose proof (stake_nonneg _ _ Hl) as Hpos. unfold stake_of in *. cbn [map foldr snd] in *.
  assert (∃ y1 a1, StakePools.tally_one (E := E) p votes (yes, ab) (d, st) = Ok (y1, a1) ∧
    0 <= y1 ∧ 0 <= a1 ∧ y1 + a1 <= yes + ab + pool_voting_stake st) as (y1 & a1 & -> & H1 & H2 & H3).
  { unfold StakePools.tally_one, u64_add.
    rewrite !(proj2 (Z.leb_le _ _)) by lia. cbn [mbind exec_bind].
    repeat case_match; eexists _, _; (split; [done|lia]). }
  cbn [mbind exec_bind]. destruct (IH y1 a1) as (y2 & a2 & -> & H4 & H5 & H6); [lia..|]. exists y2, a2. split; [done|]. lia.
Qed.

Lemma dreps_tally {E : Type} e p votes sd : distribution_ok sd → ∃ q, DReps.tally (E := E) e p votes sd = Ok q ∧ unit_ratio q.
Proof.
  intros [Hd%Forall_values _ [Ht Hm] _]. unfold total in Ht. unfold DReps.tally.
  destruct (dreps_count (E := E) e p votes (map_to_list (dreps sd)) 0 0 Hd) as (y & d & -> & H1 & H2); [lia..|].
  cbn [mbind exec_bind]. unfold u64_sub. rewrite !(proj2 (Z.leb_le _ _)) by lia. cbn [mbind exec_bind].
  case_bool; [exists SafeRatio_zero; split; [done|apply unit_ratio_zero]|]. by apply safe_ratio_unit; lia.
Qed.

Lemma pools_tally {E : Type} p votes sd : distribution_ok sd → ∃ q, StakePools.tally (E := E) p votes sd = Ok q ∧ unit_ratio q.
Proof.
  intros [_ Hp%Forall_values _ [Ht Hm]]. unfold total in Ht. unfold StakePools.tally.
  case_bool; [exists SafeRatio_zero; split; [done|apply unit_ratio_zero]|].
  destruct (pools_count (E := E) p votes (map_to_list (pools sd)) 0 0 Hp) as (y & a & -> & H1 & H2 & H3); [lia..|].
  cbn [mbind exec_bind]. case_bool; [exists SafeRatio_zero; split; [done|apply unit_ratio_zero]|].
  unfold u64_sub. rewrite (proj2 (Z.leb_le _ _)) by lia. cbn [mbind exec_bind]. by apply safe_ratio_unit; lia.
Qed.

(** ** Thresholds *)

Definition pvt_ok (t : PoolVotingThresholds) : Prop :=
  ratio_wf (pvt_motion_no_confidence t) ∧ ratio_wf (pvt_committee_normal t) ∧ ratio_wf (pvt_committee_no_confidence t) ∧
  ratio_wf (pvt_hard_fork_initiation t) ∧ ratio_wf (pvt_security_voting_threshold t).
Definition dvt_ok (t : DRepVotingThresholds) : Prop :=
  ratio_wf (dvt_motion_no_confidence t) ∧ ratio_wf (dvt_committee_normal t) ∧ ratio_wf (dvt_committee_no_confidence t) ∧
  ratio_wf (dvt_update_constitution t) ∧ ratio_wf (dvt_hard_fork_initiation t) ∧ ratio_wf (dvt_pp_network_group t) ∧
  ratio_wf (dvt_pp_economic_group t) ∧ ratio_wf (dvt_pp_technical_group t) ∧ ratio_wf (dvt_pp_governance_group t) ∧
  ratio_wf (dvt_treasury_withdrawal t).

Record voting_ok (pp : ProtocolParameters) : Prop := {
  vo_pools : pvt_ok (pool_voting_thresholds pp);
  vo_dreps : dvt_ok (drep_voting_thresholds pp);
  vo_terms : 0 <= max_committee_term_length pp <= u32_max }.

(** A proposal whose content is well formed. *)
(** A threshold whose parts are machine integers. *)
Definition threshold_fits (q : SafeRatio) : Prop := 0 <= Qnum q <= u64_max ∧ Z.pos (Qden q) <= u64_max.
Definition content_ok (p : ProposalEnum) : Prop :=
  match p with
  | ProtocolParametersProposal u _ =>
      (∀ t, u_pool_voting_thresholds u = Some t → pvt_ok t) ∧ (∀ t, u_drep_voting_thresholds u = Some t → dvt_ok t) ∧
      (∀ n, u_committee_term_limit u = Some n → 0 <= n <= u32_max)
  | Orphan (TreasuryWithdrawal w) => amounts_ok w
  | ConstitutionalCommitteeProposal (ChangeMembers _ _ q) _ => threshold_fits q
  | _ => True
  end.

Lemma voting_ok_update pp u parent : voting_ok pp → content_ok (ProtocolParametersProposal u parent) →
  voting_ok (ProtocolParameters_update pp u).
Proof.
  intros [Hp Hd Ht] (Hup & Hud & Hut).
  split; unfold ProtocolParameters_update; cbn [pool_voting_thresholds drep_voting_thresholds max_committee_term_length];
    unfold set_field; case_match; auto.
Qed.
Lemma voting_ok_version pp v : voting_ok pp → voting_ok (set_protocol_version v pp).
Proof. by destruct pp; intros []; split. Qed.

Lemma ratio_Ok {E : Type} r : ratio_wf r → ∃ q, into_safe_ratio (E := E) r = Ok q.
Proof. intros Hr. destruct (into_safe_ratio_Ok (E := E) r Hr) as (q & Hq & _). eauto. Qed.

Lemma flatten_ratios_Ok {E : Type} l : Forall (λ o, ∀ r, o = Some r → ratio_wf r) l → ∃ qs, DReps.flatten_ratios (E := E) l = Ok qs.
Proof.
  induction 1 as [|[r|] l Hr _ [qs IH]]; cbn [DReps.flatten_ratios]; [by eexists| |by eexists].
  destruct (ratio_Ok (E := E) r (Hr r eq_refl)) as [q ->]. rewrite IH. by eexists.
Qed.

Lemma drep_threshold_Ok {E : Type} b t p : dvt_ok t → ∃ o, DReps.voting_threshold (E := E) b t p = Ok o.
Proof.
  intros (H1 & H2 & H3 & H4 & H5 & H6 & H7 & H8 & H9 & H10). unfold DReps.voting_threshold.
  assert (∀ r, ratio_wf r → ∃ o, (Some <$> into_safe_ratio (E := E) r) = Ok o) as Hsome.
  { intros r Hr. destruct (ratio_Ok (E := E) r Hr) as [q ->]. by eexists. }
  destruct p as [u pa|v pa|[|rm ad th] pa|k pa|[|w]]; try (apply Hsome; by destruct b); try by eexists.
  destruct (flatten_ratios_Ok (E := E) [DReps.any_update_in_network_group t u; DReps.any_update_in_economic_group t u;
    DReps.any_update_in_technical_group t u; DReps.any_update_in_governance_group t u]) as [qs ->]; [|by eexists].
  unfold DReps.any_update_in_network_group, DReps.any_update_in_economic_group, DReps.any_update_in_technical_group,
    DReps.any_update_in_governance_group.
  repeat (constructor; [intros r; by destruct (_ || _); intros [= <-]|]). constructor.
Qed.

Lemma pool_threshold_Ok {E : Type} b t p : pvt_ok t → ∃ o, StakePools.voting_threshold (E := E) b t p = Ok o.
Proof.
  intros (H1 & H2 & H3 & H4 & H5). unfold StakePools.voting_threshold.
  assert (∀ r, ratio_wf r → ∃ o, (Some <$> into_safe_ratio (E := E) r) = Ok o) as Hsome.
  { intros r Hr. destruct (ratio_Ok (E := E) r Hr) as [q ->]. by eexists. }
  destruct p as [u pa|v pa|[|rm ad th] pa|k pa|[|w]]; try (apply Hsome; by destruct b); try by eexists.
  destruct (any_in_security_group u); [by apply Hsome|by eexists].
Qed.

(** ** Acceptance *)

Record context_ok (c : RatificationContext) : Prop := {
  co_voting : voting_ok (protocol_parameters c);
  co_stake : distribution_ok (stake_distribution c);
  co_committee : ∀ cc, constitutional_committee c = Some cc → memo_ok cc;
  co_update : ∀ removed added q, constitutional_committee_update c = Some (ChangeMembers removed added q) → threshold_fits q;
  co_epoch : 0 <= epoch c ∧ epoch c + 1 + u32_max <= u64_max }.

Lemma context_ok_committee c cc cc' : context_ok c → constitutional_committee c = Some cc → memo_ok cc' →
  context_ok (set_committee (Some cc') c).
Proof. intros [? ? ? ? ?] _ Hm. split; [done..| |done|done]. by intros ? [= <-]. Qed.

(** Consulting the bodies changes nothing but the memoization of the committee. *)
Lemma accepted_by_committee {E : Type} p vs c : context_ok c →
  ∃ b cc, is_accepted_by_constitutional_committee (E := E) p vs c = Ok (b, set_committee cc c) ∧
    context_ok (set_committee cc c) ∧ is_some cc = is_some (constitutional_committee c).
Proof.
  intros Hc. unfold is_accepted_by_constitutional_committee. destruct (constitutional_committee c) as [cc|] eqn:Hcc.
  2: { exists false, None. assert (set_committee None c = c) as ->; [|done]. destruct c. cbn in *. by subst. }
  destruct (voting_threshold_spec (epoch c) (min_committee_size (protocol_parameters c)) p cc (co_committee _ Hc cc Hcc))
    as ([t|] & cc1 & -> & Hm1 & Hs1); [|eexists false, (Some cc1); split; [done|]; split; [by eapply context_ok_committee|done]].
  destruct (ratio_eqb t SafeRatio_zero).
  { exists true, (Some cc1). split; [done|]. split; [by eapply context_ok_committee|done]. }
  destruct (committee_tally (E := E) (epoch c) vs cc1 Hm1) as (q & cc2 & -> & _ & Hm2 & _). cbn [mbind exec_bind].
  eexists _, (Some cc2). split; [done|]. split; [by eapply context_ok_committee|done].
Qed.

Lemma meets_Ok {E : Type} t (m : exec E SafeRatio) q : m = Ok q → ∃ b, meets t m = Ok b.
Proof. intros ->. unfold meets. destruct (ratio_eqb _ _); by eexists. Qed.

Lemma accepted_by_pools {E : Type} p vs c : context_ok c → ∃ b, is_accepted_by_stake_pool_operators (E := E) p vs c = Ok b.
Proof.
  intros Hc. unfold is_accepted_by_stake_pool_operators.
  destruct (pool_threshold_Ok (E := E) (no_committee c) _ p (vo_pools _ (co_voting _ Hc))) as [[t|] ->]; [|by eexists].
  destruct (pools_tally (E := E) p vs _ (co_stake _ Hc)) as (q & Hq & _). by eapply meets_Ok.
Qed.
Lemma accepted_by_dreps {E : Type} p vs c : context_ok c → ∃ b, is_accepted_by_delegate_representatives (E := E) p vs c = Ok b.
Proof.
  intros Hc. unfold is_accepted_by_delegate_representatives.
  destruct (drep_threshold_Ok (E := E) (no_committee c) _ p (vo_dreps _ (co_voting _ Hc))) as [[t|] ->]; [|by eexists].
  destruct (dreps_tally (E := E) (epoch c) p vs _ (co_stake _ Hc)) as (q & Hq & _). by eapply meets_Ok.
Qed.

Lemma committee_refuses_polls {E : Type} vs c b c' :
  is_accepted_by_constitutional_committee (E := E) (Orphan NicePoll) vs c = Ok (b, c') → b = false.
Proof. unfold is_accepted_by_constitutional_committee. destruct (constitutional_committee c); cbn; by intros [= <- _]. Qed.

Lemma accepted_by_everyone {E : Type} id p c : context_ok c →
  ∃ b cc, is_accepted_by_everyone (E := E) id p c = Ok (b, set_committee cc c) ∧ context_ok (set_committee cc c) ∧
    (b = true → p ≠ Orphan NicePoll ∧ is_Some (constitutional_committee c)).
Proof.
  intros Hc. unfold is_accepted_by_everyone. destruct (partition_votes (default [] (votes c !! id))) as [[dv cv] pv].
  destruct (accepted_by_committee (E := E) p cv c Hc) as (b1 & cc & H1 & Hc1 & Hs). rewrite H1. cbn [mbind exec_bind].
  destruct b1; [|exists false, cc; done].
  destruct (accepted_by_pools (E := E) p pv _ Hc1) as [b2 ->]. cbn [mbind exec_bind]. destruct b2; [|exists false, cc; done].
  destruct (accepted_by_dreps (E := E) p dv _ Hc1) as [b3 ->]. cbn [mbind exec_bind]. exists b3, cc. split; [done|]. split; [done|].
  intros ->. split.
  - intros ->. by apply committee_refuses_polls in H1.
  - unfold is_accepted_by_constitutional_committee in H1. destruct (constitutional_committee c); [by eexists|done].
Qed.

(** ** Enacting a proposal on the context *)

Lemma sum_of_nonneg w : nonneg w → 0 <= sum_of w.
Proof. apply (total_nonneg (λ n, n)). Qed.

Lemma enact_proposal_ok {E : Type} p c n : context_ok c → content_ok p → p ≠ Orphan NicePoll → nonneg (withdrawals c) →
  (∀ w, p = Orphan (TreasuryWithdrawal w) → total_withdrawn w <= n) →
  0 <= n → n + sum_of (withdrawals c) < u64_max →
  ∃ c', enact_proposal (E := E) p c = Ok c' ∧ context_ok c' ∧ epoch c' = epoch c ∧ nonneg (withdrawals c') ∧
    treasury_after n p + sum_of (withdrawals c') = n + sum_of (withdrawals c) ∧ 0 <= treasury_after n p.
Proof.
  intros Hc Hp Hpoll Hw Htot Hn Hmax. pose proof (sum_of_nonneg _ Hw) as Hsum. pose proof Hc as [Hv Hs Hm Hu He].
  destruct p as [u pa|v pa|[|rm ad th] pa|k pa|[|w]]; cbn [enact_proposal treasury_after]; [..|done|].
  - eexists. split; [done|]. split; [split; [by eapply voting_ok_update|done..]|done].
  - eexists. split; [done|]. split; [split; [by apply voting_ok_version|done..]|done].
  - eexists. split; [done|]. split; [split; [done..| | |done]|done]; [by intros ? [=]|by intros ? ? ? [=]].
  - eexists. split; [done|]. split; [split; [done..| | |done]|done]; cbn.
    + intros cc [= <-] e m. by destruct (constitutional_committee c).
    + by intros ? ? ? [= <- <- <-].
  - eexists. split; [done|]. split; [by split|done].
  - assert (Forall (λ x : Credential * Z, 0 <= x.2) (map_to_list w)) as Hl.
    { apply Forall_forall. intros [cr a] Ha%elem_of_map_to_list. apply Hp in Ha. cbn. lia. }
    specialize (Htot w eq_refl). rewrite total_withdrawn_sum in Htot by done. rewrite withdraw_sum by done.
    assert (sum_of w <= n) as Hle by lia.
    destruct (credit_all (E := E) (map_to_list w) (withdrawals c) Hw Hl) as (w' & -> & Hw' & Hs' & _);
      [change (sum_of (withdrawals c) + sum_of w <= u64_max); lia|].
    change (sum_of w' = sum_of (withdrawals c) + sum_of w) in Hs'.
    cbn [mbind exec_bind]. eexists. split; [done|]. split; [by split|]. split; [done|]. split; [done|].
    cbn [withdrawals set_withdrawals]. lia.
Qed.

(** ** The loop *)

Section Loop.
(** The proposals at the start, and the treasury. *)
Context (P0 : gmap ProposalId WithContext) (t0 : Z).

(** A proposal of the start that was enacted, and interrupts ratification. *)
Definition interrupting (f : ProposalsForest) (id : ProposalId) : Prop :=
  pruned f !! id = Some Ratified ∧ ∃ ctx, P0 !! id = Some ctx ∧ is_high_impact (ctx_proposal ctx) = true.

Record loop_inv (f : ProposalsForest) (c : RatificationContext) : Prop := {
  li_forest : forest_ok f;
  li_context : context_ok c;
  li_epoch : current_epoch f = epoch c;
  li_start : ∀ id ctx, proposals f !! id = Some ctx → P0 !! id = Some ctx;
  li_kept : ∀ id ctx, P0 !! id = Some ctx → proposals f !! id = Some ctx ∨ is_Some (pruned f !! id);
  li_content : map_Forall (λ _ ctx, content_ok (ctx_proposal ctx)) P0;
  li_withdrawals : nonneg (withdrawals c);
  li_treasury : 0 <= treasury f ∧ treasury f + sum_of (withdrawals c) = t0 ∧ t0 < u64_max;
  li_interrupted : ∀ id, interrupting f id → is_interrupted f = true;
  li_single : ∀ id1 id2, interrupting f id1 → interrupting f id2 → id1 = id2 }.

Lemma loop_inv_next f f' r c : loop_inv f c → next_found f f' r → loop_inv f' c.
Proof.
  intros [Hf Hc He Hs Hkp Hk Hw Ht Hi H1] [Hok Hsame _]. rewrite Hsame in Hok |- *. split; done.
Qed.
Lemma loop_inv_committee f c cc : loop_inv f c → context_ok (set_committee cc c) → loop_inv f (set_committee cc c).
Proof. intros [Hf Hc He Hs Hkp Hk Hw Ht Hi H1] Hc'. by split. Qed.

Lemma loop_inv_enact f c id ctx f' c' : loop_inv f c → proposals f !! id = Some ctx → is_interrupted f = false →
  enacted f id (ctx_proposal ctx) f' → context_ok c' → epoch c' = epoch c → nonneg (withdrawals c') →
  treasury_after (treasury f) (ctx_proposal ctx) + sum_of (withdrawals c') = treasury f + sum_of (withdrawals c) →
  0 <= treasury_after (treasury f) (ctx_proposal ctx) → loop_inv f' c'.
Proof.
  intros [Hf Hc He Hs Hkp Hk Hw Ht Hi H1] Hid Hni Hen Hc' He' Hw' Hsum Hpos.
  assert (∀ j, interrupting f' j → j = id ∧ is_high_impact (ctx_proposal ctx) = true) as Hint.
  { intros j [Hj (cj & Hcj & Hh)]. destruct (decide (j = id)) as [->|Hne].
    - split; [done|]. apply Hs in Hid. by simplify_eq.
    - exfalso. apply (en_pruned _ _ _ _ Hen j Ratified Hne) in Hj as [Hj|[? _]]; [|done].
      assert (is_interrupted f = true) by (apply (Hi j); split; eauto). congruence. }
  split; try done.
  - apply Hen.
  - rewrite (en_epoch _ _ _ _ Hen). congruence.
  - intros j cj. rewrite (en_proposals _ _ _ _ Hen). case_decide; [apply Hs|done].
  - intros j cj Hj. rewrite (en_proposals _ _ _ _ Hen). destruct (pruned f' !! j) as [s|] eqn:Hp; [right; by exists s|].
    rewrite decide_True by done. destruct (Hkp j cj Hj) as [?|[s Hps]]; [by left|]. exfalso.
    destruct (decide (j = id)) as [->|Hne]; [by rewrite (en_status _ _ _ _ Hen) in Hp|].
    assert (pruned f' !! j = Some s) by (apply (en_pruned _ _ _ _ Hen); [done|by left]). congruence.
  - rewrite (en_treasury _ _ _ _ Hen). lia.
  - intros j Hj. rewrite (en_interrupted _ _ _ _ Hen). apply Hint in Hj as [_ ->]. by rewrite orb_true_r.
  - intros j1 j2 Hj1 Hj2. apply Hint in Hj1 as [-> _], Hj2 as [-> _]. done.
Qed.

Lemma ratify_loop_ok fuel f c : loop_inv f c → (length (sequence f) < fuel)%nat →
  ∃ f' c', ratify_loop fuel f c = Ok (f', c') ∧ loop_inv f' c' ∧ epoch c' = epoch c.
Proof.
  revert f c. induction fuel as [|fuel IH]; intros f c Hinv Hlen; [lia|]. cbn [ratify_loop].
  pose proof Hinv as [Hf Hc He _ _ Hk Hw Ht _ _].
  assert (terms_fit (current_epoch f) (protocol_parameters c)) as Hfit.
  { destruct (vo_terms _ (co_voting _ Hc)), (co_epoch _ Hc). rewrite He. split; lia. }
  destruct (next_ok (E := RatificationInternalError) (protocol_parameters c) f Hf Hfit) as (r & f1 & -> & Hn).
  cbn [mbind exec_bind]. pose proof (loop_inv_next f f1 r c Hinv Hn) as Hinv1.
  destruct r as [[[id p] ptr]|]; [|by exists f1, c].
  destruct (nf_found _ _ _ Hn id p ptr eq_refl) as (Hni & ctx & skipped & Hid & -> & Hel & Hseq).
  assert (length (sequence f1) < fuel)%nat as Hlen1 by (rewrite Hseq, length_app in Hlen; cbn in Hlen; lia).
  destruct (accepted_by_everyone (E := RatificationInternalError) id (ctx_proposal ctx) c Hc) as (b & cc & -> & Hc1 & Hb).
  cbn [mbind exec_bind]. pose proof (loop_inv_committee f1 c cc Hinv1 Hc1) as Hinv2.
  destruct b; [|by apply (IH f1 (set_committee cc c))]. destruct (Hb eq_refl) as [Hpoll _].
  assert (proposals f1 !! id = Some ctx) as Hid1 by (rewrite (nf_same _ _ _ Hn); exact Hid).
  assert (matching_root (ctx_proposal ctx) f1 = true) as Hm by (rewrite (nf_same _ _ _ Hn); apply (el_root _ _ Hel)).
  destruct (enact_ok f1 id ctx (li_forest _ _ Hinv1) Hid1 Hm) as (f2 & -> & Hen). cbn [map_err mbind exec_bind].
  assert (treasury f1 = treasury f) as Htr by (rewrite (nf_same _ _ _ Hn); done).
  destruct (enact_proposal_ok (E := RatificationInternalError) (ctx_proposal ctx) (set_committee cc c) (treasury f1))
    as (c2 & -> & Hc2 & He2 & Hw2 & Hs2 & Hp2).
  - done.
  - apply (Hk id). by apply (li_start _ _ Hinv).
  - done.
  - done.
  - rewrite Htr. apply (el_treasury _ _ Hel).
  - lia.
  - cbn. lia.
  - cbn [mbind exec_bind]. destruct (IH f2 c2) as (f' & c' & -> & Hinv' & He'); [..|exists f', c'; split; [done|]; split; [done|by rewrite He', He2]].
    + eapply (loop_inv_enact f1 (set_committee cc c) id ctx); try done. rewrite (nf_same _ _ _ Hn). done.
    + pose proof (en_length _ _ _ _ Hen). lia.
Qed.
End Loop.

(** ** Whole rounds of ratification *)

(** What the ledger guarantees at the boundary: well-formed parameters and stake, a
    treasury below the range of machine integers, and proposals submitted in order,
    with well-formed contents. *)
Record boundary_ok (h : EraHistory) (l : list (ProposalId * CandidateProposal)) (r : ProposalsRoots) (c : RatificationContext)
  : Prop := {
  bo_context : context_ok c;
  bo_withdrawals : withdrawals c = ∅;
  bo_treasury : 0 <= ctx_treasury c < u64_max;
  bo_submitted : all_submitted h r (epoch c) [] (Forest.sort_by_pointer l);
  bo_content : ∀ id row p, (id, row) ∈ Forest.sort_by_pointer l →
    ProposalEnum_from (E := ProposalsTree.ProposalsInsertError ProposalId) (Forest.cand_governance_action row) = Ok p → content_ok p }.

Lemma ratify_round h l r c : boundary_ok h l r c →
  ∃ f f' c', Forest.drain h l (Forest.new (epoch c) r (ctx_treasury c)) = Ok f ∧
    ratify_loop (S (length (sequence f))) f c = Ok (f', c') ∧ loop_inv (proposals f) (ctx_treasury c) f' c' ∧ epoch c' = epoch c.
Proof.
  intros [Hc Hw Ht Hs Hk].
  destruct (for_in_drain_ok h r [] (Forest.sort_by_pointer l) (Forest.new (epoch c) r (ctx_treasury c)))
    as (f & Hf & Hfill & (He & Htr & Hi) & Hfrom).
  - apply filling_new.
  - intros id k. split; [by intros ?%elem_of_nil|]. intros (ctx & Hctx & _). cbn in Hctx. by rewrite lookup_empty in Hctx.
  - done.
  - destruct (ratify_loop_ok (proposals f) (ctx_treasury c) (S (length (sequence f))) f c) as (f' & c' & Hl & Hinv & Hep); [|lia|].
    + assert (∀ id, ¬ interrupting (proposals f) f id) as Hno.
      { intros id [Hid _]. by rewrite (fi_pruned _ _ Hfill), lookup_empty in Hid. }
      split; try done.
      * apply Hfill.
      * intros id ctx Hid. by left.
      * intros id ctx Hid. apply Hfrom in Hid as [Hid|(row & Hin & Hp)]; [cbn in Hid; by rewrite lookup_empty in Hid|by eapply Hk].
      * rewrite Hw. apply map_Forall_empty.
      * rewrite Hw, Htr. cbn. unfold sum_of. rewrite map_to_list_empty. cbn. lia.
      * intros id Hid. by destruct (Hno id).
      * intros id1 id2 Hid. by destruct (Hno id1).
    + exists f, f', c'. done.
Qed.

(** What ratification leaves behind, for the updates made from it. *)
Lemma ratification_runs `{S : UnstableSort} h l r c : boundary_ok h l r c →
  ∃ roots statuses c', ratify_proposals h l r c = Ok (roots, statuses, c') ∧ nonneg (withdrawals c') ∧
    sum_of (withdrawals c') <= ctx_treasury c ∧
    ∀ removed added q, constitutional_committee_update c' = Some (ChangeMembers removed added q) → threshold_fits q.
Proof.
  intros Hb. destruct (ratify_round h l r c Hb) as (f & f' & c' & Hd & Hl & Hinv & _).
  unfold ratify_proposals. rewrite Hd. cbn [map_err mbind exec_bind]. rewrite Hl. cbn [mbind exec_bind].
  eexists _, _, c'. split; [done|]. split; [apply Hinv|]. pose proof (li_treasury _ _ _ _ Hinv).
  split; [lia|]. apply (co_update _ (li_context _ _ _ _ Hinv)).
Qed.

(** C15: ratification always completes: at an epoch boundary, whatever the votes, the
    forest is built and every proposal is considered without a panic, an internal
    error or an endless loop; and what is withdrawn, added to what is left, is
    the treasury: no money is created. *)
Theorem ratification_completes `{S : UnstableSort} (h : EraHistory) (l : list (ProposalId * CandidateProposal))
    (r : ProposalsRoots) (c : RatificationContext) : boundary_ok h l r c →
  ∃ roots statuses c', ratify_proposals h l r c = Ok (roots, statuses, c') ∧
    map_Forall (λ _ n, 0 <= n) (withdrawals c') ∧ 0 <= sum_of (withdrawals c') <= ctx_treasury c.
Proof.
  intros Hb. destruct (ratification_runs h l r c Hb) as (roots & statuses & c' & Hr & Hw & Hs & _).
  exists roots, statuses, c'. split; [done|]. split; [done|]. pose proof (sum_of_nonneg _ Hw). lia.
Qed.

(** At most one proposal that interrupts ratification (a hard fork, a change of
    the committee, a new constitution) is enacted at an epoch boundary. *)
Theorem ratification_interrupts `{S : UnstableSort} (h : EraHistory) (l : list (ProposalId * CandidateProposal))
    (r roots : ProposalsRoots) (c c' : RatificationContext) (statuses : gmap ProposalId RatificationStatus)
    (f : ProposalsForest) (id1 id2 : ProposalId) (ctx1 ctx2 : WithContext) :
  boundary_ok h l r c → ratify_proposals h l r c = Ok (roots, statuses, c') →
  Forest.drain h l (Forest.new (epoch c) r (ctx_treasury c)) = Ok f →
  proposals f !! id1 = Some ctx1 → is_high_impact (ctx_proposal ctx1) = true → statuses !! id1 = Some Ratified →
  proposals f !! id2 = Some ctx2 → is_high_impact (ctx_proposal ctx2) = true → statuses !! id2 = Some Ratified →
  id1 = id2.
Proof.
  intros Hb Hr Hd H1 Hh1 Hs1 H2 Hh2 Hs2. destruct (ratify_round h l r c Hb) as (f0 & f' & c0 & Hd0 & Hl & Hinv & _).
  rewrite Hd in Hd0. injection Hd0 as <-. unfold ratify_proposals in Hr. rewrite Hd in Hr. cbn [map_err mbind exec_bind] in Hr.
  rewrite Hl in Hr. injection Hr as <- <- <-.
  apply (li_single _ _ _ _ Hinv); (split; [by apply end_ratified|eauto]).
Qed.

(** The tallies of the three bodies are computed, and are ratios between zero and
    one, whatever the votes. *)
Theorem tallies_are_ratios (c : RatificationContext) (committee : Committee.ConstitutionalCommittee) (p : ProposalEnum)
    (cv : gmap Credential Vote) (pv : gmap PoolId Vote) (dv : gmap DRep Vote) :
  context_ok c → constitutional_committee c = Some committee →
  (∃ q, fst (Committee.tally (E := Empty_set) (epoch c) cv committee) = Ok q ∧ unit_ratio q) ∧
  (∃ q, StakePools.tally (E := Empty_set) p pv (stake_distribution c) = Ok q ∧ unit_ratio q) ∧
  (∃ q, DReps.tally (E := Empty_set) (epoch c) p dv (stake_distribution c) = Ok q ∧ unit_ratio q).
Proof.
  intros Hc Hcc. split; [|split].
  - destruct (committee_tally (E := Empty_set) (epoch c) cv committee (co_committee _ Hc _ Hcc)) as (q & c' & -> & Hq & _). eauto.
  - apply pools_tally, Hc.
  - apply dreps_tally, Hc.
Qed.

(** ** Without a committee *)

Lemma refused_without_committee {E : Type} id p c : constitutional_committee c = None →
  is_accepted_by_everyone (E := E) id p c = Ok (false, c).
Proof.
  intros Hc. unfold is_accepted_by_everyone, is_accepted_by_constitutional_committee. rewrite Hc.
  by destruct (partition_votes _) as [[? ?] ?].
Qed.

Lemma set_sequence_twice s1 s2 f : set_sequence s2 (set_sequence s1 f) = set_sequence s2 f.
Proof. done. Qed.
Lemma set_sequence_self f : set_sequence (sequence f) f = f.
Proof. by destruct f. Qed.

Lemma next_sequence {E : Type} pp f r f' : Forest.next (E := E) pp f = Ok (r, f') → f' = set_sequence (sequence f') f.
Proof.
  unfold Forest.next. destruct (is_interrupted f); [intros [= _ <-]; by rewrite set_sequence_self|].
  generalize (sequence f) as seq. induction seq as [|id seq IH]; cbn [Forest.next_loop]; [by intros [= _ <-]|].
  destruct (proposals f !! id); [|done]. intros Hn. exec_inv. destruct a; [|by apply IH]. by injection Hn as _ <-.
Qed.

Lemma ratify_loop_without_committee fuel f c f' c' : constitutional_committee c = None →
  ratify_loop fuel f c = Ok (f', c') → c' = c ∧ f' = set_sequence (sequence f') f.
Proof.
  intros Hc. revert f. induction fuel as [|fuel IH]; intros f Hr; [done|]. cbn [ratify_loop] in Hr. exec_inv.
  destruct a as [r f1]. apply next_sequence in Hr0. destruct r as [[[id p] ptr]|]; [|by injection Hr as <- <-].
  rewrite refused_without_committee in Hr by done. cbn [mbind exec_bind] in Hr. apply IH in Hr as [-> Hf'].
  split; [done|]. rewrite Hf' at 1. rewrite Hr0 at 1. by rewrite set_sequence_twice.
Qed.

(** C38: without a committee nothing is ever enacted, the election of a new committee
    included: the roots, the committee and everything else stay as they are, so a
    motion of no confidence, once enacted, cannot be undone. *)
Theorem no_confidence_is_permanent `{S : UnstableSort} (h : EraHistory) (l : list (ProposalId * CandidateProposal))
    (r roots : ProposalsRoots) (c c' : RatificationContext) (statuses : gmap ProposalId RatificationStatus) :
  constitutional_committee c = None → ratify_proposals h l r c = Ok (roots, statuses, c') → boundary_ok h l r c →
  c' = c ∧ roots = r ∧ ∀ id, statuses !! id ≠ Some Ratified.
Proof.
  intros Hc Hr [_ _ _ Hs _]. unfold ratify_proposals in Hr. exec_inv. destruct a0 as [f' c1]. injection Hr as <- <- <-.
  destruct (ratify_loop_without_committee _ _ _ _ _ Hc Hr1) as [-> Hf'].
  destruct (for_in_drain_ok h r [] (Forest.sort_by_pointer l) (Forest.new (epoch c) r (ctx_treasury c)))
    as (f & Hf & Hfill & _ & _); [apply filling_new| |done|].
  { intros id k. split; [by intros ?%elem_of_nil|]. intros (ctx & Hctx & _). cbn in Hctx. by rewrite lookup_empty in Hctx. }
  unfold Forest.drain in Hr0. rewrite Hf in Hr0. injection Hr0 as <-. split; [done|]. split.
  - rewrite Hf'. unfold Forest.roots. cbn [tree set_sequence]. rewrite !(fi_roots _ _ Hfill). by destruct r.
  - intros id Hid%end_ratified. rewrite Hf' in Hid. cbn [pruned set_sequence] in Hid.
    by rewrite (fi_pruned _ _ Hfill), lookup_empty in Hid.
Qed.

(** ** A round on Mainnet's parameters

    Two hard-fork proposals, the first accepted by a pool and a representative that
    hold all the stake, under a committee whose threshold is null. *)
Module SampleRound.
Import LateProposals(first, second, candidates, no_roots).
Definition no_minimum : ProtocolParamUpdate :=
  mkProtocolParamUpdate None None None None None None None None None None None None None None None None None None None None
    None None None (Some 0) None None None None None None.
Definition parameters : ProtocolParameters := ProtocolParameters_update MAINNET_DEFAULT_PROTOCOL_PARAMETERS no_minimum.
Definition at_start : CertificatePointer := mkCertificatePointer 0 0 0.
Definition pool : PoolParams :=
  mkPoolParams [7] [] 0 170000000 RationalNumber_zero (mkRewardAccount Mainnet (KeyHash [1])) [[1]] [] None.
Definition stake : StakeDistribution :=
  mkStakeDistribution 513 0 0 100 100 50
    {[ [7] := mkPoolState at_start 0 100 100 0 pool None ]} {[ DRep_Key [8] := mkDRepState None None 50 at_start ]} None.
Definition context (committee : option Committee.ConstitutionalCommittee) : RatificationContext :=
  mkRatificationContext 513 1000 stake parameters ∅ committee None None
    {[ first := [(StakePoolKey [7], mkBallot VoteYes None); (DRepKey [8], mkBallot VoteYes None)] ]}.
Definition committee : Committee.ConstitutionalCommittee := Committee.new SafeRatio_zero ∅.
Definition proposals_of_513 : list (ProposalId * CandidateProposal) := take 2 candidates.

Lemma context_fine cc : (∀ m, cc = Some m → memo_ok m) → context_ok (context cc).
Proof.
  intros Hm. split.
  - split; [vm_compute; repeat split; congruence..|vm_compute; split; congruence].
  - split; [apply map_Forall_singleton; cbn; lia..|vm_compute; split; congruence|vm_compute; split; congruence].
  - exact Hm.
  - by intros ? ? ? [=].
  - vm_compute. split; congruence.
Qed.
Lemma boundary_fine cc : (∀ m, cc = Some m → memo_ok m) → boundary_ok MAINNET_ERA_HISTORY proposals_of_513 no_roots (context cc).
Proof.
  intros Hm. split.
  - by apply context_fine.
  - done.
  - vm_compute. split; congruence.
  - apply TwoProposals.submitted.
  - intros id row p Hin Hp. apply elem_of_cons in Hin as [[= -> ->]|Hin]; [by injection Hp as <-|].
    apply elem_of_cons in Hin as [[= -> ->]|Hin%elem_of_nil]; [by injection Hp as <-|done].
Qed.
Lemma committee_fine m : Some committee = Some m → memo_ok m.
Proof. intros [= <-]. by intros e x. Qed.

(** The first proposal is enacted, and the second waits for the next epoch. *)
Example first_enacted :
  ∃ c', ratify_proposals (H := TableSort.table_sort) MAINNET_ERA_HISTORY proposals_of_513 no_roots (context (Some committee)) =
    Ok (Forest.mkProposalsRoots None (Some first) None None, {[ first := Ratified ]}, c').
Proof. eexists. vm_compute. reflexivity. Qed.
End SampleRound.

Lemma ratification_completes_witness : ∃ roots statuses c',
  ratify_proposals (H := TableSort.table_sort) MAINNET_ERA_HISTORY SampleRound.proposals_of_513 LateProposals.no_roots
    (SampleRound.context (Some SampleRound.committee)) = Ok (roots, statuses, c') ∧
  map_Forall (λ _ n, 0 <= n) (withdrawals c') ∧ 0 <= sum_of (withdrawals c') <= 1000.
Proof.
  apply (ratification_completes (S := TableSort.table_sort) MAINNET_ERA_HISTORY SampleRound.proposals_of_513 LateProposals.no_roots
    (SampleRound.context (Some SampleRound.committee))).
  apply SampleRound.boundary_fine, SampleRound.committee_fine.
Defined.

Lemma ratification_interrupts_witness :
  (∃ c', ratify_proposals (H := TableSort.table_sort) MAINNET_ERA_HISTORY SampleRound.proposals_of_513 LateProposals.no_roots
    (SampleRound.context (Some SampleRound.committee)) =
    Ok (Forest.mkProposalsRoots None (Some LateProposals.first) None None, {[ LateProposals.first := Ratified ]}, c')) ∧
  LateProposals.first = LateProposals.first.
Proof.
  split; [exact SampleRound.first_enacted|]. destruct SampleRound.first_enacted as [c' Hr].
  assert (match Forest.drain MAINNET_ERA_HISTORY SampleRound.proposals_of_513 (Forest.new 513 LateProposals.no_roots 1000) with
          | Ok f => from_option (λ ctx, is_high_impact (ctx_proposal ctx)) false (proposals f !! LateProposals.first)
          | _ => false
          end = true) as Hhigh by (vm_compute; reflexivity).
  destruct (Forest.drain MAINNET_ERA_HISTORY SampleRound.proposals_of_513 (Forest.new 513 LateProposals.no_roots 1000))
    as [f|e| |] eqn:Hd; [|discriminate Hhigh..].
  destruct (proposals f !! LateProposals.first) as [ctx|] eqn:Hctx; [|discriminate Hhigh]. cbn [from_option] in Hhigh.
  apply (ratification_interrupts (S := TableSort.table_sort) MAINNET_ERA_HISTORY SampleRound.proposals_of_513 LateProposals.no_roots
    _ (SampleRound.context (Some SampleRound.committee)) c' _ f LateProposals.first LateProposals.first ctx ctx
    (SampleRound.boundary_fine _ SampleRound.committee_fine) Hr Hd Hctx Hhigh (lookup_singleton_eq _ _) Hctx Hhigh (lookup_singleton_eq _ _)).
Defined.

Lemma tallies_are_ratios_witness :
  ∃ q, StakePools.tally (E := Empty_set) (HardFork PROTOCOL_VERSION_11 None) {[ [7] := VoteYes ]} SampleRound.stake = Ok q ∧ unit_ratio q.
Proof.
  pose proof (tallies_are_ratios (SampleRound.context (Some SampleRound.committee)) SampleRound.committee
    (HardFork PROTOCOL_VERSION_11 None) ∅ {[ [7] := VoteYes ]} ∅
    (SampleRound.context_fine _ SampleRound.committee_fine) eq_refl) as (_ & Hpools & _).
  exact Hpools.
Defined.

Lemma no_confidence_is_permanent_witness :
  match ratify_proposals (H := TableSort.table_sort) MAINNET_ERA_HISTORY SampleRound.proposals_of_513 LateProposals.no_roots
    (SampleRound.context None) with
  | Ok (roots, statuses, c') => c' = SampleRound.context None ∧ roots = LateProposals.no_roots ∧ ∀ id, statuses !! id ≠ Some Ratified
  | _ => False
  end.
Proof.
  assert (is_ok (ratify_proposals (H := TableSort.table_sort) MAINNET_ERA_HISTORY SampleRound.proposals_of_513
    LateProposals.no_roots (SampleRound.context None)) = true) as Hok by (vm_compute; reflexivity).
  destruct (ratify_proposals (H := TableSort.table_sort) MAINNET_ERA_HISTORY SampleRound.proposals_of_513
    LateProposals.no_roots (SampleRound.context None)) as [[[roots statuses] c']|e| |] eqn:Hr; [|discriminate Hok..].
  apply (no_confidence_is_permanent (S := TableSort.table_sort) MAINNET_ERA_HISTORY SampleRound.proposals_of_513 LateProposals.no_roots
    roots (SampleRound.context None) c' statuses eq_refl Hr).
  apply SampleRound.boundary_fine. by intros m.
Defined.
