(* ===== verification/EpochTransition.v ===== *)
(** * The transition between epochs

    What happens to the ledger when an epoch ends: rewards become effective
    ([amaru-ledger/src/epoch_transition/rewards_state.rs]), governance updates are
    computed ([epoch_transition/ratification.rs]), both are kept in an overlay while
    they can still be rolled back ([state/volatile/overlay.rs]), and the overlay is
    written to the store in three transactions ([store/epoch_transition.rs], and the
    methods of [amaru-stores/src/rocksdb/mod.rs] they call).

    The store is the content of its columns; reading and writing it does not fail. *)

From Stdlib Require Import QArith.
From S2P Require Import Prelude EraHistory UplcSyntax SortedPairs ProtocolParameters Governance Summary PoolsUpdates StakeSummary Rewards ProposalsForest Ratification.
#[local] Open Scope Z_scope.

(** [iterator.sum::<u64>()]. *)
Definition u64_sum {E : Type} (l : list Z) : exec E Z := for_in l u64_add 0.

(** ** Rewards between their computation and their payment *)
Module RewardsState.
Import Rewards(RewardsSummary, effective_rewards, rs_accounts, leader_recipients).

(** [Rewards<STEP>]: [unclaimed] is [()] for computed rewards, and a set of credentials
    for effective ones. *)
Record Rewards (U : Type) := mkRewards {
  delta_reserves : Z;
  delta_treasury : Z;
  total_rewards : Z;
  accounts : list (Credential * AccountState);
  pools_owners : gset Credential;
  unclaimed : U }.
Arguments mkRewards {U}.
Arguments delta_reserves {U}.
Arguments delta_treasury {U}.
Arguments total_rewards {U}.
Arguments accounts {U}.
Arguments pools_owners {U}.
Arguments unclaimed {U}.
Abbreviation Computed := (Rewards unit).
Abbreviation Effective := (Rewards (gset Credential)).

Definition Computed_from {E : Type} (s : RewardsSummary) : exec E Computed :=
  dr ← Rewards.delta_reserves s;
  Ok (mkRewards dr (Rewards.delta_treasury s) (effective_rewards s) (rs_accounts s) (leader_recipients s) ()).

Definition owed (l : list (Credential * AccountState)) (c : Credential) : Z := from_option rewards 0 (SortedPairs.get c l).

Definition unclaimed_rewards (r : Computed) (unreachable : gset Credential) : gset Credential :=
  filter (λ c, is_true (match SortedPairs.get c (accounts r) with Some st => 0 <? rewards st | None => false end)) unreachable.

Definition Effective_new (r : Computed) (unclaimed : gset Credential) : Effective :=
  mkRewards (delta_reserves r) (delta_treasury r) (total_rewards r) (accounts r) (pools_owners r) unclaimed.
Definition reward_of (c : Credential) (r : Effective) : Z := if decide (c ∈ unclaimed r) then 0 else owed (accounts r) c.
Definition total_unclaimed_rewards {E : Type} (r : Effective) : exec E Z :=
  u64_sum (omap (λ c, rewards <$> SortedPairs.get c (accounts r)) (elements (unclaimed r))).
Definition effective_delta_treasury {E : Type} (r : Effective) : exec E Z :=
  n ← total_unclaimed_rewards r; u64_add (delta_treasury r) n.
Definition to_computed (r : Effective) : Computed :=
  mkRewards (delta_reserves r) (delta_treasury r) (total_rewards r) (accounts r) (pools_owners r) ().

Inductive RewardsState := NotReady | IsComputed (r : Computed) | IsEffective (r : Effective).
Definition take_computed_rewards (st : RewardsState) : option Computed * RewardsState :=
  (match st with NotReady | IsEffective _ => None | IsComputed r => Some r end, NotReady).
Definition rollback_rewards (st : RewardsState) : RewardsState :=
  match st with NotReady | IsComputed _ => st | IsEffective r => IsComputed (to_computed r) end.
End RewardsState.

(** ** The accounts that cannot be paid

    [iter_unreachable_accounts]: those unregistered lately, unless they were registered
    again since, and the accounts of operators that do not exist. *)
Definition unreachable_accounts (account_exists : Credential → bool) (recently_unregistered : list Credential)
    (registrations deregistrations pools_owners : gset Credential) : list Credential :=
  let owners := (pools_owners ∖ list_to_set recently_unregistered) ∖ deregistrations in
  filter (λ c, c ∉ registrations) recently_unregistered ++ elements deregistrations ++
  filter (λ c, (c ∉ registrations) ∧ account_exists c = false) (elements owners).

(** ** Governance updates *)
Module GovernanceUpdates.
Import Stake(ProposalRow, row_valid_until, row_proposal, row_proposed_in, proposal_reward_account, proposal_deposit, gov_action).

Record GovernanceUpdates := mkGovernanceUpdates {
  roots : Forest.ProposalsRoots;
  parameters : ProtocolParameters;
  pruned_proposals : gmap ProposalId RatificationStatus;
  deposit_refunds : gmap Credential Z;
  treasury_withdrawals : gmap Credential Z;
  is_dormant_epoch : bool;
  committee_update : option ConstitutionalCommitteeUpdate;
  constitution_update : option Constitution }.

Record ProposalMetadata := mkProposalMetadata { valid_until : Z; return_account : Credential; deposit : Z }.
Definition metadata_of (row : ProposalRow) : ProposalMetadata :=
  mkProposalMetadata (row_valid_until row) (account_credential (proposal_reward_account (row_proposal row)))
    (proposal_deposit (row_proposal row)).
Definition candidate_from (row : ProposalRow) : Forest.CandidateProposal :=
  Forest.mkCandidateProposal (row_valid_until row) (row_proposed_in row) (gov_action (row_proposal row)).

(** What becomes of one proposal, once ratification is over. *)
Definition settle_one {E : Type} (epoch : Z) (pruned : gmap ProposalId RatificationStatus)
    (st : gmap Credential Z * bool) (p : ProposalId * ProposalMetadata) : exec E (gmap Credential Z * bool) :=
  let '(refunds, dormant) := st in
  let '(id, proposal) := p in
  if is_some (pruned !! id) then
    refunds ← credit refunds (return_account proposal, deposit proposal);
    Ok (refunds, dormant)
  else if epoch =? valid_until proposal then Panic
  else
    limit ← u64_add epoch 2;
    Ok (refunds, dormant && (valid_until proposal <? limit)).

Definition GovernanceUpdates_new `{Forest.UnstableSort} (roots : Forest.ProposalsRoots)
    (proposals : list (ProposalId * ProposalRow)) (era_history : EraHistory) (ctx : RatificationContext)
  : exec RatificationInternalError GovernanceUpdates :=
  let metadata : gmap ProposalId ProposalMetadata := foldl (λ m p, <[p.1 := metadata_of p.2]> m) ∅ proposals in
  r ← ratify_proposals era_history (map (λ p, (p.1, candidate_from p.2)) proposals) roots ctx;
  let '(roots, pruned, ctx) := r in
  st ← for_in (map_to_list metadata) (settle_one (epoch ctx) pruned) (∅, true);
  Ok (mkGovernanceUpdates roots (protocol_parameters ctx) pruned st.1 (withdrawals ctx) st.2
        (constitutional_committee_update ctx) (new_constitution ctx)).

Definition payout {E : Type} (u : GovernanceUpdates) (c : Credential) : exec E Z :=
  u64_add (amount_of (deposit_refunds u) c) (amount_of (treasury_withdrawals u) c).
End GovernanceUpdates.

(** ** Changes of the treasury *)

Inductive TreasuryDelta := DeltaZero | DeltaCredit (n : Z) | DeltaDebit (n : Z).
Definition treasury_delta_add {E : Type} (d : TreasuryDelta) (rhs : Z) : exec E TreasuryDelta :=
  match d with
  | DeltaZero => Ok (DeltaCredit rhs)
  | DeltaCredit lhs => n ← u64_add lhs rhs; Ok (DeltaCredit n)
  | DeltaDebit lhs =>
      Ok (if rhs <? lhs then DeltaDebit (lhs - rhs) else if lhs <? rhs then DeltaCredit (rhs - lhs) else DeltaZero)
  end.
Definition treasury_delta_sub {E : Type} (d : TreasuryDelta) (rhs : Z) : exec E TreasuryDelta :=
  match d with
  | DeltaZero => Ok (DeltaDebit rhs)
  | DeltaDebit lhs => n ← u64_add lhs rhs; Ok (DeltaDebit n)
  | DeltaCredit lhs =>
      Ok (if rhs <? lhs then DeltaCredit (lhs - rhs) else if lhs <? rhs then DeltaDebit (rhs - lhs) else DeltaZero)
  end.
Definition as_credit (d : TreasuryDelta) : option Z :=
  match d with DeltaZero => Some 0 | DeltaCredit n => Some n | DeltaDebit _ => None end.

(** ** The store *)
Module Store.
Import Stake(AccountRow, mkAccountRow, arow_pool, arow_deposit, arow_drep, arow_rewards, ProposalRow).
Import RewardsState GovernanceUpdates.

Inductive EpochTransitionProgress := EpochEnded | SnapshotTaken.
#[export] Instance EpochTransitionProgress_eq_dec : EqDecision EpochTransitionProgress.
Proof. solve_decision. Defined.

(** The columns and the single values of the store. *)
Record Tables := mkTables {
  progress : option EpochTransitionProgress;
  db_accounts : gmap Credential AccountRow;
  recently_unregistered : gmap Credential Z;
  db_pots : Pots;
  db_pools : gmap PoolId Pools.Pool;
  db_proposals : gmap ProposalId ProposalRow;
  db_votes : gmap ProposalId (list (Voter * Ballot));
  recently_pruned : gmap ProposalId RatificationStatus;
  block_issuers : gmap Z PoolId;
  cc_members : gmap Credential Committee.Row;
  cc_status : Committee.CommitteeStatus;
  proposals_roots : Forest.ProposalsRoots;
  db_constitution : Constitution;
  db_parameters : ProtocolParameters;
  consecutive_dormant_epochs : Z }.

Definition set_progress (x : option EpochTransitionProgress) (t : Tables) : Tables :=
  mkTables x (db_accounts t) (recently_unregistered t) (db_pots t) (db_pools t) (db_proposals t) (db_votes t) (recently_pruned t)
    (block_issuers t) (cc_members t) (cc_status t) (proposals_roots t) (db_constitution t) (db_parameters t) (consecutive_dormant_epochs t).
Definition set_accounts (x : gmap Credential AccountRow) (t : Tables) : Tables :=
  mkTables (progress t) x (recently_unregistered t) (db_pots t) (db_pools t) (db_proposals t) (db_votes t) (recently_pruned t)
    (block_issuers t) (cc_members t) (cc_status t) (proposals_roots t) (db_constitution t) (db_parameters t) (consecutive_dormant_epochs t).
Definition set_pots (x : Pots) (t : Tables) : Tables :=
  mkTables (progress t) (db_accounts t) (recently_unregistered t) x (db_pools t) (db_proposals t) (db_votes t) (recently_pruned t)
    (block_issuers t) (cc_members t) (cc_status t) (proposals_roots t) (db_constitution t) (db_parameters t) (consecutive_dormant_epochs t).
Definition set_registry (unregistered : gmap Credential Z) (issuers : gmap Z PoolId) (t : Tables) : Tables :=
  mkTables (progress t) (db_accounts t) unregistered (db_pots t) (db_pools t) (db_proposals t) (db_votes t) (recently_pruned t)
    issuers (cc_members t) (cc_status t) (proposals_roots t) (db_constitution t) (db_parameters t) (consecutive_dormant_epochs t).
Definition set_pools (x : gmap PoolId Pools.Pool) (t : Tables) : Tables :=
  mkTables (progress t) (db_accounts t) (recently_unregistered t) (db_pots t) x (db_proposals t) (db_votes t) (recently_pruned t)
    (block_issuers t) (cc_members t) (cc_status t) (proposals_roots t) (db_constitution t) (db_parameters t) (consecutive_dormant_epochs t).
Definition set_proposals (x : gmap ProposalId ProposalRow) (v : gmap ProposalId (list (Voter * Ballot))) (t : Tables) : Tables :=
  mkTables (progress t) (db_accounts t) (recently_unregistered t) (db_pots t) (db_pools t) x v (recently_pruned t)
    (block_issuers t) (cc_members t) (cc_status t) (proposals_roots t) (db_constitution t) (db_parameters t) (consecutive_dormant_epochs t).
Definition set_recently_pruned (x : gmap ProposalId RatificationStatus) (t : Tables) : Tables :=
  mkTables (progress t) (db_accounts t) (recently_unregistered t) (db_pots t) (db_pools t) (db_proposals t) (db_votes t) x
    (block_issuers t) (cc_members t) (cc_status t) (proposals_roots t) (db_constitution t) (db_parameters t) (consecutive_dormant_epochs t).
Definition set_cc (members : gmap Credential Committee.Row) (status : Committee.CommitteeStatus) (t : Tables) : Tables :=
  mkTables (progress t) (db_accounts t) (recently_unregistered t) (db_pots t) (db_pools t) (db_proposals t) (db_votes t) (recently_pruned t)
    (block_issuers t) members status (proposals_roots t) (db_constitution t) (db_parameters t) (consecutive_dormant_epochs t).
Definition set_governance (roots : Forest.ProposalsRoots) (constitution : Constitution) (pp : ProtocolParameters) (t : Tables) : Tables :=
  mkTables (progress t) (db_accounts t) (recently_unregistered t) (db_pots t) (db_pools t) (db_proposals t) (db_votes t) (recently_pruned t)
    (block_issuers t) (cc_members t) (cc_status t) roots constitution pp (consecutive_dormant_epochs t).
Definition set_dormant (n : Z) (t : Tables) : Tables :=
  mkTables (progress t) (db_accounts t) (recently_unregistered t) (db_pots t) (db_pools t) (db_proposals t) (db_votes t) (recently_pruned t)
    (block_issuers t) (cc_members t) (cc_status t) (proposals_roots t) (db_constitution t) (db_parameters t) n.

Definition add_rewards (n : Z) (row : AccountRow) : AccountRow := mkAccountRow (arow_pool row) (arow_deposit row) (arow_drep row) n.
Definition set_pot_treasury (n : Z) (p : Pots) : Pots := mkPots n (reserves p) (fees p) (donations p).

(** *** End of epoch *)

(** The loop over the accounts: what was paid, and the accounts. *)
Definition pay_account {E : Type} (r : Effective) (st : Z * gmap Credential AccountRow) (a : Credential * AccountRow)
  : exec E (Z * gmap Credential AccountRow) :=
  let '(paid, accounts) := st in
  let '(credential, row) := a in
  let amount := reward_of credential r in
  if 0 <? amount then
    paid ← u64_add paid amount;
    n ← u64_add (arow_rewards row) amount;
    Ok (paid, <[credential := add_rewards n row]> accounts)
  else Ok (paid, accounts).

Definition pay_rewards {E : Type} (r : Effective) (t : Tables) : exec E Tables :=
  st ← for_in (map_to_list (db_accounts t)) (pay_account r) (0, db_accounts t);
  let '(rewards_paid, accounts) := st in
  lost ← total_unclaimed_rewards r;
  actual_total_rewards ← u64_add rewards_paid lost;
  if actual_total_rewards =? total_rewards r then
    dt ← effective_delta_treasury r;
    treasury' ← u64_add (treasury (db_pots t)) dt;
    reserves' ← u64_sub (reserves (db_pots t)) (delta_reserves r);
    Ok (set_pots (mkPots treasury' reserves' (fees (db_pots t)) (donations (db_pots t))) (set_accounts accounts t))
  else Panic.

(** *** Start of epoch *)

(** Rows whose epoch is three behind or more. *)
Definition prune_recently_unregistered_accounts {E : Type} (epoch : Z) (t : Tables) : exec E Tables :=
  if bool_decide (map_Forall (λ _ at_, at_ + 3 <= u64_max) (recently_unregistered t)) then
    Ok (set_registry (filter (λ kv : Credential * Z, ¬ kv.2 + 3 <= epoch) (recently_unregistered t)) (block_issuers t) t)
  else Panic.
Definition reset_blocks_count (t : Tables) : Tables := set_registry (recently_unregistered t) ∅ t.
Definition reset_fees_and_donations {E : Type} (t : Tables) : exec E Tables :=
  n ← u64_add (treasury (db_pots t)) (donations (db_pots t));
  Ok (set_pots (mkPots n (reserves (db_pots t)) 0 0) t).

(** What could not be refunded, because the account is gone. *)
Definition refund {E : Type} (credential : Credential) (deposit : Z) (t : Tables) : exec E (Z * Tables) :=
  match db_accounts t !! credential with
  | Some row =>
      n ← u64_add (arow_rewards row) deposit;
      Ok (0, set_accounts (<[credential := add_rewards n row]> (db_accounts t)) t)
  | None => Ok (deposit, t)
  end.
Definition refund_one {E : Type} (st : Z * Z * Tables) (x : Credential * Z) : exec E (Z * Z * Tables) :=
  let '(leftovers, paid, t) := st in
  r ← refund x.1 x.2 t;
  leftovers ← u64_add leftovers r.1;
  paid ← u64_add paid x.2;
  Ok (leftovers, paid, r.2).
Definition pay_or_refund_accounts {E : Type} (payouts : list (Credential * Z)) (t : Tables) : exec E Tables :=
  st ← for_in payouts refund_one (0, 0, t);
  let '(leftovers, paid, t) := st in
  _ ← u64_sub paid leftovers;
  if 0 <? leftovers then
    n ← u64_add (treasury (db_pots t)) leftovers;
    Ok (set_pots (set_pot_treasury n (db_pots t)) t)
  else Ok t.

Definition set_valid_until (v : option Z) (row : option Committee.Row) : Committee.Row :=
  match row with Some row => Committee.mkRow (Committee.row_status row) v | None => Committee.mkRow None v end.
Definition update_members (added : gmap Credential Z) (removed : gset Credential) (members : gmap Credential Committee.Row)
  : gmap Credential Committee.Row :=
  let members := set_fold (λ c m, <[c := set_valid_until None (m !! c)]> m) members removed in
  map_fold (λ c v m, <[c := set_valid_until (Some v) (m !! c)]> m) members added.
(** [RationalNumber::new] of a reduced ratio whose parts must fit in 64 bits. *)
Definition threshold_ratio {E : Type} (q : SafeRatio) : exec E RationalNumber :=
  if (Qnum q <=? u64_max) && (Z.pos (Qden q) <=? u64_max)
  then match RationalNumber_new (Qnum q) (Z.pos (Qden q)) with Ok r => Ok r | _ => Panic end
  else Panic.
Definition elected (kv : Credential * Committee.Row) : Prop := Committee.row_valid_until kv.2 ≠ None.
#[export] Instance elected_dec kv : Decision (elected kv).
Proof. unfold elected. apply _. Defined.
Definition update_constitutional_committee {E : Type} (u : option ConstitutionalCommitteeUpdate) (t : Tables) : exec E Tables :=
  t ← match u with
      | Some NoConfidence => Ok (set_cc ∅ Committee.StatusNoConfidence t)
      | Some (ChangeMembers removed added threshold) =>
          q ← threshold_ratio threshold;
          Ok (set_cc (update_members added removed (cc_members t)) (Committee.Trusted q) t)
      | None => Ok t
      end;
  Ok (set_cc (filter elected (cc_members t)) (cc_status t) t).

(** Proposals are removed with their votes. *)
Definition remove_proposals (pruned : gmap ProposalId RatificationStatus) (t : Tables) : Tables :=
  set_proposals (filter (λ kv, pruned !! kv.1 = None) (db_proposals t)) (filter (λ kv, pruned !! kv.1 = None) (db_votes t)) t.

Definition u32_max : Z := 4294967295.
Definition apply_governance_updates {E : Type} (u : GovernanceUpdates) (t : Tables)
  : exec E ((ProtocolParameters * Z * option (list Z)) * Tables) :=
  let constitution := default (db_constitution t) (constitution_update u) in
  let t := set_governance (roots u) constitution (db_parameters t) t in
  t ← update_constitutional_committee (committee_update u) t;
  let t := set_governance (proposals_roots t) (db_constitution t) (parameters u) t in
  t ← pay_or_refund_accounts (map_to_list (deposit_refunds u) ++ map_to_list (treasury_withdrawals u)) t;
  t ← (if decide (treasury_withdrawals u = ∅) then Ok t
       else withdrawn ← u64_sum (map snd (map_to_list (treasury_withdrawals u)));
            n ← u64_sub (treasury (db_pots t)) withdrawn;
            Ok (set_pots (set_pot_treasury n (db_pots t)) t));
  t ← (if is_dormant_epoch u
       then if consecutive_dormant_epochs t + 1 <=? u32_max then Ok (set_dormant (consecutive_dormant_epochs t + 1) t) else Panic
       else Ok t);
  Ok (parameters u, consecutive_dormant_epochs t, guardrail_script constitution, remove_proposals (pruned_proposals u) t).

(** [try_epoch_transition]. *)
Definition try_epoch_transition (from to : option EpochTransitionProgress) (t : Tables) : bool * Tables :=
  if decide (progress t = from) then (true, set_progress to t) else (false, t).
End Store.

(** ** The overlay *)
Module Overlay.
Import RewardsState GovernanceUpdates Store.

Inductive StateError :=
| Storage
| NoSuitableStakeDistribution (epoch : Z)
| RatificationFailed (error : RatificationInternalError)
| BackgroundTaskFailed
| BackgroundTaskCancelled
| RewardsSummaryNotReady
| InvalidForkLength (rollback_length fork_length : nat)
| NoEffectiveRewards
| ErrorComputingEpoch (slot : Z) (error : EraHistoryError)
| ContextHydratation.

Record StateOverlay := mkStateOverlay {
  epoch : Z;
  most_recent_snapshot : option Z;
  overlay_rewards : RewardsState;
  pools_updates : option Pools.PoolsEpochTransitionUpdates;
  governance_updates : option GovernanceUpdates;
  treasury_delta : TreasuryDelta }.

Definition new (epoch : Z) : StateOverlay := mkStateOverlay epoch None NotReady None None DeltaZero.

Definition rollback {E : Type} (o : StateOverlay) : exec E StateOverlay :=
  to ← u64_sub (epoch o) 1;
  Ok (mkStateOverlay to (most_recent_snapshot o) (rollback_rewards (overlay_rewards o)) None None DeltaZero).

(** The amounts whose account is gone. *)
Definition unpayable {E : Type} (account_exists : Credential → bool) (payouts : list (Credential * Z)) : exec E Z :=
  for_in payouts (λ n x, if account_exists x.1 then Ok n else u64_add n x.2) 0.

Definition transition {E : Type} (effective : option Effective) (pools : Pools.PoolsEpochTransitionUpdates)
    (governance : GovernanceUpdates) (donations : Z) (account_exists : Credential → bool) (o : StateOverlay)
  : exec E StateOverlay :=
  to ← u64_add (epoch o) 1;
  lost ← unpayable account_exists
           (map_to_list (Pools.refunds pools) ++ map_to_list (deposit_refunds governance) ++ map_to_list (treasury_withdrawals governance));
  total_withdrawn ← u64_sum (map snd (map_to_list (treasury_withdrawals governance)));
  tax ← match effective with Some r => effective_delta_treasury r | None => Ok 0 end;
  delta ← treasury_delta_add (DeltaDebit total_withdrawn) tax;
  delta ← treasury_delta_add delta donations;
  delta ← treasury_delta_add delta lost;
  Ok (mkStateOverlay to (most_recent_snapshot o) (match effective with Some r => IsEffective r | None => NotReady end)
        (Some pools) (Some governance) delta).

Definition pending_pruned (o : StateOverlay) : gmap ProposalId RatificationStatus :=
  from_option pruned_proposals ∅ (governance_updates o).
Definition pending_reward_credit {E : Type} (c : Credential) (o : StateOverlay) : exec E Z :=
  let reward := match overlay_rewards o with IsEffective r => reward_of c r | NotReady | IsComputed _ => 0 end in
  let refund := from_option (Pools.refund c) 0 (pools_updates o) in
  governance_payout ← match governance_updates o with Some u => payout u c | None => Ok 0 end;
  n ← u64_add reward refund;
  u64_add n governance_payout.
Definition is_empty (o : StateOverlay) : bool :=
  match overlay_rewards o with IsEffective _ => false | NotReady | IsComputed _ => true end &&
  negb (is_some (pools_updates o)) && negb (is_some (governance_updates o)).

(** *** Crossing a boundary

    What the volatile database adds to the store at the end of an epoch: the pools and
    the proposals with its pending changes, the accounts it registers and
    unregisters, the donations it holds. *)
Record VolatileView := mkVolatileView {
  view_pools : list (PoolId * Pools.Pool);
  view_proposals : list (ProposalId * Stake.ProposalRow);
  view_registered : gset Credential;
  view_unregistered : gset Credential;
  view_donations : Z }.

Definition view_unreachable (t : Tables) (view : VolatileView) (owners : gset Credential) : gset Credential :=
  list_to_set (unreachable_accounts (λ c, is_some (db_accounts t !! c)) (map_to_list (recently_unregistered t)).*1
    (view_registered view) (view_unregistered view) owners).

(** The rewards that become effective, the treasury once they are, and the accounts
    that cannot be paid; no rewards when the store says the epoch has ended already. *)
Definition effective_at {E : Type} (notready : E) (computed : option Computed) (view : VolatileView) (t : Tables)
  : exec E (Z * option Effective * gset Credential) :=
  match progress t with
  | None =>
      computed_rewards ← ok_or notready computed;
      let unreachable := view_unreachable t view (pools_owners computed_rewards) in
      let effective_rewards := Effective_new computed_rewards (unclaimed_rewards computed_rewards unreachable) in
      dt ← effective_delta_treasury effective_rewards;
      treasury ← u64_add (treasury (db_pots t)) dt;
      Ok (treasury, Some effective_rewards, unreachable)
  | Some _ => Ok (treasury (db_pots t), None, view_unreachable t view ∅)
  end.

(** [State::epoch_transition]; the context of ratification is made from the snapshot
    of two epochs back and the treasury. *)
Definition epoch_transition `{Forest.UnstableSort} (era_history : EraHistory) (next_epoch : Z) (computed : option Computed)
    (context : Z → exec StateError RatificationContext) (view : VolatileView) (t : Tables) (o : StateOverlay)
  : exec StateError StateOverlay :=
  pools ← Pools.Updates_new (view_pools view) next_epoch;
  r ← effective_at RewardsSummaryNotReady computed view t;
  let '(treasury, effective_rewards, unreachable) := r in
  ctx ← context treasury;
  governance ← map_err RatificationFailed
    (GovernanceUpdates_new (proposals_roots t) (view_proposals view) era_history ctx);
  donations ← u64_add (donations (db_pots t)) (view_donations view);
  transition effective_rewards pools governance donations (λ c, bool_decide (c ∉ unreachable)) o.

(** *** Flushing

    The store keeps the snapshots it took, by epoch. *)
Record Db := mkDb { tables : Tables; snapshots : gmap Z Tables }.

Definition take_rewards (o : StateOverlay) : StateOverlay :=
  mkStateOverlay (epoch o) (most_recent_snapshot o) NotReady (pools_updates o) (governance_updates o) (treasury_delta o).
Definition take_updates (o : StateOverlay) : StateOverlay :=
  mkStateOverlay (epoch o) (most_recent_snapshot o) (overlay_rewards o) None None (treasury_delta o).

(** The first transaction. *)
Definition end_epoch (o : StateOverlay) (db : Db) : exec StateError (StateOverlay * Db) :=
  let '(should_end_epoch, t) := try_epoch_transition None (Some EpochEnded) (tables db) in
  if should_end_epoch then
    match overlay_rewards o with
    | IsEffective effective_rewards =>
        t ← pay_rewards effective_rewards t;
        Ok (take_rewards o, mkDb (set_recently_pruned (pending_pruned o) t) (snapshots db))
    | NotReady | IsComputed _ => Err NoEffectiveRewards
    end
  else Ok (take_rewards o, mkDb t (snapshots db)).

(** The second one: the snapshot is of the store, without the writes of the transaction. *)
Definition take_snapshot {E : Type} (o : StateOverlay) (db : Db) : exec E (StateOverlay * Db) :=
  let '(should_snapshot, t) := try_epoch_transition (Some EpochEnded) (Some SnapshotTaken) (tables db) in
  if should_snapshot then
    ended ← u64_sub (epoch o) 1;
    Ok (mkStateOverlay (epoch o) (Some ended) (overlay_rewards o) (pools_updates o) (governance_updates o) (treasury_delta o),
        mkDb t (<[ended := tables db]> (snapshots db)))
  else Ok (o, mkDb t (snapshots db)).

(** The third one. *)
Definition begin_epoch {E : Type} (o : StateOverlay) (db : Db)
  : exec E (option (ProtocolParameters * Z * option (list Z)) * StateOverlay * Db) :=
  let '(should_begin_epoch, t) := try_epoch_transition (Some SnapshotTaken) None (tables db) in
  if should_begin_epoch then
    t ← prune_recently_unregistered_accounts (epoch o) t;
    let t := reset_blocks_count t in
    t ← reset_fees_and_donations t;
    t ← match pools_updates o with
        | Some u =>
            pay_or_refund_accounts (map_to_list (Pools.refunds u))
              (set_pools (Pools.update_or_retire_pools (Pools.updated u) (Pools.retired u) (db_pools t)) t)
        | None => Ok t
        end;
    r ← match governance_updates o with
        | Some u => r ← apply_governance_updates u t; Ok (Some r.1, r.2)
        | None => Ok (None, t)
        end;
    Ok (r.1, take_updates o, mkDb r.2 (snapshots db))
  else Ok (None, take_updates o, mkDb t (snapshots db)).

Definition apply (o : StateOverlay) (db : Db)
  : exec StateError (option (ProtocolParameters * Z * option (list Z)) * StateOverlay * Db) :=
  '(o, db) ← end_epoch o db;
  '(o, db) ← take_snapshot o db;
  '(updated, o, db) ← begin_epoch o db;
  Ok (updated, mkStateOverlay (epoch o) (most_recent_snapshot o) (overlay_rewards o) (pools_updates o) (governance_updates o) DeltaZero, db).
End Overlay.
