(* ===== verification/EpochGovernance.v ===== *)
(** * Properties of governance updates

    The updates computed at an epoch boundary ([GovernanceUpdates::new]) always exist,
    return the deposit of every proposal that leaves, and no other, and withdraw no
    more than the treasury holds. *)

From S2P Require Import Prelude EraHistory UplcSyntax ProtocolParameters Governance Summary StakeSummary StakeProps ProposalsTree ProposalsForest ForestProps Ratification RatificationProps EpochTransition.
Import GovernanceUpdates Forest.
#[local] Open Scope Z_scope.

(** ** Proposals in the forest *)

Lemma drain_one_adds h f id row f' : drain_one h f (id, row) = Ok f' →
  ∃ ctx, proposals f' = <[id := ctx]> (proposals f) ∧ ctx_valid_until ctx = cand_valid_until row.
Proof.
  unfold drain_one, insert. case_match; [done|]. intros (p & _ & H2)%bind_Ok. apply bind_Ok in H2 as (f1 & Hf1 & H2).
  apply bind_Ok in H2 as (seq & _ & H2). apply bind_Ok in H2 as (e & _ & [= <-]). cbn [proposals].
  assert (proposals f1 = proposals f) as ->; [|by eexists]. destruct (kind_of p); [|by injection Hf1 as <-].
  apply bind_Ok in Hf1 as (t & _ & [= <-]). done.
Qed.

Lemma for_in_drain_holds h l : ∀ f f', for_in l (drain_one h) f = Ok f' → NoDup (map fst l) →
  (∀ id, id ∉ map fst l → proposals f' !! id = proposals f !! id) ∧
  ∀ id row, (id, row) ∈ l → ∃ ctx, proposals f' !! id = Some ctx ∧ ctx_valid_until ctx = cand_valid_until row.
Proof.
  induction l as [|[i r] l IH]; intros f f' Hf Hnd; cbn [for_in] in Hf.
  { injection Hf as <-. split; [done|]. by intros ? ? ?%elem_of_nil. }
  apply bind_Ok in Hf as (f1 & H1 & Hf). cbn [map fst] in *. apply NoDup_cons in Hnd as [Hi Hnd].
  destruct (drain_one_adds h f i r f1 H1) as (c & Hc & Hv). destruct (IH f1 f' Hf Hnd) as [Hout Hin]. split.
  - intros id [Hne Hid]%not_elem_of_cons. by rewrite (Hout id Hid), Hc, lookup_insert_ne.
  - intros id row [[= -> ->]|Hrow]%elem_of_cons; [|by apply Hin]. exists c. split; [|done].
    by rewrite (Hout i Hi), Hc, lookup_insert_eq.
Qed.

Lemma insert_by_pointer_perm c l : insert_by_pointer c l ≡ₚ c :: l.
Proof. induction l as [|c' l IH]; cbn; [done|]. case_match; [done..|]. rewrite IH. apply Permutation_swap. Qed.
Lemma sort_by_pointer_perm l : sort_by_pointer l ≡ₚ l.
Proof. induction l as [|c l IH]; cbn; [done|]. by rewrite insert_by_pointer_perm, IH. Qed.

(** A proposal that expires leaves. *)
Lemma end_fold_keeps e l acc i : is_Some (acc !! i) → is_Some (foldl (end_one e) acc l !! i).
Proof.
  revert acc. induction l as [|[id ctx] l IH]; intros acc Hi; [done|]. cbn [foldl]. apply IH. unfold end_one.
  repeat case_match; try done; destruct (decide (id = i)) as [->|Hne]; by rewrite ?lookup_insert_eq, ?lookup_insert_ne.
Qed.
Lemma end_fold_expired e l acc id ctx : (id, ctx) ∈ l → ctx_valid_until ctx = e → is_Some (foldl (end_one e) acc l !! id).
Proof.
  revert acc. induction l as [|[i c] l IH]; intros acc Hin He; [by apply elem_of_nil in Hin|]. cbn [foldl].
  apply elem_of_cons in Hin as [[= -> ->]|Hin]; [|by apply IH]. apply end_fold_keeps. unfold end_one.
  by rewrite (proj2 (Z.eqb_eq _ _) He), lookup_insert_eq.
Qed.

Lemma expired_leaves `{S : UnstableSort} `{!UnstableSortLaws S} h l r c roots statuses c' : boundary_ok h l r c → NoDup (map fst l) →
  ratify_proposals h l r c = Ok (roots, statuses, c') → epoch c' = epoch c ∧
  ∀ id row, (id, row) ∈ l → cand_valid_until row = epoch c → is_Some (statuses !! id).
Proof.
  intros Hb Hnd Hr. destruct (ratify_round h l r c Hb) as (f & f' & c1 & Hd & Hl & Hinv & Hep).
  unfold ratify_proposals in Hr. rewrite Hd in Hr. cbn [map_err mbind exec_bind] in Hr. rewrite Hl in Hr. injection Hr as <- <- <-.
  split; [done|]. pose proof (li_epoch _ _ _ _ Hinv) as Hcur. intros id row Hin Hv.
  destruct (for_in_drain_holds h (sort_by_pointer l) _ f Hd) as [_ Hall]; [by rewrite sort_by_pointer_perm|].
  destruct (Hall id row) as (ctx & Hctx & Hvc); [by rewrite sort_by_pointer_perm|].
  unfold end_. destruct (li_kept _ _ _ _ Hinv id ctx Hctx) as [Hkept|Hp].
  - apply (end_fold_expired _ _ _ id ctx); [rewrite sort_perm; by apply elem_of_map_to_list|]. by rewrite Hvc, Hv, Hcur, Hep.
  - by apply end_fold_keeps.
Qed.

(** ** Deposits *)

(** What the proposals that leave had deposited. *)
Definition released_deposit (pruned : gmap ProposalId RatificationStatus) (p : ProposalId * ProposalMetadata) : Z :=
  match pruned !! p.1 with Some _ => deposit p.2 | None => 0 end.

Lemma settle_all {E : Type} e pruned l : ∀ w d, nonneg w → Forall (λ p, 0 <= deposit p.2) l → e + 2 <= u64_max →
  sum_amounts w + stake_of (λ p, deposit p.2) l <= u64_max → (∀ id p, (id, p) ∈ l → pruned !! id = None → valid_until p ≠ e) →
  ∃ w' d', for_in (E := E) l (settle_one e pruned) (w, d) = Ok (w', d') ∧ nonneg w' ∧
    sum_amounts w' = sum_amounts w + stake_of (released_deposit pruned) l.
Proof.
  induction l as [|[id p] l IH]; intros w d Hw Hl He Hmax Hexp; cbn [for_in].
  { exists w, d. split; [done|]. split; [done|]. change (stake_of (released_deposit pruned) []) with 0. lia. }
  apply Forall_cons in Hl as [Hp Hl]. rewrite !stake_of_cons in *. cbn [snd] in *. pose proof (stake_nonneg _ _ Hl).
  assert (∃ w1 d1, settle_one (E := E) e pruned (w, d) (id, p) = Ok (w1, d1) ∧ nonneg w1 ∧
    sum_amounts w1 = sum_amounts w + released_deposit pruned (id, p)) as (w1 & d1 & -> & Hw1 & Hs1).
  { unfold settle_one, released_deposit. cbn [fst snd]. destruct (pruned !! id) as [s|] eqn:Hid; cbn [is_some].
    - destruct (credit_one (E := E) w (return_account p, deposit p)) as (w1 & -> & Hw1 & Hs1 & _); [done|done|cbn [snd]; lia|].
      cbn [mbind exec_bind]. by exists w1, d.
    - rewrite (proj2 (Z.eqb_neq _ _)) by (intros ->; apply (Hexp id p); [left|done|done]).
      rewrite u64_add_le by lia. cbn [mbind exec_bind]. exists w. eexists. split; [done|]. split; [done|lia]. }
  assert (0 <= released_deposit pruned (id, p) <= deposit p) by (unfold released_deposit; cbn [fst snd]; case_match; lia).
  cbn [mbind exec_bind]. destruct (IH w1 d1) as (w2 & d2 & -> & Hw2 & Hs2); [done|done|done|lia|intros; eapply Hexp; [by right|done]|].
  exists w2, d2. split; [done|]. split; [done|]. lia.
Qed.

Lemma metadata_lookup (l : list (ProposalId * Stake.ProposalRow)) : NoDup (map fst l) → ∀ m : gmap ProposalId ProposalMetadata,
  (∀ id, id ∈ map fst l → m !! id = None) →
  map_to_list (foldl (λ m p, <[p.1 := metadata_of p.2]> m) m l) ≡ₚ map (λ p, (p.1, metadata_of p.2)) l ++ map_to_list m.
Proof.
  induction l as [|[id row] l IH]; intros Hnd m Hm; [done|]. cbn [map fst foldl] in *. apply NoDup_cons in Hnd as [Hid Hnd].
  rewrite IH; [|done|].
  - cbn [app]. rewrite map_to_list_insert by (apply Hm; left). cbn [snd]. by rewrite Permutation_middle.
  - intros i Hi. rewrite lookup_insert_ne by congruence. apply Hm. by right.
Qed.

(** What updates promise of the proposals they were computed from and the treasury. *)
Record updates_ok (proposals : gmap ProposalId Stake.ProposalRow) (treasury : Z) (u : GovernanceUpdates) : Prop := {
  uo_refunds : nonneg (deposit_refunds u);
  uo_released : sum_amounts (deposit_refunds u) =
    total (λ p, Stake.proposal_deposit (Stake.row_proposal p)) proposals -
    total (λ p, Stake.proposal_deposit (Stake.row_proposal p)) (filter (λ kv, pruned_proposals u !! kv.1 = None) proposals);
  uo_withdrawals : nonneg (treasury_withdrawals u);
  uo_treasury : sum_amounts (treasury_withdrawals u) <= treasury;
  uo_committee : ∀ removed added q, committee_update u = Some (ChangeMembers removed added q) → threshold_fits q }.

Abbreviation row_deposit := (λ p : Stake.ProposalRow, Stake.proposal_deposit (Stake.row_proposal p)).

Lemma total_filter {K A : Type} `{Countable K} (f : A → Z) (P : K * A → Prop) `{∀ x, Decision (P x)} (m : gmap K A) :
  total f (filter P m) = stake_of (λ kv, if decide (P kv) then f kv.2 else 0) (map_to_list m).
Proof.
  induction m as [|k a m Hk IH] using map_ind; [done|].
  rewrite (stake_of_perm _ _ _ (map_to_list_insert m k a Hk)), stake_of_cons, <- IH. case_decide as Hp.
  - rewrite map_filter_insert_True by done. by rewrite total_insert_new by (by apply map_lookup_filter_None; left).
  - rewrite map_filter_insert_False by done. by rewrite delete_id.
Qed.

(** Deposits that are returned are those of the proposals that leave. *)
Lemma released_total (pruned : gmap ProposalId RatificationStatus) (m : gmap ProposalId Stake.ProposalRow) l : l ≡ₚ map_to_list m →
  stake_of (released_deposit pruned) (map (λ p, (p.1, metadata_of p.2)) l) =
  total row_deposit m - total row_deposit (filter (λ kv, pruned !! kv.1 = None) m).
Proof.
  intros Hl. rewrite stake_of_map, total_filter, (stake_of_perm _ _ _ Hl). unfold total.
  assert (stake_of (λ kv, row_deposit kv.2) (map_to_list m) =
    stake_of (λ kv, released_deposit pruned (kv.1, metadata_of kv.2)) (map_to_list m) +
    stake_of (λ kv, if decide (pruned !! kv.1 = None) then row_deposit kv.2 else 0) (map_to_list m)) as ->; [|lia].
  rewrite <- stake_of_plus. apply stake_of_ext. intros [id row] _. unfold released_deposit. cbn [fst snd].
  destruct (pruned !! id); [rewrite decide_False by done|rewrite decide_True by done]; cbn; lia.
Qed.

(** Governance updates are always computed. *)
Lemma governance_updates_ok `{S : UnstableSort} `{!UnstableSortLaws S} h roots (l : list (ProposalId * Stake.ProposalRow)) m c :
  l ≡ₚ map_to_list m → map_Forall (λ _ p, 0 <= row_deposit p) m → total row_deposit m <= u64_max →
  boundary_ok h (map (λ p, (p.1, candidate_from p.2)) l) roots c →
  ∃ u, GovernanceUpdates_new roots l h c = Ok u ∧ updates_ok m (ctx_treasury c) u.
Proof.
  intros Hl Hpos Hmax Hb. assert (NoDup (map fst l)) as Hnd by (rewrite Hl; apply NoDup_fst_map_to_list).
  destruct (ratification_runs h _ roots c Hb) as (r' & statuses & c' & Hr & Hw & Hsum & Hup).
  destruct (expired_leaves h _ roots c r' statuses c' Hb) as [Hep Hexp]; [by rewrite map_map|done|].
  unfold GovernanceUpdates_new. rewrite Hr. cbn [mbind exec_bind].
  pose proof (metadata_lookup l Hnd ∅ ltac:(done)) as Hmeta. rewrite map_to_list_empty, app_nil_r in Hmeta.
  set (metadata := foldl _ ∅ l) in *. pose proof (bo_context _ _ _ _ Hb) as [_ _ _ _ [He0 He1]].
  assert (stake_of (λ p, deposit p.2) (map_to_list metadata) = total row_deposit m) as Hdep.
  { rewrite (stake_of_perm _ _ _ Hmeta), stake_of_map, (stake_of_perm _ _ _ Hl). done. }
  destruct (settle_all (E := RatificationInternalError) (epoch c') statuses (map_to_list metadata) ∅ true)
    as (w & d & -> & Hw' & Hs).
  - apply map_Forall_empty.
  - rewrite Hmeta, Hl. apply Forall_map. by apply (Forall_values (λ p, 0 <= row_deposit p)).
  - rewrite Hep. unfold u32_max in He1. lia.
  - unfold sum_amounts. rewrite total_empty, Hdep. lia.
  - intros id p Hin Hnone Hv. rewrite Hmeta in Hin. apply list_elem_of_fmap in Hin as ([i row] & [= -> ->] & Hin).
    destruct (Hexp i (candidate_from row)) as [s Hs]; [|by rewrite <- Hep|congruence].
    apply list_elem_of_fmap. by exists (i, row).
  - cbn [mbind exec_bind]. eexists. split; [done|]. split; cbn [deposit_refunds treasury_withdrawals pruned_proposals committee_update fst snd].
    + done.
    + rewrite Hs, (stake_of_perm _ _ _ Hmeta), (released_total statuses m l Hl). unfold sum_amounts. rewrite total_empty. lia.
    + done.
    + done.
    + done.
Qed.
