(* ===== verification/EpochProps.v ===== *)
(** * Properties of the transition between epochs

    No lovelace is created or lost when an epoch ends: what the accounts, the pots and
    the deposits hold changes exactly by the fees that are set aside for the next
    rewards, and those set aside before.  What the overlay reports before it is flushed
    is what flushing it writes, and a transition that is interrupted between two of its
    transactions is taken up where it was left. *)

From Stdlib Require Import QArith.
From S2P Require Import Prelude EraHistory UplcSyntax SortedPairs ProtocolParameters Governance Summary PoolsUpdates StakeSummary StakeProps Rewards RewardsProps ProposalsForest ForestProps Ratification RatificationProps EpochTransition.
Import RewardsState Store.
Import Stake(AccountRow, arow_rewards).
#[local] Open Scope Z_scope.

(** ** Sums *)

Lemma u64_sum_ok {E : Type} l : ∀ n, Forall (λ x, 0 <= x) l → n + stake_of (λ x, x) l <= u64_max →
  for_in (E := E) l u64_add n = Ok (n + stake_of (λ x, x) l).
Proof.
  induction l as [|x l IH]; intros n Hl Hmax; cbn [for_in].
  { by rewrite Z.add_0_r. }
  apply Forall_cons in Hl as [Hx Hl]. rewrite stake_of_cons in *. pose proof (stake_nonneg (λ x, x) l Hl).
  rewrite u64_add_le by lia. cbn [mbind exec_bind]. rewrite IH by (done || lia). f_equal. lia.
Qed.

Lemma map_snd_sum (w : gmap Credential Z) : stake_of (λ x, x) (map snd (map_to_list w)) = sum_amounts w.
Proof. rewrite stake_of_map. done. Qed.
Lemma map_snd_nonneg (w : gmap Credential Z) : nonneg w → Forall (λ x, 0 <= x) (map snd (map_to_list w)).
Proof. intros Hw. apply Forall_map. by apply (Forall_values (λ n, 0 <= n)). Qed.
Lemma payouts_nonneg (w : gmap Credential Z) : nonneg w → Forall (λ x : Credential * Z, 0 <= x.2) (map_to_list w).
Proof. apply (Forall_values (λ n, 0 <= n)). Qed.

Lemma sum_amounts_nonneg (w : gmap Credential Z) : nonneg w → 0 <= sum_amounts w.
Proof. apply total_nonneg. Qed.

(** The part of a payment an account receives from a table of payments. *)
Lemma paid_to_amount (w : gmap Credential Z) k : stake_of (paid_to k) (map_to_list w) = amount_of w k.
Proof.
  induction w as [|c n w Hc IH] using map_ind; [unfold amount_of; by rewrite map_to_list_empty, lookup_empty|].
  rewrite (stake_of_perm _ _ _ (map_to_list_insert w c n Hc)), stake_of_cons, IH. unfold paid_to, amount_of. cbn [fst snd].
  case_decide as Hk; [subst k; rewrite lookup_insert_eq, Hc; cbn; lia|]. by rewrite lookup_insert_ne.
Qed.

(** Sums over the keys of a table. *)
Definition over {A : Type} (f : Credential → Z) (m : gmap Credential A) : Z := stake_of (λ kv, f kv.1) (map_to_list m).
Lemma over_insert {A : Type} f (m : gmap Credential A) k a : m !! k = None → over f (<[k := a]> m) = f k + over f m.
Proof. intros Hk. unfold over. by rewrite (stake_of_perm _ _ _ (map_to_list_insert m k a Hk)). Qed.
Lemma over_plus {A : Type} f g (m : gmap Credential A) : over (λ k, f k + g k) m = over f m + over g m.
Proof. unfold over. by rewrite stake_of_plus. Qed.
Lemma over_ext {A : Type} f g (m : gmap Credential A) : (∀ k, is_Some (m !! k) → f k = g k) → over f m = over g m.
Proof.
  intros Hfg. apply stake_of_ext. intros [k a] Hin. apply Hfg. apply elem_of_map_to_list in Hin. cbn in *. by rewrite Hin.
Qed.
Lemma over_0 {A : Type} (m : gmap Credential A) : over (λ _, 0) m = 0.
Proof. apply stake_of_0. Qed.
Lemma over_one {A : Type} c n (m : gmap Credential A) :
  over (λ k, if decide (c = k) then n else 0) m = match m !! c with Some _ => n | None => 0 end.
Proof.
  induction m as [|k a m Hk IH] using map_ind; [by rewrite lookup_empty|]. rewrite over_insert, IH by done.
  destruct (decide (c = k)) as [->|Hne].
  - rewrite lookup_insert_eq, Hk. lia.
  - rewrite lookup_insert_ne by done. lia.
Qed.

(** ** Accounts that are paid *)

(** Every account, with what it is paid added to its rewards. *)
Definition credited (f : Credential → Z) (accounts : gmap Credential AccountRow) : gmap Credential AccountRow :=
  map_imap (λ c row, Some (add_rewards (arow_rewards row + f c) row)) accounts.

Lemma credited_lookup f accounts c : credited f accounts !! c = (λ row, add_rewards (arow_rewards row + f c) row) <$> accounts !! c.
Proof. unfold credited. rewrite map_lookup_imap. by destruct (accounts !! c). Qed.
Lemma add_rewards_same row : add_rewards (arow_rewards row) row = row.
Proof. by destruct row. Qed.
Lemma credited_ext f g accounts : (∀ c, is_Some (accounts !! c) → f c = g c) → credited f accounts = credited g accounts.
Proof.
  intros Hfg. apply map_eq. intros c. rewrite !credited_lookup. destruct (accounts !! c) as [row|] eqn:Hc; [|done]. cbn.
  by rewrite Hfg by (by rewrite Hc).
Qed.
Lemma credited_0 accounts : credited (λ _, 0) accounts = accounts.
Proof.
  apply map_eq. intros c. rewrite credited_lookup. destruct (accounts !! c) as [row|]; [|done]. cbn.
  by rewrite Z.add_0_r, add_rewards_same.
Qed.
Lemma credited_credited f g accounts : credited g (credited f accounts) = credited (λ c, f c + g c) accounts.
Proof.
  apply map_eq. intros c. rewrite !credited_lookup. destruct (accounts !! c) as [row|]; [|done]. cbn. f_equal.
  unfold add_rewards. cbn. f_equal. lia.
Qed.
Lemma credited_insert f accounts c row : credited f (<[c := row]> accounts) =
  <[c := add_rewards (arow_rewards row + f c) row]> (credited f accounts).
Proof.
  apply map_eq. intros k. rewrite credited_lookup. destruct (decide (c = k)) as [->|Hne].
  - by rewrite !lookup_insert_eq.
  - by rewrite !lookup_insert_ne, credited_lookup.
Qed.
Lemma credited_total f accounts : total arow_rewards (credited f accounts) = total arow_rewards accounts + over f accounts.
Proof.
  induction accounts as [|c row m Hc IH] using map_ind; [done|].
  rewrite credited_insert, !total_insert_new, over_insert, IH by (done || by rewrite credited_lookup, Hc). cbn. lia.
Qed.
Lemma credited_one accounts c row n : accounts !! c = Some row →
  <[c := add_rewards (arow_rewards row + n) row]> accounts = credited (λ k, if decide (c = k) then n else 0) accounts.
Proof.
  intros Hc. apply map_eq. intros k. rewrite credited_lookup. destruct (decide (c = k)) as [<-|Hne].
  - by rewrite lookup_insert_eq, Hc.
  - rewrite lookup_insert_ne by done. destruct (accounts !! k) as [r|]; [|done]. cbn. by rewrite Z.add_0_r, add_rewards_same.
Qed.
Lemma credited_gone accounts c n : accounts !! c = None → credited (λ k, if decide (c = k) then n else 0) accounts = accounts.
Proof.
  intros Hc. rewrite <- (credited_0 accounts) at 2. apply credited_ext. intros k [row Hk]. rewrite decide_False; [done|].
  intros ->. by rewrite Hc in Hk.
Qed.
Lemma credited_nonneg f accounts : map_Forall (λ _ a, 0 <= arow_rewards a) accounts → (∀ c, 0 <= f c) →
  map_Forall (λ _ a, 0 <= arow_rewards a) (credited f accounts).
Proof.
  intros Ha Hf c row. rewrite credited_lookup. intros (r & Hr & ->)%fmap_Some. apply Ha in Hr. specialize (Hf c). cbn in *. lia.
Qed.

(** ** Refunds *)

(** What an account receives of a payment, or the treasury when it is gone. *)
Definition received (accounts : gmap Credential AccountRow) (x : Credential * Z) : Z :=
  match accounts !! x.1 with Some _ => x.2 | None => 0 end.
Definition forfeited (accounts : gmap Credential AccountRow) (x : Credential * Z) : Z :=
  match accounts !! x.1 with Some _ => 0 | None => x.2 end.

Lemma received_forfeited accounts l : stake_of (received accounts) l + stake_of (forfeited accounts) l = stake_of snd l.
Proof.
  rewrite <- stake_of_plus. apply stake_of_ext. intros x _. unfold received, forfeited. destruct (accounts !! x.1); lia.
Qed.
Lemma forfeited_nonneg accounts l : Forall (λ x : Credential * Z, 0 <= x.2) l → 0 <= stake_of (forfeited accounts) l.
Proof. intros Hl. apply stake_nonneg. eapply Forall_impl; [exact Hl|]. intros x Hx. cbn in Hx. unfold forfeited. case_match; lia. Qed.
Lemma received_nonneg accounts l : Forall (λ x : Credential * Z, 0 <= x.2) l → 0 <= stake_of (received accounts) l.
Proof. intros Hl. apply stake_nonneg. eapply Forall_impl; [exact Hl|]. intros x Hx. cbn in Hx. unfold received. case_match; lia. Qed.
Lemma over_paid accounts l : over (λ c, stake_of (paid_to c) l) accounts = stake_of (received accounts) l.
Proof.
  induction l as [|[c n] l IH]; [apply over_0|]. rewrite stake_of_cons, <- IH.
  rewrite (over_ext _ (λ k, (if decide (c = k) then n else 0) + stake_of (paid_to k) l)) by (intros; by rewrite stake_of_cons).
  by rewrite over_plus, over_one.
Qed.
Lemma paid_to_nonneg l c : Forall (λ x : Credential * Z, 0 <= x.2) l → 0 <= stake_of (paid_to c) l.
Proof. intros Hl. apply stake_nonneg. eapply Forall_impl; [exact Hl|]. intros x Hx. cbn in Hx. unfold paid_to. case_decide; lia. Qed.
Lemma received_credited f accounts x : received (credited f accounts) x = received accounts x.
Proof. unfold received. rewrite credited_lookup. by destruct (accounts !! x.1). Qed.
Lemma forfeited_credited f accounts x : forfeited (credited f accounts) x = forfeited accounts x.
Proof. unfold forfeited. rewrite credited_lookup. by destruct (accounts !! x.1). Qed.

Abbreviation solvent_rows m := (map_Forall (λ _ a, 0 <= arow_rewards a) m).

Lemma refund_ok {E : Type} c n t : solvent_rows (db_accounts t) → 0 <= n → total arow_rewards (db_accounts t) + n <= u64_max →
  refund (E := E) c n t = Ok (forfeited (db_accounts t) (c, n),
    set_accounts (credited (λ k, if decide (c = k) then n else 0) (db_accounts t)) t).
Proof.
  intros Hs Hn Hmax. unfold refund, forfeited. cbn [fst snd]. destruct (db_accounts t !! c) as [row|] eqn:Hc.
  - pose proof (total_lookup arow_rewards _ c row Hs Hc). rewrite u64_add_le by lia. cbn [mbind exec_bind].
    by rewrite (credited_one _ _ _ _ Hc).
  - rewrite credited_gone by done. by destruct t.
Qed.

Lemma refund_all {E : Type} l : ∀ lo pd t, solvent_rows (db_accounts t) → Forall (λ x : Credential * Z, 0 <= x.2) l → 0 <= lo → 0 <= pd →
  total arow_rewards (db_accounts t) + stake_of snd l <= u64_max → lo + stake_of snd l <= u64_max → pd + stake_of snd l <= u64_max →
  for_in (E := E) l refund_one (lo, pd, t) = Ok (lo + stake_of (forfeited (db_accounts t)) l, pd + stake_of snd l,
    set_accounts (credited (λ c, stake_of (paid_to c) l) (db_accounts t)) t).
Proof.
  induction l as [|[c n] l IH]; intros lo pd t Hs Hl Hlo Hpd Hmt Hml Hmp; cbn [for_in].
  { change (stake_of (forfeited (db_accounts t)) []) with 0. change (stake_of (@snd Credential Z) []) with 0.
    rewrite !Z.add_0_r. rewrite (credited_ext _ (λ _, 0)) by done. rewrite credited_0. by destruct t. }
  apply Forall_cons in Hl as [Hn Hl]. rewrite !stake_of_cons in *. cbn [snd fst] in *.
  pose proof (stake_nonneg _ _ Hl) as Hpos. unfold refund_one at 2. cbn [fst snd]. rewrite refund_ok by (done || lia).
  assert (0 <= forfeited (db_accounts t) (c, n) <= n) as Hf by (unfold forfeited; case_match; cbn; lia).
  assert (0 <= received (db_accounts t) (c, n) <= n) as Hr by (unfold received; case_match; cbn; lia).
  cbn [mbind exec_bind fst snd]. rewrite u64_add_le by lia. cbn [mbind exec_bind]. rewrite u64_add_le by lia. cbn [mbind exec_bind].
  rewrite IH; cbn [db_accounts set_accounts]; [| |done|lia|lia| |lia|lia].
  - f_equal. f_equal; [f_equal; [|lia]|].
    + rewrite (stake_of_ext _ (forfeited (db_accounts t))) by (intros; apply forfeited_credited). lia.
    + rewrite credited_credited. unfold set_accounts. cbn. f_equal.
  - apply credited_nonneg; [done|]. intros k. case_decide; lia.
  - rewrite credited_total, over_one. unfold received in Hr. cbn [fst snd] in Hr. destruct (db_accounts t !! c); lia.
Qed.

Definition set_treasury (n : Z) (t : Tables) : Tables := set_pots (set_pot_treasury n (db_pots t)) t.

(** Refunds go to the accounts, or to the treasury. *)
Lemma pay_or_refund_ok {E : Type} l t : solvent_rows (db_accounts t) → Forall (λ x : Credential * Z, 0 <= x.2) l →
  total arow_rewards (db_accounts t) + stake_of snd l <= u64_max → 0 <= treasury (db_pots t) →
  treasury (db_pots t) + stake_of snd l <= u64_max →
  pay_or_refund_accounts (E := E) l t = Ok (set_treasury (treasury (db_pots t) + stake_of (forfeited (db_accounts t)) l)
    (set_accounts (credited (λ c, stake_of (paid_to c) l) (db_accounts t)) t)).
Proof.
  intros Hs Hl Hmt H0 Hmp. pose proof (stake_nonneg _ _ Hl). pose proof (forfeited_nonneg (db_accounts t) l Hl).
  pose proof (received_nonneg (db_accounts t) l Hl). pose proof (received_forfeited (db_accounts t) l).
  pose proof (total_nonneg arow_rewards _ Hs).
  unfold pay_or_refund_accounts. rewrite refund_all by (done || lia). cbn [mbind exec_bind]. rewrite !Z.add_0_l.
  unfold u64_sub. rewrite (proj2 (Z.leb_le _ _)) by lia. cbn [mbind exec_bind]. unfold set_treasury.
  destruct (Z.ltb_spec 0 (stake_of (forfeited (db_accounts t)) l)).
  - cbn [db_pots set_accounts]. rewrite u64_add_le by lia. done.
  - replace (stake_of (forfeited (db_accounts t)) l) with 0 by lia. rewrite Z.add_0_r. f_equal. by destruct t as [? ? ? []].
Qed.

(** ** Paying rewards *)

Lemma stake_of_incl {A : Type} `{EqDecision A} (f : A → Z) l K : NoDup l → NoDup K → l ⊆ K →
  stake_of f l = stake_of (λ c, if decide (c ∈ l) then f c else 0) K.
Proof.
  intros Hl HK Hsub. destruct (submseteq_Permutation l K (NoDup_submseteq l K Hl Hsub)) as [k Hk].
  rewrite (stake_of_perm _ _ _ Hk), stake_of_app. rewrite Hk in HK. apply NoDup_app in HK as (_ & Hdis & _).
  rewrite (stake_of_ext (λ c, if decide (c ∈ l) then f c else 0) f l) by (intros; by rewrite decide_True).
  rewrite (stake_of_ext (λ c, if decide (c ∈ l) then f c else 0) (λ _, 0) k), stake_of_0; [lia|]. intros c Hc. rewrite decide_False; [done|]. intros Hin. by apply (Hdis c).
Qed.

Lemma over_keys {A : Type} f (m : gmap Credential A) : over f m = stake_of f (elements (dom m)).
Proof.
  unfold over. rewrite <- (stake_of_map f fst). apply stake_of_perm.
  apply NoDup_Permutation; [apply NoDup_fst_map_to_list|apply NoDup_elements|]. intros k.
  rewrite elem_of_elements, elem_of_dom. split.
  - intros ([k' a] & -> & Hin%elem_of_map_to_list)%list_elem_of_fmap. cbn [fst]. by rewrite Hin.
  - intros [a Ha]. apply list_elem_of_fmap. exists (k, a). split; [done|]. by apply elem_of_map_to_list.
Qed.

(** Rewards that can be paid to the accounts of the store: those that cannot are the
    ones whose account does not exist. *)
Record payable (r : Effective) (rows : gmap Credential AccountRow) : Prop := {
  py_sorted : SortedPairs.ascending (accounts r);
  py_nonneg : granted_ok (accounts r);
  py_total : granted (accounts r) = total_rewards r;
  py_unclaimed : ∀ c, c ∈ unclaimed r ↔ 0 < owed (accounts r) c ∧ rows !! c = None }.

Lemma owed_nonneg l c : SortedPairs.ascending l → granted_ok l → 0 <= owed l c.
Proof.
  intros Hl Hg. unfold owed. destruct (SortedPairs.get c l) as [a|] eqn:Ha; cbn; [|done]. apply get_account in Ha; [|done].
  rewrite Forall_forall in Hg. by apply Hg in Ha.
Qed.
Lemma owed_total l : SortedPairs.ascending l → granted l = stake_of (owed l) (elements (dom (SortedPairs.to_map l))).
Proof.
  intros Hl. rewrite (stake_of_to_map rewards l Hl). rewrite <- over_keys. unfold over, total. apply stake_of_ext.
  intros [c a] Hin%elem_of_map_to_list. unfold owed. cbn [fst snd]. by rewrite SortedPairs.get_to_map, Hin.
Qed.
Lemma reward_of_nonneg r rows c : payable r rows → 0 <= reward_of c r.
Proof. intros [Hl Hg _ _]. unfold reward_of. case_decide; [done|]. by apply owed_nonneg. Qed.

Abbreviation lost_rewards r := (stake_of (owed (accounts r)) (elements (unclaimed r))).

Lemma rewards_split r rows : payable r rows → over (λ c, reward_of c r) rows + lost_rewards r = total_rewards r.
Proof.
  intros Hp. pose proof Hp as [Hl Hg <- Hu]. rewrite (owed_total _ Hl), over_keys. set (w := SortedPairs.to_map (accounts r)).
  set (K := elements (dom rows ∪ unclaimed r ∪ dom w)). pose proof (NoDup_elements (dom rows ∪ unclaimed r ∪ dom w)) as HK.
  fold K in HK. pose proof (λ f (X : gset Credential) Hs, stake_of_incl f (elements X) K (NoDup_elements X) HK Hs) as Hincl.
  rewrite (Hincl _ (dom rows)), (Hincl _ (unclaimed r)), (Hincl _ (dom w)) by set_solver.
  rewrite <- stake_of_plus. apply stake_of_ext. intros c _.
  assert (c ∉ dom w → owed (accounts r) c = 0) as Hnot.
  { intros Hc%not_elem_of_dom. unfold owed. rewrite SortedPairs.get_to_map by done. fold w. by rewrite Hc. }
  pose proof (owed_nonneg _ c Hl Hg) as Ho. rewrite !(decide_ext _ _ _ _ (elem_of_elements _ _)).
  unfold reward_of. specialize (Hu c). destruct (decide (c ∈ unclaimed r)) as [Hc|Hc].
  - apply Hu in Hc as [Hpos Hnone]. rewrite (decide_False (P := c ∈ dom rows)) by (by apply not_elem_of_dom).
    destruct (decide (c ∈ dom w)); [lia|]. rewrite Hnot by done. lia.
  - destruct (decide (c ∈ dom rows)) as [Hd|Hd]; [destruct (decide (c ∈ dom w)); [lia|]; rewrite Hnot by done; lia|].
    apply not_elem_of_dom in Hd. assert (owed (accounts r) c = 0) as H0 by (apply Z.le_antisymm; [|done]; apply Z.nlt_ge; tauto).
    rewrite H0. by destruct (decide (c ∈ dom w)).
Qed.

Lemma lost_rewards_ok {E : Type} r rows : payable r rows → total_rewards r <= u64_max →
  total_unclaimed_rewards (E := E) r = Ok (lost_rewards r) ∧ 0 <= lost_rewards r <= total_rewards r.
Proof.
  intros Hp Hmax. pose proof (rewards_split r rows Hp) as Hs. pose proof Hp as [Hl Hg _ Hu].
  assert (0 <= over (λ c, reward_of c r) rows) by (apply stake_nonneg, Forall_forall; intros; by eapply reward_of_nonneg).
  assert (Forall (λ c, 0 <= owed (accounts r) c) (elements (unclaimed r))) as Hpos
    by (apply Forall_forall; intros; by apply owed_nonneg).
  pose proof (stake_nonneg _ _ Hpos). split; [|lia]. unfold total_unclaimed_rewards, u64_sum.
  assert (omap (λ c, rewards <$> SortedPairs.get c (accounts r)) (elements (unclaimed r)) =
    map (owed (accounts r)) (elements (unclaimed r))) as ->.
  { assert (∀ c, c ∈ elements (unclaimed r) → is_Some (SortedPairs.get c (accounts r))) as Hsome.
    { intros c Hc%elem_of_elements%Hu. destruct Hc as [Hc _]. unfold owed in Hc.
      destruct (SortedPairs.get c (accounts r)); [done|cbn in Hc; lia]. }
    clear - Hsome. induction (elements (unclaimed r)) as [|c l IH]; [done|]. cbn [omap list_omap map].
    destruct (Hsome c ltac:(left)) as [a Ha]. unfold owed at 1. rewrite Ha. cbn. f_equal. apply IH. intros. apply Hsome. by right. }
  assert (stake_of (λ x, x) (map (owed (accounts r)) (elements (unclaimed r))) = lost_rewards r) as Hsum by (by rewrite stake_of_map).
  rewrite u64_sum_ok; rewrite ?Hsum; [done|by apply Forall_map|lia].
Qed.

(** The loop over the accounts. *)
Lemma pay_accounts_ok {E : Type} r rows : payable r rows → solvent_rows rows → total arow_rewards rows + total_rewards r <= u64_max →
  ∀ l paid m, NoDup (map fst l) → (∀ c row, (c, row) ∈ l → rows !! c = Some row ∧ m !! c = Some row) → 0 <= paid →
  paid + stake_of (λ a, reward_of a.1 r) l <= u64_max →
  for_in (E := E) l (pay_account r) (paid, m) = Ok (paid + stake_of (λ a, reward_of a.1 r) l,
    credited (λ c, if decide (c ∈ map fst l) then reward_of c r else 0) m).
Proof.
  intros Hp Hs Hmax. induction l as [|[c row] l IH]; intros paid m Hnd Hin H0 Hm; cbn [for_in].
  { change (stake_of _ []) with 0. rewrite Z.add_0_r, (credited_ext _ (λ _, 0)), credited_0; [done|]. intros k _.
    by rewrite decide_False by (apply not_elem_of_nil). }
  cbn [map fst] in Hnd. apply NoDup_cons in Hnd as [Hc Hnd]. rewrite stake_of_cons in *. cbn [fst] in *.
  assert (0 <= stake_of (λ a : Credential * AccountRow, reward_of a.1 r) l) as Hpos
    by (apply stake_nonneg, Forall_forall; intros; by eapply reward_of_nonneg).
  pose proof (reward_of_nonneg r rows c Hp) as Hrc. destruct (Hin c row ltac:(left)) as [Hrow Hmc].
  assert (pay_account (E := E) r (paid, m) (c, row) =
    Ok (paid + reward_of c r, credited (λ k, if decide (c = k) then reward_of c r else 0) m)) as ->.
  { unfold pay_account. destruct (Z.ltb_spec 0 (reward_of c r)).
    - rewrite (u64_add_le paid) by lia. cbn [mbind exec_bind]. pose proof (total_lookup arow_rewards rows c row Hs Hrow).
      assert (reward_of c r <= total_rewards r) as Hle.
      { rewrite <- (rewards_split r rows Hp). pose proof (stake_of_elem (λ kv, reward_of kv.1 r) (map_to_list rows) (c, row)
          ltac:(apply Forall_forall; intros; by eapply reward_of_nonneg) ltac:(by apply elem_of_map_to_list)) as Hle.
        unfold over. cbn [fst] in Hle. pose proof (stake_nonneg (owed (accounts r)) (elements (unclaimed r))
          ltac:(apply Forall_forall; intros; apply owed_nonneg; apply Hp)). lia. }
      rewrite u64_add_le by lia. cbn [mbind exec_bind]. by rewrite (credited_one _ _ _ _ Hmc).
    - replace (reward_of c r) with 0 by lia. rewrite Z.add_0_r, (credited_ext _ (λ _, 0)), credited_0; [done|].
      intros k _. by case_decide. }
  cbn [mbind exec_bind]. rewrite IH; [|done| |lia|lia].
  - f_equal. f_equal; [lia|]. rewrite credited_credited. apply credited_ext. intros k _. destruct (decide (c = k)) as [<-|Hne].
    + rewrite (decide_False (P := c ∈ map fst l)), decide_True by (done || left). lia.
    + rewrite Z.add_0_l. apply decide_ext. cbn [map fst]. rewrite elem_of_cons. naive_solver.
  - intros k x Hx. destruct (Hin k x ltac:(by right)) as [Hk Hkm]. split; [done|]. rewrite credited_lookup, Hkm. cbn.
    rewrite decide_False; [by rewrite Z.add_0_r, add_rewards_same|]. intros ->. apply Hc, list_elem_of_fmap. by exists (k, x).
Qed.

(** Paying the rewards goes through, and pays exactly what was computed. *)
Lemma pay_rewards_ok {E : Type} r t : payable r (db_accounts t) → solvent_rows (db_accounts t) →
  total arow_rewards (db_accounts t) + total_rewards r <= u64_max → 0 <= delta_treasury r →
  delta_treasury r + total_rewards r <= u64_max → 0 <= treasury (db_pots t) →
  treasury (db_pots t) + delta_treasury r + total_rewards r <= u64_max →
  delta_reserves r <= reserves (db_pots t) →
  pay_rewards (E := E) r t = Ok (set_pots (mkPots (treasury (db_pots t) + (delta_treasury r + lost_rewards r))
      (reserves (db_pots t) - delta_reserves r) (fees (db_pots t)) (donations (db_pots t)))
    (set_accounts (credited (λ c, reward_of c r) (db_accounts t)) t)) ∧
  effective_delta_treasury (E := E) r = Ok (delta_treasury r + lost_rewards r) ∧ 0 <= lost_rewards r <= total_rewards r.
Proof.
  intros Hp Hs Hmax H0 Hm1 Ht0 Hm2 Hres. pose proof (rewards_split r _ Hp) as Hsplit.
  pose proof (total_nonneg arow_rewards _ Hs) as Hpos. destruct (lost_rewards_ok (E := E) r _ Hp ltac:(lia)) as [Hlost Hl].
  assert (effective_delta_treasury (E := E) r = Ok (delta_treasury r + lost_rewards r)) as Hdt.
  { unfold effective_delta_treasury. rewrite Hlost. cbn [mbind exec_bind]. by rewrite u64_add_le by lia. }
  split; [|split; [done|lia]]. unfold pay_rewards.
  rewrite (pay_accounts_ok (E := E) r (db_accounts t) Hp Hs Hmax); [|apply NoDup_fst_map_to_list| |done|].
  - cbn [mbind exec_bind]. rewrite Hlost. cbn [mbind exec_bind]. fold (over (λ c, reward_of c r) (db_accounts t)). rewrite Z.add_0_l.
    rewrite u64_add_le by lia. cbn [mbind exec_bind]. rewrite Hsplit, Z.eqb_refl, Hdt. cbn [mbind exec_bind].
    rewrite u64_add_le by lia. cbn [mbind exec_bind]. unfold u64_sub. rewrite (proj2 (Z.leb_le _ _) Hres). cbn [mbind exec_bind].
    do 3 f_equal. apply credited_ext. intros c Hc. rewrite decide_True; [done|]. destruct Hc as [row Hc].
    apply list_elem_of_fmap. exists (c, row). split; [done|]. by apply elem_of_map_to_list.
  - intros c row Hin%elem_of_map_to_list. done.
  - fold (over (λ c, reward_of c r) (db_accounts t)). lia.
Qed.
