(* ===== verification/EpochBoundary.v ===== *)
(** * Crossing the boundary of an epoch

    The whole transition: computed when the first block of an epoch arrives, kept in
    the overlay, and flushed to the store in three transactions once it is stable. *)

From Stdlib Require Import QArith.
From S2P Require Import Prelude EraHistory UplcSyntax SortedPairs ProtocolParameters Governance Summary PoolsUpdates StakeSummary StakeProps Rewards RewardsProps ProposalsForest ForestProps Ratification RatificationProps EpochTransition EpochGovernance EpochProps.
Import RewardsState GovernanceUpdates Store Overlay.
Import Stake(AccountRow, arow_rewards).
#[local] Open Scope Z_scope.

(** ** Beginning of an epoch *)

(** What the store holds: rewards of accounts, pots, deposits of pools and proposals. *)
Definition ada (t : Tables) : Z :=
  total arow_rewards (db_accounts t) + treasury (db_pots t) + reserves (db_pots t) + fees (db_pots t) + donations (db_pots t) +
  total Pools.deposit (db_pools t) + total row_deposit (db_proposals t).

Record tables_ok (t : Tables) : Prop := {
  to_accounts : solvent_rows (db_accounts t);
  to_treasury : 0 <= treasury (db_pots t);
  to_reserves : 0 <= reserves (db_pots t);
  to_fees : 0 <= fees (db_pots t);
  to_donations : 0 <= donations (db_pots t);
  to_pools : map_Forall (λ _ p, 0 <= Pools.deposit p) (db_pools t);
  to_proposals : map_Forall (λ _ p, 0 <= row_deposit p) (db_proposals t);
  to_unregistered : map_Forall (λ _ at_, at_ + 3 <= u64_max) (recently_unregistered t);
  to_dormant : consecutive_dormant_epochs t + 1 <= Store.u32_max }.

(** Refunds of pools: what the retired ones had deposited. *)
Record pools_ok (pools : gmap PoolId Pools.Pool) (u : Pools.PoolsEpochTransitionUpdates) : Prop := {
  po_refunds : nonneg (Pools.refunds u);
  po_kept : 0 <= total Pools.deposit (Pools.update_or_retire_pools (Pools.updated u) (Pools.retired u) pools);
  po_released : total Pools.deposit (Pools.update_or_retire_pools (Pools.updated u) (Pools.retired u) pools) +
    sum_amounts (Pools.refunds u) = total Pools.deposit pools }.

(** What an account receives from the updates, and what the treasury does. *)
Definition payments (pu : Pools.PoolsEpochTransitionUpdates) (gu : GovernanceUpdates) (c : Credential) : Z :=
  amount_of (Pools.refunds pu) c + amount_of (deposit_refunds gu) c + amount_of (treasury_withdrawals gu) c.
Definition leftovers (pu : Pools.PoolsEpochTransitionUpdates) (gu : GovernanceUpdates) (rows : gmap Credential AccountRow) : Z :=
  stake_of (forfeited rows) (map_to_list (Pools.refunds pu) ++ map_to_list (deposit_refunds gu) ++ map_to_list (treasury_withdrawals gu)).

Lemma committee_ok {E : Type} u t : (∀ removed added q, u = Some (ChangeMembers removed added q) → threshold_fits q) →
  ∃ m st, update_constitutional_committee (E := E) u t = Ok (set_cc m st t).
Proof.
  intros Hu. unfold update_constitutional_committee. destruct u as [[|removed added q]|].
  - eexists _, _. done.
  - destruct (Hu removed added q eq_refl) as [[H0 Hn] Hd]. unfold threshold_ratio.
    rewrite (proj2 (Z.leb_le _ _) Hn), (proj2 (Z.leb_le _ _) Hd). cbn [andb]. unfold RationalNumber_new.
    rewrite (proj2 (Z.eqb_neq _ _)) by lia. rewrite (proj2 (Z.ltb_ge _ _)) by lia. cbn [Z.ltb Bool.eqb negb].
    set (g := Z.gcd _ _). assert (0 < g) as Hg.
    { assert (0 <= g) by apply Z.gcd_nonneg. assert (g ≠ 0); [|lia]. intros [_ Hz]%Z.gcd_eq_0. lia. }
    rewrite !(proj2 (Z.leb_le _ _)).
    + cbn [andb orb mbind exec_bind]. eexists _, _. done.
    + etransitivity; [apply Z.div_le_upper_bound with (q := Z.abs (Z.pos (Qden q))); [done|nia]|lia].
    + etransitivity; [apply Z.div_le_upper_bound with (q := Z.abs (Qnum q)); [done|nia]|lia].
  - eexists _, _. cbn. by destruct t.
Qed.

Lemma sum_amounts_list w : stake_of snd (map_to_list w) = sum_amounts w.
Proof. done. Qed.

Lemma apply_governance_ok {E : Type} gu t funds : solvent_rows (db_accounts t) → 0 <= treasury (db_pots t) →
  updates_ok (db_proposals t) funds gu → funds <= treasury (db_pots t) →
  total arow_rewards (db_accounts t) + treasury (db_pots t) + sum_amounts (deposit_refunds gu) + sum_amounts (treasury_withdrawals gu) <= u64_max →
  consecutive_dormant_epochs t + 1 <= Store.u32_max →
  ∃ up t', apply_governance_updates (E := E) gu t = Ok (up, t') ∧
    db_accounts t' = credited (λ c, amount_of (deposit_refunds gu) c + amount_of (treasury_withdrawals gu) c) (db_accounts t) ∧
    db_pots t' = set_pot_treasury (treasury (db_pots t) +
      stake_of (forfeited (db_accounts t)) (map_to_list (deposit_refunds gu) ++ map_to_list (treasury_withdrawals gu)) -
      sum_amounts (treasury_withdrawals gu)) (db_pots t) ∧
    db_pools t' = db_pools t ∧ db_proposals t' = filter (λ kv, pruned_proposals gu !! kv.1 = None) (db_proposals t) ∧
    progress t' = progress t.
Proof.
  intros Hs H0 [Hr _ Hw Hf Hq] Hfund Hmax Hd. unfold apply_governance_updates. cbv zeta.
  destruct (committee_ok (E := E) (committee_update gu)
    (set_governance (roots gu) (default (db_constitution t) (constitution_update gu)) (db_parameters t) t) Hq) as (m & st & ->).
  cbn [mbind exec_bind]. set (l := map_to_list (deposit_refunds gu) ++ map_to_list (treasury_withdrawals gu)).
  assert (Forall (λ x : Credential * Z, 0 <= x.2) l) as Hl by (apply Forall_app; split; by apply payouts_nonneg).
  assert (stake_of snd l = sum_amounts (deposit_refunds gu) + sum_amounts (treasury_withdrawals gu)) as Hsl
    by (unfold l; by rewrite stake_of_app).
  pose proof (total_nonneg arow_rewards _ Hs). pose proof (stake_nonneg _ _ Hl). pose proof (forfeited_nonneg (db_accounts t) l Hl).
  pose proof (sum_amounts_nonneg _ Hw) as Hwp.
  rewrite pay_or_refund_ok; cbn [db_accounts db_pots set_governance set_cc]; [|done|done|lia|done|lia]. cbn [mbind exec_bind].
  set (t1 := EpochProps.set_treasury _ _). set (n := treasury (db_pots t) + stake_of (forfeited (db_accounts t)) l).
  assert (db_pots t1 = set_pot_treasury n (db_pots t)) as Hp1 by done.
  assert (∃ t2, (if decide (treasury_withdrawals gu = ∅) then Ok t1
       else withdrawn ← u64_sum (map snd (map_to_list (treasury_withdrawals gu)));
            k ← u64_sub (treasury (db_pots t1)) withdrawn;
            Ok (set_pots (set_pot_treasury k (db_pots t1)) t1)) = Ok (E := E) t2 ∧
    t2 = set_pots (set_pot_treasury (n - sum_amounts (treasury_withdrawals gu)) (db_pots t)) t1) as (t2 & -> & ->).
  { destruct (decide (treasury_withdrawals gu = ∅)) as [->|].
    - eexists. split; [done|]. unfold sum_amounts. rewrite total_empty, Z.sub_0_r, <- Hp1. by destruct t1.
    - unfold u64_sum. rewrite u64_sum_ok; rewrite ?map_snd_sum; [|by apply map_snd_nonneg|lia]. cbn [mbind exec_bind]. rewrite Z.add_0_l, Hp1.
      cbn [treasury set_pot_treasury]. unfold u64_sub. rewrite (proj2 (Z.leb_le _ _)) by lia. cbn [mbind exec_bind]. by eexists. }
  cbn [mbind exec_bind]. assert (consecutive_dormant_epochs t1 = consecutive_dormant_epochs t) as Hdt by done.
  destruct (is_dormant_epoch gu); cbn [consecutive_dormant_epochs set_pots]; [rewrite Hdt, (proj2 (Z.leb_le _ _) Hd)|]; cbn [mbind exec_bind];
    eexists _, _; (split; [done|]); cbn; (split; [|done]); apply credited_ext; intros c _; unfold l; by rewrite stake_of_app, !paid_to_amount.
Qed.

(** The third transaction: the money of the store, before and after. *)
Lemma begin_epoch_ok {E : Type} o pu gu t s funds : progress t = Some SnapshotTaken → tables_ok t →
  pools_updates o = Some pu → governance_updates o = Some gu → pools_ok (db_pools t) pu → updates_ok (db_proposals t) funds gu →
  funds <= treasury (db_pots t) → ada t + sum_amounts (treasury_withdrawals gu) <= u64_max →
  ∃ up t', begin_epoch (E := E) o (mkDb t s) = Ok (Some up, take_updates o, mkDb t' s) ∧
    db_accounts t' = credited (payments pu gu) (db_accounts t) ∧
    db_pots t' = mkPots (treasury (db_pots t) + donations (db_pots t) + leftovers pu gu (db_accounts t) - sum_amounts (treasury_withdrawals gu))
      (reserves (db_pots t)) 0 0 ∧
    db_pools t' = Pools.update_or_retire_pools (Pools.updated pu) (Pools.retired pu) (db_pools t) ∧
    db_proposals t' = filter (λ kv, pruned_proposals gu !! kv.1 = None) (db_proposals t) ∧ progress t' = None.
Proof.
  intros Hpr Hok Hpu Hgu [Hpn Hkept Hprel] Hg Hfund Hmax. pose proof Hok as [Ha Ht Hr Hf Hd Hpl Hpp Hun Hdo]. pose proof Hg as [Hgr Hrel Hgw _ _].
  pose proof (total_nonneg arow_rewards _ Ha). pose proof (sum_amounts_nonneg _ Hpn) as Hp0.
  pose proof (sum_amounts_nonneg _ Hgw) as Hw0.
  pose proof (sum_amounts_nonneg _ Hgr) as Hg0.
  pose proof (total_nonneg row_deposit (filter (λ kv, pruned_proposals gu !! kv.1 = None) (db_proposals t))
    ltac:(intros k p [Hk _]%map_lookup_filter_Some; by apply Hpp in Hk)) as Hpk. unfold ada in Hmax.
  unfold begin_epoch, try_epoch_transition. cbn [tables snapshots]. rewrite decide_True by done. unfold prune_recently_unregistered_accounts.
  cbn [recently_unregistered set_progress]. rewrite bool_decide_eq_true_2 by done. cbn [mbind exec_bind]. cbv zeta.
  unfold reset_fees_and_donations. cbn [db_pots reset_blocks_count set_registry set_progress].
  rewrite u64_add_le by lia. cbn [mbind exec_bind]. rewrite Hpu.
  rewrite pay_or_refund_ok; cbn [db_accounts db_pots set_pools set_pots set_registry set_progress reset_blocks_count treasury];
    [|done|by apply payouts_nonneg|rewrite sum_amounts_list; lia|lia|rewrite sum_amounts_list; lia].
  cbn [mbind exec_bind]. rewrite Hgu. set (t1 := EpochProps.set_treasury _ _).
  pose proof (forfeited_nonneg (db_accounts t) _ (payouts_nonneg _ Hpn)) as Hfo. pose proof (received_nonneg (db_accounts t) _ (payouts_nonneg _ Hpn)) as Hre.
  pose proof (received_forfeited (db_accounts t) (map_to_list (Pools.refunds pu))) as Hrf. rewrite sum_amounts_list in Hrf.
  assert (total arow_rewards (db_accounts t1) = total arow_rewards (db_accounts t) +
    stake_of (received (db_accounts t)) (map_to_list (Pools.refunds pu))) as Hta.
  { change (db_accounts t1) with (credited (λ c, stake_of (paid_to c) (map_to_list (Pools.refunds pu))) (db_accounts t)).
    by rewrite credited_total, over_paid. }
  assert (treasury (db_pots t1) = treasury (db_pots t) + donations (db_pots t) +
    stake_of (forfeited (db_accounts t)) (map_to_list (Pools.refunds pu))) as Htr by done.
  destruct (apply_governance_ok (E := E) gu t1 funds) as (up & t' & -> & Hacc & Hpots & Hpools & Hprop & Hprog).
  - change (db_accounts t1) with (credited (λ c, stake_of (paid_to c) (map_to_list (Pools.refunds pu))) (db_accounts t)).
    apply credited_nonneg; [done|]. intros c. by apply paid_to_nonneg, payouts_nonneg.
  - lia.
  - exact Hg.
  - lia.
  - rewrite Hta, Htr. lia.
  - exact Hdo.
  - cbn [mbind exec_bind fst snd]. exists up, t'. split; [done|]. split; [|split; [|done]].
    + rewrite Hacc. change (db_accounts t1) with (credited (λ c, stake_of (paid_to c) (map_to_list (Pools.refunds pu))) (db_accounts t)).
      rewrite credited_credited. apply credited_ext. intros c _. unfold payments. rewrite paid_to_amount. lia.
    + rewrite Hpots, Htr. unfold set_pot_treasury, leftovers. cbn. f_equal.
      rewrite (stake_of_ext (forfeited (db_accounts t1)) (forfeited (db_accounts t))) by (intros; apply forfeited_credited).
      rewrite (stake_of_app _ (map_to_list (Pools.refunds pu))). lia.
Qed.

(** ** Flushing *)

(** An overlay that is ready to be flushed; [aside] is the fees of the previous epoch,
    which left the pots when it ended. *)
Record overlay_ok (t : Tables) (aside : Z) (r : Effective) (pu : Pools.PoolsEpochTransitionUpdates) (gu : GovernanceUpdates)
    (o : StateOverlay) : Prop := {
  ov_epoch : 1 <= epoch o;
  ov_rewards : overlay_rewards o = IsEffective r;
  ov_pools : pools_updates o = Some pu;
  ov_governance : governance_updates o = Some gu;
  ov_payable : payable r (db_accounts t);
  ov_tax : 0 <= delta_treasury r;
  ov_reserves : 0 <= delta_reserves r <= reserves (db_pots t);
  ov_aside : 0 <= aside ∧ delta_reserves r + aside = total_rewards r + delta_treasury r;
  ov_pools_ok : pools_ok (db_pools t) pu;
  ov_updates_ok : updates_ok (db_proposals t) (treasury (db_pots t) + (delta_treasury r + lost_rewards r)) gu }.

(** The store once the overlay is flushed. *)
Record flushed (t t' : Tables) (r : Effective) (pu : Pools.PoolsEpochTransitionUpdates) (gu : GovernanceUpdates) : Prop := {
  fl_progress : progress t' = None;
  fl_accounts : db_accounts t' = credited (λ c, reward_of c r + payments pu gu c) (db_accounts t);
  fl_pots : db_pots t' = mkPots
    (treasury (db_pots t) + (delta_treasury r + lost_rewards r) + donations (db_pots t) + leftovers pu gu (db_accounts t) -
      sum_amounts (treasury_withdrawals gu))
    (reserves (db_pots t) - delta_reserves r) 0 0;
  fl_pools : db_pools t' = Pools.update_or_retire_pools (Pools.updated pu) (Pools.retired pu) (db_pools t);
  fl_proposals : db_proposals t' = filter (λ kv, pruned_proposals gu !! kv.1 = None) (db_proposals t) }.

Lemma end_epoch_ok o r pu gu t s aside : progress t = None → tables_ok t → overlay_ok t aside r pu gu o →
  2 * (ada t + aside) <= u64_max →
  ∃ t', end_epoch o (mkDb t s) = Ok (take_rewards o, mkDb t' s) ∧ progress t' = Some EpochEnded ∧ tables_ok t' ∧
    db_accounts t' = credited (λ c, reward_of c r) (db_accounts t) ∧
    db_pots t' = mkPots (treasury (db_pots t) + (delta_treasury r + lost_rewards r)) (reserves (db_pots t) - delta_reserves r)
      (fees (db_pots t)) (donations (db_pots t)) ∧
    db_pools t' = db_pools t ∧ db_proposals t' = db_proposals t ∧ proposals_roots t' = proposals_roots t ∧ ada t' = ada t + aside.
Proof.
  intros Hpr Hok Hov Hmax. pose proof Hok as [Ha Ht Hr Hf Hd Hpl Hpp Hun Hdo]. pose proof Hov as [_ Hrw _ _ Hpay Htax Hres [Has0 Has] _ _].
  pose proof (total_nonneg arow_rewards _ Ha). pose proof (total_nonneg Pools.deposit _ Hpl). pose proof (total_nonneg row_deposit _ Hpp).
  pose proof (rewards_split r _ Hpay) as Hsplit. pose proof Hpay as [Hsorted Hgr Htot _].
  assert (0 <= total_rewards r) as Ht0 by (rewrite <- Htot; by apply stake_nonneg). unfold ada in *.
  unfold end_epoch, try_epoch_transition. cbn [tables snapshots]. rewrite decide_True by done. rewrite Hrw.
  destruct (pay_rewards_ok (E := StateError) r (set_progress (Some EpochEnded) t)) as (-> & _ & Hl);
    cbn [db_accounts db_pots set_progress]; [done|done|lia..|].
  cbn [mbind exec_bind]. eexists. split; [done|]. cbn [progress set_recently_pruned set_pots set_accounts set_progress].
  cbn [db_accounts db_pots db_pools db_proposals set_recently_pruned set_pots set_accounts set_progress].
  split; [done|]. split; [|split; [done|]; split; [done|]; split; [done|]; split; [done|]; split; [done|]].
  - split; cbn [db_accounts db_pots db_pools db_proposals recently_unregistered consecutive_dormant_epochs set_recently_pruned set_pots
      set_accounts set_progress treasury reserves fees donations]; [|lia..|done|done|done|done].
    apply credited_nonneg; [done|]. intros c. by eapply reward_of_nonneg.
  - rewrite credited_total. cbn. lia.
Qed.

(** Flushing goes through, and conserves the money of the store. *)
Lemma apply_ok o r pu gu t s aside : progress t = None → tables_ok t → overlay_ok t aside r pu gu o →
  2 * (ada t + aside) <= u64_max →
  ∃ up o' t' s', Overlay.apply o (mkDb t s) = Ok (Some up, o', mkDb t' s') ∧ Overlay.is_empty o' = true ∧ flushed t t' r pu gu ∧
    ada t' + fees (db_pots t) = ada t + aside ∧
    (∃ ended, s' = <[epoch o - 1 := ended]> s ∧ db_pots ended = mkPots (treasury (db_pots t) + (delta_treasury r + lost_rewards r))
      (reserves (db_pots t) - delta_reserves r) (fees (db_pots t)) (donations (db_pots t)) ∧
      db_accounts ended = credited (λ c, reward_of c r) (db_accounts t)).
Proof.
  intros Hpr Hok Hov Hmax. destruct (end_epoch_ok o r pu gu t s aside Hpr Hok Hov Hmax)
    as (t1 & Hend & Hp1 & Hok1 & Ha1 & Hpots1 & Hpl1 & Hpp1 & _ & Hada1).
  pose proof Hov as [He Hrw Hpu Hgu _ _ _ [Has0 _] Hpok Hgok]. pose proof Hgok as [Hgr Hrel Hgw Hfund _].
  unfold Overlay.apply. rewrite Hend. cbn [mbind exec_bind]. unfold take_snapshot, try_epoch_transition at 1. cbn [tables snapshots].
  rewrite Hp1, decide_True by done. unfold u64_sub. cbn [epoch take_rewards]. rewrite (proj2 (Z.leb_le _ _)) by lia. cbn [mbind exec_bind].
  set (t2 := set_progress (Some SnapshotTaken) t1). set (o2 := mkStateOverlay _ _ _ _ _ _).
  pose proof Hok1 as [Ht1a Ht1t Ht1r Ht1f Ht1d Ht1p Ht1q Ht1u Ht1n].
  assert (sum_amounts (treasury_withdrawals gu) <= ada t1) as Hle.
  { etransitivity; [exact Hfund|]. unfold ada. rewrite Hpots1 in *. cbn [treasury reserves fees donations] in *.
    pose proof (total_nonneg arow_rewards _ Ht1a). pose proof (total_nonneg Pools.deposit _ Ht1p). pose proof (total_nonneg row_deposit _ Ht1q). lia. }
  destruct (begin_epoch_ok (E := StateError) o2 pu gu t2 (<[epoch o - 1 := t1]> s)
    (treasury (db_pots t) + (delta_treasury r + lost_rewards r))) as (up & t' & -> & Hacc & Hpots & Hpools & Hprop & Hprog).
  - done.
  - by split.
  - exact Hpu.
  - exact Hgu.
  - change (db_pools t2) with (db_pools t1). by rewrite Hpl1.
  - change (db_proposals t2) with (db_proposals t1). by rewrite Hpp1.
  - change (db_pots t2) with (db_pots t1). by rewrite Hpots1.
  - change (ada t2) with (ada t1). lia.
  - cbn [mbind exec_bind]. change (db_accounts t2) with (db_accounts t1) in *. change (db_pots t2) with (db_pots t1) in *.
    change (db_pools t2) with (db_pools t1) in *. change (db_proposals t2) with (db_proposals t1) in *.
    rewrite Ha1, Hpots1, Hpl1, Hpp1 in *. cbn [treasury reserves fees donations] in *.
    assert (leftovers pu gu (credited (λ c, reward_of c r) (db_accounts t)) = leftovers pu gu (db_accounts t)) as Hlo
      by (apply stake_of_ext; intros; apply forfeited_credited). rewrite Hlo in Hpots.
    eexists up, _, t', _. split; [done|]. split; [done|]. split; [|split; [|by exists t1]].
    + split; try done. rewrite Hacc, credited_credited. done.
    + unfold ada in *. rewrite Hacc, Hpots, Hpools, Hprop, Ha1, Hpots1, Hpl1, Hpp1 in *. cbn [treasury reserves fees donations] in *.
      rewrite credited_total. destruct Hpok as [Hpn _ Hpr2].
      assert (over (payments pu gu) (credited (λ c, reward_of c r) (db_accounts t)) + leftovers pu gu (db_accounts t) =
        sum_amounts (Pools.refunds pu) + sum_amounts (deposit_refunds gu) + sum_amounts (treasury_withdrawals gu)) as Hsum.
      { rewrite <- Hlo. unfold leftovers. set (l := _ ++ _). rewrite (over_ext _ (λ c, stake_of (paid_to c) l)).
        - rewrite over_paid, received_forfeited. unfold l. rewrite !stake_of_app. rewrite !sum_amounts_list. lia.
        - intros c _. unfold payments, l. rewrite !stake_of_app, !paid_to_amount. lia. }
      lia.
Qed.

(** ** Computing the transition *)

(** The store once the volatile database of the end of the epoch is flushed to it, as
    the view promised. *)
Record settles (t0 : Tables) (view : VolatileView) (t : Tables) : Prop := {
  se_progress : progress t0 = None ∧ progress t = None;
  se_pools : view_pools view = map_to_list (db_pools t);
  se_proposals : view_proposals view = map_to_list (db_proposals t);
  se_roots : proposals_roots t0 = proposals_roots t;
  se_treasury : treasury (db_pots t0) = treasury (db_pots t);
  se_donations : donations (db_pots t0) + view_donations view = donations (db_pots t);
  se_disjoint : view_registered view ## view_unregistered view;
  se_accounts : ∀ c, db_accounts t !! c = None ↔
    c ∈ view_unregistered view ∨ (db_accounts t0 !! c = None ∧ c ∉ view_registered view);
  se_unregistered : ∀ c, is_Some (recently_unregistered t0 !! c) → db_accounts t0 !! c = None }.

(** Rewards, as they were computed: what leaves the reserves and the fees set [aside]
    goes to the accounts and the treasury.  Who is owed a reward is an operator, an
    account, or was unregistered lately. *)
Record computed_ok (t0 : Tables) (aside : Z) (r : Computed) : Prop := {
  ck_sorted : SortedPairs.ascending (accounts r);
  ck_nonneg : granted_ok (accounts r);
  ck_total : granted (accounts r) = total_rewards r;
  ck_tax : 0 <= delta_treasury r;
  ck_reserves : 0 <= delta_reserves r;
  ck_aside : 0 <= aside ∧ delta_reserves r + aside = total_rewards r + delta_treasury r;
  ck_known : ∀ c, 0 < owed (accounts r) c →
    c ∈ pools_owners r ∨ is_Some (db_accounts t0 !! c) ∨ is_Some (recently_unregistered t0 !! c) }.

Lemma unreachable_spec t0 view owners c : c ∈ view_unreachable t0 view owners ↔
  (is_Some (recently_unregistered t0 !! c) ∧ (c ∉ view_registered view)) ∨ c ∈ view_unregistered view ∨
  (c ∈ owners ∧ recently_unregistered t0 !! c = None ∧ (c ∉ view_unregistered view) ∧ (c ∉ view_registered view) ∧ db_accounts t0 !! c = None).
Proof.
  unfold view_unreachable, unreachable_accounts. set (recent := (map_to_list (recently_unregistered t0)).*1).
  assert (∀ x, x ∈ recent ↔ is_Some (recently_unregistered t0 !! x)) as Hrec.
  { intros x. unfold recent. split.
    - intros ([k n] & -> & Hin%elem_of_map_to_list)%list_elem_of_fmap. cbn [fst]. by rewrite Hin.
    - intros [n Hn]. apply list_elem_of_fmap. exists (x, n). split; [done|]. by apply elem_of_map_to_list. }
  rewrite elem_of_list_to_set, !elem_of_app, !list_elem_of_filter, !elem_of_elements, !elem_of_difference, elem_of_list_to_set, Hrec.
  rewrite eq_None_not_Some. destruct (db_accounts t0 !! c) as [row|]; cbn [is_some]; naive_solver.
Qed.

(** The accounts that cannot be paid are those that do not exist. *)
Lemma unreachable_exact t0 view t owners c : settles t0 view t →
  (c ∈ owners ∨ is_Some (db_accounts t0 !! c) ∨ is_Some (recently_unregistered t0 !! c)) →
  c ∈ view_unreachable t0 view owners ↔ db_accounts t !! c = None.
Proof.
  intros Hs Hc. rewrite unreachable_spec, (se_accounts _ _ _ Hs c). pose proof (se_unregistered _ _ _ Hs c) as Hu.
  pose proof (se_disjoint _ _ _ Hs) as Hd. assert (c ∈ view_registered view → c ∉ view_unregistered view) as Hd' by set_solver.
  destruct (recently_unregistered t0 !! c) as [n|] eqn:Hr.
  - specialize (Hu ltac:(done)). naive_solver.
  - destruct (decide (c ∈ view_unregistered view)); [naive_solver|]. destruct Hc as [Hc|[[row Hc]|[? ?]]]; [naive_solver| |done].
    rewrite Hc. naive_solver.
Qed.

(** Rewards become effective, and payable. *)
Lemma effective_payable t0 view t aside r : settles t0 view t → computed_ok t0 aside r →
  payable (Effective_new r (unclaimed_rewards r (view_unreachable t0 view (pools_owners r)))) (db_accounts t).
Proof.
  intros Hs [Hl Hg Ht _ _ _ Hk]. split; cbn [accounts total_rewards unclaimed Effective_new]; try done. intros c.
  unfold unclaimed_rewards. rewrite elem_of_filter. unfold owed at 1.
  assert (is_true (match SortedPairs.get c (accounts r) with Some st => 0 <? rewards st | None => false end) ↔ 0 < owed (accounts r) c) as ->.
  { unfold owed. destruct (SortedPairs.get c (accounts r)) as [a|]; cbn; [apply Z.ltb_lt|]. split; [done|lia]. }
  split; intros [Hc Hx]; (split; [done|]); by apply (unreachable_exact t0 view t (pools_owners r) c Hs (Hk c Hc)).
Qed.
