(* ===== verification/BoundaryProps.v ===== *)
(** * Properties of the boundary of an epoch

    What is computed when the first block of an epoch arrives and what is written once
    it is stable, together: no money is created or lost, the overlay announces what
    flushing writes, and a transition that was interrupted is resumed. *)

From Stdlib Require Import QArith.
From S2P Require Import Prelude EraHistory UplcSyntax SortedPairs ProtocolParameters Governance Summary PoolsUpdates StakeSummary StakeProps Rewards RewardsProps ProposalsForest ForestProps Ratification RatificationProps EpochTransition EpochGovernance EpochProps EpochBoundary.
Import RewardsState GovernanceUpdates Store Overlay.
Import Stake(AccountRow, arow_rewards).
#[local] Open Scope Z_scope.

(** ** Pieces of the transition *)

Lemma pools_updates_ok {E : Type} epoch pools : map_Forall (Pools.pool_ok epoch) pools → total Pools.deposit pools <= u64_max →
  ∃ pu, Pools.Updates_new (E := E) (map_to_list pools) epoch = Ok pu ∧ pools_ok pools pu.
Proof.
  intros Hok Hmax. destruct (Pools.boundary_outcomes (E := E) epoch pools Hok Hmax) as (u & pools' & Hb & Hout & Href & Htot).
  unfold Pools.boundary in Hb. destruct (Pools.Updates_new (map_to_list pools) epoch) as [pu| | |]; [|done..].
  cbn [mbind exec_bind] in Hb. injection Hb as -> <-. exists u. split; [done|].
  pose proof (Pools.outcomes_deposit epoch pools _ Hout) as Hdep. split.
  - intros a n Ha. specialize (Href a). unfold Pools.refund in Href. rewrite Ha in Href. cbn in Href. subst n.
    apply total_nonneg. intros id pool Hp. apply Hok in Hp as [_ Hd _]. unfold Pools.released_to, Pools.released.
    repeat case_match; lia.
  - apply total_nonneg. intros id pool. rewrite Hout. intros (p & Hp & Ho)%bind_Some. apply Hok in Hp as [_ Hd _].
    pose proof (Pools.outcome_deposit epoch p) as Hx. rewrite Ho in Hx. cbn in Hx. unfold Pools.released in Hx.
    unfold Pools.outcome in Ho. cbv zeta in Ho. fold (Pools.pool_is_retiring epoch p) in Ho.
    destruct (Pools.pool_is_retiring epoch p); [done|]. lia.
  - unfold sum_amounts. rewrite Htot. done.
Qed.

(** Amounts whose account cannot be paid. *)
Definition lost_by (reachable : Credential → bool) (x : Credential * Z) : Z := if reachable x.1 then 0 else x.2.

Lemma unpayable_ok {E : Type} (reachable : Credential → bool) (l : list (Credential * Z)) : Forall (λ x : Credential * Z, 0 <= x.2) l → ∀ n, 0 <= n → n + stake_of snd l <= u64_max →
  for_in (E := E) l (λ n (x : Credential * Z), if reachable x.1 then Ok n else u64_add n x.2) n = Ok (n + stake_of (lost_by reachable) l).
Proof.
  induction 1 as [|x l Hx Hl IH]; intros n Hn Hmax; cbn [for_in].
  { change (stake_of (lost_by reachable) []) with 0. by rewrite Z.add_0_r. }
  rewrite stake_of_cons in *. pose proof (stake_nonneg snd l Hl). unfold lost_by at 1. destruct (reachable x.1).
  - cbn [mbind exec_bind]. rewrite IH by lia. done.
  - rewrite u64_add_le by lia. cbn [mbind exec_bind]. rewrite IH by lia. f_equal. lia.
Qed.

(** A change of the treasury, as a signed number. *)
Definition delta_of (d : TreasuryDelta) : Z := match d with DeltaZero => 0 | DeltaCredit n => n | DeltaDebit n => - n end.

Lemma treasury_delta_add_ok {E : Type} d n : 0 <= n → delta_of d + n <= u64_max →
  ∃ d', treasury_delta_add (E := E) d n = Ok d' ∧ delta_of d' = delta_of d + n.
Proof.
  intros Hn Hmax. destruct d as [|m|m]; cbn [treasury_delta_add delta_of] in *.
  - by eexists.
  - rewrite u64_add_le by lia. cbn [mbind exec_bind]. by eexists.
  - eexists. split; [done|]. destruct (Z.ltb_spec n m); [cbn; lia|]. destruct (Z.ltb_spec m n); cbn; lia.
Qed.

(** The tax of the rewards that become effective, if they do. *)
Definition tax_of {E : Type} (effective : option Effective) : exec E Z :=
  match effective with Some r => effective_delta_treasury r | None => Ok 0 end.

Lemma transition_ok {E : Type} effective tax pu gu dons reachable o : 0 <= epoch o → epoch o + 1 <= u64_max →
  nonneg (Pools.refunds pu) → nonneg (deposit_refunds gu) → nonneg (treasury_withdrawals gu) → 0 <= dons →
  tax_of (E := E) effective = Ok tax → 0 <= tax →
  tax + dons + sum_amounts (Pools.refunds pu) + sum_amounts (deposit_refunds gu) + sum_amounts (treasury_withdrawals gu) <= u64_max →
  ∃ d, transition (E := E) effective pu gu dons reachable o =
    Ok (mkStateOverlay (epoch o + 1) (most_recent_snapshot o) (match effective with Some r => IsEffective r | None => NotReady end)
      (Some pu) (Some gu) d) ∧
    delta_of d = tax + dons + stake_of (lost_by reachable)
      (map_to_list (Pools.refunds pu) ++ map_to_list (deposit_refunds gu) ++ map_to_list (treasury_withdrawals gu)) -
      sum_amounts (treasury_withdrawals gu).
Proof.
  intros He0 He Hp Hg Hw Hd Htax Ht0 Hmax. unfold transition. rewrite u64_add_le by lia. cbn [mbind exec_bind]. set (l := _ ++ _).
  assert (Forall (λ x : Credential * Z, 0 <= x.2) l) as Hnn by (repeat (apply Forall_app; split); by apply payouts_nonneg).
  assert (stake_of snd l = sum_amounts (Pools.refunds pu) + (sum_amounts (deposit_refunds gu) + sum_amounts (treasury_withdrawals gu))) as Hsl
    by (unfold l; by rewrite !stake_of_app).
  pose proof (sum_amounts_nonneg _ Hp). pose proof (sum_amounts_nonneg _ Hg). pose proof (sum_amounts_nonneg _ Hw).
  assert (0 <= stake_of (lost_by reachable) l <= stake_of snd l) as Hlb.
  { split.
    - apply stake_nonneg. eapply Forall_impl; [exact Hnn|]. intros x Hx. cbn in Hx. unfold lost_by. by destruct (reachable x.1).
    - apply stake_of_le. intros x Hin. rewrite Forall_forall in Hnn. specialize (Hnn x Hin). unfold lost_by. destruct (reachable x.1); lia. }
  unfold unpayable. rewrite unpayable_ok by (done || lia). cbn [mbind exec_bind].
  unfold u64_sum. rewrite u64_sum_ok; rewrite ?map_snd_sum; [|by apply map_snd_nonneg|lia]. cbn [mbind exec_bind].
  fold (tax_of (E := E) effective). rewrite Htax. cbn [mbind exec_bind].
  destruct (treasury_delta_add_ok (E := E) (DeltaDebit (0 + sum_amounts (treasury_withdrawals gu))) tax) as (d1 & -> & Hd1);
    [lia|cbn; lia|]. cbn [mbind exec_bind delta_of] in *.
  destruct (treasury_delta_add_ok (E := E) d1 dons) as (d2 & -> & Hd2); [lia|lia|]. cbn [mbind exec_bind].
  destruct (treasury_delta_add_ok (E := E) d2 (0 + stake_of (lost_by reachable) l)) as (d3 & -> & Hd3); [lia|lia|]. cbn [mbind exec_bind].
  eexists. split; [done|]. lia.
Qed.

(** ** The boundary *)

(** What holds when an epoch ends: [t0] is the store, to which [t] adds the [view] of
    the volatile database, [r] are the rewards, and ratification can be run on
    whatever the treasury holds. *)
Record crossing (h : EraHistory) (next_epoch : Z) (r : Computed) (context : Z → exec StateError RatificationContext)
    (view : VolatileView) (t0 t : Tables) (aside : Z) : Prop := {
  cr_settles : settles t0 view t;
  cr_tables : tables_ok t;
  cr_donated : 0 <= donations (db_pots t0) ∧ 0 <= view_donations view;
  cr_rewards : computed_ok t0 aside r;
  cr_reserves : delta_reserves r <= reserves (db_pots t);
  cr_pools : map_Forall (Pools.pool_ok next_epoch) (db_pools t);
  cr_max : 2 * (ada t + aside) <= u64_max;
  cr_context : ∀ funds, 0 <= funds < u64_max → ∃ ctx, context funds = Ok ctx ∧ ctx_treasury ctx = funds ∧
    boundary_ok h (map (λ p, (p.1, candidate_from p.2)) (view_proposals view)) (proposals_roots t0) ctx }.

(** The rewards that become effective then. *)
Definition effective_rewards_of (r : Computed) (view : VolatileView) (t0 : Tables) : Effective :=
  Effective_new r (unclaimed_rewards r (view_unreachable t0 view (pools_owners r))).

(** The view of a store the volatile database adds nothing to, as when the node starts. *)
Definition settled (t : Tables) : VolatileView :=
  mkVolatileView (map_to_list (db_pools t)) (map_to_list (db_proposals t)) ∅ ∅ 0.

Section Boundary.
Context `{S : Forest.UnstableSort} {Hsort : Forest.UnstableSortLaws S}.
Context {h : EraHistory} {next_epoch : Z} {r : Computed} {context : Z → exec StateError RatificationContext}.
Context {view : VolatileView} {t0 t : Tables} {aside : Z} (Hcross : crossing h next_epoch r context view t0 t aside).
Let r' : Effective := effective_rewards_of r view t0.
Let funds : Z := treasury (db_pots t) + (delta_treasury r + lost_rewards r').

(** The updates of pools and of governance at the boundary. *)
Record boundary_updates (pu : Pools.PoolsEpochTransitionUpdates) (ctx : RatificationContext) (gu : GovernanceUpdates) : Prop := {
  bu_pools : Pools.Updates_new (E := StateError) (view_pools view) next_epoch = Ok pu;
  bu_context : context funds = Ok ctx;
  bu_governance : GovernanceUpdates_new (proposals_roots t0) (view_proposals view) h ctx = Ok gu;
  bu_pools_ok : pools_ok (db_pools t) pu;
  bu_updates_ok : updates_ok (db_proposals t) funds gu }.

Lemma cross_payable : payable r' (db_accounts t).
Proof using Hcross. eapply effective_payable; apply Hcross. Qed.

Lemma cross_bounds : 0 <= total_rewards r' ∧ 0 <= delta_treasury r ∧ 0 <= aside ∧ 0 <= lost_rewards r' <= total_rewards r' ∧
  0 <= total Pools.deposit (db_pools t) ∧ 0 <= total row_deposit (db_proposals t) ∧ 0 <= total arow_rewards (db_accounts t) ∧
  delta_treasury r + total_rewards r' <= reserves (db_pots t) + aside.
Proof using Hcross.
  pose proof cross_payable as Hp. destruct Hcross as [_ [Ha Ht Hr Hf Hd Hpl Hpp _ _] _ [_ Hg Htot Htax Hrs [Has Heq] _] Hres _ Hmax _].
  pose proof (total_nonneg arow_rewards _ Ha). pose proof (total_nonneg Pools.deposit _ Hpl). pose proof (total_nonneg row_deposit _ Hpp).
  change (total_rewards r') with (total_rewards r). assert (0 <= total_rewards r) by (rewrite <- Htot; by apply stake_nonneg).
  unfold ada in Hmax. destruct (lost_rewards_ok (E := StateError) r' _ Hp) as [_ Hl]; [change (total_rewards r') with (total_rewards r); lia|].
  change (total_rewards r') with (total_rewards r) in Hl. lia.
Qed.

Lemma updates_exist : ∃ pu ctx gu, boundary_updates pu ctx gu.
Proof using Hcross Hsort.
  destruct cross_bounds as (? & ? & ? & ? & ? & ? & ? & ?). destruct Hcross as [Hs [Ha Ht Hr Hf Hd Hpl Hpp _ _] _ _ Hres Hpools Hmax Hctx].
  unfold ada in Hmax. destruct (pools_updates_ok (E := StateError) next_epoch (db_pools t) Hpools) as (pu & Hpu & Hpok); [lia|].
  rewrite <- (se_pools _ _ _ Hs) in Hpu. destruct (Hctx funds) as (ctx & Hc & Hft & Hb); [unfold funds; unfold u64_max in *; lia|].
  destruct (governance_updates_ok h (proposals_roots t0) (view_proposals view) (db_proposals t) ctx) as (gu & Hgu & Hgok).
  - by rewrite (se_proposals _ _ _ Hs).
  - done.
  - lia.
  - done.
  - exists pu, ctx, gu. rewrite Hft in Hgok. by split.
Qed.

Context {pu : Pools.PoolsEpochTransitionUpdates} {ctx : RatificationContext} {gu : GovernanceUpdates} (Hu : boundary_updates pu ctx gu).

Lemma paid_bounds : sum_amounts (Pools.refunds pu) <= total Pools.deposit (db_pools t) ∧
  sum_amounts (deposit_refunds gu) <= total row_deposit (db_proposals t) ∧ sum_amounts (treasury_withdrawals gu) <= funds.
Proof using Hcross Hu.
  destruct Hu as [_ _ _ [_ Hk Hrel] [_ Hg _ Hw _]]. split; [lia|]. split; [|done].
  rewrite Hg. assert (0 <= total row_deposit (filter (λ kv, pruned_proposals gu !! kv.1 = None) (db_proposals t))); [|lia].
  apply total_nonneg. intros k p [Hkp _]%map_lookup_filter_Some. by apply (to_proposals _ (cr_tables _ _ _ _ _ _ _ _ Hcross)) in Hkp.
Qed.

Context {o : StateOverlay} (Ho : 0 <= epoch o ∧ epoch o + 1 <= u64_max).

(** The transition is computed. *)
Lemma transition_computed : ∃ d, epoch_transition h next_epoch (Some r) context view t0 o =
    Ok (mkStateOverlay (epoch o + 1) (most_recent_snapshot o) (IsEffective r') (Some pu) (Some gu) d) ∧
  delta_of d = delta_treasury r + lost_rewards r' + donations (db_pots t) +
    stake_of (lost_by (λ c, bool_decide (c ∉ view_unreachable t0 view (pools_owners r))))
      (map_to_list (Pools.refunds pu) ++ map_to_list (deposit_refunds gu) ++ map_to_list (treasury_withdrawals gu)) -
    sum_amounts (treasury_withdrawals gu).
Proof using Hcross Hu Ho.
  destruct cross_bounds as (? & ? & ? & ? & ? & ? & ? & ?). destruct paid_bounds as (? & ? & ?).
  destruct Hcross as [[[Hp0 _] _ _ _ Htr Hdo _ _ _] [Ha Ht Hr Hf Hd Hpl Hpp _ _] [Hd0 Hdv] _ _ _ Hmax _].
  destruct Hu as [Hpu Hc Hgu [Hpn _ _] [Hgr _ Hgw _ _]]. unfold ada in Hmax.
  destruct (lost_rewards_ok (E := StateError) r' _ cross_payable) as [Hlost _]; [lia|].
  assert (effective_delta_treasury (E := StateError) r' = Ok (delta_treasury r + lost_rewards r')) as Htax.
  { unfold effective_delta_treasury. rewrite Hlost. cbn [mbind exec_bind]. change (delta_treasury r') with (delta_treasury r).
    rewrite u64_add_le by lia. done. }
  unfold epoch_transition. rewrite Hpu. cbn [mbind exec_bind]. unfold effective_at. rewrite Hp0. cbn [ok_or mbind exec_bind]. cbv zeta.
  fold (effective_rewards_of r view t0). fold r'. rewrite Htax. cbn [mbind exec_bind]. rewrite Htr, (u64_add_le (treasury _)) by lia. cbn [mbind exec_bind].
  change (treasury (db_pots t) + (delta_treasury r + lost_rewards r')) with funds. rewrite Hc. cbn [mbind exec_bind]. rewrite Hgu. cbn [map_err mbind exec_bind]. rewrite u64_add_le by lia. cbn [mbind exec_bind].
  rewrite Hdo. apply (transition_ok (Some r')); try done; lia.
Qed.

Lemma transition_overlay d : overlay_ok t aside r' pu gu
  (mkStateOverlay (epoch o + 1) (most_recent_snapshot o) (IsEffective r') (Some pu) (Some gu) d).
Proof using Hcross Hu Ho.
  destruct Hcross as [_ _ _ [_ _ _ Htax Hrs [Has Heq] _] Hres _ _ _]. destruct Hu as [_ _ _ Hpo Hgo].
  split; cbn [epoch overlay_rewards pools_updates governance_updates]; try done; [lia|]. apply cross_payable.
Qed.

(** Flushing it writes the updates. *)
Lemma transition_flushed d s : ∃ up o' t' s',
  Overlay.apply (mkStateOverlay (epoch o + 1) (most_recent_snapshot o) (IsEffective r') (Some pu) (Some gu) d) (mkDb t s) =
    Ok (Some up, o', mkDb t' s') ∧ Overlay.is_empty o' = true ∧ flushed t t' r' pu gu ∧ ada t' + fees (db_pots t) = ada t + aside.
Proof using Hcross Hu Ho.
  destruct (apply_ok (mkStateOverlay (epoch o + 1) (most_recent_snapshot o) (IsEffective r') (Some pu) (Some gu) d) r' pu gu t s aside)
    as (up & o' & t' & s' & Hap & He & Hfl & Hada & _).
  - apply Hcross.
  - apply Hcross.
  - apply transition_overlay.
  - apply Hcross.
  - by exists up, o', t', s'.
Qed.

(** Computing it again, once the rewards are paid, gives the same updates. *)
Lemma transition_recomputed t1 computed restarted : progress t1 ≠ None → db_pools t1 = db_pools t → db_proposals t1 = db_proposals t →
  proposals_roots t1 = proposals_roots t → treasury (db_pots t1) = funds → donations (db_pots t1) = donations (db_pots t) →
  epoch restarted = epoch o →
  ∃ d, epoch_transition h next_epoch computed context (settled t1) t1 restarted =
    Ok (mkStateOverlay (epoch o + 1) (most_recent_snapshot restarted) NotReady (Some pu) (Some gu) d).
Proof using Hcross Hu Ho.
  intros Hp Hpl Hpp Hro Htr Hdo He. destruct cross_bounds as (? & ? & ? & ? & ? & ? & ? & ?). destruct paid_bounds as (? & ? & ?).
  destruct Hcross as [[_ Hvp Hvq Hvr _ _ _ _ _] [Ha Ht Hr Hf Hd _ _ _ _] _ _ _ _ Hmax _].
  destruct Hu as [Hpu Hc Hgu [Hpn _ _] [Hgr _ Hgw _ _]]. unfold ada in Hmax.
  unfold epoch_transition, settled. cbn [view_pools view_proposals view_donations]. rewrite Hpl, <- Hvp, Hpu. cbn [mbind exec_bind].
  unfold effective_at. destruct (progress t1) as [p|]; [|done]. cbn [mbind exec_bind]. rewrite Htr, Hc. cbn [mbind exec_bind].
  rewrite Hro, <- Hvr, Hpp, <- Hvq, Hgu. cbn [map_err mbind exec_bind]. rewrite Hdo, u64_add_le by lia. cbn [mbind exec_bind].
  rewrite <- He. edestruct (transition_ok (E := StateError) None 0) as (d & Hd' & _); [..|rewrite Hd'; by eexists]; try done; lia.
Qed.
End Boundary.

(** ** Theorems *)

(** C11: the boundary of an epoch conserves money.  When an epoch ends, the transition is
    computed, and later flushed in three transactions, without a panic or an error; and
    but for the fees of the epoch, which are set aside for its rewards, and those of
    the previous one, set aside when it ended, what is in accounts, pots and
    deposits is the same before and after. *)
Theorem epoch_boundary_conserves `{S : Forest.UnstableSort} `{!Forest.UnstableSortLaws S} (h : EraHistory) (next_epoch : Z)
    (r : Computed) (context : Z → exec StateError RatificationContext) (view : VolatileView) (t0 t : Tables) (aside : Z)
    (o : StateOverlay) (s : gmap Z Tables) :
  crossing h next_epoch r context view t0 t aside → 0 <= epoch o ∧ epoch o + 1 <= u64_max →
  ∃ o1 up o2 t' s', epoch_transition h next_epoch (Some r) context view t0 o = Ok o1 ∧
    Overlay.apply o1 (mkDb t s) = Ok (Some up, o2, mkDb t' s') ∧ Overlay.is_empty o2 = true ∧
    ada t' + fees (db_pots t) = ada t + aside.
Proof.
  intros Hc Ho. destruct (updates_exist Hc) as (pu & ctx & gu & Hu). destruct (transition_computed Hc Hu Ho) as (d & Ht & _).
  destruct (transition_flushed Hc Hu Ho d s) as (up & o' & t' & s' & Hap & He & _ & Hada). eexists _, up, o', t', s'. done.
Qed.

(** ** What the overlay announces *)

(** Whom an overlay pays: refunds of pools, refunds of proposals, withdrawals. *)
Definition payee (o : StateOverlay) (c : Credential) : Prop :=
  match pools_updates o, governance_updates o with
  | Some pu, Some gu => is_Some (Pools.refunds pu !! c) ∨ is_Some (deposit_refunds gu !! c) ∨ is_Some (treasury_withdrawals gu !! c)
  | _, _ => False
  end.

(** Accounts that are reported unreachable do not exist. *)
Lemma unreachable_missing t0 view t owners c : settles t0 view t → c ∈ view_unreachable t0 view owners → db_accounts t !! c = None.
Proof.
  intros Hs. rewrite unreachable_spec, (se_accounts _ _ _ Hs c). pose proof (se_unregistered _ _ _ Hs c). naive_solver.
Qed.

Lemma map_to_list_key (w : gmap Credential Z) x : x ∈ map_to_list w → is_Some (w !! x.1).
Proof. destruct x as [c n]. intros Hx%elem_of_map_to_list. cbn. by rewrite Hx. Qed.

(** When the payees that do not exist are among them, what they lose is what the
    treasury gets. *)
Lemma lost_leftovers t0 view t owners pu gu : settles t0 view t →
  (∀ c, is_Some (Pools.refunds pu !! c) ∨ is_Some (deposit_refunds gu !! c) ∨ is_Some (treasury_withdrawals gu !! c) →
    db_accounts t !! c = None → c ∈ view_unreachable t0 view owners) →
  stake_of (lost_by (λ c, bool_decide (c ∉ view_unreachable t0 view owners)))
    (map_to_list (Pools.refunds pu) ++ map_to_list (deposit_refunds gu) ++ map_to_list (treasury_withdrawals gu)) =
  leftovers pu gu (db_accounts t).
Proof.
  intros Hs Hpay. apply stake_of_ext. intros x Hx. unfold lost_by, forfeited. destruct (decide (x.1 ∈ view_unreachable t0 view owners)) as [Hin|Hin].
  - rewrite bool_decide_eq_false_2 by auto. by rewrite (unreachable_missing t0 view t owners x.1 Hs Hin).
  - rewrite bool_decide_eq_true_2 by auto. destruct (db_accounts t !! x.1) eqn:Hrow; [done|]. destruct Hin. apply Hpay; [|done].
    rewrite !elem_of_app in Hx. destruct Hx as [Hx|[Hx|Hx]]; apply map_to_list_key in Hx; auto.
Qed.

Lemma amount_bound (w : gmap Credential Z) c : nonneg w → 0 <= amount_of w c <= sum_amounts w.
Proof.
  intros Hw. pose proof (sum_amounts_nonneg w Hw). unfold amount_of. destruct (w !! c) as [n|] eqn:Hc; cbn; [|lia].
  pose proof (total_lookup (λ n, n) w c n Hw Hc). pose proof (Hw c n Hc). unfold sum_amounts. cbn in *. lia.
Qed.
Lemma reward_bound r rows c row : payable r rows → rows !! c = Some row → 0 <= reward_of c r <= total_rewards r.
Proof.
  intros Hp Hc. pose proof (reward_of_nonneg r rows c Hp). split; [done|]. pose proof (rewards_split r rows Hp) as Hs.
  assert (0 <= lost_rewards r) as Hl by (apply stake_nonneg, Forall_forall; intros; destruct Hp; by apply owed_nonneg).
  assert (reward_of c r <= over (λ c, reward_of c r) rows); [|lia].
  rewrite <- (insert_delete_id rows c row Hc), over_insert by apply lookup_delete_eq.
  assert (0 <= over (λ c, reward_of c r) (delete c rows)); [|lia]. apply stake_nonneg, Forall_forall. intros. by eapply reward_of_nonneg.
Qed.

(** C13: until it is flushed, the overlay announces what flushing will write: what it says
    an account will be credited is what the account receives, and its change of the
    treasury is the one written, provided every payee that does not exist is known
    to be unreachable. *)
Theorem overlay_mirrors_flush `{S : Forest.UnstableSort} `{!Forest.UnstableSortLaws S} (h : EraHistory) (next_epoch : Z)
    (r : Computed) (context : Z → exec StateError RatificationContext) (view : VolatileView) (t0 t t' : Tables) (aside : Z)
    (o o1 o2 : StateOverlay) (s s' : gmap Z Tables) (up : option (ProtocolParameters * Z * option (list Z))) :
  crossing h next_epoch r context view t0 t aside → 0 <= epoch o ∧ epoch o + 1 <= u64_max →
  epoch_transition h next_epoch (Some r) context view t0 o = Ok o1 →
  Overlay.apply o1 (mkDb t s) = Ok (up, o2, mkDb t' s') →
  (∀ c row, db_accounts t !! c = Some row → ∃ n, pending_reward_credit (E := StateError) c o1 = Ok n ∧
    db_accounts t' !! c = Some (add_rewards (arow_rewards row + n) row)) ∧
  ((∀ c, payee o1 c → db_accounts t !! c = None → c ∈ view_unreachable t0 view (pools_owners r)) →
    treasury (db_pots t') = treasury (db_pots t) + delta_of (treasury_delta o1)).
Proof.
  intros Hc Ho Ht Hap. destruct (updates_exist Hc) as (pu & ctx & gu & Hu). destruct (transition_computed Hc Hu Ho) as (d & Ht' & Hd).
  rewrite Ht in Ht'. injection Ht' as ->. destruct (transition_flushed Hc Hu Ho d s) as (up' & o' & t'' & s'' & Hap' & _ & Hfl & _).
  rewrite Hap in Hap'. injection Hap' as -> -> -> ->. cbn [treasury_delta]. destruct Hfl as [_ Hacc Hpots _ _]. split.
  - intros c row Hrow. unfold pending_reward_credit. cbn [overlay_rewards pools_updates governance_updates from_option].
    rewrite Hacc, credited_lookup, Hrow. cbn [fmap option_fmap option_map].
    destruct (cross_bounds Hc) as (? & ? & ? & ? & ? & ? & ? & ?). destruct (paid_bounds Hc Hu) as (? & ? & ?).
    pose proof (reward_bound _ _ c row (cross_payable Hc) Hrow). pose proof (amount_bound _ c (po_refunds _ _ (bu_pools_ok _ _ _ Hu))).
    pose proof (amount_bound _ c (uo_refunds _ _ _ (bu_updates_ok _ _ _ Hu))).
    pose proof (amount_bound _ c (uo_withdrawals _ _ _ (bu_updates_ok _ _ _ Hu))).
    pose proof (cr_max _ _ _ _ _ _ _ _ Hc) as Hmax. destruct (cr_tables _ _ _ _ _ _ _ _ Hc) as [Ha Htr Hr Hf Hdo Hpl Hpp _ _]. unfold ada in Hmax.
    unfold payout. change (Pools.refund c pu) with (amount_of (Pools.refunds pu) c).
    rewrite (u64_add_le (amount_of _ _)), (u64_add_le (reward_of _ _)) by lia. cbn [mbind exec_bind]. rewrite u64_add_le by lia.
    eexists. split; [done|].
    do 2 f_equal. unfold payments. lia.
  - intros Hpay. rewrite Hpots, Hd. cbn [treasury]. rewrite (lost_leftovers t0 view t (pools_owners r) pu gu (cr_settles _ _ _ _ _ _ _ _ Hc) Hpay).
    change (delta_treasury (effective_rewards_of r view t0)) with (delta_treasury r). lia.
Qed.

(** ** Interruptions *)

(** The last transaction reads the updates of the overlay, not its rewards. *)
Lemma begin_epoch_same {E : Type} o o' db up o2 db' : epoch o = epoch o' → pools_updates o = pools_updates o' →
  governance_updates o = governance_updates o' →
  begin_epoch (E := E) o db = Ok (up, o2, db') → ∃ o2', begin_epoch (E := E) o' db = Ok (up, o2', db').
Proof.
  intros He Hp Hg. unfold begin_epoch. rewrite He, Hp, Hg. destruct (try_epoch_transition _ _ _) as [[] t].
  - intros Hb. destruct (prune_recently_unregistered_accounts _ _) as [t1| | |]; [|done..]. cbn [mbind exec_bind] in *.
    destruct (reset_fees_and_donations _) as [t2| | |]; [|done..]. cbn [mbind exec_bind] in *.
    destruct (match pools_updates o' with Some _ => _ | None => _ end) as [t3| | |]; [|done..]. cbn [mbind exec_bind] in *.
    destruct (match governance_updates o' with Some _ => _ | None => _ end) as [[up1 t4]| | |]; [|done..]. cbn [mbind exec_bind] in *.
    injection Hb as <- <- <-. by eexists.
  - intros [= <- <- <-]. by eexists.
Qed.

(** A store whose epoch has ended already. *)
Lemma end_epoch_skipped o db : progress (tables db) ≠ None → end_epoch o db = Ok (take_rewards o, db).
Proof. intros Hp. unfold end_epoch, try_epoch_transition. rewrite decide_False by done. by destruct db. Qed.
Lemma take_snapshot_skipped {E : Type} o db : progress (tables db) ≠ Some EpochEnded → take_snapshot (E := E) o db = Ok (o, db).
Proof. intros Hp. unfold take_snapshot, try_epoch_transition. rewrite decide_False by done. by destruct db. Qed.
Lemma take_snapshot_done {E : Type} o t s : progress t = Some EpochEnded → 1 <= epoch o →
  take_snapshot (E := E) o (mkDb t s) = Ok (mkStateOverlay (epoch o) (Some (epoch o - 1)) (overlay_rewards o) (pools_updates o)
      (governance_updates o) (treasury_delta o), mkDb (set_progress (Some SnapshotTaken) t) (<[epoch o - 1 := t]> s)).
Proof.
  intros Hp He. unfold take_snapshot, try_epoch_transition. cbn [tables snapshots]. rewrite decide_True by done. unfold u64_sub.
  by rewrite (proj2 (Z.leb_le _ _)) by lia.
Qed.

(** The rest of the flush, from either store. *)
Lemma flush_resumed o o1 t1 s up o2 db : progress t1 = Some EpochEnded → 1 <= epoch o → epoch o = epoch o1 →
  pools_updates o = pools_updates o1 → governance_updates o = governance_updates o1 →
  begin_epoch (E := StateError) (mkStateOverlay (epoch o1) (Some (epoch o1 - 1)) (overlay_rewards o1) (pools_updates o1)
      (governance_updates o1) (treasury_delta o1)) (mkDb (set_progress (Some SnapshotTaken) t1) (<[epoch o1 - 1 := t1]> s)) =
    Ok (up, o2, db) →
  ∀ stopped, stopped = mkDb t1 s ∨ stopped = mkDb (set_progress (Some SnapshotTaken) t1) (<[epoch o1 - 1 := t1]> s) →
  ∃ o4, Overlay.apply o stopped = Ok (up, o4, db).
Proof.
  intros Hp He Heq Hpu Hgu Hb stopped Hst. pose proof (λ o' He Hp Hg, begin_epoch_same _ o' _ _ _ _ He Hp Hg Hb) as Hsame. unfold Overlay.apply.
  rewrite end_epoch_skipped by (destruct Hst as [->| ->]; cbn; congruence). cbn [mbind exec_bind].
  destruct Hst as [->| ->].
  - rewrite take_snapshot_done by done. cbn [mbind exec_bind epoch take_rewards]. rewrite Heq.
    match goal with |- context [begin_epoch ?x _] => destruct (Hsame x) as (o4 & ->); [done..|] end. cbn. by eexists.
  - rewrite take_snapshot_skipped by done. cbn [mbind exec_bind].
    match goal with |- context [begin_epoch ?x _] => destruct (Hsame x) as (o4 & ->); [done..|] end. cbn. by eexists.
Qed.

(** C12: a transition that is interrupted is resumed.  Whether the node stops after the
    first transaction or after the second, the transition computed anew from the store,
    without the rewards, and flushed, leaves the store as if nothing had happened. *)
Theorem interrupted_transition_resumes `{S : Forest.UnstableSort} `{!Forest.UnstableSortLaws S} (h : EraHistory) (next_epoch : Z)
    (r : Computed) (context : Z → exec StateError RatificationContext) (view : VolatileView) (t0 t : Tables) (aside : Z)
    (o o1 o2 : StateOverlay) (s : gmap Z Tables) (up : option (ProtocolParameters * Z * option (list Z))) (db : Db) :
  crossing h next_epoch r context view t0 t aside → 0 <= epoch o ∧ epoch o + 1 <= u64_max →
  epoch_transition h next_epoch (Some r) context view t0 o = Ok o1 →
  Overlay.apply o1 (mkDb t s) = Ok (up, o2, db) →
  ∃ o' db1 o'' db2, end_epoch o1 (mkDb t s) = Ok (o', db1) ∧ take_snapshot (E := StateError) o' db1 = Ok (o'', db2) ∧
    ∀ stopped computed restarted, stopped = db1 ∨ stopped = db2 → epoch restarted = epoch o →
    ∃ o3 o4, epoch_transition h next_epoch computed context (settled (tables stopped)) (tables stopped) restarted = Ok o3 ∧
      Overlay.apply o3 stopped = Ok (up, o4, db).
Proof.
  intros Hc Ho Ht Hap. destruct (updates_exist Hc) as (pu & ctx & gu & Hu). destruct (transition_computed Hc Hu Ho) as (d & Ht' & _).
  rewrite Ht in Ht'. injection Ht' as ->. pose proof (transition_overlay Hc Hu Ho d) as Hov. set (o1 := mkStateOverlay _ _ _ _ _ _) in *.
  destruct (end_epoch_ok o1 (effective_rewards_of r view t0) pu gu t s aside)
    as (t1 & Hend & Hp1 & _ & _ & Hpots1 & Hpl1 & Hpp1 & Hro1 & _); [apply Hc|apply Hc|exact Hov|apply Hc|].
  pose proof (take_snapshot_done (E := StateError) (take_rewards o1) t1 s Hp1 ltac:(cbn; lia)) as Hsnap.
  eexists _, _, _, _. split; [exact Hend|]. split; [exact Hsnap|]. intros stopped computed restarted Hst He.
  destruct (transition_recomputed Hc Hu Ho (tables stopped) computed restarted) as (d' & ->);
    [destruct Hst as [->| ->]; cbn; rewrite ?Hp1, ?Hpots1; done..|done|].
  eexists. unfold Overlay.apply in Hap. rewrite Hend in Hap. cbn [mbind exec_bind] in Hap. rewrite Hsnap in Hap. cbn [mbind exec_bind] in Hap.
  destruct (begin_epoch _ _) as [[[up1 o5] db5]| | |] eqn:Hb; [|done..]. injection Hap as -> _ ->.
  destruct (flush_resumed (mkStateOverlay (epoch o + 1) (most_recent_snapshot restarted) NotReady (Some pu) (Some gu) d')
    (take_rewards o1) t1 s up o5 db Hp1 ltac:(cbn; lia) eq_refl eq_refl eq_refl Hb stopped Hst) as (o4 & H4). by exists o4.
Qed.

(** Rewards, as they are computed, meet what the boundary asks of them; what is set
    aside are the fees of the snapshot they are computed from. *)
Lemma computed_from_ok {E : Type} pots s rs t0 : rewards_ok pots s rs → 0 <= fees pots → 2 * reserves pots + fees pots <= u64_max →
  fees pots <= Rewards.effective_rewards rs + Rewards.treasury_tax rs →
  (∀ c, 0 < owed (Rewards.rs_accounts rs) c →
    c ∈ Rewards.leader_recipients rs ∨ is_Some (db_accounts t0 !! c) ∨ is_Some (recently_unregistered t0 !! c)) →
  ∃ r, Computed_from (E := E) rs = Ok r ∧ computed_ok t0 (fees pots) r ∧ delta_reserves r <= reserves pots.
Proof.
  intros Hrk Hf Hmax Hle Hknown. pose proof Hrk as [Hi Ht Ha He [Hg1 Hg2] [Hsort _]]. unfold Computed_from.
  rewrite (delta_reserves_spec (E := E) pots s rs Hrk Hmax), (proj2 (Z.leb_le _ _) Hle). cbn [mbind exec_bind].
  eexists. split; [done|]. split; [split|]; cbn [accounts total_rewards delta_treasury delta_reserves pools_owners]; try done;
    unfold Rewards.delta_treasury in *; lia.
Qed.

(** ** A boundary on Mainnet's parameters

    The last block of epoch 513: two accounts are rewarded, the second of which was
    unregistered in epoch 512; a pool retires; a proposal is enacted, and its deposit
    returned to [account]. *)
Module SampleBoundary.
Import LateProposals(first, second, no_roots).
Import Stake(mkAccountRow, mkProposal, mkProposalRow).
Definition no_anchor : Anchor := mkAnchor "" [].
Definition proposal_row (slot valid_until : Z) (parent : option ProposalId) (account : Credential) : Stake.ProposalRow :=
  mkProposalRow (mkProposalPointer slot 0 0) valid_until
    (mkProposal 100 (mkRewardAccount Mainnet account) (HardForkInitiation parent PROTOCOL_VERSION_11) no_anchor).
Definition proposal_rows (account : Credential) : gmap ProposalId Stake.ProposalRow :=
  <[first := proposal_row 133661000 513 None account]> {[second := proposal_row 134957000 516 (Some first) (KeyHash [1])]}.
Definition pool_rows : gmap PoolId Pools.Pool :=
  {[ [7] := Pools.mkPool SampleRound.at_start 500 SampleRound.pool [Pools.Retirement 514] ]}.
Definition tables (account : Credential) : Tables :=
  mkTables None {[KeyHash [1] := mkAccountRow None 2 None 10]} {[KeyHash [2] := 512]} (mkPots 1000 5000 30 7) pool_rows
    (proposal_rows account) ∅ ∅ ∅ ∅ (Committee.Trusted RationalNumber_zero) no_roots (mkConstitution no_anchor None)
    SampleRound.parameters 0.
Definition rewards_of_512 : Computed :=
  mkRewards 20 5 35 [(KeyHash [1], mkAccountState 0 30 None None); (KeyHash [2], mkAccountState 0 5 None None)] {[KeyHash [1]]} ().
Definition context (funds : Z) : exec StateError RatificationContext :=
  Ok (mkRatificationContext 513 funds SampleRound.stake SampleRound.parameters ∅ (Some SampleRound.committee) None None
    {[ first := [(StakePoolKey [7], mkBallot VoteYes None); (DRepKey [8], mkBallot VoteYes None)] ]}).
Definition started : StateOverlay := Overlay.new 513.
Definition crossed (account : Credential) : exec StateError StateOverlay :=
  epoch_transition (H := TableSort.table_sort) MAINNET_ERA_HISTORY 514 (Some rewards_of_512) context (settled (tables account))
    (tables account) started.
Definition after (account : Credential) : exec StateError (StateOverlay * option (ProtocolParameters * Z * option (list Z)) * StateOverlay * Db) :=
  o ← crossed account; '(up, o', db) ← Overlay.apply o (mkDb (tables account) ∅); Ok (o, up, o', db).

Lemma tables_fine account : tables_ok (tables account).
Proof.
  split; cbn [db_accounts db_pots db_pools db_proposals recently_unregistered consecutive_dormant_epochs tables treasury reserves fees donations];
    try lia.
  - apply map_Forall_singleton. cbn. lia.
  - apply map_Forall_singleton. cbn. lia.
  - apply map_Forall_insert_2; [cbn; lia|]. apply map_Forall_singleton. cbn. lia.
  - apply map_Forall_singleton. unfold u64_max. lia.
  - unfold Store.u32_max. lia.
Qed.
Lemma settles_fine account : settles (tables account) (settled (tables account)) (tables account).
Proof.
  split; try done.
  - intros c. set_solver.
  - intros c [n Hn]. cbn in Hn. apply lookup_singleton_Some in Hn as [<- _]. done.
Qed.
Lemma rewards_fine account : computed_ok (tables account) 20 rewards_of_512.
Proof.
  split; cbn [accounts delta_treasury delta_reserves total_rewards rewards_of_512]; try lia; try done.
  - repeat constructor.
  - repeat constructor; cbn; lia.
  - intros c Hc. unfold owed in Hc. destruct (decide (c = KeyHash [1])) as [->|H1]; [left; set_solver|].
    destruct (decide (c = KeyHash [2])) as [->|H2]; [right; right; cbn; by rewrite lookup_singleton_eq|]. exfalso. revert Hc.
    rewrite SortedPairs.get_to_map by (repeat constructor). unfold SortedPairs.to_map. cbn. rewrite !lookup_insert_ne by done. rewrite lookup_empty. cbn. lia.
Qed.
Lemma crossing_fine account : crossing MAINNET_ERA_HISTORY 514 rewards_of_512 context (settled (tables account)) (tables account) (tables account) 20.
Proof.
  split.
  - apply settles_fine.
  - apply tables_fine.
  - cbn. lia.
  - apply rewards_fine.
  - cbn. lia.
  - apply map_Forall_singleton. split; [done|cbn; lia|]. repeat constructor. by vm_compute.
  - change (ada (tables account)) with (total arow_rewards {[KeyHash [1] := mkAccountRow None 2 None 10]} + 1000 + 5000 + 30 + 7 +
      total Pools.deposit pool_rows + total row_deposit (proposal_rows account)).
    unfold pool_rows, proposal_rows. rewrite total_insert_new by done. rewrite <- !insert_empty, !total_insert_new by done.
    rewrite !total_empty. cbn. unfold u64_max. lia.
  - intros funds Hf. eexists. split; [done|]. split; [done|]. destruct (SampleRound.context_fine _ SampleRound.committee_fine) as [? ? ? ? ?].
    assert (Forest.sort_by_pointer (map (λ p, (p.1, candidate_from p.2)) (map_to_list (proposal_rows account))) = SampleRound.proposals_of_513)
      as Hsort by (vm_compute; reflexivity).
    split; [by split|done|done| |]; cbn [view_proposals settled db_proposals tables epoch]; rewrite Hsort.
    + apply TwoProposals.submitted.
    + intros id row p Hin Hp. apply (bo_content _ _ _ _ (SampleRound.boundary_fine _ SampleRound.committee_fine) id row p Hin Hp).
Qed.
End SampleBoundary.

(** The overlay does not always announce the treasury that is written.  The account a
    deposit is returned to was unregistered more than three epochs ago: the deposit goes
    to the treasury when the overlay is flushed, but the change of the treasury that
    the overlay announced takes it to be paid. *)
Theorem treasury_delta_misses_forfeits :
  match SampleBoundary.after (KeyHash [9]) with
  | Ok (o, _, _, db) =>
      delta_of (treasury_delta o) = 17 ∧ treasury (db_pots (tables db)) = treasury (db_pots (SampleBoundary.tables (KeyHash [9]))) + 117
  | _ => False
  end.
Proof. vm_compute. done. Qed.

Lemma epoch_boundary_conserves_witness : ∃ o1 up o2 t' s', SampleBoundary.crossed (KeyHash [9]) = Ok o1 ∧
  Overlay.apply o1 (mkDb (SampleBoundary.tables (KeyHash [9])) ∅) = Ok (Some up, o2, mkDb t' s') ∧ Overlay.is_empty o2 = true ∧
  ada t' + 30 = ada (SampleBoundary.tables (KeyHash [9])) + 20.
Proof.
  apply (@epoch_boundary_conserves TableSort.table_sort TableSort.table_sort_laws MAINNET_ERA_HISTORY 514 SampleBoundary.rewards_of_512 SampleBoundary.context
    (settled (SampleBoundary.tables (KeyHash [9]))) (SampleBoundary.tables (KeyHash [9])) (SampleBoundary.tables (KeyHash [9])) 20
    SampleBoundary.started ∅ (SampleBoundary.crossing_fine _)).
  vm_compute. split; congruence.
Defined.

Lemma overlay_mirrors_flush_witness :
  match SampleBoundary.after (KeyHash [1]) with
  | Ok (o, _, _, db) =>
      treasury (db_pots (tables db)) = 1000 + delta_of (treasury_delta o) ∧
      ∃ n, pending_reward_credit (E := StateError) (KeyHash [1]) o = Ok n ∧
        db_accounts (tables db) !! KeyHash [1] = Some (Stake.mkAccountRow None 2 None (10 + n))
  | _ => False
  end.
Proof.
  assert (is_ok (SampleBoundary.after (KeyHash [1])) = true) as Hok by (vm_compute; reflexivity).
  destruct (SampleBoundary.after (KeyHash [1])) as [[[[o up] o'] [t' s']]| | |] eqn:Ha; [|discriminate Hok..].
  assert (∀ c, payee o c → c = KeyHash [1]) as Hpay.
  { assert (match SampleBoundary.after (KeyHash [1]) with
            | Ok (o, _, _, _) => match pools_updates o, governance_updates o with
                | Some pu, Some gu => bool_decide (Pools.refunds pu = {[KeyHash [1] := 500]} ∧
                    deposit_refunds gu = {[KeyHash [1] := 100]} ∧ treasury_withdrawals gu = ∅)
                | _, _ => false end
            | _ => false end = true) as Hu by (vm_compute; reflexivity).
    rewrite Ha in Hu. intros c. unfold payee. destruct (pools_updates o) as [pu|]; [|done]. destruct (governance_updates o) as [gu|]; [|done].
    apply bool_decide_eq_true in Hu as (-> & -> & ->). rewrite !lookup_singleton_is_Some, lookup_empty. intros [?|[?|[? ?]]]; congruence. }
  unfold SampleBoundary.after in Ha. apply bind_Ok in Ha as (o1 & Ht & Ha). apply bind_Ok in Ha as ([[up1 o2] db1] & Hap & Ha).
  injection Ha as -> -> -> ->.
  destruct (@overlay_mirrors_flush TableSort.table_sort TableSort.table_sort_laws MAINNET_ERA_HISTORY 514 SampleBoundary.rewards_of_512 SampleBoundary.context
    (settled (SampleBoundary.tables (KeyHash [1]))) (SampleBoundary.tables (KeyHash [1])) (SampleBoundary.tables (KeyHash [1])) t' 20
    SampleBoundary.started o o' ∅ s' up (SampleBoundary.crossing_fine _) ltac:(vm_compute; split; congruence) Ht Hap) as [Hacc Htr].
  split.
  - apply Htr. intros c Hc%Hpay Hnone. subst c. discriminate Hnone.
  - apply (Hacc (KeyHash [1]) (Stake.mkAccountRow None 2 None 10)). reflexivity.
Defined.

Lemma interrupted_transition_resumes_witness :
  match SampleBoundary.after (KeyHash [9]) with
  | Ok (o, up, _, db) =>
      ∃ o' db1 o'' db2, end_epoch o (mkDb (SampleBoundary.tables (KeyHash [9])) ∅) = Ok (o', db1) ∧
        take_snapshot (E := StateError) o' db1 = Ok (o'', db2) ∧
        ∀ stopped computed restarted, stopped = db1 ∨ stopped = db2 → Overlay.epoch restarted = 513 →
        ∃ o3 o4, epoch_transition (H := TableSort.table_sort) MAINNET_ERA_HISTORY 514 computed SampleBoundary.context
            (settled (tables stopped)) (tables stopped) restarted = Ok o3 ∧ Overlay.apply o3 stopped = Ok (up, o4, db)
  | _ => False
  end.
Proof.
  assert (is_ok (SampleBoundary.after (KeyHash [9])) = true) as Hok by (vm_compute; reflexivity).
  destruct (SampleBoundary.after (KeyHash [9])) as [[[[o up] o'] db]| | |] eqn:Ha; [|discriminate Hok..].
  unfold SampleBoundary.after in Ha. apply bind_Ok in Ha as (o1 & Ht & Ha). apply bind_Ok in Ha as ([[up1 o2] db1] & Hap & Ha).
  injection Ha as -> -> -> ->.
  apply (@interrupted_transition_resumes TableSort.table_sort TableSort.table_sort_laws MAINNET_ERA_HISTORY 514 SampleBoundary.rewards_of_512 SampleBoundary.context
    (settled (SampleBoundary.tables (KeyHash [9]))) (SampleBoundary.tables (KeyHash [9])) (SampleBoundary.tables (KeyHash [9])) 20
    SampleBoundary.started o o' ∅ up db (SampleBoundary.crossing_fine _) ltac:(vm_compute; split; congruence) Ht Hap).
Defined.
