(* ===== verification/ChainStore.v ===== *)
(** * The chain store

    [amaru-ouroboros-traits/src/stores/chain_store/]: headers linked to their parents,
    with the verdict on their blocks, the blocks, and the best chain.  The operations
    that read it are written once, against the interface of [base_read_chain_store.rs],
    which two stores implement: [amaru-stores/src/rocksdb/consensus/], and the
    one in memory ([in_memory_chain_store.rs]).

    Iterators are lists; walks that follow parents have the slot they start from as
    fuel, which is enough because slots decrease; walks that follow children take
    their fuel as an argument.  Reading and writing a store does not fail, and headers
    are stored under their own hash. *)

From S2P Require Import Prelude BTreeMap SortedAssoc UplcSyntax Headers.
#[local] Open Scope Z_scope.

(** ** The interface *)

Class BaseReadChainStore (S : Type) := {
  load_header_with_validity : S → HeaderHash → option (Header * option bool);
  get_children : S → HeaderHash → list HeaderHash;
  get_anchor_point : S → Point;
  get_best_chain_tip : S → Point;
  is_on_best_chain : S → NetworkPoint → bool;
  next_best_chain : S → Point → option Point;
  has_block : S → HeaderHash → bool;
  load_block : S → HeaderHash → option (list Z) }.

Inductive StoreError := ReadError | WriteError.

Class WriteChainStore (S : Type) := {
  store_header : Header → S → S;
  store_block : HeaderHash → list Z → S → S;
  set_block_valid : HeaderHash → bool → S → S;
  remove_block_valid : HeaderHash → S → S;
  set_anchor_point : Point → S → S;
  set_best_chain_tip : Point → S → S;
  switch_to_fork : Point → list Point → S → exec StoreError S;
  roll_forward_chain : Point → S → S }.

(** ** Reading *)

Record MissingBlocks := mkMissingBlocks { boundary : Point; missing : list Point }.
Inductive MissingBlocksResult := MissingFound (m : MissingBlocks) | BoundaryNotFound | StartHeaderNotFound.
Inductive FindAncestorOnBestChainResult :=
| AncestorStartNotFound
| AncestorNotFound
| AncestorFound (fork_point : Point) (forward_points : list Point).
Inductive FindCommonAncestorResult := CommonHeaderNotFound (hash : HeaderHash) | CommonNotFound | CommonFound (p : Point).
Inductive SampleAncestorPointsResult := BestChainTipNotFound | SampleFound (points : list Point).
Inductive NextBestChainHeader :=
| NeedRollback
| AtTip
| MissingHeader (p : Point)
| RollForward (p : Point) (header : Header).
Inductive ChildTipsMode := All | SkipInvalid.
#[global] Instance ChildTipsMode_eq_dec : EqDecision ChildTipsMode.
Proof. solve_decision. Defined.

Section Read.
Context {S : Type} `{BaseReadChainStore S}.
Implicit Types (s : S) (h : Header).

Definition load_header s (hash : HeaderHash) : option Header := fst <$> load_header_with_validity s hash.
Definition has_header s (hash : HeaderHash) : bool := is_some (load_header s hash).
Definition get_anchor_hash s : HeaderHash := point_hash (get_anchor_point s).
Definition load_point s (hash : HeaderHash) : option Point :=
  if decide (hash = ORIGIN_HASH) then Some Origin else header_point <$> load_header s hash.

Definition next_best_chain_header s (pointer : Point) : NextBestChainHeader :=
  if bool_decide (pointer ≠ Origin) && negb (is_on_best_chain s (to_network_point pointer)) then NeedRollback
  else match next_best_chain s pointer with
       | None => AtTip
       | Some p => match load_header s (point_hash p) with None => MissingHeader p | Some header => RollForward p header end
       end.

(** [successors(start, ..)]: past the anchor there is nothing to read. *)
Fixpoint ancestors_loop {E : Type} (fuel : nat) s (anchor_slot : Z) (x : Header * option bool)
  : exec E (list (Header * option bool)) :=
  match fuel with
  | O => OutOfFuel
  | Datatypes.S fuel =>
      if slot x.1 <=? anchor_slot then Ok [x]
      else match parent x.1 ≫= load_header_with_validity s with
           | None => Ok [x]
           | Some y => l ← ancestors_loop fuel s anchor_slot y; Ok (x :: l)
           end
  end.
Definition walk_fuel h : nat := Datatypes.S (Z.to_nat (slot h)).
Definition ancestors_on_snapshot {E : Type} s (start : Header) : exec E (list Header) :=
  l ← ancestors_loop (walk_fuel start) s (point_slot (get_anchor_point s)) (start, None);
  Ok (map fst l).
Definition ancestors_with_validity_on_snapshot {E : Type} s (start : HeaderHash) : exec E (list (Header * option bool)) :=
  match load_header_with_validity s start with
  | None => Ok []
  | Some x => ancestors_loop (walk_fuel x.1) s (point_slot (get_anchor_point s)) x
  end.

(** The hashes of a walk until the first verdict, and the verdict. *)
Fixpoint until_validated (l : list (Header * option bool)) : list HeaderHash * bool :=
  match l with
  | [] => ([], true)
  | (_, Some is_valid) :: _ => ([], is_valid)
  | (h, None) :: l => let '(hashes, valid) := until_validated l in (header_hash h :: hashes, valid)
  end.
Definition unvalidated_ancestor_hashes {E : Type} s (start : HeaderHash) : exec E (list HeaderHash * bool) :=
  l ← ancestors_with_validity_on_snapshot s start;
  let '(hashes, valid) := until_validated l in
  Ok (rev hashes, valid).

Fixpoint between_loop {E : Type} (fuel : nat) s (from_slot : Z) (from_hash current : HeaderHash) (tips : list Point)
  : exec E (option (list Point)) :=
  match fuel with
  | O => OutOfFuel
  | Datatypes.S fuel =>
      if decide (current = from_hash) then Ok (Some (rev tips))
      else match load_header s current with
           | None => Ok None
           | Some header =>
               if slot header <=? from_slot then Ok None
               else match parent header with
                    | None => Ok None
                    | Some p => between_loop fuel s from_slot from_hash p (tips ++ [header_point header])
                    end
           end
  end.
Definition ancestors_between {E : Type} s (from : Point) (to : HeaderHash) : exec E (option (list Point)) :=
  between_loop (Datatypes.S (from_option walk_fuel 1%nat (load_header s to))) s (point_slot from) (point_hash from) to [].

(** The first ancestor on the best chain, and the points that were passed. *)
Fixpoint split_at_best s (l : list Header) (forward_points : list Point) : option (Point * list Point) :=
  match l with
  | [] => None
  | ancestor :: l =>
      let p := header_point ancestor in
      if is_on_best_chain s (to_network_point p) then Some (p, rev forward_points)
      else split_at_best s l (forward_points ++ [p])
  end.
Definition find_ancestor_on_best_chain {E : Type} s (start : HeaderHash) : exec E FindAncestorOnBestChainResult :=
  match load_header s start with
  | None => Ok AncestorStartNotFound
  | Some header =>
      l ← ancestors_on_snapshot s header;
      Ok (match split_at_best s l [] with
          | Some (fork_point, (_ :: _) as forward_points) => AncestorFound fork_point forward_points
          | _ => AncestorNotFound
          end)
  end.

(** Two walks, merged by the order of points, most recent first. *)
Fixpoint skip_above (p : Point) (chain1 : list Point) : list Point :=
  match chain1 with
  | a_point :: rest => match Point_cmp a_point p with Gt => skip_above p rest | _ => chain1 end
  | [] => []
  end.
Fixpoint common_loop (chain1 chain2 : list Point) : FindCommonAncestorResult :=
  match chain2 with
  | [] => CommonNotFound
  | p :: chain2 =>
      match skip_above p chain1 with
      | [] => CommonNotFound
      | a_point :: rest => if decide (a_point = p) then CommonFound p else common_loop (a_point :: rest) chain2
      end
  end.
Definition find_common_ancestor {E : Type} s (hash1 hash2 : HeaderHash) : exec E FindCommonAncestorResult :=
  match load_header s hash1, load_header s hash2 with
  | None, _ => Ok (CommonHeaderNotFound hash1)
  | _, None => Ok (CommonHeaderNotFound hash2)
  | Some header1, Some header2 =>
      l1 ← ancestors_on_snapshot s header1;
      l2 ← ancestors_on_snapshot s header2;
      Ok (common_loop (map header_point l1) (map header_point l2))
  end.

(** A stable sort, most recent first. *)
Fixpoint insert_recent (p : NetworkPoint) (l : list NetworkPoint) : list NetworkPoint :=
  match l with
  | [] => [p]
  | q :: l' => match NetworkPoint_cmp p q with Lt => q :: insert_recent p l' | _ => p :: l end
  end.
Definition sort_recent_first (l : list NetworkPoint) : list NetworkPoint := foldr insert_recent [] l.
Fixpoint find_map {A B : Type} (f : A → option B) (l : list A) : option B :=
  match l with [] => None | x :: l => match f x with Some y => Some y | None => find_map f l end end.
Definition find_intersect_point s (points : list NetworkPoint) : option Point :=
  find_map (λ p, match p with
    | NetworkOrigin => Some Origin
    | NetworkSpecific _ hash => if is_on_best_chain s p then load_point s hash else None
    end) (sort_recent_first points).

(** The ancestors but the first, with their index from one. *)
Fixpoint sample_loop (l : list Header) (index spacing : Z) (last : Point) (points : list Point) : Point * list Point :=
  match l with
  | [] => (last, points)
  | header :: l =>
      let last := header_point header in
      if index =? spacing then sample_loop l (index + 1) (spacing * 2) last (points ++ [last])
      else sample_loop l (index + 1) spacing last points
  end.
Definition sample_ancestor_points {E : Type} s : exec E SampleAncestorPointsResult :=
  let best_point := get_best_chain_tip s in
  if decide (best_point = Origin) then Ok (SampleFound [Origin])
  else match load_header s (point_hash best_point) with
       | None => Ok BestChainTipNotFound
       | Some best =>
           l ← ancestors_on_snapshot s best;
           let '(last, points) := sample_loop (drop 1 l) 1 1 best_point [best_point] in
           Ok (SampleFound (if decide (list.last points = Some last) then points else points ++ [last]))
       end.

Fixpoint anchor_loop {E : Type} (fuel : nat) s (target_height : Z) (p : Point) : exec E (option Point) :=
  match fuel with
  | O => OutOfFuel
  | Datatypes.S fuel =>
      match next_best_chain s p with
      | None => Ok None
      | Some next_point => if target_height <=? point_height next_point then Ok (Some next_point) else anchor_loop fuel s target_height next_point
      end
  end.
Definition find_anchor_at_height {E : Type} s (target_height : Z) : exec E (option Point) :=
  let p := get_anchor_point s in
  if target_height <=? point_height p then Ok None
  else anchor_loop (Z.to_nat (target_height - point_height p)) s target_height p.

Fixpoint missing_loop s (anchor : HeaderHash) (limit : nat) (l : list Header) (missing : list Point) : MissingBlocksResult :=
  match l with
  | [] => BoundaryNotFound
  | header :: l =>
      if has_block s (header_hash header) || bool_decide (header_hash header = anchor)
      then MissingFound (mkMissingBlocks (header_point header) (take limit (rev missing)))
      else missing_loop s anchor limit l (missing ++ [header_point header])
  end.
Definition find_missing_blocks {E : Type} s (start_hash : HeaderHash) (limit : nat) : exec E MissingBlocksResult :=
  match load_header s start_hash with
  | None => Ok StartHeaderNotFound
  | Some start => l ← ancestors_on_snapshot s start; Ok (missing_loop s (get_anchor_hash s) limit l [])
  end.

(** A queue of headers to visit. *)
Fixpoint child_tips_loop {E : Type} (fuel : nat) s (mode : ChildTipsMode) (to_visit : list HeaderHash) (result : list Point)
  : exec E (list Point) :=
  match to_visit with
  | [] => Ok result
  | hash :: to_visit =>
      match fuel with
      | O => OutOfFuel
      | Datatypes.S fuel =>
          match load_header_with_validity s hash with
          | None => Panic
          | Some (header, validity) =>
              if bool_decide (mode = SkipInvalid) && bool_decide (validity = Some false) then child_tips_loop fuel s mode to_visit result
              else match get_children s hash with
                   | [] => child_tips_loop fuel s mode to_visit (result ++ [header_point header])
                   | children => child_tips_loop fuel s mode (to_visit ++ children) result
                   end
          end
      end
  end.
Definition child_tips {E : Type} (fuel : nat) s (hash : HeaderHash) (mode : ChildTipsMode) : exec E (list Point) :=
  child_tips_loop fuel s mode (if decide (hash = ORIGIN_HASH) then get_children s hash else [hash]) [].

(** *** The best candidate

    [amaru-consensus/src/effects/store_effects.rs].  The stack has its top first. *)
Inductive ConsensusError := UnknownPoint (hash : HeaderHash).

Fixpoint candidate_loop `{Hashing} (fuel : nat) s (to_visit : list HeaderHash) (best_candidate : option Header)
  : exec ConsensusError (option Header) :=
  match to_visit with
  | [] => Ok best_candidate
  | hash :: to_visit =>
      match fuel with
      | O => OutOfFuel
      | Datatypes.S fuel =>
          x ← ok_or (UnknownPoint hash) (load_header_with_validity s hash);
          let '(header, validity) := x in
          if decide (validity = Some false) then candidate_loop fuel s to_visit best_candidate
          else
            o ← cmp_tip (Some header) best_candidate;
            candidate_loop fuel s (rev (get_children s hash) ++ to_visit)
              (match o with Gt => Some header | _ => best_candidate end)
      end
  end.
Definition find_best_candidate `{Hashing} (fuel : nat) s : exec ConsensusError HeaderHash :=
  let anchor_hash := get_anchor_hash s in
  start ← (if decide (anchor_hash = ORIGIN_HASH) then Ok (rev (get_children s anchor_hash), None)
           else best ← ok_or (UnknownPoint anchor_hash) (load_header s anchor_hash); Ok ([anchor_hash], Some best));
  best ← candidate_loop fuel s start.1 start.2;
  Ok (from_option header_hash ORIGIN_HASH best).
End Read.

(** ** RocksDB

    The columns of the database.  The children of a header are keys, in the order of
    their bytes; the best chain is kept by slot.  Nonces and counters of operational
    certificates are not part of the model. *)
Record RocksDBStore := mkRocksDBStore {
  db_headers : gmap HeaderHash Header;
  db_validity : gmap HeaderHash bool;
  db_children : gmap HeaderHash (list HeaderHash);
  db_blocks : gmap HeaderHash (list Z);
  db_chain : list (Z * Point);
  db_anchor : option Point;
  db_best_chain : option Point }.

Fixpoint insert_key (hash : HeaderHash) (l : list HeaderHash) : list HeaderHash :=
  match l with
  | [] => [hash]
  | k :: l' => match bytes_compare hash k with Eq => l | Lt => hash :: l | Gt => k :: insert_key hash l' end
  end.

Module Rocks.
Definition children_of (db : RocksDBStore) (hash : HeaderHash) : list HeaderHash := default [] (db_children db !! hash).
Definition on_best_chain (db : RocksDBStore) (p : NetworkPoint) : bool :=
  match p with
  | NetworkOrigin => true
  | NetworkSpecific slot hash =>
      match BTreeMap.get slot (db_chain db) with Some stored => bool_decide (point_hash stored = hash) | None => false end
  end.
Definition next_best_chain (db : RocksDBStore) (p : Point) : option Point :=
  match p with
  | Origin => snd <$> head (db_chain db)
  | Specific _ hash _ =>
      find_map (λ child, header ← db_headers db !! child;
        if on_best_chain db (to_network_point (header_point header)) then Some (header_point header) else None)
        (children_of db hash)
  end.
#[global] Instance read : BaseReadChainStore RocksDBStore := {
  load_header_with_validity db hash := (λ header, (header, db_validity db !! hash)) <$> db_headers db !! hash;
  get_children := children_of;
  get_anchor_point db := default Origin (db_anchor db);
  get_best_chain_tip db := default Origin (db_best_chain db);
  is_on_best_chain := on_best_chain;
  ChainStore.next_best_chain := next_best_chain;
  has_block db hash := is_some (db_blocks db !! hash);
  load_block db hash := db_blocks db !! hash }.

Definition put_header (header : Header) (db : RocksDBStore) : RocksDBStore :=
  let hash := header_hash header in
  let parent_hash := default ORIGIN_HASH (parent header) in
  mkRocksDBStore (<[hash := header]> (db_headers db)) (db_validity db)
    (<[parent_hash := insert_key hash (children_of db parent_hash)]> (db_children db)) (db_blocks db) (db_chain db)
    (db_anchor db) (db_best_chain db).
Definition set_validity (v : gmap HeaderHash bool) (db : RocksDBStore) : RocksDBStore :=
  mkRocksDBStore (db_headers db) v (db_children db) (db_blocks db) (db_chain db) (db_anchor db) (db_best_chain db).
Definition put_block (hash : HeaderHash) (block : list Z) (db : RocksDBStore) : RocksDBStore :=
  mkRocksDBStore (db_headers db) (db_validity db) (db_children db) (<[hash := block]> (db_blocks db)) (db_chain db)
    (db_anchor db) (db_best_chain db).
Definition set_anchor (p : Point) (db : RocksDBStore) : RocksDBStore :=
  mkRocksDBStore (db_headers db) (db_validity db) (db_children db) (db_blocks db) (db_chain db) (Some p) (db_best_chain db).
Definition set_chain (chain : list (Z * Point)) (best : Point) (db : RocksDBStore) : RocksDBStore :=
  mkRocksDBStore (db_headers db) (db_validity db) (db_children db) (db_blocks db) chain (db_anchor db) (Some best).

Definition switch_to_fork (fork_point : Point) (forward_points : list Point) (db : RocksDBStore) : exec StoreError RocksDBStore :=
  match BTreeMap.get (point_slot fork_point) (db_chain db) with
  | Some stored =>
      if decide (point_hash stored = point_hash fork_point) then
        from ← u64_add (point_slot fork_point) 1;
        let kept := filter (λ kv : Z * Point, kv.1 < from) (db_chain db) in
        Ok (set_chain (foldl (λ c p, BTreeMap.insert (point_slot p) p c) kept forward_points)
              (default fork_point (last forward_points)) db)
      else Err ReadError
  | None => Err ReadError
  end.
Definition roll_forward_chain (p : Point) (db : RocksDBStore) : RocksDBStore :=
  set_chain (BTreeMap.insert (point_slot p) p (db_chain db)) p db.
#[global] Instance write : WriteChainStore RocksDBStore := {
  store_header := put_header;
  store_block := put_block;
  set_block_valid hash valid db := set_validity (<[hash := valid]> (db_validity db)) db;
  remove_block_valid hash db := set_validity (delete hash (db_validity db)) db;
  set_anchor_point := set_anchor;
  set_best_chain_tip p db := set_chain (db_chain db) p db;
  ChainStore.switch_to_fork := switch_to_fork;
  ChainStore.roll_forward_chain := roll_forward_chain }.
End Rocks.

(** ** In memory *)
Record InMemoryChainStoreInner := mkInMemory {
  headers : gmap HeaderHash Header;
  parent_child_relationship : gmap HeaderHash (list HeaderHash);
  anchor : Point;
  best_chain : Point;
  blocks : gmap HeaderHash (list Z);
  chain : list Point;
  block_validity : gmap HeaderHash bool }.

Module InMemory.
Definition children_of (st : InMemoryChainStoreInner) (hash : HeaderHash) : list HeaderHash :=
  default [] (parent_child_relationship st !! hash).
Definition same_chain_point (stored queried : Point) : Prop :=
  point_hash stored = point_hash queried ∧ point_slot stored = point_slot queried.
#[global] Instance same_chain_point_dec p q : Decision (same_chain_point p q).
Proof. unfold same_chain_point. apply _. Defined.
Definition is_on_in_memory_best_chain (chain : list Point) (p : NetworkPoint) : bool :=
  match p with
  | NetworkOrigin => true
  | NetworkSpecific slot hash => existsb (λ q, (point_slot q =? slot) && bool_decide (point_hash q = hash)) chain
  end.
Definition get_next_best_chain (chain : list Point) (p : Point) : option Point :=
  List.find (λ q, match p with Origin => true | Specific slot _ _ => slot <? point_slot q end) chain.
Definition successor_on_best_chain (chain : list Point) (p : Point) (parent_of : HeaderHash → option HeaderHash) : option Point :=
  next ← get_next_best_chain chain p;
  match p with
  | Origin => Some next
  | Specific _ hash _ => if decide (parent_of (point_hash next) = Some hash) then Some next else None
  end.
#[global] Instance read : BaseReadChainStore InMemoryChainStoreInner := {
  load_header_with_validity st hash := (λ header, (header, block_validity st !! hash)) <$> headers st !! hash;
  get_children := children_of;
  get_anchor_point := anchor;
  get_best_chain_tip := best_chain;
  is_on_best_chain st := is_on_in_memory_best_chain (chain st);
  next_best_chain st p := successor_on_best_chain (chain st) p (λ hash, headers st !! hash ≫= parent);
  has_block st hash := is_some (blocks st !! hash);
  load_block st hash := blocks st !! hash }.

Definition put_header (header : Header) (st : InMemoryChainStoreInner) : InMemoryChainStoreInner :=
  let hash := header_hash header in
  let parent_hash := default ORIGIN_HASH (parent header) in
  let children := children_of st parent_hash in
  mkInMemory (<[hash := header]> (headers st))
    (<[parent_hash := if decide (hash ∈ children) then children else children ++ [hash]]> (parent_child_relationship st))
    (anchor st) (best_chain st) (blocks st) (chain st) (block_validity st).
Definition set_chain (l : list Point) (best : Point) (st : InMemoryChainStoreInner) : InMemoryChainStoreInner :=
  mkInMemory (headers st) (parent_child_relationship st) (anchor st) best (blocks st) l (block_validity st).
(** [rposition]: the last position of the fork point. *)
Fixpoint rposition (fork_point : Point) (l : list Point) : option nat :=
  match l with
  | [] => None
  | p :: l =>
      match rposition fork_point l with
      | Some i => Some (Datatypes.S i)
      | None => if decide (same_chain_point p fork_point) then Some 0%nat else None
      end
  end.
Definition switch_to_fork (fork_point : Point) (forward_points : list Point) (st : InMemoryChainStoreInner)
  : exec StoreError InMemoryChainStoreInner :=
  match rposition fork_point (chain st) with
  | Some pos => Ok (set_chain (take (Datatypes.S pos) (chain st) ++ forward_points) (default fork_point (last forward_points)) st)
  | None => Err ReadError
  end.
#[global] Instance write : WriteChainStore InMemoryChainStoreInner := {
  store_header := put_header;
  store_block hash block st :=
    mkInMemory (headers st) (parent_child_relationship st) (anchor st) (best_chain st) (<[hash := block]> (blocks st)) (chain st) (block_validity st);
  set_block_valid hash valid st :=
    mkInMemory (headers st) (parent_child_relationship st) (anchor st) (best_chain st) (blocks st) (chain st) (<[hash := valid]> (block_validity st));
  remove_block_valid hash st :=
    mkInMemory (headers st) (parent_child_relationship st) (anchor st) (best_chain st) (blocks st) (chain st) (delete hash (block_validity st));
  set_anchor_point p st :=
    mkInMemory (headers st) (parent_child_relationship st) p (best_chain st) (blocks st) (chain st) (block_validity st);
  set_best_chain_tip p st := set_chain (chain st) p st;
  ChainStore.switch_to_fork := switch_to_fork;
  roll_forward_chain p st := set_chain (chain st ++ [p]) p st }.
End InMemory.
