(* ===== verification/ChainView.v ===== *)
(** * What a chain store promises

    The abstract state of a chain store, what its operations do to it, and the class of
    the stores that implement them; the two stores of [ChainStore] are instances. *)

From S2P Require Import Prelude BTreeMap SortedAssoc UplcSyntax Headers ChainStore.
#[local] Open Scope Z_scope.

(** ** The abstract state *)

Record ChainView := mkView {
  v_headers : gmap HeaderHash Header;
  v_flags : gmap HeaderHash bool;
  v_blocks : gmap HeaderHash (list Z);
  v_anchor : Point;
  v_chain : list Point;
  v_tip : Point }.

Definition with_header (h : Header) (v : ChainView) : ChainView :=
  mkView (<[header_hash h := h]> (v_headers v)) (v_flags v) (v_blocks v) (v_anchor v) (v_chain v) (v_tip v).
Definition with_flags (f : gmap HeaderHash bool) (v : ChainView) : ChainView :=
  mkView (v_headers v) f (v_blocks v) (v_anchor v) (v_chain v) (v_tip v).
Definition with_block (k : HeaderHash) (b : list Z) (v : ChainView) : ChainView :=
  mkView (v_headers v) (v_flags v) (<[k := b]> (v_blocks v)) (v_anchor v) (v_chain v) (v_tip v).
Definition with_anchor (p : Point) (v : ChainView) : ChainView :=
  mkView (v_headers v) (v_flags v) (v_blocks v) p (v_chain v) (v_tip v).
Definition with_chain (l : list Point) (p : Point) (v : ChainView) : ChainView :=
  mkView (v_headers v) (v_flags v) (v_blocks v) (v_anchor v) l p.

Definition same_place (p q : Point) : Prop := point_slot p = point_slot q ∧ point_hash p = point_hash q.
#[global] Instance same_place_dec p q : Decision (same_place p q).
Proof. unfold same_place. apply _. Defined.
Definition slots_ascending : list Point → Prop := StronglySorted (λ p q, point_slot p < point_slot q).
Definition on_chain (l : list Point) (p : NetworkPoint) : Prop :=
  match p with
  | NetworkOrigin => True
  | NetworkSpecific slot hash => Exists (λ q, point_slot q = slot ∧ point_hash q = hash) l
  end.
(** The chain up to a point. *)
Definition up_to (fork : Point) (l : list Point) : list Point := filter (λ q, point_slot q <= point_slot fork) l.
(** The point after another. *)
Definition next_on_chain (v : ChainView) (p : Point) : option Point :=
  match p with
  | Origin => head (v_chain v)
  | Specific _ hash _ => List.find (λ q, bool_decide (v_headers v !! point_hash q ≫= parent = Some hash)) (v_chain v)
  end.

(** Headers that are under their own hash, after their parents. *)
Record view_ok (v : ChainView) : Prop := {
  vo_hash : ∀ k h, v_headers v !! k = Some h → header_hash h = k ∧ k ≠ ORIGIN_HASH ∧ slot_fits h ∧ 0 <= block_height h;
  vo_step : ∀ k h p hp, v_headers v !! k = Some h → parent h = Some p → v_headers v !! p = Some hp →
    slot hp < slot h ∧ block_height h = block_height hp + 1;
  vo_known : ∀ k h p, v_headers v !! k = Some h → parent h = Some p → p ≠ ORIGIN_HASH }.

(** A best chain of stored headers, each the child of the one before. *)
Definition point_known (v : ChainView) (p : Point) : Prop := ∃ h, v_headers v !! point_hash p = Some h ∧ header_point h = p.
Fixpoint linked (v : ChainView) (l : list Point) : Prop :=
  match l with
  | p :: ((q :: _) as l') => v_headers v !! point_hash q ≫= parent = Some (point_hash p) ∧ linked v l'
  | _ => True
  end.
Definition chain_ok (v : ChainView) : Prop := Forall (point_known v) (v_chain v) ∧ linked v (v_chain v).

(** ** The stores that implement it *)

Class ChainStore (S : Type) `{!BaseReadChainStore S, !WriteChainStore S} := {
  store_ok : S → Prop;
  view : S → ChainView;
  view_load s k : load_header_with_validity s k = (λ h, (h, v_flags (view s) !! k)) <$> v_headers (view s) !! k;
  view_children s k c : store_ok s →
    c ∈ get_children s k ↔ ∃ h, v_headers (view s) !! c = Some h ∧ default ORIGIN_HASH (parent h) = k;
  view_children_once s k : store_ok s → NoDup (get_children s k);
  view_anchor s : get_anchor_point s = v_anchor (view s);
  view_tip s : get_best_chain_tip s = v_tip (view s);
  view_load_block s k : load_block s k = v_blocks (view s) !! k;
  view_block s k : has_block s k = is_some (v_blocks (view s) !! k);
  view_on_best s p : store_ok s → is_on_best_chain s p = true ↔ on_chain (v_chain (view s)) p;
  view_ascending s : store_ok s → slots_ascending (v_chain (view s));
  view_next s p : store_ok s → view_ok (view s) → chain_ok (view s) → p = Origin ∨ point_known (view s) p →
    next_best_chain s p = next_on_chain (view s) p;
  impl_store_header h s : store_ok s → v_headers (view s) !! header_hash h = None ∨ v_headers (view s) !! header_hash h = Some h →
    store_ok (store_header h s) ∧ view (store_header h s) = with_header h (view s);
  impl_store_block k b s : store_ok s → store_ok (store_block k b s) ∧ view (store_block k b s) = with_block k b (view s);
  impl_set_block_valid k b s : store_ok s →
    store_ok (set_block_valid k b s) ∧ view (set_block_valid k b s) = with_flags (<[k := b]> (v_flags (view s))) (view s);
  impl_remove_block_valid k s : store_ok s →
    store_ok (remove_block_valid k s) ∧ view (remove_block_valid k s) = with_flags (delete k (v_flags (view s))) (view s);
  impl_set_anchor_point p s : store_ok s → store_ok (set_anchor_point p s) ∧ view (set_anchor_point p s) = with_anchor p (view s);
  impl_set_best_chain_tip p s : store_ok s →
    store_ok (set_best_chain_tip p s) ∧ view (set_best_chain_tip p s) = with_chain (v_chain (view s)) p (view s);
  impl_switch_to_fork fork l s : store_ok s → Exists (same_place fork) (v_chain (view s)) → 0 <= point_slot fork < u64_max →
    slots_ascending (up_to fork (v_chain (view s)) ++ l) →
    ∃ s', switch_to_fork fork l s = Ok s' ∧ store_ok s' ∧
      view s' = with_chain (up_to fork (v_chain (view s)) ++ l) (default fork (last l)) (view s);
  impl_switch_refused fork l s : store_ok s → ¬ Exists (same_place fork) (v_chain (view s)) → switch_to_fork fork l s = Err ReadError;
  impl_roll_forward_chain p s : store_ok s → slots_ascending (v_chain (view s) ++ [p]) →
    store_ok (roll_forward_chain p s) ∧ view (roll_forward_chain p s) = with_chain (v_chain (view s) ++ [p]) p (view s) }.

(** ** Facts on chains *)

Lemma linked_cons v p l : linked v (p :: l) → linked v l.
Proof. destruct l as [|q l]; [done|]. by intros [_ Hl]. Qed.
Lemma linked_app v l1 p q l2 : linked v (l1 ++ p :: q :: l2) → v_headers v !! point_hash q ≫= parent = Some (point_hash p).
Proof. induction l1 as [|x l1 IH]; [by intros [Hl _]|]. intros Hl. apply IH. by apply (linked_cons v x). Qed.
Lemma slots_ascending_app l1 l2 : slots_ascending (l1 ++ l2) ↔
  slots_ascending l1 ∧ slots_ascending l2 ∧ ∀ p q, p ∈ l1 → q ∈ l2 → point_slot p < point_slot q.
Proof.
  induction l1 as [|x l1 IH]; cbn [app].
  { split; [|tauto]. intros Hl. split; [constructor|]. split; [done|]. set_solver. }
  unfold slots_ascending in *. split.
  - intros Hl. inversion Hl as [|? ? Hs Hf]; subst. apply IH in Hs as (H1 & H2 & Hx). rewrite Forall_app in Hf. destruct Hf as [Hf1 Hf2].
    split; [by constructor|]. split; [done|]. intros p q [->|Hp]%elem_of_cons Hq; [|by apply Hx]. rewrite Forall_forall in Hf2. by apply Hf2.
  - intros (Hl & H2 & Hx). inversion Hl as [|? ? Hs Hf]; subst. constructor; [apply IH; split; [done|]; split; [done|]; set_solver|].
    rewrite Forall_app. split; [done|]. rewrite Forall_forall. set_solver.
Qed.

(** The point after one that is known: what is before it on the chain is not above. *)
Lemma next_split v p h hash height r : view_ok v → chain_ok v → slots_ascending (v_chain v) →
  p = Specific h hash height → point_known v p → r ∈ v_chain v → v_headers v !! point_hash r ≫= parent = Some hash →
  ∃ l1 l2, v_chain v = l1 ++ r :: l2 ∧ Forall (λ q, point_slot q <= point_slot p) l1 ∧ point_slot p < point_slot r.
Proof.
  intros Hv [Hk Hl] Ha Hp (hp & Hhp & Hpp) Hr Hpar. pose proof Hr as (l1 & l2 & Hc)%list_elem_of_split. exists l1, l2. split; [done|].
  rewrite Forall_forall in Hk. destruct (Hk r Hr) as (hr & Hhr & Hrp). rewrite Hhr in Hpar. cbn in Hpar.
  assert (point_hash p = hash) as Hph by by subst p. rewrite Hph in Hhp.
  destruct (vo_step _ Hv _ _ _ _ Hhr Hpar Hhp) as [Hlt _]. split.
  - destruct l1 as [|q l1 _] using rev_ind; [constructor|]. rewrite Hc in Hl. rewrite <- app_assoc in Hl. cbn [app] in Hl. apply linked_app in Hl.
    rewrite Hhr in Hl. cbn in Hl. rewrite Hpar in Hl. injection Hl as Hl.
    assert (q ∈ v_chain v) as Hq by (rewrite Hc; set_solver). destruct (Hk q Hq) as (hq & Hhq & Hqp). rewrite <- Hl, Hhp in Hhq. injection Hhq as <-.
    assert (p = q) as <- by congruence. rewrite Hc in Ha. apply slots_ascending_app in Ha as (Ha & _ & _). apply slots_ascending_app in Ha as (_ & _ & Ha).
    rewrite Forall_app. split; [|by constructor]. rewrite Forall_forall. intros x Hx. specialize (Ha x p Hx). specialize (Ha ltac:(set_solver)). lia.
  - rewrite <- Hpp, <- Hrp. exact Hlt.
Qed.

(** It is the first above. *)
Lemma find_first {A} (P : A → bool) l1 r l2 : Forall (λ x, P x = false) l1 → P r = true → List.find P (l1 ++ r :: l2) = Some r.
Proof. induction 1 as [|x l1 Hx _ IH]; cbn [app List.find]; [by intros ->|]. rewrite Hx. done. Qed.
Lemma find_none {A} (P : A → bool) l : List.find P l = None ↔ Forall (λ x, P x = false) l.
Proof.
  induction l as [|x l IH]; cbn [List.find]; [done|]. rewrite Forall_cons. destruct (P x); [|by rewrite IH; naive_solver]. naive_solver.
Qed.
Lemma next_first v p h hash height r : view_ok v → chain_ok v → slots_ascending (v_chain v) →
  p = Specific h hash height → point_known v p → r ∈ v_chain v → v_headers v !! point_hash r ≫= parent = Some hash →
  List.find (λ q, point_slot p <? point_slot q) (v_chain v) = Some r.
Proof.
  intros Hv Hc Ha Hp Hk Hr Hpar. destruct (next_split v p h hash height r) as (l1 & l2 & -> & Hl1 & Hlt); try done.
  apply find_first; [|by apply Z.ltb_lt]. eapply Forall_impl; [exact Hl1|]. intros q ?. by apply Z.ltb_ge.
Qed.
Lemma next_on_chain_elem v p r : view_ok v → chain_ok v → slots_ascending (v_chain v) → p ≠ Origin → point_known v p →
  next_on_chain v p = Some r ↔ r ∈ v_chain v ∧ v_headers v !! point_hash r ≫= parent = Some (point_hash p).
Proof.
  intros Hv Hc Ha Hp Hk. destruct p as [|h hash height]; [done|]. cbn [next_on_chain point_hash]. split.
  - intros Hf. apply find_some in Hf as [Hin Hb]. apply bool_decide_eq_true in Hb. rewrite <- list_elem_of_In in Hin. done.
  - intros [Hin Hpar]. destruct (List.find _ _) as [r'|] eqn:Hf.
    + apply find_some in Hf as [Hin' Hb]. apply bool_decide_eq_true in Hb. rewrite <- list_elem_of_In in Hin'.
      pose proof (next_first v _ h hash height r Hv Hc Ha eq_refl Hk Hin Hpar) as H1.
      pose proof (next_first v _ h hash height r' Hv Hc Ha eq_refl Hk Hin' Hb) as H2. congruence.
    + rewrite find_none, Forall_forall in Hf. specialize (Hf r Hin). apply bool_decide_eq_false in Hf. done.
Qed.

Lemma filter_none {A} (P : A → Prop) `{∀ x, Decision (P x)} (l : list A) : Forall (λ x, ¬ P x) l → filter P l = [].
Proof. induction 1 as [|x l Hx _ IH]; [done|]. by rewrite filter_cons_False. Qed.

(** ** RocksDB *)
Module RocksView.
Definition children_asc : list HeaderHash → Prop := StronglySorted (λ a b, bytes_compare a b = Lt).

Record ok (db : RocksDBStore) : Prop := {
  rk_children : ∀ k c, c ∈ Rocks.children_of db k ↔ ∃ h, db_headers db !! c = Some h ∧ default ORIGIN_HASH (parent h) = k;
  rk_sorted : ∀ k, children_asc (Rocks.children_of db k);
  rk_chain : BTreeMap.ascending (db_chain db);
  rk_slots : Forall (λ kv : Z * Point, kv.1 = point_slot kv.2) (db_chain db) }.

Definition of_db (db : RocksDBStore) : ChainView :=
  mkView (db_headers db) (db_validity db) (db_blocks db) (default Origin (db_anchor db)) (map snd (db_chain db))
    (default Origin (db_best_chain db)).

Lemma elem_of_insert_key c k l : c ∈ insert_key k l ↔ c = k ∨ c ∈ l.
Proof.
  induction l as [|x l IH]; cbn [insert_key]; [set_solver|].
  destruct (bytes_compare k x) eqn:Hx; [apply bytes_compare_eq in Hx as ->; set_solver|set_solver|]. rewrite !elem_of_cons, IH. tauto.
Qed.
Lemma insert_key_asc k l : children_asc l → children_asc (insert_key k l).
Proof.
  unfold children_asc. induction 1 as [|x l Hl IH Hx]; cbn [insert_key]; [repeat constructor|].
  destruct (bytes_compare k x) eqn:Hc; [by constructor| |].
  - constructor; [by constructor|]. constructor; [done|]. eapply Forall_impl; [exact Hx|]. intros y Hy. by apply (bytes_compare_trans k x y).
  - constructor; [done|]. rewrite Forall_forall in Hx |- *. intros y [->|Hy]%elem_of_insert_key; [by apply bytes_compare_gt_lt|by apply Hx].
Qed.
Lemma asc_NoDup l : children_asc l → NoDup l.
Proof.
  induction 1 as [|x l Hl IH Hx]; constructor; [|done]. intros Hin. rewrite Forall_forall in Hx. specialize (Hx x Hin).
  by apply bytes_compare_lt_neq in Hx.
Qed.

Lemma chain_get db slot q : ok db → BTreeMap.get slot (db_chain db) = Some q ↔ q ∈ map snd (db_chain db) ∧ point_slot q = slot.
Proof.
  intros [_ _ Hc Hs]. rewrite BTreeMap.get_elem by done. rewrite Forall_forall in Hs. split.
  - intros Hin. split; [by apply (list_elem_of_fmap_2 snd _ _ Hin)|]. by specialize (Hs _ Hin).
  - intros [Hin Hq]. apply list_elem_of_fmap in Hin as ([k q'] & -> & Hin). specialize (Hs _ Hin). cbn in *. by subst.
Qed.
Lemma on_best db p : ok db → Rocks.on_best_chain db p = true ↔ on_chain (map snd (db_chain db)) p.
Proof.
  intros Hok. destruct p as [|slot hash]; cbn [Rocks.on_best_chain on_chain]; [done|]. rewrite Exists_exists.
  destruct (BTreeMap.get slot (db_chain db)) as [q|] eqn:Hg.
  - rewrite bool_decide_eq_true. pose proof Hg as [Hin Hq]%chain_get; [|done]. split; [by intros; exists q|]. intros (q' & Hin' & Hs & Hh).
    assert (BTreeMap.get slot (db_chain db) = Some q') by (by apply chain_get). congruence.
  - split; [done|]. intros (q & Hin & Hs & _). assert (BTreeMap.get slot (db_chain db) = Some q) by (by apply chain_get). congruence.
Qed.
Lemma chain_ascending db : ok db → slots_ascending (map snd (db_chain db)).
Proof.
  intros [_ _ Hc Hs]. unfold slots_ascending, BTreeMap.ascending in *.
  induction Hc as [|[k q] l Hl IH Hx]; cbn [map]; constructor; apply Forall_cons in Hs as [Hk Hs]; [by apply IH|].
  rewrite Forall_forall in Hs. apply Forall_forall. intros q' ([k' q''] & -> & Hin)%list_elem_of_fmap.
  rewrite Forall_forall in Hx. specialize (Hx _ Hin). specialize (Hs _ Hin). cbn in *. lia.
Qed.

Lemma find_map_Some {A B} (f : A → option B) l y : find_map f l = Some y → ∃ x, x ∈ l ∧ f x = Some y.
Proof. induction l as [|x l IH]; cbn [find_map]; [done|]. destruct (f x) eqn:Hf; [intros [= ->]; exists x; set_solver|]. intros Hl. destruct (IH Hl) as (z & ? & ?). set_solver. Qed.
Lemma find_map_None {A B} (f : A → option B) l x : find_map f l = None → x ∈ l → f x = None.
Proof. induction l as [|z l IH]; cbn [find_map]; [set_solver|]. destruct (f z) eqn:Hf; [done|]. intros Hl [->|Hin]%elem_of_cons; auto. Qed.

(** The child of a point on the chain. *)
Definition on_best_child (db : RocksDBStore) (child : HeaderHash) : option Point :=
  header ← db_headers db !! child;
  if Rocks.on_best_chain db (to_network_point (header_point header)) then Some (header_point header) else None.

Lemma on_best_child_ok db hash child r : ok db → view_ok (of_db db) → chain_ok (of_db db) → hash ≠ ORIGIN_HASH →
  child ∈ Rocks.children_of db hash → on_best_child db child = Some r →
  r ∈ map snd (db_chain db) ∧ db_headers db !! point_hash r ≫= parent = Some hash.
Proof.
  intros Hok Hv [Hk _] Ho (h & Hh & Hp)%(rk_children _ Hok). unfold on_best_child. rewrite Hh. cbn [mbind option_bind].
  destruct (Rocks.on_best_chain db _) eqn:Hb; [|done]. intros [= <-]. apply on_best in Hb; [|done]. cbn [header_point to_network_point on_chain] in Hb.
  apply Exists_exists in Hb as (q & Hin & Hs & Hq). rewrite Forall_forall in Hk. destruct (Hk q Hin) as (hq & Hhq & <-).
  destruct (vo_hash _ Hv _ _ Hh) as (Hhc & _). cbn in Hhq, Hq. rewrite Hq, Hhc in Hhq. cbn in Hhq. rewrite Hh in Hhq. injection Hhq as <-.
  split; [done|]. cbn. rewrite Hhc, Hh. cbn [mbind option_bind]. destruct (parent h); unfold default, from_option, id in Hp; congruence.
Qed.
Lemma on_best_child_found db r hash : ok db → view_ok (of_db db) → chain_ok (of_db db) →
  r ∈ map snd (db_chain db) → db_headers db !! point_hash r ≫= parent = Some hash →
  point_hash r ∈ Rocks.children_of db hash ∧ on_best_child db (point_hash r) = Some r.
Proof.
  intros Hok Hv [Hk _] Hin Hp. rewrite Forall_forall in Hk. destruct (Hk r Hin) as (h & Hh & Hr). cbn in Hh. unfold on_best_child.
  rewrite Hh in Hp |- *. cbn [mbind option_bind] in Hp |- *. split; [apply (rk_children _ Hok); exists h; by rewrite Hp|].
  rewrite Hr. rewrite (proj2 (on_best db _ Hok)); [done|]. rewrite <- Hr. cbn. apply Exists_exists. exists r. by rewrite <- Hr at 2 3.
Qed.

Lemma next db p : ok db → view_ok (of_db db) → chain_ok (of_db db) → p = Origin ∨ point_known (of_db db) p →
  Rocks.next_best_chain db p = next_on_chain (of_db db) p.
Proof.
  intros Hok Hv Hc Hp. destruct p as [|sl hash height]; [cbn; by destruct (db_chain db)|].
  destruct Hp as [|Hk]; [done|]. pose proof Hk as (hp & Hhp & _). cbn [point_hash] in Hhp. destruct (vo_hash _ Hv _ _ Hhp) as (_ & Ho & _).
  apply option_eq. intros r. rewrite next_on_chain_elem by (done || by apply chain_ascending). cbn [point_hash].
  change (Rocks.next_best_chain db (Specific sl hash height)) with (find_map (on_best_child db) (Rocks.children_of db hash)). split.
  - intros (c & Hin & Hf)%find_map_Some. by apply (on_best_child_ok db hash c).
  - intros [Hin Hpar]. destruct (on_best_child_found db r hash Hok Hv Hc Hin Hpar) as [Hch Hf].
    destruct (find_map _ _) as [r'|] eqn:He; [|pose proof (find_map_None _ _ _ He Hch); congruence].
    apply find_map_Some in He as (c' & Hin' & Hf'). pose proof (on_best_child_ok db hash c' r' Hok Hv Hc Ho Hin' Hf') as Hr'.
    pose proof (proj2 (next_on_chain_elem _ (Specific sl hash height) _ Hv Hc (chain_ascending db Hok) ltac:(done) Hk) (conj Hin Hpar)) as H1.
    pose proof (proj2 (next_on_chain_elem _ (Specific sl hash height) _ Hv Hc (chain_ascending db Hok) ltac:(done) Hk) Hr') as H2. congruence.
Qed.

Lemma children_of_put h db k : Rocks.children_of (Rocks.put_header h db) k =
  if decide (k = default ORIGIN_HASH (parent h)) then insert_key (header_hash h) (Rocks.children_of db k) else Rocks.children_of db k.
Proof.
  unfold Rocks.put_header, Rocks.children_of. cbn [db_children]. case_decide as Hk; [|by rewrite lookup_insert_ne].
  rewrite Hk. by rewrite lookup_insert_eq.
Qed.
Lemma ok_put_header h db : ok db → db_headers db !! header_hash h = None ∨ db_headers db !! header_hash h = Some h →
  ok (Rocks.put_header h db).
Proof.
  intros [Hch Hs Hc Hsl] Hnew. split; [|intros k; rewrite children_of_put; case_decide; [by apply insert_key_asc|done]|done|done].
  intros k c. rewrite children_of_put. cbn [Rocks.put_header db_headers]. rewrite lookup_insert. case_decide as Hk.
  - rewrite elem_of_insert_key, Hch. case_decide as Hc'; [subst c|].
    + split; [intros _; by exists h|by left].
    + split; [intros [->|?]; done|auto].
  - rewrite Hch. case_decide as Hc'; [subst c|done]. split.
    + intros (h' & Hh' & Hp). destruct Hnew as [Hn|Hn]; [congruence|]. assert (h' = h) as -> by congruence. by exists h.
    + intros (h' & [= <-] & Hp). congruence.
Qed.

(** The keys of the points kept, and those of the points that go after them. *)
Lemma filter_snd (l : list (Z * Point)) (n : Z) : Forall (λ kv : Z * Point, kv.1 = point_slot kv.2) l →
  map snd (filter (λ kv : Z * Point, kv.1 < n + 1) l) = filter (λ q, point_slot q <= n) (map snd l).
Proof.
  induction 1 as [|[k q] l Hk Hl IH]; [done|]. cbn in Hk. cbn [map snd]. rewrite !filter_cons. cbn [fst snd].
  destruct (decide (k < n + 1)), (decide (point_slot q <= n)); try lia; cbn [map snd]; by rewrite IH.
Qed.
Lemma insert_all db forward : BTreeMap.ascending db → Forall (λ kv : Z * Point, kv.1 = point_slot kv.2) db →
  slots_ascending (map snd db ++ forward) →
  let db' := foldl (λ c p, BTreeMap.insert (point_slot p) p c) db forward in
  BTreeMap.ascending db' ∧ Forall (λ kv : Z * Point, kv.1 = point_slot kv.2) db' ∧ map snd db' = map snd db ++ forward.
Proof.
  revert db. induction forward as [|p l IH]; intros db Ha Hs Hasc; cbn [foldl]; [by rewrite app_nil_r|].
  assert (Forall (λ kv : Z * Point, kv.1 < point_slot p) db) as Hlt.
  { apply slots_ascending_app in Hasc as (_ & _ & Hx). rewrite Forall_forall in Hs |- *. intros kv Hkv. rewrite (Hs kv Hkv).
    apply Hx; [by apply (list_elem_of_fmap_2 snd)|left]. }
  rewrite BTreeMap.insert_last by done. destruct (IH (db ++ [(point_slot p, p)])) as (H1 & H2 & H3).
  - by apply BTreeMap.ascending_snoc.
  - rewrite Forall_app. split; [done|by constructor].
  - rewrite map_app, <- app_assoc. done.
  - split; [done|]. split; [done|]. rewrite H3, map_app, <- app_assoc. done.
Qed.

Lemma stored_place db fork : ok db →
  match BTreeMap.get (point_slot fork) (db_chain db) with
  | Some q => Exists (same_place fork) (map snd (db_chain db)) ↔ point_hash q = point_hash fork
  | None => ¬ Exists (same_place fork) (map snd (db_chain db))
  end.
Proof.
  intros Hok. destruct (BTreeMap.get _ _) as [q|] eqn:Hg.
  - pose proof Hg as [Hin Hq]%chain_get; [|done]. rewrite Exists_exists. split; [|intros Hh; exists q; split; [done|by split]].
    intros (q' & Hin' & Hs & Hh). assert (BTreeMap.get (point_slot fork) (db_chain db) = Some q') by (apply chain_get; done). congruence.
  - rewrite Exists_exists. intros (q & Hin & Hs & _). assert (BTreeMap.get (point_slot fork) (db_chain db) = Some q) by (apply chain_get; done). congruence.
Qed.
Lemma ok_set_chain db l best : ok db → BTreeMap.ascending l → Forall (λ kv : Z * Point, kv.1 = point_slot kv.2) l →
  ok (Rocks.set_chain l best db).
Proof. intros [H1 H2 H3 H4] Hl Hs. by split. Qed.

Lemma switch_ok fork l db : ok db → Exists (same_place fork) (map snd (db_chain db)) → 0 <= point_slot fork < u64_max →
  slots_ascending (up_to fork (map snd (db_chain db)) ++ l) →
  ∃ db', Rocks.switch_to_fork fork l db = Ok db' ∧ ok db' ∧
    of_db db' = with_chain (up_to fork (map snd (db_chain db)) ++ l) (default fork (last l)) (of_db db).
Proof.
  intros Hok Hex Hfork Hasc. unfold Rocks.switch_to_fork. pose proof (stored_place db fork Hok) as Hp.
  destruct (BTreeMap.get _ _) as [q|]; [|done]. rewrite decide_True by (by apply Hp). unfold u64_add.
  rewrite (proj2 (Z.leb_le _ _)) by lia. cbn [mbind exec_bind]. eexists. split; [done|].
  pose proof (rk_chain _ Hok) as Hc. pose proof (rk_slots _ Hok) as Hs.
  unfold up_to in Hasc. rewrite <- filter_snd in Hasc by done. apply insert_all in Hasc as (H1 & H2 & H3); [|by apply BTreeMap.ascending_filter|by apply Forall_filter].
  split; [by apply ok_set_chain|]. unfold of_db, with_chain. cbn [Rocks.set_chain db_chain db_best_chain db_anchor db_blocks db_headers db_validity v_headers v_flags v_blocks v_anchor v_chain v_tip default].
  f_equal. cbv zeta in H3. rewrite H3. unfold up_to. by rewrite filter_snd.
Qed.
Lemma roll_ok p db : ok db → slots_ascending (map snd (db_chain db) ++ [p]) →
  ok (Rocks.roll_forward_chain p db) ∧ of_db (Rocks.roll_forward_chain p db) = with_chain (map snd (db_chain db) ++ [p]) p (of_db db).
Proof.
  intros Hok Hasc. pose proof (rk_chain _ Hok) as Hc. pose proof (rk_slots _ Hok) as Hs. apply insert_all in Hasc as (H1 & H2 & H3); [|done|done].
  cbn [foldl] in H1, H2, H3. split; [by apply ok_set_chain|]. unfold of_db, with_chain, Rocks.roll_forward_chain. cbn. by rewrite H3.
Qed.

#[global] Instance chain_store : ChainStore RocksDBStore.
Proof.
  refine {| store_ok := ok; view := of_db |}.
  - done.
  - intros db k c Hok. apply (rk_children _ Hok).
  - intros db k Hok. apply asc_NoDup, (rk_sorted _ Hok).
  - done.
  - done.
  - done.
  - done.
  - intros db p Hok. by apply on_best.
  - intros db Hok. by apply chain_ascending.
  - intros db p. apply next.
  - intros h db Hok Hn. split; [by apply ok_put_header|done].
  - intros k b db Hok. split; [by destruct Hok|done].
  - intros k b db Hok. split; [by destruct Hok|done].
  - intros k db Hok. split; [by destruct Hok|done].
  - intros p db Hok. split; [by destruct Hok|done].
  - intros p db Hok. split; [by destruct Hok|done].
  - intros fork l db. apply switch_ok.
  - intros fork l db Hok Hn. cbn. unfold Rocks.switch_to_fork. pose proof (stored_place db fork Hok) as Hp.
    destruct (BTreeMap.get _ _); [|done]. rewrite decide_False by tauto. done.
  - intros p db. apply roll_ok.
Defined.
End RocksView.

(** ** In memory *)
Module InMemoryView.
Record ok (st : InMemoryChainStoreInner) : Prop := {
  im_children : ∀ k c, c ∈ InMemory.children_of st k ↔ ∃ h, headers st !! c = Some h ∧ default ORIGIN_HASH (parent h) = k;
  im_once : ∀ k, NoDup (InMemory.children_of st k);
  im_chain : slots_ascending (chain st) }.

Definition of_store (st : InMemoryChainStoreInner) : ChainView :=
  mkView (headers st) (block_validity st) (blocks st) (anchor st) (chain st) (best_chain st).

Lemma mem_on_best l p : InMemory.is_on_in_memory_best_chain l p = true ↔ on_chain l p.
Proof.
  destruct p as [|slot hash]; cbn [InMemory.is_on_in_memory_best_chain on_chain]; [done|]. rewrite existsb_exists, Exists_exists.
  split; intros (q & Hin & Hq); exists q; rewrite <- list_elem_of_In in *; (split; [done|]).
  - apply andb_true_iff in Hq as [Hs Hh]. apply bool_decide_eq_true in Hh. split; [lia|done].
  - destruct Hq as [-> ->]. rewrite Z.eqb_refl. by rewrite bool_decide_eq_true_2.
Qed.

Lemma mem_next st p : ok st → view_ok (of_store st) → chain_ok (of_store st) → p = Origin ∨ point_known (of_store st) p →
  InMemory.successor_on_best_chain (chain st) p (λ hash, headers st !! hash ≫= parent) = next_on_chain (of_store st) p.
Proof.
  intros Hok Hv Hc Hp. destruct p as [|sl hash height]; [cbn; by destruct (chain st)|]. destruct Hp as [|Hk]; [done|].
  apply option_eq. intros r. rewrite next_on_chain_elem by (done || apply (im_chain _ Hok)). cbn [point_hash].
  unfold InMemory.successor_on_best_chain, InMemory.get_next_best_chain. split.
  - intros Hr. destruct (List.find _ _) as [q|] eqn:Hf; [|done]. cbn [mbind option_bind] in Hr. case_decide; [|done]. injection Hr as <-.
    apply find_some in Hf as [Hin _]. by rewrite <- list_elem_of_In in Hin.
  - intros [Hin Hpar]. pose proof (next_first (of_store st) _ sl hash height r Hv Hc (im_chain _ Hok) eq_refl Hk Hin Hpar) as Hf.
    cbn [point_slot of_store v_chain] in Hf. rewrite Hf. cbn [mbind option_bind]. by rewrite decide_True.
Qed.

Lemma mem_children_of_put h st k : InMemory.children_of (InMemory.put_header h st) k =
  if decide (k = default ORIGIN_HASH (parent h))
  then if decide (header_hash h ∈ InMemory.children_of st k) then InMemory.children_of st k else InMemory.children_of st k ++ [header_hash h]
  else InMemory.children_of st k.
Proof.
  unfold InMemory.put_header, InMemory.children_of. cbn [parent_child_relationship]. destruct (decide (k = default ORIGIN_HASH (parent h))) as [Hk|Hk]; [|by rewrite lookup_insert_ne].
  rewrite Hk. by rewrite lookup_insert_eq.
Qed.
Lemma mem_ok_put_header h st : ok st → headers st !! header_hash h = None ∨ headers st !! header_hash h = Some h →
  ok (InMemory.put_header h st).
Proof.
  intros [Hch Ho Hc] Hnew. split; [| |done].
  - intros k c. rewrite mem_children_of_put. cbn [InMemory.put_header headers]. rewrite lookup_insert. case_decide as Hk.
    + transitivity (c = header_hash h ∨ c ∈ InMemory.children_of st k); [case_decide; set_solver|]. rewrite Hch. case_decide as Hc'; [subst c|].
      * split; [intros _; by exists h|by left].
      * split; [intros [->|?]; done|auto].
    + rewrite Hch. case_decide as Hc'; [subst c|done]. split.
      * intros (h' & Hh' & Hp). destruct Hnew as [Hn|Hn]; [congruence|]. assert (h' = h) as -> by congruence. by exists h.
      * intros (h' & [= <-] & Hp). congruence.
  - intros k. rewrite mem_children_of_put. specialize (Ho k). do 2 (case_decide; try done). apply NoDup_app. split; [done|].
    split; [set_solver|apply NoDup_singleton].
Qed.

(** The position of the fork point cuts the chain where slots do. *)
Lemma rposition_cut fork l : slots_ascending l →
  match InMemory.rposition fork l with
  | Some pos => Exists (same_place fork) l ∧ take (Datatypes.S pos) l = up_to fork l
  | None => ¬ Exists (same_place fork) l
  end.
Proof.
  unfold slots_ascending, up_to. induction 1 as [|p l Hl IH Hx]; cbn [InMemory.rposition]; [by inversion 1|].
  rewrite filter_cons. destruct (InMemory.rposition fork l) as [pos|].
  - destruct IH as [He Ht]. split; [by right|]. apply Exists_exists in He as (q & Hin & Hq & _). rewrite Forall_forall in Hx. specialize (Hx q Hin).
    rewrite decide_True by lia. by rewrite <- Ht.
  - destruct (decide (InMemory.same_chain_point p fork)) as [[Hh Hs]|Hd].
    2: { rewrite Exists_cons. unfold InMemory.same_chain_point, same_place in *. naive_solver. }
    split; [left; by split|]. rewrite decide_True by lia. cbn. f_equal. symmetry. apply filter_none.
    eapply Forall_impl; [exact Hx|]. intros q Hq. cbn in Hq. lia.
Qed.

#[global] Instance chain_store : ChainStore InMemoryChainStoreInner.
Proof.
  refine {| store_ok := ok; view := of_store |}.
  - done.
  - intros st k c Hok. apply (im_children _ Hok).
  - intros st k Hok. apply (im_once _ Hok).
  - done.
  - done.
  - done.
  - done.
  - intros st p Hok. apply mem_on_best.
  - intros st Hok. apply (im_chain _ Hok).
  - intros st p. apply mem_next.
  - intros h st Hok Hn. split; [by apply mem_ok_put_header|done].
  - intros k b st Hok. split; [by destruct Hok|done].
  - intros k b st Hok. split; [by destruct Hok|done].
  - intros k st Hok. split; [by destruct Hok|done].
  - intros p st Hok. split; [by destruct Hok|done].
  - intros p st Hok. split; [by destruct Hok|done].
  - intros fork l st Hok He _ Hasc. cbn in *. unfold InMemory.switch_to_fork. pose proof (rposition_cut fork (chain st) (im_chain _ Hok)) as Hr.
    destruct (InMemory.rposition _ _) as [pos|]; [|done]. destruct Hr as [_ ->]. eexists. split; [done|]. split; [by destruct Hok|done].
  - intros fork l st Hok Hn. cbn in *. unfold InMemory.switch_to_fork. pose proof (rposition_cut fork (chain st) (im_chain _ Hok)) as Hr.
    destruct (InMemory.rposition _ _) as [pos|]; [|done]. by destruct Hr.
  - intros p st Hok Hasc. split; [by destruct Hok|done].
Defined.
End InMemoryView.
