(* ===== verification/ChainStoreProps.v ===== *)
(** * Properties of the chain store

    Walks along parents and children end, and find what they look for: the hashes to
    validate, the highest of the candidates. *)

From S2P Require Import Prelude BTreeMap SortedAssoc UplcSyntax Headers ChainStore ChainView.
#[local] Open Scope Z_scope.

(** ** Well-formed stores

    Headers are under their own hash, a child is after its parent, and one block above;
    children are the headers that name their parent. *)
Section Walks.
Context {S : Type} `{BaseReadChainStore S}.

Record tree_ok (s : S) : Prop := {
  tr_hash : ∀ k h, load_header s k = Some h → header_hash h = k ∧ k ≠ ORIGIN_HASH ∧ slot_fits h ∧ 0 <= block_height h;
  tr_step : ∀ k h p, load_header s k = Some h → parent h ≫= load_header s = Some p →
    slot p < slot h ∧ block_height h = block_height p + 1;
  tr_children : ∀ k c, c ∈ get_children s k ↔ ∃ h, load_header s c = Some h ∧ default ORIGIN_HASH (parent h) = k;
  tr_once : ∀ k, NoDup (get_children s k);
  tr_known : ∀ k h p, load_header s k = Some h → parent h = Some p → p ≠ ORIGIN_HASH }.

Lemma load_header_validity s k h : load_header s k = Some h ↔ ∃ v, load_header_with_validity s k = Some (h, v).
Proof.
  unfold load_header. rewrite fmap_Some. split; [by intros ([h' v] & Hl & ->); exists v|]. intros [v Hv]. by exists (h, v).
Qed.
Lemma bind_load_validity s (o : option HeaderHash) h : o ≫= load_header s = Some h ↔ ∃ v, o ≫= load_header_with_validity s = Some (h, v).
Proof. destruct o as [k|]; cbn [mbind option_bind]; [apply load_header_validity|naive_solver]. Qed.

(** *** Following parents *)

(** What a walk gives: headers of the store, each the parent of the one before. *)
Inductive lineage (s : S) : list (Header * option bool) → Prop :=
| lineage_one x : lineage s [x]
| lineage_cons x y l : parent x.1 ≫= load_header_with_validity s = Some y → lineage s (y :: l) → lineage s (x :: y :: l).

Lemma lineage_inv s x y l : lineage s (x :: y :: l) → parent x.1 ≫= load_header_with_validity s = Some y ∧ lineage s (y :: l).
Proof. by inversion 1. Qed.

Definition stored (s : S) (h : Header) : Prop := load_header s (header_hash h) = Some h.

Lemma stored_load s k h : tree_ok s → load_header s k = Some h → stored s h.
Proof. intros Ht Hl. unfold stored. by destruct (tr_hash _ Ht _ _ Hl) as [-> _]. Qed.
Lemma stored_parent s h y : tree_ok s → stored s h → parent h ≫= load_header_with_validity s = Some y →
  stored s y.1 ∧ slot y.1 < slot h ∧ block_height h = block_height y.1 + 1.
Proof.
  intros Ht Hs Hy. destruct y as [p v]. assert (parent h ≫= load_header s = Some p) as Hp by (apply bind_load_validity; by exists v).
  split; [|by apply (tr_step _ Ht _ _ _ Hs)]. destruct (parent h) as [k|]; [|done]. by apply (stored_load s k).
Qed.

(** A walk ends at the anchor, or where nothing is known. *)
Definition walk_end (s : S) (x : Header * option bool) : Prop :=
  slot x.1 <= point_slot (get_anchor_point s) ∨ parent x.1 ≫= load_header_with_validity s = None.

Lemma ancestors_loop_ok {E : Type} s : tree_ok s → ∀ fuel x, stored s x.1 → (Z.to_nat (slot x.1) < fuel)%nat →
  ∃ l, ancestors_loop (E := E) fuel s (point_slot (get_anchor_point s)) x = Ok (x :: l) ∧ lineage s (x :: l) ∧
    ∃ e, last (x :: l) = Some e ∧ walk_end s e.
Proof.
  intros Ht. induction fuel as [|fuel IH]; intros x Hx Hf; [lia|]. cbn [ancestors_loop].
  destruct (Z.leb_spec (slot x.1) (point_slot (get_anchor_point s))) as [Hle|Hgt].
  { exists []. split; [done|]. split; [constructor|]. exists x. split; [done|by left]. }
  destruct (parent x.1 ≫= load_header_with_validity s) as [y|] eqn:Hy.
  2: { exists []. split; [done|]. split; [constructor|]. exists x. split; [done|by right]. }
  destruct (stored_parent s x.1 y Ht Hx Hy) as (Hsy & Hlt & _).
  destruct (tr_hash _ Ht _ _ Hsy) as (_ & _ & [H0 _] & _).
  destruct (IH y Hsy) as (l & -> & Hl & e & He & Hend); [lia|]. cbn [mbind exec_bind].
  exists (y :: l). split; [done|]. split; [by constructor|]. exists e. split; [|done]. by rewrite last_cons_cons.
Qed.

Lemma lineage_stored s x l : tree_ok s → stored s x.1 → lineage s (x :: l) → Forall (λ y, stored s y.1) (x :: l).
Proof.
  intros Ht. revert x. induction l as [|y l IH]; intros x Hx Hl; constructor; [done|done|done|].
  apply lineage_inv in Hl as [Hy Hl]. apply IH; [|done]. by destruct (stored_parent s x.1 y Ht Hx Hy).
Qed.
Lemma lineage_slots s x l y : tree_ok s → stored s x.1 → lineage s (x :: l) → y ∈ l → slot y.1 < slot x.1 ∧ block_height y.1 < block_height x.1.
Proof.
  intros Ht. revert x. induction l as [|z l IH]; intros x Hx Hl Hy; [by apply elem_of_nil in Hy|].
  apply lineage_inv in Hl as [Hz Hl]. destruct (stored_parent s x.1 z Ht Hx Hz) as (Hsz & Hlt & Hh).
  apply elem_of_cons in Hy as [->|Hy]; [lia|]. destruct (IH z Hsz Hl Hy). lia.
Qed.

(** *** Following children *)

(** Where a walk of the candidates starts. *)
Definition roots (s : S) : list HeaderHash :=
  if decide (get_anchor_hash s = ORIGIN_HASH) then get_children s ORIGIN_HASH else [get_anchor_hash s].

Lemma child_parent s k c : tree_ok s → k ≠ ORIGIN_HASH → c ∈ get_children s k →
  ∃ h, load_header s c = Some h ∧ parent h = Some k.
Proof.
  intros Ht Hk (h & Hh & Hp)%(tr_children _ Ht). exists h. split; [done|]. destruct (parent h); unfold default, from_option, id in Hp; congruence.
Qed.
Lemma child_height s k h c : tree_ok s → load_header s k = Some h → c ∈ get_children s k →
  ∃ h', load_header s c = Some h' ∧ block_height h' = block_height h + 1.
Proof.
  intros Ht Hk Hc. destruct (tr_hash _ Ht _ _ Hk) as (_ & Ho & _).
  destruct (child_parent s k c Ht Ho Hc) as (h' & Hh' & Hp). exists h'. split; [done|].
  apply (tr_step _ Ht c h' h); [done|]. by rewrite Hp.
Qed.

(** The headers seen, and those to visit. *)
Record visiting (s : S) (seen : gset HeaderHash) (to_visit : list HeaderHash) : Prop := {
  vi_once : NoDup to_visit;
  vi_new : ∀ k, k ∈ to_visit → k ∉ seen;
  vi_from : ∀ k, k ∈ to_visit ∨ k ∈ seen → ∃ h, load_header s k = Some h ∧
    (k ∈ roots s ∨ ∃ p, default ORIGIN_HASH (parent h) = p ∧ p ∈ seen) ∧
    (∀ a, get_anchor_hash s ≠ ORIGIN_HASH → load_header s (get_anchor_hash s) = Some a → block_height a <= block_height h) }.

Definition anchor_known (s : S) : Prop := get_anchor_hash s = ORIGIN_HASH ∨ is_Some (load_header s (get_anchor_hash s)).

Lemma visiting_start s l : tree_ok s → anchor_known s → l ≡ₚ roots s → visiting s ∅ l.
Proof.
  intros Ht Ha Hl. split.
  - rewrite Hl. unfold roots. case_decide; [apply (tr_once _ Ht)|apply NoDup_singleton].
  - set_solver.
  - intros k [Hk|Hk]; [|set_solver]. rewrite Hl in Hk. pose proof Hk as Hroot. unfold roots in Hk. case_decide as Ho.
    + apply (tr_children _ Ht) in Hk as (h & Hh & _). exists h. split; [done|]. split; [by left|]. congruence.
    + apply list_elem_of_singleton in Hk as ->. destruct Ha as [|[h Hh]]; [done|]. exists h. split; [done|]. split; [by left|].
      intros a _ Hh'. rewrite Hh in Hh'. injection Hh' as ->. lia.
Qed.

Lemma visiting_skip s seen k l : visiting s seen (k :: l) → visiting s ({[k]} ∪ seen) l.
Proof.
  intros [Hn Hw Hf]. apply NoDup_cons in Hn as [Hk Hn]. split; [done|set_solver|]. intros j Hj.
  destruct (Hf j) as (h & Hh & Hp & Ha); [set_solver|]. exists h. split; [done|]. split; [|done]. set_solver.
Qed.
Lemma visiting_children s seen k l l' : tree_ok s → visiting s seen (k :: l) → l' ≡ₚ get_children s k →
  visiting s ({[k]} ∪ seen) (l' ++ l).
Proof.
  intros Ht Hv Hl'. pose proof (visiting_skip _ _ _ _ Hv) as [Hn Hw Hf]. destruct Hv as [Hn0 Hw0 Hf0].
  destruct (Hf0 k) as (h & Hh & Hp & Ha); [set_solver|]. destruct (tr_hash _ Ht _ _ Hh) as (_ & Hko & _).
  assert (∀ c, c ∈ get_children s k → ¬ (c ∈ k :: l ∨ c ∈ seen)) as Hfresh.
  { intros c Hc Hin. destruct (child_parent s k c Ht Hko Hc) as (hc & Hhc & Hpc).
    destruct (child_height s k h c Ht Hh Hc) as (hc' & Hhc' & Hht). rewrite Hhc in Hhc'. injection Hhc' as <-.
    destruct (Hf0 c Hin) as (hc' & Hhc' & [Hr|(p & Hdp & Hps)] & _).
    - unfold roots in Hr. case_decide as Ho.
      + apply (tr_children _ Ht) in Hr as (h2 & Hh2 & Hd). rewrite Hhc in Hh2. injection Hh2 as <-. rewrite Hpc in Hd. unfold default, from_option, id in Hd. congruence.
      + apply list_elem_of_singleton in Hr as ->. specialize (Ha hc Ho Hhc). lia.
    - rewrite Hhc in Hhc'. injection Hhc' as <-. rewrite Hpc in Hdp. unfold default, from_option, id in Hdp. subst p. apply (Hw0 k); [set_solver|done]. }
  split.
  - apply NoDup_app. split; [rewrite Hl'; apply (tr_once _ Ht)|]. split; [|done]. intros c Hc. rewrite Hl' in Hc. specialize (Hfresh c Hc). set_solver.
  - intros c. rewrite elem_of_app. intros [Hc|Hc]; [rewrite Hl' in Hc; specialize (Hfresh c Hc); set_solver|by apply Hw].
  - intros c. rewrite elem_of_app. intros [[Hc|Hc]|Hc]; [|apply Hf; auto..]. rewrite Hl' in Hc.
    destruct (child_parent s k c Ht Hko Hc) as (hc & Hhc & Hpc). destruct (child_height s k h c Ht Hh Hc) as (hc' & Hhc' & Hht).
    rewrite Hhc in Hhc'. injection Hhc' as <-. exists hc. split; [done|]. split.
    + right. exists k. rewrite Hpc. split; [done|]. set_solver.
    + intros a Ho Hal. specialize (Ha a Ho Hal). lia.
Qed.

(** A walk within a finite set of headers has enough fuel. *)
Definition all_headers (s : S) (X : gset HeaderHash) : Prop := ∀ k, is_Some (load_header s k) → k ∈ X.
Lemma visiting_room s X seen k l : all_headers s X → visiting s seen (k :: l) → (size seen < size X)%nat ∧ size ({[k]} ∪ seen) = Datatypes.S (size seen).
Proof.
  intros HX [Hn Hw Hf]. assert (k ∉ seen) as Hk by (apply Hw; left). rewrite size_union by set_solver. rewrite size_singleton. split; [|done].
  assert ({[k]} ∪ seen ⊆ X) as Hsub.
  { intros j Hj. apply HX. destruct (Hf j) as (h & Hh & _); [set_solver|]. by exists h. }
  apply subseteq_size in Hsub. rewrite size_union, size_singleton in Hsub by set_solver. lia.
Qed.

(** *** The best candidate *)

Definition validity (s : S) (k : HeaderHash) : option bool := load_header_with_validity s k ≫= snd.

(** The headers above the anchor that no invalid block is an ancestor of. *)
Inductive candidate (s : S) : HeaderHash → Prop :=
| candidate_root k : k ∈ roots s → validity s k ≠ Some false → candidate s k
| candidate_child p k : candidate s p → k ∈ get_children s p → validity s k ≠ Some false → candidate s k.

(** The headers to visit are what is left of the candidates. *)
Record frontier (s : S) (seen : gset HeaderHash) (to_visit : list HeaderHash) : Prop := {
  fr_candidate : ∀ k, k ∈ to_visit → validity s k ≠ Some false → candidate s k;
  fr_roots : ∀ k, k ∈ roots s → k ∈ seen ∨ k ∈ to_visit;
  fr_children : ∀ p k, p ∈ seen → candidate s p → k ∈ get_children s p → k ∈ seen ∨ k ∈ to_visit }.

Lemma frontier_start s l : l ≡ₚ roots s → frontier s ∅ l.
Proof. intros Hl. split; [|intros k Hk; right; by rewrite Hl|set_solver]. intros k Hk. rewrite Hl in Hk. by constructor. Qed.
Lemma frontier_done s seen k : frontier s seen [] → candidate s k → k ∈ seen.
Proof.
  intros [_ Hr Hc]. induction 1 as [k Hk _|p k Hp IH Hk _]; [destruct (Hr k Hk)|destruct (Hc p k IH Hp Hk)]; set_solver.
Qed.
Lemma frontier_invalid s seen k l : validity s k = Some false → frontier s seen (k :: l) → frontier s ({[k]} ∪ seen) l.
Proof.
  intros Hv [Hf Hr Hc]. split; [set_solver|intros j Hj; specialize (Hr j Hj); set_solver|].
  intros p j Hp Hcp Hj. apply elem_of_union in Hp as [Hp%elem_of_singleton|Hp]; [subst p; by destruct Hcp|].
  specialize (Hc p j Hp Hcp Hj). set_solver.
Qed.
Lemma frontier_children s seen k l l' : candidate s k → l' ≡ₚ get_children s k → frontier s seen (k :: l) →
  frontier s ({[k]} ∪ seen) (l' ++ l).
Proof.
  intros Hk Hl' [Hf Hr Hc]. split.
  - intros j Hj Hv. apply elem_of_app in Hj as [Hj|Hj]; [|apply Hf; set_solver]. rewrite Hl' in Hj. by apply (candidate_child s k).
  - intros j Hj. rewrite elem_of_app. specialize (Hr j Hj). set_solver.
  - intros p j Hp Hcp Hj. rewrite elem_of_app, Hl'. apply elem_of_union in Hp as [Hp%elem_of_singleton|Hp]; [subst p; auto|].
    specialize (Hc p j Hp Hcp Hj). set_solver.
Qed.

(** The highest of the candidates in a set, the anchor if there is none. *)
Definition best_of (s : S) (P : HeaderHash → Prop) (best : option Header) : Prop :=
  match best with
  | None => get_anchor_hash s = ORIGIN_HASH ∧ ∀ c, P c → ¬ candidate s c
  | Some h => stored s h ∧ (candidate s (header_hash h) ∨ header_hash h = get_anchor_hash s) ∧
      ∀ c hc, P c → candidate s c → load_header s c = Some hc → block_height hc <= block_height h
  end.

Lemma best_of_mono s (P Q : HeaderHash → Prop) best : (∀ c, Q c → candidate s c → P c) → best_of s P best → best_of s Q best.
Proof. intros Hpq. destruct best as [h|]; cbn; [intros (Hs & Hc & Hm)|intros (Ha & Hm)]; naive_solver. Qed.

Context `{Hashing}.

(** Visiting a candidate keeps the highest. *)
Lemma best_of_visit s (P : HeaderHash → Prop) best h : tree_ok s → stored s h → candidate s (header_hash h) →
  best_of s P best →
  ∃ o, cmp_tip (E := ConsensusError) (Some h) best = Ok o ∧
    best_of s (λ c, c = header_hash h ∨ P c) (match o with Gt => Some h | _ => best end).
Proof.
  intros Ht Hs Hc Hb. destruct (tr_hash _ Ht _ _ Hs) as (_ & _ & Hfit & _).
  exists (tip_order (Some h) best). split.
  { apply cmp_tip_ok; [by intros ? [= <-]|]. intros h' ->. by destruct Hb as (Hs' & _); destruct (tr_hash _ Ht _ _ Hs') as (_ & _ & ? & _). }
  destruct best as [b|].
  - destruct Hb as (Hbs & Hbc & Hm). destruct (tip_order (Some h) (Some b)) eqn:Ho.
    3: { split; [done|]. split; [by left|]. intros c hc [->|Hpc] Hcc Hl; [unfold stored in Hs; simplify_eq; lia|].
         apply tip_order_height in Ho. specialize (Hm c hc Hpc Hcc Hl). lia. }
    all: assert (block_height h <= block_height b) by (apply tip_order_not_greater; congruence).
    all: split; [done|]; split; [done|]; intros c hc [->|Hpc] Hcc Hl; [unfold stored in Hs; simplify_eq; lia|by apply (Hm c)].
  - destruct Hb as (Ha & Hn). cbn [tip_order]. split; [done|]. split; [by left|].
    intros c hc [->|Hpc] Hcc Hl; [unfold stored in Hs; simplify_eq; lia|]. by destruct (Hn c Hpc).
Qed.

Lemma candidate_loop_ok s X : tree_ok s → all_headers s X → ∀ fuel seen to_visit best,
  visiting s seen to_visit → frontier s seen to_visit → best_of s (λ c, c ∈ seen) best → (size X <= fuel + size seen)%nat →
  ∃ b, candidate_loop fuel s to_visit best = Ok b ∧ best_of s (λ _, True) b.
Proof.
  intros Ht HX. induction fuel as [|fuel IH]; intros seen [|k l] best Hv Hf Hb Hn.
  1,3: exists best; split; [done|]; apply (best_of_mono s (λ c, c ∈ seen)); [|done]; intros c _ Hc; by apply (frontier_done s).
  { destruct (visiting_room s X seen k l HX Hv). lia. }
  destruct (visiting_room s X seen k l HX Hv) as [_ Hsz].
  destruct (vi_from _ _ _ Hv k) as (h & Hh & _); [left; left|]. pose proof Hh as (v & Hl)%load_header_validity.
  cbn [candidate_loop]. rewrite Hl. cbn [ok_or mbind exec_bind].
  assert (validity s k = v) as Hval by (unfold validity; by rewrite Hl).
  case_decide as Hinv.
  - subst v. apply (IH ({[k]} ∪ seen)); [by apply visiting_skip|by apply frontier_invalid| |lia].
    apply (best_of_mono s (λ c, c ∈ seen)); [|done]. intros c Hc Hcc.
    apply elem_of_union in Hc as [Hc%elem_of_singleton|]; [|done]. subst c. by destruct Hcc.
  - assert (candidate s k) as Hk by (apply (fr_candidate _ _ _ Hf); [left|congruence]).
    destruct (tr_hash _ Ht _ _ Hh) as (Hhk & _). destruct (best_of_visit s (λ c, c ∈ seen) best h Ht) as (o & Ho & Hbo); [by apply (stored_load s k)|by rewrite Hhk|done|].
    rewrite Ho. cbn [mbind exec_bind]. apply (IH ({[k]} ∪ seen)).
    + apply visiting_children; [done|done|symmetry; apply Permutation_rev].
    + apply frontier_children; [done|symmetry; apply Permutation_rev|done].
    + apply (best_of_mono s (λ c, c = header_hash h ∨ c ∈ seen)); [|done]. rewrite Hhk. set_solver.
    + lia.
Qed.

(** What the search for the best candidate gives. *)
Lemma find_best_candidate_ok s X fuel : tree_ok s → anchor_known s → all_headers s X → (size X <= fuel)%nat →
  ∃ b, find_best_candidate fuel s = Ok (from_option header_hash ORIGIN_HASH b) ∧ best_of s (λ _, True) b.
Proof.
  intros Ht Ha HX Hn. unfold find_best_candidate. case_decide as Ho; cbn [mbind exec_bind fst snd].
  - destruct (candidate_loop_ok s X Ht HX fuel ∅ (rev (get_children s (get_anchor_hash s))) None) as (b & -> & Hb); [..|by exists b].
    all: assert (rev (get_children s (get_anchor_hash s)) ≡ₚ roots s) as Hr by (unfold roots; rewrite decide_True, Ho by done; symmetry; apply Permutation_rev).
    + by apply visiting_start.
    + by apply frontier_start.
    + split; [done|]. set_solver.
    + rewrite size_empty. lia.
  - destruct Ha as [|[a Hl]]; [done|]. rewrite Hl. cbn [ok_or mbind exec_bind fst snd].
    destruct (candidate_loop_ok s X Ht HX fuel ∅ [get_anchor_hash s] (Some a)) as (b & -> & Hb); [..|by exists b].
    all: assert ([get_anchor_hash s] ≡ₚ roots s) as Hr by (unfold roots; by rewrite decide_False).
    + apply visiting_start; [done|right; by exists a|done].
    + by apply frontier_start.
    + split; [by apply (stored_load s (get_anchor_hash s))|]. split; [right; by apply (tr_hash _ Ht)|]. set_solver.
    + rewrite size_empty. lia.
Qed.
End Walks.

(** ** Stores that implement the interface *)
Section Implemented.
Context {S : Type} `{ChainStore S}.

Lemma load_view s k : load_header s k = v_headers (view s) !! k.
Proof. unfold load_header. rewrite view_load. by destruct (v_headers (view s) !! k). Qed.
Lemma validity_view s k h : v_headers (view s) !! k = Some h → validity s k = v_flags (view s) !! k.
Proof. intros Hh. unfold validity. by rewrite view_load, Hh. Qed.
Lemma bind_load_view s (o : option HeaderHash) : o ≫= load_header s = o ≫= λ k, v_headers (view s) !! k.
Proof. destruct o; cbn; [apply load_view|done]. Qed.

Lemma tree_ok_view s : store_ok s → view_ok (view s) → tree_ok s.
Proof.
  intros Hs [Hh Hst Hk]. split.
  - intros k h. rewrite load_view. apply Hh.
  - intros k h p. rewrite load_view, bind_load_view. intros Hl Hp. destruct (parent h) as [q|] eqn:Hq; [|done]. by apply (Hst k h q p).
  - intros k c. rewrite view_children by done. by setoid_rewrite load_view.
  - intros k. by apply view_children_once.
  - intros k h p. rewrite load_view. apply Hk.
Qed.
Lemma all_headers_view s : all_headers s (dom (v_headers (view s))).
Proof. intros k. rewrite load_view. apply elem_of_dom. Qed.

(** *** The hashes to validate *)

(** The anchor and what is above it have known parents. *)
Definition parents_known (v : ChainView) : Prop := ∀ k h p, v_headers v !! k = Some h → point_slot (v_anchor v) <= slot h →
  parent h = Some p → is_Some (v_headers v !! p).
(** The walk from a header to the first verdict, or to the anchor. *)
Inductive walk (v : ChainView) : HeaderHash → list HeaderHash → bool → Prop :=
| walk_verdict t h b : v_headers v !! t = Some h → v_flags v !! t = Some b → walk v t [] b
| walk_stop t h : v_headers v !! t = Some h → v_flags v !! t = None → slot h <= point_slot (v_anchor v) ∨ parent h = None → walk v t [t] true
| walk_up t h p l b : v_headers v !! t = Some h → v_flags v !! t = None → point_slot (v_anchor v) < slot h → parent h = Some p →
    walk v p l b → walk v t (l ++ [t]) b.

Lemma walk_fun v t l b l' b' : walk v t l b → walk v t l' b' → l = l' ∧ b = b'.
Proof.
  intros Hw. revert l' b'. induction Hw as [t h b Hh Hf|t h Hh Hf Hstop|t h p l b Hh Hf Ha Hp Hw IH]; inversion 1; simplify_eq; try done.
  - destruct Hstop; [lia|congruence].
  - destruct_or!; [lia|congruence].
  - destruct (IH _ _ ltac:(done)) as [-> ->]. done.
Qed.

Lemma until_validated_walk {E : Type} s : store_ok s → view_ok (view s) → parents_known (view s) → ∀ fuel t h l,
  v_headers (view s) !! t = Some h →
  ancestors_loop (E := E) fuel s (point_slot (get_anchor_point s)) (h, v_flags (view s) !! t) = Ok l →
  walk (view s) t (rev (until_validated l).1) (until_validated l).2.
Proof.
  intros Hs Hv Hp. induction fuel as [|fuel IH]; intros t h l Hh; cbn [ancestors_loop fst]; [done|]. rewrite view_anchor. pose proof (vo_hash _ Hv _ _ Hh) as [Hht _].
  assert (slot h <= point_slot (v_anchor (view s)) ∨ parent h = None → l = [(h, v_flags (view s) !! t)] →
    walk (view s) t (rev (until_validated l).1) (until_validated l).2) as Hstop.
  { intros Hend ->. cbn [until_validated].
    destruct (v_flags (view s) !! t) eqn:Hf; [by apply (walk_verdict _ t h)|]. cbn [fst snd rev app]. rewrite Hht. by apply (walk_stop _ t h). }
  destruct (Z.leb_spec (slot h) (point_slot (v_anchor (view s)))) as [Hle|Hgt]; [intros [= <-]; apply Hstop; auto|].
  destruct (parent h) as [p|] eqn:Hpar; [|intros [= <-]; apply Hstop; auto]. cbn [mbind option_bind].
  destruct (Hp t h p Hh ltac:(lia) Hpar) as [hp Hhp]. rewrite view_load, Hhp. cbn [fmap option_fmap option_map].
  intros Hl. apply bind_Ok in Hl as (l' & Hl' & [= <-]). cbn [until_validated]. destruct (v_flags (view s) !! t) eqn:Hf; [by apply (walk_verdict _ t h)|].
  rewrite view_anchor in IH. pose proof (IH p hp l' Hhp Hl') as Hw. destruct (until_validated l') as [hashes b]. cbn [fst snd rev] in *. rewrite Hht. by apply (walk_up _ t h p).
Qed.
Lemma unvalidated_walk {E : Type} s t h : store_ok s → view_ok (view s) → parents_known (view s) → v_headers (view s) !! t = Some h →
  ∃ l b, unvalidated_ancestor_hashes (E := E) s t = Ok (l, b) ∧ walk (view s) t l b.
Proof.
  intros Hs Hv Hp Hh. pose proof (tree_ok_view s Hs Hv) as Ht. destruct (vo_hash _ Hv _ _ Hh) as (Hht & _ & [Hpos _] & _).
  unfold unvalidated_ancestor_hashes, ancestors_with_validity_on_snapshot. rewrite view_load, Hh. cbn [fmap option_fmap option_map fst].
  destruct (ancestors_loop_ok (E := E) s Ht (walk_fuel h) (h, v_flags (view s) !! t)) as (l & Hl & _).
  { unfold stored. cbn [fst]. by rewrite load_view, Hht. }
  { unfold walk_fuel. cbn [fst]. lia. }
  rewrite Hl. cbn [mbind exec_bind]. pose proof (until_validated_walk s Hs Hv Hp _ _ _ _ Hh Hl) as Hw.
  destruct (until_validated _) as [hashes b]. by exists (rev hashes), b.
Qed.

(** The anchor is known, and not invalid. *)
Definition anchor_ok (v : ChainView) : Prop :=
  v_anchor v = Origin ∨ point_known v (v_anchor v) ∧ v_flags v !! point_hash (v_anchor v) ≠ Some false.

Lemma anchor_ok_known s : anchor_ok (view s) → anchor_known s.
Proof.
  unfold anchor_known, get_anchor_hash. rewrite view_anchor, load_view. intros [->|[(h & Hh & _) _]]; [by left|]. right. by exists h.
Qed.
Lemma anchor_candidate s : view_ok (view s) → anchor_ok (view s) → get_anchor_hash s ≠ ORIGIN_HASH → candidate s (get_anchor_hash s).
Proof.
  intros Hv Ha Ho. apply candidate_root; [unfold roots; rewrite decide_False by done; left|]. unfold get_anchor_hash in *. rewrite view_anchor in *.
  destruct Ha as [Ha|[(h & Hh & _) Hf]]; [by rewrite Ha in Ho|]. by rewrite (validity_view s _ h).
Qed.
(** The walk from a candidate meets no invalid block. *)
Lemma candidate_walk s t : store_ok s → view_ok (view s) → anchor_ok (view s) → candidate s t →
  ∀ l b, walk (view s) t l b → b = true.
Proof.
  intros Hs Hv Ha Hc. assert (∀ k h b, validity s k ≠ Some false → v_headers (view s) !! k = Some h → v_flags (view s) !! k = Some b → b = true) as Hflag.
  { intros k h b Hval Hh Hf. rewrite (validity_view s k h Hh), Hf in Hval. by destruct b. }
  induction Hc as [k Hk Hval|p k Hp IH Hk Hval]; intros l b; inversion 1 as [? h ? Hh Hf|? h Hh Hf Hst|? h q l' ? Hh Hf Hsl Hpar Hw]; subst; try by eauto.
  - unfold roots in Hk. case_decide as Ho.
    + apply view_children in Hk as (h' & Hh' & Hd); [|done]. rewrite Hh in Hh'. injection Hh' as <-. rewrite Hpar in Hd.
      by destruct (vo_known _ Hv _ _ _ Hh Hpar).
    + apply list_elem_of_singleton in Hk as ->. unfold get_anchor_hash in *. rewrite view_anchor in *.
      destruct Ha as [Ha|[(h' & Hh' & Hp') _]]; [by rewrite Ha in Ho|]. rewrite Hh in Hh'. injection Hh' as <-. rewrite <- Hp' in Hsl. cbn in Hsl. lia.
  - apply view_children in Hk as (h' & Hh' & Hd); [|done]. rewrite Hh in Hh'. injection Hh' as <-. rewrite Hpar in Hd. unfold default, from_option, id in Hd. subst q.
    by apply (IH l').
Qed.
(** The search, in a store that implements the interface. *)
Lemma best_candidate_ok `{Hashing} s fuel : store_ok s → view_ok (view s) → anchor_ok (view s) → (size (dom (v_headers (view s))) <= fuel)%nat →
  ∃ b, find_best_candidate fuel s = Ok (from_option header_hash ORIGIN_HASH b) ∧ best_of s (λ _, True) b ∧
    (∀ h, b = Some h → candidate s (header_hash h)).
Proof.
  intros Hs Hv Ha Hf. pose proof (tree_ok_view s Hs Hv) as Ht.
  destruct (find_best_candidate_ok s _ fuel Ht (anchor_ok_known s Ha) (all_headers_view s) Hf) as (b & Hb & Hbest). exists b. split; [done|]. split; [done|].
  intros h ->. destruct Hbest as (Hst & [Hc|Hc] & _); [done|]. rewrite Hc. apply anchor_candidate; [done|done|]. rewrite <- Hc.
  unfold stored in Hst. by destruct (tr_hash _ Ht _ _ Hst) as (_ & ? & _).
Qed.
(** Candidates are known, and not below the anchor. *)
Lemma candidate_slot s t : store_ok s → view_ok (view s) → anchor_ok (view s) → candidate s t →
  ∃ h, v_headers (view s) !! t = Some h ∧ point_slot (v_anchor (view s)) <= slot h.
Proof.
  intros Hs Hv Ha. induction 1 as [k Hk Hval|p k Hp IH Hk Hval].
  - unfold roots in Hk. case_decide as Ho.
    + apply view_children in Hk as (h & Hh & _); [|done]. exists h. split; [done|]. destruct (vo_hash _ Hv _ _ Hh) as (_ & _ & [H0 _] & _).
      unfold get_anchor_hash in Ho. rewrite view_anchor in Ho. destruct Ha as [->|[(a & Ha & _) _]]; [done|]. by destruct (vo_hash _ Hv _ _ Ha) as (_ & ? & _).
    + apply list_elem_of_singleton in Hk as ->. unfold get_anchor_hash in *. rewrite view_anchor in *.
      destruct Ha as [Ha|[(h & Hh & Hp) _]]; [by rewrite Ha in Ho|]. exists h. split; [done|]. rewrite <- Hp. done.
  - apply view_children in Hk as (h & Hh & Hd); [|done]. exists h. split; [done|]. destruct IH as (hp & Hhp & Hle).
    destruct (parent h) as [q|] eqn:Hq; unfold default, from_option, id in Hd; subst p.
    + destruct (vo_step _ Hv _ _ _ _ Hh Hq Hhp). lia.
    + by destruct (vo_hash _ Hv _ _ Hhp) as (_ & ? & _).
Qed.
End Implemented.
