(* ===== verification/SelectChain.v ===== *)
(** * Chain selection

    [amaru-consensus/src/stages/select_chain/mod.rs]: the stage that tracks the tips of
    the block tree with the blocks each of them still needs validated, keeps the best of
    them, and says which tip to fetch blocks for.

    A handler takes the state of the stage and the store, and gives both back with the
    messages it sends to [fetch_blocks]; [eff.terminate()] is an error, and a failed
    assertion a panic.  Measuring and tracing are not part of the model. *)

From S2P Require Import Prelude BTreeMap SortedAssoc UplcSyntax Headers ChainStore ChainView ChainStoreProps.
#[local] Open Scope Z_scope.

(** ** Messages and state *)

Inductive Terminated := Terminate.

Record NewBestTip := mkNewBestTip { nb_tip : Point; nb_parent : Point }.
Inductive SelectChainMsg :=
| Initialize (best_hash : HeaderHash)
| TipFromUpstream (tip parent : Point)
| BlockValidationResult (tip : Point) (valid : bool) (max_block_height : Z)
| FetchNextFrom (p : Point).

Record SelectChain := mkSelectChain {
  tips : gmap HeaderHash (list HeaderHash);
  best_tip : option Header;
  may_fetch_blocks : bool }.
Definition SelectChain_new : SelectChain := mkSelectChain ∅ None false.

(** [position], then [drain(0..=idx)]. *)
Fixpoint position (hash : HeaderHash) (v : list HeaderHash) : option nat :=
  match v with
  | [] => None
  | k :: v => if decide (k = hash) then Some 0%nat else Datatypes.S <$> position hash v
  end.
Definition drain_through (hash : HeaderHash) (v : list HeaderHash) : list HeaderHash :=
  match position hash v with Some idx => drop (Datatypes.S idx) v | None => v end.

(** ** Handlers *)
Section Stage.
Context {S : Type} `{!BaseReadChainStore S, !WriteChainStore S, !Hashing}.
(** How many headers the search for a candidate may visit. *)
Variable fuel : nat.

Definition load_parent_point (s : S) (header : Header) : exec Terminated Point :=
  match parent header with
  | Some p => ok_or Terminate (load_point s p)
  | None => Ok Origin
  end.

Definition Stepped : Type := SelectChain * S * list NewBestTip.

Definition initialize (best_hash : HeaderHash) (st : SelectChain) (s : S) : exec Terminated Stepped :=
  if decide (best_hash = ORIGIN_HASH) then Ok (st, s, [])
  else
    let best := load_header s best_hash in
    x ← unvalidated_ancestor_hashes s best_hash;
    let '(to_validate, _) := x in
    Ok (mkSelectChain (<[best_hash := to_validate]> (tips st)) best (may_fetch_blocks st), s, []).

(** The tips after one was announced. *)
Definition track_tip (tip parent : Point) (st : SelectChain) (s : S) : exec Terminated (gmap HeaderHash (list HeaderHash)) :=
  if decide (parent = Origin) then Ok (<[point_hash tip := [point_hash tip]]> (tips st))
  else match tips st !! point_hash parent with
       | Some chain => Ok (<[point_hash tip := chain ++ [point_hash tip]]> (delete (point_hash parent) (tips st)))
       | None =>
           x ← unvalidated_ancestor_hashes s (point_hash parent);
           let '(ancestors, valid) := (x : list HeaderHash * bool) in
           Ok (if valid then <[point_hash tip := ancestors ++ [point_hash tip]]> (tips st) else tips st)
       end.

Definition handle_tip_from_upstream (tip parent : Point) (st : SelectChain) (s : S) : exec Terminated Stepped :=
  match load_header_with_validity s (point_hash tip) with
  | None => Err Terminate
  | Some (_, Some _) => Ok (st, s, [])
  | Some (header, None) =>
      if is_some (tips st !! point_hash tip) || from_option (λ h, bool_decide (header_hash h = point_hash tip)) false (best_tip st)
      then Ok (st, s, [])
      else
        tips' ← track_tip tip parent st s;
        if negb (is_some (tips' !! point_hash tip)) then Ok (mkSelectChain tips' (best_tip st) (may_fetch_blocks st), s, [])
        else
          o ← cmp_tip (Some header) (best_tip st);
          match o with
          | Gt =>
              let '(may_fetch, sent) := if may_fetch_blocks st then (false, [mkNewBestTip tip parent]) else (may_fetch_blocks st, []) in
              Ok (mkSelectChain tips' (Some header) may_fetch, s, sent)
          | _ => Ok (mkSelectChain tips' (best_tip st) (may_fetch_blocks st), s, [])
          end
  end.

(** The best tip is gone: another one is looked for. *)
Definition replace_best (tips' : gmap HeaderHash (list HeaderHash)) (st : SelectChain) (s : S) : exec Terminated Stepped :=
  new_best_tip ← map_err (λ _, Terminate) (find_best_candidate fuel s);
  if decide (new_best_tip = ORIGIN_HASH) then Ok (mkSelectChain tips' None (may_fetch_blocks st), s, [])
  else
    new_best_tip ← ok_or Terminate (load_header s new_best_tip);
    parent ← load_parent_point s new_best_tip;
    x ← unvalidated_ancestor_hashes s (header_hash new_best_tip);
    let '(to_validate, _) := x in
    let tips' := <[header_hash new_best_tip := to_validate]> tips' in
    let '(may_fetch, sent) :=
      if may_fetch_blocks st then (false, [mkNewBestTip (header_point new_best_tip) parent]) else (may_fetch_blocks st, []) in
    Ok (mkSelectChain tips' (Some new_best_tip) may_fetch, s, sent).

Definition handle_block_validation_result (tip : Point) (valid : bool) (st : SelectChain) (s : S) : exec Terminated Stepped :=
  if negb (has_header s (point_hash tip)) then Err Terminate
  else
    let s := set_block_valid (point_hash tip) valid s in
    if valid then Ok (mkSelectChain (drain_through (point_hash tip) <$> tips st) (best_tip st) (may_fetch_blocks st), s, [])
    else
      let tips' := filter (λ kv : HeaderHash * list HeaderHash, point_hash tip ∉ kv.2) (tips st) in
      match best_tip st with
      | Some best => if is_some (tips' !! header_hash best) then Ok (mkSelectChain tips' (best_tip st) (may_fetch_blocks st), s, [])
                     else replace_best tips' st s
      | None => Ok (mkSelectChain tips' (best_tip st) (may_fetch_blocks st), s, [])
      end.

Definition handle_fetch_next_from (p : Point) (st : SelectChain) (s : S) : exec Terminated Stepped :=
  if may_fetch_blocks st then Panic
  else match best_tip st with
       | Some best =>
           if decide (header_point best = p) then Ok (mkSelectChain (tips st) (best_tip st) true, s, [])
           else
             header ← ok_or Terminate (load_header s (header_hash best));
             parent ← match parent header with Some p => ok_or Terminate (load_point s p) | None => Ok Origin end;
             Ok (st, s, [mkNewBestTip (header_point best) parent])
       | None => Ok (mkSelectChain (tips st) (best_tip st) true, s, [])
       end.

Definition stage (msg : SelectChainMsg) (st : SelectChain) (s : S) : exec Terminated Stepped :=
  match msg with
  | Initialize best_hash => initialize best_hash st s
  | TipFromUpstream tip parent => handle_tip_from_upstream tip parent st s
  | BlockValidationResult tip valid _ => handle_block_validation_result tip valid st s
  | FetchNextFrom p => handle_fetch_next_from p st s
  end.
End Stage.
