(* ===== verification/SelectChainProps.v ===== *)
(** * Properties of chain selection

    The stage keeps, for every tip it tracks, the path of blocks left to validate; its
    best tip is tracked and is the highest candidate; a verdict advances or prunes the
    paths; and the request it was given to fetch blocks is either kept or spent on one message. *)

From S2P Require Import Prelude BTreeMap SortedAssoc UplcSyntax Headers ChainStore ChainView ChainStoreProps SelectChain.
#[local] Open Scope Z_scope.

(** ** Draining a path *)
Section Draining.
Implicit Types (hash k : HeaderHash) (l : list HeaderHash).

Lemma position_app hash l1 l2 : position hash (l1 ++ l2) =
  match position hash l1 with Some i => Some i | None => (λ i, length l1 + i)%nat <$> position hash l2 end.
Proof.
  induction l1 as [|k l1 IH]; cbn [app position length]; [by destruct (position hash l2)|]. case_decide; [done|]. rewrite IH.
  destruct (position hash l1); [done|]. by destruct (position hash l2).
Qed.
Lemma position_None hash l : position hash l = None ↔ hash ∉ l.
Proof.
  induction l as [|k l IH]; cbn [position]; [set_solver|]. rewrite not_elem_of_cons. case_decide; [naive_solver|].
  destruct (position hash l); cbn; naive_solver.
Qed.
Lemma position_lt hash l i : position hash l = Some i → (i < length l)%nat.
Proof. revert i. induction l as [|k l IH]; intros i; cbn; [done|]. case_decide; [intros [= <-]; lia|]. destruct (position hash l) as [j|]; [|done]. intros [= <-]. specialize (IH j eq_refl). lia. Qed.

Lemma drain_absent hash l : hash ∉ l → drain_through hash l = l.
Proof. intros Hn. unfold drain_through. by rewrite (proj2 (position_None hash l) Hn). Qed.
Lemma drain_last hash l : hash ∉ l → drain_through hash (l ++ [hash]) = [].
Proof.
  intros Hn. unfold drain_through. rewrite position_app, (proj2 (position_None hash l) Hn). cbn. rewrite decide_True by done. cbn.
  apply drop_ge. rewrite length_app. cbn. lia.
Qed.
Lemma drain_before hash l k : k ≠ hash → drain_through hash (l ++ [k]) = drain_through hash l ++ [k].
Proof.
  intros Hk. unfold drain_through. rewrite position_app. destruct (position hash l) as [i|] eqn:Hp.
  - rewrite drop_app_le; [done|]. apply position_lt in Hp. lia.
  - cbn. by rewrite decide_False.
Qed.
End Draining.

(** ** Paths of blocks to validate *)

(** From a valid block, or from the part of the chain that does not change, up to the tip. *)
Inductive pending (v : ChainView) : HeaderHash → list HeaderHash → Prop :=
| pending_valid t h : v_headers v !! t = Some h → v_flags v !! t = Some true → pending v t []
| pending_base t h : v_headers v !! t = Some h → v_flags v !! t = None → slot h <= point_slot (v_anchor v) ∨ parent h = None →
    pending v t [t]
| pending_step t h p l : v_headers v !! t = Some h → v_flags v !! t = None → parent h = Some p → pending v p l → pending v t (l ++ [t]).

Lemma pending_known v t l : pending v t l → is_Some (v_headers v !! t).
Proof. destruct 1; eauto. Qed.
Lemma walk_pending v t l : walk v t l true → pending v t l.
Proof.
  remember true as b eqn:Hb. induction 1 as [t h b Hh Hf|t h Hh Hf Hst|t h p l b Hh Hf Ha Hp Hw IH]; subst.
  - by apply (pending_valid _ t h).
  - by apply (pending_base _ t h).
  - apply (pending_step _ t h p); auto.
Qed.
Lemma pending_slots v t l h : view_ok v → pending v t l → v_headers v !! t = Some h →
  ∀ k, k ∈ l → k = t ∨ ∃ hk, v_headers v !! k = Some hk ∧ slot hk < slot h.
Proof.
  intros Hv Hp. revert h. induction Hp as [t h0 Hh0 _|t h0 Hh0 _ _|t h0 p l Hh0 _ Hpar Hp IH]; intros h Hh k Hk; [set_solver|set_solver|].
  apply elem_of_app in Hk as [Hk|Hk]; [|set_solver]. rewrite Hh0 in Hh. injection Hh as <-. right.
  destruct (pending_known _ _ _ Hp) as [hp Hhp]. destruct (vo_step _ Hv _ _ _ _ Hh0 Hpar Hhp) as [Hlt _].
  destruct (IH hp Hhp k Hk) as [->|(hk & Hhk & Hk')]; [by exists hp|]. exists hk. split; [done|]. lia.
Qed.
(** Blocks of a path come before its tip. *)
Lemma pending_fresh v t h p l : view_ok v → v_headers v !! t = Some h → parent h = Some p → pending v p l → t ∉ l.
Proof.
  intros Hv Hh Hpar Hp Hin. destruct (pending_known _ _ _ Hp) as [hp Hhp]. destruct (vo_step _ Hv _ _ _ _ Hh Hpar Hhp) as [Hlt _].
  destruct (pending_slots v p l hp Hv Hp Hhp t Hin) as [->|(ht & Hht & Hs)]; simplify_eq; lia.
Qed.

(** A valid block advances the paths it is on. *)
Lemma pending_advance v hash t l : view_ok v → v_flags v !! hash ≠ Some false → pending v t l →
  pending (with_flags (<[hash := true]> (v_flags v)) v) t (drain_through hash l).
Proof.
  intros Hv Hf. induction 1 as [t h Hh Ht|t h Hh Ht Hb|t h p l Hh Ht Hpar Hp IH].
  - apply (pending_valid _ t h); [done|]. cbn. rewrite lookup_insert. by case_decide.
  - destruct (decide (t = hash)) as [->|Hne].
    + pose proof (drain_last hash [] (not_elem_of_nil _)) as Hd. cbn [app] in Hd. rewrite Hd. apply (pending_valid _ hash h); [done|]. cbn. by rewrite lookup_insert_eq.
    + rewrite drain_absent by set_solver. apply (pending_base _ t h); [done| |done]. cbn. by rewrite lookup_insert_ne.
  - destruct (decide (t = hash)) as [->|Hne].
    + rewrite drain_last by (by apply (pending_fresh v hash h p)). apply (pending_valid _ hash h); [done|]. cbn. by rewrite lookup_insert_eq.
    + rewrite drain_before by done. apply (pending_step _ t h p); [done| |done|done]. cbn. by rewrite lookup_insert_ne.
Qed.
(** An invalid block leaves the paths it is not on. *)
Lemma pending_avoid v hash t l : v_flags v !! hash ≠ Some true → hash ∉ l → pending v t l →
  pending (with_flags (<[hash := false]> (v_flags v)) v) t l.
Proof.
  intros Hf Hn. induction 1 as [t h Hh Ht|t h Hh Ht Hb|t h p l Hh Ht Hpar Hp IH].
  - apply (pending_valid _ t h); [done|]. cbn. rewrite lookup_insert_ne; [done|congruence].
  - apply (pending_base _ t h); [done| |done]. cbn. rewrite lookup_insert_ne; [done|set_solver].
  - apply (pending_step _ t h p); [done| |done|apply IH; set_solver]. cbn. rewrite lookup_insert_ne; [done|set_solver].
Qed.
(** More headers, and an anchor further, keep the paths. *)
Lemma pending_more v v' t l : v_headers v ⊆ v_headers v' → v_flags v' = v_flags v → point_slot (v_anchor v) <= point_slot (v_anchor v') →
  pending v t l → pending v' t l.
Proof.
  intros Hh Hf Ha. induction 1 as [t h Hl Ht|t h Hl Ht Hb|t h p l Hl Ht Hpar Hp IH].
  - apply (pending_valid _ t h); [by apply (lookup_weaken _ _ _ _ Hl Hh)|congruence].
  - apply (pending_base _ t h); [by apply (lookup_weaken _ _ _ _ Hl Hh)|congruence|]. destruct Hb; [left; lia|by right].
  - apply (pending_step _ t h p); [by apply (lookup_weaken _ _ _ _ Hl Hh)|congruence|done|done].
Qed.

(** ** Candidates, from the abstract state *)
Inductive reachable (v : ChainView) : HeaderHash → Prop :=
| reachable_anchor h : v_headers v !! point_hash (v_anchor v) = Some h → point_hash (v_anchor v) ≠ ORIGIN_HASH →
    v_flags v !! point_hash (v_anchor v) ≠ Some false → reachable v (point_hash (v_anchor v))
| reachable_first t h : v_headers v !! t = Some h → point_hash (v_anchor v) = ORIGIN_HASH → default ORIGIN_HASH (parent h) = ORIGIN_HASH →
    v_flags v !! t ≠ Some false → reachable v t
| reachable_child p t h : v_headers v !! t = Some h → reachable v p → default ORIGIN_HASH (parent h) = p → v_flags v !! t ≠ Some false → reachable v t.

(** What the stores of a running node satisfy. *)
Record sound (v : ChainView) : Prop := {
  so_view : view_ok v;
  so_parents : parents_known v;
  so_anchor : anchor_ok v }.

Section Candidates.
Context {S : Type} `{ChainStore S}.

Lemma candidate_reachable s t : store_ok s → anchor_ok (view s) → candidate s t ↔ reachable (view s) t.
Proof.
  intros Hs Ha. split.
  - induction 1 as [k Hk Hval|p k Hp IH Hk Hval].
    + unfold roots, get_anchor_hash in Hk. rewrite view_anchor in Hk. case_decide as Ho.
      * apply view_children in Hk as (h & Hh & Hd); [|done]. rewrite (validity_view s k h Hh) in Hval. by apply (reachable_first _ k h).
      * apply list_elem_of_singleton in Hk as ->. destruct Ha as [Ha|[(h & Hh & _) Hf]]; [by rewrite Ha in Ho|].
        by apply (reachable_anchor _ h).
    + apply view_children in Hk as (h & Hh & Hd); [|done]. rewrite (validity_view s k h Hh) in Hval. by apply (reachable_child _ p k h).
  - induction 1 as [h Hh Ho Hf|t h Hh Ho Hd Hf|p t h Hh Hp IH Hd Hf].
    + apply candidate_root; [|by rewrite (validity_view s _ h)]. unfold roots, get_anchor_hash. rewrite view_anchor, decide_False by done. left.
    + apply candidate_root; [|by rewrite (validity_view s _ h)]. unfold roots, get_anchor_hash. rewrite view_anchor, decide_True by done.
      apply view_children; [done|]. by exists h.
    + apply (candidate_child s p); [done| |by rewrite (validity_view s _ h)]. apply view_children; [done|]. by exists h.
Qed.
End Candidates.

Lemma reachable_known v t : reachable v t → is_Some (v_headers v !! t).
Proof. destruct 1; eauto. Qed.
(** Verdicts only take candidates away. *)
Lemma reachable_flags v f t : (∀ k, f !! k ≠ Some false → v_flags v !! k ≠ Some false) → reachable (with_flags f v) t → reachable v t.
Proof.
  intros Hf. induction 1 as [h Hh Ho Hk|t h Hh Ho Hd Hk|p t h Hh Hp IH Hd Hk]; cbn in *.
  - by apply (reachable_anchor v h); auto.
  - apply (reachable_first v t h); auto.
  - apply (reachable_child v p t h); auto.
Qed.
(** A header whose children were not known yet gives no other candidate. *)
Lemma reachable_header v h t : v_headers v !! header_hash h = None → (∀ k hk, v_headers v !! k = Some hk → reachable (with_header h v) k → parent hk ≠ Some (header_hash h)) →
  header_hash h ≠ ORIGIN_HASH → header_hash h ≠ point_hash (v_anchor v) →
  reachable (with_header h v) t → t = header_hash h ∨ reachable v t.
Proof.
  intros Hnew Hch Ho Hna. induction 1 as [a Ha Hao Hk|t ht Ht Hao Hd Hk|p t ht Ht Hp IH Hd Hk]; cbn in *.
  - right. rewrite lookup_insert_ne in Ha by congruence. by apply (reachable_anchor v a).
  - destruct (decide (t = header_hash h)) as [->|Hne]; [by left|]. right. rewrite lookup_insert_ne in Ht by congruence. by apply (reachable_first v t ht).
  - destruct (decide (t = header_hash h)) as [->|Hne]; [by left|]. right. rewrite lookup_insert_ne in Ht by congruence.
    destruct IH as [->|IH]; [|by apply (reachable_child v p t ht)]. destruct (Hch t ht Ht).
    + apply (reachable_child _ (header_hash h) t ht); [cbn; by rewrite lookup_insert_ne by congruence|done..].
    + destruct (parent ht); unfold default, from_option, id in Hd; congruence.
Qed.
(** An anchor that is a candidate itself. *)
Lemma reachable_move v p t : reachable v (point_hash p) → point_hash p ≠ ORIGIN_HASH → reachable (with_anchor p v) t → reachable v t.
Proof.
  intros Hp Ho. induction 1 as [a Ha Hao Hk|t ht Ht Hao Hd Hk|q t ht Ht Hq IH Hd Hk]; cbn in *; [done|done|]. by apply (reachable_child v q t ht).
Qed.

(** ** The invariant of the stage *)

Definition parent_point (v : ChainView) (h : Header) (p : Point) : Prop :=
  match parent h with None => p = Origin | Some k => ∃ hp, v_headers v !! k = Some hp ∧ p = header_point hp end.
Record selecting (v : ChainView) (st : SelectChain) : Prop := {
  se_tips : ∀ t l, tips st !! t = Some l → pending v t l;
  se_best : ∀ b, best_tip st = Some b → v_headers v !! header_hash b = Some b ∧ is_Some (tips st !! header_hash b) ∧ ∃ p, parent_point v b p;
  se_high : ∀ t h, is_Some (tips st !! t) → v_headers v !! t = Some h → reachable v t →
    ∃ b, best_tip st = Some b ∧ block_height h <= block_height b }.

(** What the other stages send. *)
Definition message_ok (v : ChainView) (st : SelectChain) (msg : SelectChainMsg) : Prop :=
  match msg with
  | Initialize k => st = SelectChain_new ∧
      (k = ORIGIN_HASH ∧ (∀ t, ¬ reachable v t) ∨
       reachable v k ∧ ∀ t h hk, reachable v t → v_headers v !! t = Some h → v_headers v !! k = Some hk → block_height h <= block_height hk)
  | TipFromUpstream tip p => ∃ h, v_headers v !! point_hash tip = Some h ∧ header_point h = tip ∧ parent_point v h p
  | BlockValidationResult tip valid _ => is_Some (v_headers v !! point_hash tip) ∧ v_flags v !! point_hash tip ≠ Some (negb valid) ∧
      (valid = false → point_hash tip ≠ point_hash (v_anchor v))
  | FetchNextFrom _ => may_fetch_blocks st = false
  end.
(** The store after a message. *)
Definition view_after (v : ChainView) (msg : SelectChainMsg) : ChainView :=
  match msg with BlockValidationResult tip valid _ => with_flags (<[point_hash tip := valid]> (v_flags v)) v | _ => v end.
(** The messages sent, and the request to fetch that is left. *)
Definition sent_ok (v : ChainView) (st st' : SelectChain) (msg : SelectChainMsg) (sent : list NewBestTip) : Prop :=
  (∀ m, m ∈ sent → ∃ b, best_tip st' = Some b ∧ nb_tip m = header_point b ∧ parent_point v b (nb_parent m)) ∧
  (Nat.b2n (may_fetch_blocks st') + length sent = Nat.b2n (may_fetch_blocks st) + match msg with FetchNextFrom _ => 1 | _ => 0 end)%nat.

Lemma sound_after v msg st : sound v → message_ok v st msg → sound (view_after v msg).
Proof.
  intros [Hv Hp Ha]. destruct msg as [k|tip p|tip valid height|p]; cbn; [done|done| |done]. intros (_ & Hf & Hna). split.
  - by destruct Hv.
  - done.
  - destruct Ha as [Ha|[Hk Hflag]]; [by left|]. right. split; [done|]. cbn. rewrite lookup_insert. case_decide as Hd; [|done].
    destruct valid; [done|]. by destruct (Hna eq_refl).
Qed.
Lemma best_unique v st b b' : selecting v st → best_tip st = Some b → v_headers v !! header_hash b = Some b' → b' = b.
Proof. intros Hs Hb. destruct (se_best _ _ Hs b Hb) as (Hl & _). congruence. Qed.

Section Handlers.
Context {S : Type} `{ChainStore S} `{Hashing}.
Variable fuel : nat.

Lemma load_parent s h p : view_ok (view s) → v_headers (view s) !! header_hash h = Some h → parent_point (view s) h p →
  load_parent_point s h = Ok p.
Proof.
  unfold load_parent_point, parent_point. intros Hv Hh. destruct (parent h) as [k|] eqn:Hk; [|by intros ->]. intros (hp & Hhp & ->).
  unfold load_point. rewrite decide_False by (by apply (vo_known _ Hv _ _ _ Hh Hk)). by rewrite load_view, Hhp.
Qed.
Lemma reachable_parent v t h : parents_known v → (∀ k hk, reachable v k → v_headers v !! k = Some hk → point_slot (v_anchor v) <= slot hk) →
  reachable v t → v_headers v !! t = Some h → ∃ p, parent_point v h p.
Proof.
  intros Hp Hsl Hr Hh. unfold parent_point. destruct (parent h) as [k|] eqn:Hk; [|by exists Origin].
  destruct (Hp t h k Hh) as [hp Hhp]; [by apply (Hsl t)|done|]. by exists (header_point hp), hp.
Qed.
Lemma reachable_slot s k h : store_ok s → sound (view s) → reachable (view s) k → v_headers (view s) !! k = Some h →
  point_slot (v_anchor (view s)) <= slot h.
Proof.
  intros Hs [Hv _ Ha] Hr Hh. apply candidate_reachable in Hr; [|done|done]. destruct (candidate_slot s k Hs Hv Ha Hr) as (h' & Hh' & Hle).
  rewrite Hh in Hh'. by injection Hh' as <-.
Qed.
Lemma best_of_reachable s b : store_ok s → sound (view s) → best_of s (λ _, True) b → (∀ h, b = Some h → candidate s (header_hash h)) →
  match b with
  | None => ∀ t, ¬ reachable (view s) t
  | Some h => v_headers (view s) !! header_hash h = Some h ∧ reachable (view s) (header_hash h) ∧
      ∀ t ht, reachable (view s) t → v_headers (view s) !! t = Some ht → block_height ht <= block_height h
  end.
Proof.
  intros Hs Hso Hb Hc. pose proof (so_anchor _ Hso) as Ha. destruct b as [h|]; cbn in Hb.
  - destruct Hb as (Hst & _ & Hm). unfold stored in Hst. rewrite load_view in Hst. split; [done|]. split; [by apply candidate_reachable; [..|apply Hc]|].
    intros t ht Hr Ht. apply (Hm t); [done|by apply candidate_reachable|by rewrite load_view].
  - destruct Hb as [_ Hn]. intros t Hr. apply (Hn t); [done|]. by apply candidate_reachable.
Qed.

(** *** Fetching again *)
Lemma fetch_next_ok s st p : sound (view s) → selecting (view s) st → may_fetch_blocks st = false →
  ∃ st' sent, handle_fetch_next_from p st s = Ok (st', s, sent) ∧ selecting (view s) st' ∧ sent_ok (view s) st st' (FetchNextFrom p) sent.
Proof.
  intros Hso Hse Hm. unfold handle_fetch_next_from, sent_ok. rewrite Hm.
  assert (selecting (view s) (mkSelectChain (tips st) (best_tip st) true)) as Hse' by (by destruct Hse; split).
  destruct (best_tip st) as [best|] eqn:Hb; [|eexists _, _; split; [done|]; split; [done|]; set_solver].
  case_decide; [eexists _, _; split; [done|]; split; [done|]; set_solver|].
  destruct (se_best _ _ Hse best Hb) as (Hl & _ & q & Hq). rewrite load_view, Hl. cbn [ok_or mbind exec_bind].
  pose proof (load_parent s best q (so_view _ Hso) Hl Hq) as Hp. unfold load_parent_point in Hp. rewrite Hp. cbn [mbind exec_bind].
  eexists _, _. split; [done|]. split; [done|]. rewrite Hb, Hm. split; [|done]. intros m ->%list_elem_of_singleton. by exists best.
Qed.

(** *** The first best tip *)
Lemma initialize_ok s k : store_ok s → sound (view s) → message_ok (view s) SelectChain_new (Initialize k) →
  ∃ st' sent, initialize k SelectChain_new s = Ok (st', s, sent) ∧ selecting (view s) st' ∧ sent_ok (view s) SelectChain_new st' (Initialize k) sent.
Proof.
  intros Hs Hso [_ Hk]. unfold initialize. case_decide as Ho.
  - eexists _, _. split; [done|]. split; [|split; [set_solver|done]]. split; cbn; [by intros ? ? ?%lookup_empty_Some|done|]. intros t h [? ?%lookup_empty_Some]. done.
  - destruct Hk as [[]|[Hr Hm]]; [done|]. destruct (reachable_known _ _ Hr) as [h Hh]. destruct Hso as [Hv Hp Ha].
    destruct (unvalidated_walk (E := Terminated) s k h Hs Hv Hp Hh) as (l & b & Hu & Hw). rewrite Hu. cbn [mbind exec_bind].
    assert (b = true) as -> by (by apply (candidate_walk s k Hs Hv Ha (proj2 (candidate_reachable s k Hs Ha) Hr) l)).
    rewrite load_view, Hh. eexists _, _. split; [done|]. split; [|split; [set_solver|done]].
    pose proof (vo_hash _ Hv _ _ Hh) as [Hhk _]. split; cbn.
    + intros t l'. rewrite lookup_insert. case_decide as Ht; [intros [= <-]; subst; by apply walk_pending|]. by intros ?%lookup_empty_Some.
    + intros ? [= <-]. rewrite Hhk. split; [done|]. split; [rewrite lookup_insert_eq; eauto|]. apply (reachable_parent _ k); [done| |done|done].
      intros. by apply (reachable_slot s k0).
    + intros t ht [l' Hl'] Ht Hrt. exists h. split; [done|]. by apply (Hm t).
Qed.

(** *** Verdicts *)
Lemma has_header_view s k : has_header s k = is_some (v_headers (view s) !! k).
Proof. unfold has_header. by rewrite load_view. Qed.

Lemma valid_ok v st tip : sound v → selecting v st → v_flags v !! point_hash tip ≠ Some false →
  selecting (with_flags (<[point_hash tip := true]> (v_flags v)) v)
    (mkSelectChain (drain_through (point_hash tip) <$> tips st) (best_tip st) (may_fetch_blocks st)).
Proof.
  intros [Hv _ _] [Ht Hb Hh] Hf. split; cbn.
  - intros t l. rewrite lookup_fmap, fmap_Some. intros (l' & Hl' & ->). apply pending_advance; [done|done|by apply Ht].
  - intros b Hb'. destruct (Hb b Hb') as (Hl & Hi & Hp). split; [done|]. split; [|done]. rewrite lookup_fmap. by apply fmap_is_Some.
  - intros t h Hi Hl Hr. apply (Hh t); [|done|].
    + rewrite lookup_fmap in Hi. by apply fmap_is_Some in Hi.
    + apply (reachable_flags v) in Hr; [done|]. intros k. rewrite lookup_insert. case_decide; [by subst|done].
Qed.
(** What is left of the paths after an invalid block. *)
Definition pruned (hash : HeaderHash) (m : gmap HeaderHash (list HeaderHash)) : gmap HeaderHash (list HeaderHash) :=
  filter (λ kv : HeaderHash * list HeaderHash, hash ∉ kv.2) m.
Lemma pruned_lookup hash m t l : pruned hash m !! t = Some l ↔ m !! t = Some l ∧ hash ∉ l.
Proof. unfold pruned. by rewrite map_lookup_filter_Some. Qed.

Lemma pruned_pending v st tip t l : selecting v st → v_flags v !! point_hash tip ≠ Some true → pruned (point_hash tip) (tips st) !! t = Some l →
  pending (with_flags (<[point_hash tip := false]> (v_flags v)) v) t l.
Proof. intros Hse Hf [Hl Hn]%pruned_lookup. apply pending_avoid; [done|done|by apply (se_tips _ _ Hse)]. Qed.
Lemma reachable_invalid v hash t : reachable (with_flags (<[hash := false]> (v_flags v)) v) t → reachable v t.
Proof. apply reachable_flags. intros k. rewrite lookup_insert. by case_decide. Qed.

(** The best tip stays, if it is not pruned. *)
Lemma pruned_ok v st tip may_fetch : selecting v st → v_flags v !! point_hash tip ≠ Some true →
  (∀ b, best_tip st = Some b → is_Some (pruned (point_hash tip) (tips st) !! header_hash b)) →
  selecting (with_flags (<[point_hash tip := false]> (v_flags v)) v) (mkSelectChain (pruned (point_hash tip) (tips st)) (best_tip st) may_fetch).
Proof.
  intros Hse Hf Hb. split; cbn.
  - intros t l. by apply pruned_pending.
  - intros b Hb'. destruct (se_best _ _ Hse b Hb') as (Hl & _ & Hp). split; [done|]. split; [by apply Hb|done].
  - intros t h [l Hl] Hh Hr. apply reachable_invalid in Hr. apply pruned_lookup in Hl as [Hl _]. apply (se_high _ _ Hse t); [by exists l|done|done].
Qed.
(** Otherwise the highest candidate takes its place. *)
Lemma replace_ok s st tip : store_ok s → sound (view s) → (size (dom (v_headers (view s))) <= fuel)%nat →
  (∀ t l, pruned (point_hash tip) (tips st) !! t = Some l → pending (view s) t l) →
  ∃ st' sent, replace_best fuel (pruned (point_hash tip) (tips st)) st s = Ok (st', s, sent) ∧ selecting (view s) st' ∧
    sent_ok (view s) st st' (BlockValidationResult tip false 0) sent.
Proof.
  intros Hs Hso Hfuel Hpr. pose proof Hso as [Hv Hpk Ha]. unfold replace_best, sent_ok.
  destruct (best_candidate_ok s fuel Hs Hv Ha Hfuel) as (b & Hb & Hbest & Hcand). rewrite Hb. cbn [map_err mbind exec_bind].
  pose proof (best_of_reachable s b Hs Hso Hbest Hcand) as Hr. destruct b as [h|]; cbn [from_option].
  - destruct Hr as (Hh & Hr & Hm). destruct (vo_hash _ Hv _ _ Hh) as (_ & Ho & _). rewrite decide_False by done. rewrite load_view, Hh. cbn [ok_or mbind exec_bind].
    destruct (reachable_parent (view s) (header_hash h) h Hpk) as (p & Hp); [intros; by apply (reachable_slot s k)|done|done|].
    rewrite (load_parent s h p Hv Hh Hp). cbn [mbind exec_bind].
    destruct (unvalidated_walk (E := Terminated) s (header_hash h) h Hs Hv Hpk Hh) as (l & b & Hu & Hw). rewrite Hu. cbn [mbind exec_bind].
    assert (b = true) as -> by (by apply (candidate_walk s (header_hash h) Hs Hv Ha (Hcand h eq_refl) l)).
    assert (∀ m, selecting (view s) (mkSelectChain (<[header_hash h := l]> (pruned (point_hash tip) (tips st))) (Some h) m)) as Hse'.
    { intros m. split; cbn.
      - intros t l'. rewrite lookup_insert. case_decide as Ht; [intros [= <-]; subst; by apply walk_pending|by apply Hpr].
      - intros ? [= <-]. split; [done|]. split; [rewrite lookup_insert_eq; eauto|by exists p].
      - intros t ht _ Ht Hrt. exists h. split; [done|]. by apply (Hm t). }
    destruct (may_fetch_blocks st); (eexists _, _; split; [done|]; split; [apply Hse'|]; split; [|done]); [|set_solver].
    intros m ->%list_elem_of_singleton. by exists h.
  - rewrite decide_True by done. eexists _, _. split; [done|]. split; [|split; [set_solver|cbn; lia]]. split; cbn; [done|done|].
    intros t ht _ _ Hrt. by destruct (Hr t).
Qed.

Lemma validation_result_ok s st tip valid height : store_ok s → sound (view s) → selecting (view s) st →
  (size (dom (v_headers (view s))) <= fuel)%nat → message_ok (view s) st (BlockValidationResult tip valid height) →
  ∃ st' s' sent, handle_block_validation_result fuel tip valid st s = Ok (st', s', sent) ∧ store_ok s' ∧
    view s' = view_after (view s) (BlockValidationResult tip valid height) ∧ selecting (view s') st' ∧
    sent_ok (view s') st st' (BlockValidationResult tip valid height) sent.
Proof.
  intros Hs Hso Hse Hfuel Hmsg. pose proof (sound_after _ _ _ Hso Hmsg) as Hso'. destruct Hmsg as ([h Hh] & Hf & _). unfold handle_block_validation_result.
  rewrite has_header_view, Hh. cbn [is_some negb]. destruct (impl_set_block_valid (point_hash tip) valid s Hs) as [Hs' Hview].
  cbn [view_after] in Hso' |- *. rewrite <- Hview in Hso'. destruct valid.
  { eexists _, _, _. split; [done|]. split; [done|]. split; [done|]. rewrite Hview. split; [by apply valid_ok|]. split; [set_solver|cbn; lia]. }
  change (filter _ (tips st)) with (pruned (point_hash tip) (tips st)). cbn [negb] in Hf.
  assert ((∀ b, best_tip st = Some b → is_Some (pruned (point_hash tip) (tips st) !! header_hash b)) →
    selecting (view (set_block_valid (point_hash tip) false s)) (mkSelectChain (pruned (point_hash tip) (tips st)) (best_tip st) (may_fetch_blocks st))) as Hkeep.
  { rewrite Hview. by apply pruned_ok. }
  destruct (best_tip st) as [best|] eqn:Hb.
  - destruct (pruned (point_hash tip) (tips st) !! header_hash best) as [l|] eqn:Hl; cbn [is_some].
    + eexists _, _, _. split; [done|]. split; [done|]. split; [done|]. split; [apply Hkeep; intros ? [= <-]; by exists l|]. split; [set_solver|cbn; lia].
    + destruct (replace_ok (set_block_valid (point_hash tip) false s) st tip Hs' Hso') as (st' & sent & Hr & Hse' & Hsent).
      * rewrite Hview. done.
      * rewrite Hview. intros t l'. by apply pruned_pending.
      * exists st', (set_block_valid (point_hash tip) false s), sent. done.
  - eexists _, _, _. split; [done|]. split; [done|]. split; [done|]. split; [by apply Hkeep|]. split; [set_solver|cbn; lia].
Qed.

(** *** Announced tips *)
Definition tracked (v : ChainView) (st : SelectChain) (tip : Point) (m : gmap HeaderHash (list HeaderHash)) : Prop :=
  (∀ t l, m !! t = Some l → pending v t l) ∧
  (∀ t, is_Some (m !! t) → t = point_hash tip ∨ is_Some (tips st !! t)) ∧
  (∀ t, is_Some (tips st !! t) → is_Some (m !! t) ∨ ∃ h, v_headers v !! point_hash tip = Some h ∧ parent h = Some t ∧ is_Some (m !! point_hash tip)).

Lemma track_tip_ok s st tip p h : store_ok s → sound (view s) → selecting (view s) st → v_headers (view s) !! point_hash tip = Some h →
  v_flags (view s) !! point_hash tip = None → parent_point (view s) h p →
  ∃ m, track_tip tip p st s = Ok m ∧ tracked (view s) st tip m.
Proof.
  intros Hs [Hv Hpk Ha] Hse Hh Hf Hp. unfold track_tip, parent_point in *. destruct (parent h) as [k|] eqn:Hk.
  - destruct Hp as (hp & Hhp & ->). rewrite decide_False by done. pose proof (vo_hash _ Hv _ _ Hhp) as [Hhk _]. cbn [point_hash header_point]. rewrite Hhk.
    destruct (tips st !! k) as [chain|] eqn:Hc.
    + eexists. split; [done|]. split_and!.
      * intros t l. rewrite lookup_insert. case_decide as Ht; [intros [= <-]; subst t|rewrite lookup_delete_Some; intros [_ Hl]; by apply (se_tips _ _ Hse)].
        apply (pending_step _ _ h k); [done|done|done|by apply (se_tips _ _ Hse)].
      * intros t. rewrite lookup_insert. case_decide; [by left|]. rewrite lookup_delete. case_decide; [by intros []|by right].
      * intros t Ht. destruct (decide (t = k)) as [->|Hne]; [right; exists h; by rewrite lookup_insert_eq|left].
        rewrite lookup_insert. case_decide; [done|]. by rewrite lookup_delete_ne.
    + destruct (unvalidated_walk (E := Terminated) s k hp Hs Hv Hpk Hhp) as (l & b & Hu & Hw). rewrite Hu. cbn [mbind exec_bind]. eexists. split; [done|].
      destruct b; [|split_and!; [apply (se_tips _ _ Hse)|by right|by left]]. split_and!.
      * intros t l'. rewrite lookup_insert. case_decide as Ht; [intros [= <-]; subst t|apply (se_tips _ _ Hse)].
        apply (pending_step _ _ h k); [done|done|done|by apply walk_pending].
      * intros t. rewrite lookup_insert. case_decide; [by left|by right].
      * intros t Ht. left. rewrite lookup_insert. by case_decide.
  - subst p. rewrite decide_True by done. eexists. split; [done|]. split_and!.
    + intros t l. rewrite lookup_insert. case_decide as Ht; [intros [= <-]; subst t|apply (se_tips _ _ Hse)]. apply (pending_base _ _ h); auto.
    + intros t. rewrite lookup_insert. case_decide; [by left|by right].
    + intros t Ht. left. rewrite lookup_insert. by case_decide.
Qed.

(** A better tip becomes the best; the others leave it in its place. *)
Lemma better_ok v st tip m h p may_fetch : sound v → selecting v st → tracked v st tip m → is_Some (m !! point_hash tip) →
  v_headers v !! point_hash tip = Some h → parent_point v h p → tip_order (Some h) (best_tip st) = Gt →
  selecting v (mkSelectChain m (Some h) may_fetch).
Proof.
  intros [Hv _ _] Hse (Hm & Hin & _) Htip Hh Hp Ho. pose proof (vo_hash _ Hv _ _ Hh) as [Hhh _]. split; cbn; [done| |].
  - intros ? [= <-]. rewrite Hhh. split; [done|]. split; [done|by exists p].
  - intros t ht Ht Hht Hr. exists h. split; [done|]. destruct (Hin t Ht) as [->|Ht']; [rewrite Hh in Hht; by injection Hht as <-|].
    destruct (se_high _ _ Hse t ht Ht' Hht Hr) as (b & Hb & Hle). rewrite Hb in Ho. apply tip_order_height in Ho. lia.
Qed.
Lemma not_better_ok v st tip m h : sound v → selecting v st → tracked v st tip m → v_headers v !! point_hash tip = Some h →
  (is_Some (m !! point_hash tip) → tip_order (Some h) (best_tip st) ≠ Gt) →
  selecting v (mkSelectChain m (best_tip st) (may_fetch_blocks st)).
Proof.
  intros [Hv _ _] Hse (Hm & Hin & Hout) Hh Ho.
  assert (is_Some (m !! point_hash tip) → ∃ b, best_tip st = Some b ∧ block_height h <= block_height b) as Hbest.
  { intros Hi. specialize (Ho Hi). destruct (best_tip st) as [b|]; [|by cbn in Ho]. exists b. split; [done|]. by apply tip_order_not_greater. }
  split; cbn; [done| |].
  - intros b Hb. destruct (se_best _ _ Hse b Hb) as (Hl & Hi & Hp). split; [done|]. split; [|done].
    destruct (Hout _ Hi) as [|(h' & Hh' & Hpar & Hi')]; [done|]. rewrite Hh in Hh'. injection Hh' as <-.
    destruct (Hbest Hi') as (b' & Hb' & Hle). destruct (vo_step _ Hv _ _ _ _ Hh Hpar Hl). simplify_eq. lia.
  - intros t ht Ht Hht Hr. destruct (Hin t Ht) as [->|Ht']; [|by apply (se_high _ _ Hse t)]. rewrite Hh in Hht. injection Hht as <-. by apply Hbest.
Qed.

Lemma tip_ok s st tip p : store_ok s → sound (view s) → selecting (view s) st → message_ok (view s) st (TipFromUpstream tip p) →
  ∃ st' sent, handle_tip_from_upstream tip p st s = Ok (st', s, sent) ∧ selecting (view s) st' ∧
    sent_ok (view s) st st' (TipFromUpstream tip p) sent.
Proof.
  intros Hs Hso Hse (h & Hh & Htip & Hp). pose proof (so_view _ Hso) as Hv. unfold handle_tip_from_upstream, sent_ok.
  assert (∀ st', may_fetch_blocks st' = may_fetch_blocks st →
    (∀ m, m ∈ ([] : list NewBestTip) → ∃ b, best_tip st' = Some b ∧ nb_tip m = header_point b ∧ parent_point (view s) b (nb_parent m)) ∧
    (Nat.b2n (may_fetch_blocks st') + length ([] : list NewBestTip) = Nat.b2n (may_fetch_blocks st) + 0)%nat) as Hsilent.
  { intros st' ->. split; [set_solver|done]. }
  rewrite view_load, Hh. cbn [fmap option_fmap option_map]. destruct (v_flags (view s) !! point_hash tip) as [b|] eqn:Hf.
  { eexists _, _. split; [done|]. split; [done|]. by apply Hsilent. }
  destruct (is_some (tips st !! point_hash tip) || _); [eexists _, _; split; [done|]; split; [done|]; by apply Hsilent|].
  destruct (track_tip_ok s st tip p h Hs Hso Hse Hh Hf Hp) as (m & Hm & Htr). rewrite Hm. cbn [mbind exec_bind].
  destruct (m !! point_hash tip) as [l|] eqn:Hl; cbn [is_some negb].
  2: { eexists _, _. split; [done|]. split; [|by apply Hsilent]. apply (not_better_ok _ _ tip _ h); try done. rewrite Hl. by intros []. }
  rewrite cmp_tip_ok.
  2: { intros ? [= <-]. by destruct (vo_hash _ Hv _ _ Hh) as (_ & _ & ? & _). }
  2: { intros b Hb. destruct (se_best _ _ Hse b Hb) as (Hlb & _). by destruct (vo_hash _ Hv _ _ Hlb) as (_ & _ & ? & _). }
  cbn [mbind exec_bind]. destruct (tip_order (Some h) (best_tip st)) eqn:Ho.
  1,2: eexists _, _; (split; [done|]); split; [|by apply Hsilent]; apply (not_better_ok _ _ tip _ h); try done; rewrite Ho; done.
  assert (∀ f, selecting (view s) (mkSelectChain m (Some h) f)) as Hse' by (intros f; apply (better_ok _ st tip _ _ p); try done; by exists l).
  destruct (may_fetch_blocks st); eexists _, _; (split; [done|]); (split; [apply Hse'|]); split; cbn; [|lia|set_solver|lia].
  intros msg ->%list_elem_of_singleton. exists h. by rewrite Htip.
Qed.

(** *** Every message *)
Lemma stage_ok s st msg : store_ok s → sound (view s) → selecting (view s) st → (size (dom (v_headers (view s))) <= fuel)%nat →
  message_ok (view s) st msg →
  ∃ st' s' sent, stage fuel msg st s = Ok (st', s', sent) ∧ store_ok s' ∧ view s' = view_after (view s) msg ∧
    sound (view s') ∧ selecting (view s') st' ∧ sent_ok (view s') st st' msg sent.
Proof.
  intros Hs Hso Hse Hfuel Hmsg. pose proof (sound_after _ _ _ Hso Hmsg) as Hso'.
  destruct msg as [k|tip p|tip valid height|p]; cbn [stage].
  - destruct Hmsg as [-> Hk]. destruct (initialize_ok s k Hs Hso (conj eq_refl Hk)) as (st' & sent & Hr & Hse' & Hsent). by exists st', s, sent.
  - destruct (tip_ok s st tip p Hs Hso Hse Hmsg) as (st' & sent & Hr & Hse' & Hsent). by exists st', s, sent.
  - destruct (validation_result_ok s st tip valid height Hs Hso Hse Hfuel Hmsg) as (st' & s' & sent & Hr & Hs' & Hview & Hse' & Hsent).
    exists st', s', sent. rewrite Hview at 2. done.
  - destruct (fetch_next_ok s st p Hso Hse Hmsg) as (st' & sent & Hr & Hse' & Hsent). by exists st', s, sent.
Qed.
End Handlers.

(** ** What the other stages do to the store *)

(** A header that was checked against its parent, which is stored. *)
Record header_fits (v : ChainView) (h : Header) : Prop := {
  hf_new : v_headers v !! header_hash h = None;
  hf_ok : header_hash h ≠ ORIGIN_HASH ∧ slot_fits h ∧ 0 <= block_height h;
  hf_parent : ∀ p, parent h = Some p → p ≠ ORIGIN_HASH ∧
    ∃ hp, v_headers v !! p = Some hp ∧ slot hp < slot h ∧ block_height h = block_height hp + 1;
  hf_first : ∀ k hk, v_headers v !! k = Some hk → parent hk ≠ Some (header_hash h) }.
(** A block above the anchor that is not invalid, to be the next one. *)
Definition anchor_fits (v : ChainView) (p : Point) : Prop :=
  point_known v p ∧ v_flags v !! point_hash p ≠ Some false ∧ reachable v (point_hash p) ∧ point_slot (v_anchor v) <= point_slot p.

Lemma sound_header v h : sound v → header_fits v h → sound (with_header h v).
Proof.
  intros [[Hh Hst Hk] Hp Ha] [Hnew Hok Hpar Hfirst]. split.
  - split; cbn.
    + intros k hk. rewrite lookup_insert. case_decide; [intros [= <-]; by subst|apply Hh].
    + intros k hk p hp. rewrite !lookup_insert. case_decide; [intros [= <-]|].
      * intros Hq. destruct (Hpar p Hq) as (_ & hp' & Hhp' & Hs). case_decide; [congruence|]. intros Hhp. rewrite Hhp' in Hhp. by injection Hhp as <-.
      * intros Hk' Hq. case_decide; [subst p; by destruct (Hfirst k hk)|]. by apply (Hst k).
    + intros k hk p. rewrite lookup_insert. case_decide; [intros [= <-] Hq; by destruct (Hpar p Hq)|apply Hk].
  - intros k hk p. cbn. rewrite lookup_insert. case_decide; [intros [= <-] _ Hq|intros Hk' Hsl Hq].
    + destruct (Hpar p Hq) as (_ & hp & Hhp & _). rewrite lookup_insert_ne by congruence. by exists hp.
    + destruct (Hp k hk p Hk' Hsl Hq) as [hp Hhp]. rewrite lookup_insert_ne by congruence. by exists hp.
  - destruct Ha as [Ha|[(a & Hl & Hpt) Hf]]; [by left|]. right. split; [|done]. exists a. cbn. rewrite lookup_insert_ne by congruence. done.
Qed.
Lemma selecting_header v h st : sound v → header_fits v h → selecting v st → selecting (with_header h v) st.
Proof.
  intros Hso [Hnew (Ho & _) Hpar Hfirst] [Ht Hb Hh]. assert (v_headers v ⊆ v_headers (with_header h v)) as Hsub by by apply insert_subseteq.
  split.
  - intros t l Hl. apply (pending_more v); [done|done|done|by apply Ht].
  - intros b Hb'. destruct (Hb b Hb') as (Hl & Hi & p & Hp). split; [by apply (lookup_weaken _ _ _ _ Hl)|]. split; [done|]. exists p.
    unfold parent_point in *. destruct (parent b); [|done]. destruct Hp as (hp & Hhp & ->). exists hp. split; [by apply (lookup_weaken _ _ _ _ Hhp)|done].
  - intros t ht [l Hl] Hht Hr. destruct (pending_known v t l (Ht t l Hl)) as [ht' Hht']. assert (t ≠ header_hash h) as Hne by congruence.
    cbn in Hht. rewrite lookup_insert_ne in Hht by congruence. apply (Hh t); [by exists l|done|].
    apply (reachable_header v h) in Hr as [|]; [done|done|done|intros k hk Hk' _; by apply (Hfirst k)|done|].
    destruct (so_anchor _ Hso) as [->|[(a & Ha & _) _]]; [done|congruence].
Qed.
Lemma sound_anchor v p : sound v → anchor_fits v p → sound (with_anchor p v).
Proof.
  intros [Hv Hp Ha] (Hk & Hf & _ & Hle). split; [by destruct Hv| |by right]. intros k h q Hh Hsl. cbn in *. apply (Hp k h q Hh). lia.
Qed.
Lemma selecting_anchor v p st : sound v → anchor_fits v p → selecting v st → selecting (with_anchor p v) st.
Proof.
  intros [Hv _ _] ((hp & Hhp & _) & Hf & Hr & Hle) [Ht Hb Hh]. destruct (vo_hash _ Hv _ _ Hhp) as (_ & Ho & _). split; [| |].
  - intros t l Hl. apply (pending_more v); [done|done|done|by apply Ht].
  - exact Hb.
  - intros t h Hi Hht Hrt. apply (Hh t h Hi Hht). by apply (reachable_move v p).
Qed.
Lemma reachable_ext v v' t : v_headers v = v_headers v' → v_flags v = v_flags v' → v_anchor v = v_anchor v' → reachable v t → reachable v' t.
Proof.
  intros Hh Hf Ha. induction 1 as [h Hl Ho Hk|t h Hl Ho Hd Hk|p t h Hl Hp IH Hd Hk].
  - rewrite Ha, Hh, Hf in *. by apply (reachable_anchor v' h).
  - rewrite Ha, Hh, Hf in *. by apply (reachable_first v' t h).
  - rewrite Hh, Hf in *. by apply (reachable_child v' p t h).
Qed.
Lemma pending_ext v v' t l : v_headers v = v_headers v' → v_flags v = v_flags v' → v_anchor v = v_anchor v' → pending v t l → pending v' t l.
Proof. intros Hh Hf Ha. apply pending_more; [by rewrite Hh|done|by rewrite Ha]. Qed.
(** Blocks and the best chain are nothing to the selection. *)
Lemma selecting_ext v v' st : v_headers v = v_headers v' → v_flags v = v_flags v' → v_anchor v = v_anchor v' → sound v ∧ selecting v st →
  sound v' ∧ selecting v' st.
Proof.
  intros Hh Hf Ha [[[H1 H2 H3] Hp Hok] [Ht Hb Hhi]]. unfold parents_known, anchor_ok, point_known, parent_point in *. rewrite Hh, Hf, Ha in *. split; split; try done.
  - intros t l Hl. apply (pending_ext v); [done|done|done|by apply Ht].
  - intros t h Hi Hl Hr. apply (Hhi t h Hi Hl). by apply (reachable_ext v').
Qed.

(** ** Runs *)
Section Runs.
Context {S : Type} `{ChainStore S} `{Hashing}.
Variable fuel : nat.

(** The stage takes a message, or another stage writes to the store. *)
Inductive moves : S * SelectChain → S * SelectChain → Prop :=
| moves_stage s st msg s' st' sent : message_ok (view s) st msg → (size (dom (v_headers (view s))) <= fuel)%nat →
    stage fuel msg st s = Ok (st', s', sent) → moves (s, st) (s', st')
| moves_header s st h : header_fits (view s) h → moves (s, st) (store_header h s, st)
| moves_block s st k b : moves (s, st) (store_block k b s, st)
| moves_anchor s st p : anchor_fits (view s) p → moves (s, st) (set_anchor_point p s, st)
| moves_roll s st p : slots_ascending (v_chain (view s) ++ [p]) → moves (s, st) (roll_forward_chain p s, st)
| moves_switch s st fork l s' : Exists (same_place fork) (v_chain (view s)) → 0 <= point_slot fork < u64_max →
    slots_ascending (up_to fork (v_chain (view s)) ++ l) → switch_to_fork fork l s = Ok s' → moves (s, st) (s', st).

Definition running (x : S * SelectChain) : Prop := store_ok x.1 ∧ sound (view x.1) ∧ selecting (view x.1) x.2.

Lemma running_moves x y : running x → moves x y → running y.
Proof.
  intros (Hs & Hso & Hse). destruct 1 as [s st msg s' st' sent Hmsg Hf Hst|s st h Hh|s st k b|s st p Hp|s st p Hp|s st fork l s' Hex Hsl Hasc Hsw]; cbn in *.
  - destruct (stage_ok fuel s st msg Hs Hso Hse Hf Hmsg) as (st2 & s2 & sent2 & Hr & Hs' & _ & Hso' & Hse' & _). rewrite Hst in Hr.
    injection Hr as -> -> ->. done.
  - destruct (impl_store_header h s Hs) as [Hs' Hv]; [left; apply (hf_new _ _ Hh)|]. split; [done|]. cbn. rewrite Hv.
    split; [by apply sound_header|by apply selecting_header].
  - destruct (impl_store_block k b s Hs) as [Hs' Hv]. split; [done|]. cbn. rewrite Hv. by apply (selecting_ext (view s)).
  - destruct (impl_set_anchor_point p s Hs) as [Hs' Hv]. split; [done|]. cbn. rewrite Hv. split; [by apply sound_anchor|by apply selecting_anchor].
  - destruct (impl_roll_forward_chain p s Hs Hp) as [Hs' Hv]. split; [done|]. cbn. rewrite Hv. by apply (selecting_ext (view s)).
  - destruct (impl_switch_to_fork fork l s Hs Hex Hsl Hasc) as (s2 & Hr & Hs' & Hv). rewrite Hsw in Hr. injection Hr as <-. split; [done|].
    cbn. rewrite Hv. by apply (selecting_ext (view s)).
Qed.
Lemma running_start s : store_ok s → sound (view s) → running (s, SelectChain_new).
Proof.
  intros Hs Hso. split; [done|]. split; [done|]. split; cbn; [by intros t l ?%lookup_empty_Some|done|]. intros t h [l ?%lookup_empty_Some]. done.
Qed.
Lemma running_run x y : running x → rtc moves x y → running y.
Proof. intros Hx. induction 1 as [|x y z Hm _ IH]; [done|]. apply IH. by apply (running_moves x). Qed.
End Runs.
