(* ===== verification/FetchBlocks.v ===== *)
(** * Fetching blocks

    [amaru-consensus/src/stages/fetch_blocks/mod.rs]: the stage that finds which blocks of
    the best chain are missing, asks peers for a batch of them, stores the ones that come in
    order, and hands them over for validation; and its child, which drops late replies.

    A handler gives back the state, the store, and the effects in the order they are
    performed.  The clock, the identifiers of schedules and the peers that the
    performance resource selects are arguments; decoding a block is a parameter.  Times
    are in milliseconds; tracing is not part of the model. *)

From S2P Require Import Prelude BTreeMap SortedAssoc UplcSyntax Headers ChainStore SelectChain.
#[local] Open Scope Z_scope.

Definition MAX_MISSING_BLOCKS_PER_BATCH : nat := 25.
Definition MAX_FETCH_PEERS : nat := 5.
Definition FETCH_WIDEN_DELAYS : list Z := [30; 80; 150].
Definition FETCH_TIMEOUT : Z := 5000.

(** ** Missing blocks *)
Definition first (m : MissingBlocks) : option Point := head (missing m).
Definition from_to (m : MissingBlocks) : option (Point * Point) :=
  from ← head (missing m); through ← last (missing m); Some (from, through).
Definition shift_one_block (m : MissingBlocks) : MissingBlocks :=
  match missing m with [] => m | removed :: rest => mkMissingBlocks removed rest end.

(** ** What the stage uses *)

(** Blocks as they come from the network. *)
Class NetworkBlocks (NetworkBlock : Type) := {
  decode_block : NetworkBlock → option (Header * list Z);
  decode_header : NetworkBlock → option Header;
  raw_block : NetworkBlock → list Z }.

Record DownloadedBlock := mkDownloadedBlock { db_tip : Point; db_parent : Point; db_max_block_height : Z }.

Section Fetch.
Context {Peer : Type} `{Countable Peer} {NetworkBlock : Type} `{!NetworkBlocks NetworkBlock}.
Context {S : Type} `{!BaseReadChainStore S, !WriteChainStore S}.

Inductive FetchBlocksMsg :=
| NewTip (tip parent : Point)
| RecoverStoredBlocks (from : Point) (to : HeaderHash)
| Block (peer : Peer) (network_block : NetworkBlock)
| Timeout (req_id : Z)
| Widen (req_id : Z)
| PeersAsked (req_id : Z) (peers : list Peer)
| NoBlocks (req_id : Z) (peer : Peer)
| NoPeersAvailable (req_id : Z).

(** The only message to [select_chain] is [FetchNextFrom]. *)
Inductive FetchEffect :=
| ToDownstream (b : DownloadedBlock)
| ToUpstream (fetch_next_from : Point)
| ToManager (from through : Point) (id : Z) (peers : option (list Peer))
| Adversarial (peer : Peer)
| Schedule (id : Z) (msg : FetchBlocksMsg) (at_ms : Z)
| CancelSchedule (id : Z)
| RecordBlockDelivery (peer : Peer) (hash : HeaderHash) (height : Z) (parent : option HeaderHash) (now response bytes : Z)
| RecordFetchFailure (peers : list Peer) (now : Z)
| RecordPeersAsked (hashes : list HeaderHash) (peers : list Peer) (at_ms : Z).

Record FetchBlocks := mkFetchBlocks {
  req_id : Z;
  fb_missing : option MissingBlocks;
  timeout_id : option Z;
  no_peers_pause : bool;
  fb_block_height : Z;
  fetch_started_at : option Z;
  fetch_peers : gset Peer;
  fetch_settled : gset Peer;
  fetch_contributors : gset Peer;
  asked : gset Peer;
  widen_index : Z;
  widen_id : option Z;
  awaiting_broadcast : bool }.
Definition FetchBlocks_new : FetchBlocks := mkFetchBlocks 0 None None false 0 None ∅ ∅ ∅ ∅ 0 None false.

(** What a handler reads from outside. *)
Record FetchEnv := mkFetchEnv {
  env_now : Z;
  env_timeout : Z;
  env_widen : Z;
  select_peers_for_fetch : list HeaderHash → nat → list Peer → Z → bool * list Peer }.
Variable env : FetchEnv.

Definition Fetched : Type := FetchBlocks * S * list FetchEffect.

(** *** Parts of the state *)
Definition set_missing (m : option MissingBlocks) (st : FetchBlocks) : FetchBlocks :=
  mkFetchBlocks (req_id st) m (timeout_id st) (no_peers_pause st) (fb_block_height st) (fetch_started_at st) (fetch_peers st)
    (fetch_settled st) (fetch_contributors st) (asked st) (widen_index st) (widen_id st) (awaiting_broadcast st).
Definition set_timeout (t : option Z) (st : FetchBlocks) : FetchBlocks :=
  mkFetchBlocks (req_id st) (fb_missing st) t (no_peers_pause st) (fb_block_height st) (fetch_started_at st) (fetch_peers st)
    (fetch_settled st) (fetch_contributors st) (asked st) (widen_index st) (widen_id st) (awaiting_broadcast st).
Definition set_pause (b : bool) (st : FetchBlocks) : FetchBlocks :=
  mkFetchBlocks (req_id st) (fb_missing st) (timeout_id st) b (fb_block_height st) (fetch_started_at st) (fetch_peers st)
    (fetch_settled st) (fetch_contributors st) (asked st) (widen_index st) (widen_id st) (awaiting_broadcast st).
Definition set_height (h : Z) (st : FetchBlocks) : FetchBlocks :=
  mkFetchBlocks (req_id st) (fb_missing st) (timeout_id st) (no_peers_pause st) h (fetch_started_at st) (fetch_peers st)
    (fetch_settled st) (fetch_contributors st) (asked st) (widen_index st) (widen_id st) (awaiting_broadcast st).
Definition set_req_id (n : Z) (st : FetchBlocks) : FetchBlocks :=
  mkFetchBlocks n (fb_missing st) (timeout_id st) (no_peers_pause st) (fb_block_height st) (fetch_started_at st) (fetch_peers st)
    (fetch_settled st) (fetch_contributors st) (asked st) (widen_index st) (widen_id st) (awaiting_broadcast st).
Definition set_started (t : option Z) (st : FetchBlocks) : FetchBlocks :=
  mkFetchBlocks (req_id st) (fb_missing st) (timeout_id st) (no_peers_pause st) (fb_block_height st) t (fetch_peers st)
    (fetch_settled st) (fetch_contributors st) (asked st) (widen_index st) (widen_id st) (awaiting_broadcast st).
Definition set_peers (peers settled contributors asked' : gset Peer) (broadcast : bool) (st : FetchBlocks) : FetchBlocks :=
  mkFetchBlocks (req_id st) (fb_missing st) (timeout_id st) (no_peers_pause st) (fb_block_height st) (fetch_started_at st) peers
    settled contributors asked' (widen_index st) (widen_id st) broadcast.
Definition set_widen (i : Z) (w : option Z) (st : FetchBlocks) : FetchBlocks :=
  mkFetchBlocks (req_id st) (fb_missing st) (timeout_id st) (no_peers_pause st) (fb_block_height st) (fetch_started_at st) (fetch_peers st)
    (fetch_settled st) (fetch_contributors st) (asked st) i w (awaiting_broadcast st).

(** *** Requests *)
Definition end_attempt (st : FetchBlocks) : FetchBlocks :=
  set_widen 0 (widen_id st) (set_peers ∅ ∅ ∅ ∅ false (set_started None st)).
Definition cancel_widen (st : FetchBlocks) : FetchBlocks * list FetchEffect :=
  match widen_id st with Some id => (set_widen (widen_index st) None st, [CancelSchedule id]) | None => (st, []) end.
Definition arm_next_widen (st : FetchBlocks) : FetchBlocks * list FetchEffect :=
  match fetch_started_at st, FETCH_WIDEN_DELAYS !! Z.to_nat (widen_index st) with
  | Some started, Some delay =>
      (set_widen (widen_index st) (Some (env_widen env)) st, [Schedule (env_widen env) (Widen (req_id st)) (started + delay)])
  | _, _ => (st, [])
  end.
Definition fetch_next_from (from : Point) : list FetchEffect := [ToUpstream from].
Definition missing_hashes (m : MissingBlocks) : list HeaderHash := map point_hash (missing m).

(** A batch with nothing in it. *)
Definition nothing_to_fetch (tip parent : Point) (st : FetchBlocks) (s : S) : exec Terminated Fetched :=
  let st := set_missing None st in
  let stored :=
    bool_decide (parent ≠ tip) &&
    match load_header_with_validity s (point_hash tip) with Some (_, None) => has_block s (point_hash tip) | _ => false end in
  Ok (st, s, (if stored then [ToDownstream (mkDownloadedBlock tip parent (fb_block_height st))] else []) ++ fetch_next_from tip).

Definition request_blocks (m : MissingBlocks) (tip parent : Point) (st : FetchBlocks) (s : S) : exec Terminated Fetched :=
  match from_to m with
  | None => nothing_to_fetch tip parent st s
  | Some (from, through) =>
      let '(st, cancelled) := cancel_widen st in
      id ← u64_add (req_id st) 1;
      let st := end_attempt (set_pause false (set_req_id id st)) in
      let now := env_now env in
      let requested := missing_hashes m in
      let st := set_missing (Some m) st in
      let '(weak, peers) := select_peers_for_fetch env requested MAX_FETCH_PEERS [] now in
      let '(st, peers_for_manager) :=
        if weak || bool_decide (peers = [])
        then (set_peers (fetch_peers st) (fetch_settled st) (fetch_contributors st) (asked st) true st, None)
        else (set_peers (fetch_peers st) (fetch_settled st) (fetch_contributors st) (asked st ∪ list_to_set peers) (awaiting_broadcast st) st,
              Some peers) in
      let st := set_timeout (Some (env_timeout env)) (set_started (Some now) st) in
      let '(st, armed) := arm_next_widen st in
      Ok (st, s, cancelled ++ [ToManager from through (req_id st) peers_for_manager;
                               Schedule (env_timeout env) (Timeout (req_id st)) (now + FETCH_TIMEOUT)] ++ armed)
  end.

Definition request_missing_blocks (tip parent : Point) (st : FetchBlocks) (s : S) : exec Terminated Fetched :=
  r ← find_missing_blocks s (point_hash tip) MAX_MISSING_BLOCKS_PER_BATCH;
  match r with
  | StartHeaderNotFound => Err Terminate
  | BoundaryNotFound => Ok (set_missing None st, s, [])
  | MissingFound m => request_blocks m tip parent st s
  end.

Definition new_tip (tip parent : Point) (st : FetchBlocks) (s : S) : exec Terminated Fetched :=
  let st := set_height (Z.max (point_height tip) (fb_block_height st)) st in
  match fb_missing st with
  | Some _ => Panic
  | None => request_missing_blocks tip parent st s
  end.

(** The stored blocks of a path, then what to fetch. *)
Fixpoint replay (s : S) (height : Z) (parent : Point) (path : list Point) : list FetchEffect * Point * list Point :=
  match path with
  | [] => ([], parent, [])
  | block_tip :: rest =>
      if has_block s (point_hash block_tip) then
        let '(effects, last, to_fetch) := replay s height block_tip rest in
        (ToDownstream (mkDownloadedBlock block_tip parent height) :: effects, last, to_fetch)
      else ([], parent, take MAX_MISSING_BLOCKS_PER_BATCH path)
  end.

Definition recover_stored_blocks (from : Point) (to : HeaderHash) (st : FetchBlocks) (s : S) : exec Terminated Fetched :=
  match fb_missing st with
  | Some _ => Panic
  | None =>
      if decide (point_hash from = ORIGIN_HASH) then
        (if decide (to = ORIGIN_HASH) then Ok (st, s, []) else Err Terminate)
      else
        found ← ancestors_between s from to;
        to_replay ← ok_or Terminate found;
        best_tip_header ← ok_or Terminate (load_header s to);
        let st := set_height (Z.max (block_height best_tip_header) (fb_block_height st)) st in
        let '(effects, parent, to_fetch) := replay s (fb_block_height st) from to_replay in
        x ← request_blocks (mkMissingBlocks parent to_fetch) (header_point best_tip_header) parent st s;
        let '(st, s, more) := x in
        Ok (st, s, effects ++ more)
  end.

(** *** Replies *)
Definition block (peer : Peer) (network_block : NetworkBlock) (st : FetchBlocks) (s : S) : exec Terminated Fetched :=
  match decode_block network_block with
  | None => Ok (st, s, [])
  | Some (header, body_hash) =>
      let p := header_point header in
      if decide (block_body_hash (header_body header) = body_hash) then
        match fb_missing st with
        | None => Ok (st, s, [])
        | Some m =>
            let now := env_now env in
            let response := match fetch_started_at st with Some started => Z.max 0 (now - started) | None => 0 end in
            let delivered := RecordBlockDelivery peer (point_hash p) (block_height header) (parent header) now response
                               (Z.of_nat (length (raw_block network_block))) in
            if negb (bool_decide (parent header = Some (point_hash (boundary m)))) then Ok (st, s, [delivered])
            else if negb (bool_decide (Some p = first m)) then Ok (st, s, [delivered])
            else
              let st := set_peers (fetch_peers st) (fetch_settled st) ({[peer]} ∪ fetch_contributors st) (asked st) (awaiting_broadcast st) st in
              let s := store_block (point_hash p) (raw_block network_block) s in
              let sent := [delivered; ToDownstream (mkDownloadedBlock p (boundary m) (fb_block_height st))] in
              let m := shift_one_block m in
              match missing m with
              | [] =>
                  let st := end_attempt (set_pause false (set_missing None st)) in
                  let '(st, cancelled) := cancel_widen st in
                  let timeout := match timeout_id st with Some id => [CancelSchedule id] | None => [] end in
                  Ok (set_timeout None st, s, sent ++ cancelled ++ timeout ++ fetch_next_from p)
              | _ => Ok (set_missing (Some m) st, s, sent)
              end
        end
      else Ok (st, s, [Adversarial peer])
  end.

(** Replies that are not about the current request are dropped. *)
Definition current_request (id : Z) (st : FetchBlocks) : bool := (id =? req_id st) && is_some (fb_missing st).

Definition peers_asked (id : Z) (peers : list Peer) (st : FetchBlocks) (s : S) : exec Terminated Fetched :=
  match fb_missing st with
  | None => Ok (st, s, [])
  | Some m =>
      if negb (current_request id st) then Ok (st, s, [])
      else
        let fresh := filter (λ p, (p ∉ fetch_settled st) ∧ (p ∉ fetch_peers st)) peers in
        let first_wave := bool_decide (fetch_peers st = ∅) in
        let started := fetch_started_at st in
        let st := set_peers (fetch_peers st ∪ list_to_set fresh) (fetch_settled st) (fetch_contributors st)
                    (asked st ∪ list_to_set fresh) false st in
        let at_ms := if first_wave then default (env_now env) started else env_now env in
        Ok (st, s, if bool_decide (fresh = []) || bool_decide (missing_hashes m = []) then []
                   else [RecordPeersAsked (missing_hashes m) fresh at_ms])
  end.

Definition no_blocks (id : Z) (peer : Peer) (st : FetchBlocks) (s : S) : exec Terminated Fetched :=
  if negb (current_request id st) then Ok (st, s, [])
  else if decide (peer ∈ fetch_settled st) then Ok (st, s, [])
  else Ok (set_peers (fetch_peers st ∖ {[peer]}) ({[peer]} ∪ fetch_settled st) (fetch_contributors st) (asked st) (awaiting_broadcast st) st,
           s, [RecordFetchFailure [peer] (env_now env)]).

Definition no_peers_available (id : Z) (st : FetchBlocks) (s : S) : exec Terminated Fetched :=
  if negb (current_request id st) then Ok (st, s, [])
  else Ok (set_peers ∅ ∅ ∅ ∅ false (set_pause true st), s, []).

(** *** Wakeups *)
Definition widen (id : Z) (st : FetchBlocks) (s : S) : exec Terminated Fetched :=
  if negb (id =? req_id st) then Ok (st, s, [])
  else
    let st := set_widen (widen_index st) None st in
    match fb_missing st with
    | None => Ok (st, s, [])
    | Some m =>
        let st := set_widen (Z.min u8_max (widen_index st + 1)) (widen_id st) st in
        let '(st, armed) := arm_next_widen st in
        if awaiting_broadcast st && bool_decide (fetch_peers st = ∅) then Ok (st, s, armed)
        else
          let contacted := asked st ∪ fetch_peers st in
          let room := (MAX_FETCH_PEERS - size contacted)%nat in
          if bool_decide (room = 0%nat) then Ok (st, s, armed)
          else match from_to m with
               | None => Ok (st, s, armed)
               | Some (from, through) =>
                   let '(weak, peers) := select_peers_for_fetch env (missing_hashes m) room (elements contacted) (env_now env) in
                   if (weak : bool) then Ok (st, s, armed)
                   else
                     let fresh := filter (λ p, (p ∉ asked st) ∧ (p ∉ fetch_peers st)) peers in
                     match fresh with
                     | [] => Ok (st, s, armed)
                     | _ =>
                         Ok (set_peers (fetch_peers st) (fetch_settled st) (fetch_contributors st) (asked st ∪ list_to_set fresh)
                               (awaiting_broadcast st) st,
                             s, armed ++ [ToManager from through (req_id st) (Some fresh)])
                     end
               end
    end.

Definition timeout (id : Z) (st : FetchBlocks) (s : S) : exec Terminated Fetched :=
  if negb (id =? req_id st) then Ok (st, s, [])
  else
    let failed := elements (fetch_peers st ∖ fetch_contributors st) in
    let failures := if no_peers_pause st || bool_decide (failed = []) then [] else [RecordFetchFailure failed (env_now env)] in
    let st := set_peers ∅ ∅ ∅ (asked st) (awaiting_broadcast st) st in
    match fb_missing st with
    | None => Ok (st, s, failures)
    | Some m =>
        let st := end_attempt (set_pause false (set_missing None (set_timeout None st))) in
        let '(st, cancelled) := cancel_widen st in
        Ok (st, s, failures ++ cancelled ++ fetch_next_from (boundary m))
    end.

Definition fetch_stage (msg : FetchBlocksMsg) (st : FetchBlocks) (s : S) : exec Terminated Fetched :=
  match msg with
  | NewTip tip parent => new_tip tip parent st s
  | RecoverStoredBlocks from to => recover_stored_blocks from to st s
  | Block peer network_block => block peer network_block st s
  | Timeout id => timeout id st s
  | Widen id => widen id st s
  | PeersAsked id peers => peers_asked id peers st s
  | NoBlocks id peer => no_blocks id peer st s
  | NoPeersAvailable id => no_peers_available id st s
  end.

(** ** Late replies *)
Inductive Blocks :=
| BlocksNone (id : Z) (peer : Peer)
| BlocksNoPeers (id : Z)
| BlocksAsked (id : Z) (peers : list Peer)
| BlocksBlock (id : Z) (peer : Peer) (network_block : NetworkBlock)
| BlocksDone (id : Z).

Inductive CleanupEffect :=
| ToFetch (msg : FetchBlocksMsg)
| BlockReceived (peer : Peer) (tip : Point)
| CleanupAdversarial (peer : Peer).

(** The state is the current identifier. *)
Definition cleanup_replies (curr_id : Z) (msg : Blocks) : exec Terminated (Z * list CleanupEffect) :=
  match msg with
  | BlocksNone id peer => Ok (curr_id, if curr_id <=? id then [ToFetch (NoBlocks id peer)] else [])
  | BlocksNoPeers id => Ok (curr_id, [ToFetch (NoPeersAvailable id)])
  | BlocksAsked id peers => Ok (curr_id, if curr_id <=? id then [ToFetch (PeersAsked id peers)] else [])
  | BlocksBlock id peer network_block =>
      match decode_header network_block with
      | None => Ok (curr_id, [CleanupAdversarial peer])
      | Some header =>
          Ok (Z.max id curr_id, BlockReceived peer (header_point header) :: (if curr_id <=? id then [ToFetch (Block peer network_block)] else []))
      end
  | BlocksDone id => next ← u64_add id 1; Ok (Z.max next curr_id, [])
  end.
End Fetch.
