(* ===== verification/Pipeline.v ===== *)
(** * Selecting and fetching together

    [select_chain] and [fetch_blocks] with their mailboxes and timers, wired as in
    [amaru-node/src/stages/build_stage_graph.rs]: the two stages pass one request to fetch
    between them.  At any time at most one of these holds: chain selection keeps the
    request, it is in a mailbox, or a batch is being fetched, whose timeout is pending. *)

From S2P Require Import Prelude BTreeMap SortedAssoc UplcSyntax Headers ChainStore SelectChain FetchBlocks.
#[local] Open Scope Z_scope.

(** ** The request in chain selection *)
Definition sel_starts (msg : SelectChainMsg) : nat := match msg with FetchNextFrom _ => 1 | _ => 0 end.

Section SelectTokens.
Context {S : Type} `{!BaseReadChainStore S, !WriteChainStore S, !Hashing}.

Ltac kept := by intros [= <- <- <-]; cbn; lia.

Lemma replace_best_tokens fuel m st (s : S) st' s' sent : replace_best fuel m st s = Ok (st', s', sent) →
  (Nat.b2n (may_fetch_blocks st') + length sent = Nat.b2n (may_fetch_blocks st))%nat.
Proof.
  unfold replace_best. intros Hr. apply bind_Ok in Hr as (k & _ & Hr). case_decide; [revert Hr; kept|].
  apply bind_Ok in Hr as (h & _ & Hr). apply bind_Ok in Hr as (p & _ & Hr). apply bind_Ok in Hr as ([l b] & _ & Hr).
  destruct (may_fetch_blocks st) eqn:Hm; revert Hr; rewrite ?Hm; kept.
Qed.
Lemma tip_tokens tip p st (s : S) st' s' sent : handle_tip_from_upstream tip p st s = Ok (st', s', sent) →
  (Nat.b2n (may_fetch_blocks st') + length sent = Nat.b2n (may_fetch_blocks st))%nat.
Proof.
  unfold handle_tip_from_upstream. destruct (load_header_with_validity s (point_hash tip)) as [[h [b|]]|]; [kept| |done].
  destruct (_ || _); [kept|]. intros Hr. apply bind_Ok in Hr as (m & _ & Hr). destruct (negb _); [revert Hr; kept|].
  apply bind_Ok in Hr as (o & _ & Hr). destruct o; [revert Hr; kept..|]. destruct (may_fetch_blocks st) eqn:Hm; revert Hr; rewrite ?Hm; kept.
Qed.
Lemma verdict_tokens fuel tip valid st (s : S) st' s' sent : handle_block_validation_result fuel tip valid st s = Ok (st', s', sent) →
  (Nat.b2n (may_fetch_blocks st') + length sent = Nat.b2n (may_fetch_blocks st))%nat.
Proof.
  unfold handle_block_validation_result. destruct (negb _); [done|]. destruct valid; [kept|].
  destruct (best_tip st) as [best|]; [|kept]. destruct (is_some _); [kept|]. apply replace_best_tokens.
Qed.
(** A message either keeps the request, or spends it. *)
Lemma stage_tokens fuel msg st (s : S) st' s' sent : stage fuel msg st s = Ok (st', s', sent) →
  (Nat.b2n (may_fetch_blocks st') + length sent = Nat.b2n (may_fetch_blocks st) + sel_starts msg)%nat.
Proof.
  destruct msg as [k|tip p|tip valid height|p]; cbn [stage sel_starts]; rewrite ?Nat.add_0_r.
  - unfold initialize. case_decide; [kept|]. intros Hr. apply bind_Ok in Hr as ([l b] & _ & Hr). revert Hr. kept.
  - apply tip_tokens.
  - apply verdict_tokens.
  - unfold handle_fetch_next_from. destruct (may_fetch_blocks st) eqn:Hm; [done|]. destruct (best_tip st) as [b|]; [|kept].
    case_decide; [kept|]. intros Hr. apply bind_Ok in Hr as (h & _ & Hr). apply bind_Ok in Hr as (q & _ & Hr). injection Hr as <- <- <-. by rewrite Hm.
Qed.
End SelectTokens.

(** ** The request in the fetch stage *)
Section FetchTokens.
Context {Peer : Type} `{Countable Peer} {NetworkBlock : Type} `{!NetworkBlocks NetworkBlock}.
Context {S : Type} `{!BaseReadChainStore S, !WriteChainStore S}.
Implicit Types (st : FetchBlocks (Peer := Peer)) (s : S).
Implicit Types effects : list (FetchEffect (Peer := Peer) (NetworkBlock := NetworkBlock)).

Definition fetch_starts (msg : FetchBlocksMsg (Peer := Peer) (NetworkBlock := NetworkBlock)) : nat :=
  match msg with NewTip _ _ | RecoverStoredBlocks _ _ => 1 | _ => 0 end.
Fixpoint upstreams (l : list (FetchEffect (Peer := Peer) (NetworkBlock := NetworkBlock))) : list SelectChainMsg :=
  match l with [] => [] | ToUpstream p :: l => FetchNextFrom p :: upstreams l | _ :: l => upstreams l end.
Definition fetching (st : FetchBlocks (Peer := Peer)) : nat := Nat.b2n (is_some (fb_missing st)).

(** Where the stage neither fetches nor answers. *)
Definition drops (s : S) (msg : FetchBlocksMsg (Peer := Peer) (NetworkBlock := NetworkBlock)) : nat :=
  match msg with
  | NewTip tip _ => match find_missing_blocks (E := Terminated) s (point_hash tip) MAX_MISSING_BLOCKS_PER_BATCH with Ok BoundaryNotFound => 1 | _ => 0 end
  | RecoverStoredBlocks from _ => if decide (point_hash from = ORIGIN_HASH) then 1 else 0
  | _ => 0
  end.

Lemma upstreams_app l1 l2 : upstreams (l1 ++ l2) = upstreams l1 ++ upstreams l2.
Proof. induction l1 as [|e l1 IH]; [done|]. destruct e; cbn; by rewrite IH. Qed.
Lemma cancel_widen_silent st : upstreams (cancel_widen (NetworkBlock := NetworkBlock) st).2 = [] ∧ fb_missing (cancel_widen (NetworkBlock := NetworkBlock) st).1 = fb_missing st ∧
  req_id (cancel_widen (NetworkBlock := NetworkBlock) st).1 = req_id st.
Proof. unfold cancel_widen. by destruct (widen_id st). Qed.
Lemma arm_silent env st : upstreams (arm_next_widen (NetworkBlock := NetworkBlock) env st).2 = [] ∧ fb_missing (arm_next_widen (NetworkBlock := NetworkBlock) env st).1 = fb_missing st.
Proof. unfold arm_next_widen. destruct (fetch_started_at st); [|done]. by destruct (_ !! _). Qed.

Lemma request_tokens env m tip p st s st' s' effects : request_blocks env m tip p st s = Ok (st', s', effects) →
  (fetching st' + length (upstreams effects) = 1)%nat.
Proof.
  unfold request_blocks. destruct (from_to m) as [[from through]|].
  - destruct (cancel_widen st) as [st1 cancelled] eqn:Hc. pose proof (cancel_widen_silent st) as [Hsil _]. rewrite Hc in Hsil. cbn [snd] in Hsil.
    intros Hr. apply bind_Ok in Hr as (id & _ & Hr). destruct (select_peers_for_fetch env _ _ _ _) as [weak peers].
    set (r := if weak || _ then _ else _) in Hr. assert (fb_missing r.1 = Some m) as Hm by (subst r; by destruct (weak || _)). destruct r as [st2 peers']. cbn [fst] in Hm.
    destruct (arm_next_widen env _) as [st3 armed] eqn:Ha. pose proof (arm_silent env (set_timeout (Some (env_timeout env)) (set_started (Some (env_now env)) st2))) as [Hsil' Hm'].
    rewrite Ha in Hsil', Hm'. cbn [fst snd] in Hsil', Hm'. injection Hr as <- <- <-. rewrite upstreams_app, Hsil. cbn [app upstreams]. rewrite Hsil'. unfold fetching. rewrite Hm'. cbn. by rewrite Hm.
  - unfold nothing_to_fetch. intros [= <- <- <-]. rewrite upstreams_app. by destruct (_ && _).
Qed.

Lemma replay_silent s height parent path effects last to_fetch :
  replay (Peer := Peer) (NetworkBlock := NetworkBlock) s height parent path = (effects, last, to_fetch) → upstreams effects = [].
Proof.
  revert parent effects last to_fetch. induction path as [|p path IH]; intros parent effects last to_fetch; cbn [replay]; [by intros [= <- <- <-]|].
  destruct (has_block s _); [|by intros [= <- <- <-]]. destruct (replay s height p path) as [[e l] t] eqn:Hr. intros [= <- <- <-]. cbn. by apply (IH p e l t).
Qed.
Lemma new_tip_tokens env tip p st s st' s' effects : new_tip env tip p st s = Ok (st', s', effects) →
  (fetching st' + length (upstreams effects) + drops s (NewTip tip p) = fetching st + 1)%nat.
Proof.
  unfold new_tip, drops. cbn [fb_missing set_height]. unfold fetching at 2. destruct (fb_missing st); [done|]. unfold request_missing_blocks.
  intros Hr. apply bind_Ok in Hr as (r & Hf & Hr). rewrite Hf. destruct r as [m| |]; [|by injection Hr as <- <- <-|done].
  apply request_tokens in Hr. cbn. lia.
Qed.
Lemma recover_tokens env from to st s st' s' effects : recover_stored_blocks env from to st s = Ok (st', s', effects) →
  (fetching st' + length (upstreams effects) + drops s (RecoverStoredBlocks from to) = fetching st + 1)%nat.
Proof.
  unfold recover_stored_blocks, drops. unfold fetching at 2. destruct (fb_missing st) eqn:Hm; [done|]. case_decide.
  { case_decide; [|done]. intros [= <- <- <-]. unfold fetching. by rewrite Hm. }
  intros Hr. apply bind_Ok in Hr as (found & _ & Hr). apply bind_Ok in Hr as (path & _ & Hr). apply bind_Ok in Hr as (h & _ & Hr).
  cbn [fb_block_height set_height] in Hr. destruct (replay s _ from path) as [[e last] to_fetch] eqn:Hrep. apply replay_silent in Hrep.
  apply bind_Ok in Hr as ([[st2 s2] more] & Hreq & Hr). apply request_tokens in Hreq. injection Hr as <- <- <-. rewrite upstreams_app, Hrep. cbn. lia.
Qed.
Lemma block_tokens env peer nb st s st' s' effects : block env peer nb st s = Ok (st', s', effects) →
  (fetching st' + length (upstreams effects) = fetching st)%nat.
Proof.
  unfold block. destruct (decode_block nb) as [[h body]|]; [|intros [= <- <- <-]; cbn; lia]. case_decide; [|intros [= <- <- <-]; cbn; lia].
  destruct (fb_missing st) as [m|] eqn:Hm; [|intros [= <- <- <-]; cbn; lia].
  destruct (negb _); [intros [= <- <- <-]; cbn; lia|]. destruct (negb _); [intros [= <- <- <-]; cbn; lia|].
  unfold fetching. rewrite Hm. destruct (missing (shift_one_block m)); [|by intros [= <- <- <-]].
  set (st1 := end_attempt _). destruct (cancel_widen st1) as [st2 cancelled] eqn:Hc. pose proof (cancel_widen_silent st1) as (Hsil & Hm2 & _). rewrite Hc in Hsil, Hm2. cbn [fst snd] in Hsil, Hm2.
  intros [= <- <- <-]. cbn [app upstreams]. rewrite upstreams_app, Hsil. cbn [set_timeout fb_missing app]. rewrite Hm2. cbn.
  rewrite upstreams_app. by destruct (timeout_id st2).
Qed.
Lemma timeout_tokens env id st s st' s' effects : timeout env id st s = Ok (st', s', effects) →
  (fetching st' + length (upstreams effects) = fetching st)%nat.
Proof.
  unfold timeout. destruct (negb _); [intros [= <- <- <-]; cbn; lia|]. set (failures := if _ || _ then _ else _). assert (upstreams failures = []) as Hf by (subst failures; by destruct (_ || _)).
  cbn [fb_missing set_peers]. unfold fetching. destruct (fb_missing st) as [m|] eqn:Hm.
  - set (st1 := end_attempt _). destruct (cancel_widen st1) as [st2 cancelled] eqn:Hc. pose proof (cancel_widen_silent st1) as (Hsil & Hm2 & _). rewrite Hc in Hsil, Hm2. cbn [fst snd] in Hsil, Hm2.
    intros [= <- <- <-]. rewrite !upstreams_app, Hf, Hsil, Hm2. done.
  - intros [= <- <- <-]. rewrite Hf. cbn. by rewrite Hm.
Qed.
Lemma widen_tokens env id st s st' s' effects : widen env id st s = Ok (st', s', effects) →
  upstreams effects = [] ∧ fb_missing st' = fb_missing st.
Proof.
  unfold widen. destruct (negb _); [by intros [= <- <- <-]|]. cbn [fb_missing set_widen]. destruct (fb_missing st) as [m|] eqn:Hm; [|by intros [= <- <- <-]].
  set (st1 := set_widen _ _ _). destruct (arm_next_widen env st1) as [st2 armed] eqn:Ha. pose proof (arm_silent env st1) as [Hsil Hm2]. rewrite Ha in Hsil, Hm2. cbn [fst snd] in Hsil, Hm2.
  assert (fb_missing st2 = Some m) as Hm3 by (by rewrite Hm2).
  destruct (_ && _); [by intros [= <- <- <-]|]. destruct (bool_decide _); [by intros [= <- <- <-]|]. destruct (from_to m) as [[from through]|]; [|by intros [= <- <- <-]].
  destruct (select_peers_for_fetch env _ _ _ _) as [weak peers]. destruct weak; [by intros [= <- <- <-]|]. destruct (filter _ peers); [by intros [= <- <- <-]|].
  intros [= <- <- <-]. rewrite upstreams_app, Hsil. done.
Qed.

(** A message starts a batch, goes on with it, or answers. *)
Lemma fetch_tokens env msg st s st' s' effects : fetch_stage env msg st s = Ok (st', s', effects) →
  (fetching st' + length (upstreams effects) + drops s msg = fetching st + fetch_starts msg)%nat.
Proof.
  destruct msg as [tip p|from to|peer nb|id|id|id peers|id peer|id]; cbn [fetch_stage fetch_starts].
  - apply new_tip_tokens.
  - apply recover_tokens.
  - intros Hr%block_tokens. cbn. lia.
  - intros Hr%timeout_tokens. cbn. lia.
  - intros [Hu Hm]%widen_tokens. unfold fetching. rewrite Hu, Hm. done.
  - unfold peers_asked. destruct (fb_missing st) eqn:Hm; [|intros [= <- <- <-]; cbn; lia]. destruct (negb _); [intros [= <- <- <-]; cbn; lia|].
    intros [= <- <- <-]. unfold fetching. cbn [fb_missing set_peers drops]. by destruct (_ || _).
  - unfold no_blocks. destruct (negb _); [intros [= <- <- <-]; cbn; lia|]. case_decide; intros [= <- <- <-]; unfold fetching; cbn; lia.
  - unfold no_peers_available. destruct (negb _); intros [= <- <- <-]; unfold fetching; cbn; lia.
Qed.

(** ** Timers *)
Abbreviation Timers := (gmap Z (FetchBlocksMsg (Peer := Peer) (NetworkBlock := NetworkBlock))).
Implicit Types timers : Timers.

Fixpoint run_timers (l : list (FetchEffect (Peer := Peer) (NetworkBlock := NetworkBlock))) (timers : Timers) : Timers :=
  match l with
  | [] => timers
  | Schedule id msg _ :: l => run_timers l (<[id := msg]> timers)
  | CancelSchedule id :: l => run_timers l (delete id timers)
  | _ :: l => run_timers l timers
  end.
Lemma run_timers_app l1 l2 timers : run_timers (l1 ++ l2) timers = run_timers l2 (run_timers l1 timers).
Proof. revert timers. induction l1 as [|e l1 IH]; intros timers; [done|]. destruct e; cbn; by rewrite IH. Qed.

(** Identifiers are given once; messages that start a batch are not scheduled; the one of a widening is not that of a timeout. *)
Record timers_ok (next : Z) st timers : Prop := {
  ti_ids : ∀ id m, timers !! id = Some m → id < next ∧ fetch_starts m = 0%nat;
  ti_widen : ∀ w, widen_id st = Some w → w < next ∧ ∀ m, timers !! w = Some m → ∃ r, m = Widen r }.
(** The timeout of the current request is pending. *)
Definition armed_timeout st timers : Prop := ∃ t, timers !! t = Some (Timeout (req_id st)).

Lemma timers_ok_same next st st' timers : widen_id st' = widen_id st ∨ widen_id st' = None → timers_ok next st timers → timers_ok next st' timers.
Proof. intros Hw [Hi Hn]. split; [done|]. intros w Hw'. destruct Hw as [Hw|Hw]; rewrite Hw in Hw'; [by apply Hn|done]. Qed.
Lemma timers_ok_later next next' st timers : next <= next' → timers_ok next st timers → timers_ok next' st timers.
Proof.
  intros Hle [Hi Hn]. split; [intros id m Hid; specialize (Hi id m Hid); lia|]. intros w Hw. destruct (Hn w Hw) as [Hlt Hm]. split; [lia|done].
Qed.
Lemma timers_ok_delete next st timers id : timers_ok next st timers → timers_ok next st (delete id timers).
Proof.
  intros [Hi Hn]. split; [intros i m [_ Hm]%lookup_delete_Some; by apply (Hi i m)|]. intros w Hw. destruct (Hn w Hw) as [Hlt Hm]. split; [done|].
  intros m [_ Hl]%lookup_delete_Some. by apply Hm.
Qed.

Lemma cancel_widen_timers next st timers : timers_ok next st timers →
  let r := cancel_widen (NetworkBlock := NetworkBlock) st in
  timers_ok next r.1 (run_timers r.2 timers) ∧ widen_id r.1 = None ∧ (armed_timeout st timers → armed_timeout st (run_timers r.2 timers)).
Proof.
  intros Ht. unfold cancel_widen. destruct (widen_id st) as [w|] eqn:Hw; cbn; [|done]. split.
  - apply timers_ok_delete. apply (timers_ok_same next st); [by right|done].
  - split; [done|]. intros [t Hl]. exists t. rewrite lookup_delete_ne; [done|]. intros ->. destruct (ti_widen _ _ _ Ht _ Hw) as [_ Hn].
    destruct (Hn _ Hl) as [r Hr]. done.
Qed.
Lemma arm_timers next env st timers : env_widen env = next + 1 → timers_ok (next + 1) st timers →
  let r := arm_next_widen (NetworkBlock := NetworkBlock) env st in
  timers_ok (next + 2) r.1 (run_timers r.2 timers) ∧ (armed_timeout st timers → armed_timeout st (run_timers r.2 timers)) ∧ req_id r.1 = req_id st.
Proof.
  intros He Ht. pose proof (timers_ok_later (next + 1) (next + 2) st timers ltac:(lia) Ht) as Ht'. unfold arm_next_widen. destruct (fetch_started_at st); [|done].
  destruct (_ !! _); [|done]. cbn. rewrite He. split.
  - split.
    + intros id m. rewrite lookup_insert. case_decide; [intros [= <-]; cbn; lia|]. intros Hl. by apply (ti_ids _ _ _ Ht') in Hl.
    + intros w [= <-]. split; [lia|]. intros m. rewrite lookup_insert_eq. intros [= <-]. by eexists.
  - split; [|done]. intros [t Hl]. exists t. rewrite lookup_insert_ne; [done|]. apply (ti_ids _ _ _ Ht) in Hl. lia.
Qed.

Lemma request_timers next env m tip p st s st' s' effects timers : env_timeout env = next → env_widen env = next + 1 → timers_ok next st timers →
  request_blocks env m tip p st s = Ok (st', s', effects) →
  timers_ok (next + 2) st' (run_timers effects timers) ∧ (is_Some (fb_missing st') → armed_timeout st' (run_timers effects timers)).
Proof.
  intros He Hw Ht. unfold request_blocks. destruct (from_to m) as [[from through]|].
  - pose proof (cancel_widen_timers next st timers Ht) as (Ht1 & Hn1 & _). destruct (cancel_widen st) as [st1 cancelled]. cbn [fst snd] in Ht1, Hn1.
    intros Hr. apply bind_Ok in Hr as (id & _ & Hr). destruct (select_peers_for_fetch env _ _ _ _) as [weak peers].
    set (r := if weak || _ then _ else _) in Hr. assert (widen_id r.1 = None) as Hn2 by (subst r; by destruct (weak || _)). destruct r as [st2 peers']. cbn [fst] in Hn2.
    set (st3 := set_timeout _ _) in Hr. assert (timers_ok (next + 1) st3 (<[next := Timeout (req_id st3)]> (run_timers cancelled timers))) as Ht3.
    { split; [|subst st3; cbn; congruence]. intros i m'. rewrite lookup_insert. case_decide; [intros [= <-]; cbn; lia|]. intros Hl. apply (ti_ids _ _ _ Ht1) in Hl. lia. }
    pose proof (arm_timers next env st3 _ Hw Ht3) as (Ht4 & Ha & Hreq). destruct (arm_next_widen env st3) as [st4 armed]. cbn [fst snd] in Ht4, Ha, Hreq.
    injection Hr as <- <- <-. rewrite run_timers_app. cbn [app run_timers]. rewrite He, Hreq. split; [done|]. intros _. unfold armed_timeout in *. rewrite Hreq. apply Ha. exists next. by rewrite lookup_insert_eq.
  - unfold nothing_to_fetch. intros [= <- <- <-]. rewrite run_timers_app. assert (∀ b : bool, run_timers (if b then [ToDownstream (mkDownloadedBlock tip p (fb_block_height st))] else []) timers = timers) as Hd by by intros [].
    cbn [set_missing fb_block_height]. rewrite Hd. cbn. split; [|by intros []]. apply (timers_ok_later next); [lia|]. by apply (timers_ok_same next st); [left|].
Qed.
Lemma replay_timers s height parent path effects last to_fetch timers :
  replay (Peer := Peer) (NetworkBlock := NetworkBlock) s height parent path = (effects, last, to_fetch) → run_timers effects timers = timers.
Proof.
  revert parent effects last to_fetch. induction path as [|p path IH]; intros parent effects last to_fetch; cbn [replay]; [by intros [= <- <- <-]|].
  destruct (has_block s _); [|by intros [= <- <- <-]]. destruct (replay s height p path) as [[e l] t] eqn:Hr. intros [= <- <- <-]. cbn. by apply (IH p e l t).
Qed.

(** What a message leaves of the timers: the current batch keeps its timeout, unless the message is that timeout. *)
Definition timers_after (next : Z) (msg : FetchBlocksMsg (Peer := Peer) (NetworkBlock := NetworkBlock)) st st' timers (timers' : Timers) : Prop :=
  timers_ok (next + 2) st' timers' ∧
  (is_Some (fb_missing st') → armed_timeout st' timers' ∨
     req_id st' = req_id st ∧ is_Some (fb_missing st) ∧ msg ≠ Timeout (req_id st) ∧ (armed_timeout st timers → armed_timeout st' timers')).

Lemma timers_kept next msg st st' timers : timers_ok next st timers → fb_missing st' = fb_missing st → req_id st' = req_id st →
  widen_id st' = widen_id st ∨ widen_id st' = None → msg ≠ Timeout (req_id st) → timers_after next msg st st' timers timers.
Proof.
  intros Ht Hm Hreq Hw Hmsg. split; [apply (timers_ok_later next); [lia|]; by apply (timers_ok_same _ st)|].
  rewrite Hm. intros Hi. right. unfold armed_timeout. by rewrite Hreq.
Qed.
Lemma timers_done next msg st st' timers (timers' : Timers) : timers_ok next st' timers' → fb_missing st' = None → timers_after next msg st st' timers timers'.
Proof. intros Ht Hm. split; [apply (timers_ok_later next); [lia|done]|]. rewrite Hm. by intros []. Qed.
Lemma timers_requested next env msg m tip p st st0 s st' s' effects timers : env_timeout env = next → env_widen env = next + 1 →
  timers_ok next st0 timers → request_blocks env m tip p st0 s = Ok (st', s', effects) → timers_after next msg st st' timers (run_timers effects timers).
Proof. intros He Hw Ht Hr. destruct (request_timers next env m tip p st0 s st' s' effects timers He Hw Ht Hr) as [H1 H2]. split; [done|]. auto. Qed.
(** A batch that ends cancels the widening. *)
Lemma timers_ended next msg st st1 timers : timers_ok next st1 timers → fb_missing st1 = None →
  let r := cancel_widen (NetworkBlock := NetworkBlock) st1 in
  timers_after next msg st r.1 timers (run_timers r.2 timers) ∧ timers_ok next r.1 (run_timers r.2 timers) ∧ fb_missing r.1 = None.
Proof.
  intros Ht Hm r. pose proof (cancel_widen_timers next st1 timers Ht) as (Ht2 & _ & _). pose proof (cancel_widen_silent st1) as (_ & Hm2 & _).
  assert (fb_missing r.1 = None) as Hm3 by (subst r; congruence). split; [|done]. by apply timers_done.
Qed.

Lemma block_timers next env peer nb st s st' s' effects timers : timers_ok next st timers →
  block env peer nb st s = Ok (st', s', effects) → timers_after next (Block peer nb) st st' timers (run_timers effects timers).
Proof.
  intros Ht. unfold block. destruct (decode_block nb) as [[h body]|]; [|intros [= <- <- <-]; apply timers_kept; auto].
  case_decide; [|intros [= <- <- <-]; apply timers_kept; auto]. destruct (fb_missing st) as [m|] eqn:Hm; [|intros [= <- <- <-]; apply timers_kept; auto].
  destruct (negb _); [intros [= <- <- <-]; apply timers_kept; auto|]. destruct (negb _); [intros [= <- <- <-]; apply timers_kept; auto|].
  destruct (missing (shift_one_block m)).
  - set (st1 := end_attempt _). assert (timers_ok next st1 timers) as Ht1 by (by apply (timers_ok_same _ st); [left|]).
    pose proof (timers_ended next (Block peer nb) st st1 timers Ht1 eq_refl) as (_ & Ht2 & Hm2). destruct (cancel_widen st1) as [st2 cancelled]. cbn [fst snd] in Ht2, Hm2.
    intros [= <- <- <-]. cbn [app run_timers]. rewrite !run_timers_app. apply timers_done; [|done]. apply (timers_ok_same _ st2); [by left|].
    destruct (timeout_id st2); cbn; [by apply timers_ok_delete|done].
  - intros [= <- <- <-]. cbn [run_timers]. split; [apply (timers_ok_later next); [lia|]; by apply (timers_ok_same _ st); [left|]|].
    intros _. right. rewrite Hm. split_and!; [done|by eexists|done|done].
Qed.
Lemma timeout_timers next env id st s st' s' effects timers : timers_ok next st timers →
  timeout env id st s = Ok (st', s', effects) → timers_after next (Timeout id) st st' timers (run_timers effects timers).
Proof.
  intros Ht. unfold timeout. destruct (Z.eqb_spec id (req_id st)) as [->|Hne]; cbn [negb]; [|intros [= <- <- <-]; apply timers_kept; auto; congruence].
  set (failures := if _ || _ then _ else _). assert (run_timers failures timers = timers) as Hf by (subst failures; by destruct (_ || _)).
  cbn [fb_missing set_peers]. destruct (fb_missing st) as [m|] eqn:Hm.
  - set (st1 := end_attempt _). assert (timers_ok next st1 timers) as Ht1 by (by apply (timers_ok_same _ st); [left|]).
    pose proof (timers_ended next (Timeout (req_id st)) st st1 timers Ht1 eq_refl) as (Ha & _ & _). destruct (cancel_widen st1) as [st2 cancelled]. cbn [fst snd] in Ha.
    intros [= <- <- <-]. by rewrite !run_timers_app, Hf.
  - intros [= <- <- <-]. rewrite Hf. apply timers_done; [by apply (timers_ok_same _ st); [left|]|done].
Qed.
Lemma widen_timers next env id st s st' s' effects timers : env_widen env = next + 1 → timers_ok next st timers →
  widen env id st s = Ok (st', s', effects) → timers_after next (Widen id) st st' timers (run_timers effects timers).
Proof.
  intros Hw Ht. unfold widen. destruct (negb _); [intros [= <- <- <-]; by apply timers_kept; auto|]. cbn [fb_missing set_widen].
  destruct (fb_missing st) as [m|] eqn:Hm; [|intros [= <- <- <-]; apply timers_kept; auto].
  set (st1 := set_widen (Z.min _ _) _ _). assert (timers_ok (next + 1) st1 timers) as Ht1 by (apply (timers_ok_later next); [lia|]; by apply (timers_ok_same _ st); [right|]).
  pose proof (arm_timers next env st1 timers Hw Ht1) as (Ht2 & Ha2 & Hreq2). destruct (arm_next_widen env st1) as [st2 armed]. cbn [fst snd] in Ht2, Ha2, Hreq2.
  assert (∀ st3 l, req_id st3 = req_id st2 → widen_id st3 = widen_id st2 → run_timers l timers = run_timers armed timers →
    timers_after next (Widen id) st st3 timers (run_timers l timers)) as Hkeep.
  { intros st3 l Hr3 Hw3 ->. split; [by apply (timers_ok_same _ st2); [left|]|]. intros _. right. rewrite Hr3, Hreq2, Hm. split_and!; [done|by eexists|done|].
    intros Hat. unfold armed_timeout. rewrite Hr3, Hreq2. by apply Ha2. }
  destruct (_ && _); [intros [= <- <- <-]; by apply Hkeep|]. destruct (bool_decide _); [intros [= <- <- <-]; by apply Hkeep|]. destruct (from_to m) as [[from through]|]; [|intros [= <- <- <-]; by apply Hkeep].
  destruct (select_peers_for_fetch env _ _ _ _) as [weak peers]. destruct weak; [intros [= <- <- <-]; by apply Hkeep|]. destruct (filter _ peers); [intros [= <- <- <-]; by apply Hkeep|].
  intros [= <- <- <-]. apply Hkeep; [done|done|by rewrite run_timers_app].
Qed.
Lemma fetch_timers next env msg st s st' s' effects timers : env_timeout env = next → env_widen env = next + 1 → timers_ok next st timers →
  fetch_stage env msg st s = Ok (st', s', effects) → timers_after next msg st st' timers (run_timers effects timers).
Proof.
  intros He Hw Ht. destruct msg as [tip p|from to|peer nb|id|id|id peers|id peer|id]; cbn [fetch_stage].
  - unfold new_tip. cbn [fb_missing set_height]. destruct (fb_missing st) eqn:Hm; [done|]. unfold request_missing_blocks. intros Hr. apply bind_Ok in Hr as (r & _ & Hr).
    destruct r as [m| |]; [|injection Hr as <- <- <-; apply timers_done; [by apply (timers_ok_same _ st); [left|]|done]|done].
    eapply timers_requested; [done|done| |exact Hr]. by apply (timers_ok_same _ st); [left|].
  - unfold recover_stored_blocks. destruct (fb_missing st) eqn:Hm; [done|]. case_decide; [case_decide; [|done]; intros [= <- <- <-]; by apply timers_done|].
    intros Hr. apply bind_Ok in Hr as (found & _ & Hr). apply bind_Ok in Hr as (path & _ & Hr). apply bind_Ok in Hr as (h & _ & Hr).
    cbn [fb_block_height set_height] in Hr. destruct (replay s _ from path) as [[e last] to_fetch] eqn:Hrep.
    apply bind_Ok in Hr as ([[st2 s2] more] & Hreq & Hr). injection Hr as <- <- <-. rewrite run_timers_app, (replay_timers _ _ _ _ _ _ _ timers Hrep).
    eapply timers_requested; [done|done| |exact Hreq]. by apply (timers_ok_same _ st); [left|].
  - by apply block_timers.
  - by apply timeout_timers.
  - by apply widen_timers.
  - unfold peers_asked. destruct (fb_missing st) eqn:Hm; [|intros [= <- <- <-]; by apply timers_kept; auto]. destruct (negb _); [intros [= <- <- <-]; by apply timers_kept; auto|].
    intros [= <- <- <-]. assert (∀ (b : bool) x y z, run_timers (if b then [] else [RecordPeersAsked x y z]) timers = timers) as Hd by by intros [].
    rewrite Hd. apply timers_kept; auto.
  - unfold no_blocks. destruct (negb _); [intros [= <- <- <-]; by apply timers_kept; auto|]. case_decide; intros [= <- <- <-]; apply timers_kept; auto.
  - unfold no_peers_available. destruct (negb _); intros [= <- <- <-]; apply timers_kept; auto.
Qed.
End FetchTokens.

(** ** The two stages together *)
Section Together.
Context {Peer : Type} `{Countable Peer} {NetworkBlock : Type} `{!NetworkBlocks NetworkBlock}.
Context {S : Type} `{!BaseReadChainStore S, !WriteChainStore S, !Hashing}.
Variable fuel : nat.
Abbreviation FetchMsg := (FetchBlocksMsg (Peer := Peer) (NetworkBlock := NetworkBlock)).

Record World := mkWorld {
  w_select : SelectChain;
  w_fetch : FetchBlocks (Peer := Peer);
  w_store : S;
  to_select : list SelectChainMsg;
  to_fetch : list FetchMsg;
  w_timers : gmap Z FetchMsg;
  w_next : Z }.

(** [contramap] in the wiring of the stages. *)
Definition as_new_tip (m : NewBestTip) : FetchMsg := NewTip (nb_tip m) (nb_parent m).
(** The messages preloaded at startup. *)
Definition startup (s : S) (ledger_tip : Point) (recovery_best_hash : HeaderHash) : World :=
  mkWorld SelectChain_new FetchBlocks_new s [Initialize recovery_best_hash] [RecoverStoredBlocks ledger_tip recovery_best_hash] ∅ 0.
(** What the other stages may send. *)
Definition announced (msg : SelectChainMsg) : Prop := match msg with TipFromUpstream _ _ | BlockValidationResult _ _ _ => True | _ => False end.
Definition replied (msg : FetchMsg) : Prop := match msg with Block _ _ | PeersAsked _ _ | NoBlocks _ _ | NoPeersAvailable _ => True | _ => False end.

Inductive pipeline : World → World → Prop :=
| pipeline_select w msg rest st s sent : to_select w = msg :: rest → stage fuel msg (w_select w) (w_store w) = Ok (st, s, sent) →
    pipeline w (mkWorld st (w_fetch w) s rest (to_fetch w ++ map as_new_tip sent) (w_timers w) (w_next w))
| pipeline_fetch w env msg rest st s effects : to_fetch w = msg :: rest → env_timeout env = w_next w → env_widen env = w_next w + 1 →
    fetch_stage env msg (w_fetch w) (w_store w) = Ok (st, s, effects) →
    pipeline w (mkWorld (w_select w) st s (to_select w ++ upstreams effects) rest (run_timers effects (w_timers w)) (w_next w + 2))
| pipeline_timer w id msg : w_timers w !! id = Some msg →
    pipeline w (mkWorld (w_select w) (w_fetch w) (w_store w) (to_select w) (to_fetch w ++ [msg]) (delete id (w_timers w)) (w_next w))
| pipeline_announced w msg : announced msg →
    pipeline w (mkWorld (w_select w) (w_fetch w) (w_store w) (to_select w ++ [msg]) (to_fetch w) (w_timers w) (w_next w))
| pipeline_replied w msg : replied msg →
    pipeline w (mkWorld (w_select w) (w_fetch w) (w_store w) (to_select w) (to_fetch w ++ [msg]) (w_timers w) (w_next w))
| pipeline_store w s : pipeline w (mkWorld (w_select w) (w_fetch w) s (to_select w) (to_fetch w) (w_timers w) (w_next w)).

(** The requests to fetch: kept, under way, or being served. *)
Definition requests (w : World) : nat :=
  (Nat.b2n (may_fetch_blocks (w_select w)) + sum_list_with sel_starts (to_select w) + sum_list_with fetch_starts (to_fetch w) + fetching (w_fetch w))%nat.

Lemma sum_new_tips sent : sum_list_with fetch_starts (map as_new_tip sent) = length sent.
Proof. induction sent as [|m sent IH]; cbn; [done|]. by rewrite IH. Qed.
Lemma sum_upstreams (l : list (FetchEffect (Peer := Peer) (NetworkBlock := NetworkBlock))) : sum_list_with sel_starts (upstreams l) = length (upstreams l).
Proof. induction l as [|[] l IH]; cbn; lia. Qed.

Record pipeline_ok (w : World) : Prop := {
  pi_one : (requests w <= 1)%nat;
  pi_timers : timers_ok (w_next w) (w_fetch w) (w_timers w);
  pi_timeout : is_Some (fb_missing (w_fetch w)) → Timeout (req_id (w_fetch w)) ∈ to_fetch w ∨ armed_timeout (w_fetch w) (w_timers w) }.

Definition dropped (w : World) : nat := match to_fetch w with msg :: _ => drops (w_store w) msg | [] => 0 end.

Lemma requests_step w w' : timers_ok (w_next w) (w_fetch w) (w_timers w) → pipeline w w' →
  (requests w' = requests w ∨ requests w' + dropped w = requests w)%nat.
Proof.
  intros Ht. destruct 1 as [w msg rest st s sent Hq Hr|w env msg rest st s effects Hq He Hw Hr|w id msg Hl|w msg Hm|w msg Hm|w s]; unfold requests; cbn.
  - apply stage_tokens in Hr. rewrite Hq, sum_list_with_app, sum_new_tips. cbn. left. lia.
  - apply fetch_tokens in Hr. unfold dropped. rewrite Hq, sum_list_with_app, sum_upstreams. cbn. right. lia.
  - rewrite sum_list_with_app. cbn. apply (ti_ids _ _ _ Ht) in Hl as [_ ->]. left. lia.
  - rewrite sum_list_with_app. destruct msg; try done; cbn; left; lia.
  - rewrite sum_list_with_app. destruct msg; try done; cbn; left; lia.
  - by left.
Qed.
Lemma pipeline_ok_step w w' : pipeline_ok w → pipeline w w' → pipeline_ok w'.
Proof.
  intros [Hone Ht Hto] Hstep. split; [destruct (requests_step w w' Ht Hstep); lia|..].
  - destruct Hstep as [w msg rest st s sent Hq Hr|w env msg rest st s effects Hq He Hw Hr|w id msg Hl|w msg Hm|w msg Hm|w s]; cbn; try done; [|by apply timers_ok_delete].
    by apply (fetch_timers (w_next w) env _ _ _ _ _ _ (w_timers w)) in Hr as [Ht' _].
  - destruct Hstep as [w msg rest st s sent Hq Hr|w env msg rest st s effects Hq He Hw Hr|w id msg Hl|w msg Hm|w msg Hm|w s]; cbn; try done.
    + intros Hi. destruct (Hto Hi); [left; rewrite elem_of_app; by left|by right].
    + apply (fetch_timers (w_next w) env _ _ _ _ _ _ (w_timers w)) in Hr as [_ Ha]; [|done..]. intros Hi.
      destruct (Ha Hi) as [|(Hreq & Hi' & Hne & Hkeep)]; [by right|]. destruct (Hto Hi') as [Hin|]; [|right; auto]. left. rewrite Hq in Hin.
      rewrite Hreq. apply elem_of_cons in Hin as [Heq|]; [by rewrite Heq in Hne|done].
    + intros Hi. destruct (Hto Hi) as [|[t Hlt]]; [left; rewrite elem_of_app; by left|]. destruct (decide (t = id)) as [->|Hne].
      * left. rewrite Hl in Hlt. injection Hlt as ->. rewrite elem_of_app, list_elem_of_singleton. by right.
      * right. exists t. by rewrite lookup_delete_ne.
    + intros Hi. destruct (Hto Hi); [left; rewrite elem_of_app; by left|by right].
Qed.
Lemma pipeline_ok_start s tip best : pipeline_ok (startup s tip best).
Proof. split; [done| |by intros []]. split; [|done]. intros id m Hl. cbn in Hl. by apply lookup_empty_Some in Hl. Qed.
Lemma pipeline_ok_run w w' : pipeline_ok w → rtc pipeline w w' → pipeline_ok w'.
Proof. intros Hw. induction 1 as [|w w1 w2 Hs _ IH]; [done|]. apply IH. by apply (pipeline_ok_step w). Qed.

(** A batch is given up: the tip that is handled has no ancestor to fetch from. *)
Definition gives_up (w : World) : Prop :=
  match to_fetch w with
  | NewTip tip _ :: _ => find_missing_blocks (E := Terminated) (w_store w) (point_hash tip) MAX_MISSING_BLOCKS_PER_BATCH = Ok BoundaryNotFound
  | _ => False
  end.
Definition keeps (w w' : World) : Prop := pipeline w w' ∧ ¬ gives_up w.
(** Stored blocks are recovered from the tip of the ledger only. *)
Definition recovers_from (tip : Point) (w : World) : Prop := ∀ from to, RecoverStoredBlocks from to ∈ to_fetch w → from = tip.
Lemma recovers_from_step tip w w' : pipeline_ok w → pipeline w w' → recovers_from tip w → recovers_from tip w'.
Proof.
  intros [_ Ht _] Hs Hw from to. destruct Hs as [w msg rest st s sent Hq Hr|w env msg rest st s effects Hq He Hwd Hr|w id msg Hl|w msg Hm|w msg Hm|w s]; cbn.
  all: try (rewrite elem_of_app; intros [Hin|Hin]; [by apply Hw in Hin|]); try (apply Hw).
  - apply list_elem_of_fmap in Hin as (m & Hm & _). discriminate Hm.
  - intros Hin. apply (Hw from to). rewrite Hq. by right.
  - apply list_elem_of_singleton in Hin as <-. apply (ti_ids _ _ _ Ht) in Hl as [_ Hl]. discriminate Hl.
  - apply list_elem_of_singleton in Hin as <-. destruct Hm.
Qed.
Lemma keeps_dropped tip w : point_hash tip ≠ ORIGIN_HASH → recovers_from tip w → ¬ gives_up w → dropped w = 0%nat.
Proof.
  intros Ho Hw Hg. unfold dropped, drops, gives_up, recovers_from in *. destruct (to_fetch w) as [|[t p|from to| | | | | |] rest]; try done.
  - destruct (find_missing_blocks _ _ _) as [[| |]| | |]; try done.
  - rewrite decide_False; [done|]. by rewrite (Hw from to) by left.
Qed.
Lemma keeps_requests tip w w' : point_hash tip ≠ ORIGIN_HASH → pipeline_ok w → recovers_from tip w → rtc keeps w w' → requests w' = requests w.
Proof.
  intros Ho Hw Hf Hr. revert Hw Hf. induction Hr as [|w w1 w2 [Hs Hd] _ IH]; [done|]. intros Hw Hf.
  rewrite IH by (first [by apply (pipeline_ok_step w)|by apply (recovers_from_step tip w)]).
  pose proof (keeps_dropped tip w Ho Hf Hd). destruct (requests_step w w1 (pi_timers _ Hw) Hs); lia.
Qed.
Lemma keeps_run w w' : rtc keeps w w' → rtc pipeline w w'.
Proof. induction 1 as [|w w1 w2 [Hs _] _ IH]; [done|]. by apply (rtc_l _ w w1). Qed.

(** Once it is lost, it does not come back. *)
Lemma lost_requests w w' : pipeline_ok w → requests w = 0%nat → rtc pipeline w w' → requests w' = 0%nat.
Proof.
  intros Hw Hz. induction 1 as [|w w1 w2 Hs _ IH]; [done|]. apply IH; [by apply (pipeline_ok_step w)|].
  destruct (requests_step w w1 (pi_timers _ Hw) Hs); lia.
Qed.
Lemma starts_bound {A} (f : A → nat) (l : list A) x : x ∈ l → (f x <= sum_list_with f l)%nat.
Proof. induction 1 as [x l|x y l _ IH]; cbn; lia. Qed.

Lemma starts_found {A} (f : A → nat) (l : list A) : sum_list_with f l ≠ 0%nat → ∃ x, x ∈ l ∧ f x ≠ 0%nat.
Proof.
  induction l as [|x l IH]; cbn; [done|]. intros Hn. destruct (decide (f x = 0%nat)) as [Hx|Hx]; [|exists x; set_solver].
  destruct IH as (y & Hy & Hfy); [lia|]. exists y. set_solver.
Qed.

(** C23: at every moment of a run, the assertions of both stages hold for the messages in their mailboxes, and at most one request is about. *)
Theorem one_request_at_a_time s tip best w : rtc pipeline (startup s tip best) w →
  (requests w <= 1)%nat ∧
  (∀ p, FetchNextFrom p ∈ to_select w → may_fetch_blocks (w_select w) = false) ∧
  (∀ t p, NewTip t p ∈ to_fetch w → fb_missing (w_fetch w) = None) ∧
  (∀ f t, RecoverStoredBlocks f t ∈ to_fetch w → fb_missing (w_fetch w) = None).
Proof.
  intros Hr. apply (pipeline_ok_run _ _ (pipeline_ok_start s tip best)) in Hr as [Hone _ _]. split; [done|]. unfold requests, fetching in Hone. split_and!.
  - intros p Hin%(starts_bound sel_starts). cbn in Hin. destruct (may_fetch_blocks _); [cbn in Hone; lia|done].
  - intros t p Hin%(starts_bound fetch_starts). cbn in Hin. destruct (fb_missing _); [cbn in Hone; lia|done].
  - intros f t Hin%(starts_bound fetch_starts). cbn in Hin. destruct (fb_missing _); [cbn in Hone; lia|done].
Qed.

(** C24: a node whose ledger is not at the origin, and that gives no batch up for lack of a boundary ([gives_up]), goes on fetching: chain selection holds the
    request, or a message that carries it is in a mailbox, or a batch is being fetched and its timeout is pending. *)
Theorem fetching_never_stalls s tip best w : point_hash tip ≠ ORIGIN_HASH → rtc keeps (startup s tip best) w →
  may_fetch_blocks (w_select w) = true ∨
  (∃ p, FetchNextFrom p ∈ to_select w) ∨
  (∃ t p, NewTip t p ∈ to_fetch w) ∨ (∃ f t, RecoverStoredBlocks f t ∈ to_fetch w) ∨
  is_Some (fb_missing (w_fetch w)) ∧
    (Timeout (req_id (w_fetch w)) ∈ to_fetch w ∨ ∃ id, w_timers w !! id = Some (Timeout (req_id (w_fetch w)))).
Proof.
  intros Ho Hr. assert (recovers_from tip (startup s tip best)) as Hfrom by (intros from to; cbn; by intros [= -> ->]%list_elem_of_singleton).
  pose proof (keeps_requests tip _ _ Ho (pipeline_ok_start s tip best) Hfrom Hr) as Hone.
  apply keeps_run, (pipeline_ok_run _ _ (pipeline_ok_start s tip best)) in Hr as [_ _ Hto]. change (requests (startup s tip best)) with 1%nat in Hone.
  unfold requests, fetching in Hone. destruct (may_fetch_blocks (w_select w)); [by left|right].
  destruct (sum_list_with sel_starts (to_select w)) as [|n] eqn:Hs.
  2: { left. destruct (starts_found sel_starts (to_select w)) as (m & Hin & Hm); [lia|]. destruct m as [| | |p]; try done. by exists p. }
  right. destruct (sum_list_with fetch_starts (to_fetch w)) as [|n] eqn:Hf.
  2: { destruct (starts_found fetch_starts (to_fetch w)) as (m & Hin & Hm); [lia|]. destruct m as [t p|f t| | | | | |]; try done; [left|right; left]; eauto. }
  right. right. destruct (fb_missing (w_fetch w)); [|cbn in Hone; lia]. split; [by eexists|]. apply Hto. by eexists.
Qed.
End Together.
