(* ===== verification/Fragments.v ===== *)
(** * What a block changes

    [amaru-ledger/src/state/volatile/]: [existence.rs], [resettable.rs], [bind.rs],
    [fragment.rs] and [fragment/], the changes that a block makes; [aggregate.rs] and
    [aggregate/], those of a series of blocks, kept so that the changes of the oldest
    block can be taken out.

    Maps and sets are iterated in the order of their keys in the code; no result here
    depends on it.  Outputs are a parameter. *)

From S2P Require Import Prelude EraHistory UplcSyntax SortedPairs ProtocolParameters Governance Summary PoolsUpdates StakeSummary Ratification PhaseTwo.
#[local] Open Scope Z_scope.

(** ** Verdicts *)

Inductive Existence (A : Type) := Exists (a : A) | Gone | Unknown.
Arguments Exists {A} a.
Arguments Gone {A}.
Arguments Unknown {A}.

Definition existence_map {A B : Type} (f : A → B) (e : Existence A) : Existence B :=
  match e with Exists a => Exists (f a) | Gone => Gone | Unknown => Unknown end.
Definition or_else {A : Type} (newer older : Existence A) : Existence A :=
  match newer with Unknown => older | _ => newer end.

Inductive Resettable (A : Type) := SetTo (a : A) | Reset | Unchanged.
Arguments SetTo {A} a.
Arguments Reset {A}.
Arguments Unchanged {A}.
Definition resettable_from {A : Type} (o : option A) : Resettable A := match o with None => Reset | Some a => SetTo a end.
Definition resettable_map {A B : Type} (f : A → B) (r : Resettable A) : Resettable B :=
  match r with SetTo a => SetTo (f a) | Reset => Reset | Unchanged => Unchanged end.
Definition into_option {A : Type} (when_unchanged : option A) (r : Resettable A) : option A :=
  match r with SetTo a => Some a | Reset => None | Unchanged => when_unchanged end.

(** A value that can be absent, with two delegations. *)
Record Bind (L R V : Type) := mkBind { left : Resettable L; right : Resettable R; value : option V }.
Arguments mkBind {L R V} left right value.
Arguments left {L R V} b : rename.
Arguments right {L R V} b : rename.
Arguments value {L R V} b : rename.
Definition bind_default {L R V : Type} : Bind L R V := mkBind Unchanged Unchanged None.
Definition map_left {L L' R V : Type} (f : L → L') (b : Bind L R V) : Bind L' R V := mkBind (resettable_map f (left b)) (right b) (value b).

Definition newest {A : Type} (older newer : Resettable A) : Resettable A := match newer with Unchanged => older | _ => newer end.
(** [then]: the older one absorbs a more recent update. *)
Definition and_then {L R V : Type} (older newer : Bind L R V) : Bind L R V :=
  match value newer with
  | Some _ => newer
  | None => mkBind (newest (left older) (left newer)) (newest (right older) (right newer)) (value older)
  end.

(** [fold], from the most recent verdict; the first argument is what was read so far. *)
Fixpoint fold_from {L R V : Type} (fold : Existence (Bind L R V)) (iterator : list (Existence (Bind L R V))) : Existence (Bind L R V) :=
  match fold with
  | Gone => Gone
  | Exists newer =>
      match value newer, iterator with
      | None, Exists older :: iterator => fold_from (Exists (and_then older newer)) iterator
      | _, _ => Exists newer
      end
  | Unknown => match iterator with older :: iterator => fold_from older iterator | [] => Unknown end
  end.
Definition existence_fold {L R V : Type} (l : list (Existence (Bind L R V))) : Existence (Bind L R V) := fold_from Unknown l.
Definition chain {L R V : Type} (newer older : Existence (Bind L R V)) : Existence (Bind L R V) := existence_fold [newer; older].

(** ** The changes of a block *)

(** *** Things that are produced and consumed *)
Section DiffSet.
Context {K V : Type} `{Countable K}.
Record DiffSet := mkDiffSet { consumed : gset K; produced : gmap K V }.
Definition diff_set_default : DiffSet := mkDiffSet ∅ ∅.
Definition diff_set_get (k : K) (d : DiffSet) : Existence V :=
  match produced d !! k with
  | Some v => Exists v
  | None => if decide (k ∈ consumed d) then Gone else Unknown
  end.
Definition produce (k : K) (v : V) (d : DiffSet) : DiffSet := mkDiffSet (consumed d) (<[k := v]> (produced d)).
Definition consume (k : K) (d : DiffSet) : DiffSet := mkDiffSet ({[k]} ∪ consumed d) (delete k (produced d)).
Definition diff_set_extend (other d : DiffSet) : DiffSet :=
  let d := foldl (λ d k, mkDiffSet ({[k]} ∪ consumed d) (delete k (produced d))) d (elements (consumed other)) in
  foldl (λ d kv, mkDiffSet (consumed d) (<[kv.1 := kv.2]> (produced d))) d (map_to_list (produced other)).
Definition diff_set_remove (other d : DiffSet) : DiffSet :=
  let d := foldl (λ d kv, mkDiffSet (consumed d) (delete kv.1 (produced d))) d (map_to_list (produced other)) in
  foldl (λ d k, mkDiffSet (consumed d ∖ {[k]}) (produced d)) d (elements (consumed other)).
End DiffSet.
Arguments DiffSet K V {_ _}.

(** *** Things that are registered, with delegations *)
Inductive RegisterError (K : Type) := AlreadyRegistered (k : K).
Inductive BindError (K : Type) := AlreadyUnregistered (k : K).
Arguments AlreadyRegistered {K} k.
Arguments AlreadyUnregistered {K} k.

Section DiffBind.
Context {K L R V : Type} `{Countable K}.
Record DiffBind := mkDiffBind { registered : gmap K (Bind L R V); unregistered : gset K }.
Definition diff_bind_default : DiffBind := mkDiffBind ∅ ∅.
Definition diff_bind_get (k : K) (d : DiffBind) : Existence (Bind L R V) :=
  match registered d !! k with
  | Some b => Exists b
  | None => if decide (k ∈ unregistered d) then Gone else Unknown
  end.
Definition register (k : K) (v : V) (l : option L) (r : option R) (d : DiffBind) : exec (RegisterError K) DiffBind :=
  match registered d !! k with
  | Some _ => Err (AlreadyRegistered k)
  | None => Ok (mkDiffBind (<[k := mkBind (resettable_from l) (resettable_from r) (Some v)]> (registered d)) (unregistered d ∖ {[k]}))
  end.
Definition unregister (k : K) (d : DiffBind) : DiffBind := mkDiffBind (delete k (registered d)) ({[k]} ∪ unregistered d).
Definition bind_left (k : K) (l : option L) (d : DiffBind) : exec (BindError K) DiffBind :=
  if decide (k ∈ unregistered d) then Err (AlreadyUnregistered k)
  else Ok (mkDiffBind (<[k := match registered d !! k with
                              | Some b => mkBind (resettable_from l) (right b) (value b)
                              | None => mkBind (resettable_from l) Unchanged None
                              end]> (registered d)) (unregistered d)).
Definition bind_right (k : K) (r : option R) (d : DiffBind) : exec (BindError K) DiffBind :=
  if decide (k ∈ unregistered d) then Err (AlreadyUnregistered k)
  else Ok (mkDiffBind (<[k := match registered d !! k with
                              | Some b => mkBind (left b) (resettable_from r) (value b)
                              | None => mkBind Unchanged (resettable_from r) None
                              end]> (registered d)) (unregistered d)).
(** [extend_refs] *)
Definition diff_bind_extend (d newer : DiffBind) : DiffBind :=
  let d := foldl (λ d k, unregister k d) d (elements (unregistered newer)) in
  foldl (λ d kb, mkDiffBind (<[kb.1 := match registered d !! kb.1 with Some older => and_then older kb.2 | None => kb.2 end]> (registered d))
                   (unregistered d ∖ {[kb.1]})) d (map_to_list (registered newer)).
Definition diff_bind_fold (l : list DiffBind) : DiffBind := foldl diff_bind_extend diff_bind_default l.
End DiffBind.
Arguments DiffBind K L R V {_ _}.

(** *** Things whose registration takes effect at the end of an epoch *)
Record Registrations (V : Type) := mkRegistrations { first_registration : V; re_registration : option V }.
Arguments mkRegistrations {V} first_registration re_registration.
Arguments first_registration {V} r : rename.
Arguments re_registration {V} r : rename.
Definition registrations_next {V : Type} (v : V) (r : Registrations V) : Registrations V := mkRegistrations (first_registration r) (Some v).
Definition registrations_last {V : Type} (r : Registrations V) : V := default (first_registration r) (re_registration r).
Definition registrations_iter {V : Type} (r : Registrations V) : list V := first_registration r :: option_list (re_registration r).

Section DiffEpochReg.
Context {K V : Type} `{Countable K}.
Record DiffEpochReg := mkDiffEpochReg { reg_registered : gmap K (Registrations V); reg_unregistered : gmap K Z }.
Definition diff_epoch_reg_default : DiffEpochReg := mkDiffEpochReg ∅ ∅.
Definition reg_register (k : K) (v : V) (d : DiffEpochReg) : DiffEpochReg :=
  mkDiffEpochReg (<[k := match reg_registered d !! k with None => mkRegistrations v None | Some r => registrations_next v r end]> (reg_registered d))
    (delete k (reg_unregistered d)).
Definition reg_unregister (k : K) (epoch : Z) (d : DiffEpochReg) : DiffEpochReg :=
  mkDiffEpochReg (reg_registered d) (<[k := epoch]> (reg_unregistered d)).
Definition diff_epoch_reg_extend (d most_recent : DiffEpochReg) : DiffEpochReg :=
  let d := foldl (λ d kr, foldl (λ d v, reg_register kr.1 v d) d (registrations_iter kr.2)) d (map_to_list (reg_registered most_recent)) in
  foldl (λ d ke, reg_unregister ke.1 ke.2 d) d (map_to_list (reg_unregistered most_recent)).
End DiffEpochReg.
Arguments DiffEpochReg K V {_ _}.

(** *** The fragment *)
Record DRepRegistration := mkDRepRegistration { reg_deposit : Z; reg_registered_at : CertificatePointer; reg_valid_until : Z }.
#[global] Instance Voter_eq_dec : EqDecision Voter.
Proof. solve_decision. Defined.
#[global] Instance Voter_countable : Countable Voter.
Proof.
  refine (inj_countable'
    (λ v, match v with
          | ConstitutionalCommitteeScript h => (0, h) | ConstitutionalCommitteeKey h => (1, h)
          | DRepScript h => (2, h) | DRepKey h => (3, h) | StakePoolKey h => (4, h)
          end)
    (λ '(n, h), if n =? 0 then ConstitutionalCommitteeScript h else if n =? 1 then ConstitutionalCommitteeKey h
                else if n =? 2 then DRepScript h else if n =? 3 then DRepKey h else StakePoolKey h) _).
  by intros [].
Defined.
(** The proposal and the voter. *)
Definition BallotId : Type := ProposalId * Voter.

(** The outputs of transactions. *)
Class Outputs := MemoizedTransactionOutput : Type.
Definition Delegation : Type := PoolId * CertificatePointer.
Definition DRepDelegation : Type := DRep * CertificatePointer.

Section Fragment.
Context `{Outputs}.
Record VolatileFragment := mkFragment {
  utxo : DiffSet TransactionInput MemoizedTransactionOutput;
  pools : DiffEpochReg PoolId (PoolParams * CertificatePointer * Z);
  accounts : DiffBind Credential Delegation DRepDelegation Z;
  dreps : DiffBind Credential Anchor unit DRepRegistration;
  dreps_deregistrations : gmap Credential (option CertificatePointer);
  committee : DiffBind Credential Committee.MemberStatus Z unit;
  withdrawals : gset Credential;
  proposals : gmap ProposalId Stake.ProposalRow;
  votes : DiffSet BallotId Ballot;
  fees : Z;
  donations : Z }.
Definition fragment_default : VolatileFragment :=
  mkFragment diff_set_default diff_epoch_reg_default diff_bind_default diff_bind_default ∅ diff_bind_default ∅ ∅ diff_set_default 0 0.
End Fragment.

(** ** The changes of a series *)

(** *** The verdicts on a key, the most recent first *)
Abbreviation IndexedBind K L R V := (gmap K (list (Existence (Bind L R V)))).
Section IndexedBind.
Context {K L R V : Type} `{Countable K}.
Definition push_front_or_insert (ix : IndexedBind K L R V) (kv : K * Existence (Bind L R V)) : IndexedBind K L R V :=
  match ix !! kv.1 with
  | Some contributions => <[kv.1 := kv.2 :: contributions]> ix
  | None => <[kv.1 := [kv.2]]> ix
  end.
Definition indexed_get (k : K) (ix : IndexedBind K L R V) : Existence (Bind L R V) :=
  match ix !! k with None => Unknown | Some contributions => existence_fold contributions end.
Definition indexed_iter (ix : IndexedBind K L R V) : list (K * Existence (Bind L R V)) :=
  map (λ k, (k, indexed_get k ix)) (elements (dom ix)).
(** One key of [remove]: the oldest verdict is dropped. *)
Definition pop_oldest (r : IndexedBind K L R V * bool) (k : K) : IndexedBind K L R V * bool :=
  match r.1 !! k with
  | Some contributions =>
      let contributions := removelast contributions in
      (match contributions with [] => delete k r.1 | _ => <[k := contributions]> r.1 end, r.2)
  | None => (r.1, false)
  end.
End IndexedBind.

Section IndexedBindDiff.
Context {K L R V L' R' V' : Type} `{Countable K}.
(** What a fragment pushes, in order. *)
Definition pushes (with_ : Bind L' R' V' → Bind L R V) (d : DiffBind K L' R' V') : list (K * Existence (Bind L R V)) :=
  map (λ kb, (kb.1, Exists (with_ kb.2))) (map_to_list (registered d)) ++ map (λ k, (k, Gone)) (elements (unregistered d)).
Definition indexed_extend_with (with_ : Bind L' R' V' → Bind L R V) (d : DiffBind K L' R' V') (ix : IndexedBind K L R V) : IndexedBind K L R V :=
  foldl push_front_or_insert ix (pushes with_ d).
Definition indexed_remove (d : DiffBind K L' R' V') (ix : IndexedBind K L R V) : IndexedBind K L R V * bool :=
  foldl pop_oldest (ix, true) ((map_to_list (registered d)).*1 ++ elements (unregistered d)).
End IndexedBindDiff.
Definition indexed_extend {K L R V : Type} `{Countable K} (d : DiffBind K L R V) (ix : IndexedBind K L R V) : IndexedBind K L R V :=
  indexed_extend_with id d ix.

(** *** How many blocks touched a key *)
Abbreviation IndexedEpochReg K := (gmap K nat).
Section IndexedEpochReg.
Context {K V : Type} `{Countable K}.
Definition touched (d : DiffEpochReg K V) : list K := (map_to_list (reg_registered d)).*1 ++ (map_to_list (reg_unregistered d)).*1.
Definition increment (ix : IndexedEpochReg K) (k : K) : IndexedEpochReg K := <[k := S (default 0%nat (ix !! k))]> ix.
Definition epoch_reg_extend (d : DiffEpochReg K V) (ix : IndexedEpochReg K) : IndexedEpochReg K := foldl increment ix (touched d).
(** The count of a key that is there is positive. *)
Definition decrement (r : IndexedEpochReg K * bool) (k : K) : IndexedEpochReg K * bool :=
  match r.1 !! k with
  | Some count => let count := Nat.pred count in (match count with 0%nat => delete k r.1 | _ => <[k := count]> r.1 end, r.2)
  | None => (r.1, false)
  end.
Definition epoch_reg_remove (d : DiffEpochReg K V) (ix : IndexedEpochReg K) : IndexedEpochReg K * bool := foldl decrement (ix, true) (touched d).
Definition epoch_reg_get (k : K) (ix : IndexedEpochReg K) : bool := is_some (ix !! k).
End IndexedEpochReg.

(** *** The aggregate *)
Section Aggregate.
Context `{Outputs}.
Record VolatileAggregate := mkAggregate {
  agg_utxo : DiffSet TransactionInput MemoizedTransactionOutput;
  agg_pools : IndexedEpochReg PoolId;
  agg_accounts : IndexedBind Credential Delegation DRepDelegation Z;
  agg_dreps : IndexedBind Credential unit unit DRepRegistration;
  agg_committee : IndexedBind Credential Committee.MemberStatus Z unit;
  agg_withdrawals : gset Credential;
  agg_proposals : gmap ProposalId Stake.ProposalRow;
  agg_fees : Z;
  agg_donations : Z }.
Definition no_aggregate : VolatileAggregate := mkAggregate diff_set_default ∅ ∅ ∅ ∅ ∅ ∅ 0 0.

Definition resolve_committee_candidates (a : VolatileAggregate) : list (ProposalId * Credential) :=
  flat_map (λ ip, match Stake.gov_action (Stake.row_proposal ip.2) with
                  | UpdateCommittee _ _ added _ => map (λ c, (ip.1, c.1)) added
                  | _ => []
                  end) (map_to_list (agg_proposals a)).

(** Sums are checked; nothing stands for an overflow. *)
Definition checked_add (a b : Z) : option Z := if a + b <=? u64_max then Some (a + b) else None.
Definition checked_sub (a b : Z) : option Z := if b <=? a then Some (a - b) else None.

Definition add_fragment (f : VolatileFragment) (a : VolatileAggregate) : option VolatileAggregate :=
  fees ← checked_add (agg_fees a) (fees f);
  donations ← checked_add (agg_donations a) (donations f);
  Some (mkAggregate (diff_set_extend (utxo f) (agg_utxo a)) (epoch_reg_extend (pools f) (agg_pools a)) (indexed_extend (accounts f) (agg_accounts a))
    (indexed_extend_with (map_left (λ _, ())) (dreps f) (agg_dreps a)) (indexed_extend (committee f) (agg_committee a))
    (withdrawals f ∪ agg_withdrawals a) (proposals f ∪ agg_proposals a) fees donations).

(** Nothing when an assertion fails. *)
Definition remove_fragment (f : VolatileFragment) (a : VolatileAggregate) : option VolatileAggregate :=
  let '(pools, all_pools) := epoch_reg_remove (pools f) (agg_pools a) in
  let '(committee, _) := indexed_remove (committee f) (agg_committee a) in
  let '(accounts, all_accounts) := indexed_remove (accounts f) (agg_accounts a) in
  let '(dreps, all_dreps) := indexed_remove (dreps f) (agg_dreps a) in
  if all_pools && all_accounts && all_dreps then
    fees ← checked_sub (agg_fees a) (fees f);
    donations ← checked_sub (agg_donations a) (donations f);
    Some (mkAggregate (diff_set_remove (utxo f) (agg_utxo a)) pools accounts dreps committee
      (agg_withdrawals a ∖ withdrawals f) (agg_proposals a ∖ proposals f) fees donations)
  else None.

Definition aggregate_from (a : VolatileAggregate) (l : list VolatileFragment) : option VolatileAggregate :=
  foldl (λ a f, a ← a; add_fragment f a) (Some a) l.
(** [new_aggregate] *)
Definition fold_fragments (l : list VolatileFragment) : option VolatileAggregate := aggregate_from no_aggregate l.
End Aggregate.
