(* ===== verification/FragmentsProps.v ===== *)
(** * Facts on fragments and aggregates

    Merging the changes of blocks is associative.  Taking the oldest fragment out of an
    aggregate gives exactly the aggregate of those that remain, as the comment on
    [remove_fragment] says, provided that outputs are produced and consumed once, that
    an account withdraws once in an epoch, and that proposals have identifiers of their
    own.  What the aggregate says of an output or of an account is what a walk over the
    fragments, from the most recent, would find. *)

From S2P Require Import Prelude EraHistory UplcSyntax SortedPairs ProtocolParameters Governance Summary PoolsUpdates StakeSummary Ratification PhaseTwo Fragments.
#[local] Open Scope Z_scope.

(** ** Things produced and consumed *)
Section DiffSet.
Context {K V : Type} `{Countable K}.
Implicit Types d o : DiffSet K V.

Lemma DiffSet_eq d d' : consumed d = consumed d' → (∀ k, produced d !! k = produced d' !! k) → d = d'.
Proof. destruct d, d'. cbn. intros -> Hp. f_equal. by apply map_eq. Qed.

Lemma consume_all d l : let r := foldl (λ d k, mkDiffSet ({[k]} ∪ consumed d) (delete k (produced d))) d l in
  consumed r = list_to_set l ∪ consumed d ∧ ∀ k, produced r !! k = if decide (k ∈ l) then None else produced d !! k.
Proof.
  revert d. induction l as [|x l IH]; intros d; cbn [foldl]; [split; [set_solver|by intros k; rewrite decide_False by set_solver]|].
  destruct (IH (mkDiffSet ({[x]} ∪ consumed d) (delete x (produced d)))) as [-> Hp]. split; [cbn; set_solver|].
  intros k. rewrite Hp. cbn. destruct (decide (k ∈ l)) as [Hl|Hl]; [by rewrite decide_True by set_solver|].
  destruct (decide (k = x)) as [->|Hk]; [by rewrite decide_True, lookup_delete_eq by set_solver|].
  by rewrite decide_False, lookup_delete_ne by set_solver.
Qed.
Lemma produce_all d (l : list (K * V)) : NoDup l.*1 → let r := foldl (λ d kv, mkDiffSet (consumed d) (<[kv.1 := kv.2]> (produced d))) d l in
  consumed r = consumed d ∧ ∀ k, produced r !! k = match (list_to_map l : gmap K V) !! k with Some v => Some v | None => produced d !! k end.
Proof.
  revert d. induction l as [|[x v] l IH]; intros d Hnd; [done|]. cbn in Hnd. apply NoDup_cons in Hnd as [Hx Hnd]. cbn [foldl fst snd].
  destruct (IH (mkDiffSet (consumed d) (<[x := v]> (produced d))) Hnd) as [-> Hp]. split; [done|]. intros k. rewrite Hp. cbn.
  destruct (decide (k = x)) as [->|Hk]; [|by rewrite !lookup_insert_ne by done].
  rewrite !lookup_insert_eq. by rewrite not_elem_of_list_to_map_1.
Qed.

Lemma extend_consumed o d : consumed (diff_set_extend o d) = consumed o ∪ consumed d.
Proof.
  unfold diff_set_extend. rewrite (proj1 (produce_all _ _ (NoDup_fst_map_to_list _))). rewrite (proj1 (consume_all d _)). by rewrite list_to_set_elements_L.
Qed.
Lemma extend_produced o d k : produced (diff_set_extend o d) !! k =
  match produced o !! k with Some v => Some v | None => if decide (k ∈ consumed o) then None else produced d !! k end.
Proof.
  unfold diff_set_extend. rewrite (proj2 (produce_all _ _ (NoDup_fst_map_to_list _))). rewrite (proj2 (consume_all d _)), list_to_map_to_list.
  destruct (produced o !! k); [done|]. by rewrite (decide_ext (k ∈ elements (consumed o)) (k ∈ consumed o)) by set_solver.
Qed.
Lemma extend_assoc o2 o1 d : diff_set_extend o2 (diff_set_extend o1 d) = diff_set_extend (diff_set_extend o2 o1) d.
Proof.
  apply DiffSet_eq; [rewrite !extend_consumed; set_solver|]. intros k. rewrite !extend_produced, extend_consumed.
  destruct (produced o2 !! k); [done|]. destruct (decide (k ∈ consumed o2)) as [H2|H2]; [by rewrite decide_True by set_solver|].
  destruct (produced o1 !! k); [done|]. by rewrite (decide_ext (k ∈ consumed o1) (k ∈ consumed o2 ∪ consumed o1)) by set_solver.
Qed.
Lemma extend_nothing d : diff_set_extend diff_set_default d = d.
Proof. apply DiffSet_eq; [rewrite extend_consumed; cbn; set_solver|]. intros k. rewrite extend_produced. cbn. by rewrite lookup_empty, decide_False by set_solver. Qed.
Lemma extend_to_nothing d : diff_set_extend d diff_set_default = d.
Proof. apply DiffSet_eq; [rewrite extend_consumed; cbn; set_solver|]. intros k. rewrite extend_produced. cbn. rewrite lookup_empty. by destruct (produced d !! k), (decide (k ∈ consumed d)). Qed.
Lemma extend_fold d l : foldl (λ d o, diff_set_extend o d) d l = diff_set_extend (foldl (λ d o, diff_set_extend o d) diff_set_default l) d.
Proof.
  induction l as [|x l IH] using rev_ind; [by rewrite extend_nothing|]. rewrite !foldl_app. cbn. by rewrite IH, extend_assoc.
Qed.

Lemma forget_produced d (l : list (K * V)) : let r := foldl (λ d kv, mkDiffSet (consumed d) (delete kv.1 (produced d))) d l in
  consumed r = consumed d ∧ ∀ k, produced r !! k = if decide (k ∈ l.*1) then None else produced d !! k.
Proof.
  revert d. induction l as [|[x v] l IH]; intros d; cbn [foldl fst]; [split; [done|by intros k; rewrite decide_False by set_solver]|].
  destruct (IH (mkDiffSet (consumed d) (delete x (produced d)))) as [-> Hp]. split; [done|]. intros k. rewrite Hp. cbn.
  destruct (decide (k ∈ l.*1)) as [Hl|Hl]; [by rewrite decide_True by set_solver|].
  destruct (decide (k = x)) as [->|Hk]; [by rewrite decide_True, lookup_delete_eq by set_solver|].
  by rewrite decide_False, lookup_delete_ne by set_solver.
Qed.
Lemma forget_consumed d l : let r := foldl (λ d k, mkDiffSet (consumed d ∖ {[k]}) (produced d)) d l in
  consumed r = consumed d ∖ list_to_set l ∧ produced r = produced d.
Proof.
  revert d. induction l as [|x l IH]; intros d; cbn [foldl]; [split; [set_solver|done]|].
  destruct (IH (mkDiffSet (consumed d ∖ {[x]}) (produced d))) as [-> ->]. split; [cbn; set_solver|done].
Qed.
Lemma remove_consumed o d : consumed (diff_set_remove o d) = consumed d ∖ consumed o.
Proof. unfold diff_set_remove. rewrite (proj1 (forget_consumed _ _)), (proj1 (forget_produced d _)). by rewrite list_to_set_elements_L. Qed.
Lemma remove_produced o d k : produced (diff_set_remove o d) !! k = match produced o !! k with Some _ => None | None => produced d !! k end.
Proof.
  unfold diff_set_remove. rewrite (proj2 (forget_consumed _ _)), (proj2 (forget_produced d _)).
  destruct (produced o !! k) as [v|] eqn:Hk.
  - rewrite decide_True; [done|]. apply list_elem_of_fmap. exists (k, v). split; [done|]. by apply elem_of_map_to_list.
  - rewrite decide_False; [done|]. intros Hin. apply list_elem_of_fmap in Hin as ([k' v] & -> & Hin). apply elem_of_map_to_list in Hin. cbn in Hk. congruence.
Qed.

(** The oldest changes come out exactly, when nothing is produced or consumed twice. *)
Lemma diff_set_remove_oldest (f a : DiffSet K V) : dom (produced f) ## dom (produced a) → consumed f ## consumed a →
  diff_set_remove f (diff_set_extend a f) = a.
Proof.
  intros Hp Hc. apply DiffSet_eq; [rewrite remove_consumed, extend_consumed; set_solver|]. intros k. rewrite remove_produced, extend_produced.
  destruct (produced f !! k) as [v|] eqn:Hf; [|by destruct (produced a !! k), (decide (k ∈ consumed a))].
  destruct (produced a !! k) as [w|] eqn:Ha; [|done]. apply elem_of_dom_2 in Hf, Ha. set_solver.
Qed.
(** The changes applied one after the other, and their merge. *)
Definition apply_diff (m : gmap K V) (d : DiffSet K V) : gmap K V := produced d ∪ filter (λ kv, kv.1 ∉ consumed d) m.
Lemma apply_diff_lookup m d k : apply_diff m d !! k = match produced d !! k with Some v => Some v | None => if decide (k ∈ consumed d) then None else m !! k end.
Proof.
  unfold apply_diff. rewrite lookup_union, map_lookup_filter. destruct (produced d !! k); [by destruct (m !! k ≫= _)|]. rewrite left_id by apply _.
  destruct (m !! k); cbn; [|by destruct (decide _)]. destruct (decide (k ∈ consumed d)); [by rewrite option_guard_False by set_solver|by rewrite option_guard_True by set_solver].
Qed.
Lemma apply_extend m d o : apply_diff m (diff_set_extend o d) = apply_diff (apply_diff m d) o.
Proof.
  apply map_eq. intros k. rewrite !apply_diff_lookup, extend_produced, extend_consumed. destruct (produced o !! k); [done|].
  destruct (decide (k ∈ consumed o)) as [Ho|Ho]; [by rewrite decide_True by set_solver|]. destruct (produced d !! k); [done|].
  by rewrite (decide_ext (k ∈ consumed d) (k ∈ consumed o ∪ consumed d)) by set_solver.
Qed.
End DiffSet.

(** ** Histories by key *)
Section Indexed.
Context {K L R V : Type} `{Countable K}.
Implicit Types (ix : gmap K (list (Existence (Bind L R V)))) (l : list (K * Existence (Bind L R V))).

(** The verdicts on a key; no key is there without any. *)
Definition history ix (k : K) : list (Existence (Bind L R V)) := default [] (ix !! k).
Definition indexed_ok ix : Prop := ∀ k, ix !! k ≠ Some [].
Definition of_key (k : K) l : list (Existence (Bind L R V)) := (filter (λ kv, kv.1 = k) l).*2.

Lemma indexed_eq ix ix' : indexed_ok ix → indexed_ok ix' → (∀ k, history ix k = history ix' k) → ix = ix'.
Proof.
  intros H1 H2 Hh. apply map_eq. intros k. specialize (H1 k). specialize (H2 k). specialize (Hh k). unfold history in Hh.
  destruct (ix !! k) as [x|], (ix' !! k) as [y|]; cbn in Hh; congruence.
Qed.
Lemma push_history ix kv k : history (push_front_or_insert ix kv) k = if decide (kv.1 = k) then kv.2 :: history ix k else history ix k.
Proof.
  unfold history, push_front_or_insert. destruct (decide (kv.1 = k)) as [<-|Hk].
  - destruct (ix !! kv.1); by rewrite lookup_insert_eq.
  - destruct (ix !! kv.1); by rewrite lookup_insert_ne.
Qed.
Lemma push_ok ix kv : indexed_ok ix → indexed_ok (push_front_or_insert ix kv).
Proof.
  intros Hok k. unfold push_front_or_insert. destruct (decide (kv.1 = k)) as [<-|Hk].
  - destruct (ix !! kv.1); by rewrite lookup_insert_eq.
  - destruct (ix !! kv.1); rewrite lookup_insert_ne by done; apply Hok.
Qed.
Lemma pushes_history ix l k : history (foldl push_front_or_insert ix l) k = reverse (of_key k l) ++ history ix k.
Proof.
  revert ix. induction l as [|kv l IH]; intros ix; [done|]. cbn [foldl]. rewrite IH, push_history. unfold of_key. rewrite filter_cons.
  destruct (decide (kv.1 = k)); [|done]. cbn [fmap list_fmap]. by rewrite reverse_cons, <- app_assoc.
Qed.
Lemma pushes_ok ix l : indexed_ok ix → indexed_ok (foldl push_front_or_insert ix l).
Proof. revert ix. induction l as [|kv l IH]; intros ix Hok; [done|]. by apply IH, push_ok. Qed.

(** Dropping the oldest verdicts of keys that have them. *)
Lemma pops_history ks : ∀ ix (h t : K → list (Existence (Bind L R V))), indexed_ok ix → (∀ k, history ix k = h k ++ t k) →
  (∀ k, length (t k) = count_occ (λ x y, decide (x = y)) ks k) →
  ∃ ix', foldl pop_oldest (ix, true) ks = (ix', true) ∧ indexed_ok ix' ∧ ∀ k, history ix' k = h k.
Proof.
  induction ks as [|k ks IH]; intros ix h t Hok Hh Ht.
  - exists ix. split_and!; [done|done|]. intros x. rewrite Hh. specialize (Ht x). cbn in Ht. destruct (t x); [by rewrite app_nil_r|done].
  - cbn [foldl]. pose proof (Ht k) as Hk. cbn in Hk. destruct (decide (k = k)) as [_|]; [|done].
    destruct (t k) as [|e tk _] eqn:Htk using rev_ind; [done|]. rewrite length_app in Hk. cbn in Hk.
    unfold pop_oldest at 2. cbn [fst snd]. pose proof (Hh k) as Hhk. unfold history in Hhk. destruct (ix !! k) as [c|] eqn:Hc.
    2:{ cbn in Hhk. rewrite Htk in Hhk. by destruct (h k), tk. }
    cbn in Hhk. subst c. rewrite Htk, app_assoc, removelast_last.
    set (ix' := match h k ++ tk with [] => delete k ix | _ => <[k:=h k ++ tk]> ix end).
    assert (∀ x, history ix' x = if decide (x = k) then h k ++ tk else history ix x) as Hix.
    { intros x. unfold history, ix'. destruct (decide (x = k)) as [->|Hx].
      - destruct (h k ++ tk); [by rewrite lookup_delete_eq|by rewrite lookup_insert_eq].
      - destruct (h k ++ tk); [by rewrite lookup_delete_ne|by rewrite lookup_insert_ne]. }
    apply (IH ix' h (λ x, if decide (x = k) then tk else t x)).
    + intros x. unfold ix'. destruct (decide (x = k)) as [->|Hx].
      * destruct (h k ++ tk) eqn:He; [by rewrite lookup_delete_eq|by rewrite lookup_insert_eq].
      * destruct (h k ++ tk); [rewrite lookup_delete_ne by done|rewrite lookup_insert_ne by done]; apply Hok.
    + intros x. rewrite Hix. destruct (decide (x = k)) as [->|]; [done|apply Hh].
    + intros x. specialize (Ht x). cbn in Ht. destruct (decide (x = k)) as [->|Hx]; [lia|]. by rewrite decide_False in Ht by done.
Qed.
End Indexed.

Section IndexedDiff.
Context {K L R V L' R' V' : Type} `{Countable K}.
Implicit Types (d : DiffBind K L' R' V') (ix : IndexedBind K L R V).
Lemma pushes_keys (w : Bind L' R' V' → Bind L R V) d : (pushes w d).*1 = (map_to_list (registered d)).*1 ++ elements (unregistered d).
Proof.
  unfold pushes. rewrite fmap_app. f_equal.
  - change (map (λ kb : K * Bind L' R' V', (kb.1, Exists (w kb.2)))) with (fmap (M := list) (λ kb : K * Bind L' R' V', (kb.1, Exists (w kb.2)))).
    rewrite <- list_fmap_compose. by apply list_fmap_ext.
  - change (map (λ k : K, (k, @Gone (Bind L R V)))) with (fmap (M := list) (λ k : K, (k, @Gone (Bind L R V)))).
    rewrite <- list_fmap_compose. apply list_fmap_id.
Qed.
Lemma of_key_count (l : list (K * Existence (Bind L R V))) k : length (of_key k l) = count_occ (λ x y, decide (x = y)) l.*1 k.
Proof.
  induction l as [|[x e] l IH]; [done|]. unfold of_key in *. rewrite filter_cons. cbn [fst fmap list_fmap count_occ].
  destruct (decide (x = k)); cbn; by rewrite IH.
Qed.
(** The oldest verdicts come out exactly. *)
Lemma indexed_remove_oldest (w : Bind L' R' V' → Bind L R V) d more :
  let rest := foldl push_front_or_insert ∅ more in
  indexed_remove d (foldl push_front_or_insert (indexed_extend_with w d ∅) more) = (rest, true).
Proof.
  intros rest. unfold indexed_remove. rewrite <- (pushes_keys w d).
  assert (indexed_ok (∅ : IndexedBind K L R V)) as Hno by (intros k; by rewrite lookup_empty).
  destruct (pops_history (pushes w d).*1 (foldl push_front_or_insert (indexed_extend_with w d ∅) more)
              (history rest) (λ k, reverse (of_key k (pushes w d)))) as (ix' & -> & Hok & Hh).
  - by apply pushes_ok, pushes_ok.
  - intros k. unfold rest, indexed_extend_with. rewrite !pushes_history. unfold history at 1 2. rewrite lookup_empty. cbn. by rewrite !app_nil_r.
  - intros k. rewrite length_reverse. apply of_key_count.
  - f_equal. apply indexed_eq; [done|by apply pushes_ok|done].
Qed.
End IndexedDiff.

(** ** Counts by key *)
Section Counts.
Context {K V : Type} `{Countable K}.
Implicit Types (ix : gmap K nat).
Definition count ix (k : K) : nat := default 0%nat (ix !! k).
Definition counts_ok ix : Prop := ∀ k, ix !! k ≠ Some 0%nat.
Abbreviation occurrences ks k := (count_occ (λ x y, decide (x = y)) ks k).

Lemma counts_eq ix ix' : counts_ok ix → counts_ok ix' → (∀ k, count ix k = count ix' k) → ix = ix'.
Proof.
  intros H1 H2 Hh. apply map_eq. intros k. specialize (H1 k). specialize (H2 k). specialize (Hh k). unfold count in Hh.
  destruct (ix !! k) as [x|], (ix' !! k) as [y|]; cbn in Hh; congruence.
Qed.
Lemma increments_count ks : ∀ ix, counts_ok ix → counts_ok (foldl increment ix ks) ∧ ∀ k, count (foldl increment ix ks) k = (occurrences ks k + count ix k)%nat.
Proof.
  induction ks as [|x ks IH]; intros ix Hok; [done|]. cbn [foldl count_occ].
  assert (counts_ok (increment ix x)) as Hok'.
  { intros k. unfold increment. destruct (decide (x = k)) as [->|Hk]; [by rewrite lookup_insert_eq|rewrite lookup_insert_ne by done; apply Hok]. }
  destruct (IH _ Hok') as [Hok'' Hc]. split; [done|]. intros k. rewrite Hc. unfold increment, count. destruct (decide (x = k)) as [->|Hk].
  - rewrite lookup_insert_eq. cbn. lia.
  - by rewrite lookup_insert_ne.
Qed.
Lemma decrements_count ks : ∀ ix (h : K → nat), counts_ok ix → (∀ k, count ix k = (h k + occurrences ks k)%nat) →
  ∃ ix', foldl decrement (ix, true) ks = (ix', true) ∧ counts_ok ix' ∧ ∀ k, count ix' k = h k.
Proof.
  induction ks as [|k ks IH]; intros ix h Hok Hh; [exists ix; split_and!; [done|done|intros k; rewrite Hh; cbn; lia]|].
  pose proof (Hh k) as Hk. cbn in Hk. destruct (decide (k = k)) as [_|]; [|done]. cbn [foldl]. unfold decrement at 2. cbn [fst snd].
  unfold count in Hk. destruct (ix !! k) as [c|] eqn:Hc; [|cbn in Hk; lia]. cbn in Hk.
  set (ix' := match Nat.pred c with 0%nat => delete k ix | _ => <[k:=Nat.pred c]> ix end).
  assert (∀ x, count ix' x = if decide (x = k) then Nat.pred c else count ix x) as Hix.
  { intros x. unfold count, ix'. destruct (decide (x = k)) as [->|Hx].
    - destruct (Nat.pred c); [by rewrite lookup_delete_eq|by rewrite lookup_insert_eq].
    - destruct (Nat.pred c); [by rewrite lookup_delete_ne|by rewrite lookup_insert_ne]. }
  apply (IH ix' h).
  - intros x. unfold ix'. destruct (decide (x = k)) as [->|Hx].
    + destruct (Nat.pred c) eqn:Hp; [by rewrite lookup_delete_eq|by rewrite lookup_insert_eq].
    + destruct (Nat.pred c); [rewrite lookup_delete_ne by done|rewrite lookup_insert_ne by done]; apply Hok.
  - intros x. rewrite Hix. specialize (Hh x). cbn in Hh. destruct (decide (x = k)) as [->|Hx]; [lia|]. by rewrite decide_False in Hh by done.
Qed.
Lemma epoch_reg_remove_oldest (d : DiffEpochReg K V) more :
  epoch_reg_remove d (foldl increment (epoch_reg_extend d ∅) more) = (foldl increment ∅ more, true).
Proof.
  assert (counts_ok (∅ : gmap K nat)) as Hno by (intros k; by rewrite lookup_empty).
  destruct (increments_count (touched d) ∅ Hno) as [H1 C1]. destruct (increments_count more _ H1) as [H2 C2]. destruct (increments_count more ∅ Hno) as [H3 C3].
  destruct (decrements_count (touched d) (foldl increment (epoch_reg_extend d ∅) more) (count (foldl increment ∅ more)) H2) as (ix' & Hd & Hok & Hc).
  - intros k. unfold epoch_reg_extend. rewrite C2, C1, C3. unfold count. rewrite lookup_empty. cbn. lia.
  - unfold epoch_reg_remove. rewrite Hd. f_equal. by apply counts_eq.
Qed.
End Counts.

(** ** Verdicts, one after the other *)
Section Verdicts.
Context {L R V : Type}.
Implicit Types (b : Bind L R V) (v older : Existence (Bind L R V)).

(** A newer verdict on top of an older one. *)
Definition on_top older v : Existence (Bind L R V) :=
  match v with
  | Unknown => older
  | Gone => Gone
  | Exists b => match older with Exists o => Exists (and_then o b) | _ => Exists b end
  end.
Lemma and_then_assoc b1 b2 b3 : and_then b1 (and_then b2 b3) = and_then (and_then b1 b2) b3.
Proof. destruct b1 as [l1 r1 v1], b2 as [l2 r2 v2], b3 as [l3 r3 v3]. unfold and_then. cbn. destruct v3; [done|]. cbn. destruct v2; cbn; [done|]. destruct l3, r3, l2, r2; done. Qed.
Lemma on_top_assoc v b1 b2 : on_top (on_top v (Exists b1)) (Exists b2) = on_top v (Exists (and_then b1 b2)).
Proof. destruct v; cbn; [by rewrite and_then_assoc|done|done]. Qed.
Lemma and_then_value b1 b2 : is_some (value b2) = true → and_then b1 b2 = b2.
Proof. unfold and_then. by destruct (value b2). Qed.

Lemma fold_from_exists h : Forall (λ v, v ≠ Unknown) h → ∀ b, fold_from (Exists b) h = on_top (existence_fold h) (Exists b).
Proof.
  induction 1 as [|v h Hv Hh IH]; intros b; [by destruct b as [? ? []]|]. destruct v as [o| |]; [| |done].
  - change (existence_fold (Exists o :: h)) with (fold_from (Exists o) h). rewrite IH, on_top_assoc. cbn [fold_from].
    destruct (value b) eqn:Hb; [|by rewrite IH]. cbn. rewrite and_then_value by by rewrite Hb. destruct (existence_fold h); try done. by rewrite and_then_value by by rewrite Hb.
  - cbn. by destruct (value b), h.
Qed.
Lemma existence_fold_cons v h : Forall (λ v, v ≠ Unknown) h → v ≠ Unknown → existence_fold (v :: h) = on_top (existence_fold h) v.
Proof. intros Hh Hv. destruct v as [b| |]; [|by destruct h|done]. unfold existence_fold. cbn [fold_from]. by apply fold_from_exists. Qed.
(** From the newest to the oldest, or from the oldest to the newest. *)
Lemma existence_fold_reverse l : Forall (λ v, v ≠ Unknown) l → existence_fold (reverse l) = foldl on_top Unknown l.
Proof.
  induction l as [|v l IH] using rev_ind; [done|]. intros [Hl Hv]%Forall_app. apply Forall_cons in Hv as [Hv _].
  rewrite reverse_snoc, foldl_app. cbn. rewrite <- IH by done. apply existence_fold_cons; [by apply Forall_reverse|done].
Qed.
End Verdicts.

Section Binds.
Context {K L R V : Type} `{Countable K}.
Implicit Types (d newer : DiffBind K L R V).

(** What the operations on a diff keep: nothing is both registered and unregistered. *)
Definition diff_bind_ok d : Prop := dom (registered d) ## unregistered d.
Lemma register_ok k v l r d d' : diff_bind_ok d → register k v l r d = Ok d' → diff_bind_ok d'.
Proof. unfold register. destruct (registered d !! k); [done|]. intros Hd [= <-]. unfold diff_bind_ok in *. cbn. rewrite dom_insert. set_solver. Qed.
Lemma unregister_ok k d : diff_bind_ok d → diff_bind_ok (unregister k d).
Proof. unfold diff_bind_ok. cbn. rewrite dom_delete. set_solver. Qed.
Lemma bind_left_ok k l d d' : diff_bind_ok d → bind_left k l d = Ok d' → diff_bind_ok d'.
Proof. unfold bind_left. case_decide; [done|]. intros Hd [= <-]. unfold diff_bind_ok in *. cbn. rewrite dom_insert. set_solver. Qed.
Lemma bind_right_ok k r d d' : diff_bind_ok d → bind_right k r d = Ok d' → diff_bind_ok d'.
Proof. unfold bind_right. case_decide; [done|]. intros Hd [= <-]. unfold diff_bind_ok in *. cbn. rewrite dom_insert. set_solver. Qed.

Lemma unregister_all l : ∀ d k, let r := foldl (λ d k, unregister k d) d l in
  registered r !! k = (if decide (k ∈ l) then None else registered d !! k) ∧ (k ∈ unregistered r ↔ k ∈ l ∨ k ∈ unregistered d).
Proof.
  induction l as [|x l IH]; intros d k; cbn [foldl]; [split; [by rewrite decide_False by set_solver|set_solver]|].
  destruct (IH (unregister x d) k) as [Hr Hu]. split; [rewrite Hr; cbn|rewrite Hu; cbn; set_solver].
  destruct (decide (k ∈ l)); [by rewrite decide_True by set_solver|]. destruct (decide (k = x)) as [->|]; [by rewrite lookup_delete_eq, decide_True by set_solver|].
  by rewrite lookup_delete_ne, decide_False by set_solver.
Qed.
Lemma register_all (l : list (K * Bind L R V)) : NoDup l.*1 → ∀ d k,
  let r := foldl (λ d kb, mkDiffBind (<[kb.1 := match registered d !! kb.1 with Some older => and_then older kb.2 | None => kb.2 end]> (registered d))
                   (unregistered d ∖ {[kb.1]})) d l in
  registered r !! k = (match (list_to_map l : gmap K (Bind L R V)) !! k with
                       | Some b => Some (match registered d !! k with Some older => and_then older b | None => b end)
                       | None => registered d !! k end) ∧
  (k ∈ unregistered r ↔ k ∈ unregistered d ∧ k ∉ l.*1).
Proof.
  induction l as [|[x b] l IH]; intros Hnd d k; [cbn; set_solver|]. cbn in Hnd. apply NoDup_cons in Hnd as [Hx Hnd]. cbn [foldl fst snd].
  edestruct (IH Hnd) as [Hr Hu]. rewrite Hr. split; [|rewrite Hu; cbn; set_solver]. cbn. destruct (decide (k = x)) as [->|Hk].
  - rewrite !lookup_insert_eq. by rewrite not_elem_of_list_to_map_1.
  - by rewrite !lookup_insert_ne by done.
Qed.
Lemma get_bind_extend d newer k : diff_bind_ok newer → diff_bind_get k (diff_bind_extend d newer) = on_top (diff_bind_get k d) (diff_bind_get k newer).
Proof.
  intros Hok. unfold diff_bind_get, diff_bind_extend. destruct (unregister_all (elements (unregistered newer)) d k) as [Hr Hu].
  edestruct (register_all (map_to_list (registered newer)) (NoDup_fst_map_to_list _)) as [Hr' Hu']. rewrite Hr', list_to_map_to_list. clear Hr'.
  destruct (registered newer !! k) as [b|] eqn:Hn.
  - assert (k ∉ unregistered newer) as Hk by (apply elem_of_dom_2 in Hn; unfold diff_bind_ok in Hok; set_solver).
    rewrite Hr, decide_False by set_solver. destruct (registered d !! k); [done|]. by destruct (decide (k ∈ unregistered d)).
  - assert (k ∉ (map_to_list (registered newer)).*1) as Hk.
    { intros ([k' b] & -> & Hin)%list_elem_of_fmap. apply elem_of_map_to_list in Hin. cbn in Hn. congruence. }
    rewrite Hr. rewrite (decide_ext _ (k ∈ unregistered newer)) by set_solver. destruct (decide (k ∈ unregistered newer)) as [Hin|Hin].
    + rewrite decide_True; [done|]. rewrite Hu', Hu. set_solver.
    + destruct (registered d !! k); [done|]. rewrite (decide_ext _ (k ∈ unregistered d)); [done|]. rewrite Hu', Hu. set_solver.
Qed.
Lemma get_bind_fold l k : Forall diff_bind_ok l → diff_bind_get k (diff_bind_fold l) = foldl on_top Unknown (map (diff_bind_get k) l).
Proof.
  unfold diff_bind_fold. induction l as [|d l IH] using rev_ind; [done|]. intros [Hl Hd]%Forall_app. apply Forall_cons in Hd as [Hd _].
  rewrite foldl_app, map_app, foldl_app. cbn. by rewrite get_bind_extend, IH.
Qed.

(** What a diff pushes for a key is its verdict. *)
Lemma of_key_pushes d k : diff_bind_ok d → of_key k (pushes id d) = match diff_bind_get k d with Unknown => [] | v => [v] end.
Proof.
  intros Hok. unfold of_key, pushes, diff_bind_get. rewrite filter_app, fmap_app.
  assert (∀ l : list K, NoDup l → (filter (λ kv : K * Existence (Bind L R V), kv.1 = k) (map (λ k, (k, Gone)) l)).*2 = if decide (k ∈ l) then [Gone] else []) as Hg.
  { induction 1 as [|x l Hx Hl IH]; [done|]. cbn [map]. rewrite filter_cons. cbn [fst]. destruct (decide (x = k)) as [->|Hk].
    - cbn. rewrite IH, decide_False by done. by rewrite decide_True by set_solver.
    - rewrite IH. by rewrite (decide_ext (k ∈ l) (k ∈ x :: l)) by set_solver. }
  rewrite Hg by apply NoDup_elements. rewrite (decide_ext (k ∈ elements (unregistered d)) (k ∈ unregistered d)) by set_solver.
  assert (∀ l : list (K * Bind L R V), NoDup l.*1 → (filter (λ kv : K * Existence (Bind L R V), kv.1 = k) (map (λ kb, (kb.1, Exists (id kb.2))) l)).*2 =
            match (list_to_map l : gmap K (Bind L R V)) !! k with Some b => [Exists b] | None => [] end) as Hr.
  { induction l as [|[x b] l IH]; [done|]. intros [Hx Hl]%NoDup_cons. cbn [map]. rewrite filter_cons. cbn [fst snd list_to_map foldr]. destruct (decide (x = k)) as [->|Hk].
    - rewrite fmap_cons, IH, lookup_insert_eq by done. by rewrite not_elem_of_list_to_map_1.
    - rewrite IH by done. by rewrite lookup_insert_ne. }
  rewrite Hr by apply NoDup_fst_map_to_list. rewrite list_to_map_to_list. destruct (registered d !! k) eqn:Hk; [|by destruct (decide _)].
  rewrite decide_False; [done|]. apply elem_of_dom_2 in Hk. unfold diff_bind_ok in Hok. set_solver.
Qed.
(** The index and the merged diff agree. *)
Lemma indexed_reads_fold (l : list (DiffBind K L R V)) k : Forall diff_bind_ok l →
  indexed_get k (foldl push_front_or_insert ∅ (flat_map (pushes id) l)) = diff_bind_get k (diff_bind_fold l).
Proof.
  intros Hok. rewrite get_bind_fold by done. set (ix := foldl _ _ _).
  assert (indexed_get k ix = existence_fold (history ix k)) as -> by (unfold indexed_get, history; by destruct (ix !! k)).
  unfold ix. rewrite pushes_history. unfold history. rewrite lookup_empty. cbn [default]. rewrite app_nil_r.
  assert (of_key k (flat_map (pushes id) l) = flat_map (λ d, match diff_bind_get k d with Unknown => [] | v => [v] end) l) as ->.
  { clear ix. induction Hok as [|d l Hd _ IH]; [done|]. cbn [flat_map]. rewrite <- IH, <- of_key_pushes by done. unfold of_key. by rewrite filter_app, fmap_app. }
  rewrite existence_fold_reverse.
  - assert (∀ v, foldl on_top v (flat_map (λ d, match diff_bind_get k d with Unknown => [] | v => [v] end) l) = foldl on_top v (map (diff_bind_get k) l)) as Hf; [|apply Hf].
    clear. induction l as [|d l IH]; intros v; [done|]. cbn [flat_map map foldl]. rewrite foldl_app, <- IH. by destruct (diff_bind_get k d).
  - clear. induction l as [|d l IH]; [constructor|]. cbn [flat_map]. apply Forall_app. split; [|done]. by destruct (diff_bind_get k d); repeat constructor.
Qed.
End Binds.

(** ** The aggregate of a list of fragments *)
Section Aggregates.
Context `{Outputs}.
Implicit Types (f : VolatileFragment) (l : list VolatileFragment) (a : VolatileAggregate).

Definition total (amount : VolatileFragment → Z) l : Z := foldr (λ f n, amount f + n) 0 l.
Definition merged_proposals (m : gmap ProposalId Stake.ProposalRow) l : gmap ProposalId Stake.ProposalRow := foldl (λ m f, proposals f ∪ m) m l.
Definition aggregate_of a l : VolatileAggregate :=
  mkAggregate (foldl (λ d o, diff_set_extend o d) (agg_utxo a) (map utxo l)) (foldl increment (agg_pools a) (flat_map (λ f, touched (pools f)) l))
    (foldl push_front_or_insert (agg_accounts a) (flat_map (λ f, pushes id (accounts f)) l))
    (foldl push_front_or_insert (agg_dreps a) (flat_map (λ f, pushes (map_left (λ _, ())) (dreps f)) l))
    (foldl push_front_or_insert (agg_committee a) (flat_map (λ f, pushes id (committee f)) l))
    (⋃ (map withdrawals l) ∪ agg_withdrawals a) (merged_proposals (agg_proposals a) l) (agg_fees a + total fees l) (agg_donations a + total donations l).

(** Amounts are not negative. *)
Record fragment_ok f : Prop := { fo_fees : 0 <= fees f; fo_donations : 0 <= donations f }.

Lemma add_fragment_of f a a' : add_fragment f a = Some a' → a' = aggregate_of a [f] ∧ agg_fees a' <= u64_max ∧ agg_donations a' <= u64_max.
Proof.
  unfold add_fragment, checked_add. destruct (Z.leb_spec (agg_fees a + fees f) u64_max); [|done]. cbn [mbind option_bind].
  destruct (Z.leb_spec (agg_donations a + donations f) u64_max); [|done]. cbn [mbind option_bind]. intros [= <-]. split; [|done].
  unfold aggregate_of. cbn [map flat_map foldl]. rewrite !app_nil_r. f_equal; [set_solver|cbn; lia|cbn; lia].
Qed.
Lemma aggregate_of_cons f l a : aggregate_of (aggregate_of a [f]) l = aggregate_of a (f :: l).
Proof.
  unfold aggregate_of. cbn [agg_utxo agg_pools agg_accounts agg_dreps agg_committee agg_withdrawals agg_proposals agg_fees agg_donations map flat_map foldl total foldr].
  rewrite !app_nil_r, !foldl_app. f_equal; [set_solver|unfold total; cbn; lia|unfold total; cbn; lia].
Qed.
Lemma aggregate_from_cons f l a : aggregate_from a (f :: l) = a ← add_fragment f a; aggregate_from a l.
Proof.
  unfold aggregate_from. cbn [foldl mbind option_bind]. destruct (add_fragment f a); [done|]. cbn. by induction l.
Qed.
Lemma aggregate_from_inv l : ∀ a a', aggregate_from a l = Some a' → a' = aggregate_of a l ∧
  (agg_fees a <= u64_max → agg_fees a' <= u64_max) ∧ (agg_donations a <= u64_max → agg_donations a' <= u64_max).
Proof.
  induction l as [|f l IH]; intros a a'.
  - intros [= <-]. split; [|done]. destruct a. unfold aggregate_of. cbn. f_equal; [set_solver|lia|lia].
  - rewrite aggregate_from_cons. destruct (add_fragment f a) as [a1|] eqn:Ha; [|done]. cbn. intros Hl. apply add_fragment_of in Ha as (-> & Hf & Hd).
    apply IH in Hl as (-> & Hf' & Hd'). rewrite aggregate_of_cons in Hf', Hd' |- *. split_and!; [done|by intros _; apply Hf'|by intros _; apply Hd'].
Qed.
Lemma fragments_total_nonneg (amount : VolatileFragment → Z) l : Forall (λ f, 0 <= amount f) l → 0 <= total amount l.
Proof. induction 1; cbn; [done|]. unfold total in *. lia. Qed.
Lemma aggregate_from_ok l : ∀ a, Forall fragment_ok l → agg_fees a + total fees l <= u64_max → agg_donations a + total donations l <= u64_max →
  aggregate_from a l = Some (aggregate_of a l).
Proof.
  induction l as [|f l IH]; intros a Hok Hf Hd.
  - unfold aggregate_of. cbn. destruct a. cbn. do 2 f_equal; [set_solver|lia|lia].
  - apply Forall_cons in Hok as [[Hff Hfd] Hok]. pose proof (fragments_total_nonneg fees l) as N1. pose proof (fragments_total_nonneg donations l) as N2.
    assert (0 <= total fees l ∧ 0 <= total donations l) as [N1' N2'].
    { split; [apply N1|apply N2]; eapply Forall_impl; try exact Hok; by intros ? []. }
    cbn [total foldr] in Hf, Hd. fold (total fees l) in Hf. fold (total donations l) in Hd.
    rewrite aggregate_from_cons. destruct (add_fragment f a) as [a1|] eqn:Ha.
    + apply add_fragment_of in Ha as (-> & _). cbn. rewrite IH; [by rewrite aggregate_of_cons|done| |]; cbn; lia.
    + unfold add_fragment, checked_add in Ha. rewrite !(proj2 (Z.leb_le _ _)) in Ha by lia. done.
Qed.

(** What the oldest fragment touches that must not come back in the others: outputs are
    produced and consumed once, rewards are withdrawn once in an epoch, and proposals
    have identifiers of their own. *)
Record once f l : Prop := {
  on_produced : ∀ g, g ∈ l → dom (produced (utxo f)) ## dom (produced (utxo g));
  on_consumed : ∀ g, g ∈ l → consumed (utxo f) ## consumed (utxo g);
  on_withdrawals : ∀ g, g ∈ l → withdrawals f ## withdrawals g;
  on_proposals : ∀ g, g ∈ l → dom (proposals f) ## dom (proposals g) }.

Lemma merged_produced l k : k ∈ dom (produced (foldl (λ d o, diff_set_extend o d) diff_set_default (map utxo l))) → ∃ g, g ∈ l ∧ k ∈ dom (produced (utxo g)).
Proof.
  induction l as [|g l IH] using rev_ind; [by rewrite elem_of_dom; intros [? ?]|]. rewrite map_app, foldl_app. cbn [map foldl].
  rewrite elem_of_dom, extend_produced. intros [v Hv]. destruct (produced (utxo g) !! k) eqn:Hg.
  - exists g. split; [set_solver|]. by apply elem_of_dom.
  - destruct (decide _); [done|]. destruct IH as (g' & Hg' & Hk); [by apply elem_of_dom|]. exists g'. set_solver.
Qed.
Lemma merged_consumed l k : k ∈ consumed (foldl (λ d o, diff_set_extend o d) diff_set_default (map utxo l)) → ∃ g, g ∈ l ∧ k ∈ consumed (utxo g).
Proof.
  induction l as [|g l IH] using rev_ind; [cbn; set_solver|]. rewrite map_app, foldl_app. cbn [map foldl]. rewrite extend_consumed.
  intros [Hk|Hk]%elem_of_union; [exists g; set_solver|]. destruct (IH Hk) as (g' & Hg' & Hk'). exists g'. set_solver.
Qed.
Lemma merged_proposals_oldest f l : (∀ g, g ∈ l → dom (proposals f) ## dom (proposals g)) →
  merged_proposals (proposals f ∪ ∅) l ∖ proposals f = merged_proposals ∅ l.
Proof.
  intros Hd. unfold merged_proposals. rewrite map_union_empty. induction l as [|g l IH] using rev_ind; cbn; [apply map_difference_diag|].
  rewrite !foldl_app. cbn. rewrite <- IH by set_solver. apply map_eq. intros k. rewrite lookup_difference, !lookup_union, lookup_difference.
  destruct (proposals f !! k) eqn:Hk; [|by destruct (proposals g !! k)].
  rewrite (not_elem_of_dom_1 (proposals g) k); [done|]. intros Hg. apply elem_of_dom_2 in Hk. specialize (Hd g). set_solver.
Qed.

Lemma remove_aggregate_of f l : once f l → Forall fragment_ok (f :: l) → remove_fragment f (aggregate_of no_aggregate (f :: l)) = Some (aggregate_of no_aggregate l).
Proof.
  intros [Hp Hc Hw Hr] Hok. unfold remove_fragment, aggregate_of.
  cbn [agg_utxo agg_pools agg_accounts agg_dreps agg_committee agg_withdrawals agg_proposals agg_fees agg_donations no_aggregate map flat_map foldl].
  rewrite !foldl_app. fold (indexed_extend_with id (accounts f) ∅) (indexed_extend_with id (committee f) ∅) (indexed_extend_with (map_left (λ _, ())) (dreps f) ∅).
  fold (epoch_reg_extend (pools f) ∅). rewrite epoch_reg_remove_oldest, !indexed_remove_oldest. cbn [andb].
  apply Forall_cons in Hok as [[Hff Hfd] Hok].
  assert (0 <= total fees l ∧ 0 <= total donations l) as [N1 N2].
  { split; apply fragments_total_nonneg; eapply Forall_impl; try exact Hok; by intros ? []. }
  cbn [total foldr]. fold (total fees l) (total donations l). unfold checked_sub. rewrite !(proj2 (Z.leb_le _ _)) by lia. cbn [mbind option_bind].
  do 2 f_equal.
  - rewrite extend_to_nothing, extend_fold. apply diff_set_remove_oldest.
    + intros k Hk (g & Hg & Hk')%merged_produced. specialize (Hp g Hg). set_solver.
    + intros k Hk (g & Hg & Hk')%merged_consumed. specialize (Hc g Hg). set_solver.
  - apply set_eq. intros k. rewrite elem_of_difference. cbn [union_list]. rewrite !elem_of_union. split; [set_solver|]. intros Hk. split; [set_solver|].
    destruct Hk as [Hk|Hk]; [|set_solver]. apply elem_of_union_list in Hk as (X & (g & -> & Hg)%list_elem_of_fmap & Hk). specialize (Hw g Hg). set_solver.
  - by apply merged_proposals_oldest.
  - lia.
  - lia.
Qed.
(** The oldest fragment comes out exactly. *)
Lemma remove_fragment_exact f l a : once f l → Forall fragment_ok (f :: l) → fold_fragments (f :: l) = Some a →
  ∃ a', fold_fragments l = Some a' ∧ remove_fragment f a = Some a'.
Proof.
  intros Ho Hok Ha. apply aggregate_from_inv in Ha as (-> & Hf & Hd). exists (aggregate_of no_aggregate l). split; [|by apply remove_aggregate_of].
  apply Forall_cons in Hok as [[Hff Hfd] Hok]. cbn in Hf, Hd.
  apply aggregate_from_ok; [done| |]; cbn; unfold total; [specialize (Hf ltac:(done))|specialize (Hd ltac:(done))]; lia.
Qed.

(** ** Reading *)

(** Outputs: the aggregate against a walk from the most recent fragment. *)
Definition walk_back {A : Type} (verdict : VolatileFragment → Existence A) l : Existence A := foldl (λ older f, or_else (verdict f) older) Unknown l.
Lemma get_extend {K V : Type} `{Countable K} (o d : DiffSet K V) k : diff_set_get k (diff_set_extend o d) = or_else (diff_set_get k o) (diff_set_get k d).
Proof.
  unfold diff_set_get. rewrite extend_produced, extend_consumed. destruct (produced o !! k); [done|].
  destruct (decide (k ∈ consumed o)) as [Ho|Ho]; [by rewrite decide_True by set_solver|]. cbn. destruct (produced d !! k); [done|].
  by rewrite (decide_ext (k ∈ consumed d) (k ∈ consumed o ∪ consumed d)) by set_solver.
Qed.
Lemma resolve_input_walk l k a : fold_fragments l = Some a → diff_set_get k (agg_utxo a) = walk_back (λ f, diff_set_get k (utxo f)) l.
Proof.
  intros (-> & _)%aggregate_from_inv. unfold walk_back. cbn. induction l as [|f l IH] using rev_ind; [done|].
  rewrite map_app, !foldl_app. cbn. by rewrite get_extend, IH.
Qed.
(** Accounts: the aggregate against the merge of the fragments. *)
Lemma resolve_account_fold l c a : Forall (λ f, diff_bind_ok (accounts f)) l → fold_fragments l = Some a →
  indexed_get c (agg_accounts a) = diff_bind_get c (diff_bind_fold (map accounts l)).
Proof.
  intros Hok (-> & _)%aggregate_from_inv. cbn. rewrite <- indexed_reads_fold by by apply Forall_fmap. f_equal. f_equal.
  clear Hok. induction l as [|f l IH]; [done|]. cbn. by rewrite IH.
Qed.
End Aggregates.
