(* ===== verification/Volatile.v ===== *)
(** * The volatile part of the ledger

    [amaru-ledger/src/state/volatile.rs], [volatile/series.rs] and [volatile/db.rs]: the
    last blocks, which can still be rolled back, as two series of fragments, one per
    epoch, around the overlay of the epoch boundary.

    Fragments are looked up by point with the binary search of
    the standard library, which on a series that is in order finds the fragment anchored
    at the point.  A rollback that is undone gives back the database it started from. *)

From stdpp Require Import sorting.
From S2P Require Import Prelude BTreeMap SortedAssoc UplcSyntax ProtocolParameters Governance EraHistory Summary PoolsUpdates StakeSummary Ratification PhaseTwo EpochTransition Headers Fragments FragmentsProps.
#[local] Open Scope Z_scope.

(** A failed assertion, or an overflow. *)
Definition or_panic {E A : Type} (o : option A) : exec E A := match o with Some a => Ok a | None => Panic end.

(** ** Binary search

    [slice::binary_search_by] of the standard library, without the place of insertion
    that comes with a failure. *)
Section BinarySearch.
Context {A : Type}.
Fixpoint search_loop (fuel : nat) (f : A → comparison) (l : list A) (base size : nat) : nat :=
  match fuel with
  | 0%nat => base
  | S fuel =>
      if (size <=? 1)%nat then base
      else
        let half := (size / 2)%nat in
        let mid := (base + half)%nat in
        search_loop fuel f l (match f <$> l !! mid with Some Gt => base | _ => mid end) (size - half)
  end.
Definition binary_search (f : A → comparison) (l : list A) : option nat :=
  let base := search_loop (length l) f l 0 (length l) in
  match f <$> l !! base with Some Eq => Some base | _ => None end.

Lemma search_loop_ok f l k : (∀ i x, l !! i = Some x → f x = Gt ↔ (k < i)%nat) → ∀ fuel base size,
  (size <= fuel)%nat → (base <= k < base + size)%nat → (base + size <= length l)%nat → search_loop fuel f l base size = k.
Proof.
  intros Hf. induction fuel as [|fuel IH]; intros base size Hfuel Hk Hl; [lia|]. cbn [search_loop].
  destruct (Nat.leb_spec size 1) as [H1|H1]; [lia|].
  assert (1 <= size / 2 /\ size / 2 + size / 2 <= size)%nat as [Hh1 Hh2].
  { pose proof (Nat.div_mod size 2). pose proof (Nat.mod_upper_bound size 2). split; lia. }
  destruct (lookup_lt_is_Some_2 l (base + size / 2)) as [x Hx]; [lia|]. rewrite Hx. cbn [fmap option_fmap option_map].
  pose proof (Hf _ _ Hx) as Hx'. destruct (f x) eqn:He; [apply IH; try lia|apply IH; try lia|apply IH; try lia].
  - destruct (decide (k < base + size / 2)%nat) as [Hlt|Hlt]; [apply Hx' in Hlt; done|lia].
  - destruct (decide (k < base + size / 2)%nat) as [Hlt|Hlt]; [apply Hx' in Hlt; done|lia].
  - destruct Hx' as [Hx' _]. specialize (Hx' eq_refl). lia.
Qed.
(** The search finds what is there, *)
Lemma binary_search_found f l1 x l2 : Forall (λ y, f y = Lt) l1 → f x = Eq → Forall (λ y, f y = Gt) l2 →
  binary_search f (l1 ++ x :: l2) = Some (length l1).
Proof.
  intros H1 Hx H2. unfold binary_search. rewrite (search_loop_ok f _ (length l1)).
  - rewrite list_lookup_middle by done. cbn. by rewrite Hx.
  - intros i y Hy. destruct (Nat.lt_trichotomy i (length l1)) as [Hi|[->|Hi]].
    + rewrite lookup_app_l in Hy by done. rewrite Forall_lookup in H1. rewrite (H1 _ _ Hy). split; [done|lia].
    + rewrite list_lookup_middle in Hy by done. injection Hy as <-. rewrite Hx. split; [done|lia].
    + rewrite lookup_app_r in Hy by lia. destruct (i - length l1)%nat as [|j] eqn:Hj; [lia|]. rewrite Forall_lookup in H2. by rewrite (H2 _ _ Hy).
  - done.
  - rewrite length_app. cbn. lia.
  - lia.
Qed.
(** and nothing else. *)
Lemma binary_search_Some f l ix : binary_search f l = Some ix → ∃ l1 x l2, l = l1 ++ x :: l2 ∧ length l1 = ix ∧ f x = Eq.
Proof.
  unfold binary_search. set (base := search_loop _ _ _ _ _). destruct (l !! base) as [x|] eqn:Hx; [|done]. cbn.
  destruct (f x) eqn:He; try done. intros [= <-]. apply list_elem_of_split_length in Hx as (l1 & l2 & -> & Hl). by exists l1, x, l2.
Qed.
End BinarySearch.

(** Points are ordered. *)
Lemma Point_cmp_refl p : Point_cmp p p = Eq.
Proof. destruct p as [|s h n]; [done|]. cbn. rewrite Z.compare_refl, bytes_compare_refl. cbn. apply Z.compare_refl. Qed.
Lemma Point_cmp_eq p q : Point_cmp p q = Eq → p = q.
Proof.
  destruct p as [|s h n], q as [|s' h' n']; cbn; try done. unfold then_with. destruct (Z.compare_spec s s') as [->| |]; try done.
  destruct (bytes_compare h h') eqn:Hh; try done. apply bytes_compare_eq in Hh as ->. intros ->%Z.compare_eq. done.
Qed.
Lemma Point_cmp_antisym p q : Point_cmp q p = CompOpp (Point_cmp p q).
Proof.
  destruct p as [|s h n], q as [|s' h' n']; cbn; try done. unfold then_with. rewrite (Z.compare_antisym s s').
  destruct (Z.compare s s'); cbn; try done. rewrite (bytes_compare_antisym h h'). destruct (bytes_compare h h'); cbn; try done. apply Z.compare_antisym.
Qed.

Section Series.
Context `{Outputs}.

Record AnchoredVolatileFragment := mkAnchored { anchor_point : Point; anchor_issuer : list Z; fragment : VolatileFragment }.

(** ** One series *)
Record VolatileSeries := mkSeries { sequence : list AnchoredVolatileFragment; aggregate : VolatileAggregate }.
Definition series_default : VolatileSeries := mkSeries [] no_aggregate.
Definition view_back (s : VolatileSeries) : option AnchoredVolatileFragment := last (sequence s).
Definition view_front (s : VolatileSeries) : option AnchoredVolatileFragment := head (sequence s).

(** [binary_search_by_key]. *)
Definition search (p : Point) (l : list AnchoredVolatileFragment) : option nat := binary_search (λ x, Point_cmp (anchor_point x) p) l.
Definition has_point (p : Point) (s : VolatileSeries) : bool := is_some (search p (sequence s)).
Definition pop_front {E : Type} (s : VolatileSeries) : exec E (option (AnchoredVolatileFragment * VolatileSeries)) :=
  match sequence s with
  | [] => Ok None
  | popped :: rest =>
      a ← (match rest with [] => Ok no_aggregate | _ => or_panic (remove_fragment (fragment popped) (aggregate s)) end);
      Ok (Some (popped, mkSeries rest a))
  end.
Definition push_back {E : Type} (x : AnchoredVolatileFragment) (s : VolatileSeries) : exec E VolatileSeries :=
  a ← or_panic (add_fragment (fragment x) (aggregate s));
  Ok (mkSeries (sequence s ++ [x]) a).
Definition new_aggregate (l : list AnchoredVolatileFragment) : option VolatileAggregate := fold_fragments (map fragment l).

Inductive RollbackError := PointNotFound.
Definition series_rollback_to (p : Point) (s : VolatileSeries) : exec RollbackError (VolatileSeries * list AnchoredVolatileFragment) :=
  ix ← ok_or PointNotFound (search p (sequence s));
  let kept := take (Datatypes.S ix) (sequence s) in
  a ← or_panic (new_aggregate kept);
  Ok (mkSeries kept a, drop (Datatypes.S ix) (sequence s)).
Definition series_undo_rollback {E : Type} (p : Point) (fragments : list AnchoredVolatileFragment) (s : VolatileSeries) : exec E VolatileSeries :=
  ix ← or_panic (search p (sequence s));
  let l := take (Datatypes.S ix) (sequence s) ++ fragments in
  a ← or_panic (new_aggregate l);
  Ok (mkSeries l a).

(** ** The two series and the overlay *)
Record VolatileDB := mkVolatileDB {
  vd_current : VolatileSeries;
  vd_draining : VolatileSeries;
  vd_overlay : Overlay.StateOverlay;
  vd_parameters : ProtocolParameters;
  vd_dormant_epochs : Z;
  vd_guardrail_script : option (list Z) }.

Definition db_len (db : VolatileDB) : nat := (length (sequence (vd_current db)) + length (sequence (vd_draining db)))%nat.
Definition db_view_back (db : VolatileDB) : option AnchoredVolatileFragment :=
  match view_back (vd_current db) with Some x => Some x | None => view_back (vd_draining db) end.
Definition db_iter (db : VolatileDB) : list AnchoredVolatileFragment := sequence (vd_draining db) ++ sequence (vd_current db).
Definition set_series (current draining : VolatileSeries) (db : VolatileDB) : VolatileDB :=
  mkVolatileDB current draining (vd_overlay db) (vd_parameters db) (vd_dormant_epochs db) (vd_guardrail_script db).
Definition set_overlay (o : Overlay.StateOverlay) (db : VolatileDB) : VolatileDB :=
  mkVolatileDB (vd_current db) (vd_draining db) o (vd_parameters db) (vd_dormant_epochs db) (vd_guardrail_script db).

Definition db_pop_front {E : Type} (db : VolatileDB) : exec E (option (AnchoredVolatileFragment * VolatileDB)) :=
  r ← pop_front (E := E) (vd_draining db);
  match r with
  | Some (x, s) => Ok (Some (x, set_series (vd_current db) s db))
  | None =>
      r ← pop_front (E := E) (vd_current db);
      Ok (match r with Some (x, s) => Some (x, set_series s (vd_draining db) db) | None => None end)
  end.
Definition db_push_back {E : Type} (x : AnchoredVolatileFragment) (db : VolatileDB) : exec E VolatileDB :=
  s ← push_back x (vd_current db);
  Ok (set_series s (vd_draining db) db).

(** The fragments of the closing epoch, that must go to disk. *)
Definition epoch_tail (db : VolatileDB) : option (list AnchoredVolatileFragment) * VolatileDB :=
  match sequence (vd_draining db) with
  | [] => (None, db)
  | l => (Some l, set_series (vd_current db) series_default db)
  end.
(** [transition], given that of the overlay. *)
Definition db_transition {E : Type} (overlay_transition : Overlay.StateOverlay → exec E Overlay.StateOverlay) (db : VolatileDB)
  : exec E VolatileDB :=
  match sequence (vd_draining db) with
  | [] => o ← overlay_transition (vd_overlay db); Ok (set_overlay o (set_series series_default (vd_current db) db))
  | _ => Panic
  end.
(** [clear]: the previous contents, and what is left. *)
Definition db_clear {E : Type} (db : VolatileDB) : exec E (VolatileDB * VolatileDB) :=
  o ← (match sequence (vd_draining db) with [] => Ok (vd_overlay db) | _ => Overlay.rollback (vd_overlay db) end);
  Ok (db, set_overlay o (set_series series_default series_default db)).

(** ** Going back, and forth again *)
Inductive VolatileDBRecovery :=
| RecoverInEpoch (discarded : list AnchoredVolatileFragment) (overlay : Overlay.StateOverlay)
| RecoverAcrossEpoch (old_current : VolatileSeries) (drained : list AnchoredVolatileFragment) (overlay : Overlay.StateOverlay).
Record DbGuard := mkDbGuard { fork_point : Point; recovery : VolatileDBRecovery }.
Definition recovery_length (r : VolatileDBRecovery) : nat :=
  match r with
  | RecoverInEpoch discarded _ => length discarded
  | RecoverAcrossEpoch old_current drained _ => (length (sequence old_current) + length drained)%nat
  end.

Definition db_rollback_to (p : Point) (db : VolatileDB) : exec RollbackError (DbGuard * VolatileDB) :=
  if has_point p (vd_draining db) then
    let old_current := vd_current db in
    r ← series_rollback_to p (vd_draining db);
    let '(current, drained) := r in
    o ← Overlay.rollback (vd_overlay db);
    Ok (mkDbGuard p (RecoverAcrossEpoch old_current drained (vd_overlay db)), set_overlay o (set_series current series_default db))
  else
    r ← series_rollback_to p (vd_current db);
    let '(current, discarded) := r in
    Ok (mkDbGuard p (RecoverInEpoch discarded (vd_overlay db)), set_series current (vd_draining db) db).

Definition db_undo_rollback {E : Type} (g : DbGuard) (db : VolatileDB) : exec E VolatileDB :=
  match recovery g with
  | RecoverInEpoch discarded overlay =>
      let db := if has_point (fork_point g) (vd_draining db) then set_series (vd_draining db) series_default db else db in
      current ← series_undo_rollback (fork_point g) discarded (vd_current db);
      Ok (set_overlay overlay (set_series current (vd_draining db) db))
  | RecoverAcrossEpoch old_current drained overlay =>
      let db := if has_point (fork_point g) (vd_draining db) then set_series old_current (vd_draining db) db
                else set_series old_current (vd_current db) db in
      draining ← series_undo_rollback (fork_point g) drained (vd_draining db);
      Ok (set_overlay overlay (set_series (vd_current db) draining db))
  end.

(** ** Facts *)

(** Of two points of a chain, the first one is at an earlier slot. *)
Definition point_before (p q : Point) : Prop :=
  match p, q with
  | Origin, Specific _ _ _ => True
  | Specific s _ _, Specific s' _ _ => s < s'
  | _, Origin => False
  end.
Lemma point_before_cmp p q : point_before p q → Point_cmp p q = Lt.
Proof. destruct p as [|s h n], q as [|s' h' n']; cbn; try done. intros Hs. by rewrite (proj2 (Z.compare_lt_iff _ _) Hs). Qed.
#[global] Instance point_before_trans : Transitive point_before.
Proof. intros [|] [|] [|]; cbn; try done. lia. Qed.

(** Fragments are in order; the aggregate is that of the sequence. *)
Definition follows (x y : AnchoredVolatileFragment) : Prop := point_before (anchor_point x) (anchor_point y).
Definition in_order : list AnchoredVolatileFragment → Prop := StronglySorted follows.
Definition series_ok (s : VolatileSeries) : Prop := new_aggregate (sequence s) = Some (aggregate s).
Record volatile_ok (db : VolatileDB) : Prop := {
  vk_current : series_ok (vd_current db);
  vk_draining : series_ok (vd_draining db);
  vk_order : in_order (db_iter db) }.

Lemma in_order_app l1 l2 : in_order (l1 ++ l2) ↔ in_order l1 ∧ in_order l2 ∧ ∀ x y, x ∈ l1 → y ∈ l2 → follows x y.
Proof. unfold in_order. rewrite StronglySorted_app. naive_solver. Qed.
Lemma in_order_around l1 x l2 : in_order (l1 ++ x :: l2) →
  Forall (λ y, Point_cmp (anchor_point y) (anchor_point x) = Lt) l1 ∧ Forall (λ y, Point_cmp (anchor_point y) (anchor_point x) = Gt) l2.
Proof.
  intros (_ & H2 & H12)%in_order_app. apply StronglySorted_inv in H2 as [_ H2]. split; apply Forall_forall.
  - intros y Hy. apply point_before_cmp, H12; set_solver.
  - intros y Hy. rewrite Forall_forall in H2. specialize (H2 y Hy). apply point_before_cmp in H2. rewrite Point_cmp_antisym. by rewrite H2.
Qed.

Lemma search_found l1 x l2 : in_order (l1 ++ x :: l2) → search (anchor_point x) (l1 ++ x :: l2) = Some (length l1).
Proof. intros [H1 H2]%in_order_around. apply binary_search_found; [done|apply Point_cmp_refl|done]. Qed.
Lemma search_Some p l ix : search p l = Some ix → ∃ l1 x l2, l = l1 ++ x :: l2 ∧ length l1 = ix ∧ anchor_point x = p.
Proof. intros (l1 & x & l2 & -> & Hl & He)%binary_search_Some. exists l1, x, l2. split_and!; [done|done|by apply Point_cmp_eq]. Qed.
Lemma take_through l1 (x : AnchoredVolatileFragment) l2 : take (Datatypes.S (length l1)) (l1 ++ x :: l2) = l1 ++ [x].
Proof. change (l1 ++ x :: l2) with (l1 ++ [x] ++ l2). rewrite app_assoc. rewrite take_app_length'; [done|]. rewrite length_app. cbn. lia. Qed.
Lemma drop_through l1 (x : AnchoredVolatileFragment) l2 : drop (Datatypes.S (length l1)) (l1 ++ x :: l2) = l2.
Proof. change (l1 ++ x :: l2) with (l1 ++ [x] ++ l2). rewrite app_assoc. rewrite drop_app_length'; [done|]. rewrite length_app. cbn. lia. Qed.
Lemma or_panic_Ok {E A : Type} (o : option A) a : or_panic (E := E) o = Ok a ↔ o = Some a.
Proof. destruct o; cbn; naive_solver. Qed.

(** What a rollback keeps of a series, and what it discards. *)
Lemma series_rollback_ok p s s' discarded : series_rollback_to p s = Ok (s', discarded) →
  ∃ l1 x, sequence s = l1 ++ x :: discarded ∧ sequence s' = l1 ++ [x] ∧ anchor_point x = p ∧ series_ok s'.
Proof.
  unfold series_rollback_to. intros (ix & Hs & (a & Ha & Hr)%bind_Ok)%bind_Ok. apply ok_or_Ok in Hs. apply or_panic_Ok in Ha. injection Hr as <- <-.
  apply search_Some in Hs as (l1 & x & l2 & Hl & <- & Hx). rewrite Hl, take_through in Ha. exists l1, x. cbn. rewrite Hl, take_through, drop_through.
  split_and!; [done|done|done|]. exact Ha.
Qed.
Lemma series_undo_ok {E : Type} l1 x discarded s more s' : in_order (sequence s) → sequence s = (l1 ++ [x]) ++ more →
  sequence s' = l1 ++ x :: discarded → series_ok s' → series_undo_rollback (E := E) (anchor_point x) discarded s = Ok s'.
Proof.
  intros Ho Hs Hs' Ha. unfold series_undo_rollback. rewrite <- app_assoc in Hs. cbn [app] in Hs. rewrite Hs in Ho |- *. rewrite search_found by done.
  cbn [or_panic mbind exec_bind]. rewrite take_through, <- app_assoc. cbn [app]. rewrite <- Hs', Ha. cbn. by destruct s'.
Qed.
Lemma has_point_found l1 x s more : in_order (sequence s) → sequence s = (l1 ++ [x]) ++ more → has_point (anchor_point x) s = true.
Proof. intros Ho Hs. unfold has_point. rewrite <- app_assoc in Hs. cbn [app] in Hs. rewrite Hs in Ho |- *. by rewrite search_found. Qed.

(** A fragment that comes in, and one that goes out. *)
Lemma push_back_ok {E : Type} x s s' : push_back (E := E) x s = Ok s' → series_ok s → sequence s' = sequence s ++ [x] ∧ series_ok s'.
Proof.
  unfold push_back. intros (a & Ha & [= <-])%bind_Ok Hs. apply or_panic_Ok in Ha. split; [done|]. unfold series_ok, new_aggregate, fold_fragments, aggregate_from in *. cbn.
  rewrite map_app, foldl_app, Hs. cbn. by rewrite Ha.
Qed.
Definition fragments_ok (l : list AnchoredVolatileFragment) : Prop :=
  Forall (λ x, fragment_ok (fragment x)) l ∧ ∀ l1 x l2, l = l1 ++ x :: l2 → once (fragment x) (map fragment l2).
Lemma pop_front_ok {E : Type} s x l : sequence s = x :: l → series_ok s → fragments_ok (sequence s) →
  ∃ s', pop_front (E := E) s = Ok (Some (x, s')) ∧ sequence s' = l ∧ series_ok s'.
Proof.
  intros Hs Hok [Hf Ho]. unfold pop_front. rewrite Hs. unfold series_ok, new_aggregate in Hok. rewrite Hs in Hok, Hf. cbn [map] in Hok.
  destruct (remove_fragment_exact (fragment x) (map fragment l) (aggregate s)) as (a' & Hl & Hr); [by apply (Ho [] x l)|by apply (Forall_fmap fragment (λ f, fragment_ok f) (x :: l)) in Hf|done|].
  destruct l as [|y l]; [by exists (mkSeries [] no_aggregate)|]. rewrite Hr. cbn. by exists (mkSeries (y :: l) a').
Qed.

(** *** What a fork switch does before it fails *)
Inductive replays (db : VolatileDB) : VolatileDB → Prop :=
| replays_none : replays db db
| replays_push db' x db'' : replays db db' → db_push_back (E := RollbackError) x db' = Ok db'' → in_order (db_iter db'') → replays db db''
| replays_transition db' f db'' : replays db db' → db_transition (E := RollbackError) f db' = Ok db'' → replays db db''
| replays_overlay db' o : replays db db' → replays db (set_overlay o db').

(** The fork point stays where it was, or moves to the closing epoch. *)
Record replayed (l : list AnchoredVolatileFragment) (db db' : VolatileDB) : Prop := {
  rp_globals : vd_parameters db' = vd_parameters db ∧ vd_dormant_epochs db' = vd_dormant_epochs db ∧ vd_guardrail_script db' = vd_guardrail_script db;
  rp_order : in_order (db_iter db');
  rp_series : vd_draining db' = vd_draining db ∧ (∃ more, sequence (vd_current db') = l ++ more) ∨
              sequence (vd_draining db) = [] ∧ (∃ more, sequence (vd_draining db') = l ++ more) }.

Lemma transition_series {E : Type} f db db' : db_transition (E := E) f db = Ok db' →
  ∃ o, sequence (vd_draining db) = [] ∧ db' = set_overlay o (set_series series_default (vd_current db) db).
Proof. unfold db_transition. destruct (sequence (vd_draining db)); [|done]. intros (o & _ & [= <-])%bind_Ok. by exists o. Qed.
Lemma push_series {E : Type} x db db' : db_push_back (E := E) x db = Ok db' →
  ∃ s, db' = set_series s (vd_draining db) db ∧ sequence s = sequence (vd_current db) ++ [x] ∧ (series_ok (vd_current db) → series_ok s).
Proof.
  unfold db_push_back. intros (s & Hs & [= <-])%bind_Ok. exists s. split; [done|]. split; [|intros Hok; by apply (push_back_ok _ _ _ Hs)].
  unfold push_back in Hs. apply bind_Ok in Hs as (a & _ & [= <-]). done.
Qed.

Lemma replays_replayed l db db' : l ≠ [] → sequence (vd_current db) = l → in_order (db_iter db) → replays db db' → replayed l db db'.
Proof.
  intros Hne Hl Ho. induction 1 as [|db' x db'' _ [Hg Hd Hs] Hx Hx'|db' f db'' _ [Hg Hd Hs] Ht|db' o _ [Hg Hd Hs]].
  - constructor; [done|done|]. left. split; [done|]. exists []. by rewrite app_nil_r.
  - apply push_series in Hx as (s & -> & Hseq & _). constructor; [done|done|]. destruct Hs as [[Hdr (more & Hm)]|[Hdr (more & Hm)]].
    + left. split; [done|]. exists (more ++ [x]). cbn. by rewrite Hseq, Hm, app_assoc.
    + right. split; [done|]. by exists more.
  - apply transition_series in Ht as (o & He & ->). constructor; [done| |].
    + unfold db_iter in *. cbn. rewrite He in Hd. by rewrite app_nil_r.
    + destruct Hs as [[Hdr (more & Hm)]|[Hdr (more & Hm)]]; [right; split; [by rewrite <- Hdr|by exists more]|]. rewrite Hm in He. by destruct l.
  - constructor; [done|done|exact Hs].
Qed.
Lemma undo_in_epoch {E : Type} l1 x discarded db db1 db2 : volatile_ok db → sequence (vd_current db) = l1 ++ x :: discarded →
  has_point (anchor_point x) (vd_draining db) = false → vd_draining db1 = vd_draining db → replayed (l1 ++ [x]) db1 db2 →
  vd_parameters db1 = vd_parameters db ∧ vd_dormant_epochs db1 = vd_dormant_epochs db ∧ vd_guardrail_script db1 = vd_guardrail_script db →
  db_undo_rollback (E := E) (mkDbGuard (anchor_point x) (RecoverInEpoch discarded (vd_overlay db))) db2 = Ok db.
Proof.
  intros [Hc Hd _] Hs Hhas H1 [(Hp & Hde & Hg) Ho Hsh] (Hp1 & Hde1 & Hg1). apply in_order_app in Ho as (Ho1 & Ho2 & _).
  unfold db_undo_rollback. cbn [recovery fork_point]. destruct Hsh as [[Hdr (more & Hm)]|[Hdr (more & Hm)]].
  - rewrite Hdr, H1, Hhas. rewrite (series_undo_ok l1 x discarded _ more _ Ho2 Hm Hs Hc). cbn. unfold set_overlay, set_series. destruct db; cbn in *. by rewrite Hp, Hde, Hg, Hdr, H1, Hp1, Hde1, Hg1.
  - rewrite (has_point_found l1 x _ more Ho1 Hm). cbn [set_series vd_current vd_draining].
    rewrite (series_undo_ok l1 x discarded _ more _ Ho1 Hm Hs Hc). cbn. unfold set_overlay, set_series. unfold series_ok in Hd. rewrite H1 in Hdr.
    destruct db as [c [dl da] ? ? ? ?]; cbn in *. subst dl. injection Hd as <-. by rewrite Hp, Hde, Hg, Hp1, Hde1, Hg1.
Qed.
Lemma undo_across_epoch {E : Type} l1 x drained db db1 db2 : volatile_ok db → sequence (vd_draining db) = l1 ++ x :: drained →
  vd_draining db1 = series_default → replayed (l1 ++ [x]) db1 db2 →
  vd_parameters db1 = vd_parameters db ∧ vd_dormant_epochs db1 = vd_dormant_epochs db ∧ vd_guardrail_script db1 = vd_guardrail_script db →
  db_undo_rollback (E := E) (mkDbGuard (anchor_point x) (RecoverAcrossEpoch (vd_current db) drained (vd_overlay db))) db2 = Ok db.
Proof.
  intros [Hc Hd _] Hs H1 [(Hp & Hde & Hg) Ho Hsh] (Hp1 & Hde1 & Hg1). apply in_order_app in Ho as (Ho1 & Ho2 & _).
  unfold db_undo_rollback. cbn [recovery fork_point]. destruct Hsh as [[Hdr (more & Hm)]|[Hdr (more & Hm)]].
  - rewrite Hdr, H1. change (has_point (anchor_point x) series_default) with false. cbn [set_series vd_current vd_draining].
    rewrite (series_undo_ok l1 x drained _ more _ Ho2 Hm Hs Hd). cbn. unfold set_overlay, set_series. destruct db; cbn in *. by rewrite Hp, Hde, Hg, Hp1, Hde1, Hg1.
  - rewrite (has_point_found l1 x _ more Ho1 Hm). cbn [set_series vd_current vd_draining].
    rewrite (series_undo_ok l1 x drained _ more _ Ho1 Hm Hs Hd). cbn. unfold set_overlay, set_series. destruct db; cbn in *. by rewrite Hp, Hde, Hg, Hp1, Hde1, Hg1.
Qed.

(** A rollback keeps the database in order, and can be undone, whatever was replayed in between. *)
Lemma rollback_ok p db g db1 : volatile_ok db → db_rollback_to p db = Ok (g, db1) → volatile_ok db1 ∧
  (∃ x, db_view_back db1 = Some x ∧ anchor_point x = p) ∧
  length (db_iter db) = (length (db_iter db1) + recovery_length (recovery g))%nat ∧
  ∀ (E : Type) db2, replays db1 db2 → db_undo_rollback (E := E) g db2 = Ok db.
Proof.
  intros Hok Hr. pose proof Hok as [Hc Hd Ho]. unfold db_rollback_to in Hr. destruct (has_point p (vd_draining db)) eqn:Hhas.
  - apply bind_Ok in Hr as ([cur drained] & Hroll & Hr). apply series_rollback_ok in Hroll as (l1 & x & Hs & Hs' & <- & Hcur).
    apply bind_Ok in Hr as (o & _ & Hr). injection Hr as <- <-.
    assert (in_order (l1 ++ [x])) as Hl.
    { unfold db_iter in Ho. rewrite Hs in Ho. change (x :: drained) with ([x] ++ drained) in Ho. rewrite !app_assoc in Ho. rewrite <- app_assoc in Ho.
      by apply in_order_app in Ho as [Ho _]. }
    split_and!; [by constructor; [..|unfold db_iter; cbn; rewrite Hs']|exists x; split; [|done]| |].
    + unfold db_view_back, view_back. cbn. by rewrite Hs', last_snoc.
    + unfold db_iter. cbn. rewrite Hs, Hs', !length_app. cbn. lia.
    + intros E db2 Hrep. refine (undo_across_epoch l1 x drained db _ db2 Hok Hs _ (replays_replayed _ _ _ _ _ _ Hrep) _); [done|by destruct l1|done| |done].
      unfold db_iter. cbn. by rewrite Hs'.
  - apply bind_Ok in Hr as ([cur discarded] & Hroll & Hr). apply series_rollback_ok in Hroll as (l1 & x & Hs & Hs' & <- & Hcur). injection Hr as <- <-.
    assert (in_order (sequence (vd_draining db) ++ l1 ++ [x])) as Hl.
    { unfold db_iter in Ho. rewrite Hs in Ho. change (x :: discarded) with ([x] ++ discarded) in Ho. rewrite !app_assoc in Ho. rewrite <- (app_assoc _ l1) in Ho.
      by apply in_order_app in Ho as [Ho _]. }
    split_and!; [by constructor; [..|unfold db_iter; cbn; rewrite Hs']|exists x; split; [|done]| |].
    + unfold db_view_back, view_back. cbn. by rewrite Hs', last_snoc.
    + unfold db_iter. cbn. rewrite Hs, Hs', !length_app. cbn. lia.
    + intros E db2 Hrep. refine (undo_in_epoch l1 x discarded db _ db2 Hok Hs Hhas _ (replays_replayed _ _ _ _ _ _ Hrep) _); [done|by destruct l1|done| |done].
      unfold db_iter. cbn. by rewrite Hs'.
Qed.
End Series.
