(* ===== verification/VolatileReads.v ===== *)
(** * Reading the volatile database

    [amaru-ledger/src/state/volatile/db.rs] (its implementation of [VolatileState], and the
    accessors of the overlay), [volatile/view.rs] and [volatile/view/iter_pools.rs]: what
    the volatile blocks and the pending epoch boundary say of outputs, pools, accounts,
    representatives, committee members, proposals and pots.  A proposal is given as it is
    stored; the code keeps its expiry and its kind only. *)

From S2P Require Import Prelude BTreeMap SortedAssoc UplcSyntax ProtocolParameters Governance EraHistory Summary PoolsUpdates StakeSummary Ratification PhaseTwo EpochTransition Headers Fragments FragmentsProps Volatile.
#[local] Open Scope Z_scope.

Inductive RewardsAtTip := RewardsReset | RewardsReplace (credit : Z) | RewardsAdd (credit : Z).
Definition into_balance {E : Type} (base : Z) (r : RewardsAtTip) : exec E Z :=
  match r with RewardsReset => Ok 0 | RewardsReplace credit => Ok credit | RewardsAdd credit => u64_add base credit end.

Section Reads.
Context `{Outputs}.
Implicit Types (db : VolatileDB).

(** ** What a query finds *)
Definition resolve_input (i : TransactionInput) db : Existence MemoizedTransactionOutput :=
  or_else (diff_set_get i (agg_utxo (aggregate (vd_current db)))) (diff_set_get i (agg_utxo (aggregate (vd_draining db)))).
Definition is_pool_retired (p : PoolId) (o : Overlay.StateOverlay) : bool :=
  from_option (λ u, bool_decide (p ∈ Pools.retired u)) false (Overlay.pools_updates o).
Definition has_pruned_proposal (i : ProposalId) (o : Overlay.StateOverlay) : bool := is_some (Overlay.pending_pruned o !! i).
Definition resolve_pool (p : PoolId) db : Existence unit :=
  if epoch_reg_get p (agg_pools (aggregate (vd_current db))) then Exists ()
  else if is_pool_retired p (vd_overlay db) then Gone
  else if epoch_reg_get p (agg_pools (aggregate (vd_draining db))) then Exists ()
  else Unknown.
Definition has_withdrawal (c : Credential) (s : VolatileSeries) : bool := bool_decide (c ∈ agg_withdrawals (aggregate s)).
Definition resolve_account {E : Type} (c : Credential) db : exec E (Existence (Bind Delegation DRepDelegation Z) * RewardsAtTip) :=
  let account := chain (indexed_get c (agg_accounts (aggregate (vd_current db)))) (indexed_get c (agg_accounts (aggregate (vd_draining db)))) in
  if has_withdrawal c (vd_current db) then Ok (account, RewardsReset)
  else
    credit ← Overlay.pending_reward_credit c (vd_overlay db);
    Ok (account, if has_withdrawal c (vd_draining db) then RewardsReplace credit else RewardsAdd credit).
Definition db_has_withdrawal (c : Credential) db : bool := has_withdrawal c (vd_current db) || has_withdrawal c (vd_draining db).
Definition resolve_drep (c : Credential) db : Existence (Bind unit unit DRepRegistration) :=
  chain (indexed_get c (agg_dreps (aggregate (vd_current db)))) (indexed_get c (agg_dreps (aggregate (vd_draining db)))).

(** The members that the overlay elects or removes. *)
Definition overlay_cc_members (o : Overlay.StateOverlay) : list (Credential * Existence (Bind Committee.MemberStatus Z unit)) :=
  match u ← Overlay.governance_updates o; GovernanceUpdates.committee_update u with
  | Some (ChangeMembers removed added _) =>
      map (λ cv, (cv.1, Exists (mkBind Unchanged (SetTo cv.2) None))) (map_to_list added) ++ map (λ c, (c, Gone)) (elements removed)
  | Some NoConfidence | None => []
  end.
Definition candidate (ic : ProposalId * Credential) : Credential * Existence (Bind Committee.MemberStatus Z unit) := (ic.2, Exists bind_default).
Definition cc_verdicts db : list (Credential * Existence (Bind Committee.MemberStatus Z unit)) :=
  (indexed_iter (agg_committee (aggregate (vd_current db))) ++ map candidate (resolve_committee_candidates (aggregate (vd_current db)))) ++
  overlay_cc_members (vd_overlay db) ++
  (indexed_iter (agg_committee (aggregate (vd_draining db))) ++
   map candidate (filter (λ ic, has_pruned_proposal ic.1 (vd_overlay db) = false) (resolve_committee_candidates (aggregate (vd_draining db))))).
(** The verdicts of each credential, in the order they come. *)
Definition gather {A : Type} (l : list (Credential * A)) : gmap Credential (list A) :=
  foldl (λ m ca, <[ca.1 := default [] (m !! ca.1) ++ [ca.2]]> m) ∅ l.
Definition resolve_cc_members db : gmap Credential (Existence (Bind Committee.MemberStatus Z unit)) := existence_fold <$> gather (cc_verdicts db).

Definition resolve_proposal (i : ProposalId) db : Existence Stake.ProposalRow :=
  match agg_proposals (aggregate (vd_current db)) !! i with
  | Some p => Exists p
  | None =>
      if has_pruned_proposal i (vd_overlay db) then Gone
      else match agg_proposals (aggregate (vd_draining db)) !! i with Some p => Exists p | None => Unknown end
  end.
Definition resolve_treasury {E : Type} (pots : Pots) db : exec E Z :=
  treasury ← treasury_delta_add (Overlay.treasury_delta (vd_overlay db)) (treasury pots);
  match as_credit treasury with Some n => Ok n | None => Panic end.
Definition resolve_donations {E : Type} db : exec E Z :=
  u64_add (agg_donations (aggregate (vd_current db))) (agg_donations (aggregate (vd_draining db))).

(** ** What the overlay changes *)
(** [VolatileDB::new] *)
Definition VolatileDB_new (epoch : Z) (pp : ProtocolParameters) (dormant : Z) (script : option (list Z)) : VolatileDB :=
  mkVolatileDB series_default series_default (Overlay.new epoch) pp dormant script.
Definition db_epoch db : Z := Overlay.epoch (vd_overlay db).
Definition db_protocol_parameters db : ProtocolParameters :=
  from_option GovernanceUpdates.parameters (vd_parameters db) (Overlay.governance_updates (vd_overlay db)).
Definition db_governance_activity {E : Type} db : exec E Z :=
  if from_option GovernanceUpdates.is_dormant_epoch false (Overlay.governance_updates (vd_overlay db))
  then if vd_dormant_epochs db + 1 <=? Store.u32_max then Ok (vd_dormant_epochs db + 1) else Panic
  else Ok (vd_dormant_epochs db).
Definition db_guardrail_script db : option (list Z) :=
  from_option guardrail_script (vd_guardrail_script db)
    (u ← Overlay.governance_updates (vd_overlay db); GovernanceUpdates.constitution_update u).
Definition db_protocol_parameters_for {E : Type} (epoch : Z) db : exec E (option ProtocolParameters) :=
  if epoch =? db_epoch db then Ok (Some (db_protocol_parameters db))
  else n ← u64_add epoch 1; Ok (if n =? db_epoch db then Some (vd_parameters db) else None).
Definition db_governance_activity_for {E : Type} (epoch : Z) db : exec E (option Z) :=
  if epoch =? db_epoch db then n ← db_governance_activity db; Ok (Some n)
  else n ← u64_add epoch 1; Ok (if n =? db_epoch db then Some (vd_dormant_epochs db) else None).
Definition rewards_not_ready db : bool :=
  match Overlay.overlay_rewards (vd_overlay db) with RewardsState.NotReady => true | _ => false end.

(** ** The view at an epoch boundary *)

(** [IterPools]: the pools of the store with the pending certificates of the volatile
    blocks, and then the pools that these register. *)
Definition Registered : Type := PoolParams * CertificatePointer * Z.
Definition retire (retirements : gmap PoolId Z) (p : PoolId * Pools.Pool) : PoolId * Pools.Pool :=
  (p.1, match retirements !! p.1 with Some epoch => Pools.append (Pools.Retirement epoch) p.2 | None => p.2 end).
Definition patch_pool (d : DiffEpochReg PoolId Registered) (p : PoolId * Pools.Pool) : PoolId * Pools.Pool :=
  let pool := match reg_registered d !! p.1 with
              | Some update => foldl (λ pool x, Pools.append (Pools.Registration x.1.1) pool) p.2 (registrations_iter update)
              | None => p.2
              end in
  retire (reg_unregistered d) (p.1, pool).
Definition new_pool (d : DiffEpochReg PoolId Registered) (p : PoolId * Registrations Registered) : PoolId * Pools.Pool :=
  let '(params, pointer, deposit) := first_registration p.2 in
  let pool := Pools.Pool_new pointer deposit params in
  let pool := match re_registration p.2 with Some x => Pools.append (Pools.Registration x.1.1) pool | None => pool end in
  retire (reg_unregistered d) (p.1, pool).
Definition iter_pools (stable : gmap PoolId Pools.Pool) (d : DiffEpochReg PoolId Registered) : list (PoolId * Pools.Pool) :=
  map (patch_pool d) (map_to_list stable) ++ map (new_pool d) (map_to_list (filter (λ pr, stable !! pr.1 = None) (reg_registered d))).

(** [VolatileView::new], and the iterators. *)
Definition VolatileView_new {E : Type} db (t : Store.Tables) : exec E Overlay.VolatileView :=
  let fragments := map fragment (db_iter db) in
  let accounts := foldl (λ d f, diff_bind_extend d (accounts f)) diff_bind_default fragments in
  let pools := foldl (λ d f, diff_epoch_reg_extend d (pools f)) diff_epoch_reg_default fragments in
  let proposals := foldl (λ m f, proposals f ∪ m) ∅ fragments in
  donations ← resolve_donations db;
  Ok (Overlay.mkVolatileView (iter_pools (Store.db_pools t) pools) (map_to_list (Store.db_proposals t) ++ map_to_list proposals)
    (dom (filter (λ cb, is_Some (value cb.2)) (registered accounts))) (unregistered accounts) donations).

(** ** Facts *)

(** An output is what a walk over all the volatile blocks finds, from the most recent. *)
Lemma walk_back_app {A : Type} (verdict : VolatileFragment → Existence A) l1 l2 : walk_back verdict (l1 ++ l2) = or_else (walk_back verdict l2) (walk_back verdict l1).
Proof.
  unfold walk_back. rewrite foldl_app. generalize (foldl (λ older f, or_else (verdict f) older) Unknown l1). intros v.
  induction l2 as [|f l2 IH] using rev_ind; [done|]. rewrite !foldl_app. cbn. rewrite IH. by destruct (verdict f).
Qed.
Lemma resolve_input_walks i db : volatile_ok db → resolve_input i db = walk_back (λ f, diff_set_get i (utxo f)) (map fragment (db_iter db)).
Proof.
  intros [Hc Hd _]. unfold resolve_input, db_iter. rewrite map_app, walk_back_app.
  by rewrite (resolve_input_walk _ i _ Hc), (resolve_input_walk _ i _ Hd).
Qed.
(** The accounts that the view of an epoch registers and unregisters are those that the
    aggregate of the series says. *)
Lemma view_accounts {E : Type} db t view c : volatile_ok db → sequence (vd_draining db) = [] → Forall (λ x, diff_bind_ok (accounts (fragment x))) (db_iter db) →
  VolatileView_new (E := E) db t = Ok view →
  (c ∈ Overlay.view_registered view ↔ ∃ b, indexed_get c (agg_accounts (aggregate (vd_current db))) = Exists b ∧ is_Some (value b)) ∧
  (indexed_get c (agg_accounts (aggregate (vd_current db))) = Gone → c ∈ Overlay.view_unregistered view).
Proof.
  intros [Hc _ _] Hdr Hok Hv. apply bind_Ok in Hv as (n & _ & [= <-]). cbn. unfold db_iter in *. rewrite Hdr in *. cbn [app] in *.
  assert (Hf : Forall (λ f, diff_bind_ok (accounts f)) (map fragment (sequence (vd_current db)))) by (by apply (Forall_fmap fragment)).
  rewrite (resolve_account_fold _ c _ Hf Hc). unfold diff_bind_fold. rewrite <- (foldl_fmap diff_bind_extend diff_bind_default _ accounts). unfold diff_bind_get.
  set (d := foldl diff_bind_extend _ _). change (foldl diff_bind_extend _ (map accounts _)) with d. split.
  - rewrite elem_of_dom. unfold is_Some at 1. setoid_rewrite map_lookup_filter_Some. cbn. destruct (registered d !! c) as [b|]; [|destruct (decide _); naive_solver]. naive_solver.
  - destruct (registered d !! c); [done|]. by destruct (decide (c ∈ unregistered d)).
Qed.
End Reads.
