(* ===== verification/BlockStore.v ===== *)
(** * A block that becomes stable

    [amaru-stores/src/rocksdb/mod.rs] ([save]), [rocksdb/ledger/columns/] and
    [amaru-ledger/src/state/volatile/fragment.rs] ([into_store_update]): how the changes
    of one block are written to the columns of the store, in one transaction.  The
    database keeps what it is given; rows that the code logs as missing and skips are skipped here. *)

From S2P Require Import Prelude BTreeMap SortedAssoc UplcSyntax ProtocolParameters Governance EraHistory Summary PoolsUpdates StakeSummary Ratification PhaseTwo EpochTransition Headers Fragments FragmentsProps Volatile.
Import Stake(AccountRow, mkAccountRow, arow_pool, arow_deposit, arow_drep, arow_rewards, ProposalRow,
  DRepRow, mkDRepRow, drow_deposit, drow_anchor, drow_registered_at, drow_valid_until).
#[local] Open Scope Z_scope.

(** [set_or_reset], on the new contents of the field. *)
Definition set_or_reset {A : Type} (r : Resettable A) (v : option A) : option A :=
  match r with SetTo a => Some a | Reset => None | Unchanged => v end.

(** ** Columns *)

(** *** Accounts *)
Inductive AccountValue :=
| Create (pool : Resettable Delegation) (drep : Resettable DRepDelegation) (deposit rewards : Z)
| Update (pool : Resettable Delegation) (drep : Resettable DRepDelegation).
Definition add_accounts (cb : Credential * Bind Delegation DRepDelegation Z) : Credential * AccountValue :=
  (cb.1, match value cb.2 with
         | Some deposit => Create (left cb.2) (right cb.2) deposit 0
         | None => Update (left cb.2) (right cb.2)
         end).
Definition accounts_add {E : Type} (st : gmap Credential AccountRow * gmap Credential Z) (cv : Credential * AccountValue)
  : exec E (gmap Credential AccountRow * gmap Credential Z) :=
  match cv.2, st.1 !! cv.1 with
  | Create pool drep deposit rewards, _ =>
      Ok (<[cv.1 := mkAccountRow (set_or_reset pool None) deposit (set_or_reset drep None) rewards]> st.1, delete cv.1 st.2)
  | Update pool drep, Some row =>
      Ok (<[cv.1 := mkAccountRow (set_or_reset pool (arow_pool row)) (arow_deposit row) (set_or_reset drep (arow_drep row)) (arow_rewards row)]> st.1, st.2)
  | Update _ _, None => Panic
  end.
Definition accounts_reset (accounts : gmap Credential AccountRow) (c : Credential) : gmap Credential AccountRow :=
  match accounts !! c with Some row => <[c := Store.add_rewards 0 row]> accounts | None => accounts end.
Definition accounts_remove (epoch : Z) (st : gmap Credential AccountRow * gmap Credential Z) (c : Credential)
  : gmap Credential AccountRow * gmap Credential Z := (delete c st.1, <[c := epoch]> st.2).

(** *** Pools *)
Definition pools_add (pools : gmap PoolId Pools.Pool) (r : PoolParams * CertificatePointer * Z) : gmap PoolId Pools.Pool :=
  let '(params, registered_at, deposit) := r in
  <[Summary.pool_id params := match pools !! Summary.pool_id params with
                      | None => Pools.Pool_new registered_at deposit params
                      | Some pool => Pools.append (Pools.Registration params) pool
                      end]> pools.
Definition pools_remove (pools : gmap PoolId Pools.Pool) (pe : PoolId * Z) : gmap PoolId Pools.Pool :=
  match pools !! pe.1 with Some pool => <[pe.1 := Pools.append (Pools.Retirement pe.2) pool]> pools | None => pools end.

(** *** Representatives *)
Definition dreps_add (valid_until_on_update : Z) (dreps : gmap Credential DRepRow) (cb : Credential * Bind Anchor unit DRepRegistration)
  : gmap Credential DRepRow :=
  let row := match dreps !! cb.1, value cb.2 with
             | Some row, Some r => Some (mkDRepRow (reg_deposit r) (drow_anchor row) (reg_registered_at r) (reg_valid_until r))
             | Some row, None => Some (mkDRepRow (drow_deposit row) (drow_anchor row) (drow_registered_at row) valid_until_on_update)
             | None, Some r => Some (mkDRepRow (reg_deposit r) None (reg_registered_at r) (reg_valid_until r))
             | None, None => None
             end in
  match row with
  | Some row => <[cb.1 := mkDRepRow (drow_deposit row) (set_or_reset (left cb.2) (drow_anchor row)) (drow_registered_at row) (drow_valid_until row)]> dreps
  | None => dreps
  end.
Definition set_valid_until (n : Z) (row : DRepRow) : DRepRow := mkDRepRow (drow_deposit row) (drow_anchor row) (drow_registered_at row) n.
Definition dreps_set_valid_until (valid_until : Z) (dreps : gmap Credential DRepRow) (c : Credential) : gmap Credential DRepRow :=
  match dreps !! c with Some row => <[c := set_valid_until valid_until row]> dreps | None => dreps end.
(** [remove_dreps]: the representatives to remove, unless one has no deregistration. *)
Definition remove_dreps {E : Type} (deregistrations : gmap Credential (option CertificatePointer)) (l : list Credential) (c : Credential)
  : exec E (list Credential) :=
  match deregistrations !! c with Some (Some _) => Ok (l ++ [c]) | Some None => Ok l | None => Panic end.

(** *** Committee, votes *)
Definition cc_members_upsert (members : gmap Credential Committee.Row) (cb : Credential * Bind Committee.MemberStatus Z unit) : gmap Credential Committee.Row :=
  let row := default (Committee.mkRow None None) (members !! cb.1) in
  <[cb.1 := Committee.mkRow (set_or_reset (left cb.2) (Committee.row_status row)) (set_or_reset (right cb.2) (Committee.row_valid_until row))]> members.
Definition drep_voter (v : Voter) : option Credential :=
  match v with
  | DRepKey hash => Some (KeyHash hash)
  | DRepScript hash => Some (ScriptHash hash)
  | ConstitutionalCommitteeKey _ | ConstitutionalCommitteeScript _ | StakePoolKey _ => None
  end.
(** One row per proposal and voter. *)
Definition votes_add (st : gmap ProposalId (list (Voter * Ballot)) * gset Credential) (kb : BallotId * Ballot)
  : gmap ProposalId (list (Voter * Ballot)) * gset Credential :=
  let ballots := default [] (st.1 !! kb.1.1) in
  (<[kb.1.1 := filter (λ vb, vb.1 ≠ kb.1.2) ballots ++ [(kb.1.2, kb.2)]]> st.1,
   from_option (λ c, {[c]} ∪ st.2) st.2 (drep_voter kb.1.2)).

(** ** The whole block *)
Section Save.
Context `{Outputs}.

Record Columns := mkColumns {
  col_tip : Point;
  col_tables : Store.Tables;
  col_utxo : gmap TransactionInput MemoizedTransactionOutput;
  col_dreps : gmap Credential DRepRow }.

(** Representatives that are not expired get the dormant epochs back. *)
Definition flush_dormant {E : Type} (dormant current_epoch : Z) (dreps : gmap Credential DRepRow) (cr : Credential * DRepRow)
  : exec E (gmap Credential DRepRow) :=
  actual_expiry ← u64_add (drow_valid_until cr.2) dormant;
  Ok (if current_epoch <=? actual_expiry then <[cr.1 := set_valid_until actual_expiry cr.2]> dreps else dreps).

Definition is_stale (p tip : Point) : bool :=
  match p, tip with Specific new _ _, Specific current _ _ => new <=? current | _, _ => false end.

Definition save (incremental_save : bool) (h : EraHistory) (pp : ProtocolParameters) (governance_activity : option Z) (x : AnchoredVolatileFragment)
    (c : Columns) : exec Overlay.StateError Columns :=
  if is_stale (anchor_point x) (col_tip c) && negb incremental_save then Ok c
  else
    let f := fragment x in
    let slot := point_slot (anchor_point x) in
    let t := col_tables c in
    current_epoch ← (match slot_to_epoch h slot slot with Ok e => Ok e | Err _ => Err Overlay.Storage | Panic => Panic | OutOfFuel => OutOfFuel end);
    let issuers := <[slot := anchor_issuer x]> (Store.block_issuers t) in
    expiry ← u64_add current_epoch (drep_expiry pp);
    drep_validity ← Epoch_sub expiry (default 0 governance_activity);
    let utxos := foldl (λ m io, <[io.1 := io.2]> m) (col_utxo c) (map_to_list (produced (utxo f))) in
    let db_pools := foldl pools_add (Store.db_pools t) (flat_map (λ pr, registrations_iter pr.2) (map_to_list (reg_registered (pools f)))) in
    let db_dreps := foldl (dreps_add drep_validity) (col_dreps c) (map_to_list (registered (dreps f))) in
    let members := foldl cc_members_upsert (Store.cc_members t) (map_to_list (registered (committee f))) in
    st ← for_in (map add_accounts (map_to_list (registered (accounts f)))) accounts_add (Store.db_accounts t, Store.recently_unregistered t);
    let db_proposals := foldl (λ m ip, <[ip.1 := ip.2]> m) (Store.db_proposals t) (map_to_list (proposals f)) in
    let proposals_count := size (proposals f) in
    let '(db_votes, voting_dreps) := foldl votes_add (Store.db_votes t, ∅) (map_to_list (produced (votes f))) in
    let db_dreps := if decide (voting_dreps ≠ ∅) then if incremental_save then db_dreps else foldl (dreps_set_valid_until drep_validity) db_dreps (elements voting_dreps)
                    else db_dreps in
    let '(db_accounts, unregistered_accounts) := (st : gmap Credential AccountRow * gmap Credential Z) in
    let db_accounts := foldl accounts_reset db_accounts (elements (withdrawals f)) in
    let utxos := foldl (λ m i, delete i m) utxos (elements (consumed (utxo f))) in
    let db_pools := foldl pools_remove db_pools (map_to_list (reg_unregistered (pools f))) in
    let '(db_accounts, unregistered_accounts) := foldl (accounts_remove current_epoch) (db_accounts, unregistered_accounts) (elements (unregistered (accounts f))) in
    removed ← for_in (elements (unregistered (dreps f))) (remove_dreps (dreps_deregistrations f)) [];
    let db_dreps := foldl (λ m c, delete c m) db_dreps removed in
    let t := Store.set_registry unregistered_accounts issuers (Store.set_accounts db_accounts (Store.set_pools db_pools
               (Store.set_proposals db_proposals db_votes (Store.set_cc members (Store.cc_status t) t)))) in
    match governance_activity with
    | None => Ok (mkColumns (anchor_point x) t utxos db_dreps)
    | Some dormant =>
        let reactivating := (0 <? dormant) && (0 <? proposals_count)%nat && negb incremental_save in
        db_dreps ← (if reactivating then for_in (map_to_list db_dreps) (flush_dormant dormant current_epoch) db_dreps else Ok db_dreps);
        let dormant := if reactivating then 0 else dormant in
        Ok (mkColumns (anchor_point x) (if reactivating || incremental_save then Store.set_dormant dormant t else t) utxos db_dreps)
    end.
End Save.
