(* ===== verification/BlockContext.v ===== *)
(** * The context of a block

    [amaru-ledger/src/context/default/preparation.rs] and [validation.rs]: what a block
    is validated against.  The context is filled with what the volatile blocks
    and the store say of the keys that the block names, and collects the changes of the
    block in a fragment, which its own lookups see at once.

    Rows of the store stand for the records of the context that have the same fields;
    a proposal is kept whole, where the code keeps its kind and its expiry.  Failures of
    the database are not part of the model.  The accumulators of witnesses, scripts and balances are in [RulesContext]. *)

From S2P Require Import Prelude BTreeMap SortedAssoc UplcSyntax ProtocolParameters Governance EraHistory Summary ProposalsForest PoolsUpdates StakeSummary Ratification PhaseTwo EpochTransition Headers Fragments FragmentsProps Volatile VolatileReads BlockStore.
Import Stake(AccountRow, mkAccountRow, arow_pool, arow_deposit, arow_drep, arow_rewards, ProposalRow,
  DRepRow, mkDRepRow, drow_deposit, drow_anchor, drow_registered_at, drow_valid_until).
#[local] Open Scope Z_scope.

Inductive UnresolvedInputPolicy := Defer | Reject.
Inductive ContextHydratationError := UnknownInput (i : TransactionInput).
Inductive UnregisterError (K : Type) := UnknownEntity (k : K).
Arguments UnknownEntity {K} k.
Inductive DelegateError (S T : Type) := UnknownSource (s : S) | UnknownTarget (t : T) | AlreadyResigned.
Arguments UnknownSource {S T} s.
Arguments UnknownTarget {S T} t.
Arguments AlreadyResigned {S T}.

Section Context.
Context `{Outputs}.

(** ** What the block needs *)
Record PreparationContext := mkPreparation {
  need_utxo : gset TransactionInput;
  need_pools : gset PoolId;
  need_accounts : gset Credential;
  need_dreps : gset Credential;
  need_drep_delegations : list DRep;
  need_committee : gset Credential;
  need_committee_voters : gset Credential;
  need_proposals : gset ProposalId }.

(** *** Inputs *)
Definition input_at_tip (db : VolatileDB) (c : Columns) (i : TransactionInput) : option MemoizedTransactionOutput :=
  match resolve_input i db with Gone => None | Exists output => Some output | Unknown => col_utxo c !! i end.
Definition hydrate_input (db : VolatileDB) (c : Columns) (policy : UnresolvedInputPolicy) (acc : gmap TransactionInput MemoizedTransactionOutput)
    (i : TransactionInput) : exec ContextHydratationError (gmap TransactionInput MemoizedTransactionOutput) :=
  match input_at_tip db c i, policy with
  | None, Defer => Ok acc
  | None, Reject => Err (UnknownInput i)
  | Some output, _ => Ok (<[i := output]> acc)
  end.
Definition resolve_inputs (db : VolatileDB) (c : Columns) (policy : UnresolvedInputPolicy) (keys : list TransactionInput) :=
  for_in keys (hydrate_input db c policy) ∅.

(** *** Pools *)
Definition pool_at_tip (db : VolatileDB) (c : Columns) (p : PoolId) : bool :=
  match resolve_pool p db with Gone => false | Exists _ => true | Unknown => is_some (Store.db_pools (col_tables c) !! p) end.
Definition resolve_pools (db : VolatileDB) (c : Columns) (keys : list PoolId) : gset PoolId :=
  foldl (λ pools p, if pool_at_tip db c p then {[p]} ∪ pools else pools) ∅ keys.

(** *** Accounts *)
Definition account_at_tip {E : Type} (db : VolatileDB) (c : Columns) (k : Credential) : exec E (option AccountRow) :=
  r ← resolve_account k db;
  match (r : Existence (Bind Delegation DRepDelegation Z) * RewardsAtTip).1 with
  | Gone => Ok None
  | Exists b =>
      match value b with
      | Some deposit => rewards ← into_balance 0 r.2; Ok (Some (mkAccountRow (set_or_reset (left b) None) deposit (set_or_reset (right b) None) rewards))
      | None =>
          match Store.db_accounts (col_tables c) !! k with
          | Some row =>
              rewards ← into_balance (arow_rewards row) r.2;
              Ok (Some (mkAccountRow (set_or_reset (left b) (arow_pool row)) (arow_deposit row) (set_or_reset (right b) (arow_drep row)) rewards))
          | None => Ok None
          end
      end
  | Unknown =>
      match Store.db_accounts (col_tables c) !! k with
      | Some row => rewards ← into_balance (arow_rewards row) r.2; Ok (Some (mkAccountRow (arow_pool row) (arow_deposit row) (arow_drep row) rewards))
      | None => Ok None
      end
  end.
Definition hydrate_account {E : Type} (db : VolatileDB) (c : Columns) (accounts : gmap Credential AccountRow) (k : Credential)
  : exec E (gmap Credential AccountRow) :=
  row ← account_at_tip db c k; Ok (match row with Some row => <[k := row]> accounts | None => accounts end).
Definition resolve_accounts {E : Type} (db : VolatileDB) (c : Columns) (keys : list Credential) : exec E (gmap Credential AccountRow) :=
  for_in keys (hydrate_account db c) ∅.

(** *** Representatives *)
Definition drep_at_tip (db : VolatileDB) (c : Columns) (k : Credential) : option DRepRegistration :=
  let stored := (λ row, mkDRepRegistration (drow_deposit row) (drow_registered_at row) (drow_valid_until row)) <$> col_dreps c !! k in
  match resolve_drep k db with
  | Gone => None
  | Exists b => match value b with Some registration => Some registration | None => stored end
  | Unknown => stored
  end.
Definition resolve_dreps (db : VolatileDB) (c : Columns) (keys : list Credential) : gmap Credential DRepRegistration :=
  foldl (λ dreps k, match drep_at_tip db c k with Some r => <[k := r]> dreps | None => dreps end) ∅ keys.
(** [to_stake_credential] *)
Definition drep_credential (d : DRep) : option Credential :=
  match d with DRep_Key h => Some (KeyHash h) | DRep_Script h => Some (ScriptHash h) | DRep_Abstain | DRep_NoConfidence => None end.

(** *** Committee *)
Definition for_votes (hot_credentials : gset Credential) (status : option Committee.MemberStatus) : bool :=
  match status with Some (Committee.DelegatedToHotCredential hot) => bool_decide (hot ∈ hot_credentials) | _ => false end.
Definition hydrate_member (cold hot : gset Credential)
    (st : gmap Credential Committee.Row * gmap Credential (Existence (Bind Committee.MemberStatus Z unit))) (kr : Credential * Committee.Row)
  : gmap Credential Committee.Row * gmap Credential (Existence (Bind Committee.MemberStatus Z unit)) :=
  let '(members, volatile) := st in
  let '(k, row) := kr in
  let member := match volatile !! k with
                | Some Unknown | None => Some row
                | Some (Exists b) => Some (Committee.mkRow (set_or_reset (left b) (Committee.row_status row)) (set_or_reset (right b) (Committee.row_valid_until row)))
                | Some Gone => None
                end in
  (match member with
   | Some m => if bool_decide (k ∈ cold) || for_votes hot (Committee.row_status m) then <[k := m]> members else members
   | None => members
   end, delete k volatile).
Definition remaining_member (members : gmap Credential Committee.Row) (ke : Credential * Existence (Bind Committee.MemberStatus Z unit))
  : gmap Credential Committee.Row :=
  match ke.2 with
  | Exists b => <[ke.1 := Committee.mkRow (set_or_reset (left b) None) (set_or_reset (right b) None)]> members
  | Gone | Unknown => members
  end.
Definition candidate_members (db : VolatileDB) (candidates : gset Credential) (members : gmap Credential Committee.Row) (ip : ProposalId * ProposalRow)
  : gmap Credential Committee.Row :=
  match resolve_proposal ip.1 db with
  | Gone => members
  | _ =>
      match Stake.gov_action (Stake.row_proposal ip.2) with
      | UpdateCommittee _ _ added _ =>
          foldl (λ members a, if decide (a.1 ∈ candidates) then <[a.1 := default (Committee.mkRow None None) (members !! a.1)]> members else members) members added
      | _ => members
      end
  end.
Definition resolve_committee (db : VolatileDB) (c : Columns) (cold hot : gset Credential) : gmap Credential Committee.Row :=
  if decide (cold = ∅ ∧ hot = ∅) then ∅
  else
    let '(members, volatile) := foldl (hydrate_member cold hot) (∅, resolve_cc_members db) (map_to_list (Store.cc_members (col_tables c))) in
    let members := foldl remaining_member members (map_to_list volatile) in
    let candidates := filter (λ k, members !! k = None) cold in
    foldl (candidate_members db candidates) members (map_to_list (Store.db_proposals (col_tables c))).

(** *** Proposals *)
Definition proposal_at_tip (db : VolatileDB) (c : Columns) (i : ProposalId) : option ProposalRow :=
  match resolve_proposal i db with Gone => None | Exists p => Some p | Unknown => Store.db_proposals (col_tables c) !! i end.
Definition resolve_proposals (db : VolatileDB) (c : Columns) (keys : list ProposalId) : gmap ProposalId ProposalRow :=
  foldl (λ m i, match proposal_at_tip db c i with Some p => <[i := p]> m | None => m end) ∅ keys.

(** ** The context *)
Record ValidationContext := mkContext {
  ctx_utxo : gmap TransactionInput MemoizedTransactionOutput;
  ctx_pools : gset PoolId;
  ctx_accounts : gmap Credential AccountRow;
  ctx_dreps : gmap Credential DRepRegistration;
  ctx_committee : gmap Credential Committee.Row;
  ctx_proposals : gmap ProposalId ProposalRow;
  ctx_roots : Forest.ProposalsRoots;
  ctx_treasury : Z;
  ctx_state : VolatileFragment }.
Definition into_validation_context (policy : UnresolvedInputPolicy) (roots : Forest.ProposalsRoots) (db : VolatileDB) (c : Columns) (need : PreparationContext)
  : exec ContextHydratationError ValidationContext :=
  treasury ← resolve_treasury (Store.db_pots (col_tables c)) db;
  utxos ← resolve_inputs db c policy (elements (need_utxo need));
  accounts ← resolve_accounts db c (elements (need_accounts need));
  Ok (mkContext utxos (resolve_pools db c (elements (need_pools need))) accounts
        (resolve_dreps db c (elements (need_dreps need) ++ omap drep_credential (need_drep_delegations need)))
        (resolve_committee db c (need_committee need) (need_committee_voters need)) (resolve_proposals db c (elements (need_proposals need)))
        roots treasury fragment_default).

(** *** The parts of a fragment *)
Definition set_utxo x (f : VolatileFragment) : VolatileFragment :=
  mkFragment x (pools f) (accounts f) (dreps f) (dreps_deregistrations f) (committee f) (withdrawals f) (proposals f) (votes f) (fees f) (donations f).
Definition set_fragment_pools x (f : VolatileFragment) : VolatileFragment :=
  mkFragment (utxo f) x (accounts f) (dreps f) (dreps_deregistrations f) (committee f) (withdrawals f) (proposals f) (votes f) (fees f) (donations f).
Definition set_fragment_accounts x y (f : VolatileFragment) : VolatileFragment :=
  mkFragment (utxo f) (pools f) x (dreps f) (dreps_deregistrations f) (committee f) y (proposals f) (votes f) (fees f) (donations f).
Definition set_dreps x y (f : VolatileFragment) : VolatileFragment :=
  mkFragment (utxo f) (pools f) (accounts f) x y (committee f) (withdrawals f) (proposals f) (votes f) (fees f) (donations f).
Definition set_committee x (f : VolatileFragment) : VolatileFragment :=
  mkFragment (utxo f) (pools f) (accounts f) (dreps f) (dreps_deregistrations f) x (withdrawals f) (proposals f) (votes f) (fees f) (donations f).
Definition set_fragment_proposals x y (f : VolatileFragment) : VolatileFragment :=
  mkFragment (utxo f) (pools f) (accounts f) (dreps f) (dreps_deregistrations f) (committee f) (withdrawals f) x y (fees f) (donations f).
Definition set_fragment_pots x y (f : VolatileFragment) : VolatileFragment :=
  mkFragment (utxo f) (pools f) (accounts f) (dreps f) (dreps_deregistrations f) (committee f) (withdrawals f) (proposals f) (votes f) x y.
Definition with_state (f : VolatileFragment → VolatileFragment) (x : ValidationContext) : ValidationContext :=
  mkContext (ctx_utxo x) (ctx_pools x) (ctx_accounts x) (ctx_dreps x) (ctx_committee x) (ctx_proposals x) (ctx_roots x) (ctx_treasury x) (f (ctx_state x)).

(** *** Pots *)
Definition add_fees {E : Type} (n : Z) (x : ValidationContext) : exec E ValidationContext :=
  n ← u64_add (fees (ctx_state x)) n; Ok (with_state (λ f, set_fragment_pots n (donations f) f) x).
Definition add_donation {E : Type} (n : Z) (x : ValidationContext) : exec E ValidationContext :=
  n ← u64_add (donations (ctx_state x)) n; Ok (with_state (λ f, set_fragment_pots (fees f) n f) x).

(** *** Outputs *)
Definition utxo_lookup (i : TransactionInput) (x : ValidationContext) : option MemoizedTransactionOutput :=
  match ctx_utxo x !! i with Some o => Some o | None => produced (utxo (ctx_state x)) !! i end.
Definition ctx_consume (i : TransactionInput) (x : ValidationContext) : ValidationContext :=
  with_state (λ f, set_utxo (consume i (utxo f)) f)
    (mkContext (delete i (ctx_utxo x)) (ctx_pools x) (ctx_accounts x) (ctx_dreps x) (ctx_committee x) (ctx_proposals x) (ctx_roots x) (ctx_treasury x) (ctx_state x)).
Definition ctx_produce (i : TransactionInput) (o : MemoizedTransactionOutput) (x : ValidationContext) : ValidationContext :=
  with_state (λ f, set_utxo (produce i o (utxo f)) f) x.

(** *** Pools *)
Definition pool_exists (p : PoolId) (x : ValidationContext) : bool :=
  bool_decide (p ∈ ctx_pools x) || is_some (reg_registered (pools (ctx_state x)) !! p).
Definition pool_register (params : PoolParams) (pointer : CertificatePointer) (deposit : Z) (x : ValidationContext) : ValidationContext :=
  with_state (λ f, set_fragment_pools (reg_register (Summary.pool_id params) (params, pointer, deposit) (pools f)) f) x.
Definition pool_retire (p : PoolId) (epoch : Z) (x : ValidationContext) : exec (UnregisterError PoolId) ValidationContext :=
  if negb (pool_exists p x) then Err (UnknownEntity p) else Ok (with_state (λ f, set_fragment_pools (reg_unregister p epoch (pools f)) f) x).

(** *** Accounts *)
Definition account_lookup (k : Credential) (x : ValidationContext) : option AccountRow :=
  let state := ctx_state x in
  if decide (k ∈ unregistered (accounts state)) then None
  else
    let account := match registered (accounts state) !! k with
                   | Some b =>
                       match value b with
                       | Some deposit => Some (mkAccountRow (set_or_reset (left b) None) deposit (set_or_reset (right b) None) 0)
                       | None => (λ base, mkAccountRow (set_or_reset (left b) (arow_pool base)) (arow_deposit base)
                                            (set_or_reset (right b) (arow_drep base)) (arow_rewards base)) <$> ctx_accounts x !! k
                       end
                   | None => ctx_accounts x !! k
                   end in
    if decide (k ∈ withdrawals state) then Store.add_rewards 0 <$> account else account.
Definition with_accounts (d : DiffBind Credential Delegation DRepDelegation Z) (x : ValidationContext) : ValidationContext :=
  with_state (λ f, set_fragment_accounts d (withdrawals f) f) x.
Definition account_register (k : Credential) (row : AccountRow) (x : ValidationContext) : exec (RegisterError Credential) ValidationContext :=
  match account_lookup k x with
  | Some _ => Err (AlreadyRegistered k)
  | None => d ← register k (arow_deposit row) (arow_pool row) (arow_drep row) (accounts (ctx_state x)); Ok (with_accounts d x)
  end.
(** A [BindError] in the operation of a delegation. *)
Definition unknown_source {K T : Type} (e : BindError K) : DelegateError K T := match e with AlreadyUnregistered k => UnknownSource k end.
Definition delegate_pool (k : Credential) (p : PoolId) (pointer : CertificatePointer) (x : ValidationContext) : exec (DelegateError Credential PoolId) ValidationContext :=
  match account_lookup k x with
  | None => Err (UnknownSource k)
  | Some _ =>
      if negb (pool_exists p x) then Err (UnknownTarget p)
      else d ← map_err unknown_source (bind_left k (Some (p, pointer)) (accounts (ctx_state x))); Ok (with_accounts d x)
  end.
Definition drep_lookup (k : Credential) (x : ValidationContext) : option DRepRegistration :=
  match registered (dreps (ctx_state x)) !! k with
  | Some b => match value b with Some r => Some r | None => ctx_dreps x !! k end
  | None => if decide (k ∈ unregistered (dreps (ctx_state x))) then None else ctx_dreps x !! k
  end.
Definition delegate_vote (k : Credential) (d : DRep) (pointer : CertificatePointer) (x : ValidationContext) : exec (DelegateError Credential DRep) ValidationContext :=
  match account_lookup k x with
  | None => Err (UnknownSource k)
  | Some _ =>
      if from_option (λ c, negb (is_some (drep_lookup c x))) false (drep_credential d) then Err (UnknownTarget d)
      else a ← map_err unknown_source (bind_right k (Some (d, pointer)) (accounts (ctx_state x))); Ok (with_accounts a x)
  end.
Definition account_unregister (k : Credential) (x : ValidationContext) : exec (UnregisterError Credential) (AccountRow * ValidationContext) :=
  match account_lookup k x with
  | None => Err (UnknownEntity k)
  | Some row => Ok (row, with_accounts (unregister k (accounts (ctx_state x))) x)
  end.
Definition withdraw_from (k : Credential) (x : ValidationContext) : ValidationContext :=
  with_state (λ f, set_fragment_accounts (accounts f) ({[k]} ∪ withdrawals f) f) x.

(** *** Representatives *)
Definition drep_register (k : Credential) (r : DRepRegistration) (anchor : option Anchor) (x : ValidationContext) : exec (RegisterError Credential) ValidationContext :=
  match drep_lookup k x with
  | Some _ => Err (AlreadyRegistered k)
  | None => d ← register k r anchor None (dreps (ctx_state x)); Ok (with_state (λ f, set_dreps d (dreps_deregistrations f) f) x)
  end.
Definition drep_update (k : Credential) (anchor : option Anchor) (x : ValidationContext) : exec (DelegateError Credential unit) ValidationContext :=
  match drep_lookup k x with
  | None => Err (UnknownSource k)
  | Some _ => d ← map_err unknown_source (bind_left k anchor (dreps (ctx_state x))); Ok (with_state (λ f, set_dreps d (dreps_deregistrations f) f) x)
  end.
Definition drep_unregister (k : Credential) (pointer : CertificatePointer) (x : ValidationContext) : exec (UnregisterError Credential) (DRepRegistration * ValidationContext) :=
  match drep_lookup k x with
  | None => Err (UnknownEntity k)
  | Some r =>
      let removal := if ctx_dreps x !! k is Some _ then Some pointer else None in
      Ok (r, with_state (λ f, set_dreps (unregister k (dreps f)) (<[k := removal]> (dreps_deregistrations f)) f) x)
  end.

(** *** Committee *)
Definition lookup_by_cold_credential (k : Credential) (x : ValidationContext) : option Committee.Row :=
  match diff_bind_get k (committee (ctx_state x)) with
  | Gone => None
  | Exists b =>
      let old := ctx_committee x !! k in
      Some (Committee.mkRow (set_or_reset (left b) (m ← old; Committee.row_status m)) (set_or_reset (right b) (m ← old; Committee.row_valid_until m)))
  | Unknown => ctx_committee x !! k
  end.
Definition lookup_by_hot_credential (hot : Credential) (x : ValidationContext) : list Committee.Row :=
  omap (λ k, m ← lookup_by_cold_credential k x;
             match Committee.row_status m with
             | Some (Committee.DelegatedToHotCredential c) => if decide (c = hot) then Some m else None
             | _ => None
             end)
    (elements (dom (ctx_committee x)) ++ elements (dom (registered (committee (ctx_state x))) ∖ dom (ctx_committee x))).
Definition bind_member (k : Credential) (status : Committee.MemberStatus) (x : ValidationContext) : exec (DelegateError Credential Credential) ValidationContext :=
  match lookup_by_cold_credential k x with
  | None => Err (UnknownSource k)
  | Some m =>
      match Committee.row_status m with
      | Some Committee.Resigned => Err AlreadyResigned
      | _ => d ← map_err unknown_source (bind_left k (Some status) (committee (ctx_state x))); Ok (with_state (set_committee d) x)
      end
  end.
Definition delegate_cold_key (k delegate : Credential) := bind_member k (Committee.DelegatedToHotCredential delegate).
Definition resign (k : Credential) := bind_member k Committee.Resigned.

(** *** Proposals *)
Definition proposal_lookup (i : ProposalId) (x : ValidationContext) : option ProposalRow :=
  match ctx_proposals x !! i with Some p => Some p | None => proposals (ctx_state x) !! i end.
Definition acknowledge (i : ProposalId) (p : ProposalRow) (x : ValidationContext) : ValidationContext :=
  let seat members k := match diff_bind_get k (committee (ctx_state x)) with
                        | Exists _ => members
                        | _ => <[k := default (Committee.mkRow None None) (members !! k)]> members
                        end in
  let members := match Stake.gov_action (Stake.row_proposal p) with
                 | UpdateCommittee _ _ added _ => foldl seat (ctx_committee x) (map fst added)
                 | _ => ctx_committee x
                 end in
  with_state (λ f, set_fragment_proposals (<[i := p]> (proposals f)) (votes f) f)
    (mkContext (ctx_utxo x) (ctx_pools x) (ctx_accounts x) (ctx_dreps x) members (ctx_proposals x) (ctx_roots x) (ctx_treasury x) (ctx_state x)).
Definition ctx_vote (i : ProposalId) (v : Voter) (b : Ballot) (x : ValidationContext) : ValidationContext :=
  with_state (λ f, set_fragment_proposals (proposals f) (produce (i, v) b (votes f)) f) x.
End Context.
