(* ===== verification/LayeredView.v ===== *)
(** * The layers of the ledger agree

    A block is validated against three layers: the store, the volatile blocks of two
    epochs around the overlay, and the block itself.  The reference is the store with the
    changes of the volatile blocks replayed on it one after the other: what the layers
    say together of an output, an account or a proposal is what the replay says, and so
    a block that goes from the volatile database to the store changes no answer. *)

From S2P Require Import Prelude BTreeMap SortedAssoc UplcSyntax ProtocolParameters Governance EraHistory Summary ProposalsForest PoolsUpdates StakeSummary Ratification PhaseTwo EpochTransition Headers Fragments FragmentsProps Volatile VolatileReads BlockStore BlockContext.
Import Stake(AccountRow, mkAccountRow, arow_pool, arow_deposit, arow_drep, arow_rewards, ProposalRow,
  DRepRow, mkDRepRow, drow_deposit, drow_anchor, drow_registered_at, drow_valid_until).
#[local] Open Scope Z_scope.

Section Layers.
Context `{Outputs}.
Implicit Types (k : Credential) (row : option AccountRow) (f : VolatileFragment) (l : list VolatileFragment).

(** ** Replaying blocks *)
Definition patch_row (b : Bind Delegation DRepDelegation Z) (r : AccountRow) : AccountRow :=
  mkAccountRow (set_or_reset (left b) (arow_pool r)) (arow_deposit r) (set_or_reset (right b) (arow_drep r)) (arow_rewards r).
Definition bind_row (e : Existence (Bind Delegation DRepDelegation Z)) row : option AccountRow :=
  match e with
  | Gone => None
  | Exists b => match value b with
                | Some deposit => Some (mkAccountRow (set_or_reset (left b) None) deposit (set_or_reset (right b) None) 0)
                | None => patch_row b <$> row
                end
  | Unknown => row
  end.
Definition withdraw (yes : bool) row : option AccountRow := if yes then Store.add_rewards 0 <$> row else row.
Definition account_after k row f : option AccountRow := withdraw (bool_decide (k ∈ withdrawals f)) (bind_row (diff_bind_get k (accounts f)) row).
Definition replay_account k row l : option AccountRow := foldl (account_after k) row l.
Definition input_after (i : TransactionInput) (o : option MemoizedTransactionOutput) f : option MemoizedTransactionOutput :=
  match diff_set_get i (utxo f) with Exists x => Some x | Gone => None | Unknown => o end.

(** Delegations are those of accounts that exist. *)
Definition account_fits k row f : Prop := ∀ b, diff_bind_get k (accounts f) = Exists b → value b = None → is_Some row.
Fixpoint fits k row l : Prop := match l with [] => True | f :: l => account_fits k row f ∧ fits k (account_after k row f) l end.
Lemma fits_app k row l1 l2 : fits k row (l1 ++ l2) ↔ fits k row l1 ∧ fits k (replay_account k row l1) l2.
Proof. revert row. induction l1 as [|f l1 IH]; intros row; cbn; [naive_solver|]. rewrite IH. unfold replay_account. cbn. tauto. Qed.

(** *** A series at once *)
Lemma patch_newest b1 b2 r : patch_row b2 (patch_row b1 r) = patch_row (mkBind (newest (left b1) (left b2)) (newest (right b1) (right b2)) None) r.
Proof. unfold patch_row. cbn. f_equal; [by destruct (left b2)|by destruct (right b2)]. Qed.
Lemma bind_row_on_top older v row : (∀ b, v = Exists b → value b = None → is_Some (bind_row older row)) →
  bind_row (on_top older v) row = bind_row v (bind_row older row).
Proof.
  intros Hfit. destruct v as [b| |]; [|done|done]. cbn [on_top]. destruct older as [o| |]; [| |done].
  - cbn [bind_row]. unfold and_then. destruct (value b) as [d|] eqn:Hb; [by rewrite Hb|]. cbn [value left right].
    destruct (value o) as [d|] eqn:Ho; cbn; [|destruct row as [r|]; cbn; [|done]; f_equal; symmetry; apply (patch_newest o b)].
    unfold patch_row. cbn. do 2 f_equal; [by destruct (left b)|by destruct (right b)].
  - cbn [bind_row] in *. destruct (value b) as [d|] eqn:Hb; [done|]. by destruct (Hfit b eq_refl Hb).
Qed.
Lemma withdraw_withdraw y1 y2 e row : withdraw y2 (bind_row e (withdraw y1 row)) = withdraw (y1 || y2) (bind_row e row).
Proof. destruct y1, y2, e as [b| |], row as [r|]; cbn; try destruct (value b); cbn; unfold Store.add_rewards, patch_row; done. Qed.

Definition verdicts k l : Existence (Bind Delegation DRepDelegation Z) := foldl on_top Unknown (map (λ f, diff_bind_get k (accounts f)) l).
Definition withdrawn k l : bool := existsb (λ f, bool_decide (k ∈ withdrawals f)) l.
Lemma withdraw_is_Some y row : is_Some (withdraw y row) ↔ is_Some row.
Proof. destruct y, row; cbn; unfold is_Some; naive_solver. Qed.
Lemma replay_at_once k row l : fits k row l → replay_account k row l = withdraw (withdrawn k l) (bind_row (verdicts k l) row).
Proof.
  induction l as [|f l IH] using rev_ind; [done|]. intros [Hl Hf]%fits_app. specialize (IH Hl). unfold replay_account. rewrite foldl_app. cbn [foldl].
  fold (replay_account k row l). rewrite IH in Hf |- *. unfold account_after, verdicts, withdrawn. rewrite map_app, foldl_app, existsb_app. cbn [map foldl existsb].
  rewrite orb_false_r, withdraw_withdraw. fold (verdicts k l). rewrite bind_row_on_top; [done|]. intros b Hb Hv. destruct Hf as [Hf _].
  by apply (withdraw_is_Some (withdrawn k l)), (Hf b).
Qed.

(** ** What the layers say *)
Lemma chain_on_top {L R V : Type} (newer older : Existence (Bind L R V)) : chain newer older = on_top older newer.
Proof. by destruct newer as [[l r [v|]]| |], older as [[lo ro [vo|]]| |]. Qed.
Lemma series_verdicts k s : series_ok s → Forall (λ x, diff_bind_ok (accounts (fragment x))) (sequence s) →
  indexed_get k (agg_accounts (aggregate s)) = verdicts k (map fragment (sequence s)).
Proof.
  intros Hs Hok. assert (Forall (λ f, diff_bind_ok (accounts f)) (map fragment (sequence s))) as Hf by (by apply (Forall_fmap fragment)).
  rewrite (resolve_account_fold _ k _ Hf Hs), get_bind_fold by (by apply (Forall_fmap accounts)). unfold verdicts. by rewrite map_map.
Qed.
Lemma series_withdrawn k s : series_ok s → has_withdrawal k s = withdrawn k (map fragment (sequence s)).
Proof.
  intros (Hs & _)%aggregate_from_inv. unfold has_withdrawal. rewrite Hs. cbn. rewrite (right_id_L ∅ (∪)). unfold withdrawn. clear Hs.
  induction (map fragment (sequence s)) as [|f l IH]; cbn; [by rewrite bool_decide_eq_false_2|]. rewrite <- IH.
  destruct (decide (k ∈ withdrawals f)); [by rewrite !bool_decide_eq_true_2 by set_solver|]. rewrite (bool_decide_eq_false_2 (k ∈ withdrawals f)) by done.
  cbn. apply bool_decide_ext. set_solver.
Qed.
Definition credit (n : Z) (r : AccountRow) : AccountRow := Store.add_rewards (arow_rewards r + n) r.
Definition fragments (s : VolatileSeries) : list VolatileFragment := map fragment (sequence s).
Definition stored_account (c : Columns) k : option AccountRow := Store.db_accounts (col_tables c) !! k.

(** The account at the tip: the blocks of the closing epoch, the credit of the boundary and the blocks of the current epoch, in this order. *)
Definition account_replayed (n : Z) (db : VolatileDB) (c : Columns) k : option AccountRow :=
  replay_account k (credit n <$> replay_account k (stored_account c k) (fragments (vd_draining db))) (fragments (vd_current db)).
Record account_sound (n : Z) (db : VolatileDB) (c : Columns) k : Prop := {
  as_series : series_ok (vd_current db) ∧ series_ok (vd_draining db);
  as_binds : Forall (λ x, diff_bind_ok (accounts (fragment x))) (sequence (vd_draining db) ++ sequence (vd_current db));
  as_draining : fits k (stored_account c k) (fragments (vd_draining db));
  as_current : fits k (credit n <$> replay_account k (stored_account c k) (fragments (vd_draining db))) (fragments (vd_current db));
  as_credit : Overlay.pending_reward_credit (E := Overlay.StateError) k (vd_overlay db) = Ok n ∧ 0 <= n <= u64_max;
  as_fresh : ∀ b d, verdicts k (fragments (vd_current db)) = Exists b → value b = Some d → withdrawn k (fragments (vd_current db)) = true ∨ n = 0;
  as_balance : ∀ r, stored_account c k = Some r → 0 <= arow_rewards r ∧ arow_rewards r + n <= u64_max }.

Lemma fits_base k row l b : fits k row l → verdicts k l = Exists b → value b = None → is_Some row.
Proof.
  revert b. induction l as [|f l IH] using rev_ind; [done|]. intros b [Hl [Hf _]]%fits_app. rewrite replay_at_once in Hf by done. unfold verdicts. rewrite map_app, foldl_app.
  cbn [map foldl]. fold (verdicts k l). unfold account_fits in Hf. destruct (diff_bind_get k (accounts f)) as [b'| |]; [|done|by intros; eapply IH].
  specialize (Hf b' eq_refl). destruct (verdicts k l) as [o| |] eqn:Hv; intros [= <-].
  - unfold and_then. destruct (value b') eqn:Hb'; [congruence|]. cbn. by apply IH.
  - intros Hb. specialize (Hf Hb). rewrite withdraw_is_Some in Hf. by destruct Hf.
  - intros Hb. specialize (Hf Hb). by rewrite withdraw_is_Some in Hf.
Qed.
Lemma is_Some_credit n row : is_Some (credit n <$> row) ↔ is_Some row.
Proof. apply fmap_is_Some. Qed.

(** The balance that the volatile database computes from a base. *)
Definition balance_at_tip (n : Z) (current draining : bool) (base : Z) : Z := if current then 0 else if draining then n else base + n.
Lemma into_balance_at_tip {E : Type} n (wc wd : bool) base : 0 <= base → base + n <= u64_max →
  into_balance (E := E) base (if wc then RewardsReset else if wd then RewardsReplace n else RewardsAdd n) = Ok (balance_at_tip n wc wd base).
Proof. intros H1 H2. destruct wc, wd; cbn; try done. unfold u64_add. by rewrite (proj2 (Z.leb_le _ _)). Qed.
Lemma resolve_account_ok n db k : series_ok (vd_current db) → series_ok (vd_draining db) →
  Forall (λ x, diff_bind_ok (accounts (fragment x))) (sequence (vd_draining db) ++ sequence (vd_current db)) →
  Overlay.pending_reward_credit (E := Overlay.StateError) k (vd_overlay db) = Ok n →
  resolve_account (E := Overlay.StateError) k db =
    Ok (on_top (verdicts k (fragments (vd_draining db))) (verdicts k (fragments (vd_current db))),
        if withdrawn k (fragments (vd_current db)) then RewardsReset else if withdrawn k (fragments (vd_draining db)) then RewardsReplace n else RewardsAdd n).
Proof.
  intros Hc Hd [Hbd Hbc]%Forall_app Hn. unfold resolve_account. rewrite !series_withdrawn, !series_verdicts, chain_on_top by done. rewrite Hn.
  unfold fragments. by destruct (withdrawn k (map fragment (sequence (vd_current db)))).
Qed.
(** The row that the context builds from a verdict. *)
Lemma context_row {E : Type} n (wc wd : bool) (e : Existence (Bind Delegation DRepDelegation Z)) (stored : option AccountRow) : 0 <= n <= u64_max → (∀ r, stored = Some r → 0 <= arow_rewards r ∧ arow_rewards r + n <= u64_max) →
  (match e with
   | Gone => Ok None
   | Exists b =>
       match value b with
       | Some deposit => rewards ← into_balance (E := E) 0 (if wc then RewardsReset else if wd then RewardsReplace n else RewardsAdd n);
                         Ok (Some (mkAccountRow (set_or_reset (left b) None) deposit (set_or_reset (right b) None) rewards))
       | None =>
           match stored with
           | Some row => rewards ← into_balance (arow_rewards row) (if wc then RewardsReset else if wd then RewardsReplace n else RewardsAdd n);
                         Ok (Some (mkAccountRow (set_or_reset (left b) (arow_pool row)) (arow_deposit row) (set_or_reset (right b) (arow_drep row)) rewards))
           | None => Ok None
           end
       end
   | Unknown =>
       match stored with
       | Some row => rewards ← into_balance (arow_rewards row) (if wc then RewardsReset else if wd then RewardsReplace n else RewardsAdd n);
                     Ok (Some (mkAccountRow (arow_pool row) (arow_deposit row) (arow_drep row) rewards))
       | None => Ok None
       end
   end) = Ok ((λ r, Store.add_rewards (balance_at_tip n wc wd (arow_rewards r)) r) <$> bind_row e stored).
Proof.
  intros Hn Hs. unfold bind_row. destruct e as [b| |]; [destruct (value b)|done|].
  - rewrite into_balance_at_tip by lia. done.
  - destruct stored as [r|]; [|done]. specialize (Hs r eq_refl). by rewrite into_balance_at_tip by lia.
  - destruct stored as [r|]; [|done]. specialize (Hs r eq_refl). by rewrite into_balance_at_tip by lia.
Qed.
Lemma account_at_tip_replayed n db c k : account_sound n db c k → account_at_tip (E := Overlay.StateError) db c k = Ok (account_replayed n db c k).
Proof.
  intros [[Hc Hd] Hb Hfd Hfc [Hn Hn0] Hfresh Hbal]. unfold account_replayed, account_at_tip. rewrite (resolve_account_ok n) by done. cbn [mbind exec_bind fst snd].
  rewrite context_row by done. f_equal. rewrite (replay_at_once _ _ _ Hfc). rewrite (replay_at_once _ _ _ Hfd) in Hfc |- *. fold (stored_account c k).
  pose proof (λ b, fits_base _ _ _ b Hfc) as Hbase. setoid_rewrite is_Some_credit in Hbase. setoid_rewrite withdraw_is_Some in Hbase.
  rewrite bind_row_on_top by done. clear Hfc Hfd. revert Hfresh.
  generalize (withdrawn k (fragments (vd_current db))), (withdrawn k (fragments (vd_draining db))), (bind_row (verdicts k (fragments (vd_draining db))) (stored_account c k)).
  intros wc wd row Hfresh. destruct (verdicts k (fragments (vd_current db))) as [b| |]; cbn [bind_row].
  - destruct (value b) as [d|] eqn:Hv; [|by destruct wc, wd, row]. destruct (Hfresh b d eq_refl Hv) as [->| ->]; [done|]. by destruct wc, wd.
  - by destruct wc.
  - by destruct wc, wd, row.
Qed.

(** *** Outputs and proposals *)
Definition proposal_after (i : ProposalId) (p : option ProposalRow) f : option ProposalRow := match proposals f !! i with Some p => Some p | None => p end.
Lemma replay_inputs i o l : foldl (input_after i) o l = match walk_back (λ f, diff_set_get i (utxo f)) l with Exists x => Some x | Gone => None | Unknown => o end.
Proof.
  induction l as [|f l IH] using rev_ind; [done|]. unfold walk_back. rewrite !foldl_app. cbn [foldl]. rewrite IH. unfold input_after, walk_back.
  by destruct (diff_set_get i (utxo f)).
Qed.
Lemma input_at_tip_replayed db c i : volatile_ok db → input_at_tip db c i = foldl (input_after i) (col_utxo c !! i) (map fragment (db_iter db)).
Proof. intros Hok. rewrite replay_inputs. unfold input_at_tip. rewrite resolve_input_walks by done. by destruct (walk_back _ _). Qed.

Definition proposal_replayed (db : VolatileDB) (c : Columns) (i : ProposalId) : option ProposalRow :=
  foldl (proposal_after i) (if has_pruned_proposal i (vd_overlay db) then None
                            else foldl (proposal_after i) (Store.db_proposals (col_tables c) !! i) (fragments (vd_draining db))) (fragments (vd_current db)).
Lemma replay_proposals i p l : foldl (proposal_after i) p l = match merged_proposals ∅ l !! i with Some p => Some p | None => p end.
Proof.
  unfold merged_proposals. induction l as [|f l IH] using rev_ind; [done|]. rewrite !foldl_app. cbn. unfold proposal_after at 1. rewrite lookup_union, IH.
  destruct (proposals f !! i); [by destruct (_ !! i)|]. by rewrite (left_id_L None _).
Qed.
Lemma series_proposals i s : series_ok s → agg_proposals (aggregate s) !! i = merged_proposals ∅ (fragments s) !! i.
Proof. intros (-> & _)%aggregate_from_inv. done. Qed.
Lemma proposal_at_tip_replayed db c i : series_ok (vd_current db) → series_ok (vd_draining db) → proposal_at_tip db c i = proposal_replayed db c i.
Proof.
  intros Hc Hd. unfold proposal_at_tip, resolve_proposal, proposal_replayed. rewrite !series_proposals, !replay_proposals by done.
  destruct (merged_proposals ∅ (fragments (vd_current db)) !! i); [done|]. destruct (has_pruned_proposal i (vd_overlay db)); [done|].
  by destruct (merged_proposals ∅ (fragments (vd_draining db)) !! i).
Qed.

(** ** What a block writes *)
Record fragment_sound f : Prop := {
  fs_outputs : dom (produced (utxo f)) ## consumed (utxo f);
  fs_accounts : diff_bind_ok (accounts f) }.

Lemma insert_rows {K V : Type} `{Countable K} (rows m : gmap K V) : foldl (λ m kv, <[kv.1 := kv.2]> m) m (map_to_list rows) = rows ∪ m.
Proof.
  apply map_eq. intros k. rewrite lookup_union. pose proof (NoDup_fst_map_to_list rows) as Hn. rewrite <- (list_to_map_to_list rows) at 2.
  revert m Hn. generalize (map_to_list rows). intros l. induction l as [|[x v] l IH]; intros m; cbn; [intros _; by rewrite lookup_empty, (left_id_L None _)|].
  intros [Hx Hn]%NoDup_cons. rewrite IH by done. destruct (decide (x = k)) as [->|Hk].
  - rewrite !lookup_insert_eq, not_elem_of_list_to_map_1 by done. by destruct (m !! k).
  - by rewrite !lookup_insert_ne.
Qed.
Lemma delete_rows {K V : Type} `{Countable K} (l : list K) (m : gmap K V) (k : K) : foldl (λ m (k : K), delete k m) m l !! k = if decide (k ∈ l) then None else m !! k.
Proof.
  revert m. induction l as [|x l IH]; intros m; [done|]. cbn. rewrite IH. destruct (decide (k ∈ l)) as [Hk|Hk]; [by rewrite decide_True by set_solver|].
  destruct (decide (x = k)) as [->|Hx]; [rewrite lookup_delete_eq, decide_True by set_solver; done|]. rewrite lookup_delete_ne by done. by rewrite decide_False by set_solver.
Qed.
Lemma reset_rows (l : list Credential) (m : gmap Credential AccountRow) k : foldl accounts_reset m l !! k = withdraw (bool_decide (k ∈ l)) (m !! k).
Proof.
  revert m. induction l as [|x l IH]; intros m; [done|]. cbn [foldl]. rewrite IH. unfold accounts_reset. destruct (decide (x = k)) as [->|Hx].
  - rewrite (bool_decide_eq_true_2 (k ∈ k :: l)) by set_solver. destruct (m !! k) as [r|] eqn:Hm; [rewrite lookup_insert_eq|rewrite Hm]; by destruct (bool_decide (k ∈ l)).
  - rewrite (bool_decide_ext (k ∈ x :: l) (k ∈ l)) by set_solver. destruct (m !! x); [by rewrite lookup_insert_ne|done].
Qed.
Lemma remove_rows epoch (l : list Credential) st k : (foldl (accounts_remove epoch) st l).1 !! k = if decide (k ∈ l) then None else st.1 !! k.
Proof.
  rewrite <- delete_rows. revert st. induction l as [|x l IH]; intros st; [done|]. cbn. by rewrite IH.
Qed.
Lemma add_rows {E : Type} (l : list (Credential * Bind Delegation DRepDelegation Z)) st st' k : NoDup l.*1 →
  for_in (E := E) (map add_accounts l) accounts_add st = Ok st' →
  match (list_to_map l : gmap _ _) !! k with
  | Some b => st'.1 !! k = bind_row (Exists b) (st.1 !! k) ∧ (value b = None → is_Some (st.1 !! k))
  | None => st'.1 !! k = st.1 !! k
  end.
Proof.
  revert st. induction l as [|[x b] l IH]; intros st; cbn [map for_in]; [by intros _ [= ->]|]. intros [Hx Hn]%NoDup_cons (st1 & H1 & Hl)%bind_Ok.
  specialize (IH st1 Hn Hl). cbn [list_to_map foldr uncurry]. unfold accounts_add, add_accounts in H1. cbn [fst snd] in H1.
  assert (st1.1 !! k = if decide (x = k) then bind_row (Exists b) (st.1 !! k) else st.1 !! k) as Hst1.
  { destruct (value b) eqn:Hb; [injection H1 as <-|destruct (st.1 !! x) as [r|] eqn:Hr; [injection H1 as <-|done]]; cbn [fst];
      (destruct (decide (x = k)) as [->|Hk]; [|by rewrite lookup_insert_ne]); rewrite lookup_insert_eq; cbn [bind_row]; rewrite Hb; [done|]. by rewrite Hr. }
  destruct (decide (x = k)) as [->|Hk].
  - rewrite lookup_insert_eq. cbn [fst] in Hx. rewrite not_elem_of_list_to_map_1 in IH by done. rewrite IH, Hst1. split; [done|]. intros Hb. cbn in Hb. rewrite Hb in H1.
    by destruct (st.1 !! k).
  - rewrite lookup_insert_ne by done. rewrite Hst1 in IH. exact IH.
Qed.

Lemma written_outputs f (m : gmap TransactionInput MemoizedTransactionOutput) i : fragment_sound f →
  foldl (λ m i, delete i m) (foldl (λ m io, <[io.1 := io.2]> m) m (map_to_list (produced (utxo f)))) (elements (consumed (utxo f))) !! i = input_after i (m !! i) f.
Proof.
  intros [Ho _]. rewrite insert_rows, delete_rows, lookup_union. unfold input_after, diff_set_get. rewrite (decide_ext (i ∈ elements _) (i ∈ consumed (utxo f))) by set_solver.
  destruct (produced (utxo f) !! i) as [o|] eqn:Hp.
  - rewrite decide_False; [by destruct (m !! i)|]. apply elem_of_dom_2 in Hp. set_solver.
  - destruct (decide _); [done|]. by rewrite (left_id_L None _).
Qed.
Lemma written_accounts {E : Type} f st st' epoch k : fragment_sound f →
  for_in (E := E) (map add_accounts (map_to_list (registered (accounts f)))) accounts_add st = Ok st' →
  (foldl (accounts_remove epoch) (foldl accounts_reset st'.1 (elements (withdrawals f)), st'.2) (elements (unregistered (accounts f)))).1 !! k =
    account_after k (st.1 !! k) f ∧ account_fits k (st.1 !! k) f.
Proof.
  intros [_ Hb] Hadd. pose proof (add_rows _ _ _ k (NoDup_fst_map_to_list _) Hadd) as Hk. rewrite list_to_map_to_list in Hk.
  rewrite remove_rows. cbn [fst]. rewrite reset_rows. unfold account_after, account_fits, diff_bind_get.
  rewrite (decide_ext (k ∈ elements _) (k ∈ unregistered (accounts f))) by set_solver.
  rewrite (bool_decide_ext (k ∈ elements _) (k ∈ withdrawals f)) by set_solver.
  destruct (registered (accounts f) !! k) as [b|] eqn:Hr.
  - destruct Hk as [-> Hv]. split; [|by intros b' [= <-]]. rewrite decide_False; [done|]. apply elem_of_dom_2 in Hr. unfold diff_bind_ok in Hb. set_solver.
  - rewrite Hk. split; [|by intros b; destruct (decide _)]. destruct (decide (k ∈ unregistered (accounts f))); [|done]. by destruct (bool_decide _).
Qed.

(** What a block that is saved does to the outputs, the accounts and the proposals of the store. *)
Record written f (c c' : Columns) : Prop := {
  wr_outputs : ∀ i, col_utxo c' !! i = input_after i (col_utxo c !! i) f;
  wr_accounts : ∀ k, stored_account c' k = account_after k (stored_account c k) f ∧ account_fits k (stored_account c k) f;
  wr_proposals : ∀ i, Store.db_proposals (col_tables c') !! i = proposal_after i (Store.db_proposals (col_tables c) !! i) f }.
Lemma save_written inc h pp ga x c c' : save inc h pp ga x c = Ok c' → is_stale (anchor_point x) (col_tip c) = false → fragment_sound (fragment x) →
  written (fragment x) c c' ∧ col_tip c' = anchor_point x.
Proof.
  intros Hs Hst Hf. unfold save in Hs. rewrite Hst in Hs. cbn [andb] in Hs.
  apply bind_Ok in Hs as (epoch & _ & Hs). apply bind_Ok in Hs as (e & _ & Hs). apply bind_Ok in Hs as (validity & _ & Hs).
  apply bind_Ok in Hs as (st & Hadd & Hs). pose proof (λ k, written_accounts _ _ _ epoch k Hf Hadd) as Hacc. cbn [fst] in Hacc.
  destruct st as [accs unreg]. cbn [fst snd] in Hacc.
  destruct (foldl votes_add _ _) as [vs voting]. destruct (foldl (accounts_remove epoch) _ _) as [accs' unreg']. cbn [fst] in Hacc.
  apply bind_Ok in Hs as (removed & _ & Hs).
  assert (∀ t dr, Store.db_accounts t = accs' → Store.db_proposals t = proposals (fragment x) ∪ Store.db_proposals (col_tables c) →
    written (fragment x) c (mkColumns (anchor_point x) t (foldl (λ m i, delete i m) (foldl (λ m io, <[io.1 := io.2]> m) (col_utxo c) (map_to_list (produced (utxo (fragment x)))))
      (elements (consumed (utxo (fragment x))))) dr)) as Hw.
  { intros t dr Ht Hp. constructor; [intros i; by apply written_outputs|intros k; unfold stored_account at 1; cbn; rewrite Ht; apply Hacc|].
    intros i. cbn. rewrite Hp, lookup_union. unfold proposal_after. destruct (proposals (fragment x) !! i); [by destruct (_ !! i)|by rewrite (left_id_L None _)]. }
  destruct ga as [dormant|]; [apply bind_Ok in Hs as (dr & _ & Hs)|]; injection Hs as <-; (split; [|done]); apply Hw; try (by destruct (_ || _)); try done.
  all: rewrite <- insert_rows; try (by destruct (_ || _)); done.
Qed.

(** ** A block that becomes stable *)
Lemma pop_front_nil {E : Type} s : sequence s = [] → pop_front (E := E) s = Ok None.
Proof. unfold pop_front. by intros ->. Qed.
Lemma db_pop_front_ok {E : Type} db x db' : volatile_ok db → fragments_ok (sequence (vd_draining db)) → fragments_ok (sequence (vd_current db)) →
  db_pop_front (E := E) db = Ok (Some (x, db')) → volatile_ok db' ∧ vd_overlay db' = vd_overlay db ∧ db_iter db = x :: db_iter db' ∧
  (sequence (vd_draining db) = x :: sequence (vd_draining db') ∧ vd_current db' = vd_current db ∨
   sequence (vd_draining db) = [] ∧ vd_draining db' = vd_draining db ∧ sequence (vd_current db) = x :: sequence (vd_current db')).
Proof.
  intros [Hc Hd Ho] Hfd Hfc Hp. unfold db_pop_front in Hp. destruct (sequence (vd_draining db)) as [|y l] eqn:Hs.
  - rewrite (pop_front_nil _ Hs) in Hp. cbn [mbind exec_bind] in Hp. destruct (sequence (vd_current db)) as [|z l] eqn:Hsc.
    + by rewrite (pop_front_nil _ Hsc) in Hp.
    + rewrite <- Hsc in Hfc. destruct (pop_front_ok (E := E) _ _ _ Hsc Hc Hfc) as (s' & Hpop & Hl & Hok). rewrite Hpop in Hp. cbn in Hp. injection Hp as <- <-.
      assert (db_iter db = z :: l) as Hi by (unfold db_iter; by rewrite Hs, Hsc).
      split_and!; [|done|rewrite Hi; unfold db_iter; cbn; by rewrite Hs, Hl|right; cbn; by rewrite Hl].
      constructor; [done|done|]. rewrite Hi in Ho. unfold db_iter. cbn. rewrite Hs, Hl. by apply StronglySorted_inv in Ho as [Ho _].
  - rewrite <- Hs in Hfd. destruct (pop_front_ok (E := E) _ _ _ Hs Hd Hfd) as (s' & Hpop & Hl & Hok). rewrite Hpop in Hp. cbn in Hp. injection Hp as <- <-.
    assert (db_iter db = y :: l ++ sequence (vd_current db)) as Hi by (unfold db_iter; by rewrite Hs).
    split_and!; [|done|rewrite Hi; unfold db_iter; cbn; by rewrite Hl|left; cbn; by rewrite Hl].
    constructor; [done|done|]. rewrite Hi in Ho. unfold db_iter. cbn. rewrite Hl. by apply StronglySorted_inv in Ho as [Ho _].
Qed.

Lemma empty_overlay_credit {E : Type} (o : Overlay.StateOverlay) k : Overlay.is_empty o = true → Overlay.pending_reward_credit (E := E) k o = Ok 0.
Proof. unfold Overlay.is_empty, Overlay.pending_reward_credit. destruct (Overlay.overlay_rewards o), (Overlay.pools_updates o), (Overlay.governance_updates o); done. Qed.
Lemma empty_overlay_pruned (o : Overlay.StateOverlay) i : Overlay.is_empty o = true → has_pruned_proposal i o = false.
Proof.
  unfold Overlay.is_empty, has_pruned_proposal, Overlay.pending_pruned. destruct (Overlay.governance_updates o); [by rewrite !andb_false_r|done].
Qed.
Lemma credit_nothing row : credit 0 <$> row = row.
Proof. destruct row as [[]|]; [|done]. cbn. unfold credit, Store.add_rewards. cbn. by rewrite Z.add_0_r. Qed.
Lemma account_after_balance k row f r n : 0 <= n <= u64_max → (∀ r, row = Some r → 0 <= arow_rewards r ∧ arow_rewards r + n <= u64_max) → account_after k row f = Some r →
  0 <= arow_rewards r ∧ arow_rewards r + n <= u64_max.
Proof.
  intros Hn Hr. unfold account_after, bind_row, withdraw. destruct (diff_bind_get k (accounts f)) as [b| |]; [destruct (value b)| |]; destruct (bool_decide _); cbn;
    try (by intros [=]); try (intros [= <-]; cbn; lia); destruct row as [r'|]; cbn; try done; intros [= <-]; cbn; try lia; by apply Hr.
Qed.

(** The account is sound after the block left. *)
Lemma account_sound_popped n db c k x db' c' : account_sound n db c k → volatile_ok db' → vd_overlay db' = vd_overlay db → db_iter db = x :: db_iter db' →
  (sequence (vd_draining db) = x :: sequence (vd_draining db') ∧ vd_current db' = vd_current db ∨
   sequence (vd_draining db) = [] ∧ vd_draining db' = vd_draining db ∧ sequence (vd_current db) = x :: sequence (vd_current db') ∧ n = 0) →
  stored_account c' k = account_after k (stored_account c k) (fragment x) → account_sound n db' c' k ∧ account_replayed n db' c' k = account_replayed n db c k.
Proof.
  intros [[Hc Hd] Hb Hfd Hfc Hn Hfresh Hbal] [Hc' Hd' _] Ho Hi Hpop Hk.
  assert (Forall (λ x, diff_bind_ok (accounts (fragment x))) (db_iter db')) as Hb' by (fold (db_iter db) in Hb; rewrite Hi in Hb; by apply Forall_cons in Hb as [_ Hb]).
  assert (∀ r, stored_account c' k = Some r → 0 <= arow_rewards r ∧ arow_rewards r + n <= u64_max) as Hbal'.
  { rewrite Hk. intros r. apply account_after_balance; [apply Hn|done]. }
  destruct Hpop as [[Hs Hcur]|(Hs & Hdr & Hcur & ->)].
  - unfold fragments in Hfd, Hfc. rewrite Hs in Hfd, Hfc. cbn [map fits replay_account foldl] in Hfd, Hfc. destruct Hfd as [_ Hfd]. fold (fragments (vd_draining db')) in Hfd, Hfc.
    split; [|unfold account_replayed, fragments; rewrite Hs, Hcur, Hk; done].
    constructor; [done|done|by rewrite Hk|rewrite Hk, Hcur; exact Hfc|by rewrite Ho|by rewrite Hcur|done].
  - unfold fragments in Hfc. rewrite Hs, Hcur in Hfc. cbn [map fits replay_account foldl] in Hfc. destruct Hfc as [_ Hfc]. rewrite credit_nothing in Hfc.
    split; [|unfold account_replayed, fragments; rewrite Hdr, Hs, Hcur, Hk; cbn; by rewrite !credit_nothing].
    constructor; [done|done|unfold fragments; by rewrite Hdr, Hs|unfold fragments; rewrite Hdr, Hs, Hk; cbn; by rewrite credit_nothing|by rewrite Ho|by right|done].
Qed.
End Layers.
