(* ===== verification/ContextProps.v ===== *)
(** * What the context of a block guarantees

    Every sequence of operations on the context of a block gives a fragment that can be
    written to the store, and lookups that see the changes at once: what the block is told of an account last
    is what the next block is told first. *)

From S2P Require Import Prelude BTreeMap SortedAssoc UplcSyntax ProtocolParameters Governance EraHistory Summary ProposalsForest PoolsUpdates StakeSummary Ratification PhaseTwo EpochTransition Headers Fragments FragmentsProps Volatile VolatileReads BlockStore BlockContext LayeredView.
Import Stake(AccountRow, mkAccountRow, arow_pool, arow_deposit, arow_drep, arow_rewards, ProposalRow,
  DRepRow, mkDRepRow, drow_deposit, drow_anchor, drow_registered_at, drow_valid_until).
#[local] Open Scope Z_scope.

Section ContextProps.
Context `{Outputs}.
Implicit Types (x y : ValidationContext) (k : Credential).

(** ** Operations, one after the other *)
Inductive ctx_step : ValidationContext → ValidationContext → Prop :=
| step_fees n x y : 0 <= n → add_fees (E := unit) n x = Ok y → ctx_step x y
| step_donation n x y : 0 <= n → add_donation (E := unit) n x = Ok y → ctx_step x y
| step_consume i x : ctx_step x (ctx_consume i x)
(** The identifier of an output is new: it was not spent, and is not in the ledger. *)
| step_produce i o x : i ∉ consumed (utxo (ctx_state x)) → ctx_utxo x !! i = None → ctx_step x (ctx_produce i o x)
| step_pool_register params pointer deposit x : ctx_step x (pool_register params pointer deposit x)
| step_pool_retire p e x y : pool_retire p e x = Ok y → ctx_step x y
| step_register k row x y : account_register k row x = Ok y → ctx_step x y
| step_delegate_pool k p ptr x y : delegate_pool k p ptr x = Ok y → ctx_step x y
| step_delegate_vote k d ptr x y : delegate_vote k d ptr x = Ok y → ctx_step x y
| step_unregister k row x y : account_unregister k x = Ok (row, y) → ctx_step x y
| step_withdraw k x : ctx_step x (withdraw_from k x)
| step_drep_register k r a x y : drep_register k r a x = Ok y → ctx_step x y
| step_drep_update k a x y : drep_update k a x = Ok y → ctx_step x y
| step_drep_unregister k ptr r x y : drep_unregister k ptr x = Ok (r, y) → ctx_step x y
| step_member k status x y : bind_member k status x = Ok y → ctx_step x y
| step_acknowledge i p x : ctx_step x (acknowledge i p x)
| step_vote i v b x : ctx_step x (ctx_vote i v b x).

(** ** The invariant *)
Record fragment_built x : Prop := {
  fb_outputs : dom (produced (utxo (ctx_state x))) ## consumed (utxo (ctx_state x));
  fb_new : dom (produced (utxo (ctx_state x))) ## dom (ctx_utxo x);
  fb_accounts : diff_bind_ok (accounts (ctx_state x));
  fb_fits : ∀ k, account_fits k (ctx_accounts x !! k) (ctx_state x);
  fb_dreps : diff_bind_ok (dreps (ctx_state x));
  fb_deregistrations : unregistered (dreps (ctx_state x)) ⊆ dom (dreps_deregistrations (ctx_state x));
  fb_committee : unregistered (committee (ctx_state x)) = ∅;
  fb_votes : consumed (votes (ctx_state x)) = ∅;
  fb_amounts : fragment_ok (ctx_state x) }.

(** The lookup sees the changes of the block on top of what the block started from. *)
Lemma account_lookup_after x k : diff_bind_ok (accounts (ctx_state x)) → account_lookup k x = account_after k (ctx_accounts x !! k) (ctx_state x).
Proof.
  intros Hd. unfold account_lookup, account_after, diff_bind_get, bind_row, withdraw. cbv zeta.
  destruct (decide (k ∈ unregistered (accounts (ctx_state x)))) as [Hu|Hu].
  - assert (registered (accounts (ctx_state x)) !! k = None) as -> by (apply not_elem_of_dom; unfold diff_bind_ok in Hd; set_solver). by destruct (bool_decide _).
  - destruct (registered (accounts (ctx_state x)) !! k) as [b|]; (destruct (decide (k ∈ withdrawals (ctx_state x))); [rewrite bool_decide_eq_true_2 by done|rewrite bool_decide_eq_false_2 by done]); done.
Qed.
(** A change of the accounts. *)
Lemma built_accounts x d w : fragment_built x → diff_bind_ok d → (∀ k b, registered d !! k = Some b → value b = None → is_Some (ctx_accounts x !! k)) →
  fragment_built (with_state (set_fragment_accounts d w) x).
Proof.
  intros [Ho Hnew Ha Hf Hd Hdd Hc Hv [Hn1 Hn2]] Hok Hb. constructor; try done. cbn. intros k b. unfold diff_bind_get. cbn.
  destruct (registered d !! k) as [b'|] eqn:Hk; [|by destruct (decide _)]. intros [= <-]. by apply Hb.
Qed.
Lemma built_registered x k b : fragment_built x → registered (accounts (ctx_state x)) !! k = Some b → value b = None → is_Some (ctx_accounts x !! k).
Proof. intros Hx Hk. apply (fb_fits _ Hx k). unfold diff_bind_get. by rewrite Hk. Qed.
(** A delegation: the account is known, so that without a registration in the block it is in the store. *)
Lemma built_bound x k row bl : fragment_built x → account_lookup k x = Some row → k ∉ unregistered (accounts (ctx_state x)) →
  (∀ b, registered (accounts (ctx_state x)) !! k = Some b → value bl = value b) →
  ∀ k' b, <[k := bl]> (registered (accounts (ctx_state x))) !! k' = Some b → value b = None → is_Some (ctx_accounts x !! k').
Proof.
  intros Hx Hl Hk Hbl k' b. destruct (decide (k = k')) as [<-|Hne]; [|rewrite lookup_insert_ne by done; by apply built_registered].
  rewrite lookup_insert_eq. intros [= <-] Hv. destruct (registered (accounts (ctx_state x)) !! k) as [b|] eqn:Hb.
  - apply (built_registered x k b Hx Hb). by rewrite <- (Hbl b).
  - rewrite account_lookup_after in Hl by apply Hx. unfold account_after, diff_bind_get in Hl. rewrite Hb, decide_False in Hl by done. cbn in Hl.
    destruct (ctx_accounts x !! k); [done|]. by destruct (bool_decide _).
Qed.
Lemma bind_left_registered {K L R V : Type} `{Countable K} (k : K) o (d d' : DiffBind K L R V) : bind_left k o d = Ok d' →
  (k ∉ unregistered d) ∧ unregistered d' = unregistered d ∧ ∃ b, registered d' = <[k := b]> (registered d) ∧ ∀ b0, registered d !! k = Some b0 → value b = value b0.
Proof.
  unfold bind_left. case_decide; [done|]. intros [= <-]. split; [done|]. split; [done|]. eexists. split; [done|]. intros b0 Hb. by rewrite Hb.
Qed.
Lemma bind_right_registered {K L R V : Type} `{Countable K} (k : K) o (d d' : DiffBind K L R V) : bind_right k o d = Ok d' →
  (k ∉ unregistered d) ∧ unregistered d' = unregistered d ∧ ∃ b, registered d' = <[k := b]> (registered d) ∧ ∀ b0, registered d !! k = Some b0 → value b = value b0.
Proof.
  unfold bind_right. case_decide; [done|]. intros [= <-]. split; [done|]. split; [done|]. eexists. split; [done|]. intros b0 Hb. by rewrite Hb.
Qed.

Lemma step_built x y : ctx_step x y → fragment_built x → fragment_built y.
Proof.
  intros Hs Hx. pose proof Hx as [Ho Hnew Ha Hf Hd Hdd Hc Hv [Hn1 Hn2]].
  destruct Hs as [n x y Hn Hy|n x y Hn Hy|i x|i o x Hi Hi'|params pointer deposit x|p e x y Hy|k row x y Hy|k p ptr x y Hy|k d ptr x y Hy|k row x y Hy|k x
                 |k r a x y Hy|k a x y Hy|k ptr r x y Hy|k status x y Hy|i p x|i v b x].
  - apply bind_Ok in Hy as (m & Hm & [= <-]). apply u64_add_Ok in Hm as [-> _]. constructor; try done. constructor; cbn; lia.
  - apply bind_Ok in Hy as (m & Hm & [= <-]). apply u64_add_Ok in Hm as [-> _]. constructor; try done. constructor; cbn; lia.
  - constructor; try done; cbn; rewrite !dom_delete; set_solver.
  - apply not_elem_of_dom in Hi'. constructor; try done; cbn; rewrite dom_insert; set_solver.
  - by constructor.
  - unfold pool_retire in Hy. destruct (pool_exists p x); [|done]. injection Hy as <-. by constructor.
  - unfold account_register in Hy. destruct (account_lookup k x); [done|]. apply bind_Ok in Hy as (d & Hd' & [= <-]).
    apply built_accounts; [done|by eapply register_ok|]. unfold register in Hd'. destruct (registered _ !! k) eqn:Hk; [done|]. injection Hd' as <-.
    intros k' b. cbn. destruct (decide (k = k')) as [<-|Hne]; [rewrite lookup_insert_eq; by intros [= <-]|]. rewrite lookup_insert_ne by done. by apply built_registered.
  - unfold delegate_pool in Hy. destruct (account_lookup k x) as [row|] eqn:Hl; [|done]. destruct (pool_exists p x); [|done]. apply bind_Ok in Hy as (d & Hb%map_err_Ok & [= <-]).
    apply built_accounts; [done|by eapply bind_left_ok|]. apply bind_left_registered in Hb as (Hk & _ & bl & -> & Hbl). by eapply built_bound.
  - unfold delegate_vote in Hy. destruct (account_lookup k x) as [row|] eqn:Hl; [|done]. destruct (from_option _ _ _); [done|]. apply bind_Ok in Hy as (a & Hb%map_err_Ok & [= <-]).
    apply built_accounts; [done|by eapply bind_right_ok|]. apply bind_right_registered in Hb as (Hk & _ & bl & -> & Hbl). by eapply built_bound.
  - unfold account_unregister in Hy. destruct (account_lookup k x); [|done]. injection Hy as <- <-. apply built_accounts; [done|by apply unregister_ok|].
    intros k' b. cbn. rewrite lookup_delete_Some. intros [_ Hk]. by apply built_registered.
  - apply built_accounts; [done|done|]. intros k' b. by apply built_registered.
  - unfold drep_register in Hy. destruct (drep_lookup k x); [done|]. apply bind_Ok in Hy as (d' & Hd' & [= <-]). constructor; try done; cbn; [by eapply register_ok|].
    unfold register in Hd'. destruct (registered _ !! k); [done|]. injection Hd' as <-. cbn. set_solver.
  - unfold drep_update in Hy. destruct (drep_lookup k x); [|done]. apply bind_Ok in Hy as (d' & Hd'%map_err_Ok & [= <-]). constructor; try done; cbn; [by eapply bind_left_ok|].
    apply bind_left_registered in Hd' as (_ & -> & _). done.
  - unfold drep_unregister in Hy. destruct (drep_lookup k x); [|done]. injection Hy as <- <-. constructor; try done; cbn; [by apply unregister_ok|].
    rewrite dom_insert. set_solver.
  - unfold bind_member in Hy. destruct (lookup_by_cold_credential k x) as [m|]; [|done].
    assert (∃ d, bind_left k (Some status) (committee (ctx_state x)) = Ok d ∧ y = with_state (set_committee d) x) as (d & Hd' & ->).
    { destruct (Committee.row_status m) as [[]|]; try done; apply bind_Ok in Hy as (d & Hd'%map_err_Ok & [= <-]); by exists d. }
    constructor; try done; cbn. apply bind_left_registered in Hd' as (_ & -> & _). done.
  - constructor; try done.
  - by constructor.
Qed.

Lemma steps_built x y : rtc ctx_step x y → fragment_built x → fragment_built y.
Proof. induction 1; [done|]. intros Hx. by eapply IHrtc, step_built. Qed.
Lemma built_start x : ctx_state x = fragment_default → fragment_built x.
Proof. intros Hx. constructor; rewrite ?Hx; cbn; try done; set_solver. Qed.

(** *** What the block started from: accounts stay, and outputs that are spent leave. *)
Definition outputs_from (start : gmap TransactionInput MemoizedTransactionOutput) x : Prop :=
  ∀ i, ctx_utxo x !! i = if decide (i ∈ consumed (utxo (ctx_state x))) then None else start !! i.
Lemma step_frame start x y : ctx_step x y → outputs_from start x → ctx_accounts y = ctx_accounts x ∧ outputs_from start y.
Proof.
  intros Hs Hx. destruct Hs as [n x y _ Hy|n x y _ Hy|i x|i o x _ _| |p e x y Hy|k row x y Hy|k p ptr x y Hy|k d ptr x y Hy|k row x y Hy|
                 |k r a x y Hy|k a x y Hy|k ptr r x y Hy|k status x y Hy| |]; try done.
  - by apply bind_Ok in Hy as (m & _ & [= <-]).
  - by apply bind_Ok in Hy as (m & _ & [= <-]).
  - split; [done|]. intros j. cbn. specialize (Hx j). destruct (decide (i = j)) as [->|Hij].
    + by rewrite lookup_delete_eq, decide_True by set_solver.
    + rewrite lookup_delete_ne, Hx by done. by rewrite (decide_ext (j ∈ {[i]} ∪ _) (j ∈ consumed (utxo (ctx_state x)))) by set_solver.
  - unfold pool_retire in Hy. destruct (pool_exists p x); [|done]. by injection Hy as <-.
  - unfold account_register in Hy. destruct (account_lookup k x); [done|]. by apply bind_Ok in Hy as (m & _ & [= <-]).
  - unfold delegate_pool in Hy. destruct (account_lookup k x); [|done]. destruct (pool_exists p x); [|done]. by apply bind_Ok in Hy as (m & _ & [= <-]).
  - unfold delegate_vote in Hy. destruct (account_lookup k x); [|done]. destruct (from_option _ _ _); [done|]. by apply bind_Ok in Hy as (m & _ & [= <-]).
  - unfold account_unregister in Hy. destruct (account_lookup k x); [|done]. by injection Hy as <- <-.
  - unfold drep_register in Hy. destruct (drep_lookup k x); [done|]. by apply bind_Ok in Hy as (m & _ & [= <-]).
  - unfold drep_update in Hy. destruct (drep_lookup k x); [|done]. by apply bind_Ok in Hy as (m & _ & [= <-]).
  - unfold drep_unregister in Hy. destruct (drep_lookup k x); [|done]. by injection Hy as <- <-.
  - unfold bind_member in Hy. destruct (lookup_by_cold_credential k x) as [m|]; [|done]. destruct (Committee.row_status m) as [[]|]; try done; by apply bind_Ok in Hy as (d & _ & [= <-]).
Qed.
Lemma steps_frame start x y : rtc ctx_step x y → outputs_from start x → ctx_accounts y = ctx_accounts x ∧ outputs_from start y.
Proof. induction 1 as [|x y z Hs _ IH]; [done|]. intros Hx. destruct (step_frame start x y Hs Hx) as [<- Hy]. by apply IH. Qed.
Lemma outputs_start x : ctx_state x = fragment_default → outputs_from (ctx_utxo x) x.
Proof. intros Hx i. rewrite Hx. cbn. by rewrite decide_False by set_solver. Qed.
Lemma utxo_lookup_after start x i : outputs_from start x → fragment_built x → utxo_lookup i x = input_after i (start !! i) (ctx_state x).
Proof.
  intros Ho Hx. unfold utxo_lookup, input_after, diff_set_get. rewrite Ho. pose proof (fb_outputs _ Hx) as H1. pose proof (fb_new _ Hx) as H2.
  destruct (produced (utxo (ctx_state x)) !! i) as [o|] eqn:Hp; [|by destruct (decide _), (start !! i)].
  apply elem_of_dom_2 in Hp. rewrite decide_False by set_solver. destruct (start !! i) eqn:Hs; [|done]. destruct (H2 i); [done|].
  apply elem_of_dom. rewrite Ho, decide_False, Hs by set_solver. done.
Qed.

(** ** The next block *)
Lemma push_db {E : Type} p issuer x db db' : db_push_back (E := E) (mkAnchored p issuer (ctx_state x)) db = Ok db' → series_ok (vd_current db) →
  vd_overlay db' = vd_overlay db ∧ vd_draining db' = vd_draining db ∧ fragments (vd_current db') = fragments (vd_current db) ++ [ctx_state x] ∧
  sequence (vd_current db') = sequence (vd_current db) ++ [mkAnchored p issuer (ctx_state x)] ∧ series_ok (vd_current db').
Proof. intros Hp Hs. apply push_series in Hp as (s & -> & Hseq & Hok). cbn. unfold fragments. rewrite Hseq, map_app. split_and!; try done. by apply Hok. Qed.
Lemma account_sound_pushed {E : Type} n db c k p issuer x db' : account_sound n db c k → ctx_accounts x !! k = account_replayed n db c k → fragment_built x →
  (∀ b d, diff_bind_get k (accounts (ctx_state x)) = Exists b → value b = Some d → k ∈ withdrawals (ctx_state x) ∨ n = 0) →
  db_push_back (E := E) (mkAnchored p issuer (ctx_state x)) db = Ok db' →
  account_sound n db' c k ∧ account_replayed n db' c k = account_after k (account_replayed n db c k) (ctx_state x).
Proof.
  intros [[Hc Hd] Hb Hfd Hfc Hn Hfresh Hbal] Hx Hbuilt Hreg Hp. apply push_db in Hp as (Ho & Hdr & Hfr & Hseq & Hok); [|done].
  split; [|unfold account_replayed; rewrite Hdr, Hfr; unfold replay_account; by rewrite foldl_app].
  constructor; rewrite ?Ho, ?Hdr; try done.
  - rewrite Hseq, app_assoc. apply Forall_app. split; [done|]. constructor; [apply Hbuilt|done].
  - rewrite Hfr. apply fits_app. split; [done|]. cbn. split; [|done]. fold (account_replayed n db c k). rewrite <- Hx. apply (fb_fits _ Hbuilt).
  - rewrite Hfr. unfold withdrawn, verdicts. rewrite existsb_app, map_app, foldl_app. cbn [map foldl existsb].
    fold (verdicts k (fragments (vd_current db))) (withdrawn k (fragments (vd_current db))). intros b d Hv Hbd. rewrite orb_false_r.
    destruct (diff_bind_get k (accounts (ctx_state x))) as [b'| |] eqn:Hg; [|done|cbn in Hv; destruct (Hfresh b d Hv Hbd) as [->| ->]; [by left|by right]].
    destruct (value b') as [d'|] eqn:Hb'.
    + destruct (Hreg b' d' eq_refl Hb') as [Hw|Hw]; [left|by right]. by rewrite (bool_decide_eq_true_2 _ Hw), orb_true_r.
    + cbn in Hv. destruct (verdicts k (fragments (vd_current db))) as [o| |] eqn:Ho'; injection Hv as <-; [|congruence|congruence].
      unfold and_then in Hbd. rewrite Hb' in Hbd. cbn in Hbd. destruct (Hfresh o d eq_refl Hbd) as [->| ->]; [by left|by right].
Qed.
Lemma next_block_accounts {E : Type} n x0 x db db' c k p issuer : rtc ctx_step x0 x → ctx_state x0 = fragment_default →
  db_push_back (E := E) (mkAnchored p issuer (ctx_state x)) db = Ok db' → account_sound n db c k → account_at_tip (E := Overlay.StateError) db c k = Ok (ctx_accounts x0 !! k) →
  (∀ b d, diff_bind_get k (accounts (ctx_state x)) = Exists b → value b = Some d → k ∈ withdrawals (ctx_state x) ∨ n = 0) →
  account_at_tip (E := Overlay.StateError) db' c k = Ok (account_lookup k x).
Proof.
  intros Hs H0 Hp Hk Hat Hreg. pose proof (steps_built _ _ Hs (built_start _ H0)) as Hx. destruct (steps_frame _ _ _ Hs (outputs_start _ H0)) as [Hacc _].
  rewrite (account_at_tip_replayed _ _ _ _ Hk) in Hat. injection Hat as Hat. rewrite <- Hacc in Hat. symmetry in Hat.
  destruct (account_sound_pushed n db c k p issuer x db' Hk Hat Hx Hreg Hp) as [Hk' Hr]. rewrite (account_at_tip_replayed _ _ _ _ Hk'), Hr, <- Hat.
  by rewrite account_lookup_after by apply Hx.
Qed.
Lemma next_block_outputs {E : Type} x0 x db db' c i p issuer : rtc ctx_step x0 x → ctx_state x0 = fragment_default → volatile_ok db →
  db_push_back (E := E) (mkAnchored p issuer (ctx_state x)) db = Ok db' → in_order (db_iter db') → input_at_tip db c i = ctx_utxo x0 !! i →
  input_at_tip db' c i = utxo_lookup i x.
Proof.
  intros Hs H0 Hok Hp Ho Hat. pose proof Hok as [Hc Hd _]. destruct (push_db _ _ _ _ _ Hp Hc) as (_ & Hdr & _ & Hseq & Hok').
  assert (volatile_ok db') as Hv' by (constructor; [done|by rewrite Hdr|done]).
  destruct (steps_frame _ _ _ Hs (outputs_start _ H0)) as [_ Hfrom]. rewrite (utxo_lookup_after _ _ i Hfrom (steps_built _ _ Hs (built_start _ H0))), <- Hat.
  rewrite !input_at_tip_replayed by done. unfold db_iter. rewrite Hdr, Hseq, !map_app, !foldl_app. done.
Qed.

(** ** Writing the block *)
Lemma accounts_add_returns {E : Type} (l : list (Credential * Bind Delegation DRepDelegation Z)) : ∀ st,
  (∀ k b, (k, b) ∈ l → value b = None → is_Some (st.1 !! k)) → ∃ st', for_in (E := E) (map add_accounts l) accounts_add st = Ok st'.
Proof.
  induction l as [|[k b] l IH]; intros st Hl; [by exists st|]. cbn [map for_in].
  assert (∃ st1, accounts_add (E := E) st (add_accounts (k, b)) = Ok st1 ∧ ∀ k', is_Some (st.1 !! k') → is_Some (st1.1 !! k')) as (st1 & -> & H1).
  { unfold accounts_add, add_accounts. cbn [fst snd]. pose proof (Hl k b ltac:(set_solver)) as Hk.
    destruct (value b); [|destruct (Hk eq_refl) as [r ->]]; (eexists; split; [done|]); intros k' Hk'; cbn [fst]; by apply lookup_insert_is_Some'; right. }
  cbn [mbind exec_bind]. apply IH. intros k' b' Hin Hb. apply H1. eapply Hl; [|done]. set_solver.
Qed.
Lemma remove_dreps_returns {E : Type} dd (ks : list Credential) : ∀ acc, (∀ k, k ∈ ks → k ∈ dom dd) → ∃ r, for_in (E := E) ks (remove_dreps dd) acc = Ok r.
Proof.
  induction ks as [|k ks IH]; intros acc Hk; [by exists acc|]. cbn [for_in]. destruct (proj1 (elem_of_dom dd k) (Hk k ltac:(set_solver))) as [o Ho].
  assert (∃ acc', remove_dreps (E := E) dd acc k = Ok acc') as [acc' ->] by (unfold remove_dreps; rewrite Ho; destruct o; by eexists).
  cbn [mbind exec_bind]. apply IH. set_solver.
Qed.

(** *** Representatives *)
Lemma foldl_keeps {A S : Type} (P : S → Prop) (f : S → A → S) (l : list A) : ∀ s, P s → (∀ s a, a ∈ l → P s → P (f s a)) → P (foldl f s l).
Proof. induction l as [|a l IH]; intros s Hs Hf; [done|]. cbn. apply IH; [apply Hf; [by left|done]|]. intros s' a' Ha. apply Hf. by right. Qed.

(** The validity of every representative leaves room for the dormant epochs. *)
Definition room (dormant : Z) (rows : gmap Credential DRepRow) : Prop := map_Forall (λ _ row, drow_valid_until row + dormant <= u64_max) rows.
Lemma room_add d n rows cb : room d rows → n + d <= u64_max → (∀ r, value cb.2 = Some r → reg_valid_until r + d <= u64_max) → room d (dreps_add n rows cb).
Proof.
  intros Hr Hn Hb. unfold dreps_add. cbv zeta. destruct (rows !! cb.1) as [row|] eqn:Hk, (value cb.2) as [r|]; try done; (apply map_Forall_insert_2; [|done]); cbn; by auto.
Qed.
Lemma room_set d n rows k : room d rows → n + d <= u64_max → room d (dreps_set_valid_until n rows k).
Proof. intros Hr Hn. unfold dreps_set_valid_until. destruct (rows !! k); [|done]. by apply map_Forall_insert_2. Qed.
Lemma room_delete d rows k : room d rows → room d (delete k rows).
Proof. apply map_Forall_delete. Qed.
Lemma flush_dormant_returns {E : Type} d e (l : list (Credential * DRepRow)) : ∀ rows, Forall (λ cr, drow_valid_until cr.2 + d <= u64_max) l →
  ∃ rows', for_in (E := E) l (flush_dormant d e) rows = Ok rows'.
Proof.
  induction l as [|cr l IH]; intros rows Hl; [by exists rows|]. apply Forall_cons in Hl as [Hc Hl]. cbn [for_in].
  assert (∃ r, flush_dormant (E := E) d e rows cr = Ok r) as [r ->]; [|by apply IH].
  unfold flush_dormant, u64_add. rewrite (proj2 (Z.leb_le _ _) Hc). by eexists.
Qed.

(** What the dormant epochs become for a representative. *)
Definition given_back (d e : Z) (row : DRepRow) : DRepRow :=
  if e <=? drow_valid_until row + d then set_valid_until (drow_valid_until row + d) row else row.
Lemma flush_other {E : Type} d e (l : list (Credential * DRepRow)) k : ∀ rows rows', k ∉ map fst l →
  for_in (E := E) l (flush_dormant d e) rows = Ok rows' → rows' !! k = rows !! k.
Proof.
  induction l as [|cr l IH]; intros rows rows' Hk Hl; cbn [for_in] in Hl; exec_inv; [by subst|]. cbn [map] in Hk. apply not_elem_of_cons in Hk as [Hne Hk].
  rewrite (IH _ _ Hk Hl). unfold flush_dormant in Hr. exec_inv. subst. case_match; [|done]. by rewrite lookup_insert_ne.
Qed.
Lemma flush_row {E : Type} d e (l : list (Credential * DRepRow)) k row : ∀ rows rows', NoDup (map fst l) → (k, row) ∈ l → rows !! k = Some row →
  for_in (E := E) l (flush_dormant d e) rows = Ok rows' → rows' !! k = Some (given_back d e row).
Proof.
  induction l as [|cr l IH]; intros rows rows' Hnd Hin Hk Hl; [by apply elem_of_nil in Hin|]. cbn [map for_in] in *. exec_inv.
  apply NoDup_cons in Hnd as [Hn Hnd]. unfold flush_dormant in Hr. exec_inv. apply u64_add_Ok in Hr0 as [-> _].
  apply elem_of_cons in Hin as [<-|Hin]; cbn [fst snd] in *.
  - rewrite (flush_other _ _ _ _ _ _ Hn Hl). subst. unfold given_back. case_match; [by rewrite lookup_insert_eq|done].
  - eapply IH; [done|done| |done]. subst. case_match; [|done]. rewrite lookup_insert_ne; [done|].
    intros <-. apply Hn. apply list_elem_of_fmap. by exists (cr.1, row).
Qed.

(** A block that says nothing of a representative. *)
Record untouched (k : Credential) (f : VolatileFragment) : Prop := {
  un_registered : registered (dreps f) !! k = None;
  un_unregistered : k ∉ unregistered (dreps f);
  un_voting : ∀ b, is_Some (produced (votes f) !! b) → drep_voter b.2 ≠ Some k }.
Lemma voting_other (l : list (BallotId * Ballot)) k : ∀ st, (∀ kb, kb ∈ l → drep_voter kb.1.2 ≠ Some k) → k ∉ st.2 → k ∉ (foldl votes_add st l).2.
Proof.
  induction l as [|kb l IH]; intros st Hl Hst; [done|]. cbn [foldl]. apply IH; [intros kb' Hin; apply Hl; by right|].
  unfold votes_add. cbn [snd]. pose proof (Hl kb ltac:(by left)) as Hk. destruct (drep_voter kb.1.2) as [c|] eqn:Hc; cbn; [|done]. apply not_elem_of_union; split; [|done]. intros ->%elem_of_singleton. by apply Hk.
Qed.
Lemma removed_other {E : Type} dd (l : list Credential) : ∀ acc r k, for_in (E := E) l (remove_dreps dd) acc = Ok r → k ∉ acc → k ∉ l → k ∉ r.
Proof.
  induction l as [|c l IH]; intros acc r k Hr Ha Hl; cbn [for_in] in Hr; exec_inv; [by subst|].
  eapply IH; [exact Hr| |set_solver]. unfold remove_dreps in Hr0. repeat case_match; exec_inv; subst; set_solver.
Qed.
Lemma save_untouched h pp d (x : AnchoredVolatileFragment) c c' e k row : save false h pp (Some d) x c = Ok c' → is_stale (anchor_point x) (col_tip c) = false →
  slot_to_epoch h (point_slot (anchor_point x)) (point_slot (anchor_point x)) = Ok e → 0 <= d →
  col_dreps c !! k = Some row → untouched k (fragment x) →
  let reactivating := (0 <? d) && (0 <? size (proposals (fragment x)))%nat in
  col_dreps c' !! k = Some (if reactivating then given_back d e row else row) ∧
  Store.consecutive_dormant_epochs (col_tables c') = if reactivating then 0 else Store.consecutive_dormant_epochs (col_tables c).
Proof.
  intros Hs Hst He Hd Hk [Hu1 Hu2 Hu3]. unfold save in Hs. rewrite Hst in Hs. cbn [andb] in Hs. rewrite He in Hs. cbn [mbind exec_bind] in Hs.
  apply bind_Ok in Hs as (exp & _ & Hs). apply bind_Ok in Hs as (validity & _ & Hs). apply bind_Ok in Hs as (st & _ & Hs). destruct st as [accs unreg].
  set (m1 := foldl (dreps_add validity) _ _) in Hs.
  assert (m1 !! k = Some row) as Hm1.
  { unfold m1. apply (foldl_keeps (λ m : gmap Credential DRepRow, m !! k = Some row)); [done|]. intros m [c0 b] Hin Hm. apply elem_of_map_to_list in Hin.
    assert (c0 ≠ k) by congruence. unfold dreps_add. cbv zeta. cbn [fst snd]. repeat case_match; try done; by rewrite lookup_insert_ne. }
  pose proof (voting_other (map_to_list (produced (votes (fragment x)))) k (Store.db_votes (col_tables c), ∅)) as Hv.
  destruct (foldl votes_add _ _) as [vs voting]. cbn [snd] in Hv. destruct (foldl (accounts_remove e) _ _) as [accs' unreg'].
  apply bind_Ok in Hs as (removed & Hrem & Hs). apply (removed_other _ _ _ _ k) in Hrem; [|set_solver|set_solver].
  set (m2 := if decide (voting ≠ ∅) then _ else m1) in Hs. set (m3 := foldl _ m2 removed) in Hs.
  assert (k ∉ voting) as Hvk. { apply Hv; [|set_solver]. intros [b bl] Hin%elem_of_map_to_list. apply Hu3. by eexists. }
  assert (m2 !! k = Some row) as Hm2.
  { unfold m2. case_decide; [|done]. apply (foldl_keeps (λ m : gmap Credential DRepRow, m !! k = Some row)); [done|]. intros m c0 Hin Hm.
    assert (c0 ≠ k) by set_solver. unfold dreps_set_valid_until. destruct (m !! c0) as [r|]; [by rewrite lookup_insert_ne by done|done]. }
  assert (m3 !! k = Some row) as Hm3.
  { unfold m3. apply (foldl_keeps (λ m : gmap Credential DRepRow, m !! k = Some row)); [done|]. intros m c0 Hin Hm. rewrite lookup_delete_ne; [done|congruence]. }
  cbn [andb negb orb] in Hs. rewrite andb_true_r, orb_false_r in Hs. cbv zeta. destruct (_ && _) in Hs |- *; exec_inv; subst c'.
  - split; [|done]. cbn [col_dreps]. eapply flush_row; [apply NoDup_fst_map_to_list|by apply elem_of_map_to_list|exact Hm3|eassumption].
  - subst a. by split.
Qed.

Lemma save_returns x p issuer h pp dormant epoch c : fragment_built x → (∀ k, is_Some (ctx_accounts x !! k) → is_Some (stored_account c k)) →
  slot_to_epoch h (point_slot p) (point_slot p) = Ok epoch → 0 <= dormant <= epoch + drep_expiry pp → epoch + drep_expiry pp <= u64_max →
  room dormant (col_dreps c) → (∀ k b r, registered (dreps (ctx_state x)) !! k = Some b → value b = Some r → reg_valid_until r + dormant <= u64_max) →
  ∃ c', save false h pp (Some dormant) (mkAnchored p issuer (ctx_state x)) c = Ok c'.
Proof.
  intros Hx Hst He Hd Hu Hroom Hreg. unfold save. destruct (is_stale _ _ && _); [by exists c|]. cbn [anchor_point fragment anchor_issuer]. rewrite He. cbn [mbind exec_bind default].
  unfold u64_add at 1, Epoch_sub, u64_sub at 1, id. rewrite (proj2 (Z.leb_le (epoch + drep_expiry pp) _)) by lia. cbn [mbind exec_bind]. rewrite (proj2 (Z.leb_le dormant _)) by lia. cbn [mbind exec_bind].
  destruct (accounts_add_returns (E := Overlay.StateError) (map_to_list (registered (accounts (ctx_state x)))) (Store.db_accounts (col_tables c), Store.recently_unregistered (col_tables c))) as [[accs unreg] ->].
  { intros k b Hk%elem_of_map_to_list Hb. apply Hst. by eapply built_registered. }
  cbn [mbind exec_bind]. destruct (foldl votes_add _ _) as [vs voting]. destruct (foldl (accounts_remove epoch) _ _) as [accs' unreg'].
  destruct (remove_dreps_returns (E := Overlay.StateError) (dreps_deregistrations (ctx_state x)) (elements (unregistered (dreps (ctx_state x)))) []) as [removed ->].
  { intros k Hk. apply (fb_deregistrations _ Hx). set_solver. }
  cbn [mbind exec_bind]. cbn [andb negb orb]. destruct ((0 <? dormant) && _ && true); [|by eexists].
  set (rows := foldl (λ m c, delete c m) _ removed). destruct (flush_dormant_returns (E := Overlay.StateError) dormant epoch (map_to_list rows) rows) as [rows' ->]; [|by eexists].
  assert (room dormant rows) as Hrows; [|apply Forall_forall; intros [k row] Hin%elem_of_map_to_list; by apply (Hrows k)].
  unfold rows. apply (foldl_keeps (room dormant)); [|intros; by apply room_delete].
  assert (room dormant (foldl (dreps_add (epoch + drep_expiry pp - dormant)) (col_dreps c) (map_to_list (registered (dreps (ctx_state x)))))) as Hr.
  { apply (foldl_keeps (room dormant)); [done|]. intros m [k b] Hin%elem_of_map_to_list Hm. apply room_add; [done|lia|]. intros r. by eapply Hreg. }
  case_decide; [|done]. apply (foldl_keeps (room dormant)); [done|]. intros. apply room_set; [done|lia].
Qed.
End ContextProps.
