(* ===== verification/LedgerState.v ===== *)
(** * The state of the ledger

    [amaru-ledger/src/state.rs]: the stable store, the volatile blocks on top of it, and
    how blocks are applied and forks switched to.

    Left to parameters: the keys that a block needs, the rules it is checked with, which
    work on the context of the block ([TransactionRules] has both), the background task for rewards and stake
    distributions, and the context of ratification.  The background task works on
    snapshots that do not change: its result is fixed when it starts.  Observers, metrics
    and tracing are not part of the model. *)

From S2P Require Import Prelude BTreeMap SortedAssoc UplcSyntax ProtocolParameters Governance EraHistory Summary ProposalsForest PoolsUpdates StakeSummary Ratification PhaseTwo EpochTransition Headers Fragments FragmentsProps Volatile VolatileReads BlockStore BlockContext.
#[local] Open Scope Z_scope.

(** ** What the state is built on *)

Inductive BackwardError := UnknownRollbackPoint | BeyondMaxRollback | RollbackPointInFuture.
(** A block that the rules refuse, or a failure of the ledger. *)
Inductive StateFailure :=
| InvalidBlock (p : Point)
| StateFailed (e : Overlay.StateError)
| Backward (e : BackwardError).

(** A computation of the background task: the distribution that it rotates, when it has to, and the rewards. *)
Definition RewardsComputation : Type := exec Overlay.StateError (option StakeDistribution * RewardsState.Computed).

Class LedgerParts `{Outputs} (Block : Type) := {
  point_of : Block → Point;
  issuer_of : Block → list Z;
  (** [rules::prepare_block] and [rules::validate_block]. *)
  prepare_block : Block → PreparationContext;
  validate_block : ProtocolParameters → Z → option (list Z) → Block → ValidationContext → exec StateFailure ValidationContext;
  (** [BackgroundTasks::run]: whether to rotate, the epoch, the two snapshots. *)
  background_tasks : bool → Z → ProtocolParameters → Columns → Columns → RewardsComputation;
  (** [RatificationContext::new]. *)
  ratification_context : Columns → StakeDistribution → ProtocolParameters → Z → exec Overlay.StateError RatificationContext }.

Section State.
Context `{Outputs} {Block : Type} `{!LedgerParts Block} `{Forest.UnstableSort}.

Record State := mkState {
  stable : Columns;
  snapshots : gmap Z Columns;
  volatile : VolatileDB;
  global_parameters : GlobalParameters;
  era_history : EraHistory;
  max_extra_ledger_snapshots : Z;
  stake_distributions : list StakeDistribution;
  rewards_join_handle : option RewardsComputation }.
(** [State::new_with] *)
Definition new_with (c : Columns) (old : gmap Z Columns) (epoch : Z) (h : EraHistory) (gp : GlobalParameters) (extra : Z) (pp : ProtocolParameters) (dormant : Z)
    (script : option (list Z)) (l : list StakeDistribution) : State :=
  mkState c old (VolatileDB_new epoch pp dormant script) gp h extra l None.
Definition immutable_tip (s : State) : Point := col_tip (stable s).
Definition set_stable (c : Columns) (old : gmap Z Columns) (s : State) : State :=
  mkState c old (volatile s) (global_parameters s) (era_history s) (max_extra_ledger_snapshots s) (stake_distributions s) (rewards_join_handle s).
Definition set_volatile (v : VolatileDB) (s : State) : State :=
  mkState (stable s) (snapshots s) v (global_parameters s) (era_history s) (max_extra_ledger_snapshots s) (stake_distributions s) (rewards_join_handle s).
Definition set_background (l : list StakeDistribution) (h : option RewardsComputation) (s : State) : State :=
  mkState (stable s) (snapshots s) (volatile s) (global_parameters s) (era_history s) (max_extra_ledger_snapshots s) l h.
Definition with_tables (t : Store.Tables) (c : Columns) : Columns := mkColumns (col_tip c) t (col_utxo c) (col_dreps c).

(** Code that can fail after it changed the state: what it leaves, and its outcome. *)
Definition Run (A : Type) : Type := State → State * exec StateFailure A.
#[global] Instance Run_ret : MRet Run := λ A a s, (s, Ok a).
#[global] Instance Run_bind : MBind Run := λ A B f m s,
  match m s with
  | (s, Ok a) => f a s
  | (s, Err e) => (s, Err e)
  | (s, Panic) => (s, Panic)
  | (s, OutOfFuel) => (s, OutOfFuel)
  end.
Definition get : Run State := λ s, (s, Ok s).
Definition update (f : State → State) : Run unit := λ s, (f s, Ok tt).
Definition lift {A : Type} (m : exec StateFailure A) : Run A := λ s, (s, m).

Definition state_epoch (s : State) : Z := db_epoch (volatile s).
Definition volatile_tip (s : State) : option Point := anchor_point <$> db_view_back (volatile s).
Definition tip (s : State) : Point := default (immutable_tip s) (volatile_tip s).

(** [unsafe_slot_to_epoch]; [unwrap_or_default] on a slot. *)
Definition unsafe_slot_to_epoch {E : Type} (h : EraHistory) (slot : Z) : exec E Z :=
  match slot_to_epoch_unchecked_horizon h slot with Ok e => Ok e | OutOfFuel => OutOfFuel | _ => Panic end.
Definition unwrap_or_default {E F : Type} (m : exec E Z) : exec F Z :=
  match m with Ok n => Ok n | Err _ => Ok 0 | Panic => Panic | OutOfFuel => OutOfFuel end.
Definition for_epoch (epoch : Z) (s : State) : exec Overlay.StateError Columns := ok_or Overlay.Storage (snapshots s !! epoch).

(** *** Blocks that become stable *)
Definition apply_block (x : AnchoredVolatileFragment) : Run unit :=
  s ← get;
  epoch ← lift (unsafe_slot_to_epoch (era_history s) (point_slot (anchor_point x)));
  pp ← lift (db_protocol_parameters_for epoch (volatile s));
  pp ← lift (or_panic pp);
  ga ← lift (db_governance_activity_for epoch (volatile s));
  ga ← lift (or_panic ga);
  c ← lift (map_err StateFailed (save false (era_history s) pp (Some ga) x (stable s)));
  let pots := Store.db_pots (col_tables c) in
  fees ← lift (u64_add (Summary.fees pots) (Fragments.fees (fragment x)));
  donations ← lift (u64_add (Summary.donations pots) (Fragments.donations (fragment x)));
  update (λ s, set_stable (with_tables (Store.set_progress None (Store.set_pots (Summary.mkPots (Summary.treasury pots) (Summary.reserves pots) fees donations) (col_tables c))) c)
                 (snapshots s) s).

(** *** Epoch boundaries *)

(** [most_recent_snapshot], which keeps the answer. *)
Definition cached_snapshot (epoch : option Z) (o : Overlay.StateOverlay) : Overlay.StateOverlay :=
  Overlay.mkStateOverlay (Overlay.epoch o) epoch (Overlay.overlay_rewards o) (Overlay.pools_updates o) (Overlay.governance_updates o) (Overlay.treasury_delta o).
Definition with_rewards (r : RewardsState.RewardsState) (o : Overlay.StateOverlay) : Overlay.StateOverlay :=
  Overlay.mkStateOverlay (Overlay.epoch o) (Overlay.most_recent_snapshot o) r (Overlay.pools_updates o) (Overlay.governance_updates o) (Overlay.treasury_delta o).
Definition most_recent_snapshot : Run Z :=
  s ← get;
  match Overlay.most_recent_snapshot (vd_overlay (volatile s)) with
  | Some epoch => mret epoch
  | None =>
      match elements (dom (snapshots s)) with
      | [] => lift Panic
      | epoch :: epochs =>
          let latest := foldr Z.max epoch epochs in
          _ ← update (set_volatile (set_overlay (cached_snapshot (Some latest) (vd_overlay (volatile s))) (volatile s)));
          mret latest
      end
  end.

Definition try_compute_rewards : Run unit :=
  s ← get;
  let slot := point_slot (tip s) in
  current_epoch ← lift (unsafe_slot_to_epoch (era_history s) slot);
  relative ← lift (unwrap_or_default (slot_in_epoch (era_history s) slot slot));
  if negb (rewards_not_ready (volatile s)) || is_some (rewards_join_handle s) then mret tt
  else
    latest ← most_recent_snapshot;
    if (1 <=? current_epoch) && (latest =? current_epoch - 1) && (gp_stability_window (global_parameters s) <=? relative) then
      e1 ← lift (Epoch_sub current_epoch 1);
      previous_epoch ← lift (map_err StateFailed (for_epoch e1 s));
      e3 ← lift (Epoch_sub current_epoch 3);
      rewards_snapshot ← lift (map_err StateFailed (for_epoch e3 s));
      let rotation := match stake_distributions s with front :: _ => negb (e1 <=? sd_epoch front) | [] => true end in
      update (set_background (stake_distributions s)
                (Some (background_tasks rotation current_epoch (db_protocol_parameters (volatile s)) previous_epoch rewards_snapshot)))
    else mret tt.

Definition install_stake_distribution (d : StakeDistribution) (l : list StakeDistribution) : list StakeDistribution :=
  if match l with front :: _ => sd_epoch front <? sd_epoch d | [] => true end then take 2 (d :: l) else l.

(** The rewards of the closing epoch: those of the background task, or those that a
    rollback gave back. *)
Definition join_rewards : Run (option RewardsState.Computed) :=
  s ← get;
  match rewards_join_handle s with
  | Some handle =>
      _ ← update (set_background (stake_distributions s) None);
      r ← lift (map_err StateFailed handle);
      let '(rotated, rewards) := (r : option StakeDistribution * RewardsState.Computed) in
      _ ← update (λ s, set_background (from_option (λ d, install_stake_distribution d (stake_distributions s)) (stake_distributions s) rotated) None s);
      mret (Some rewards)
  | None =>
      let '(computed, rewards) := RewardsState.take_computed_rewards (Overlay.overlay_rewards (vd_overlay (volatile s))) in
      _ ← update (set_volatile (set_overlay (with_rewards rewards (vd_overlay (volatile s))) (volatile s)));
      mret computed
  end.
Definition find_stake_distribution (epoch : Z) (l : list StakeDistribution) : option StakeDistribution :=
  List.find (λ d, sd_epoch d =? epoch) l.

Definition epoch_transition (next_epoch : Z) : Run unit :=
  computed ← join_rewards;
  s ← get;
  back ← lift (Epoch_sub next_epoch 2);
  let v := volatile s in
  let pp := db_protocol_parameters v in
  let context treasury :=
    t ← for_epoch back s;
    d ← ok_or (Overlay.NoSuitableStakeDistribution back) (find_stake_distribution back (stake_distributions s));
    ratification_context t d pp treasury in
  view ← lift (VolatileView_new v (col_tables (stable s)));
  o ← lift (map_err StateFailed (Overlay.epoch_transition (era_history s) next_epoch computed context view
                                   (col_tables (stable s)) (vd_overlay v)));
  v ← lift (db_transition (λ _, Ok o) v);
  update (set_volatile v).
Definition try_epoch_transition (next_tip : Point) : Run unit :=
  s ← get;
  next_epoch ← lift (unsafe_slot_to_epoch (era_history s) (point_slot next_tip));
  if state_epoch s <? next_epoch then epoch_transition next_epoch else mret tt.

(** [is_epoch_transition_stable] *)
Definition is_epoch_transition_stable {E : Type} (h : EraHistory) (gp : GlobalParameters) (db : VolatileDB) : exec E bool :=
  if Overlay.is_empty (vd_overlay db) then Ok false
  else
    match view_front (vd_draining db) with
    | None => Ok true
    | Some _ =>
        let absolute_slot := from_option (λ x, point_slot (anchor_point x)) 0 (view_back (vd_current db)) in
        relative_slot ← unwrap_or_default (slot_in_epoch h absolute_slot absolute_slot);
        Ok (gp_stability_window gp <=? relative_slot)
    end.
(** [VolatileDB::apply_transition]: the globals are those that the transition enacted.
    The rewards are taken even when it fails.  Unless an interrupted transition took it
    before, a snapshot of the closing epoch is taken: the columns that the boundary does
    not write are those of the store. *)
Definition takes_snapshot (c : Columns) : bool := match Store.progress (col_tables c) with Some Store.SnapshotTaken => false | _ => true end.
Definition flush_transition : Run unit :=
  s ← get;
  let v := volatile s in
  let c := stable s in
  match Overlay.apply (vd_overlay v) (Overlay.mkDb (col_tables c) (col_tables <$> snapshots s)) with
  | Ok (updated, o, db) =>
      let v := set_overlay o v in
      let v := match updated with
               | Some (pp, dormant, script) => mkVolatileDB (vd_current v) (vd_draining v) (vd_overlay v) pp dormant script
               | None => v
               end in
      let ended := Overlay.epoch o - 1 in
      let taken := match Overlay.snapshots db !! ended with
                   | Some t => if takes_snapshot c then <[ended := with_tables t c]> (snapshots s) else snapshots s
                   | None => snapshots s
                   end in
      update (λ s, set_volatile v (set_stable (with_tables (Overlay.tables db) c) taken s))
  | Err e =>
      _ ← update (set_volatile (set_overlay (with_rewards RewardsState.NotReady (vd_overlay v)) v));
      lift (Err (StateFailed e))
  | Panic => lift Panic
  | OutOfFuel => lift OutOfFuel
  end.
Fixpoint apply_blocks (l : list AnchoredVolatileFragment) : Run unit :=
  match l with [] => mret tt | x :: l => _ ← apply_block x; apply_blocks l end.
Definition MIN_LEDGER_SNAPSHOTS : Z := 3.
Definition prune_snapshots (functional_minimum : Z) (s : State) : State :=
  let desired_minimum := Z.max 0 (functional_minimum - max_extra_ledger_snapshots s) in
  set_stable (stable s) (filter (λ x, desired_minimum <= x.1) (snapshots s)) s.
Definition apply_transition : Run unit :=
  s ← get;
  ready ← lift (is_epoch_transition_stable (era_history s) (global_parameters s) (volatile s));
  if (ready : bool) then
    let '(tail, v) := epoch_tail (volatile s) in
    _ ← update (set_volatile v);
    _ ← apply_blocks (default [] tail);
    _ ← flush_transition;
    s ← get;
    minimum ← lift (Epoch_sub (state_epoch s) MIN_LEDGER_SNAPSHOTS);
    update (prune_snapshots minimum)
  else mret tt.

(** *** Applying a block *)

Definition push_fragment (x : AnchoredVolatileFragment) : Run (option AnchoredVolatileFragment) :=
  s ← get;
  now_stable ← (if consensus_security_param (global_parameters s) <=? Z.of_nat (db_len (volatile s)) then
                  r ← lift (db_pop_front (volatile s));
                  match r with
                  | Some (popped, v) => _ ← update (set_volatile v); mret (Some popped)
                  | None => lift Panic
                  end
                else mret None);
  s ← get;
  v ← lift (db_push_back x (volatile s));
  _ ← update (set_volatile v);
  mret now_stable.

(** [create_block_validation_context] *)
Definition create_block_validation_context (block : Block) : Run ValidationContext :=
  s ← get;
  let roots := match Overlay.governance_updates (vd_overlay (volatile s)) with
               | Some u => GovernanceUpdates.roots u
               | None => Store.proposals_roots (col_tables (stable s))
               end in
  lift (map_err (λ _, StateFailed Overlay.ContextHydratation) (into_validation_context Defer roots (volatile s) (stable s) (prepare_block block))).

Definition roll_forward (block : Block) : Run unit :=
  let p := point_of block in
  _ ← try_compute_rewards;
  _ ← try_epoch_transition p;
  context ← create_block_validation_context block;
  s ← get;
  ga ← lift (db_governance_activity (volatile s));
  context ← lift (validate_block (db_protocol_parameters (volatile s)) ga (db_guardrail_script (volatile s)) block context);
  now_stable ← push_fragment (mkAnchored p (issuer_of block) (ctx_state context));
  _ ← (match now_stable with Some x => apply_block x | None => mret tt end);
  apply_transition.

(** *** Switching to a fork *)

Inductive StateRecovery :=
| RecoverWholeVolatileDB (v : VolatileDB)
| RecoverVolatileDBPart (recovery : DbGuard).
Record RollbackGuard := mkRollbackGuard { guard_immutable_tip : Point; guard_kind : StateRecovery }.
Definition rollback_length (g : RollbackGuard) : nat :=
  match guard_kind g with RecoverWholeVolatileDB v => db_len v | RecoverVolatileDBPart r => recovery_length (recovery r) end.

Definition rollback_to (to : Point) : Run RollbackGuard :=
  s ← get;
  let itip := immutable_tip s in
  let vtip := default itip (volatile_tip s) in
  if decide (to = itip) then
    r ← lift (db_clear (volatile s));
    let '(old, v) := (r : VolatileDB * VolatileDB) in
    _ ← update (set_volatile v);
    mret (mkRollbackGuard itip (RecoverWholeVolatileDB old))
  else
    match Point_cmp to itip, Point_cmp to vtip with
    | Lt, _ => lift (Err (Backward BeyondMaxRollback))
    | _, Gt => lift (Err (Backward RollbackPointInFuture))
    | _, _ =>
        r ← lift (map_err (λ _, Backward UnknownRollbackPoint) (db_rollback_to to (volatile s)));
        let '(g, v) := (r : DbGuard * VolatileDB) in
        _ ← update (set_volatile v);
        mret (mkRollbackGuard itip (RecoverVolatileDBPart g))
    end.
Definition recover (g : RollbackGuard) : Run unit :=
  s ← get;
  if decide (immutable_tip s = guard_immutable_tip g) then
    match guard_kind g with
    | RecoverWholeVolatileDB v => update (set_volatile v)
    | RecoverVolatileDBPart r => v ← lift (db_undo_rollback r (volatile s)); update (set_volatile v)
    end
  else lift Panic.

Inductive SwitchOutcome := SwitchCompleted | SwitchPartial (applied_tip failure : Point) | SwitchFailed (failure : Point).

(** The blocks of the fork, one by one, until one does not apply. *)
Fixpoint replay (guard : RollbackGuard) (initial_immutable_tip applied_tip : Point) (blocks : list Block) : Run SwitchOutcome :=
  match blocks with
  | [] => mret SwitchCompleted
  | block :: blocks => λ s,
      match roll_forward block s with
      | (s, Ok _) => replay guard initial_immutable_tip (point_of block) blocks s
      | (s, Err (InvalidBlock failure)) =>
          if decide (immutable_tip s = initial_immutable_tip) then (_ ← recover guard; mret (SwitchFailed failure)) s
          else (s, Ok (SwitchPartial applied_tip failure))
      | (s, Err e) =>
          if decide (immutable_tip s = initial_immutable_tip) then (_ ← recover guard; lift (Err e)) s else (s, Err e)
      | (s, Panic) => (s, Panic)
      | (s, OutOfFuel) => (s, OutOfFuel)
      end
  end.
Definition switch_to_fork (fork_point : Point) (blocks : list Block) : Run SwitchOutcome :=
  s ← get;
  let initial_immutable_tip := immutable_tip s in
  guard ← rollback_to fork_point;
  let fork_length := length blocks in
  if (fork_length <? rollback_length guard)%nat || (rollback_length guard + 1 <? fork_length)%nat then
    _ ← recover guard;
    lift (Err (StateFailed (Overlay.InvalidForkLength (rollback_length guard) fork_length)))
  else replay guard initial_immutable_tip initial_immutable_tip blocks.
End State.
