(* ===== verification/LedgerProps.v ===== *)
(** * The state of the ledger goes forward, or stays

    A block that is applied is the new tip; a block that is refused leaves the store as
    it was; and a switch to a fork that fails gives back the volatile database it started from, and the store
    unless the fork wrote an epoch boundary: what is then in the store is at the end. *)

From stdpp Require Import sorting.
From S2P Require Import Prelude BTreeMap SortedAssoc UplcSyntax ProtocolParameters Governance EraHistory Summary ProposalsForest PoolsUpdates StakeSummary Ratification PhaseTwo EpochTransition Headers Fragments FragmentsProps Volatile VolatileReads BlockStore BlockContext LayeredView ContextProps LedgerState.
#[local] Open Scope Z_scope.

Section LedgerProps.
Context `{Outputs} {Block : Type} `{!LedgerParts Block} `{Forest.UnstableSort}.
Implicit Types (s : State) (v : VolatileDB) (x : AnchoredVolatileFragment).

(** ** Runs *)
Lemma run_bind_Ok {A B : Type} (m : Run A) (f : A → Run B) s s' b : (m ≫= f) s = (s', Ok b) ↔ ∃ a s1, m s = (s1, Ok a) ∧ f a s1 = (s', Ok b).
Proof. unfold mbind, Run_bind. destruct (m s) as [s1 [a|e| |]]; naive_solver. Qed.
Lemma run_bind_Err {A B : Type} (m : Run A) (f : A → Run B) s s' e : (m ≫= f) s = (s', Err e) ↔
  m s = (s', Err e) ∨ ∃ a s1, m s = (s1, Ok a) ∧ f a s1 = (s', Err e).
Proof. unfold mbind, Run_bind. destruct (m s) as [s1 [a|e'| |]]; naive_solver. Qed.
Lemma get_Ok s s' (a : State) : get s = (s', Ok a) ↔ s' = s ∧ a = s.
Proof. unfold get. naive_solver. Qed.
Lemma update_Ok f s s' u : update f s = (s', Ok u) ↔ s' = f s.
Proof. unfold update. destruct u. naive_solver. Qed.
Lemma lift_Ok {A : Type} (m : exec StateFailure A) s s' a : lift m s = (s', Ok a) ↔ s' = s ∧ m = Ok a.
Proof. unfold lift. naive_solver. Qed.
Lemma ret_Ok {A : Type} (a b : A) s s' : (mret a : Run A) s = (s', Ok b) ↔ s' = s ∧ b = a.
Proof. unfold mret, Run_ret. naive_solver. Qed.

(** Steps of a run, one by one. *)
Ltac run :=
  repeat match goal with
  | H : (mbind _ _) _ = (_, Ok _) |- _ => apply run_bind_Ok in H as (? & ? & ? & H)
  | H : get _ = (_, Ok _) |- _ => apply get_Ok in H as [? ?]; subst
  | H : update _ _ = (_, Ok _) |- _ => apply update_Ok in H; subst
  | H : lift _ _ = (_, Ok _) |- _ => apply lift_Ok in H as [? ?]; subst
  | H : mret _ _ = (_, Ok _) |- _ => apply ret_Ok in H as [? ?]; subst
  end.

(** *** What a run leaves alone: the store, and the volatile blocks but for details of the overlay *)
Definition same_overlay (o o' : Overlay.StateOverlay) : Prop := Overlay.epoch o' = Overlay.epoch o ∧ Overlay.is_empty o' = Overlay.is_empty o.
Definition keeps s s' : Prop :=
  stable s' = stable s ∧ snapshots s' = snapshots s ∧ era_history s' = era_history s ∧
  ∃ o, volatile s' = set_overlay o (volatile s) ∧ same_overlay (vd_overlay (volatile s)) o.
Lemma keeps_same s s' : stable s' = stable s → snapshots s' = snapshots s → era_history s' = era_history s → volatile s' = volatile s → keeps s s'.
Proof. intros H1 H2 H3 H4. split_and!; try done. exists (vd_overlay (volatile s)). rewrite H4. by destruct (volatile s). Qed.

Lemma most_recent_snapshot_keeps s s' n : most_recent_snapshot s = (s', Ok n) → keeps s s'.
Proof.
  unfold most_recent_snapshot. intros Hr. run. destruct (Overlay.most_recent_snapshot _); run; [by apply keeps_same|].
  destruct (elements _); run; [done|]. split_and!; try done. by eexists.
Qed.
Lemma try_compute_rewards_keeps s s' u : try_compute_rewards s = (s', Ok u) → keeps s s'.
Proof.
  unfold try_compute_rewards. intros Hr. run. destruct (_ || _); run; [by apply keeps_same|].
  match goal with Hm : most_recent_snapshot _ = _ |- _ => apply most_recent_snapshot_keeps in Hm end.
  destruct (_ && _); run; done.
Qed.
Lemma join_rewards_keeps s s' r : join_rewards s = (s', Ok r) →
  stable s' = stable s ∧ snapshots s' = snapshots s ∧ era_history s' = era_history s ∧ ∃ o, volatile s' = set_overlay o (volatile s).
Proof.
  unfold join_rewards. intros Hr. run. destruct (rewards_join_handle s); run.
  - match goal with r : option StakeDistribution * RewardsState.Computed |- _ => destruct r end. run. split_and!; try done.
    exists (vd_overlay (volatile s)). cbn. by destruct (volatile s).
  - destruct (RewardsState.take_computed_rewards _). run. split_and!; try done. by eexists.
Qed.

(** What crossing a boundary does to the series. *)
Definition crosses s s' : Prop :=
  stable s' = stable s ∧ snapshots s' = snapshots s ∧ era_history s' = era_history s ∧ sequence (vd_draining (volatile s)) = [] ∧
  ∃ o, volatile s' = set_overlay o (set_series series_default (vd_current (volatile s)) (volatile s)).
Lemma epoch_transition_crosses e s s' u : epoch_transition e s = (s', Ok u) → crosses s s'.
Proof.
  unfold epoch_transition. intros Hr. run.
  match goal with Hj : join_rewards _ = _ |- _ => apply join_rewards_keeps in Hj as (K1 & K2 & K3 & o & Ho) end.
  match goal with Ht : db_transition _ _ = Ok _ |- _ => apply transition_series in Ht as (o' & Hd & ->) end. rewrite Ho in Hd.
  split_and!; try done. exists o'. cbn. by rewrite Ho.
Qed.
Lemma try_epoch_transition_cases p s s' u : try_epoch_transition p s = (s', Ok u) → s' = s ∨ crosses s s'.
Proof. unfold try_epoch_transition. intros Hr. run. destruct (_ <? _); [right; by eapply epoch_transition_crosses|]. run. by left. Qed.

(** *** Blocks and boundaries that become stable *)
Lemma save_tip inc h pp ga x c c' : save inc h pp ga x c = Ok c' → is_stale (anchor_point x) (col_tip c) = false → col_tip c' = anchor_point x.
Proof.
  intros Hs Hst. unfold save in Hs. rewrite Hst in Hs. cbn [andb] in Hs.
  apply bind_Ok in Hs as (epoch & _ & Hs). apply bind_Ok in Hs as (e & _ & Hs). apply bind_Ok in Hs as (validity & _ & Hs). apply bind_Ok in Hs as (st & _ & Hs). destruct st as [accs unreg].
  destruct (foldl votes_add _ _) as [vs voting]. destruct (foldl (accounts_remove epoch) _ _) as [accs' unreg'].
  apply bind_Ok in Hs as (removed & _ & Hs). destruct ga as [dormant|]; [apply bind_Ok in Hs as (dr & _ & Hs)|]; injection Hs as <-; done.
Qed.
Lemma before_not_stale p tip : point_before tip p → is_stale p tip = false.
Proof. destruct p, tip; cbn; try done. intros. by apply Z.leb_gt. Qed.
Lemma apply_block_Ok x s s' u : apply_block x s = (s', Ok u) → point_before (immutable_tip s) (anchor_point x) →
  immutable_tip s' = anchor_point x ∧ volatile s' = volatile s ∧ snapshots s' = snapshots s ∧ era_history s' = era_history s.
Proof.
  unfold apply_block. intros Hr Hp. run. split_and!; try done. cbn.
  match goal with Hs : map_err _ (save _ _ _ _ _ _) = Ok _ |- _ => apply map_err_Ok, save_tip in Hs; [done|] end. by apply before_not_stale.
Qed.
Lemma apply_blocks_Ok l : ∀ s s' u, apply_blocks l s = (s', Ok u) → in_order l → Forall (λ x, point_before (immutable_tip s) (anchor_point x)) l →
  immutable_tip s' = default (immutable_tip s) (anchor_point <$> last l) ∧ volatile s' = volatile s ∧ snapshots s' = snapshots s ∧ era_history s' = era_history s.
Proof.
  induction l as [|x l IH]; intros s s' u Hr Ho Hp; cbn [apply_blocks] in Hr; run; [done|].
  apply Forall_cons in Hp as [Hp _]. apply StronglySorted_inv in Ho as [Ho Hx].
  match goal with Hb : apply_block _ _ = _ |- _ => apply apply_block_Ok in Hb as (K1 & K2 & K3 & K4); [|done] end.
  apply IH in Hr as (J1 & J2 & J3 & J4); [|done|rewrite K1; exact Hx]. rewrite J1, J2, J3, J4, K1, K2, K3, K4. split_and!; try done. rewrite last_cons. by destruct (last l).
Qed.
(** The blocks that are left are after the new tip. *)
Lemma in_order_last l1 l2 (p : Point) : in_order (l1 ++ l2) → Forall (λ x, point_before p (anchor_point x)) (l1 ++ l2) →
  Forall (λ x, point_before (default p (anchor_point <$> last l1)) (anchor_point x)) l2.
Proof.
  intros (_ & _ & Ho)%in_order_app [_ Hp]%Forall_app. destruct (last l1) as [y|] eqn:Hl; [|done]. cbn. apply Forall_forall. intros x Hx.
  apply Ho; [|done]. apply last_Some in Hl as [l' ->]. set_solver.
Qed.
Lemma flush_Ok s s' u : flush_transition s = (s', Ok u) →
  immutable_tip s' = immutable_tip s ∧ vd_current (volatile s') = vd_current (volatile s) ∧ vd_draining (volatile s') = vd_draining (volatile s).
Proof.
  unfold flush_transition. intros Hr. run. destruct (Overlay.apply _ _) as [[[updated o] db]|e| |]; run; try done.
  by destruct updated as [[[? ?] ?]|].
Qed.

(** ** Order *)
Definition after_tip s : Prop := Forall (λ x, point_before (immutable_tip s) (anchor_point x)) (db_iter (volatile s)).
Definition ordered s : Prop := in_order (db_iter (volatile s)) ∧ after_tip s.
Definition at_or_after (p q : Point) : Prop := q = p ∨ point_before p q.
Lemma at_or_after_trans p q r : at_or_after p q → at_or_after q r → at_or_after p r.
Proof. intros [->|H1] [->|H2]; [by left|by right|by right|]. right. by trans q. Qed.
Lemma point_before_irrefl p : ~ point_before p p.
Proof. destruct p; cbn; [tauto|lia]. Qed.
Lemma at_or_after_back p q : at_or_after p q → at_or_after q p → q = p.
Proof. intros [->|H1] [H2|H2]; try done. destruct (point_before_irrefl p). by trans q. Qed.

Lemma db_back_iter v : db_view_back v = last (db_iter v).
Proof. unfold db_view_back, view_back, db_iter. rewrite last_app. by destruct (last (sequence (vd_current v))). Qed.
Lemma tip_after s : ordered s → at_or_after (immutable_tip s) (tip s).
Proof.
  intros [_ Ha]. unfold tip, volatile_tip. rewrite db_back_iter. destruct (last (db_iter (volatile s))) as [x|] eqn:Hl; [right|by left]. cbn.
  apply last_Some in Hl as [l Hl]. unfold after_tip in Ha. rewrite Hl in Ha. apply Forall_app in Ha as [_ Ha]. by apply Forall_cons in Ha as [Ha _].
Qed.
(** A block after the tip is after all the volatile blocks. *)
Lemma push_order s (x : AnchoredVolatileFragment) : ordered s → point_before (tip s) (anchor_point x) →
  in_order (db_iter (volatile s) ++ [x]) ∧ Forall (λ y, point_before (immutable_tip s) (anchor_point y)) (db_iter (volatile s) ++ [x]).
Proof.
  intros Ho Hp. pose proof (tip_after s Ho) as Ht. destruct Ho as [Ho Ha]. split.
  - apply in_order_app. split_and!; [done|repeat constructor|]. intros y z Hy ->%list_elem_of_singleton. unfold follows.
    unfold tip, volatile_tip in Hp. rewrite db_back_iter in Hp. destruct (last (db_iter (volatile s))) as [w|] eqn:Hl; [|apply last_None in Hl; rewrite Hl in Hy; set_solver].
    cbn in Hp. apply last_Some in Hl as [l Hl]. rewrite Hl in Ho, Hy. apply elem_of_app in Hy as [Hy|Hy]; [|by apply list_elem_of_singleton in Hy as ->].
    apply in_order_app in Ho as (_ & _ & Ho). transitivity (anchor_point w); [|done]. apply Ho; set_solver.
  - apply Forall_app. split; [done|]. constructor; [|done]. destruct Ht as [Ht|Ht]; [by rewrite <- Ht|by trans (tip s)].
Qed.

Lemma pop_front_sequence {E : Type} sr x sr' : pop_front (E := E) sr = Ok (Some (x, sr')) → sequence sr = x :: sequence sr'.
Proof. unfold pop_front. destruct (sequence sr) as [|y l]; [done|]. intros (a & _ & Hr)%bind_Ok. by injection Hr as <- <-. Qed.
Lemma pop_front_none {E : Type} sr : pop_front (E := E) sr = Ok None → sequence sr = [].
Proof. unfold pop_front. destruct (sequence sr) as [|y l]; [done|]. intros (a & _ & Hr)%bind_Ok. done. Qed.
Lemma db_pop_front_iter {E : Type} v x v' : db_pop_front (E := E) v = Ok (Some (x, v')) → db_iter v = x :: db_iter v'.
Proof.
  unfold db_pop_front. intros (r & Hr & Hp)%bind_Ok. destruct r as [[y sr]|].
  - injection Hp as <- <-. apply pop_front_sequence in Hr. unfold db_iter. cbn. by rewrite Hr.
  - apply bind_Ok in Hp as (r & Hr' & Hp). destruct r as [[y sr]|]; [|done]. injection Hp as <- <-. apply pop_front_none in Hr. apply pop_front_sequence in Hr'.
    unfold db_iter. cbn. by rewrite Hr, Hr'.
Qed.
Lemma db_push_back_iter {E : Type} x v v' : db_push_back (E := E) x v = Ok v' → db_iter v' = db_iter v ++ [x].
Proof. intros (sr & -> & Hs & _)%push_series. unfold db_iter. cbn. by rewrite Hs, app_assoc. Qed.
Lemma db_push_back_any {E F : Type} x v v' : db_push_back (E := E) x v = Ok v' → db_push_back (E := F) x v = Ok v'.
Proof. unfold db_push_back, push_back. destruct (add_fragment (fragment x) (aggregate (vd_current v))); cbn; [by intros [= <-]|done]. Qed.

Lemma push_last {E : Type} x v v' : db_push_back (E := E) x v = Ok v' → last (sequence (vd_current v')) = Some x.
Proof. intros (sr & -> & Hs & _)%push_series. cbn. by rewrite Hs, last_snoc. Qed.
Lemma push_fragment_Ok x s s' r : push_fragment x s = (s', Ok r) → stable s' = stable s ∧ snapshots s' = snapshots s ∧ era_history s' = era_history s ∧
  last (sequence (vd_current (volatile s'))) = Some x ∧
  match r with
  | None => db_push_back (E := RollbackError) x (volatile s) = Ok (volatile s')
  | Some y => y :: db_iter (volatile s') = db_iter (volatile s) ++ [x]
  end.
Proof.
  unfold push_fragment. intros Hr. run. destruct (_ <=? _); run.
  - match goal with o : option (AnchoredVolatileFragment * VolatileDB) |- _ => destruct o as [[y v1]|]; run; [|done] end. split_and!; try done; cbn in *; [by eapply push_last|].
    match goal with Hp : db_pop_front _ = _, Hb : db_push_back _ _ = _ |- _ => apply db_pop_front_iter in Hp; apply db_push_back_iter in Hb; by rewrite Hb, Hp end.
  - split_and!; try done; cbn in *; [by eapply push_last|]. by eapply db_push_back_any.
Qed.

(** A pending boundary waits for the blocks of the closing epoch. *)
Definition waiting v : Prop := Overlay.is_empty (vd_overlay v) = true ∨ sequence (vd_draining v) ≠ [].
Lemma prune_snapshots_keeps n s : stable (prune_snapshots n s) = stable s ∧ volatile (prune_snapshots n s) = volatile s ∧ era_history (prune_snapshots n s) = era_history s.
Proof. done. Qed.
Lemma apply_transition_Ok s s' u : apply_transition s = (s', Ok u) → ordered s →
  ordered s' ∧ vd_current (volatile s') = vd_current (volatile s) ∧ at_or_after (immutable_tip s) (immutable_tip s') ∧
  (waiting (volatile s) → s' = s ∨ point_before (immutable_tip s) (immutable_tip s')).
Proof.
  unfold apply_transition. intros Hr [Ho Ha]. run. match goal with r : bool |- _ => destruct r; run; [|split_and!; [done|done|by left|by left]] end.
  unfold is_epoch_transition_stable, epoch_tail in *. destruct (Overlay.is_empty (vd_overlay (volatile s))) eqn:He; [done|].
  destruct (sequence (vd_draining (volatile s))) as [|y l] eqn:Hd; run.
  - cbn [default apply_blocks] in *. run. match goal with Hf : flush_transition _ = _ |- _ => apply flush_Ok in Hf as (J1 & J2 & J3) end. cbn in J1, J2, J3.
    unfold ordered, after_tip, db_iter in *. cbn. unfold prune_snapshots, immutable_tip in *. cbn. rewrite J1, J2, J3. split_and!; try done; [by left|].
    intros [Hw|Hw]; [congruence|]. by rewrite Hd in Hw.
  - match goal with Hb : apply_blocks _ _ = _ |- _ => apply apply_blocks_Ok in Hb as (K1 & K2 & K3 & K4) end.
    2: { unfold db_iter in Ho. rewrite Hd in Ho. by apply in_order_app in Ho as [Ho _]. }
    2: { unfold after_tip, db_iter in Ha. rewrite Hd in Ha. by apply Forall_app in Ha as [Ha _]. }
    match goal with Hf : flush_transition _ = _ |- _ => apply flush_Ok in Hf as (J1 & J2 & J3) end. rewrite K2 in J2, J3. change (immutable_tip (set_volatile _ s)) with (immutable_tip s) in K1. cbn [default from_option id] in K1. cbn in J2, J3.
    unfold after_tip, db_iter in Ho, Ha. rewrite Hd in Ho, Ha. pose proof (in_order_last _ _ _ Ho Ha) as Hx. rewrite <- K1 in Hx.
    assert (point_before (immutable_tip s) (default (immutable_tip s) (anchor_point <$> last (y :: l)))) as Hb.
    { rewrite last_cons. apply Forall_app in Ha as [Ha _]. destruct (last l) as [z|] eqn:Hz; cbn; [|by apply Forall_cons in Ha as [Ha _]].
      apply last_Some in Hz as [l' ->]. apply Forall_cons in Ha as [_ Ha]. apply Forall_app in Ha as [_ Ha]. by apply Forall_cons in Ha as [Ha _]. }
    rewrite <- K1, <- J1 in Hb. rewrite <- J1 in Hx. apply in_order_app in Ho as (_ & Ho & _).
    unfold ordered, after_tip, db_iter. cbn. rewrite J2, J3. cbn. split_and!; [done|exact Hx|done|by right|by intros _; right].
Qed.

(** ** Going forward *)
Lemma keeps_iter s s' : keeps s s' → db_iter (volatile s') = db_iter (volatile s) ∧ immutable_tip s' = immutable_tip s ∧ (waiting (volatile s) → waiting (volatile s')) ∧
  state_epoch s' = state_epoch s.
Proof.
  intros (H1 & _ & _ & o & Ho & He & Hi). rewrite Ho. unfold immutable_tip. rewrite H1. split_and!; try done.
  - unfold waiting. cbn. by rewrite Hi.
  - unfold state_epoch. by rewrite Ho.
Qed.
Lemma crosses_iter s s' : crosses s s' → db_iter (volatile s') = db_iter (volatile s) ∧ immutable_tip s' = immutable_tip s.
Proof. intros (H1 & _ & _ & Hd & o & Ho). rewrite Ho. unfold db_iter, immutable_tip. cbn. rewrite H1, Hd. by rewrite app_nil_r. Qed.
Lemma same_iter s s' : db_iter (volatile s') = db_iter (volatile s) → immutable_tip s' = immutable_tip s → (ordered s → ordered s') ∧ tip s' = tip s.
Proof. intros H1 H2. unfold ordered, after_tip, tip, volatile_tip. rewrite !db_back_iter, H1, H2. done. Qed.

(** A block whose epoch is not after that of the state. *)
Definition stays (b : Block) s : Prop := ∀ e, unsafe_slot_to_epoch (E := StateFailure) (era_history s) (point_slot (point_of b)) = Ok e → e <= state_epoch s.
(** What comes before a block is validated. *)
Definition prepares (b : Block) s s2 : Prop := ∃ s1 u1 u2, try_compute_rewards s = (s1, Ok u1) ∧ try_epoch_transition (point_of b) s1 = (s2, Ok u2).
Lemma prepares_ok b s s2 : prepares b s s2 →
  stable s2 = stable s ∧ snapshots s2 = snapshots s ∧ era_history s2 = era_history s ∧ db_iter (volatile s2) = db_iter (volatile s) ∧ replays (volatile s) (volatile s2) ∧
  (waiting (volatile s) → sequence (vd_current (volatile s)) ≠ [] ∨ stays b s → waiting (volatile s2)).
Proof.
  intros (s1 & u1 & u2 & Hc & Ht). apply try_compute_rewards_keeps in Hc. pose proof (keeps_iter _ _ Hc) as (Ki & Kt & Kw & Ke).
  destruct Hc as (H1 & H2 & H3 & o & Ho & _). assert (replays (volatile s) (volatile s1)) as Hrep by (rewrite Ho; apply replays_overlay, replays_none).
  unfold try_epoch_transition in Ht. run. match goal with He : unsafe_slot_to_epoch _ _ = Ok ?e |- _ => rename He into Hslot, e into next end.
  destruct (Z.ltb_spec (state_epoch s1) next) as [Hlt|_]; run; [|split_and!; try done; intros; by apply Kw].
  apply epoch_transition_crosses in Ht. pose proof (crosses_iter _ _ Ht) as [Ci Ct]. destruct Ht as (C1 & C2 & C3 & C4 & o' & Co). split_and!; try congruence.
  - rewrite Co. apply (replays_transition _ _ (λ _, Ok o') _ Hrep). unfold db_transition. rewrite C4. done.
  - intros _ [Hne|Hst]; [right; rewrite Co; cbn; by rewrite Ho|]. exfalso. rewrite Ke in Hlt. rewrite H3 in Hslot. specialize (Hst next Hslot). lia.
Qed.

Record advanced (b : Block) s s' : Prop := {
  adv_ordered : ordered s';
  adv_tip : tip s' = point_of b;
  adv_current : sequence (vd_current (volatile s')) ≠ [];
  adv_immutable : at_or_after (immutable_tip s) (immutable_tip s');
  adv_unmoved : waiting (volatile s) → sequence (vd_current (volatile s)) ≠ [] ∨ stays b s → immutable_tip s' = immutable_tip s →
    stable s' = stable s ∧ snapshots s' = snapshots s ∧ era_history s' = era_history s ∧ replays (volatile s) (volatile s') ∧ waiting (volatile s') }.
Lemma create_context_same b s s' (ctx : ValidationContext) : create_block_validation_context b s = (s', Ok ctx) → s' = s.
Proof. unfold create_block_validation_context. intros Hr. by run. Qed.
Lemma roll_forward_Ok b s s' u : roll_forward b s = (s', Ok u) → ordered s → point_before (tip s) (point_of b) → advanced b s s'.
Proof.
  unfold roll_forward. intros Hr Ho Hp. apply run_bind_Ok in Hr as (u1 & s1 & Hc & Hr). apply run_bind_Ok in Hr as (u2 & s2 & Ht & Hr).
  destruct (prepares_ok b s s2 ltac:(by exists s1, u1, u2)) as (H1 & H2 & H3 & Hi & Hrep & Hw). clear Hc Ht.
  apply run_bind_Ok in Hr as (ctx & s3 & ->%create_context_same & Hr). run.
  destruct (same_iter s s2 Hi ltac:(unfold immutable_tip; by rewrite H1)) as [Ho2 Ht2]. specialize (Ho2 Ho). rewrite <- Ht2 in Hp.
  match goal with Hf : push_fragment ?y _ = (?t, _) |- _ => set (x := y) in *; rename t into s3; apply push_fragment_Ok in Hf as (P1 & P2 & P3 & Pl & Pr) end.
  destruct (push_order s2 x Ho2 Hp) as [Po Pa].
  assert (∃ s4, ordered s4 ∧ volatile s4 = volatile s3 ∧ at_or_after (immutable_tip s2) (immutable_tip s4) ∧ apply_transition s4 = (s', Ok u) ∧
    (immutable_tip s4 = immutable_tip s2 → s4 = s3 ∧ db_push_back (E := RollbackError) x (volatile s2) = Ok (volatile s3))) as (s4 & O4 & V4 & T4 & A4 & U4).
  { match goal with r : option AnchoredVolatileFragment |- _ => destruct r as [y|] end; run.
    - match goal with Hb : apply_block _ _ = (?t, _) |- _ => exists t; apply apply_block_Ok in Hb as (B1 & B2 & B3 & B4) end.
      2: { rewrite <- Pr in Pa. apply Forall_cons in Pa as [Pa _]. unfold immutable_tip. by rewrite P1. }
      rewrite <- Pr in Po, Pa. apply StronglySorted_inv in Po as [Po Py]. apply Forall_cons in Pa as [Pa _]. split_and!; try done.
      + split; [by rewrite B2|]. unfold after_tip. by rewrite B1, B2.
      + right. by rewrite B1.
      + rewrite B1. intros Heq. rewrite Heq in Pa. by apply point_before_irrefl in Pa.
    - exists s3. assert (immutable_tip s3 = immutable_tip s2) as He by (unfold immutable_tip; by rewrite P1). split_and!; try done; [|by left].
      unfold ordered, after_tip. rewrite He, (db_push_back_iter _ _ _ Pr). done. }
  destruct (apply_transition_Ok _ _ _ A4 O4) as (O' & C' & T' & U'). rewrite V4 in C', U'.
  assert (immutable_tip s2 = immutable_tip s) as E2 by (unfold immutable_tip; by rewrite H1).
  constructor.
  - done.
  - unfold tip, volatile_tip, db_view_back, view_back. by rewrite C', Pl.
  - rewrite C'. by intros Hn; rewrite Hn in Pl.
  - rewrite <- E2. by eapply at_or_after_trans.
  - intros Hwait Hcur Heq. rewrite <- E2 in Heq. assert (immutable_tip s4 = immutable_tip s2) as E4.
    { apply at_or_after_back; [done|]. by rewrite <- Heq. }
    destruct (U4 E4) as [-> Hpush]. pose proof Hpush as Hpi. apply push_series in Hpush as (sr & Hv3 & _ & _).
    assert (waiting (volatile s3)) as Hw3 by (rewrite Hv3; by apply Hw).
    destruct (U' Hw3) as [->|Hb]; [|rewrite Heq, E4 in Hb; by apply point_before_irrefl in Hb].
    split_and!; try congruence. apply (replays_push _ _ x _ Hrep Hpi). apply O4.
Qed.

(** ** A block that is refused

    Only the rules say that a block is invalid. *)
Definition not_invalid {A : Type} (m : exec StateFailure A) : Prop := ∀ p, m ≠ Err (InvalidBlock p).
Definition honest {A : Type} (m : Run A) : Prop := ∀ s, not_invalid (m s).2.
Lemma honest_bind {A B : Type} (m : Run A) (f : A → Run B) : honest m → (∀ a, honest (f a)) → honest (m ≫= f).
Proof. intros Hm Hf s p. specialize (Hm s p). unfold mbind, Run_bind. destruct (m s) as [s1 [a|e| |]]; cbn in *; [apply Hf|congruence..]. Qed.
Lemma honest_get : honest get. Proof. by intros s p. Qed.
Lemma honest_update f : honest (update f). Proof. by intros s p. Qed.
Lemma honest_ret {A : Type} (a : A) : honest (mret a). Proof. by intros s p. Qed.
Lemma honest_lift {A : Type} (m : exec StateFailure A) : not_invalid m → honest (lift m). Proof. intros Hm s p. apply Hm. Qed.
Lemma not_invalid_bind {A B : Type} (m : exec StateFailure A) (f : A → exec StateFailure B) : not_invalid m → (∀ a, not_invalid (f a)) → not_invalid (m ≫= f).
Proof. intros Hm Hf p. specialize (Hm p). destruct m; cbn in *; [apply Hf|congruence..]. Qed.
Lemma not_invalid_map_err {A E : Type} (m : exec E A) (f : E → StateFailure) : (∀ e p, f e ≠ InvalidBlock p) → not_invalid (map_err f m).
Proof. intros Hf p. destruct m; cbn; try done. intros [= Heq]. by apply Hf in Heq. Qed.

Ltac honest :=
  repeat first
    [ progress intros
    | apply honest_bind | apply honest_get | apply honest_update | apply honest_ret | apply honest_lift
    | apply not_invalid_bind | (apply not_invalid_map_err; done)
    | match goal with |- not_invalid (match ?x with _ => _ end) => destruct x | |- honest (match ?x with _ => _ end) => destruct x
                    | |- not_invalid (let _ := _ in _) => cbv zeta | |- honest (let _ := _ in _) => cbv zeta end
    | done ].
Lemma not_invalid_panic {A : Type} (o : option A) : not_invalid (or_panic o).
Proof. by destruct o. Qed.
Lemma not_invalid_epoch h n : not_invalid (unsafe_slot_to_epoch h n).
Proof. unfold unsafe_slot_to_epoch. honest. Qed.
Lemma not_invalid_slot {E : Type} (m : exec E Z) : not_invalid (unwrap_or_default m).
Proof. by destruct m. Qed.
Lemma not_invalid_add a b : not_invalid (u64_add a b).
Proof. unfold u64_add. honest. Qed.
Lemma not_invalid_sub a b : not_invalid (Epoch_sub a b).
Proof. unfold Epoch_sub, u64_sub. honest. Qed.
Create HintDb honest.
#[local] Hint Resolve not_invalid_panic not_invalid_epoch not_invalid_slot not_invalid_add not_invalid_sub : honest.

Lemma honest_most_recent : honest most_recent_snapshot.
Proof. unfold most_recent_snapshot. honest. Qed.
Lemma honest_compute_rewards : honest try_compute_rewards.
Proof. unfold try_compute_rewards. honest; auto using honest_most_recent with honest. Qed.
Lemma honest_join : honest join_rewards.
Proof. unfold join_rewards. honest. Qed.
Lemma honest_try_epoch_transition p : honest (try_epoch_transition p).
Proof.
  unfold try_epoch_transition. honest; auto with honest. unfold epoch_transition. honest; auto using honest_join with honest.
  - unfold VolatileView_new, resolve_donations. honest. auto with honest.
  - unfold db_transition. honest.
Qed.
Lemma honest_context b : honest (create_block_validation_context b).
Proof. unfold create_block_validation_context. honest. Qed.
Lemma not_invalid_pop sr : not_invalid (pop_front sr).
Proof. unfold pop_front. honest; auto with honest. Qed.
Lemma honest_push x : honest (push_fragment x).
Proof.
  unfold push_fragment. honest; auto using not_invalid_pop with honest.
Qed.
Lemma not_invalid_activity v : not_invalid (db_governance_activity v).
Proof. unfold db_governance_activity. honest. Qed.
Lemma honest_apply_block x : honest (apply_block x).
Proof.
  unfold apply_block. honest; auto with honest.
  - unfold db_protocol_parameters_for. honest. auto with honest.
  - unfold db_governance_activity_for. honest; auto using not_invalid_activity with honest.
Qed.
Lemma honest_apply_blocks l : honest (apply_blocks l).
Proof. induction l as [|x l IH]; [apply honest_ret|]. apply honest_bind; [apply honest_apply_block|done]. Qed.
Lemma honest_apply_transition : honest apply_transition.
Proof.
  unfold apply_transition. honest; auto using honest_apply_blocks with honest.
  unfold is_epoch_transition_stable. honest; auto with honest.
Qed.
(** So the blocks that are refused leave the store, and all the volatile blocks. *)
Lemma roll_forward_invalid b s s' p : roll_forward b s = (s', Err (InvalidBlock p)) → prepares b s s'.
Proof.
  unfold roll_forward. intros Hr. apply run_bind_Err in Hr as [Hr|(u1 & s1 & Hc & Hr)]; [by destruct (honest_compute_rewards s p); rewrite Hr|].
  apply run_bind_Err in Hr as [Hr|(u2 & s2 & Ht & Hr)]; [by destruct (honest_try_epoch_transition (point_of b) s1 p); rewrite Hr|].
  apply run_bind_Err in Hr as [Hr|(ctx & s3 & ->%create_context_same & Hr)]; [by destruct (honest_context b s2 p); rewrite Hr|].
  apply run_bind_Err in Hr as [Hr|(s3 & s4 & Hg & Hr)]; [done|]. apply get_Ok in Hg as [-> ->].
  apply run_bind_Err in Hr as [Hr|(ga & s4 & [-> _]%lift_Ok & Hr)]; [injection Hr as _ Hr; by apply not_invalid_activity in Hr|].
  apply run_bind_Err in Hr as [Hr|(ctx' & s4 & [-> _]%lift_Ok & Hr)]; [unfold lift in Hr; injection Hr as -> _; by exists s1, u1, u2|].
  exfalso. apply run_bind_Err in Hr as [Hr|(st & s4 & _ & Hr)]; [by destruct (honest_push (mkAnchored (point_of b) (issuer_of b) (ctx_state ctx')) s2 p); rewrite Hr|].
  apply run_bind_Err in Hr as [Hr|(u3 & s5 & _ & Hr)]; [|by destruct (honest_apply_transition s5 p); rewrite Hr].
  destruct st as [y|]; [|done]. by destruct (honest_apply_block y s4 p); rewrite Hr.
Qed.

(** ** Switching to a fork *)
Fixpoint roll_all (blocks : list Block) : Run unit := match blocks with [] => mret tt | b :: blocks => _ ← roll_forward b; roll_all blocks end.
Fixpoint chain_from (p : Point) (blocks : list Block) : Prop := match blocks with [] => True | b :: blocks => point_before p (point_of b) ∧ chain_from (point_of b) blocks end.
Definition last_point (p : Point) (blocks : list Block) : Point := foldl (λ _ b, point_of b) p blocks.

Lemma chain_from_prefix bs1 bs2 : ∀ p, chain_from p (bs1 ++ bs2) → chain_from p bs1.
Proof. induction bs1 as [|b bs1 IH]; intros p; cbn; [done|]. intros [H1 H2]. split; [done|]. by apply IH. Qed.
Lemma roll_all_ok blocks : ∀ s s', roll_all blocks s = (s', Ok tt) → ordered s → chain_from (tip s) blocks →
  ordered s' ∧ tip s' = last_point (tip s) blocks ∧ at_or_after (immutable_tip s) (immutable_tip s') ∧
  (waiting (volatile s) → sequence (vd_current (volatile s)) ≠ [] ∨ (∀ b, head blocks = Some b → stays b s) → immutable_tip s' = immutable_tip s →
    stable s' = stable s ∧ snapshots s' = snapshots s ∧ replays (volatile s) (volatile s')).
Proof.
  induction blocks as [|b blocks IH]; intros s s' Hr Ho Hc; cbn [roll_all] in Hr.
  { run. split_and!; [done|done|by left|]. intros. split_and!; try done. apply replays_none. }
  apply run_bind_Ok in Hr as (u & s1 & Hb & Hr). destruct Hc as [Hc1 Hc]. destruct (roll_forward_Ok _ _ _ _ Hb Ho Hc1) as [O1 T1 C1 I1 U1].
  destruct (IH s1 s' Hr O1) as (O' & T' & I' & U'); [by rewrite T1|]. cbn [last_point foldl]. fold (last_point (point_of b) blocks). rewrite <- T1. split_and!; try done.
  - by eapply at_or_after_trans.
  - intros Hw Hcur Heq. assert (immutable_tip s1 = immutable_tip s) as E1 by (apply at_or_after_back; [done|by rewrite <- Heq]).
    destruct U1 as (K1 & K2 & _ & K4 & K5); [done|destruct Hcur as [Hcur|Hcur]; [by left|right; by apply Hcur]|done|].
    destruct U' as (J1 & J2 & J4); [done|by left|congruence|]. split_and!; try congruence. clear -J4 K4. induction J4 as [|? ? ? ? IHJ|? ? ? ? IHJ|? ? ? IHJ].
    + done.
    + by eapply replays_push.
    + by eapply replays_transition.
    + by apply replays_overlay.
Qed.

(** What a rollback leaves, and how it is undone. *)
Record rolled_back (p : Point) s s1 (g : RollbackGuard) : Prop := {
  rb_store : stable s1 = stable s ∧ snapshots s1 = snapshots s ∧ era_history s1 = era_history s;
  rb_ordered : ordered s1;
  rb_tip : tip s1 = p;
  rb_waiting : waiting (volatile s1);
  rb_current : p ≠ immutable_tip s → sequence (vd_current (volatile s1)) ≠ [];
  rb_undo : ∀ s2, p = immutable_tip s ∨ replays (volatile s1) (volatile s2) → immutable_tip s2 = immutable_tip s → recover g s2 = (set_volatile (volatile s) s2, Ok tt) }.
Lemma rollback_overlay_empty {E : Type} o o' : Overlay.rollback (E := E) o = Ok o' → Overlay.is_empty o' = true.
Proof. unfold Overlay.rollback. intros (n & _ & [= <-])%bind_Ok. unfold Overlay.is_empty. cbn. by destruct (Overlay.overlay_rewards o). Qed.
Lemma rollback_kept p v g v1 : db_rollback_to p v = Ok (g, v1) → waiting v →
  sequence (vd_current v1) ≠ [] ∧ waiting v1 ∧ ∃ l, db_iter v = db_iter v1 ++ l.
Proof.
  unfold db_rollback_to. destruct (has_point p (vd_draining v)); intros Hb Hw; apply bind_Ok in Hb as ([cur gone] & Hr & Hb).
  - apply series_rollback_ok in Hr as (l1 & x & Hs & Hs' & _). apply bind_Ok in Hb as (o & Ho & Hb). injection Hb as _ <-. cbn. split_and!.
    + rewrite Hs'. by destruct l1.
    + left. by eapply rollback_overlay_empty.
    + exists (gone ++ sequence (vd_current v)). unfold db_iter. cbn. by rewrite Hs, Hs', <- !app_assoc.
  - apply series_rollback_ok in Hr as (l1 & x & Hs & Hs' & _). injection Hb as _ <-. cbn. split_and!.
    + rewrite Hs'. by destruct l1.
    + exact Hw.
    + exists gone. unfold db_iter. cbn. by rewrite Hs, Hs', <- !app_assoc.
Qed.
Lemma rollback_to_ok p s s1 g : rollback_to p s = (s1, Ok g) → volatile_ok (volatile s) → after_tip s → waiting (volatile s) → rolled_back p s s1 g.
Proof.
  unfold rollback_to. intros Hr Hok Ha Hw. apply run_bind_Ok in Hr as (s0 & s0' & [-> ->]%get_Ok & Hr). destruct (decide (p = immutable_tip s)) as [->|Hp].
  - run. match goal with r : VolatileDB * VolatileDB |- _ => destruct r as [old v] end. run. unfold db_clear in *.
    match goal with Hc : (_ ≫= _) = Ok _ |- _ => apply bind_Ok in Hc as (o & Ho & Hc) end.
    match goal with Hc : Ok _ = Ok _ |- _ => injection Hc as <- <- end.
    constructor; try done.
    + split; [constructor|]. unfold after_tip, db_iter. cbn. constructor.
    + left. cbn. destruct (sequence (vd_draining (volatile s))) eqn:Hd; [injection Ho as <-|by eapply rollback_overlay_empty]. destruct Hw as [Hw|Hw]; [done|by rewrite Hd in Hw].
    + intros s2 _ Hs2. unfold recover, mbind, Run_bind, get. cbn [guard_immutable_tip]. by rewrite decide_True by done.
  - assert (∃ dg v1, db_rollback_to p (volatile s) = Ok (dg, v1) ∧ s1 = set_volatile v1 s ∧ g = mkRollbackGuard (immutable_tip s) (RecoverVolatileDBPart dg))
      as (dg & v1 & Hb & -> & ->).
    { destruct (Point_cmp p (immutable_tip s)), (Point_cmp p (default (immutable_tip s) (volatile_tip s))); try done; apply run_bind_Ok in Hr as ([dg v1] & s0 & [-> Hb%map_err_Ok]%lift_Ok & Hr); run; by exists dg, v1. }
    destruct (rollback_ok _ _ _ _ Hok Hb) as (Hok1 & (x & Hx & Hxp) & _ & Hundo). destruct (rollback_kept _ _ _ _ Hb Hw) as (Hne & Hw1 & l & Hl).
    constructor; try done.
    + split; [apply Hok1|]. unfold after_tip in *. cbn. rewrite Hl in Ha. by apply Forall_app in Ha as [Ha _].
    + unfold tip, volatile_tip. cbn. rewrite Hx. done.
    + intros s2 [?|Hrep] Hs2; [done|]. unfold recover, mbind, Run_bind, get. cbn [guard_immutable_tip guard_kind]. rewrite decide_True by done. cbn in Hrep.
      unfold lift. by rewrite (Hundo StateFailure _ Hrep).
Qed.

Lemma replay_applied g init bs1 : ∀ applied rest s s2, roll_all bs1 s = (s2, Ok tt) → replay g init applied (bs1 ++ rest) s = replay g init (last_point applied bs1) rest s2.
Proof.
  induction bs1 as [|b bs1 IH]; intros applied rest s s2 Hr; cbn [roll_all] in Hr; [by run|]. apply run_bind_Ok in Hr as (u & s1 & Hb & Hr).
  cbn [app replay]. rewrite Hb. rewrite (IH _ _ _ _ Hr). done.
Qed.
Lemma invalid_keeps b s s' q : roll_forward b s = (s', Err (InvalidBlock q)) →
  stable s' = stable s ∧ snapshots s' = snapshots s ∧ immutable_tip s' = immutable_tip s ∧ tip s' = tip s ∧ replays (volatile s) (volatile s').
Proof.
  intros (H1 & H2 & H3 & H4 & H5 & _)%roll_forward_invalid%prepares_ok. split_and!; try done; [unfold immutable_tip; by rewrite H1|].
  apply same_iter; [done|]. unfold immutable_tip. by rewrite H1.
Qed.
Lemma replays_trans v1 v2 v3 : replays v1 v2 → replays v2 v3 → replays v1 v3.
Proof.
  intros H1. induction 1 as [|? ? ? ? IHJ|? ? ? ? IHJ|? ? ? IHJ]; [done|by eapply replays_push|by eapply replays_transition|by apply replays_overlay].
Qed.

(** The state a switch starts from: volatile blocks in order after the store, and a pending boundary that waits for its blocks. *)
Record settled_state s : Prop := {
  ss_volatile : volatile_ok (volatile s);
  ss_after : after_tip s;
  ss_waiting : waiting (volatile s) }.
Definition fork_fits (g : RollbackGuard) (blocks : list Block) : Prop := (rollback_length g <= length blocks <= rollback_length g + 1)%nat.
Lemma switch_runs p blocks s s1 g : rollback_to p s = (s1, Ok g) → fork_fits g blocks →
  switch_to_fork p blocks s = replay g (immutable_tip s) (immutable_tip s) blocks s1.
Proof.
  intros Hr [H1 H2]. unfold switch_to_fork, mbind, Run_bind, get. rewrite Hr. by rewrite (proj2 (Nat.ltb_ge _ _)), (proj2 (Nat.ltb_ge _ _)) by lia.
Qed.
Lemma switch_failed p s s1 g bs1 b bs2 s2 s3 q : settled_state s → rollback_to p s = (s1, Ok g) → fork_fits g (bs1 ++ b :: bs2) → chain_from p bs1 →
  roll_all bs1 s1 = (s2, Ok tt) → roll_forward b s2 = (s3, Err (InvalidBlock q)) → immutable_tip s3 = immutable_tip s →
  ∃ s', switch_to_fork p (bs1 ++ b :: bs2) s = (s', Ok (SwitchFailed q)) ∧ volatile s' = volatile s ∧ stable s' = stable s3 ∧ snapshots s' = snapshots s3 ∧
    ((p = immutable_tip s → ∀ b', head (bs1 ++ [b]) = Some b' → stays b' s1) → stable s3 = stable s ∧ snapshots s3 = snapshots s).
Proof.
  intros [Hok Ha Hw] Hr Hf Hc Hall Hb Hi. destruct (rollback_to_ok _ _ _ _ Hr Hok Ha Hw) as [(B1 & B2 & B3) Bo Bt Bw Bc Bu].
  rewrite (switch_runs _ _ _ _ _ Hr Hf), (replay_applied _ _ _ _ _ _ _ Hall). cbn [replay]. rewrite Hb, decide_True by done.
  destruct (invalid_keeps _ _ _ _ Hb) as (I1 & I2 & I3 & _ & I5). destruct (roll_all_ok _ _ _ Hall Bo) as (_ & _ & _ & U); [by rewrite Bt|].
  assert (immutable_tip s1 = immutable_tip s) as E1 by (unfold immutable_tip; by rewrite B1).
  assert (immutable_tip s2 = immutable_tip s1) as E2 by congruence.
  unfold mbind at 1, Run_bind at 1. rewrite Bu; [|destruct (decide (p = immutable_tip s)) as [Hp|Hp]; [by left|right]|done].
  2: { eapply replays_trans; [|exact I5]. destruct U as (_ & _ & U); [done|left; by apply Bc|done|done]. }
  eexists. split; [done|]. cbn. split_and!; [done..|]. intros Hst. rewrite I1, I2. destruct U as (U1 & U2 & _); [done| |done|].
  - destruct (decide (p = immutable_tip s)) as [Hp|Hp]; [right|left; by apply Bc]. intros b' Hb'. apply (Hst Hp). by destruct bs1.
  - by rewrite U1, U2.
Qed.
Lemma switch_partial p s s1 g bs1 b bs2 s2 s3 q : settled_state s → rollback_to p s = (s1, Ok g) → fork_fits g (bs1 ++ b :: bs2) → chain_from p bs1 →
  roll_all bs1 s1 = (s2, Ok tt) → roll_forward b s2 = (s3, Err (InvalidBlock q)) → immutable_tip s3 ≠ immutable_tip s →
  switch_to_fork p (bs1 ++ b :: bs2) s = (s3, Ok (SwitchPartial (last_point (immutable_tip s) bs1) q)) ∧ tip s3 = last_point p bs1.
Proof.
  intros [Hok Ha Hw] Hr Hf Hc Hall Hb Hi. destruct (rollback_to_ok _ _ _ _ Hr Hok Ha Hw) as [(B1 & B2 & B3) Bo Bt Bw Bc Bu].
  rewrite (switch_runs _ _ _ _ _ Hr Hf), (replay_applied _ _ _ _ _ _ _ Hall). cbn [replay]. rewrite Hb, decide_False by done. split; [done|].
  destruct (invalid_keeps _ _ _ _ Hb) as (_ & _ & _ & -> & _). destruct (roll_all_ok _ _ _ Hall Bo) as (_ & -> & _); by rewrite Bt.
Qed.
Lemma switch_completed p s s1 g blocks s2 : settled_state s → rollback_to p s = (s1, Ok g) → fork_fits g blocks → chain_from p blocks →
  roll_all blocks s1 = (s2, Ok tt) → switch_to_fork p blocks s = (s2, Ok SwitchCompleted) ∧ tip s2 = last_point p blocks.
Proof.
  intros [Hok Ha Hw] Hr Hf Hc Hall. destruct (rollback_to_ok _ _ _ _ Hr Hok Ha Hw) as [_ Bo Bt _ _ _].
  rewrite (switch_runs _ _ _ _ _ Hr Hf). rewrite <- (app_nil_r blocks) at 1. rewrite (replay_applied _ _ _ _ _ _ _ Hall). split; [done|].
  destruct (roll_all_ok _ _ _ Hall Bo) as (_ & -> & _); by rewrite Bt.
Qed.
Lemma switch_refused p s s1 g blocks : settled_state s → rollback_to p s = (s1, Ok g) → ~ fork_fits g blocks →
  switch_to_fork p blocks s = (set_volatile (volatile s) s1, Err (StateFailed (Overlay.InvalidForkLength (rollback_length g) (length blocks)))) ∧
  stable s1 = stable s ∧ snapshots s1 = snapshots s.
Proof.
  intros [Hok Ha Hw] Hr Hf. destruct (rollback_to_ok _ _ _ _ Hr Hok Ha Hw) as [(B1 & B2 & B3) _ _ _ _ Bu]. split; [|done].
  unfold switch_to_fork, mbind, Run_bind, get. rewrite Hr. assert ((length blocks <? rollback_length g)%nat || (rollback_length g + 1 <? length blocks)%nat = true) as ->.
  { apply orb_true_iff. rewrite !Nat.ltb_lt. unfold fork_fits in Hf. lia. }
  rewrite Bu; [done|right; apply replays_none|unfold immutable_tip; by rewrite B1].
Qed.

(** ** A boundary that no block waits for *)

(** Flushing empties the overlay, and takes a snapshot unless it was taken before. *)
Lemma apply_spec o db t o' db' : Overlay.apply o db = Ok (t, o', db') → Overlay.is_empty o' = true ∧ Overlay.epoch o' = Overlay.epoch o ∧
  (Store.progress (Overlay.tables db) = None → is_Some (Overlay.snapshots db' !! (Overlay.epoch o - 1))).
Proof.
  unfold Overlay.apply. intros ([o1 db1] & He & Ha)%bind_Ok. apply bind_Ok in Ha as ([o2 db2] & Ht & Ha). apply bind_Ok in Ha as ([[up o3] db3] & Hb & [= _ <- <-]).
  assert (Overlay.overlay_rewards o1 = RewardsState.NotReady ∧ Overlay.epoch o1 = Overlay.epoch o ∧
    (Store.progress (Overlay.tables db) = None → Store.progress (Overlay.tables db1) = Some Store.EpochEnded)) as (R1 & E1 & P1).
  { unfold Overlay.end_epoch, Store.try_epoch_transition in He. case_decide; [|by injection He as <- <-]. destruct (Overlay.overlay_rewards o) as [|?|r]; [done..|].
    apply bind_Ok in He as (tb & Hp & [= <- <-]). split_and!; [done..|]. intros _. unfold Store.pay_rewards in Hp. apply bind_Ok in Hp as ([n l] & _ & Hp).
    apply bind_Ok in Hp as (? & _ & Hp). apply bind_Ok in Hp as (? & _ & Hp). case_match; [|done]. exec_inv. by subst. }
  assert (Overlay.overlay_rewards o2 = RewardsState.NotReady ∧ Overlay.epoch o2 = Overlay.epoch o ∧
    (Store.progress (Overlay.tables db) = None → is_Some (Overlay.snapshots db2 !! (Overlay.epoch o - 1)))) as (R2 & E2 & P2).
  { unfold Overlay.take_snapshot, Store.try_epoch_transition in Ht. case_decide as Hp.
    - apply bind_Ok in Ht as (n & [-> _]%u64_sub_Ok & [= <- <-]). split_and!; [done..|]. intros _. cbn. rewrite E1, lookup_insert_eq. by eexists.
    - injection Ht as <- <-. split_and!; [done..|]. intros Hn. by rewrite (P1 Hn) in Hp. }
  assert (Overlay.is_empty o3 = true ∧ Overlay.epoch o3 = Overlay.epoch o ∧ Overlay.snapshots db3 = Overlay.snapshots db2) as (R3 & E3 & P3).
  { unfold Overlay.begin_epoch in Hb. destruct (Store.try_epoch_transition _ _ _) as [should tb]. assert (Overlay.is_empty (Overlay.take_updates o2) = true) as Hem.
    { unfold Overlay.is_empty, Overlay.take_updates. cbn. by rewrite R2. }
    destruct should; exec_inv; simplify_eq; split_and!; done. }
  split_and!; [exact R3|exact E3|]. intros Hn. cbn. rewrite P3. by apply P2.
Qed.

Lemma join_rewards_epoch s s' r : join_rewards s = (s', Ok r) → state_epoch s' = state_epoch s.
Proof.
  unfold join_rewards. intros Hr. run. destruct (rewards_join_handle s); run.
  - match goal with r : option StakeDistribution * RewardsState.Computed |- _ => destruct r end. by run.
  - destruct (RewardsState.take_computed_rewards _). by run.
Qed.
Lemma epoch_transition_overlay e s s' u : epoch_transition e s = (s', Ok u) →
  Overlay.is_empty (vd_overlay (volatile s')) = false ∧ state_epoch s' = state_epoch s + 1.
Proof.
  unfold epoch_transition. intros Hr. run.
  match goal with Hj : join_rewards _ = _ |- _ => apply join_rewards_epoch in Hj; rewrite <- Hj end.
  match goal with Ht : db_transition _ _ = Ok _, Ho : map_err _ _ = Ok _ |- _ => rename Ht into Ht', Ho into Ho' end. apply map_err_Ok in Ho'.
  unfold db_transition in Ht'. case_match; [|done]. cbn in Ht'. injection Ht' as <-. unfold state_epoch, db_epoch. cbn [volatile set_volatile vd_overlay set_overlay].
  unfold Overlay.epoch_transition in Ho'. exec_inv. repeat (case_match; exec_inv). unfold Overlay.transition in Ho'. exec_inv. subst.
  match goal with H : u64_add (Overlay.epoch _) 1 = Ok _ |- _ => apply u64_add_Ok in H as [-> _] end. split; [|done].
  unfold Overlay.is_empty. cbn. by rewrite andb_false_r.
Qed.

(** A block of the next epoch, on a store without volatile blocks: the boundary is written at once. *)
Record boundary_written (s s' : State) (ended : Z) : Prop := {
  bw_store : ∃ o t o' db, Overlay.is_empty o = false ∧ Overlay.epoch o = ended + 1 ∧
    Overlay.apply o (Overlay.mkDb (col_tables (stable s)) (col_tables <$> snapshots s)) = Ok (t, o', db) ∧
    stable s' = with_tables (Overlay.tables db) (stable s);
  bw_snapshot : Store.progress (col_tables (stable s)) = None → 0 <= max_extra_ledger_snapshots s → is_Some (snapshots s' !! ended) }.
Lemma compute_rewards_extra s s' u : try_compute_rewards s = (s', Ok u) → max_extra_ledger_snapshots s' = max_extra_ledger_snapshots s.
Proof.
  unfold try_compute_rewards, most_recent_snapshot. intros Hr. run. destruct (_ || _); run; [done|].
  repeat (match goal with H : (match ?x with _ => _ end) _ = (_, Ok _) |- _ => destruct x end; run); try done.
Qed.
Lemma epoch_transition_extra e s s' u : epoch_transition e s = (s', Ok u) → max_extra_ledger_snapshots s' = max_extra_ledger_snapshots s.
Proof.
  unfold epoch_transition, join_rewards. intros Hr. run.
  match goal with H : (match ?x with _ => _ end) _ = (_, Ok _) |- _ => destruct x end; run; [|destruct (RewardsState.take_computed_rewards _); by run].
  match goal with r : option StakeDistribution * RewardsState.Computed |- _ => destruct r end. by run.
Qed.
Lemma push_empty x s s' r : push_fragment x s = (s', Ok r) → db_iter (volatile s) = [] →
  r = None ∧ max_extra_ledger_snapshots s' = max_extra_ledger_snapshots s.
Proof.
  unfold push_fragment. intros Hr Hi. run. destruct (_ <=? _); run; [|done].
  match goal with o : option (AnchoredVolatileFragment * VolatileDB) |- _ => destruct o as [[y v1]|]; run; [|done] end.
  match goal with Hp : db_pop_front _ = _ |- _ => apply db_pop_front_iter in Hp; by rewrite Hi in Hp end.
Qed.
Lemma flush_written s s' u : flush_transition s = (s', Ok u) → ∃ t o db,
  Overlay.apply (vd_overlay (volatile s)) (Overlay.mkDb (col_tables (stable s)) (col_tables <$> snapshots s)) = Ok (t, o, db) ∧
  stable s' = with_tables (Overlay.tables db) (stable s) ∧ vd_overlay (volatile s') = o ∧ max_extra_ledger_snapshots s' = max_extra_ledger_snapshots s ∧
  (Store.progress (col_tables (stable s)) = None → is_Some (snapshots s' !! (state_epoch s - 1))).
Proof.
  unfold flush_transition. intros Hr. run. destruct (Overlay.apply _ _) as [[[t o] db]|e| |] eqn:Ha; run; try done. exists t, o, db.
  destruct (apply_spec _ _ _ _ _ Ha) as (_ & He & Hsn). split_and!; [done|done|by destruct t as [[[? ?] ?]|]|done|].
  intros Hp. specialize (Hsn Hp) as [tb Htb]. cbn. unfold takes_snapshot. rewrite Hp, He, Htb.
  exists (with_tables tb (stable s)). unfold state_epoch, db_epoch. apply lookup_insert_eq.
Qed.

Lemma crossing_written b s s' u next : roll_forward b s = (s', Ok u) → db_iter (volatile s) = [] →
  unsafe_slot_to_epoch (E := StateFailure) (era_history s) (point_slot (point_of b)) = Ok next → state_epoch s < next →
  boundary_written s s' (state_epoch s) ∧ immutable_tip s' = immutable_tip s ∧ Overlay.is_empty (vd_overlay (volatile s')) = true.
Proof.
  unfold roll_forward. intros Hr Hi Hn Hlt. apply run_bind_Ok in Hr as (u1 & s1 & Hc & Hr). pose proof (compute_rewards_extra _ _ _ Hc) as X1.
  apply try_compute_rewards_keeps in Hc as Hk. destruct (keeps_iter _ _ Hk) as (Ki & Kt & _ & Ke). destruct Hk as (K1 & K2 & K3 & _).
  apply run_bind_Ok in Hr as (u2 & s2 & Ht & Hr). unfold try_epoch_transition in Ht. run.
  match goal with He : unsafe_slot_to_epoch _ _ = Ok _ |- _ => rewrite K3, Hn in He; injection He as <- end.
  rewrite Ke, (proj2 (Z.ltb_lt _ _) Hlt) in Ht. destruct (epoch_transition_overlay _ _ _ _ Ht) as [Ho Heo]. pose proof (epoch_transition_extra _ _ _ _ Ht) as X2.
  apply epoch_transition_crosses in Ht. destruct (crosses_iter _ _ Ht) as [Ci Ct]. destruct Ht as (C1 & C2 & _ & _).
  match goal with Hx : create_block_validation_context _ _ = _ |- _ => apply create_context_same in Hx as -> end.
  match goal with Hf : push_fragment ?y _ = (?t, Ok ?r) |- _ => rename t into s3; destruct (push_empty _ _ _ _ Hf) as [-> X3]; [by rewrite Ci, Ki|];
    apply push_fragment_Ok in Hf as (P1 & P2 & _ & _ & Pr) end. run.
  apply push_series in Pr as (sr & V3 & _ & _). unfold apply_transition in Hr. run. unfold is_epoch_transition_stable in *. rewrite V3 in *. cbn [vd_overlay set_series vd_draining] in *. rewrite Ho in *.
  assert (sequence (vd_draining (volatile s2)) = []) as Hd.
  { assert (db_iter (volatile s2) = []) as Hd by (by rewrite Ci, Ki). unfold db_iter in Hd. by apply app_eq_nil in Hd as [Hd _]. }
  unfold view_front in *. rewrite Hd in *. cbn in *.
  match goal with Hx : Ok _ = Ok ?x |- _ => injection Hx as <- end. unfold epoch_tail in Hr. cbn [vd_draining set_series] in Hr. rewrite Hd in Hr. run. cbn [default apply_blocks] in *. run.
  match goal with Hf : flush_transition _ = _ |- _ => apply flush_Ok in Hf as Hf'; apply flush_written in Hf as (t & o & db & Ha & F1 & F2 & F3 & F4) end.
  destruct Hf' as (J1 & _ & _). destruct (apply_spec _ _ _ _ _ Ha) as (Hem & He & _). cbn [volatile set_volatile vd_overlay set_series stable snapshots] in *.
  split_and!.
  - constructor.
    + exists (vd_overlay (volatile s2)), t, o, db. rewrite P1, P2, C1, C2, K1, K2 in Ha. rewrite P1, C1, K1 in F1. split_and!; try done.
      unfold state_epoch, db_epoch in *. by rewrite Heo, Ke.
    + intros Hp Hx. rewrite P1, C1, K1 in F4. specialize (F4 Hp) as [c Hsn].
      assert (state_epoch x7 = state_epoch s + 1) as E7 by (unfold state_epoch, db_epoch in *; by rewrite F2, He, Heo, Ke).
      change (state_epoch (set_volatile _ s3)) with (Overlay.epoch (vd_overlay (volatile s2))) in Hsn. unfold state_epoch at 1, db_epoch in Heo. rewrite Heo, Ke in Hsn.
      replace (state_epoch s + 1 - 1) with (state_epoch s) in Hsn by lia. exists c. apply map_lookup_filter_Some. split; [exact Hsn|]. cbn.
      match goal with Hm : Epoch_sub _ _ = Ok _ |- _ => apply u64_sub_Ok in Hm as [-> Hm]; rewrite E7 in * end. unfold MIN_LEDGER_SNAPSHOTS in *.
      change (max_extra_ledger_snapshots (set_volatile _ s3)) with (max_extra_ledger_snapshots s3) in F3. rewrite F3, X3, X2, X1. lia.
  - unfold immutable_tip in *. cbn. rewrite F1. cbn. by rewrite P1, C1, K1.
  - cbn. by rewrite F2.
Qed.
Lemma rollback_clears s s1 g : rollback_to (immutable_tip s) s = (s1, Ok g) →
  db_iter (volatile s1) = [] ∧ max_extra_ledger_snapshots s1 = max_extra_ledger_snapshots s.
Proof.
  unfold rollback_to. intros Hr. run. rewrite decide_True in Hr by done. run.
  match goal with r : VolatileDB * VolatileDB |- _ => destruct r end. run. unfold db_clear in *.
  match goal with Hc : (_ ≫= _) = Ok _ |- _ => apply bind_Ok in Hc as (o & _ & [= _ <-]) end. done.
Qed.
(** Such a fork that fails later leaves the boundary in the store. *)
Lemma failed_crossing s s1 s2 s3 s4 g b0 bs1 b bs2 q next :
  settled_state s → rollback_to (immutable_tip s) s = (s1, Ok g) → fork_fits g (b0 :: bs1 ++ b :: bs2) → chain_from (immutable_tip s) (b0 :: bs1) →
  unsafe_slot_to_epoch (E := StateFailure) (era_history s) (point_slot (point_of b0)) = Ok next → state_epoch s1 < next →
  roll_forward b0 s1 = (s2, Ok tt) → roll_all bs1 s2 = (s3, Ok tt) → roll_forward b s3 = (s4, Err (InvalidBlock q)) → immutable_tip s4 = immutable_tip s →
  ∃ s', switch_to_fork (immutable_tip s) (b0 :: bs1 ++ b :: bs2) s = (s', Ok (SwitchFailed q)) ∧ volatile s' = volatile s ∧ boundary_written s s' (state_epoch s1).
Proof.
  intros Hs Hr Hf [Hc0 Hc] Hn Hlt H2 H3 H4 Hi. destruct (rollback_clears _ _ _ Hr) as [Hit Hx].
  pose proof Hs as [Hok Ha Hw]. destruct (rollback_to_ok _ _ _ _ Hr Hok Ha Hw) as [(B1 & B2 & B3) Bo Bt _ _ _]. rewrite <- B3 in Hn.
  destruct (crossing_written _ _ _ _ _ H2 Hit Hn Hlt) as ([(o & t & o' & db & W1 & W2 & W3 & W4) Wsn] & Wt & We). rewrite <- Bt in Hc0.
  destruct (roll_forward_Ok _ _ _ _ H2 Bo Hc0) as [O2 T2 C2 _ _]. destruct (invalid_keeps _ _ _ _ H4) as (I1 & I2 & I3 & _ & _).
  destruct (roll_all_ok _ _ _ H3 O2) as (_ & _ & _ & U); [by rewrite T2|]. destruct U as (U1 & U2 & _); [by left|by left| |].
  { rewrite Wt, <- I3, Hi. unfold immutable_tip. by rewrite B1. }
  destruct (switch_failed (immutable_tip s) s s1 g (b0 :: bs1) b bs2 s3 s4 q) as (s' & Hsw & Hv & S1 & S2 & _); try done.
  { split; [by rewrite <- Bt|done]. }
  { cbn [roll_all]. apply run_bind_Ok. by exists tt, s2. }
  exists s'. split; [exact Hsw|]. split; [exact Hv|]. rewrite B1, B2 in W3. rewrite B1 in W4. rewrite B1, Hx in Wsn. constructor.
  - exists o, t, o', db. split_and!; try done. by rewrite S1, I1, U1.
  - by rewrite S2, I2, U2.
Qed.

(** ** Representatives, when a block becomes stable *)
Definition in_epoch (h : EraHistory) (e : Z) (x : AnchoredVolatileFragment) : Prop :=
  let slot := point_slot (anchor_point x) in
  unsafe_slot_to_epoch (E := StateFailure) h slot = Ok e ∧ slot_to_epoch h slot slot = Ok e.
Lemma apply_block_untouched x s s' k row e d : apply_block x s = (s', Ok tt) → is_stale (anchor_point x) (immutable_tip s) = false → in_epoch (era_history s) e x →
  db_governance_activity_for (E := StateFailure) e (volatile s) = Ok (Some d) → 0 <= d → col_dreps (stable s) !! k = Some row → untouched k (fragment x) →
  let reactivating := (0 <? d) && (0 <? size (proposals (fragment x)))%nat in
  col_dreps (stable s') !! k = Some (if reactivating then given_back d e row else row) ∧
  Store.consecutive_dormant_epochs (col_tables (stable s')) = (if reactivating then 0 else Store.consecutive_dormant_epochs (col_tables (stable s))) ∧
  volatile s' = volatile s ∧ era_history s' = era_history s ∧ immutable_tip s' = anchor_point x.
Proof.
  unfold apply_block, in_epoch. cbv zeta. intros Hr Hst [He1 He2] Hga Hd Hk Hu. run.
  match goal with He : unsafe_slot_to_epoch _ _ = Ok _ |- _ => rewrite He1 in He; injection He as <- end.
  match goal with Hg : db_governance_activity_for _ _ = Ok ?o, Ho : or_panic ?o = Ok _ |- _ => rewrite Hga in Hg; injection Hg as <-; injection Ho as <- end.
  match goal with Hs : map_err _ (save _ _ _ _ _ _) = Ok _ |- _ => apply map_err_Ok in Hs; pose proof (save_tip _ _ _ _ _ _ _ Hs Hst) as Ht;
    destruct (save_untouched _ _ _ _ _ _ _ _ _ Hs Hst He2 Hd Hk Hu) as [H1 H2] end.
  split_and!; try done.
Qed.
End LedgerProps.
