(* ===== verification/LedgerClaims.v ===== *)
(** * The ledger on examples

    The claims on the layers and the state of the ledger, with states on which they
    apply, and the cases in which the code does not do what it means to. *)

From stdpp Require Import sorting.
From S2P Require Import Prelude BTreeMap SortedAssoc UplcSyntax ProtocolParameters Governance EraHistory Summary ProposalsForest ForestProps PoolsUpdates StakeSummary Ratification RatificationProps PhaseTwo EpochTransition EpochProps EpochBoundary BoundaryProps Headers Fragments FragmentsProps Volatile VolatileReads BlockStore BlockContext LayeredView ContextProps LedgerState LedgerProps.
Import Stake(AccountRow, mkAccountRow, arow_pool, arow_deposit, arow_drep, arow_rewards, mkProposalRow, mkProposal, mkDRepRow, drow_valid_until).
#[local] Open Scope Z_scope.

(** ** Claims *)

(** C17: a block that goes from the volatile database to the store changes no answer: the
    outputs, the proposals and the accounts with their rewards at the tip are the same
    before the oldest block is written and after. *)
Theorem stabilisation_invisible `{Outputs} inc h pp ga x db db' c c' : volatile_ok db → fragments_ok (sequence (vd_draining db)) → fragments_ok (sequence (vd_current db)) →
  fragment_sound (fragment x) → db_pop_front (E := Overlay.StateError) db = Ok (Some (x, db')) → save inc h pp ga x c = Ok c' →
  is_stale (anchor_point x) (col_tip c) = false → sequence (vd_draining db) ≠ [] ∨ Overlay.is_empty (vd_overlay db) = true →
  (∀ i, input_at_tip db' c' i = input_at_tip db c i) ∧ (∀ i, proposal_at_tip db' c' i = proposal_at_tip db c i) ∧
  ∀ k n, account_sound n db c k → account_at_tip (E := Overlay.StateError) db' c' k = account_at_tip db c k.
Proof.
  intros Hok Hfd Hfc Hx Hpop Hsave Hst Hor. destruct (save_written _ _ _ _ _ _ _ Hsave Hst Hx) as [[Hout Hacc Hprop] _].
  destruct (db_pop_front_ok _ _ _ Hok Hfd Hfc Hpop) as (Hok' & Ho & Hi & Hcase). split_and!.
  - intros i. rewrite !input_at_tip_replayed by done. rewrite Hi, Hout. done.
  - intros i. pose proof Hok as [Hc Hd _]. pose proof Hok' as [Hc' Hd' _]. rewrite !proposal_at_tip_replayed by done. unfold proposal_replayed, fragments. rewrite Ho.
    destruct Hcase as [[Hs ->]|(Hs & -> & Hcur)]; [rewrite Hs; cbn; rewrite Hprop; done|]. rewrite Hs, Hcur. cbn. rewrite Hprop.
    destruct Hor as [Hor|Hor]; [done|]. by rewrite (empty_overlay_pruned _ _ Hor).
  - intros k n Hk. destruct (account_sound_popped n db c k x db' c' Hk Hok' Ho Hi) as [Hk' He]; [|apply Hacc|].
    + destruct Hcase as [Hcase|(Hs & Hdr & Hcur)]; [by left|]. right. split_and!; try done. destruct Hor as [Hor|Hor]; [done|].
      destruct (as_credit _ _ _ _ Hk) as [Hn _]. rewrite empty_overlay_credit in Hn by done. by injection Hn.
    + rewrite (account_at_tip_replayed _ _ _ _ Hk), (account_at_tip_replayed _ _ _ _ Hk'). by rewrite He.
Qed.

(** C18: the lookups of a block are those of the next one: what the context of a block
    says of an output or an account after any sequence of operations is what the
    volatile database, with the fragment of the block, and the store say when the next
    block comes; for an account that the block registers while a credit of the boundary is
    pending for it ([n], not zero), only when the block also withdraws from it. *)
Theorem next_block_sees_context `{Outputs} x0 x db db' c p issuer : rtc ctx_step x0 x → ctx_state x0 = fragment_default → volatile_ok db →
  db_push_back (E := Overlay.StateError) (mkAnchored p issuer (ctx_state x)) db = Ok db' → in_order (db_iter db') →
  (∀ i, input_at_tip db c i = ctx_utxo x0 !! i → input_at_tip db' c i = utxo_lookup i x) ∧
  (∀ k n, account_sound n db c k → account_at_tip (E := Overlay.StateError) db c k = Ok (ctx_accounts x0 !! k) →
    (∀ b d, diff_bind_get k (accounts (ctx_state x)) = Exists b → value b = Some d → k ∈ withdrawals (ctx_state x) ∨ n = 0) →
    account_at_tip (E := Overlay.StateError) db' c k = Ok (account_lookup k x)).
Proof.
  intros Hs H0 Hok Hp Ho. split; [intros i Hi; by eapply next_block_outputs|]. intros k n Hk Hat Hreg. by eapply next_block_accounts.
Qed.

(** C19: a block that was accepted can be written: for the fragment of any sequence of
    operations on the context of a block, saving meets no missing account, no missing
    deregistration and no overflow, moves the tip of the store to the block, and gives to the
    accounts and to the outputs the value that the context had for them.  The context was made from the store, the
    block is after its tip, the dormant epochs are at most what is taken from, and validities leave room for them. *)
Theorem accepted_block_is_saved `{Outputs} x0 x p issuer h pp dormant epoch c : rtc ctx_step x0 x → ctx_state x0 = fragment_default →
  (∀ k, is_Some (ctx_accounts x0 !! k) → ctx_accounts x0 !! k = stored_account c k) → is_stale p (col_tip c) = false →
  slot_to_epoch h (point_slot p) (point_slot p) = Ok epoch → 0 <= dormant <= epoch + drep_expiry pp → epoch + drep_expiry pp <= u64_max →
  room dormant (col_dreps c) → (∀ k b r, registered (dreps (ctx_state x)) !! k = Some b → value b = Some r → reg_valid_until r + dormant <= u64_max) →
  ∃ c', save false h pp (Some dormant) (mkAnchored p issuer (ctx_state x)) c = Ok c' ∧ col_tip c' = p ∧
    (∀ k, ctx_accounts x0 !! k = stored_account c k → stored_account c' k = account_lookup k x) ∧
    (∀ i, ctx_utxo x0 !! i = col_utxo c !! i → col_utxo c' !! i = utxo_lookup i x).
Proof.
  intros Hs H0 Hacc Hst He Hd Hu Hroom Hreg. pose proof (steps_built _ _ Hs (built_start _ H0)) as Hx. destruct (steps_frame _ _ _ Hs (outputs_start _ H0)) as [Ha Ho].
  destruct (save_returns x p issuer h pp dormant epoch c Hx) as [c' Hc']; [|done..|].
  { intros k. rewrite Ha. intros Hk. by rewrite <- (Hacc k Hk). }
  exists c'. split; [done|]. destruct (save_written _ _ _ _ _ _ _ Hc' Hst) as [[W1 W2 W3] Wt]; [split; apply Hx|]. split; [done|]. split.
  - intros k Hk. rewrite (proj1 (W2 k)), account_lookup_after by apply Hx. by rewrite Ha, Hk.
  - intros i Hi. rewrite W1, (utxo_lookup_after _ _ _ Ho Hx). by rewrite Hi.
Qed.

(** The oldest fragment of a series is retracted exactly: after it left, the
    aggregate is the one that folding the remaining fragments gives, provided outputs,
    proposals and withdrawals of a fragment do not come back in a later one. *)
Theorem oldest_fragment_retracts `{Outputs} (s : VolatileSeries) x l : sequence s = x :: l → new_aggregate (sequence s) = Some (aggregate s) → fragments_ok (sequence s) →
  ∃ s', pop_front (E := Overlay.StateError) s = Ok (Some (x, s')) ∧ sequence s' = l ∧ new_aggregate l = Some (aggregate s').
Proof. intros Hs Ha Hf. destruct (pop_front_ok (E := Overlay.StateError) s x l Hs Ha Hf) as (s' & Hp & Hl & Hok). exists s'. by rewrite <- Hl at 2. Qed.

(** C20: a block that is applied becomes the tip, keeps the volatile blocks in order after
    the store, and never moves the immutable tip back; a block that the rules refuse
    leaves the store, the snapshots and the tip as they were. *)
Theorem roll_forward_advances `{Outputs} {Block : Type} `{!LedgerParts Block} `{Forest.UnstableSort} (b : Block) (s s' : State) (r : exec StateFailure unit) :
  roll_forward b s = (s', r) → ordered s → point_before (tip s) (point_of b) →
  (r = Ok tt → tip s' = point_of b ∧ ordered s' ∧ at_or_after (immutable_tip s) (immutable_tip s')) ∧
  (∀ q, r = Err (InvalidBlock q) → stable s' = stable s ∧ snapshots s' = snapshots s ∧ tip s' = tip s ∧ db_iter (volatile s') = db_iter (volatile s)).
Proof.
  intros Hr Ho Hp. split.
  - intros ->. by destruct (roll_forward_Ok _ _ _ _ Hr Ho Hp).
  - intros q ->. destruct (invalid_keeps _ _ _ _ Hr) as (H1 & H2 & _ & H4 & _). apply roll_forward_invalid, prepares_ok in Hr as (_ & _ & _ & Hi & _). done.
Qed.

(** C16: a switch to a fork reports what it did.  A fork of a wrong length is refused and
    the volatile database given back.  When every block applies, the tip is the last of
    them.  When a block is invalid and the immutable tip has moved, the blocks applied
    before it are kept; when it has not moved, the switch fails and the volatile database it started
    from is given back, on the store as the refused block found it; that is also the store it started from, except for a
    fork that starts at the immutable tip with a block of a later epoch, which may have written the boundary before. *)
Theorem fork_switch_reports `{Outputs} {Block : Type} `{!LedgerParts Block} `{Forest.UnstableSort} (p : Point) (blocks : list Block) (s s1 : State) (g : RollbackGuard) :
  settled_state s → rollback_to p s = (s1, Ok g) → chain_from p blocks →
  (~ fork_fits g blocks → ∃ s', switch_to_fork p blocks s = (s', Err (StateFailed (Overlay.InvalidForkLength (rollback_length g) (length blocks)))) ∧
    volatile s' = volatile s ∧ stable s' = stable s ∧ snapshots s' = snapshots s) ∧
  (fork_fits g blocks →
    (∀ s2, roll_all blocks s1 = (s2, Ok tt) → switch_to_fork p blocks s = (s2, Ok SwitchCompleted) ∧ tip s2 = last_point p blocks) ∧
    (∀ bs1 b bs2 s2 s3 q, blocks = bs1 ++ b :: bs2 → roll_all bs1 s1 = (s2, Ok tt) → roll_forward b s2 = (s3, Err (InvalidBlock q)) →
      if decide (immutable_tip s3 = immutable_tip s) then
        ∃ s', switch_to_fork p blocks s = (s', Ok (SwitchFailed q)) ∧ volatile s' = volatile s ∧ stable s' = stable s3 ∧ snapshots s' = snapshots s3 ∧
          ((p = immutable_tip s → ∀ b', head blocks = Some b' → stays b' s1) → stable s' = stable s ∧ snapshots s' = snapshots s)
      else switch_to_fork p blocks s = (s3, Ok (SwitchPartial (last_point (immutable_tip s) bs1) q)) ∧ tip s3 = last_point p bs1)).
Proof.
  intros Hs Hr Hc. split; [|intros Hf; split].
  - intros Hf. destruct (switch_refused p s s1 g blocks Hs Hr Hf) as (Hsw & H1 & H2). eexists. split; [exact Hsw|]. done.
  - intros s2 Hall. by apply (switch_completed p s s1 g).
  - intros bs1 b bs2 s2 s3 q -> Hall Hb. assert (chain_from p bs1) as Hc1 by by eapply chain_from_prefix. destruct (decide _) as [Hi|Hi].
    + destruct (switch_failed p s s1 g bs1 b bs2 s2 s3 q) as (s' & Hsw & Hv & H1 & H2 & Hst); try done. exists s'. split_and!; try done.
      intros Hstays. rewrite H1, H2. apply Hst. intros Hp b' Hb'. apply (Hstays Hp). by destruct bs1.
    + by apply (switch_partial p s s1 g bs1 b bs2 s2 s3 q).
Qed.

(** C36: a switch to a fork that starts at the immutable tip with a block of a later epoch
    writes the boundary before it fails.  When a later block is invalid and the immutable tip has not moved, the switch says that it failed and gives the
    volatile database back, but the tables of the store are those that flushing an epoch transition left, and the snapshot of the epoch it
    ended is taken (unless an interrupted transition took it before). *)
Theorem failed_switch_keeps_boundary `{Outputs} {Block : Type} `{!LedgerParts Block} `{Forest.UnstableSort} (s s1 s2 s3 s4 : State) (g : RollbackGuard)
    (b0 : Block) (bs1 : list Block) (b : Block) (bs2 : list Block) (q : Point) (next : Z) :
  settled_state s → rollback_to (immutable_tip s) s = (s1, Ok g) → fork_fits g (b0 :: bs1 ++ b :: bs2) → chain_from (immutable_tip s) (b0 :: bs1) →
  unsafe_slot_to_epoch (E := StateFailure) (era_history s) (point_slot (point_of b0)) = Ok next → state_epoch s1 < next →
  roll_forward b0 s1 = (s2, Ok tt) → roll_all bs1 s2 = (s3, Ok tt) → roll_forward b s3 = (s4, Err (InvalidBlock q)) → immutable_tip s4 = immutable_tip s →
  ∃ s', switch_to_fork (immutable_tip s) (b0 :: bs1 ++ b :: bs2) s = (s', Ok (SwitchFailed q)) ∧ volatile s' = volatile s ∧ boundary_written s s' (state_epoch s1).
Proof. apply failed_crossing. Qed.

(** C35: the dormant epochs that a proposal gives back to the representatives are given
    back again by the next proposal of the epoch, for the counter of the volatile database
    is not reset with that of the store.  When two blocks of one epoch that carry proposals become stable, the validity of a representative that they do not
    mention, not yet expired with the dormant epochs, is extended by them twice; on a node that was restarted on the store in between, once. *)
Theorem dormant_epochs_flushed_twice `{Outputs} {Block : Type} `{!LedgerParts Block} `{Forest.UnstableSort} (x1 x2 : AnchoredVolatileFragment) (s s1 s2 : State)
    (k : Credential) (row : Stake.DRepRow) (e d : Z) :
  apply_block x1 s = (s1, Ok tt) → apply_block x2 s1 = (s2, Ok tt) → in_epoch (era_history s) e x1 → in_epoch (era_history s) e x2 →
  is_stale (anchor_point x1) (immutable_tip s) = false → is_stale (anchor_point x2) (anchor_point x1) = false →
  db_governance_activity_for (E := StateFailure) e (volatile s) = Ok (Some d) → 0 < d →
  proposals (fragment x1) ≠ ∅ ∧ proposals (fragment x2) ≠ ∅ ∧ e <= drow_valid_until row + d →
  col_dreps (stable s) !! k = Some row → untouched k (fragment x1) → untouched k (fragment x2) →
  col_dreps (stable s1) !! k = Some (set_valid_until (drow_valid_until row + d) row) ∧ Store.consecutive_dormant_epochs (col_tables (stable s1)) = 0 ∧
  col_dreps (stable s2) !! k = Some (set_valid_until (drow_valid_until row + d + d) row) ∧
  ∀ r r', stable r = stable s1 → era_history r = era_history s →
    (∃ pp script, volatile r = VolatileDB_new e pp (Store.consecutive_dormant_epochs (col_tables (stable r))) script) →
    apply_block x2 r = (r', Ok tt) → col_dreps (stable r') !! k = Some (set_valid_until (drow_valid_until row + d) row).
Proof.
  intros H1 H2 E1 E2 T1 T2 Hd Hpos (P1 & P2 & Hexp) Hk U1 U2.
  assert (∀ f : VolatileFragment, proposals f ≠ ∅ → (0 <? d) && (0 <? size (proposals f))%nat = true) as Hre.
  { intros f Hf. rewrite (proj2 (Z.ltb_lt _ _) Hpos). apply Nat.ltb_lt. destruct (size (proposals f)) eqn:Hz; [by apply map_size_empty_inv in Hz|lia]. }
  destruct (apply_block_untouched _ _ _ _ _ _ _ H1 T1 E1 Hd ltac:(lia) Hk U1) as (K1 & D1 & V1 & R1 & I1). rewrite (Hre _ P1) in K1, D1.
  unfold given_back in K1. rewrite (proj2 (Z.leb_le _ _) Hexp) in K1. rewrite <- R1 in E2. rewrite <- I1 in T2. rewrite <- V1 in Hd.
  destruct (apply_block_untouched _ _ _ _ _ _ _ H2 T2 E2 Hd ltac:(lia) K1 U2) as (K2 & _). rewrite (Hre _ P2) in K2.
  split; [exact K1|]. split; [exact D1|]. split.
  - rewrite K2. unfold given_back. cbn [drow_valid_until set_valid_until]. by rewrite (proj2 (Z.leb_le _ _)) by lia.
  - intros r r' Hr Her (pp & script & Hv) Ha. rewrite R1, <- Her in E2. rewrite <- Hr in K1. assert (immutable_tip r = immutable_tip s1) as Hir by (unfold immutable_tip; by rewrite Hr).
    rewrite <- Hir in T2. destruct (apply_block_untouched x2 r r' k (set_valid_until (drow_valid_until row + d) row) e 0 Ha T2 E2) as (K3 & _); [|done|exact K1|exact U2|exact K3].
    rewrite Hv, Hr, D1. unfold db_governance_activity_for, db_epoch. cbn. by rewrite Z.eqb_refl.
Qed.

(** ** A small ledger

    Outputs are numbers, a block changes its context as it says or is refused. *)
Module SampleLedger.
#[export] Instance outputs : Outputs := Z.
Record Block := mkBlock { block_point : Point; changes : option (ValidationContext → ValidationContext) }.
Definition k1 : Credential := KeyHash [1].
Definition k9 : Credential := KeyHash [9].
Definition i1 : TransactionInput := mkTransactionInput [1] 0.
Definition i2 : TransactionInput := mkTransactionInput [2] 0.
Definition nothing_needed : PreparationContext := mkPreparation {[i1]} ∅ {[k1; k9]} ∅ [] ∅ ∅ ∅.
#[export] Instance parts : LedgerParts Block := {|
  point_of := block_point;
  issuer_of _ := [7];
  prepare_block _ := nothing_needed;
  validate_block _ _ _ b x := match changes b with Some f => Ok (f x) | None => Err (InvalidBlock (block_point b)) end;
  background_tasks _ _ _ _ _ := Err Overlay.BackgroundTaskFailed;
  ratification_context _ _ _ funds := SampleBoundary.context funds |}.
#[export] Instance sort : Forest.UnstableSort := TableSort.table_sort.

(** Epoch 513 starts at slot 136252800, and epoch 514 at slot 136684800. *)
Definition at_slot (n : Z) : Point := Specific n [n] (n - 136252800).
Definition store : Columns := mkColumns (at_slot 136252810) (SampleBoundary.tables k9) {[i1 := 5]} ∅.
Definition spends (x : ValidationContext) : ValidationContext := ctx_produce i2 5 (ctx_consume i1 x).
Definition frag (f : ValidationContext → ValidationContext) : VolatileFragment := ctx_state (f (mkContext ∅ ∅ ∅ ∅ ∅ ∅ LateProposals.no_roots 0 fragment_default)).
Definition block (n : Z) (f : ValidationContext → ValidationContext) : AnchoredVolatileFragment := mkAnchored (at_slot n) [7] (frag f).
Definition series (l : list AnchoredVolatileFragment) : VolatileSeries := mkSeries l (default no_aggregate (new_aggregate l)).
Definition overlay : Overlay.StateOverlay := Overlay.mkStateOverlay 513 (Some 511) RewardsState.NotReady None None DeltaZero.
Definition database (o : Overlay.StateOverlay) (draining current : list AnchoredVolatileFragment) : VolatileDB :=
  mkVolatileDB (series current) (series draining) o SampleRound.parameters 0 None.
Definition distribution : StakeDistribution :=
  mkStakeDistribution 512 0 0 100 100 50 (Summary.pools SampleRound.stake) (Summary.dreps SampleRound.stake) None.
(** The rewards of the closing epoch are computed. *)
Definition ledger_on (db : VolatileDB) : State :=
  mkState store {[512 := store]} db MAINNET_GLOBAL_PARAMETERS MAINNET_ERA_HISTORY 0 [distribution] (Some (Ok (None, SampleBoundary.rewards_of_512))).
Definition one_block : State := ledger_on (database overlay [] [block 136252820 spends]).
Definition valid (n : Z) : Block := mkBlock (at_slot n) (Some id).
Definition invalid (n : Z) : Block := mkBlock (at_slot n) None.
End SampleLedger.
Import SampleLedger.


(** *** The sample is in order *)
Definition two_blocks : VolatileDB := database overlay [] [block 136252820 spends; block 136252830 id].
Lemma two_blocks_ok : volatile_ok two_blocks.
Proof. constructor; [vm_compute; reflexivity|vm_compute; reflexivity|]. repeat constructor. Qed.
Lemma splits_of_two {A : Type} (x y : A) l1 z l2 : [x; y] = l1 ++ z :: l2 → z = x ∧ l2 = [y] ∨ z = y ∧ l2 = [].
Proof. destruct l1 as [|? [|? [|]]]; cbn; intros [=]; subst; auto. Qed.
Lemma two_blocks_fragments : fragments_ok (sequence (vd_draining two_blocks)) ∧ fragments_ok (sequence (vd_current two_blocks)).
Proof.
  split; split; [constructor|by intros [|? ?] ? ? ?| |].
  - repeat constructor; vm_compute; congruence.
  - intros l1 x l2 [[-> ->]|[-> ->]]%splits_of_two; constructor; intros g Hg; cbn [map] in Hg.
    1-4: apply list_elem_of_singleton in Hg as ->; intros j _; vm_compute; congruence.
    all: by apply elem_of_nil in Hg.
Qed.
Lemma two_blocks_account k : k = k1 ∨ k = k9 → account_sound 0 two_blocks store k.
Proof.
  intros Hk. constructor.
  - split; vm_compute; reflexivity.
  - repeat constructor; intros j Hj; cbn in Hj; set_solver.
  - done.
  - split; [by intros b Hb|]. split; [by intros b Hb|done].
  - split; [destruct Hk as [-> | ->]; reflexivity|vm_compute; split; congruence].
  - by right.
  - intros r. destruct Hk as [-> | ->].
    + change (stored_account store k1) with (Some (mkAccountRow None 2 None 10)). intros [= <-]. unfold u64_max. cbn. lia.
    + by change (stored_account store k9) with (@None AccountRow).
Qed.
Lemma spends_sound : fragment_sound (frag spends).
Proof.
  constructor; [|change (accounts (frag spends)) with (diff_bind_default (K := Credential) (L := Delegation) (R := DRepDelegation) (V := Z)); unfold diff_bind_ok; cbn; set_solver]. cbn. rewrite dom_insert, dom_delete, dom_empty. assert (i1 ≠ i2) by done. set_solver.
Qed.
Lemma stabilisation_invisible_witness : ∃ x db' c',
  db_pop_front (E := Overlay.StateError) two_blocks = Ok (Some (x, db')) ∧ save false MAINNET_ERA_HISTORY SampleRound.parameters (Some 0) x store = Ok c' ∧
  input_at_tip db' c' i2 = Some 5 ∧ input_at_tip db' c' i1 = None ∧
  account_at_tip (E := Overlay.StateError) db' c' k1 = account_at_tip two_blocks store k1.
Proof.
  destruct (db_pop_front (E := Overlay.StateError) two_blocks) as [[[x db']|]| | |] eqn:Hp; [|exfalso; revert Hp; vm_compute; congruence..].
  assert (x = block 136252820 spends) as -> by (revert Hp; vm_compute; congruence).
  destruct (save false MAINNET_ERA_HISTORY SampleRound.parameters (Some 0) (block 136252820 spends) store) as [c'| | |] eqn:Hs; [|exfalso; revert Hs; vm_compute; congruence..].
  exists (block 136252820 spends), db', c'. split; [done|]. split; [done|].
  destruct (stabilisation_invisible false MAINNET_ERA_HISTORY SampleRound.parameters (Some 0) (block 136252820 spends) two_blocks db' store c'
    two_blocks_ok (proj1 two_blocks_fragments) (proj2 two_blocks_fragments)) as (Hi & _ & Ha).
  - apply spends_sound.
  - done.
  - done.
  - reflexivity.
  - by right.
  - split; [rewrite Hi; reflexivity|]. split; [rewrite Hi; reflexivity|]. apply (Ha k1 0). apply two_blocks_account. by left.
Defined.

(** *** A block on the store *)
Definition start : ValidationContext := mkContext {[i1 := 5]} ∅ {[k1 := mkAccountRow None 2 None 10]} ∅ ∅ ∅ LateProposals.no_roots 0 fragment_default.
Lemma start_spends : rtc ctx_step start (spends start).
Proof.
  eapply rtc_l; [apply (step_consume i1)|]. apply rtc_once, step_produce; [|reflexivity]. cbn. assert (i1 ≠ i2) by done. set_solver.
Qed.
Definition no_block : VolatileDB := database overlay [] [].
Lemma no_block_account : account_sound 0 no_block store k1.
Proof.
  constructor.
  - split; vm_compute; reflexivity.
  - constructor.
  - done.
  - done.
  - split; [reflexivity|vm_compute; split; congruence].
  - by right.
  - intros r. change (stored_account store k1) with (Some (mkAccountRow None 2 None 10)). intros [= <-]. unfold u64_max. cbn. lia.
Qed.
Lemma next_block_sees_context_witness : ∃ db', db_push_back (E := Overlay.StateError) (mkAnchored (at_slot 136252820) [7] (ctx_state (spends start))) no_block = Ok db' ∧
  input_at_tip db' store i2 = Some 5 ∧ input_at_tip db' store i1 = None ∧
  account_at_tip (E := Overlay.StateError) db' store k1 = Ok (Some (mkAccountRow None 2 None 10)).
Proof.
  destruct (db_push_back (E := Overlay.StateError) (mkAnchored (at_slot 136252820) [7] (ctx_state (spends start))) no_block) as [db'| | |] eqn:Hp;
    [|exfalso; revert Hp; vm_compute; congruence..].
  exists db'. split; [done|].
  destruct (next_block_sees_context start (spends start) no_block db' store (at_slot 136252820) [7] start_spends eq_refl) as [Hi Ha].
  - constructor; [reflexivity|reflexivity|constructor].
  - done.
  - apply push_series in Hp as (s & -> & Hs & _). unfold db_iter. cbn. rewrite Hs. repeat constructor.
  - split; [rewrite (Hi i2); reflexivity|]. split; [rewrite (Hi i1); reflexivity|]. rewrite (Ha k1 0); [reflexivity|apply no_block_account|reflexivity|by right].
Defined.

Lemma accepted_block_is_saved_witness : ∃ c', save false MAINNET_ERA_HISTORY SampleRound.parameters (Some 0) (mkAnchored (at_slot 136252820) [7] (ctx_state (spends start))) store = Ok c' ∧
  col_tip c' = at_slot 136252820 ∧ stored_account c' k1 = Some (mkAccountRow None 2 None 10) ∧ col_utxo c' !! i2 = Some 5.
Proof.
  destruct (accepted_block_is_saved start (spends start) (at_slot 136252820) [7] MAINNET_ERA_HISTORY SampleRound.parameters 0 513 store start_spends eq_refl) as (c' & Hs & Ht & Ha & Hi).
  - intros k [r Hr]. rewrite Hr. cbn in Hr. apply lookup_singleton_Some in Hr as [<- <-]. reflexivity.
  - reflexivity.
  - vm_compute. reflexivity.
  - vm_compute. split; congruence.
  - vm_compute. congruence.
  - apply map_Forall_empty.
  - intros k b r Hk. exfalso. revert Hk. change (registered (dreps (ctx_state (spends start)))) with (∅ : gmap Credential (Bind Anchor unit DRepRegistration)). by rewrite lookup_empty.
  - exists c'. split; [done|]. split; [done|]. split; [rewrite (Ha k1); reflexivity|]. exact (eq_trans (Hi i2 eq_refl) eq_refl).
Defined.

Lemma oldest_fragment_retracts_witness : ∃ s', pop_front (E := Overlay.StateError) (vd_current two_blocks) = Ok (Some (block 136252820 spends, s')) ∧
  new_aggregate [block 136252830 id] = Some (aggregate s').
Proof.
  destruct (oldest_fragment_retracts (vd_current two_blocks) (block 136252820 spends) [block 136252830 id]) as (s' & Hp & _ & Ha).
  - reflexivity.
  - apply (vk_current _ two_blocks_ok).
  - apply two_blocks_fragments.
  - by exists s'.
Defined.

(** *** Forks *)
Lemma one_block_settled : settled_state one_block.
Proof. constructor; [constructor; [vm_compute; reflexivity|vm_compute; reflexivity|repeat constructor]|repeat constructor|by left]. Qed.
Lemma one_block_ordered : ordered one_block.
Proof. split; repeat constructor. Qed.
Lemma roll_forward_advances_witness : ∃ s', roll_forward (invalid 136252830) one_block = (s', Err (InvalidBlock (at_slot 136252830))) ∧ stable s' = store ∧ tip s' = at_slot 136252820.
Proof.
  destruct (roll_forward (invalid 136252830) one_block) as [s' r] eqn:Hr. assert (r = Err (InvalidBlock (at_slot 136252830))) as -> by (change r with (s', r).2; rewrite <- Hr; vm_compute; reflexivity).
  exists s'. split; [done|].
  destruct (roll_forward_advances (invalid 136252830) one_block s' _ Hr one_block_ordered) as [_ Hi]; [vm_compute; reflexivity|]. destruct (Hi _ eq_refl) as (H1 & _ & H2 & _). by split.
Defined.
Lemma run_result {A : Type} (r : State * exec StateFailure A) x : r.2 = x → r = (r.1, x).
Proof. destruct r. by intros <-. Qed.
Definition rolled : State := (rollback_to (at_slot 136252810) one_block).1.
Definition applied : State := (roll_all [valid 136252815] rolled).1.
Lemma fork_switch_reports_witness : ∃ s', switch_to_fork (at_slot 136252810) [valid 136252815; invalid 136252816] one_block = (s', Ok (SwitchFailed (at_slot 136252816))) ∧
  volatile s' = volatile one_block ∧ stable s' = store.
Proof.
  destruct (fork_switch_reports (at_slot 136252810) [valid 136252815; invalid 136252816] one_block rolled
    (mkRollbackGuard (at_slot 136252810) (RecoverWholeVolatileDB (volatile one_block))) one_block_settled) as [_ Hf].
  - apply run_result. vm_compute. reflexivity.
  - repeat constructor.
  - destruct Hf as [_ Hf]; [vm_compute; lia|].
    specialize (Hf [valid 136252815] (invalid 136252816) [] applied (roll_forward (invalid 136252816) applied).1 (at_slot 136252816) eq_refl).
    destruct (decide _) as [_|Hi] in Hf; [|destruct Hi; vm_compute; reflexivity].
    destruct Hf as (s' & Hs & Hv & _ & _ & Hst); [apply run_result; vm_compute; reflexivity|apply run_result; vm_compute; reflexivity|].
    destruct Hst as [Hst _]; [|by exists s']. intros _ b [= <-] e He. vm_compute in He. injection He as <-. vm_compute. congruence.
Defined.


(** *** Where the code does not do what it means to *)

(** An account that registers while the last blocks of the closed epoch are not yet
    written.  The deposit of the proposal that ended at the boundary goes to [k9]. *)
Definition registers (x : ValidationContext) : ValidationContext :=
  match account_register k9 (mkAccountRow None 2 None 0) x with Ok x => x | _ => x end.
Definition last_of_513 : AnchoredVolatileFragment := block 136252820 id.
Definition first_of_514 : AnchoredVolatileFragment := block 136684900 registers.
Definition read_at_tip : exec Overlay.StateError (option AccountRow) :=
  o ← SampleBoundary.crossed k9;
  account_at_tip (database o [last_of_513] [first_of_514]) store k9.
Definition read_when_stable : exec Overlay.StateError (option AccountRow) :=
  o ← SampleBoundary.crossed k9;
  c ← save false MAINNET_ERA_HISTORY SampleRound.parameters (Some 0) last_of_513 store;
  r ← Overlay.apply o (Overlay.mkDb (col_tables c) ∅);
  let '(_, _, db) := (r : option (ProtocolParameters * Z * option (list Z)) * Overlay.StateOverlay * Overlay.Db) in
  c ← save false MAINNET_ERA_HISTORY SampleRound.parameters (Some 0) first_of_514 (with_tables (Overlay.tables db) c);
  Ok (stored_account c k9).

(** An account that is not registered at the boundary but registers right after it is
    shown, while the boundary is not yet written, the refund of a proposal as its
    rewards; once the same blocks are stable its rewards are none, for the refund went to the treasury. *)
Theorem straddle_refund_visible :
  read_at_tip = Ok (Some (mkAccountRow None 2 None 100)) ∧ read_when_stable = Ok (Some (mkAccountRow None 2 None 0)).
Proof. split; vm_compute; reflexivity. Qed.

(** The boundary written by a fork of epoch 514 that fails at its second block. *)
Definition crossing : State := (rollback_to (at_slot 136252810) one_block).1.
Definition crossed : State := (roll_forward (valid 136684900) crossing).1.
Lemma failed_switch_keeps_boundary_witness : snapshots one_block !! 513 = None ∧
  ∃ s', switch_to_fork (at_slot 136252810) [valid 136684900; invalid 136684910] one_block = (s', Ok (SwitchFailed (at_slot 136684910))) ∧
    volatile s' = volatile one_block ∧ is_Some (snapshots s' !! 513).
Proof.
  split; [vm_compute; reflexivity|].
  destruct (failed_switch_keeps_boundary one_block crossing crossed crossed (roll_forward (invalid 136684910) crossed).1
    (mkRollbackGuard (at_slot 136252810) (RecoverWholeVolatileDB (volatile one_block))) (valid 136684900) [] (invalid 136684910) [] (at_slot 136684910) 514)
    as (s' & Hs & Hv & [_ Hsn]).
  - exact one_block_settled.
  - apply run_result. vm_compute. reflexivity.
  - vm_compute. lia.
  - repeat constructor.
  - vm_compute. reflexivity.
  - vm_compute. reflexivity.
  - apply (run_result (roll_forward (valid 136684900) crossing)). vm_compute. reflexivity.
  - reflexivity.
  - apply (run_result (roll_forward (invalid 136684910) crossed)). vm_compute. reflexivity.
  - vm_compute. reflexivity.
  - exists s'. split; [exact Hs|]. split; [exact Hv|]. change 513 with (state_epoch crossing). apply Hsn; [vm_compute; reflexivity|vm_compute; congruence].
Defined.

(** A representative, five dormant epochs, and blocks that carry a proposal. *)
Definition proposes (n : Z) (x : ValidationContext) : ValidationContext :=
  acknowledge (mkProposalId [n] 0) (SampleBoundary.proposal_row n 519 None k1) x.
Definition after_dormant_epochs : Columns :=
  mkColumns (at_slot 136252810) (Store.set_dormant 5 (col_tables store)) ∅ {[k1 := mkDRepRow 500 None SampleRound.at_start 520]}.
Definition opened (c : Columns) : State :=
  let t := col_tables c in
  new_with c ∅ 513 MAINNET_ERA_HISTORY MAINNET_GLOBAL_PARAMETERS 0 (Store.db_parameters t) (Store.consecutive_dormant_epochs t)
    (guardrail_script (Store.db_constitution t)) [].
Definition proposal_block (n : Z) : AnchoredVolatileFragment := block n (proposes n).
Definition valid_until (s : State) : option Z := drow_valid_until <$> col_dreps (stable s) !! k1.

Lemma proposal_block_untouched n : untouched k1 (fragment (proposal_block n)).
Proof.
  constructor.
  - change (registered (dreps (fragment (proposal_block n)))) with (∅ : gmap Credential (Bind Anchor unit DRepRegistration)). apply lookup_empty.
  - change (unregistered (dreps (fragment (proposal_block n)))) with (∅ : gset Credential). apply not_elem_of_empty.
  - intros b Hb. change (produced (votes (fragment (proposal_block n)))) with (∅ : gmap BallotId Ballot) in Hb. rewrite lookup_empty in Hb. by destruct Hb.
Qed.
Lemma proposal_block_proposes n : proposals (fragment (proposal_block n)) ≠ ∅.
Proof. apply (insert_non_empty (M := gmap ProposalId) ∅). Qed.
Definition flushed_once : State := (apply_block (proposal_block 136252820) (opened after_dormant_epochs)).1.
Definition flushed_twice : State := (apply_block (proposal_block 136252830) flushed_once).1.
Definition restarted_twice : State := (apply_block (proposal_block 136252830) (opened (stable flushed_once))).1.
Lemma opened_parts c : stable (opened c) = c ∧ era_history (opened c) = MAINNET_ERA_HISTORY ∧
  volatile (opened c) = VolatileDB_new 513 (Store.db_parameters (col_tables c)) (Store.consecutive_dormant_epochs (col_tables c)) (guardrail_script (Store.db_constitution (col_tables c))).
Proof. done. Qed.
Lemma dormant_epochs_flushed_twice_witness : valid_until (opened after_dormant_epochs) = Some 520 ∧
  valid_until flushed_once = Some 525 ∧ valid_until flushed_twice = Some 530 ∧
  valid_until restarted_twice = Some 525.
Proof.
  destruct (dormant_epochs_flushed_twice (proposal_block 136252820) (proposal_block 136252830) (opened after_dormant_epochs) flushed_once flushed_twice
    k1 (mkDRepRow 500 None SampleRound.at_start 520) 513 5) as (H1 & _ & H2 & H3).
  - apply (run_result (apply_block (proposal_block 136252820) (opened after_dormant_epochs))). vm_compute. reflexivity.
  - apply (run_result (apply_block (proposal_block 136252830) flushed_once)). vm_compute. reflexivity.
  - split; vm_compute; reflexivity.
  - split; vm_compute; reflexivity.
  - vm_compute. reflexivity.
  - vm_compute. reflexivity.
  - vm_compute. reflexivity.
  - lia.
  - split; [apply proposal_block_proposes|]. split; [apply proposal_block_proposes|vm_compute; congruence].
  - reflexivity.
  - apply proposal_block_untouched.
  - apply proposal_block_untouched.
  - assert (col_dreps (stable restarted_twice) !! k1 = Some (set_valid_until (520 + 5) (mkDRepRow 500 None SampleRound.at_start 520))) as H4.
    { apply (H3 (opened (stable flushed_once))).
      + apply opened_parts.
      + rewrite (proj1 (proj2 (opened_parts _))). symmetry. apply opened_parts.
      + eexists _, _. rewrite (proj1 (opened_parts _)). apply opened_parts.
      + apply (run_result (apply_block (proposal_block 136252830) (opened (stable flushed_once)))). vm_compute. reflexivity. }
    unfold valid_until. rewrite H1, H2, H4. split; [reflexivity|]. split; [reflexivity|]. split; reflexivity.
Defined.
