(* ===== verification/ValidateBlock.v ===== *)
(** * Validating blocks

    [amaru-consensus/src/stages/validate_block/mod.rs]: the stage that has the ledger apply the
    blocks that were fetched, and tells the other stages what came of it; with the effects
    it uses ([effects/ledger_effects.rs]) and the part of [block_validator.rs] that reads
    the blocks of a fork from the chain store.

    The ledger is behind the interface of [can_validate_blocks.rs]; an error of the ledger
    ends the stage.  Metrics and tracing are not part of the model. *)

From S2P Require Import Prelude BTreeMap SortedAssoc UplcSyntax Headers ChainStore SelectChain.
#[local] Open Scope Z_scope.

(** ** The ledger *)

Inductive ForkSwitchOutcome :=
| Completed
| Partial (applied_tip failure : Point)
| Failed (failure : Point).

Inductive LedgerError :=
| LedgerBlockNotFound
| LedgerDecodeFailed
| LedgerBrokenChain
| LedgerAlreadyApplied
| LedgerHeaderMissing (hash : HeaderHash)
| LedgerNoCommonAncestor
| LedgerInvalidForkLength (rollback_length fork_length : nat)
| LedgerRollbackFailed
| LedgerStateFailed.

(** What the ledger thread answers to: the block is applied or refused, the fork is
    applied, in part or not at all. *)
Class Ledger (L Block : Type) := {
  decode_raw : list Z → option Block;
  block_point : Block → Point;
  ledger_tip : L → Point;
  roll_forward_block : Block → L → exec LedgerError (L * bool);
  ledger_switch : Point → list Block → L → exec LedgerError (L * ForkSwitchOutcome) }.

Section Validate.
Context {L Block : Type} `{!Ledger L Block} {S : Type} `{!BaseReadChainStore S, !Hashing}.

Definition load_decoded (s : S) (hash : HeaderHash) : exec LedgerError Block :=
  raw ← ok_or LedgerBlockNotFound (load_block s hash);
  ok_or LedgerDecodeFailed (decode_raw raw).

(** [ValidateBlockEffect] *)
Definition validate_block (s : S) (p : Point) (l : L) : exec LedgerError (L * bool) :=
  block ← load_decoded s (point_hash p);
  roll_forward_block block l.

Fixpoint load_all (s : S) (points : list Point) : exec LedgerError (list Block) :=
  match points with
  | [] => Ok []
  | p :: points => block ← load_decoded s (point_hash p); blocks ← load_all s points; Ok (block :: blocks)
  end.
(** [BlockValidator::switch_to_fork] *)
Definition validator_switch (s : S) (fork_point to : Point) (l : L) : exec LedgerError (L * ForkSwitchOutcome) :=
  found ← ancestors_between s fork_point (point_hash to);
  forward_tips ← ok_or LedgerBrokenChain found;
  forward_blocks ← load_all s forward_tips;
  match forward_blocks with
  | [] => Err LedgerAlreadyApplied
  | _ => ledger_switch fork_point forward_blocks l
  end.
(** [SwitchToForkEffect] *)
Definition switch_ledger_to_fork (s : S) (tip : Point) (l : L) : exec LedgerError (L * ForkSwitchOutcome) :=
  found ← find_common_ancestor s (point_hash tip) (point_hash (ledger_tip l));
  match found with
  | CommonFound fork_point => validator_switch s fork_point tip l
  | CommonHeaderNotFound hash => Err (LedgerHeaderMissing hash)
  | CommonNotFound => Err LedgerNoCommonAncestor
  end.

(** ** The stage *)

Record ValidateBlock := mkValidateBlock {
  current : Point;
  vb_max_block_height : Z;
  vb_security_param : Z;
  invalid_blocks : gmap HeaderHash Z;
  vb_block_source : bool }.
Definition ValidateBlock_new (block_source : bool) (consensus_security_param : Z) (current : Point) : ValidateBlock :=
  mkValidateBlock current 0 consensus_security_param ∅ block_source.
Record ValidateBlockMsg := mkValidateBlockMsg { vm_tip : Point; vm_parent : Point; vm_max_block_height : Z }.

Inductive ValidateEffect :=
| ToSelectChain (msg : SelectChainMsg)
| SourceValidation (valid : bool) (p : Point)
| ToAdoptChain (tip : Point) (max_block_height : Z).

Definition source_validation (valid : bool) (p : Point) (st : ValidateBlock) : list ValidateEffect :=
  if vb_block_source st then [SourceValidation valid p] else [].

(** Condemned blocks more than [k] below the tip are forgotten; the sum of a height and
    [k] is checked. *)
Fixpoint retain_recent (k tip_height : Z) (l : list (HeaderHash * Z)) : exec Terminated (list (HeaderHash * Z)) :=
  match l with
  | [] => Ok []
  | (hash, height) :: l =>
      n ← u64_add height k;
      l ← retain_recent k tip_height l;
      Ok (if tip_height <? n then (hash, height) :: l else l)
  end.

Definition completed (tip : Point) (st : ValidateBlock) : exec Terminated (ValidateBlock * list ValidateEffect) :=
  kept ← retain_recent (vb_security_param st) (point_height tip) (map_to_list (invalid_blocks st));
  Ok (mkValidateBlock tip (vb_max_block_height st) (vb_security_param st) (list_to_map kept) (vb_block_source st),
      ToSelectChain (BlockValidationResult tip true (vb_max_block_height st)) :: source_validation true tip st ++
      [ToAdoptChain tip (vb_max_block_height st)]).

Definition error (msg : ValidateBlockMsg) (failed_tip : Point) (st : ValidateBlock) : ValidateBlock * list ValidateEffect :=
  (mkValidateBlock (current st) (vb_max_block_height st) (vb_security_param st)
     (<[point_hash (vm_tip msg) := point_height (vm_tip msg)]> (<[point_hash failed_tip := point_height failed_tip]> (invalid_blocks st)))
     (vb_block_source st),
   ToSelectChain (BlockValidationResult failed_tip false (vb_max_block_height st)) :: source_validation false failed_tip st).

Definition raise_height (msg : ValidateBlockMsg) (st : ValidateBlock) : ValidateBlock :=
  mkValidateBlock (current st) (Z.max (vm_max_block_height msg) (vb_max_block_height st)) (vb_security_param st) (invalid_blocks st) (vb_block_source st).

Definition Validated : Type := ValidateBlock * L * list ValidateEffect.

Definition extend (s : S) (msg : ValidateBlockMsg) (st : ValidateBlock) (l : L) : exec Terminated Validated :=
  r ← map_err (λ _, Terminate) (validate_block s (vm_tip msg) l);
  let '(l, ok) := (r : L * bool) in
  if ok then x ← completed (vm_tip msg) st; Ok (x.1, l, x.2)
  else let x := error msg (vm_tip msg) st in Ok (x.1, l, x.2).

Definition switch (s : S) (msg : ValidateBlockMsg) (st : ValidateBlock) (l : L) : exec Terminated Validated :=
  r ← map_err (λ _, Terminate) (switch_ledger_to_fork s (vm_tip msg) l);
  let '(l, outcome) := (r : L * ForkSwitchOutcome) in
  match outcome with
  | Completed => x ← completed (vm_tip msg) st; Ok (x.1, l, x.2)
  | Partial applied_tip failure =>
      x ← completed applied_tip st;
      let y := error msg failure x.1 in
      Ok (y.1, l, x.2 ++ y.2)
  | Failed failure => let x := error msg failure st in Ok (x.1, l, x.2)
  end.

Definition condemned (msg : ValidateBlockMsg) (st : ValidateBlock) : bool :=
  is_some (invalid_blocks st !! point_hash (vm_parent msg)) || is_some (invalid_blocks st !! point_hash (vm_tip msg)).

Definition validate_stage (s : S) (msg : ValidateBlockMsg) (st : ValidateBlock) (l : L) : exec Terminated Validated :=
  if decide (vm_parent msg = Origin) then Err Terminate
  else
    let st := raise_height msg st in
    if condemned msg st then let x := error msg (vm_tip msg) st in Ok (x.1, l, x.2)
    else if decide (vm_parent msg = current st) then extend s msg st l
    else
      let message_header := load_header s (point_hash (vm_tip msg)) in
      let current_header := load_header s (point_hash (current st)) in
      o ← cmp_tip message_header current_header;
      match o with
      | Gt => switch s msg st l
      | _ => Ok (st, l, [])
      end.
End Validate.
