(* ===== verification/AdoptChain.v ===== *)
(** * Adopting chains

    [amaru-consensus/src/stages/adopt_chain/mod.rs]: the stage that makes a validated tip
    the tip of the best chain in the store, when it is better than the one before, and
    moves the anchor of the store after it.

    What is logged, the mode of the consensus and the performance records are not part of
    the model. *)

From S2P Require Import Prelude BTreeMap SortedAssoc UplcSyntax Headers ChainStore SelectChain.
#[local] Open Scope Z_scope.

Record AdoptChain := mkAdoptChain {
  ac_security_param : Z;
  current_best_tip : Point;
  ac_max_block_height : Z;
  ac_mempool : bool;
  ac_block_source : bool;
  ac_forge : bool }.
Record AdoptChainMsg := mkAdoptChainMsg { am_tip : Point; am_max_block_height : Z }.

Inductive AdoptEffect :=
| MempoolNewTip (tip : Point)
| ManagerNewTip (tip : Point)
| SourceAdoptedTip (tip : Point)
| ForgeAdoptedTip (tip parent : Point).

Inductive AdoptTipResult :=
| AdoptHeaderNotFound
| AncestorOnBestChainNotFound
| BestChainRolledForward
| BestChainSwitched (forward_points : list Point).

Section Adopt.
Context {S : Type} `{!BaseReadChainStore S, !WriteChainStore S, !Hashing}.

Definition adopt_tip (incoming_header current_best : Header) (s : S) : exec StoreError (S * AdoptTipResult) :=
  if decide (parent incoming_header = Some (header_hash current_best))
  then Ok (roll_forward_chain (header_point incoming_header) s, BestChainRolledForward)
  else
    r ← find_ancestor_on_best_chain s (header_hash incoming_header);
    match r with
    | AncestorStartNotFound => Ok (s, AdoptHeaderNotFound)
    | AncestorNotFound => Ok (s, AncestorOnBestChainNotFound)
    | AncestorFound fork_point forward_points =>
        s ← switch_to_fork fork_point forward_points s;
        Ok (s, BestChainSwitched forward_points)
    end.

(** The height is a saturating difference. *)
Definition drag_anchor_forward (tip : Point) (k : Z) (s : S) : exec StoreError S :=
  let target_height := u64_saturating_sub (point_height tip) k in
  a ← find_anchor_at_height s target_height;
  Ok (match a with Some new_anchor => set_anchor_point new_anchor s | None => s end).

(** The header of the current best, if there is one. *)
Definition load_current_best (st : AdoptChain) (s : S) : exec Terminated (option Header) :=
  if decide (current_best_tip st = Origin) then Ok None
  else h ← ok_or Terminate (load_header s (point_hash (current_best_tip st))); Ok (Some h).

Definition set_best (tip : Point) (st : AdoptChain) : AdoptChain :=
  mkAdoptChain (ac_security_param st) tip (ac_max_block_height st) (ac_mempool st) (ac_block_source st) (ac_forge st).

(** The best chain with the new tip, and the anchor after it. *)
Definition adopt (tip : Point) (incoming_header : Header) (current_best : option Header) (st : AdoptChain) (s : S)
  : exec Terminated (AdoptChain * S * list AdoptEffect) :=
  s ← match current_best with
      | Some current_best =>
          x ← map_err (λ _, Terminate) (adopt_tip incoming_header current_best s);
          let '(s, result) := (x : S * AdoptTipResult) in
          match result with
          | BestChainRolledForward | BestChainSwitched _ => Ok s
          | AdoptHeaderNotFound | AncestorOnBestChainNotFound => Err Terminate
          end
      | None => Ok (roll_forward_chain (header_point incoming_header) s)
      end;
  s ← map_err (λ _, Terminate) (drag_anchor_forward tip (ac_security_param st) s);
  forged ← (if ac_forge st then p ← load_parent_point s incoming_header; Ok [ForgeAdoptedTip tip p] else Ok []);
  Ok (set_best tip st, s,
      (if ac_mempool st then [MempoolNewTip tip] else []) ++ [ManagerNewTip tip] ++
      (if ac_block_source st then [SourceAdoptedTip tip] else []) ++ forged).

Definition adopt_stage (msg : AdoptChainMsg) (st : AdoptChain) (s : S) : exec Terminated (AdoptChain * S * list AdoptEffect) :=
  let st := mkAdoptChain (ac_security_param st) (current_best_tip st) (Z.max (am_max_block_height msg) (ac_max_block_height st))
              (ac_mempool st) (ac_block_source st) (ac_forge st) in
  let tip := am_tip msg in
  if point_height tip <? point_height (current_best_tip st) then Ok (st, s, [])
  else
    incoming_header ← ok_or Terminate (load_header s (point_hash tip));
    current_best ← load_current_best st s;
    o ← cmp_tip (Some incoming_header) current_best;
    match o with
    | Gt => adopt tip incoming_header current_best st s
    | _ => Ok (st, s, [])
    end.
End Adopt.
