(* ===== verification/AdoptChainProps.v ===== *)
(** * Properties of chain adoption

    The best chain of the store is the ancestry of the tip that was adopted last; the
    anchor is on it, never goes back, and is [k] blocks behind. *)

From S2P Require Import Prelude BTreeMap SortedAssoc UplcSyntax Headers ChainStore ChainView ChainStoreProps SelectChain SelectChainProps AdoptChain.
#[local] Open Scope Z_scope.

(** ** Linked chains *)

Lemma linked_ext v v' l : v_headers v = v_headers v' → linked v l → linked v' l.
Proof. intros He. induction l as [|p [|q l] IH]; [done|done|]. intros [Hq Hl]. split; [by rewrite <- He|by apply IH]. Qed.
Lemma linked_app_iff v l1 p l2 : linked v (l1 ++ p :: l2) ↔ linked v (l1 ++ [p]) ∧ linked v (p :: l2).
Proof.
  induction l1 as [|x [|y l1] IH]; cbn [app] in *; [cbn; tauto| |].
  - cbn. tauto.
  - cbn [linked] in *. tauto.
Qed.
Lemma linked_step v l p q : linked v (l ++ [p]) → v_headers v !! point_hash q ≫= parent = Some (point_hash p) → linked v (l ++ [p; q]).
Proof. intros Hl Hq. apply linked_app_iff. split; [done|]. by split. Qed.
(** Slots and heights go up along a chain. *)
Lemma linked_next v p q : view_ok v → point_known v p → point_known v q → v_headers v !! point_hash q ≫= parent = Some (point_hash p) →
  point_slot p < point_slot q ∧ point_height q = point_height p + 1.
Proof.
  intros Hv (hp & Hhp & <-) (hq & Hhq & <-) Hpar. rewrite Hhq in Hpar. cbn [mbind option_bind] in Hpar. by apply (vo_step _ Hv _ _ _ _ Hhq Hpar Hhp).
Qed.
Lemma linked_ascending v l : view_ok v → Forall (point_known v) l → linked v l → slots_ascending l.
Proof.
  intros Hv Hk. unfold slots_ascending. induction Hk as [|p l Hp Hk IH]; intros Hl; [constructor|]. pose proof (linked_cons _ _ _ Hl) as Hl'. specialize (IH Hl').
  constructor; [done|]. destruct l as [|q l]; [constructor|]. destruct Hl as [Hpq _]. apply Forall_cons in Hk as [Hq Hk].
  destruct (linked_next v p q Hv Hp Hq Hpq) as [Hlt _]. constructor; [done|]. inversion IH as [|? ? _ Hall]; subst.
  eapply Forall_impl; [exact Hall|]. intros x ?. cbn in *. lia.
Qed.
Lemma linked_heights v l : view_ok v → Forall (point_known v) l → linked v l → StronglySorted (λ p q, point_height p < point_height q) l.
Proof.
  intros Hv Hk. induction Hk as [|p l Hp Hk IH]; intros Hl; [constructor|]. pose proof (linked_cons _ _ _ Hl) as Hl'. specialize (IH Hl').
  constructor; [done|]. destruct l as [|q l]; [constructor|]. destruct Hl as [Hpq _]. apply Forall_cons in Hk as [Hq Hk].
  destruct (linked_next v p q Hv Hp Hq Hpq) as [_ Hh]. constructor; [lia|]. inversion IH as [|? ? _ Hall]; subst.
  eapply Forall_impl; [exact Hall|]. intros x ?. cbn in *. lia.
Qed.
Lemma sorted_last {A} (R : A → A → Prop) l x e : StronglySorted R l → x ∈ l → last l = Some e → x = e ∨ R x e.
Proof.
  induction 1 as [|y l Hs IH Hf]; [set_solver|]. intros Hin Hl. destruct l as [|z l]; [injection Hl as <-; set_solver|].
  rewrite last_cons_cons in Hl. apply elem_of_cons in Hin as [->|Hin]; [|by apply IH]. right. rewrite Forall_forall in Hf. apply Hf. by apply last_Some_elem_of.
Qed.
(** The point after another one on the chain. *)
Lemma next_on_chain_cut v l1 p l2 : view_ok v → chain_ok v → v_chain v = l1 ++ p :: l2 → next_on_chain v p = head l2.
Proof.
  intros Hv Hc Hl. pose proof Hc as [Hk Hlk]. pose proof (linked_ascending v _ Hv Hk Hlk) as Ha.
  assert (point_known v p) as Hp by (rewrite Forall_forall in Hk; apply Hk; rewrite Hl; set_solver).
  assert (p ≠ Origin) as Ho by (destruct Hp as (h & _ & <-); done).
  destruct l2 as [|q l2]; cbn [head].
  - destruct (next_on_chain v p) as [r|] eqn:Hn; [|done]. apply next_on_chain_elem in Hn as [Hin Hpar]; try done. exfalso.
    assert (point_known v r) as Hr by (rewrite Forall_forall in Hk; by apply Hk). destruct (linked_next v p r Hv Hp Hr Hpar) as [Hlt _].
    rewrite Hl in Ha, Hin. apply slots_ascending_app in Ha as (_ & _ & Ha). apply elem_of_app in Hin as [Hin|Hin]; [specialize (Ha r p Hin ltac:(set_solver)); lia|].
    apply list_elem_of_singleton in Hin as ->. lia.
  - apply next_on_chain_elem; try done. rewrite Hl in Hlk |- *. split; [set_solver|]. by apply linked_app in Hlk.
Qed.

(** ** Ancestors *)

(** Headers of the store, youngest first. *)
Fixpoint descending (v : ChainView) (l : list Header) : Prop :=
  match l with
  | h :: ((p :: _) as l') => parent h = Some (header_hash p) ∧ v_headers v !! header_hash p = Some p ∧ descending v l'
  | _ => True
  end.

Lemma descending_app v l1 a l2 : descending v (l1 ++ a :: l2) → descending v (l1 ++ [a]).
Proof. induction l1 as [|x [|y l1] IH]; cbn [app] in *; [done| |]; cbn [descending]; naive_solver. Qed.
Lemma descending_suffix v l1 l2 : descending v (l1 ++ l2) → descending v l2.
Proof. induction l1 as [|x l1 IH]; cbn [app]; [done|]. intros Hd. apply IH. destruct (l1 ++ l2); [done|]. by destruct Hd as (_ & _ & Hd). Qed.
(** Read from the oldest, they are a chain. *)
Lemma descending_linked v l : (∀ h, head l = Some h → v_headers v !! header_hash h = Some h) → descending v l → linked v (rev (map header_point l)).
Proof.
  induction l as [|h [|p l] IH]; intros Hh Hd; [done|done|]. destruct Hd as (Hpar & Hp & Hd). cbn [map rev] in *. rewrite <- app_assoc. cbn [app].
  apply linked_step; [apply IH; [by intros ? [= <-]|done]|]. cbn. rewrite (Hh h eq_refl). done.
Qed.
Lemma descending_known v l : (∀ h, head l = Some h → v_headers v !! header_hash h = Some h) → descending v l → Forall (λ h, v_headers v !! header_hash h = Some h) l.
Proof.
  induction l as [|h [|p l] IH]; intros Hh Hd; [constructor|by constructor; [apply Hh|]|]. destruct Hd as (Hpar & Hp & Hd).
  constructor; [by apply Hh|]. apply IH; [by intros ? [= <-]|done].
Qed.

Section Ancestors.
Context {S : Type} `{ChainStore S}.

Lemma reachable_flag v t : reachable v t → v_flags v !! t ≠ Some false.
Proof. by destruct 1. Qed.
(** Where a header that is reached comes from. *)
Lemma reachable_inv v t h : view_ok v → reachable v t → v_headers v !! t = Some h →
  t = point_hash (v_anchor v) ∧ t ≠ ORIGIN_HASH ∨ point_hash (v_anchor v) = ORIGIN_HASH ∧ parent h = None ∨ ∃ p, parent h = Some p ∧ reachable v p.
Proof.
  intros Hv Hr Hh. destruct Hr as [a Ha Hao Hk|t ht Ht Hao Hd Hk|p t ht Ht Hp Hd Hk].
  - by left.
  - rewrite Hh in Ht. injection Ht as <-. right. left. split; [done|]. destruct (parent h) as [q|] eqn:Hq; [|done]. by destruct (vo_known _ Hv _ _ _ Hh Hq).
  - rewrite Hh in Ht. injection Ht as <-. right. right. destruct (parent h) as [q|] eqn:Hq; unfold default, from_option, id in Hd; subst p; [by exists q|].
    destruct (reachable_known _ _ Hp) as [h0 Hh0]. by destruct (vo_hash _ Hv _ _ Hh0) as (_ & ? & _).
Qed.
Lemma loop_reach {E : Type} s a : store_ok s → sound (view s) → v_headers (view s) !! point_hash (v_anchor (view s)) = Some a →
  header_point a = v_anchor (view s) → ∀ fuel x l, v_headers (view s) !! header_hash x.1 = Some x.1 → reachable (view s) (header_hash x.1) →
  ancestors_loop (E := E) fuel s (point_slot (v_anchor (view s))) x = Ok l →
  head (map fst l) = Some x.1 ∧ last (map fst l) = Some a ∧ descending (view s) (map fst l) ∧
  Forall (λ h, reachable (view s) (header_hash h)) (map fst l).
Proof.
  intros Hs Hso Ha Hap. pose proof (so_view _ Hso) as Hv. assert (point_hash (v_anchor (view s)) ≠ ORIGIN_HASH) as Ho by (by destruct (vo_hash _ Hv _ _ Ha) as (_ & ? & _)).
  induction fuel as [|fuel IH]; intros [h b] l Hh Hr; cbn [ancestors_loop fst] in *; [done|].
  destruct (reachable_inv _ _ h Hv Hr Hh) as [[Hta _]|[[]|(p & Hpar & Hp)]]; [|done|].
  - rewrite <- Hta, Hh in Ha. injection Ha as <-. rewrite <- Hap. cbn [header_point point_slot]. rewrite (proj2 (Z.leb_le _ _)) by lia. intros [= <-]. split_and!; [done|done|done|by repeat constructor].
  - destruct (reachable_known _ _ Hp) as [hp Hhp]. pose proof (reachable_slot s p hp Hs Hso Hp Hhp) as Hsl. destruct (vo_step _ Hv _ _ _ _ Hh Hpar Hhp) as [Hlt _].
    rewrite (proj2 (Z.leb_gt _ _)) by lia. rewrite Hpar. cbn [mbind option_bind]. rewrite view_load, Hhp. cbn [fmap option_fmap option_map].
    intros Hl. apply bind_Ok in Hl as (l' & Hl' & [= <-]). destruct (vo_hash _ Hv _ _ Hhp) as [Hhk _].
    apply IH in Hl' as (Hhd & Hlast & Hd & Hre); cbn [fst] in *; [|by rewrite Hhk..]. destruct (map fst l') as [|x l2] eqn:Hm; [done|]. injection Hhd as ->.
    cbn [map fst]. rewrite Hm. split; [done|]. split; [by rewrite last_cons_cons|]. split; [|by constructor]. split; [congruence|]. split; [congruence|done].
Qed.
Lemma ancestors_reach {E : Type} s a h : store_ok s → sound (view s) → v_headers (view s) !! point_hash (v_anchor (view s)) = Some a →
  header_point a = v_anchor (view s) → v_headers (view s) !! header_hash h = Some h → reachable (view s) (header_hash h) →
  ∃ l, ancestors_on_snapshot (E := E) s h = Ok l ∧ head l = Some h ∧ last l = Some a ∧ descending (view s) l ∧
    Forall (λ h, reachable (view s) (header_hash h)) l.
Proof.
  intros Hs Hso Ha Hap Hh Hr. pose proof (so_view _ Hso) as Hv. pose proof (tree_ok_view s Hs Hv) as Ht. unfold ancestors_on_snapshot.
  destruct (vo_hash _ Hv _ _ Hh) as (_ & _ & [Hpos _] & _).
  destruct (ancestors_loop_ok (E := E) s Ht (walk_fuel h) (h, None)) as (l & Hl & _).
  { unfold stored. cbn [fst]. by rewrite load_view. }
  { unfold walk_fuel. cbn [fst]. lia. }
  rewrite Hl. cbn [mbind exec_bind]. eexists. split; [done|]. rewrite view_anchor in Hl. by apply (loop_reach s a Hs Hso Ha Hap (walk_fuel h) (h, None)) in Hl.
Qed.

(** The first ancestor on the chain. *)
Lemma split_at_best_ok s l : (∃ h, h ∈ l ∧ is_on_best_chain s (to_network_point (header_point h)) = true) → ∀ acc,
  ∃ l1 a l2, l = l1 ++ a :: l2 ∧ Forall (λ h, is_on_best_chain s (to_network_point (header_point h)) = false) l1 ∧
    is_on_best_chain s (to_network_point (header_point a)) = true ∧
    split_at_best s l acc = Some (header_point a, rev (acc ++ map header_point l1)).
Proof.
  intros (h & Hin & Hb). induction l as [|x l IH]; intros acc; [by apply elem_of_nil in Hin|]. cbn [split_at_best].
  destruct (is_on_best_chain s (to_network_point (header_point x))) eqn:Hx.
  - exists [], x, l. split; [done|]. split; [constructor|]. split; [done|]. by rewrite app_nil_r.
  - apply elem_of_cons in Hin as [->|Hin]; [congruence|]. destruct (IH Hin (acc ++ [header_point x])) as (l1 & a & l2 & -> & Hl1 & Ha & Hs).
    exists (x :: l1), a, l2. split; [done|]. split; [by constructor|]. split; [done|]. rewrite Hs. cbn [map]. by rewrite <- app_assoc.
Qed.
End Ancestors.

(** ** Adoption *)

(** The best chain ends with the best tip, goes through the anchor, and has no invalid block. *)
Record adopting (v : ChainView) (best : Point) : Prop := {
  ad_chain : chain_ok v;
  ad_best : last (v_chain v) = Some best;
  ad_anchor : v_anchor v ∈ v_chain v;
  ad_valid : Forall (λ q, v_flags v !! point_hash q ≠ Some false) (v_chain v) }.
(** A chain that leaves the best one at a point, and ends with a tip. *)
Record forks_to (v : ChainView) (tip : Point) (chain : list Point) : Prop := {
  fo_known : Forall (point_known v) chain;
  fo_linked : linked v chain;
  fo_last : last chain = Some tip;
  fo_anchor : v_anchor v ∈ chain;
  fo_valid : Forall (λ q, v_flags v !! point_hash q ≠ Some false) chain }.

Lemma known_header v p h : v_headers v !! header_hash h = Some h → point_known v p → point_hash p = header_hash h → p = header_point h.
Proof. intros Hh (h' & Hh' & <-) Hp. rewrite Hp in Hh'. congruence. Qed.
Lemma best_header v best : chain_ok v → last (v_chain v) = Some best → ∃ b, v_headers v !! header_hash b = Some b ∧ best = header_point b.
Proof.
  intros [Hk _] Hl. apply last_Some_elem_of in Hl. rewrite Forall_forall in Hk. destruct (Hk _ Hl) as (b & Hb & <-). exists b. by cbn in Hb.
Qed.
Lemma up_to_cut fork c1 c2 : slots_ascending (c1 ++ fork :: c2) → up_to fork (c1 ++ fork :: c2) = c1 ++ [fork].
Proof.
  intros Ha. apply slots_ascending_app in Ha as (H1 & H2 & Hx). unfold up_to. rewrite filter_app, filter_cons_True by lia.
  f_equal; [apply filter_all; rewrite Forall_forall; intros p Hp; specialize (Hx p fork Hp ltac:(set_solver)); lia|].
  f_equal. apply filter_none. unfold slots_ascending in H2. inversion H2 as [|? ? _ Hf]; subst. eapply Forall_impl; [exact Hf|]. intros q Hq. cbn in Hq. lia.
Qed.

(** The ancestors of a tip, after the part of the best chain they share. *)
Lemma forks_to_ok v c1 f c2 h l1 l2 a : view_ok v → chain_ok v → v_chain v = c1 ++ header_point f :: c2 →
  Forall (λ h, v_headers v !! header_hash h = Some h) (h :: l1 ++ f :: l2) → descending v (h :: l1 ++ f :: l2) →
  last (h :: l1 ++ f :: l2) = Some a → header_point a = v_anchor v → v_anchor v ∈ v_chain v →
  Forall (λ q, v_flags v !! point_hash q ≠ Some false) (v_chain v) → Forall (λ h, v_flags v !! header_hash h ≠ Some false) (h :: l1) →
  forks_to v (header_point h) (c1 ++ header_point f :: rev (map header_point (h :: l1))).
Proof.
  intros Hv [Hk Hlk] Hc Hkn Hd Hlast Hap Han Hcf Hlf. pose proof (linked_ascending v _ Hv Hk Hlk) as Hasc.
  assert (∀ x, v_headers v !! header_hash x = Some x → point_known v (header_point x)) as Hpk by (intros x Hx; by exists x).
  rewrite Forall_cons, Forall_app, Forall_cons in Hkn. destruct Hkn as (Hh & Hl1 & Hf & Hl2). split.
  - rewrite Hc, Forall_app, Forall_cons in Hk. destruct Hk as (Hk1 & Hk2 & _). apply Forall_app. split; [done|]. constructor; [done|].
    rewrite Forall_forall. intros q Hq. apply list_elem_of_In, in_rev, list_elem_of_In in Hq.
    apply list_elem_of_fmap in Hq as (x & -> & Hx). apply Hpk. apply elem_of_cons in Hx as [->|Hx]; [done|]. rewrite Forall_forall in Hl1. by apply Hl1.
  - rewrite Hc in Hlk. apply linked_app_iff. apply linked_app_iff in Hlk as [Hlk _]. split; [done|].
    apply (descending_app v (h :: l1)) in Hd. apply descending_linked in Hd; [|by intros ? [= <-]].
    rewrite map_app, rev_app_distr in Hd. exact Hd.
  - cbn [map rev]. rewrite app_comm_cons, app_assoc. by rewrite last_snoc.
  - rewrite Hc in Han. apply elem_of_app in Han as [Han|Han]; [set_solver|]. apply elem_of_cons in Han as [Han|Han]; [set_solver|]. exfalso.
    rewrite Hc in Hasc. apply slots_ascending_app in Hasc as (_ & Hasc & _). inversion Hasc as [|? ? _ Hall]; subst. rewrite Forall_forall in Hall. specialize (Hall _ Han).
    assert (a = f ∨ slot a < slot f) as Hle; [|rewrite <- Hap in Hall; cbn in Hall; destruct Hle as [->|]; lia].
    assert (last (f :: l2) = Some a) as Hla by (change (h :: l1 ++ f :: l2) with ((h :: l1) ++ f :: l2) in Hlast; by rewrite last_app_cons in Hlast).
    destruct l2 as [|z l2 _] using rev_ind; [injection Hla as <-; by left|]. right. rewrite app_comm_cons, last_snoc in Hla. injection Hla as ->.
    apply (descending_suffix v (h :: l1)) in Hd. apply descending_linked in Hd; [|by intros ? [= <-]].
    apply (linked_ascending v) in Hd; [|done|].
    + cbn [map rev] in Hd. rewrite map_app, rev_app_distr in Hd. cbn in Hd. inversion Hd as [|? ? _ Hall2]; subst. rewrite Forall_forall in Hall2.
      apply (Hall2 (header_point f)). set_solver.
    + rewrite Forall_forall. intros q Hq. apply list_elem_of_In, in_rev, list_elem_of_In in Hq. apply list_elem_of_fmap in Hq as (x & -> & Hx). apply Hpk.
      rewrite Forall_forall in Hl2. apply elem_of_cons in Hx as [->|Hx]; [done|]. by apply Hl2.
  - rewrite Hc, Forall_app, Forall_cons in Hcf. destruct Hcf as (Hf1 & Hf2 & _). apply Forall_app. split; [done|]. constructor; [done|].
    rewrite Forall_forall in Hlf. apply Forall_forall. intros q Hq. apply list_elem_of_In, in_rev, list_elem_of_In in Hq. apply list_elem_of_fmap in Hq as (x & -> & Hx). by apply Hlf.
Qed.

Section Adoption.
Context {S : Type} `{ChainStore S}.

Lemma on_best_point s h : store_ok s → chain_ok (view s) → v_headers (view s) !! header_hash h = Some h →
  is_on_best_chain s (to_network_point (header_point h)) = true ↔ header_point h ∈ v_chain (view s).
Proof.
  intros Hs [Hk _] Hh. rewrite view_on_best by done. cbn [header_point to_network_point on_chain]. rewrite Exists_exists, Forall_forall in *. split.
  - intros (q & Hin & _ & Hq). by rewrite <- (known_header (view s) q h Hh (Hk q Hin) Hq).
  - intros Hin. by exists (header_point h).
Qed.

(** What is found for a tip that is not on the best chain. *)
Lemma find_fork {E : Type} s best h : store_ok s → sound (view s) → adopting (view s) best →
  v_headers (view s) !! header_hash h = Some h → reachable (view s) (header_hash h) → header_point h ∉ v_chain (view s) →
  ∃ fork forward c1 c2, find_ancestor_on_best_chain (E := E) s (header_hash h) = Ok (AncestorFound fork forward) ∧
    v_chain (view s) = c1 ++ fork :: c2 ∧ last forward = Some (header_point h) ∧
    forks_to (view s) (header_point h) (c1 ++ fork :: forward).
Proof.
  intros Hs Hso [Hc Hb Han Hcf] Hh Hr Hnot. pose proof (so_view _ Hso) as Hv. pose proof Hc as [Hk Hlk].
  assert (point_known (view s) (v_anchor (view s))) as (a & Ha & Hap) by (rewrite Forall_forall in Hk; by apply Hk).
  destruct (ancestors_reach (E := E) s a h Hs Hso Ha Hap Hh Hr) as (l & Hl & Hhead & Hlast & Hd & Hre).
  unfold find_ancestor_on_best_chain. rewrite load_view, Hh, Hl. cbn [mbind exec_bind].
  pose proof (descending_known (view s) l ltac:(intros ? Hx; rewrite Hhead in Hx; by injection Hx as <-) Hd) as Hkn.
  assert (∃ x, x ∈ l ∧ is_on_best_chain s (to_network_point (header_point x)) = true) as Hex.
  { exists a. split; [by apply last_Some_elem_of|]. apply on_best_point; [done|done| |by rewrite Hap]. rewrite <- Hap in Ha. done. }
  destruct (split_at_best_ok s l Hex []) as (l1 & f & l2 & -> & Hl1 & Hf & ->). cbn [app].
  assert (v_headers (view s) !! header_hash f = Some f) as Hknf by (rewrite Forall_app, Forall_cons in Hkn; by destruct Hkn as (_ & ? & _)).
  apply on_best_point in Hf; [|done..]. destruct l1 as [|x l1]; [injection Hhead as ->; done|]. injection Hhead as ->.
  destruct (list_elem_of_split _ _ Hf) as (c1 & c2 & Hcut). exists (header_point f), (rev (map header_point (h :: l1))), c1, c2.
  assert (Forall (λ h, v_flags (view s) !! header_hash h ≠ Some false) (h :: l1)) as Hlf.
  { apply Forall_app in Hre as [Hre _]. eapply Forall_impl; [exact Hre|]. intros x. apply reachable_flag. }
  pose proof (forks_to_ok (view s) c1 f c2 h l1 l2 a Hv Hc Hcut Hkn Hd Hlast Hap Han Hcf Hlf) as Hfk. cbn [map rev] in *.
  split; [by destruct (rev (map header_point l1))|]. split; [done|]. split; [by rewrite last_snoc|done].
Qed.

(** The store has the best chain of the new tip. *)
Lemma switched_view s h c1 fork c2 forward : store_ok s → view_ok (view s) → chain_ok (view s) → v_chain (view s) = c1 ++ fork :: c2 →
  forks_to (view s) (header_point h) (c1 ++ fork :: forward) → last forward = Some (header_point h) →
  ∃ s', switch_to_fork fork forward s = Ok s' ∧ store_ok s' ∧ view s' = with_chain (c1 ++ fork :: forward) (header_point h) (view s).
Proof.
  intros Hs Hv [Hk Hlk] Hc Hf Hlast. pose proof (linked_ascending _ _ Hv Hk Hlk) as Hasc. rewrite Hc in Hasc.
  assert (point_known (view s) fork) as (f & Hfk & Hfp) by (rewrite Hc, Forall_app, Forall_cons in Hk; tauto).
  destruct (vo_hash _ Hv _ _ Hfk) as (_ & _ & [Hp0 Hp1] & _).
  assert (c1 ++ fork :: forward = up_to fork (v_chain (view s)) ++ forward) as Hup by (rewrite Hc, up_to_cut by done; by rewrite <- app_assoc).
  destruct (impl_switch_to_fork fork forward s Hs) as (s' & Hr & Hs' & Hv').
  - rewrite Hc, Exists_app, Exists_cons. right. by left.
  - rewrite <- Hfp. cbn. unfold i64_max, u64_max in *. lia.
  - rewrite <- Hup. by apply (linked_ascending (view s)); [|apply fo_known in Hf|apply fo_linked in Hf].
  - exists s'. split; [done|]. split; [done|]. rewrite Hv', <- Hup, Hlast. done.
Qed.
Lemma rolled_view s h : store_ok s → view_ok (view s) → forks_to (view s) (header_point h) (v_chain (view s) ++ [header_point h]) →
  let s' := roll_forward_chain (header_point h) s in
  store_ok s' ∧ view s' = with_chain (v_chain (view s) ++ [header_point h]) (header_point h) (view s).
Proof.
  intros Hs Hv Hf. apply (impl_roll_forward_chain (header_point h) s Hs). by apply (linked_ascending (view s)); [|apply fo_known in Hf|apply fo_linked in Hf].
Qed.

(** A better tip is not on the chain already. *)
Lemma better_not_on_chain `{Hashing} v b h : view_ok v → chain_ok v → last (v_chain v) = Some (header_point b) →
  v_headers v !! header_hash b = Some b → v_headers v !! header_hash h = Some h → tip_order (Some h) (Some b) = Gt → header_point h ∉ v_chain v.
Proof.
  intros Hv [Hk Hlk] Hl Hb Hh Ho Hin. pose proof (linked_heights v _ Hv Hk Hlk) as Hs. destruct (sorted_last _ _ _ _ Hs Hin Hl) as [He|He].
  - assert (header_hash h = header_hash b) as Heq by by injection He. rewrite Heq, Hb in Hh. injection Hh as <-.
    pose proof (tip_order_antisym (Some b) (Some b)) as Ha. rewrite Ho in Ha. done.
  - apply tip_order_height in Ho. cbn in He. lia.
Qed.

Lemma adopt_tip_ok `{Hashing} s b h : store_ok s → sound (view s) → adopting (view s) (header_point b) →
  v_headers (view s) !! header_hash b = Some b → v_headers (view s) !! header_hash h = Some h → reachable (view s) (header_hash h) →
  tip_order (Some h) (Some b) = Gt →
  ∃ s' r chain, adopt_tip h b s = Ok (s', r) ∧ (r = BestChainRolledForward ∨ ∃ l, r = BestChainSwitched l) ∧ store_ok s' ∧
    view s' = with_chain chain (header_point h) (view s) ∧ forks_to (view s) (header_point h) chain.
Proof.
  intros Hs Hso Had Hb Hh Hr Ho. pose proof (so_view _ Hso) as Hv. pose proof Had as [Hc Hbest Han Hcf].
  pose proof (better_not_on_chain (view s) b h Hv Hc Hbest Hb Hh Ho) as Hnot. unfold adopt_tip. case_decide as Hp.
  - apply last_Some in Hbest as (c1 & Hcut). pose proof Hc as [Hk Hlk].
    assert (forks_to (view s) (header_point h) (v_chain (view s) ++ [header_point h])) as Hf.
    { split; [apply Forall_app; split; [done|]; constructor; [by exists h|done]| |by rewrite last_snoc|set_solver|].
      - rewrite Hcut in Hlk |- *. rewrite <- app_assoc. apply linked_step; [done|]. cbn. rewrite Hh. done.
      - apply Forall_app. split; [done|]. constructor; [by apply reachable_flag|done]. }
    destruct (rolled_view s h Hs Hv Hf) as [Hs' Hv']. eexists _, _, _. split; [done|]. split; [by left|]. done.
  - destruct (find_fork (E := StoreError) s _ h Hs Hso Had Hh Hr Hnot) as (fork & forward & c1 & c2 & Hfind & Hcut & Hlast & Hf). rewrite Hfind. cbn [mbind exec_bind].
    destruct (switched_view s h c1 fork c2 forward Hs Hv Hc Hcut Hf Hlast) as (s' & Hsw & Hs' & Hv'). rewrite Hsw. cbn [mbind exec_bind].
    eexists _, _, _. split; [done|]. split; [right; by eexists|]. done.
Qed.

(** *** The anchor *)
Lemma anchor_loop_ok {E : Type} s target best : store_ok s → view_ok (view s) → chain_ok (view s) → last (v_chain (view s)) = Some best → target <= point_height best →
  ∀ fuel d1 p d2, v_chain (view s) = d1 ++ p :: d2 → target - point_height p = Z.of_nat fuel → (0 < fuel)%nat →
  ∃ r d3 d4, anchor_loop (E := E) fuel s target p = Ok (Some r) ∧ v_chain (view s) = d1 ++ p :: d3 ++ r :: d4 ∧ point_height r = target.
Proof.
  intros Hs Hv Hc Hlast Hle. pose proof Hc as [Hk Hlk]. induction fuel as [|fuel IH]; intros d1 p d2 Hcut Hf Hpos; [lia|]. cbn [anchor_loop].
  assert (point_known (view s) p) as Hp by (rewrite Forall_forall in Hk; apply Hk; rewrite Hcut; set_solver).
  rewrite view_next; [|done..|by right]. rewrite (next_on_chain_cut (view s) d1 p d2 Hv Hc Hcut). destruct d2 as [|q d2]; cbn [head].
  { rewrite Hcut, last_snoc in Hlast. injection Hlast as ->. lia. }
  assert (point_known (view s) q) as Hq by (rewrite Forall_forall in Hk; apply Hk; rewrite Hcut; set_solver).
  assert (v_headers (view s) !! point_hash q ≫= parent = Some (point_hash p)) as Hpar by (rewrite Hcut in Hlk; by apply linked_app in Hlk).
  destruct (linked_next (view s) p q Hv Hp Hq Hpar) as [_ Hh]. destruct (Z.leb_spec target (point_height q)) as [Hq'|Hq'].
  - exists q, [], d2. split; [done|]. split; [done|]. lia.
  - destruct (IH (d1 ++ [p]) q d2) as (r & d3 & d4 & Hr & Hcut' & Hhr); [by rewrite <- app_assoc|lia|lia|].
    exists r, (q :: d3), d4. split; [done|]. split; [rewrite Hcut', <- app_assoc; done|done].
Qed.

(** What is after a candidate on a chain is one. *)
Lemma chain_reachable v p l : Forall (point_known v) (p :: l) → linked v (p :: l) → Forall (λ q, v_flags v !! point_hash q ≠ Some false) (p :: l) →
  reachable v (point_hash p) → ∀ q, q ∈ p :: l → reachable v (point_hash q).
Proof.
  revert p. induction l as [|x l IH]; intros p Hk Hl Hf Hr q Hq; [by apply list_elem_of_singleton in Hq as ->|].
  apply elem_of_cons in Hq as [->|Hq]; [done|]. rewrite Forall_cons in Hk, Hf. destruct Hk as [_ Hk], Hf as [_ Hf], Hl as [Hpar Hl].
  apply (IH x); [done|done|done| |done]. rewrite Forall_cons in Hk, Hf. destruct Hk as [(h & Hh & _) _], Hf as [Hf _]. rewrite Hh in Hpar. cbn in Hpar.
  apply (reachable_child _ (point_hash p) _ h); [done|done| |done]. by rewrite Hpar.
Qed.
Lemma adopting_anchor v best p : adopting v best → p ∈ v_chain v → adopting (with_anchor p v) best.
Proof. intros [[Hk Hl] Hb Ha Hf] Hp. split; [split; [done|by apply (linked_ext v)]|done|done|done]. Qed.

(** The anchor after a tip was adopted: [k] blocks behind, or where it was. *)
Definition anchor_after (v v' : ChainView) (k : Z) (tip : Point) : Prop :=
  point_height (v_anchor v') = Z.max (point_height (v_anchor v)) (u64_saturating_sub (point_height tip) k) ∧
  point_slot (v_anchor v) <= point_slot (v_anchor v').

Lemma drag_anchor_ok s tip k : store_ok s → sound (view s) → adopting (view s) tip → 0 <= k → 0 <= point_height tip →
  ∃ s', drag_anchor_forward tip k s = Ok s' ∧ store_ok s' ∧ sound (view s') ∧ adopting (view s') tip ∧
    v_chain (view s') = v_chain (view s) ∧ v_headers (view s') = v_headers (view s) ∧ anchor_after (view s) (view s') k tip.
Proof.
  intros Hs Hso Had Hk Hh. pose proof Had as [Hc Hb Ha Hf]. pose proof (so_view _ Hso) as Hv. unfold drag_anchor_forward, find_anchor_at_height, anchor_after.
  rewrite view_anchor. set (target := u64_saturating_sub (point_height tip) k). destruct (Z.leb_spec target (point_height (v_anchor (view s)))) as [Hle|Hgt].
  { exists s. cbn [mbind exec_bind]. split_and!; try done; lia. }
  pose proof (list_elem_of_split _ _ Ha) as (d1 & d2 & Hcut). assert (target <= point_height tip) as Htt by (unfold target, u64_saturating_sub; lia).
  destruct (anchor_loop_ok (E := StoreError) s target tip Hs Hv Hc Hb Htt (Z.to_nat (target - point_height (v_anchor (view s)))) d1 (v_anchor (view s)) d2 Hcut) as (r & d3 & d4 & Hr & Hcut' & Hht); [lia|lia|].
  rewrite Hr. cbn [mbind exec_bind]. destruct (impl_set_anchor_point r s Hs) as [Hs' Hv'].
  pose proof Hc as [Hkn Hlk]. pose proof Hf as Hfl. rewrite Hcut' in Hkn, Hlk, Hfl. apply Forall_app in Hkn as [_ Hkn]. apply Forall_app in Hfl as [_ Hfl]. apply linked_app_iff in Hlk as [_ Hlk].
  pose proof (linked_ascending _ _ Hv Hkn Hlk) as Hasc. assert (point_known (view s) r) as Hrk by (rewrite Forall_forall in Hkn; apply Hkn; set_solver).
  assert (point_slot (v_anchor (view s)) <= point_slot r) as Hsl by (inversion Hasc as [|? ? _ Hall]; subst; rewrite Forall_forall in Hall; specialize (Hall r ltac:(set_solver)); lia).
  assert (anchor_fits (view s) r) as Hfit.
  { split; [done|]. split; [rewrite Forall_forall in Hfl; apply Hfl; set_solver|]. split; [|done].
    apply (chain_reachable (view s) (v_anchor (view s)) (d3 ++ r :: d4) Hkn Hlk Hfl); [|set_solver].
    destruct (so_anchor _ Hso) as [Hor|[(a & Hal & _) Hfa]]; [rewrite Hor in Hkn; apply Forall_cons in Hkn as [(x & _ & Hx) _]; done|].
    destruct (vo_hash _ Hv _ _ Hal) as (_ & Ho & _). by apply (reachable_anchor _ a). }
  eexists. split; [done|]. rewrite Hv'. split; [done|]. split; [by apply sound_anchor|]. split; [apply adopting_anchor; [done|]; rewrite Hcut'; set_solver|].
  cbn. split_and!; try done. lia.
Qed.

(** *** The stage *)
Lemma adopting_switched v best tip chain : adopting v best → sound v → forks_to v tip chain → adopting (with_chain chain tip v) tip ∧ sound (with_chain chain tip v).
Proof.
  intros Had [[H1 H2 H3] Hp Ha] [Hk Hl Hlast Han Hf]. split; [|by split]. split; [split; [done|by apply (linked_ext v)]|done|done|done].
Qed.

Lemma adopt_ok `{Hashing} s st b h tip : store_ok s → sound (view s) → adopting (view s) (header_point b) → 0 <= ac_security_param st →
  v_headers (view s) !! header_hash b = Some b → v_headers (view s) !! header_hash h = Some h → reachable (view s) (header_hash h) →
  tip = header_point h → (∃ p, parent_point (view s) h p) → tip_order (Some h) (Some b) = Gt →
  ∃ s' effects, adopt tip h (Some b) st s = Ok (set_best tip st, s', effects) ∧ ManagerNewTip tip ∈ effects ∧ store_ok s' ∧ sound (view s') ∧
    adopting (view s') tip ∧ anchor_after (view s) (view s') (ac_security_param st) tip.
Proof.
  intros Hs Hso Had Hk Hb Hh Hr -> (p & Hp) Ho. pose proof (so_view _ Hso) as Hv. destruct (vo_hash _ Hv _ _ Hh) as (_ & _ & _ & Hpos). unfold adopt.
  destruct (adopt_tip_ok s b h Hs Hso Had Hb Hh Hr Ho) as (s1 & r & chain & Hadopt & Hres & Hs1 & Hv1 & Hf). rewrite Hadopt. cbn [map_err mbind exec_bind].
  destruct (adopting_switched _ _ _ _ Had Hso Hf) as [Had1 Hso1]. rewrite <- Hv1 in Had1, Hso1.
  destruct (drag_anchor_ok s1 (header_point h) (ac_security_param st) Hs1 Hso1 Had1 Hk) as (s2 & Hdrag & Hs2 & Hso2 & Had2 & _ & Hhd2 & Haf); [done|].
  assert (load_parent_point s2 h = Ok p) as Hlp.
  { apply load_parent; [apply (so_view _ Hso2)|rewrite Hhd2, Hv1; done|]. unfold parent_point in *. rewrite Hhd2, Hv1. done. }
  exists s2. destruct Hres as [->|[l ->]]; cbn [map_err mbind exec_bind]; rewrite Hdrag; cbn [map_err mbind exec_bind]; rewrite Hlp; cbn [mbind exec_bind].
  all: destruct (ac_forge st); cbn [mbind exec_bind]; eexists; (split; [done|]); (split; [set_solver|]); split_and!; try done.
  all: unfold anchor_after in *; rewrite Hv1 in Haf; cbn in Haf; tauto.
Qed.

(** C22: adopting a validated tip keeps the best chain of the store: it is a chain of stored
    headers without an invalid block, ends with the best tip, and goes through the anchor.
    A tip that is not better leaves the store as it is; a better one becomes the best tip,
    is told to the peers, and drags the anchor to the security parameter behind it, never back. *)
Theorem adoption_keeps_best_chain `{Hashing} s st msg h b : store_ok s → sound (view s) → adopting (view s) (current_best_tip st) → 0 <= ac_security_param st →
  am_tip msg = header_point h → v_headers (view s) !! header_hash h = Some h → reachable (view s) (header_hash h) →
  current_best_tip st = header_point b → v_headers (view s) !! header_hash b = Some b →
  ∃ st' s' effects, adopt_stage msg st s = Ok (st', s', effects) ∧ store_ok s' ∧ sound (view s') ∧ adopting (view s') (current_best_tip st') ∧
    match tip_order (Some h) (Some b) with
    | Gt => current_best_tip st' = am_tip msg ∧ ManagerNewTip (am_tip msg) ∈ effects ∧ anchor_after (view s) (view s') (ac_security_param st) (am_tip msg)
    | _ => current_best_tip st' = current_best_tip st ∧ view s' = view s ∧ effects = []
    end.
Proof.
  intros Hs Hso Had Hk Htip Hh Hr Hbt Hb. pose proof (so_view _ Hso) as Hv.
  unfold adopt_stage. cbn [current_best_tip]. set (st1 := mkAdoptChain _ _ _ _ _ _).
  destruct (Z.ltb_spec (point_height (am_tip msg)) (point_height (current_best_tip st))) as [Hlow|_].
  { exists st1, s, []. rewrite Htip, Hbt in Hlow. destruct (tip_order (Some h) (Some b)) eqn:Ho; [split_and!; done..|]. apply tip_order_height in Ho. cbn in Hlow. lia. }
  rewrite Htip. cbn [point_hash header_point]. rewrite load_view, Hh. cbn [ok_or mbind exec_bind]. unfold load_current_best. cbn [current_best_tip st1]. rewrite Hbt. cbn [point_hash header_point].
  rewrite decide_False by done. rewrite load_view, Hb. cbn [ok_or mbind exec_bind]. rewrite cmp_tip_ok.
  2: { intros ? [= <-]. by destruct (vo_hash _ Hv _ _ Hh) as (_ & _ & ? & _). }
  2: { intros ? [= <-]. by destruct (vo_hash _ Hv _ _ Hb) as (_ & _ & ? & _). }
  cbn [mbind exec_bind]. destruct (tip_order (Some h) (Some b)) eqn:Ho.
  1,2: exists st1, s, []; subst st1; cbn [current_best_tip]; rewrite ?Hbt in *; split_and!; done.
  rewrite Hbt in Had. destruct (adopt_ok s st1 b h (header_point h) Hs Hso Had Hk Hb Hh Hr eq_refl) as (s2 & effects & Had' & Hin & Hs2 & Hso2 & Had2 & Haf); [|done|].
  { apply (reachable_parent (view s) (header_hash h)); [apply (so_parents _ Hso)|intros; by apply (reachable_slot s k)|done|done]. }
  rewrite <- Hbt in *. eexists _, s2, effects. split; [exact Had'|]. done.
Qed.
End Adoption.
