(* ===== verification/ConsensusClaims.v ===== *)
(** * The consensus on examples

    The claims on the chain stores and on the stages that select, fetch and adopt chains,
    with stores on which they apply. *)

From S2P Require Import Prelude BTreeMap SortedAssoc UplcSyntax ProtocolParameters Headers ChainStore ChainView ChainStoreProps SelectChain SelectChainProps FetchBlocks Pipeline AdoptChain AdoptChainProps.
#[local] Open Scope Z_scope.

(** ** Both stores *)

(** The writes of the stages. *)
Inductive Write :=
| StoreHeader (h : Header)
| StoreBlock (k : HeaderHash) (block : list Z)
| SetBlockValid (k : HeaderHash) (valid : bool)
| RemoveBlockValid (k : HeaderHash)
| SetAnchorPoint (p : Point)
| SetBestChainTip (p : Point)
| SwitchToFork (fork : Point) (forward : list Point)
| RollForwardChain (p : Point).

Section Writes.
Context {S : Type} `{ChainStore S}.
Definition perform (w : Write) (s : S) : exec StoreError S :=
  match w with
  | StoreHeader h => Ok (store_header h s)
  | StoreBlock k block => Ok (store_block k block s)
  | SetBlockValid k valid => Ok (set_block_valid k valid s)
  | RemoveBlockValid k => Ok (remove_block_valid k s)
  | SetAnchorPoint p => Ok (set_anchor_point p s)
  | SetBestChainTip p => Ok (set_best_chain_tip p s)
  | SwitchToFork fork forward => switch_to_fork fork forward s
  | RollForwardChain p => Ok (roll_forward_chain p s)
  end.
Fixpoint writes (l : list Write) (s : S) : exec StoreError S :=
  match l with [] => Ok s | w :: l => s ← perform w s; writes l s end.
End Writes.

(** What a write does to the abstract state, [None] when it is refused. *)
Definition effect (w : Write) (v : ChainView) : option ChainView :=
  match w with
  | StoreHeader h => Some (with_header h v)
  | StoreBlock k block => Some (with_block k block v)
  | SetBlockValid k valid => Some (with_flags (<[k := valid]> (v_flags v)) v)
  | RemoveBlockValid k => Some (with_flags (delete k (v_flags v)) v)
  | SetAnchorPoint p => Some (with_anchor p v)
  | SetBestChainTip p => Some (with_chain (v_chain v) p v)
  | SwitchToFork fork forward =>
      if decide (Exists (same_place fork) (v_chain v)) then Some (with_chain (up_to fork (v_chain v) ++ forward) (default fork (last forward)) v) else None
  | RollForwardChain p => Some (with_chain (v_chain v ++ [p]) p v)
  end.
(** A header is stored under its own hash, and a chain has ascending slots. *)
Definition write_fits (w : Write) (v : ChainView) : Prop :=
  match w with
  | StoreHeader h => v_headers v !! header_hash h = None ∨ v_headers v !! header_hash h = Some h
  | SwitchToFork fork forward => Exists (same_place fork) (v_chain v) → 0 <= point_slot fork < u64_max ∧ slots_ascending (up_to fork (v_chain v) ++ forward)
  | RollForwardChain p => slots_ascending (v_chain v ++ [p])
  | _ => True
  end.
Fixpoint writes_fit (l : list Write) (v : ChainView) : Prop :=
  match l with [] => True | w :: l => write_fits w v ∧ ∀ v', effect w v = Some v' → writes_fit l v' end.

Lemma write_effect {S : Type} `{ChainStore S} w s : store_ok s → write_fits w (view s) →
  match effect w (view s) with Some v => ∃ s', perform w s = Ok s' ∧ store_ok s' ∧ view s' = v | None => perform w s = Err ReadError end.
Proof.
  intros Hs. destruct w as [h|k b|k b|k|p|p|fork l|p]; cbn [effect perform write_fits]; intros Hf.
  - eexists. split; [done|]. by apply impl_store_header.
  - eexists. split; [done|]. by apply impl_store_block.
  - eexists. split; [done|]. by apply impl_set_block_valid.
  - eexists. split; [done|]. by apply impl_remove_block_valid.
  - eexists. split; [done|]. by apply impl_set_anchor_point.
  - eexists. split; [done|]. by apply impl_set_best_chain_tip.
  - case_decide as He; [|by apply impl_switch_refused]. destruct (Hf He). by apply impl_switch_to_fork.
  - eexists. split; [done|]. by apply impl_roll_forward_chain.
Qed.
Lemma writes_effect {S1 S2 : Type} `{ChainStore S1} `{ChainStore S2} l : ∀ (s1 : S1) (s2 : S2), store_ok s1 → store_ok s2 → view s1 = view s2 → writes_fit l (view s1) →
  writes l s1 = Err ReadError ∧ writes l s2 = Err ReadError ∨
  ∃ s1' s2', writes l s1 = Ok s1' ∧ writes l s2 = Ok s2' ∧ store_ok s1' ∧ store_ok s2' ∧ view s1' = view s2'.
Proof.
  induction l as [|w l IH]; intros s1 s2 H1 H2 Hv Hf; cbn [writes]; [right; eauto 10|]. destruct Hf as [Hw Hl].
  pose proof (write_effect w s1 H1 Hw) as E1. rewrite Hv in Hw. pose proof (write_effect w s2 H2 Hw) as E2. rewrite <- Hv in E2.
  destruct (effect w (view s1)) as [v|] eqn:He; [|rewrite E1, E2; by left]. destruct E1 as (s1' & -> & H1' & Hv1), E2 as (s2' & -> & H2' & Hv2).
  cbn [mbind exec_bind]. apply IH; [done|done|congruence|]. rewrite Hv1. by apply Hl.
Qed.



(** ** Chain selection *)

(** The search for the best candidate ends, and finds the highest header that is
    reached from the anchor without meeting an invalid block; it gives the hash of the
    origin only when there is none. *)
Theorem best_candidate_found {S : Type} `{ChainStore S} `{Hashing} (s : S) (fuel : nat) :
  store_ok s → view_ok (view s) → anchor_ok (view s) → (size (dom (v_headers (view s))) <= fuel)%nat →
  ∃ k, find_best_candidate fuel s = Ok k ∧
    (k = ORIGIN_HASH ∧ (∀ t, ¬ reachable (view s) t) ∨
     reachable (view s) k ∧ ∀ t h hk, reachable (view s) t → v_headers (view s) !! t = Some h → v_headers (view s) !! k = Some hk → block_height h <= block_height hk).
Proof.
  intros Hs Hv Ha Hf. destruct (best_candidate_ok s fuel Hs Hv Ha Hf) as ([b|] & Hb & Hbest & Hc).
  - exists (header_hash b). split; [done|]. right. destruct Hbest as (Hst & _ & Hm). split; [by apply candidate_reachable, Hc|].
    unfold stored in Hst. rewrite load_view in Hst. intros t h hk Ht Hh Hk. rewrite Hst in Hk. injection Hk as <-. apply (Hm t); [done|by apply candidate_reachable|by rewrite load_view].
  - exists ORIGIN_HASH. split; [done|]. left. destruct Hbest as [_ Hn]. split; [done|]. intros t Ht. by apply (Hn t I), candidate_reachable.
Qed.

(** C21: at every moment of a run of chain selection, however other stages store headers
    and blocks, move the anchor and the best chain in between, a message is handled
    without failure; the tips that are tracked carry the hashes to validate, the best tip is a stored
    header and none of the candidates among the tips is higher; what is sent is the best tip with its parent. *)
Theorem selection_invariant {S : Type} `{ChainStore S} `{Hashing} (fuel : nat) (s0 s : S) (st : SelectChain) (msg : SelectChainMsg) :
  store_ok s0 → sound (view s0) → rtc (moves fuel) (s0, SelectChain_new) (s, st) → (size (dom (v_headers (view s))) <= fuel)%nat → message_ok (view s) st msg →
  ∃ st' s' sent, stage fuel msg st s = Ok (st', s', sent) ∧ view s' = view_after (view s) msg ∧ selecting (view s') st' ∧ sent_ok (view s') st st' msg sent.
Proof.
  intros Hs Hso Hr Hf Hm. destruct (running_run fuel _ _ (running_start s0 Hs Hso) Hr) as (Hs' & Hso' & Hse).
  destruct (stage_ok fuel s st msg Hs' Hso' Hse Hf Hm) as (st' & s' & sent & Hst & _ & Hv & _ & Hse' & Hsent). by exists st', s', sent.
Qed.

(** ** Fetching *)
Section Fetching.
Context {Peer : Type} `{Countable Peer} {NetworkBlock : Type} `{!NetworkBlocks NetworkBlock}.
Context {S : Type} `{!BaseReadChainStore S, !WriteChainStore S, !Hashing}.
Variable fuel : nat.
Implicit Types w : World (Peer := Peer) (NetworkBlock := NetworkBlock) (S := S).

(** The request is in the message that recovers the stored blocks, or nowhere. *)
Definition request_held w : Prop := (∃ rest, to_fetch w = RecoverStoredBlocks Origin ORIGIN_HASH :: rest) ∨ requests w = 0%nat.
Lemma request_held_step w w' : pipeline_ok w → pipeline fuel w w' → request_held w → request_held w'.
Proof.
  intros Hw Hs [[rest Hq]|Hz]; [|right; by destruct (requests_step fuel w w' (pi_timers _ Hw) Hs); lia].
  pose proof (requests_step fuel w w' (pi_timers _ Hw) Hs) as Hr. assert (dropped w = 1%nat) as Hd by (unfold dropped; by rewrite Hq). pose proof (pi_one _ Hw) as Hone.
  destruct Hs as [w msg rest' st s sent Hm Hst|w env msg rest' st s effects Hm He Hwd Hst|w id msg Hl|w msg Hm|w msg Hm|w s]; cbn in *.
  all: try (left; rewrite Hq; eauto; fail). right. rewrite Hq in Hm. injection Hm as <- <-. cbn in Hst. unfold recover_stored_blocks in Hst.
  destruct (fb_missing (w_fetch w)) eqn:Hmiss; [done|]. cbn in Hst. injection Hst as <- <- <-. unfold requests, fetching in *. cbn. rewrite Hq, Hmiss in *. cbn in *. rewrite app_nil_r. lia.
Qed.
Lemma request_held_run w w' : rtc (pipeline fuel) w w' → pipeline_ok w → request_held w → pipeline_ok w' ∧ request_held w'.
Proof. induction 1 as [|w1 w2 w3 Hs _ IH]; [done|]. intros Hp Hh. apply IH; [by apply (pipeline_ok_step fuel w1)|by apply (request_held_step w1)]. Qed.

(** C34: a node that starts with an empty ledger and an empty chain never fetches: once the
    recovery of stored blocks found nothing to do, no tip that peers announce later
    is passed on to the stage that fetches blocks, which never misses any. *)
Theorem fresh_node_never_fetches s w : rtc (pipeline fuel) (startup s Origin ORIGIN_HASH) w →
  (∀ tip p, NewTip tip p ∉ to_fetch w) ∧ fb_missing (w_fetch w) = None ∧ may_fetch_blocks (w_select w) = false.
Proof.
  intros Hr. apply request_held_run in Hr as [[Hone _ _] Hw]; [|apply pipeline_ok_start|left; by eexists].
  assert (requests w = 0%nat ∨ ∃ rest, to_fetch w = RecoverStoredBlocks Origin ORIGIN_HASH :: rest) as Hcase by (destruct Hw; auto).
  assert (∀ tip p, NewTip tip p ∈ to_fetch w → (1 <= requests w)%nat ∧ requests w ≠ 1%nat ∨ requests w = 1%nat ∧ ~ ∃ rest, to_fetch w = RecoverStoredBlocks Origin ORIGIN_HASH :: rest) as Hnew.
  { intros tip p Hin. pose proof (starts_bound fetch_starts _ _ Hin) as Hb. cbn in Hb. destruct (decide (requests w = 1%nat)) as [H1|H1]; [right; split; [done|]|left; unfold requests in *; lia].
    intros [rest Hq]. rewrite Hq in Hin. apply elem_of_cons in Hin as [|Hin]; [done|]. pose proof (starts_bound fetch_starts _ _ Hin) as Hb'. cbn in Hb'.
    unfold requests in H1. rewrite Hq in H1. cbn in H1. lia. }
  split; [intros tip p Hin; destruct (Hnew tip p Hin) as [[? ?]|[? ?]]; destruct Hcase; try done; lia|].
  unfold requests, fetching in *. destruct Hcase as [Hz|[rest Hq]]; [|rewrite Hq in Hone; cbn in Hone].
  all: destruct (fb_missing (w_fetch w)), (may_fetch_blocks (w_select w)); cbn in *; try done; lia.
Qed.
End Fetching.

(** ** A small chain

    A fork of one block, which is the best chain, and one of two blocks. *)
Module SampleChain.
#[export] Instance hashing : Hashing := {| blake2b_256 l := l; blake2b_224 l := l |}.
#[export] Instance network_blocks : NetworkBlocks Header := {| decode_block h := Some (h, []); decode_header := Some; raw_block _ := [] |}.
Definition header (hash number slot : Z) (prev : option HeaderHash) : Header :=
  mkHeader [hash] (mkHeaderBody number slot prev [] [] (mkVrfCert [hash] []) 0 [] (mkOperationalCert [] 0 0 []) PROTOCOL_VERSION_11) [].
Definition g : Header := header 1 5 100 None.
Definition h1 : Header := header 2 6 120 (Some [1]).
Definition h2 : Header := header 3 6 130 (Some [1]).
Definition h3 : Header := header 4 7 140 (Some [2]).
Definition setup : list Write :=
  [StoreHeader g; SetAnchorPoint (header_point g); RollForwardChain (header_point g); StoreBlock [1] [82; 1]; SetBlockValid [1] true; StoreHeader h1; StoreHeader h2; StoreHeader h3;
   RollForwardChain (header_point h1); SwitchToFork (header_point g) [header_point h2]].
Definition no_db : RocksDBStore := mkRocksDBStore ∅ ∅ ∅ ∅ [] None None.
Definition no_mem : InMemoryChainStoreInner := mkInMemory ∅ ∅ Origin Origin ∅ [] ∅.
Definition mem : InMemoryChainStoreInner := match writes setup no_mem with Ok s => s | _ => no_mem end.
Definition sample_view : ChainView :=
  mkView (<[[1] := g]> (<[[2] := h1]> (<[[3] := h2]> {[ [4] := h3 ]}))) {[ [1] := true ]} {[ [1] := [82; 1] ]} (header_point g) [header_point g; header_point h2] (header_point h2).

Lemma no_db_ok : store_ok no_db.
Proof. split; cbn; [|constructor..]. intros k c. unfold Rocks.children_of. cbn. rewrite lookup_empty. cbn. split; [by intros ?%elem_of_nil|]. intros (h & Hh & _). by rewrite lookup_empty in Hh. Qed.
Lemma no_mem_ok : store_ok no_mem.
Proof.
  split; cbn; [| |constructor]; intros k; unfold InMemory.children_of; cbn; rewrite lookup_empty; cbn; [|constructor].
  intros c. split; [by intros ?%elem_of_nil|]. intros (h & Hh & _). by rewrite lookup_empty in Hh.
Qed.
Ltac ascending := repeat first [constructor | vm_compute; reflexivity].
Lemma setup_fits : writes_fit setup (view no_db).
Proof.
  repeat (split; [first [by left | exact I | intros _; split; [vm_compute; split; congruence|ascending] | ascending]|intros ? [= <-]]). exact I.
Qed.
Lemma mem_written : writes setup no_mem = Ok mem.
Proof. vm_compute. reflexivity. Qed.
Lemma mem_view : view mem = sample_view.
Proof. vm_compute. reflexivity. Qed.
Lemma mem_ok : store_ok mem.
Proof.
  destruct (writes_effect setup no_db no_mem no_db_ok no_mem_ok eq_refl setup_fits) as [[_ He]|(s1 & s2 & _ & Hw & _ & Ho & _)]; [by rewrite mem_written in He|].
  rewrite mem_written in Hw. by injection Hw as ->.
Qed.
Ltac stored H := cbn in H; repeat (apply lookup_insert_Some in H as [[<- <-]|[_ H]]); try (apply lookup_singleton_Some in H as [<- <-]).
Lemma mem_sound : sound (view mem).
Proof.
  rewrite mem_view. split.
  - split; [intros k h Hk|intros k h p hp Hk Hp Hhp|intros k h p Hk Hp]; stored Hk.
    all: try (cbn in Hp; injection Hp as <-); try done; try (cbn in Hhp; injection Hhp as <-); cbn; unfold slot_fits, i64_max; cbn; try (split_and!; try done; lia).
  - intros k h p Hk _ Hp. stored Hk; cbn in Hp; try done; injection Hp as <-; vm_compute; eauto.
  - right. split; [by exists g|]. by vm_compute.
Qed.
Lemma h1_reachable : reachable sample_view [2].
Proof. apply (reachable_child _ (point_hash (v_anchor sample_view)) [2] h1); [done|by apply (reachable_anchor _ g)|done|by vm_compute]. Qed.
Lemma h3_reachable : reachable sample_view [4].
Proof. apply (reachable_child _ [2] [4] h3); [done|apply h1_reachable|done|by vm_compute]. Qed.
Lemma mem_adopting : adopting (view mem) (header_point h2).
Proof.
  rewrite mem_view. split; [split|done|left|].
  - repeat constructor; by eexists.
  - by vm_compute.
  - repeat constructor; by vm_compute.
Qed.
End SampleChain.
Import SampleChain.

Lemma best_candidate_found_witness : ∃ k, find_best_candidate 4 mem = Ok k ∧ (k = ORIGIN_HASH ∨ reachable (view mem) k).
Proof.
  destruct (best_candidate_found mem 4 mem_ok (so_view _ mem_sound) (so_anchor _ mem_sound)) as (k & Hk & Hc); [vm_compute; lia|]. exists k. split; [done|]. destruct Hc as [[? _]|[? _]]; auto.
Defined.
Definition hears_h1 : SelectChainMsg := TipFromUpstream (header_point h1) (header_point g).
Lemma selection_invariant_witness : ∃ st' s' sent, stage 4 hears_h1 SelectChain_new mem = Ok (st', s', sent) ∧ selecting (view s') st'.
Proof.
  destruct (selection_invariant 4 mem mem SelectChain_new hears_h1 mem_ok mem_sound) as (st' & s' & sent & Hs & _ & Hse & _).
  - constructor.
  - vm_compute. lia.
  - rewrite mem_view. exists h1. split_and!; [done|done|by exists g].
  - by exists st', s', sent.
Defined.
Definition best_is_h2 : AdoptChain := mkAdoptChain 1 (header_point h2) 6 false false false.
Lemma adoption_keeps_best_chain_witness : ∃ st' s' effects, adopt_stage (mkAdoptChainMsg (header_point h3) 7) best_is_h2 mem = Ok (st', s', effects) ∧ current_best_tip st' = header_point h3 ∧ adopting (view s') (header_point h3).
Proof.
  destruct (adoption_keeps_best_chain mem best_is_h2 (mkAdoptChainMsg (header_point h3) 7) h3 h2 mem_ok mem_sound mem_adopting) as (st' & s' & effects & Hs & _ & _ & Ha & Hbest & _).
  - cbn. lia.
  - reflexivity.
  - by rewrite mem_view.
  - rewrite mem_view. apply h3_reachable.
  - reflexivity.
  - by rewrite mem_view.
  - exists st', s', effects. cbn in Hbest. rewrite Hbest in Ha. done.
Defined.

(** A run of both stages that finds a block to fetch. *)
Definition started : World (Peer := Z) (NetworkBlock := Header) (S := InMemoryChainStoreInner) := startup mem (header_point g) [2].
Definition env (n : Z) : FetchEnv (Peer := Z) := mkFetchEnv 0 n (n + 1) (λ _ _ _ _, (false, [])).
Definition fetch_next (w : World (Peer := Z) (NetworkBlock := Header) (S := InMemoryChainStoreInner)) : World :=
  match to_fetch w with
  | msg :: rest =>
      match fetch_stage (env (w_next w)) msg (w_fetch w) (w_store w) with
      | Ok (st, s, effects) => mkWorld (w_select w) st s (to_select w ++ upstreams effects) rest (run_timers effects (w_timers w)) (w_next w + 2)
      | _ => w
      end
  | [] => w
  end.
Definition fetches (w : World (Peer := Z) (NetworkBlock := Header) (S := InMemoryChainStoreInner)) : bool :=
  match to_fetch w with msg :: _ => match fetch_stage (env (w_next w)) msg (w_fetch w) (w_store w) with Ok _ => true | _ => false end | [] => false end.
Lemma fetch_next_step w : fetches w = true → pipeline 4 w (fetch_next w).
Proof.
  unfold fetches, fetch_next. destruct (to_fetch w) as [|msg rest] eqn:Hq; [done|]. destruct (fetch_stage (env (w_next w)) msg (w_fetch w) (w_store w)) as [[[st s] effects]| | |] eqn:Hf; [|done..].
  intros _. by apply (pipeline_fetch 4 w (env (w_next w)) msg).
Qed.
Lemma started_fetches : keeps 4 started (fetch_next started).
Proof. split; [apply fetch_next_step; vm_compute; reflexivity|]. by vm_compute. Qed.
Lemma one_request_at_a_time_witness : (requests (fetch_next started) <= 1)%nat ∧ is_some (fb_missing (w_fetch (fetch_next started))) = true.
Proof.
  split; [|vm_compute; reflexivity]. apply (one_request_at_a_time 4 mem (header_point g) [2] (fetch_next started)). apply rtc_once, started_fetches.
Defined.
Lemma fetching_never_stalls_witness : is_Some (w_timers (fetch_next started) !! 0) ∧
  (may_fetch_blocks (w_select (fetch_next started)) = true ∨ (∃ p, FetchNextFrom p ∈ to_select (fetch_next started)) ∨ (∃ t p, NewTip t p ∈ to_fetch (fetch_next started)) ∨
   (∃ f t, RecoverStoredBlocks f t ∈ to_fetch (fetch_next started)) ∨ is_Some (fb_missing (w_fetch (fetch_next started)))).
Proof.
  split; [vm_compute; eauto|]. destruct (fetching_never_stalls 4 mem (header_point g) [2] (fetch_next started)) as [?|[?|[?|[?|[? _]]]]]; [done|apply rtc_once, started_fetches|auto..].
Defined.
(** A fresh node that hears of a tip. *)
Definition fresh : World (Peer := Z) (NetworkBlock := Header) (S := InMemoryChainStoreInner) := startup no_mem Origin ORIGIN_HASH.
Lemma fresh_node_never_fetches_witness : fb_missing (w_fetch (fetch_next fresh)) = None ∧ may_fetch_blocks (w_select (fetch_next fresh)) = false.
Proof.
  apply (fresh_node_never_fetches 4 no_mem (fetch_next fresh)). apply rtc_once, fetch_next_step. vm_compute. reflexivity.
Defined.
