(* ===== verification/Transaction.v ===== *)
(** * Transactions

    What the rules of the ledger read of a transaction: [amaru-kernel/src/cardano/] value.rs,
    native_script.rs, validity_interval.rs, certificate.rs, redeemers.rs, witness_set.rs,
    transaction_body.rs, transaction_ref.rs, fee.rs and the types they use.

    Ordered maps and sets of a transaction are the lists of their elements in order, as
    the rules iterate on them.  A Plutus script has its flat bytes and its hash with it
    ([PlutusScript]), and the length of its bytes.  Left out: what only the script
    contexts read (the data of redeemers and of inline datums, metadata).  The sizes of encoded
    values and the encoding of language views belong to CBOR and are parameters ([Codecs]). *)

From Stdlib Require Import QArith Qround.
From S2P Require Import Prelude SortedAssoc SortedPairs UplcSyntax ProtocolParameters Governance Summary StakeSummary Rewards Builtins PhaseTwo Fragments.
Import Rewards(ratio_of, ratio_add, ratio_mul, floor_to_lovelace).
#[local] Open Scope Z_scope.

Module Tx.

(** ** Values and balances *)
Definition Policy : Type := list Z.
Definition AssetName : Type := list Z.
Definition MultiassetOf : Type := list (Policy * list (AssetName * Z)).
Inductive Value := Coin (coin : Z) | Multiasset (coin : Z) (assets : MultiassetOf).
Definition lovelace (v : Value) : Z := match v with Coin c | Multiasset c _ => c end.
Definition Mint : Type := MultiassetOf.
Definition policies (m : Mint) : list Policy := map fst m.

Record Balance := mkBalance { coin : Z; multiasset : gmap (Policy * AssetName) Z }.
Definition Balance_empty : Balance := mkBalance 0 ∅.
Definition has_assets (b : Balance) : bool := negb (bool_decide (multiasset b = ∅)).
Definition is_zero (b : Balance) : bool := (coin b =? 0) && negb (has_assets b).
Definition add_coin (b : Balance) (amount : Z) : Balance := mkBalance (coin b + amount) (multiasset b).
Definition sub_coin (b : Balance) (amount : Z) : Balance := mkBalance (coin b - amount) (multiasset b).
Definition apply_delta (b : Balance) (key : Policy * AssetName) (delta : Z) : Balance :=
  if delta =? 0 then b
  else mkBalance (coin b)
         match multiasset b !! key with
         | None => <[key := delta]> (multiasset b)
         | Some q => if q + delta =? 0 then delete key (multiasset b) else <[key := q + delta]> (multiasset b)
         end.
Definition split_value (v : Value) : Z * option MultiassetOf :=
  match v with Coin c => (c, None) | Multiasset c ma => (c, Some ma) end.
Definition add_value (b : Balance) (v : Value) : Balance :=
  let '(c, ma) := split_value v in
  let b := add_coin b c in
  match ma with
  | None => b
  | Some ma => foldl (λ b pa, foldl (λ b nq, apply_delta b (pa.1, nq.1) nq.2) b pa.2) b ma
  end.
Definition sub_value (b : Balance) (v : Value) : Balance :=
  let '(c, ma) := split_value v in
  let b := sub_coin b c in
  match ma with
  | None => b
  | Some ma => foldl (λ b pa, foldl (λ b nq, apply_delta b (pa.1, nq.1) (- nq.2)) b pa.2) b ma
  end.
Definition add_minted (b : Balance) (m : Mint) : Balance :=
  foldl (λ b pa, foldl (λ b nq, apply_delta b (pa.1, nq.1) nq.2) b pa.2) b m.

(** ** Slots *)
Record ValidityInterval := mkValidityInterval { lower_bound : option Z; upper_bound : option Z }.
Definition includes (i : ValidityInterval) (slot : Z) : bool :=
  match lower_bound i, upper_bound i with
  | None, None => true
  | None, Some upper => slot <? upper
  | Some lower, None => lower <=? slot
  | Some lower, Some upper => (lower <=? slot) && (slot <? upper)
  end.

(** ** Native scripts *)
Inductive NativeScriptTree :=
| VerificationKey (hash : list Z)
| All (scripts : list NativeScriptTree)
| Any (scripts : list NativeScriptTree)
| AtLeast (n : Z) (scripts : list NativeScriptTree)
| InvalidBefore (slot : Z)
| InvalidAfter (slot : Z).
Fixpoint eval (keys : gset (list Z)) (i : ValidityInterval) (s : NativeScriptTree) : bool :=
  match s with
  | VerificationKey key => bool_decide (key ∈ keys)
  | All scripts => forallb (eval keys i) scripts
  | Any scripts => existsb (eval keys i) scripts
  | AtLeast n scripts =>
      let n := Z.to_nat (Z.max n 0) in
      (length (take n (List.filter (eval keys i) scripts)) =? n)%nat
  | InvalidBefore lock_start => from_option (λ t, lock_start <=? t) false (lower_bound i)
  | InvalidAfter lock_expire => from_option (λ t, t <=? lock_expire) false (upper_bound i)
  end.
Record NativeScript := mkNativeScript { original_bytes : list Z; tree : NativeScriptTree }.

(** ** Outputs *)
Inductive MemoizedDatum := NoDatum | DatumHash (hash : list Z) | InlineDatum (bytes : list Z).
Inductive MemoizedScript :=
| Script_Native (s : NativeScript)
| Script_V1 (s : PlutusScript) (len : Z)
| Script_V2 (s : PlutusScript) (len : Z)
| Script_V3 (s : PlutusScript) (len : Z).
Definition script_len (s : MemoizedScript) : Z :=
  match s with Script_Native s => Z.of_nat (length (original_bytes s)) | Script_V1 _ n | Script_V2 _ n | Script_V3 _ n => n end.

Inductive AddressAttribute := DerivationPath (bytes : list Z) | NetworkTag (bytes : list Z) | UnknownAttribute (bytes : list Z).
Definition attribute_bytes (a : AddressAttribute) : list Z :=
  match a with DerivationPath bytes | NetworkTag bytes | UnknownAttribute bytes => bytes end.
Record ByronAddress := mkByronAddress { root : list Z; attributes : list (Z * AddressAttribute) }.
Definition byron_network (a : ByronAddress) : Network :=
  if existsb (λ ka, match ka.2 with NetworkTag _ => true | _ => false end) (attributes a) then Testnet else Mainnet.
Inductive StakeReference := StakeCredential (c : Credential) | StakePointer (slot tx_index cert_index : Z).
Record ShelleyAddress := mkShelleyAddress { shelley_network : Network; payment : Credential; delegation : option StakeReference }.
Inductive Address := Byron (a : ByronAddress) | Shelley (a : ShelleyAddress).
Definition address_network (a : Address) : Network :=
  match a with Byron a => byron_network a | Shelley a => shelley_network a end.

Record TransactionOutput := mkTransactionOutput {
  original_size : Z;
  address : Address;
  value : Value;
  datum : MemoizedDatum;
  script : option MemoizedScript }.

(** ** Certificates *)
Inductive Certificate :=
| StakeRegistration (c : Credential)
| StakeDeregistration (c : Credential)
| StakeDelegation (c : Credential) (pool : PoolId)
| PoolRegistration (params : PoolParams)
| PoolRetirement (pool : PoolId) (epoch : Z)
| Reg (c : Credential) (deposit : Z)
| UnReg (c : Credential) (refund : Z)
| VoteDeleg (c : Credential) (drep : DRep)
| StakeVoteDeleg (c : Credential) (pool : PoolId) (drep : DRep)
| StakeRegDeleg (c : Credential) (pool : PoolId) (deposit : Z)
| VoteRegDeleg (c : Credential) (drep : DRep) (deposit : Z)
| StakeVoteRegDeleg (c : Credential) (pool : PoolId) (drep : DRep) (deposit : Z)
| AuthCommitteeHot (cold hot : Credential)
| ResignCommitteeCold (cold : Credential) (anchor : option Anchor)
| RegDRepCert (drep : Credential) (deposit : Z) (anchor : option Anchor)
| UnRegDRepCert (drep : Credential) (refund : Z)
| UpdateDRepCert (drep : Credential) (anchor : option Anchor).

(** ** The body *)
Record TransactionBody := mkTransactionBody {
  hash : list Z;
  body_len : Z;
  inputs : list TransactionInput;
  outputs : list TransactionOutput;
  fee : Z;
  validity_interval_end : option Z;
  certificates : option (list Certificate);
  withdrawals : option (list (RewardAccount * Z));
  auxiliary_data_hash : option (list Z);
  validity_interval_start : option Z;
  mint : option Mint;
  script_data_hash : option (list Z);
  collateral : option (list TransactionInput);
  required_signers : option (list (list Z));
  network : option Network;
  collateral_return : option TransactionOutput;
  total_collateral : option Z;
  reference_inputs : option (list TransactionInput);
  votes : option (list (Voter * list (ProposalId * Ballot)));
  proposals : option (list Stake.Proposal);
  treasury_value : option Z;
  donation : option Z }.
Definition validity_interval (b : TransactionBody) : ValidityInterval :=
  mkValidityInterval (validity_interval_start b) (validity_interval_end b).

(** ** Witnesses *)
Inductive RedeemersInner := Array (l : list (RedeemerKey * ExUnits)) | RedeemerMap (l : list (RedeemerKey * ExUnits)).
Record Redeemers := mkRedeemers { redeemers_bytes : list Z; inner : RedeemersInner }.
Definition tag_index (t : RedeemerTag) : Z :=
  match t with Spend => 0 | PhaseTwo.Mint => 1 | Cert => 2 | Reward => 3 | Vote => 4 | Propose => 5 end.
Definition RedeemerKey_cmp (a b : RedeemerKey) : comparison :=
  then_cmp (Z.compare (tag_index (redeemer_tag a)) (tag_index (redeemer_tag b))) (Z.compare (redeemer_index a) (redeemer_index b)).
(** The list becomes an ordered map, in which the last one of a key wins. *)
Fixpoint insert_redeemer (k : RedeemerKey) (u : ExUnits) (l : list (RedeemerKey * ExUnits)) : list (RedeemerKey * ExUnits) :=
  match l with
  | [] => [(k, u)]
  | (k', u') :: l' =>
      match RedeemerKey_cmp k k' with Eq => (k', u) :: l' | Lt => (k, u) :: l | Gt => (k', u') :: insert_redeemer k u l' end
  end.
Definition iter_unique (r : Redeemers) : list (RedeemerKey * ExUnits) :=
  match inner r with Array l => foldl (λ acc ku, insert_redeemer ku.1 ku.2 acc) [] l | RedeemerMap l => l end.
Definition add_units (a b : ExUnits) : ExUnits :=
  mkExUnits (u64_saturating_add (units_mem a) (units_mem b)) (u64_saturating_add (units_steps a) (units_steps b)).

Record VerificationKeyWitness := mkVerificationKeyWitness { verification_key : list Z; signature : list Z }.
Record BootstrapWitness := mkBootstrapWitness {
  public_key : list Z; bootstrap_signature : list Z; chain_code : list Z; bootstrap_attributes : list Z }.
(** The data are their own bytes. *)
Record PlutusDataSet := mkPlutusDataSet { datums_bytes : list Z; datums : list (list Z) }.
Record WitnessSet := mkWitnessSet {
  verification_key_witness : option (list VerificationKeyWitness);
  native_script : option (list NativeScript);
  bootstrap_witness : option (list BootstrapWitness);
  plutus_v1_script : option (list PlutusScript);
  plutus_data : option PlutusDataSet;
  redeemer : option Redeemers;
  plutus_v2_script : option (list PlutusScript);
  plutus_v3_script : option (list PlutusScript) }.
Definition ex_units (w : WitnessSet) : list ExUnits := from_option (λ r, map snd (iter_unique r)) [] (redeemer w).
Definition total_ex_units (units : list ExUnits) : ExUnits := foldl add_units (mkExUnits 0 0) units.

Record AuxiliaryData := mkAuxiliaryData {
  aux_hash : list Z; aux_len : Z;
  plutus_v1_scripts : list PlutusScript; plutus_v2_scripts : list PlutusScript; plutus_v3_scripts : list PlutusScript }.
Record TransactionRef := mkTransactionRef {
  body : TransactionBody;
  witnesses : WitnessSet;
  witnesses_len : Z;
  is_expected_valid : bool;
  auxiliary_data : option AuxiliaryData }.
Definition tx_id (t : TransactionRef) : list Z := hash (body t).
Definition tx_len (t : TransactionRef) : Z := 1 + body_len (body t) + witnesses_len t + from_option aux_len 1 (auxiliary_data t).

(** ** Fees *)
Definition size_fee {E : Type} (size per_byte_coefficient fixed_fee : Z) : exec E Z :=
  n ← u64_mul per_byte_coefficient size; u64_add n fixed_fee.
Definition plutus_execution_fee {E : Type} (units : ExUnits) (p : ExUnitPrices) : exec E Z :=
  mem_price ← into_safe_ratio (mem_price p);
  step_price ← into_safe_ratio (step_price p);
  floor_to_lovelace (ratio_of (Qceiling (ratio_add (ratio_mul (ratio_of (units_mem units)) mem_price) (ratio_mul (ratio_of (units_steps units)) step_price)))).
(** Full tiers cost more and more; a size below [fuel] needs less turns than that. *)
Fixpoint tiers {E : Type} (fuel : nat) (stride : Z) (multiplier rate fee : SafeRatio) (size : Z) : exec E SafeRatio :=
  if stride <=? size then
    match fuel with
    | O => OutOfFuel
    | S fuel => tiers fuel stride multiplier (ratio_mul rate multiplier) (ratio_add fee (ratio_mul rate (ratio_of stride))) (size - stride)
    end
  else Ok (ratio_add fee (ratio_mul rate (ratio_of size))).
Definition reference_scripts_fee {E : Type} (size stride : Z) (base_rate multiplier : RationalNumber) : exec E Z :=
  multiplier ← into_safe_ratio multiplier;
  if (0 <? stride) && negb (ratio_leb multiplier SafeRatio_zero) then
    rate ← into_safe_ratio base_rate;
    fee ← tiers (Z.to_nat size) stride multiplier rate SafeRatio_zero size;
    floor_to_lovelace fee
  else Panic.
Definition minimum_fee {E : Type} (tx_size : Z) (w : WitnessSet) (ref_scripts_size : Z) (pp : ProtocolParameters) : exec E Z :=
  size ← size_fee tx_size (min_fee_a pp) (min_fee_b pp);
  plutus ← plutus_execution_fee (total_ex_units (ex_units w)) (prices pp);
  ref_scripts ← reference_scripts_fee ref_scripts_size (ref_script_cost_stride pp) (min_fee_ref_script_lovelace_per_byte pp) (ref_script_cost_multiplier pp);
  n ← u64_add size plutus;
  u64_add n ref_scripts.

(** ** Hashes *)
Section Hashes.
Context `{Crypto}.
Definition tagged_script_hash (tag : Z) (bytes : list Z) : list Z := hash_blake2b_224 (tag :: bytes).
Definition native_script_hash (s : NativeScript) : list Z := tagged_script_hash 0 (original_bytes s).
Definition memoized_script_hash (s : MemoizedScript) : list Z :=
  match s with Script_Native s => native_script_hash s | Script_V1 s _ | Script_V2 s _ | Script_V3 s _ => script_hash s end.
(** [ByronAddress::root] *)
Definition bootstrap_root (w : BootstrapWitness) : list Z :=
  let xpub := [0x82; 0x00; 0x58; 0x40] ++ public_key w ++ chain_code w in
  hash_blake2b_224 (hash_sha3_256 ([0x83] ++ [0x00] ++ xpub ++ bootstrap_attributes w)).
End Hashes.

(** ** What is left to CBOR *)
Record LanguageView := mkLanguageView { language : PlutusVersion; cost_model : option (list Z) }.
Class Codecs := { value_size : Value → Z; language_views_bytes : list LanguageView → list Z }.
End Tx.

#[global] Instance transaction_outputs : Outputs := Tx.TransactionOutput.
