(* ===== verification/RulesContext.v ===== *)
(** * What the rules of a transaction accumulate

    The rest of [DefaultValidationContext] ([amaru-ledger/src/context/default/validation.rs]): next to
    the state of the block, the witnesses, scripts and data that the transaction has to come with, and
    the balance of what it consumes and produces.  The accumulators are taken out, and left empty,
    when they are read. *)

From S2P Require Import Prelude SortedAssoc UplcSyntax ProtocolParameters Governance EraHistory Summary ProposalsForest PoolsUpdates StakeSummary Builtins PhaseTwo Headers Fragments BlockContext Transaction.
#[local] Open Scope Z_scope.

Definition as_u16 (n : nat) : Z := Z.of_nat n mod 2 ^ 16.
Definition as_u32 (n : nat) : Z := Z.of_nat n mod 2 ^ 32.
(** [into_iter().enumerate()] *)
Definition enumerate_from {A : Type} (n : nat) (l : list A) : list (nat * A) := zip (seq n (length l)) l.
Definition enumerate {A : Type} (l : list A) : list (nat * A) := enumerate_from 0 l.
Lemma enumerate_cons {A : Type} n a (l : list A) : enumerate_from n (a :: l) = (n, a) :: enumerate_from (S n) l.
Proof. done. Qed.
Lemma enumerate_elem {A : Type} (l : list A) : ∀ n i a, (i, a) ∈ enumerate_from n l → a ∈ l ∧ (n <= i < n + length l)%nat.
Proof.
  induction l as [|b l IH]; intros n i a Hi; [by apply elem_of_nil in Hi|]. rewrite enumerate_cons in Hi. cbn [length].
  apply elem_of_cons in Hi as [[= -> ->]|Hi]; [split; [set_solver|lia]|]. destruct (IH _ _ _ Hi). split; [set_solver|lia].
Qed.
Lemma enumerate_all {A : Type} (a : A) (l : list A) : ∀ n, a ∈ l → ∃ m, (m, a) ∈ enumerate_from n l.
Proof.
  induction l as [|b l IH]; intros n Ha; [by apply elem_of_nil in Ha|]. rewrite enumerate_cons. apply elem_of_cons in Ha as [->|Ha]; [exists n; by left|].
  destruct (IH (S n) Ha) as [m Hm]. exists m. by right.
Qed.
Lemma enumerate_fst {A B : Type} (l : list (A * B)) n a : (n, a) ∈ enumerate (map fst l) → ∃ b, (n, (a, b)) ∈ enumerate l.
Proof.
  unfold enumerate. generalize 0%nat as m. induction l as [|[a' b] l IH]; intros m Hn; [by apply elem_of_nil in Hn|]. cbn [map fst] in Hn.
  rewrite enumerate_cons in *. apply elem_of_cons in Hn as [[= -> ->]|Hn]; [exists b; by left|]. destruct (IH _ Hn) as [b' Hb]. exists b'. by right.
Qed.

Module Rules.
Import Tx.

(** ** Required scripts, by their hash, purpose and index *)
Record RequiredScript := mkRequiredScript { req_hash : list Z; req_index : Z; req_purpose : RedeemerTag; req_datum : MemoizedDatum }.
Definition RequiredScript_cmp (a b : RequiredScript) : comparison :=
  then_cmp (bytes_compare (req_hash a) (req_hash b))
    (then_cmp (Z.compare (tag_index (req_purpose a)) (tag_index (req_purpose b))) (Z.compare (req_index a) (req_index b))).
Definition redeemer_key (r : RequiredScript) : RedeemerKey := mkRedeemerKey (req_purpose r) (req_index r).
(** [BTreeSet::insert] keeps an element that is already there. *)
Fixpoint insert_required (r : RequiredScript) (l : list RequiredScript) : list RequiredScript :=
  match l with
  | [] => [r]
  | r' :: l' => match RequiredScript_cmp r r' with Eq => l | Lt => r :: l | Gt => r' :: insert_required r l' end
  end.

Record RulesContext := mkRules {
  core : ValidationContext;
  acknowledged : gmap (list Z) TransactionInput;
  signers : gset (list Z);
  scripts : list RequiredScript;
  supplemental_datums : gset (list Z);
  bootstrap_roots : gset (list Z);
  balance : Balance }.
(** A block starts with empty accumulators. *)
Definition rules_of (x : ValidationContext) : RulesContext := mkRules x ∅ ∅ [] ∅ ∅ Balance_empty.

Definition with_core (c : ValidationContext) (x : RulesContext) : RulesContext :=
  mkRules c (acknowledged x) (signers x) (scripts x) (supplemental_datums x) (bootstrap_roots x) (balance x).
Definition with_balance (b : Balance) (x : RulesContext) : RulesContext :=
  mkRules (core x) (acknowledged x) (signers x) (scripts x) (supplemental_datums x) (bootstrap_roots x) b.
(** An operation on the state of the block. *)
Definition lift {E : Type} (op : ValidationContext → exec E ValidationContext) (x : RulesContext) : exec E RulesContext :=
  c ← op (core x); Ok (with_core c x).

(** ** Witnesses *)
Definition require_verification_key_witness (h : list Z) (x : RulesContext) : RulesContext :=
  mkRules (core x) (acknowledged x) ({[h]} ∪ signers x) (scripts x) (supplemental_datums x) (bootstrap_roots x) (balance x).
Definition require_script_witness (r : RequiredScript) (x : RulesContext) : RulesContext :=
  mkRules (core x) (acknowledged x) (signers x) (insert_required r (scripts x)) (supplemental_datums x) (bootstrap_roots x) (balance x).
Definition acknowledge_script (h : list Z) (location : TransactionInput) (x : RulesContext) : RulesContext :=
  mkRules (core x) (<[h := location]> (acknowledged x)) (signers x) (scripts x) (supplemental_datums x) (bootstrap_roots x) (balance x).
Definition require_bootstrap_witness (root : list Z) (x : RulesContext) : RulesContext :=
  mkRules (core x) (acknowledged x) (signers x) (scripts x) (supplemental_datums x) ({[root]} ∪ bootstrap_roots x) (balance x).
Definition allow_supplemental_datum (h : list Z) (x : RulesContext) : RulesContext :=
  mkRules (core x) (acknowledged x) (signers x) (scripts x) ({[h]} ∪ supplemental_datums x) (bootstrap_roots x) (balance x).
Definition required_signers (x : RulesContext) : gset (list Z) * RulesContext :=
  (signers x, mkRules (core x) (acknowledged x) ∅ (scripts x) (supplemental_datums x) (bootstrap_roots x) (balance x)).
Definition required_scripts (x : RulesContext) : list RequiredScript * RulesContext :=
  (scripts x, mkRules (core x) (acknowledged x) (signers x) [] (supplemental_datums x) (bootstrap_roots x) (balance x)).
Definition required_bootstrap_roots (x : RulesContext) : gset (list Z) * RulesContext :=
  (bootstrap_roots x, mkRules (core x) (acknowledged x) (signers x) (scripts x) (supplemental_datums x) ∅ (balance x)).
Definition allowed_supplemental_datums (x : RulesContext) : gset (list Z) * RulesContext :=
  (supplemental_datums x, mkRules (core x) (acknowledged x) (signers x) (scripts x) ∅ (bootstrap_roots x) (balance x)).
(** [blanket_known_scripts]: a location without script is unreachable. *)
Definition resolve_script {E : Type} (x : RulesContext) (acc : gmap (list Z) MemoizedScript) (hl : list Z * TransactionInput)
  : exec E (gmap (list Z) MemoizedScript) :=
  match utxo_lookup hl.2 (core x) ≫= script with Some s => Ok (<[hl.1 := s]> acc) | None => Panic end.
Definition known_scripts {E : Type} (x : RulesContext) : exec E (gmap (list Z) MemoizedScript * RulesContext) :=
  let x' := mkRules (core x) ∅ (signers x) (scripts x) (supplemental_datums x) (bootstrap_roots x) (balance x) in
  known ← for_in (map_to_list (acknowledged x)) (resolve_script x') ∅;
  Ok (known, x').

(** ** Balances *)
Definition consume_value (v : Value) (x : RulesContext) : RulesContext := with_balance (add_value (balance x) v) x.
Definition produce_value (v : Value) (x : RulesContext) : RulesContext := with_balance (sub_value (balance x) v) x.
Definition consume_lovelace (amount : Z) : RulesContext → RulesContext := consume_value (Coin amount).
Definition produce_lovelace (amount : Z) : RulesContext → RulesContext := produce_value (Coin amount).
Definition add_mint (m : Mint) (x : RulesContext) : RulesContext := with_balance (add_minted (balance x) m) x.
Definition take_balance (x : RulesContext) : Balance * RulesContext := (balance x, with_balance Balance_empty x).

(** ** What a transaction is validated against *)
Record TransactionPointer := mkTransactionPointer { slot : Z; transaction_index : Z }.
Record Environment := mkEnvironment {
  env_network : Network;
  env_parameters : ProtocolParameters;
  env_era_history : EraHistory;
  consecutive_dormant_epochs : Z;
  env_guardrail_script : option (list Z);
  env_pointer : TransactionPointer }.
End Rules.
