(* ===== verification/PhaseOne.v ===== *)
(** * Phase one: inputs, fees, outputs

    [amaru-ledger/src/rules/transaction/phase_one/]: validity_interval.rs, metadata.rs, inputs.rs, fees.rs,
    treasury.rs, mint.rs, outputs.rs with outputs/inherent_value.rs, and withdrawals.rs, a module for each file.
    A rule takes the context and gives it back; a transaction that breaks a rule gives an error, and
    its context is not used any more. *)

From S2P Require Import Prelude SortedAssoc SortedPairs UplcSyntax ProtocolParameters Governance EraHistory Summary ProposalsForest PoolsUpdates StakeSummary Builtins PhaseTwo Fragments BlockContext Transaction RulesContext.
From S2P Require FlatDecoder Flat.
Import FlatDecoder(FlatDecodeError) Flat(DataCodec, DataCodecLaws).
Import Stake(arow_rewards, arow_drep).
Import Tx Rules.
#[local] Open Scope Z_scope.

#[global] Instance Network_eq_dec : EqDecision Network.
Proof. solve_decision. Defined.

(** ** Validity interval *)
Module Validity.
Inductive InvalidValidityInterval := OutsideValidityInterval (slot : Z) (i : ValidityInterval) | OutsideForecast (upper : Z).
Definition execute (i : ValidityInterval) (enforce_forecast_horizon : bool) (h : EraHistory) (current_slot : Z)
  : exec InvalidValidityInterval unit :=
  if negb (includes i current_slot) then Err (OutsideValidityInterval current_slot i)
  else
    match upper_bound i with
    | Some upper =>
        if enforce_forecast_horizon then _ ← map_err (λ _, OutsideForecast upper) (slot_to_relative_time h upper current_slot); Ok tt else Ok tt
    | None => Ok tt
    end.
End Validity.

(** ** Metadata *)
Module Metadata.
Inductive InvalidTransactionMetadata :=
| MissingTransactionMetadata (hash : list Z)
| MissingTransactionAuxiliaryDataHash (hash : list Z)
| ConflictingMetadataHash (supplied expected : list Z)
| InvalidScriptBytes (e : FlatDecodeError).
Section Metadata.
Context `{DataCodec}.
Definition decode_all (v : Z) (pv : ProtocolVersion) (scripts : list PlutusScript) : exec FlatDecodeError unit :=
  for_in scripts (λ _ s, _ ← Flat.decode_plutus_script (to_bytes s) v pv; Ok tt) tt.
Definition validate_auxiliary_data_scripts (data : AuxiliaryData) (pv : ProtocolVersion) : exec FlatDecodeError unit :=
  _ ← decode_all 1 pv (plutus_v1_scripts data);
  _ ← decode_all 2 pv (plutus_v2_scripts data);
  decode_all 3 pv (plutus_v3_scripts data).
Definition execute (b : TransactionBody) (auxiliary_data : option AuxiliaryData) (pv : ProtocolVersion)
  : exec InvalidTransactionMetadata unit :=
  match auxiliary_data_hash b, auxiliary_data with
  | None, None => Ok tt
  | None, Some data => Err (MissingTransactionAuxiliaryDataHash (aux_hash data))
  | Some adh, None => Err (MissingTransactionMetadata adh)
  | Some supplied, Some data =>
      if negb (bool_decide (aux_hash data = supplied)) then Err (ConflictingMetadataHash supplied (aux_hash data))
      else map_err InvalidScriptBytes (validate_auxiliary_data_scripts data pv)
  end.
End Metadata.
End Metadata.

(** ** Inputs *)
Module Inputs.
Inductive InvalidInputs :=
| UnknownInput (i : TransactionInput)
| NonDisjointRefInputs (intersection : list TransactionInput)
| EmptyInputSet
| RefScriptSizeTooBig (provided allowed : Z)
| TooManyCollateralInputs (provided allowed : Z).
Record ResolvedCollateral := mkResolvedCollateral {
  provided : nat; collateral_value : Balance; locked_at_script : option TransactionInput }.
Record ResolvedInputs := mkResolvedInputs {
  ref_scripts_size : Z; resolved_collateral : ResolvedCollateral; spent : list TransactionInput; collateral_inputs : list TransactionInput }.
Section Inputs.
Context `{Crypto}.

Definition reference_one (check_disjoint : bool) (inputs : list TransactionInput)
    (st : list TransactionInput * Z * RulesContext) (i : TransactionInput) : exec InvalidInputs (list TransactionInput * Z * RulesContext) :=
  let '(intersection, size, x) := st in
  if check_disjoint && bool_decide (i ∈ inputs) then Ok (intersection ++ [i], size, x)
  else
    output ← ok_or (UnknownInput i) (utxo_lookup i (core x));
    let x := match datum output with DatumHash h => allow_supplemental_datum h x | NoDatum | InlineDatum _ => x end in
    match script output with
    | Some s => size ← u64_add size (script_len s); Ok (intersection, size, acknowledge_script (memoized_script_hash s) i x)
    | None => Ok (intersection, size, x)
    end.
Definition spend_one (reference_inputs : option (list TransactionInput)) (st : Z * RulesContext) (ni : nat * TransactionInput)
  : exec InvalidInputs (Z * RulesContext) :=
  let '(size, x) := st in
  let '(input_index, i) := ni in
  output ← ok_or (UnknownInput i) (utxo_lookup i (core x));
  let x := match address output with
           | Byron a => require_bootstrap_witness (root a) x
           | Shelley a =>
               match payment a with
               | ScriptHash h => require_script_witness (mkRequiredScript h (as_u32 input_index) Spend (datum output)) x
               | KeyHash h => require_verification_key_witness h x
               end
           end in
  '(size, x) ← match script output with
               | Some s =>
                   let already_counted := from_option (λ l, bool_decide (i ∈ l)) false reference_inputs in
                   size ← (if already_counted then Ok size else u64_add size (script_len s));
                   Ok (size, acknowledge_script (memoized_script_hash s) i x)
               | None => Ok (size, x)
               end;
  Ok (size, consume_value (value output) x).
Definition collateral_one (st : Balance * option TransactionInput * RulesContext) (i : TransactionInput)
  : exec InvalidInputs (Balance * option TransactionInput * RulesContext) :=
  let '(total, locked, x) := st in
  output ← ok_or (UnknownInput i) (utxo_lookup i (core x));
  let total := add_value total (value output) in
  match address output with
  | Byron a => Ok (total, locked, require_bootstrap_witness (root a) x)
  | Shelley a =>
      match payment a with
      | ScriptHash _ => Ok (total, match locked with Some l => Some l | None => Some i end, x)
      | KeyHash h => Ok (total, locked, require_verification_key_witness h x)
      end
  end.
Definition resolve_collateral (collateral : list TransactionInput) (pp : ProtocolParameters) (x : RulesContext)
  : exec InvalidInputs (ResolvedCollateral * RulesContext) :=
  let allowed := max_collateral_inputs pp in
  let provided := length collateral in
  if allowed <? Z.of_nat provided then Err (TooManyCollateralInputs (Z.of_nat provided) allowed)
  else
    '(total, locked, x) ← for_in collateral collateral_one (Balance_empty, None, x);
    Ok (mkResolvedCollateral provided total locked, x).
Definition execute (inputs : list TransactionInput) (reference_inputs : option (list TransactionInput)) (collateral : list TransactionInput)
    (pp : ProtocolParameters) (x : RulesContext) : exec InvalidInputs (ResolvedInputs * RulesContext) :=
  if bool_decide (inputs = []) then Err EmptyInputSet
  else
    let check_disjoint := pv_ltb (protocol_version pp) PROTOCOL_VERSION_11 in
    '(intersection, size, x) ← for_in (default [] reference_inputs) (reference_one check_disjoint inputs) ([], 0, x);
    if negb (bool_decide (intersection = [])) then Err (NonDisjointRefInputs intersection)
    else
      let allowed := max_ref_script_size_per_tx pp in
      '(size, x) ← for_in (enumerate inputs) (spend_one reference_inputs) (size, x);
      if allowed <? size then Err (RefScriptSizeTooBig size allowed)
      else
        '(resolved, x) ← resolve_collateral collateral pp x;
        Ok (mkResolvedInputs size resolved inputs collateral, x).
End Inputs.
End Inputs.

(** ** Fees *)
Module Fees.
Inductive InvalidCollateral :=
| LockedAtScriptAddress (i : TransactionInput)
| InsufficientBalance (effective required : Z)
| DeclaredCollateralMismatch (effective declared : Z)
| NoCollateral
| ValueNotConserved (b : Balance).
Inductive InvalidFees := FeeTooSmall (provided minimum : Z) | Collateral (e : InvalidCollateral).
Record DeclaredFees := mkDeclaredFees {
  declared_fee : Z;
  fees_collateral : Inputs.ResolvedCollateral;
  fees_collateral_return : option TransactionOutput;
  declared_collateral : option Z;
  fees_tx_size : Z;
  fees_witness_set : WitnessSet;
  fees_ref_scripts_size : Z;
  fees_parameters : ProtocolParameters }.
Definition validate_collateral (collateral : Inputs.ResolvedCollateral) (collateral_return : option TransactionOutput)
    (declared_collateral : option Z) (fee : Z) (pp : ProtocolParameters) : exec InvalidCollateral Z :=
  match Inputs.locked_at_script collateral with
  | Some i => Err (LockedAtScriptAddress i)
  | None =>
      let effective_collateral := from_option (λ o, sub_value (Inputs.collateral_value collateral) (value o)) (Inputs.collateral_value collateral) collateral_return in
      if (Inputs.provided collateral =? 0)%nat then Err NoCollateral
      else if (coin effective_collateral <? 0) || has_assets effective_collateral then Err (ValueNotConserved effective_collateral)
      else
        let required := fee * collateral_percentage pp in
        effective ← (if coin effective_collateral <=? u64_max then Ok (coin effective_collateral) else Panic);
        if effective * 100 <? required then Err (InsufficientBalance effective ((required + 99) / 100))
        else
          match declared_collateral with
          | Some declared => if negb (declared =? effective) then Err (DeclaredCollateralMismatch effective declared) else Ok effective
          | None => Ok effective
          end
  end.
Definition validate (d : DeclaredFees) (x : RulesContext) : exec InvalidFees (Z * RulesContext) :=
  minimum ← minimum_fee (fees_tx_size d) (fees_witness_set d) (fees_ref_scripts_size d) (fees_parameters d);
  if declared_fee d <? minimum then Err (FeeTooSmall (declared_fee d) minimum)
  else
    effective_collateral ← (if is_some (redeemer (fees_witness_set d))
                            then map_err Collateral (validate_collateral (fees_collateral d) (fees_collateral_return d) (declared_collateral d) (declared_fee d) (fees_parameters d))
                            else Ok 0);
    Ok (effective_collateral, produce_lovelace (declared_fee d) x).
Definition when_valid (d : DeclaredFees) (x : RulesContext) : exec InvalidFees RulesContext :=
  '(_, x) ← validate d x; lift (add_fees (declared_fee d)) x.
Definition when_invalid (d : DeclaredFees) (x : RulesContext) : exec InvalidFees RulesContext :=
  '(effective_collateral, x) ← validate d x; lift (add_fees effective_collateral) x.
End Fees.

(** ** Treasury *)
Module Treasury.
Inductive InvalidTreasury := ValueMismatch (provided expected : Z).
Definition when_valid (treasury_value donation : option Z) (x : RulesContext) : exec InvalidTreasury RulesContext :=
  if from_option (λ provided, negb (provided =? ctx_treasury (core x))) false treasury_value
  then Err (ValueMismatch (default 0 treasury_value) (ctx_treasury (core x)))
  else match donation with Some d => lift (add_donation d) (produce_lovelace d x) | None => Ok x end.
Definition when_invalid (donation : option Z) (x : RulesContext) : RulesContext :=
  match donation with Some d => produce_lovelace d x | None => x end.
End Treasury.

(** ** Mint *)
Module Minting.
Definition require_policy (x : RulesContext) (ih : nat * Policy) : RulesContext :=
  require_script_witness (mkRequiredScript ih.2 (as_u32 ih.1) PhaseTwo.Mint NoDatum) x.
Definition execute (mint : option Mint) (x : RulesContext) : RulesContext :=
  match mint with Some m => add_mint m (foldl require_policy x (enumerate (policies m))) | None => x end.
End Minting.

(** ** Outputs *)
Module TxOutputs.
Inductive InvalidOutput :=
| TooSmall (minimum_value given_value : Z)
| ValueTooLarge (maximum_size given_size : Z)
| WrongNetwork (expected actual : Network)
| MalformedReferenceScript (hash : list Z)
| BootAddrAttrsTooBig (size : Z).
(** The invalid outputs, by their position. *)
Definition InvalidOutputs : Type := list (nat * InvalidOutput).
Definition UTXO_ENTRY_OVERHEAD : Z := 160.
(** [unwrap_or_else(&mut push)] *)
Definition or_push {E : Type} (position : nat) (m : exec InvalidOutput unit) (invalid : InvalidOutputs) : exec E InvalidOutputs :=
  match m with Ok _ => Ok invalid | Err e => Ok (invalid ++ [(position, e)]) | Panic => Panic | OutOfFuel => OutOfFuel end.
Section TxOutputs.
Context `{Crypto} `{DataCodec} `{Codecs}.

Definition inherent_value (pp : ProtocolParameters) (o : TransactionOutput) : exec InvalidOutput unit :=
  size ← u64_add UTXO_ENTRY_OVERHEAD (original_size o);
  minimum_value ← u64_mul size (lovelace_per_utxo_byte pp);
  let given_value := lovelace (value o) in
  if given_value <? minimum_value then Err (TooSmall minimum_value given_value)
  else if max_value_size pp <? value_size (value o) then Err (ValueTooLarge (max_value_size pp) (value_size (value o)))
  else Ok tt.
Definition validate_bootstrap_attributes (o : TransactionOutput) : exec InvalidOutput unit :=
  match address o with
  | Byron a =>
      let size := foldl Z.add 0 (map (λ ka, Z.of_nat (length (attribute_bytes ka.2))) (attributes a)) in
      if 64 <? size then Err (BootAddrAttrsTooBig size) else Ok tt
  | Shelley _ => Ok tt
  end.
Definition validate_network (o : TransactionOutput) (expected : Network) : exec InvalidOutput unit :=
  let actual := address_network (address o) in if decide (actual = expected) then Ok tt else Err (WrongNetwork expected actual).
Definition validate_reference_script (s : MemoizedScript) (pv : ProtocolVersion) : exec InvalidOutput unit :=
  let malformed (m : exec FlatDecodeError (Program * PlutusVersion)) :=
    _ ← map_err (λ _, MalformedReferenceScript (memoized_script_hash s)) m; Ok tt in
  match s with
  | Script_V1 p _ => malformed (Flat.decode_plutus_script (to_bytes p) 1 pv)
  | Script_V2 p _ => malformed (Flat.decode_plutus_script (to_bytes p) 2 pv)
  | Script_V3 p _ => malformed (Flat.decode_plutus_script (to_bytes p) 3 pv)
  | Script_Native _ => Ok tt
  end.
Definition validate {E : Type} (o : TransactionOutput) (position : nat) (pp : ProtocolParameters) (network : Network) (invalid : InvalidOutputs)
  : exec E InvalidOutputs :=
  invalid ← or_push position (inherent_value pp o) invalid;
  invalid ← or_push position (validate_network o network) invalid;
  invalid ← or_push position (validate_bootstrap_attributes o) invalid;
  match script o with
  | Some s => or_push position (validate_reference_script s (protocol_version pp)) invalid
  | None => Ok invalid
  end.
Definition allow_output_datum (o : TransactionOutput) (x : RulesContext) : RulesContext :=
  match datum o with DatumHash h => allow_supplemental_datum h x | _ => x end.
Definition count_output (o : TransactionOutput) (x : RulesContext) : RulesContext := produce_value (value o) (allow_output_datum o x).
Definition output_input (transaction_id : list Z) (position : nat) : TransactionInput := mkTransactionInput transaction_id (as_u16 position).
Definition produce_one (transaction_id : list Z) (po : nat * TransactionOutput) (x : RulesContext) : RulesContext :=
  with_core (ctx_produce (output_input transaction_id po.1) po.2 (core x)) x.

Definition output_valid (pp : ProtocolParameters) (network : Network) (transaction_id : list Z) (st : InvalidOutputs * RulesContext) (po : nat * TransactionOutput)
  : exec InvalidOutputs (InvalidOutputs * RulesContext) :=
  invalid ← validate po.2 po.1 pp network st.1; Ok (invalid, produce_one transaction_id po (count_output po.2 st.2)).
Definition output_invalid (pp : ProtocolParameters) (network : Network) (st : InvalidOutputs * RulesContext) (po : nat * TransactionOutput)
  : exec InvalidOutputs (InvalidOutputs * RulesContext) :=
  invalid ← validate po.2 po.1 pp network st.1; Ok (invalid, count_output po.2 st.2).
Definition from_vec (st : InvalidOutputs * RulesContext) : exec InvalidOutputs RulesContext :=
  if bool_decide (length st.1 = 0%nat) then Ok st.2 else Err st.1.
Definition when_valid (pp : ProtocolParameters) (network : Network) (transaction_id : list Z) (outputs : list TransactionOutput)
    (collateral_return : option TransactionOutput) (x : RulesContext) : exec InvalidOutputs RulesContext :=
  '(invalid, x) ← for_in (enumerate outputs) (output_valid pp network transaction_id) ([], x);
  '(invalid, x) ← match collateral_return with
                  | Some o => invalid ← validate o (length outputs) pp network invalid; Ok (invalid, allow_output_datum o x)
                  | None => Ok (invalid, x)
                  end;
  from_vec (invalid, x).
Definition when_invalid (pp : ProtocolParameters) (network : Network) (transaction_id : list Z) (outputs : list TransactionOutput)
    (collateral_return : option TransactionOutput) (x : RulesContext) : exec InvalidOutputs RulesContext :=
  '(invalid, x) ← for_in (enumerate outputs) (output_invalid pp network) ([], x);
  '(invalid, x) ← match collateral_return with
                  | Some o =>
                      invalid ← validate o (length outputs) pp network invalid;
                      Ok (invalid, produce_one transaction_id (length outputs, o) (allow_output_datum o x))
                  | None => Ok (invalid, x)
                  end;
  from_vec (invalid, x).
End TxOutputs.
End TxOutputs.

(** ** Withdrawals *)
Module Withdrawals.
Inductive InvalidWithdrawals :=
| AccountNotRegistered (c : Credential)
| IncompleteWithdrawal (balance withdrawal : Z)
| MissingAccountDRepDelegation (c : Credential)
| NetworkMismatch (expected received : Network) (position : nat).
(** The network is checked in the order of the transaction, the withdrawals are sorted by credential. *)
Definition sorted_by_credential (withdrawals : option (list (RewardAccount * Z))) (network : Network)
  : exec InvalidWithdrawals (list (Credential * Z)) :=
  for_in (enumerate (default [] withdrawals)) (λ acc paw,
    let '(position, (account, amount)) := (paw : nat * (RewardAccount * Z)) in
    if negb (bool_decide (network = account_network account)) then Err (NetworkMismatch network (account_network account) position)
    else Ok (SortedPairs.insert (account_credential account) amount acc)) [].
Definition require_witness_and_consume (position : nat) (c : Credential) (amount : Z) (x : RulesContext) : RulesContext :=
  consume_lovelace amount
    match c with
    | ScriptHash h => require_script_witness (mkRequiredScript h (as_u32 position) Reward NoDatum) x
    | KeyHash h => require_verification_key_witness h x
    end.
Definition withdraw_one (x : RulesContext) (pca : nat * (Credential * Z)) : exec InvalidWithdrawals RulesContext :=
  let '(position, (c, amount)) := pca in
  account ← ok_or (AccountNotRegistered c) (account_lookup c (core x));
  if match c with KeyHash _ => negb (is_some (arow_drep account)) | ScriptHash _ => false end then Err (MissingAccountDRepDelegation c)
  else if negb (amount =? arow_rewards account) then Err (IncompleteWithdrawal (arow_rewards account) amount)
  else
    let x := require_witness_and_consume position c amount x in
    Ok (if 0 <? amount then with_core (withdraw_from c (core x)) x else x).
Definition when_valid (withdrawals : option (list (RewardAccount * Z))) (network : Network) (x : RulesContext) : exec InvalidWithdrawals RulesContext :=
  sorted ← sorted_by_credential withdrawals network; for_in (enumerate sorted) withdraw_one x.
Definition when_invalid (withdrawals : option (list (RewardAccount * Z))) (network : Network) (x : RulesContext) : exec InvalidWithdrawals RulesContext :=
  sorted ← sorted_by_credential withdrawals network;
  Ok (foldl (λ x pca, require_witness_and_consume pca.1 pca.2.1 pca.2.2 x) x (enumerate sorted)).
End Withdrawals.
