(* ===== verification/PhaseOneGov.v ===== *)
(** * Phase one: certificates, proposals, votes

    [amaru-ledger/src/rules/transaction/phase_one/]: certificates.rs, proposals.rs and
    voting_procedures.rs, a module for each file, with [ProposalSlim] of
    [amaru-kernel/src/cardano/proposal_slim.rs]. *)

From S2P Require Import Prelude SortedAssoc SortedPairs UplcSyntax ProtocolParameters Governance EraHistory Summary ProposalsForest PoolsUpdates StakeSummary Ratification Builtins PhaseTwo EpochTransition Fragments FragmentsProps BlockContext Transaction RulesContext PhaseOne.
Import Stake(AccountRow, mkAccountRow, arow_deposit, arow_rewards, Proposal, proposal_deposit, proposal_reward_account, gov_action,
  ProposalRow, mkProposalRow, row_proposal, row_valid_until).
Import Tx Rules.
#[local] Open Scope Z_scope.

Definition i64_add {E : Type} (a b : Z) : exec E Z := if (i64_min <=? a + b) && (a + b <=? i64_max) then Ok (a + b) else Panic.
Definition i64_neg {E : Type} (a : Z) : exec E Z := if a =? i64_min then Panic else Ok (- a).

(** ** Certificates *)
Module Certificates.
Inductive InvalidCertificates :=
| StakeCredentialAlreadyRegistered (e : RegisterError Credential)
| StakeCredentialInvalidPoolDelegation (e : DelegateError Credential PoolId)
| StakeCredentialInvalidVoteDelegation (e : DelegateError Credential DRep)
| DRepAlreadyRegistered (e : RegisterError Credential)
| DRepInvalidUpdate (e : DelegateError Credential unit)
| CCMemberInvalidDelegation (e : DelegateError Credential Credential)
| ImpossibleSlotArithmetic (e : EraHistoryError)
| PoolWrongNetwork (expected actual : Network)
| PoolMetadataHashTooBig (pool : PoolId) (max got : Z)
| PoolCostTooLow (provided minimum : Z)
| PoolRetirementWrongEpoch (epoch current_epoch max_epoch : Z)
| StakePoolUnknown (e : UnregisterError PoolId)
| IncorrectStakeDeposit (provided expected : Z)
| IncorrectDRepDeposit (provided expected : Z)
| StakeCredentialNotRegistered (e : UnregisterError Credential)
| StakeCredentialHasRewards (c : Credential) (rewards : Z)
| DRepNotRegistered (e : UnregisterError Credential).
Definition MAX_POOL_METADATA_HASH_SIZE : Z := 32.

(** *** Witnesses *)
Definition require_credential_witness (c : Credential) (index : nat) (x : RulesContext) : RulesContext :=
  match c with
  | ScriptHash h => require_script_witness (mkRequiredScript h (as_u32 index) Cert NoDatum) x
  | KeyHash h => require_verification_key_witness h x
  end.
Definition require_witnesses_one (cert : Certificate) (index : nat) (x : RulesContext) : RulesContext :=
  match cert with
  | PoolRegistration params => foldl (λ x owner, require_verification_key_witness owner x) (require_verification_key_witness (Summary.pool_id params) x) (owners params)
  | PoolRetirement id _ => require_verification_key_witness id x
  | StakeRegistration _ => x
  | Reg c deposit => if 0 <? deposit then require_credential_witness c index x else x
  | StakeDeregistration c | UnReg c _ | StakeDelegation c _ | RegDRepCert c _ _ | UnRegDRepCert c _ | UpdateDRepCert c _ | VoteDeleg c _
  | AuthCommitteeHot c _ | ResignCommitteeCold c _ | StakeVoteDeleg c _ _ | StakeRegDeleg c _ _ | StakeVoteRegDeleg c _ _ _ | VoteRegDeleg c _ _ =>
      require_credential_witness c index x
  end.

(** *** Certificates that are applied *)
Definition register_account (c : Credential) (deposit : Z) (x : RulesContext) : exec InvalidCertificates RulesContext :=
  x ← lift (λ y, map_err StakeCredentialAlreadyRegistered (account_register c (mkAccountRow None deposit None 0) y)) x;
  Ok (produce_lovelace deposit x).
Definition reg (pp : ProtocolParameters) (c : Credential) (deposit : Z) (x : RulesContext) : exec InvalidCertificates RulesContext :=
  let expected := stake_credential_deposit pp in
  if negb (deposit =? expected) then Err (IncorrectStakeDeposit deposit expected) else register_account c deposit x.
Definition unregister_account (c : Credential) (x : RulesContext) : exec InvalidCertificates (AccountRow * RulesContext) :=
  '(account, y) ← map_err StakeCredentialNotRegistered (account_unregister c (core x)); Ok (account, with_core y x).
Definition stake_delegation (c : Credential) (pool : PoolId) (pointer : CertificatePointer) (x : RulesContext) : exec InvalidCertificates RulesContext :=
  lift (λ y, map_err StakeCredentialInvalidPoolDelegation (delegate_pool c pool pointer y)) x.
Definition vote_delegation (c : Credential) (drep : DRep) (pointer : CertificatePointer) (x : RulesContext) : exec InvalidCertificates RulesContext :=
  lift (λ y, map_err StakeCredentialInvalidVoteDelegation (delegate_vote c drep pointer y)) x.
Definition pool_registration (pp : ProtocolParameters) (network : Network) (pointer : CertificatePointer) (params : PoolParams) (x : RulesContext)
  : exec InvalidCertificates RulesContext :=
  let actual := account_network (reward_account params) in
  let too_big := from_option (λ m, MAX_POOL_METADATA_HASH_SIZE <? Z.of_nat (length (content_hash m))) false (metadata params) in
  if negb (bool_decide (actual = network)) then Err (PoolWrongNetwork network actual)
  else if too_big then Err (PoolMetadataHashTooBig (Summary.pool_id params) MAX_POOL_METADATA_HASH_SIZE (from_option (λ m, Z.of_nat (length (content_hash m))) 0 (metadata params)))
  else if cost params <? min_pool_cost pp then Err (PoolCostTooLow (cost params) (min_pool_cost pp))
  else
    let is_new_pool := negb (pool_exists (Summary.pool_id params) (core x)) in
    let x := with_core (pool_register params pointer (stake_pool_deposit pp) (core x)) x in
    Ok (if is_new_pool then produce_lovelace (stake_pool_deposit pp) x else x).
Definition pool_retirement (pp : ProtocolParameters) (h : EraHistory) (pointer : CertificatePointer) (id : PoolId) (retirement_epoch : Z) (x : RulesContext)
  : exec InvalidCertificates RulesContext :=
  current_epoch ← map_err ImpossibleSlotArithmetic (slot_to_epoch_unchecked_horizon h (cert_slot pointer));
  max_epoch ← Epoch_add current_epoch (stake_pool_max_retirement_epoch pp);
  if (retirement_epoch <=? current_epoch) || (max_epoch <? retirement_epoch) then Err (PoolRetirementWrongEpoch retirement_epoch current_epoch max_epoch)
  else lift (λ y, map_err StakePoolUnknown (pool_retire id retirement_epoch y)) x.
Definition reg_drep (pp : ProtocolParameters) (h : EraHistory) (dormant : Z) (pointer : CertificatePointer) (drep : Credential) (deposit : Z) (anchor : option Anchor)
    (x : RulesContext) : exec InvalidCertificates RulesContext :=
  let expected := drep_deposit pp in
  if negb (deposit =? expected) then Err (IncorrectDRepDeposit deposit expected)
  else
    epoch ← map_err ImpossibleSlotArithmetic (slot_to_epoch_unchecked_horizon h (cert_slot pointer));
    until ← Epoch_add epoch (drep_expiry pp);
    valid_until ← Epoch_sub until dormant;
    x ← lift (λ y, map_err DRepAlreadyRegistered (drep_register drep (mkDRepRegistration deposit pointer valid_until) anchor y)) x;
    Ok (produce_lovelace deposit x).
Definition unreg_drep (pointer : CertificatePointer) (drep : Credential) (refund : Z) (x : RulesContext) : exec InvalidCertificates RulesContext :=
  '(registration, y) ← map_err DRepNotRegistered (drep_unregister drep pointer (core x));
  if negb (refund =? reg_deposit registration) then Err (IncorrectDRepDeposit refund (reg_deposit registration))
  else Ok (consume_lovelace refund (with_core y x)).
Definition stake_deregistration (c : Credential) (x : RulesContext) : exec InvalidCertificates RulesContext :=
  '(account, x) ← unregister_account c x;
  if negb (arow_rewards account =? 0) then Err (StakeCredentialHasRewards c (arow_rewards account))
  else Ok (consume_lovelace (arow_deposit account) x).
Definition unreg (c : Credential) (refund : Z) (x : RulesContext) : exec InvalidCertificates RulesContext :=
  '(account, x) ← unregister_account c x;
  if negb (refund =? arow_deposit account) then Err (IncorrectStakeDeposit refund (arow_deposit account))
  else if negb (arow_rewards account =? 0) then Err (StakeCredentialHasRewards c (arow_rewards account))
  else Ok (consume_lovelace refund x).
Definition execute_one (network : Network) (pp : ProtocolParameters) (h : EraHistory) (dormant : Z) (pointer : CertificatePointer) (cert : Certificate)
    (x : RulesContext) : exec InvalidCertificates RulesContext :=
  match cert with
  | PoolRegistration params => pool_registration pp network pointer params x
  | PoolRetirement id epoch => pool_retirement pp h pointer id epoch x
  | StakeRegistration c => register_account c (stake_credential_deposit pp) x
  | Reg c deposit => reg pp c deposit x
  | StakeDeregistration c => stake_deregistration c x
  | UnReg c refund => unreg c refund x
  | StakeDelegation c pool => stake_delegation c pool pointer x
  | RegDRepCert drep deposit anchor => reg_drep pp h dormant pointer drep deposit anchor x
  | UnRegDRepCert drep refund => unreg_drep pointer drep refund x
  | UpdateDRepCert drep anchor => lift (λ y, map_err DRepInvalidUpdate (drep_update drep anchor y)) x
  | VoteDeleg c drep => vote_delegation c drep pointer x
  | AuthCommitteeHot cold hot => lift (λ y, map_err CCMemberInvalidDelegation (delegate_cold_key cold hot y)) x
  | ResignCommitteeCold cold _ => lift (λ y, map_err CCMemberInvalidDelegation (resign cold y)) x
  | StakeVoteDeleg c pool drep => x ← vote_delegation c drep pointer x; stake_delegation c pool pointer x
  | StakeRegDeleg c pool deposit => x ← reg pp c deposit x; stake_delegation c pool pointer x
  | StakeVoteRegDeleg c pool drep deposit => x ← reg pp c deposit x; x ← stake_delegation c pool pointer x; vote_delegation c drep pointer x
  | VoteRegDeleg c drep deposit => x ← reg pp c deposit x; vote_delegation c drep pointer x
  end.
Definition apply_one (network : Network) (pp : ProtocolParameters) (h : EraHistory) (dormant : Z) (transaction : TransactionPointer) (x : RulesContext)
    (ic : nat * Certificate) : exec InvalidCertificates RulesContext :=
  execute_one network pp h dormant (mkCertificatePointer (slot transaction) (transaction_index transaction) (Z.of_nat ic.1)) ic.2
    (require_witnesses_one ic.2 ic.1 x).
Definition when_valid (network : Network) (pp : ProtocolParameters) (h : EraHistory) (dormant : Z) (transaction : TransactionPointer)
    (certificates : option (list Certificate)) (x : RulesContext) : exec InvalidCertificates RulesContext :=
  for_in (enumerate (default [] certificates)) (apply_one network pp h dormant transaction) x.

(** *** Certificates that only count *)
Record LocalSlices := mkLocalSlices { local_pools : gset PoolId; local_accounts : gmap Credential Z; local_dreps : gmap Credential Z }.
Definition count_lovelace_one {E : Type} (pp : ProtocolParameters) (x : RulesContext) (cert : Certificate) (s : LocalSlices) : exec E (Z * LocalSlices) :=
  match cert with
  | PoolRegistration params =>
      let id := Summary.pool_id params in
      Ok (if negb (bool_decide (id ∈ local_pools s)) && negb (pool_exists id (core x))
          then (as_i64 (stake_pool_deposit pp), mkLocalSlices ({[id]} ∪ local_pools s) (local_accounts s) (local_dreps s))
          else (0, s))
  | Reg c _ | StakeRegistration c | StakeRegDeleg c _ _ | StakeVoteRegDeleg c _ _ _ | VoteRegDeleg c _ _ =>
      let deposit := stake_credential_deposit pp in
      Ok (as_i64 deposit, mkLocalSlices (local_pools s) (<[c := deposit]> (local_accounts s)) (local_dreps s))
  | StakeDeregistration c | UnReg c _ =>
      let deposit := default 0 (match local_accounts s !! c with Some d => Some d | None => arow_deposit <$> account_lookup c (core x) end) in
      n ← i64_neg (as_i64 deposit);
      Ok (n, mkLocalSlices (local_pools s) (delete c (local_accounts s)) (local_dreps s))
  | RegDRepCert c _ _ =>
      let deposit := drep_deposit pp in
      Ok (as_i64 deposit, mkLocalSlices (local_pools s) (local_accounts s) (<[c := deposit]> (local_dreps s)))
  | UnRegDRepCert c _ =>
      let deposit := default 0 (match local_dreps s !! c with Some d => Some d | None => reg_deposit <$> drep_lookup c (core x) end) in
      n ← i64_neg (as_i64 deposit);
      Ok (n, mkLocalSlices (local_pools s) (local_accounts s) (delete c (local_dreps s)))
  | PoolRetirement _ _ | StakeDelegation _ _ | UpdateDRepCert _ _ | VoteDeleg _ _ | AuthCommitteeHot _ _ | ResignCommitteeCold _ _
  | StakeVoteDeleg _ _ _ => Ok (0, s)
  end.
Definition count_one {E : Type} (pp : ProtocolParameters) (st : Z * LocalSlices * RulesContext) (ic : nat * Certificate)
  : exec E (Z * LocalSlices * RulesContext) :=
  let '(delta, s, x) := st in
  let x := require_witnesses_one ic.2 ic.1 x in
  '(n, s) ← count_lovelace_one pp x ic.2 s;
  delta ← i64_add delta n;
  Ok (delta, s, x).
Definition when_invalid {E : Type} (pp : ProtocolParameters) (certificates : option (list Certificate)) (x : RulesContext) : exec E RulesContext :=
  '(delta, _, x) ← for_in (enumerate (default [] certificates)) (count_one pp) (0, mkLocalSlices ∅ ∅ ∅, x);
  Ok (if 0 <? delta then produce_lovelace delta x else if delta <? 0 then consume_lovelace (- delta) x else x).
End Certificates.

(** ** What is kept of a proposal *)
Inductive ProposalSlim :=
| Slim_ProtocolParameters (any_in_security_group : bool)
| Slim_HardFork (v : ProtocolVersion)
| Slim_Constitution
| Slim_ConstitutionalCommittee
| Slim_Orphan (is_treasury_withdrawals : bool).
Definition slim_of (action : GovernanceAction) : ProposalSlim :=
  match action with
  | ParameterChange _ update _ => Slim_ProtocolParameters (any_in_security_group update)
  | HardForkInitiation _ v => Slim_HardFork v
  | TreasuryWithdrawals _ _ => Slim_Orphan true
  | Information => Slim_Orphan false
  | NoConfidenceMotion _ | UpdateCommittee _ _ _ _ => Slim_ConstitutionalCommittee
  | NewConstitution _ _ => Slim_Constitution
  end.
Definition same_lineage (a b : ProposalSlim) : bool :=
  match a, b with
  | Slim_ProtocolParameters _, Slim_ProtocolParameters _ | Slim_HardFork _, Slim_HardFork _ | Slim_Constitution, Slim_Constitution
  | Slim_ConstitutionalCommittee, Slim_ConstitutionalCommittee | Slim_Orphan _, Slim_Orphan _ => true
  | _, _ => false
  end.
Definition root_of (roots : Forest.ProposalsRoots) (kind : ProposalSlim) : option ProposalId :=
  match kind with
  | Slim_ProtocolParameters _ => Forest.root_protocol_parameters roots
  | Slim_HardFork _ => Forest.root_hard_fork roots
  | Slim_ConstitutionalCommittee => Forest.root_constitutional_committee roots
  | Slim_Constitution => Forest.root_constitution roots
  | Slim_Orphan _ => None
  end.
Definition action_parent (action : GovernanceAction) : option ProposalId :=
  match action with
  | ParameterChange parent _ _ | HardForkInitiation parent _ | NoConfidenceMotion parent | UpdateCommittee parent _ _ _ | NewConstitution parent _ => parent
  | TreasuryWithdrawals _ _ | Information => None
  end.
(** What the context gives of a proposal in flight. *)
Definition in_flight (i : ProposalId) (x : RulesContext) : option ProposalSlim :=
  (λ p, slim_of (gov_action (row_proposal p))) <$> proposal_lookup i (core x).

(** ** Proposals *)
Module Proposals.
Inductive InvalidProposals :=
| IncorrectDeposit (provided expected : Z)
| ReturnAddressWrongNetwork (expected actual : Network)
| ProposalReturnAccountDoesNotExist (c : Credential)
| TreasuryWithdrawalsAllZeros
| TreasuryWithdrawalWrongNetwork (expected actual : Network)
| TreasuryWithdrawalReturnAccountsDoNotExist (missing : gset Credential)
| ConflictingCommitteeUpdate
| HardforkCantFollow (last_proposed_version new_version current_version : ProtocolVersion)
| MalformedProposal (reason : string)
| ExpirationEpochTooSmall (expiry current : Z)
| InvalidPrevGovActionId (parent : option ProposalId)
| InvalidGuardrailsScriptHash (provided expected : option (list Z))
| ProposalEraHistory (e : EraHistoryError).

Definition get_proposal_script_hash (p : Proposal) : option (list Z) :=
  match gov_action p with ParameterChange _ _ policy | TreasuryWithdrawals _ policy => policy | _ => None end.
Definition require_witness (index : nat) (p : Proposal) (x : RulesContext) : RulesContext :=
  match get_proposal_script_hash p with
  | Some h => require_script_witness (mkRequiredScript h (as_u32 index) Propose NoDatum) x
  | None => x
  end.
Definition check_guardrails_script_hash (expected provided : option (list Z)) : exec InvalidProposals unit :=
  if bool_decide (provided = expected) then Ok tt else Err (InvalidGuardrailsScriptHash provided expected).
Definition reject_zero (field : option Z) (reason : string) : exec InvalidProposals unit :=
  if from_option (λ n, n =? 0) false field then Err (MalformedProposal reason) else Ok tt.
Definition update_is_empty (u : ProtocolParamUpdate) : bool :=
  negb (is_some (u_minfee_a u)) && negb (is_some (u_minfee_b u)) && negb (is_some (u_max_block_body_size u)) && negb (is_some (u_max_transaction_size u))
  && negb (is_some (u_max_block_header_size u)) && negb (is_some (u_key_deposit u)) && negb (is_some (u_pool_deposit u)) && negb (is_some (u_maximum_epoch u))
  && negb (is_some (u_desired_number_of_stake_pools u)) && negb (is_some (u_pool_pledge_influence u)) && negb (is_some (u_expansion_rate u))
  && negb (is_some (u_treasury_growth_rate u)) && negb (is_some (u_min_pool_cost u)) && negb (is_some (u_ada_per_utxo_byte u))
  && negb (is_some (u_cost_models_for_script_languages u)) && negb (is_some (u_execution_costs u)) && negb (is_some (u_max_tx_ex_units u))
  && negb (is_some (u_max_block_ex_units u)) && negb (is_some (u_max_value_size u)) && negb (is_some (u_collateral_percentage u))
  && negb (is_some (u_max_collateral_inputs u)) && negb (is_some (u_pool_voting_thresholds u)) && negb (is_some (u_drep_voting_thresholds u))
  && negb (is_some (u_min_committee_size u)) && negb (is_some (u_committee_term_limit u)) && negb (is_some (u_governance_action_validity_period u))
  && negb (is_some (u_governance_action_deposit u)) && negb (is_some (u_drep_deposit u)) && negb (is_some (u_drep_inactivity_period u))
  && negb (is_some (u_minfee_refscript_cost_per_byte u)).
Definition ppu_well_formed (u : ProtocolParamUpdate) (v : ProtocolVersion) : exec InvalidProposals unit :=
  _ ← reject_zero (u_max_block_body_size u) "max_block_body_size cannot be 0";
  _ ← reject_zero (u_max_transaction_size u) "max_transaction_size cannot be 0";
  _ ← reject_zero (u_max_block_header_size u) "max_block_header_size cannot be 0";
  _ ← reject_zero (u_max_value_size u) "max_value_size cannot be 0";
  _ ← reject_zero (u_collateral_percentage u) "collateral_percentage cannot be 0";
  _ ← reject_zero (u_committee_term_limit u) "committee_term_limit cannot be 0";
  _ ← reject_zero (u_governance_action_validity_period u) "governance_action_validity_period cannot be 0";
  _ ← reject_zero (u_pool_deposit u) "pool_deposit cannot be 0";
  _ ← reject_zero (u_governance_action_deposit u) "governance_action_deposit cannot be 0";
  _ ← reject_zero (u_drep_deposit u) "drep_deposit cannot be 0";
  _ ← (if negb (pv_leb v PROTOCOL_VERSION_9 && pv_leb PROTOCOL_VERSION_9 v) then reject_zero (u_ada_per_utxo_byte u) "ada_per_utxo_byte cannot be 0" else Ok tt);
  _ ← (if pv_leb PROTOCOL_VERSION_11 v then reject_zero (u_desired_number_of_stake_pools u) "desired_number_of_stake_pools cannot be 0" else Ok tt);
  if update_is_empty u then Err (MalformedProposal "parameter update cannot be empty") else Ok tt.
(** A parent that is neither the root nor a hard fork in flight is unreachable. *)
Definition pending_hard_fork_version {E : Type} (parent : option ProposalId) (x : RulesContext) : exec E (option ProtocolVersion) :=
  if bool_decide (parent = Forest.root_hard_fork (ctx_roots (core x))) then Ok None
  else match parent ≫= (λ i, in_flight i x) with Some (Slim_HardFork previous) => Ok (Some previous) | _ => Panic end.
Definition treasury_withdrawal (network : Network) (x : RulesContext) (st : bool * gset Credential) (ac : RewardAccount * Z)
  : exec InvalidProposals (bool * gset Credential) :=
  let actual := account_network ac.1 in
  if negb (bool_decide (actual = network)) then Err (TreasuryWithdrawalWrongNetwork network actual)
  else
    let c := account_credential ac.1 in
    Ok (st.1 || (0 <? ac.2), if is_some (account_lookup c (core x)) then st.2 else {[c]} ∪ st.2).
Definition validate_lineage (p : Proposal) (x : RulesContext) : exec InvalidProposals unit :=
  let kind := slim_of (gov_action p) in
  match kind with
  | Slim_Orphan _ => Ok tt
  | _ =>
      let parent := action_parent (gov_action p) in
      let follows_root := bool_decide (parent = root_of (ctx_roots (core x)) kind) in
      let follows_in_flight := from_option (λ slim, same_lineage slim kind) false (parent ≫= (λ i, in_flight i x)) in
      if negb follows_root && negb follows_in_flight then Err (InvalidPrevGovActionId parent) else Ok tt
  end.
Definition validate_action (action : GovernanceAction) (network : Network) (pp : ProtocolParameters) (h : EraHistory) (guardrail : option (list Z))
    (pointer : TransactionPointer) (x : RulesContext) : exec InvalidProposals unit :=
  match action with
  | TreasuryWithdrawals wdrls policy =>
      '(any_positive, missing) ← for_in wdrls (treasury_withdrawal network x) (false, ∅);
      _ ← check_guardrails_script_hash guardrail policy;
      if negb any_positive then Err TreasuryWithdrawalsAllZeros
      else if negb (bool_decide (missing = ∅)) then Err (TreasuryWithdrawalReturnAccountsDoNotExist missing)
      else Ok tt
  | UpdateCommittee _ removed added _ =>
      if existsb (λ k, bool_decide (k ∈ removed)) (map fst added) then Err ConflictingCommitteeUpdate
      else
        current ← map_err ProposalEraHistory (slot_to_epoch h (slot pointer) (slot pointer));
        for_in added (λ _ ke, if ke.2 <=? current then Err (ExpirationEpochTooSmall ke.2 current) else Ok tt) tt
  | NoConfidenceMotion _ | NewConstitution _ _ => Ok tt
  | HardForkInitiation parent new_version =>
      let current_version := protocol_version pp in
      pending ← pending_hard_fork_version parent x;
      let last_proposed_version := default current_version pending in
      if (pv_major current_version + 1 <? pv_major new_version) || negb (can_follow new_version last_proposed_version)
      then Err (HardforkCantFollow last_proposed_version new_version current_version)
      else Ok tt
  | ParameterChange _ u policy =>
      _ ← ppu_well_formed u (protocol_version pp);
      check_guardrails_script_hash guardrail policy
  | Information => Ok tt
  end.
Definition validate_proposal (p : Proposal) (network : Network) (pp : ProtocolParameters) (h : EraHistory) (guardrail : option (list Z))
    (pointer : TransactionPointer) (x : RulesContext) : exec InvalidProposals unit :=
  if negb (proposal_deposit p =? gov_action_deposit pp) then Err (IncorrectDeposit (proposal_deposit p) (gov_action_deposit pp))
  else
    _ ← validate_lineage p x;
    let c := account_credential (proposal_reward_account p) in
    if negb (is_some (account_lookup c (core x))) then Err (ProposalReturnAccountDoesNotExist c)
    else
      let actual := account_network (proposal_reward_account p) in
      if negb (bool_decide (actual = network)) then Err (ReturnAddressWrongNetwork network actual)
      else validate_action (gov_action p) network pp h guardrail pointer x.
Definition propose_one (network : Network) (pp : ProtocolParameters) (h : EraHistory) (guardrail : option (list Z)) (transaction_id : list Z)
    (pointer : TransactionPointer) (x : RulesContext) (ip : nat * Proposal) : exec InvalidProposals RulesContext :=
  let '(index, p) := ip in
  let x := require_witness index p x in
  _ ← validate_proposal p network pp h guardrail pointer x;
  let x := produce_lovelace (proposal_deposit p) x in
  epoch ← map_err ProposalEraHistory (slot_to_epoch h (slot pointer) (slot pointer));
  valid_until ← Epoch_add epoch (gov_action_lifetime pp);
  let row := mkProposalRow (mkProposalPointer (slot pointer) (transaction_index pointer) (Z.of_nat index)) valid_until p in
  Ok (with_core (acknowledge (mkProposalId transaction_id (as_u16 index)) row (core x)) x).
Definition when_valid (network : Network) (pp : ProtocolParameters) (h : EraHistory) (guardrail : option (list Z)) (transaction_id : list Z)
    (pointer : TransactionPointer) (proposals : option (list Proposal)) (x : RulesContext) : exec InvalidProposals RulesContext :=
  for_in (enumerate (default [] proposals)) (propose_one network pp h guardrail transaction_id pointer) x.
Definition when_invalid {E : Type} (pp : ProtocolParameters) (proposals : option (list Proposal)) (x : RulesContext) : exec E RulesContext :=
  let proposals := default [] proposals in
  let x := foldl (λ x ip, require_witness ip.1 ip.2 x) x (enumerate proposals) in
  total ← u64_mul (gov_action_deposit pp) (Z.of_nat (length proposals));
  Ok (produce_lovelace total x).
End Proposals.

(** ** Votes *)
Definition owner (v : Voter) : Credential :=
  match v with
  | ConstitutionalCommitteeKey h | DRepKey h | StakePoolKey h => KeyHash h
  | ConstitutionalCommitteeScript h | DRepScript h => ScriptHash h
  end.
Definition voter_key (v : Voter) : list Z :=
  match v with
  | ConstitutionalCommitteeScript h => 0 :: h | ConstitutionalCommitteeKey h => 1 :: h | DRepScript h => 2 :: h | DRepKey h => 3 :: h | StakePoolKey h => 4 :: h
  end.
#[export] Program Instance Voter_order : TotalOrder Voter := {| cmp := λ a b, bytes_compare (voter_key a) (voter_key b) |}.
Next Obligation. intros a b. rewrite bytes_compare_eq. destruct a, b; cbn; split; congruence. Qed.
Next Obligation. intros a b. apply bytes_compare_antisym. Qed.
Next Obligation. intros a b c. apply bytes_compare_trans. Qed.

Module Voting.
Inductive InvalidVotingProcedures :=
| UnknownVoter (voters : gset Voter)
| DisallowedVoter (voters : gmap Voter ProposalSlim)
| GovActionsDoNotExist (proposals : gset ProposalId)
| VotingOnExpiredGovAction (proposals : gmap Voter ProposalId)
| VotingEraHistory (e : EraHistoryError).
Record Violations := mkViolations {
  unknown_voters : gset Voter; unknown_proposals : gset ProposalId; expired_proposals : gmap Voter ProposalId; disallowed_voters : gmap Voter ProposalSlim }.
Definition no_violations (v : Violations) : bool :=
  bool_decide (unknown_voters v = ∅) && bool_decide (size (disallowed_voters v) = 0%nat) && bool_decide (unknown_proposals v = ∅) && bool_decide (size (expired_proposals v) = 0%nat).

Definition require_witness (index : nat) (v : Voter) (x : RulesContext) : RulesContext :=
  match owner v with
  | ScriptHash h => require_script_witness (mkRequiredScript h (as_u32 index) Vote NoDatum) x
  | KeyHash h => require_verification_key_witness h x
  end.
Definition is_expired (p : ProposalRow) (current_epoch : Z) : bool := row_valid_until p <? current_epoch.
Definition is_allowed_voter (v : Voter) (p : ProposalSlim) : bool :=
  match v with
  | DRepKey _ | DRepScript _ => true
  | ConstitutionalCommitteeKey _ | ConstitutionalCommitteeScript _ =>
      match p with Slim_ConstitutionalCommittee => false | _ => true end
  | StakePoolKey _ =>
      match p with
      | Slim_ProtocolParameters any_in_security_group => any_in_security_group
      | Slim_Orphan is_treasury_withdrawals => negb is_treasury_withdrawals
      | Slim_ConstitutionalCommittee | Slim_HardFork _ => true
      | Slim_Constitution => false
      end
  end.
Definition is_known_voter (pv : ProtocolVersion) (v : Voter) (x : RulesContext) : bool :=
  match v with
  | ConstitutionalCommitteeKey _ | ConstitutionalCommitteeScript _ =>
      let cc_members := lookup_by_hot_credential (owner v) (core x) in
      if pv_leb PROTOCOL_VERSION_11 pv then existsb (λ m, is_some (Committee.row_valid_until m)) cc_members else (0 <? length cc_members)%nat
  | DRepKey _ | DRepScript _ => is_some (drep_lookup (owner v) (core x))
  | StakePoolKey pool => pool_exists pool (core x)
  end.
(** The loop on the ballots of a voter; [true] when it returns before its end. *)
Fixpoint check_ballots (v : Voter) (current_epoch : Z) (x : RulesContext) (ballots : list (ProposalId * Ballot)) (s : Violations) : Violations * bool :=
  match ballots with
  | [] => (s, false)
  | (i, _) :: ballots =>
      match proposal_lookup i (core x) with
      | None => check_ballots v current_epoch x ballots (mkViolations (unknown_voters s) ({[i]} ∪ unknown_proposals s) (expired_proposals s) (disallowed_voters s))
      | Some p =>
          let action := slim_of (gov_action (row_proposal p)) in
          if is_expired p current_epoch then (mkViolations (unknown_voters s) (unknown_proposals s) (<[v := i]> (expired_proposals s)) (disallowed_voters s), true)
          else if negb (is_allowed_voter v action) then (mkViolations (unknown_voters s) (unknown_proposals s) (expired_proposals s) (<[v := action]> (disallowed_voters s)), true)
          else check_ballots v current_epoch x ballots s
      end
  end.
Definition cast (v : Voter) (x : RulesContext) (ib : ProposalId * Ballot) : RulesContext := with_core (ctx_vote ib.1 v ib.2 (core x)) x.
Definition vote_one (pv : ProtocolVersion) (current_epoch : Z) (st : Violations * RulesContext) (ivb : nat * (Voter * list (ProposalId * Ballot)))
  : Violations * RulesContext :=
  let '(s, x) := st in
  let '(index, (v, ballots)) := ivb in
  let x := require_witness index v x in
  if negb (is_known_voter pv v x) then (mkViolations ({[v]} ∪ unknown_voters s) (unknown_proposals s) (expired_proposals s) (disallowed_voters s), x)
  else
    let '(s, returned) := check_ballots v current_epoch x ballots s in
    if returned || negb (no_violations s) then (s, x) else (s, foldl (cast v) x ballots).
Definition when_valid (pv : ProtocolVersion) (h : EraHistory) (pointer : TransactionPointer) (procedures : option (list (Voter * list (ProposalId * Ballot))))
    (x : RulesContext) : exec InvalidVotingProcedures RulesContext :=
  match procedures with
  | None => Ok x
  | Some procedures =>
      current_epoch ← map_err VotingEraHistory (slot_to_epoch h (slot pointer) (slot pointer));
      let '(s, x) := foldl (vote_one pv current_epoch) (mkViolations ∅ ∅ ∅ ∅, x) (enumerate (SortedPairs.from_vec procedures)) in
      if negb (bool_decide (unknown_voters s = ∅)) then Err (UnknownVoter (unknown_voters s))
      else if negb (bool_decide (unknown_proposals s = ∅)) then Err (GovActionsDoNotExist (unknown_proposals s))
      else if negb (bool_decide (size (expired_proposals s) = 0%nat)) then Err (VotingOnExpiredGovAction (expired_proposals s))
      else if negb (bool_decide (size (disallowed_voters s) = 0%nat)) then Err (DisallowedVoter (disallowed_voters s))
      else Ok x
  end.
Definition when_invalid (procedures : option (list (Voter * list (ProposalId * Ballot)))) (x : RulesContext) : RulesContext :=
  foldl (λ x iv, require_witness iv.1 iv.2 x) x (enumerate (map fst (SortedPairs.from_vec (default [] procedures)))).
End Voting.
