(* ===== verification/PhaseOneScripts.v ===== *)
(** * Phase one: signatures and scripts

    [amaru-ledger/src/rules/transaction/phase_one/]: verification_key_witness.rs, native_scripts.rs and scripts.rs, a
    module for each file, and [amaru-kernel/src/cardano/script_integrity_data.rs].  Sets in errors are the sets, not the
    vectors of their elements. *)

From S2P Require Import Prelude SortedAssoc SortedPairs UplcSyntax ProtocolParameters Governance EraHistory Summary ProposalsForest PoolsUpdates StakeSummary Builtins PhaseTwo Fragments BlockContext Transaction RulesContext PhaseOne.
Import Tx Rules.
#[local] Open Scope Z_scope.

#[global] Instance RedeemerKey_eq_dec : EqDecision RedeemerKey.
Proof. assert (EqDecision RedeemerTag) by solve_decision. solve_decision. Defined.

(** ** Signatures *)
Module Signatures.
Inductive InvalidVerificationKeyWitness :=
| MissingRequiredKeysOrRoots (missing : gset (list Z))
| InvalidSignatures (positions : list nat).
Section Signatures.
Context `{Crypto}.
Definition provided_keys (w : list VerificationKeyWitness) : gset (list Z) := list_to_set (map (λ w, hash_blake2b_224 (verification_key w)) w).
Definition provided_roots (w : list BootstrapWitness) : gset (list Z) := list_to_set (map bootstrap_root w).
Definition invalid_keys (transaction_id : list Z) (w : list VerificationKeyWitness) : list nat :=
  omap (λ pw, if ed25519_verify_strict (verification_key pw.2) (signature pw.2) transaction_id then None else Some pw.1) (enumerate w).
Definition invalid_roots (transaction_id : list Z) (w : list BootstrapWitness) : list nat :=
  omap (λ pw, if ed25519_verify_strict (public_key pw.2) (bootstrap_signature pw.2) transaction_id then None else Some pw.1) (enumerate w).
Definition execute (transaction_id : list Z) (bootstrap_witnesses : option (list BootstrapWitness)) (verification_key_witnesses : option (list VerificationKeyWitness))
    (x : RulesContext) : exec InvalidVerificationKeyWitness RulesContext :=
  let verification_key_witnesses := default [] verification_key_witnesses in
  let bootstrap_witnesses := default [] bootstrap_witnesses in
  let provided := provided_keys verification_key_witnesses ∪ provided_roots bootstrap_witnesses in
  let '(keys, x) := required_signers x in
  let '(roots, x) := required_bootstrap_roots x in
  let missing := (keys ∪ roots) ∖ provided in
  if negb (bool_decide (missing = ∅)) then Err (MissingRequiredKeysOrRoots missing)
  else
    let invalid := invalid_keys transaction_id verification_key_witnesses in
    if negb (bool_decide (invalid = [])) then Err (InvalidSignatures invalid)
    else
      let invalid := invalid_roots transaction_id bootstrap_witnesses in
      if negb (bool_decide (invalid = [])) then Err (InvalidSignatures invalid) else Ok x.
End Signatures.
End Signatures.

(** ** Scripts *)
Module Scripts.
Inductive ProvidedScript := Provided_Native (s : NativeScript) | Provided_V1 | Provided_V2 | Provided_V3.
Definition provided_version (s : ProvidedScript) : option PlutusVersion :=
  match s with Provided_Native _ => None | Provided_V1 => Some V1 | Provided_V2 => Some V2 | Provided_V3 => Some V3 end.
Definition from_version (v : PlutusVersion) : ProvidedScript := match v with V1 => Provided_V1 | V2 => Provided_V2 | V3 => Provided_V3 end.
Definition from_memoized (s : MemoizedScript) : ProvidedScript :=
  match s with Script_Native s => Provided_Native s | Script_V1 _ _ => Provided_V1 | Script_V2 _ _ => Provided_V2 | Script_V3 _ _ => Provided_V3 end.

(** *** What the hash of the scripts' data commits to *)
Record ScriptIntegrityData := mkScriptIntegrityData {
  integrity_redeemers : list Z; integrity_datums : option (list Z); language_views : list LanguageView }.
Definition from_cost_models (c : CostModels) (v : PlutusVersion) : LanguageView :=
  mkLanguageView v match v with V1 => plutus_v1 c | V2 => plutus_v2 c | V3 => plutus_v3 c end.
(** The views of a set of languages: by the length of their tag, then by the tag. *)
Definition views_of (c : CostModels) (languages : list PlutusVersion) : list LanguageView :=
  map (from_cost_models c) (filter (λ v, v ∈ languages) [V2; V3; V1]).
Definition from_witness_set (w : WitnessSet) (c : CostModels) (languages : list PlutusVersion) : option ScriptIntegrityData :=
  if negb (is_some (redeemer w)) && negb (is_some (plutus_data w)) && bool_decide (languages = []) then None
  else Some (mkScriptIntegrityData (from_option redeemers_bytes [0xa0] (redeemer w)) (datums_bytes <$> plutus_data w) (views_of c languages)).

Inductive InvalidScripts :=
| MissingRequiredScripts (missing : gset (list Z))
| ExtraneousScriptWitnesses (extra : gset (list Z))
| UnspendableInputsNoDatums (positions : gset Z)
| MissingRequiredDatums (missing provided : gset (list Z))
| ExtraneousSupplementalDatums (supplemental extraneous : gset (list Z))
| ExtraneousRedeemers (keys : list RedeemerKey)
| MissingRedeemers (keys : list RedeemerKey)
| TooManyExUnits (provided max : ExUnits)
| ScriptWitnessNotValidatingUTXOW (failing : gset (list Z))
| ScriptIntegrityHashMismatch (supplied : option (list Z)) (expected : option ScriptIntegrityData).

Section Scripts.
Context `{Crypto} `{Codecs}.

Definition encoded_buffer (d : ScriptIntegrityData) : list Z :=
  integrity_redeemers d ++ default [] (integrity_datums d) ++ language_views_bytes (language_views d).
Definition integrity_hash (d : ScriptIntegrityData) : list Z := hash_blake2b_256 (encoded_buffer d).

(** *** The scripts that are available *)
Definition collect_plutus_witness_scripts (scripts : option (list PlutusScript)) (v : PlutusVersion) (provided : gmap (list Z) ProvidedScript)
  : gmap (list Z) ProvidedScript :=
  foldl (λ provided s, <[script_hash s := from_version v]> provided) provided (default [] scripts).
Definition collect_witness_scripts (w : WitnessSet) : gmap (list Z) ProvidedScript :=
  let provided := foldl (λ provided s, <[native_script_hash s := Provided_Native s]> provided) ∅ (default [] (native_script w)) in
  let provided := collect_plutus_witness_scripts (plutus_v1_script w) V1 provided in
  let provided := collect_plutus_witness_scripts (plutus_v2_script w) V2 provided in
  collect_plutus_witness_scripts (plutus_v3_script w) V3 provided.
Definition reference_script (required : gset (list Z)) (st : gmap (list Z) ProvidedScript * gset (list Z)) (hs : list Z * MemoizedScript)
  : gmap (list Z) ProvidedScript * gset (list Z) :=
  if decide (hs.1 ∈ required) then (<[hs.1 := from_memoized hs.2]> st.1, {[hs.1]} ∪ st.2) else st.
Definition collect_provided_scripts {E : Type} (required : gset (list Z)) (w : WitnessSet) (x : RulesContext)
  : exec E (gmap (list Z) ProvidedScript * gset (list Z) * gset (list Z) * RulesContext) :=
  let provided := collect_witness_scripts w in
  let witnessed := dom provided in
  '(known, x) ← known_scripts x;
  let '(provided, referenced) := foldl (reference_script required) (provided, ∅) (map_to_list known) in
  Ok (provided, witnessed, referenced, x).

(** *** Native scripts *)
Definition collect_verification_key_hashes (w : WitnessSet) : gset (list Z) :=
  list_to_set (map (λ w, hash_blake2b_224 (verification_key w)) (default [] (verification_key_witness w))).
Definition native_fails (keys : gset (list Z)) (i : ValidityInterval) (provided : gmap (list Z) ProvidedScript) (h : list Z) : bool :=
  match provided !! h with Some (Provided_Native s) => negb (eval keys i (tree s)) | _ => false end.
Definition native_scripts (provided : gmap (list Z) ProvidedScript) (required : gset (list Z)) (w : WitnessSet) (i : ValidityInterval) : exec InvalidScripts unit :=
  let failing := filter (λ h, native_fails (collect_verification_key_hashes w) i provided h = true) required in
  if bool_decide (failing = ∅) then Ok tt else Err (ScriptWitnessNotValidatingUTXOW failing).

(** *** Required and witnessed *)
Definition fail_on_too_many_ex_units (w : WitnessSet) (pp : ProtocolParameters) : exec InvalidScripts unit :=
  let max := max_tx_ex_units pp in
  let provided := total_ex_units (ex_units w) in
  if (units_mem max <? units_mem provided) || (units_steps max <? units_steps provided) then Err (TooManyExUnits provided max) else Ok tt.
Definition fail_on_script_symmetric_differences (required : list RequiredScript) (provided : gmap (list Z) ProvidedScript) (witnessed referenced : gset (list Z))
  : exec InvalidScripts (list (RequiredScript * ProvidedScript)) :=
  let existing : gset (list Z) := list_to_set (map req_hash required) in
  let missing : gset (list Z) := filter (λ h, provided !! h = None) existing in
  let resolved := omap (λ r, pair r <$> provided !! req_hash r) required in
  if negb (bool_decide (missing = ∅)) then Err (MissingRequiredScripts missing)
  else
    let extraneous := filter (λ h, h ∉ existing ∨ h ∈ referenced) witnessed in
    if negb (bool_decide (extraneous = ∅)) then Err (ExtraneousScriptWitnesses extraneous) else Ok resolved.
Definition require_redeemer (r : RequiredScript) (keys : list RedeemerKey) : list RedeemerKey := keys ++ [redeemer_key r].
Definition unspendable_without_datum (r : RequiredScript) (missing : gset Z) : gset Z :=
  match req_purpose r, req_datum r with Spend, NoDatum => {[req_index r]} ∪ missing | _, _ => missing end.
Definition require_datum_preimage (r : RequiredScript) (required : gset (list Z)) : gset (list Z) :=
  match req_datum r with DatumHash h => {[h]} ∪ required | InlineDatum _ | NoDatum => required end.
Definition partition_one (st : list RedeemerKey * gset (list Z) * gset Z) (rk : RequiredScript * ProvidedScript) : list RedeemerKey * gset (list Z) * gset Z :=
  let '(redeemers, datums, missing) := st in
  let '(r, kind) := rk in
  match kind with
  | Provided_Native _ => st
  | Provided_V1 | Provided_V2 => (require_redeemer r redeemers, require_datum_preimage r datums, unspendable_without_datum r missing)
  | Provided_V3 => (require_redeemer r redeemers, require_datum_preimage r datums, missing)
  end.
Definition partition_scripts (required : list (RequiredScript * ProvidedScript)) : exec InvalidScripts (list RedeemerKey * gset (list Z)) :=
  let '(redeemers, datums, missing) := foldl partition_one ([], ∅, ∅) required in
  if negb (bool_decide (missing = ∅)) then Err (UnspendableInputsNoDatums missing) else Ok (redeemers, datums).
Definition datum_hashes (w : WitnessSet) : gset (list Z) := list_to_set (map hash_blake2b_256 (from_option datums [] (plutus_data w))).
Definition fail_on_supplemental_datums (required witnessed : gset (list Z)) (x : RulesContext) : exec InvalidScripts RulesContext :=
  let supplemental := witnessed ∖ required in
  let '(allowed, x) := allowed_supplemental_datums x in
  let extraneous := supplemental ∖ allowed in
  if negb (bool_decide (extraneous = ∅)) then Err (ExtraneousSupplementalDatums supplemental extraneous) else Ok x.
Definition fail_on_unmatched_datums (required witnessed : gset (list Z)) : exec InvalidScripts unit :=
  let missing := required ∖ witnessed in
  if negb (bool_decide (missing = ∅)) then Err (MissingRequiredDatums missing witnessed) else Ok tt.

(** *** Redeemers *)
Fixpoint remove_first (k : RedeemerKey) (l : list RedeemerKey) : option (list RedeemerKey) :=
  match l with [] => None | k' :: l => if decide (k' = k) then Some l else cons k' <$> remove_first k l end.
Definition match_redeemer (st : list RedeemerKey * list RedeemerKey) (k : RedeemerKey) : list RedeemerKey * list RedeemerKey :=
  match remove_first k st.1 with Some required => (required, st.2) | None => (st.1, st.2 ++ [k]) end.

Definition execute (w : WitnessSet) (i : ValidityInterval) (pp : ProtocolParameters) (script_data_hash : option (list Z)) (x : RulesContext)
  : exec InvalidScripts RulesContext :=
  _ ← fail_on_too_many_ex_units w pp;
  let '(required, x) := required_scripts x in
  let hashes := list_to_set (map req_hash required) in
  '(provided, witnessed, referenced, x) ← collect_provided_scripts hashes w x;
  _ ← native_scripts provided hashes w i;
  required ← fail_on_script_symmetric_differences required provided witnessed referenced;
  '(required_redeemers, required_datums) ← partition_scripts required;
  let witnessed_datums := datum_hashes w in
  let languages := omap provided_version (map snd (map_to_list provided)) in
  x ← fail_on_supplemental_datums required_datums witnessed_datums x;
  _ ← fail_on_unmatched_datums required_datums witnessed_datums;
  let '(missing, extra) := foldl match_redeemer (required_redeemers, []) (from_option (λ r, map fst (iter_unique r)) [] (redeemer w)) in
  if negb (bool_decide (missing = [])) then Err (MissingRedeemers missing)
  else if negb (bool_decide (extra = [])) then Err (ExtraneousRedeemers extra)
  else
    let expected := from_witness_set w (cost_models pp) languages in
    if negb (bool_decide (script_data_hash = integrity_hash <$> expected)) then Err (ScriptIntegrityHashMismatch script_data_hash expected) else Ok x.
End Scripts.
End Scripts.
