(* ===== verification/TransactionRules.v ===== *)
(** * The rules of transactions and blocks

    [amaru-ledger/src/rules/transaction/phase_one/mod.rs] and [transaction/mod.rs]: the rules of a transaction, in their order,
    then its scripts, then its inputs are spent.  [rules/block.rs] and [rules/block/]: a block is checked and its transactions are
    applied one after the other.  [rules.rs]: the keys that a block needs.

    The scripts to run with their contexts and arguments are parameters, as in phase two.  [rules_parts] gives the ledger state
    the rules it is built on. *)

From S2P Require Import Prelude BTreeMap SortedAssoc SortedPairs UplcSyntax ProtocolParameters Governance EraHistory Summary ProposalsForest PoolsUpdates StakeSummary Ratification Builtins PhaseTwo EpochTransition Fragments FragmentsProps Volatile VolatileReads BlockStore BlockContext LedgerState Transaction RulesContext PhaseOne PhaseOneGov PhaseOneScripts.
From S2P Require Flat Headers.
Import Flat(DataCodec, DataCodecLaws).
Import Stake(Proposal, proposal_reward_account, gov_action).
Import Tx Rules.
#[local] Open Scope Z_scope.

(** ** Errors *)
Inductive PhaseOneError :=
| InputsError (e : Inputs.InvalidInputs)
| OutputsError (e : TxOutputs.InvalidOutputs)
| CertificatesError (e : Certificates.InvalidCertificates)
| FeesError (e : Fees.InvalidFees)
| WithdrawalsError (e : Withdrawals.InvalidWithdrawals)
| VerificationKeyWitnessError (e : Signatures.InvalidVerificationKeyWitness)
| ScriptsError (e : Scripts.InvalidScripts)
| ScriptPreparation (e : PreparationError)
| ProposalsError (e : Proposals.InvalidProposals)
| VotingProceduresError (e : Voting.InvalidVotingProcedures)
| MetadataError (e : Metadata.InvalidTransactionMetadata)
| InvalidNetwork (expected provided : Network)
| TooLarge (provided maximum : Z)
| TreasuryError (e : Treasury.InvalidTreasury)
| ValidityIntervalError (e : Validity.InvalidValidityInterval)
| ValueNotPreserved (b : Balance).
Inductive TagMismatch := PassedUnexpectedly | FailedUnexpectedly (failures : list UplcMachineError).
Inductive TransactionInvalid := PhaseOneFailed (e : PhaseOneError) | PhaseTwoFailed (e : TagMismatch).

(** ** Phase one *)
Definition fail_on_tx_size_too_large (provided : Z) (pp : ProtocolParameters) : exec PhaseOneError unit :=
  if max_transaction_size pp <? provided then Err (TooLarge provided (max_transaction_size pp)) else Ok tt.
Definition fail_on_network_mismatch (provided : option Network) (expected : Network) : exec PhaseOneError unit :=
  match provided with
  | Some provided => if negb (bool_decide (expected = provided)) then Err (InvalidNetwork expected provided) else Ok tt
  | None => Ok tt
  end.
Definition require_signers (signers : option (list (list Z))) (x : RulesContext) : RulesContext :=
  foldl (λ x h, require_verification_key_witness h x) x (default [] signers).
Definition declared_fees (env : Environment) (t : TransactionRef) (r : Inputs.ResolvedInputs) : Fees.DeclaredFees :=
  Fees.mkDeclaredFees (fee (body t)) (Inputs.resolved_collateral r) (collateral_return (body t)) (total_collateral (body t)) (tx_len t) (witnesses t)
    (Inputs.ref_scripts_size r) (env_parameters env).
Definition check_balance (x : RulesContext) : exec PhaseOneError RulesContext :=
  let '(b, x) := take_balance x in if negb (is_zero b) then Err (ValueNotPreserved b) else Ok x.

Section Rules.
Context `{Crypto} `{DataCodec} `{Codecs}.

(** The rules before those on the inputs, which only look at the transaction. *)
Definition preflight (env : Environment) (t : TransactionRef) : exec PhaseOneError unit :=
  _ ← fail_on_network_mismatch (network (body t)) (env_network env);
  _ ← fail_on_tx_size_too_large (tx_len t) (env_parameters env);
  _ ← map_err ValidityIntervalError (Validity.execute (validity_interval (body t)) (is_some (redeemer (witnesses t))) (env_era_history env) (slot (env_pointer env)));
  map_err MetadataError (Metadata.execute (body t) (auxiliary_data t) (protocol_version (env_parameters env))).
Definition resolve_inputs_of (env : Environment) (t : TransactionRef) (x : RulesContext) : exec PhaseOneError (Inputs.ResolvedInputs * RulesContext) :=
  map_err InputsError (Inputs.execute (inputs (body t)) (reference_inputs (body t)) (default [] (collateral (body t))) (env_parameters env) x).
(** The rules after those on votes: signers, signatures, scripts and the balance. *)
Definition check_witnesses (env : Environment) (t : TransactionRef) (x : RulesContext) : exec PhaseOneError RulesContext :=
  let x := require_signers (Tx.required_signers (body t)) x in
  x ← map_err VerificationKeyWitnessError (Signatures.execute (tx_id t) (bootstrap_witness (witnesses t)) (verification_key_witness (witnesses t)) x);
  x ← map_err ScriptsError (Scripts.execute (witnesses t) (validity_interval (body t)) (env_parameters env) (script_data_hash (body t)) x);
  check_balance x.
Definition when_valid (env : Environment) (t : TransactionRef) (x : RulesContext) : exec PhaseOneError (list TransactionInput * RulesContext) :=
  let pp := env_parameters env in
  let b := body t in
  _ ← preflight env t;
  '(r, x) ← resolve_inputs_of env t x;
  x ← map_err FeesError (Fees.when_valid (declared_fees env t r) x);
  x ← map_err TreasuryError (Treasury.when_valid (treasury_value b) (donation b) x);
  let x := Minting.execute (mint b) x in
  x ← map_err OutputsError (TxOutputs.when_valid pp (env_network env) (tx_id t) (outputs b) (collateral_return b) x);
  x ← map_err WithdrawalsError (Withdrawals.when_valid (withdrawals b) (env_network env) x);
  x ← map_err CertificatesError (Certificates.when_valid (env_network env) pp (env_era_history env) (consecutive_dormant_epochs env) (env_pointer env) (certificates b) x);
  x ← map_err ProposalsError (Proposals.when_valid (env_network env) pp (env_era_history env) (env_guardrail_script env) (tx_id t) (env_pointer env) (proposals b) x);
  x ← map_err VotingProceduresError (Voting.when_valid (protocol_version pp) (env_era_history env) (env_pointer env) (votes b) x);
  x ← check_witnesses env t x;
  Ok (Inputs.spent r, x).
Definition when_invalid (env : Environment) (t : TransactionRef) (x : RulesContext) : exec PhaseOneError (list TransactionInput * RulesContext) :=
  let pp := env_parameters env in
  let b := body t in
  _ ← preflight env t;
  '(r, x) ← resolve_inputs_of env t x;
  x ← map_err FeesError (Fees.when_invalid (declared_fees env t r) x);
  let x := Treasury.when_invalid (donation b) x in
  let x := Minting.execute (mint b) x in
  x ← map_err OutputsError (TxOutputs.when_invalid pp (env_network env) (tx_id t) (outputs b) (collateral_return b) x);
  x ← map_err WithdrawalsError (Withdrawals.when_invalid (withdrawals b) (env_network env) x);
  x ← Certificates.when_invalid pp (certificates b) x;
  x ← Proposals.when_invalid pp (proposals b) x;
  let x := Voting.when_invalid (votes b) x in
  x ← check_witnesses env t x;
  Ok (Inputs.collateral_inputs r, x).

(** ** A transaction *)
Context {Arg : Type} (from_cbor : Arg → option PlutusData) (fuel : nat).
Context (scripts_of : Environment → TransactionRef → gmap TransactionInput TransactionOutput → exec PreparationError (list (RedeemerKey * ScriptContext (Arg := Arg) * BorrowedScript))).

Definition evaluate_scripts (env : Environment) (t : TransactionRef) (x : RulesContext) : exec PhaseOneError (list UplcMachineError) :=
  map_err ScriptPreparation
    (PhaseTwo.execute from_cbor (λ i, utxo_lookup i (core x)) fuel (env_parameters env) (is_some (redeemer (witnesses t))) (inputs (body t)) (reference_inputs (body t)) (scripts_of env t)).
Definition consume_all (spent : list TransactionInput) (x : RulesContext) : RulesContext :=
  foldl (λ x i, with_core (ctx_consume i (core x)) x) x spent.
Definition execute_valid (env : Environment) (t : TransactionRef) (x : RulesContext) : exec TransactionInvalid RulesContext :=
  '(spent, x) ← map_err PhaseOneFailed (when_valid env t x);
  failures ← map_err PhaseOneFailed (evaluate_scripts env t x);
  match failures with [] => Ok (consume_all spent x) | _ => Err (PhaseTwoFailed (FailedUnexpectedly failures)) end.
Definition execute_invalid (env : Environment) (t : TransactionRef) (x : RulesContext) : exec TransactionInvalid RulesContext :=
  '(spent, x) ← map_err PhaseOneFailed (when_invalid env t x);
  failures ← map_err PhaseOneFailed (evaluate_scripts env t x);
  match failures with [] => Err (PhaseTwoFailed PassedUnexpectedly) | _ => Ok (consume_all spent x) end.
(** [validate_transaction] *)
Definition validate_transaction (env : Environment) (t : TransactionRef) (x : RulesContext) : exec TransactionInvalid RulesContext :=
  if is_expected_valid t then execute_valid env t x else execute_invalid env t x.

(** ** A block *)
Record Block := mkBlock {
  original_body_size : Z;
  original_header_size : Z;
  header : Headers.Header;
  transaction_bodies : list TransactionBody;
  (** With the size of each. *)
  transaction_witnesses : list (WitnessSet * Z);
  block_auxiliary_data : gmap Z AuxiliaryData;
  invalid_transactions : gset Z }.
Definition transactions (b : Block) : list (nat * TransactionRef) :=
  map (λ ibw, (ibw.1, mkTransactionRef ibw.2.1 ibw.2.2.1 ibw.2.2.2 (negb (bool_decide (Z.of_nat ibw.1 ∈ invalid_transactions b))) (block_auxiliary_data b !! Z.of_nat ibw.1)))
    (enumerate (zip (transaction_bodies b) (transaction_witnesses b))).
Inductive InvalidBlockDetails :=
| BlockSizeMismatch (supplied actual : Z)
| BlockTooManyExUnits (provided max : ExUnits)
| HeaderSizeTooBig (supplied max : Z)
| HeaderProtVerTooHigh (header_major max_major : Z)
| BlockRefScriptSizeTooBig (provided allowed : Z)
| TransactionFailed (transaction_id : list Z) (index : nat) (violation : TransactionInvalid).
Definition block_header_size_valid (size : Z) (pp : ProtocolParameters) : exec InvalidBlockDetails unit :=
  if max_block_header_size pp <? size then Err (HeaderSizeTooBig size (max_block_header_size pp)) else Ok tt.
(** Blocks are not checked for it. *)
Definition block_header_version_valid (b : Block) (pp : ProtocolParameters) : exec InvalidBlockDetails unit :=
  let header_major := pv_major (Headers.protocol_version (Headers.header_body (header b))) in
  let max_major := pv_major (protocol_version pp) + 1 in
  if max_major <? header_major then Err (HeaderProtVerTooHigh header_major max_major) else Ok tt.
Definition block_body_size_valid (b : Block) : exec InvalidBlockDetails unit :=
  let announced := Headers.block_body_size (Headers.header_body (header b)) in
  if negb (announced =? original_body_size b) then Err (BlockSizeMismatch announced (original_body_size b)) else Ok tt.
Definition block_ex_units_valid (b : Block) (pp : ProtocolParameters) : exec InvalidBlockDetails unit :=
  let units := total_ex_units (concat (map (λ wn, ex_units wn.1) (transaction_witnesses b))) in
  if (units_mem units <=? units_mem (max_block_ex_units pp)) && (units_steps units <=? units_steps (max_block_ex_units pp)) then Ok tt
  else Err (BlockTooManyExUnits units (max_block_ex_units pp)).
Definition block_ref_scripts_size_valid (inputs : list TransactionInput) (pp : ProtocolParameters) (x : RulesContext) : exec InvalidBlockDetails unit :=
  total ← for_in inputs (λ total i, match utxo_lookup i (core x) ≫= script with Some s => u64_add total (script_len s) | None => Ok total end) 0;
  if max_ref_script_size_per_block pp <? total then Err (BlockRefScriptSizeTooBig total (max_ref_script_size_per_block pp)) else Ok tt.
Definition block_environment (network : Network) (pp : ProtocolParameters) (h : EraHistory) (dormant : Z) (guardrail : option (list Z)) (b : Block) (i : nat) : Environment :=
  mkEnvironment network pp h dormant guardrail (mkTransactionPointer (Headers.slot (header b)) (Z.of_nat i)).
Definition execute_transaction (env : nat → Environment) (x : RulesContext) (it : nat * TransactionRef) : exec InvalidBlockDetails RulesContext :=
  map_err (TransactionFailed (tx_id it.2) it.1) (validate_transaction (env it.1) it.2 x).
Definition execute_block (network : Network) (pp : ProtocolParameters) (h : EraHistory) (dormant : Z) (guardrail : option (list Z)) (b : Block) (x : RulesContext)
  : exec InvalidBlockDetails RulesContext :=
  _ ← block_header_size_valid (original_header_size b) pp;
  _ ← block_body_size_valid b;
  _ ← block_ex_units_valid b pp;
  _ ← block_ref_scripts_size_valid (concat (map (λ t, default [] (reference_inputs t)) (transaction_bodies b))) pp x;
  for_in (transactions b) (execute_transaction (block_environment network pp h dormant guardrail b)) x.
End Rules.

(** ** What a block needs *)
Definition PreparationContext_new : PreparationContext := mkPreparation ∅ ∅ ∅ ∅ [] ∅ ∅ ∅.
Definition require_input (i : TransactionInput) (c : PreparationContext) : PreparationContext :=
  mkPreparation ({[i]} ∪ need_utxo c) (need_pools c) (need_accounts c) (need_dreps c) (need_drep_delegations c) (need_committee c) (need_committee_voters c) (need_proposals c).
Definition require_pool (p : PoolId) (c : PreparationContext) : PreparationContext :=
  mkPreparation (need_utxo c) ({[p]} ∪ need_pools c) (need_accounts c) (need_dreps c) (need_drep_delegations c) (need_committee c) (need_committee_voters c) (need_proposals c).
Definition require_account (k : Credential) (c : PreparationContext) : PreparationContext :=
  mkPreparation (need_utxo c) (need_pools c) ({[k]} ∪ need_accounts c) (need_dreps c) (need_drep_delegations c) (need_committee c) (need_committee_voters c) (need_proposals c).
Definition require_drep (k : Credential) (c : PreparationContext) : PreparationContext :=
  mkPreparation (need_utxo c) (need_pools c) (need_accounts c) ({[k]} ∪ need_dreps c) (need_drep_delegations c) (need_committee c) (need_committee_voters c) (need_proposals c).
Definition require_drep_delegation (d : DRep) (c : PreparationContext) : PreparationContext :=
  mkPreparation (need_utxo c) (need_pools c) (need_accounts c) (need_dreps c) (need_drep_delegations c ++ [d]) (need_committee c) (need_committee_voters c) (need_proposals c).
Definition require_committee_member (k : Credential) (c : PreparationContext) : PreparationContext :=
  mkPreparation (need_utxo c) (need_pools c) (need_accounts c) (need_dreps c) (need_drep_delegations c) ({[k]} ∪ need_committee c) (need_committee_voters c) (need_proposals c).
Definition require_committee_voter (k : Credential) (c : PreparationContext) : PreparationContext :=
  mkPreparation (need_utxo c) (need_pools c) (need_accounts c) (need_dreps c) (need_drep_delegations c) (need_committee c) ({[k]} ∪ need_committee_voters c) (need_proposals c).
Definition require_proposal (i : ProposalId) (c : PreparationContext) : PreparationContext :=
  mkPreparation (need_utxo c) (need_pools c) (need_accounts c) (need_dreps c) (need_drep_delegations c) (need_committee c) (need_committee_voters c) ({[i]} ∪ need_proposals c).
Definition prepare_inputs (t : TransactionBody) (c : PreparationContext) : PreparationContext :=
  foldl (λ c i, require_input i c) c (inputs t ++ default [] (reference_inputs t) ++ default [] (collateral t)).
Definition prepare_withdrawals (t : TransactionBody) (c : PreparationContext) : PreparationContext :=
  foldl (λ c aw, require_account (account_credential aw.1) c) c (default [] (withdrawals t)).
Definition prepare_vote (c : PreparationContext) (vb : Voter * list (ProposalId * Ballot)) : PreparationContext :=
  let c := foldl (λ c ib, require_proposal ib.1 c) c vb.2 in
  match vb.1 with
  | ConstitutionalCommitteeKey _ | ConstitutionalCommitteeScript _ => require_committee_voter (owner vb.1) c
  | DRepKey _ | DRepScript _ => require_drep (owner vb.1) c
  | StakePoolKey pool => require_pool pool c
  end.
Definition prepare_votes (t : TransactionBody) (c : PreparationContext) : PreparationContext := foldl prepare_vote c (default [] (votes t)).
Definition prepare_governance_action (c : PreparationContext) (p : Proposal) : PreparationContext :=
  let c := require_account (account_credential (proposal_reward_account p)) c in
  match gov_action p with
  | TreasuryWithdrawals withdrawals _ => foldl (λ c aw, require_account (account_credential aw.1) c) c withdrawals
  | ParameterChange parent _ _ | HardForkInitiation parent _ | UpdateCommittee parent _ _ _ | NoConfidenceMotion parent | NewConstitution parent _ =>
      match parent with Some i => require_proposal i c | None => c end
  | Information => c
  end.
Definition prepare_certificate (c : PreparationContext) (cert : Certificate) : PreparationContext :=
  match cert with
  | StakeDelegation k pool | StakeRegDeleg k pool _ => require_pool pool (require_account k c)
  | PoolRegistration params => require_pool (Summary.pool_id params) c
  | PoolRetirement pool _ => require_pool pool c
  | StakeVoteDeleg k pool drep | StakeVoteRegDeleg k pool drep _ => require_drep_delegation drep (require_pool pool (require_account k c))
  | VoteRegDeleg k drep _ | VoteDeleg k drep => require_drep_delegation drep (require_account k c)
  | AuthCommitteeHot cold _ | ResignCommitteeCold cold _ => require_committee_member cold c
  | RegDRepCert drep _ _ | UnRegDRepCert drep _ | UpdateDRepCert drep _ => require_drep drep c
  | StakeRegistration k | Reg k _ | UnReg k _ | StakeDeregistration k => require_account k c
  end.
Definition prepare_transaction (c : PreparationContext) (t : TransactionBody) : PreparationContext :=
  let c := prepare_inputs t c in
  let c := prepare_withdrawals t c in
  let c := foldl prepare_certificate c (default [] (certificates t)) in
  let c := prepare_votes t c in
  foldl prepare_governance_action c (default [] (proposals t)).
Definition prepare_block (b : Block) : PreparationContext := foldl prepare_transaction PreparationContext_new (transaction_bodies b).

(** ** The parts of the ledger state that are rules *)
Section Parts.
Context `{Crypto} `{DataCodec} `{Codecs} `{Headers.Hashing}.
Context {Arg : Type} (from_cbor : Arg → option PlutusData) (fuel : nat).
Context (scripts_of : Environment → TransactionRef → gmap TransactionInput TransactionOutput → exec PreparationError (list (RedeemerKey * ScriptContext (Arg := Arg) * BorrowedScript))).
Context (network : Network) (h : EraHistory).
Context (tasks : bool → Z → ProtocolParameters → Columns → Columns → RewardsComputation).
Context (ratification : Columns → StakeDistribution → ProtocolParameters → Z → exec Overlay.StateError RatificationContext).

Definition validate_block (pp : ProtocolParameters) (dormant : Z) (guardrail : option (list Z)) (b : Block) (x : ValidationContext) : exec StateFailure ValidationContext :=
  x ← map_err (λ _, InvalidBlock (Headers.header_point (header b))) (execute_block from_cbor fuel scripts_of network pp h dormant guardrail b (rules_of x));
  Ok (core x).
Definition rules_parts : LedgerParts Block := {|
  point_of b := Headers.header_point (header b);
  issuer_of b := Headers.pool_id (header b);
  LedgerState.prepare_block := prepare_block;
  LedgerState.validate_block := validate_block;
  background_tasks := tasks;
  ratification_context := ratification |}.
End Parts.
