(* ===== verification/ValueProps.v ===== *)
(** * Accounting for value

    The lovelace and the native assets that the context of a block holds, and what each of its operations
    moves.  An asset is [None] for lovelace, or a policy and a name. *)

From S2P Require Import Prelude BTreeMap SortedAssoc SortedPairs UplcSyntax ProtocolParameters Governance EraHistory Summary ProposalsForest PoolsUpdates StakeSummary Ratification PhaseTwo EpochTransition Fragments FragmentsProps Volatile VolatileReads BlockStore BlockContext LayeredView ContextProps Transaction RulesContext.
Import Stake(AccountRow, mkAccountRow, arow_pool, arow_deposit, arow_drep, arow_rewards, ProposalRow, row_proposal, proposal_deposit).
Import Tx Rules.
#[local] Open Scope Z_scope.

(** ** Sums over finite sets *)
Section Sums.
Context {K : Type} `{Countable K}.
Implicit Types (D : gset K) (g : K → Z).
Definition sum_over D g : Z := foldr (λ k n, g k + n) 0 (elements D).
Lemma sum_perm g l1 l2 : l1 ≡ₚ l2 → foldr (λ k n, g k + n) 0 l1 = foldr (λ k n, g k + n) 0 l2.
Proof. induction 1; cbn; lia. Qed.
Lemma sum_over_empty g : sum_over ∅ g = 0.
Proof. unfold sum_over. by rewrite elements_empty. Qed.
Lemma sum_over_insert D g k : k ∉ D → sum_over ({[k]} ∪ D) g = g k + sum_over D g.
Proof. intros Hk. unfold sum_over. by rewrite (sum_perm g _ _ (elements_union_singleton _ _ Hk)). Qed.
Lemma sum_over_ext D g g' : (∀ k, k ∈ D → g' k = g k) → sum_over D g' = sum_over D g.
Proof.
  intros Hg. unfold sum_over. assert (∀ k, k ∈ elements D → g' k = g k) as Hl by (intros k Hk; apply Hg; set_solver).
  induction (elements D) as [|k l IH]; [done|]. cbn. rewrite Hl, IH; [done|set_solver|set_solver].
Qed.
Lemma sum_over_extend D U g : D ⊆ U → (∀ k, k ∉ D → g k = 0) → sum_over U g = sum_over D g.
Proof.
  intros HD Hg. rewrite (union_difference_L D U HD). clear HD. assert (D ## U ∖ D) as Hd by set_solver.
  revert Hd. induction (U ∖ D) as [|k X Hk IH] using set_ind_L; intros Hd; [by rewrite union_empty_r_L|].
  rewrite (assoc_L (∪)), (comm_L (∪) D), <- (assoc_L (∪)), sum_over_insert by set_solver. rewrite IH, Hg by set_solver. lia.
Qed.
(** Two functions that agree but on one element. *)
Lemma sum_over_update D D' g g' k : (∀ j, j ∉ D → g j = 0) → (∀ j, j ∉ D' → g' j = 0) → (∀ j, j ≠ k → g' j = g j) →
  sum_over D' g' = sum_over D g + (g' k - g k).
Proof.
  intros HD HD' Hg. set (U := (D ∪ D') ∖ {[k]}).
  rewrite <- (sum_over_extend D ({[k]} ∪ U) g), <- (sum_over_extend D' ({[k]} ∪ U) g') by (try done; intros j Hj; unfold U; destruct (decide (j = k)); set_solver).
  rewrite !sum_over_insert by (unfold U; set_solver). rewrite (sum_over_ext U g g'); [lia|]. intros j Hj. apply Hg. unfold U in Hj. set_solver.
Qed.
Lemma sum_over_same D D' g g' : (∀ j, j ∉ D → g j = 0) → (∀ j, j ∉ D' → g' j = 0) → (∀ j, g' j = g j) → sum_over D' g' = sum_over D g.
Proof.
  intros HD HD' Hg. rewrite <- (sum_over_extend D (D ∪ D') g), <- (sum_over_extend D' (D ∪ D') g') by set_solver. by apply sum_over_ext.
Qed.
End Sums.

(** ** Assets *)
Abbreviation Asset := (option (Policy * AssetName)).
Definition in_assets (k : Policy * AssetName) (m : MultiassetOf) : Z :=
  foldr (λ pa n, foldr (λ nq n, (if decide ((pa.1, nq.1) = k) then nq.2 else 0) + n) 0 pa.2 + n) 0 m.
Definition amount (a : Asset) (v : Value) : Z :=
  match a, v with
  | None, _ => lovelace v
  | Some _, Coin _ => 0
  | Some k, Multiasset _ m => in_assets k m
  end.
Definition quantity (a : Asset) (b : Balance) : Z := match a with None => coin b | Some k => default 0 (multiasset b !! k) end.
Definition minted (a : Asset) (m : option Mint) : Z := match a with None => 0 | Some k => from_option (in_assets k) 0 m end.
Definition no_zero (b : Balance) : Prop := ∀ k, multiasset b !! k ≠ Some 0.

Lemma quantity_delta a b key delta : quantity a (apply_delta b key delta) = quantity a b + (if decide (Some key = a) then delta else 0).
Proof.
  unfold apply_delta. case_bool; [subst; destruct (decide _); lia|]. destruct a as [k|]; [|rewrite decide_False by done; cbn; lia]. cbn.
  destruct (decide (key = k)) as [->|Hne]; [rewrite decide_True by done|rewrite decide_False by congruence].
  - destruct (multiasset b !! k) as [q|] eqn:Hk; cbn; [|by rewrite lookup_insert_eq].
    case_bool; [rewrite lookup_delete_eq|rewrite lookup_insert_eq]; cbn; lia.
  - destruct (multiasset b !! key) as [q|] eqn:Hk; [case_bool|]; rewrite ?lookup_delete_ne, ?lookup_insert_ne by done; lia.
Qed.
Lemma no_zero_delta b key delta : no_zero b → no_zero (apply_delta b key delta).
Proof.
  intros Hb k. unfold apply_delta. case_bool; [apply Hb|]. cbn. destruct (multiasset b !! key) as [q|] eqn:Hk; [case_bool|].
  - destruct (decide (key = k)) as [->|Hne]; [by rewrite lookup_delete_eq|by rewrite lookup_delete_ne].
  - destruct (decide (key = k)) as [->|Hne]; [rewrite lookup_insert_eq; congruence|by rewrite lookup_insert_ne].
  - destruct (decide (key = k)) as [->|Hne]; [rewrite lookup_insert_eq; congruence|by rewrite lookup_insert_ne].
Qed.
(** Entries, each added with a sign. *)
Definition apply_assets (sign : Z) (b : Balance) (m : MultiassetOf) : Balance :=
  foldl (λ b pa, foldl (λ b nq, apply_delta b (pa.1, nq.1) (sign * nq.2)) b pa.2) b m.
Lemma quantity_names a sign p l : ∀ b, quantity a (foldl (λ b nq, apply_delta b (p, nq.1) (sign * nq.2)) b l) =
  quantity a b + sign * from_option (λ k, foldr (λ nq n, (if decide ((p, nq.1) = k) then nq.2 else 0) + n) 0 l) 0 a.
Proof.
  induction l as [|[n q] l IH]; intros b; [destruct a; cbn; lia|]. cbn [foldl foldr]. rewrite IH, quantity_delta. destruct a as [k|]; cbn [from_option fst snd].
  - destruct (decide ((p, n) = k)) as [->|Hne]; [rewrite decide_True by done; lia|rewrite decide_False by congruence; lia].
  - rewrite decide_False by done. lia.
Qed.
Lemma quantity_apply a sign m : ∀ b, quantity a (apply_assets sign b m) = quantity a b + sign * from_option (λ k, in_assets k m) 0 a.
Proof.
  induction m as [|[p l] m IH]; intros b; [destruct a; cbn; lia|]. unfold apply_assets in *. cbn [foldl foldr]. rewrite IH, quantity_names.
  destruct a as [k|]; cbn [from_option]; [|lia]. cbn [in_assets foldr fst snd]. unfold in_assets. lia.
Qed.
Lemma no_zero_apply sign m : ∀ b, no_zero b → no_zero (apply_assets sign b m).
Proof.
  induction m as [|[p l] m IH]; intros b Hb; [done|]. apply IH. cbn. clear -Hb. revert b Hb. induction l as [|nq l IH]; intros b Hb; [done|]. by apply IH, no_zero_delta.
Qed.
Lemma add_value_apply b v : add_value b v = from_option (apply_assets 1 (add_coin b (lovelace v))) (add_coin b (lovelace v)) (split_value v).2.
Proof.
  unfold add_value, apply_assets. destruct v as [c|c m]; cbn; [done|]. generalize (add_coin b c). induction m as [|[p l] m IH]; intros b'; cbn; [done|].
  etransitivity; [apply IH|]. f_equal. clear. revert b'. induction l as [|[n q] l IHl]; intros b'; cbn; [done|]. etransitivity; [apply IHl|]. do 2 f_equal. lia.
Qed.
Lemma sub_value_apply b v : sub_value b v = from_option (apply_assets (-1) (sub_coin b (lovelace v))) (sub_coin b (lovelace v)) (split_value v).2.
Proof.
  unfold sub_value, apply_assets. destruct v as [c|c m]; cbn; [done|]. generalize (sub_coin b c). induction m as [|[p l] m IH]; intros b'; cbn; [done|].
  apply IH.
Qed.
Lemma add_minted_apply b m : add_minted b m = apply_assets 1 b m.
Proof.
  unfold add_minted, apply_assets. revert b. induction m as [|[p l] m IH]; intros b'; cbn; [done|].
  etransitivity; [apply IH|]. f_equal. clear. revert b'. induction l as [|[n q] l IHl]; intros b'; cbn; [done|]. etransitivity; [apply IHl|]. do 2 f_equal. lia.
Qed.
Lemma quantity_add a b v : quantity a (add_value b v) = quantity a b + amount a v.
Proof. rewrite add_value_apply. destruct v as [c|c m]; cbn [split_value snd from_option]; rewrite ?quantity_apply; destruct a; cbn; lia. Qed.
Lemma quantity_sub a b v : quantity a (sub_value b v) = quantity a b - amount a v.
Proof. rewrite sub_value_apply. destruct v as [c|c m]; cbn [split_value snd from_option]; rewrite ?quantity_apply; destruct a; cbn; lia. Qed.
Lemma quantity_minted a b m : quantity a (add_minted b m) = quantity a b + minted a (Some m).
Proof. rewrite add_minted_apply, quantity_apply. destruct a; cbn; lia. Qed.
Lemma no_zero_add b v : no_zero b → no_zero (add_value b v).
Proof. intros Hb. rewrite add_value_apply. destruct v; cbn; [done|]. by apply no_zero_apply. Qed.
Lemma no_zero_sub b v : no_zero b → no_zero (sub_value b v).
Proof. intros Hb. rewrite sub_value_apply. destruct v; cbn; [done|]. by apply no_zero_apply. Qed.
Lemma no_zero_minted b m : no_zero b → no_zero (add_minted b m).
Proof. intros Hb. rewrite add_minted_apply. by apply no_zero_apply. Qed.
Lemma no_assets_quantity k b : has_assets b = false → quantity (Some k) b = 0.
Proof. unfold has_assets. intros Hb%negb_false_iff%bool_decide_eq_true. cbn. by rewrite Hb. Qed.
(** A balance is zero when nothing of any asset is left over. *)
Lemma is_zero_spec b : no_zero b → is_zero b = true ↔ ∀ a, quantity a b = 0.
Proof.
  intros Hb. unfold is_zero. rewrite andb_true_iff, Z.eqb_eq, negb_true_iff. split.
  - intros [Hc Ha] [k|]; [by apply no_assets_quantity|done].
  - intros Hq. split; [apply (Hq None)|]. unfold has_assets. apply negb_false_iff, bool_decide_eq_true, map_eq. intros k. rewrite lookup_empty.
    specialize (Hq (Some k)). cbn in Hq. specialize (Hb k). destruct (multiasset b !! k); [|done]. cbn in Hq. congruence.
Qed.

(** ** What a context holds *)
Section Held.
Implicit Types (x y : ValidationContext) (k : Credential).
Definition output_amount (a : Asset) x (i : TransactionInput) : Z := from_option (λ o, amount a (Tx.value o)) 0 (utxo_lookup i x).
Definition account_amount x k : Z := from_option (λ r, arow_deposit r + arow_rewards r) 0 (account_lookup k x).
Definition drep_amount x k : Z := from_option reg_deposit 0 (drep_lookup k x).
Definition pool_amount x (p : PoolId) : Z :=
  if decide (p ∈ ctx_pools x) then 0 else from_option (λ r, (first_registration r).2) 0 (reg_registered (pools (ctx_state x)) !! p).
Definition proposal_amount x (i : ProposalId) : Z := from_option (λ p, proposal_deposit (row_proposal p)) 0 (Fragments.proposals (ctx_state x) !! i).

Definition in_outputs (a : Asset) x : Z := sum_over (dom (ctx_utxo x) ∪ dom (produced (utxo (ctx_state x)))) (output_amount a x).
Definition in_accounts x : Z := sum_over (dom (ctx_accounts x) ∪ dom (registered (accounts (ctx_state x)))) (account_amount x).
Definition in_dreps x : Z := sum_over (dom (ctx_dreps x) ∪ dom (registered (dreps (ctx_state x)))) (drep_amount x).
Definition in_new_pools x : Z := sum_over (dom (reg_registered (pools (ctx_state x)))) (pool_amount x).
Definition in_proposals x : Z := sum_over (dom (Fragments.proposals (ctx_state x))) (proposal_amount x).
(** Lovelace that is not in outputs. *)
Definition in_ledger x : Z := in_accounts x + in_dreps x + in_new_pools x + in_proposals x + fees (ctx_state x) + donations (ctx_state x).
Definition held (a : Asset) x : Z := in_outputs a x + match a with None => in_ledger x | Some _ => 0 end.

Lemma output_outside a x i : i ∉ dom (ctx_utxo x) ∪ dom (produced (utxo (ctx_state x))) → output_amount a x i = 0.
Proof.
  intros [Hu%not_elem_of_dom Hp%not_elem_of_dom]%not_elem_of_union. unfold output_amount, utxo_lookup. rewrite Hu.
  assert (produced (utxo (ctx_state x)) !! i = None) as -> by done. done.
Qed.
(** The amount of an account, from its row, the changes of the block, and whether it is gone or withdrawn from. *)
Definition amount_of (base : option AccountRow) (b : option (Bind Delegation DRepDelegation Z)) (gone withdrawn : bool) : Z :=
  if gone then 0
  else match b, base with
       | Some (mkBind _ _ (Some deposit)), _ => deposit
       | _, Some row => arow_deposit row + if withdrawn then 0 else arow_rewards row
       | _, None => 0
       end.
Definition layered_account {P Q : Prop} (base : option AccountRow) (b : option (Bind Delegation DRepDelegation Z)) (gone : {P} + {¬ P}) (withdrawn : {Q} + {¬ Q}) : option AccountRow :=
  if gone then None
  else
    let account := match b with
                   | Some b =>
                       match Fragments.value b with
                       | Some deposit => Some (mkAccountRow (set_or_reset (left b) None) deposit (set_or_reset (right b) None) 0)
                       | None => (λ base, mkAccountRow (set_or_reset (left b) (arow_pool base)) (arow_deposit base)
                                            (set_or_reset (right b) (arow_drep base)) (arow_rewards base)) <$> base
                       end
                   | None => base
                   end in
    if withdrawn then Store.add_rewards 0 <$> account else account.
Lemma account_lookup_of x k : account_lookup k x =
  layered_account (ctx_accounts x !! k) (registered (accounts (ctx_state x)) !! k) (decide (k ∈ unregistered (accounts (ctx_state x)))) (decide (k ∈ Fragments.withdrawals (ctx_state x))).
Proof. reflexivity. Qed.
Lemma account_amount_of x k : account_amount x k =
  amount_of (ctx_accounts x !! k) (registered (accounts (ctx_state x)) !! k) (bool_decide (k ∈ unregistered (accounts (ctx_state x)))) (bool_decide (k ∈ Fragments.withdrawals (ctx_state x))).
Proof.
  unfold account_amount. rewrite account_lookup_of. destruct (decide (k ∈ unregistered (accounts (ctx_state x)))) as [Hu|Hu]; [by rewrite bool_decide_eq_true_2|rewrite (bool_decide_eq_false_2 (k ∈ unregistered _)) by done].
  destruct (registered (accounts (ctx_state x)) !! k) as [[l r [d|]]|], (ctx_accounts x !! k) as [row|];
    (destruct (decide (k ∈ Fragments.withdrawals (ctx_state x))) as [Hw|Hw]; [rewrite ?bool_decide_eq_true_2 by done|rewrite ?bool_decide_eq_false_2 by done]); cbn; lia.
Qed.
Lemma account_outside x k : k ∉ dom (ctx_accounts x) ∪ dom (registered (accounts (ctx_state x))) → account_amount x k = 0.
Proof.
  intros [Hb%not_elem_of_dom Hr%not_elem_of_dom]%not_elem_of_union. rewrite account_amount_of, Hb, Hr. unfold amount_of. by destruct (bool_decide _).
Qed.
Lemma drep_outside x k : k ∉ dom (ctx_dreps x) ∪ dom (registered (dreps (ctx_state x))) → drep_amount x k = 0.
Proof.
  intros [Hb%not_elem_of_dom Hr%not_elem_of_dom]%not_elem_of_union. unfold drep_amount, drep_lookup.
  assert (registered (dreps (ctx_state x)) !! k = None) as -> by done. rewrite Hb. by destruct (decide _).
Qed.
Lemma pool_outside x p : p ∉ dom (reg_registered (pools (ctx_state x))) → pool_amount x p = 0.
Proof.
  intros Hp%not_elem_of_dom. unfold pool_amount. assert (reg_registered (pools (ctx_state x)) !! p = None) as -> by done. by destruct (decide _).
Qed.
Lemma proposal_outside x i : i ∉ dom (Fragments.proposals (ctx_state x)) → proposal_amount x i = 0.
Proof. intros Hp%not_elem_of_dom. unfold proposal_amount. by rewrite Hp. Qed.

Lemma moved_accounts x y k : (∀ j, j ≠ k → account_amount y j = account_amount x j) → in_accounts y = in_accounts x + (account_amount y k - account_amount x k).
Proof. intros Hj. apply sum_over_update; [apply account_outside|apply account_outside|done]. Qed.
Lemma moved_dreps x y k : (∀ j, j ≠ k → drep_amount y j = drep_amount x j) → in_dreps y = in_dreps x + (drep_amount y k - drep_amount x k).
Proof. intros Hj. apply sum_over_update; [apply drep_outside|apply drep_outside|done]. Qed.
Lemma moved_outputs a x y i : (∀ j, j ≠ i → output_amount a y j = output_amount a x j) → in_outputs a y = in_outputs a x + (output_amount a y i - output_amount a x i).
Proof. intros Hj. apply sum_over_update; [apply output_outside|apply output_outside|done]. Qed.

(** ** What the operations move *)

(** An operation leaves outputs and proposals alone, and moves lovelace into what the ledger keeps. *)
Record op_effect (d : Z) x y : Prop := {
  oe_steps : rtc ctx_step x y;
  oe_utxo : ctx_utxo y = ctx_utxo x ∧ utxo (ctx_state y) = utxo (ctx_state x);
  oe_proposals : Fragments.proposals (ctx_state y) = Fragments.proposals (ctx_state x);
  oe_ledger : in_ledger y = in_ledger x + d }.
Lemma op_effect_refl x : op_effect 0 x x.
Proof. constructor; [done|done|done|lia]. Qed.
Lemma op_effect_trans d1 d2 x y z : op_effect d1 x y → op_effect d2 y z → op_effect (d1 + d2) x z.
Proof.
  intros [S1 [U1 V1] P1 L1] [S2 [U2 V2] P2 L2]. constructor; [by etransitivity|split; congruence|congruence|lia].
Qed.
Lemma held_outside a x y : ctx_utxo y = ctx_utxo x ∧ utxo (ctx_state y) = utxo (ctx_state x) → in_outputs a y = in_outputs a x.
Proof.
  intros [Hu Hv]. unfold in_outputs. rewrite Hu, Hv. apply sum_over_ext. intros i _. unfold output_amount, utxo_lookup. by rewrite Hu, Hv.
Qed.

(** The parts of the ledger that an operation leaves alone. *)
Ltac same_parts x y :=
  unfold in_ledger; try change (in_accounts y) with (in_accounts x); try change (in_dreps y) with (in_dreps x);
  try change (in_new_pools y) with (in_new_pools x); try change (in_proposals y) with (in_proposals x);
  try change (fees (ctx_state y)) with (fees (ctx_state x)); try change (donations (ctx_state y)) with (donations (ctx_state x)).
Lemma add_fees_effect {E : Type} n x y : 0 <= n → add_fees (E := E) n x = Ok y → op_effect n x y.
Proof.
  unfold add_fees. intros Hn Hy. exec_inv. apply u64_add_Ok in Hr as [-> Hb]. subst y. constructor; [|done|done|].
  - apply rtc_once, (step_fees n); [done|]. unfold add_fees, u64_add. by rewrite (proj2 (Z.leb_le _ _)) by lia.
  - match goal with |- in_ledger ?y = _ => same_parts x y end. cbn. lia.
Qed.
Lemma add_donation_effect {E : Type} n x y : 0 <= n → add_donation (E := E) n x = Ok y → op_effect n x y.
Proof.
  unfold add_donation. intros Hn Hy. exec_inv. apply u64_add_Ok in Hr as [-> Hb]. subst y. constructor; [|done|done|].
  - apply rtc_once, (step_donation n); [done|]. unfold add_donation, u64_add. by rewrite (proj2 (Z.leb_le _ _)) by lia.
  - match goal with |- in_ledger ?y = _ => same_parts x y end. cbn. lia.
Qed.

(** *** Pools *)
Lemma pool_register_effect params pointer deposit x :
  op_effect (if pool_exists (Summary.pool_id params) x then 0 else deposit) x (pool_register params pointer deposit x).
Proof.
  constructor; [apply rtc_once, step_pool_register|done|done|].
  match goal with |- in_ledger ?y = _ => same_parts x y; assert (in_new_pools y = in_new_pools x + (pool_amount y (Summary.pool_id params) - pool_amount x (Summary.pool_id params))) as -> end.
  { apply sum_over_update; [apply pool_outside|apply pool_outside|]. intros j Hj. unfold pool_amount. cbn. by rewrite lookup_insert_ne. }
  assert (pool_amount (pool_register params pointer deposit x) (Summary.pool_id params) - pool_amount x (Summary.pool_id params) = if pool_exists (Summary.pool_id params) x then 0 else deposit) as ->; [|lia].
  unfold pool_amount, pool_exists. cbn. destruct (decide (Summary.pool_id params ∈ ctx_pools x)) as [Hp|Hp]; [rewrite bool_decide_eq_true_2 by done; cbn; lia|rewrite bool_decide_eq_false_2 by done].
  rewrite lookup_insert_eq. destruct (reg_registered (pools (ctx_state x)) !! Summary.pool_id params); cbn; lia.
Qed.
Lemma pool_retire_effect p e x y : pool_retire p e x = Ok y → op_effect 0 x y.
Proof.
  intros Hy. assert (ctx_step x y) as Hs by by eapply step_pool_retire. unfold pool_retire in Hy. destruct (negb _); [done|]. injection Hy as <-.
  constructor; [by apply rtc_once|done|done|]. match goal with |- in_ledger ?y = _ => same_parts x y end. lia.
Qed.

(** *** Accounts *)
Lemma accounts_effect x d w k : rtc ctx_step x (with_state (set_fragment_accounts d w) x) →
  (∀ j, j ≠ k → registered d !! j = registered (accounts (ctx_state x)) !! j ∧ (j ∈ unregistered d ↔ j ∈ unregistered (accounts (ctx_state x))) ∧ (j ∈ w ↔ j ∈ Fragments.withdrawals (ctx_state x))) →
  op_effect (account_amount (with_state (set_fragment_accounts d w) x) k - account_amount x k) x (with_state (set_fragment_accounts d w) x).
Proof.
  intros Hs Hj. constructor; [done|done|done|]. match goal with |- in_ledger ?y = _ => same_parts x y; rewrite (moved_accounts x y k) end; [lia|].
  intros j (Hr & Hu & Hw)%Hj. rewrite !account_amount_of. cbn. rewrite Hr. by rewrite (bool_decide_ext _ _ Hu), (bool_decide_ext _ _ Hw).
Qed.
Lemma effect_eq d d' x y : d = d' → op_effect d x y → op_effect d' x y.
Proof. by intros ->. Qed.
Lemma account_register_effect k deposit x y : account_register k (mkAccountRow None deposit None 0) x = Ok y → op_effect deposit x y.
Proof.
  intros Hy. assert (ctx_step x y) as Hs by by eapply step_register. unfold account_register in Hy. destruct (account_lookup k x) as [row|] eqn:Hl; [done|].
  apply bind_Ok in Hy as (d & Hd & [= <-]). unfold with_accounts in *. cbn [arow_deposit arow_pool arow_drep] in *.
  revert Hd Hs. unfold register. destruct (registered _ !! k) eqn:Hk; [done|]. intros [= <-] Hs.
  eapply effect_eq, (accounts_effect _ _ _ k); [|by apply rtc_once|].
  - unfold account_amount at 2. rewrite Hl. rewrite account_amount_of. cbn. rewrite lookup_insert_eq, bool_decide_eq_false_2 by set_solver. cbn. lia.
  - intros j Hj. cbn. rewrite lookup_insert_ne by done. split; [done|]. set_solver.
Qed.
Lemma account_unregister_effect k row x y : account_unregister k x = Ok (row, y) → op_effect (- (arow_deposit row + arow_rewards row)) x y ∧ account_lookup k x = Some row.
Proof.
  intros Hy. assert (ctx_step x y) as Hs by by eapply step_unregister. unfold account_unregister in Hy. destruct (account_lookup k x) as [row'|] eqn:Hl; [|done].
  injection Hy as -> <-. split; [|done]. eapply effect_eq, (accounts_effect _ _ _ k); [|by apply rtc_once|].
  - unfold account_amount at 2. rewrite Hl. rewrite account_amount_of. cbn. rewrite bool_decide_eq_true_2 by set_solver. cbn. lia.
  - intros j Hj. cbn. rewrite lookup_delete_ne by done. split; [done|]. set_solver.
Qed.
Lemma withdraw_effect k row x : account_lookup k x = Some row → op_effect (- arow_rewards row) x (withdraw_from k x).
Proof.
  intros Hl. assert (account_amount (withdraw_from k x) k = arow_deposit row) as Ha.
  { assert (account_lookup k (withdraw_from k x) = Some (Store.add_rewards 0 row)) as Hl'; [|unfold account_amount; rewrite Hl'; cbn; lia].
    rewrite account_lookup_of in *. cbn. unfold layered_account in *. destruct (decide (k ∈ unregistered _)); [done|]. cbv zeta in *.
    rewrite (decide_True (P := k ∈ {[k]} ∪ _)) by set_solver. revert Hl. destruct (decide (k ∈ Fragments.withdrawals _)); [|by intros ->].
    match goal with |- context [Store.add_rewards 0 <$> ?o] => by destruct o; intros [= <-] end. }
  assert (withdraw_from k x = with_state (set_fragment_accounts (accounts (ctx_state x)) ({[k]} ∪ Fragments.withdrawals (ctx_state x))) x) as Hw by done.
  rewrite Hw in *. eapply effect_eq, (accounts_effect _ _ _ k); [|rewrite <- Hw; apply rtc_once, step_withdraw|].
  - rewrite Ha. unfold account_amount. rewrite Hl. cbn. lia.
  - intros j Hj. split; [done|]. set_solver.
Qed.
Lemma delegation_effect k x d : rtc ctx_step x (with_accounts d x) →
  (k ∉ unregistered (accounts (ctx_state x))) ∧ unregistered d = unregistered (accounts (ctx_state x)) ∧
  (∃ b, registered d = <[k := b]> (registered (accounts (ctx_state x))) ∧ ∀ b0, registered (accounts (ctx_state x)) !! k = Some b0 → Fragments.value b = Fragments.value b0) →
  (registered (accounts (ctx_state x)) !! k = None → ∃ b, registered d !! k = Some b ∧ Fragments.value b = None) → op_effect 0 x (with_accounts d x).
Proof.
  intros Hs (Hu & Hud & b & Hb & Hv) Hnew. unfold with_accounts in *. eapply effect_eq, (accounts_effect _ _ _ k); [|done|].
  - rewrite !account_amount_of. cbn. rewrite Hud. rewrite (bool_decide_eq_false_2 _ Hu). unfold amount_of. rewrite Hb, lookup_insert_eq in *.
    destruct (registered (accounts (ctx_state x)) !! k) as [b0|] eqn:Hk.
    + specialize (Hv b0 eq_refl). destruct b as [l r v], b0 as [l0 r0 v0]. cbn in Hv. subst v0. destruct v, (ctx_accounts x !! k); lia.
    + destruct (Hnew eq_refl) as (b' & [= <-] & Hv'). destruct b as [l r v]. cbn in Hv'. subst v. destruct (ctx_accounts x !! k); lia.
  - intros j Hj. cbn. rewrite Hb, Hud, lookup_insert_ne by done. done.
Qed.
Lemma bind_left_new {K L R V : Type} `{Countable K} (k : K) o (d d' : DiffBind K L R V) : bind_left k o d = Ok d' → registered d !! k = None →
  ∃ b, registered d' !! k = Some b ∧ Fragments.value b = None.
Proof. unfold bind_left. case_decide; [done|]. intros [= <-] Hk. cbn. rewrite lookup_insert_eq, Hk. by eexists. Qed.
Lemma bind_right_new {K L R V : Type} `{Countable K} (k : K) o (d d' : DiffBind K L R V) : bind_right k o d = Ok d' → registered d !! k = None →
  ∃ b, registered d' !! k = Some b ∧ Fragments.value b = None.
Proof. unfold bind_right. case_decide; [done|]. intros [= <-] Hk. cbn. rewrite lookup_insert_eq, Hk. by eexists. Qed.
Lemma delegate_pool_effect k p ptr x y : delegate_pool k p ptr x = Ok y → op_effect 0 x y.
Proof.
  intros Hy. assert (ctx_step x y) as Hs by by eapply step_delegate_pool. unfold delegate_pool in Hy. destruct (account_lookup k x); [|done]. destruct (negb _); [done|].
  apply bind_Ok in Hy as (d & Hd%map_err_Ok & [= <-]). apply (delegation_effect k); [by apply rtc_once|by eapply bind_left_registered|by eapply bind_left_new].
Qed.
Lemma delegate_vote_effect k v ptr x y : delegate_vote k v ptr x = Ok y → op_effect 0 x y.
Proof.
  intros Hy. assert (ctx_step x y) as Hs by by eapply step_delegate_vote. unfold delegate_vote in Hy. destruct (account_lookup k x); [|done]. destruct (from_option _ _ _); [done|].
  apply bind_Ok in Hy as (d & Hd%map_err_Ok & [= <-]). apply (delegation_effect k); [by apply rtc_once|by eapply bind_right_registered|by eapply bind_right_new].
Qed.

(** *** Representatives *)
Lemma dreps_effect x d dd k : rtc ctx_step x (with_state (set_dreps d dd) x) → (∀ j, j ≠ k → registered d !! j = registered (dreps (ctx_state x)) !! j ∧
    (j ∈ unregistered d ↔ j ∈ unregistered (dreps (ctx_state x)))) →
  op_effect (drep_amount (with_state (set_dreps d dd) x) k - drep_amount x k) x (with_state (set_dreps d dd) x).
Proof.
  intros Hs Hj. constructor; [done|done|done|]. match goal with |- in_ledger ?y = _ => same_parts x y; rewrite (moved_dreps x y k) end; [lia|].
  intros j (Hr & Hu)%Hj. unfold drep_amount, drep_lookup. cbn. rewrite Hr. by rewrite (decide_ext _ _ None (ctx_dreps x !! j) Hu).
Qed.
Lemma drep_register_effect k r a x y : drep_register k r a x = Ok y → op_effect (reg_deposit r) x y.
Proof.
  intros Hy. assert (ctx_step x y) as Hs by by eapply step_drep_register. unfold drep_register in Hy. destruct (drep_lookup k x) eqn:Hl; [done|].
  apply bind_Ok in Hy as (d & Hd & [= <-]). revert Hd Hs. unfold register. destruct (registered _ !! k) eqn:Hk; [done|]. intros [= <-] Hs.
  eapply effect_eq, (dreps_effect _ _ _ k); [|by apply rtc_once|].
  - unfold drep_amount. rewrite Hl. unfold drep_lookup. cbn. rewrite lookup_insert_eq. cbn. lia.
  - intros j Hj. cbn. rewrite lookup_insert_ne by done. split; [done|]. set_solver.
Qed.
Lemma drep_unregister_effect k ptr r x y : drep_unregister k ptr x = Ok (r, y) → op_effect (- reg_deposit r) x y.
Proof.
  intros Hy. assert (ctx_step x y) as Hs by by eapply step_drep_unregister. unfold drep_unregister in Hy. destruct (drep_lookup k x) as [r'|] eqn:Hl; [|done].
  injection Hy as -> <-. eapply effect_eq, (dreps_effect _ _ _ k); [|by apply rtc_once|].
  - unfold drep_amount. rewrite Hl. unfold drep_lookup. cbn. rewrite lookup_delete_eq, decide_True by set_solver. cbn. lia.
  - intros j Hj. cbn. rewrite lookup_delete_ne by done. split; [done|]. set_solver.
Qed.
Lemma drep_update_effect k a x y : drep_update k a x = Ok y → op_effect 0 x y.
Proof.
  intros Hy. assert (ctx_step x y) as Hs by by eapply step_drep_update. unfold drep_update in Hy. destruct (drep_lookup k x) as [r|]; [|done].
  apply bind_Ok in Hy as (d & Hd%map_err_Ok & [= <-]). revert Hd Hs. unfold bind_left. case_decide as Hu; [done|]. intros [= <-] Hs.
  eapply effect_eq, (dreps_effect _ _ _ k); [|by apply rtc_once|].
  - unfold drep_amount, drep_lookup. cbn. rewrite lookup_insert_eq. destruct (registered (dreps (ctx_state x)) !! k) as [b|]; cbn; [lia|]. rewrite decide_False by done. lia.
  - intros j Hj. cbn. by rewrite lookup_insert_ne.
Qed.

(** *** Committee and votes *)
Lemma bind_member_effect k status x y : bind_member k status x = Ok y → op_effect 0 x y.
Proof.
  intros Hy. assert (ctx_step x y) as Hs by by eapply step_member. unfold bind_member in Hy. destruct (lookup_by_cold_credential k x) as [m|]; [|done].
  assert (∃ d, y = with_state (set_committee d) x) as [d ->].
  { destruct (Committee.row_status m) as [[]|]; try done; apply bind_Ok in Hy as (d & _ & [= <-]); by exists d. }
  constructor; [by apply rtc_once|done|done|]. match goal with |- in_ledger ?y = _ => same_parts x y end. lia.
Qed.
Lemma vote_effect i v b x : op_effect 0 x (ctx_vote i v b x).
Proof.
  constructor; [apply rtc_once, step_vote|done|done|]. match goal with |- in_ledger ?y = _ => same_parts x y end. lia.
Qed.

(** *** Proposals and outputs, which need identifiers that are new *)
Lemma acknowledge_ledger i p x : Fragments.proposals (ctx_state x) !! i = None → in_ledger (acknowledge i p x) = in_ledger x + proposal_deposit (row_proposal p).
Proof.
  intros Hi. match goal with |- in_ledger ?y = _ => same_parts x y; assert (in_proposals y = in_proposals x + (proposal_amount y i - proposal_amount x i)) as -> end.
  { apply sum_over_update; [apply proposal_outside|apply proposal_outside|]. intros j Hj. unfold proposal_amount. cbn. by rewrite lookup_insert_ne. }
  unfold proposal_amount. cbn. rewrite lookup_insert_eq, Hi. cbn. lia.
Qed.
Lemma produce_outputs a i o x : utxo_lookup i x = None → in_outputs a (ctx_produce i o x) = in_outputs a x + amount a (Tx.value o).
Proof.
  intros Hi. rewrite (moved_outputs a x _ i).
  - unfold output_amount at 2. rewrite Hi. unfold output_amount, utxo_lookup in *. cbn. destruct (ctx_utxo x !! i); [done|]. rewrite lookup_insert_eq. cbn. lia.
  - intros j Hj. unfold output_amount, utxo_lookup. cbn. destruct (ctx_utxo x !! j); [done|]. by rewrite lookup_insert_ne.
Qed.
Lemma consume_outputs a i o x : utxo_lookup i x = Some o → in_outputs a (ctx_consume i x) = in_outputs a x - amount a (Tx.value o).
Proof.
  intros Hi. rewrite (moved_outputs a x _ i).
  - unfold output_amount at 2. rewrite Hi. unfold output_amount, utxo_lookup in *. cbn. rewrite !lookup_delete_eq. cbn. lia.
  - intros j Hj. unfold output_amount, utxo_lookup. cbn. by rewrite !lookup_delete_ne.
Qed.
Lemma produce_ledger i o x : in_ledger (ctx_produce i o x) = in_ledger x.
Proof. match goal with |- in_ledger ?y = _ => same_parts x y end. done. Qed.
Lemma consume_ledger i x : in_ledger (ctx_consume i x) = in_ledger x.
Proof. match goal with |- in_ledger ?y = _ => same_parts x y end. done. Qed.
End Held.
