(* ===== verification/RulesProps.v ===== *)
(** * What the rules of a transaction do to the context

    Every rule moves value between the state of the block and the balance of the transaction, asks for
    witnesses and takes none back, and changes the state only by operations of the context; the checks on witnesses then
    find all that was asked for. *)

From S2P Require Import Prelude BTreeMap SortedAssoc SortedPairs UplcSyntax ProtocolParameters Governance EraHistory Summary ProposalsForest PoolsUpdates StakeSummary Ratification Builtins PhaseTwo EpochTransition Fragments FragmentsProps Volatile VolatileReads BlockStore BlockContext LayeredView ContextProps LedgerState Transaction RulesContext PhaseOne PhaseOneGov PhaseOneScripts TransactionRules ValueProps.
From S2P Require Flat.
Import Flat(DataCodec, DataCodecLaws).
Import Tx Rules.
#[local] Open Scope Z_scope.

(** The outputs whose scripts a transaction may refer to. *)
Class Locations := located : TransactionInput → TransactionOutput → Prop.

Section RulesProps.
Context `{Crypto} `{Loc : Locations}.
Implicit Types (x y z : RulesContext) (d : Asset → Z).

(** ** Witnesses are asked for *)
Definition requires (h : list Z) (k : RedeemerKey) x : Prop := ∃ r, r ∈ scripts x ∧ req_hash r = h ∧ redeemer_key r = k.
Record grows x y : Prop := {
  gr_signers : signers x ⊆ signers y;
  gr_roots : bootstrap_roots x ⊆ bootstrap_roots y;
  gr_scripts : ∀ h k, requires h k x → requires h k y }.
#[global] Instance grows_preorder : PreOrder grows.
Proof.
  split; [by constructor|]. intros x y z [S1 R1 P1] [S2 R2 P2]. constructor; [by etransitivity|by etransitivity|]. intros h k Hk. by apply P2, P1.
Qed.
Lemma tag_index_inj a b : tag_index a = tag_index b → a = b.
Proof. by destruct a, b. Qed.
Lemma RequiredScript_cmp_eq a b : RequiredScript_cmp a b = Eq → req_hash a = req_hash b ∧ redeemer_key a = redeemer_key b.
Proof.
  unfold RequiredScript_cmp, then_cmp, redeemer_key. destruct (bytes_compare _ _) eqn:Hh; [|done|done]. destruct (Z.compare (tag_index _) _) eqn:Ht; [|done|done].
  intros Hi. apply bytes_compare_eq in Hh. apply Z.compare_eq, tag_index_inj in Ht. apply Z.compare_eq in Hi. split; [done|congruence].
Qed.
Lemma insert_required_old r l r' : r' ∈ l → r' ∈ insert_required r l.
Proof.
  induction l as [|q l IH]; [by intros ?%elem_of_nil|]. cbn. destruct (RequiredScript_cmp r q); [done|by right|]. intros [->|Hr]%elem_of_cons; [by left|right; auto].
Qed.
Lemma insert_required_new r l : ∃ r', r' ∈ insert_required r l ∧ req_hash r' = req_hash r ∧ redeemer_key r' = redeemer_key r.
Proof.
  induction l as [|q l IH]; cbn; [exists r; split; [by left|done]|]. destruct (RequiredScript_cmp r q) eqn:Hc.
  - exists q. apply RequiredScript_cmp_eq in Hc as [-> ->]. split; [by left|done].
  - exists r. split; [by left|done].
  - destruct IH as (r' & Hr & ?). exists r'. split; [by right|done].
Qed.
Lemma requires_new r x : requires (req_hash r) (redeemer_key r) (require_script_witness r x).
Proof. destruct (insert_required_new r (scripts x)) as (r' & Hr & ? & ?). by exists r'. Qed.

(** ** Acknowledged scripts are where they are said to be *)
Definition script_at (h : list Z) (i : TransactionInput) x : Prop :=
  ∃ o s, utxo_lookup i (core x) = Some o ∧ script o = Some s ∧ memoized_script_hash s = h ∧ located i o.
Definition ack_ok x : Prop := ∀ h i, acknowledged x !! h = Some i → script_at h i x.

(** ** Rules that leave outputs and proposals alone *)
Record quiet d x y : Prop := {
  q_steps : rtc ctx_step (core x) (core y);
  q_grows : grows x y;
  q_ack : ack_ok x → ack_ok y;
  q_value : ∀ a, held a (core y) + quantity a (balance y) = held a (core x) + quantity a (balance x) + d a;
  q_no_zero : no_zero (balance x) → no_zero (balance y);
  q_utxo : ctx_utxo (core y) = ctx_utxo (core x) ∧ utxo (ctx_state (core y)) = utxo (ctx_state (core x));
  q_proposals : Fragments.proposals (ctx_state (core y)) = Fragments.proposals (ctx_state (core x)) }.
Definition none : Asset → Z := λ _, 0.
Definition plus d d' : Asset → Z := λ a, d a + d' a.
(** So much lovelace. *)
Definition ada (n : Z) : Asset → Z := λ a, match a with None => n | Some _ => 0 end.
Lemma quiet_ext d d' x y : (∀ a, d a = d' a) → quiet d x y → quiet d' x y.
Proof. intros Hd [S G A V N U P]. constructor; try done. intros a. by rewrite <- Hd. Qed.
Lemma quiet_refl x : quiet none x x.
Proof. constructor; try done. intros a. unfold none. lia. Qed.
Lemma quiet_trans d d' x y z : quiet d x y → quiet d' y z → quiet (plus d d') x z.
Proof.
  intros [S1 G1 A1 V1 N1 [U1 W1] P1] [S2 G2 A2 V2 N2 [U2 W2] P2].
  constructor; [by etransitivity|by etransitivity|auto| |auto|split; congruence|congruence]. intros a. rewrite V2, V1. unfold plus. lia.
Qed.
Lemma quiet_lookup d x y i : quiet d x y → utxo_lookup i (core y) = utxo_lookup i (core x).
Proof. intros Hq. destruct (q_utxo _ _ _ Hq) as [Hu Hv]. unfold utxo_lookup. by rewrite Hu, Hv. Qed.
(** Asking for more. *)
Lemma quiet_same x y : core y = core x → balance y = balance x → grows x y → (ack_ok x → ack_ok y) → quiet none x y.
Proof. intros Hc Hb Hg Ha. constructor; rewrite ?Hc, ?Hb; try done. intros a. unfold none. lia. Qed.
Lemma ack_same x y : core y = core x → acknowledged y = acknowledged x → ack_ok x → ack_ok y.
Proof. intros Hc Ha Hx h i. unfold script_at. rewrite Ha, Hc. apply Hx. Qed.
Ltac accumulates := apply quiet_same; [done|done|constructor; try done; set_solver|by apply ack_same].
Lemma quiet_signer h x : quiet none x (require_verification_key_witness h x).
Proof. accumulates. Qed.
Lemma quiet_root h x : quiet none x (require_bootstrap_witness h x).
Proof. accumulates. Qed.
Lemma quiet_datum h x : quiet none x (allow_supplemental_datum h x).
Proof. accumulates. Qed.
Lemma quiet_script r x : quiet none x (require_script_witness r x).
Proof.
  apply quiet_same; [done|done| |by apply ack_same]. constructor; try done. intros h k (q & Hq & Hh). exists q. split; [|done]. by apply insert_required_old.
Qed.
Lemma quiet_acknowledge h i x : script_at h i x → quiet none x (acknowledge_script h i x).
Proof.
  intros Hs. apply quiet_same; [done|done|by constructor|]. intros Hx h' i'. cbn. destruct (decide (h = h')) as [->|Hne].
  - rewrite lookup_insert_eq. by intros [= <-].
  - rewrite lookup_insert_ne by done. apply Hx.
Qed.
(** Moves to and from the balance. *)
Lemma quiet_balance d b x : (∀ a, quantity a b = quantity a (balance x) + d a) → (no_zero (balance x) → no_zero b) → quiet d x (with_balance b x).
Proof. intros Hq Hn. constructor; try done. intros a. cbn. rewrite Hq. lia. Qed.
Lemma quiet_consume v x : quiet (λ a, amount a v) x (consume_value v x).
Proof. apply quiet_balance; [intros a; by rewrite quantity_add|by apply no_zero_add]. Qed.
Lemma quiet_produce v x : quiet (λ a, - amount a v) x (produce_value v x).
Proof. apply quiet_balance; [intros a; rewrite quantity_sub; lia|by apply no_zero_sub]. Qed.
Lemma quiet_consume_lovelace n x : quiet (ada n) x (consume_lovelace n x).
Proof. eapply quiet_ext, quiet_consume. by intros [|]. Qed.
Lemma quiet_produce_lovelace n x : quiet (ada (- n)) x (produce_lovelace n x).
Proof. eapply quiet_ext, quiet_produce. intros [|]; cbn; lia. Qed.
(** Operations on the state. *)
Lemma quiet_core n c x : op_effect n (core x) c → quiet (ada n) x (with_core c x).
Proof.
  intros [S U P L]. constructor; try done.
  - intros Hx h i Hi. destruct (Hx h i Hi) as (o & s & Ho & Hs). exists o, s. split; [|done]. unfold utxo_lookup in *. cbn. by destruct U as [-> ->].
  - intros a. unfold held. cbn. rewrite (held_outside _ _ _ U). destruct a; cbn; lia.
Qed.
Lemma quiet_lift {E : Type} n op x y : (∀ c, op (core x) = Ok c → op_effect n (core x) c) → lift (E := E) op x = Ok y → quiet (ada n) x y.
Proof. unfold lift. intros Hop Hy. exec_inv. subst y. by apply quiet_core, Hop. Qed.

(** Loops. *)
Definition sum_list {A : Type} (f : A → Z) (l : list A) : Z := foldr (λ a n, f a + n) 0 l.
(** What holds of each element once a loop has passed it, and is kept when more is asked for, holds in the end. *)
Lemma for_in_each {E A S : Type} (proj : S → RulesContext) (P : S → Prop) (d : A → Asset → Z) (Q : A → S → Prop) (body : S → A → exec E S) (l : list A) :
  (∀ a s s', Q a s → P s' → grows (proj s) (proj s') → Q a s') → ∀ s s', P s →
  (∀ s a s', a ∈ l → P s → body s a = Ok s' → P s' ∧ quiet (d a) (proj s) (proj s') ∧ Q a s') → for_in l body s = Ok s' →
  P s' ∧ quiet (λ α, sum_list (λ a, d a α) l) (proj s) (proj s') ∧ ∀ a, a ∈ l → Q a s'.
Proof.
  intros HQ. induction l as [|a l IH]; intros s s' Hs Hb Hl; cbn [for_in] in Hl.
  - injection Hl as <-. split_and!; [done|apply quiet_refl|by intros a ?%elem_of_nil].
  - apply bind_Ok in Hl as (s1 & H1 & Hl). destruct (Hb s a s1 (list_elem_of_here _ _) Hs H1) as (Hs1 & Hq & Ha).
    destruct (IH s1 s' Hs1) as (Hs' & Hq' & Hl'); [by intros s2 b s3 Hin; apply Hb; right|done|]. split_and!; [done| |].
    + eapply quiet_ext, quiet_trans; [|exact Hq|exact Hq']. done.
    + intros b [->|Hin]%elem_of_cons; [|by apply Hl']. eapply HQ; [exact Ha|exact Hs'|apply Hq'].
Qed.
Lemma for_in_quiet {E A S : Type} (proj : S → RulesContext) (P : S → Prop) (d : A → Asset → Z) (body : S → A → exec E S) (l : list A) : ∀ s s', P s →
  (∀ s a s', a ∈ l → P s → body s a = Ok s' → P s' ∧ quiet (d a) (proj s) (proj s')) → for_in l body s = Ok s' →
  P s' ∧ quiet (λ α, sum_list (λ a, d a α) l) (proj s) (proj s').
Proof.
  intros s s' Hs Hb Hl. destruct (for_in_each proj P d (λ _ _, True) body l) with (s := s) (s' := s') as (? & ? & _); try done.
  intros s1 a s2 Ha Hs1 H1. destruct (Hb s1 a s2 Ha Hs1 H1). done.
Qed.
Lemma foldl_quiet {A : Type} (f : RulesContext → A → RulesContext) (l : list A) : (∀ x a, quiet none x (f x a)) → ∀ x, quiet none x (foldl f x l).
Proof.
  intros Hf. induction l as [|a l IH]; intros x; [apply quiet_refl|]. eapply quiet_ext, quiet_trans; [|apply Hf|apply IH]. done.
Qed.
Lemma sum_list_zero {A : Type} (l : list A) : sum_list (λ _, 0) l = 0.
Proof. induction l as [|a l IH]; [done|exact IH]. Qed.
Lemma for_in_quiet_none {E A : Type} (body : RulesContext → A → exec E RulesContext) (l : list A) x y :
  (∀ x a y, a ∈ l → body x a = Ok y → quiet none x y) → for_in l body x = Ok y → quiet none x y.
Proof.
  intros Hb Hl. destruct (for_in_quiet id (λ _, True) (λ _, none) body l x y I) as [_ Hq]; [|done|].
  - intros s a s' Ha _ Hs. split; [done|]. by apply (Hb _ a).
  - eapply quiet_ext, Hq. intros a. apply sum_list_zero.
Qed.

(** ** Inputs *)
(** What has to witness that an output can be spent. *)
Definition owner_asked (k : RedeemerKey) (o : TransactionOutput) x : Prop :=
  match address o with
  | Byron a => root a ∈ bootstrap_roots x
  | Shelley a => match payment a with ScriptHash h => requires h k x | KeyHash h => h ∈ signers x end
  end.
Lemma owner_asked_grows k o x y : grows x y → owner_asked k o x → owner_asked k o y.
Proof. intros [S R P]. unfold owner_asked. destruct (address o) as [a|a]; [auto|]. destruct (payment a); auto. Qed.
Definition same_core x y : Prop := core y = core x ∧ quiet none x y.
#[local] Instance same_core_preorder : PreOrder same_core.
Proof.
  split; [intros x; split; [done|apply quiet_refl]|]. intros x y z [C1 Q1] [C2 Q2]. split; [congruence|]. eapply quiet_ext, quiet_trans; [|exact Q1|exact Q2]. done.
Qed.
Lemma reference_one_quiet check l i st st' : (∀ o, utxo_lookup i (core st.2) = Some o → located i o) → Inputs.reference_one check l st i = Ok st' → same_core st.2 st'.2.
Proof.
  destruct st as [[inter size] x]. unfold Inputs.reference_one. cbn. intros Hloc Hr. destruct (check && _); [by injection Hr as <-|].
  apply bind_Ok in Hr as (o & Ho%ok_or_Ok & Hr). set (x1 := match datum o with DatumHash h => _ | _ => _ end) in Hr.
  assert (same_core x x1) as H1 by (unfold x1; destruct (datum o); try done; split; [done|apply quiet_datum]).
  destruct (script o) as [s|] eqn:Hs; [|by injection Hr as <-]. apply bind_Ok in Hr as (n & _ & [= <-]). cbn. etransitivity; [done|]. split; [done|].
  apply quiet_acknowledge. exists o, s. destruct H1 as [Hc _]. rewrite Hc. split_and!; [done..|by apply Hloc].
Qed.
Lemma spend_one_spec refs n i size x size' y : (∀ o, utxo_lookup i (core x) = Some o → located i o) → Inputs.spend_one refs (size, x) (n, i) = Ok (size', y) →
  ∃ o, utxo_lookup i (core x) = Some o ∧ core y = core x ∧ quiet (λ a, output_amount a (core x) i) x y ∧ owner_asked (mkRedeemerKey Spend (as_u32 n)) o y.
Proof.
  unfold Inputs.spend_one. intros Hloc Hr. apply bind_Ok in Hr as (o & Ho%ok_or_Ok & Hr). set (x1 := match address o with Byron _ => _ | _ => _ end) in Hr.
  assert (same_core x x1 ∧ owner_asked (mkRedeemerKey Spend (as_u32 n)) o x1) as [H1 Ha].
  { unfold x1, owner_asked. destruct (address o) as [a|a]; [split; [split; [done|apply quiet_root]|by apply elem_of_union_l, elem_of_singleton]|].
    destruct (payment a) as [h|h]; (split; [split; [done|first [apply quiet_script|apply quiet_signer]]|]);
      first [by apply elem_of_union_l, elem_of_singleton|exact (requires_new (mkRequiredScript h (as_u32 n) Spend (datum o)) x)]. }
  apply bind_Ok in Hr as ([size1 x2] & H2 & [= <- <-]). exists o.
  assert (same_core x1 x2) as H12.
  { destruct (script o) as [s|] eqn:Hs; [|by injection H2 as <- <-]. apply bind_Ok in H2 as (m & _ & [= <- <-]). split; [done|].
    apply quiet_acknowledge. exists o, s. destruct H1 as [Hc _]. rewrite Hc. split_and!; [done..|by apply Hloc]. }
  assert (same_core x x2) as [Hc Hq] by by etransitivity. split_and!; [done|done| |].
  - eapply quiet_ext, quiet_trans; [|exact Hq|apply quiet_consume]. intros a. unfold plus, none, output_amount. by rewrite Ho.
  - eapply owner_asked_grows; [|exact Ha]. transitivity x2; [apply H12|apply (quiet_consume (Tx.value o) x2)].
Qed.
Lemma spend_loop refs l size x size' y : (∀ n i o, (n, i) ∈ l → utxo_lookup i (core x) = Some o → located i o) → for_in l (Inputs.spend_one refs) (size, x) = Ok (size', y) → core y = core x ∧
  quiet (λ a, sum_list (λ ni, output_amount a (core x) ni.2) l) x y ∧
  ∀ n i, (n, i) ∈ l → ∃ o, utxo_lookup i (core x) = Some o ∧ owner_asked (mkRedeemerKey Spend (as_u32 n)) o y.
Proof.
  intros Hloc Hl. destruct (for_in_each snd (λ s : Z * RulesContext, core s.2 = core x) (λ ni a, output_amount a (core x) ni.2)
    (λ ni s, ∃ o, utxo_lookup ni.2 (core x) = Some o ∧ owner_asked (mkRedeemerKey Spend (as_u32 ni.1)) o s.2) (Inputs.spend_one refs) l)
    with (s := (size, x)) (s' := (size', y)) as (Hc & Hq & Hall); [..|split_and!; [done|done|]]; try done.
  - intros ni s s' (o & Ho & Ha) _ HR. exists o. split; [done|]. by eapply owner_asked_grows.
  - intros [m1 s] [m j] [m2 s'] Hin Hs Hr. apply spend_one_spec in Hr as (o & Ho & Hc & Hq & Ha); cbn in *; rewrite Hs in *; [|intros o; by apply (Hloc m)]. split_and!; [done|done|by exists o].
  - intros n i Hin. apply (Hall (n, i) Hin).
Qed.
Lemma sum_enumerate {A : Type} (f : A → Z) (l : list A) : ∀ n, sum_list (λ ni, f ni.2) (enumerate_from n l) = sum_list f l.
Proof. induction l as [|a l IH]; intros n; [done|]. rewrite enumerate_cons. unfold sum_list in *. cbn. by rewrite IH. Qed.
(** Collateral, with the first input that a script locks, if there is one. *)
Definition CollateralState : Type := Balance * option TransactionInput * RulesContext.
Definition collateral_total (st : CollateralState) : Balance := st.1.1.
Definition collateral_locked (st : CollateralState) : option TransactionInput := st.1.2.
Lemma collateral_one_spec i (st st' : CollateralState) : Inputs.collateral_one st i = Ok st' → ∃ o, utxo_lookup i (core st.2) = Some o ∧ same_core st.2 st'.2 ∧
  (∀ a, quantity a (collateral_total st') = quantity a (collateral_total st) + output_amount a (core st.2) i) ∧
  (no_zero (collateral_total st) → no_zero (collateral_total st')) ∧
  (collateral_locked st' = None → collateral_locked st = None ∧ ∀ k, owner_asked k o st'.2).
Proof.
  destruct st as [[total locked] x]. unfold Inputs.collateral_one, collateral_total, collateral_locked. intros Hr. apply bind_Ok in Hr as (o & Ho%ok_or_Ok & Hr). exists o.
  assert (∀ a, quantity a (add_value total (Tx.value o)) = quantity a total + output_amount a (core x) i) as Hv.
  { intros a. rewrite quantity_add. unfold output_amount. by rewrite Ho. }
  unfold owner_asked. destruct (address o) as [b|b]; [|destruct (payment b)]; injection Hr as <-; cbn; split_and!; try done; try (by apply no_zero_add).
  all: try (split; [done|first [apply quiet_root|apply quiet_signer|apply quiet_refl]]).
  all: intros Hl; split; try done; try (intros _; by apply elem_of_union_l, elem_of_singleton); by destruct locked.
Qed.
Lemma collateral_loop l : ∀ st st' : CollateralState, for_in l Inputs.collateral_one st = Ok st' → same_core st.2 st'.2 ∧
  (∀ a, quantity a (collateral_total st') = quantity a (collateral_total st) + sum_list (output_amount a (core st.2)) l) ∧
  (no_zero (collateral_total st) → no_zero (collateral_total st')) ∧
  (∀ i, i ∈ l → ∃ o, utxo_lookup i (core st.2) = Some o ∧ (collateral_locked st' = None → ∀ k, owner_asked k o st'.2)) ∧
  (collateral_locked st' = None → collateral_locked st = None).
Proof.
  induction l as [|i l IH]; intros st st' Hl; cbn [for_in] in Hl.
  - injection Hl as <-. split_and!; try done; [intros a; cbn; lia|by intros i ?%elem_of_nil].
  - apply bind_Ok in Hl as (st1 & (o & Ho & H1 & V1 & N1 & L1)%collateral_one_spec & (H2 & V2 & N2 & A2 & L2)%IH).
    assert (core st1.2 = core st.2) as Hc by apply H1. rewrite Hc in *. split_and!; [by etransitivity| |by auto| |].
    + intros a. rewrite V2, V1. cbn. fold (sum_list (output_amount a (core st.2)) l). lia.
    + intros j [->|Hj]%elem_of_cons; [|by apply A2]. exists o. split; [done|]. intros Hn k. eapply owner_asked_grows; [apply H2|]. by apply L1, L2.
    + intros Hn. by apply L1, L2.
Qed.
(** What the rules on inputs have done. *)
Record resolved (inputs collateral : list TransactionInput) x (r : Inputs.ResolvedInputs) y : Prop := {
  rs_core : core y = core x;
  rs_quiet : quiet (λ a, sum_list (output_amount a (core x)) inputs) x y;
  rs_spent : Inputs.spent r = inputs ∧ Inputs.collateral_inputs r = collateral;
  rs_owners n i : (n, i) ∈ enumerate inputs → ∃ o, utxo_lookup i (core x) = Some o ∧ owner_asked (mkRedeemerKey Spend (as_u32 n)) o y;
  rs_collateral a : quantity a (Inputs.collateral_value (Inputs.resolved_collateral r)) = sum_list (output_amount a (core x)) collateral;
  rs_backers i : i ∈ collateral → ∃ o, utxo_lookup i (core x) = Some o ∧ (Inputs.locked_at_script (Inputs.resolved_collateral r) = None → ∀ k, owner_asked k o y) }.
Lemma same_core_quiet d x y z : same_core x y → quiet d y z → quiet d x z.
Proof. intros [_ H1] H2. eapply quiet_ext, quiet_trans; [|exact H1|exact H2]. done. Qed.
Lemma quiet_same_core d x y z : quiet d x y → same_core y z → quiet d x z.
Proof. intros H1 [_ H2]. eapply quiet_ext, quiet_trans; [|exact H1|exact H2]. intros a. unfold plus, none. lia. Qed.
Lemma references_quiet check l inter size x l' inter' size' y :
  (∀ i o, i ∈ l' → utxo_lookup i (core x) = Some o → located i o) → for_in l' (Inputs.reference_one check l) (inter, size, x) = Ok (inter', size', y) → same_core x y.
Proof.
  revert inter size x. induction l' as [|i l' IH]; intros inter size x Hloc Hl; cbn [for_in] in Hl; [by injection Hl as <- <- <-|].
  apply bind_Ok in Hl as ([[inter1 size1] x1] & H1 & H2). apply reference_one_quiet in H1; [|intros o; apply Hloc; by left]. cbn in H1.
  apply IH in H2; [by etransitivity|]. intros j o Hj. destruct H1 as [-> _]. apply Hloc. by right.
Qed.
Lemma inputs_resolved l refs coll pp x r y : (∀ i o, i ∈ l ∨ i ∈ default [] refs → utxo_lookup i (core x) = Some o → located i o) →
  Inputs.execute l refs coll pp x = Ok (r, y) → resolved l coll x r y.
Proof.
  unfold Inputs.execute, Inputs.resolve_collateral. intros Hloc Hr. case_bool_decide; [done|].
  apply bind_Ok in Hr as ([[inter size] x1] & K1 & Hr). apply references_quiet in K1; [|intros i o Hi; apply Hloc; by right]. destruct (negb _); [done|].
  apply bind_Ok in Hr as ([size2 x2] & K2 & Hr). apply spend_loop in K2 as (C2 & Q2 & A2).
  2: { intros n i o [Hi _]%enumerate_elem. destruct K1 as [-> _]. apply Hloc. by left. }
  destruct (_ <? size2); [done|].
  apply bind_Ok in Hr as ([res x3] & K3 & [= <- <-]). destruct (_ <? _); [done|].
  apply bind_Ok in K3 as ([[total locked] x4] & (K4 & V4 & N4 & A4 & L4)%collateral_loop & [= <- <-]). cbn in *.
  assert (core x1 = core x) as C1 by apply K1. assert (core x4 = core x2) as C4 by apply K4. rewrite C1 in *. rewrite C2 in *.
  constructor; cbn; [congruence| |done| | |done].
  - eapply quiet_ext, quiet_same_core, K4; [|eapply same_core_quiet, Q2; exact K1]. intros a. apply (sum_enumerate (output_amount a (core x))).
  - intros n i (o & Ho & Ha)%A2. exists o. split; [done|]. eapply owner_asked_grows, Ha. apply K4.
  - intros a. rewrite V4. cbn. destruct a; cbn; [rewrite lookup_empty|]; cbn; lia.
Qed.
End RulesProps.

(** ** What the witnesses show

    A transaction that passes the checks on signatures and scripts comes with everything that its rules asked for. *)
Section WitnessProps.
Context `{Crypto} `{DataCodec} `{Codecs} `{Loc : Locations}.
Implicit Types (x y z : RulesContext) (t : TransactionRef).

(** *** Signatures *)
Definition signed t (h : list Z) : Prop :=
  (∃ w, w ∈ default [] (verification_key_witness (witnesses t)) ∧ hash_blake2b_224 (verification_key w) = h ∧
        ed25519_verify_strict (verification_key w) (signature w) (tx_id t) = true) ∨
  (∃ w, w ∈ default [] (bootstrap_witness (witnesses t)) ∧ bootstrap_root w = h ∧
        ed25519_verify_strict (public_key w) (bootstrap_signature w) (tx_id t) = true).
Lemma no_failures {A : Type} (f : A → bool) (l : list A) a : omap (λ pw : nat * A, if f pw.2 then None else Some pw.1) (enumerate l) = [] → a ∈ l → f a = true.
Proof.
  intros Hl Ha. destruct (enumerate_all a l 0 Ha) as [m Hm]. destruct (f a) eqn:Hf; [done|]. exfalso. assert (m ∈ ([] : list nat)) as Hin; [|by apply elem_of_nil in Hin].
  rewrite <- Hl. apply list_elem_of_omap. exists (m, a). split; [done|]. cbn. by rewrite Hf.
Qed.
Lemma signatures_spec t x y : Signatures.execute (tx_id t) (bootstrap_witness (witnesses t)) (verification_key_witness (witnesses t)) x = Ok y →
  (∀ h, h ∈ signers x ∨ h ∈ bootstrap_roots x → signed t h) ∧ y = mkRules (core x) (acknowledged x) ∅ (scripts x) (supplemental_datums x) ∅ (balance x).
Proof.
  unfold Signatures.execute, required_signers, required_bootstrap_roots. cbn. intros Hr. case_bool_decide as Hm; [|done]. case_bool_decide as Hk; [|done]. case_bool_decide as Hb; [|done].
  injection Hr as <-. split; [|done]. intros h Hh. assert (h ∈ Signatures.provided_keys (default [] (verification_key_witness (witnesses t))) ∪ Signatures.provided_roots (default [] (bootstrap_witness (witnesses t)))) as Hp.
  { destruct (decide (h ∈ Signatures.provided_keys (default [] (verification_key_witness (witnesses t))) ∪ Signatures.provided_roots (default [] (bootstrap_witness (witnesses t))))) as [|Hn]; [done|]. exfalso.
    apply (not_elem_of_empty (C := gset (list Z)) h). rewrite <- Hm. apply elem_of_difference. split; [by apply elem_of_union|done]. }
  apply elem_of_union in Hp as [Hp|Hp]; [left|right]; apply elem_of_list_to_set, list_elem_of_fmap in Hp as (w & -> & Hw); exists w; split_and!; try done.
  - by apply (no_failures (λ w, ed25519_verify_strict (verification_key w) (signature w) (tx_id t)) _ w Hk).
  - by apply (no_failures (λ w, ed25519_verify_strict (public_key w) (bootstrap_signature w) (tx_id t)) _ w Hb).
Qed.

Lemma keys_signed t x y : Signatures.execute (tx_id t) (bootstrap_witness (witnesses t)) (verification_key_witness (witnesses t)) x = Ok y →
  ∀ h, h ∈ Scripts.collect_verification_key_hashes (witnesses t) → signed t h.
Proof.
  unfold Signatures.execute, required_signers, required_bootstrap_roots. cbn. intros Hr. case_bool_decide as Hm; [|done]. case_bool_decide as Hk; [|done].
  intros h (w & -> & Hw)%elem_of_list_to_set%list_elem_of_fmap. left. exists w. split_and!; [done|done|].
  by apply (no_failures (λ w, ed25519_verify_strict (verification_key w) (signature w) (tx_id t)) _ w Hk).
Qed.

(** *** The scripts that are known *)
(** A script in an output that the transaction refers to. *)
Definition referenced (h : list Z) (s : MemoizedScript) : Prop := ∃ i o, located i o ∧ script o = Some s ∧ memoized_script_hash s = h.
Lemma known_scripts_spec {E : Type} x known y : known_scripts (E := E) x = Ok (known, y) → ack_ok x →
  y = mkRules (core x) ∅ (signers x) (scripts x) (supplemental_datums x) (bootstrap_roots x) (balance x) ∧ map_Forall referenced known.
Proof.
  unfold known_scripts. set (x' := mkRules _ _ _ _ _ _ _). intros Hr Hx. apply bind_Ok in Hr as (known' & Hl & [= -> <-]). split; [done|].
  assert (∀ hl, hl ∈ map_to_list (acknowledged x) → acknowledged x !! hl.1 = Some hl.2) as Hack by (intros [h i] Hin; by apply elem_of_map_to_list).
  assert (map_Forall referenced (∅ : gmap (list Z) MemoizedScript)) as Hacc by apply map_Forall_empty.
  revert Hack Hl Hacc. generalize (∅ : gmap (list Z) MemoizedScript) as acc. induction (map_to_list (acknowledged x)) as [|[h i] l IH]; intros acc Hack Hl Hacc; cbn [for_in] in Hl; [by injection Hl as <-|].
  apply bind_Ok in Hl as (acc' & Ha & Hl). eapply (IH acc'); [intros hl Hin; apply Hack; by right|exact Hl|]. unfold resolve_script in Ha. cbn in Ha.
  destruct (Hx h i) as (o & s & Ho & Hs & Hh & Hloc); [by apply (Hack (h, i)); left|]. rewrite Ho in Ha. cbn in Ha. rewrite Hs in Ha. injection Ha as <-.
  apply map_Forall_insert_2; [by exists i, o|done].
Qed.
(** No script is looked for in an output that has none. *)
Lemma known_scripts_total {E : Type} x : ack_ok x → ∃ r, known_scripts (E := E) x = Ok r.
Proof.
  intros Hx. unfold known_scripts. set (x' := mkRules _ _ _ _ _ _ _).
  assert (∀ hl, hl ∈ map_to_list (acknowledged x) → acknowledged x !! hl.1 = Some hl.2) as Hack by (intros [h i] Hin; by apply elem_of_map_to_list).
  assert (∀ acc, ∃ known, for_in (E := E) (map_to_list (acknowledged x)) (resolve_script x') acc = Ok known) as Hl; [|destruct (Hl ∅) as [known ->]; by eexists].
  induction (map_to_list (acknowledged x)) as [|[h i] l IH]; intros acc; [by eexists|]. cbn [for_in]. destruct (Hx h i) as (o & s & Ho & Hs & _); [by apply (Hack (h, i)); left|].
  assert (resolve_script (E := E) x' acc (h, i) = Ok (<[h := s]> acc)) as ->; [|apply IH].
  { unfold resolve_script. change (core x') with (core x). cbn. rewrite Ho. cbn. by rewrite Hs. }
  intros hl Hin. apply Hack. by right.
Qed.
(** *** The scripts that are provided *)
(** A script that comes with the transaction, or that it refers to. *)
Definition comes_with (w : WitnessSet) (h : list Z) (p : Scripts.ProvidedScript) : Prop :=
  match p with
  | Scripts.Provided_Native s => s ∈ default [] (native_script w) ∧ native_script_hash s = h
  | Scripts.Provided_V1 => ∃ s, s ∈ default [] (plutus_v1_script w) ∧ script_hash s = h
  | Scripts.Provided_V2 => ∃ s, s ∈ default [] (plutus_v2_script w) ∧ script_hash s = h
  | Scripts.Provided_V3 => ∃ s, s ∈ default [] (plutus_v3_script w) ∧ script_hash s = h
  end.
Definition provided_by (w : WitnessSet) (h : list Z) (p : Scripts.ProvidedScript) : Prop :=
  comes_with w h p ∨ ∃ s, referenced h s ∧ p = Scripts.from_memoized s.
Lemma foldl_provided {A : Type} w (key : A → list Z) (kind : A → Scripts.ProvidedScript) (l : list A) : (∀ a, a ∈ l → comes_with w (key a) (kind a)) →
  ∀ provided : gmap (list Z) Scripts.ProvidedScript, map_Forall (comes_with w) provided → map_Forall (comes_with w) (foldl (λ provided a, <[key a := kind a]> provided) provided l).
Proof.
  induction l as [|a l IH]; intros Hl provided Hp; [done|]. cbn. apply IH; [intros b Hb; apply Hl; by right|]. apply map_Forall_insert_2; [apply Hl; by left|done].
Qed.
Lemma witness_scripts_provided w : map_Forall (comes_with w) (Scripts.collect_witness_scripts w).
Proof.
  unfold Scripts.collect_witness_scripts, Scripts.collect_plutus_witness_scripts. do 3 (apply foldl_provided; [intros s Hs; by exists s|]).
  apply foldl_provided; [done|apply map_Forall_empty].
Qed.
Lemma references_provided w required known provided referenced_ provided' referenced' : (∀ hs, hs ∈ known → referenced hs.1 hs.2) → map_Forall (provided_by w) provided →
  foldl (Scripts.reference_script required) (provided, referenced_) known = (provided', referenced') → map_Forall (provided_by w) provided'.
Proof.
  revert provided referenced_. induction known as [|[h s] known IH]; intros provided referenced_ Hk Hp Hf; cbn [foldl] in Hf; [by injection Hf as <- <-|].
  unfold Scripts.reference_script at 2 in Hf. cbn [fst snd] in Hf. assert (∀ hs, hs ∈ known → referenced hs.1 hs.2) as Hk' by (intros hs Hin; apply Hk; by right).
  destruct (decide (h ∈ required)); [|by eapply (IH _ _ Hk' Hp)]. eapply IH, Hf; [done|]. apply map_Forall_insert_2; [|done]. right. exists s. split; [|done].
  apply (Hk (h, s)). by left.
Qed.
Lemma provided_scripts_spec {E : Type} required w x provided witnessed referenced_ y : ack_ok x →
  Scripts.collect_provided_scripts (E := E) required w x = Ok (provided, witnessed, referenced_, y) → map_Forall (provided_by w) provided ∧
  y = mkRules (core x) ∅ (signers x) (scripts x) (supplemental_datums x) (bootstrap_roots x) (balance x).
Proof.
  unfold Scripts.collect_provided_scripts. intros Hx Hr. apply bind_Ok in Hr as ([known x1] & Hk & Hr). apply known_scripts_spec in Hk as [-> Hk]; [|done].
  destruct (foldl _ _ _) as [p r] eqn:Hf. injection Hr as <- <- <- <-. split; [|done]. eapply references_provided, Hf.
  - intros [h s] Hin. by apply Hk, elem_of_map_to_list.
  - eapply map_Forall_impl; [apply witness_scripts_provided|]. intros h q Hq. by left.
Qed.

(** *** The scripts that are required *)
Lemma native_scripts_spec provided required w i h s : Scripts.native_scripts provided required w i = Ok tt → h ∈ required → provided !! h = Some (Scripts.Provided_Native s) →
  eval (Scripts.collect_verification_key_hashes w) i (tree s) = true.
Proof.
  unfold Scripts.native_scripts. intros Hr Hh Hp. case_bool_decide as He; [|done]. destruct (eval _ _ _) eqn:Hs; [done|]. exfalso.
  apply (not_elem_of_empty (C := gset (list Z)) h). rewrite <- He. apply elem_of_filter. split; [|done]. unfold Scripts.native_fails. rewrite Hp. by rewrite Hs.
Qed.
Lemma resolved_scripts required provided witnessed referenced l r : Scripts.fail_on_script_symmetric_differences required provided witnessed referenced = Ok l → r ∈ required →
  ∃ p, provided !! req_hash r = Some p ∧ (r, p) ∈ l.
Proof.
  unfold Scripts.fail_on_script_symmetric_differences. intros Hr Hin. case_bool_decide as Hm; [|done]. case_bool_decide; [|done]. injection Hr as <-.
  destruct (provided !! req_hash r) as [p|] eqn:Hp.
  - exists p. split; [done|]. apply list_elem_of_omap. exists r. split; [done|]. by rewrite Hp.
  - exfalso. apply (not_elem_of_empty (C := gset (list Z)) (req_hash r)). rewrite <- Hm. apply elem_of_filter. split; [done|]. apply elem_of_list_to_set, list_elem_of_fmap. by exists r.
Qed.
Lemma partition_keeps l : ∀ keys datums missing keys' datums' missing', foldl Scripts.partition_one (keys, datums, missing) l = (keys', datums', missing') → keys ⊆ keys' ∧
  ∀ r p, (r, p) ∈ l → (∃ s, p = Scripts.Provided_Native s) ∨ redeemer_key r ∈ keys'.
Proof.
  induction l as [|[r p] l IH]; intros keys datums missing keys' datums' missing' Hf; cbn [foldl] in Hf; [injection Hf as <- _ _; split; [done|]; by intros r p ?%elem_of_nil|].
  destruct (Scripts.partition_one (keys, datums, missing) (r, p)) as [[k1 d1] m1] eqn:Hp1. apply IH in Hf as [Hk Hl]. assert (keys ⊆ k1 ∧ ((∃ s, p = Scripts.Provided_Native s) ∨ redeemer_key r ∈ k1)) as [Hp2 Hp3].
  { destruct p; cbn in Hp1; injection Hp1 as <- _ _; (split; [|first [left; by eexists|right; apply elem_of_app; right; by left]]); first [done|intros k Hin; apply elem_of_app; by left]. }
  split; [by etransitivity|]. intros r' p' [[= -> ->]|Hin]%elem_of_cons; [|by apply Hl]. destruct Hp3 as [|Hp3]; [by left|]. right. by apply Hk.
Qed.
Lemma remove_first_spec k l l' k' : Scripts.remove_first k l = Some l' → k' ∈ l → k' = k ∨ k' ∈ l'.
Proof.
  revert l'. induction l as [|q l IH]; intros l' Hr Hk; [done|]. cbn in Hr. destruct (decide (q = k)) as [->|Hne]; [injection Hr as <-; by apply elem_of_cons in Hk|].
  destruct (Scripts.remove_first k l) as [l1|]; [|done]. injection Hr as <-. apply elem_of_cons in Hk as [->|Hk]; [right; by left|]. destruct (IH l1 eq_refl Hk); [by left|right; by right].
Qed.
Lemma redeemers_matched keys : ∀ required extra missing extra', foldl Scripts.match_redeemer (required, extra) keys = (missing, extra') →
  ∀ k, k ∈ required → k ∈ keys ∨ k ∈ missing.
Proof.
  induction keys as [|q keys IH]; intros required extra missing extra' Hf k Hk; cbn [foldl] in Hf; [injection Hf as <- _; by right|].
  unfold Scripts.match_redeemer at 2 in Hf. cbn [fst snd] in Hf. destruct (Scripts.remove_first q required) as [l|] eqn:Hq.
  - destruct (remove_first_spec _ _ _ _ Hq Hk) as [->|Hl]; [left; by left|]. destruct (IH _ _ _ _ Hf k Hl); [left; by right|by right].
  - destruct (IH _ _ _ _ Hf k Hk); [left; by right|by right].
Qed.
(** The transaction comes with the script of that hash, or refers to it: a native script that holds for the keys of the witnesses, or a Plutus script with a redeemer. *)
Definition script_witnessed t (h : list Z) (k : RedeemerKey) : Prop := ∃ p, provided_by (witnesses t) h p ∧
  match p with
  | Scripts.Provided_Native s => eval (Scripts.collect_verification_key_hashes (witnesses t)) (validity_interval (body t)) (tree s) = true
  | Scripts.Provided_V1 | Scripts.Provided_V2 | Scripts.Provided_V3 => ∃ r, redeemer (witnesses t) = Some r ∧ k ∈ map fst (iter_unique r)
  end.
Lemma scripts_spec t pp x y : Scripts.execute (witnesses t) (validity_interval (body t)) pp (script_data_hash (body t)) x = Ok y → ack_ok x →
  (∀ h k, requires h k x → script_witnessed t h k) ∧ y = mkRules (core x) ∅ (signers x) [] ∅ (bootstrap_roots x) (balance x).
Proof.
  unfold Scripts.execute, required_scripts. intros Hr Hx. apply bind_Ok in Hr as ([] & _ & Hr). apply bind_Ok in Hr as ([[[provided witnessed] referenced_] x1] & Hp & Hr).
  apply provided_scripts_spec in Hp as [Hh ->]; [|by apply (ack_same x)]. apply bind_Ok in Hr as ([] & Hn & Hr). apply bind_Ok in Hr as (l & Hl & Hr).
  apply bind_Ok in Hr as ([keys ds] & Hk & Hr). apply bind_Ok in Hr as (x2 & Hd2 & Hr). apply bind_Ok in Hr as ([] & _ & Hr).
  destruct (foldl Scripts.match_redeemer _ _) as [missing extra] eqn:Hm. case_bool_decide as Hmiss; [subst missing|done]. cbn [negb] in Hr. destruct (negb _); [done|]. destruct (negb _); [done|]. injection Hr as <-.
  split; [|unfold Scripts.fail_on_supplemental_datums, allowed_supplemental_datums in Hd2; destruct (negb _); [done|]; by injection Hd2 as <-].
  intros h k (r & Hin & <- & <-). destruct (resolved_scripts _ _ _ _ _ _ Hl Hin) as (p & Hpr & Hrp). exists p. split; [by apply Hh|].
  unfold Scripts.partition_scripts in Hk. destruct (foldl Scripts.partition_one _ _) as [[keys' ds'] m'] eqn:Hf. destruct (negb _); [done|]. injection Hk as -> ->.
  apply partition_keeps in Hf as [_ Hf]. assert (∀ s, p = Scripts.Provided_Native s → eval (Scripts.collect_verification_key_hashes (witnesses t)) (validity_interval (body t)) (tree s) = true) as Hnat.
  { intros s ->. eapply native_scripts_spec; [exact Hn| |exact Hpr]. apply elem_of_list_to_set, list_elem_of_fmap. by exists r. }
  destruct (Hf _ _ Hrp) as [[s ->]|Hkey]; [by apply Hnat|].
  assert (∃ rs, redeemer (witnesses t) = Some rs ∧ redeemer_key r ∈ map fst (iter_unique rs)) as Hred.
  { destruct (redeemers_matched _ _ _ _ _ Hm _ Hkey) as [Hr|Hr]; [|by apply elem_of_nil in Hr]. destruct (redeemer (witnesses t)) as [rs|]; [by exists rs|by apply elem_of_nil in Hr]. }
  destruct p; try done. by apply Hnat.
Qed.
Lemma require_signers_grows l x : quiet none x (require_signers l x) ∧ core (require_signers l x) = core x ∧ balance (require_signers l x) = balance x.
Proof.
  unfold require_signers. split; [apply foldl_quiet; intros; apply quiet_signer|]. generalize (default [] l) as l0. intros l0. revert x. induction l0 as [|h l0 IH]; intros x; [done|]. cbn. by destruct (IH (require_verification_key_witness h x)).
Qed.
(** A transaction that is well witnessed balances, and leaves nothing to the next one. *)
Lemma check_witnesses_spec env t x y : check_witnesses env t x = Ok y → ack_ok x → y = rules_of (core x) ∧ is_zero (balance x) = true ∧
  (∀ h, h ∈ signers x ∨ h ∈ bootstrap_roots x → signed t h) ∧ (∀ h k, requires h k x → script_witnessed t h k).
Proof.
  unfold check_witnesses. intros Hr Hx. destruct (require_signers_grows (Tx.required_signers (body t)) x) as (Hq & Hc & Hb). set (x0 := require_signers _ x) in *.
  apply bind_Ok in Hr as (x1 & Hs%map_err_Ok & Hr). apply signatures_spec in Hs as [Hs ->]. apply bind_Ok in Hr as (x2 & Hsc%map_err_Ok & Hr).
  apply scripts_spec in Hsc as [Hsc ->]; [|apply (ack_same x0); [done|done|by apply Hq]]. unfold check_balance in Hr. cbn in Hr. destruct (is_zero (balance x0)) eqn:Hz; [|done]. injection Hr as <-.
  destruct (q_grows _ _ _ Hq) as [G1 G2 G3]. split_and!; [by rewrite <- Hc|by rewrite <- Hb| |].
  - intros h [Hh|Hh]; apply Hs; [left; by apply G1|right; by apply G2].
  - intros h k Hk%G3. by apply Hsc.
Qed.
End WitnessProps.
