(* ===== verification/PhaseOneProps.v ===== *)
(** * What each rule does

    The effect of the rules of phase one on the context: where value goes, and that witnesses are only added. *)

From S2P Require Import Prelude BTreeMap SortedAssoc SortedPairs UplcSyntax ProtocolParameters Governance EraHistory Summary ProposalsForest PoolsUpdates StakeSummary Ratification Builtins PhaseTwo EpochTransition Fragments FragmentsProps Volatile VolatileReads BlockStore BlockContext LayeredView ContextProps LedgerState Transaction RulesContext PhaseOne PhaseOneGov PhaseOneScripts TransactionRules ValueProps RulesProps.
From S2P Require Flat.
Import Flat(DataCodec, DataCodecLaws).
Import Stake(AccountRow, mkAccountRow, arow_deposit, arow_rewards, Proposal, proposal_deposit, ProposalRow, row_proposal).
Import Tx Rules.
#[local] Open Scope Z_scope.

Section PhaseOneProps.
Context `{Crypto} `{DataCodec} `{Codecs} `{Loc : Locations}.
Implicit Types (x y z : RulesContext) (d : Asset → Z).

Lemma quiet_plus d1 d2 d x y z : quiet d1 x y → quiet d2 y z → (∀ a, d1 a + d2 a = d a) → quiet d x z.
Proof. intros Q1 Q2 Qd. eapply quiet_ext, quiet_trans; [exact Qd|exact Q1|exact Q2]. Qed.
Ltac assets := intros [?|]; unfold plus, none, ada; cbn; lia.

(** ** Fees, treasury, mint *)
Lemma fees_validate f x e y : Fees.validate f x = Ok (e, y) → y = produce_lovelace (Fees.declared_fee f) x ∧
  (is_some (redeemer (Fees.fees_witness_set f)) = true →
   Fees.validate_collateral (Fees.fees_collateral f) (Fees.fees_collateral_return f) (Fees.declared_collateral f) (Fees.declared_fee f) (Fees.fees_parameters f) = Ok e).
Proof.
  unfold Fees.validate. intros Hr. apply bind_Ok in Hr as (m & _ & Hr). destruct (_ <? m); [done|]. apply bind_Ok in Hr as (e' & He & [= -> <-]). split; [done|].
  intros Hs. rewrite Hs in He. by apply map_err_Ok in He.
Qed.
Lemma fees_valid f x y : 0 <= Fees.declared_fee f → Fees.when_valid f x = Ok y → quiet none x y.
Proof.
  unfold Fees.when_valid. intros Hf Hr. apply bind_Ok in Hr as ([e x1] & [-> _]%fees_validate & Hr).
  eapply quiet_plus; [apply quiet_produce_lovelace| |]; [eapply quiet_lift, Hr; intros c; by apply add_fees_effect|assets].
Qed.
Lemma treasury_valid v donation x y : from_option (Z.le 0) True donation → Treasury.when_valid v donation x = Ok y → quiet none x y.
Proof.
  unfold Treasury.when_valid. intros Hd. destruct (from_option _ _ v); [done|]. destruct donation as [n|]; [|intros [= <-]; apply quiet_refl]. intros Hr.
  eapply quiet_plus; [apply quiet_produce_lovelace| |]; [eapply quiet_lift, Hr; intros c; by apply add_donation_effect|assets].
Qed.
Lemma policies_quiet l x : quiet none x (foldl Minting.require_policy x l).
Proof. apply foldl_quiet. intros. apply quiet_script. Qed.
Lemma minting_quiet m x : quiet (λ a, minted a m) x (Minting.execute m x).
Proof.
  destruct m as [m|]; [|eapply quiet_ext, quiet_refl; by intros [|]]. cbn.
  eapply quiet_plus; [apply policies_quiet| |]; [apply quiet_balance; [intros a; apply quantity_minted|apply no_zero_minted]|]. intros a. unfold none. cbn. lia.
Qed.

(** ** Withdrawals *)
Definition withdrawal_witness (c : Credential) (position : nat) x : Prop :=
  match c with ScriptHash h => requires h (mkRedeemerKey Reward (as_u32 position)) x | KeyHash h => h ∈ signers x end.
Lemma withdrawal_witness_grows c n x y : grows x y → withdrawal_witness c n x → withdrawal_witness c n y.
Proof. intros [S R P]. unfold withdrawal_witness. destruct c; auto. Qed.
Lemma require_and_consume_quiet n c m x : quiet (ada m) x (Withdrawals.require_witness_and_consume n c m x) ∧ withdrawal_witness c n (Withdrawals.require_witness_and_consume n c m x).
Proof.
  unfold Withdrawals.require_witness_and_consume, withdrawal_witness. destruct c as [h|h];
    (split; [eapply quiet_plus; [|apply quiet_consume_lovelace|]; [first [apply quiet_script|apply quiet_signer]|assets]|]); cbn;
    first [by apply elem_of_union_l, elem_of_singleton|exact (requires_new (mkRequiredScript h (as_u32 n) Reward NoDatum) x)].
Qed.
Lemma withdraw_one_quiet n c m x y : 0 <= m → Withdrawals.withdraw_one x (n, (c, m)) = Ok y → quiet none x y ∧ withdrawal_witness c n y.
Proof.
  unfold Withdrawals.withdraw_one. intros Hm Hr. apply bind_Ok in Hr as (account & Ha%ok_or_Ok & Hr). destruct (match c with KeyHash _ => _ | _ => _ end); [done|].
  destruct (Z.eqb_spec m (arow_rewards account)) as [->|]; [|done]. cbn [negb] in Hr. destruct (require_and_consume_quiet n c (arow_rewards account) x) as [Hq Hw].
  set (x1 := Withdrawals.require_witness_and_consume _ _ _ x) in *. assert (core x1 = core x) as Hc by by destruct c. injection Hr as <-. destruct (Z.ltb_spec 0 (arow_rewards account)) as [Hp|Hz].
  - assert (quiet (ada (- arow_rewards account)) x1 (with_core (withdraw_from c (core x1)) x1)) as Hq2 by (apply quiet_core, withdraw_effect; by rewrite Hc).
    split; [eapply quiet_plus; [exact Hq|exact Hq2|assets]|]. destruct c; [exact Hw|exact Hw].
  - split; [|done]. eapply quiet_ext, Hq. assets.
Qed.
Lemma insert_values (P : Z → Prop) (k : Credential) v l : P v → Forall (λ p, P p.2) l → Forall (λ p, P p.2) (SortedPairs.insert k v l).
Proof. intros Hv. induction 1 as [|[k' v'] l Hp Hl IH]; cbn [SortedPairs.insert]; [apply Forall_cons; by split|]. destruct (cmp k k'); apply Forall_cons; split; try done. by apply Forall_cons. Qed.
Lemma withdrawals_nonneg l network sorted : Forall (λ aw, 0 <= aw.2) l → Withdrawals.sorted_by_credential (Some l) network = Ok sorted → Forall (λ p, 0 <= p.2) sorted.
Proof.
  unfold Withdrawals.sorted_by_credential, enumerate. cbn [from_option id]. intros Hl. assert (Forall (λ p : Credential * Z, 0 <= p.2) []) as Ha by constructor.
  revert Ha. generalize (@nil (Credential * Z)) as acc. generalize 0%nat as n. induction Hl as [|[account m] l Hm Hl IH]; intros n acc Ha Hr.
  - by injection Hr as <-.
  - rewrite enumerate_cons in Hr. cbn [for_in] in Hr. destruct (negb _); [done|]. apply bind_Ok in Hr as (acc' & [= <-] & Hr). eapply IH, Hr. by apply insert_values.
Qed.
(** The credentials that are withdrawn from in their order, each once: their positions are the indices of the redeemers. *)
Definition withdrawal_order (l : list (RewardAccount * Z)) (order : list Credential) : Prop :=
  StronglySorted (λ a b, cmp a b = Lt) order ∧ ∀ c, c ∈ order ↔ ∃ account m, (account, m) ∈ l ∧ account_credential account = c.
Lemma insert_entries (k : Credential) (v : Z) l k' : k' ∈ map fst (SortedPairs.insert k v l) ↔ k' = k ∨ k' ∈ map fst l.
Proof.
  induction l as [|[q w] l IH]; cbn [SortedPairs.insert map fst]; [by rewrite elem_of_cons|].
  destruct (cmp k q) eqn:Hc; cbn [map fst]; rewrite ?elem_of_cons, ?IH, ?elem_of_cons; [|tauto..]. apply cmp_eq in Hc as ->. tauto.
Qed.
Lemma ascending_order (l : list (Credential * Z)) : SortedPairs.ascending l → StronglySorted (λ a b, cmp a b = Lt) (map fst l).
Proof. induction 1 as [|p l Hl IH Hp]; cbn; constructor; [done|]. by apply Forall_map. Qed.
Lemma sorted_withdrawals l network sorted : Withdrawals.sorted_by_credential l network = Ok sorted → withdrawal_order (default [] l) (map fst sorted).
Proof.
  unfold Withdrawals.sorted_by_credential, enumerate. generalize (default [] l) as l0. clear l. intros l Hr.
  enough (SortedPairs.ascending sorted ∧ ∀ c, c ∈ map fst sorted ↔ c ∈ map fst (@nil (Credential * Z)) ∨ ∃ account m, (account, m) ∈ l ∧ account_credential account = c) as [Ha Hc].
  { split; [by apply ascending_order|]. intros c. rewrite Hc. cbn. rewrite elem_of_nil. tauto. }
  revert Hr. assert (SortedPairs.ascending (@nil (Credential * Z))) as Ha by constructor. revert Ha.
  generalize (@nil (Credential * Z)) as acc. generalize 0%nat as n. induction l as [|[account m] l IH]; intros n acc Ha Hr.
  - injection Hr as <-. split; [done|]. intros c. split; [by left|]. intros [Hc|(? & ? & Hin & _)]; [done|by apply elem_of_nil in Hin].
  - rewrite enumerate_cons in Hr. cbn [for_in] in Hr. destruct (negb _); [done|]. apply bind_Ok in Hr as (acc' & [= <-] & Hr).
    apply IH in Hr as [Hs Hc]; [|by apply SortedPairs.ascending_insert]. split; [done|]. intros c. rewrite Hc, insert_entries. split.
    + intros [[->|Hin]|(a & q & Hin & Hq)]; [right; exists account, m; split; [by left|done]|by left|right; exists a, q; split; [by right|done]].
    + intros [Hin|(a & q & [[= -> ->]|Hin]%elem_of_cons & Hq)]; [left; by right|left; by left|right; by exists a, q].
Qed.
Lemma withdrawals_valid l network x y : Forall (λ aw, 0 <= aw.2) (default [] l) → Withdrawals.when_valid l network x = Ok y → quiet none x y ∧
  ∃ order, withdrawal_order (default [] l) order ∧ ∀ n c, (n, c) ∈ enumerate order → withdrawal_witness c n y.
Proof.
  unfold Withdrawals.when_valid. intros Hl Hr. apply bind_Ok in Hr as (sorted & Hs & Hr). assert (Forall (λ p, 0 <= p.2) sorted) as Hp.
  { destruct l as [l|]; [by eapply withdrawals_nonneg|]. cbn in Hs. injection Hs as <-. constructor. }
  destruct (for_in_each id (λ _, True) (λ _, none) (λ p, withdrawal_witness p.2.1 p.1) Withdrawals.withdraw_one (enumerate sorted)) with (s := x) (s' := y) as (_ & Hq & Hw); try done.
  - intros [n [c m]] s s' Hw _ HR. by eapply withdrawal_witness_grows.
  - intros s [n [c m]] s' [Hin _]%enumerate_elem _ Hr'. split; [done|]. eapply withdraw_one_quiet; [|exact Hr']. by apply (proj1 (Forall_forall _ _) Hp (c, m)).
  - split; [eapply quiet_ext, Hq; intros a; apply sum_list_zero|]. exists (map fst sorted). split; [by eapply sorted_withdrawals|]. intros n c Hn.
    destruct (enumerate_fst sorted n c Hn) as [v Hv]. apply (Hw _ Hv).
Qed.

(** ** Certificates *)
Lemma credential_witness_quiet c n x : quiet none x (Certificates.require_credential_witness c n x).
Proof. destruct c; first [apply quiet_signer|apply quiet_script]. Qed.
Lemma certificate_witness_quiet cert n x : quiet none x (Certificates.require_witnesses_one cert n x).
Proof.
  destruct cert; cbn; try apply credential_witness_quiet; try apply quiet_refl; try apply quiet_signer.
  - eapply quiet_plus; [apply quiet_signer|apply foldl_quiet; intros; apply quiet_signer|done].
  - case_bool; [apply credential_witness_quiet|apply quiet_refl].
Qed.
Lemma quiet_lift_err {E F : Type} n (f : E → F) op x y : (∀ c, op (core x) = Ok c → op_effect n (core x) c) → lift (λ c, map_err f (op c)) x = Ok y → quiet (ada n) x y.
Proof. intros Hop. apply quiet_lift. intros c Hc%map_err_Ok. by apply Hop. Qed.
Lemma quiet_ada0 x y : quiet (ada 0) x y → quiet none x y.
Proof. apply quiet_ext. by intros [|]. Qed.
Lemma register_account_quiet c n x y : Certificates.register_account c n x = Ok y → quiet none x y.
Proof.
  unfold Certificates.register_account. intros Hr. apply bind_Ok in Hr as (x1 & Hr & [= <-]).
  eapply quiet_plus; [eapply quiet_lift_err, Hr; intros c'; apply account_register_effect|apply quiet_produce_lovelace|assets].
Qed.
Lemma reg_quiet pp c n x y : Certificates.reg pp c n x = Ok y → quiet none x y.
Proof. unfold Certificates.reg. destruct (negb _); [done|]. apply register_account_quiet. Qed.
Lemma unregister_quiet c x row y : Certificates.unregister_account c x = Ok (row, y) → quiet (ada (- (arow_deposit row + arow_rewards row))) x y.
Proof.
  unfold Certificates.unregister_account. intros Hr. apply bind_Ok in Hr as ([row' c'] & Hu%map_err_Ok & [= <- <-]). apply quiet_core. by eapply account_unregister_effect.
Qed.
Lemma stake_delegation_quiet c p ptr x y : Certificates.stake_delegation c p ptr x = Ok y → quiet none x y.
Proof. intros Hr. eapply quiet_ada0, quiet_lift_err, Hr. intros c'. apply delegate_pool_effect. Qed.
Lemma vote_delegation_quiet c v ptr x y : Certificates.vote_delegation c v ptr x = Ok y → quiet none x y.
Proof. intros Hr. eapply quiet_ada0, quiet_lift_err, Hr. intros c'. apply delegate_vote_effect. Qed.
Lemma pool_registration_quiet pp network ptr params x y : Certificates.pool_registration pp network ptr params x = Ok y → quiet none x y.
Proof.
  unfold Certificates.pool_registration. destruct (negb (bool_decide _)); [done|]. destruct (from_option _ _ _); [done|]. destruct (_ <? _); [done|]. intros [= <-].
  pose proof (quiet_core _ _ x (pool_register_effect params ptr (stake_pool_deposit pp) (core x))) as Hq. destruct (pool_exists _ _); cbn [negb]; [by apply quiet_ada0|].
  eapply quiet_plus; [exact Hq|apply quiet_produce_lovelace|assets].
Qed.
Lemma pool_retirement_quiet pp h ptr id e x y : Certificates.pool_retirement pp h ptr id e x = Ok y → quiet none x y.
Proof.
  unfold Certificates.pool_retirement. intros Hr. exec_inv. destruct (_ || _); [done|]. eapply quiet_ada0, quiet_lift_err, Hr. intros c. apply pool_retire_effect.
Qed.
Lemma reg_drep_quiet pp h dormant ptr c n anchor x y : Certificates.reg_drep pp h dormant ptr c n anchor x = Ok y → quiet none x y.
Proof.
  unfold Certificates.reg_drep. destruct (negb _); [done|]. intros Hr. exec_inv. subst y.
  eapply quiet_plus; [eapply quiet_lift_err, Hr3; intros c'; apply drep_register_effect|apply quiet_produce_lovelace|assets].
Qed.
Lemma unreg_drep_quiet ptr c n x y : Certificates.unreg_drep ptr c n x = Ok y → quiet none x y.
Proof.
  unfold Certificates.unreg_drep. intros Hr. apply bind_Ok in Hr as ([r c'] & Hu%map_err_Ok & Hr). destruct (Z.eqb_spec n (reg_deposit r)) as [->|]; [|done]. injection Hr as <-.
  eapply quiet_plus; [apply quiet_core, (drep_unregister_effect _ _ _ _ _ Hu)|apply quiet_consume_lovelace|assets].
Qed.
Lemma stake_deregistration_quiet c x y : Certificates.stake_deregistration c x = Ok y → quiet none x y.
Proof.
  unfold Certificates.stake_deregistration. intros Hr. apply bind_Ok in Hr as ([row x1] & Hu%unregister_quiet & Hr). destruct (Z.eqb_spec (arow_rewards row) 0) as [He|]; [|done]. injection Hr as <-.
  eapply quiet_plus; [exact Hu|apply quiet_consume_lovelace|assets].
Qed.
Lemma unreg_quiet c n x y : Certificates.unreg c n x = Ok y → quiet none x y.
Proof.
  unfold Certificates.unreg. intros Hr. apply bind_Ok in Hr as ([row x1] & Hu%unregister_quiet & Hr). destruct (Z.eqb_spec n (arow_deposit row)) as [->|]; [|done].
  destruct (Z.eqb_spec (arow_rewards row) 0) as [He|]; [|done]. injection Hr as <-. eapply quiet_plus; [exact Hu|apply quiet_consume_lovelace|assets].
Qed.
Lemma bind_quiet {E : Type} (m : exec E RulesContext) (f : RulesContext → exec E RulesContext) x z :
  (∀ y, m = Ok y → quiet none x y) → (∀ y, f y = Ok z → quiet none y z) → (y ← m; f y) = Ok z → quiet none x z.
Proof. intros Hm Hf Hr. apply bind_Ok in Hr as (y & Hy & Hz). eapply quiet_plus; [by apply Hm|by apply Hf|done]. Qed.
Lemma member_quiet k status x y : lift (λ c, map_err Certificates.CCMemberInvalidDelegation (bind_member k status c)) x = Ok y → quiet none x y.
Proof. intros Hr. eapply quiet_ada0, quiet_lift_err, Hr. intros c. apply bind_member_effect. Qed.
Lemma certificate_quiet network pp h dormant ptr cert x y : Certificates.execute_one network pp h dormant ptr cert x = Ok y → quiet none x y.
Proof.
  destruct cert; cbn.
  - apply register_account_quiet.
  - apply stake_deregistration_quiet.
  - apply stake_delegation_quiet.
  - apply pool_registration_quiet.
  - apply pool_retirement_quiet.
  - apply reg_quiet.
  - apply unreg_quiet.
  - apply vote_delegation_quiet.
  - apply bind_quiet; intros z; [apply vote_delegation_quiet|apply stake_delegation_quiet].
  - apply bind_quiet; intros z; [apply reg_quiet|apply stake_delegation_quiet].
  - apply bind_quiet; intros z; [apply reg_quiet|apply vote_delegation_quiet].
  - apply bind_quiet; intros z; [apply reg_quiet|]. apply bind_quiet; intros z'; [apply stake_delegation_quiet|apply vote_delegation_quiet].
  - apply member_quiet.
  - apply member_quiet.
  - apply reg_drep_quiet.
  - apply unreg_drep_quiet.
  - intros Hr. eapply quiet_ada0, quiet_lift_err, Hr. intros c. apply drep_update_effect.
Qed.
Lemma certificates_valid network pp h dormant ptr certs x y : Certificates.when_valid network pp h dormant ptr certs x = Ok y → quiet none x y.
Proof.
  apply for_in_quiet_none. intros x1 [n cert] y1 _ Hr%certificate_quiet. eapply quiet_plus; [apply certificate_witness_quiet|exact Hr|done].
Qed.

(** ** Votes *)
Lemma voter_witness_quiet n v x : quiet none x (Voting.require_witness n v x).
Proof. unfold Voting.require_witness. destruct (owner v); first [apply quiet_signer|apply quiet_script]. Qed.
Lemma ballots_quiet v l x : quiet none x (foldl (Voting.cast v) x l).
Proof. apply foldl_quiet. intros x1 [i b]. apply quiet_ada0, quiet_core, vote_effect. Qed.
Lemma vote_one_quiet pv e st ivb : quiet none st.2 (Voting.vote_one pv e st ivb).2.
Proof.
  destruct st as [s x], ivb as [n [v ballots]]. unfold Voting.vote_one. pose proof (voter_witness_quiet n v x) as Hq. destruct (negb (Voting.is_known_voter _ _ _)); [done|].
  destruct (Voting.check_ballots _ _ _ _ _) as [s1 returned]. destruct (_ || _); [done|]. eapply quiet_plus; [exact Hq|apply ballots_quiet|done].
Qed.
Lemma votes_valid pv h ptr procedures x y : Voting.when_valid pv h ptr procedures x = Ok y → quiet none x y.
Proof.
  unfold Voting.when_valid. destruct procedures as [procedures|]; [|intros [= <-]; apply quiet_refl]. intros Hr. apply bind_Ok in Hr as (e & _ & Hr).
  destruct (foldl _ _ _) as [s x1] eqn:Hf. assert (quiet none x x1) as Hq; [|by destruct (negb _); [done|]; destruct (negb _); [done|]; destruct (negb _); [done|]; destruct (negb _); [done|]; injection Hr as <-].
  clear Hr. revert Hf. generalize (Voting.mkViolations ∅ ∅ ∅ ∅) as s0. revert x. induction (enumerate _) as [|ivb l IH]; intros x s0 Hf; cbn [foldl] in Hf; [injection Hf as _ <-; apply quiet_refl|].
  destruct (Voting.vote_one pv e (s0, x) ivb) as [s2 x2] eqn:Hv. pose proof (vote_one_quiet pv e (s0, x) ivb) as Hq. rewrite Hv in Hq. eapply quiet_plus; [exact Hq|by eapply IH|done].
Qed.
(** ** Outputs and proposals *)

(** Rules that may add outputs and proposals of a transaction. *)
Record moves (id : list Z) d x y : Prop := {
  m_steps : rtc ctx_step (core x) (core y);
  m_grows : grows x y;
  m_ack : ack_ok x → ack_ok y;
  m_value : ∀ a, held a (core y) + quantity a (balance y) = held a (core x) + quantity a (balance x) + d a;
  m_no_zero : no_zero (balance x) → no_zero (balance y);
  m_kept i o : utxo_lookup i (core x) = Some o → utxo_lookup i (core y) = Some o;
  m_consumed : consumed (utxo (ctx_state (core y))) = consumed (utxo (ctx_state (core x)));
  m_utxo i : transaction_id i ≠ id → utxo_lookup i (core y) = utxo_lookup i (core x);
  m_proposals i : proposal_transaction_id i ≠ id → Fragments.proposals (ctx_state (core y)) !! i = Fragments.proposals (ctx_state (core x)) !! i }.
Lemma quiet_moves id d x y : quiet d x y → moves id d x y.
Proof.
  intros Hq. assert (∀ i, utxo_lookup i (core y) = utxo_lookup i (core x)) as Hl by (intros i; by eapply quiet_lookup). destruct Hq as [S G A V N [U W] P]. constructor; try done; [|by rewrite W|intros i _; by rewrite P].
  intros i o Hi. by rewrite Hl.
Qed.
Lemma moves_plus id d1 d2 d x y z : moves id d1 x y → moves id d2 y z → (∀ a, d1 a + d2 a = d a) → moves id d x z.
Proof.
  intros [S1 G1 A1 V1 N1 K1 C1 U1 P1] [S2 G2 A2 V2 N2 K2 C2 U2 P2] Hd. constructor; [by etransitivity|by etransitivity|auto| |auto|auto|congruence| |].
  - intros a. rewrite V2, V1, <- Hd. lia.
  - intros i Hi. by rewrite U2, U1.
  - intros i Hi. by rewrite P2, P1.
Qed.
(** No output of the transaction is known yet. *)
Definition unknown_outputs (id : list Z) (c : ValidationContext) : Prop :=
  ∀ n, utxo_lookup (mkTransactionInput id n) c = None ∧ mkTransactionInput id n ∉ consumed (utxo (ctx_state c)).
Lemma lookup_produce i o c j : utxo_lookup i c = None → utxo_lookup j (ctx_produce i o c) = if decide (i = j) then Some o else utxo_lookup j c.
Proof.
  unfold utxo_lookup. cbn. intros Hi. destruct (decide (i = j)) as [->|Hne]; [|by rewrite lookup_insert_ne].
  destruct (ctx_utxo c !! j); [done|]. by rewrite lookup_insert_eq.
Qed.
Lemma produce_moves i o x : utxo_lookup i (core x) = None → i ∉ consumed (utxo (ctx_state (core x))) →
  moves (transaction_id i) (λ a, amount a (Tx.value o)) x (with_core (ctx_produce i o (core x)) x).
Proof.
  intros Hi Hc. constructor; try done.
  - cbn. apply rtc_once, step_produce; [done|]. unfold utxo_lookup in Hi. by destruct (ctx_utxo (core x) !! i).
  - intros Hx h j (o' & s & Ho & Hs)%Hx. exists o', s. split; [|done]. cbn. rewrite lookup_produce by done. rewrite decide_False by congruence. done.
  - intros a. unfold held. cbn [core with_core balance]. rewrite produce_outputs, produce_ledger by done. lia.
  - intros j o' Hj. cbn. rewrite lookup_produce by done. rewrite decide_False by congruence. done.
  - intros j Hj. cbn. rewrite lookup_produce by done. rewrite decide_False by congruence. done.
Qed.
Lemma count_output_quiet o x : quiet (λ a, - amount a (Tx.value o)) x (TxOutputs.count_output o x).
Proof.
  eapply quiet_plus; [|apply quiet_produce|]; [|intros a; instantiate (1 := none); unfold none; lia].
  unfold TxOutputs.allow_output_datum. destruct (datum o); [apply quiet_refl|apply quiet_datum|apply quiet_refl].
Qed.
Lemma as_u16_small n : Z.of_nat n < 65536 → as_u16 n = Z.of_nat n.
Proof. intros Hn. unfold as_u16. apply Z.mod_small. lia. Qed.
Abbreviation proposals_of x := (Fragments.proposals (ctx_state (core x))).
Lemma outputs_loop pp network id outs : ∀ n inv x inv' y, Z.of_nat n + Z.of_nat (length outs) <= 65536 →
  (∀ m, Z.of_nat n <= m → utxo_lookup (mkTransactionInput id m) (core x) = None ∧ mkTransactionInput id m ∉ consumed (utxo (ctx_state (core x)))) →
  for_in (enumerate_from n outs) (TxOutputs.output_valid pp network id) (inv, x) = Ok (inv', y) → moves id none x y ∧ proposals_of y = proposals_of x.
Proof.
  induction outs as [|o outs IH]; intros n inv x inv' y Hn Hx Hl; [injection Hl as <- <-; split; [apply quiet_moves, quiet_refl|done]|].
  rewrite enumerate_cons in Hl. cbn [for_in] in Hl. apply bind_Ok in Hl as ([inv1 x1] & Ho & Hl). unfold TxOutputs.output_valid in Ho.
  apply bind_Ok in Ho as (inv2 & _ & [= -> <-]). cbn [fst snd] in Hl. cbn [length] in Hn.
  pose proof (count_output_quiet o x) as Hq. set (x0 := TxOutputs.count_output o x) in *. assert (core x0 = core x) as Hc by (unfold x0, TxOutputs.count_output, TxOutputs.allow_output_datum; by destruct (datum o)).
  destruct (Hx (Z.of_nat n) ltac:(lia)) as [Hi Hu]. rewrite <- Hc in Hi, Hu.
  pose proof (produce_moves (mkTransactionInput id (Z.of_nat n)) o x0 Hi Hu) as Hp. unfold TxOutputs.produce_one, TxOutputs.output_input in Hl. cbn [fst snd] in Hl. rewrite as_u16_small in Hl by lia.
  set (x1 := with_core (ctx_produce _ o (core x0)) x0) in *. destruct (IH (S n) inv1 x1 inv' y) as [Hm Hp']; [lia| |done|].
  - intros m Hm. destruct (Hx m ltac:(lia)) as [Hi' Hu']. rewrite <- Hc in Hi', Hu'. unfold x1. cbn [core with_core]. rewrite lookup_produce, decide_False by (done || (intros [= ]; lia)). done.
  - split; [|rewrite Hp'; unfold x1; cbn; unfold TxOutputs.allow_output_datum; by destruct (datum o)]. eapply moves_plus; [eapply moves_plus; [apply quiet_moves, Hq|exact Hp|]|exact Hm|]; [intros a; instantiate (1 := none)|]; intros; unfold none; lia.
Qed.
Lemma outputs_valid pp network id outs ret x y : Z.of_nat (length outs) <= 65536 → unknown_outputs id (core x) →
  TxOutputs.when_valid pp network id outs ret x = Ok y → moves id none x y ∧ proposals_of y = proposals_of x.
Proof.
  unfold TxOutputs.when_valid. intros Hn Hx Hr. apply bind_Ok in Hr as ([inv1 x1] & Hl%outputs_loop & Hr); [|lia|intros m _; apply Hx]. destruct Hl as [Hm Hp].
  apply bind_Ok in Hr as ([inv2 x2] & H2 & Hr). unfold TxOutputs.from_vec in Hr. case_bool_decide; [|done]. injection Hr as <-. cbn [snd].
  destruct ret as [o|]; [|injection H2 as <- <-; done]. apply bind_Ok in H2 as (inv3 & _ & [= _ <-]).
  assert (quiet none x1 (TxOutputs.allow_output_datum o x1)) as Hq.
  { unfold TxOutputs.allow_output_datum. destruct (datum o); [apply quiet_refl|apply quiet_datum|apply quiet_refl]. }
  split; [eapply moves_plus; [exact Hm|apply quiet_moves, Hq|done]|]. rewrite <- Hp. unfold TxOutputs.allow_output_datum. by destruct (datum o).
Qed.
(** No proposal of the transaction is known yet. *)
Definition unknown_proposals (id : list Z) (c : ValidationContext) : Prop := ∀ n, Fragments.proposals (ctx_state c) !! mkProposalId id n = None.
Lemma acknowledge_moves i p x : proposals_of x !! i = None → moves (proposal_transaction_id i) (ada (proposal_deposit (row_proposal p))) x (with_core (acknowledge i p (core x)) x).
Proof.
  intros Hi. constructor; try done.
  - cbn. apply rtc_once, step_acknowledge.
  - intros a. unfold held. cbn [core with_core balance]. rewrite acknowledge_ledger by done. rewrite (held_outside a (core x)) by done. unfold ada. destruct a; lia.
  - intros j Hj. cbn. rewrite lookup_insert_ne; [done|congruence].
Qed.
Lemma proposal_witness_quiet n p x : quiet none x (Proposals.require_witness n p x).
Proof. unfold Proposals.require_witness. destruct (Proposals.get_proposal_script_hash p); [apply quiet_script|apply quiet_refl]. Qed.
Lemma propose_one_moves network pp h guardrail id ptr n p x y : Z.of_nat n < 65536 → proposals_of x !! mkProposalId id (Z.of_nat n) = None →
  Proposals.propose_one network pp h guardrail id ptr x (n, p) = Ok y → moves id none x y ∧ ∀ m, m ≠ Z.of_nat n → proposals_of y !! mkProposalId id m = proposals_of x !! mkProposalId id m.
Proof.
  unfold Proposals.propose_one. intros Hn Hx Hr. rewrite as_u16_small in Hr by done. pose proof (proposal_witness_quiet n p x) as Hq. set (x1 := Proposals.require_witness n p x) in *.
  assert (core x1 = core x) as Hc by (unfold x1, Proposals.require_witness; by destruct (Proposals.get_proposal_script_hash p)). exec_inv. subst y. rewrite <- Hc in Hx.
  match goal with |- moves _ _ _ (with_core (acknowledge ?i ?row _) _) ∧ _ => pose proof (acknowledge_moves i row (produce_lovelace (proposal_deposit p) x1) Hx) as Hm end. split.
  - eapply moves_plus; [eapply moves_plus; [apply quiet_moves, Hq|apply quiet_moves, quiet_produce_lovelace|]|exact Hm|]; [intros ?; instantiate (1 := ada (- proposal_deposit p)); unfold none; lia|assets].
  - intros m Hm'. cbn. rewrite lookup_insert_ne by (intros [= ]; lia). by rewrite Hc.
Qed.
Lemma proposals_loop network pp h guardrail id ptr l : ∀ n x y, Z.of_nat n + Z.of_nat (length l) <= 65536 → (∀ m, Z.of_nat n <= m → proposals_of x !! mkProposalId id m = None) →
  for_in (enumerate_from n l) (Proposals.propose_one network pp h guardrail id ptr) x = Ok y → moves id none x y.
Proof.
  induction l as [|p l IH]; intros n x y Hn Hx Hl; [injection Hl as <-; apply quiet_moves, quiet_refl|]. rewrite enumerate_cons in Hl. cbn [for_in] in Hl. cbn [length] in Hn.
  apply bind_Ok in Hl as (x1 & [Hm Hk]%propose_one_moves & Hl); [|lia|apply Hx; lia]. eapply moves_plus; [exact Hm|eapply (IH (S n)), Hl; [lia|]|done].
  intros m Hm'. rewrite Hk by lia. apply Hx. lia.
Qed.
Lemma proposals_valid network pp h guardrail id ptr l x y : Z.of_nat (length (default [] l)) <= 65536 → unknown_proposals id (core x) →
  Proposals.when_valid network pp h guardrail id ptr l x = Ok y → moves id none x y.
Proof. intros Hn Hx. apply proposals_loop; [lia|]. intros m _. apply Hx. Qed.

(** ** When the scripts fail *)

(** Rules that only count: what is held stays. *)
Definition counts x y : Prop := core y = core x ∧ grows x y ∧ (ack_ok x → ack_ok y).
#[export] Instance counts_preorder : PreOrder counts.
Proof.
  split; [by intros x|]. intros x y z (C1 & G1 & A1) (C2 & G2 & A2). split_and!; [congruence|by etransitivity|auto].
Qed.
Lemma quiet_counts d x y : quiet d x y → core y = core x → counts x y.
Proof. intros [S G A V N U P] Hc. done. Qed.
Lemma foldl_counts {A : Type} (f : RulesContext → A → RulesContext) (l : list A) : (∀ x a, counts x (f x a)) → ∀ x, counts x (foldl f x l).
Proof. intros Hf. induction l as [|a l IH]; intros x; [done|]. cbn. etransitivity; [apply Hf|apply IH]. Qed.
Lemma treasury_counts donation x : counts x (Treasury.when_invalid donation x).
Proof. destruct donation; [|done]. by eapply quiet_counts, eq_refl; apply quiet_produce_lovelace. Qed.
Lemma core_foldl {A : Type} (f : RulesContext → A → RulesContext) (l : list A) : (∀ x a, core (f x a) = core x) → ∀ x, core (foldl f x l) = core x.
Proof. intros Hf. induction l as [|a l IH]; intros x; [done|]. cbn. by rewrite IH. Qed.
Lemma minting_counts m x : counts x (Minting.execute m x).
Proof. eapply quiet_counts; [apply minting_quiet|]. destruct m; [|done]. by apply core_foldl. Qed.
Lemma core_count_output o x : core (TxOutputs.count_output o x) = core x.
Proof. unfold TxOutputs.count_output, TxOutputs.allow_output_datum. by destruct (datum o). Qed.
Lemma outputs_counts pp network id outs ret x y : TxOutputs.when_invalid pp network id outs ret x = Ok y → ∃ x1, counts x x1 ∧
  y = from_option (λ o, TxOutputs.produce_one id (length outs, o) x1) x1 ret.
Proof.
  unfold TxOutputs.when_invalid. intros Hr. apply bind_Ok in Hr as ([inv1 x1] & Hl & Hr). assert (counts x x1) as Hc.
  { clear Hr. revert Hl. generalize (@nil (nat * TxOutputs.InvalidOutput)) as inv0. revert x. induction (enumerate outs) as [|[n o] l IH]; intros x inv0 Hl; cbn [for_in] in Hl; [by injection Hl as <- <-|].
    apply bind_Ok in Hl as ([inv3 x3] & Ho & Hl%IH). apply bind_Ok in Ho as (inv4 & _ & [= -> <-]). etransitivity; [|exact Hl]. eapply quiet_counts; [apply count_output_quiet|apply core_count_output]. }
  apply bind_Ok in Hr as ([inv2 x2] & H2 & Hr). unfold TxOutputs.from_vec in Hr. case_bool_decide; [|done]. injection Hr as <-. cbn [snd].
  destruct ret as [o|]; [|injection H2 as <- <-; by exists x1]. apply bind_Ok in H2 as (inv3 & _ & [= _ <-]). exists (TxOutputs.allow_output_datum o x1). split; [|done].
  etransitivity; [exact Hc|]. unfold TxOutputs.allow_output_datum. destruct (datum o); [done| |done]. by eapply quiet_counts; [apply quiet_datum|].
Qed.
Lemma withdrawals_counts l network x y : Withdrawals.when_invalid l network x = Ok y → counts x y.
Proof.
  unfold Withdrawals.when_invalid. intros Hr. apply bind_Ok in Hr as (sorted & _ & [= <-]). apply foldl_counts. intros x1 [n [c m]].
  eapply quiet_counts; [apply require_and_consume_quiet|by destruct c].
Qed.
Lemma core_certificate_witness cert n x : core (Certificates.require_witnesses_one cert n x) = core x.
Proof.
  assert (∀ c, core (Certificates.require_credential_witness c n x) = core x) as Hc by by intros []. destruct cert; try apply Hc; try done; cbn.
  - by rewrite core_foldl.
  - case_bool; [apply Hc|done].
Qed.
Lemma certificates_counts {E : Type} pp certs x y : Certificates.when_invalid (E := E) pp certs x = Ok y → counts x y.
Proof.
  unfold Certificates.when_invalid. intros Hr. apply bind_Ok in Hr as ([[delta s] x1] & Hl & [= <-]). assert (counts x x1) as Hc.
  { revert Hl. generalize 0 as n0. generalize (Certificates.mkLocalSlices ∅ ∅ ∅) as s0. revert x. induction (enumerate _) as [|[n cert] l IH]; intros x s0 n0 Hl; cbn [for_in] in Hl; [by injection Hl as <- <- <-|].
    apply bind_Ok in Hl as ([[delta' s'] x'] & Ho & Hl%IH). etransitivity; [|exact Hl]. unfold Certificates.count_one in Ho. apply bind_Ok in Ho as ([m s''] & _ & Ho).
    apply bind_Ok in Ho as (delta'' & _ & [= _ _ <-]). eapply quiet_counts; [apply certificate_witness_quiet|apply core_certificate_witness]. }
  etransitivity; [exact Hc|]. case_bool; [by eapply quiet_counts; [apply quiet_produce_lovelace|]|]. case_bool; [by eapply quiet_counts; [apply quiet_consume_lovelace|]|done].
Qed.
Lemma proposals_counts {E : Type} pp l x y : Proposals.when_invalid (E := E) pp l x = Ok y → counts x y.
Proof.
  unfold Proposals.when_invalid. intros Hr. apply bind_Ok in Hr as (total & _ & [= <-]). etransitivity; [|by eapply quiet_counts; [apply quiet_produce_lovelace|]].
  apply foldl_counts. intros z [n p]. eapply quiet_counts; [apply proposal_witness_quiet|]. unfold Proposals.require_witness. by destruct (Proposals.get_proposal_script_hash _).
Qed.
Lemma votes_counts procedures x : counts x (Voting.when_invalid procedures x).
Proof.
  apply foldl_counts. intros z [n v]. eapply quiet_counts; [apply voter_witness_quiet|]. unfold Voting.require_witness. by destruct (owner _).
Qed.
(** The collateral that is taken is what its outputs hold, less what is returned. *)
Lemma collateral_taken (c : Inputs.ResolvedCollateral) ret declared fee pp e : Fees.validate_collateral c ret declared fee pp = Ok e → Inputs.locked_at_script c = None ∧ 0 <= e ∧
  ∀ a, quantity a (Inputs.collateral_value c) - from_option (λ o, amount a (Tx.value o)) 0 ret = ada e a.
Proof.
  unfold Fees.validate_collateral. destruct (Inputs.locked_at_script c); [done|]. destruct (_ =? 0)%nat; [done|]. intros Hr. split; [done|].
  set (b := from_option _ _ ret) in Hr. assert (∀ a, quantity a b = quantity a (Inputs.collateral_value c) - from_option (λ o, amount a (Tx.value o)) 0 ret) as Hb.
  { intros a. unfold b. destruct ret; cbn [from_option]; [apply quantity_sub|lia]. }
  destruct (_ || _) eqn:Hz; [done|]. apply orb_false_iff in Hz as [Hpos%Z.ltb_ge Hna]. apply bind_Ok in Hr as (e' & He & Hr). destruct (_ <=? _); [|done]. injection He as <-.
  destruct (_ <? _); [done|]. assert (e = coin b) as -> by (destruct declared; [destruct (negb _); [done|]|]; congruence). split; [done|].
  intros a. rewrite <- Hb. destruct a as [k|]; [by apply no_assets_quantity|done].
Qed.
Lemma fees_invalid f x y : is_some (redeemer (Fees.fees_witness_set f)) = true → Fees.when_invalid f x = Ok y → ∃ e,
  Fees.validate_collateral (Fees.fees_collateral f) (Fees.fees_collateral_return f) (Fees.declared_collateral f) (Fees.declared_fee f) (Fees.fees_parameters f) = Ok e ∧
  op_effect e (core x) (core y) ∧ grows x y ∧ (ack_ok x → ack_ok y).
Proof.
  unfold Fees.when_invalid. intros Hs Hr. apply bind_Ok in Hr as ([e x1] & [-> Hv]%fees_validate & Hr). specialize (Hv Hs). exists e. destruct (collateral_taken _ _ _ _ _ _ Hv) as (_ & He & _).
  assert (quiet (ada e) (produce_lovelace (Fees.declared_fee f) x) y) as Hq by (eapply quiet_lift, Hr; intros c; by apply add_fees_effect).
  pose proof (quiet_produce_lovelace (Fees.declared_fee f) x) as Hp. split_and!; [done| |etransitivity; [apply Hp|apply Hq]|intros Hx; by apply Hq, Hp].
  apply bind_Ok in Hr as (c & Hc & [= <-]). exact (add_fees_effect e _ _ He Hc).
Qed.
End PhaseOneProps.
