(* ===== verification/TransactionProps.v ===== *)
(** * What an accepted transaction does

    The rules put together: value is conserved, what is spent is authorised, and the context changes by its own operations. *)

From S2P Require Import Prelude BTreeMap SortedAssoc SortedPairs UplcSyntax ProtocolParameters Governance EraHistory Summary ProposalsForest PoolsUpdates StakeSummary Ratification Builtins PhaseTwo EpochTransition Fragments FragmentsProps Volatile VolatileReads BlockStore BlockContext LayeredView ContextProps LedgerState Transaction RulesContext PhaseOne PhaseOneGov PhaseOneScripts TransactionRules ValueProps RulesProps PhaseOneProps.
From S2P Require Flat.
Import Flat(DataCodec, DataCodecLaws).
Import Tx Rules.
#[local] Open Scope Z_scope.

Section TransactionProps.
Context `{Crypto} `{DataCodec} `{Codecs}.
Implicit Types (x y z : RulesContext) (c : ValidationContext) (t : TransactionRef).

(** ** Spending *)
Definition lookups_in c (l : list TransactionInput) : Prop := ∀ i, i ∈ l → is_Some (utxo_lookup i c).
Lemma lookup_consume i j c : utxo_lookup j (ctx_consume i c) = if decide (i = j) then None else utxo_lookup j c.
Proof.
  unfold utxo_lookup. cbn. destruct (decide (i = j)) as [->|Hne]; [by rewrite !lookup_delete_eq|by rewrite !lookup_delete_ne].
Qed.
Lemma sum_list_ext {A : Type} (f g : A → Z) (l : list A) : (∀ a, a ∈ l → f a = g a) → sum_list f l = sum_list g l.
Proof.
  induction l as [|a l IH]; intros Hf; [done|]. unfold sum_list in *. cbn. rewrite Hf by left. rewrite IH; [done|]. intros b Hb. apply Hf. by right.
Qed.
Definition consumed_all (l : list TransactionInput) c : ValidationContext := foldl (λ c i, ctx_consume i c) c l.
Lemma consume_all_core l : ∀ c, consume_all l (rules_of c) = rules_of (consumed_all l c).
Proof. induction l as [|i l IH]; intros c; [done|]. apply IH. Qed.
Lemma consume_all_spec l : ∀ c, NoDup l → lookups_in c l → rtc ctx_step c (consumed_all l c) ∧
  (∀ a, held a (consumed_all l c) = held a c - sum_list (output_amount a c) l) ∧
  (∀ i, i ∉ l → utxo_lookup i (consumed_all l c) = utxo_lookup i c) ∧
  (∀ i, i ∈ l → utxo_lookup i (consumed_all l c) = None) ∧
  consumed (utxo (ctx_state (consumed_all l c))) = list_to_set l ∪ consumed (utxo (ctx_state c)) ∧
  Fragments.proposals (ctx_state (consumed_all l c)) = Fragments.proposals (ctx_state c).
Proof.
  induction l as [|i l IH]; intros c Hd Hl; [split_and!; try done; [intros a; unfold sum_list; cbn; lia|by intros i ?%elem_of_nil|cbn; by rewrite union_empty_l_L]|].
  apply NoDup_cons in Hd as [Hi Hd]. destruct (Hl i (list_elem_of_here _ _)) as [o Ho].
  assert (∀ j, j ∈ l → utxo_lookup j (ctx_consume i c) = utxo_lookup j c) as Hk by (intros j Hj; rewrite lookup_consume, decide_False; [done|congruence]).
  destruct (IH (ctx_consume i c) Hd) as (S & V & K & N & C & P); [intros j Hj; rewrite Hk by done; apply Hl; by right|]. cbn [consumed_all foldl] in *. fold (consumed_all l (ctx_consume i c)) in *. split_and!.
  - eapply rtc_l; [apply step_consume|exact S].
  - intros a. rewrite V. rewrite (sum_list_ext _ (output_amount a c) l) by (intros j Hj; unfold output_amount; by rewrite Hk). unfold sum_list. cbn. fold (sum_list (output_amount a c) l).
    unfold held. rewrite (consume_outputs _ _ o) by done. rewrite consume_ledger. unfold output_amount at 2. rewrite Ho. cbn. lia.
  - intros j Hj. rewrite K by (intros ?; apply Hj; by right). rewrite lookup_consume, decide_False; [done|]. intros ->. apply Hj. by left.
  - intros j [->|Hj]%elem_of_cons; [|by apply N]. rewrite K by done. by rewrite lookup_consume, decide_True.
  - rewrite C. cbn. by rewrite (assoc_L (∪)), (comm_L (∪) (list_to_set l)).
  - by rewrite P.
Qed.

(** ** Transactions that can be *)
(** Amounts are natural numbers, sets have no duplicates, and positions fit their sixteen bits. *)
Record well_formed t : Prop := {
  wf_fee : 0 <= fee (body t);
  wf_donation : from_option (Z.le 0) True (donation (body t));
  wf_withdrawals : Forall (λ aw, 0 <= aw.2) (default [] (withdrawals (body t)));
  wf_inputs : NoDup (inputs (body t));
  wf_collateral : NoDup (default [] (collateral (body t)));
  wf_outputs : Z.of_nat (length (outputs (body t))) <= 65536;
  wf_proposals : Z.of_nat (length (default [] (proposals (body t)))) <= 65536 }.
Definition unknown (id : list Z) c : Prop := unknown_outputs id c ∧ unknown_proposals id c.

(** The scripts that a transaction refers to are in the outputs of its inputs and reference inputs. *)
Definition offered t c : Locations := λ i o, (i ∈ inputs (body t) ∨ i ∈ default [] (reference_inputs (body t))) ∧ utxo_lookup i c = Some o.
(** Who may act for a credential, and spend an output. *)
Definition agreed t c (k : RedeemerKey) (owner : Credential) : Prop :=
  match owner with ScriptHash h => script_witnessed (Loc := offered t c) t h k | KeyHash h => signed t h end.
Definition authorised t c (k : RedeemerKey) (o : TransactionOutput) : Prop :=
  match address o with Byron a => signed t (root a) | Shelley a => agreed t c k (payment a) end.
(** So too for the accounts that are withdrawn from, by their position in the order of credentials. *)
Definition withdrawals_agreed t c : Prop := ∃ order, withdrawal_order (default [] (withdrawals (body t))) order ∧
  ∀ n owner, (n, owner) ∈ enumerate order → agreed t c (mkRedeemerKey Reward (as_u32 n)) owner.

Section Owners.
Context (t : TransactionRef) (c : ValidationContext).
#[local] Instance offered_here : Locations := offered t c.
Lemma asked_authorised k o x : (∀ h, h ∈ signers x ∨ h ∈ bootstrap_roots x → signed t h) → (∀ h k, requires h k x → script_witnessed t h k) → owner_asked k o x → authorised t c k o.
Proof. intros Hs Hr. unfold owner_asked, authorised, agreed. destruct (address o) as [a|a]; [auto|]. destruct (payment a); [apply Hr|auto]. Qed.
Lemma asked_agreed n owner x : (∀ h, h ∈ signers x ∨ h ∈ bootstrap_roots x → signed t h) → (∀ h k, requires h k x → script_witnessed t h k) → withdrawal_witness owner n x →
  agreed t c (mkRedeemerKey Reward (as_u32 n)) owner.
Proof. intros Hs Hr. unfold withdrawal_witness, agreed. destruct owner; [apply Hr|auto]. Qed.
Lemma ack_rules_of c' : ack_ok (rules_of c').
Proof. intros h i. cbn. by rewrite lookup_empty. Qed.
Lemma no_zero_empty : no_zero Balance_empty.
Proof. intros k. cbn. by rewrite lookup_empty. Qed.
Lemma quantity_empty a : quantity a Balance_empty = 0.
Proof. destruct a; cbn; [by rewrite lookup_empty|done]. Qed.

Lemma settled id d x : moves id d (rules_of c) x → is_zero (balance x) = true → moves id d (rules_of c) (rules_of (core x)).
Proof.
  intros [S G A V N K C U P] Hz. constructor; try done. intros a. rewrite <- V. cbn [core balance rules_of].
  rewrite is_zero_spec in Hz by apply N, no_zero_empty. by rewrite quantity_empty, Hz.
Qed.
(** Only what is held matters to a transaction that starts afresh. *)
Lemma moved_core id d x y c' : core x = c' → moves id d x y → balance y = balance x → moves id d (rules_of c') (rules_of (core y)).
Proof.
  intros <- [S G A V N K C U P] Hb. constructor; try done. intros a. cbn. specialize (V a). rewrite Hb in V. lia.
Qed.
(** What phase one leaves of a transaction with valid scripts. *)
Lemma resolve_spec env r y : resolve_inputs_of env t (rules_of c) = Ok (r, y) → resolved (inputs (body t)) (default [] (collateral (body t))) (rules_of c) r y.
Proof. unfold resolve_inputs_of. intros Hr%map_err_Ok. eapply inputs_resolved, Hr. intros i o Hi Ho. by split. Qed.
Lemma when_valid_spec env spent y : when_valid env t (rules_of c) = Ok (spent, y) → well_formed t → unknown (tx_id t) c → spent = inputs (body t) ∧ ∃ c1, y = rules_of c1 ∧
  moves (tx_id t) (λ a, sum_list (output_amount a c) (inputs (body t)) + minted a (mint (body t))) (rules_of c) (rules_of c1) ∧
  (∀ n i, (n, i) ∈ enumerate (inputs (body t)) → ∃ o, utxo_lookup i c = Some o ∧ authorised t c (mkRedeemerKey Spend (as_u32 n)) o) ∧ withdrawals_agreed t c.
Proof.
  unfold when_valid. intros Hr Ht [Ho Hp]. apply bind_Ok in Hr as ([] & _ & Hr). apply bind_Ok in Hr as ([r x1] & Hi%resolve_spec & Hr).
  apply bind_Ok in Hr as (x2 & H2%map_err_Ok%(fees_valid (declared_fees env t r) _ _ (wf_fee _ Ht)) & Hr). apply bind_Ok in Hr as (x3 & H3%map_err_Ok%(treasury_valid _ _ _ _ (wf_donation _ Ht)) & Hr).
  pose proof (minting_quiet (mint (body t)) x3) as H4. set (x4 := Minting.execute _ x3) in *. assert (quiet (λ a, sum_list (output_amount a c) (inputs (body t)) + minted a (mint (body t))) (rules_of c) x4) as Q4.
  { eapply quiet_plus; [apply (rs_quiet _ _ _ _ _ Hi)|eapply quiet_plus; [exact H2|eapply quiet_plus; [exact H3|exact H4|]|]|]; intros a; [reflexivity|reflexivity|]; cbn; unfold none; lia. }
  destruct (q_utxo _ _ _ Q4) as [U4 W4]. pose proof (q_proposals _ _ _ Q4) as P4. cbn [core rules_of] in U4, W4, P4.
  assert (unknown_outputs (tx_id t) (core x4)) as Ho4 by (unfold unknown_outputs, utxo_lookup; rewrite U4, W4; exact Ho).
  apply bind_Ok in Hr as (x5 & [M5 P5]%map_err_Ok%(outputs_valid _ _ _ _ _ _ _ (wf_outputs _ Ht) Ho4) & Hr).
  apply bind_Ok in Hr as (x6 & (H6 & order & Hord & W6)%map_err_Ok%(withdrawals_valid _ _ _ _ (wf_withdrawals _ Ht)) & Hr). apply bind_Ok in Hr as (x7 & H7%map_err_Ok%certificates_valid & Hr).
  assert (unknown_proposals (tx_id t) (core x7)) as Hp7 by (unfold unknown_proposals; rewrite (q_proposals _ _ _ H7), (q_proposals _ _ _ H6), P5, P4; exact Hp).
  apply bind_Ok in Hr as (x8 & M8%map_err_Ok%(proposals_valid _ _ _ _ _ _ _ _ _ (wf_proposals _ Ht) Hp7) & Hr).
  apply bind_Ok in Hr as (x9 & H9%map_err_Ok%votes_valid & Hr). apply bind_Ok in Hr as (x10 & Hw & [= <- <-]).
  assert (moves (tx_id t) none x4 x9) as M9.
  { eapply moves_plus; [exact M5|eapply moves_plus; [apply quiet_moves, H6|eapply moves_plus; [apply quiet_moves, H7|eapply moves_plus; [exact M8|apply quiet_moves, H9|]|]|]|]; done. }
  assert (moves (tx_id t) (λ a, sum_list (output_amount a c) (inputs (body t)) + minted a (mint (body t))) (rules_of c) x9) as M.
  { eapply moves_plus; [apply quiet_moves, Q4|exact M9|]. intros a. unfold none. lia. }
  apply check_witnesses_spec in Hw as (-> & Hz & Hs & Hq); [|apply M, ack_rules_of]. split; [apply (rs_spent _ _ _ _ _ Hi)|]. exists (core x9). split_and!; [done| | |].
  - by apply settled.
  - intros n i Hin. destruct (rs_owners _ _ _ _ _ Hi n i Hin) as (o & Hl & Ha). exists o. split; [exact Hl|]. eapply asked_authorised; [exact Hs|exact Hq|].
    eapply owner_asked_grows, Ha. transitivity x4; [|apply M9]. transitivity x2; [apply H2|]. transitivity x3; [apply H3|apply H4].
  - exists order. split; [done|]. intros n owner Hn%W6. eapply asked_agreed; [exact Hs|exact Hq|]. eapply withdrawal_witness_grows, Hn.
    transitivity x7; [apply H7|]. transitivity x8; [apply M8|apply H9].
Qed.

(** Collateral is what scripts that fail cost. *)
Lemma when_invalid_spec env spent y : is_some (redeemer (witnesses t)) = true → when_invalid env t (rules_of c) = Ok (spent, y) → unknown (tx_id t) c →
  spent = default [] (collateral (body t)) ∧ ∃ c1, y = rules_of c1 ∧
  moves (tx_id t) (λ a, sum_list (output_amount a c) (default [] (collateral (body t)))) (rules_of c) (rules_of c1) ∧
  ∀ i, i ∈ default [] (collateral (body t)) → ∃ o, utxo_lookup i c = Some o ∧ ∀ k, authorised t c k o.
Proof.
  unfold when_invalid. intros Hd Hr [Ho _]. apply bind_Ok in Hr as ([] & _ & Hr). apply bind_Ok in Hr as ([r x1] & Hi%resolve_spec & Hr).
  apply bind_Ok in Hr as (x2 & H2%map_err_Ok%(fees_invalid (declared_fees env t r) _ _ Hd) & Hr). destruct H2 as (e & He%collateral_taken & O2 & G2 & A2). destruct He as (Hlock & _ & He). cbn in Hlock, He.
  pose proof (treasury_counts (donation (body t)) x2) as C3. set (x3 := Treasury.when_invalid _ x2) in *. pose proof (minting_counts (mint (body t)) x3) as C4. set (x4 := Minting.execute _ x3) in *.
  apply bind_Ok in Hr as (x5 & (x5' & C5 & H5)%map_err_Ok%outputs_counts & Hr). apply bind_Ok in Hr as (x6 & C6%map_err_Ok%withdrawals_counts & Hr).
  apply bind_Ok in Hr as (x7 & C7%certificates_counts & Hr). apply bind_Ok in Hr as (x8 & C8%proposals_counts & Hr). pose proof (votes_counts (votes (body t)) x8) as C9. set (x9 := Voting.when_invalid _ x8) in *.
  apply bind_Ok in Hr as (x10 & Hw & [= <- <-]).
  assert (counts x2 x5') as C25 by (do 2 (etransitivity; [eassumption|]); done). assert (counts x5 x9) as C59 by (do 3 (etransitivity; [eassumption|]); done).
  assert (core x1 = c) as Hc1 by apply (rs_core _ _ _ _ _ Hi). assert (core x5' = core x2) as Hc5 by apply C25. rewrite Hc1 in O2.
  assert (moves (tx_id t) (λ a, from_option (λ o, amount a (Tx.value o)) 0 (collateral_return (body t))) x5' x5) as M5.
  { destruct (oe_utxo _ _ _ O2) as [U W]. subst x5. destruct (collateral_return (body t)) as [o|]; cbn [from_option]; [|apply quiet_moves; eapply quiet_ext, quiet_refl; done].
    apply (produce_moves (TxOutputs.output_input (tx_id t) (length (outputs (body t)))) o x5'); unfold utxo_lookup; rewrite Hc5, ?U, W; apply Ho. }
  assert (grows x1 x9 ∧ ack_ok x9) as [G Ack].
  { split; [transitivity x2; [done|]; transitivity x5'; [apply C25|]; transitivity x5; [apply M5|apply C59]|]. apply C59, M5, C25, A2, (rs_quiet _ _ _ _ _ Hi), ack_rules_of. }
  apply check_witnesses_spec in Hw as (-> & Hz & Hs & Hq); [|done]. split; [apply (rs_spent _ _ _ _ _ Hi)|]. exists (core x9). split_and!; [done| |].
  - pose proof (quiet_moves (tx_id t) _ _ _ (quiet_core e (core x2) (rules_of c) O2)) as M2. assert (balance x5 = balance x5') as Hb by (subst x5; by destruct (collateral_return (body t))). pose proof (moved_core _ _ x5' x5 (core x2) Hc5 M5 Hb) as M5'.
    assert (core x9 = core x5) as -> by apply C59. eapply moves_plus; [exact M2|exact M5'|]. intros a. cbn. rewrite <- He, (rs_collateral _ _ _ _ _ Hi). cbn. lia.
  - intros i Hin. destruct (rs_backers _ _ _ _ _ Hi i Hin) as (o & Hl & Ha). exists o. split; [exact Hl|]. intros k. eapply asked_authorised; [exact Hs|exact Hq|]. eapply owner_asked_grows, Ha; done.
Qed.
End Owners.

(** ** Transactions *)
Definition spent_by t : list TransactionInput := if is_expected_valid t then inputs (body t) else default [] (collateral (body t)).
Definition minted_by t (a : Asset) : Z := if is_expected_valid t then minted a (mint (body t)) else 0.
Record applied t c c' : Prop := {
  ap_steps : rtc ctx_step c c';
  ap_value a : held a c' = held a c + minted_by t a;
  ap_spent i : i ∈ spent_by t → utxo_lookup i c' = None;
  ap_kept i : i ∉ spent_by t → transaction_id i ≠ tx_id t → utxo_lookup i c' = utxo_lookup i c;
  ap_authorised n i : (n, i) ∈ enumerate (spent_by t) → ∃ o, utxo_lookup i c = Some o ∧ authorised t c (mkRedeemerKey Spend (as_u32 n)) o;
  ap_withdrawals : is_expected_valid t = true → withdrawals_agreed t c;
  ap_unknown id : id ≠ tx_id t → unknown id c → unknown id c' }.
Lemma spending_applies t c c1 : NoDup (spent_by t) → moves (Loc := offered t c) (tx_id t) (λ a, sum_list (output_amount a c) (spent_by t) + minted_by t a) (rules_of c) (rules_of c1) →
  (∀ n i, (n, i) ∈ enumerate (spent_by t) → ∃ o, utxo_lookup i c = Some o ∧ authorised t c (mkRedeemerKey Spend (as_u32 n)) o) →
  (is_expected_valid t = true → withdrawals_agreed t c) → applied t c (consumed_all (spent_by t) c1).
Proof.
  intros Hd [S _ _ V _ K C U P] Ha Hw. cbn [core balance rules_of] in *.
  assert (lookups_in c (spent_by t)) as Hl by (intros i Hin; destruct (enumerate_all i _ 0 Hin) as [n Hn]; destruct (Ha n i Hn) as (o & Ho & _); by exists o).
  destruct (consume_all_spec (spent_by t) c1 Hd) as (S' & V' & K' & N' & C' & P'); [intros i [o Ho]%Hl; exists o; by apply K|]. constructor; [by etransitivity| |done| |done|done|].
  - intros a. rewrite V'. specialize (V a). rewrite quantity_empty in V. rewrite (sum_list_ext _ (output_amount a c)); [lia|].
    intros i [o Ho]%Hl. unfold output_amount. by rewrite Ho, (K i o Ho).
  - intros i Hi Hid. by rewrite K', U.
  - intros id Hid [Ho Hp]. split; [|intros n; rewrite P', P by done; apply Hp]. intros n. destruct (Ho n) as [Hn Hc]. assert (mkTransactionInput id n ∉ spent_by t) as Hs.
    { intros [o Hs]%Hl. congruence. }
    rewrite K', U, Hn, C', C by done. split; [done|]. intros [Hin%elem_of_list_to_set|Hin]%elem_of_union; [done|done].
Qed.

Context {Arg : Type} (from_cbor : Arg → option PlutusData) (fuel : nat).
Context (scripts_of : Environment → TransactionRef → gmap TransactionInput TransactionOutput → exec PreparationError (list (RedeemerKey * ScriptContext (Arg := Arg) * BorrowedScript))).
Lemma transaction_applies env t c y : validate_transaction from_cbor fuel scripts_of env t (rules_of c) = Ok y → well_formed t → unknown (tx_id t) c →
  ∃ c', y = rules_of c' ∧ applied t c c'.
Proof.
  unfold validate_transaction. intros Hr Ht Hu. pose proof (spending_applies t c) as Hs. unfold spent_by, minted_by in Hs. destruct (is_expected_valid t).
  - apply bind_Ok in Hr as ([spent x1] & Hv%map_err_Ok & Hr). apply bind_Ok in Hr as ([|f fs] & _ & Hr); [|done]. injection Hr as <-.
    apply when_valid_spec in Hv as (-> & c1 & -> & Hm & Ha & Hw); [|done|done]. rewrite consume_all_core. exists (consumed_all (inputs (body t)) c1). split; [done|]. apply Hs; [apply Ht|done|done|]. intros _. apply Hw.
  - apply bind_Ok in Hr as ([spent x1] & Hv%map_err_Ok & Hr). apply bind_Ok in Hr as ([|f fs] & Hf & Hr); [done|]. injection Hr as <-.
    destruct (is_some (redeemer (witnesses t))) eqn:Hd; [|unfold evaluate_scripts, PhaseTwo.execute in Hf; by rewrite Hd in Hf].
    apply when_invalid_spec in Hv as (-> & c1 & -> & Hm & Ha); [|done|done]. rewrite consume_all_core. eexists. split; [done|]. apply Hs; [apply Ht| | |done].
    + destruct Hm as [S G A V N K C U P]. constructor; try done. intros a. rewrite V. lia.
    + intros n i [Hin _]%enumerate_elem. destruct (Ha i Hin) as (o & Ho & Hk). by exists o.
Qed.
(** The keys of the witnesses have signed. *)
Lemma checked_signed env t x y : check_witnesses env t x = Ok y → ∀ h, h ∈ Scripts.collect_verification_key_hashes (witnesses t) → signed t h.
Proof. unfold check_witnesses. intros Hr. apply bind_Ok in Hr as (x1 & Hs%map_err_Ok & _). by eapply keys_signed. Qed.
Ltac rule Hr := apply bind_Ok in Hr as (? & _ & Hr).
Lemma witnesses_signed env t x y : validate_transaction from_cbor fuel scripts_of env t x = Ok y → ∀ h, h ∈ Scripts.collect_verification_key_hashes (witnesses t) → signed t h.
Proof.
  unfold validate_transaction. destruct (is_expected_valid t); intros Hr; apply bind_Ok in Hr as ([spent x1] & Hr%map_err_Ok & _).
  - unfold when_valid in Hr. rule Hr. apply bind_Ok in Hr as ([r x2] & _ & Hr). do 7 rule Hr. apply bind_Ok in Hr as (z & Hw & _). by eapply checked_signed.
  - unfold when_invalid in Hr. rule Hr. apply bind_Ok in Hr as ([r x2] & _ & Hr). do 5 rule Hr. apply bind_Ok in Hr as (z & Hw & _). by eapply checked_signed.
Qed.
(** ** Blocks *)
(** The transactions of a block have identifiers of their own, that nothing knows yet. *)
Record block_ok (l : list TransactionRef) c : Prop := {
  bo_well_formed : Forall well_formed l;
  bo_ids : NoDup (map tx_id l);
  bo_unknown : Forall (λ t, unknown (tx_id t) c) l }.
Lemma block_ok_next t l c c' : block_ok (t :: l) c → applied t c c' → block_ok l c'.
Proof.
  intros [Hw Hd Hu] Ha. apply Forall_cons in Hw as [_ Hw]. cbn in Hd. apply NoDup_cons in Hd as [Ht Hd]. apply Forall_cons in Hu as [_ Hu]. constructor; [done|done|].
  rewrite Forall_forall in *. intros t' Hin. apply (ap_unknown _ _ _ Ha); [|by apply Hu]. intros He. apply Ht. rewrite <- He. apply list_elem_of_fmap. by exists t'.
Qed.
(** An output that is gone stays gone. *)
Definition gone (i : TransactionInput) (l : list TransactionRef) c : Prop := utxo_lookup i c = None ∧ ∀ t, t ∈ l → transaction_id i ≠ tx_id t.
Lemma gone_not_spent i t l c c' : gone i (t :: l) c → applied t c c' → (i ∉ spent_by t) ∧ gone i l c'.
Proof.
  intros [Hn Hid] Ha. assert (i ∉ spent_by t) as Hs.
  { intros Hin. destruct (enumerate_all i _ 0 Hin) as [n Hi]. destruct (ap_authorised _ _ _ Ha n i Hi) as (o & Ho & _). congruence. }
  split; [done|]. split; [|intros t' Ht'; apply Hid; by right]. rewrite (ap_kept _ _ _ Ha); [done|done|]. apply Hid. by left.
Qed.
Lemma spent_gone i t l c c' : block_ok (t :: l) c → applied t c c' → i ∈ spent_by t → gone i l c'.
Proof.
  intros Hb Ha Hin. split; [by apply (ap_spent _ _ _ Ha)|]. intros t' Ht' He. destruct (enumerate_all i _ 0 Hin) as [n Hi]. destruct (ap_authorised _ _ _ Ha n i Hi) as (o & Ho & _).
  destruct (proj1 (Forall_forall _ _) (bo_unknown _ _ Hb) t' ltac:(by right)) as [Hu _]. destruct i as [id m]. cbn in He. subst id. destruct (Hu m). congruence.
Qed.
Definition minted_in (l : list TransactionRef) (a : Asset) : Z := sum_list (λ t, minted_by t a) l.
Record all_applied (l : list TransactionRef) c c' : Prop := {
  al_steps : rtc ctx_step c c';
  al_value a : held a c' = held a c + minted_in l a;
  al_spent : NoDup (concat (map spent_by l)) ∧ ∀ i, i ∈ concat (map spent_by l) → utxo_lookup i c' = None;
  al_gone i : gone i l c → (i ∉ concat (map spent_by l)) ∧ utxo_lookup i c' = None }.
Lemma all_applied_cons t l c c1 c' : well_formed t → block_ok (t :: l) c → applied t c c1 → all_applied l c1 c' → all_applied (t :: l) c c'.
Proof.
  intros Ht Hb Ha [S V N G]. constructor.
  - etransitivity; [apply (ap_steps _ _ _ Ha)|exact S].
  - intros a. rewrite V, (ap_value _ _ _ Ha). unfold minted_in, sum_list. cbn. lia.
  - destruct N as [N D]. cbn. split; [apply NoDup_app; split_and!; [|intros i Hin; apply G; by eapply spent_gone|done]; unfold spent_by; destruct (is_expected_valid t); apply Ht|].
    intros i [Hin|Hin]%elem_of_app; [|by apply D]. apply G. by eapply spent_gone.
  - intros i Hg. destruct (gone_not_spent _ _ _ _ _ Hg Ha) as [Hs Hg']. split; [|by apply G]. cbn. intros [Hin|Hin]%elem_of_app; [done|]. by apply (G i Hg').
Qed.
Lemma transactions_apply env l : ∀ c y, block_ok (map snd l) c → for_in l (execute_transaction from_cbor fuel scripts_of env) (rules_of c) = Ok y →
  ∃ c', y = rules_of c' ∧ all_applied (map snd l) c c'.
Proof.
  induction l as [|[n t] l IH]; intros c y Hb Hl; cbn [for_in] in Hl.
  - injection Hl as <-. exists c. split; [done|]. constructor; [done|intros a; unfold minted_in, sum_list; cbn; lia|split; [constructor|by intros i ?%elem_of_nil]|].
    intros i [Hn _]. split; [by intros ?%elem_of_nil|done].
  - cbn [map snd] in Hb. apply bind_Ok in Hl as (x1 & Ht%map_err_Ok & Hl). cbn [fst snd] in Ht. pose proof Hb as [[Hw _]%Forall_cons _ [Hu _]%Forall_cons].
    apply transaction_applies in Ht as (c1 & -> & Ha); [|done|done]. destruct (IH c1 y) as (c' & -> & Hall); [by eapply block_ok_next|done|]. exists c'. split; [done|]. by eapply all_applied_cons.
Qed.
Lemma block_applies network pp h dormant guardrail b c y : block_ok (map snd (transactions b)) c →
  execute_block from_cbor fuel scripts_of network pp h dormant guardrail b (rules_of c) = Ok y → ∃ c', y = rules_of c' ∧ all_applied (map snd (transactions b)) c c'.
Proof.
  unfold execute_block. intros Hb Hr. do 4 apply bind_Ok in Hr as ([] & _ & Hr). by eapply transactions_apply.
Qed.
End TransactionProps.
