(* ===== verification/RulesClaims.v ===== *)
(** * What the rules of the ledger guarantee

    Value is conserved by blocks, nothing is spent twice, who owns what is spent has agreed to it, and reference scripts
    are paid for by the byte.  The claims are about
    [validate_block] as the ledger state calls it ([rules_parts]), and hold for any hash functions, signature scheme,
    encodings and translation of scripts. *)

From Stdlib Require Import QArith Qround Qpower.
From S2P Require Import Prelude BTreeMap SortedAssoc SortedPairs UplcSyntax ProtocolParameters Governance EraHistory Summary ProposalsForest PoolsUpdates StakeSummary Rewards Ratification ForestProps Builtins BuiltinSafety PhaseTwo EpochTransition Fragments FragmentsProps Volatile VolatileReads BlockStore BlockContext LayeredView ContextProps LedgerState Transaction RulesContext PhaseOne PhaseOneGov PhaseOneScripts TransactionRules ValueProps RulesProps PhaseOneProps TransactionProps.
From S2P Require Flat Headers.
Import Flat(DataCodec, DataCodecLaws).
Import Stake(mkAccountRow).
Import Rewards(ratio_of, ratio_add, ratio_mul, floor_to_lovelace).
Import Tx Rules.
#[local] Open Scope Z_scope.

Section Claims.
Context `{Crypto} `{DataCodec} `{Codecs} `{Headers.Hashing}.
Context {Arg : Type} (from_cbor : Arg → option PlutusData) (fuel : nat).
Context (scripts_of : Environment → TransactionRef → gmap TransactionInput TransactionOutput → exec PreparationError (list (RedeemerKey * ScriptContext (Arg := Arg) * BorrowedScript))).
Context (network : Network) (h : EraHistory).
Context (tasks : bool → Z → ProtocolParameters → Columns → Columns → RewardsComputation).
Context (ratification : Columns → StakeDistribution → ProtocolParameters → Z → exec Overlay.StateError RatificationContext).
Let parts : LedgerParts Block := rules_parts from_cbor fuel scripts_of network h tasks ratification.
#[local] Existing Instance parts.

Lemma validated_block_applies pp dormant guardrail (b : Block) x x' : LedgerState.validate_block pp dormant guardrail b x = Ok x' → block_ok (map snd (transactions b)) x →
  all_applied (map snd (transactions b)) x x'.
Proof.
  intros Hr Hb. apply bind_Ok in Hr as (y & Hy%map_err_Ok & [= <-]). by apply block_applies in Hy as (c' & -> & Ha).
Qed.

(** C1: a block that the rules accept conserves value, and changes the context of the block
    by the operations of the context only.  For lovelace and for every asset, what outputs,
    rewards, deposits, fees and donations hold afterwards is what they held before, with what valid
    transactions mint and without what they burn; an invalid transaction turns collateral into fees and
    change.  Amounts are natural numbers, inputs have no duplicates, and the identifiers of the
    transactions are distinct and new. *)
Theorem block_conserves_value pp dormant guardrail (b : Block) x x' : LedgerState.validate_block pp dormant guardrail b x = Ok x' → block_ok (map snd (transactions b)) x →
  rtc ctx_step x x' ∧ ∀ a, held a x' = held a x + minted_in (map snd (transactions b)) a.
Proof. intros Hr Hb. destruct (validated_block_applies _ _ _ _ _ _ Hr Hb) as [S V _ _]. done. Qed.

(** C3: no output is spent twice.  The inputs that the valid transactions of an accepted block spend, with the collateral of the
    invalid ones, are all different, and none of them can be found once the block is applied. *)
Theorem no_double_spending pp dormant guardrail (b : Block) x x' : LedgerState.validate_block pp dormant guardrail b x = Ok x' → block_ok (map snd (transactions b)) x →
  NoDup (concat (map spent_by (map snd (transactions b)))) ∧ ∀ i, i ∈ concat (map spent_by (map snd (transactions b))) → utxo_lookup i x' = None.
Proof. intros Hr Hb. destruct (validated_block_applies _ _ _ _ _ _ Hr Hb) as [_ _ S _]. done. Qed.

(** C2: nothing is taken without the agreement of its owner.  Each output that an accepted transaction spends exists, and its payment key or
    bootstrap root signed the transaction, or its script comes with the transaction or is in an output that the transaction refers to, and it is a native script that
    evaluates to true or a Plutus script for whose input there is a redeemer.  So too for the accounts that a valid transaction withdraws from, where the redeemer
    is the one of the position of the account in the order of credentials.  The keys that native scripts are evaluated with have all signed. *)
Theorem spending_is_authorised env t c y : validate_transaction from_cbor fuel scripts_of env t (rules_of c) = Ok y → well_formed t → unknown (tx_id t) c →
  (∀ n i, (n, i) ∈ enumerate (spent_by t) → ∃ o, utxo_lookup i c = Some o ∧ authorised t c (mkRedeemerKey Spend (as_u32 n)) o) ∧
  (is_expected_valid t = true → withdrawals_agreed t c) ∧
  (∀ h, h ∈ Scripts.collect_verification_key_hashes (witnesses t) → signed t h).
Proof.
  intros Hr Ht Hu. destruct (transaction_applies _ _ _ _ _ _ _ Hr Ht Hu) as (c' & _ & Ha). split_and!; [apply Ha|apply Ha|]. by eapply witnesses_signed.
Qed.
End Claims.

(** ** A sample block *)
Module SampleBlock.
#[export] Existing Instance SmallCrypto.crypto.
#[export] Existing Instance Flat.small_data_codec.
#[export] Instance codecs : Codecs := {| value_size _ := 50; language_views_bytes _ := [] |}.
#[export] Instance hashing : Headers.Hashing := {| Headers.blake2b_256 := id; Headers.blake2b_224 := id |}.
Definition native : NativeScript := mkNativeScript [9] (All [VerificationKey [1]]).
Definition fails : PlutusScript := mkPlutusScript
  (match Flat.encode (H := Flat.small_data_codec) (mkProgram V1_1_0 (Lambda 0 Error)) with Ok bytes => Some bytes | _ => None end) [77].
Definition at_key (n : Z) (v : Value) : TransactionOutput := mkTransactionOutput 60 (Shelley (mkShelleyAddress Mainnet (KeyHash [n]) None)) v NoDatum None.
Definition at_script (v : Value) : TransactionOutput := mkTransactionOutput 60 (Shelley (mkShelleyAddress Mainnet (ScriptHash [77]) None)) v NoDatum None.
Definition input (n : Z) : TransactionInput := mkTransactionInput [7] n.
Definition tokens : Mint := [([0; 9], [([5], 7)])].
Definition context : ValidationContext :=
  mkContext {[ input 0 := at_key 1 (Coin 100000000); input 1 := at_key 1 (Coin 5000000); input 2 := at_script (Coin 50000000) ]} ∅
    {[ KeyHash [1] := mkAccountRow None 2000000 (Some (DRep_Abstain, mkCertificatePointer 0 0 0)) 3000000 ]} ∅ ∅ ∅ LateProposals.no_roots 0 fragment_default.
Definition signatures (l : list Z) : option (list VerificationKeyWitness) := Some (map (λ n, mkVerificationKeyWitness [n] []) l).
(** Withdraws, registers an account and mints. *)
Definition valid_body : TransactionBody := {|
  hash := [11]; body_len := 200; inputs := [input 0]; outputs := [at_key 3 (Multiasset 100000000 tokens)]; fee := 1000000;
  validity_interval_end := None; certificates := Some [Reg (KeyHash [2]) 2000000];
  withdrawals := Some [(mkRewardAccount Mainnet (KeyHash [1]), 3000000)]; auxiliary_data_hash := None; validity_interval_start := None; mint := Some tokens;
  script_data_hash := None; collateral := None; Tx.required_signers := None; Tx.network := Some Mainnet; collateral_return := None; total_collateral := None;
  reference_inputs := None; votes := None; proposals := None; treasury_value := None; donation := None |}.
Definition valid_witnesses : WitnessSet := mkWitnessSet (signatures [1; 2]) (Some [native]) None None None None None None.
(** Runs a script that fails. *)
Definition invalid_body : TransactionBody := {|
  hash := [12]; body_len := 200; inputs := [input 2]; outputs := [at_key 3 (Coin 49000000)]; fee := 1000000;
  validity_interval_end := None; certificates := None; withdrawals := None; auxiliary_data_hash := None; validity_interval_start := None; mint := None;
  script_data_hash := Some [55]; collateral := Some [input 1]; Tx.required_signers := None; Tx.network := None; collateral_return := Some (at_key 3 (Coin 2000000));
  total_collateral := Some 3000000; reference_inputs := None; votes := None; proposals := None; treasury_value := None; donation := None |}.
Definition invalid_witnesses : WitnessSet :=
  mkWitnessSet (signatures [1]) None None None None (Some (mkRedeemers [55] (RedeemerMap [(mkRedeemerKey Spend 0, mkExUnits 100000 100000000)]))) None (Some [fails]).
Definition header (size : Z) : Headers.Header :=
  Headers.mkHeader [1] (Headers.mkHeaderBody 20 136252820 None [7] [] (Headers.mkVrfCert [] []) size [] (Headers.mkOperationalCert [] 0 0 []) PROTOCOL_VERSION_10) [].
Definition block : Block := mkBlock 1000 500 (header 1000) [valid_body; invalid_body] [(valid_witnesses, 300); (invalid_witnesses, 300)] ∅ {[1]}.
Definition scripts_of (_ : Environment) (t : TransactionRef) (_ : gmap TransactionInput TransactionOutput)
  : exec PreparationError (list (RedeemerKey * ScriptContext (Arg := PlutusData) * BorrowedScript)) :=
  Ok (if is_some (redeemer (witnesses t)) then [(mkRedeemerKey Spend 0, mkScriptContext (λ _, Ok [DInteger 3]) (mkExUnits 100000 100000000), PlutusV3 fails)] else []).
Definition validated : exec StateFailure ValidationContext :=
  validate_block Some 50 scripts_of Mainnet MAINNET_ERA_HISTORY MAINNET_DEFAULT_PROTOCOL_PARAMETERS 0 None block context.
Definition environment (i : nat) : Environment := block_environment Mainnet MAINNET_DEFAULT_PROTOCOL_PARAMETERS MAINNET_ERA_HISTORY 0 None block i.
Definition valid_transaction : TransactionRef := mkTransactionRef valid_body valid_witnesses 300 true None.

Lemma nothing_known id : id ≠ [7] → unknown id context.
Proof.
  intros Hid. split; [|intros n; reflexivity]. intros n. split; [|apply not_elem_of_empty]. unfold utxo_lookup. cbn.
  rewrite !lookup_insert_ne by (intros [= ?]; congruence). reflexivity.
Qed.
Lemma bodies_fine : Forall well_formed (map snd (transactions block)).
Proof.
  repeat constructor; cbn; try lia; try (by apply NoDup_singleton); by apply not_elem_of_nil.
Qed.
Lemma block_fine : block_ok (map snd (transactions block)) context.
Proof.
  constructor; [apply bodies_fine| |].
  - vm_compute. apply NoDup_cons. split; [by intros ?%list_elem_of_singleton|apply NoDup_singleton].
  - repeat constructor; by apply nothing_known.
Qed.
End SampleBlock.
Import SampleBlock.

Lemma block_conserves_value_witness : ∃ x', validated = Ok x' ∧ held None x' = held None context ∧ held (Some ([0; 9], [5])) x' = held (Some ([0; 9], [5])) context + 7 ∧ fees (ctx_state x') = 4000000.
Proof.
  destruct validated as [x'| | |] eqn:Hv; [|exfalso; revert Hv; vm_compute; congruence..]. exists x'. split; [done|].
  destruct (block_conserves_value Some 50 scripts_of Mainnet MAINNET_ERA_HISTORY (λ _ _ _ _ _, Err Overlay.BackgroundTaskFailed) (λ _ _ _ _, Panic)
    MAINNET_DEFAULT_PROTOCOL_PARAMETERS 0 None block context x' Hv block_fine) as [_ Hx].
  split; [rewrite Hx; change (minted_in _ None) with 0; lia|]. split; [by rewrite Hx|]. revert Hv. vm_compute. intros [= <-]. reflexivity.
Defined.
Lemma no_double_spending_witness : ∃ x', validated = Ok x' ∧ utxo_lookup (input 0) x' = None ∧ utxo_lookup (input 1) x' = None.
Proof.
  destruct validated as [x'| | |] eqn:Hv; [|exfalso; revert Hv; vm_compute; congruence..]. exists x'. split; [done|].
  destruct (no_double_spending Some 50 scripts_of Mainnet MAINNET_ERA_HISTORY (λ _ _ _ _ _, Err Overlay.BackgroundTaskFailed) (λ _ _ _ _, Panic)
    MAINNET_DEFAULT_PROTOCOL_PARAMETERS 0 None block context x' Hv block_fine) as [_ Hx].
  split; apply Hx; [by left|by right; left].
Defined.
Lemma spending_is_authorised_witness : ∃ o, utxo_lookup (input 0) context = Some o ∧ authorised valid_transaction context (mkRedeemerKey Spend 0) o.
Proof.
  destruct (validate_transaction Some 50 scripts_of (environment 0) valid_transaction (rules_of context)) as [y| | |] eqn:Hv; [|exfalso; revert Hv; vm_compute; congruence..].
  destruct (spending_is_authorised Some 50 scripts_of (environment 0) valid_transaction context y Hv) as [Hx _];
    [exact (proj1 (proj1 (Forall_cons _ _ _) bodies_fine))|by apply nothing_known|]. apply (Hx 0%nat). by left.
Defined.

(** ** The fees of reference scripts

    The loop on tiers in [reference_scripts_fee] charges each byte the rate of its tier. *)
Definition sum_below (g : nat → Q) (n : nat) : Q := foldr Qplus 0%Q (map g (seq 0 n)).
Lemma sum_from_ext (g g' : nat → Q) n : ∀ s s', (∀ j, (j < n)%nat → g (s + j)%nat == g' (s' + j)%nat)%Q →
  (foldr Qplus 0%Q (map g (seq s n)) == foldr Qplus 0%Q (map g' (seq s' n)))%Q.
Proof.
  induction n as [|n IH]; intros s s' Hg; [done|]. cbn [seq map foldr]. rewrite (IH (S s) (S s')).
  - specialize (Hg 0%nat ltac:(lia)). rewrite !Nat.add_0_r in Hg. by rewrite Hg.
  - intros j Hj. specialize (Hg (S j) ltac:(lia)). by rewrite !Nat.add_succ_r in Hg.
Qed.
Lemma sum_app (l1 l2 : list Q) : (foldr Qplus 0%Q (l1 ++ l2) == foldr Qplus 0%Q l1 + foldr Qplus 0%Q l2)%Q.
Proof. induction l1 as [|q l1 IH]; cbn [foldr app]; [by rewrite Qplus_0_l|]. by rewrite IH, Qplus_assoc. Qed.
Lemma sum_below_split g n m : (sum_below g (n + m) == sum_below g n + sum_below (λ j, g (n + j)%nat) m)%Q.
Proof.
  unfold sum_below. rewrite seq_app, map_app, sum_app. apply Qplus_comp; [reflexivity|]. apply sum_from_ext. intros j _. reflexivity.
Qed.
Lemma sum_below_const g n q : (∀ j, (j < n)%nat → g j == q)%Q → (sum_below g n == q * inject_Z (Z.of_nat n))%Q.
Proof.
  intros Hg. induction n as [|n IH]; [unfold sum_below; cbn; ring|]. replace (S n) with (n + 1)%nat by lia. rewrite sum_below_split, IH by (intros; apply Hg; lia).
  unfold sum_below. cbn [seq map foldr]. rewrite Nat.add_0_r, (Hg n) by lia. rewrite Nat2Z.inj_add, inject_Z_plus. change (inject_Z (Z.of_nat 1)) with 1%Q. ring.
Qed.
(** The price of a byte, by its position: the rate grows by the multiplier every [stride] bytes. *)
Definition byte_price (stride : nat) (rate multiplier : Q) (j : nat) : Q := (rate * Qpower multiplier (Z.of_nat (j / stride)))%Q.
Definition bytes_price (stride : nat) (rate multiplier : Q) (size : nat) : Q := sum_below (byte_price stride rate multiplier) size.

Lemma first_tier stride rate multiplier j : (j < stride)%nat → (byte_price stride rate multiplier j == rate)%Q.
Proof. intros Hj. unfold byte_price. rewrite Nat.div_small by done. change (Qpower multiplier (Z.of_nat 0)) with 1%Q. apply Qmult_1_r. Qed.
Lemma next_tier stride rate multiplier j : (0 < stride)%nat → ¬ (multiplier == 0)%Q → (byte_price stride rate multiplier (stride + j) == byte_price stride (rate * multiplier) multiplier j)%Q.
Proof.
  intros Hs Hm. unfold byte_price. replace ((stride + j) / stride)%nat with (1 + j / stride)%nat.
  - rewrite Nat2Z.inj_add, Qpower_plus by done. change (Qpower multiplier (Z.of_nat 1)) with multiplier. ring.
  - replace (stride + j)%nat with (1 * stride + j)%nat by lia. rewrite Nat.div_add_l by lia. done.
Qed.
Lemma sum_below_ext g g' n : (∀ j, (j < n)%nat → g j == g' j)%Q → (sum_below g n == sum_below g' n)%Q.
Proof. intros Hg. apply sum_from_ext. exact Hg. Qed.
Lemma byte_price_proper stride r r' m j : (r == r')%Q → (byte_price stride r m j == byte_price stride r' m j)%Q.
Proof. intros Hr. unfold byte_price. by rewrite Hr. Qed.
Lemma tiers_price {E : Type} stride m : (0 < stride)%nat → (0 < m)%Q → ∀ fuel size r f, (size <= fuel)%nat →
  ∃ q, tiers (E := E) fuel (Z.of_nat stride) m r f (Z.of_nat size) = Ok q ∧ (q == f + bytes_price stride r m size)%Q.
Proof.
  intros Hs Hm. assert (¬ (m == 0)%Q) as Hm0 by (intros He; rewrite He in Hm; by apply Qlt_irrefl in Hm).
  induction fuel as [|fuel IH]; intros size r f Hf; cbn [tiers]; destruct (Z.leb_spec (Z.of_nat stride) (Z.of_nat size)) as [Hle|Hlt]; [lia| |..].
  2: { destruct (IH (size - stride)%nat (ratio_mul r m) (ratio_add f (ratio_mul r (ratio_of (Z.of_nat stride)))) ltac:(lia)) as (q & Hq & Hv).
    exists q. rewrite <- Nat2Z.inj_sub by lia. split; [exact Hq|]. rewrite Hv. unfold ratio_add, ratio_mul, ratio_of. rewrite !Qred_correct.
    unfold bytes_price at 2. replace size with (stride + (size - stride))%nat at 2 by lia. rewrite sum_below_split, (sum_below_const _ stride r) by (intros; by apply first_tier).
    rewrite <- Qplus_assoc. do 2 (apply Qplus_comp; [reflexivity|]). apply sum_below_ext. intros j _. rewrite next_tier by done. apply byte_price_proper. apply Qred_correct. }
  all: eexists; split; [reflexivity|]; unfold ratio_add, ratio_mul, ratio_of; rewrite !Qred_correct; apply Qplus_comp; [reflexivity|];
    unfold bytes_price; rewrite (sum_below_const _ size r); [reflexivity|]; intros j Hj; apply first_tier; lia.
Qed.

(** C32: the fee of reference scripts is computed and is the sum, rounded down once, of the price of each of their bytes, which grows by the
    multiplier every stride: the loop on whole tiers and its last partial tier end, skip no byte and charge none twice. *)
Theorem reference_fee_by_byte {E : Type} (size stride : nat) base multiplier r m : into_safe_ratio (E := E) base = Ok r → into_safe_ratio (E := E) multiplier = Ok m →
  (0 < stride)%nat → (0 < m)%Q → Qfloor (bytes_price stride r m size) <= u64_max →
  reference_scripts_fee (E := E) (Z.of_nat size) (Z.of_nat stride) base multiplier = Ok (Qfloor (bytes_price stride r m size)).
Proof.
  intros Hr Hm Hs Hpos Hb. unfold reference_scripts_fee. rewrite Hm. cbn [mbind exec_bind]. rewrite (proj2 (Z.ltb_lt _ _)) by lia.
  destruct (ratio_leb m SafeRatio_zero) eqn:Hz; [apply Qle_bool_iff in Hz; by apply Qle_not_lt in Hz|]. cbn. rewrite Hr. cbn. rewrite Nat2Z.id.
  destruct (tiers_price (E := E) stride m Hs Hpos size size r SafeRatio_zero (Nat.le_refl _)) as (q & -> & Hq). cbn. unfold floor_to_lovelace.
  assert (Qfloor q = Qfloor (bytes_price stride r m size)) as -> by (apply Qfloor_comp; rewrite Hq; apply Qplus_0_l). by rewrite (proj2 (Z.leb_le _ _)).
Qed.
Lemma reference_fee_by_byte_witness : ∃ base multiplier, reference_scripts_fee (E := unit) 60 25 base multiplier = Ok 1041.
Proof.
  exists (expect_ratio (RationalNumber_new 15 1)), (expect_ratio (RationalNumber_new 12 10)).
  etransitivity; [apply (reference_fee_by_byte 60 25 _ _ (15 # 1) (6 # 5)); [reflexivity|reflexivity|lia|reflexivity|vm_compute; congruence]|vm_compute; reflexivity].
Defined.
